(* ===== verification/_CoqProject ===== *)
-Q . S2P
Prelude.v
IRTypes.v
Effect.v
NodeInfo.v
SmallVector.v
Graph.v
GraphInv.v
GraphReplace.v
GraphFrameState.v
Region.v
DependencyIndex.v
DirtyClosure.v
RegionSafety.v
Codec.v
Serialize.v
SerializeRoundtrip.v
ResultType.v
Verifier.v
VerifierSound.v
PassSupport.v
PassLaw.v
PassGrow.v
PassRewire.v
DCE.v
GVN.v
Machine.v
JavaSem.v
ConstFold.v
Simplify.v
SimplifyValues.v
SimplifyRules.v
SimplifyRun.v
SCCP.v
SccpLattice.v
SccpFix.v
SccpSound.v
SccpApply.v
SccpRun.v
ControlFlow.v
ControlFlowReach.v
NullFold.v
Passes.v
PassesSpec.v
RbcOpcode.v
Rbc.v
RbcVerifier.v
RbcBlocks.v
RbcTotal.v
RbcFlow.v
RbcSound.v
RbcDescriptor.v
RbcBuilder.v
RbcAssemble.v
RbcAssembleSpec.v
RbcBuilderPool.v
RbcBuilderGate.v
RbcLex.v
CharConv.v
RbcParse.v
RbcPrint.v
RbcTextTotal.v
RbcTextLex.v
FloatText.v
RbcTextParse.v
RbcTextLines.v
RbcTextResolve.v
RbcTextRound.v
Heap.v
JavaString.v
Runtime.v
Frame.v
Interp.v
Dispatch.v
RuntimeInv.v
InterpInv.v
InterpSafe.v
InterpRun.v
InterpArith.v
InterpExn.v
InterpLimits.v
