(* ===== verification/Prelude.v ===== *)
(** * B-2 AI-Compiler: a verification library

    B-2 is a tiered Java compiler written in C++. Its optimising tiers share one
    sea-of-nodes IR (include/b2/ir, compiler/ir/core): a graph of nodes in an
    arena, with an edge pool, def-use lists, side tables for deoptimisation and
    speculation, a verifier that gates every pass and every load, and a
    versioned binary form. On top of it the partial-deoptimisation pipeline
    (include/b2/pipeline, compiler/pipeline/src) indexes speculative
    dependencies, expands an invalidated node to the set of nodes that must be
    recompiled, and decides whether a region can be replaced safely. Optimisation
    passes (compiler/passes/src) rewrite the graph through a shared protocol.
    Both source paths meet in a register bytecode (include/b2/rbc,
    compiler/rbc/src) whose verifier is the gate of every tier; the lowest tier
    interprets it (include/b2/interp, compiler/interp/src) and is where every
    other tier deoptimises to. This library models that core and proves what makes
    it correct.

    ** Files

    - [Prelude]: machine-width integers ([u8] .. [u64], [fits16] ..), indexed
      vectors ([vget], [vset], [vlen] on lists), the sorted-vector algorithms of
      [<algorithm>] the sources call ([lower_bound], [binary_search], [sort],
      [unique], [remove_if]) with their specifications, tactics and hints.
    - [IRTypes]: include/b2/ir/Types.h. Types, lanes, [join], value
      representations, vector operation legality, packed vector payloads.
    - [Effect]: include/b2/ir/Effect.h. Effect classes, the construction rules
      of the reorder table and its constant-time lookup.
    - [NodeInfo]: include/b2/ir/Node.h and compiler/ir/core/NodeInfo.cpp. Node
      kinds, flags, the node record and all rows of the registry.
    - [SmallVector]: include/b2/ir/SmallVector.h, with inline and heap storage
      and the memory resource that owns the heap buffer.
    - [Graph]: include/b2/ir/Graph.h and compiler/ir/core/Graph.cpp. The state
      is the record [Graph] (arena, edge pool, use lists, FrameState
      descriptors with their flat virtual-object vector, speculation and
      dependency tables, epoch, replacement log); each method is a function from
      graph to graph, replay hooks included.
    - [GraphInv]: the invariants ([storage_ok], [uses_exact], [graph_ok],
      [closed]) and their preservation by the edge primitives.
    - [GraphReplace]: replacement, removal and graphs reachable through the
      mutation API. [GraphFrameState]: the FrameState tables.
    - [Region], [DependencyIndex], [DirtyClosure], [RegionSafety]:
      include/b2/pipeline and compiler/pipeline/src, function by function.
    - [Codec]: byte encoders, the bounds-checked [Cursor] and a parser monad;
      the class [Codec] states that a reader inverts a writer, the class [Local]
      that a parser never looks past what it consumes.
    - [Serialize]: compiler/ir/core/Serialize.cpp; [SerializeRoundtrip]: its
      theorems.
    - [ResultType]: [resultTypeOf] of compiler/ir/core/Printer.cpp.
    - [Verifier]: compiler/ir/core/Verifier.cpp, all passes with their
      diagnostics; [VerifierSound]: what acceptance guarantees.
    - [PassSupport]: compiler/passes/src/PassSupport.cpp with the budget,
      telemetry and sink cache of PassInternal.h and Passes.h. The sinks live in
      the graph they serve, so the operations take and return both.
      [PassLaw]: the tombstone law (every edge of every node, live or dead, ends
      on a live node); [PassGrow], [PassRewire]: creating sinks and rewiring keep
      it.
    - [DCE], [GVN]: compiler/passes/src/DCE.cpp and GVN.cpp with their theorems.
    - [Machine]: 32- and 64-bit wrap-around, IEEE bit patterns decoded to
      [spec_float] and back, exact comparison, truncation and [fmod]. [JavaSem]:
      the Java meaning of every foldable operator, independent of the C++.
    - [ConstFold]: the constant evaluators of compiler/passes/src/Simplify.cpp
      ([evalBinOp], [evalUnaryOp] and the folders they call), exact against
      [JavaSem]. [Simplify]: the rest of that file, rule by rule and
      [runSimplify]; [SimplifyValues], [SimplifyRules]: each rule keeps the value
      it replaces; [SimplifyRun]: the sweeps.
    - [SCCP]: compiler/passes/src/SCCP.cpp, the struct [Sccp] as a record and
      every method a function on it. [SccpLattice]: the order of lattice values
      and monotone evaluation; [SccpFix]: the worklists reach a fixpoint;
      [SccpSound]: executions of a graph and what the fixpoint says of them;
      [SccpApply], [SccpRun]: the rewriting and the whole pass.
    - [ControlFlow]: compiler/passes/src/ControlFlow.cpp, region repair, the
      unreachable sweep, branch normalization and null-check folding;
      [ControlFlowReach]: the sweep's reachability; [NullFold]: null-check folding.
      [Passes]: compiler/passes/src/Passes.cpp, the registry, the switches, the
      dispatcher and the pipeline, with the escape analysis as a parameter;
      [PassesSpec]: its theorems.
    - [RbcOpcode]: include/b2/rbc/Type.h, Opcode.h and compiler/rbc/src/Opcode.cpp,
      all 150 rows; [Rbc]: Rbc.h and Rbc.cpp.
    - [RbcVerifier]: compiler/rbc/src/Verifier.cpp, phase by phase, the dataflow
      variables as the record [Work] and the final sweep's as [Sweep].
      [RbcBlocks]: its basic blocks; [RbcTotal]: it returns; [RbcFlow]: its
      fixpoint; [RbcSound]: the type-tag machine and safety; [RbcDescriptor]: the
      two descriptor parsers.
    - [RbcBuilder]: include/b2/rbc/RbcBuilder.h and compiler/rbc/src/RbcBuilder.cpp,
      every factory, labels and [finish]. [RbcAssemble]: a client as a list of calls,
      the text it spells and what its items assemble to; [RbcAssembleSpec]: the
      builder follows that text; [RbcBuilderPool]: constants; [RbcBuilderGate]: what a
      finished method still owes the verifier.
    - [RbcLex], [RbcParse], [RbcPrint]: compiler/rbc/src/RbcText.cpp, the text form
      of a program: tokens, the parser with its fixup lists as a state monad over
      [std::expected], the printer. [CharConv]: [std::from_chars] and
      [std::to_chars] as it calls them. [FloatText]: floating text reads back, since 17
      digits tell any two values apart. [RbcTextTotal]: the parser answers;
      [RbcTextLex], [RbcTextParse], [RbcTextLines], [RbcTextResolve]: what printed
      text lexes to, what the parser makes of each operand, line and fixup list;
      [RbcTextRound]: whole programs.
    - [Heap]: include/b2/interp/Value.h, Heap.h and compiler/interp/src/Heap.cpp. A
      [Value] is a tag and the 64-bit word of the union, a member being read from
      its low bits; [JavaString]: Java's text of floats and doubles; [Runtime]:
      Runtime.h and Runtime.cpp; [Frame]: frames and their dump.
    - [Interp]: the data of Interp.h, the numeric kernels, the exception and call
      protocols, inline caches and dispatch profiles of Interp.cpp; [Dispatch]: a
      handler per opcode, [step], [loop], [run] and [resume]. Undefined behaviour
      of the C++ (a subscript out of range, [back()] of an empty stack) is [None],
      and [Undefined] for a whole run.
    - [RuntimeInv]: the class registry, monitors and what each service keeps;
      [InterpInv]: the invariant of the running machine and the protocols;
      [InterpSafe]: every handler keeps it; [InterpRun]: whole runs.
      [InterpArith]: the arithmetic opcodes against [JavaSem] and the graph
      builder's lowering table; [InterpExn]: exceptions and assignability;
      [InterpLimits]: programs on which the code does not do what it promises.

    ** What the theorems show

    - Graph: the def-use lists are exact after any sequence of API calls whose
      operands exist ([def_use_exact]), with an example of what an operand that
      does not exist yet costs ([forward_reference_loses_use]); full
      specifications of [replaceNode], [killNode] and [appendFrameStateVobj].
    - Serialization: bytes read back give the same graph, exact use lists
      included, and the same bytes ([serialize_roundtrip]); truncation is an
      error ([truncated_rejected]); a replaced node killed later is the state
      that does not survive ([rekilled_node_not_preserved]).
    - Verifier: it returns ([verify_total]) whenever the type computation does
      ([resultTypeOf_terminates] says exactly when that is); an accepted graph
      is structurally sound, every operand meets the type its node kind demands,
      those of vector nodes included, and its FrameStates can be rebuilt
      ([accepted_structure], [accepted_operand_types], [accepted_framestate]).
      [resultTypeOf_self_phi_diverges] and [nested_memory_phis_rejected] are
      two limits of the code.
    - Pipeline: the dependency index implements a finite map
      ([index_refines]); the dirty closure is the reachable set and the loop
      ends ([expandDirtyClosure_spec]); a region called safe satisfies a
      declarative contract ([safe_region_contract], [checkRegionSafety_total]).
      [retire_drops_shared_association], [budget_ignores_seeds] and
      [checkRegionSafety_diverges] are limits of the code.
    - Data: [join] is a least upper bound, the reorder table agrees with its
      rules and never moves shared writes over synchronisation, the registry is
      well formed, packed payloads and lane types round-trip, [SmallVector]
      implements a sequence.
    - Passes: [replace] and [kill] keep the tombstone law ([replace_keeps_law],
      [kill_keeps_law]) except for values without a sink
      ([kill_leaves_dead_input]); dead code elimination removes all and only
      unobservable nodes ([runDCE_spec]); value numbering changes no result
      ([runGVN_preserves_values]).
    - Simplification: a folded constant is the Java result, wrap-around, division,
      shift counts, NaN and saturating conversions included ([evalBinOp_exact],
      [evalUnaryOp_exact]); on an acyclic graph with room for new nodes ([simp_ok])
      a run keeps the value of every node ([runSimplify_preserves_values]). A phi
      that reads itself makes [replace] recurse for ever
      ([replace_by_reader_diverges]).
    - Constant propagation: an execution is a path of control nodes, with the
      values of the Phis chosen on the way and those of loads, calls and
      parameters arbitrary ([reach]). SCCP keeps every execution
      ([runSCCP_keeps_executions]) and its claims are true wherever control can
      be ([sccp_claims_hold]), on a well-formed graph ([sccp_graph]); both need that
      no [InstanceOf] has a receiver known not to be null, for which the pass is
      wrong ([sccp_instanceof_fresh_object_false]).
    - Control flow: the sweep marks exactly what control flows to
      ([flowReach_exact]), so what it takes for unreachable never runs
      ([unmarked_never_runs]); it may stop with unreachable code left
      (an example: [sweep_leaves_unreachable_code]). Null-check folding removes checks
      of values that are never null and nothing else, and leaves none when its budget
      is enough ([runNullCheckFolding_spec], on graphs with [guards_ok]).
    - Pass driver: the pipeline's verdict is the verifier's on the graph it returns
      ([cleanup_verdict]); a switch selects the pass it names ([switches_select]), but
      the pipeline gives the same result whether the switches of the six passes it
      steps are on or off ([cleanup_ignores_switches]).
    - Bytecode: the verifier returns on every input ([rbc_verify_total]) and what
      it accepts does not go wrong ([rbc_type_safety]), with the operands it does
      not look at ([value_operands_unchecked]); the descriptor parsers agree
      ([descriptor_parsers_agree]).
    - Builder: label patching is a two-pass assembly, and [finish] says when there is
      nothing to assemble ([finish_assembles]); the index of a constant reads it back
      ([interned_constant_survives]), but not that of a switch table
      ([constSwitch_is_patched]); the verifier's structural phases refuse a finished
      method for the few reasons of [verifier_only] and no other
      ([finished_structure]), one of which the builder meant to allow
      ([registerless_call_refused]).
    - Bytecode text: the parser answers every text with a program or with one error
      at an offset within it ([parseRbcText_total]); a program that is [printable]
      is read back from its text as it was ([text_roundtrip]). [printable] is an
      executable test: words that are one token, operands in the fields the opcode
      has, targets in the code, canonical switch constants, any floating constant
      but a NaN with a payload, which its text does not carry. Whatever is read from a
      text without a class line prints to a text that is rejected
      ([classless_reprint_rejected]); other such programs are in
      [accepted_text_reprints_badly].
    - Interpreter: no run of a program with [clinit_ok] has undefined behaviour,
      whatever the arguments and the number of instructions ([run_memory_safe]), nor has a
      resumed frame of a verified one ([resume_memory_safe]); every monitor is free
      when a run of fewer than 2^32 - 1 instructions ends ([run_releases_monitors]) and
      the frame stack of a run that goes on is bounded and well formed
      ([run_frames_bounded]). A run starts from a [quiescent] runtime: a consistent class
      registry and no monitor held. The hypothesis [clinit_ok] (method 0 of a program
      with an initialiser declares no local) is needed:
      [initialiser_is_method_zero], [clinit_locals_undefined]. The arithmetic
      opcodes are Java's operators, throw on an integer division by zero and nowhere
      else, and agree with the constant evaluators ([interp_bin_exact], [interp_un_exact]); a throw finds the handler the
      contract says and releases the monitors in between ([throw_spec]);
      assignability is subtyping ([isAssignableFrom_spec]). Types are weaker than
      the contract says ([accepted_int_method_returns_null]), and so are dispatch
      profiles ([caught_trap_is_profiled]).

    ** Conventions

    An unsigned integer is an [N] and every narrowing conversion is written out;
    a [std::vector] is a list indexed by [N]; a diagnostic list is a list of
    node and message. Reads outside an array that the code guards are guarded
    here; [badNode] is the sentinel that [Graph::node] returns.

    Fuel. A recursion or a loop that is not structural takes a [nat] of fuel
    and [None] means it did not return. Where the code bounds the loop the fuel
    is computed from the graph and proved sufficient (memory walks, caller
    chains, virtual-object cycles in [verify_total]; the dirty closure in
    [expandDirtyClosure_spec]; 257 steps for the 8-bit slot loops of the region
    checks; 2^30 + 1 turns for the bytecode verifier's worklist, its own budget;
    for SCCP one turn per unit of budget and one completion round per node).
    The fuel of an interpreter run is the number of instructions: programs may run
    for ever, so the theorems hold for every fuel and speak of the state a longer
    run stops in ([OutOfFuel]). A loop of the text parser has the number of tokens
    left as its fuel, and [parseRbcText_total] says it never runs out. A token's
    offset and length are kept in 32 bits, and its text is the one scanned, which is
    what the code cuts out of a text shorter than 4 GiB; a text is assumed to be one, a
    builder to get fewer than 2^30 calls ([sized]), and [std::sort] to keep the order
    of equal switch matches, of which the first is reported.
    The passes' loops end because a step moves on or spends budget; their
    theorems give some fuel from which on the result is the same. Where the code
    has no bound ([resultTypeOf]), the theorems quantify over the fuel and say
    when some fuel is enough and when none is.

    The reader takes the verifier as an argument, because its theorems hold for
    any load gate.

    ** Not modelled

    Allocation failure and the text dump of graphs; the interpreter's global safepoint request flag, which no poll acts on; the
    graph builder but for its arithmetic lowering table; escape analysis and
    inlining; the baseline and code generation tiers, the Java frontend and
    TurboScript. Floating-point arithmetic is the Standard Library's [SpecFloat] in
    round-to-nearest, which is what the build flags ask of the host; a NaN has one value and its payload is
    not modelled in results of arithmetic. *)

From stdpp Require Export base numbers list sorting gmap strings.

#[export] Set Warnings "-clear-no-such-hyp".

(** ** Machine-width unsigned integers

    A [std::uintW_t] is an [N]; every narrowing [static_cast] and every
    arithmetic operation that can overflow is written with its wrap-around. *)

Declare Scope b2_scope.
Delimit Scope b2_scope with b2.

Definition u8 (x : N) : N := (x mod 256)%N.
Definition u16 (x : N) : N := (x mod 65536)%N.
Definition u32 (x : N) : N := (x mod 4294967296)%N.
Definition u64 (x : N) : N := (x mod 18446744073709551616)%N.

Definition fits16 (x : N) : Prop := (x < 65536)%N.
Definition fits32 (x : N) : Prop := (x < 4294967296)%N.
Definition fits64 (x : N) : Prop := (x < 18446744073709551616)%N.

#[global] Instance fits16_dec x : Decision (fits16 x).
Proof. unfold fits16. apply _. Defined.
#[global] Instance fits32_dec x : Decision (fits32 x).
Proof. unfold fits32. apply _. Defined.
#[global] Instance fits64_dec x : Decision (fits64 x).
Proof. unfold fits64. apply _. Defined.

(** The two's complement reading of a [std::int64_t] in an unsigned word. *)
Definition i64_to_u64 (z : Z) : N := Z.to_N (z mod 18446744073709551616)%Z.
Definition u64_to_i64 (n : N) : Z :=
  if (n <? 9223372036854775808)%N then Z.of_N n
  else (Z.of_N n - 18446744073709551616)%Z.
Definition is_i64 (z : Z) : Prop :=
  (-9223372036854775808 <= z < 9223372036854775808)%Z.

(** ** Vectors indexed by unsigned integers

    [vget] models a bounds-checked read [if (i < v.size()) v[i]], [vset] a
    write to an index already known to be in range. The comparison comes
    first, so evaluating either never builds the unary form of a wild id. *)

Definition vlen {A} (l : list A) : N := N.of_nat (List.length l).

Definition vget {A} (l : list A) (i : N) : option A :=
  if (i <? vlen l)%N then l !! N.to_nat i else None.

Definition vset {A} (l : list A) (i : N) (x : A) : list A :=
  if (i <? vlen l)%N then <[N.to_nat i := x]> l else l.

(** [if (n >= v.size()) v.resize(n + 1, x)] *)
Definition vgrow {A} (x : A) (l : list A) (n : N) : list A :=
  if (vlen l <=? n)%N then l ++ replicate (N.to_nat (n + 1 - vlen l)) x else l.

(** [0, 1, .., n-1]: the index sequence of a counting loop. *)
Definition indices (n : N) : list N := N.of_nat <$> seq 0 (N.to_nat n).

(** ** Sorted-vector algorithms of [<algorithm>]

    The source applies them to ranges it keeps sorted; [lower_bound] is then
    the length of the prefix of elements below the probe. *)

Fixpoint lower_bound {A} (below : A -> bool) (l : list A) : nat :=
  match l with
  | [] => 0
  | x :: l' => if below x then S (lower_bound below l') else 0
  end.

(** [v.insert(v.begin() + i, x)] *)
Definition insert_at {A} (i : nat) (x : A) (l : list A) : list A :=
  take i l ++ x :: drop i l.

(** [v.erase(std::unique(v.begin(), v.end()), v.end())] *)
Fixpoint unique (l : list N) : list N :=
  match l with
  | [] => []
  | x :: l' =>
      match l' with
      | [] => [x]
      | y :: _ => if (x =? y)%N then unique l' else x :: unique l'
      end
  end.

Definition sort (l : list N) : list N := merge_sort N.le l.

(** [v.erase(std::remove_if(.., p), v.end())] *)
Definition remove_if {A} (p : A -> bool) (l : list A) : list A :=
  List.filter (fun x => negb (p x)) l.

(** [std::binary_search] *)
Definition binary_search (l : list N) (x : N) : bool :=
  match l !! lower_bound (fun y => (y <? x)%N) l with
  | Some y => (y =? x)%N
  | None => false
  end.

Abbreviation strictly_sorted := (StronglySorted N.lt).

(** ** Automation *)

(** Splits every [if] on a comparison in the goal or a hypothesis. *)
Ltac case_cmp :=
  repeat match goal with
  | |- context [N.ltb ?a ?b] => destruct (N.ltb_spec a b)
  | |- context [N.leb ?a ?b] => destruct (N.leb_spec a b)
  | |- context [N.eqb ?a ?b] => destruct (N.eqb_spec a b)
  | H : context [N.ltb ?a ?b] |- _ => destruct (N.ltb_spec a b)
  | H : context [N.leb ?a ?b] |- _ => destruct (N.leb_spec a b)
  | H : context [N.eqb ?a ?b] |- _ => destruct (N.eqb_spec a b)
  end.

Create HintDb b2 discriminated.

(** ** Integer lemmas *)

Lemma u16_small x : fits16 x -> u16 x = x.
Proof. apply N.mod_small. Qed.
Lemma u32_small x : fits32 x -> u32 x = x.
Proof. apply N.mod_small. Qed.
Lemma u64_small x : fits64 x -> u64 x = x.
Proof. apply N.mod_small. Qed.
Lemma u16_fits x : fits16 (u16 x).
Proof. apply N.mod_lt. done. Qed.
Lemma u32_fits x : fits32 (u32 x).
Proof. apply N.mod_lt. done. Qed.
Lemma u32_le x : (u32 x <= x)%N.
Proof. unfold u32. apply N.Div0.mod_le. Qed.
Lemma u64_fits x : fits64 (u64 x).
Proof. apply N.mod_lt. done. Qed.
#[export] Hint Resolve u16_fits u32_fits u64_fits : b2.

Lemma i64_to_u64_fits z : fits64 (i64_to_u64 z).
Proof.
  unfold fits64, i64_to_u64.
  pose proof (Z.mod_pos_bound z 18446744073709551616). lia.
Qed.

Lemma i64_roundtrip z : is_i64 z -> u64_to_i64 (i64_to_u64 z) = z.
Proof.
  unfold is_i64, u64_to_i64, i64_to_u64. intros Hz.
  destruct (Z.ltb_spec z 0).
  - replace (z mod 18446744073709551616)%Z with (z + 18446744073709551616)%Z.
    + case_cmp; lia.
    + apply (Z.mod_unique _ _ (-1)); lia.
  - rewrite Z.mod_small by lia. case_cmp; lia.
Qed.

Lemma testbit_above c w k : (c < 2 ^ w)%N -> (w <= k)%N -> N.testbit c k = false.
Proof.
  intros Hc Hk. destruct (N.eq_dec c 0%N) as [->|Hz]; [apply N.bits_0|].
  apply N.bits_above_log2. apply N.log2_lt_pow2 in Hc; lia.
Qed.

Lemma lor_shiftl_low a w c :
  (c < 2 ^ w)%N -> N.lor (N.shiftl a w) c = (a * 2 ^ w + c)%N.
Proof.
  intros Hc. assert (N.land (N.shiftl a w) c = 0)%N as Hd.
  { apply N.bits_inj. intros k. rewrite N.land_spec, N.bits_0.
    destruct (N.ltb_spec k w).
    - by rewrite N.shiftl_spec_low.
    - by rewrite (testbit_above c w), andb_false_r. }
  rewrite <- N.lxor_lor, <- N.add_nocarry_lxor by done.
  by rewrite N.shiftl_mul_pow2.
Qed.

(** ** Vector lemmas *)

Section Vectors.
Context {A : Type}.
Implicit Types (l : list A) (i j : N) (x : A).

Lemma vget_lookup l i : vget l i = l !! N.to_nat i.
Proof.
  unfold vget, vlen. case_cmp; [done|].
  symmetry. apply lookup_ge_None. lia.
Qed.

Lemma vset_insert l i x : vset l i x = <[N.to_nat i := x]> l.
Proof.
  unfold vset, vlen. case_cmp; [done|].
  symmetry. apply list_insert_ge. lia.
Qed.

Lemma vlen_app l l' : vlen (l ++ l') = (vlen l + vlen l')%N.
Proof. unfold vlen. rewrite length_app. lia. Qed.

Lemma vlen_vset l i x : vlen (vset l i x) = vlen l.
Proof. unfold vlen. by rewrite vset_insert, length_insert. Qed.

Lemma vget_lt_is_Some l i : (i < vlen l)%N <-> is_Some (vget l i).
Proof. rewrite vget_lookup, lookup_lt_is_Some. unfold vlen. lia. Qed.

Lemma vget_Some_lt l i x : vget l i = Some x -> (i < vlen l)%N.
Proof. intros H. apply vget_lt_is_Some. by rewrite H. Qed.

Lemma vget_ge_None l i : vget l i = None <-> (vlen l <= i)%N.
Proof. rewrite vget_lookup, lookup_ge_None. unfold vlen. lia. Qed.

Lemma vget_vset_eq l i x : (i < vlen l)%N -> vget (vset l i x) i = Some x.
Proof.
  intros Hi. rewrite vget_lookup, vset_insert.
  apply list_lookup_insert_eq. unfold vlen in Hi. lia.
Qed.

Lemma vget_vset_ne l i j x : i <> j -> vget (vset l i x) j = vget l j.
Proof.
  intros Hij. rewrite !vget_lookup, vset_insert.
  apply list_lookup_insert_ne. lia.
Qed.

Lemma vget_vset l i j x :
  vget (vset l i x) j =
  if decide (i = j /\ (i < vlen l)%N) then Some x else vget l j.
Proof.
  case_decide as H.
  - destruct H as [<- H]. by apply vget_vset_eq.
  - destruct (decide (i = j)) as [<-|]; [|by apply vget_vset_ne].
    rewrite !(proj2 (vget_ge_None _ _)); rewrite ?vlen_vset; [done|..];
      apply N.nlt_ge; naive_solver.
Qed.

Lemma vget_app l l' i :
  vget (l ++ l') i =
  if (i <? vlen l)%N then vget l i else vget l' (i - vlen l)%N.
Proof.
  rewrite !vget_lookup. unfold vlen. case_cmp.
  - apply lookup_app_l. lia.
  - rewrite lookup_app_r by lia. f_equal. lia.
Qed.

Lemma vget_snoc l x i :
  vget (l ++ [x]) i = if (i =? vlen l)%N then Some x else vget l i.
Proof.
  rewrite vget_app. case_cmp; try lia; [done| |].
  - by replace (i - vlen l)%N with 0%N by lia.
  - rewrite !(proj2 (vget_ge_None _ _)); [done|lia|].
    change (vlen [x]) with 1%N. lia.
Qed.

End Vectors.

Lemma vget_fmap {A B} (f : A -> B) (l : list A) i :
  vget (f <$> l) i = f <$> vget l i.
Proof. by rewrite !vget_lookup, list_lookup_fmap. Qed.

Lemma elem_of_indices n i : i ∈ indices n <-> (i < n)%N.
Proof.
  unfold indices. rewrite list_elem_of_fmap. setoid_rewrite elem_of_seq.
  split; [intros (k & -> & ?); lia|].
  intros Hi. exists (N.to_nat i). lia.
Qed.

Lemma indices_S n : indices (n + 1) = indices n ++ [n].
Proof.
  unfold indices. rewrite N2Nat.inj_add, Nat.add_1_r, seq_S, fmap_app. simpl.
  by rewrite N2Nat.id.
Qed.

Lemma NoDup_indices n : NoDup (indices n).
Proof. unfold indices. apply NoDup_fmap_2; [apply _|]. apply NoDup_seq. Qed.

Lemma length_indices n : length (indices n) = N.to_nat n.
Proof. unfold indices. by rewrite length_fmap, length_seq. Qed.

(** ** Sorted-vector lemmas *)

Lemma elem_of_sort l x : x ∈ sort l <-> x ∈ l.
Proof. unfold sort. by rewrite merge_sort_Permutation. Qed.

Lemma sort_sorted l : StronglySorted N.le (sort l).
Proof. apply StronglySorted_merge_sort; [apply _|intros ??; lia]. Qed.

Lemma elem_of_unique l x : x ∈ unique l <-> x ∈ l.
Proof.
  induction l as [|y [|z l] IH]; [done|done|].
  simpl in *. destruct (N.eqb_spec y z) as [->|].
  - rewrite IH, !elem_of_cons. tauto.
  - rewrite !elem_of_cons in *. rewrite IH. tauto.
Qed.

Lemma unique_sorted l : StronglySorted N.le l -> strictly_sorted (unique l).
Proof.
  induction l as [|y [|z l] IH]; intros Hs; [constructor|repeat constructor|].
  inversion_clear Hs as [|?? Hs' Hf]. simpl.
  destruct (N.eqb_spec y z) as [->|Hne]; [by apply IH|].
  constructor; [by apply IH|].
  apply Forall_forall. intros w Hw.
  change (w ∈ unique (z :: l)) in Hw. rewrite elem_of_unique in Hw.
  rewrite Forall_forall in Hf.
  inversion_clear Hs' as [|?? _ Hf']. rewrite Forall_forall in Hf'.
  pose proof (Hf z ltac:(left)). apply elem_of_cons in Hw as [->|Hw]; [lia|].
  specialize (Hf' w Hw). lia.
Qed.

Lemma sort_unique_sorted l : strictly_sorted (unique (sort l)).
Proof. apply unique_sorted, sort_sorted. Qed.

Lemma elem_of_remove_if {A} (p : A -> bool) l x :
  x ∈ remove_if p l <-> x ∈ l /\ p x = false.
Proof.
  unfold remove_if. rewrite !list_elem_of_In, filter_In, negb_true_iff. done.
Qed.

Lemma remove_if_sorted {A} (R : relation A) p l :
  StronglySorted R l -> StronglySorted R (remove_if p l).
Proof.
  unfold remove_if. induction 1 as [|x l Hs IH Hf]; simpl; [constructor|].
  destruct (p x); simpl; [done|]. constructor; [done|].
  apply Forall_forall. intros y Hy. rewrite Forall_forall in Hf. apply Hf.
  change (y ∈ remove_if p l) in Hy. apply elem_of_remove_if in Hy as [Hy _]. done.
Qed.

(** [lower_bound] cuts a sorted vector at the probe. *)
Lemma lower_bound_prefix {A} (p : A -> bool) l :
  Forall (fun y => p y = true) (take (lower_bound p l) l).
Proof.
  induction l as [|y l IH]; simpl; [constructor|].
  destruct (p y) eqn:E; constructor; auto.
Qed.

Lemma lower_bound_suffix l x :
  strictly_sorted l ->
  Forall (fun y => (x <= y)%N) (drop (lower_bound (fun y => (y <? x)%N) l) l).
Proof.
  induction 1 as [|y l Hs IH Hf]; simpl; [constructor|].
  destruct (N.ltb_spec y x); simpl; [done|].
  constructor; [done|]. eapply Forall_impl; [done|]. simpl. lia.
Qed.

Lemma binary_search_spec l x :
  strictly_sorted l -> binary_search l x = true <-> x ∈ l.
Proof.
  intros Hsort. unfold binary_search. induction Hsort as [|y l Hs IH Hf]; simpl.
  { rewrite elem_of_nil. naive_solver. }
  rewrite elem_of_cons. destruct (N.ltb_spec y x) as [Hlt|Hge]; simpl.
  - rewrite IH. split; [tauto|]. intros [->|]; [lia|done].
  - rewrite N.eqb_eq. split; [intros ->; by left|].
    intros [->|Hx]; [done|]. rewrite Forall_forall in Hf.
    specialize (Hf x Hx). lia.
Qed.

Lemma elem_of_insert_at {A} i (x y : A) l : y ∈ insert_at i x l <-> y = x \/ y ∈ l.
Proof.
  unfold insert_at. rewrite elem_of_app, elem_of_cons.
  rewrite <- (take_drop i l) at 3. rewrite elem_of_app. tauto.
Qed.

Lemma length_insert_at {A} i (x : A) l : length (insert_at i x l) = S (length l).
Proof.
  unfold insert_at. rewrite length_app. simpl.
  rewrite <- (take_drop i l) at 3. rewrite length_app. lia.
Qed.

Lemma insert_at_sorted l x :
  strictly_sorted l -> x ∉ l ->
  strictly_sorted (insert_at (lower_bound (fun y => (y <? x)%N) l) x l).
Proof.
  unfold insert_at. induction 1 as [|y l Hs IH Hf]; intros Hx; simpl.
  { repeat constructor. }
  rewrite not_elem_of_cons in Hx. destruct Hx as [Hxy Hx].
  rewrite Forall_forall in Hf.
  destruct (N.ltb_spec y x) as [Hlt|Hge]; simpl.
  - constructor; [by apply IH|]. apply Forall_forall. intros z Hz.
    apply (elem_of_insert_at _ x z l) in Hz as [->|Hz]; [done|by apply Hf].
  - constructor; [constructor; [done|by apply Forall_forall]|].
    constructor; [lia|]. apply Forall_forall. intros z Hz.
    specialize (Hf z Hz). lia.
Qed.

Lemma strictly_sorted_NoDup l : strictly_sorted l -> NoDup l.
Proof.
  induction 1 as [|y l Hs IH Hf]; constructor; [|done].
  intros Hy. rewrite Forall_forall in Hf. specialize (Hf y Hy). lia.
Qed.

(** A strictly sorted vector is determined by its elements. *)
Lemma strictly_sorted_ext l l' :
  strictly_sorted l -> strictly_sorted l' ->
  (forall x, x ∈ l <-> x ∈ l') -> l = l'.
Proof.
  intros Hl Hl' Hext.
  assert (AntiSymm eq N.lt) by (intros ??; lia).
  apply (StronglySorted_unique N.lt); [done..|].
  by apply NoDup_Permutation; [apply strictly_sorted_NoDup..|].
Qed.

Lemma strictly_sorted_bound l m :
  strictly_sorted l -> (forall x, x ∈ l -> (x < m)%N) -> (vlen l <= m)%N.
Proof.
  intros Hs Hb. unfold vlen.
  assert (length l <= length (indices m)) as Hle.
  { apply submseteq_length, NoDup_submseteq; [by apply strictly_sorted_NoDup|].
    intros x Hx. by apply elem_of_indices, Hb. }
  rewrite length_indices in Hle. lia.
Qed.
