(* ===== verification/IRTypes.v ===== *)
(** * IR value types (include/b2/ir/Types.h)

    The value-type lattice of the sea-of-nodes IR, value representations,
    vector operation legality and the packed vector payload. An [enum class]
    with a fixed underlying type is an inductive type with the source's
    enumerators, a [code] function (the underlying value) and an [of_code]
    function (the [static_cast] from an integer of that width); [Raw] carries
    the values a cast can produce beyond the last enumerator. *)

From S2P Require Import Prelude.

Local Open Scope N_scope.

(** ** Interned ids *)

Abbreviation NodeId := N.
Definition kInvalidNodeId : NodeId := 4294967295.

(** ** The type lattice *)

Module IRType.
Inductive IRType :=
| Bottom | Int | Long | Float | Double | Null | Ref | Tagged
| Int8 | Int16
| VectorI8 | VectorI16 | VectorI32 | VectorI64 | VectorF32 | VectorF64
| _Count
| Raw (c : N).

Definition code (t : IRType) : N :=
  match t with
  | Bottom => 0 | Int => 1 | Long => 2 | Float => 3 | Double => 4
  | Null => 5 | Ref => 6 | Tagged => 7 | Int8 => 8 | Int16 => 9
  | VectorI8 => 10 | VectorI16 => 11 | VectorI32 => 12
  | VectorI64 => 13 | VectorF32 => 14 | VectorF64 => 15
  | _Count => 16 | Raw c => c
  end.

Definition of_code (c : N) : IRType :=
  match c with
  | 0 => Bottom | 1 => Int | 2 => Long | 3 => Float | 4 => Double
  | 5 => Null | 6 => Ref | 7 => Tagged | 8 => Int8 | 9 => Int16
  | 10 => VectorI8 | 11 => VectorI16 | 12 => VectorI32
  | 13 => VectorI64 | 14 => VectorF32 | 15 => VectorF64
  | 16 => _Count | _ => Raw c
  end.
End IRType.
Import IRType.
Abbreviation IRType := IRType.IRType.

#[export] Instance IRType_eq_dec : EqDecision IRType.
Proof. solve_decision. Defined.

(** [static_cast<IRType>(std::uint32_t)]: the underlying type is 8 bits. *)
Definition castIRType (x : N) : IRType := of_code (u8 x).

Definition isScalarType (t : IRType) : bool :=
  match t with
  | Int | Long | Float | Double | Null | Ref | Tagged => true
  | _ => false
  end.

Definition isVectorType (t : IRType) : bool :=
  (code VectorI8 <=? code t) && (code t <=? code VectorF64).

Definition laneTypeOf (t : IRType) : IRType :=
  match t with
  | VectorI8 => Int8
  | VectorI16 => Int16
  | VectorI32 => Int
  | VectorI64 => Long
  | VectorF32 => Float
  | VectorF64 => Double
  | _ => Bottom
  end.

Definition vectorOfLane (lane : IRType) : IRType :=
  match lane with
  | Int8 => VectorI8
  | Int16 => VectorI16
  | Int => VectorI32
  | Long => VectorI64
  | Float => VectorF32
  | Double => VectorF64
  | _ => Bottom
  end.

Definition join (a b : IRType) : IRType :=
  if decide (a = b) then a
  else if bool_decide (a = Null) && bool_decide (b = Ref)
          || bool_decide (a = Ref) && bool_decide (b = Null)
  then Ref
  else Bottom.

Definition isAssignable (from to : IRType) : bool :=
  if decide (from = to) then true
  else bool_decide (from = Null) && bool_decide (to = Ref).

Definition typeName (t : IRType) : string :=
  match t with
  | Bottom => "bottom"
  | Int => "int"
  | Long => "long"
  | Float => "float"
  | Double => "double"
  | Null => "null"
  | Ref => "ref"
  | Tagged => "tagged"
  | Int8 => "i8"
  | Int16 => "i16"
  | VectorI8 => "vec.i8"
  | VectorI16 => "vec.i16"
  | VectorI32 => "vec.i32"
  | VectorI64 => "vec.i64"
  | VectorF32 => "vec.f32"
  | VectorF64 => "vec.f64"
  | _Count | Raw _ => "?"
  end.

(** ** Value representations *)

Module ValueRep.
Inductive ValueRep :=
| UnboxedInt32 | UnboxedInt64 | UnboxedFloat32 | UnboxedFloat64
| CompressedOop | NaNBoxedRef | TaggedInt31 | BoxedObject | Polymorphic
| Raw (c : N).

Definition code (r : ValueRep) : N :=
  match r with
  | UnboxedInt32 => 0 | UnboxedInt64 => 1 | UnboxedFloat32 => 2
  | UnboxedFloat64 => 3 | CompressedOop => 4 | NaNBoxedRef => 5
  | TaggedInt31 => 6 | BoxedObject => 7 | Polymorphic => 8 | Raw c => c
  end.

Definition of_code (c : N) : ValueRep :=
  match c with
  | 0 => UnboxedInt32 | 1 => UnboxedInt64 | 2 => UnboxedFloat32
  | 3 => UnboxedFloat64 | 4 => CompressedOop | 5 => NaNBoxedRef
  | 6 => TaggedInt31 | 7 => BoxedObject | 8 => Polymorphic | _ => Raw c
  end.
End ValueRep.
Abbreviation ValueRep := ValueRep.ValueRep.

#[export] Instance ValueRep_eq_dec : EqDecision ValueRep.
Proof. solve_decision. Defined.

Definition castValueRep (x : N) : ValueRep := ValueRep.of_code (u8 x).

Definition isValidRep (r : ValueRep) : bool :=
  (ValueRep.code ValueRep.UnboxedInt32 <=? ValueRep.code r)
  && (ValueRep.code r <=? ValueRep.code ValueRep.Polymorphic).

Definition repName (r : ValueRep) : string :=
  match r with
  | ValueRep.UnboxedInt32 => "i32"
  | ValueRep.UnboxedInt64 => "i64"
  | ValueRep.UnboxedFloat32 => "f32"
  | ValueRep.UnboxedFloat64 => "f64"
  | ValueRep.CompressedOop => "oop"
  | ValueRep.NaNBoxedRef => "nanbox"
  | ValueRep.TaggedInt31 => "int31"
  | ValueRep.BoxedObject => "boxed"
  | ValueRep.Polymorphic => "poly"
  | ValueRep.Raw _ => "?"
  end.

(** ** Vector operations *)

Definition kMinVectorLanes : N := 2.
Definition kMaxVectorLanes : N := 64.

Module VectorOp.
Inductive VectorOp :=
| Add | Sub | Mul | Div | Rem | And | Or | Xor | Min | Max | Sum
| _Count
| Raw (c : N).

Definition code (o : VectorOp) : N :=
  match o with
  | Add => 0 | Sub => 1 | Mul => 2 | Div => 3 | Rem => 4 | And => 5
  | Or => 6 | Xor => 7 | Min => 8 | Max => 9 | Sum => 10 | _Count => 11
  | Raw c => c
  end.

Definition of_code (c : N) : VectorOp :=
  match c with
  | 0 => Add | 1 => Sub | 2 => Mul | 3 => Div | 4 => Rem | 5 => And
  | 6 => Or | 7 => Xor | 8 => Min | 9 => Max | 10 => Sum | 11 => _Count
  | _ => Raw c
  end.
End VectorOp.
Abbreviation VectorOp := VectorOp.VectorOp.

Definition castVectorOp (x : N) : VectorOp := VectorOp.of_code (u8 x).

Definition isLegalElementWiseOp (op : VectorOp) (lane : IRType) : bool :=
  match lane with
  | Int8 | Int16 | Int | Long =>
      (VectorOp.code VectorOp.Add <=? VectorOp.code op)
      && (VectorOp.code op <=? VectorOp.code VectorOp.Max)
  | Float | Double =>
      match op with
      | VectorOp.Add | VectorOp.Sub | VectorOp.Mul | VectorOp.Div
      | VectorOp.Rem | VectorOp.Min | VectorOp.Max => true
      | _ => false
      end
  | _ => false
  end.

Definition isLegalReductionOp (op : VectorOp) (lane : IRType) : bool :=
  match lane with
  | Int8 | Int16 | Int | Long =>
      match op with
      | VectorOp.Sum | VectorOp.Min | VectorOp.Max
      | VectorOp.And | VectorOp.Or | VectorOp.Xor => true
      | _ => false
      end
  | Float | Double =>
      match op with
      | VectorOp.Sum | VectorOp.Min | VectorOp.Max => true
      | _ => false
      end
  | _ => false
  end.

Definition vectorOpName (op : VectorOp) : string :=
  match op with
  | VectorOp.Add => "add"
  | VectorOp.Sub => "sub"
  | VectorOp.Mul => "mul"
  | VectorOp.Div => "div"
  | VectorOp.Rem => "rem"
  | VectorOp.And => "and"
  | VectorOp.Or => "or"
  | VectorOp.Xor => "xor"
  | VectorOp.Min => "min"
  | VectorOp.Max => "max"
  | VectorOp.Sum => "sum"
  | VectorOp._Count | VectorOp.Raw _ => "?"
  end.

(** ** Memory barriers *)

Module MemBarKind.
Inductive MemBarKind :=
| LoadLoad | StoreStore | LoadStore | StoreLoad | Acquire | Release
| Raw (c : N).

Definition code (k : MemBarKind) : N :=
  match k with
  | LoadLoad => 0 | StoreStore => 1 | LoadStore => 2 | StoreLoad => 3
  | Acquire => 4 | Release => 5 | Raw c => c
  end.
End MemBarKind.
Abbreviation MemBarKind := MemBarKind.MemBarKind.

Definition memBarName (k : MemBarKind) : string :=
  match k with
  | MemBarKind.LoadLoad => "loadload"
  | MemBarKind.StoreStore => "storestore"
  | MemBarKind.LoadStore => "loadstore"
  | MemBarKind.StoreLoad => "storeload"
  | MemBarKind.Acquire => "acquire"
  | MemBarKind.Release => "release"
  | MemBarKind.Raw _ => "?"
  end.

(** ** Packed vector payload *)

Definition packVecPayload (lane : IRType) (lanes : N) : N :=
  N.lor (u32 (N.shiftl lanes 8)) (code lane).

Definition unpackVecLane (p : N) : IRType := castIRType (N.land p 255).

Definition unpackVecLanes (p : N) : N := N.shiftr p 8.

(** ** Properties *)

(** The order the lattice comment describes: [Null] below [Ref], and the
    conflict value [Bottom] above everything. *)
Definition type_le (a b : IRType) : bool :=
  isAssignable a b || bool_decide (b = Bottom).

Lemma type_le_spec a b :
  type_le a b = true <-> a = b \/ (a = Null /\ b = Ref) \/ b = Bottom.
Proof.
  unfold type_le, isAssignable.
  rewrite orb_true_iff, bool_decide_eq_true. case_decide; [tauto|].
  rewrite andb_true_iff, !bool_decide_eq_true. tauto.
Qed.

Lemma join_cases a b :
  (a = b /\ join a b = a) \/
  (((a = Null /\ b = Ref) \/ (a = Ref /\ b = Null)) /\ join a b = Ref) \/
  (a <> b /\ ~ (a = Null /\ b = Ref) /\ ~ (a = Ref /\ b = Null) /\
   join a b = Bottom).
Proof.
  unfold join. case_decide as Hab; [by left|right].
  destruct (bool_decide (a = Null) && bool_decide (b = Ref)
            || bool_decide (a = Ref) && bool_decide (b = Null)) eqn:E;
    [left|right].
  - rewrite orb_true_iff, !andb_true_iff, !bool_decide_eq_true in E. done.
  - rewrite orb_false_iff, !andb_false_iff, !bool_decide_eq_false in E.
    tauto.
Qed.

Lemma join_upper_l a b : type_le a (join a b) = true.
Proof.
  apply type_le_spec.
  destruct (join_cases a b) as [[-> ->]|[[[[-> ->]|[-> ->]] ->]|(?&?&?& ->)]];
    tauto.
Qed.

Lemma join_comm a b : join a b = join b a.
Proof.
  unfold join. destruct (decide (a = b)), (decide (b = a)); try congruence.
  by rewrite orb_comm, (andb_comm (bool_decide (b = Null))),
    (andb_comm (bool_decide (b = Ref))).
Qed.

Lemma join_least a b c :
  type_le a c = true -> type_le b c = true -> type_le (join a b) c = true.
Proof.
  rewrite !type_le_spec. intros Ha Hb.
  destruct (join_cases a b) as [[-> ->]|[[[[-> ->]|[-> ->]] ->]|(?&?&?& ->)]];
    [tauto| | |right; right]; destruct_or?; destruct_and?; subst; try tauto;
    congruence.
Qed.

Lemma type_le_antisym a b :
  type_le a b = true -> type_le b a = true -> a = b.
Proof.
  rewrite !type_le_spec. intros [?|[[??]|?]] [?|[[??]|?]]; congruence.
Qed.

Lemma type_le_trans a b c :
  type_le a b = true -> type_le b c = true -> type_le a c = true.
Proof.
  rewrite !type_le_spec. intros [?|[[??]|?]] [?|[[??]|?]]; subst;
    try tauto; try congruence.
Qed.

Lemma join_upper_r a b : type_le b (join a b) = true.
Proof. rewrite join_comm. apply join_upper_l. Qed.

(** [ir::join] is the least upper bound of the subtype order in which
    [Null] is below [Ref] and the conflict value [Bottom] is above every type;
    it is therefore commutative, associative and idempotent, so the type of a
    merge point does not depend on the order its predecessors are joined. *)
Theorem join_semilattice a b c :
  type_le a (join a b) = true /\ type_le b (join a b) = true /\
  (type_le a c = true -> type_le b c = true -> type_le (join a b) c = true) /\
  join a a = a /\ join a b = join b a /\
  join a (join b c) = join (join a b) c.
Proof.
  split_and!; auto using join_upper_l, join_upper_r, join_least, join_comm.
  - unfold join. by rewrite decide_True.
  - apply type_le_antisym; repeat apply join_least;
      eauto using join_upper_l, join_upper_r, type_le_trans.
Qed.

Lemma join_semilattice_witness :
  type_le (join Null Ref) Bottom = true /\
  join Null (join Ref Int) = join (join Null Ref) Int.
Proof.
  split.
  - by apply (join_semilattice Null Ref Bottom).
  - apply (join_semilattice Null Ref Int).
Defined.

Lemma code_of_code c : code (of_code c) = c.
Proof.
  destruct c as [|p]; [done|].
  do 5 (destruct p as [p|p|]; try done).
Qed.

Lemma of_code_code_cast x : of_code (code (castIRType x)) = castIRType x.
Proof. unfold castIRType. by rewrite code_of_code. Qed.

Lemma castIRType_of_code c : c < 256 -> castIRType c = of_code c.
Proof. intros Hc. unfold castIRType, u8. by rewrite N.mod_small. Qed.

(** The packed vector payload round-trips: for every lane count below
    2^24 (the lane bounds of the verifier are 2 to 64) and every lane type a
    payload can denote, unpacking what [packVecPayload] packed gives back the
    lane type and the lane count. *)
Theorem vec_payload_roundtrip x lanes :
  lanes < 16777216 ->
  let lane := castIRType x in
  unpackVecLane (packVecPayload lane lanes) = lane /\
  unpackVecLanes (packVecPayload lane lanes) = lanes /\
  fits32 (packVecPayload lane lanes).
Proof.
  intros Hl lane.
  assert (code lane < 256) as Hc.
  { unfold lane, castIRType. rewrite code_of_code. by apply N.mod_lt. }
  assert (packVecPayload lane lanes = lanes * 256 + code lane) as E.
  { unfold packVecPayload. rewrite u32_small; [by apply (lor_shiftl_low _ 8)|].
    unfold fits32. rewrite N.shiftl_mul_pow2. change (2 ^ 8) with 256. lia. }
  rewrite E. split_and!.
  - unfold unpackVecLane.
    change 255 with (N.ones 8). rewrite N.land_ones. change (2 ^ 8) with 256.
    rewrite N.add_comm, N.Div0.mod_add, N.mod_small by done.
    rewrite castIRType_of_code by done. apply of_code_code_cast.
  - unfold unpackVecLanes. rewrite N.shiftr_div_pow2. change (2 ^ 8) with 256.
    rewrite N.div_add_l, N.div_small by done. lia.
  - unfold fits32. lia.
Qed.

Lemma vec_payload_roundtrip_witness :
  let lane := castIRType 3 in
  unpackVecLane (packVecPayload lane 16) = lane /\
  unpackVecLanes (packVecPayload lane 16) = 16 /\
  fits32 (packVecPayload lane 16).
Proof. apply (vec_payload_roundtrip 3 16). reflexivity. Defined.

(** Lane types and vector types are in bijection: over every value an
    8-bit type field can hold, [laneTypeOf] and [vectorOfLane] invert each
    other on vector types and on lane-legal types, and give [Bottom] on
    everything else. *)
Theorem lane_vector_bijection x :
  let t := castIRType x in
  (if isVectorType t
   then vectorOfLane (laneTypeOf t) = t else laneTypeOf t = Bottom) /\
  (vectorOfLane t = Bottom \/
   (isVectorType (vectorOfLane t) = true /\ laneTypeOf (vectorOfLane t) = t)).
Proof.
  intros t. assert (of_code (code t) = t) as Hc by apply of_code_code_cast.
  destruct t as [| | | | | | | | | | | | | | | | |c];
    try (split; [done|by (left + right)]).
  split; [|by left]. unfold isVectorType.
  destruct (code VectorI8 <=? code (Raw c)) eqn:E1,
    (code (Raw c) <=? code VectorF64) eqn:E2; try done.
  exfalso. simpl in *. apply N.leb_le in E1, E2.
  assert (c = 10 \/ c = 11 \/ c = 12 \/ c = 13 \/ c = 14 \/ c = 15)
    as Hcs by lia.
  destruct_or! Hcs; subst c; discriminate Hc.
Qed.
