(* ===== verification/Effect.v ===== *)
(** * The effect model (include/b2/ir/Effect.h)

    The twelve effect classes, the construction rules R1-R9, the 144-entry
    reorder table generated from them and its lookup. *)

From S2P Require Import Prelude.

Local Open Scope N_scope.

Module EffectKind.
Inductive EffectKind :=
| Pure | ReadLocal | ReadShared | WriteLocal | WriteShared | VolatileRead
| VolatileWrite | MonitorEnter | MonitorExit | Allocation | CallOpaque
| ExceptionThrow
| _Count.

Definition code (e : EffectKind) : N :=
  match e with
  | Pure => 0 | ReadLocal => 1 | ReadShared => 2 | WriteLocal => 3
  | WriteShared => 4 | VolatileRead => 5 | VolatileWrite => 6
  | MonitorEnter => 7 | MonitorExit => 8 | Allocation => 9 | CallOpaque => 10
  | ExceptionThrow => 11 | _Count => 12
  end.

(** [static_cast<EffectKind>(unsigned)], on the values the table loop casts. *)
Definition of_code (c : N) : EffectKind :=
  match c with
  | 0 => Pure | 1 => ReadLocal | 2 => ReadShared | 3 => WriteLocal
  | 4 => WriteShared | 5 => VolatileRead | 6 => VolatileWrite
  | 7 => MonitorEnter | 8 => MonitorExit | 9 => Allocation | 10 => CallOpaque
  | 11 => ExceptionThrow | _ => _Count
  end.
End EffectKind.
Import EffectKind.
Abbreviation EffectKind := EffectKind.EffectKind.

#[export] Instance EffectKind_eq_dec : EqDecision EffectKind.
Proof. solve_decision. Defined.

Definition effectCount : N := code _Count.

Definition effectName (e : EffectKind) : string :=
  match e with
  | Pure => "pure"
  | ReadLocal => "read.local"
  | ReadShared => "read.shared"
  | WriteLocal => "write.local"
  | WriteShared => "write.shared"
  | VolatileRead => "volatile.read"
  | VolatileWrite => "volatile.write"
  | MonitorEnter => "monitor.enter"
  | MonitorExit => "monitor.exit"
  | Allocation => "alloc"
  | CallOpaque => "call.opaque"
  | ExceptionThrow => "throw"
  | _Count => "?"
  end.

Inductive EffectOrderResult := Allowed | Forbidden | RequiresCompensation.

#[export] Instance EffectOrderResult_eq_dec : EqDecision EffectOrderResult.
Proof. solve_decision. Defined.

Definition effectOrderName (r : EffectOrderResult) : string :=
  match r with
  | Allowed => "allowed"
  | Forbidden => "forbidden"
  | RequiresCompensation => "compensate"
  end.

Definition isReadEffect (e : EffectKind) : bool :=
  match e with ReadLocal | ReadShared | VolatileRead => true | _ => false end.

Definition isWriteEffect (e : EffectKind) : bool :=
  match e with WriteLocal | WriteShared | VolatileWrite => true | _ => false end.

Definition isThreadLocalEffect (e : EffectKind) : bool :=
  match e with Pure | ReadLocal | WriteLocal => true | _ => false end.

Definition isSyncEffect (e : EffectKind) : bool :=
  match e with
  | VolatileRead | VolatileWrite | MonitorEnter | MonitorExit => true
  | _ => false
  end.

Definition isStrongSyncEffect (e : EffectKind) : bool :=
  match e with
  | VolatileWrite | MonitorEnter | MonitorExit => true
  | _ => false
  end.

(** The construction rules for one pair; the first match wins. *)
Definition ruleImpl (a b : EffectKind) : EffectOrderResult :=
  let eqk x y := bool_decide (x = y) in
  (* R1 *)
  if eqk a Pure || eqk b Pure then Allowed
  (* R2 *)
  else if eqk a CallOpaque || eqk b CallOpaque then
    let other := if eqk a CallOpaque then b else a in
    if eqk other ReadLocal || eqk other WriteLocal then Allowed else Forbidden
  (* R3 *)
  else if eqk a ExceptionThrow || eqk b ExceptionThrow then
    let other := if eqk a ExceptionThrow then b else a in
    match other with
    | ReadLocal | ReadShared | VolatileRead | Allocation => Allowed
    | _ => Forbidden
    end
  else
    let aTL := isThreadLocalEffect a in
    let bTL := isThreadLocalEffect b in
    let aRL := eqk a ReadLocal in
    let bRL := eqk b ReadLocal in
    (* R4 *)
    if aTL && bTL then if aRL && bRL then Allowed else RequiresCompensation
    (* R5 *)
    else if aTL || bTL then Allowed
    else
      let aSync := isSyncEffect a in
      let bSync := isSyncEffect b in
      (* R6 *)
      if aSync && bSync then Forbidden
      (* R9 *)
      else if eqk a Allocation || eqk b Allocation then Allowed
      else
        let aWrite := eqk a WriteShared in
        let bWrite := eqk b WriteShared in
        (* R8 *)
        if eqk a ReadShared && eqk b ReadShared then Allowed
        (* R7 *)
        else if aWrite && isStrongSyncEffect b then Forbidden
        else if isStrongSyncEffect a && bWrite then Forbidden
        else RequiresCompensation.

Definition kN : N := 12.

(** The constexpr constructor: [entries[a][b]] for [a], [b] below [kN]. *)
Definition kEffectOrderTable : list (list EffectOrderResult) :=
  (fun a => (fun b => ruleImpl (of_code a) (of_code b)) <$> indices kN)
    <$> indices kN.

Definition reorderByRule (a b : EffectKind) : EffectOrderResult := ruleImpl a b.

Definition canReorder (a b : EffectKind) : EffectOrderResult :=
  let ra := code a in
  let rb := code b in
  if (kN <=? ra) || (kN <=? rb) then Forbidden
  else default Forbidden (vget kEffectOrderTable ra ≫= fun row => vget row rb).

(** ** Properties *)

Definition all_effects : list EffectKind :=
  [Pure; ReadLocal; ReadShared; WriteLocal; WriteShared; VolatileRead;
   VolatileWrite; MonitorEnter; MonitorExit; Allocation; CallOpaque;
   ExceptionThrow].

(** The table of docs/effect_system.md section 4. *)
Definition documented_table : list (list EffectOrderResult) :=
  let A := Allowed in let F := Forbidden in let C := RequiresCompensation in
  [[A;A;A;A;A;A;A;A;A;A;A;A];
   [A;A;A;C;A;A;A;A;A;A;A;A];
   [A;A;A;A;C;C;C;C;C;A;F;A];
   [A;C;A;C;A;A;A;A;A;A;A;F];
   [A;A;C;A;C;C;F;F;F;A;F;F];
   [A;A;C;A;C;F;F;F;F;A;F;A];
   [A;A;C;A;F;F;F;F;F;A;F;F];
   [A;A;C;A;F;F;F;F;F;A;F;F];
   [A;A;C;A;F;F;F;F;F;A;F;F];
   [A;A;A;A;A;A;A;A;A;A;F;A];
   [A;A;F;A;F;F;F;F;F;F;F;F];
   [A;A;A;F;F;A;F;F;F;A;F;F]].

(** The 144-entry lookup agrees with the construction rules on every pair
    of effect classes, refuses any code outside the table, is symmetric, and is
    exactly the table docs/effect_system.md freezes (78 allowed, 50 forbidden,
    16 requiring compensation). *)
Theorem canReorder_correct a b :
  canReorder a b =
    (if bool_decide (a = _Count) || bool_decide (b = _Count)
     then Forbidden else reorderByRule a b) /\
  canReorder a b = canReorder b a /\
  ((fun x => (fun y => canReorder x y) <$> all_effects) <$> all_effects)
    = documented_table.
Proof.
  split_and!; [destruct a, b; reflexivity..|reflexivity].
Qed.

(** No reordering the table allows or compensates lets a shared write
    cross a lock operation or a volatile write, lets two synchronisation
    actions swap, or moves a non-local effect across an opaque call; and
    speculative reordering is only ever allowed with a thread-local class, an
    allocation, or between operations that read. *)
Theorem canReorder_safety a b :
  (isSyncEffect a = true -> isSyncEffect b = true ->
   canReorder a b = Forbidden) /\
  (a = WriteShared -> isStrongSyncEffect b = true ->
   canReorder a b = Forbidden /\ canReorder b a = Forbidden) /\
  (a = CallOpaque -> isThreadLocalEffect b = false ->
   canReorder a b = Forbidden) /\
  (canReorder a b = Allowed ->
   isThreadLocalEffect a = true \/ isThreadLocalEffect b = true \/
   a = Allocation \/ b = Allocation \/
   ((isReadEffect a = true \/ a = ExceptionThrow) /\
    (isReadEffect b = true \/ b = ExceptionThrow))).
Proof.
  split_and!; destruct a, b; simpl; try discriminate; try done;
    intros; first [done | tauto | discriminate].
Qed.

Lemma canReorder_safety_witness :
  canReorder VolatileRead MonitorEnter = Forbidden /\
  canReorder WriteShared MonitorEnter = Forbidden /\
  canReorder CallOpaque WriteShared = Forbidden /\
  (isThreadLocalEffect ReadShared = true \/ isThreadLocalEffect Allocation = true \/
   ReadShared = Allocation \/ Allocation = Allocation \/
   ((isReadEffect ReadShared = true \/ ReadShared = ExceptionThrow) /\
    (isReadEffect Allocation = true \/ Allocation = ExceptionThrow))).
Proof.
  split_and!.
  - by apply (proj1 (canReorder_safety VolatileRead MonitorEnter)).
  - by apply (proj1 (proj2 (canReorder_safety WriteShared MonitorEnter))).
  - by apply (proj1 (proj2 (proj2 (canReorder_safety CallOpaque WriteShared)))).
  - by apply (proj2 (proj2 (proj2 (canReorder_safety ReadShared Allocation)))).
Defined.

(** The written rules end with "anything not covered defaults to
    Forbidden", but the code's last rule answers RequiresCompensation: a plain
    shared read against a lock operation or a volatile write, a pair no rule
    mentions, may be reordered with compensation. *)
Theorem uncovered_pairs_are_not_forbidden b :
  isStrongSyncEffect b = true ->
  canReorder ReadShared b = RequiresCompensation /\
  canReorder b ReadShared = RequiresCompensation.
Proof. destruct b; done. Qed.

Lemma uncovered_pairs_are_not_forbidden_witness :
  canReorder ReadShared MonitorExit = RequiresCompensation /\
  canReorder MonitorExit ReadShared = RequiresCompensation.
Proof. by apply uncovered_pairs_are_not_forbidden. Defined.
