(* ===== verification/NodeInfo.v ===== *)
(** * Node kinds and the node registry (include/b2/ir/Node.h,
      compiler/ir/core/NodeInfo.cpp)

    The node-kind taxonomy, guard kinds, node flags as a bit mask, input roles,
    node classes, the node record, and the registry with one row per kind. *)

From S2P Require Import Prelude IRTypes Effect.

Local Open Scope N_scope.

(** ** Node kinds *)

Module NodeKind.
Inductive NodeKind :=
| Start | End | Region | If | IfTrue | IfFalse | Switch | SwitchCase
| SwitchDefault | LoopBegin | LoopEnd | LoopExit | Return | Unwind | Deopt
| LoadField | StoreField | LoadStatic | StoreStatic | LoadElem | StoreElem
| ArrayLength | MemBar | MonitorEnter | MonitorExit | New | NewArray
| NewRefArray | NewMultiArray | ClassInit | CallStatic | CallVirtual
| CallInterface | CallDynamic | CallExcept | LoadException | CheckCast
| InstanceOf | Guard | ConstantI | ConstantL | ConstantF | ConstantD
| ConstantNull | ConstantSym | Parameter_ | AddI | SubI | MulI | DivI | RemI
| NegI | ShlI | ShrI | UShrI | AndI | OrI | XorI | AddL | SubL | MulL
| DivL | RemL | NegL | ShlL | ShrL | UShrL | AndL | OrL | XorL | AddF
| SubF | MulF | DivF | RemF | NegF | AddD | SubD | MulD | DivD | RemD
| NegD | CmpI | CmpL | CmpFl | CmpFg | CmpDl | CmpDg | I2L | I2F | I2D
| L2I | L2F | L2D | F2I | F2L | F2D | D2I | D2L | D2F | I2B | I2C | I2S
| SignExtend | ZeroExtend | Truncate | BitCast | CompressedRefEncode
| CompressedRefDecode | BoxPrimitive | UnboxPrimitive | Phi
| VectorBroadcast | VectorPack | VectorExtract | VectorInsert | VectorOp
| VectorMaskOp | VectorLoad | VectorStore | VectorReduce
| VirtualObjectState | Materialize | TagValue | UntagValue
| RepTransitionGuard | FrameState | Undef | Not | IsNull | RefEq | EqI
| NeI | LtI | LeI | GtI | GeI | _Count.

Definition code (k : NodeKind) : N :=
  match k with
  | Start => 0 | End => 1 | Region => 2 | If => 3 | IfTrue => 4
  | IfFalse => 5 | Switch => 6 | SwitchCase => 7 | SwitchDefault => 8
  | LoopBegin => 9 | LoopEnd => 10 | LoopExit => 11 | Return => 12
  | Unwind => 13 | Deopt => 14 | LoadField => 15 | StoreField => 16
  | LoadStatic => 17 | StoreStatic => 18 | LoadElem => 19 | StoreElem => 20
  | ArrayLength => 21 | MemBar => 22 | MonitorEnter => 23
  | MonitorExit => 24 | New => 25 | NewArray => 26 | NewRefArray => 27
  | NewMultiArray => 28 | ClassInit => 29 | CallStatic => 30
  | CallVirtual => 31 | CallInterface => 32 | CallDynamic => 33
  | CallExcept => 34 | LoadException => 35 | CheckCast => 36
  | InstanceOf => 37 | Guard => 38 | ConstantI => 39 | ConstantL => 40
  | ConstantF => 41 | ConstantD => 42 | ConstantNull => 43
  | ConstantSym => 44 | Parameter_ => 45 | AddI => 46 | SubI => 47
  | MulI => 48 | DivI => 49 | RemI => 50 | NegI => 51 | ShlI => 52
  | ShrI => 53 | UShrI => 54 | AndI => 55 | OrI => 56 | XorI => 57
  | AddL => 58 | SubL => 59 | MulL => 60 | DivL => 61 | RemL => 62
  | NegL => 63 | ShlL => 64 | ShrL => 65 | UShrL => 66 | AndL => 67
  | OrL => 68 | XorL => 69 | AddF => 70 | SubF => 71 | MulF => 72
  | DivF => 73 | RemF => 74 | NegF => 75 | AddD => 76 | SubD => 77
  | MulD => 78 | DivD => 79 | RemD => 80 | NegD => 81 | CmpI => 82
  | CmpL => 83 | CmpFl => 84 | CmpFg => 85 | CmpDl => 86 | CmpDg => 87
  | I2L => 88 | I2F => 89 | I2D => 90 | L2I => 91 | L2F => 92 | L2D => 93
  | F2I => 94 | F2L => 95 | F2D => 96 | D2I => 97 | D2L => 98 | D2F => 99
  | I2B => 100 | I2C => 101 | I2S => 102 | SignExtend => 103
  | ZeroExtend => 104 | Truncate => 105 | BitCast => 106
  | CompressedRefEncode => 107 | CompressedRefDecode => 108
  | BoxPrimitive => 109 | UnboxPrimitive => 110 | Phi => 111
  | VectorBroadcast => 112 | VectorPack => 113 | VectorExtract => 114
  | VectorInsert => 115 | VectorOp => 116 | VectorMaskOp => 117
  | VectorLoad => 118 | VectorStore => 119 | VectorReduce => 120
  | VirtualObjectState => 121 | Materialize => 122 | TagValue => 123
  | UntagValue => 124 | RepTransitionGuard => 125 | FrameState => 126
  | Undef => 127 | Not => 128 | IsNull => 129 | RefEq => 130 | EqI => 131
  | NeI => 132 | LtI => 133 | LeI => 134 | GtI => 135 | GeI => 136
  | _Count => 137
  end.

Definition all : list NodeKind :=
  [Start; End; Region; If; IfTrue; IfFalse; Switch; SwitchCase;
   SwitchDefault; LoopBegin; LoopEnd; LoopExit; Return; Unwind; Deopt;
   LoadField; StoreField; LoadStatic; StoreStatic; LoadElem; StoreElem;
   ArrayLength; MemBar; MonitorEnter; MonitorExit; New; NewArray;
   NewRefArray; NewMultiArray; ClassInit; CallStatic; CallVirtual;
   CallInterface; CallDynamic; CallExcept; LoadException; CheckCast;
   InstanceOf; Guard; ConstantI; ConstantL; ConstantF; ConstantD;
   ConstantNull; ConstantSym; Parameter_; AddI; SubI; MulI; DivI; RemI;
   NegI; ShlI; ShrI; UShrI; AndI; OrI; XorI; AddL; SubL; MulL; DivL; RemL;
   NegL; ShlL; ShrL; UShrL; AndL; OrL; XorL; AddF; SubF; MulF; DivF; RemF;
   NegF; AddD; SubD; MulD; DivD; RemD; NegD; CmpI; CmpL; CmpFl; CmpFg;
   CmpDl; CmpDg; I2L; I2F; I2D; L2I; L2F; L2D; F2I; F2L; F2D; D2I; D2L;
   D2F; I2B; I2C; I2S; SignExtend; ZeroExtend; Truncate; BitCast;
   CompressedRefEncode; CompressedRefDecode; BoxPrimitive; UnboxPrimitive;
   Phi; VectorBroadcast; VectorPack; VectorExtract; VectorInsert; VectorOp;
   VectorMaskOp; VectorLoad; VectorStore; VectorReduce; VirtualObjectState;
   Materialize; TagValue; UntagValue; RepTransitionGuard; FrameState;
   Undef; Not; IsNull; RefEq; EqI; NeI; LtI; LeI; GtI; GeI].

(** [static_cast<NodeKind>(std::uint16_t)], after the reader's range check. *)
Definition of_code (c : N) : NodeKind := default _Count (vget all c).
End NodeKind.
Abbreviation NodeKind := NodeKind.NodeKind.

Lemma NodeKind_of_code_code k : NodeKind.of_code (NodeKind.code k) = k.
Proof. by destruct k. Qed.

Lemma NodeKind_code_inj k k' : NodeKind.code k = NodeKind.code k' -> k = k'.
Proof.
  intros H. rewrite <- (NodeKind_of_code_code k), <- (NodeKind_of_code_code k').
  by rewrite H.
Qed.

#[export] Instance NodeKind_eq_dec : EqDecision NodeKind.
Proof.
  intros k k'. destruct (decide (NodeKind.code k = NodeKind.code k')) as [H|H].
  - left. by apply NodeKind_code_inj.
  - right. by intros ->.
Defined.

(** [a == b] on node kinds compares the underlying values. *)
Definition kind_eqb (k k' : NodeKind) : bool := NodeKind.code k =? NodeKind.code k'.

Lemma kind_eqb_spec k k' : kind_eqb k k' = true <-> k = k'.
Proof.
  unfold kind_eqb. rewrite N.eqb_eq. split; [apply NodeKind_code_inj|by intros ->].
Qed.

Definition nodeKindCount : N := NodeKind.code NodeKind._Count.

(** ** Guard kinds *)

Module GuardKind.
Inductive GuardKind :=
| None | NullCheck | BoundsCheck | ZeroCheck | ClassCast | ArrayStore
| TypeProfile | UnstableIf | UnstableSwitch | LoopLimit | Deoptimize
| Raw (c : N).

Definition code (k : GuardKind) : N :=
  match k with
  | None => 0 | NullCheck => 1 | BoundsCheck => 2 | ZeroCheck => 3
  | ClassCast => 4 | ArrayStore => 5 | TypeProfile => 6 | UnstableIf => 7
  | UnstableSwitch => 8 | LoopLimit => 9 | Deoptimize => 10 | Raw c => c
  end.
End GuardKind.
Abbreviation GuardKind := GuardKind.GuardKind.

Definition guardKindName (k : GuardKind) : string :=
  match k with
  | GuardKind.None => "none"
  | GuardKind.NullCheck => "nullcheck"
  | GuardKind.BoundsCheck => "boundscheck"
  | GuardKind.ZeroCheck => "zerocheck"
  | GuardKind.ClassCast => "classcast"
  | GuardKind.ArrayStore => "arraystore"
  | GuardKind.TypeProfile => "typeprofile"
  | GuardKind.UnstableIf => "unstableif"
  | GuardKind.UnstableSwitch => "unstableswitch"
  | GuardKind.LoopLimit => "looplimit"
  | GuardKind.Deoptimize => "deoptimize"
  | GuardKind.Raw _ => "?"
  end.

(** ** Node flags: a 16-bit mask behind [Flags<NodeFlag>] *)

Module NodeFlag.
Inductive NodeFlag :=
| None | Dead | Replaced | Speculative | Pinned | NeverNull | OnExceptionPath.

Definition code (f : NodeFlag) : N :=
  match f with
  | None => 0
  | Dead => N.shiftl 1 0
  | Replaced => N.shiftl 1 1
  | Speculative => N.shiftl 1 2
  | Pinned => N.shiftl 1 3
  | NeverNull => N.shiftl 1 4
  | OnExceptionPath => N.shiftl 1 5
  end.
End NodeFlag.
Abbreviation NodeFlag := NodeFlag.NodeFlag.

#[export] Instance NodeFlag_eq_dec : EqDecision NodeFlag.
Proof. solve_decision. Defined.

Abbreviation NodeFlags := N.
Definition flags_set (raw : NodeFlags) (f : NodeFlag) : NodeFlags :=
  N.lor raw (NodeFlag.code f).
Definition flags_clear (raw : NodeFlags) (f : NodeFlag) : NodeFlags :=
  N.ldiff raw (NodeFlag.code f).
Definition flags_has (raw : NodeFlags) (f : NodeFlag) : bool :=
  negb (N.land raw (NodeFlag.code f) =? 0).

(** ** Input roles and node classes *)

Module InputRole.
Inductive InputRole := None | Ctrl | Mem | Data | FrameState | Parent.
End InputRole.
Abbreviation InputRole := InputRole.InputRole.

#[export] Instance InputRole_eq_dec : EqDecision InputRole.
Proof. solve_decision. Defined.

Module NodeClass.
Inductive NodeClass := Control | Memory | Call | TypeOp | Guard | Value | State.
End NodeClass.
Abbreviation NodeClass := NodeClass.NodeClass.

#[export] Instance NodeClass_eq_dec : EqDecision NodeClass.
Proof. solve_decision. Defined.

(** ** The registry *)

Record NodeInfo := mkNodeInfo {
  ni_name : string;
  ni_cls : NodeClass;
  ni_numFixed : N;
  ni_variadic : bool;
  ni_variadicRole : InputRole;
  ni_hasFrameState : bool;
  ni_roles : list InputRole;  (* an array of six *)
  ni_effect : EffectKind
}.

Definition makeRow (name : string) (cls : NodeClass) (numFixed : N)
    (variadic : bool) (variadicRole : InputRole) (hasFrameState : bool)
    (effect : EffectKind) (roles : list InputRole) : NodeInfo :=
  {| ni_name := name; ni_cls := cls; ni_numFixed := numFixed;
     ni_variadic := variadic; ni_variadicRole := variadicRole;
     ni_hasFrameState := hasFrameState;
     ni_roles := take 6 (roles ++ replicate 6 InputRole.None);
     ni_effect := effect |}.

(** [row.roles[slot]] *)
Definition role_at (row : NodeInfo) (slot : N) : InputRole :=
  default InputRole.None (vget (ni_roles row) slot).

(** Control, memory, calls, objects, guards, constants and int arithmetic. *)
Definition kRegistryFixed : list NodeInfo :=
 [
  makeRow "Start" NodeClass.Control 0 false InputRole.None false
    EffectKind.Pure [];
  makeRow "End" NodeClass.Control 0 true InputRole.Ctrl false
    EffectKind.Pure [];
  makeRow "Region" NodeClass.Control 0 true InputRole.Ctrl false
    EffectKind.Pure [];
  makeRow "If" NodeClass.Control 2 false InputRole.None false
    EffectKind.Pure [InputRole.Ctrl; InputRole.Data];
  makeRow "IfTrue" NodeClass.Control 1 false InputRole.None false
    EffectKind.Pure [InputRole.Parent];
  makeRow "IfFalse" NodeClass.Control 1 false InputRole.None false
    EffectKind.Pure [InputRole.Parent];
  makeRow "Switch" NodeClass.Control 2 false InputRole.None false
    EffectKind.Pure [InputRole.Ctrl; InputRole.Data];
  makeRow "SwitchCase" NodeClass.Control 1 false InputRole.None false
    EffectKind.Pure [InputRole.Parent];
  makeRow "SwitchDefault" NodeClass.Control 1 false InputRole.None false
    EffectKind.Pure [InputRole.Parent];
  makeRow "LoopBegin" NodeClass.Control 0 true InputRole.Ctrl false
    EffectKind.Pure [];
  makeRow "LoopEnd" NodeClass.Control 1 false InputRole.None false
    EffectKind.Pure [InputRole.Ctrl];
  makeRow "LoopExit" NodeClass.Control 1 false InputRole.None true
    EffectKind.Pure [InputRole.Ctrl];
  makeRow "Return" NodeClass.Control 1 true InputRole.Data false
    EffectKind.Pure [InputRole.Ctrl];
  makeRow "Unwind" NodeClass.Control 2 false InputRole.None false
    EffectKind.ExceptionThrow [InputRole.Ctrl; InputRole.Data];
  makeRow "Deopt" NodeClass.Control 1 false InputRole.None true
    EffectKind.Pure [InputRole.Ctrl];
  makeRow "LoadField" NodeClass.Memory 3 false InputRole.None false
    EffectKind.ReadShared [InputRole.Ctrl; InputRole.Mem; InputRole.Data];
  makeRow "StoreField" NodeClass.Memory 4 false InputRole.None false
    EffectKind.WriteShared [InputRole.Ctrl; InputRole.Mem; InputRole.Data; InputRole.Data];
  makeRow "LoadStatic" NodeClass.Memory 2 false InputRole.None false
    EffectKind.ReadShared [InputRole.Ctrl; InputRole.Mem];
  makeRow "StoreStatic" NodeClass.Memory 3 false InputRole.None false
    EffectKind.WriteShared [InputRole.Ctrl; InputRole.Mem; InputRole.Data];
  makeRow "LoadElem" NodeClass.Memory 4 false InputRole.None false
    EffectKind.ReadShared [InputRole.Ctrl; InputRole.Mem; InputRole.Data; InputRole.Data];
  makeRow "StoreElem" NodeClass.Memory 5 false InputRole.None false
    EffectKind.WriteShared [InputRole.Ctrl; InputRole.Mem; InputRole.Data; InputRole.Data; InputRole.Data];
  makeRow "ArrayLength" NodeClass.Value 1 false InputRole.None false
    EffectKind.ReadShared [InputRole.Data];
  makeRow "MemBar" NodeClass.Memory 2 false InputRole.None false
    EffectKind.VolatileWrite [InputRole.Ctrl; InputRole.Mem];
  makeRow "MonitorEnter" NodeClass.Memory 3 false InputRole.None false
    EffectKind.MonitorEnter [InputRole.Ctrl; InputRole.Mem; InputRole.Data];
  makeRow "MonitorExit" NodeClass.Memory 3 false InputRole.None false
    EffectKind.MonitorExit [InputRole.Ctrl; InputRole.Mem; InputRole.Data];
  makeRow "New" NodeClass.Memory 1 false InputRole.None false
    EffectKind.Allocation [InputRole.Ctrl];
  makeRow "NewArray" NodeClass.Memory 2 false InputRole.None false
    EffectKind.Allocation [InputRole.Ctrl; InputRole.Data];
  makeRow "NewRefArray" NodeClass.Memory 2 false InputRole.None false
    EffectKind.Allocation [InputRole.Ctrl; InputRole.Data];
  makeRow "NewMultiArray" NodeClass.Memory 1 true InputRole.Data false
    EffectKind.Allocation [InputRole.Ctrl];
  makeRow "ClassInit" NodeClass.Memory 2 false InputRole.None false
    EffectKind.CallOpaque [InputRole.Ctrl; InputRole.Mem];
  makeRow "CallStatic" NodeClass.Call 2 true InputRole.Data true
    EffectKind.CallOpaque [InputRole.Ctrl; InputRole.Mem];
  makeRow "CallVirtual" NodeClass.Call 2 true InputRole.Data true
    EffectKind.CallOpaque [InputRole.Ctrl; InputRole.Mem];
  makeRow "CallInterface" NodeClass.Call 2 true InputRole.Data true
    EffectKind.CallOpaque [InputRole.Ctrl; InputRole.Mem];
  makeRow "CallDynamic" NodeClass.Call 2 true InputRole.Data true
    EffectKind.CallOpaque [InputRole.Ctrl; InputRole.Mem];
  makeRow "CallExcept" NodeClass.Call 1 false InputRole.None false
    EffectKind.Pure [InputRole.Parent];
  makeRow "LoadException" NodeClass.Call 1 false InputRole.None false
    EffectKind.Pure [InputRole.Ctrl];
  makeRow "CheckCast" NodeClass.TypeOp 2 false InputRole.None false
    EffectKind.ExceptionThrow [InputRole.Ctrl; InputRole.Data];
  makeRow "InstanceOf" NodeClass.TypeOp 1 false InputRole.None false
    EffectKind.ReadShared [InputRole.Data];
  makeRow "Guard" NodeClass.Guard 2 false InputRole.None true
    EffectKind.Pure [InputRole.Ctrl; InputRole.Data];
  makeRow "ConstantI" NodeClass.Value 0 false InputRole.None false
    EffectKind.Pure [];
  makeRow "ConstantL" NodeClass.Value 0 false InputRole.None false
    EffectKind.Pure [];
  makeRow "ConstantF" NodeClass.Value 0 false InputRole.None false
    EffectKind.Pure [];
  makeRow "ConstantD" NodeClass.Value 0 false InputRole.None false
    EffectKind.Pure [];
  makeRow "ConstantNull" NodeClass.Value 0 false InputRole.None false
    EffectKind.Pure [];
  makeRow "ConstantSym" NodeClass.Value 0 false InputRole.None false
    EffectKind.Pure [];
  makeRow "Parameter" NodeClass.Value 0 false InputRole.None false
    EffectKind.Pure [];
  makeRow "AddI" NodeClass.Value 2 false InputRole.None false
    EffectKind.Pure [InputRole.Data; InputRole.Data];
  makeRow "SubI" NodeClass.Value 2 false InputRole.None false
    EffectKind.Pure [InputRole.Data; InputRole.Data];
  makeRow "MulI" NodeClass.Value 2 false InputRole.None false
    EffectKind.Pure [InputRole.Data; InputRole.Data];
  makeRow "DivI" NodeClass.Value 2 false InputRole.None false
    EffectKind.Pure [InputRole.Data; InputRole.Data];
  makeRow "RemI" NodeClass.Value 2 false InputRole.None false
    EffectKind.Pure [InputRole.Data; InputRole.Data];
  makeRow "NegI" NodeClass.Value 1 false InputRole.None false
    EffectKind.Pure [InputRole.Data];
  makeRow "ShlI" NodeClass.Value 2 false InputRole.None false
    EffectKind.Pure [InputRole.Data; InputRole.Data];
  makeRow "ShrI" NodeClass.Value 2 false InputRole.None false
    EffectKind.Pure [InputRole.Data; InputRole.Data];
  makeRow "UShrI" NodeClass.Value 2 false InputRole.None false
    EffectKind.Pure [InputRole.Data; InputRole.Data];
  makeRow "AndI" NodeClass.Value 2 false InputRole.None false
    EffectKind.Pure [InputRole.Data; InputRole.Data];
  makeRow "OrI" NodeClass.Value 2 false InputRole.None false
    EffectKind.Pure [InputRole.Data; InputRole.Data];
  makeRow "XorI" NodeClass.Value 2 false InputRole.None false
    EffectKind.Pure [InputRole.Data; InputRole.Data]].

(** Long arithmetic to the graph-builder additions. *)
Definition kRegistryValues : list NodeInfo :=
 [
  makeRow "AddL" NodeClass.Value 2 false InputRole.None false
    EffectKind.Pure [InputRole.Data; InputRole.Data];
  makeRow "SubL" NodeClass.Value 2 false InputRole.None false
    EffectKind.Pure [InputRole.Data; InputRole.Data];
  makeRow "MulL" NodeClass.Value 2 false InputRole.None false
    EffectKind.Pure [InputRole.Data; InputRole.Data];
  makeRow "DivL" NodeClass.Value 2 false InputRole.None false
    EffectKind.Pure [InputRole.Data; InputRole.Data];
  makeRow "RemL" NodeClass.Value 2 false InputRole.None false
    EffectKind.Pure [InputRole.Data; InputRole.Data];
  makeRow "NegL" NodeClass.Value 1 false InputRole.None false
    EffectKind.Pure [InputRole.Data];
  makeRow "ShlL" NodeClass.Value 2 false InputRole.None false
    EffectKind.Pure [InputRole.Data; InputRole.Data];
  makeRow "ShrL" NodeClass.Value 2 false InputRole.None false
    EffectKind.Pure [InputRole.Data; InputRole.Data];
  makeRow "UShrL" NodeClass.Value 2 false InputRole.None false
    EffectKind.Pure [InputRole.Data; InputRole.Data];
  makeRow "AndL" NodeClass.Value 2 false InputRole.None false
    EffectKind.Pure [InputRole.Data; InputRole.Data];
  makeRow "OrL" NodeClass.Value 2 false InputRole.None false
    EffectKind.Pure [InputRole.Data; InputRole.Data];
  makeRow "XorL" NodeClass.Value 2 false InputRole.None false
    EffectKind.Pure [InputRole.Data; InputRole.Data];
  makeRow "AddF" NodeClass.Value 2 false InputRole.None false
    EffectKind.Pure [InputRole.Data; InputRole.Data];
  makeRow "SubF" NodeClass.Value 2 false InputRole.None false
    EffectKind.Pure [InputRole.Data; InputRole.Data];
  makeRow "MulF" NodeClass.Value 2 false InputRole.None false
    EffectKind.Pure [InputRole.Data; InputRole.Data];
  makeRow "DivF" NodeClass.Value 2 false InputRole.None false
    EffectKind.Pure [InputRole.Data; InputRole.Data];
  makeRow "RemF" NodeClass.Value 2 false InputRole.None false
    EffectKind.Pure [InputRole.Data; InputRole.Data];
  makeRow "NegF" NodeClass.Value 1 false InputRole.None false
    EffectKind.Pure [InputRole.Data];
  makeRow "AddD" NodeClass.Value 2 false InputRole.None false
    EffectKind.Pure [InputRole.Data; InputRole.Data];
  makeRow "SubD" NodeClass.Value 2 false InputRole.None false
    EffectKind.Pure [InputRole.Data; InputRole.Data];
  makeRow "MulD" NodeClass.Value 2 false InputRole.None false
    EffectKind.Pure [InputRole.Data; InputRole.Data];
  makeRow "DivD" NodeClass.Value 2 false InputRole.None false
    EffectKind.Pure [InputRole.Data; InputRole.Data];
  makeRow "RemD" NodeClass.Value 2 false InputRole.None false
    EffectKind.Pure [InputRole.Data; InputRole.Data];
  makeRow "NegD" NodeClass.Value 1 false InputRole.None false
    EffectKind.Pure [InputRole.Data];
  makeRow "CmpI" NodeClass.Value 2 false InputRole.None false
    EffectKind.Pure [InputRole.Data; InputRole.Data];
  makeRow "CmpL" NodeClass.Value 2 false InputRole.None false
    EffectKind.Pure [InputRole.Data; InputRole.Data];
  makeRow "CmpFl" NodeClass.Value 2 false InputRole.None false
    EffectKind.Pure [InputRole.Data; InputRole.Data];
  makeRow "CmpFg" NodeClass.Value 2 false InputRole.None false
    EffectKind.Pure [InputRole.Data; InputRole.Data];
  makeRow "CmpDl" NodeClass.Value 2 false InputRole.None false
    EffectKind.Pure [InputRole.Data; InputRole.Data];
  makeRow "CmpDg" NodeClass.Value 2 false InputRole.None false
    EffectKind.Pure [InputRole.Data; InputRole.Data];
  makeRow "I2L" NodeClass.Value 1 false InputRole.None false
    EffectKind.Pure [InputRole.Data];
  makeRow "I2F" NodeClass.Value 1 false InputRole.None false
    EffectKind.Pure [InputRole.Data];
  makeRow "I2D" NodeClass.Value 1 false InputRole.None false
    EffectKind.Pure [InputRole.Data];
  makeRow "L2I" NodeClass.Value 1 false InputRole.None false
    EffectKind.Pure [InputRole.Data];
  makeRow "L2F" NodeClass.Value 1 false InputRole.None false
    EffectKind.Pure [InputRole.Data];
  makeRow "L2D" NodeClass.Value 1 false InputRole.None false
    EffectKind.Pure [InputRole.Data];
  makeRow "F2I" NodeClass.Value 1 false InputRole.None false
    EffectKind.Pure [InputRole.Data];
  makeRow "F2L" NodeClass.Value 1 false InputRole.None false
    EffectKind.Pure [InputRole.Data];
  makeRow "F2D" NodeClass.Value 1 false InputRole.None false
    EffectKind.Pure [InputRole.Data];
  makeRow "D2I" NodeClass.Value 1 false InputRole.None false
    EffectKind.Pure [InputRole.Data];
  makeRow "D2L" NodeClass.Value 1 false InputRole.None false
    EffectKind.Pure [InputRole.Data];
  makeRow "D2F" NodeClass.Value 1 false InputRole.None false
    EffectKind.Pure [InputRole.Data];
  makeRow "I2B" NodeClass.Value 1 false InputRole.None false
    EffectKind.Pure [InputRole.Data];
  makeRow "I2C" NodeClass.Value 1 false InputRole.None false
    EffectKind.Pure [InputRole.Data];
  makeRow "I2S" NodeClass.Value 1 false InputRole.None false
    EffectKind.Pure [InputRole.Data];
  makeRow "SignExtend" NodeClass.Value 1 false InputRole.None false
    EffectKind.Pure [InputRole.Data];
  makeRow "ZeroExtend" NodeClass.Value 1 false InputRole.None false
    EffectKind.Pure [InputRole.Data];
  makeRow "Truncate" NodeClass.Value 1 false InputRole.None false
    EffectKind.Pure [InputRole.Data];
  makeRow "BitCast" NodeClass.Value 1 false InputRole.None false
    EffectKind.Pure [InputRole.Data];
  makeRow "CompressedRefEncode" NodeClass.Value 1 false InputRole.None false
    EffectKind.Pure [InputRole.Data];
  makeRow "CompressedRefDecode" NodeClass.Value 1 false InputRole.None false
    EffectKind.Pure [InputRole.Data];
  makeRow "BoxPrimitive" NodeClass.Value 1 false InputRole.None false
    EffectKind.Pure [InputRole.Data];
  makeRow "UnboxPrimitive" NodeClass.Value 1 false InputRole.None false
    EffectKind.Pure [InputRole.Data];
  makeRow "Phi" NodeClass.Value 1 true InputRole.Data false
    EffectKind.Pure [InputRole.Ctrl];
  makeRow "VectorBroadcast" NodeClass.Value 1 false InputRole.None false
    EffectKind.Pure [InputRole.Data];
  makeRow "VectorPack" NodeClass.Value 0 true InputRole.Data false
    EffectKind.Pure [];
  makeRow "VectorExtract" NodeClass.Value 2 false InputRole.None false
    EffectKind.Pure [InputRole.Data; InputRole.Data];
  makeRow "VectorInsert" NodeClass.Value 3 false InputRole.None false
    EffectKind.Pure [InputRole.Data; InputRole.Data; InputRole.Data];
  makeRow "VectorOp" NodeClass.Value 2 false InputRole.None false
    EffectKind.Pure [InputRole.Data; InputRole.Data];
  makeRow "VectorMaskOp" NodeClass.Value 3 false InputRole.None false
    EffectKind.Pure [InputRole.Data; InputRole.Data; InputRole.Data];
  makeRow "VectorLoad" NodeClass.Memory 4 false InputRole.None false
    EffectKind.ReadShared [InputRole.Ctrl; InputRole.Mem; InputRole.Data; InputRole.Data];
  makeRow "VectorStore" NodeClass.Memory 5 false InputRole.None false
    EffectKind.WriteShared [InputRole.Ctrl; InputRole.Mem; InputRole.Data; InputRole.Data; InputRole.Data];
  makeRow "VectorReduce" NodeClass.Value 1 false InputRole.None false
    EffectKind.Pure [InputRole.Data];
  makeRow "VirtualObjectState" NodeClass.Value 0 true InputRole.Data false
    EffectKind.Pure [];
  makeRow "Materialize" NodeClass.Memory 3 false InputRole.None false
    EffectKind.Allocation [InputRole.Ctrl; InputRole.Mem; InputRole.Data];
  makeRow "TagValue" NodeClass.Value 1 false InputRole.None false
    EffectKind.Pure [InputRole.Data];
  makeRow "UntagValue" NodeClass.Value 1 false InputRole.None false
    EffectKind.Pure [InputRole.Data];
  makeRow "RepTransitionGuard" NodeClass.Guard 2 false InputRole.None true
    EffectKind.Pure [InputRole.Ctrl; InputRole.Data];
  makeRow "FrameState" NodeClass.State 0 true InputRole.Data false
    EffectKind.Pure [];
  makeRow "Undef" NodeClass.Value 0 false InputRole.None false
    EffectKind.Pure [];
  makeRow "Not" NodeClass.Value 1 false InputRole.None false
    EffectKind.Pure [InputRole.Data];
  makeRow "IsNull" NodeClass.Value 1 false InputRole.None false
    EffectKind.Pure [InputRole.Data];
  makeRow "RefEq" NodeClass.Value 2 false InputRole.None false
    EffectKind.Pure [InputRole.Data; InputRole.Data];
  makeRow "EqI" NodeClass.Value 2 false InputRole.None false
    EffectKind.Pure [InputRole.Data; InputRole.Data];
  makeRow "NeI" NodeClass.Value 2 false InputRole.None false
    EffectKind.Pure [InputRole.Data; InputRole.Data];
  makeRow "LtI" NodeClass.Value 2 false InputRole.None false
    EffectKind.Pure [InputRole.Data; InputRole.Data];
  makeRow "LeI" NodeClass.Value 2 false InputRole.None false
    EffectKind.Pure [InputRole.Data; InputRole.Data];
  makeRow "GtI" NodeClass.Value 2 false InputRole.None false
    EffectKind.Pure [InputRole.Data; InputRole.Data];
  makeRow "GeI" NodeClass.Value 2 false InputRole.None false
    EffectKind.Pure [InputRole.Data; InputRole.Data]
 ].

Definition kRegistry : list NodeInfo := kRegistryFixed ++ kRegistryValues.

Definition kBadNodeInfo : NodeInfo :=
  {| ni_name := "bad<kind>"; ni_cls := NodeClass.Value; ni_numFixed := 0;
     ni_variadic := false; ni_variadicRole := InputRole.None;
     ni_hasFrameState := false; ni_roles := replicate 6 InputRole.None;
     ni_effect := EffectKind.Pure |}.

Definition info (kind : NodeKind) : NodeInfo :=
  let k := NodeKind.code kind in
  if k <? NodeKind.code NodeKind._Count
  then default kBadNodeInfo (vget kRegistry k)
  else kBadNodeInfo.

Definition nodeKindName (kind : NodeKind) : string := ni_name (info kind).

Definition registeredNodeKinds : N := u16 (vlen kRegistry).

(** ** The node record *)

Record Node := mkNode {
  nd_kind : NodeKind;
  nd_flags : NodeFlags;
  nd_edgeOffset : N;
  nd_numInputs : N;
  nd_reserved : N;
  nd_payload : N;
  nd_payload2 : N;
  nd_constValue : Z;
  nd_specMeta : N;
  nd_epoch : N
}.

Definition isDead (nd : Node) : bool := flags_has (nd_flags nd) NodeFlag.Dead.

(** ** Properties *)

Lemma testbit_code_Dead k :
  N.testbit (NodeFlag.code NodeFlag.Dead) k = (k =? 0).
Proof. destruct k as [|[]]; done. Qed.

Lemma flags_has_testbit raw f i :
  NodeFlag.code f = N.shiftl 1 i -> flags_has raw f = N.testbit raw i.
Proof.
  intros Hf. unfold flags_has. rewrite Hf.
  rewrite N.shiftl_1_l. destruct (N.testbit raw i) eqn:E.
  - apply negb_true_iff, N.eqb_neq. intros Hz.
    apply (f_equal (fun x => N.testbit x i)) in Hz.
    rewrite N.land_spec, N.pow2_bits_true, E, N.bits_0 in Hz. done.
  - apply negb_false_iff, N.eqb_eq. apply N.bits_inj. intros k.
    rewrite N.land_spec, N.bits_0, N.pow2_bits_eqb.
    destruct (N.eqb_spec i k) as [<-|]; [by rewrite E|apply andb_false_r].
Qed.

Lemma flag_code_index f :
  f = NodeFlag.None \/ exists i, NodeFlag.code f = N.shiftl 1 i.
Proof.
  destruct f; [by left|right..]; by (eexists; reflexivity).
Qed.

(** Setting a flag makes it observable and leaves the other flags alone. *)
Lemma flags_has_set raw f f' :
  f <> NodeFlag.None ->
  flags_has (flags_set raw f') f
  = flags_has raw f || bool_decide (f = f').
Proof.
  intros Hf. destruct (flag_code_index f) as [?|[i Hi]]; [done|].
  rewrite !(flags_has_testbit _ _ i Hi). unfold flags_set. rewrite N.lor_spec.
  f_equal. rewrite bool_decide_decide.
  destruct f, f'; try done;
    unfold NodeFlag.code in *; rewrite ?N.shiftl_1_l in *;
    apply N.pow_inj_r in Hi; try lia; subst i; try done.
Qed.

(** What every registry row promises to the clients that read it. *)
Definition row_ok (row : NodeInfo) : Prop :=
  (ni_numFixed row <= 6) /\
  (forall s, s < ni_numFixed row <-> role_at row s <> InputRole.None) /\
  (forall s, role_at row s <> InputRole.FrameState) /\
  (forall s, role_at row s = InputRole.Mem ->
     s = 1 /\ role_at row 0 = InputRole.Ctrl) /\
  (ni_variadic row = true <-> ni_variadicRole row <> InputRole.None) /\
  (ni_variadicRole row = InputRole.None \/ ni_variadicRole row = InputRole.Ctrl
   \/ ni_variadicRole row = InputRole.Data) /\
  (ni_cls row = NodeClass.Memory -> ni_effect row <> EffectKind.Pure).

(** The same, decided by evaluation on the six role slots. *)
Definition row_okb (row : NodeInfo) : bool :=
  let r := role_at row in
  bool_decide (length (ni_roles row) = 6%nat) && (ni_numFixed row <=? 6) &&
  forallb (fun s =>
     bool_decide (s < ni_numFixed row <-> r s <> InputRole.None) &&
     bool_decide (r s <> InputRole.FrameState) &&
     bool_decide (r s <> InputRole.Mem \/ s = 1 /\ r 0 = InputRole.Ctrl))
    (indices 6) &&
  bool_decide (ni_variadic row = true <-> ni_variadicRole row <> InputRole.None) &&
  bool_decide (ni_variadicRole row = InputRole.None \/
               ni_variadicRole row = InputRole.Ctrl \/
               ni_variadicRole row = InputRole.Data) &&
  bool_decide (ni_cls row <> NodeClass.Memory \/ ni_effect row <> EffectKind.Pure).

Lemma row_okb_sound row : row_okb row = true -> row_ok row.
Proof.
  unfold row_okb. rewrite !andb_true_iff, !bool_decide_eq_true, N.leb_le.
  intros [[[[[Hlen Hnf] Hs] Hv] Hvr] Hm].
  assert (forall s, 6 <= s -> role_at row s = InputRole.None) as Hout.
  { intros s Hge. unfold role_at. rewrite (proj2 (vget_ge_None _ _)); [done|].
    unfold vlen. lia. }
  rewrite forallb_forall in Hs.
  assert (forall s, s < 6 ->
    (s < ni_numFixed row <-> role_at row s <> InputRole.None) /\
    role_at row s <> InputRole.FrameState /\
    (role_at row s <> InputRole.Mem \/ s = 1 /\ role_at row 0 = InputRole.Ctrl))
    as Hin.
  { intros s Hlt. specialize (Hs s).
    rewrite !andb_true_iff, !bool_decide_eq_true in Hs.
    destruct Hs as [[??]?]; [|done]. by apply list_elem_of_In, elem_of_indices. }
  unfold row_ok. split_and!; try done; try tauto.
  - intros s. destruct (N.lt_ge_cases s 6); [by apply Hin|].
    rewrite Hout by done. split; [lia|done].
  - intros s. destruct (N.lt_ge_cases s 6); [by apply Hin|]. by rewrite Hout.
  - intros s. destruct (N.lt_ge_cases s 6); [|by rewrite Hout].
    intros HM. by destruct (Hin s) as (_ & _ & [?|?]).
Qed.

Lemma info_row_ok k : row_ok (info k).
Proof. apply row_okb_sound. by destruct k. Qed.

(** The registry is complete and well formed: it has one row per node
    kind, names are distinct, and every row has exactly [numFixed] (at most
    six) roles, no FrameState role in the fixed prefix, at most one memory
    input, always at slot 1 behind a control input, a variadic role only when
    variadic and never a memory one, and a non-pure effect when the class is
    Memory. *)
Theorem registry_wellformed k :
  registeredNodeKinds = nodeKindCount /\
  NoDup (ni_name <$> kRegistry) /\
  NodeKind.of_code (NodeKind.code k) = k /\
  (k <> NodeKind._Count ->
   vget kRegistry (NodeKind.code k) = Some (info k)) /\
  row_ok (info k).
Proof.
  split_and!.
  - reflexivity.
  - by apply (bool_decide_eq_true_1 _).
  - apply NodeKind_of_code_code.
  - by destruct k.
  - apply info_row_ok.
Qed.

Lemma registry_wellformed_witness :
  vget kRegistry (NodeKind.code NodeKind.StoreElem) = Some (info NodeKind.StoreElem).
Proof. by apply (registry_wellformed NodeKind.StoreElem). Defined.
