(* ===== verification/SmallVector.v ===== *)
(** * The inline-storage vector (include/b2/ir/SmallVector.h)

    [SmallVector<T, N>] with its real storage: an inline array of [N] slots, an
    optional heap buffer tagged with the memory resource it came from, a size
    and a capacity. A slot holds [None] while it is uninitialised. The
    operations refine the plain sequence operations the use lists of [Graph]
    are modelled with. *)

From S2P Require Import Prelude.

(** The sequence specification of [remove]: drop the first occurrence. *)
Fixpoint remove_first {A} `{!EqDecision A} (x : A) (l : list A) : list A :=
  match l with
  | [] => []
  | y :: l' => if decide (y = x) then l' else y :: remove_first x l'
  end.

Section SmallVector.
Context {T : Type} `{!EqDecision T}.

(** The inline capacity [N] of the template, and the identity of the resource
    [std::pmr::get_default_resource()] returns. *)
Context (cap : nat) (default_resource : nat).

Record SmallVector := mkSmallVector {
  sv_mr : option nat;
  sv_inline : list (option T);
  sv_heap : option (nat * list (option T));
  sv_size : nat;
  sv_capacity : nat
}.

Definition sv_new (mr : option nat) : SmallVector :=
  mkSmallVector mr (replicate cap None) None 0 cap.

Definition sv_begin (v : SmallVector) : list (option T) :=
  match sv_heap v with Some (_, b) => b | None => sv_inline v end.

(** Storing through [begin()]. *)
Definition sv_with_begin (v : SmallVector) (b : list (option T)) : SmallVector :=
  match sv_heap v with
  | Some (r, _) =>
      mkSmallVector (sv_mr v) (sv_inline v) (Some (r, b)) (sv_size v) (sv_capacity v)
  | None => mkSmallVector (sv_mr v) b None (sv_size v) (sv_capacity v)
  end.

Definition sv_set_size (v : SmallVector) (n : nat) : SmallVector :=
  mkSmallVector (sv_mr v) (sv_inline v) (sv_heap v) n (sv_capacity v).

Definition sv_empty (v : SmallVector) : bool := sv_size v =? 0.

Definition sv_resource (v : SmallVector) : nat * SmallVector :=
  let r := match sv_mr v with Some r => r | None => default_resource end in
  (r, mkSmallVector (Some r) (sv_inline v) (sv_heap v) (sv_size v) (sv_capacity v)).

Definition sv_releaseHeap (v : SmallVector) : SmallVector :=
  match sv_heap v with
  | Some _ => mkSmallVector (sv_mr v) (sv_inline v) None (sv_size v) cap
  | None => v
  end.

(** [memcpy] of the first [n] slots of [src] over [dst]. *)
Definition copy_prefix (n : nat) (src dst : list (option T)) : list (option T) :=
  take n src ++ drop n dst.

Definition sv_grow (v : SmallVector) : SmallVector :=
  let newCap := sv_capacity v * 2 in
  let '(r, v) := sv_resource v in
  let fresh := copy_prefix (sv_size v) (sv_begin v) (replicate newCap None) in
  let v := sv_releaseHeap v in
  mkSmallVector (sv_mr v) (sv_inline v) (Some (r, fresh)) (sv_size v) newCap.

Definition sv_push_back (v : SmallVector) (x : T) : SmallVector :=
  let v := if decide (sv_size v = sv_capacity v) then sv_grow v else v in
  let v := sv_with_begin v (<[sv_size v := Some x]> (sv_begin v)) in
  sv_set_size v (sv_size v + 1).

(** The index of the first of the leading slots equal to [x]. *)
Fixpoint find_slot (x : T) (b : list (option T)) : option nat :=
  match b with
  | [] => None
  | y :: b' => if decide (y = Some x) then Some 0 else S <$> find_slot x b'
  end.

Definition sv_remove (v : SmallVector) (x : T) : bool * SmallVector :=
  match find_slot x (take (sv_size v) (sv_begin v)) with
  | Some i =>
      let b := sv_begin v in
      let n := sv_size v - i - 1 in
      (* memmove(begin() + i, begin() + i + 1, n) *)
      let b' := take i b ++ take n (drop (i + 1) b) ++ drop (i + n) b in
      (true, sv_set_size (sv_with_begin v b') (sv_size v - 1))
  | None => (false, v)
  end.

Definition sv_clear (v : SmallVector) : SmallVector := sv_set_size v 0.

Definition sv_copyFrom (v other : SmallVector) : SmallVector :=
  if decide (sv_size other <= sv_capacity v /\ sv_heap v = None) then
    sv_set_size
      (sv_with_begin v (copy_prefix (sv_size other) (sv_begin other) (sv_inline v)))
      (sv_size other)
  else
    let v := sv_releaseHeap v in
    let v := mkSmallVector (sv_mr v) (sv_inline v) None 0 cap in
    foldl (fun v s => match s with Some x => sv_push_back v x | None => v end)
      v (take (sv_size other) (sv_begin other)).

(** Returns the new state of [*this] and of [other]. *)
Definition sv_moveFrom (v other : SmallVector) : SmallVector * SmallVector :=
  match sv_heap other with
  | Some h =>
      (mkSmallVector (sv_mr v) (sv_inline v) (Some h) (sv_size other) (sv_capacity other),
       mkSmallVector (sv_mr other) (sv_inline other) None 0 cap)
  | None =>
      (mkSmallVector (sv_mr v)
         (copy_prefix (sv_size other) (sv_inline other) (sv_inline v))
         (sv_heap v) (sv_size other) (sv_capacity v),
       sv_set_size other 0)
  end.

Definition sv_copy_construct (other : SmallVector) : SmallVector :=
  sv_copyFrom (sv_new (sv_mr other)) other.

Definition sv_adopt_mr (v other : SmallVector) : SmallVector :=
  match sv_mr v with
  | None => mkSmallVector (sv_mr other) (sv_inline v) (sv_heap v) (sv_size v) (sv_capacity v)
  | Some _ => v
  end.

Definition sv_copy_assign (v other : SmallVector) : SmallVector :=
  sv_copyFrom (sv_adopt_mr v other) other.

Definition sv_move_construct (other : SmallVector) : SmallVector * SmallVector :=
  sv_moveFrom (sv_new (sv_mr other)) other.

Definition sv_move_assign (v other : SmallVector) : SmallVector * SmallVector :=
  sv_moveFrom (sv_adopt_mr (sv_releaseHeap v) other) other.

(** ** The abstraction and the representation invariant *)

Definition sv_elems (v : SmallVector) : list T :=
  omap id (take (sv_size v) (sv_begin v)).

(** The leading slots hold exactly the elements [l]. *)
Definition sv_repr (v : SmallVector) (l : list T) : Prop :=
  length (sv_inline v) = cap /\
  sv_size v = length l /\
  sv_size v <= sv_capacity v /\
  take (sv_size v) (sv_begin v) = Some <$> l /\
  match sv_heap v with
  | None => sv_capacity v = cap
  | Some (r, b) => length b = sv_capacity v /\ 1 <= sv_capacity v
  end.

(** A heap buffer is owned by the resource the vector will free it with. *)
Definition sv_owns (v : SmallVector) : Prop :=
  match sv_heap v with
  | Some (r, _) => sv_mr v = Some r
  | None => True
  end.

Lemma sv_repr_elems v l : sv_repr v l -> sv_elems v = l.
Proof.
  intros (_ & _ & _ & H & _). unfold sv_elems. rewrite H.
  clear. induction l as [|x l IH]; csimpl; [done|]. by rewrite IH.
Qed.

Lemma sv_begin_length v l : sv_repr v l -> length (sv_begin v) = sv_capacity v.
Proof.
  unfold sv_repr, sv_begin. destruct (sv_heap v) as [[r b]|]; naive_solver.
Qed.

Lemma sv_begin_with v b : sv_begin (sv_with_begin v b) = b.
Proof. unfold sv_begin, sv_with_begin. by destruct (sv_heap v) as [[]|]. Qed.

Lemma sv_new_repr mr : sv_repr (sv_new mr) [].
Proof. unfold sv_repr. simpl. by rewrite length_replicate; split_and!; try lia. Qed.

(** ** Refinement of the sequence operations *)

Context (cap_pos : 1 <= cap).

Lemma copy_prefix_take n src dst :
  n <= length src -> take n (copy_prefix n src dst) = take n src.
Proof.
  intros Hn. unfold copy_prefix. apply take_app_length'. rewrite length_take. lia.
Qed.

Lemma copy_prefix_length n src dst :
  n <= length src -> n <= length dst ->
  length (copy_prefix n src dst) = length dst.
Proof.
  intros ??. unfold copy_prefix. rewrite length_app, length_take, length_drop. lia.
Qed.

Lemma sv_begin_heap m i r b n c :
  sv_begin (mkSmallVector m i (Some (r, b)) n c) = b.
Proof. done. Qed.

Lemma sv_begin_inline m i n c : sv_begin (mkSmallVector m i None n c) = i.
Proof. done. Qed.

Lemma sv_grow_repr v l :
  sv_repr v l ->
  sv_repr (sv_grow v) l /\ sv_size (sv_grow v) < sv_capacity (sv_grow v) /\
  sv_owns (sv_grow v).
Proof.
  intros Hr. pose proof (sv_begin_length v l Hr) as Hb.
  assert (1 <= sv_capacity v) as Hc.
  { destruct Hr as (_&_&_&_&H). destruct (sv_heap v) as [[]|]; lia. }
  destruct Hr as (Hi & Hs & Hle & Ht & _).
  assert (forall v', sv_size (sv_releaseHeap v') = sv_size v') as Hrs.
  { intros v'. unfold sv_releaseHeap. by destruct (sv_heap v'). }
  assert (forall v', sv_inline (sv_releaseHeap v') = sv_inline v') as Hri.
  { intros v'. unfold sv_releaseHeap. by destruct (sv_heap v'). }
  unfold sv_grow, sv_resource, sv_owns; simpl. rewrite Hrs. simpl.
  change (sv_begin (mkSmallVector (Some _) _ _ _ _)) with (sv_begin v).
  split_and!; [|lia|].
  - unfold sv_repr; simpl. rewrite Hri, sv_begin_heap. simpl.
    rewrite copy_prefix_take, copy_prefix_length;
      rewrite ?length_replicate; first split_and!; try done; lia.
  - unfold sv_releaseHeap; simpl. by destruct (sv_heap v).
Qed.

Lemma sv_push_back_repr v l x : sv_repr v l -> sv_repr (sv_push_back v x) (l ++ [x]).
Proof.
  intros Hr. unfold sv_push_back.
  set (w := if decide (sv_size v = sv_capacity v) then sv_grow v else v).
  assert (sv_repr w l /\ sv_size w < sv_capacity w) as [Hw Hlt].
  { unfold w. case_decide as Hd; [by apply sv_grow_repr in Hr as (?&?&_)|].
    split; [done|]. destruct Hr as (_&_&?&_). lia. }
  clearbody w. clear Hr. pose proof (sv_begin_length w l Hw) as Hb.
  destruct Hw as (Hi & Hs & Hle & Ht & Hh).
  assert (take (sv_size w + 1) (<[sv_size w := Some x]> (sv_begin w))
          = Some <$> (l ++ [x])) as Htake.
  { rewrite fmap_app, <- Ht. simpl.
    rewrite insert_take_drop by lia.
    rewrite take_app_ge, length_take, Nat.min_l by (rewrite ?length_take; lia).
    by replace (sv_size w + 1 - sv_size w) with 1 by lia. }
  unfold sv_repr, sv_set_size; simpl.
  unfold sv_with_begin, sv_begin in *.
  destruct (sv_heap w) as [[r b]|]; simpl in *;
    rewrite ?length_insert, length_app; simpl; split_and!; try done; lia.
Qed.

Lemma find_slot_spec x l :
  match find_slot x (Some <$> l) with
  | Some i => exists l1 l2, l = (l1 ++ x :: l2) /\ length l1 = i /\
                remove_first x l = (l1 ++ l2)
  | None => (x ∉ l) /\ remove_first x l = l
  end.
Proof.
  induction l as [|y l IH]; [split; [apply not_elem_of_nil|done]|].
  csimpl. destruct (decide (Some y = Some x)) as [E|E].
  - simplify_eq. exists [], l. by rewrite decide_True.
  - assert (y <> x) as Hne by congruence. rewrite (decide_False (P := y = x)) by done.
    destruct (find_slot x (Some <$> l)) as [i|].
    + destruct IH as (l1 & l2 & -> & <- & ->). by exists (y :: l1), l2.
    + destruct IH as [? ->]. split; [|done]. by apply not_elem_of_cons.
Qed.

Lemma sv_remove_repr v l x :
  sv_repr v l ->
  fst (sv_remove v x) = bool_decide (x ∈ l) /\
  sv_repr (snd (sv_remove v x)) (remove_first x l).
Proof.
  intros Hr. pose proof (sv_begin_length v l Hr) as Hb.
  destruct Hr as (Hi & Hs & Hle & Ht & Hh). unfold sv_remove. rewrite Ht.
  pose proof (find_slot_spec x l) as Hf.
  destruct (find_slot x (Some <$> l)) as [i|]; simpl.
  2:{ destruct Hf as [Hx ->]. by rewrite bool_decide_eq_false_2. }
  destruct Hf as (l1 & l2 & -> & <- & ->).
  rewrite bool_decide_eq_true_2 by set_solver. split; [done|].
  rewrite length_app in Hs; simpl in Hs.
  set (b' := take _ _ ++ _).
  assert (length b' = sv_capacity v) as Hl'.
  { unfold b'. rewrite !length_app, !length_take, !length_drop. lia. }
  assert (take (sv_size v - 1) b' = Some <$> (l1 ++ l2)) as Ht'.
  { assert (take (length l1) (sv_begin v) = Some <$> l1) as H1.
    { replace (length l1) with (length l1 `min` sv_size v) by lia.
      rewrite <- take_take.
      rewrite Ht, fmap_app. apply take_app_length'. rewrite length_fmap. lia. }
    assert (take (length l2) (drop (length l1 + 1) (sv_begin v)) = Some <$> l2) as H2.
    { replace (length l2) with (sv_size v - (length l1 + 1)) by lia.
      rewrite <- skipn_firstn_comm, Ht, fmap_app. simpl.
      rewrite (cons_middle (Some x)), (assoc_L (++)).
      apply drop_app_length'. rewrite length_app, length_fmap. simpl. lia. }
    unfold b'. replace (sv_size v - length l1 - 1) with (length l2) by lia.
    rewrite H1, H2, (assoc_L (++)), <- fmap_app.
    apply take_app_length'. rewrite length_fmap, length_app. lia. }
  unfold sv_repr, sv_set_size; simpl.
  unfold sv_with_begin, sv_begin in *.
  destruct (sv_heap v) as [[r b]|]; simpl in *;
    rewrite length_app; split_and!; try done; lia.
Qed.

Lemma sv_push_all_repr (l2 : list T) v l1 :
  sv_repr v l1 ->
  sv_repr (foldl (fun v s => match s with Some x => sv_push_back v x | None => v end)
             v (Some <$> l2)) (l1 ++ l2).
Proof.
  revert v l1. induction l2 as [|x l2 IH]; intros v l1 Hr; csimpl.
  { by rewrite app_nil_r. }
  rewrite (cons_middle x), (assoc_L (++)). by apply IH, sv_push_back_repr.
Qed.

Lemma sv_copyFrom_repr v l other lo :
  sv_repr v l -> sv_repr other lo -> sv_repr (sv_copyFrom v other) lo.
Proof.
  intros Hr Ho. pose proof (sv_begin_length _ _ Ho) as Hbo.
  destruct Ho as (_ & Hso & Hleo & Hto & _).
  destruct Hr as (Hi & Hs & Hle & Ht & Hh). unfold sv_copyFrom.
  case_decide as Hd.
  - destruct Hd as [Hcap Hn]. rewrite Hn in Hh.
    unfold sv_repr, sv_set_size, sv_with_begin; simpl. rewrite Hn; simpl.
    rewrite sv_begin_inline, copy_prefix_length, copy_prefix_take by lia.
    split_and!; try done; lia.
  - rewrite Hto. apply (sv_push_all_repr lo _ []).
    unfold sv_repr; simpl. unfold sv_releaseHeap.
    destruct (sv_heap v) as [[r b]|]; simpl; split_and!; try done; lia.
Qed.

Lemma sv_releaseHeap_shape v l :
  sv_repr v l ->
  length (sv_inline (sv_releaseHeap v)) = cap /\ sv_heap (sv_releaseHeap v) = None /\
  sv_capacity (sv_releaseHeap v) = cap.
Proof.
  intros (Hi & _ & _ & _ & Hh). unfold sv_releaseHeap.
  destruct (sv_heap v) as [[r b]|] eqn:E; simpl; [done|]. by rewrite E.
Qed.

Lemma sv_moveFrom_repr v other lo :
  length (sv_inline v) = cap -> sv_heap v = None -> sv_capacity v = cap ->
  sv_repr other lo ->
  sv_repr (fst (sv_moveFrom v other)) lo /\ sv_repr (snd (sv_moveFrom v other)) [].
Proof.
  intros Hi Hn Hc Ho. pose proof (sv_begin_length _ _ Ho) as Hb.
  destruct Ho as (Hio & Hso & Hleo & Hto & Hho).
  unfold sv_moveFrom, sv_repr, sv_set_size in *. unfold sv_begin in *.
  destruct (sv_heap other) as [[r b]|] eqn:E; simpl in *; [split_and!; try done; lia|].
  rewrite Hn, ?E. rewrite copy_prefix_length, copy_prefix_take by lia.
  split_and!; try done; lia.
Qed.

Lemma sv_adopt_mr_repr v other l : sv_repr v l -> sv_repr (sv_adopt_mr v other) l.
Proof. unfold sv_adopt_mr. by destruct (sv_mr v). Qed.

Lemma sv_move_assign_repr v l other lo :
  sv_repr v l -> sv_repr other lo ->
  sv_repr (fst (sv_move_assign v other)) lo /\
  sv_repr (snd (sv_move_assign v other)) [].
Proof.
  intros Hr Ho. apply sv_releaseHeap_shape in Hr as (Hi & Hn & Hc).
  unfold sv_move_assign. apply sv_moveFrom_repr; [..|done];
    unfold sv_adopt_mr; by destruct (sv_mr (sv_releaseHeap v)).
Qed.

(** ** Ownership of the heap buffer *)

Lemma sv_push_back_owns v x : sv_owns v -> sv_owns (sv_push_back v x).
Proof.
  intros Ho. unfold sv_push_back.
  assert (forall w b n, sv_owns w -> sv_owns (sv_set_size (sv_with_begin w b) n))
    as Hset.
  { intros w b n. unfold sv_owns, sv_with_begin.
    by destruct (sv_heap w) as [[]|] eqn:E; simpl; rewrite ?E. }
  apply Hset. case_decide; [|done].
  unfold sv_grow, sv_resource, sv_owns; simpl. unfold sv_releaseHeap; simpl.
  by destruct (sv_heap v).
Qed.

Lemma sv_move_assign_owns v other r b :
  sv_heap other = Some (r, b) ->
  sv_owns other ->
  sv_owns (fst (sv_move_assign v other)) <-> sv_mr v = None \/ sv_mr v = Some r.
Proof.
  intros Hh Ho. unfold sv_owns in Ho. rewrite Hh in Ho.
  unfold sv_move_assign, sv_moveFrom, sv_owns. rewrite Hh; simpl.
  unfold sv_adopt_mr, sv_releaseHeap.
  destruct (sv_heap v) as [p|] eqn:Ev, (sv_mr v) as [m|] eqn:Em;
    simpl; rewrite ?Em, ?Ho; naive_solver.
Qed.
End SmallVector.

Arguments SmallVector : clear implicits.

(** C34: [SmallVector] implements a sequence: whatever mix of inline and heap
    storage a vector is in, [push_back] appends, [remove] drops the first equal
    element and reports whether there was one, copying and moving give the
    source's sequence (a moved-from vector is empty), and [clear] empties; the
    representation invariant (size within capacity, buffer length equal to the
    capacity) is preserved by each, growth included. *)
Theorem small_vector_refines_sequence {T} `{!EqDecision T} (cap mr0 : nat)
    (v w : SmallVector T) (l lw : list T) (x : T) :
  1 <= cap -> sv_repr cap v l -> sv_repr cap w lw ->
  sv_elems v = l /\
  sv_repr cap (sv_push_back cap mr0 v x) (l ++ [x]) /\
  (fst (sv_remove v x) = bool_decide (x ∈ l) /\
   sv_repr cap (snd (sv_remove v x)) (remove_first x l)) /\
  sv_repr cap (sv_clear v) [] /\
  sv_repr cap (sv_copy_construct cap mr0 w) lw /\
  sv_repr cap (sv_copy_assign cap mr0 v w) lw /\
  (sv_repr cap (fst (sv_move_construct cap w)) lw /\
   sv_repr cap (snd (sv_move_construct cap w)) []) /\
  (sv_repr cap (fst (sv_move_assign cap v w)) lw /\
   sv_repr cap (snd (sv_move_assign cap v w)) []).
Proof.
  intros Hc Hv Hw. split_and!.
  - by eapply sv_repr_elems.
  - by apply sv_push_back_repr.
  - by eapply sv_remove_repr.
  - by eapply sv_remove_repr.
  - destruct Hv as (? & ? & ? & ? & Hh). unfold sv_repr, sv_clear; simpl.
    split_and!; try done; try lia.
  - by eapply sv_copyFrom_repr; [|apply sv_new_repr|].
  - by eapply sv_copyFrom_repr; [|by apply sv_adopt_mr_repr|].
  - by apply (sv_moveFrom_repr cap Hc _ w lw); [apply length_replicate|..].
  - by apply (sv_moveFrom_repr cap Hc _ w lw); [apply length_replicate|..].
  - by eapply sv_move_assign_repr.
  - by eapply sv_move_assign_repr.
Qed.

(** A vector of capacity 2 that has spilled to the heap. *)
Definition sv_example : SmallVector nat :=
  sv_push_back 2 0 (sv_push_back 2 0 (sv_push_back 2 0 (sv_new 2 (Some 7)) 10) 11) 12.

Lemma small_vector_refines_sequence_witness :
  sv_repr 2 (snd (sv_remove sv_example 11)) [10; 12] /\
  sv_repr 2 (fst (sv_move_assign 2 (sv_new 2 None) sv_example)) [10; 11; 12].
Proof.
  assert (sv_repr 2 sv_example [10; 11; 12]) as He
    by (vm_compute; repeat split; lia).
  assert (sv_repr 2 (sv_new 2 None) ([] : list nat)) as Hn
    by (vm_compute; repeat split; lia).
  split.
  - destruct (small_vector_refines_sequence 2 0 sv_example (sv_new 2 None)
      [10; 11; 12] [] 11 ltac:(lia) He Hn) as (_ & _ & [_ H] & _). exact H.
  - destruct (small_vector_refines_sequence 2 0 (sv_new 2 None) sv_example
      [] [10; 11; 12] 11 ltac:(lia) Hn He) as (_ & _ & _ & _ & _ & _ & _ & [H _]).
    exact H.
Defined.

(** Move assignment keeps the destination's memory resource but adopts
    the source's heap buffer, so the vector then owns a buffer its own resource
    did not allocate, unless the two resources were equal or the destination
    had none; [push_back] never breaks that ownership. *)
Theorem small_vector_ownership {T} `{!EqDecision T} (cap mr0 : nat)
    (v w : SmallVector T) (x : T) r b :
  sv_owns v -> sv_owns w -> sv_heap w = Some (r, b) ->
  sv_owns (sv_push_back cap mr0 v x) /\
  (sv_owns (fst (sv_move_assign cap v w)) <->
   sv_mr v = None \/ sv_mr v = Some r).
Proof.
  intros Hv Hw Hh. split; [by apply sv_push_back_owns|].
  by eapply sv_move_assign_owns.
Qed.

Lemma small_vector_ownership_witness :
  ~ sv_owns (fst (sv_move_assign 2 (sv_new 2 (Some 3)) sv_example)).
Proof.
  pose proof (small_vector_ownership 2 0 (sv_new 2 (Some 3)) sv_example 1 7
    [Some 10; Some 11; Some 12; None] I ltac:(reflexivity) ltac:(reflexivity))
    as [_ H].
  intros Ho. apply H in Ho. destruct Ho as [Ho|Ho]; discriminate Ho.
Defined.
