(* ===== verification/Graph.v ===== *)
(** * The sea-of-nodes graph (include/b2/ir/Graph.h, compiler/ir/core/Graph.cpp)

    The graph with its concrete storage: the node vector, one flat edge pool in
    which every node owns a slice, per-node use lists, and the FrameState,
    speculation, dependency and replacement side tables. Every operation is
    state passing; one that returns a value returns it first. *)

From S2P Require Import Prelude IRTypes Effect NodeInfo SmallVector.

Local Open Scope N_scope.

(** ** Data *)

Record Use := mkUse { u_user : NodeId; u_slot : N }.

#[export] Instance Use_eq_dec : EqDecision Use.
Proof. solve_decision. Defined.

Definition kInvalidFrameState : N := 4294967295.
Definition kInvalidDependency : N := 4294967295.
Definition kInvalidSpecMeta : N := 4294967295.

Record FrameStateDesc := mkFrameStateDesc {
  fs_method : N;
  fs_pc : N;
  fs_caller : N;
  fs_vobjOffset : N;
  fs_vobjCount : N
}.

Module SpecMeta.
Inductive Kind :=
| ClassHierarchyStable | MethodFinal | TypeMonomorphic | TypeBimorphic
| NullNeverSeen | BoundsAlwaysValid | ArgumentConstant | LoopTripCountProfile
| StaticProofCarried.

Inductive Source := PGO | Static | Assumption.

Inductive Rollback := None | DeferredEffects | Compensated.

Definition kind_code (k : Kind) : N :=
  match k with
  | ClassHierarchyStable => 0 | MethodFinal => 1 | TypeMonomorphic => 2
  | TypeBimorphic => 3 | NullNeverSeen => 4 | BoundsAlwaysValid => 5
  | ArgumentConstant => 6 | LoopTripCountProfile => 7 | StaticProofCarried => 8
  end.

Definition kind_of_code (c : N) : Kind :=
  match c with
  | 0 => ClassHierarchyStable | 1 => MethodFinal | 2 => TypeMonomorphic
  | 3 => TypeBimorphic | 4 => NullNeverSeen | 5 => BoundsAlwaysValid
  | 6 => ArgumentConstant | 7 => LoopTripCountProfile | _ => StaticProofCarried
  end.

Definition source_code (s : Source) : N :=
  match s with PGO => 0 | Static => 1 | Assumption => 2 end.

Definition source_of_code (c : N) : Source :=
  match c with 0 => PGO | 1 => Static | _ => Assumption end.

Definition rollback_code (r : Rollback) : N :=
  match r with None => 0 | DeferredEffects => 1 | Compensated => 2 end.

Definition rollback_of_code (c : N) : Rollback :=
  match c with 0 => None | 1 => DeferredEffects | _ => Compensated end.

Record SpecMeta := mkSpecMeta {
  sm_kind : Kind;
  sm_source : Source;
  sm_confidence : N;
  sm_guard : NodeId;
  sm_deoptTarget : N;
  sm_cost : N;
  sm_dependency : N;
  sm_rollback : Rollback
}.
End SpecMeta.
Abbreviation SpecMeta := SpecMeta.SpecMeta.

Module Dependency.
Inductive Kind :=
| ClassHierarchy | MethodBody | FieldFinality | ProfileCounter | StaticProof.

Definition code (k : Kind) : N :=
  match k with
  | ClassHierarchy => 0 | MethodBody => 1 | FieldFinality => 2
  | ProfileCounter => 3 | StaticProof => 4
  end.

Definition of_code (c : N) : Kind :=
  match c with
  | 0 => ClassHierarchy | 1 => MethodBody | 2 => FieldFinality
  | 3 => ProfileCounter | _ => StaticProof
  end.

Record Dependency := mkDependency { dep_kind : Kind; dep_target : N }.
End Dependency.
Abbreviation Dependency := Dependency.Dependency.

Record Replacement := mkReplacement {
  rp_oldNode : NodeId;
  rp_newNode : NodeId;
  rp_epoch : N
}.

Record Graph := mkGraph {
  nodes_ : list Node;
  edgePool_ : list NodeId;
  uses_ : list (list Use);
  fsDesc_ : list FrameStateDesc;
  fsVobjs_ : list NodeId;
  specMetas_ : list SpecMeta;
  deps_ : list Dependency;
  replacements_ : list Replacement;
  epoch_ : N;
  start_ : NodeId
}.

Definition set_nodes (g : Graph) (ns : list Node) : Graph :=
  mkGraph ns (edgePool_ g) (uses_ g) (fsDesc_ g) (fsVobjs_ g) (specMetas_ g)
    (deps_ g) (replacements_ g) (epoch_ g) (start_ g).

(** Nodes, edge pool and use lists change together in the edge primitives. *)
Definition set_edges (g : Graph) (ns : list Node) (pool : list NodeId)
    (us : list (list Use)) : Graph :=
  mkGraph ns pool us (fsDesc_ g) (fsVobjs_ g) (specMetas_ g)
    (deps_ g) (replacements_ g) (epoch_ g) (start_ g).

Definition set_framestates (g : Graph) (ds : list FrameStateDesc)
    (vs : list NodeId) : Graph :=
  mkGraph (nodes_ g) (edgePool_ g) (uses_ g) ds vs (specMetas_ g)
    (deps_ g) (replacements_ g) (epoch_ g) (start_ g).

Definition set_epoch (g : Graph) (e : N) : Graph :=
  mkGraph (nodes_ g) (edgePool_ g) (uses_ g) (fsDesc_ g) (fsVobjs_ g)
    (specMetas_ g) (deps_ g) (replacements_ g) e (start_ g).

Definition set_log (g : Graph) (rs : list Replacement) : Graph :=
  mkGraph (nodes_ g) (edgePool_ g) (uses_ g) (fsDesc_ g) (fsVobjs_ g)
    (specMetas_ g) (deps_ g) rs (epoch_ g) (start_ g).

(** ** Accessors *)

Definition nodeCount (g : Graph) : N := u32 (vlen (nodes_ g)).
Definition startNode (g : Graph) : NodeId := start_ g.
Definition frameStateCount (g : Graph) : N := u32 (vlen (fsDesc_ g)).
Definition specMetaCount (g : Graph) : N := u32 (vlen (specMetas_ g)).
Definition dependencyCount (g : Graph) : N := u32 (vlen (deps_ g)).

(** [Node{}]: the out-of-range sink. *)
Definition badNode : Node :=
  mkNode NodeKind.Start 0 0 0 0 0 0 0%Z 0 0.

Definition node (g : Graph) (n : NodeId) : Node :=
  default badNode (vget (nodes_ g) n).

Definition numInputs (g : Graph) (n : NodeId) : N := nd_numInputs (node g n).

(** [edgePool_[i]]: an unchecked read, in range in every well-formed graph. *)
Definition pool_at (g : Graph) (i : N) : NodeId :=
  default kInvalidNodeId (vget (edgePool_ g) (u32 i)).

Definition input (g : Graph) (n : NodeId) (slot : N) : NodeId :=
  let nd := node g n in
  if slot <? nd_numInputs nd then pool_at g (nd_edgeOffset nd + slot)
  else kInvalidNodeId.

Definition usesOf (g : Graph) (n : NodeId) : list Use :=
  default [] (vget (uses_ g) n).

Definition frameState (g : Graph) (id : N) : FrameStateDesc :=
  default (mkFrameStateDesc 0 0 kInvalidFrameState 0 0) (vget (fsDesc_ g) id).

Definition specMeta (g : Graph) (id : N) : SpecMeta :=
  default (SpecMeta.mkSpecMeta SpecMeta.TypeMonomorphic SpecMeta.PGO 0
             kInvalidNodeId 0 0 kInvalidDependency SpecMeta.None)
    (vget (specMetas_ g) id).

Definition dependency (g : Graph) (id : N) : Dependency :=
  default (Dependency.mkDependency Dependency.ClassHierarchy 0)
    (vget (deps_ g) id).

(** The slice [pool[off .. off + count)]. *)
Definition slice {A} (l : list A) (off count : N) : list A :=
  take (N.to_nat count) (drop (N.to_nat off) l).

Definition frameStateVobjs (g : Graph) (id : N) : list NodeId :=
  match vget (fsDesc_ g) id with
  | Some d =>
      if u32 (fs_vobjOffset d + fs_vobjCount d) <=? vlen (fsVobjs_ g)
      then slice (fsVobjs_ g) (fs_vobjOffset d) (fs_vobjCount d)
      else []
  | None => []
  end.

Definition liveNodeCount (g : Graph) : N :=
  foldl (fun live n => if isDead n then live else u32 (live + 1)) 0 (nodes_ g).

(** ** Node creation *)

(** [uses_[def].push_back(u)] *)
Definition push_use (us : list (list Use)) (def : NodeId) (u : Use) : list (list Use) :=
  match vget us def with
  | Some l => vset us def (l ++ [u])
  | None => us
  end.

(** The registration loop of [makeRaw]: input [s] gets the use [(id, s)] when it
    names an existing node; an out-of-range id is stored without a use. *)
Definition register_uses (count : N) (id : NodeId) (ins : list (N * NodeId))
    (us : list (list Use)) : list (list Use) :=
  foldl (fun us p => if snd p <? count then push_use us (snd p) (mkUse id (fst p))
                     else us) us ins.

Definition makeRaw (g : Graph) (kind : NodeKind) (inputs : list NodeId)
    (payload payload2 : N) (constValue : Z) : NodeId * Graph :=
  let id := u32 (vlen (nodes_ g)) in
  let n := mkNode kind 0 (u32 (vlen (edgePool_ g))) (u16 (vlen inputs)) 0
             payload payload2 constValue 0 0 in
  let pool := edgePool_ g ++ inputs in
  let ns := nodes_ g ++ [n] in
  let us := register_uses (vlen ns) id (zip (indices (nd_numInputs n)) inputs)
              (uses_ g ++ [[]]) in
  (id, set_edges g ns pool us).

(** [Graph::Graph()] *)
Definition newGraph : Graph :=
  let '(id, g) := makeRaw (mkGraph [] [] [] [] [] [] [] [] 0 kInvalidNodeId)
                    NodeKind.Start [] 0 0 0%Z in
  mkGraph (nodes_ g) (edgePool_ g) (uses_ g) (fsDesc_ g) (fsVobjs_ g)
    (specMetas_ g) (deps_ g) (replacements_ g) (epoch_ g) id.

Definition make (g : Graph) (kind : NodeKind) (inputs : list NodeId)
    (payload payload2 : N) : NodeId * Graph :=
  makeRaw g kind inputs payload payload2 0%Z.

Definition constantI (g : Graph) (v : Z) : NodeId * Graph :=
  makeRaw g NodeKind.ConstantI [] 0 0 v.

Definition constantL (g : Graph) (v : Z) : NodeId * Graph :=
  makeRaw g NodeKind.ConstantL [] 0 0 v.

(** [constantF] and [constantD] copy the bit pattern of their argument. *)
Definition constantF (g : Graph) (bits : N) : NodeId * Graph :=
  makeRaw g NodeKind.ConstantF [] 0 0 (Z.of_N bits).

Definition constantD (g : Graph) (bits : N) : NodeId * Graph :=
  makeRaw g NodeKind.ConstantD [] 0 0 (u64_to_i64 bits).

Definition constantNull (g : Graph) : NodeId * Graph :=
  makeRaw g NodeKind.ConstantNull [] 0 0 0%Z.

Definition constantSym (g : Graph) (sym : N) : NodeId * Graph :=
  makeRaw g NodeKind.ConstantSym [] sym 0 0%Z.

Definition parameter (g : Graph) (index : N) (type : IRType) : NodeId * Graph :=
  makeRaw g NodeKind.Parameter_ [] index (IRType.code type) 0%Z.

Definition addFrameStateDesc (g : Graph) (method pc caller : N)
    (vobjs : list NodeId) : N * Graph :=
  let d := mkFrameStateDesc method pc caller (u32 (vlen (fsVobjs_ g)))
             (u32 (vlen vobjs)) in
  let g := set_framestates g (fsDesc_ g ++ [d]) (fsVobjs_ g ++ vobjs) in
  (u32 (vlen (fsDesc_ g) - 1), g).

Definition shift_offset (d : FrameStateDesc) : FrameStateDesc :=
  mkFrameStateDesc (fs_method d) (fs_pc d) (fs_caller d)
    (u32 (fs_vobjOffset d + 1)) (fs_vobjCount d).

Definition grow_count (d : FrameStateDesc) : FrameStateDesc :=
  mkFrameStateDesc (fs_method d) (fs_pc d) (fs_caller d)
    (fs_vobjOffset d) (u32 (fs_vobjCount d + 1)).

Definition appendFrameStateVobj (g : Graph) (fs : N) (vobj : NodeId) : Graph :=
  match vget (fsDesc_ g) fs with
  | None => g
  | Some d =>
      let insertPos := u32 (fs_vobjOffset d + fs_vobjCount d) in
      let vs := insert_at (N.to_nat insertPos) vobj (fsVobjs_ g) in
      let ds := imap (fun i d =>
          if N.of_nat i =? fs then grow_count d
          else if insertPos <=? fs_vobjOffset d then shift_offset d
          else d) (fsDesc_ g) in
      set_framestates g ds vs
  end.

Definition makeFrameState (g : Graph) (method pc : N) (locals : list NodeId)
    (caller : N) (vobjs : list NodeId) : NodeId * Graph :=
  let '(desc, g) := addFrameStateDesc g method pc caller vobjs in
  makeRaw g NodeKind.FrameState locals desc 0 0%Z.

Definition makeVirtualObject (g : Graph) (classId : N)
    (fieldValues : list NodeId) : NodeId * Graph :=
  makeRaw g NodeKind.VirtualObjectState fieldValues classId 0 0%Z.

Definition makeArrayVirtualObject (g : Graph) (elemType : IRType)
    (length : NodeId) (elements : list NodeId) : NodeId * Graph :=
  makeRaw g NodeKind.VirtualObjectState (length :: elements)
    (IRType.code elemType) 1 0%Z.

Definition addSpecMeta (g : Graph) (sm : SpecMeta) : N * Graph :=
  let sms := specMetas_ g ++ [sm] in
  (u32 (vlen sms - 1),
   mkGraph (nodes_ g) (edgePool_ g) (uses_ g) (fsDesc_ g) (fsVobjs_ g) sms
     (deps_ g) (replacements_ g) (epoch_ g) (start_ g)).

Definition addDependency (g : Graph) (dep : Dependency) : N * Graph :=
  let ds := deps_ g ++ [dep] in
  (u32 (vlen ds - 1),
   mkGraph (nodes_ g) (edgePool_ g) (uses_ g) (fsDesc_ g) (fsVobjs_ g)
     (specMetas_ g) ds (replacements_ g) (epoch_ g) (start_ g)).

(** ** Node updates *)

Definition nd_with_slice (nd : Node) (off num : N) : Node :=
  mkNode (nd_kind nd) (nd_flags nd) off num (nd_reserved nd) (nd_payload nd)
    (nd_payload2 nd) (nd_constValue nd) (nd_specMeta nd) (nd_epoch nd).

Definition nd_with_flags (nd : Node) (fl : NodeFlags) : Node :=
  mkNode (nd_kind nd) fl (nd_edgeOffset nd) (nd_numInputs nd) (nd_reserved nd)
    (nd_payload nd) (nd_payload2 nd) (nd_constValue nd) (nd_specMeta nd)
    (nd_epoch nd).

Definition nd_with_epoch (nd : Node) (e : N) : Node :=
  mkNode (nd_kind nd) (nd_flags nd) (nd_edgeOffset nd) (nd_numInputs nd)
    (nd_reserved nd) (nd_payload nd) (nd_payload2 nd) (nd_constValue nd)
    (nd_specMeta nd) e.

Definition nd_with_spec (nd : Node) (s : N) : Node :=
  mkNode (nd_kind nd) (nd_flags nd) (nd_edgeOffset nd) (nd_numInputs nd)
    (nd_reserved nd) (nd_payload nd) (nd_payload2 nd) (nd_constValue nd)
    s (nd_epoch nd).

(** [nodes_[n] = f(nodes_[n])] *)
Definition update_node (g : Graph) (n : NodeId) (f : Node -> Node) : Graph :=
  match vget (nodes_ g) n with
  | Some nd => set_nodes g (vset (nodes_ g) n (f nd))
  | None => g
  end.

Definition attachSpecMeta (g : Graph) (n : NodeId) (id : N) : Graph :=
  update_node g n (fun nd =>
    nd_with_flags (nd_with_spec nd (u32 (id + 1)))
      (flags_set (nd_flags nd) NodeFlag.Speculative)).

(** ** Edges *)

Definition removeFromUses (us : list (list Use)) (def user : NodeId) (slot : N)
    : list (list Use) :=
  match vget us def with
  | Some l => vset us def (remove_first (mkUse user slot) l)
  | None => us
  end.

Definition setInput (g : Graph) (n : NodeId) (slot : N) (v : NodeId) : Graph :=
  match vget (nodes_ g) n with
  | None => g
  | Some nd =>
      if nd_numInputs nd <=? slot then g
      else
        let i := nd_edgeOffset nd + slot in
        let old := pool_at g i in
        if old =? v then g
        else
          let pool := vset (edgePool_ g) (u32 i) v in
          let us := removeFromUses (uses_ g) old n slot in
          let us := if v <? vlen (nodes_ g) then push_use us v (mkUse n slot)
                    else us in
          set_edges g (nodes_ g) pool us
  end.

Definition appendInput (g : Graph) (n : NodeId) (v : NodeId) : Graph :=
  match vget (nodes_ g) n with
  | None => g
  | Some nd =>
      let newOffset := u32 (vlen (edgePool_ g)) in
      let moved := (fun s => pool_at g (nd_edgeOffset nd + s))
                     <$> indices (nd_numInputs nd) in
      let pool := edgePool_ g ++ moved ++ [v] in
      let num := u16 (nd_numInputs nd + 1) in
      let ns := vset (nodes_ g) n (nd_with_slice nd newOffset num) in
      let us := if v <? vlen ns
                then push_use (uses_ g) v (mkUse n (u16 (num + 65535)))
                else uses_ g in
      set_edges g ns pool us
  end.

(** ** Replacement and removal *)

(** One iteration of the rewiring loop of [replaceNode]. *)
Definition rewire_use (old with_ : NodeId) (g : Graph) (u : Use) : Graph :=
  match vget (nodes_ g) (u_user u) with
  | None => g
  | Some nd =>
      if (u_slot u <? nd_numInputs nd)
         && (pool_at g (nd_edgeOffset nd + u_slot u) =? old)
      then setInput g (u_user u) (u_slot u) with_
      else g
  end.

(** Sets [Replaced] and [Dead] and stamps the epoch. *)
Definition tombstone (e : N) (nd : Node) : Node :=
  nd_with_epoch
    (nd_with_flags nd
       (flags_set (flags_set (nd_flags nd) NodeFlag.Replaced) NodeFlag.Dead)) e.

Definition replaceNode (g : Graph) (oldNode withNode : NodeId) : N * Graph :=
  if (vlen (nodes_ g) <=? oldNode) || (vlen (nodes_ g) <=? withNode) then (0, g)
  else if isDead (node g withNode) then (0, g)
  else if oldNode =? withNode then (0, g)
  else
    let users := usesOf g oldNode in
    let g := foldl (rewire_use oldNode withNode) g users in
    let e := u32 (epoch_ g + 1) in
    let g := update_node (set_epoch g e) oldNode (tombstone e) in
    let g := set_log g (replacements_ g ++ [mkReplacement oldNode withNode e]) in
    (e, g).

Definition killNode (g : Graph) (n : NodeId) : Graph :=
  if vlen (nodes_ g) <=? n then g
  else
    let e := u32 (epoch_ g + 1) in
    update_node (set_epoch g e) n (fun nd =>
      nd_with_epoch (nd_with_flags nd (flags_set (nd_flags nd) NodeFlag.Dead)) e).

Definition nextEpoch (g : Graph) : Graph := set_epoch g (u32 (epoch_ g + 1)).

(** ** Replay support *)

Definition replayFrameStateDesc (g : Graph) (method pc caller : N)
    (vobjs : list NodeId) : N * Graph :=
  addFrameStateDesc g method pc caller vobjs.

Definition replayReplacement (g : Graph) (oldNode newNode ep : N) : Graph :=
  if vlen (nodes_ g) <=? oldNode then g
  else
    let g := update_node g oldNode (tombstone ep) in
    let g := set_log g (replacements_ g ++ [mkReplacement oldNode newNode ep]) in
    if epoch_ g <? ep then set_epoch g ep else g.
