(* ===== verification/GraphInv.v ===== *)
(** * Invariants of the graph storage and of the use lists

    [storage_ok]: every node owns a slice of the edge pool that is in range and
    disjoint from every other node's. [uses_exact]: the use list of a node
    holds exactly the edges that point at it, once each. Each mutation
    primitive of compiler/ir/core/Graph.cpp is characterised by what it does to
    [input] and [usesOf] and shown to preserve both. *)

From S2P Require Import Prelude IRTypes Effect NodeInfo SmallVector Graph.

Local Open Scope N_scope.

(** ** The invariants *)

Record storage_ok (g : Graph) : Prop := {
  so_len : vlen (uses_ g) = vlen (nodes_ g);
  so_nodes : fits32 (vlen (nodes_ g));
  so_pool : vlen (edgePool_ g) <= 4294967296;
  so_slice : forall n nd, vget (nodes_ g) n = Some nd ->
    nd_edgeOffset nd + nd_numInputs nd <= vlen (edgePool_ g);
  so_disjoint : forall n m nd md, n <> m ->
    vget (nodes_ g) n = Some nd -> vget (nodes_ g) m = Some md ->
    nd_edgeOffset nd + nd_numInputs nd <= nd_edgeOffset md \/
    nd_edgeOffset md + nd_numInputs md <= nd_edgeOffset nd
}.

(** [(n, s)] is an edge of the graph. *)
Definition has_slot (g : Graph) (n s : N) : Prop :=
  n < vlen (nodes_ g) /\ s < numInputs g n.

#[export] Instance has_slot_dec g n s : Decision (has_slot g n s).
Proof. unfold has_slot. apply _. Defined.

Record uses_exact (g : Graph) : Prop := {
  ue_sound : forall d u, u ∈ usesOf g d ->
    has_slot g (u_user u) (u_slot u) /\ input g (u_user u) (u_slot u) = d;
  ue_complete : forall n s, has_slot g n s -> input g n s < vlen (nodes_ g) ->
    mkUse n s ∈ usesOf g (input g n s);
  ue_nodup : forall d, NoDup (usesOf g d)
}.

(** No edge points outside the node table. *)
Definition closed (g : Graph) : Prop :=
  forall n s, has_slot g n s -> input g n s < vlen (nodes_ g).

Record graph_ok (g : Graph) : Prop := {
  go_storage : storage_ok g;
  go_uses : uses_exact g
}.

(** ** Use-list updates *)

Definition uses_at (us : list (list Use)) (d : N) : list Use :=
  default [] (vget us d).

Lemma usesOf_uses_at g d : usesOf g d = uses_at (uses_ g) d.
Proof. done. Qed.

Lemma vlen_push_use us def u : vlen (push_use us def u) = vlen us.
Proof. unfold push_use. destruct (vget us def); [apply vlen_vset|done]. Qed.

Lemma uses_at_push us def u d :
  uses_at (push_use us def u) d =
  if decide (def = d /\ def < vlen us) then uses_at us d ++ [u] else uses_at us d.
Proof.
  unfold push_use, uses_at. destruct (vget us def) as [l|] eqn:E.
  - rewrite vget_vset. repeat case_decide; try done; simpl.
    destruct_and!; subst. by rewrite E.
  - case_decide; [|done]. destruct_and!; subst.
    apply vget_ge_None in E. lia.
Qed.

Lemma vlen_removeFromUses us def n s : vlen (removeFromUses us def n s) = vlen us.
Proof. unfold removeFromUses. destruct (vget us def); [apply vlen_vset|done]. Qed.

Lemma uses_at_remove us def n s d :
  uses_at (removeFromUses us def n s) d =
  if decide (def = d) then remove_first (mkUse n s) (uses_at us d)
  else uses_at us d.
Proof.
  unfold removeFromUses, uses_at. destruct (vget us def) as [l|] eqn:E.
  - rewrite vget_vset. pose proof (vget_Some_lt _ _ _ E).
    repeat case_decide; try naive_solver; simpl. subst. by rewrite E.
  - case_decide; [subst; by rewrite E|done].
Qed.

Lemma elem_of_remove_first {A} `{!EqDecision A} (x y : A) l :
  NoDup l -> y ∈ remove_first x l <-> y ∈ l /\ y <> x.
Proof.
  induction 1 as [|z l Hz Hl IH]; simpl; [set_solver|].
  case_decide; [subst|]; rewrite ?elem_of_cons, ?IH; naive_solver.
Qed.

Lemma NoDup_remove_first {A} `{!EqDecision A} (x : A) l :
  NoDup l -> NoDup (remove_first x l).
Proof.
  induction 1 as [|z l Hz Hl IH]; simpl; [constructor|].
  case_decide; [done|]. constructor; [|done].
  rewrite elem_of_remove_first by done. naive_solver.
Qed.

Lemma vlen_register_uses count id ins us :
  vlen (register_uses count id ins us) = vlen us.
Proof.
  unfold register_uses. revert us. induction ins as [|p ins IH]; intros us; simpl; [done|].
  rewrite IH. destruct (snd p <? count); [apply vlen_push_use|done].
Qed.

(** The uses [makeRaw] registers for definition [d]. *)
Definition new_uses (id d : NodeId) (ins : list (N * NodeId)) : list Use :=
  (fun p => mkUse id (fst p)) <$> filter (fun p => snd p = d) ins.

Lemma uses_at_register count id ins us d :
  count = vlen us ->
  uses_at (register_uses count id ins us) d =
  uses_at us d ++ (if decide (d < count) then new_uses id d ins else []).
Proof.
  intros Hc. unfold register_uses. revert us Hc.
  induction ins as [|[s v] ins IH]; intros us Hc; simpl.
  { case_decide; by rewrite app_nil_r. }
  rewrite IH by (case_cmp; rewrite ?vlen_push_use; done).
  unfold new_uses. rewrite filter_cons. simpl.
  destruct (N.ltb_spec v count) as [Hv|Hv].
  - rewrite uses_at_push. subst count.
    destruct (decide (v = d)) as [->|Hne].
    + rewrite !decide_True by done. simpl. by rewrite <- (assoc_L (++)).
    + rewrite (decide_False (P := v = d /\ _)) by naive_solver. done.
  - case_decide; [|done]. rewrite (decide_False (P := v = d)) by lia. done.
Qed.

Lemma elem_of_zip_indices {A} (l : list A) k s v :
  k <= vlen l -> (s, v) ∈ zip (indices k) l <-> s < k /\ vget l s = Some v.
Proof.
  intros Hk. rewrite list_elem_of_lookup. unfold vlen in Hk.
  setoid_rewrite lookup_zip_Some. unfold indices.
  setoid_rewrite list_lookup_fmap_Some. setoid_rewrite lookup_seq.
  rewrite vget_lookup. split.
  - intros (i & (j & -> & -> & ?) & ?). rewrite Nat2N.id. split; [lia|done].
  - intros [??]. exists (N.to_nat s). split; [|done].
    exists (N.to_nat s). split_and!; lia.
Qed.

Lemma NoDup_new_uses {A} (l : list A) k id (P : N * A -> Prop) `{!forall p, Decision (P p)} :
  NoDup ((fun p => mkUse id (fst p)) <$> filter P (zip (indices k) l)).
Proof.
  unfold indices. generalize 0%nat as o. generalize (N.to_nat k) as m.
  intros m. revert l. induction m as [|m IH]; intros [|x l] o; try constructor.
  csimpl. rewrite filter_cons. case_decide; csimpl; [|apply IH].
  constructor; [|apply IH]. rewrite list_elem_of_fmap.
  intros ([s v] & Heq & Hin). simplify_eq/=.
  apply list_elem_of_filter in Hin as [_ Hin].
  apply elem_of_zip_l in Hin.
  apply list_elem_of_fmap in Hin as (j & Hj & Hseq).
  apply elem_of_seq in Hseq. lia.
Qed.

(** ** Reading the storage *)

Lemma node_Some g n nd : vget (nodes_ g) n = Some nd -> node g n = nd.
Proof. unfold node. by intros ->. Qed.

Lemma node_in_range g n :
  n < vlen (nodes_ g) -> vget (nodes_ g) n = Some (node g n).
Proof. unfold node. intros [nd ->]%vget_lt_is_Some. done. Qed.

Lemma node_out_of_range g n : vlen (nodes_ g) <= n -> node g n = badNode.
Proof. unfold node. intros ->%vget_ge_None. done. Qed.

Lemma has_slot_Some g n s :
  has_slot g n s <->
  exists nd, vget (nodes_ g) n = Some nd /\ s < nd_numInputs nd.
Proof.
  unfold has_slot, numInputs. split.
  - intros [Hn Hs]. exists (node g n). by rewrite node_in_range.
  - intros (nd & Hnd & Hs). rewrite (node_Some _ _ _ Hnd).
    split; [by eapply vget_Some_lt|done].
Qed.

Lemma has_slot_iff g n s : has_slot g n s <-> s < numInputs g n.
Proof.
  unfold has_slot. split; [tauto|]. intros Hs. split; [|done].
  destruct (N.lt_ge_cases n (vlen (nodes_ g))) as [|Hge]; [done|].
  unfold numInputs in Hs. rewrite node_out_of_range in Hs by done. simpl in Hs. lia.
Qed.

(** In a well-formed graph the unchecked pool reads and writes are in range. *)
Lemma slot_in_pool g n nd s :
  storage_ok g -> vget (nodes_ g) n = Some nd -> s < nd_numInputs nd ->
  nd_edgeOffset nd + s < vlen (edgePool_ g) /\
  u32 (nd_edgeOffset nd + s) = nd_edgeOffset nd + s.
Proof.
  intros Hg Hnd Hs. pose proof (so_slice g Hg n nd Hnd).
  pose proof (so_pool g Hg). split; [lia|]. apply u32_small. unfold fits32. lia.
Qed.

Lemma input_Some g n nd s :
  storage_ok g -> vget (nodes_ g) n = Some nd -> s < nd_numInputs nd ->
  vget (edgePool_ g) (nd_edgeOffset nd + s) = Some (input g n s).
Proof.
  intros Hg Hnd Hs. destruct (slot_in_pool g n nd s) as [Hlt Hu]; [done..|].
  unfold input, pool_at. rewrite (node_Some _ _ _ Hnd).
  destruct (N.ltb_spec s (nd_numInputs nd)); [|lia].
  rewrite Hu. by apply vget_lt_is_Some in Hlt as [x ->].
Qed.

Lemma input_no_slot g n s : ~ has_slot g n s -> input g n s = kInvalidNodeId.
Proof.
  rewrite has_slot_iff. unfold input, numInputs. intros Hs.
  destruct (N.ltb_spec s (nd_numInputs (node g n))); [lia|done].
Qed.

(** [input] only reads the node's slice. *)
Lemma input_ext g g' n nd nd' s :
  storage_ok g -> storage_ok g' ->
  vget (nodes_ g) n = Some nd -> vget (nodes_ g') n = Some nd' ->
  s < nd_numInputs nd -> s < nd_numInputs nd' ->
  vget (edgePool_ g) (nd_edgeOffset nd + s)
    = vget (edgePool_ g') (nd_edgeOffset nd' + s) ->
  input g n s = input g' n s.
Proof.
  intros Hg Hg' Hn Hn' Hs Hs'.
  rewrite (input_Some g n nd), (input_Some g' n nd') by done. congruence.
Qed.

(** ** [makeRaw] *)

Section MakeRaw.
Context (g : Graph) (kind : NodeKind) (ins : list NodeId) (p p2 : N) (cv : Z).
Context (Hg : graph_ok g).
Context (Hcount : fits32 (vlen (nodes_ g) + 1)).
Context (Hins : fits16 (vlen ins)).
Context (Hpool : vlen (edgePool_ g) + vlen ins < 4294967296).

Let g' := snd (makeRaw g kind ins p p2 cv).
Let id := vlen (nodes_ g).

Lemma makeRaw_id : fst (makeRaw g kind ins p p2 cv) = id.
Proof. clear Hpool. simpl. apply u32_small. unfold fits32, id in *. lia. Qed.

Lemma makeRaw_nodes :
  nodes_ g' = nodes_ g ++
    [mkNode kind 0 (vlen (edgePool_ g)) (vlen ins) 0 p p2 cv 0 0].
Proof.
  unfold g'. simpl. rewrite u16_small, u32_small; [done| |done]. unfold fits32. lia.
Qed.

Lemma makeRaw_vlen_nodes : vlen (nodes_ g') = vlen (nodes_ g) + 1.
Proof. rewrite makeRaw_nodes, vlen_app. done. Qed.

Lemma makeRaw_node n :
  node g' n = if n =? id
              then mkNode kind 0 (vlen (edgePool_ g)) (vlen ins) 0 p p2 cv 0 0
              else node g n.
Proof. unfold node. rewrite makeRaw_nodes, vget_snoc. unfold id. by case_cmp. Qed.

Lemma makeRaw_storage : storage_ok g'.
Proof.
  destruct (go_storage _ Hg) as [Hlen Hnodes Hpl Hsl Hdis].
  split.
  - rewrite makeRaw_vlen_nodes. unfold g'. simpl.
    rewrite vlen_register_uses, vlen_app. change (vlen [[]]) with 1. lia.
  - by rewrite makeRaw_vlen_nodes.
  - unfold g'. simpl. rewrite vlen_app. lia.
  - intros n nd. rewrite makeRaw_nodes, vget_snoc. unfold g'. simpl. rewrite vlen_app.
    case_cmp; [intros [= <-]; simpl; lia|]. intros Hnd%Hsl. lia.
  - intros n m nd md Hnm. rewrite makeRaw_nodes, !vget_snoc. case_cmp; subst.
    + done.
    + intros [= <-] Hmd%Hsl. simpl. right. lia.
    + intros Hnd%Hsl [= <-]. simpl. left. lia.
    + by apply Hdis.
Qed.

Lemma makeRaw_numInputs n :
  numInputs g' n = if n =? id then vlen ins else numInputs g n.
Proof. unfold numInputs. rewrite makeRaw_node. by case_cmp. Qed.

Lemma makeRaw_input n s :
  input g' n s = if n =? id then default kInvalidNodeId (vget ins s) else input g n s.
Proof.
  destruct (decide (s < numInputs g' n)) as [Hs|Hs].
  2:{ rewrite input_no_slot by (by rewrite has_slot_iff).
      rewrite makeRaw_numInputs in Hs. destruct (N.eqb_spec n id).
      - rewrite (proj2 (vget_ge_None ins s)); [done|lia].
      - rewrite input_no_slot; [done|]. by rewrite has_slot_iff. }
  pose proof makeRaw_storage as Hst.
  assert (exists nd, vget (nodes_ g') n = Some nd /\ s < nd_numInputs nd)
    as (nd & Hnd & Hsn) by (by apply has_slot_Some, has_slot_iff).
  pose proof (input_Some g' n nd s Hst Hnd Hsn) as Hin.
  rewrite makeRaw_nodes, vget_snoc in Hnd. unfold id.
  assert (edgePool_ g' = edgePool_ g ++ ins) as Hp by done. rewrite Hp in Hin.
  destruct (N.eqb_spec n (vlen (nodes_ g))).
  - simplify_eq/=. rewrite vget_app in Hin.
    destruct (N.ltb_spec (vlen (edgePool_ g) + s) (vlen (edgePool_ g))); [lia|].
    replace (vlen (edgePool_ g) + s - vlen (edgePool_ g)) with s in Hin by lia.
    by rewrite Hin.
  - pose proof (input_Some g n nd s (go_storage _ Hg) Hnd Hsn) as Hin'.
    rewrite vget_app in Hin. pose proof (vget_Some_lt _ _ _ Hin').
    destruct (N.ltb_spec (nd_edgeOffset nd + s) (vlen (edgePool_ g))); [|lia].
    congruence.
Qed.

Lemma makeRaw_uses d :
  usesOf g' d = usesOf g d ++
    (if decide (d <= id) then new_uses id d (zip (indices (vlen ins)) ins) else []).
Proof.
  rewrite !usesOf_uses_at. unfold g'. simpl.
  assert (vlen (uses_ g) = vlen (nodes_ g)) as Hlen by apply Hg.
  rewrite u16_small by done.
  rewrite uses_at_register by (rewrite !vlen_app, Hlen; done).
  f_equal.
  - unfold uses_at. rewrite vget_snoc. destruct (N.eqb_spec d (vlen (uses_ g))) as [->|];
      [|done]. by rewrite (proj2 (vget_ge_None (uses_ g) _)).
  - pose proof makeRaw_id as Hid. simpl in Hid. rewrite Hid.
    rewrite vlen_app. change (vlen [_]) with 1. unfold id in *. repeat case_decide; (done || lia).
Qed.

Lemma elem_of_makeRaw_uses d u :
  u ∈ usesOf g' d <->
  u ∈ usesOf g d \/
  (d <= id /\ u_user u = id /\ vget ins (u_slot u) = Some d).
Proof.
  rewrite makeRaw_uses, elem_of_app. apply or_iff_compat_l.
  case_decide as Hd; [|rewrite elem_of_nil; tauto].
  unfold new_uses. rewrite list_elem_of_fmap. split.
  - intros ([s v] & -> & [<- Hin]%list_elem_of_filter). simpl in *.
    apply elem_of_zip_indices in Hin; [|done]. tauto.
  - intros (_ & Hu & Hv). exists (u_slot u, d). simpl. split.
    + destruct u; simpl in *. by subst.
    + apply list_elem_of_filter. split; [done|].
      apply elem_of_zip_indices; [done|]. split; [|done].
      by apply vget_Some_lt in Hv.
Qed.

Lemma makeRaw_closed :
  closed g -> Forall (fun v => v <= id) ins -> closed g'.
Proof.
  intros Hc Hf n s Hs. apply has_slot_iff in Hs.
  rewrite makeRaw_numInputs in Hs. rewrite makeRaw_input, makeRaw_vlen_nodes.
  destruct (N.eqb_spec n id).
  - apply vget_lt_is_Some in Hs as [v Hv]. rewrite Hv. simpl.
    rewrite vget_lookup in Hv. eapply Forall_lookup_1 in Hf; [|done]. simpl in Hf.
    unfold id in *. lia.
  - apply has_slot_iff, Hc in Hs. lia.
Qed.

Lemma makeRaw_uses_exact : closed g -> uses_exact g'.
Proof.
  intros Hc. destruct (go_uses _ Hg) as [Hsound Hcomp Hnd]. split.
  - intros d u Hu. apply elem_of_makeRaw_uses in Hu as [Hu|(Hd & Huser & Hslot)].
    + apply Hsound in Hu as [Hs <-]. pose proof Hs as [Hlt _].
      apply has_slot_iff in Hs. rewrite has_slot_iff, makeRaw_numInputs, makeRaw_input.
      unfold id. case_cmp; [lia|done].
    + rewrite has_slot_iff, makeRaw_numInputs, makeRaw_input, Huser.
      rewrite N.eqb_refl, Hslot. split; [by eapply vget_Some_lt|done].
  - intros n s Hs Hlt. apply elem_of_makeRaw_uses. simpl.
    apply has_slot_iff in Hs. rewrite makeRaw_vlen_nodes in Hlt.
    rewrite makeRaw_numInputs in Hs. rewrite makeRaw_input in *.
    destruct (N.eqb_spec n id).
    + right. apply vget_lt_is_Some in Hs as [v Hv]. rewrite Hv in *. simpl in *.
      unfold id. split_and!; [lia|done|done].
    + left. apply has_slot_iff in Hs. apply Hcomp; [done|]. by apply Hc.
  - intros d. rewrite makeRaw_uses. apply NoDup_app. split_and!; [apply Hnd| |].
    + intros u Hu Hin. apply Hsound in Hu as [[Hlt _] _].
      case_decide; [|by apply elem_of_nil in Hin].
      unfold new_uses in Hin. apply list_elem_of_fmap in Hin as (q & -> & _).
      simpl in Hlt. unfold id in *. lia.
    + case_decide; [apply NoDup_new_uses|constructor].
Qed.
End MakeRaw.

(** In a graph with exact use lists, membership is a statement about inputs. *)
Lemma elem_of_usesOf g d u :
  graph_ok g -> d < vlen (nodes_ g) ->
  u ∈ usesOf g d <->
  has_slot g (u_user u) (u_slot u) /\ input g (u_user u) (u_slot u) = d.
Proof.
  intros [_ [Hs Hc _]] Hd. split; [apply Hs|].
  intros [Hh Hi]. destruct u as [n s]; simpl in *. subst d. by apply Hc.
Qed.

(** The number of referencers of a node is bounded by the edge pool. *)
Lemma uses_bound g d : graph_ok g -> vlen (usesOf g d) <= vlen (edgePool_ g).
Proof.
  intros Hg. set (f := fun u => nd_edgeOffset (node g (u_user u)) + u_slot u).
  assert (forall u, u ∈ usesOf g d -> exists nd, vget (nodes_ g) (u_user u) = Some nd /\
    node g (u_user u) = nd /\ u_slot u < nd_numInputs nd) as Hu.
  { intros u H. apply (ue_sound g (go_uses g Hg)) in H as [Hs _].
    apply has_slot_Some in Hs as (nd & Hnd & Hlt). exists nd.
    split_and!; [done|by apply node_Some|done]. }
  assert (NoDup (f <$> usesOf g d)) as Hnd.
  { apply NoDup_fmap_2_strong; [|apply (ue_nodup g (go_uses g Hg))].
    intros u v Huu Hvv. destruct (Hu u Huu) as (nu & Hu1 & Hu2 & Hu3).
    destruct (Hu v Hvv) as (nv & Hv1 & Hv2 & Hv3). unfold f. rewrite Hu2, Hv2. intros Heq.
    destruct (decide (u_user u = u_user v)) as [Hsame|Hdiff].
    - destruct u as [uu us], v as [vu vs]. simpl in *. subst vu.
      assert (nu = nv) as -> by congruence. f_equal. lia.
    - destruct (so_disjoint g (go_storage g Hg) _ _ _ _ Hdiff Hu1 Hv1); lia. }
  assert (length (f <$> usesOf g d) <= length (indices (vlen (edgePool_ g))))%nat as Hle.
  { apply submseteq_length, NoDup_submseteq; [done|].
    intros x (u & -> & Huu)%list_elem_of_fmap. apply elem_of_indices.
    destruct (Hu u Huu) as (nd & Hnd1 & Hnd2 & Hlt). unfold f. rewrite Hnd2.
    pose proof (so_slice g (go_storage g Hg) _ _ Hnd1). lia. }
  rewrite length_fmap, length_indices in Hle. unfold vlen at 1. lia.
Qed.

(** ** [setInput] *)

Section SetInput.
Context (g : Graph) (n slot v : N).
Context (Hg : graph_ok g).

Let g' := setInput g n slot v.

Lemma setInput_cases :
  (g' = g /\ (~ has_slot g n slot \/ input g n slot = v)) \/
  (exists nd, vget (nodes_ g) n = Some nd /\ slot < nd_numInputs nd /\
     input g n slot <> v /\
     g' = set_edges g (nodes_ g)
            (vset (edgePool_ g) (nd_edgeOffset nd + slot) v)
            (let us := removeFromUses (uses_ g) (input g n slot) n slot in
             if v <? vlen (nodes_ g) then push_use us v (mkUse n slot) else us)).
Proof.
  unfold g', setInput. rewrite has_slot_Some.
  destruct (vget (nodes_ g) n) as [nd|] eqn:Hnd; [|left; naive_solver].
  destruct (N.leb_spec (nd_numInputs nd) slot) as [Hle|Hlt].
  { left. split; [done|]. left. intros (nd' & [= <-] & ?). lia. }
  destruct (slot_in_pool g n nd slot (go_storage _ Hg) Hnd Hlt) as [_ Hu].
  assert (pool_at g (nd_edgeOffset nd + slot) = input g n slot) as ->.
  { unfold pool_at. rewrite Hu, (input_Some g n nd); [done|apply Hg|done|done]. }
  rewrite Hu. destruct (N.eqb_spec (input g n slot) v); [left|right]; eauto 10.
Qed.

Lemma setInput_nodes : nodes_ g' = nodes_ g.
Proof. destruct setInput_cases as [[-> _]|(nd & _ & _ & _ & ->)]; done. Qed.

Lemma setInput_vlen_uses : vlen (uses_ g') = vlen (uses_ g).
Proof.
  destruct setInput_cases as [[-> _]|(nd & _ & _ & _ & ->)]; [done|]. simpl.
  destruct (v <? _); by rewrite ?vlen_push_use, vlen_removeFromUses.
Qed.

Lemma setInput_vlen_pool : vlen (edgePool_ g') = vlen (edgePool_ g).
Proof.
  destruct setInput_cases as [[-> _]|(nd & _ & _ & _ & ->)]; [done|]. apply vlen_vset.
Qed.

Lemma setInput_node m : node g' m = node g m.
Proof. unfold node. by rewrite setInput_nodes. Qed.

Lemma setInput_numInputs m : numInputs g' m = numInputs g m.
Proof. unfold numInputs. by rewrite setInput_node. Qed.

Lemma setInput_has_slot m s : has_slot g' m s <-> has_slot g m s.
Proof. by rewrite !has_slot_iff, setInput_numInputs. Qed.

Lemma setInput_storage : storage_ok g'.
Proof.
  destruct (go_storage _ Hg) as [Hlen Hn Hp Hs Hd].
  split; rewrite ?setInput_nodes, ?setInput_vlen_pool, ?setInput_vlen_uses; done.
Qed.

Lemma setInput_input m s :
  input g' m s = if decide (m = n /\ s = slot /\ has_slot g n slot) then v else input g m s.
Proof.
  destruct setInput_cases as [[-> Hno]|(nd & Hnd & Hlt & Hne & Hg')].
  { case_decide; [|done]. naive_solver. }
  destruct (decide (has_slot g m s)) as [Hms|Hms].
  2:{ rewrite !input_no_slot; [case_decide; [naive_solver|done]|done|].
      by rewrite setInput_has_slot. }
  apply has_slot_Some in Hms as (md & Hmd & Hs).
  pose proof (input_Some g m md s (go_storage _ Hg) Hmd Hs) as Hold.
  pose proof (input_Some g' m md s setInput_storage) as Hnew.
  rewrite setInput_nodes in Hnew. specialize (Hnew Hmd Hs).
  assert (edgePool_ g' = vset (edgePool_ g) (nd_edgeOffset nd + slot) v) as Hp
    by (by rewrite Hg').
  rewrite Hp, vget_vset in Hnew.
  destruct (decide (m = n /\ s = slot /\ has_slot g n slot)) as [Hw|Hw].
  - destruct Hw as (-> & -> & _). simplify_eq.
    rewrite decide_True in Hnew; [congruence|].
    split; [done|]. by eapply vget_Some_lt.
  - rewrite decide_False in Hnew; [congruence|].
    intros [Heq _]. apply Hw. destruct (decide (m = n)) as [->|Hmn].
    + simplify_eq. split_and!; [done|lia|]. apply has_slot_Some. eauto.
    + destruct (so_disjoint g (go_storage _ Hg) m n md nd); [done..| |]; lia.
Qed.

Lemma setInput_uses d :
  usesOf g' d =
  if decide (has_slot g n slot /\ input g n slot <> v) then
    (if decide (input g n slot = d) then remove_first (mkUse n slot) (usesOf g d)
     else usesOf g d) ++
    (if decide (v = d /\ v < vlen (nodes_ g)) then [mkUse n slot] else [])
  else usesOf g d.
Proof.
  destruct setInput_cases as [[-> Hno]|(nd & Hnd & Hlt & Hne & ->)].
  { case_decide; [naive_solver|done]. }
  rewrite decide_True by (split; [apply has_slot_Some; eauto|done]).
  rewrite !usesOf_uses_at. simpl.
  pose proof (so_len g (go_storage _ Hg)) as Hl.
  destruct (N.ltb_spec v (vlen (nodes_ g))) as [Hv|Hv].
  - rewrite uses_at_push, uses_at_remove, vlen_removeFromUses, Hl.
    destruct (decide (v = d /\ v < vlen (nodes_ g))); [done|by rewrite app_nil_r].
  - rewrite uses_at_remove, (decide_False (P := v = d /\ _)) by lia.
    by rewrite app_nil_r.
Qed.

Lemma setInput_uses_exact : uses_exact g'.
Proof.
  destruct (go_uses _ Hg) as [Hsound Hcomp Hnd].
  destruct (decide (has_slot g n slot /\ input g n slot <> v)) as [[Hh Hne]|Hno].
  2:{ destruct setInput_cases as [[-> _]|(nd & ? & ? & ? & _)]; [by apply Hg|].
      destruct Hno. split; [apply has_slot_Some; eauto|done]. }
  assert (forall d u, u ∈ usesOf g' d <->
    (u ∈ usesOf g d /\ u <> mkUse n slot) \/
    (u = mkUse n slot /\ v = d /\ v < vlen (nodes_ g))) as Hmem.
  { intros d u. rewrite setInput_uses, (decide_True (P := _ /\ _)) by done.
    rewrite elem_of_app.
    assert (u ∈ (if decide (input g n slot = d)
                 then remove_first (mkUse n slot) (usesOf g d) else usesOf g d)
            <-> u ∈ usesOf g d /\ u <> mkUse n slot) as ->.
    { case_decide; [by apply elem_of_remove_first|].
      split; [|tauto]. intros Hu. split; [done|]. intros ->.
      apply Hsound in Hu as [_ Hu]. done. }
    apply or_iff_compat_l.
    case_decide; [rewrite list_elem_of_singleton|rewrite elem_of_nil]; tauto. }
  split.
  - intros d u Hu. rewrite setInput_has_slot, setInput_input.
    apply Hmem in Hu as [[Hu Hneq]|(-> & <- & _)]; simpl.
    + apply Hsound in Hu as [? ?]. split; [done|].
      rewrite decide_False; [done|]. intros (? & ? & _). destruct u; simpl in *. congruence.
    + split; [done|]. by rewrite decide_True.
  - intros m s Hs Hlt. rewrite setInput_nodes in Hlt. rewrite setInput_has_slot in Hs.
    rewrite Hmem. rewrite setInput_input in *. case_decide as Hw.
    + destruct Hw as (-> & -> & _). right. done.
    + left. split; [by apply Hcomp|]. intros Heq. injection Heq as -> ->. by destruct Hw.
  - intros d. rewrite setInput_uses. rewrite (decide_True (P := _ /\ _)) by done.
    assert (NoDup (if decide (input g n slot = d)
                 then remove_first (mkUse n slot) (usesOf g d) else usesOf g d)) as Hnd1.
    { case_decide; [apply NoDup_remove_first|]; apply Hnd. }
    destruct (decide (v = d /\ v < vlen (nodes_ g))) as [[<- Hv]|]; [|by rewrite app_nil_r].
    apply NoDup_app. split_and!; [done| |apply NoDup_singleton].
    intros u Hu ->%list_elem_of_singleton. rewrite decide_False in Hu by done.
    apply Hsound in Hu as [_ Hu]. done.
Qed.

Lemma setInput_ok : graph_ok g'.
Proof. split; [apply setInput_storage|apply setInput_uses_exact]. Qed.

Lemma setInput_closed : closed g -> v < vlen (nodes_ g) -> closed g'.
Proof.
  intros Hc Hv m s Hs. rewrite setInput_has_slot in Hs.
  rewrite setInput_nodes, setInput_input. case_decide; [done|by apply Hc].
Qed.
End SetInput.

(** ** [appendInput] *)

Section AppendInput.
Context (g : Graph) (n v : N) (nd : Node).
Context (Hg : graph_ok g) (Hnd : vget (nodes_ g) n = Some nd).
Context (Hnum : fits16 (nd_numInputs nd + 1)).
Context (Hpool : vlen (edgePool_ g) + nd_numInputs nd + 1 < 4294967296).

Let g' := appendInput g n v.
Let k := nd_numInputs nd.
Let nd' := nd_with_slice nd (vlen (edgePool_ g)) (k + 1).

Lemma appendInput_unfold :
  g' = set_edges g (vset (nodes_ g) n nd')
         (edgePool_ g ++ ((fun s => input g n s) <$> indices k) ++ [v])
         (if v <? vlen (nodes_ g) then push_use (uses_ g) v (mkUse n k) else uses_ g).
Proof.
  unfold g', appendInput. rewrite Hnd, vlen_vset.
  assert (u32 (vlen (edgePool_ g)) = vlen (edgePool_ g)) as ->
    by (apply u32_small; unfold fits32; lia).
  rewrite (u16_small (nd_numInputs nd + 1)) by done.
  assert (u16 (nd_numInputs nd + 1 + 65535) = k) as ->.
  { unfold u16, k. replace (nd_numInputs nd + 1 + 65535)
      with (nd_numInputs nd + 1 * 65536) by lia.
    rewrite N.Div0.mod_add. apply N.mod_small. unfold fits16 in Hnum. lia. }
  fold k. fold nd'. f_equal. f_equal. f_equal.
  apply list_fmap_ext. intros i s Hs.
  assert (s < k) as Hsk by (apply elem_of_indices, list_elem_of_lookup; eauto).
  destruct (slot_in_pool g n nd s (go_storage _ Hg) Hnd Hsk) as [_ Hu].
  unfold pool_at. rewrite Hu, (input_Some g n nd); [done|apply Hg|done|done].
Qed.

Lemma appendInput_vlen_nodes : vlen (nodes_ g') = vlen (nodes_ g).
Proof. rewrite appendInput_unfold. apply vlen_vset. Qed.

Lemma appendInput_nodes m :
  vget (nodes_ g') m = if m =? n then Some nd' else vget (nodes_ g) m.
Proof.
  rewrite appendInput_unfold. simpl. destruct (N.eqb_spec m n) as [->|].
  - apply vget_vset_eq. by eapply vget_Some_lt.
  - by apply vget_vset_ne.
Qed.

Lemma appendInput_vlen_pool : vlen (edgePool_ g') = vlen (edgePool_ g) + k + 1.
Proof.
  rewrite appendInput_unfold. simpl. rewrite !vlen_app. unfold vlen at 2.
  rewrite length_fmap, length_indices. change (vlen [v]) with 1. lia.
Qed.

Lemma appendInput_storage : storage_ok g'.
Proof.
  destruct (go_storage _ Hg) as [Hlen Hns Hp Hs Hd]. split.
  - rewrite appendInput_vlen_nodes, appendInput_unfold. simpl.
    destruct (v <? _); by rewrite ?vlen_push_use.
  - by rewrite appendInput_vlen_nodes.
  - rewrite appendInput_vlen_pool. unfold k. lia.
  - intros m md. rewrite appendInput_nodes, appendInput_vlen_pool.
    case_cmp; [intros [= <-]; simpl; lia|]. intros Hm%Hs. lia.
  - intros m1 m2 d1 d2 Hne. rewrite !appendInput_nodes. case_cmp; subst.
    + done.
    + intros [= <-] H2%Hs. simpl. right. lia.
    + intros H1%Hs [= <-]. simpl. left. lia.
    + by apply Hd.
Qed.

Lemma appendInput_numInputs m :
  numInputs g' m = if m =? n then k + 1 else numInputs g m.
Proof.
  unfold numInputs, node. rewrite appendInput_nodes. by destruct (m =? n).
Qed.

Lemma appendInput_input m s :
  input g' m s = if decide (m = n /\ s = k) then v else input g m s.
Proof.
  assert (numInputs g n = k) as Hk.
  { unfold numInputs. by rewrite (node_Some _ _ _ Hnd). }
  destruct (decide (has_slot g' m s)) as [Hh|Hh].
  2:{ rewrite (input_no_slot g' m s) by done. rewrite has_slot_iff in Hh.
      rewrite appendInput_numInputs in Hh. rewrite decide_False, input_no_slot; [done| |].
      - rewrite has_slot_iff. destruct (N.eqb_spec m n) as [->|]; [lia|done].
      - intros [-> ->]. rewrite N.eqb_refl in Hh. lia. }
  apply has_slot_Some in Hh as (md & Hmd & Hs).
  pose proof (input_Some g' m md s appendInput_storage Hmd Hs) as Hin.
  rewrite appendInput_nodes in Hmd.
  rewrite appendInput_unfold in Hin at 1. simpl in Hin.
  destruct (N.eqb_spec m n) as [->|Hne].
  - injection Hmd as <-. simpl in *. rewrite vget_app in Hin.
    destruct (N.ltb_spec (vlen (edgePool_ g) + s) (vlen (edgePool_ g))); [lia|].
    replace (vlen (edgePool_ g) + s - vlen (edgePool_ g)) with s in Hin by lia.
    rewrite vget_snoc in Hin. unfold vlen in Hin.
    rewrite length_fmap, length_indices, N2Nat.id in Hin.
    destruct (N.eqb_spec s k) as [->|Hsk]; [rewrite decide_True by done; congruence|].
    rewrite decide_False by naive_solver.
    rewrite vget_fmap in Hin.
    rewrite vget_lookup in Hin. unfold indices in Hin.
    rewrite list_lookup_fmap, lookup_seq_lt in Hin by lia. simpl in Hin.
    rewrite N2Nat.id in Hin. congruence.
  - rewrite decide_False by naive_solver.
    pose proof (input_Some g m md s (go_storage _ Hg) Hmd Hs) as Hold.
    rewrite vget_app in Hin. pose proof (vget_Some_lt _ _ _ Hold).
    destruct (N.ltb_spec (nd_edgeOffset md + s) (vlen (edgePool_ g))); [congruence|lia].
Qed.

Lemma appendInput_has_slot m s :
  has_slot g' m s <-> has_slot g m s \/ (m = n /\ s = k).
Proof.
  rewrite !has_slot_iff, appendInput_numInputs.
  destruct (N.eqb_spec m n) as [->|]; [|naive_solver].
  unfold numInputs. rewrite (node_Some _ _ _ Hnd). fold k. lia.
Qed.

Lemma appendInput_uses d :
  usesOf g' d = usesOf g d ++
    (if decide (v = d /\ v < vlen (nodes_ g)) then [mkUse n k] else []).
Proof.
  rewrite !usesOf_uses_at, appendInput_unfold. simpl.
  rewrite <- (so_len g (go_storage _ Hg)).
  destruct (N.ltb_spec v (vlen (uses_ g))).
  - rewrite uses_at_push. case_decide; [done|by rewrite app_nil_r].
  - rewrite decide_False by lia. by rewrite app_nil_r.
Qed.

Lemma appendInput_uses_exact : uses_exact g'.
Proof.
  destruct (go_uses _ Hg) as [Hsound Hcomp Hnodup].
  assert (forall d u, u ∈ usesOf g' d <->
    u ∈ usesOf g d \/ (u = mkUse n k /\ v = d /\ v < vlen (nodes_ g))) as Hmem.
  { intros d u. rewrite appendInput_uses, elem_of_app. apply or_iff_compat_l.
    case_decide; [rewrite list_elem_of_singleton|rewrite elem_of_nil]; tauto. }
  assert (forall m, has_slot g m k -> m <> n) as Hfresh.
  { intros m Hm ->. apply has_slot_iff in Hm. unfold numInputs in Hm.
    rewrite (node_Some _ _ _ Hnd) in Hm. unfold k in Hm. lia. }
  split.
  - intros d u Hu. rewrite appendInput_has_slot, appendInput_input.
    apply Hmem in Hu as [Hu|(-> & <- & _)]; simpl.
    + apply Hsound in Hu as [Hh Hi]. split; [by left|].
      rewrite decide_False; [done|]. intros [Hu1 Hu2].
      rewrite Hu2 in Hh. by apply Hfresh in Hh.
    + split; [by right|]. by rewrite decide_True.
  - intros m s Hs Hlt. rewrite appendInput_vlen_nodes in Hlt.
    rewrite Hmem, appendInput_input in *. apply appendInput_has_slot in Hs.
    destruct (decide (m = n /\ s = k)) as [[-> ->]|Hne]; [by right|].
    left. apply Hcomp; [by destruct Hs|done].
  - intros d. rewrite appendInput_uses. apply NoDup_app. split_and!; [apply Hnodup| |].
    + intros u Hu Hin. case_decide; [|by apply elem_of_nil in Hin].
      apply list_elem_of_singleton in Hin as ->. apply Hsound in Hu as [Hh _].
      simpl in Hh. by apply Hfresh in Hh.
    + case_decide; [apply NoDup_singleton|constructor].
Qed.

Lemma appendInput_ok : graph_ok g'.
Proof. split; [apply appendInput_storage|apply appendInput_uses_exact]. Qed.

Lemma appendInput_closed : closed g -> v < vlen (nodes_ g) -> closed g'.
Proof.
  intros Hc Hv m s Hs. rewrite appendInput_vlen_nodes, appendInput_input.
  case_decide as Hd; [done|]. apply Hc. apply appendInput_has_slot in Hs. tauto.
Qed.
End AppendInput.

(** ** Operations that leave the edges alone *)

(** [f] changes a node without touching its slice. *)
Definition keeps_slice (f : Node -> Node) : Prop :=
  forall nd, nd_edgeOffset (f nd) = nd_edgeOffset nd /\
             nd_numInputs (f nd) = nd_numInputs nd.

Section UpdateNode.
Context (g : Graph) (n : N) (f : Node -> Node) (Hf : keeps_slice f).
Let g' := update_node g n f.

Lemma update_node_vlen : vlen (nodes_ g') = vlen (nodes_ g).
Proof.
  unfold g', update_node. destruct (vget (nodes_ g) n); [apply vlen_vset|done].
Qed.

Lemma update_node_vget m :
  vget (nodes_ g') m = if decide (m = n) then f <$> vget (nodes_ g) m
                       else vget (nodes_ g) m.
Proof.
  unfold g', update_node. destruct (vget (nodes_ g) n) as [nd|] eqn:E; simpl.
  - rewrite vget_vset. pose proof (vget_Some_lt _ _ _ E).
    repeat case_decide; subst; try naive_solver. by rewrite E.
  - case_decide; [subst; by rewrite E|done].
Qed.

Lemma update_node_node m :
  m < vlen (nodes_ g) -> node g' m = if decide (m = n) then f (node g m) else node g m.
Proof.
  intros Hm. unfold node. rewrite update_node_vget.
  apply vget_lt_is_Some in Hm as [nd ->]. by case_decide.
Qed.

Lemma update_node_numInputs m : numInputs g' m = numInputs g m.
Proof.
  destruct (N.lt_ge_cases m (vlen (nodes_ g))) as [Hm|Hm].
  - unfold numInputs. rewrite update_node_node by done.
    case_decide; [apply Hf|done].
  - unfold numInputs. rewrite !node_out_of_range; [done|done|].
    by rewrite update_node_vlen.
Qed.

Lemma update_node_pool : edgePool_ g' = edgePool_ g.
Proof. unfold g', update_node. by destruct (vget (nodes_ g) n). Qed.

Lemma update_node_uses_ : uses_ g' = uses_ g.
Proof. unfold g', update_node. by destruct (vget (nodes_ g) n). Qed.

Lemma update_node_input m s : input g' m s = input g m s.
Proof.
  unfold input. fold (numInputs g' m) (numInputs g m). rewrite update_node_numInputs.
  destruct (N.ltb_spec s (numInputs g m)) as [Hs|]; [|done].
  apply has_slot_iff in Hs as [Hm _]. rewrite update_node_node by done.
  unfold pool_at. rewrite update_node_pool. case_decide; [|done].
  by rewrite (proj1 (Hf _)).
Qed.

Lemma update_node_has_slot m s : has_slot g' m s <-> has_slot g m s.
Proof. by rewrite !has_slot_iff, update_node_numInputs. Qed.

Lemma update_node_usesOf d : usesOf g' d = usesOf g d.
Proof. unfold usesOf. by rewrite update_node_uses_. Qed.

Lemma update_node_ok : graph_ok g -> graph_ok g'.
Proof.
  intros [[Hlen Hns Hp Hs Hd] [Hsound Hcomp Hnodup]].
  assert (forall m nd, vget (nodes_ g') m = Some nd -> exists nd0,
    vget (nodes_ g) m = Some nd0 /\ nd_edgeOffset nd = nd_edgeOffset nd0 /\
    nd_numInputs nd = nd_numInputs nd0) as Hsl.
  { intros m nd. rewrite update_node_vget. case_decide; [|naive_solver].
    intros (nd0 & -> & ->)%fmap_Some_1. exists nd0. split; [done|apply Hf]. }
  split; split.
  - by rewrite update_node_vlen, update_node_uses_.
  - by rewrite update_node_vlen.
  - by rewrite update_node_pool.
  - intros m nd (nd0 & Hm & -> & ->)%Hsl. rewrite update_node_pool. eauto.
  - intros m1 m2 d1 d2 Hne (e1 & H1 & -> & ->)%Hsl (e2 & H2 & -> & ->)%Hsl. eauto.
  - intros d u. rewrite update_node_usesOf, update_node_has_slot, update_node_input. auto.
  - intros m s. rewrite update_node_usesOf, update_node_has_slot, update_node_input,
      update_node_vlen. auto.
  - intros d. by rewrite update_node_usesOf.
Qed.

Lemma update_node_closed : closed g -> closed g'.
Proof.
  intros Hc m s. rewrite update_node_has_slot, update_node_input, update_node_vlen. auto.
Qed.
End UpdateNode.

(** Two graphs with the same nodes, pool and use lists have the same edges. *)
Definition same_edges (g g' : Graph) : Prop :=
  nodes_ g' = nodes_ g /\ edgePool_ g' = edgePool_ g /\ uses_ g' = uses_ g.

Lemma same_edges_ok g g' : same_edges g g' -> graph_ok g -> graph_ok g'.
Proof.
  destruct g, g'; unfold same_edges; simpl. intros (-> & -> & ->) [[] []].
  split; split; done.
Qed.

Lemma same_edges_closed g g' : same_edges g g' -> closed g -> closed g'.
Proof.
  destruct g, g'; unfold same_edges; simpl. intros (-> & -> & ->) Hc. exact Hc.
Qed.
