(* ===== verification/GraphReplace.v ===== *)
(** * Replacement, removal and the FrameState side table

    The laws of the graph's mutation API (compiler/ir/core/Graph.cpp): what
    [make], [setInput], [appendInput], [replaceNode] and [killNode] do to the
    edges, that each keeps the storage and use-list invariants, and that the
    flat virtual-object table keeps one list per FrameState descriptor. *)

From S2P Require Import Prelude IRTypes Effect NodeInfo SmallVector Graph GraphInv.

Local Open Scope N_scope.

(** Everything but nodes, edges and use lists is unchanged. *)
Definition same_meta (g g' : Graph) : Prop :=
  fsDesc_ g' = fsDesc_ g /\ fsVobjs_ g' = fsVobjs_ g /\
  specMetas_ g' = specMetas_ g /\ deps_ g' = deps_ g /\
  replacements_ g' = replacements_ g /\ epoch_ g' = epoch_ g /\
  start_ g' = start_ g.

Lemma same_meta_refl g : same_meta g g.
Proof. by repeat split. Qed.

Lemma same_meta_trans g1 g2 g3 : same_meta g1 g2 -> same_meta g2 g3 -> same_meta g1 g3.
Proof. unfold same_meta. intuition congruence. Qed.

Lemma setInput_meta g n s v : graph_ok g -> same_meta g (setInput g n s v).
Proof.
  intros Hg. destruct (setInput_cases g n s v Hg) as [[-> _]|(nd & _ & _ & _ & ->)];
    by repeat split.
Qed.

(** ** The rewiring loop *)

Lemma rewire_use_eq old w g u :
  graph_ok g -> has_slot g (u_user u) (u_slot u) ->
  input g (u_user u) (u_slot u) = old ->
  rewire_use old w g u = setInput g (u_user u) (u_slot u) w.
Proof.
  intros Hg Hh Hi. unfold rewire_use.
  apply has_slot_Some in Hh as (nd & Hnd & Hs). rewrite Hnd.
  destruct (slot_in_pool g _ nd _ (go_storage _ Hg) Hnd Hs) as [_ Hu].
  unfold pool_at. rewrite Hu, (input_Some g _ nd) by (done || apply Hg). simpl.
  rewrite Hi, N.eqb_refl. by destruct (N.ltb_spec (u_slot u) (nd_numInputs nd)); [|lia].
Qed.

Lemma rewire_loop old w us g :
  graph_ok g -> NoDup us ->
  (forall u, u ∈ us -> has_slot g (u_user u) (u_slot u) /\
                       input g (u_user u) (u_slot u) = old) ->
  let g' := foldl (rewire_use old w) g us in
  graph_ok g' /\ nodes_ g' = nodes_ g /\ same_meta g g' /\
  vlen (edgePool_ g') = vlen (edgePool_ g) /\
  (forall m s, input g' m s =
     if decide (mkUse m s ∈ us) then w else input g m s).
Proof.
  revert g. induction us as [|u us IH]; intros g Hg Hnd Hus; cbn [foldl].
  { split_and!; [done|done|apply same_meta_refl|done|]. intros m s.
    by rewrite decide_False by apply not_elem_of_nil. }
  apply NoDup_cons in Hnd as [Hu Hnd].
  destruct (Hus u) as [Hh Hi]; [left|].
  rewrite (rewire_use_eq old w g u) by done.
  set (g1 := setInput g (u_user u) (u_slot u) w).
  destruct (IH g1) as (Hok & Hn & Hm & Hp & Hin).
  - by apply setInput_ok.
  - done.
  - intros u' Hu'. unfold g1. rewrite setInput_has_slot, setInput_input by done.
    destruct (Hus u') as [Hh' Hi']; [by right|]. split; [done|].
    rewrite decide_False; [done|]. intros (E1 & E2 & _).
    destruct u, u'; simpl in *; congruence.
  - unfold g1 in *. rewrite setInput_nodes in Hn by done.
    rewrite setInput_vlen_pool in Hp by done. split_and!; [done|done| |done|].
    + eapply same_meta_trans; [by apply setInput_meta|done].
    + intros m s. rewrite Hin, setInput_input by done.
      destruct (decide (mkUse m s ∈ us)) as [Hin'|Hin'].
      * by rewrite decide_True by (by right).
      * destruct u as [um usl]; simpl in *.
        destruct (decide (m = um /\ s = usl)) as [[-> ->]|Hne].
        -- rewrite !decide_True; [done|left|done].
        -- rewrite !decide_False; [done| |].
           ++ rewrite elem_of_cons. intros [[= -> ->]|?]; tauto.
           ++ tauto.
Qed.

Lemma keeps_slice_tombstone e : keeps_slice (tombstone e).
Proof. by intros nd. Qed.

Definition kill_mark (e : N) (nd : Node) : Node :=
  nd_with_epoch (nd_with_flags nd (flags_set (nd_flags nd) NodeFlag.Dead)) e.

Lemma keeps_slice_kill e : keeps_slice (kill_mark e).
Proof. by intros nd. Qed.

Lemma isDead_tombstone e nd : isDead (tombstone e nd) = true.
Proof.
  unfold isDead, tombstone; simpl. rewrite flags_has_set by done. apply orb_true_r.
Qed.

Lemma isDead_kill e nd : isDead (kill_mark e nd) = true.
Proof.
  unfold isDead, kill_mark; simpl. rewrite flags_has_set by done. apply orb_true_r.
Qed.

(** ** [replaceNode] *)

Definition can_replace (g : Graph) (o w : NodeId) : Prop :=
  o < vlen (nodes_ g) /\ w < vlen (nodes_ g) /\ o <> w /\ isDead (node g w) = false.

#[export] Instance can_replace_dec g o w : Decision (can_replace g o w).
Proof. unfold can_replace. apply _. Defined.

Lemma replaceNode_refused g o w : ~ can_replace g o w -> replaceNode g o w = (0, g).
Proof.
  intros Hno. unfold replaceNode, can_replace in *.
  destruct (N.leb_spec (vlen (nodes_ g)) o); [done|].
  destruct (N.leb_spec (vlen (nodes_ g)) w); [done|]. simpl.
  destruct (isDead (node g w)); [done|].
  destruct (N.eqb_spec o w); [done|]. tauto.
Qed.

Section Replace.
Context (g : Graph) (o w : NodeId).
Context (Hg : graph_ok g) (Hcan : can_replace g o w).

Let e := u32 (epoch_ g + 1).
Let g1 := foldl (rewire_use o w) g (usesOf g o).
Let g' := snd (replaceNode g o w).

Lemma replace_loop :
  graph_ok g1 /\ nodes_ g1 = nodes_ g /\ same_meta g g1 /\
  vlen (edgePool_ g1) = vlen (edgePool_ g) /\
  (forall m s, input g1 m s =
     if decide (mkUse m s ∈ usesOf g o) then w else input g m s).
Proof. apply rewire_loop; [done|apply Hg|]. apply Hg. Qed.

Lemma replaceNode_eq :
  replaceNode g o w =
  (e, set_log (update_node (set_epoch g1 e) o (tombstone e))
        (replacements_ g ++ [mkReplacement o w e])).
Proof.
  unfold replaceNode. destruct Hcan as (Ho & Hw & Hne & Hdead).
  destruct (N.leb_spec (vlen (nodes_ g)) o); [lia|].
  destruct (N.leb_spec (vlen (nodes_ g)) w); [lia|]. simpl. rewrite Hdead.
  destruct (N.eqb_spec o w); [done|]. fold g1.
  destruct replace_loop as (_ & Hn & (_&_&_&_& Hr & He &_) & _).
  rewrite He. fold e. f_equal. f_equal. f_equal.
  unfold update_node. simpl. destruct (vget (nodes_ g1) o); done.
Qed.

Lemma replaceNode_snd_edges :
  same_edges (update_node g1 o (tombstone e)) g'.
Proof.
  unfold g'. rewrite replaceNode_eq. simpl. unfold update_node. simpl.
  by destruct (vget (nodes_ g1) o).
Qed.

Lemma replaceNode_graph_ok : graph_ok g'.
Proof.
  eapply same_edges_ok; [apply replaceNode_snd_edges|].
  apply update_node_ok; [apply keeps_slice_tombstone|apply replace_loop].
Qed.

Lemma replaceNode_vlen : vlen (nodes_ g') = vlen (nodes_ g).
Proof.
  destruct replaceNode_snd_edges as (-> & _ & _).
  rewrite update_node_vlen. by destruct replace_loop as (_ & -> & _).
Qed.

Lemma replaceNode_node m :
  m < vlen (nodes_ g) ->
  node g' m = if decide (m = o) then tombstone e (node g m) else node g m.
Proof.
  intros Hm. destruct replaceNode_snd_edges as (Hn & _ & _).
  destruct replace_loop as (_ & Hn1 & _).
  assert (node g' m = node (update_node g1 o (tombstone e)) m) as ->
    by (unfold node; by rewrite Hn).
  rewrite update_node_node by (by rewrite Hn1).
  unfold node. by rewrite Hn1.
Qed.

Lemma replaceNode_numInputs m : numInputs g' m = numInputs g m.
Proof.
  destruct (N.lt_ge_cases m (vlen (nodes_ g))) as [Hm|Hm].
  - unfold numInputs. rewrite replaceNode_node by done. by case_decide.
  - unfold numInputs. rewrite !node_out_of_range; [done|done|].
    by rewrite replaceNode_vlen.
Qed.

Lemma replaceNode_input m s :
  has_slot g m s ->
  input g' m s = if decide (input g m s = o) then w else input g m s.
Proof.
  intros Hh. destruct replaceNode_snd_edges as (Hn & Hp & _).
  assert (input g' m s = input (update_node g1 o (tombstone e)) m s) as ->.
  { unfold input, node, pool_at. by rewrite Hn, Hp. }
  rewrite update_node_input by apply keeps_slice_tombstone.
  destruct replace_loop as (_ & _ & _ & _ & ->).
  destruct Hcan as [Ho _].
  destruct (decide (mkUse m s ∈ usesOf g o)) as [Hu|Hu];
    rewrite (elem_of_usesOf g o (mkUse m s)) in Hu by done; simpl in Hu.
  - by rewrite decide_True by apply Hu.
  - rewrite decide_False; [done|]. tauto.
Qed.

Lemma replaceNode_no_uses : usesOf g' o = [].
Proof.
  destruct (usesOf g' o) as [|u us] eqn:E; [done|exfalso].
  assert (u ∈ usesOf g' o) as Hu by (rewrite E; left).
  destruct Hcan as (Ho & _ & Hne & _).
  apply (elem_of_usesOf g') in Hu as [Hh Hi];
    [|apply replaceNode_graph_ok|by rewrite replaceNode_vlen].
  rewrite has_slot_iff, replaceNode_numInputs, <- has_slot_iff in Hh.
  rewrite replaceNode_input in Hi by done. case_decide; congruence.
Qed.

Lemma replaceNode_closed : closed g -> closed g'.
Proof.
  intros Hc m s. rewrite has_slot_iff, replaceNode_numInputs, <- has_slot_iff.
  intros Hh. rewrite replaceNode_vlen, replaceNode_input by done.
  case_decide; [apply Hcan|by apply Hc].
Qed.
End Replace.

(** ** [killNode] and the metadata operations *)

Lemma killNode_same_edges g n :
  n < vlen (nodes_ g) ->
  same_edges (update_node g n (kill_mark (u32 (epoch_ g + 1)))) (killNode g n).
Proof.
  intros Hn. unfold killNode. destruct (N.leb_spec (vlen (nodes_ g)) n); [lia|].
  unfold update_node. simpl. by destruct (vget (nodes_ g) n).
Qed.

Lemma killNode_out_of_range g n : vlen (nodes_ g) <= n -> killNode g n = g.
Proof. intros Hn. unfold killNode. by destruct (N.leb_spec (vlen (nodes_ g)) n); [|lia]. Qed.

Lemma killNode_ok g n : graph_ok g -> graph_ok (killNode g n).
Proof.
  intros Hg. destruct (N.lt_ge_cases n (vlen (nodes_ g))) as [Hn|Hn].
  - eapply same_edges_ok; [by apply killNode_same_edges|].
    by apply update_node_ok; [apply keeps_slice_kill|].
  - by rewrite killNode_out_of_range.
Qed.

Lemma killNode_closed g n : closed g -> closed (killNode g n).
Proof.
  intros Hg. destruct (N.lt_ge_cases n (vlen (nodes_ g))) as [Hn|Hn].
  - eapply same_edges_closed; [by apply killNode_same_edges|].
    by apply update_node_closed; [apply keeps_slice_kill|].
  - by rewrite killNode_out_of_range.
Qed.

Lemma killNode_vlen g n : vlen (nodes_ (killNode g n)) = vlen (nodes_ g).
Proof.
  destruct (N.lt_ge_cases n (vlen (nodes_ g))) as [Hn|Hn].
  - destruct (killNode_same_edges g n Hn) as [-> _]. apply update_node_vlen.
  - by rewrite killNode_out_of_range.
Qed.

Lemma killNode_node g n m :
  n < vlen (nodes_ g) -> m < vlen (nodes_ g) ->
  node (killNode g n) m =
  if decide (m = n) then kill_mark (u32 (epoch_ g + 1)) (node g m) else node g m.
Proof.
  intros Hn Hm. rewrite <- update_node_node by done.
  unfold node. by destruct (killNode_same_edges g n Hn) as [-> _].
Qed.

Lemma killNode_input g n m s : input (killNode g n) m s = input g m s.
Proof.
  destruct (N.lt_ge_cases n (vlen (nodes_ g))) as [Hn|Hn].
  - destruct (killNode_same_edges g n Hn) as (E1 & E2 & _).
    rewrite <- (update_node_input g n _ (keeps_slice_kill (u32 (epoch_ g + 1))) m s).
    unfold input, node, pool_at. by rewrite E1, E2.
  - by rewrite killNode_out_of_range.
Qed.

Lemma killNode_usesOf g n d : usesOf (killNode g n) d = usesOf g d.
Proof.
  destruct (N.lt_ge_cases n (vlen (nodes_ g))) as [Hn|Hn].
  - destruct (killNode_same_edges g n Hn) as (_ & _ & E3).
    unfold usesOf. by rewrite E3, update_node_uses_.
  - by rewrite killNode_out_of_range.
Qed.

Definition spec_mark (id : N) (nd : Node) : Node :=
  nd_with_flags (nd_with_spec nd (u32 (id + 1)))
    (flags_set (nd_flags nd) NodeFlag.Speculative).

Lemma keeps_slice_spec id : keeps_slice (spec_mark id).
Proof. by intros nd. Qed.

(** ** The graph API as a transition system *)

Definition no_wrap_make (g : Graph) (ins : list NodeId) : Prop :=
  fits32 (vlen (nodes_ g) + 1) /\ fits16 (vlen ins) /\
  vlen (edgePool_ g) + vlen ins < 4294967296.

Definition no_wrap_append (g : Graph) (n : NodeId) : Prop :=
  fits16 (numInputs g n + 1) /\
  vlen (edgePool_ g) + numInputs g n + 1 < 4294967296.

(** One call of a mutating method, within the id, slot and pool widths, whose
    edge arguments name existing nodes (or, for [make], the node itself). *)
Inductive api_step (g : Graph) : Graph -> Prop :=
| step_make kind ins p p2 cv :
    no_wrap_make g ins -> Forall (fun v => v <= vlen (nodes_ g)) ins ->
    api_step g (snd (makeRaw g kind ins p p2 cv))
| step_setInput n s v :
    v < vlen (nodes_ g) -> api_step g (setInput g n s v)
| step_appendInput n v :
    v < vlen (nodes_ g) -> no_wrap_append g n -> api_step g (appendInput g n v)
| step_replaceNode o w : api_step g (snd (replaceNode g o w))
| step_killNode n : api_step g (killNode g n)
| step_attachSpecMeta n id : api_step g (attachSpecMeta g n id)
| step_addFrameStateDesc m pc c vs : api_step g (snd (addFrameStateDesc g m pc c vs))
| step_appendFrameStateVobj fs v : api_step g (appendFrameStateVobj g fs v)
| step_addSpecMeta sm : api_step g (snd (addSpecMeta g sm))
| step_addDependency d : api_step g (snd (addDependency g d))
| step_nextEpoch : api_step g (nextEpoch g).

Definition reachable (g : Graph) : Prop := rtc api_step newGraph g.

Lemma same_edges_both g g' :
  same_edges g g' -> graph_ok g /\ closed g -> graph_ok g' /\ closed g'.
Proof. intros ? []. split; [by eapply same_edges_ok|by eapply same_edges_closed]. Qed.

Lemma api_step_ok g g' :
  api_step g g' -> graph_ok g /\ closed g -> graph_ok g' /\ closed g'.
Proof.
  intros Hstep [Hg Hc]. destruct Hstep.
  - destruct H as (Hn & Hi & Hp). split; [split|].
    + by apply makeRaw_storage.
    + by apply makeRaw_uses_exact.
    + by apply makeRaw_closed.
  - split; [by apply setInput_ok|by apply setInput_closed].
  - destruct H0 as [Hnum Hp].
    destruct (vget (nodes_ g) n) as [nd|] eqn:Hnd.
    + unfold numInputs in *. rewrite (node_Some _ _ _ Hnd) in *.
      split; [by eapply appendInput_ok|by eapply appendInput_closed].
    + unfold appendInput. by rewrite Hnd.
  - destruct (decide (can_replace g o w)).
    + split; [by apply replaceNode_graph_ok|by apply replaceNode_closed].
    + by rewrite replaceNode_refused.
  - split; [by apply killNode_ok|by apply killNode_closed].
  - split; [by apply update_node_ok; [apply (keeps_slice_spec id)|]|].
    by apply update_node_closed; [apply (keeps_slice_spec id)|].
  - by apply (same_edges_both g).
  - unfold appendFrameStateVobj. destruct (vget (fsDesc_ g) fs); [|done].
    by apply (same_edges_both g).
  - by apply (same_edges_both g).
  - by apply (same_edges_both g).
  - by apply (same_edges_both g).
Qed.

Lemma newGraph_node n nd :
  vget (nodes_ newGraph) n = Some nd -> n = 0 /\ nd = badNode.
Proof.
  intros Hnd. pose proof (vget_Some_lt _ _ _ Hnd) as Hlt.
  change (vlen (nodes_ newGraph)) with 1 in Hlt.
  assert (n = 0) as -> by lia. split; [done|]. by injection Hnd.
Qed.

Lemma newGraph_ok : graph_ok newGraph /\ closed newGraph.
Proof.
  assert (forall n s, ~ has_slot newGraph n s) as Hno.
  { intros n s. rewrite has_slot_Some. intros (nd & Hnd & Hs).
    apply newGraph_node in Hnd as [_ ->]. simpl in Hs. lia. }
  assert (forall d, usesOf newGraph d = []) as Hu.
  { intros d. unfold usesOf. change (uses_ newGraph) with [[] : list Use].
    destruct (vget [[]] d) as [l|] eqn:E; [|done].
    pose proof (vget_Some_lt _ _ _ E) as Hlt. change (vlen [[]]) with 1 in Hlt.
    assert (d = 0) as -> by lia. by injection E as <-. }
  split; [split; split|].
  - done.
  - done.
  - done.
  - intros n nd [_ ->]%newGraph_node. simpl. lia.
  - intros n m nd md Hne [-> _]%newGraph_node [-> _]%newGraph_node. done.
  - intros d u. rewrite Hu. by intros ?%elem_of_nil.
  - intros n s Hs. by apply Hno in Hs.
  - intros d. rewrite Hu. constructor.
  - intros n s Hs. by apply Hno in Hs.
Qed.

Lemma reachable_ok g : reachable g -> graph_ok g /\ closed g.
Proof.
  unfold reachable. intros Hr. pose proof newGraph_ok as H0. revert Hr H0.
  generalize newGraph as g0. induction 1; eauto using api_step_ok.
Qed.

(** ** Properties of the graph *)

(** C1: the def-use law: in every graph built through the mutation API from a
    fresh one (any interleaving of make, setInput, appendInput, replaceNode,
    killNode and the metadata calls, with edges to existing nodes and within
    the integer widths), the use list of a node contains [(user, slot)] exactly
    when input [slot] of [user] is that node, and contains it once; no input
    dangles; and the slices of the edge pool are in range and disjoint. *)
Theorem def_use_exact g :
  reachable g ->
  (forall d user slot, d < vlen (nodes_ g) ->
     mkUse user slot ∈ usesOf g d <->
     user < vlen (nodes_ g) /\ slot < numInputs g user /\ input g user slot = d) /\
  (forall d, NoDup (usesOf g d)) /\
  (forall user slot, user < vlen (nodes_ g) -> slot < numInputs g user ->
     input g user slot < vlen (nodes_ g)) /\
  storage_ok g.
Proof.
  intros [Hg Hc]%reachable_ok. split_and!.
  - intros d user slot Hd. rewrite elem_of_usesOf by done. unfold has_slot. simpl. tauto.
  - apply Hg.
  - intros user slot Hu Hs. by apply Hc.
  - apply Hg.
Qed.

(** [AddI(p0, p0)], then the second operand rewired and the first replaced. *)
Definition g_example : Graph :=
  let '(p0, g) := parameter newGraph 0 IRType.Int in
  let '(c, g) := constantI g 7 in
  let '(add, g) := make g NodeKind.AddI [p0; p0] 0 0 in
  snd (replaceNode (setInput g add 1 c) p0 c).

Lemma g_example_reachable : reachable g_example.
Proof.
  unfold reachable.
  eapply rtc_l. { apply (step_make _ NodeKind.Parameter_ [] 0 1 0%Z); vm_compute; repeat constructor. }
  eapply rtc_l. { apply (step_make _ NodeKind.ConstantI [] 0 0 7%Z); vm_compute; repeat constructor. }
  eapply rtc_l. { apply (step_make _ NodeKind.AddI [1; 1] 0 0 0%Z);
    vm_compute; repeat constructor; discriminate. }
  eapply rtc_l. { apply (step_setInput _ 3 1 2). reflexivity. }
  apply rtc_once. apply (step_replaceNode _ 1 2).
Qed.

Lemma def_use_exact_witness :
  mkUse 3 0 ∈ usesOf g_example 2 /\ NoDup (usesOf g_example 2).
Proof.
  destruct (def_use_exact g_example g_example_reachable) as (H & Hnd & _).
  split; [|apply Hnd]. apply H; [reflexivity|]. vm_compute. auto.
Defined.

(** C2: replacement: when [replaceNode] accepts (both ids exist, they differ,
    the replacement is alive), every edge that pointed at the old node points
    at the new one and every other edge is unchanged, the old node is left
    without users, tagged dead and replaced at the new epoch, every other node
    record is unchanged, the log gains exactly that entry and the invariants
    hold; when it refuses, it returns 0 and the graph is unchanged. *)
Theorem replaceNode_spec g o w :
  graph_ok g -> closed g ->
  let '(e, g') := replaceNode g o w in
  graph_ok g' /\ closed g' /\
  (~ can_replace g o w -> e = 0 /\ g' = g) /\
  (can_replace g o w ->
   e = u32 (epoch_ g + 1) /\
   (forall m s, has_slot g m s ->
      input g' m s = if decide (input g m s = o) then w else input g m s) /\
   (forall m, numInputs g' m = numInputs g m) /\
   usesOf g' o = [] /\
   (forall m, m < vlen (nodes_ g) ->
      node g' m = if decide (m = o) then tombstone e (node g m) else node g m) /\
   isDead (node g' o) = true /\
   replacements_ g' = replacements_ g ++ [mkReplacement o w e]).
Proof.
  intros Hg Hc. destruct (decide (can_replace g o w)) as [Hcan|Hno].
  2:{ rewrite replaceNode_refused by done. split_and!; done. }
  pose proof (replaceNode_graph_ok g o w Hg Hcan) as Hok.
  pose proof (replaceNode_closed g o w Hg Hcan Hc) as Hcl.
  pose proof (replaceNode_input g o w Hg Hcan) as Hin.
  pose proof (replaceNode_numInputs g o w Hg Hcan) as Hnum.
  pose proof (replaceNode_no_uses g o w Hg Hcan) as Hno.
  pose proof (replaceNode_node g o w Hg Hcan) as Hnode.
  pose proof (replaceNode_eq g o w Hg Hcan) as Heq.
  destruct (replaceNode g o w) as [e g'].
  injection Heq as -> Heq. simpl in *. split_and!; [done|done|done|intros _].
  split_and!; try done.
  - rewrite Hnode by apply Hcan. rewrite decide_True by done. apply isDead_tombstone.
  - by rewrite Heq.
Qed.

Lemma replaceNode_spec_witness :
  let '(e, g') := replaceNode g_example 2 0 in
  usesOf g' 2 = [] /\ input g' 3 0 = 0 /\ e = 2.
Proof.
  destruct (reachable_ok g_example g_example_reachable) as [Hg Hc].
  pose proof (replaceNode_spec g_example 2 0 Hg Hc) as H.
  destruct (replaceNode g_example 2 0) as [e g'].
  destruct H as (_ & _ & _ & H).
  destruct H as (He & Hin & _ & Hu & _).
  { vm_compute. repeat split; discriminate. }
  split_and!; [exact Hu| |exact He].
  rewrite Hin by (vm_compute; split; reflexivity). reflexivity.
Defined.

(** [killNode] marks exactly the given node dead at a fresh epoch and
    rewires nothing: every input, every use list and every other node record
    is unchanged (so a killed node with users leaves edges to a dead node), and
    the invariants are preserved. *)
Theorem killNode_spec g n :
  graph_ok g -> closed g -> n < vlen (nodes_ g) ->
  graph_ok (killNode g n) /\ closed (killNode g n) /\
  isDead (node (killNode g n) n) = true /\
  nd_epoch (node (killNode g n) n) = u32 (epoch_ g + 1) /\
  (forall m, m < vlen (nodes_ g) -> m <> n -> node (killNode g n) m = node g m) /\
  (forall m s, input (killNode g n) m s = input g m s) /\
  (forall d, usesOf (killNode g n) d = usesOf g d).
Proof.
  intros Hg Hc Hn.
  assert (node (killNode g n) n = kill_mark (u32 (epoch_ g + 1)) (node g n)) as Hnd
    by (rewrite killNode_node, decide_True; done).
  split_and!.
  - by apply killNode_ok.
  - by apply killNode_closed.
  - rewrite Hnd. apply isDead_kill.
  - by rewrite Hnd.
  - intros m Hm Hne. by rewrite killNode_node, decide_False.
  - apply killNode_input.
  - apply killNode_usesOf.
Qed.

Lemma killNode_spec_witness :
  isDead (node (killNode g_example 3) 3) = true /\
  input (killNode g_example 3) 3 0 = input g_example 3 0.
Proof.
  destruct (reachable_ok g_example g_example_reachable) as [Hg Hc].
  destruct (killNode_spec g_example 3 Hg Hc eq_refl) as (_ & _ & Hd & _ & _ & Hi & _).
  split; [exact Hd|apply Hi].
Defined.

Lemma usesOf_out_of_range g d :
  graph_ok g -> vlen (nodes_ g) <= d -> usesOf g d = [].
Proof.
  intros Hg Hd. unfold usesOf. rewrite (proj2 (vget_ge_None _ _)); [done|].
  by rewrite (so_len g (go_storage _ Hg)).
Qed.

(** The restriction of the def-use law to existing operands is needed: an
    input id that is not yet a node is stored without a use, and when that node
    is created later its use list stays empty although an edge points at it. *)
Theorem forward_reference_loses_use g kind kind2 :
  graph_ok g -> closed g ->
  fits32 (vlen (nodes_ g) + 2) -> vlen (edgePool_ g) + 1 < 4294967296 ->
  let '(a, g1) := make g kind [vlen (nodes_ g) + 1] 0 0 in
  let '(b, g2) := make g1 kind2 [] 0 0 in
  a < vlen (nodes_ g2) /\ 0 < numInputs g2 a /\ input g2 a 0 = b /\ usesOf g2 b = [].
Proof.
  intros Hg Hc Hn Hp. unfold make, fits32 in *.
  assert (fits32 (vlen (nodes_ g) + 1)) as Hn1 by (unfold fits32; lia).
  assert (fits16 (vlen [vlen (nodes_ g) + 1])) as Hi1 by done.
  assert (vlen (edgePool_ g) + vlen [vlen (nodes_ g) + 1] < 4294967296) as Hp1 by done.
  pose proof (makeRaw_id g kind [vlen (nodes_ g) + 1] 0 0 0%Z Hn1) as Ha.
  pose proof (makeRaw_storage g kind _ 0 0 0%Z Hg Hn1 Hi1 Hp1) as Hst.
  pose proof (makeRaw_uses_exact g kind _ 0 0 0%Z Hg Hn1 Hi1 Hp1 Hc) as Hue.
  pose proof (makeRaw_vlen_nodes g kind _ 0 0 0%Z Hi1 Hp1) as Hv1.
  pose proof (makeRaw_input g kind _ 0 0 0%Z Hg Hn1 Hi1 Hp1) as Hin1.
  pose proof (makeRaw_numInputs g kind _ 0 0 0%Z Hi1 Hp1) as Hnum1.
  assert (vlen (edgePool_ (snd (makeRaw g kind [vlen (nodes_ g) + 1] 0 0 0%Z)))
          = vlen (edgePool_ g) + 1) as Hpl1 by (simpl; by rewrite vlen_app).
  destruct (makeRaw g kind [vlen (nodes_ g) + 1] 0 0 0) as [a g1]. cbn [fst snd] in *. subst a.
  assert (graph_ok g1) as Hg1 by done.
  assert (fits32 (vlen (nodes_ g1) + 1)) as Hn2 by (unfold fits32; lia).
  assert (vlen (edgePool_ g1) + vlen ([] : list NodeId) < 4294967296) as Hp2
    by (rewrite Hpl1; change (vlen []) with 0; lia).
  pose proof (makeRaw_id g1 kind2 [] 0 0 0%Z Hn2) as Hb.
  pose proof (makeRaw_vlen_nodes g1 kind2 [] 0 0 0%Z eq_refl Hp2) as Hv2.
  pose proof (makeRaw_input g1 kind2 [] 0 0 0%Z Hg1 Hn2 eq_refl Hp2) as Hin2.
  pose proof (makeRaw_numInputs g1 kind2 [] 0 0 0%Z eq_refl Hp2) as Hnum2.
  pose proof (makeRaw_uses g1 kind2 [] 0 0 0%Z Hg1 Hn2 eq_refl) as Hu2.
  destruct (makeRaw g1 kind2 [] 0 0 0) as [b g2]. cbn [fst snd] in *. subst b.
  assert ((vlen (nodes_ g) =? vlen (nodes_ g1)) = false) as Hne
    by (apply N.eqb_neq; lia).
  rewrite Hin2, Hnum2, Hne, Hin1, Hnum1, N.eqb_refl.
  split_and!; [lia|done|by rewrite Hv1|].
  rewrite Hu2, usesOf_out_of_range by done. by case_decide.
Qed.

Lemma forward_reference_loses_use_witness :
  let '(a, g1) := make newGraph NodeKind.Region [2] 0 0 in
  let '(b, g2) := make g1 NodeKind.LoopEnd [] 0 0 in
  a < vlen (nodes_ g2) /\ 0 < numInputs g2 a /\ input g2 a 0 = b /\ usesOf g2 b = [].
Proof.
  apply (forward_reference_loses_use newGraph NodeKind.Region NodeKind.LoopEnd);
    [apply newGraph_ok|apply newGraph_ok|reflexivity|reflexivity].
Defined.
