(* ===== verification/GraphFrameState.v ===== *)
(** * The FrameState descriptor table

    [fsVobjs_] is one flat vector in which every descriptor owns a slice
    (compiler/ir/core/Graph.cpp, [addFrameStateDesc] and
    [appendFrameStateVobj]). The slices stay in range and disjoint, so the flat
    table implements one growable list per descriptor. *)

From S2P Require Import Prelude IRTypes Effect NodeInfo SmallVector Graph.

Local Open Scope N_scope.

Definition fs_slice_end (d : FrameStateDesc) : N := fs_vobjOffset d + fs_vobjCount d.

Record framestates_ok (g : Graph) : Prop := {
  fo_fits : vlen (fsVobjs_ g) < 4294967295;
  fo_descs : fits32 (vlen (fsDesc_ g));
  fo_range : forall i d, vget (fsDesc_ g) i = Some d ->
    fs_slice_end d <= vlen (fsVobjs_ g);
  fo_disjoint : forall i j d e, i <> j ->
    vget (fsDesc_ g) i = Some d -> vget (fsDesc_ g) j = Some e ->
    fs_slice_end d <= fs_vobjOffset e \/ fs_slice_end e <= fs_vobjOffset d
}.

(** ** Slices and insertion *)

Lemma slice_app_l {A} (l l' : list A) off cnt :
  off + cnt <= vlen l -> slice (l ++ l') off cnt = slice l off cnt.
Proof.
  unfold slice, vlen. intros H. rewrite drop_app_le by lia.
  apply take_app_le. rewrite length_drop. lia.
Qed.

Lemma slice_insert_before {A} (l : list A) p x off cnt :
  p <= off -> p <= vlen l ->
  slice (insert_at (N.to_nat p) x l) (off + 1) cnt = slice l off cnt.
Proof.
  unfold slice, insert_at, vlen. intros H Hp. f_equal.
  rewrite drop_app_ge by (rewrite length_take; lia).
  rewrite length_take, Nat.min_l by lia.
  replace (N.to_nat (off + 1) - N.to_nat p)%nat
    with (S (N.to_nat off - N.to_nat p)) by lia.
  simpl. rewrite drop_drop. f_equal. lia.
Qed.

Lemma slice_insert_after {A} (l : list A) p x off cnt :
  off + cnt <= p -> p <= vlen l ->
  slice (insert_at (N.to_nat p) x l) off cnt = slice l off cnt.
Proof.
  intros H Hp. unfold insert_at. rewrite slice_app_l.
  - unfold slice. rewrite !take_drop_commute, take_take. f_equal. f_equal. lia.
  - unfold vlen in *. rewrite length_take. lia.
Qed.

Lemma slice_insert_end {A} (l : list A) x off cnt :
  off + cnt <= vlen l ->
  slice (insert_at (N.to_nat (off + cnt)) x l) off (cnt + 1) = slice l off cnt ++ [x].
Proof.
  intros H. unfold slice, insert_at, vlen in *.
  rewrite drop_app_le by (rewrite length_take; lia).
  rewrite take_app_ge by (rewrite length_drop, length_take; lia).
  rewrite length_drop, length_take, Nat.min_l by lia.
  replace (N.to_nat (cnt + 1) - (N.to_nat (off + cnt) - N.to_nat off))%nat
    with 1%nat by lia.
  simpl. f_equal.
  rewrite take_drop_commute. f_equal. f_equal. lia.
Qed.

(** ** Reading a descriptor's list *)

Lemma frameStateVobjs_Some g i d :
  framestates_ok g -> vget (fsDesc_ g) i = Some d ->
  frameStateVobjs g i = slice (fsVobjs_ g) (fs_vobjOffset d) (fs_vobjCount d).
Proof.
  intros Hg Hd. unfold frameStateVobjs. rewrite Hd.
  pose proof (fo_range g Hg i d Hd) as Hr. unfold fs_slice_end in Hr.
  pose proof (fo_fits g Hg).
  rewrite u32_small by (unfold fits32; lia).
  by destruct (N.leb_spec (fs_vobjOffset d + fs_vobjCount d) (vlen (fsVobjs_ g))); [|lia].
Qed.

Section Append.
Context (g : Graph) (fs : N) (v : NodeId) (d0 : FrameStateDesc).
Context (Hg : framestates_ok g) (Hfs : vget (fsDesc_ g) fs = Some d0).
Context (Hroom : vlen (fsVobjs_ g) + 1 < 4294967295).

Let p := fs_slice_end d0.
Let g' := appendFrameStateVobj g fs v.

Definition appended_desc (i : N) (d : FrameStateDesc) : FrameStateDesc :=
  if i =? fs
  then mkFrameStateDesc (fs_method d) (fs_pc d) (fs_caller d)
         (fs_vobjOffset d) (fs_vobjCount d + 1)
  else if p <=? fs_vobjOffset d
  then mkFrameStateDesc (fs_method d) (fs_pc d) (fs_caller d)
         (fs_vobjOffset d + 1) (fs_vobjCount d)
  else d.

Lemma append_vobjs : fsVobjs_ g' = insert_at (N.to_nat p) v (fsVobjs_ g).
Proof.
  unfold g', appendFrameStateVobj. rewrite Hfs. simpl.
  pose proof (fo_range g Hg fs d0 Hfs) as Hr. unfold fs_slice_end, p in *.
  by rewrite u32_small by (unfold fits32, fs_slice_end in *; lia).
Qed.

Lemma append_vlen_vobjs : vlen (fsVobjs_ g') = vlen (fsVobjs_ g) + 1.
Proof. rewrite append_vobjs. unfold vlen. rewrite length_insert_at. lia. Qed.

Lemma append_desc i :
  vget (fsDesc_ g') i = appended_desc i <$> vget (fsDesc_ g) i.
Proof.
  unfold g', appendFrameStateVobj. rewrite Hfs. simpl.
  pose proof (fo_range g Hg fs d0 Hfs) as Hr0.
  rewrite !vget_lookup, list_lookup_imap.
  destruct (fsDesc_ g !! N.to_nat i) as [d|] eqn:E; [|done]. simpl. f_equal.
  rewrite <- vget_lookup in E. pose proof (fo_range g Hg i d E) as Hr.
  unfold appended_desc, grow_count, shift_offset, p, fs_slice_end in *.
  rewrite N2Nat.id. rewrite !u32_small by (unfold fits32; lia). done.
Qed.

Lemma append_framestates_ok : framestates_ok g'.
Proof.
  pose proof (fo_range g Hg fs d0 Hfs) as Hr0. split.
  - rewrite append_vlen_vobjs. lia.
  - assert (vlen (fsDesc_ g') = vlen (fsDesc_ g)) as ->; [|apply Hg].
    unfold g', appendFrameStateVobj. rewrite Hfs. simpl.
    unfold vlen. by rewrite length_imap.
  - intros i d'. rewrite append_desc, append_vlen_vobjs.
    intros (d & Hd & ->)%fmap_Some_1. pose proof (fo_range g Hg i d Hd).
    unfold appended_desc, fs_slice_end, p in *. case_cmp; simpl; lia.
  - intros i j d' e' Hne. rewrite !append_desc.
    intros (d & Hd & ->)%fmap_Some_1 (e & He & ->)%fmap_Some_1.
    pose proof (fo_disjoint g Hg i j d e Hne Hd He) as Hde.
    assert (i <> fs -> p <= fs_vobjOffset d \/ fs_slice_end d <= fs_vobjOffset d0) as Hi.
    { intros Hi. unfold p. by apply (fo_disjoint g Hg fs i d0 d). }
    assert (j <> fs -> p <= fs_vobjOffset e \/ fs_slice_end e <= fs_vobjOffset d0) as Hj.
    { intros Hj. unfold p. by apply (fo_disjoint g Hg fs j d0 e). }
    assert (i = fs -> d = d0) as Hi' by (intros ->; congruence).
    assert (j = fs -> e = d0) as Hj' by (intros ->; congruence).
    unfold appended_desc, fs_slice_end, p in *.
    destruct (N.eqb_spec i fs), (N.eqb_spec j fs);
      repeat match goal with
      | H : ?P -> _, H' : ?P |- _ => specialize (H H')
      end; subst; simpl; case_cmp; simpl; unfold fs_slice_end in *; lia.
Qed.

Lemma append_lists i :
  frameStateVobjs g' i =
  if decide (i = fs) then frameStateVobjs g i ++ [v] else frameStateVobjs g i.
Proof.
  destruct (vget (fsDesc_ g) i) as [d|] eqn:Hd.
  2:{ assert (vget (fsDesc_ g') i = None) as Hd' by (rewrite append_desc, Hd; done).
      unfold frameStateVobjs. rewrite Hd, Hd'. case_decide; [congruence|done]. }
  pose proof (append_desc i) as Hd'. rewrite Hd in Hd'. simpl in Hd'.
  rewrite (frameStateVobjs_Some g' i _ append_framestates_ok Hd').
  rewrite (frameStateVobjs_Some g i d Hg Hd), append_vobjs.
  pose proof (fo_range g Hg fs d0 Hfs) as Hr0. unfold appended_desc.
  destruct (N.eqb_spec i fs) as [->|Hne].
  - rewrite decide_True by done. simplify_eq. simpl. unfold p, fs_slice_end.
    by apply slice_insert_end.
  - rewrite decide_False by done.
    pose proof (fo_disjoint g Hg fs i d0 d (not_eq_sym Hne) Hfs Hd) as Hdis. fold p in Hdis.
    destruct (N.leb_spec p (fs_vobjOffset d)); simpl.
    + by apply slice_insert_before.
    + apply slice_insert_after; [|done]. unfold p, fs_slice_end in *. lia.
Qed.
End Append.

(** ** Creating a descriptor *)

Lemma addFrameStateDesc_spec g m pc c vs :
  framestates_ok g -> vlen (fsVobjs_ g) + vlen vs < 4294967295 ->
  fits32 (vlen (fsDesc_ g) + 1) ->
  let '(id, g') := addFrameStateDesc g m pc c vs in
  framestates_ok g' /\ id = vlen (fsDesc_ g) /\
  frameStateVobjs g' id = vs /\
  (forall i, i <> id -> frameStateVobjs g' i = frameStateVobjs g i).
Proof.
  intros Hg Hroom Hn. unfold addFrameStateDesc.
  set (d := mkFrameStateDesc _ _ _ _ _).
  assert (d = mkFrameStateDesc m pc c (vlen (fsVobjs_ g)) (vlen vs)) as Hd.
  { unfold d. by rewrite !u32_small by (unfold fits32; lia). }
  rewrite Hd. clear d Hd. set (d := mkFrameStateDesc _ _ _ _ _).
  cbn zeta. set (g' := set_framestates _ _ _).
  assert (framestates_ok g') as Hg'.
  { destruct Hg as [Hf Hc Hr Hdis]. split; simpl; rewrite ?vlen_app.
    - lia.
    - done.
    - intros i e. rewrite vget_snoc. case_cmp.
      + intros [= <-]. unfold fs_slice_end. simpl. lia.
      + intros He%Hr. lia.
    - intros i j e1 e2 Hne. rewrite !vget_snoc. case_cmp; subst.
      + done.
      + intros [= <-] H2%Hr. simpl. right. done.
      + intros H1%Hr [= <-]. simpl. left. done.
      + by apply Hdis. }
  assert (u32 (vlen (fsDesc_ g') - 1) = vlen (fsDesc_ g)) as ->.
  { simpl. rewrite vlen_app. change (vlen [d]) with 1.
    rewrite N.add_sub. apply u32_small. unfold fits32 in *. lia. }
  split_and!; [done|done| |].
  - erewrite frameStateVobjs_Some; [|done|simpl; rewrite vget_snoc, N.eqb_refl; done].
    simpl. unfold slice, vlen. rewrite !Nat2N.id, drop_app_length.
    by rewrite firstn_all.
  - intros i Hi. unfold frameStateVobjs. simpl. rewrite vget_snoc.
    destruct (N.eqb_spec i (vlen (fsDesc_ g))); [done|].
    destruct (vget (fsDesc_ g) i) as [e|] eqn:He; [|done].
    pose proof (fo_range g Hg i e He) as Hr. unfold fs_slice_end in Hr.
    rewrite u32_small by (unfold fits32; lia). rewrite vlen_app.
    case_cmp; try lia. by apply slice_app_l.
Qed.

(** Appending a virtual object to an existing FrameState: the flat vector
    insert and the offset shifts together extend that descriptor's list by the
    object at its end and leave the list of every other descriptor unchanged,
    whatever the order in which the descriptors grew; an unknown descriptor id
    changes nothing. *)
Theorem appendFrameStateVobj_spec g fs v :
  framestates_ok g -> vlen (fsVobjs_ g) + 1 < 4294967295 ->
  let g' := appendFrameStateVobj g fs v in
  framestates_ok g' /\
  (vlen (fsDesc_ g) <= fs -> g' = g) /\
  (fs < vlen (fsDesc_ g) -> frameStateVobjs g' fs = frameStateVobjs g fs ++ [v]) /\
  (forall i, i <> fs -> frameStateVobjs g' i = frameStateVobjs g i).
Proof.
  intros Hg Hroom g'. destruct (vget (fsDesc_ g) fs) as [d0|] eqn:Hfs.
  - split_and!.
    + by eapply append_framestates_ok.
    + intros Hle. apply vget_Some_lt in Hfs. lia.
    + intros _. unfold g'. by rewrite (append_lists g fs v d0), decide_True.
    + intros i Hi. unfold g'. by rewrite (append_lists g fs v d0), decide_False.
  - assert (g' = g) as -> by (unfold g', appendFrameStateVobj; by rewrite Hfs).
    split_and!; try done. intros Hlt. apply vget_ge_None in Hfs. lia.
Qed.

(** Two empty descriptors; the second grows, then the first, then the second. *)
Definition fs_example : Graph :=
  let g := snd (addFrameStateDesc newGraph 1 0 kInvalidFrameState []) in
  let g := snd (addFrameStateDesc g 2 0 kInvalidFrameState []) in
  appendFrameStateVobj (appendFrameStateVobj g 1 50) 0 60.

Lemma appendFrameStateVobj_spec_witness :
  frameStateVobjs (appendFrameStateVobj fs_example 1 51) 1 = [50; 51] /\
  frameStateVobjs (appendFrameStateVobj fs_example 1 51) 0 = [60].
Proof.
  destruct (appendFrameStateVobj_spec fs_example 1 51) as (_ & _ & H1 & H0).
  - split; [reflexivity|reflexivity| |].
    + intros i d Hd. pose proof (vget_Some_lt _ _ _ Hd) as Hlt.
      change (vlen (fsDesc_ fs_example)) with 2 in Hlt.
      assert (i = 0 \/ i = 1) as [-> | ->] by lia;
        injection Hd as <-; vm_compute; discriminate.
    + intros i j d e Hne Hd He. pose proof (vget_Some_lt _ _ _ Hd) as Hi.
      pose proof (vget_Some_lt _ _ _ He) as Hj.
      change (vlen (fsDesc_ fs_example)) with 2 in *.
      assert ((i = 0 /\ j = 1) \/ (i = 1 /\ j = 0)) as [[-> ->]|[-> ->]] by lia;
        injection Hd as <-; injection He as <-; vm_compute;
        [right|left]; discriminate.
  - reflexivity.
  - split; [rewrite H1 by reflexivity|rewrite H0 by discriminate]; reflexivity.
Defined.
