(* ===== verification/Region.v ===== *)
(** * Recompilation regions

    The data of include/b2/pipeline/Region.h and the verdicts of the region
    safety checks. A region's [graph] pointer and [codeHandle] are addresses
    the modelled code never reads; the graph is an argument of the checks. *)

From S2P Require Import Prelude IRTypes Effect NodeInfo SmallVector Graph.

Local Open Scope N_scope.

Abbreviation RegionId := N.
Definition kInvalidRegion : RegionId := 4294967295.

Record Region := mkRegion {
  rg_id : RegionId;
  rg_method : N;
  rg_entryControl : NodeId;
  rg_exitControls : list NodeId;
  rg_entryValues : list NodeId;
  rg_exitValues : list NodeId;
  rg_entryMemory : NodeId;
  rg_exitMemory : NodeId;
  rg_exceptionExit : NodeId;
  rg_nodes : list NodeId;
  rg_assumptions : list N;
  rg_guards : list NodeId;
  rg_activeEpoch : N;
  rg_deoptCount : N;
  rg_partialRecompileCount : N;
  rg_failureRate : N
}.

Inductive RegionSafety :=
  | Safe | UnsafeBoundary | UnsafeDanglingUses | UnsafeExceptionEdges
  | UnsafeMemoryState | UnsafeEffectOrdering | UnsafePhi
  | UnsafeSideEffectDup | UnsafeGcRoots | UnsafeDeoptState
  | UnsafeTooLarge | UnsafeBudgetExceeded.

#[export] Instance RegionSafety_eq_dec : EqDecision RegionSafety.
Proof. solve_decision. Defined.

Definition regionSafetyName (s : RegionSafety) : string :=
  match s with
  | Safe => "safe"
  | UnsafeBoundary => "unsafe-boundary"
  | UnsafeDanglingUses => "unsafe-dangling-uses"
  | UnsafeExceptionEdges => "unsafe-exception-edges"
  | UnsafeMemoryState => "unsafe-memory-state"
  | UnsafeEffectOrdering => "unsafe-effect-ordering"
  | UnsafePhi => "unsafe-phi"
  | UnsafeSideEffectDup => "unsafe-side-effect-dup"
  | UnsafeGcRoots => "unsafe-gc-roots"
  | UnsafeDeoptState => "unsafe-deopt-state"
  | UnsafeTooLarge => "unsafe-too-large"
  | UnsafeBudgetExceeded => "unsafe-budget-exceeded"
  end.
