(* ===== verification/DependencyIndex.v ===== *)
(** * The runtime DependencyIndex

    include/b2/pipeline/DependencyIndex.h and
    compiler/pipeline/src/DependencyIndex.cpp: the inverse map from a
    dependency to the nodes and regions whose code relies on it, kept as one
    vector sorted by (dep, node, region). The specification is a finite map
    from that key to the method that registered it; [index_refines] is the
    functional refinement of every operation. *)

From S2P Require Import Prelude IRTypes Effect NodeInfo SmallVector Graph Region.

Local Open Scope N_scope.

Record DirtySet := mkDirtySet { ds_nodes : list NodeId; ds_regions : list RegionId }.

Definition ds_empty (d : DirtySet) : bool :=
  match ds_nodes d, ds_regions d with [], [] => true | _, _ => false end.

Definition ds_size (d : DirtySet) : N := vlen (ds_nodes d) + vlen (ds_regions d).

Record DependencyEntry := mkDependencyEntry {
  de_node : NodeId;
  de_region : RegionId;
  de_method : N
}.

(** [entries_] *)
Abbreviation Entries := (list (N * DependencyEntry)).

Definition EntryLess (a b : N * DependencyEntry) : bool :=
  if negb (fst a =? fst b) then fst a <? fst b
  else if negb (de_node (snd a) =? de_node (snd b))
  then de_node (snd a) <? de_node (snd b)
  else de_region (snd a) <? de_region (snd b).

Definition record (es : Entries) (dep : N) (node : NodeId) (region : RegionId)
    (method : N) : Entries :=
  if dep =? kInvalidDependency then es
  else if (node =? kInvalidNodeId) && (region =? kInvalidRegion) then es
  else
    let kv := (dep, mkDependencyEntry node region method) in
    let it := lower_bound (fun e => EntryLess e kv) es in
    match es !! it with
    | Some (d, e) =>
        if (d =? dep) && (de_node e =? node) && (de_region e =? region)
        then es else insert_at it kv es
    | None => insert_at it kv es
    end.

(** [std::upper_bound] on a dependency is the first entry it is below. *)
Definition dep_begin (es : Entries) (dep : N) : nat :=
  lower_bound (fun e => fst e <? dep) es.
Definition dep_end (es : Entries) (dep : N) : nat :=
  lower_bound (fun e => negb (dep <? fst e)) es.

Definition invalidate (es : Entries) (dep : N) : DirtySet :=
  if dep =? kInvalidDependency then mkDirtySet [] []
  else
    let range := take (dep_end es dep - dep_begin es dep) (drop (dep_begin es dep) es) in
    let push '(ns, rs) (kv : N * DependencyEntry) :=
      let e := snd kv in
      (if negb (de_node e =? kInvalidNodeId) then ns ++ [de_node e] else ns,
       if negb (de_region e =? kInvalidRegion) then rs ++ [de_region e] else rs) in
    let '(ns, rs) := foldl push ([], []) range in
    mkDirtySet (unique (sort ns)) (unique (sort rs)).

Definition retireMethod (es : Entries) (m : N) : Entries :=
  remove_if (fun e => de_method (snd e) =? m) es.

Definition size (es : Entries) : N := vlen es.

Definition distinctDependencies (es : Entries) : N :=
  match es with
  | [] => 0
  | (d0, _) :: _ =>
      fst (foldl (fun '(count, prev) '(dep, _) =>
                    if negb (dep =? prev) then (count + 1, dep) else (count, prev))
             (1, d0) es)
  end.

(** ** Specification: a finite map keyed by (dep, node, region) *)

Abbreviation Key := (N * N * N)%type.
Abbreviation Index := (gmap Key N).

Definition spec_valid (k : Key) : bool :=
  let '(dep, node, region) := k in
  negb (dep =? kInvalidDependency) &&
  negb ((node =? kInvalidNodeId) && (region =? kInvalidRegion)).

Definition spec_record (M : Index) (k : Key) (method : N) : Index :=
  if spec_valid k then
    match M !! k with Some _ => M | None => <[k := method]> M end
  else M.

Definition spec_retire (M : Index) (m : N) : Index :=
  filter (fun kv => snd kv <> m) M.

Definition key_of (e : N * DependencyEntry) : Key :=
  (fst e, de_node (snd e), de_region (snd e)).

Definition abs (es : Entries) : Index :=
  list_to_map ((fun e => (key_of e, de_method (snd e))) <$> es).

(** ** The sorted-vector invariant *)

Definition key_lt (a b : N * DependencyEntry) : Prop := EntryLess a b = true.

Definition sorted_entries (es : Entries) : Prop := StronglySorted key_lt es.

Definition index_ok (es : Entries) : Prop :=
  sorted_entries es /\ Forall (fun e => spec_valid (key_of e) = true) es.

Lemma EntryLess_spec a b :
  EntryLess a b = true <->
  fst a < fst b \/
  (fst a = fst b /\
   (de_node (snd a) < de_node (snd b) \/
    (de_node (snd a) = de_node (snd b) /\ de_region (snd a) < de_region (snd b)))).
Proof.
  unfold EntryLess.
  destruct (N.eqb_spec (fst a) (fst b)), (N.eqb_spec (de_node (snd a)) (de_node (snd b)));
    simpl; rewrite N.ltb_lt; lia.
Qed.

Lemma key_of_eq a b :
  key_of a = key_of b <->
  fst a = fst b /\ de_node (snd a) = de_node (snd b) /\
  de_region (snd a) = de_region (snd b).
Proof. unfold key_of. split; [intros [= -> -> ->]|intros (-> & -> & ->)]; done. Qed.

Lemma key_lt_trichotomy a b : ~ key_lt a b -> key_of a <> key_of b -> key_lt b a.
Proof. unfold key_lt. rewrite key_of_eq, !EntryLess_spec. lia. Qed.

#[export] Instance key_lt_trans : Transitive key_lt.
Proof. intros a b c. unfold key_lt. rewrite !EntryLess_spec. lia. Qed.

Lemma key_lt_ne a b : key_lt a b -> key_of a <> key_of b.
Proof. unfold key_lt. rewrite EntryLess_spec, key_of_eq. lia. Qed.

Lemma sorted_NoDup es : sorted_entries es -> NoDup (key_of <$> es).
Proof.
  induction 1 as [|e es Hs IH Hf]; simpl; constructor; [|done].
  intros (x & Hk & Hx)%list_elem_of_fmap.
  rewrite Forall_forall in Hf. by apply (key_lt_ne e x (Hf x Hx)).
Qed.

Lemma abs_Some es k m :
  sorted_entries es ->
  abs es !! k = Some m <-> exists e, e ∈ es /\ key_of e = k /\ de_method (snd e) = m.
Proof.
  intros Hs. unfold abs. rewrite <- elem_of_list_to_map.
  - rewrite list_elem_of_fmap. split.
    + intros (e & [= -> ->] & He). by exists e.
    + intros (e & He & <- & <-). by exists e.
  - rewrite <- list_fmap_compose. by apply sorted_NoDup.
Qed.

Lemma abs_is_Some es k :
  sorted_entries es -> is_Some (abs es !! k) <-> exists e, e ∈ es /\ key_of e = k.
Proof.
  intros Hs. unfold is_Some. setoid_rewrite abs_Some; [|done..]. naive_solver.
Qed.

(** ** [record] *)

Definition same_key (kv : N * DependencyEntry) (o : option (N * DependencyEntry)) : bool :=
  match o with
  | Some (d, e) =>
      (d =? fst kv) && (de_node e =? de_node (snd kv)) && (de_region e =? de_region (snd kv))
  | None => false
  end.

Lemma same_key_spec kv o :
  same_key kv o = true <-> exists e, o = Some e /\ key_of e = key_of kv.
Proof.
  destruct o as [[d e]|]; simpl; [|naive_solver].
  rewrite !andb_true_iff, !N.eqb_eq. split.
  - intros [[-> Hn] Hr]. eexists. split; [done|]. apply key_of_eq. done.
  - intros (? & [= <-] & Hk%key_of_eq). simpl in Hk. tauto.
Qed.

Lemma search_spec es kv :
  sorted_entries es ->
  let it := lower_bound (fun e => EntryLess e kv) es in
  (same_key kv (es !! it) = true <-> exists e, e ∈ es /\ key_of e = key_of kv) /\
  (same_key kv (es !! it) = false -> sorted_entries (insert_at it kv es)).
Proof.
  induction 1 as [|e es Hs [IH1 IH2] Hf]; simpl.
  { split; [|intros _; repeat constructor].
    split; [done|]. intros (e & He & _). by apply not_elem_of_nil in He. }
  destruct (EntryLess e kv) eqn:Hlt; simpl.
  - split.
    + rewrite IH1. setoid_rewrite elem_of_cons. split.
      { intros (x & Hx & Hk). exists x. auto. }
      intros (x & [->|Hx] & Hk); [|by exists x].
      destruct (key_lt_ne e kv Hlt Hk).
    + intros Hno. constructor; [by apply IH2|]. apply Forall_forall.
      intros x Hx. apply (elem_of_insert_at _ kv x es) in Hx as [->|Hx]; [done|].
      rewrite Forall_forall in Hf. by apply Hf.
  - rewrite Forall_forall in Hf. split.
    + change (same_key kv (Some e) = true <-> exists x, x ∈ e :: es /\ key_of x = key_of kv).
      rewrite same_key_spec. setoid_rewrite elem_of_cons. split.
      { intros (x & [= <-] & Hk). exists e. auto. }
      intros (x & [->|Hx] & Hk); [by exists e|].
      specialize (Hf x Hx). exfalso. apply not_true_iff_false in Hlt. apply Hlt.
      unfold key_lt in Hf. rewrite EntryLess_spec in *. apply key_of_eq in Hk. lia.
    + intros Hno.
      assert (key_lt kv e) as Hkv.
      { apply key_lt_trichotomy.
        - unfold key_lt. by rewrite Hlt.
        - intros Hk. apply not_true_iff_false in Hno. apply Hno.
          change (same_key kv (Some e) = true). apply same_key_spec. by exists e. }
      constructor; [constructor; [done|by apply Forall_forall]|].
      constructor; [done|]. apply Forall_forall. intros x Hx.
      transitivity e; [done|by apply Hf].
Qed.

(** The branches of [record] as one condition. *)
Lemma record_unfold es dep node region method :
  record es dep node region method =
  let kv := (dep, mkDependencyEntry node region method) in
  let it := lower_bound (fun e => EntryLess e kv) es in
  if spec_valid (dep, node, region) then
    if same_key kv (es !! it) then es else insert_at it kv es
  else es.
Proof.
  unfold record, spec_valid, same_key. cbn zeta.
  destruct (dep =? kInvalidDependency); [done|].
  destruct ((node =? kInvalidNodeId) && (region =? kInvalidRegion)); [done|].
  simpl. by destruct (es !! _) as [[d e]|].
Qed.

Lemma record_ok es dep node region method :
  index_ok es -> index_ok (record es dep node region method).
Proof.
  intros [Hs Hv]. rewrite record_unfold. cbn zeta.
  set (kv := (dep, mkDependencyEntry _ _ _)). destruct (search_spec es kv Hs) as [_ Hins].
  destruct (spec_valid _) eqn:Hval; [|done].
  destruct (same_key _ _); [done|]. split; [by apply Hins|].
  apply Forall_forall. intros e [->|He]%elem_of_insert_at; [done|].
  rewrite Forall_forall in Hv. by apply Hv.
Qed.

Lemma record_abs es dep node region method :
  index_ok es ->
  abs (record es dep node region method) =
  spec_record (abs es) (dep, node, region) method.
Proof.
  intros Hok. pose proof (record_ok es dep node region method Hok) as [Hs' _].
  revert Hs'. rewrite record_unfold. destruct Hok as [Hs _]. cbn zeta.
  set (kv := (dep, mkDependencyEntry _ _ _)). destruct (search_spec es kv Hs) as [Hhit Hins].
  unfold spec_record. destruct (spec_valid _) eqn:Hval; [|done].
  change (dep, node, region) with (key_of kv) in *.
  destruct (same_key _ _); intros Hs'.
  - destruct (proj2 (abs_is_Some es (key_of kv) Hs)) as [m ->]; [by apply Hhit|done].
  - assert (abs es !! key_of kv = None) as Hnone.
    { apply eq_None_not_Some. rewrite abs_is_Some by done.
      intros H%Hhit. done. }
    rewrite Hnone. apply map_eq. intros k. apply option_eq. intros m.
    rewrite abs_Some, lookup_insert_Some, abs_Some by done.
    setoid_rewrite elem_of_insert_at. split.
    + intros (e & [->|He] & <- & <-); [by left|]. right. split; [|naive_solver].
      intros Hk. revert Hnone. apply not_eq_None_Some, abs_is_Some; [done|].
      naive_solver.
    + intros [[<- <-]|(_ & e & He & <- & <-)]; naive_solver.
Qed.

(** ** [retireMethod] *)

Lemma retireMethod_ok es m : index_ok es -> index_ok (retireMethod es m).
Proof.
  intros [Hs Hv]. split; [by apply remove_if_sorted|].
  rewrite Forall_forall in *. intros e [He _]%elem_of_remove_if. by apply Hv.
Qed.

Lemma retireMethod_abs es m :
  index_ok es -> abs (retireMethod es m) = spec_retire (abs es) m.
Proof.
  intros Hok. pose proof (retireMethod_ok es m Hok) as [Hs' _].
  destruct Hok as [Hs _]. apply map_eq. intros k. apply option_eq. intros x.
  unfold spec_retire. rewrite map_lookup_filter_Some, !abs_Some by done.
  setoid_rewrite elem_of_remove_if. setoid_rewrite N.eqb_neq. naive_solver.
Qed.

(** ** [invalidate] *)

Lemma lower_bound_zero {A} (p : A -> bool) l :
  Forall (fun x => p x = false) l -> lower_bound p l = 0%nat.
Proof. by destruct 1 as [|x l Hx _]; simpl; [|rewrite Hx]. Qed.

Lemma dep_range es dep :
  sorted_entries es ->
  take (dep_end es dep - dep_begin es dep) (drop (dep_begin es dep) es) =
  List.filter (fun e => fst e =? dep) es.
Proof.
  unfold dep_end, dep_begin. induction 1 as [|e es Hs IH Hf]; [done|].
  assert (forall x, x ∈ es -> fst e <= fst x) as Hle.
  { intros x Hx. rewrite Forall_forall in Hf. specialize (Hf x Hx).
    unfold key_lt in Hf. rewrite EntryLess_spec in Hf. lia. }
  simpl. destruct (N.ltb_spec (fst e) dep) as [Hlt|Hge].
  - destruct (N.ltb_spec dep (fst e)); [lia|]. simpl. rewrite IH.
    destruct (N.eqb_spec (fst e) dep); [lia|done].
  - destruct (N.ltb_spec dep (fst e)) as [Hgt|Heq]; simpl.
    + destruct (N.eqb_spec (fst e) dep); [lia|].
      symmetry.
      revert Hle. clear -Hgt. induction es as [|x es IH]; intros Hle; [done|]. simpl.
      destruct (N.eqb_spec (fst x) dep) as [Hx|].
      * specialize (Hle x ltac:(left)). lia.
      * apply IH. intros y Hy. apply Hle. by right.
    + destruct (N.eqb_spec (fst e) dep); [|lia]. f_equal.
      rewrite <- IH. rewrite (lower_bound_zero (fun x => fst x <? dep)).
      * by rewrite Nat.sub_0_r.
      * apply Forall_forall. intros x Hx. apply N.ltb_ge. specialize (Hle x Hx). lia.
Qed.

Lemma push_spec ns rs (l : Entries) :
  foldl (fun '(ns, rs) (kv : N * DependencyEntry) =>
      let e := snd kv in
      (if negb (de_node e =? kInvalidNodeId) then ns ++ [de_node e] else ns,
       if negb (de_region e =? kInvalidRegion) then rs ++ [de_region e] else rs))
    (ns, rs) l =
  (ns ++ remove_if (fun n => n =? kInvalidNodeId) ((fun e => de_node (snd e)) <$> l),
   rs ++ remove_if (fun r => r =? kInvalidRegion) ((fun e => de_region (snd e)) <$> l)).
Proof.
  revert ns rs. induction l as [|e l IH]; intros ns rs; simpl.
  { by rewrite !app_nil_r. }
  rewrite IH. f_equal.
  - destruct (de_node (snd e) =? kInvalidNodeId); simpl; [done|by rewrite <- app_assoc].
  - destruct (de_region (snd e) =? kInvalidRegion); simpl; [done|by rewrite <- app_assoc].
Qed.

Lemma invalidate_unfold es dep :
  sorted_entries es -> dep <> kInvalidDependency ->
  let l := List.filter (fun e => fst e =? dep) es in
  invalidate es dep = mkDirtySet
    (unique (sort (remove_if (fun n => n =? kInvalidNodeId) ((fun e => de_node (snd e)) <$> l))))
    (unique (sort (remove_if (fun r => r =? kInvalidRegion) ((fun e => de_region (snd e)) <$> l)))).
Proof.
  intros Hs Hd l. unfold invalidate.
  rewrite (proj2 (N.eqb_neq _ _) Hd), dep_range by done. fold l.
  cbn zeta. by rewrite push_spec.
Qed.

(** A field of the entries of [dep], collected as [invalidate] does. *)
Lemma elem_of_collected (f : N * DependencyEntry -> N) bad es dep x :
  x ∈ unique (sort (remove_if (fun n => n =? bad)
        (f <$> List.filter (fun e => fst e =? dep) es))) <->
  x <> bad /\ exists e, e ∈ es /\ fst e = dep /\ f e = x.
Proof.
  rewrite elem_of_unique, elem_of_sort, elem_of_remove_if, list_elem_of_fmap, N.eqb_neq.
  setoid_rewrite list_elem_of_In. setoid_rewrite filter_In. setoid_rewrite N.eqb_eq.
  setoid_rewrite <- list_elem_of_In. naive_solver.
Qed.

Definition spec_dirty_node (M : Index) (dep : N) (n : NodeId) : Prop :=
  n <> kInvalidNodeId /\ exists r, is_Some (M !! (dep, n, r)).
Definition spec_dirty_region (M : Index) (dep : N) (r : RegionId) : Prop :=
  r <> kInvalidRegion /\ exists n, is_Some (M !! (dep, n, r)).

Lemma invalidate_spec es dep :
  index_ok es ->
  strictly_sorted (ds_nodes (invalidate es dep)) /\
  strictly_sorted (ds_regions (invalidate es dep)) /\
  (forall n, n ∈ ds_nodes (invalidate es dep) <-> spec_dirty_node (abs es) dep n) /\
  (forall r, r ∈ ds_regions (invalidate es dep) <-> spec_dirty_region (abs es) dep r).
Proof.
  intros [Hs Hv]. unfold spec_dirty_node, spec_dirty_region.
  setoid_rewrite abs_is_Some; [|done..].
  destruct (decide (dep = kInvalidDependency)) as [->|Hd].
  { unfold invalidate. rewrite N.eqb_refl. simpl.
    assert (forall n r, ~ exists e, e ∈ es /\ key_of e = (kInvalidDependency, n, r)) as Hno.
    { intros n r (e & He & Hk). rewrite Forall_forall in Hv.
      specialize (Hv e He). rewrite Hk in Hv. done. }
    split_and!; [constructor..| |]; intros x; (split; [by intros ?%not_elem_of_nil|]);
      intros (_ & y & H); by apply Hno in H. }
  rewrite (invalidate_unfold es dep Hs Hd). simpl.
  split_and!; [apply sort_unique_sorted..| |]; intros x.
  - rewrite (elem_of_collected (fun e => de_node (snd e))). unfold key_of.
    split; intros [Hx H]; (split; [done|]).
    + destruct H as (e & He & <- & <-). by eexists _, e.
    + destruct H as (r & e & He & [= <- <- <-]). by exists e.
  - rewrite (elem_of_collected (fun e => de_region (snd e))). unfold key_of.
    split; intros [Hx H]; (split; [done|]).
    + destruct H as (e & He & <- & <-). by eexists _, e.
    + destruct H as (n & e & He & [= <- <- <-]). by exists e.
Qed.

(** ** Telemetry *)

Lemma size_abs es : index_ok es -> size es = N.of_nat (base.size (abs es)).
Proof.
  intros [Hs _]. unfold abs, size, vlen.
  rewrite map_size_list_to_map; [by rewrite length_fmap|].
  rewrite <- list_fmap_compose. by apply sorted_NoDup.
Qed.

Definition deps_of (es : Entries) : gset N := list_to_set (fst <$> es).

Lemma deps_of_abs es :
  sorted_entries es -> deps_of es = set_map (fun k : Key => fst (fst k)) (dom (abs es)).
Proof.
  intros Hs. apply set_eq. intros d. unfold deps_of.
  rewrite elem_of_list_to_set, list_elem_of_fmap, elem_of_map.
  setoid_rewrite elem_of_dom. setoid_rewrite abs_is_Some; [|done]. split.
  - intros (e & -> & He). exists (key_of e). split; [done|]. by exists e.
  - intros (k & -> & e & He & <-). by exists e.
Qed.

Lemma size_insert_dep (d : N) (D : gset N) :
  d ∉ D -> base.size ({[d]} ∪ D) = S (base.size D).
Proof.
  intros Hd. pose proof (size_union (C:=gset N) {[d]} D ltac:(set_solver)) as ->.
  by rewrite size_singleton.
Qed.

(** The loop counts the dependencies other than the one before it. *)
Lemma count_loop es count prev :
  sorted_entries es -> (forall e, e ∈ es -> prev <= fst e) ->
  fst (foldl (fun '(count, prev) '(dep, _) =>
          if negb (dep =? prev) then (count + 1, dep) else (count, prev))
        (count, prev) es) =
  count + N.of_nat (base.size (deps_of es ∖ {[prev]})).
Proof.
  intros Hs. revert count prev. induction Hs as [|[d x] es Hs IH Hf]; intros count prev Hle.
  { assert (deps_of [] ∖ {[prev]} = ∅) as -> by (apply set_eq; intros y; set_solver).
    rewrite size_empty. simpl. lia. }
  assert (forall e, e ∈ es -> d <= fst e) as Hd.
  { intros e He. rewrite Forall_forall in Hf. specialize (Hf e He).
    unfold key_lt in Hf. rewrite EntryLess_spec in Hf. simpl in Hf. lia. }
  cbn [foldl]. specialize (Hle (d, x) ltac:(left)) as Hdp. cbn [fst] in Hdp.
  change (deps_of ((d, x) :: es)) with ({[d]} ∪ deps_of es).
  destruct (N.eqb_spec d prev) as [->|Hne]; simpl negb; cbv iota.
  - rewrite IH by done. do 3 f_equal. set_solver.
  - rewrite IH by done.
    assert (prev ∉ deps_of es) as Hprev.
    { unfold deps_of. rewrite elem_of_list_to_set, list_elem_of_fmap.
      intros (e & -> & He). specialize (Hd e He). lia. }
    assert (({[d]} ∪ deps_of es) ∖ {[prev]} = {[d]} ∪ (deps_of es ∖ {[d]})) as ->.
    { apply set_eq. intros y. destruct (decide (y = d)); set_solver. }
    rewrite size_insert_dep by set_solver. lia.
Qed.

Lemma distinctDependencies_spec es :
  sorted_entries es -> distinctDependencies es = N.of_nat (base.size (deps_of es)).
Proof.
  intros Hs. unfold distinctDependencies. destruct es as [|[d x] es]; [done|].
  rewrite count_loop; [|done|].
  - change (deps_of ((d, x) :: es)) with ({[d]} ∪ deps_of es).
    set (D := {[d]} ∪ deps_of es).
    assert (D = {[d]} ∪ (D ∖ {[d]})) as HD.
    { apply set_eq. intros y. destruct (decide (y = d)); set_solver. }
    rewrite HD at 2. rewrite size_insert_dep by set_solver. lia.
  - intros e [->|He]%elem_of_cons; [done|].
    inversion_clear Hs as [|?? _ Hf]. rewrite Forall_forall in Hf.
    specialize (Hf e He). unfold key_lt in Hf. rewrite EntryLess_spec in Hf. simpl in Hf. lia.
Qed.

(** ** Histories *)

Inductive index_op :=
  | OpRecord (dep : N) (node : NodeId) (region : RegionId) (method : N)
  | OpRetire (method : N).

Definition apply_op (es : Entries) (op : index_op) : Entries :=
  match op with
  | OpRecord dep node region method => record es dep node region method
  | OpRetire m => retireMethod es m
  end.

Definition spec_op (M : Index) (op : index_op) : Index :=
  match op with
  | OpRecord dep node region method => spec_record M (dep, node, region) method
  | OpRetire m => spec_retire M m
  end.

Lemma run_refines ops :
  let es := foldl apply_op [] ops in
  index_ok es /\ abs es = foldl spec_op ∅ ops.
Proof.
  induction ops as [|op ops IH] using rev_ind; cbn zeta.
  { repeat split; constructor. }
  rewrite !foldl_app. simpl. destruct IH as [Hok <-].
  destruct op; simpl.
  - split; [by apply record_ok|by apply record_abs].
  - split; [by apply retireMethod_ok|by apply retireMethod_abs].
Qed.

(** C33: after any history of [record] and [retireMethod] calls the sorted
    vector is strictly sorted by (dep, node, region) and represents exactly the
    finite map the specification computes; [invalidate] returns, sorted and
    without duplicates, precisely the nodes and the regions the map associates
    with the dependency; [size] and [distinctDependencies] are the map's number
    of keys and of distinct dependencies. *)
Theorem index_refines ops dep :
  let es := foldl apply_op [] ops in
  let M := foldl spec_op ∅ ops in
  sorted_entries es /\ abs es = M /\
  strictly_sorted (ds_nodes (invalidate es dep)) /\
  strictly_sorted (ds_regions (invalidate es dep)) /\
  (forall n, n ∈ ds_nodes (invalidate es dep) <-> spec_dirty_node M dep n) /\
  (forall r, r ∈ ds_regions (invalidate es dep) <-> spec_dirty_region M dep r) /\
  size es = N.of_nat (base.size M) /\
  distinctDependencies es =
    N.of_nat (base.size (set_map (fun k : Key => fst (fst k)) (dom M) : gset N)).
Proof.
  intros es M. destruct (run_refines ops) as [Hok Habs]. fold es M in Hok, Habs.
  destruct (invalidate_spec es dep Hok) as (Hn & Hr & Hn' & Hr').
  rewrite <- Habs. split_and!; try done; [apply Hok|by apply size_abs|].
  rewrite <- deps_of_abs by apply Hok. apply distinctDependencies_spec, Hok.
Qed.

Lemma record_absent es dep node region method :
  index_ok es -> spec_valid (dep, node, region) = true ->
  abs es !! (dep, node, region) = None ->
  abs (record es dep node region method) = <[(dep, node, region) := method]> (abs es).
Proof. intros Hok Hv Hn. rewrite record_abs by done. unfold spec_record. by rewrite Hv, Hn. Qed.

(** An association two methods share is kept for the first method only:
    once it is recorded for [m1], recording it for [m2] changes nothing, and
    retiring [m1] removes it, so a later invalidation of the dependency no
    longer reports the node although [m2] registered it and is still live. *)
Theorem retire_drops_shared_association es dep node region m1 m2 :
  index_ok es -> spec_valid (dep, node, region) = true ->
  node <> kInvalidNodeId -> m1 <> m2 ->
  (forall r, abs es !! (dep, node, r) = None) ->
  let shared := record (record es dep node region m1) dep node region m2 in
  shared = record es dep node region m1 /\
  node ∈ ds_nodes (invalidate shared dep) /\
  node ∉ ds_nodes (invalidate (retireMethod shared m1) dep).
Proof.
  intros Hok Hv Hnode Hm Habsent shared.
  pose proof (record_ok es dep node region m1 Hok) as Hok1.
  assert (shared = record es dep node region m1) as Heq.
  { unfold shared. rewrite record_unfold. cbn zeta. rewrite Hv.
    destruct (same_key _ _) eqn:Hk; [done|exfalso].
    apply not_true_iff_false in Hk. apply Hk.
    apply search_spec; [apply Hok1|].
    change (exists e, e ∈ record es dep node region m1 /\ key_of e = (dep, node, region)).
    apply abs_is_Some; [apply Hok1|]. rewrite record_absent by done.
    by rewrite lookup_insert_eq. }
  rewrite Heq. split; [done|]. split.
  - apply invalidate_spec; [done|]. split; [done|]. exists region.
    rewrite record_absent by done. by rewrite lookup_insert_eq.
  - destruct (invalidate_spec (retireMethod (record es dep node region m1) m1) dep)
      as (_ & _ & Hn & _); [by apply retireMethod_ok|]. rewrite Hn.
    intros (_ & r & m & Hr). revert Hr.
    rewrite retireMethod_abs, record_absent by done. unfold spec_retire.
    rewrite map_lookup_filter_Some, lookup_insert_Some, Habsent. naive_solver.
Qed.

Lemma retire_drops_shared_association_witness :
  7 ∈ ds_nodes (invalidate (record (record [] 0 7 1 100) 0 7 1 200) 0) /\
  7 ∉ ds_nodes (invalidate (retireMethod (record (record [] 0 7 1 100) 0 7 1 200) 100) 0).
Proof.
  apply (retire_drops_shared_association [] 0 7 1 100 200);
    [repeat constructor|reflexivity|discriminate|discriminate|done].
Defined.
