(* ===== verification/DirtyClosure.v ===== *)
(** * The dirty-node closure

    include/b2/pipeline/DirtyClosure.h and compiler/pipeline/src/DirtyClosure.cpp:
    the forward closure of a set of dirty nodes along the use lists, and the
    guard-failure decision of include/b2/pipeline/PartialDeopt.h. The outer
    [while] loop runs on fuel; [expandDirtyClosure] supplies one more step than
    the graph has nodes, and the theorems show the loop always stops within it. *)

From stdpp Require Import relations.
From S2P Require Import Prelude IRTypes Effect NodeInfo SmallVector Graph GraphInv.
From S2P Require Import GraphReplace Region DependencyIndex.

Local Open Scope N_scope.

Definition kDefaultMaxDirtyRegionSize : N := 64.

Definition roleOfSlot (g : Graph) (user : NodeId) (slot : N) : InputRole :=
  let n := node g user in
  if nd_numInputs n =? 0 then InputRole.None
  else
    let inf := info (nd_kind n) in
    if ni_hasFrameState inf && (slot =? u16 (nd_numInputs n - 1))
    then InputRole.FrameState
    else if slot <? ni_numFixed inf then role_at inf slot
    else if ni_variadic inf then ni_variadicRole inf
    else InputRole.None.

Definition isSideEffectingUser (n : Node) : bool :=
  let inf := info (nd_kind n) in
  match ni_cls inf with
  | NodeClass.Call => true
  | NodeClass.Memory => negb (bool_decide (ni_effect inf = EffectKind.Pure))
  | NodeClass.Guard => true
  | NodeClass.Control | NodeClass.TypeOp | NodeClass.Value | NodeClass.State => false
  end.

Definition semanticsDependOn (g : Graph) (user : NodeId) (slot : N) : bool :=
  let n := node g user in
  if isDead n then false
  else if isSideEffectingUser n then true
  else
    match roleOfSlot g user slot with
    | InputRole.Mem | InputRole.Data | InputRole.FrameState | InputRole.Parent => true
    | InputRole.Ctrl | InputRole.None => false
    end.

Record DirtyClosureResult := mkDirtyClosureResult {
  dc_dirty : DirtySet;
  dc_budget_exceeded : bool;
  dc_iterations : N
}.

(** [n >= g.nodeCount() || g.node(n).isDead()] *)
Definition not_live (g : Graph) (n : NodeId) : bool :=
  (nodeCount g <=? n) || isDead (node g n).

(** The variables the loops assign: [dirtyNodes], [changed],
    [result.budget_exceeded]. *)
Record loop_state := mkLoop {
  ls_dirty : list NodeId;
  ls_changed : bool;
  ls_exceeded : bool
}.

(** The body of the loop over the uses of one node; after the [break] the
    remaining uses change nothing. *)
Definition visit_use (g : Graph) (max_size : N) (st : loop_state) (u : Use) : loop_state :=
  if ls_exceeded st then st
  else if not_live g (u_user u) then st
  else if negb (semanticsDependOn g (u_user u) (u_slot u)) then st
  else if binary_search (ls_dirty st) (u_user u) then st
  else
    let d := insert_at (lower_bound (fun y => y <? u_user u) (ls_dirty st))
               (u_user u) (ls_dirty st) in
    mkLoop d true (max_size <? vlen d).

(** The body of the loop over [i < snapshot_size], reading the current
    [dirtyNodes[i]]. *)
Definition visit_index (g : Graph) (max_size : N) (st : loop_state) (i : N) : loop_state :=
  if ls_exceeded st then st
  else match vget (ls_dirty st) i with
  | Some n =>
      if not_live g n then st
      else foldl (visit_use g max_size) st (usesOf g n)
  | None => st
  end.

(** One iteration of the [while] loop. *)
Definition closure_pass (g : Graph) (max_size : N) (dirty : list NodeId) : loop_state :=
  foldl (visit_index g max_size) (mkLoop dirty false false) (indices (vlen dirty)).

Fixpoint closure_loop (fuel : nat) (g : Graph) (max_size : N) (dirty : list NodeId)
    (iterations : N) : option (list NodeId * bool * N) :=
  match fuel with
  | O => None
  | S fuel' =>
      let st := closure_pass g max_size dirty in
      let iterations := u32 (iterations + 1) in
      if ls_changed st && negb (ls_exceeded st)
      then closure_loop fuel' g max_size (ls_dirty st) iterations
      else Some (ls_dirty st, ls_exceeded st, iterations)
  end.

Definition live_seeds (g : Graph) (seeds : list NodeId) : list NodeId :=
  remove_if (not_live g) (unique (sort seeds)).

Definition expandDirtyClosure (g : Graph) (seeds : DirtySet) (max_size : N)
    : option DirtyClosureResult :=
  match closure_loop (S (N.to_nat (nodeCount g))) g max_size
          (live_seeds g (ds_nodes seeds)) 0 with
  | Some (d, exceeded, iterations) =>
      Some (mkDirtyClosureResult (mkDirtySet d (ds_regions seeds)) exceeded iterations)
  | None => None
  end.

(** ** PartialDeopt.h *)

Inductive VerifyLevel := Always | Sampled.

Record PartialDeoptConfig := mkPartialDeoptConfig {
  enable_partial_deopt : bool;
  enable_partial_loop_recompile : bool;
  enable_partial_inline_recompile : bool;
  allow_region_patching : bool;
  partial_deopt_budget : N;
  max_dirty_region_size : N;
  verification_level : VerifyLevel;
  shadow_mode : bool
}.

Definition defaultPartialDeoptConfig : PartialDeoptConfig :=
  mkPartialDeoptConfig false false false false 3 kDefaultMaxDirtyRegionSize Always true.

Inductive PartialDeoptDecision :=
  | ActivatedNewRegion | EscalateToFullDeopt | Disabled | ShadowComputed.

Definition partialDeoptDecisionName (d : PartialDeoptDecision) : string :=
  match d with
  | ActivatedNewRegion => "activated"
  | EscalateToFullDeopt => "escalated"
  | Disabled => "disabled"
  | ShadowComputed => "shadow"
  end.

(** The compiled code and the deopt id are not read. *)
Definition onGuardFailure (cfg : PartialDeoptConfig) : PartialDeoptDecision :=
  if negb (enable_partial_deopt cfg) then Disabled else Disabled.

(** ** The dependence relation the closure follows *)

Definition live (g : Graph) (n : NodeId) : Prop := not_live g n = false.

(** [m] reads the live node [n] through an input slot that carries semantics. *)
Definition depends (g : Graph) (n m : NodeId) : Prop :=
  live g n /\ live g m /\
  exists s, has_slot g m s /\ input g m s = n /\ semanticsDependOn g m s = true.

(** The same through the use list, as the code walks it. *)
Definition use_edge (g : Graph) (n m : NodeId) : Prop :=
  live g n /\ live g m /\
  exists u, u ∈ usesOf g n /\ u_user u = m /\ semanticsDependOn g m (u_slot u) = true.

Lemma live_iff g n :
  storage_ok g -> live g n <-> n < vlen (nodes_ g) /\ isDead (node g n) = false.
Proof.
  intros Hs. unfold live, not_live. rewrite orb_false_iff, N.leb_gt.
  unfold nodeCount. by rewrite u32_small by apply Hs.
Qed.

Lemma use_edge_depends g n m : graph_ok g -> use_edge g n m <-> depends g n m.
Proof.
  intros [Hs Hu]. unfold use_edge, depends. split.
  - intros (Hn & Hm & u & Hin & <- & Hd). split_and!; [done..|].
    destruct (ue_sound g Hu n u Hin) as [Hslot Hinp]. by exists (u_slot u).
  - intros (Hn & Hm & s & Hslot & Hinp & Hd). split_and!; [done..|].
    exists (mkUse m s). split_and!; [|done..]. rewrite <- Hinp.
    apply ue_complete; [done..|]. rewrite Hinp. by apply live_iff in Hn as [??].
Qed.

(** ** One pass *)

(** What every step of the loops does to the loop variables. *)
Record grows (g : Graph) (max : N) (st st' : loop_state) : Prop := {
  gr_sorted : strictly_sorted (ls_dirty st) -> strictly_sorted (ls_dirty st');
  gr_incl : ls_dirty st ⊆ ls_dirty st';
  gr_len : (length (ls_dirty st) <= length (ls_dirty st'))%nat;
  gr_changed : ls_changed st = true -> ls_changed st' = true;
  gr_strict : ls_changed st' = true ->
    ls_changed st = true \/ (length (ls_dirty st) < length (ls_dirty st'))%nat;
  gr_same : ls_changed st' = false -> st' = st;
  gr_exceeded : ls_exceeded st' = true ->
    ls_exceeded st = true \/ max < vlen (ls_dirty st');
  gr_exc_mono : ls_exceeded st = true -> ls_exceeded st' = true;
  gr_within : ls_exceeded st' = false ->
    ls_dirty st' = ls_dirty st \/ vlen (ls_dirty st') <= max
}.

Lemma grows_refl g max st : grows g max st st.
Proof. split; auto. Qed.

Lemma grows_trans g max a b c : grows g max a b -> grows g max b c -> grows g max a c.
Proof.
  intros H1 H2. split.
  - intros Hs. by apply H2, H1.
  - intros x Hx. by apply H2, H1.
  - pose proof (gr_len _ _ _ _ H1). pose proof (gr_len _ _ _ _ H2). lia.
  - intros Hc. by apply H2, H1.
  - intros Hc. pose proof (gr_len _ _ _ _ H1). pose proof (gr_len _ _ _ _ H2).
    destruct (gr_strict _ _ _ _ H2 Hc) as [Hb|Hb]; [|right; lia].
    destruct (gr_strict _ _ _ _ H1 Hb); [by left|right; lia].
  - intros Hc. pose proof (gr_same _ _ _ _ H2 Hc) as ->. by apply H1.
  - intros Hx. pose proof (gr_len _ _ _ _ H2). unfold vlen in *.
    destruct (gr_exceeded _ _ _ _ H2 Hx) as [Hb|Hb]; [|by right].
    destruct (gr_exceeded _ _ _ _ H1 Hb); [by left|right]. unfold vlen in *. lia.
  - intros Hx. by apply H2, H1.
  - intros Hc. destruct (gr_within _ _ _ _ H2 Hc) as [->|]; [|by right].
    apply (gr_within _ _ _ _ H1). destruct (ls_exceeded b) eqn:E; [|done].
    apply (gr_exc_mono _ _ _ _ H2) in E. congruence.
Qed.

Lemma grows_foldl {A} g max (f : loop_state -> A -> loop_state) l st :
  (forall st x, grows g max st (f st x)) -> grows g max st (foldl f st l).
Proof.
  intros Hf. revert st. induction l as [|x l IH]; intros st; simpl.
  - apply grows_refl.
  - by eapply grows_trans.
Qed.

Lemma binary_search_absent l x : binary_search l x = false -> x ∉ l \/ ~ strictly_sorted l.
Proof.
  intros Hb. destruct (decide (x ∈ l)) as [Hx|]; [|by left]. right. intros Hs.
  apply (binary_search_spec l x Hs) in Hx. congruence.
Qed.

Lemma visit_use_grows g max st u : grows g max st (visit_use g max st u).
Proof.
  unfold visit_use.
  destruct (ls_exceeded st) eqn:Hexc; [apply grows_refl|].
  destruct (not_live g (u_user u)); [apply grows_refl|].
  destruct (negb (semanticsDependOn g (u_user u) (u_slot u))); [apply grows_refl|].
  destruct (binary_search (ls_dirty st) (u_user u)) eqn:Hb; [apply grows_refl|].
  split; simpl; rewrite ?length_insert_at; try done; try lia.
  - intros Hs. apply insert_at_sorted; [done|].
    by apply binary_search_absent in Hb as [?|?].
  - intros x Hx. apply elem_of_insert_at. by right.
  - intros Hlt. right. by apply N.ltb_lt.
  - congruence.
  - intros Hge. right. by apply N.ltb_ge.
Qed.

Lemma visit_index_grows g max st i : grows g max st (visit_index g max st i).
Proof.
  unfold visit_index. destruct (ls_exceeded st); [apply grows_refl|].
  destruct (vget _ _); [|apply grows_refl].
  destruct (not_live g _); [apply grows_refl|].
  apply grows_foldl. intros. apply visit_use_grows.
Qed.

Lemma closure_pass_grows g max d :
  grows g max (mkLoop d false false) (closure_pass g max d).
Proof. apply grows_foldl. intros. apply visit_index_grows. Qed.

(** Soundness: a property that follows the edges holds of all that is added. *)
Section Sound.
Context (g : Graph) (max : N) (P : NodeId -> Prop).
Context (HP : forall n m, P n -> use_edge g n m -> P m).

Lemma visit_use_sound n st u :
  P n -> live g n -> u ∈ usesOf g n -> Forall P (ls_dirty st) ->
  Forall P (ls_dirty (visit_use g max st u)).
Proof.
  intros Hn Hlive Hu Hd. unfold visit_use.
  destruct (ls_exceeded st); [done|].
  destruct (not_live g (u_user u)) eqn:Hl; [done|].
  destruct (semanticsDependOn g (u_user u) (u_slot u)) eqn:Hs; [|done]. simpl.
  destruct (binary_search _ _); [done|]. simpl.
  apply Forall_forall. intros x [->|Hx]%elem_of_insert_at.
  - apply (HP n); [done|]. split_and!; [done..|]. by exists u.
  - rewrite Forall_forall in Hd. by apply Hd.
Qed.

Lemma visit_uses_sound n us st :
  P n -> live g n -> us ⊆ usesOf g n -> Forall P (ls_dirty st) ->
  Forall P (ls_dirty (foldl (visit_use g max) st us)).
Proof.
  intros Hn Hlive. revert st. induction us as [|u us IH]; intros st Hin Hd; [done|].
  simpl. apply IH; [set_solver|].
  apply (visit_use_sound n); try done. apply Hin. by left.
Qed.

Lemma visit_index_sound st i :
  Forall P (ls_dirty st) -> Forall P (ls_dirty (visit_index g max st i)).
Proof.
  intros Hd. unfold visit_index. destruct (ls_exceeded st); [done|].
  destruct (vget (ls_dirty st) i) as [n|] eqn:Hn; [|done].
  destruct (not_live g n) eqn:Hl; [done|].
  apply (visit_uses_sound n); [|done..].
  rewrite vget_lookup in Hn. rewrite Forall_forall in Hd.
  apply Hd. by eapply list_elem_of_lookup_2.
Qed.

Lemma closure_pass_sound d : Forall P d -> Forall P (ls_dirty (closure_pass g max d)).
Proof.
  intros Hd. unfold closure_pass. generalize (indices (vlen d)). intros l.
  assert (Forall P (ls_dirty (mkLoop d false false))) as H by done. revert H.
  generalize (mkLoop d false false). induction l as [|i l IH]; intros st Hst; [done|].
  simpl. by apply IH, visit_index_sound.
Qed.

End Sound.

(** Completeness: a pass that changes nothing has seen every edge. *)
Lemma visit_use_unchanged g max st u n m :
  ls_changed (visit_use g max st u) = false -> ls_exceeded st = false ->
  strictly_sorted (ls_dirty st) ->
  live g m -> u_user u = m -> semanticsDependOn g m (u_slot u) = true ->
  u ∈ usesOf g n -> m ∈ ls_dirty st.
Proof.
  intros Hc Hx Hs Hm <- Hd _. revert Hc. unfold visit_use.
  rewrite Hx, Hm, Hd. simpl.
  destruct (binary_search _ _) eqn:Hb; [|done]. intros _. by apply binary_search_spec.
Qed.

(** A fold of growing steps that reports no change left the state alone at
    every step. *)
Lemma foldl_unchanged {A} g max (f : loop_state -> A -> loop_state) l st x :
  (forall st x, grows g max st (f st x)) ->
  ls_changed (foldl f st l) = false -> x ∈ l -> f st x = st.
Proof.
  intros Hf. revert st. induction l as [|y l IH]; intros st Hc Hx; [by apply not_elem_of_nil in Hx|].
  simpl in Hc.
  assert (f st y = st) as Hy.
  { apply (gr_same g max); [apply Hf|].
    destruct (ls_changed (f st y)) eqn:E; [|done].
    apply (gr_changed _ _ _ _ (grows_foldl g max f l (f st y) Hf)) in E. congruence. }
  apply elem_of_cons in Hx as [->|Hx]; [done|]. rewrite Hy in Hc. by apply IH.
Qed.

Lemma closure_pass_unchanged g max d n m :
  strictly_sorted d -> ls_changed (closure_pass g max d) = false ->
  n ∈ d -> use_edge g n m -> m ∈ d.
Proof.
  intros Hs Hc Hn (Hl & Hm & u & Hu & Huser & Hd).
  apply list_elem_of_lookup in Hn as [i Hi].
  set (st := mkLoop d false false).
  assert (visit_index g max st (N.of_nat i) = st) as Hst.
  { eapply foldl_unchanged; [intros; apply visit_index_grows|exact Hc|].
    apply elem_of_indices. apply lookup_lt_Some in Hi. unfold vlen. lia. }
  unfold visit_index in Hst. rewrite vget_lookup, Nat2N.id in Hst. simpl in Hst.
  rewrite Hi, Hl in Hst.
  assert (visit_use g max st u = st) as Huse.
  { eapply foldl_unchanged; [intros; apply visit_use_grows| |exact Hu]. by rewrite Hst. }
  apply (visit_use_unchanged g max st u n m); try done. by rewrite Huse.
Qed.

(** ** The loop *)

Lemma live_lt g n : live g n -> n < nodeCount g.
Proof. unfold live, not_live. rewrite orb_false_iff, N.leb_gt. by intros [? _]. Qed.

Lemma live_sorted_bound g d :
  strictly_sorted d -> Forall (live g) d -> (length d <= N.to_nat (nodeCount g))%nat.
Proof.
  intros Hs Hl. assert (vlen d <= nodeCount g); [|unfold vlen in *; lia].
  apply strictly_sorted_bound; [done|]. intros x Hx.
  apply live_lt. rewrite Forall_forall in Hl. by apply Hl.
Qed.

Definition closed_under (R : relation NodeId) (d : list NodeId) : Prop :=
  forall n m, n ∈ d -> R n m -> m ∈ d.

(** What the loop returns from [d]. *)
Record closure_result (g : Graph) (max : N) (d d' : list NodeId) (x : bool) (it : N)
    : Prop := {
  cr_sorted : strictly_sorted d';
  cr_incl : d ⊆ d';
  cr_sound : forall P : NodeId -> Prop,
    (forall n m, P n -> use_edge g n m -> P m) -> Forall P d -> Forall P d';
  cr_closed : x = false -> closed_under (use_edge g) d';
  cr_exceeded : x = true -> max < vlen d';
  cr_grew : x = true -> (length d < length d')%nat;
  cr_within : x = false -> d' = d \/ vlen d' <= max;
  cr_iterations : 0 < it <= N.max 1 (nodeCount g)
}.

Lemma closure_loop_spec fuel g max d it :
  strictly_sorted d -> Forall (live g) d ->
  (N.to_nat (nodeCount g) - length d < fuel)%nat ->
  (d = [] /\ it = 0 \/ it + 1 <= vlen d) ->
  exists d' x it', closure_loop fuel g max d it = Some (d', x, it') /\
    closure_result g max d d' x it'.
Proof.
  assert (nodeCount g < 4294967296) as Hcount by apply u32_fits.
  revert d it. induction fuel as [|fuel IH]; intros d it Hs Hl Hfuel Hit; [lia|].
  pose proof (live_sorted_bound g d Hs Hl) as Hlen.
  pose proof (closure_pass_grows g max d) as Hg.
  pose proof (fun P HP => closure_pass_sound g max P HP d) as Hsound.
  simpl. set (st := closure_pass g max d) in *.
  assert (u32 (it + 1) = it + 1) as ->.
  { apply u32_small. unfold fits32, vlen in *. lia. }
  assert (0 < it + 1 <= N.max 1 (nodeCount g)) as Hit1 by (unfold vlen in *; lia).
  destruct (ls_changed st) eqn:Hc, (ls_exceeded st) eqn:Hx; simpl.
  - eexists _, _, _. split; [done|]. split; try done; try apply Hg; try done.
    + intros _. by destruct (gr_exceeded _ _ _ _ Hg Hx).
    + intros _. by destruct (gr_strict _ _ _ _ Hg Hc).
  - destruct (gr_strict _ _ _ _ Hg Hc) as [|Hlt]; [done|]. simpl in Hlt.
    assert (strictly_sorted (ls_dirty st)) as Hs' by (by apply Hg).
    assert (Forall (live g) (ls_dirty st)) as Hl'.
    { apply Hsound; [|done]. by intros n m _ (_ & Hm & _). }
    pose proof (live_sorted_bound g _ Hs' Hl') as Hlen'.
    destruct (IH (ls_dirty st) (it + 1)) as (d' & x & it' & -> & Hr); [done..|lia| |].
    + right. unfold vlen. clear IH. destruct Hit as [[-> ->]|Hit]; simpl in *; unfold vlen in *; lia.
    + exists d', x, it'. split; [done|]. destruct Hr. split; try done.
      * intros y Hy. by apply cr_incl0, Hg.
      * intros P HP Hd. apply cr_sound0; [done|]. by apply Hsound.
      * intros Hxt. specialize (cr_grew0 Hxt). lia.
      * intros Hxf. right. destruct (cr_within0 Hxf) as [->|?]; [|done].
        destruct (gr_within _ _ _ _ Hg Hx) as [Heq|?]; [|done].
        simpl in Heq. rewrite Heq in Hlt. lia.
  - pose proof (gr_same _ _ _ _ Hg Hc) as Heq. rewrite Heq in Hx. done.
  - pose proof (gr_same _ _ _ _ Hg Hc) as Heq. rewrite Heq. simpl.
    eexists _, _, _. split; [done|]. split; try done.
    + intros _ n m. by apply closure_pass_unchanged with max.
    + by left.
Qed.

Lemma elem_of_live_seeds g seeds n : n ∈ live_seeds g seeds <-> n ∈ seeds /\ live g n.
Proof. unfold live_seeds. by rewrite elem_of_remove_if, elem_of_unique, elem_of_sort. Qed.

Lemma live_seeds_sorted g seeds : strictly_sorted (live_seeds g seeds).
Proof. apply remove_if_sorted, sort_unique_sorted. Qed.

Lemma live_seeds_live g seeds : Forall (live g) (live_seeds g seeds).
Proof. apply Forall_forall. intros n Hn. by apply elem_of_live_seeds in Hn as [??]. Qed.

(** The loop of [expandDirtyClosure] always returns. *)
Lemma expand_result g seeds max :
  exists d x it,
    expandDirtyClosure g seeds max =
      Some (mkDirtyClosureResult (mkDirtySet d (ds_regions seeds)) x it) /\
    closure_result g max (live_seeds g (ds_nodes seeds)) d x it.
Proof.
  unfold expandDirtyClosure.
  destruct (closure_loop_spec (S (N.to_nat (nodeCount g))) g max
    (live_seeds g (ds_nodes seeds)) 0) as (d & x & it & -> & Hr).
  - apply live_seeds_sorted.
  - apply live_seeds_live.
  - lia.
  - destruct (live_seeds g (ds_nodes seeds)); [by left|right]. unfold vlen. simpl. lia.
  - by exists d, x, it.
Qed.

(** [m] is reached from a live seed along the dependences. *)
Definition reached (g : Graph) (seeds : list NodeId) (m : NodeId) : Prop :=
  exists n, n ∈ seeds /\ live g n /\ rtc (depends g) n m.

(** C32: on every well-formed graph the closure terminates, within at most as
    many iterations as there are nodes (one on an empty graph); its node set is
    sorted and duplicate-free, holds every live seed and only nodes reachable
    from one through inputs that carry semantics; when the budget is not
    exceeded it is exactly that reachable set, and when it is exceeded the set
    is larger than the budget. The region list is passed through. *)
Theorem expandDirtyClosure_spec g seeds max :
  graph_ok g ->
  exists r, expandDirtyClosure g seeds max = Some r /\
    ds_regions (dc_dirty r) = ds_regions seeds /\
    strictly_sorted (ds_nodes (dc_dirty r)) /\
    0 < dc_iterations r <= N.max 1 (nodeCount g) /\
    (forall m, m ∈ ds_nodes seeds -> live g m -> m ∈ ds_nodes (dc_dirty r)) /\
    (forall m, m ∈ ds_nodes (dc_dirty r) -> live g m /\ reached g (ds_nodes seeds) m) /\
    (dc_budget_exceeded r = false ->
       forall m, reached g (ds_nodes seeds) m -> m ∈ ds_nodes (dc_dirty r)) /\
    (dc_budget_exceeded r = true -> max < vlen (ds_nodes (dc_dirty r))).
Proof.
  intros Hg. destruct (expand_result g seeds max) as (d & x & it & -> & Hr).
  eexists. split; [done|]. simpl. destruct Hr. split_and!; try done; try lia.
  - intros m Hm Hl. by apply cr_incl0, elem_of_live_seeds.
  - intros m Hm. apply (Forall_forall (fun m => live g m /\ reached g (ds_nodes seeds) m) d); [|done].
    apply cr_sound0.
    + intros n k [_ (s & Hs & Hl & Hrtc)] Hedge. split; [apply Hedge|].
      exists s. split_and!; [done..|]. eapply rtc_r; [done|]. by apply use_edge_depends.
    + apply Forall_forall. intros s [Hs Hl]%elem_of_live_seeds. split; [done|].
      exists s. split_and!; try done.
  - intros Hx m (s & Hs & Hl & Hrtc).
    assert (s ∈ d) as Hsd by (by apply cr_incl0, elem_of_live_seeds).
    clear Hs Hl. induction Hrtc as [|n k m Hedge _ IH]; [done|].
    apply IH. apply (cr_closed0 Hx n); [done|]. by apply use_edge_depends.
Qed.

Lemma expandDirtyClosure_spec_witness :
  exists r, expandDirtyClosure g_example (mkDirtySet [2; 1; 2] [5]) 64 = Some r /\
    ds_nodes (dc_dirty r) = [2; 3].
Proof.
  destruct (expandDirtyClosure_spec g_example (mkDirtySet [2; 1; 2] [5]) 64)
    as (r & Hr & _).
  - apply (reachable_ok g_example g_example_reachable).
  - exists r. split; [exact Hr|].
    assert (ds_nodes (dc_dirty (default r (expandDirtyClosure g_example
      (mkDirtySet [2; 1; 2] [5]) 64))) = [2; 3]) as Hv by (vm_compute; reflexivity).
    by rewrite Hr in Hv.
Defined.

(** The size budget is only tested when a node is added: a live seed set
    that is already closed is returned unchanged, as within budget, whatever
    the budget is and however much larger than it the set is. *)
Theorem budget_ignores_seeds g seeds max :
  graph_ok g -> closed_under (depends g) (live_seeds g (ds_nodes seeds)) ->
  exists it, expandDirtyClosure g seeds max =
    Some (mkDirtyClosureResult
            (mkDirtySet (live_seeds g (ds_nodes seeds)) (ds_regions seeds)) false it).
Proof.
  intros Hg Hcl. destruct (expand_result g seeds max) as (d & x & it & -> & Hr).
  exists it. set (l := live_seeds g (ds_nodes seeds)) in *.
  assert (d = l) as ->.
  { apply strictly_sorted_ext; [apply Hr|apply live_seeds_sorted|].
    intros m. split; [|apply Hr].
    assert (Forall (fun m => m ∈ l) d) as Hall.
    { apply Hr; [|by apply Forall_forall]. intros n k Hn Hedge.
      apply (Hcl n); [done|]. by apply use_edge_depends. }
    rewrite Forall_forall in Hall. apply Hall. }
  destruct x; [|done]. pose proof (cr_grew _ _ _ _ _ _ Hr eq_refl). lia.
Qed.

Lemma budget_ignores_seeds_witness :
  exists it, expandDirtyClosure g_example (mkDirtySet [2; 3] []) 0 =
    Some (mkDirtyClosureResult (mkDirtySet [2; 3] []) false it).
Proof.
  apply (budget_ignores_seeds g_example (mkDirtySet [2; 3] []) 0).
  - apply (reachable_ok g_example g_example_reachable).
  - intros n m _ (_ & Hm & s & Hs & Hin & _).
    assert (live_seeds g_example (ds_nodes (mkDirtySet [2; 3] [])) = [2; 3]) as ->
      by (vm_compute; reflexivity).
    pose proof (live_lt _ _ Hm) as Hlt.
    assert (nodeCount g_example = 4) as E4 by (vm_compute; reflexivity).
    assert (m = 0 \/ m = 1 \/ m = 2 \/ m = 3) as Hcase by lia.
    destruct Hs as [_ Hs]. destruct Hcase as [-> | [-> | [-> | ->]]].
    + assert (numInputs g_example 0 = 0) as E by (vm_compute; reflexivity). lia.
    + assert (numInputs g_example 1 = 0) as E by (vm_compute; reflexivity). lia.
    + left.
    + right. left.
Defined.
