(* ===== verification/RegionSafety.v ===== *)
(** * Region safety checks

    include/b2/pipeline/RegionSafety.h and compiler/pipeline/src/RegionSafety.cpp.
    The loops of checks 5 and 6 count the input slots in a [uint8_t]; they are
    modelled with the wrap-around, on fuel, and return [None] when the fuel
    runs out. 257 steps are enough whenever the loops stop at all. *)

From S2P Require Import Prelude IRTypes Effect NodeInfo SmallVector Graph GraphInv.
From S2P Require Import GraphReplace Region.

Local Open Scope N_scope.

(** ** Helpers *)

Definition inRegion (nodes : list NodeId) (n : NodeId) : bool := binary_search nodes n.

Definition isControlEntryKind (k : NodeKind) : bool :=
  match k with
  | NodeKind.Start | NodeKind.IfTrue | NodeKind.IfFalse | NodeKind.SwitchCase
  | NodeKind.SwitchDefault | NodeKind.LoopBegin | NodeKind.Region => true
  | _ => false
  end.

Definition isTerminalControl (k : NodeKind) : bool :=
  match k with
  | NodeKind.Return | NodeKind.Unwind | NodeKind.Deopt => true
  | _ => false
  end.

Definition isCallKind (k : NodeKind) : bool :=
  match k with
  | NodeKind.CallStatic | NodeKind.CallVirtual | NodeKind.CallInterface
  | NodeKind.CallDynamic => true
  | _ => false
  end.

Definition isMemRole (r : InputRole) : bool := bool_decide (r = InputRole.Mem).

Definition isMemoryStateKind (k : NodeKind) : bool :=
  let ni := info k in
  existsb (fun i => isMemRole (role_at ni i)) (indices (ni_numFixed ni)) ||
  (ni_variadic ni && isMemRole (ni_variadicRole ni)).

Definition isPhiKind (k : NodeKind) : bool := bool_decide (k = NodeKind.Phi).

(** [n >= g.nodeCount()] or a tombstone: the [continue] of the node loops. *)
Definition skipped (g : Graph) (n : NodeId) : bool :=
  (nodeCount g <=? n) || isDead (node g n).

(** ** Checks 1 to 4 *)

Definition check1_ControlEntry (g : Graph) (r : Region) : bool :=
  if rg_entryControl r =? kInvalidNodeId then false
  else if nodeCount g <=? rg_entryControl r then false
  else
    let n := node g (rg_entryControl r) in
    if isDead n then false
    else if negb (isControlEntryKind (nd_kind n)) then false
    else if negb (inRegion (rg_nodes r) (rg_entryControl r)) then false
    else true.

Definition isCtrlUse (g : Graph) (u : Use) : bool :=
  let ni := info (nd_kind (node g (u_user u))) in
  if u_slot u <? ni_numFixed ni then bool_decide (role_at ni (u_slot u) = InputRole.Ctrl)
  else if ni_variadic ni then bool_decide (ni_variadicRole ni = InputRole.Ctrl)
  else false.

Definition check2_exit (g : Graph) (r : Region) (exit : NodeId) : bool :=
  if exit =? kInvalidNodeId then false
  else if nodeCount g <=? exit then false
  else
    let n := node g exit in
    if isDead n then false
    else if isTerminalControl (nd_kind n) then true
    else if negb (inRegion (rg_nodes r) exit) then false
    else forallb (fun u =>
           if nodeCount g <=? u_user u then true
           else negb (isCtrlUse g u && inRegion (rg_nodes r) (u_user u)))
         (usesOf g exit).

Definition check2_ControlExits (g : Graph) (r : Region) : bool :=
  match rg_exitControls r with
  | [] => false
  | exits => forallb (check2_exit g r) exits
  end.

Definition check3_DanglingUses (g : Graph) (r : Region) : bool :=
  forallb (fun n =>
    if skipped g n then true
    else forallb (fun u =>
           if nodeCount g <=? u_user u then true
           else if inRegion (rg_nodes r) (u_user u) then true
           else inRegion (rg_exitValues r) n)
         (usesOf g n))
  (rg_nodes r).

Definition callExceptWired (g : Graph) (r : Region) (n : NodeId) : bool :=
  existsb (fun u =>
    if nodeCount g <=? u_user u then false
    else if negb (bool_decide (nd_kind (node g (u_user u)) = NodeKind.CallExcept)) then false
    else (u_user u =? rg_exceptionExit r) || inRegion (rg_nodes r) (u_user u))
  (usesOf g n).

Definition check4_ExceptionEdges (g : Graph) (r : Region) : bool :=
  forallb (fun n =>
    if skipped g n then true
    else if negb (isCallKind (nd_kind (node g n))) then true
    else callExceptWired g r n)
  (rg_nodes r).

(** ** Checks 5 and 6: loops on a [uint8_t] slot counter *)

(** The role of slot [s], without the trailing FrameState. *)
Definition slotRole (ni : NodeInfo) (s : N) : InputRole :=
  if s <? ni_numFixed ni then role_at ni s
  else if ni_variadic ni then ni_variadicRole ni else InputRole.None.

(** [for (uint8_t s = from; s < n; ++s) body]: [inr] is an early return of the
    enclosing function, [None] is fuel running out. *)
Fixpoint for_u8 {S} (fuel : nat) (s n : N) (body : N -> S -> S + bool) (st : S)
    : option (S + bool) :=
  match fuel with
  | O => None
  | Datatypes.S fuel' =>
      if s <? n then
        match body s st with
        | inl st' => for_u8 fuel' (u8 (s + 1)) n body st'
        | inr b => Some (inr b)
        end
      else Some (inl st)
  end.

Definition isMemoryNode (g : Graph) (n : NodeId) : bool :=
  negb (skipped g n) && isMemoryStateKind (nd_kind (node g n)).

(** The body of the slot loop of check 5; the state is [externalMemPred]. *)
Definition check5_slot (g : Graph) (r : Region) (n : NodeId) (s : N) (ext : NodeId)
    : NodeId + bool :=
  let ni := info (nd_kind (node g n)) in
  if negb (isMemRole (slotRole ni s)) then inl ext
  else
    let memPred := input g n s in
    if nodeCount g <=? memPred then inl ext
    else if inRegion (rg_nodes r) memPred then inl ext
    else if negb (memPred =? rg_entryMemory r) then inr false
    else if negb (ext =? kInvalidNodeId) && negb (ext =? memPred) then inr false
    else inl memPred.

Fixpoint check5_nodes (fuel : nat) (g : Graph) (r : Region) (nodes : list NodeId)
    (ext : NodeId) : option (NodeId + bool) :=
  match nodes with
  | [] => Some (inl ext)
  | n :: nodes' =>
      if negb (isMemoryNode g n) then check5_nodes fuel g r nodes' ext
      else
        match for_u8 fuel 0 (numInputs g n) (check5_slot g r n) ext with
        | Some (inl ext') => check5_nodes fuel g r nodes' ext'
        | other => other
        end
  end.

Definition check5_MemoryState (fuel : nat) (g : Graph) (r : Region) : option bool :=
  if negb (existsb (isMemoryNode g) (rg_nodes r)) then
    Some (if rg_entryMemory r =? rg_exitMemory r then true
          else if (rg_entryMemory r =? kInvalidNodeId) && (rg_exitMemory r =? kInvalidNodeId)
          then true else false)
  else if rg_entryMemory r =? kInvalidNodeId then Some false
  else if nodeCount g <=? rg_entryMemory r then Some false
  else if inRegion (rg_nodes r) (rg_entryMemory r) then Some false
  else if rg_exitMemory r =? kInvalidNodeId then Some false
  else if nodeCount g <=? rg_exitMemory r then Some false
  else if inRegion (rg_nodes r) (rg_exitMemory r) then Some false
  else
    match check5_nodes fuel g r (rg_nodes r) kInvalidNodeId with
    | Some (inl ext) => Some (negb (ext =? kInvalidNodeId))
    | Some (inr b) => Some b
    | None => None
    end.

(** The body of the slot loop of check 6; the state is [memInputs]. *)
Definition check6_slot (ni : NodeInfo) (s : N) (memInputs : N) : N + bool :=
  inl (if isMemRole (slotRole ni s) then u8 (memInputs + 1) else memInputs).

Fixpoint check6_nodes (fuel : nat) (g : Graph) (nodes : list NodeId) : option bool :=
  match nodes with
  | [] => Some true
  | n :: nodes' =>
      if negb (isMemoryNode g n) then check6_nodes fuel g nodes'
      else
        match for_u8 fuel 0 (numInputs g n) (check6_slot (info (nd_kind (node g n)))) 0 with
        | Some (inl memInputs) =>
            if 1 <? memInputs then Some false else check6_nodes fuel g nodes'
        | Some (inr b) => Some b
        | None => None
        end
  end.

Definition check6_EffectOrdering (fuel : nat) (g : Graph) (r : Region) : option bool :=
  check6_nodes fuel g (rg_nodes r).

(** ** Checks 7 to 10 *)

Definition check7_PhiResolvable (g : Graph) (r : Region) : bool :=
  forallb (fun n =>
    if skipped g n then true
    else if negb (isPhiKind (nd_kind (node g n))) then true
    else forallb (fun s =>
           let inp := input g n s in
           if nodeCount g <=? inp then true
           else if inRegion (rg_nodes r) inp then true
           else inRegion (rg_entryValues r) inp)
         (indices (numInputs g n)))
  (rg_nodes r).

Definition check8_SideEffectDup (g : Graph) (r : Region) : bool := true.
Definition check9_GcRoots (g : Graph) (r : Region) : bool := true.
Definition check10_DeoptState (g : Graph) (r : Region) : bool := true.

(** ** The checker *)

Record RegionSafetyResult := mkRegionSafetyResult {
  rs_verdict : RegionSafety;
  rs_failedCheck : N;
  rs_checkedNodeCount : N
}.

Definition isSafe (res : RegionSafetyResult) : bool := bool_decide (rs_verdict res = Safe).

Definition regionSafetyCheckName (check : N) : string :=
  match check with
  | 0 => "safe"
  | 1 => "control-entry"
  | 2 => "control-exits"
  | 3 => "dangling-uses"
  | 4 => "exception-edges"
  | 5 => "memory-state"
  | 6 => "effect-ordering"
  | 7 => "phi-resolvable"
  | 8 => "side-effect-dup"
  | 9 => "gc-roots"
  | 10 => "deopt-state"
  | _ => "?"
  end.

Definition checkRegionSafety (fuel : nat) (g : Graph) (r : Region)
    : option RegionSafetyResult :=
  let result v k := Some (mkRegionSafetyResult v k (u32 (vlen (rg_nodes r)))) in
  if negb (check1_ControlEntry g r) then result UnsafeBoundary 1
  else if negb (check2_ControlExits g r) then result UnsafeBoundary 2
  else if negb (check3_DanglingUses g r) then result UnsafeDanglingUses 3
  else if negb (check4_ExceptionEdges g r) then result UnsafeExceptionEdges 4
  else
    match check5_MemoryState fuel g r with
    | None => None
    | Some false => result UnsafeMemoryState 5
    | Some true =>
        match check6_EffectOrdering fuel g r with
        | None => None
        | Some false => result UnsafeEffectOrdering 6
        | Some true =>
            if negb (check7_PhiResolvable g r) then result UnsafePhi 7
            else if negb (check8_SideEffectDup g r) then result UnsafeSideEffectDup 8
            else if negb (check9_GcRoots g r) then result UnsafeGcRoots 9
            else if negb (check10_DeoptState g r) then result UnsafeDeoptState 10
            else result Safe 0
        end
    end.

(** ** The [uint8_t] loop *)

(** The loop an index of sufficient width would run. *)
Fixpoint for_list {S} (l : list N) (body : N -> S -> S + bool) (st : S) : S + bool :=
  match l with
  | [] => inl st
  | s :: l' =>
      match body s st with
      | inl st' => for_list l' body st'
      | inr b => inr b
      end
  end.

Definition slots_from (s n : N) : list N :=
  N.of_nat <$> seq (N.to_nat s) (N.to_nat (n - s)).

Lemma slots_from_step s n : s < n -> slots_from s n = s :: slots_from (s + 1) n.
Proof.
  intros Hs. unfold slots_from.
  replace (N.to_nat (n - s)) with (S (N.to_nat (n - (s + 1)))) by lia.
  simpl. rewrite N2Nat.id. do 3 f_equal. lia.
Qed.

Section ForU8.
Context {S : Type} (body : N -> S -> S + bool).

Lemma u8_succ s : s < 255 -> u8 (s + 1) = s + 1.
Proof. intros. apply N.mod_small. lia. Qed.

(** At most 255 slots: the loop is the plain one. *)
Lemma for_u8_narrow fuel s n st :
  n <= 255 -> s <= n -> (N.to_nat (n - s) < fuel)%nat ->
  for_u8 fuel s n body st = Some (for_list (slots_from s n) body st).
Proof.
  intros Hn. revert s st. induction fuel as [|fuel IH]; intros s st Hs Hf; [lia|].
  simpl. destruct (N.ltb_spec s n) as [Hlt|Hge].
  - rewrite slots_from_step by done. simpl. destruct (body s st); [|done].
    rewrite u8_succ by lia. apply IH; lia.
  - unfold slots_from. by replace (n - s) with 0 by lia.
Qed.

(** The loop only falls through for at most 255 slots, at any fuel. *)
Lemma for_u8_inl_narrow fuel s n st st' :
  s <= 255 -> for_u8 fuel s n body st = Some (inl st') -> n <= 255.
Proof.
  revert s st. induction fuel as [|fuel IH]; intros s st Hs; simpl; [done|].
  destruct (N.ltb_spec s n) as [Hlt|Hge]; [|lia].
  destruct (body s st) as [st1|b]; [|done]. apply IH.
  assert (u8 (s + 1) < 256); [apply N.mod_lt; done|lia].
Qed.

Lemma for_u8_mono fuel fuel' s n st o :
  (fuel <= fuel')%nat -> for_u8 fuel s n body st = Some o ->
  for_u8 fuel' s n body st = Some o.
Proof.
  revert fuel' s st. induction fuel as [|fuel IH]; intros [|fuel'] s st Hle; simpl; try done; [lia|].
  destruct (s <? n); [|done]. destruct (body s st); [|done]. apply IH. lia.
Qed.

Lemma for_u8_inl fuel n st st' :
  for_u8 fuel 0 n body st = Some (inl st') ->
  n <= 255 /\ for_list (indices n) body st = inl st'.
Proof.
  intros H. pose proof (for_u8_inl_narrow fuel 0 n st st' ltac:(lia) H) as Hn.
  split; [done|].
  apply (for_u8_mono fuel (Nat.max fuel 256)) in H; [|lia].
  rewrite for_u8_narrow in H by lia. injection H as H.
  unfold slots_from in H. by rewrite N.sub_0_r in H.
Qed.

(** A body that never returns early keeps its invariant or never stops. *)
Lemma for_u8_inv (P : S -> Prop) fuel s n st :
  (forall s st, P st -> exists st', body s st = inl st' /\ P st') -> P st ->
  for_u8 fuel s n body st = None \/
  exists st', for_u8 fuel s n body st = Some (inl st') /\ P st'.
Proof.
  intros Hb. revert s st. induction fuel as [|fuel IH]; intros s st Hst; simpl; [by left|].
  destruct (s <? n); [|right; by exists st].
  destruct (Hb s st Hst) as (st1 & -> & Hst1). by apply IH.
Qed.

Lemma for_u8_wide (P : S -> Prop) fuel n st :
  (forall s st, P st -> exists st', body s st = inl st' /\ P st') -> P st ->
  256 <= n -> for_u8 fuel 0 n body st = None.
Proof.
  intros Hb Hst Hn. destruct (for_u8_inv P fuel 0 n st Hb Hst) as [|(st' & H & _)]; [done|].
  apply for_u8_inl in H. lia.
Qed.

(** An invariant that collects one fact per slot. *)
Lemma for_list_inl (Q : N -> Prop) (P : S -> Prop) l st st' :
  (forall s st st', s ∈ l -> P st -> body s st = inl st' -> P st' /\ Q s) ->
  P st -> for_list l body st = inl st' -> P st' /\ Forall Q l.
Proof.
  revert st. induction l as [|s l IH]; intros st Hb Hst; simpl.
  { intros [= <-]. split; [done|constructor]. }
  destruct (body s st) as [st1|b] eqn:E; [|done]. intros H.
  destruct (Hb s st st1 ltac:(left) Hst E) as [H1 H2].
  destruct (IH st1) as [H3 H4]; [|done..|split; [done|by constructor]].
  intros s' st2 st3 Hs'. apply Hb. by right.
Qed.

End ForU8.

(** ** Only slot 1 carries memory *)

Lemma slotRole_mem k s : isMemRole (slotRole (info k) s) = true -> s = 1.
Proof.
  unfold isMemRole, slotRole. rewrite bool_decide_eq_true.
  destruct (info_row_ok k) as (_ & _ & _ & Hmem & _ & Hvar & _).
  destruct (s <? _); [intros H; by apply Hmem in H as [-> _]|].
  destruct (ni_variadic _); [|done]. intros H. rewrite H in Hvar.
  by destruct Hvar as [?|[?|?]].
Qed.

Lemma check6_count k l st st' :
  NoDup l -> for_list l (check6_slot (info k)) st = inl st' ->
  st' = st \/ 1 ∈ l /\ st' = u8 (st + 1).
Proof.
  intros Hnd. revert st. induction Hnd as [|s l Hs _ IH]; intros st; simpl.
  { intros [= ->]. by left. }
  intros H. destruct (isMemRole (slotRole (info k) s)) eqn:E.
  - apply slotRole_mem in E as ->.
    destruct (IH _ H) as [->|[Hin _]]; [|done].
    right. split; [by left|done].
  - destruct (IH _ H) as [->|[Hin ->]]; [by left|].
    right. split; [by right|done].
Qed.

(** Check 6 cannot fail: no registry row has a second memory slot. *)
Lemma check6_never_rejects fuel g r b : check6_EffectOrdering fuel g r = Some b -> b = true.
Proof.
  unfold check6_EffectOrdering. induction (rg_nodes r) as [|n ns IH]; simpl.
  { by intros [= <-]. }
  destruct (negb (isMemoryNode g n)); [done|].
  destruct (for_u8 _ _ _ _ _) as [[c|b']|] eqn:E; [| |done].
  - apply for_u8_inl in E as [_ E].
    destruct (check6_count _ _ _ _ (NoDup_indices _) E) as [->|[_ ->]]; exact IH.
  - exfalso. revert E. destruct (for_u8_inv (check6_slot (info (nd_kind (node g n))))
      (fun _ => True) fuel 0 (numInputs g n) 0) as [->|(st' & -> & _)]; try done.
    intros s st _. by eexists.
Qed.

(** ** Totality *)

Definition narrow_memory (g : Graph) (r : Region) : Prop :=
  forall n, n ∈ rg_nodes r -> isMemoryNode g n = true -> numInputs g n <= 255.

Lemma check5_nodes_total g r ns ext :
  (forall n, n ∈ ns -> isMemoryNode g n = true -> numInputs g n <= 255) ->
  exists o, check5_nodes 257 g r ns ext = Some o.
Proof.
  revert ext. induction ns as [|n ns IH]; intros ext Hn; [by eexists|].
  assert (forall ext, exists o, check5_nodes 257 g r ns ext = Some o) as Hrest.
  { intros e. apply IH. intros m Hm. apply Hn. by right. }
  cbn [check5_nodes]. destruct (isMemoryNode g n) eqn:E; cbn [negb]; [|done].
  assert (numInputs g n <= 255) by (apply Hn; [by left|done]).
  rewrite for_u8_narrow by lia. destruct (for_list _ _ _); [done|by eexists].
Qed.

Lemma check6_nodes_total g ns :
  (forall n, n ∈ ns -> isMemoryNode g n = true -> numInputs g n <= 255) ->
  exists o, check6_nodes 257 g ns = Some o.
Proof.
  induction ns as [|n ns IH]; intros Hn; [by eexists|].
  assert (exists o, check6_nodes 257 g ns = Some o) as Hrest.
  { apply IH. intros m Hm. apply Hn. by right. }
  cbn [check6_nodes]. destruct (isMemoryNode g n) eqn:E; cbn [negb]; [|done].
  assert (numInputs g n <= 255) by (apply Hn; [by left|done]).
  rewrite for_u8_narrow by lia. destruct (for_list _ _ _); [|by eexists].
  destruct (1 <? n0); [by eexists|done].
Qed.

Lemma check5_total g r : narrow_memory g r -> exists b, check5_MemoryState 257 g r = Some b.
Proof.
  intros Hn. unfold check5_MemoryState.
  destruct (check5_nodes_total g r (rg_nodes r) kInvalidNodeId Hn) as [o ->].
  destruct o; repeat case_match; by eexists.
Qed.

(** The verdict that goes with the number of the failing check. *)
Definition verdict_of (k : N) : RegionSafety :=
  match k with
  | 0 => Safe
  | 1 | 2 => UnsafeBoundary
  | 3 => UnsafeDanglingUses
  | 4 => UnsafeExceptionEdges
  | 5 => UnsafeMemoryState
  | 6 => UnsafeEffectOrdering
  | 7 => UnsafePhi
  | 8 => UnsafeSideEffectDup
  | 9 => UnsafeGcRoots
  | _ => UnsafeDeoptState
  end.

(** The outcomes of the checks that can fail, in the order they run. *)
Definition check_outcomes (g : Graph) (r : Region) : list (N * bool) :=
  [(1, check1_ControlEntry g r); (2, check2_ControlExits g r);
   (3, check3_DanglingUses g r); (4, check4_ExceptionEdges g r);
   (5, default false (check5_MemoryState 257 g r)); (7, check7_PhiResolvable g r)].

Fixpoint first_failure (l : list (N * bool)) : N :=
  match l with
  | [] => 0
  | (k, passed) :: l' => if passed then first_failure l' else k
  end.

(** When the region's memory nodes have at most 255 inputs the checker
    returns (257 loop steps are enough); it reports the first check that fails,
    in the order 1, 2, 3, 4, 5, 7, with that check's verdict, and [Safe] with
    check number 0 exactly when all of these pass. Checks 6, 8, 9 and 10 never
    reject: no node kind has two memory inputs, and the last three are stubs. *)
Theorem checkRegionSafety_total g r :
  narrow_memory g r ->
  exists res, checkRegionSafety 257 g r = Some res /\
    rs_failedCheck res = first_failure (check_outcomes g r) /\
    rs_verdict res = verdict_of (rs_failedCheck res) /\
    isSafe res = forallb snd (check_outcomes g r) /\
    rs_checkedNodeCount res = u32 (vlen (rg_nodes r)).
Proof.
  intros Hn. destruct (check5_total g r Hn) as [b5 H5].
  destruct (check6_nodes_total g (rg_nodes r) Hn) as [b6 H6].
  pose proof (check6_never_rejects 257 g r b6 H6) as ->.
  unfold checkRegionSafety, check_outcomes. rewrite H5. unfold check6_EffectOrdering. rewrite H6.
  cbn [default first_failure forallb snd].
  destruct (check1_ControlEntry g r), (check2_ControlExits g r),
    (check3_DanglingUses g r), (check4_ExceptionEdges g r), b5,
    (check7_PhiResolvable g r); eexists; (split; [reflexivity|]); done.
Qed.

(** ** The contract of a safe region *)

Record region_sorted (r : Region) : Prop := {
  rs_nodes_sorted : strictly_sorted (rg_nodes r);
  rs_entry_sorted : strictly_sorted (rg_entryValues r);
  rs_exit_sorted : strictly_sorted (rg_exitValues r)
}.

Definition live_node (g : Graph) (n : NodeId) : Prop :=
  n < vlen (nodes_ g) /\ isDead (node g n) = false.

(** Slot [s] of [m] reads [n]. *)
Definition reads (g : Graph) (m s n : NodeId) : Prop := has_slot g m s /\ input g m s = n.

Record region_contract (g : Graph) (r : Region) : Prop := {
  rc_entry : live_node g (rg_entryControl r) /\ rg_entryControl r ∈ rg_nodes r /\
    isControlEntryKind (nd_kind (node g (rg_entryControl r))) = true;
  rc_exits : rg_exitControls r <> [] /\
    forall x, x ∈ rg_exitControls r -> live_node g x /\
      (isTerminalControl (nd_kind (node g x)) = true \/
       x ∈ rg_nodes r /\
       forall m s, reads g m s x ->
         slotRole (info (nd_kind (node g m))) s = InputRole.Ctrl -> m ∉ rg_nodes r);
  rc_uses : forall n m s, n ∈ rg_nodes r -> live_node g n -> reads g m s n ->
    m ∈ rg_nodes r \/ n ∈ rg_exitValues r;
  rc_calls : forall n, n ∈ rg_nodes r -> live_node g n ->
    isCallKind (nd_kind (node g n)) = true ->
    exists m s, reads g m s n /\ nd_kind (node g m) = NodeKind.CallExcept /\
      (m = rg_exceptionExit r \/ m ∈ rg_nodes r);
  rc_memory :
    (forall n, n ∈ rg_nodes r -> isMemoryNode g n = false) /\
      rg_entryMemory r = rg_exitMemory r \/
    rg_entryMemory r < vlen (nodes_ g) /\ (rg_entryMemory r ∉ rg_nodes r) /\
    rg_exitMemory r < vlen (nodes_ g) /\ (rg_exitMemory r ∉ rg_nodes r) /\
    (forall n s, n ∈ rg_nodes r -> isMemoryNode g n = true -> s < numInputs g n ->
       slotRole (info (nd_kind (node g n))) s = InputRole.Mem ->
       input g n s < vlen (nodes_ g) ->
       input g n s ∈ rg_nodes r \/ input g n s = rg_entryMemory r) /\
    (exists n s, n ∈ rg_nodes r /\ isMemoryNode g n = true /\ s < numInputs g n /\
       slotRole (info (nd_kind (node g n))) s = InputRole.Mem /\
       input g n s = rg_entryMemory r);
  rc_phis : forall n s, n ∈ rg_nodes r -> live_node g n ->
    nd_kind (node g n) = NodeKind.Phi -> s < numInputs g n ->
    input g n s < vlen (nodes_ g) ->
    input g n s ∈ rg_nodes r \/ input g n s ∈ rg_entryValues r
}.

Section Contract.
Context (g : Graph) (r : Region).
Context (Hg : graph_ok g) (Hsort : region_sorted r).

Lemma nodeCount_ok : nodeCount g = vlen (nodes_ g).
Proof. unfold nodeCount. apply u32_small, Hg. Qed.

Lemma skipped_false n : skipped g n = false <-> live_node g n.
Proof.
  unfold skipped, live_node. by rewrite orb_false_iff, N.leb_gt, nodeCount_ok.
Qed.

Lemma in_nodes n : inRegion (rg_nodes r) n = true <-> n ∈ rg_nodes r.
Proof. apply binary_search_spec, Hsort. Qed.
Lemma not_in_nodes n : inRegion (rg_nodes r) n = false <-> n ∉ rg_nodes r.
Proof. rewrite <- in_nodes. symmetry. apply not_true_iff_false. Qed.
Lemma in_entryValues n : inRegion (rg_entryValues r) n = true <-> n ∈ rg_entryValues r.
Proof. apply binary_search_spec, Hsort. Qed.
Lemma in_exitValues n : inRegion (rg_exitValues r) n = true <-> n ∈ rg_exitValues r.
Proof. apply binary_search_spec, Hsort. Qed.

(** The use list of a node of the table is the set of its readers. *)
Lemma reads_use m s n :
  n < vlen (nodes_ g) -> reads g m s n -> mkUse m s ∈ usesOf g n /\ m < nodeCount g.
Proof.
  intros Hn [Hslot Hin]. rewrite nodeCount_ok. split; [|apply Hslot].
  rewrite <- Hin. apply ue_complete; [apply Hg|done|by rewrite Hin].
Qed.

Lemma use_reads u n : u ∈ usesOf g n -> reads g (u_user u) (u_slot u) n.
Proof. intros Hu. by apply ue_sound; [apply Hg|]. Qed.

Lemma forallb_elem {A} (f : A -> bool) l x : forallb f l = true -> x ∈ l -> f x = true.
Proof. rewrite forallb_forall. intros H Hx. by apply H, list_elem_of_In. Qed.

Lemma check1_sound :
  check1_ControlEntry g r = true ->
  live_node g (rg_entryControl r) /\ rg_entryControl r ∈ rg_nodes r /\
  isControlEntryKind (nd_kind (node g (rg_entryControl r))) = true.
Proof.
  unfold check1_ControlEntry, live_node. rewrite nodeCount_ok, <- in_nodes.
  case_cmp; try done.
  destruct (isDead _); [done|]. destruct (isControlEntryKind _); [|done].
  by destruct (inRegion _ _).
Qed.

Lemma isCtrlUse_role m s :
  slotRole (info (nd_kind (node g m))) s = InputRole.Ctrl -> isCtrlUse g (mkUse m s) = true.
Proof.
  unfold slotRole, isCtrlUse. simpl. destruct (s <? _); [by intros ->|].
  destruct (ni_variadic _); [by intros ->|done].
Qed.

Lemma check2_sound :
  check2_ControlExits g r = true ->
  rg_exitControls r <> [] /\
  forall x, x ∈ rg_exitControls r -> live_node g x /\
    (isTerminalControl (nd_kind (node g x)) = true \/
     x ∈ rg_nodes r /\
     forall m s, reads g m s x ->
       slotRole (info (nd_kind (node g m))) s = InputRole.Ctrl -> m ∉ rg_nodes r).
Proof.
  unfold check2_ControlExits. intros H.
  assert (rg_exitControls r <> [] /\ forallb (check2_exit g r) (rg_exitControls r) = true)
    as [Hne Hall] by (by destruct (rg_exitControls r)).
  split; [done|]. intros x Hx. pose proof (forallb_elem _ _ x Hall Hx) as Hc.
  revert Hc. unfold check2_exit, live_node. rewrite nodeCount_ok. case_cmp; try done.
  destruct (isDead _); [done|]. destruct (isTerminalControl _); [by auto|].
  destruct (inRegion (rg_nodes r) x) eqn:Hin; [|done]. cbn [negb]. intros Huses.
  split; [done|]. right. split; [by apply in_nodes|]. intros m s Hr Hrole Hm.
  destruct (reads_use m s x) as [Hu Hlt]; [done..|].
  pose proof (forallb_elem _ _ _ Huses Hu) as Hb. cbn [u_user] in Hb.
  rewrite nodeCount_ok in Hlt.
  rewrite (proj2 (N.leb_gt _ _) Hlt), (isCtrlUse_role m s Hrole), (proj2 (in_nodes m) Hm) in Hb.
  done.
Qed.

Lemma check3_sound :
  check3_DanglingUses g r = true ->
  forall n m s, n ∈ rg_nodes r -> live_node g n -> reads g m s n ->
    m ∈ rg_nodes r \/ n ∈ rg_exitValues r.
Proof.
  intros H n m s Hn Hl Hr. pose proof (forallb_elem _ _ n H Hn) as Hb. cbn beta in Hb.
  rewrite (proj2 (skipped_false n) Hl) in Hb.
  destruct (reads_use m s n) as [Hu Hlt]; [apply Hl|done|].
  pose proof (forallb_elem _ _ _ Hb Hu) as Hc. cbn [u_user] in Hc.
  rewrite (proj2 (N.leb_gt _ _) Hlt) in Hc.
  destruct (inRegion (rg_nodes r) m) eqn:E; [left; by apply in_nodes|].
  right. by apply in_exitValues.
Qed.

Lemma check4_sound :
  check4_ExceptionEdges g r = true ->
  forall n, n ∈ rg_nodes r -> live_node g n -> isCallKind (nd_kind (node g n)) = true ->
  exists m s, reads g m s n /\ nd_kind (node g m) = NodeKind.CallExcept /\
    (m = rg_exceptionExit r \/ m ∈ rg_nodes r).
Proof.
  intros H n Hn Hl Hk. pose proof (forallb_elem _ _ n H Hn) as Hb. cbn beta in Hb.
  rewrite (proj2 (skipped_false n) Hl), Hk in Hb. cbn [negb] in Hb.
  unfold callExceptWired in Hb. apply existsb_exists in Hb as (u & Hu & Hc).
  apply list_elem_of_In in Hu. exists (u_user u), (u_slot u). split; [by apply use_reads|].
  destruct (_ <=? _); [done|].
  destruct (bool_decide _) eqn:E in Hc; [|done]. apply bool_decide_eq_true in E.
  split; [done|]. apply orb_true_iff in Hc as [Hc|Hc].
  - left. by apply N.eqb_eq.
  - right. by apply in_nodes.
Qed.

Lemma check7_sound :
  check7_PhiResolvable g r = true ->
  forall n s, n ∈ rg_nodes r -> live_node g n -> nd_kind (node g n) = NodeKind.Phi ->
    s < numInputs g n -> input g n s < vlen (nodes_ g) ->
    input g n s ∈ rg_nodes r \/ input g n s ∈ rg_entryValues r.
Proof.
  intros H n s Hn Hl Hk Hs Hlt. pose proof (forallb_elem _ _ n H Hn) as Hb. cbn beta in Hb.
  rewrite (proj2 (skipped_false n) Hl), Hk in Hb. cbn [negb isPhiKind] in Hb.
  pose proof (forallb_elem _ _ s Hb ltac:(by apply elem_of_indices)) as Hc. cbn zeta beta in Hc.
  rewrite nodeCount_ok, (proj2 (N.leb_gt _ _) Hlt) in Hc.
  destruct (inRegion (rg_nodes r) (input g n s)) eqn:E; [left; by apply in_nodes|].
  right. by apply in_entryValues.
Qed.

Lemma check5_slot_never_true fuel n s ext :
  for_u8 fuel s (numInputs g n) (check5_slot g r n) ext <> Some (inr true).
Proof.
  revert s ext. induction fuel as [|fuel IH]; intros s ext; simpl; [done|].
  destruct (s <? _); [|done]. destruct (check5_slot g r n s ext) as [e|b] eqn:E; [apply IH|].
  revert E. unfold check5_slot. repeat case_match; intros [= <-]; done.
Qed.

Lemma check5_nodes_never_true fuel ns ext : check5_nodes fuel g r ns ext <> Some (inr true).
Proof.
  revert ext. induction ns as [|k ns IH]; intros ext; cbn [check5_nodes]; [done|].
  destruct (negb (isMemoryNode g k)); [apply IH|].
  destruct (for_u8 fuel 0 _ _ ext) as [[e|b]|] eqn:E; [apply IH| |done].
  intros [= ->]. by apply check5_slot_never_true in E.
Qed.

(** A memory input of an interior node, and the one check 5 looks for. *)
Definition mem_slot (n s : N) : Prop :=
  isMemoryNode g n = true /\ s < numInputs g n /\
  slotRole (info (nd_kind (node g n))) s = InputRole.Mem.

Definition ext_ok (ext : NodeId) : Prop :=
  ext = kInvalidNodeId \/
  ext = rg_entryMemory r /\
  exists n s, n ∈ rg_nodes r /\ mem_slot n s /\ input g n s = rg_entryMemory r.

Definition mem_input_ok (n s : N) : Prop :=
  slotRole (info (nd_kind (node g n))) s = InputRole.Mem ->
  input g n s < vlen (nodes_ g) ->
  input g n s ∈ rg_nodes r \/ input g n s = rg_entryMemory r.

Lemma check5_slot_sound n s ext ext' :
  n ∈ rg_nodes r -> isMemoryNode g n = true -> s < numInputs g n -> ext_ok ext ->
  check5_slot g r n s ext = inl ext' -> ext_ok ext' /\ mem_input_ok n s.
Proof.
  intros Hn Hm Hs Hext. unfold check5_slot, mem_input_ok, isMemRole.
  destruct (bool_decide _) eqn:Hrole; cbn [negb].
  2:{ intros [= <-]. split; [done|]. apply bool_decide_eq_false in Hrole. done. }
  apply bool_decide_eq_true in Hrole. rewrite nodeCount_ok.
  destruct (N.leb_spec (vlen (nodes_ g)) (input g n s)).
  { intros [= <-]. split; [done|lia]. }
  destruct (inRegion (rg_nodes r) (input g n s)) eqn:Hin.
  { intros [= <-]. split; [done|]. left. by apply in_nodes. }
  destruct (N.eqb_spec (input g n s) (rg_entryMemory r)) as [Heq|]; [|done]. cbn [negb].
  destruct (_ && _); [done|]. intros [= <-].
  split; [|by right]. right. split; [done|]. by exists n, s.
Qed.

Lemma check5_nodes_sound fuel ns ext ext' :
  ns ⊆ rg_nodes r -> ext_ok ext ->
  check5_nodes fuel g r ns ext = Some (inl ext') ->
  ext_ok ext' /\
  (forall n s, n ∈ ns -> isMemoryNode g n = true -> s < numInputs g n -> mem_input_ok n s).
Proof.
  revert ext. induction ns as [|n ns IH]; intros ext Hsub Hext; cbn [check5_nodes].
  { intros [= <-]. split; [done|]. by intros ?? ?%not_elem_of_nil. }
  assert (ns ⊆ rg_nodes r) as Hsub' by set_solver.
  destruct (isMemoryNode g n) eqn:Hm; cbn [negb].
  - destruct (for_u8 _ _ _ _ _) as [[e|b]|] eqn:E; [|done..]. intros H.
    apply for_u8_inl in E as [_ E].
    destruct (for_list_inl (check5_slot g r n) (mem_input_ok n) ext_ok _ _ _
      ltac:(intros s st st' Hs%elem_of_indices; apply check5_slot_sound; try done;
            apply Hsub; by left) Hext E) as [He Hall].
    destruct (IH e Hsub' He H) as [H1 H2]. split; [done|].
    intros m s [->|Hmem]%elem_of_cons Hmn Hs; [|by apply H2].
    rewrite Forall_forall in Hall. apply Hall. by apply elem_of_indices.
  - intros H. destruct (IH ext Hsub' Hext H) as [H1 H2]. split; [done|].
    intros m s [->|Hmem]%elem_of_cons Hmn Hs; [congruence|by apply H2].
Qed.

Lemma check5_sound fuel :
  check5_MemoryState fuel g r = Some true ->
  (forall n, n ∈ rg_nodes r -> isMemoryNode g n = false) /\
    rg_entryMemory r = rg_exitMemory r \/
  rg_entryMemory r < vlen (nodes_ g) /\ (rg_entryMemory r ∉ rg_nodes r) /\
  rg_exitMemory r < vlen (nodes_ g) /\ (rg_exitMemory r ∉ rg_nodes r) /\
  (forall n s, n ∈ rg_nodes r -> isMemoryNode g n = true -> s < numInputs g n ->
     mem_input_ok n s) /\
  (exists n s, n ∈ rg_nodes r /\ isMemoryNode g n = true /\ s < numInputs g n /\
     slotRole (info (nd_kind (node g n))) s = InputRole.Mem /\
     input g n s = rg_entryMemory r).
Proof.
  unfold check5_MemoryState. destruct (existsb (isMemoryNode g) (rg_nodes r)) eqn:Hex; cbn [negb].
  2:{ intros H. left. split.
      - intros n Hn. destruct (isMemoryNode g n) eqn:E; [|done].
        rewrite <- Hex. symmetry. apply existsb_exists. exists n.
        by rewrite <- list_elem_of_In.
      - destruct (N.eqb_spec (rg_entryMemory r) (rg_exitMemory r)); [done|].
        destruct (N.eqb_spec (rg_entryMemory r) kInvalidNodeId); [|done].
        destruct (N.eqb_spec (rg_exitMemory r) kInvalidNodeId); [congruence|done]. }
  rewrite nodeCount_ok.
  destruct (inRegion (rg_nodes r) (rg_entryMemory r)) eqn:Hen;
    [by repeat case_match|].
  destruct (inRegion (rg_nodes r) (rg_exitMemory r)) eqn:Hex';
    [by repeat case_match|].
  case_cmp; try done.
  apply not_in_nodes in Hen, Hex'.
  destruct (check5_nodes _ _ _ _ _) as [[ext|b]|] eqn:E; [| |done].
  - intros Hext. right.
    destruct (check5_nodes_sound _ _ _ _ (reflexivity _) (or_introl eq_refl) E) as [He Hall].
    split_and!; try done. destruct He as [->|(-> & k & s & Hk & (Hm & Hs & Hr) & Hi)]; [done|].
    exists k, s. done.
  - intros [= ->]. by apply check5_nodes_never_true in E.
Qed.

End Contract.

(** C31: a region the checker calls safe satisfies its contract: a live control
    entry inside the region; at least one control exit, each live and either
    terminal or inside the region with every control successor outside; every
    value read from outside listed as an exit value; every call's exception
    projection at the exception exit or inside; memory entering only through
    [entryMemory], which some interior node reads, with both memory boundaries
    outside (or no memory node and equal boundaries); and every Phi input known
    at entry or computed inside. *)
Theorem safe_region_contract fuel g r res :
  graph_ok g -> region_sorted r ->
  checkRegionSafety fuel g r = Some res -> isSafe res = true -> region_contract g r.
Proof.
  intros Hg Hs. unfold checkRegionSafety, isSafe. rewrite bool_decide_eq_true.
  destruct (check1_ControlEntry g r) eqn:H1; [|by intros [= <-]].
  destruct (check2_ControlExits g r) eqn:H2; [|by intros [= <-]].
  destruct (check3_DanglingUses g r) eqn:H3; [|by intros [= <-]].
  destruct (check4_ExceptionEdges g r) eqn:H4; [|by intros [= <-]]. cbn [negb].
  destruct (check5_MemoryState fuel g r) as [[]|] eqn:H5; [|by intros [= <-]|done].
  destruct (check6_EffectOrdering fuel g r) as [[]|]; [|by intros [= <-]|done].
  destruct (check7_PhiResolvable g r) eqn:H7; [|by intros [= <-]].
  intros _ _. split.
  - by apply check1_sound.
  - by apply check2_sound.
  - by apply check3_sound.
  - by apply check4_sound.
  - by apply (check5_sound g r Hg Hs fuel).
  - by apply check7_sound.
Qed.

(** [Region; CallStatic(.., k arguments); CallExcept], with the call's memory
    coming from [Start] and its value returned outside the region. *)
Definition call_graph (k : nat) : Graph :=
  let '(p, g) := parameter newGraph 0 IRType.Int in
  let '(c, g) := make g NodeKind.Region [0] 0 0 in
  let '(call, g) := make g NodeKind.CallStatic ([c; 0] ++ replicate k p) 0 0 in
  let '(_, g) := make g NodeKind.CallExcept [call] 0 0 in
  snd (make g NodeKind.Return [call] 0 0).

Definition call_region : Region :=
  mkRegion 0 0 2 [5] [] [3] 0 5 4 [2; 3; 4] [] [] 0 0 0 0.

Lemma call_graph_ok : graph_ok (call_graph 2).
Proof.
  apply reachable_ok. unfold reachable.
  eapply rtc_l. { apply (step_make _ NodeKind.Parameter_ [] 0 1 0%Z); vm_compute; repeat constructor. }
  eapply rtc_l. { apply (step_make _ NodeKind.Region [0] 0 0 0%Z);
    vm_compute; repeat constructor; discriminate. }
  eapply rtc_l. { apply (step_make _ NodeKind.CallStatic [2; 0; 1; 1] 0 0 0%Z);
    vm_compute; repeat constructor; discriminate. }
  eapply rtc_l. { apply (step_make _ NodeKind.CallExcept [3] 0 0 0%Z);
    vm_compute; repeat constructor; discriminate. }
  apply rtc_once. apply (step_make _ NodeKind.Return [3] 0 0 0%Z);
    vm_compute; repeat constructor; discriminate.
Qed.

Lemma call_region_sorted : region_sorted call_region.
Proof. split; repeat constructor. Qed.

Lemma checkRegionSafety_total_witness :
  exists res, checkRegionSafety 257 (call_graph 2) call_region = Some res /\
    rs_failedCheck res = 0 /\ rs_verdict res = Safe.
Proof.
  destruct (checkRegionSafety_total (call_graph 2) call_region) as (res & H & Hk & Hv & _).
  - intros n Hn _. repeat (apply elem_of_cons in Hn as [->|Hn]; [by vm_compute|]).
    by apply not_elem_of_nil in Hn.
  - exists res. split; [exact H|].
    assert (first_failure (check_outcomes (call_graph 2) call_region) = 0) as E
      by (vm_compute; reflexivity).
    rewrite E in Hk. split; [exact Hk|]. rewrite Hv, Hk. reflexivity.
Defined.

Lemma safe_region_contract_witness :
  3 ∈ rg_nodes call_region \/ 3 ∈ rg_exitValues call_region.
Proof.
  assert (region_contract (call_graph 2) call_region) as Hc.
  { destruct (checkRegionSafety 257 (call_graph 2) call_region) as [res|] eqn:E.
    - apply (safe_region_contract 257 (call_graph 2) call_region res).
      + apply call_graph_ok.
      + apply call_region_sorted.
      + exact E.
      + vm_compute in E. injection E as <-. reflexivity.
    - vm_compute in E. discriminate E. }
  destruct (rc_uses _ _ Hc 3 5 0) as [H|H].
  - right. left.
  - split; vm_compute; reflexivity.
  - split; [split|]; vm_compute; reflexivity.
  - left. right. left.
  - right. exact H.
Defined.

(** ** More than 255 inputs *)

Definition memory_boundary_ok (g : Graph) (r : Region) : Prop :=
  rg_entryMemory r <> kInvalidNodeId /\ rg_entryMemory r < nodeCount g /\
  inRegion (rg_nodes r) (rg_entryMemory r) = false /\
  rg_exitMemory r <> kInvalidNodeId /\ rg_exitMemory r < nodeCount g /\
  inRegion (rg_nodes r) (rg_exitMemory r) = false.

(** No memory input gives check 5 a reason to stop early. *)
Definition memory_chain_ok (g : Graph) (r : Region) : Prop :=
  forall m, m ∈ rg_nodes r -> isMemoryNode g m = true ->
    nodeCount g <= input g m 1 \/ inRegion (rg_nodes r) (input g m 1) = true \/
    input g m 1 = rg_entryMemory r.

Lemma check5_slot_benign g r m :
  memory_chain_ok g r -> m ∈ rg_nodes r -> isMemoryNode g m = true ->
  forall s ext, ext = kInvalidNodeId \/ ext = rg_entryMemory r ->
  exists ext', check5_slot g r m s ext = inl ext' /\
    (ext' = kInvalidNodeId \/ ext' = rg_entryMemory r).
Proof.
  intros Hc Hm Hmem s ext Hext. unfold check5_slot.
  destruct (isMemRole _) eqn:Hrole; cbn [negb]; [|by exists ext].
  apply slotRole_mem in Hrole as ->.
  destruct (N.leb_spec (nodeCount g) (input g m 1)); [by exists ext|].
  destruct (inRegion _ _) eqn:Hin; [by exists ext|].
  destruct (Hc m Hm Hmem) as [|[|Heq]]; [lia|congruence|]. rewrite Heq, N.eqb_refl. cbn [negb].
  exists (rg_entryMemory r). split; [|by right].
  destruct Hext as [->| ->]; rewrite N.eqb_refl; cbn [negb andb]; [done|].
  by rewrite andb_false_r.
Qed.

Lemma check5_nodes_wide fuel g r n ns ext :
  memory_chain_ok g r -> ns ⊆ rg_nodes r -> n ∈ ns ->
  isMemoryNode g n = true -> 256 <= numInputs g n ->
  ext = kInvalidNodeId \/ ext = rg_entryMemory r ->
  check5_nodes fuel g r ns ext = None.
Proof.
  intros Hc Hsub Hn Hmem Hw. revert ext. induction ns as [|m ns IH]; intros ext Hext.
  { by apply not_elem_of_nil in Hn. }
  cbn [check5_nodes]. assert (m ∈ rg_nodes r) as Hm by (apply Hsub; by left).
  assert (ns ⊆ rg_nodes r) as Hsub' by set_solver.
  destruct (isMemoryNode g m) eqn:Em; cbn [negb].
  - set (P := fun e => e = kInvalidNodeId \/ e = rg_entryMemory r).
    pose proof (check5_slot_benign g r m Hc Hm Em) as Hb.
    apply elem_of_cons in Hn as [->|Hn].
    + by rewrite (for_u8_wide (check5_slot g r m) P).
    + destruct (for_u8_inv (check5_slot g r m) P fuel 0 (numInputs g m) ext Hb Hext)
        as [->|(e & -> & He)]; [done|]. by apply IH.
  - apply elem_of_cons in Hn as [->|Hn]; [congruence|]. by apply IH.
Qed.

(** A region that passes the first four checks and whose memory boundary
    is in order, but which holds a memory node with 256 or more inputs (a call
    with some 253 arguments), makes the checker loop forever: the [uint8_t] slot
    counter wraps before it reaches the bound, so no amount of fuel yields a
    verdict. *)
Theorem checkRegionSafety_diverges g r n fuel :
  check1_ControlEntry g r = true -> check2_ControlExits g r = true ->
  check3_DanglingUses g r = true -> check4_ExceptionEdges g r = true ->
  memory_boundary_ok g r -> memory_chain_ok g r ->
  n ∈ rg_nodes r -> isMemoryNode g n = true -> 256 <= numInputs g n ->
  checkRegionSafety fuel g r = None.
Proof.
  intros H1 H2 H3 H4 (He & He' & Hen & Hx & Hx' & Hxn) Hc Hn Hm Hw.
  unfold checkRegionSafety. rewrite H1, H2, H3, H4. cbn [negb].
  assert (check5_MemoryState fuel g r = None) as ->; [|done].
  unfold check5_MemoryState.
  assert (existsb (isMemoryNode g) (rg_nodes r) = true) as ->.
  { apply existsb_exists. exists n. by rewrite <- list_elem_of_In. }
  rewrite (proj2 (N.eqb_neq _ _) He), (proj2 (N.eqb_neq _ _) Hx), Hen, Hxn.
  rewrite (proj2 (N.leb_gt _ _) He'), (proj2 (N.leb_gt _ _) Hx'). cbn [negb].
  rewrite (check5_nodes_wide fuel g r n); try done. by left.
Qed.

Lemma wide_call_chain : memory_chain_ok (call_graph 254) call_region.
Proof.
  intros m Hm Hmem.
  repeat (apply elem_of_cons in Hm as [->|Hm];
    [first [by (right; right; vm_compute) | by vm_compute in Hmem]|]).
  by apply not_elem_of_nil in Hm.
Qed.

Lemma checkRegionSafety_diverges_witness :
  checkRegionSafety 3000 (call_graph 254) call_region = None.
Proof.
  apply (checkRegionSafety_diverges (call_graph 254) call_region 3).
  - vm_compute. reflexivity.
  - vm_compute. reflexivity.
  - vm_compute. reflexivity.
  - vm_compute. reflexivity.
  - unfold memory_boundary_ok. split_and!; vm_compute; (reflexivity || discriminate).
  - apply wide_call_chain.
  - right. left.
  - vm_compute. reflexivity.
  - vm_compute. discriminate.
Defined.
