(* ===== verification/Codec.v ===== *)
(** * Little-endian writer and bounds-checked reader

    [putU16], [putU32], [putU64] and the [Cursor] of
    compiler/ir/core/Serialize.cpp. A cursor is the bytes it has not read yet;
    a parser is a reader with the error message of its failure. [Codec] states
    that a reader inverts a writer; [Local] that a parser's result does not
    depend on the bytes behind the ones it consumed. *)

From S2P Require Import Prelude.

Local Open Scope N_scope.

Abbreviation bytes := (list N).

(** ** Writers *)

Definition putU16 (v : N) : bytes := [N.land v 255; u8 (N.shiftr v 8)].

Definition putU32 (v : N) : bytes :=
  (fun i => u8 (N.land (N.shiftr v (8 * i)) 255)) <$> indices 4.

Definition putU64 (v : N) : bytes :=
  (fun i => u8 (N.land (N.shiftr v (8 * i)) 255)) <$> indices 8.

#[global] Arguments putU16 : simpl never.
#[global] Arguments putU32 : simpl never.
#[global] Arguments putU64 : simpl never.

(** ** Readers *)

Abbreviation reader A := (bytes -> option (A * bytes)).

(** [v |= data_[pos_ + i] << (8 * i)] for [i < k], then [pos_ += k]. *)
Definition cursor_le (k : N) : reader N := fun bs =>
  if vlen bs <? k then None
  else Some (foldl (fun v p => N.lor v (N.shiftl (snd p) (8 * fst p))) 0
               (zip (indices k) bs),
             drop (N.to_nat k) bs).

Definition cursor_u16 : reader N := cursor_le 2.
Definition cursor_u32 : reader N := cursor_le 4.
Definition cursor_u64 : reader N := cursor_le 8.

Definition parser (A : Type) : Type := bytes -> string + A * bytes.

Definition pret {A} (x : A) : parser A := fun bs => inr (x, bs).
Definition pfail {A} (msg : string) : parser A := fun _ => inl msg.
Definition pbind {A B} (p : parser A) (f : A -> parser B) : parser B := fun bs =>
  match p bs with
  | inl msg => inl msg
  | inr (x, rest) => f x rest
  end.

Notation "'let!' x ':=' p 'in' q" := (pbind p (fun x => q))
  (at level 10, x name, p at level 100, q at level 200) : b2_scope.

(** [if (!c.u32(v)) { fail(msg); return res; }] *)
Definition read {A} (r : reader A) (msg : string) : parser A := fun bs =>
  match r bs with Some p => inr p | None => inl msg end.

(** A counting loop whose body reads and may return early with an error. *)
Fixpoint pfor {S} (l : list N) (body : N -> S -> parser S) (st : S) : parser S :=
  match l with
  | [] => pret st
  | i :: l' => pbind (body i st) (pfor l' body)
  end.

(** [n] words into a vector. *)
Definition read_words (n : N) (msg : string) : parser (list N) :=
  pfor (indices n) (fun _ acc => pbind (read cursor_u32 msg) (fun v => pret (acc ++ [v]))) [].

(** ** Round trips *)

Class Codec {A} (put : A -> bytes) (get : reader A) (ok : A -> Prop) : Prop :=
  get_put : forall x rest, ok x -> get (put x ++ rest) = Some (x, rest).

Definition put_le (k v : N) : bytes :=
  (fun i => u8 (N.land (N.shiftr v (8 * i)) 255)) <$> indices k.

Lemma land_255 x : N.land x 255 = x mod 256.
Proof. change 255 with (N.ones 8). by rewrite N.land_ones. Qed.

Lemma vlen_put_le k v : vlen (put_le k v) = k.
Proof. unfold put_le, vlen. rewrite length_fmap, length_indices. lia. Qed.

Lemma zip_indices_app k (bs rest : bytes) :
  vlen bs = k -> zip (indices k) (bs ++ rest) = zip (indices k) bs.
Proof.
  intros Hk. rewrite <- (app_nil_r (indices k)) at 1.
  rewrite zip_with_app by (rewrite length_indices; unfold vlen in Hk; lia).
  by rewrite app_nil_r.
Qed.

(** Reading [k] bytes of [v] accumulates [v] modulo [256 ^ k]. *)
Lemma fold_put_le k v :
  foldl (fun v p => N.lor v (N.shiftl (snd p) (8 * fst p))) 0
    (zip (indices k) (put_le k v)) = v mod 2 ^ (8 * k).
Proof.
  induction k as [|k IH] using N.peano_ind.
  { simpl. by rewrite N.mod_1_r. }
  rewrite <- N.add_1_r. unfold put_le. rewrite indices_S, fmap_app.
  rewrite zip_with_app by (by rewrite length_fmap).
  rewrite foldl_app. unfold put_le in IH. rewrite IH. simpl.
  rewrite land_255. unfold u8. rewrite N.Div0.mod_mod, N.shiftr_div_pow2.
  rewrite N.lor_comm, lor_shiftl_low by (apply N.mod_lt, N.pow_nonzero; done).
  replace (8 * (k + 1)) with (8 * k + 8) by lia. rewrite N.pow_add_r.
  rewrite N.Div0.mod_mul_r. change (2 ^ 8) with 256. lia.
Qed.

Lemma cursor_le_put k v rest :
  v < 2 ^ (8 * k) -> cursor_le k (put_le k v ++ rest) = Some (v, rest).
Proof.
  intros Hv. unfold cursor_le. rewrite vlen_app, vlen_put_le.
  destruct (N.ltb_spec (k + vlen rest) k); [lia|].
  rewrite zip_indices_app by apply vlen_put_le.
  rewrite fold_put_le, N.mod_small by done. do 2 f_equal.
  apply drop_app_length'. pose proof (vlen_put_le k v). unfold vlen in *. lia.
Qed.

#[export] Instance codec_u16 : Codec putU16 cursor_u16 fits16.
Proof.
  intros v rest Hv. assert (putU16 v = put_le 2 v) as ->.
  { unfold putU16, put_le. change (indices 2) with [0; 1]. simpl.
    rewrite !land_255, N.shiftr_0_r. unfold u8. rewrite !N.Div0.mod_mod. done. }
  by apply cursor_le_put.
Qed.

#[export] Instance codec_u32 : Codec putU32 cursor_u32 fits32.
Proof. intros v rest Hv. by apply (cursor_le_put 4). Qed.

#[export] Instance codec_u64 : Codec putU64 cursor_u64 fits64.
Proof. intros v rest Hv. by apply (cursor_le_put 8). Qed.

Lemma read_put {A} `{Codec A put get ok} msg x rest :
  ok x -> read get msg (put x ++ rest) = inr (x, rest).
Proof. intros Hx. unfold read. by rewrite get_put. Qed.

Lemma pbind_read {A B} `{Codec A put get ok} msg x rest (f : A -> parser B) :
  ok x -> pbind (read get msg) f (put x ++ rest) = f x rest.
Proof. intros Hx. unfold pbind. by rewrite read_put. Qed.

Lemma pbind_inr {A B} (p : parser A) (f : A -> parser B) bs x rest :
  p bs = inr (x, rest) -> pbind p f bs = f x rest.
Proof. intros H. unfold pbind. by rewrite H. Qed.

(** A loop over the concatenated records reads them all back. *)
Lemma pfor_records {T} (body : N -> T -> parser T) (rec : N -> bytes) (inv : N -> T)
    (n : N) rest :
  (forall i rest, i < n -> body i (inv i) (rec i ++ rest) = inr (inv (i + 1), rest)) ->
  pfor (indices n) body (inv 0) (concat (rec <$> indices n) ++ rest) = inr (inv n, rest).
Proof.
  intros Hbody.
  assert (forall m k, N.of_nat m + k = n ->
    pfor (N.of_nat <$> seq (N.to_nat k) m) body (inv k)
      (concat (rec <$> (N.of_nat <$> seq (N.to_nat k) m)) ++ rest) = inr (inv n, rest)) as H.
  { induction m as [|m IH]; intros k Hk; simpl.
    - replace k with n by lia. done.
    - rewrite N2Nat.id, <- app_assoc. unfold pbind. rewrite Hbody by lia.
      specialize (IH (k + 1)). replace (N.to_nat (k + 1)) with (S (N.to_nat k)) in IH by lia.
      apply IH. lia. }
  apply (H (N.to_nat n) 0). lia.
Qed.

(** A loop over the elements as a loop over the indices. *)
Lemma fmap_indices {A B} (d : A) (f : A -> B) l :
  f <$> l = (fun i => f (default d (vget l i))) <$> indices (vlen l).
Proof.
  apply list_eq. intros i. rewrite !list_lookup_fmap.
  destruct (l !! i) as [x|] eqn:E; simpl.
  - pose proof (lookup_lt_Some _ _ _ E). unfold indices.
    rewrite list_lookup_fmap, lookup_seq_lt by (unfold vlen; lia). simpl.
    by rewrite vget_lookup, Nat2N.id, E.
  - apply lookup_ge_None in E. rewrite (proj2 (lookup_ge_None _ _)); [done|].
    rewrite length_indices. unfold vlen. lia.
Qed.

Lemma read_words_put msg (l : list N) rest :
  Forall fits32 l ->
  read_words (vlen l) msg (concat (putU32 <$> l) ++ rest) = inr (l, rest).
Proof.
  intros Hl. unfold read_words.
  assert (concat (putU32 <$> l) =
    concat ((fun i => putU32 (default 0 (vget l i))) <$> indices (vlen l))) as ->.
  { by rewrite (fmap_indices 0). }
  assert (inr (l, rest) = inr (take (N.to_nat (vlen l)) l, rest) :> string + list N * bytes) as ->.
  { unfold vlen. by rewrite Nat2N.id, firstn_all. }
  apply (pfor_records _ _ (fun i => take (N.to_nat i) l)).
  intros i r Hi. pose proof Hi as Hi'. apply vget_lt_is_Some in Hi' as [x Hx].
  rewrite Hx. cbn [default from_option id]. rewrite pbind_read.
  - unfold pret. do 2 f_equal. rewrite vget_lookup in Hx.
    replace (N.to_nat (i + 1)) with (S (N.to_nat i)) by lia.
    by rewrite (take_S_r _ _ x).
  - rewrite Forall_forall in Hl. apply Hl. rewrite vget_lookup in Hx.
    by eapply list_elem_of_lookup_2.
Qed.

(** ** Locality *)

Class Local {A} (p : parser A) : Prop :=
  local : forall bs x rest q, p bs = inr (x, rest) -> p (bs ++ q) = inr (x, rest ++ q).

#[export] Instance local_pret {A} (x : A) : Local (pret x).
Proof. intros bs y rest q [= <- <-]. done. Qed.

#[export] Instance local_pfail {A} msg : Local (@pfail A msg).
Proof. intros bs y rest q [=]. Qed.

#[export] Instance local_pbind {A B} (p : parser A) (f : A -> parser B) :
  Local p -> (forall x, Local (f x)) -> Local (pbind p f).
Proof.
  intros Hp Hf bs y rest q. unfold pbind.
  destruct (p bs) as [msg|[x r]] eqn:E; [done|]. intros H.
  rewrite (Hp _ _ _ q E). by apply Hf.
Qed.

#[export] Instance local_if {A} (b : bool) (p q : parser A) :
  Local p -> Local q -> Local (if b then p else q).
Proof. by destruct b. Qed.

#[export] Instance local_cursor k msg : Local (read (cursor_le k) msg).
Proof.
  intros bs x rest q. unfold read, cursor_le. rewrite vlen_app.
  destruct (N.ltb_spec (vlen bs) k); [done|]. intros [= <- <-].
  destruct (N.ltb_spec (vlen bs + vlen q) k); [lia|]. do 2 f_equal.
  - f_equal. rewrite <- (firstn_skipn (N.to_nat k) bs), <- app_assoc.
    rewrite !(zip_indices_app k (take (N.to_nat k) bs)); [done|..];
      unfold vlen in *; rewrite length_take; lia.
  - rewrite drop_app_le; [done|]. unfold vlen in *. lia.
Qed.

#[export] Instance local_pfor {S} l (body : N -> S -> parser S) st :
  (forall i st, Local (body i st)) -> Local (pfor l body st).
Proof.
  intros Hb. revert st. induction l as [|i l IH]; intros st; simpl; apply _.
Qed.

#[export] Instance local_read_words n msg : Local (read_words n msg).
Proof. unfold read_words. apply _. Qed.
