(* ===== verification/Serialize.v ===== *)
(** * Graph serialization and replay

    include/b2/ir/Serialize.h and compiler/ir/core/Serialize.cpp: the writer,
    and the reader that replays node creation, edges, side tables and the
    replacement log into a fresh graph. The verifier the reader calls last is
    an argument, so what is proved of the replay does not depend on it. *)

From S2P Require Import Prelude IRTypes Effect NodeInfo SmallVector Graph Codec.

Local Open Scope N_scope.
Local Open Scope b2_scope.

Definition kIrMagic : N := 1380528706.
Definition kIrFormatVersion : N := 2.
Definition kIrMinReadVersion : N := 1.

(** ** Writer *)

Definition put_node (g : Graph) (n : NodeId) : bytes :=
  let nd := node g n in
  putU16 (NodeKind.code (nd_kind nd)) ++
  putU16 (nd_flags nd) ++
  putU32 (nd_payload nd) ++
  putU32 (nd_payload2 nd) ++
  putU64 (i64_to_u64 (nd_constValue nd)) ++
  putU32 (nd_specMeta nd) ++
  putU32 (nd_epoch nd) ++
  putU16 (nd_numInputs nd) ++
  putU16 (nd_reserved nd) ++
  concat ((fun s => putU32 (input g n s)) <$> indices (nd_numInputs nd)).

Definition put_framestate (g : Graph) (i : N) : bytes :=
  let d := frameState g i in
  let vobjs := frameStateVobjs g i in
  putU32 (fs_method d) ++ putU32 (fs_pc d) ++ putU32 (fs_caller d) ++
  putU32 (u32 (vlen vobjs)) ++ concat (putU32 <$> vobjs).

Definition put_specmeta (g : Graph) (i : N) : bytes :=
  let sm := specMeta g i in
  putU32 (SpecMeta.kind_code (SpecMeta.sm_kind sm)) ++
  putU32 (SpecMeta.source_code (SpecMeta.sm_source sm)) ++
  putU32 (SpecMeta.sm_confidence sm) ++
  putU32 (SpecMeta.sm_guard sm) ++
  putU32 (SpecMeta.sm_deoptTarget sm) ++
  putU32 (SpecMeta.sm_cost sm) ++
  putU32 (SpecMeta.sm_dependency sm) ++
  putU32 (SpecMeta.rollback_code (SpecMeta.sm_rollback sm)).

Definition put_dependency (g : Graph) (i : N) : bytes :=
  let d := dependency g i in
  putU32 (Dependency.code (Dependency.dep_kind d)) ++
  putU32 (Dependency.dep_target d).

Definition put_replacement (r : Replacement) : bytes :=
  putU32 (rp_oldNode r) ++ putU32 (rp_newNode r) ++ putU32 (rp_epoch r).

Definition serialize (g : Graph) : bytes :=
  putU32 kIrMagic ++ putU32 kIrFormatVersion ++
  putU32 (nodeCount g) ++ concat (put_node g <$> indices (nodeCount g)) ++
  putU32 (frameStateCount g) ++
  concat (put_framestate g <$> indices (frameStateCount g)) ++
  putU32 (specMetaCount g) ++ concat (put_specmeta g <$> indices (specMetaCount g)) ++
  putU32 (dependencyCount g) ++
  concat (put_dependency g <$> indices (dependencyCount g)) ++
  putU32 (u32 (vlen (replacements_ g))) ++
  concat (put_replacement <$> replacements_ g).

(** ** Reader *)

(** [nodeForReplay(id)] and the five field writes. *)
Definition patch_node (flags cv spec ep : N) (nd : Node) : Node :=
  mkNode (nd_kind nd) flags (nd_edgeOffset nd) (nd_numInputs nd) 0 (nd_payload nd)
    (nd_payload2 nd) (u64_to_i64 cv) spec ep.

(** One iteration of pass 1; the state is the graph and [pendingInputs]. *)
Definition parse_node (i : N) (st : Graph * list (list N))
    : parser (Graph * list (list N)) :=
  let '(g, pending) := st in
  let msg := "truncated node record"%string in
  let! kind := read cursor_u16 msg in
  let! flags := read cursor_u16 msg in
  let! payload := read cursor_u32 msg in
  let! payload2 := read cursor_u32 msg in
  let! cv := read cursor_u64 msg in
  let! spec := read cursor_u32 msg in
  let! ep := read cursor_u32 msg in
  let! num := read cursor_u16 msg in
  let! reserved := read cursor_u16 msg in
  if NodeKind.code NodeKind._Count <=? kind then pfail "node kind out of range"
  else if negb (reserved =? 0)
  then pfail "node record reserved field must be 0 (corrupt artifact)"
  else
    let! ins := read_words num "truncated node inputs" in
    if i =? 0 then
      if negb (kind =? NodeKind.code NodeKind.Start)
      then pfail "node 0 must be Start (corrupt artifact)"
      else pret (update_node g 0 (patch_node flags cv spec ep), pending ++ [ins])
    else
      let '(id, g) := make g (NodeKind.of_code kind) [] payload payload2 in
      if negb (id =? i) then pfail "node id mismatch during replay"
      else pret (update_node g id (patch_node flags cv spec ep), pending ++ [ins]).

(** Pass 2. *)
Definition replay_inputs (g : Graph) (i : N) (ins : list N) : Graph :=
  foldl (fun g v => appendInput g i v) g ins.

Definition replay_edges (g : Graph) (nodeCount : N) (pending : list (list N)) : Graph :=
  foldl (fun g p => replay_inputs g (fst p) (snd p)) g (zip (indices nodeCount) pending).

Definition parse_framestate (i : N) (g : Graph) : parser Graph :=
  let msg := "truncated FrameState descriptor"%string in
  let! method := read cursor_u32 msg in
  let! pc := read cursor_u32 msg in
  let! caller := read cursor_u32 msg in
  let! vobjCount := read cursor_u32 msg in
  let! vobjs := read_words vobjCount "truncated FrameState vobj list" in
  let '(got, g) := replayFrameStateDesc g method pc caller vobjs in
  if negb (got =? i) then pfail "FrameState descriptor id mismatch during replay"
  else pret g.

Definition parse_specmeta (i : N) (g : Graph) : parser Graph :=
  let msg := "truncated SpecMeta record"%string in
  let! k := read cursor_u32 msg in
  let! src := read cursor_u32 msg in
  let! conf := read cursor_u32 msg in
  let! guard := read cursor_u32 msg in
  let! deopt := read cursor_u32 msg in
  let! cost := read cursor_u32 msg in
  let! dep := read cursor_u32 msg in
  let! rb := read cursor_u32 msg in
  if (SpecMeta.kind_code SpecMeta.StaticProofCarried <? k) ||
     (SpecMeta.source_code SpecMeta.Assumption <? src) ||
     (SpecMeta.rollback_code SpecMeta.Compensated <? rb)
  then pfail "SpecMeta enum out of range"
  else
    let sm := SpecMeta.mkSpecMeta (SpecMeta.kind_of_code k) (SpecMeta.source_of_code src)
                conf guard deopt cost dep (SpecMeta.rollback_of_code rb) in
    let '(id, g) := addSpecMeta g sm in
    if negb (id =? i) then pfail "SpecMeta id mismatch during replay" else pret g.

Definition parse_dependency (i : N) (g : Graph) : parser Graph :=
  let msg := "truncated Dependency record"%string in
  let! k := read cursor_u32 msg in
  let! target := read cursor_u32 msg in
  if Dependency.code Dependency.StaticProof <? k
  then pfail "Dependency enum out of range"
  else
    let '(id, g) := addDependency g (Dependency.mkDependency (Dependency.of_code k) target) in
    if negb (id =? i) then pfail "Dependency id mismatch during replay" else pret g.

Definition parse_replacement (nodeCount : N) (i : N) (g : Graph) : parser Graph :=
  let msg := "truncated replacement entry"%string in
  let! oldNode := read cursor_u32 msg in
  let! newNode := read cursor_u32 msg in
  let! ep := read cursor_u32 msg in
  if (nodeCount <=? oldNode) || (nodeCount <=? newNode)
  then pfail "replacement entry node id out of range"
  else pret (replayReplacement g oldNode newNode ep).

Definition parse_header : parser unit :=
  let! magic := read cursor_u32 "truncated header" in
  let! version := read cursor_u32 "truncated header" in
  if negb (magic =? kIrMagic) then pfail "bad magic (not a B-2 IR artifact)"
  else if negb (version =? kIrFormatVersion) &&
          negb ((kIrMinReadVersion <=? version) && (version <? kIrFormatVersion))
  then pfail "unsupported IR format version (Rule 31: stale artifact)"
  else pret tt.

(** [deserializeInto] up to the call of the verifier, into [g]. *)
Definition parse_graph (g : Graph) : parser Graph :=
  let! _ := parse_header in
  let! nodeCount := read cursor_u32 "truncated node count" in
  let! st := pfor (indices nodeCount) parse_node (g, []) in
  let g := replay_edges (fst st) nodeCount (snd st) in
  let! fsCount := read cursor_u32 "truncated FrameState table" in
  let! g := pfor (indices fsCount) parse_framestate g in
  let! specCount := read cursor_u32 "truncated SpecMeta table" in
  let! g := pfor (indices specCount) parse_specmeta g in
  let! depCount := read cursor_u32 "truncated Dependency table" in
  let! g := pfor (indices depCount) parse_dependency g in
  let! replCount := read cursor_u32 "truncated replacement log" in
  pfor (indices replCount) (parse_replacement nodeCount) g.

(** The error message, or the rebuilt graph. *)
Definition deserializeInto (verify : Graph -> bool) (data : bytes) (g : Graph)
    : string + Graph :=
  match parse_graph g data with
  | inl msg => inl msg
  | inr (g, _) =>
      if verify g then inr g else inl "replayed graph failed verification"%string
  end.
