(* ===== verification/SerializeRoundtrip.v ===== *)
(** * Replay restores the serialized graph

    Round trip of compiler/ir/core/Serialize.cpp: replaying the bytes of a graph
    yields a graph with the same nodes, inputs and side tables (edge-pool
    offsets and the epoch counter apart), with exact use lists, which serializes
    to the same bytes; and a truncated artifact is always rejected. *)

From S2P Require Import Prelude IRTypes Effect NodeInfo SmallVector Graph GraphInv.
From S2P Require Import GraphReplace GraphFrameState Codec Serialize.

Local Open Scope N_scope.

(** ** What is preserved *)

Definition node_view (nd : Node) : Node := nd_with_slice nd 0 (nd_numInputs nd).

Definition fs_view (g : Graph) (i : N) : N * N * N * list NodeId :=
  let d := frameState g i in
  (fs_method d, fs_pc d, fs_caller d, frameStateVobjs g i).

(** Equal but for edge-pool layout, FrameState slice layout, use-list order and
    the epoch counter. *)
Record graph_equiv (g g' : Graph) : Prop := {
  eq_nodes : node_view <$> nodes_ g = node_view <$> nodes_ g';
  eq_inputs : forall n s, input g n s = input g' n s;
  eq_fs_len : vlen (fsDesc_ g) = vlen (fsDesc_ g');
  eq_fs : forall i, i < vlen (fsDesc_ g) -> fs_view g i = fs_view g' i;
  eq_spec : specMetas_ g = specMetas_ g';
  eq_deps : deps_ g = deps_ g';
  eq_log : replacements_ g = replacements_ g';
  eq_start : start_ g = start_ g'
}.

#[export] Instance graph_equiv_equivalence : Equivalence graph_equiv.
Proof.
  split.
  - intros g. by split.
  - intros g g' []. split; try done. intros i Hi. symmetry. apply eq_fs0. congruence.
  - intros g1 g2 g3 [] []. split; try congruence.
    intros i Hi. rewrite eq_fs0 by done. apply eq_fs1. congruence.
Qed.

Lemma equiv_vlen g g' : graph_equiv g g' -> vlen (nodes_ g) = vlen (nodes_ g').
Proof.
  intros [Hn _ _ _ _ _ _ _]. apply (f_equal length) in Hn.
  rewrite !length_fmap in Hn. unfold vlen. lia.
Qed.

Lemma equiv_node g g' n :
  graph_equiv g g' -> node_view (node g n) = node_view (node g' n).
Proof.
  intros [Hn _ _ _ _ _ _ _]. unfold node.
  apply (f_equal (fun l => vget l n)) in Hn. rewrite !vget_fmap in Hn.
  destruct (vget (nodes_ g) n), (vget (nodes_ g') n); cbn in Hn |- *; congruence.
Qed.

(** The bytes only depend on the preserved part. *)
#[export] Instance serialize_proper : Proper (graph_equiv ==> eq) serialize.
Proof.
  intros g g' H. unfold serialize.
  assert (nodeCount g = nodeCount g') as <- by (unfold nodeCount; by rewrite (equiv_vlen g g')).
  assert (frameStateCount g = frameStateCount g') as <-
    by (unfold frameStateCount; by rewrite (eq_fs_len g g' H)).
  assert (put_node g <$> indices (nodeCount g) = put_node g' <$> indices (nodeCount g)) as ->.
  { apply list_fmap_ext. intros _ n _. unfold put_node.
    pose proof (equiv_node g g' n H) as Hn.
    assert ((fun s => putU32 (input g n s)) <$> indices (nd_numInputs (node g n)) =
            (fun s => putU32 (input g' n s)) <$> indices (nd_numInputs (node g n))) as ->.
    { apply list_fmap_ext. intros _ s _. by rewrite (eq_inputs g g' H). }
    unfold node_view, nd_with_slice in Hn. injection Hn as -> -> -> -> -> -> -> -> ->. done. }
  assert (put_framestate g <$> indices (frameStateCount g) =
          put_framestate g' <$> indices (frameStateCount g)) as ->.
  { apply list_fmap_ext. intros j i Hi. unfold put_framestate.
    assert (i < vlen (fsDesc_ g)) as Hlt.
    { apply list_elem_of_lookup_2, elem_of_indices in Hi. unfold frameStateCount, u32 in Hi.
      pose proof (N.Div0.mod_le (vlen (fsDesc_ g)) 4294967296). lia. }
    pose proof (eq_fs g g' H i Hlt) as Hv. unfold fs_view in Hv.
    injection Hv as -> -> -> ->. done. }
  unfold put_specmeta, put_dependency, specMetaCount, dependencyCount, specMeta, dependency.
  by rewrite (eq_spec g g' H), (eq_deps g g' H), (eq_log g g' H).
Qed.

(** ** Graphs that fit the format *)

Record node_typed (nd : Node) : Prop := {
  nt_kind : nd_kind nd <> NodeKind._Count;
  nt_flags : fits16 (nd_flags nd);
  nt_payload : fits32 (nd_payload nd);
  nt_payload2 : fits32 (nd_payload2 nd);
  nt_const : is_i64 (nd_constValue nd);
  nt_spec : fits32 (nd_specMeta nd);
  nt_epoch : fits32 (nd_epoch nd);
  nt_num : fits16 (nd_numInputs nd);
  nt_reserved : nd_reserved nd = 0
}.

Definition desc_typed (d : FrameStateDesc) : Prop :=
  fits32 (fs_method d) /\ fits32 (fs_pc d) /\ fits32 (fs_caller d).

Definition spec_typed (sm : SpecMeta) : Prop :=
  fits32 (SpecMeta.sm_confidence sm) /\ fits32 (SpecMeta.sm_guard sm) /\
  fits32 (SpecMeta.sm_deoptTarget sm) /\ fits32 (SpecMeta.sm_cost sm) /\
  fits32 (SpecMeta.sm_dependency sm).

Definition log_typed (n : N) (r : Replacement) : Prop :=
  rp_oldNode r < n /\ rp_newNode r < n /\ fits32 (rp_epoch r).

(** What replaying the log does to node [n]. *)
Definition replay_tag (n : NodeId) (log : list Replacement) (nd : Node) : Node :=
  foldl (fun nd r => if rp_oldNode r =? n then tombstone (rp_epoch r) nd else nd) nd log.

(** Every replaced node still carries the tags of its last log entry. *)
Definition log_consistent (g : Graph) : Prop :=
  forall n nd, vget (nodes_ g) n = Some nd -> replay_tag n (replacements_ g) nd = nd.

(** Edge-pool words the replay appends for a node with [k] inputs. *)
Definition replay_words (k : N) : N := k * (k + 1) / 2.

Definition replay_pool (g : Graph) : N :=
  foldl (fun acc nd => acc + replay_words (nd_numInputs nd)) 0 (nodes_ g).

(** Virtual objects over all FrameState descriptors. *)
Definition vobj_total (g : Graph) : N :=
  foldl (fun acc d => acc + fs_vobjCount d) 0 (fsDesc_ g).

Record serializable (g : Graph) : Prop := {
  sz_storage : storage_ok g;
  sz_nodes : Forall node_typed (nodes_ g);
  sz_inputs : Forall fits32 (edgePool_ g);
  sz_first : exists nd, vget (nodes_ g) 0 = Some nd /\ nd_kind nd = NodeKind.Start /\
    nd_payload nd = 0 /\ nd_payload2 nd = 0;
  sz_start : start_ g = 0;
  sz_fs : framestates_ok g;
  sz_descs : Forall desc_typed (fsDesc_ g);
  sz_vobjs : Forall fits32 (fsVobjs_ g);
  sz_vobj_total : vobj_total g < 4294967295;
  sz_spec_len : fits32 (vlen (specMetas_ g));
  sz_spec : Forall spec_typed (specMetas_ g);
  sz_dep_len : fits32 (vlen (deps_ g));
  sz_dep : Forall (fun d => fits32 (Dependency.dep_target d)) (deps_ g);
  sz_log_len : fits32 (vlen (replacements_ g));
  sz_log : Forall (log_typed (vlen (nodes_ g))) (replacements_ g);
  sz_tags : log_consistent g;
  sz_pool : replay_pool g < 4294967296
}.

Definition inputs (g : Graph) (n : NodeId) : list NodeId :=
  (fun s => input g n s) <$> indices (numInputs g n).

(** ** Pass 1: the nodes *)

Lemma update_last g l x f :
  nodes_ g = l ++ [x] ->
  update_node g (vlen l) f = set_nodes g (l ++ [f x]).
Proof.
  intros Hn. unfold update_node. rewrite Hn, vget_snoc, N.eqb_refl. f_equal.
  rewrite vset_insert. unfold vlen. rewrite Nat2N.id.
  by rewrite insert_app_r_alt, Nat.sub_diag by lia.
Qed.

Lemma code_lt_count k : k <> NodeKind._Count -> NodeKind.code k < NodeKind.code NodeKind._Count.
Proof. by destruct k. Qed.

Lemma code_fits16 k : fits16 (NodeKind.code k).
Proof. by destruct k. Qed.

Section Pass1.
Context (g : Graph) (Hg : serializable g).

Definition skel_node (nd : Node) : Node :=
  mkNode (nd_kind nd) (nd_flags nd) 0 0 0 (nd_payload nd) (nd_payload2 nd)
    (nd_constValue nd) (nd_specMeta nd) (nd_epoch nd).

(** The graph after [k] node records. *)
Definition skel (k : N) : Graph :=
  mkGraph (skel_node <$> take (N.to_nat k) (nodes_ g)) []
    (replicate (N.to_nat k) []) [] [] [] [] [] 0 0.

Definition pass1_state (k : N) : Graph * list (list N) :=
  (if k =? 0 then newGraph else skel k, inputs g <$> indices k).

Lemma node_typed_at n nd : vget (nodes_ g) n = Some nd -> node_typed nd.
Proof.
  intros Hn. pose proof (sz_nodes g Hg) as H. rewrite Forall_forall in H. apply H.
  rewrite vget_lookup in Hn. by eapply list_elem_of_lookup_2.
Qed.

Lemma inputs_fit n : n < vlen (nodes_ g) -> Forall fits32 (inputs g n).
Proof.
  intros Hn. apply Forall_forall. intros v (s & -> & Hs%elem_of_indices)%list_elem_of_fmap.
  assert (has_slot g n s) as (nd & Hnd & Hs')%has_slot_Some by (by apply has_slot_iff).
  pose proof (input_Some g n nd s (sz_storage g Hg) Hnd Hs') as Hin.
  pose proof (sz_inputs g Hg) as H. rewrite Forall_forall in H. apply H.
  rewrite vget_lookup in Hin. by eapply list_elem_of_lookup_2.
Qed.

Lemma vlen_inputs n : vlen (inputs g n) = numInputs g n.
Proof. unfold inputs, vlen. rewrite length_fmap, length_indices. lia. Qed.

Lemma put_inputs n :
  concat ((fun s => putU32 (input g n s)) <$> indices (nd_numInputs (node g n))) =
  concat (putU32 <$> inputs g n).
Proof. unfold inputs. by rewrite <- list_fmap_compose. Qed.

Lemma parse_node_fields i st nd rest :
  vget (nodes_ g) i = Some nd ->
  parse_node i st (put_node g i ++ rest) =
  (let '(h, pending) := st in
   if i =? 0 then
     if negb (NodeKind.code (nd_kind nd) =? NodeKind.code NodeKind.Start)
     then inl "node 0 must be Start (corrupt artifact)"%string
     else inr ((update_node h 0 (patch_node (nd_flags nd) (i64_to_u64 (nd_constValue nd))
                 (nd_specMeta nd) (nd_epoch nd)), pending ++ [inputs g i]), rest)
   else
     let '(id, h) := make h (nd_kind nd) [] (nd_payload nd) (nd_payload2 nd) in
     if negb (id =? i) then inl "node id mismatch during replay"%string
     else inr ((update_node h id (patch_node (nd_flags nd) (i64_to_u64 (nd_constValue nd))
                 (nd_specMeta nd) (nd_epoch nd)), pending ++ [inputs g i]), rest)).
Proof.
  intros Hi. destruct (node_typed_at i nd Hi). destruct st as [h pending].
  assert (i < vlen (nodes_ g)) as Hlt by (by eapply vget_Some_lt).
  pose proof (vlen_inputs i) as Hvl. unfold numInputs in Hvl.
  unfold parse_node, put_node. cbv zeta.
  rewrite put_inputs, (node_Some _ _ _ Hi), <- !app_assoc.
  rewrite (node_Some _ _ _ Hi) in Hvl.
  do 9 (rewrite pbind_read by (done || apply code_fits16 || apply i64_to_u64_fits
                               || (rewrite nt_reserved0; done))).
  rewrite NodeKind_of_code_code, nt_reserved0.
  destruct (N.leb_spec (NodeKind.code NodeKind._Count) (NodeKind.code (nd_kind nd))) as [Hle|_].
  { apply code_lt_count in nt_kind0. lia. }
  cbn [negb N.eqb]. rewrite <- Hvl.
  rewrite (pbind_inr _ _ _ (inputs g i) rest) by (apply read_words_put, inputs_fit; done).
  destruct (i =? 0).
  - by destruct (negb _).
  - destruct (make h (nd_kind nd) [] (nd_payload nd) (nd_payload2 nd)) as [id h'].
    by destruct (negb _).
Qed.

Lemma skel_snoc i nd :
  vget (nodes_ g) i = Some nd ->
  skel_node <$> take (N.to_nat (i + 1)) (nodes_ g) =
  (skel_node <$> take (N.to_nat i) (nodes_ g)) ++ [skel_node nd].
Proof.
  intros Hi. rewrite vget_lookup in Hi.
  replace (N.to_nat (i + 1)) with (S (N.to_nat i)) by lia.
  by rewrite (take_S_r _ _ nd), fmap_app.
Qed.

Lemma vlen_skel_nodes i :
  i <= vlen (nodes_ g) -> vlen (skel_node <$> take (N.to_nat i) (nodes_ g)) = i.
Proof. intros Hi. unfold vlen in *. rewrite length_fmap, length_take. lia. Qed.

Lemma make_skel i k p p2 :
  i < vlen (nodes_ g) ->
  make (skel i) k [] p p2 =
  (i, mkGraph ((skel_node <$> take (N.to_nat i) (nodes_ g)) ++ [mkNode k 0 0 0 0 p p2 0%Z 0 0])
        [] (replicate (N.to_nat (i + 1)) []) [] [] [] [] [] 0 0).
Proof.
  intros Hi. unfold make, makeRaw. simpl. rewrite vlen_skel_nodes by lia.
  assert (u32 i = i) as ->.
  { apply u32_small. pose proof (so_nodes g (sz_storage g Hg)). unfold fits32 in *. lia. }
  unfold set_edges, skel. simpl. do 2 f_equal.
  replace (N.to_nat (i + 1)) with (S (N.to_nat i)) by lia.
  symmetry. apply replicate_S_end.
Qed.

Lemma parse_node_step i rest :
  i < vlen (nodes_ g) ->
  parse_node i (pass1_state i) (put_node g i ++ rest) = inr (pass1_state (i + 1), rest).
Proof.
  intros Hi. pose proof Hi as [nd Hnd]%vget_lt_is_Some.
  rewrite (parse_node_fields i _ nd) by done.
  pose proof (nt_const nd (node_typed_at i nd Hnd)) as Hconst.
  pose proof (i64_roundtrip _ Hconst) as Hrt. unfold pass1_state.
  rewrite indices_S, fmap_app. cbn [fmap list_fmap].
  destruct (N.eqb_spec (i + 1) 0) as [|_]; [lia|].
  destruct (N.eqb_spec i 0) as [->|Hne].
  - destruct (sz_first g Hg) as (nd0 & Hnd0 & Hk & Hp & Hp2). simplify_eq.
    rewrite Hk, N.eqb_refl. cbn [negb]. do 3 f_equal.
    unfold skel. rewrite (skel_snoc 0 nd) by done.
    unfold update_node, newGraph. simpl. unfold patch_node, skel_node.
    rewrite Hrt, Hk, Hp, Hp2. done.
  - rewrite make_skel, N.eqb_refl by lia. cbn [negb]. do 3 f_equal.
    match goal with |- update_node ?h _ ?f = _ =>
      pose proof (update_last h (skel_node <$> take (N.to_nat i) (nodes_ g)) _ f eq_refl) as Hu
    end.
    rewrite vlen_skel_nodes in Hu by lia. rewrite Hu. unfold set_nodes, skel. cbn.
    rewrite (skel_snoc i nd) by done. unfold patch_node, skel_node. cbn. by rewrite Hrt.
Qed.

Lemma pass1 rest :
  pfor (indices (vlen (nodes_ g))) parse_node (newGraph, [])
    (concat (put_node g <$> indices (vlen (nodes_ g))) ++ rest) =
  inr ((skel (vlen (nodes_ g)), inputs g <$> indices (vlen (nodes_ g))), rest).
Proof.
  assert (0 < vlen (nodes_ g)) as Hpos.
  { destruct (sz_first g Hg) as (nd & Hnd & _). by eapply vget_Some_lt. }
  pose proof (pfor_records parse_node (put_node g) pass1_state (vlen (nodes_ g)) rest) as H.
  specialize (H (fun i r Hi => parse_node_step i r Hi)). revert H.
  unfold pass1_state. by destruct (N.eqb_spec (vlen (nodes_ g)) 0); [lia|].
Qed.

End Pass1.

(** ** Pass 2: the edges *)

(** The fields the edge primitives leave alone. *)
Definition side (g : Graph) :=
  (fsDesc_ g, fsVobjs_ g, specMetas_ g, deps_ g, replacements_ g, epoch_ g, start_ g).

Lemma appendInput_side g n v : side (appendInput g n v) = side g.
Proof. unfold appendInput. by destruct (vget (nodes_ g) n). Qed.

Fixpoint append_words (k : N) (ins : list N) : N :=
  match ins with
  | [] => 0
  | _ :: ins' => k + 1 + append_words (k + 1) ins'
  end.

Lemma append_words_twice k ins : 2 * append_words k ins = vlen ins * (2 * k + vlen ins + 1).
Proof.
  revert k. induction ins as [|v ins IH]; intros k; [done|].
  cbn [append_words]. specialize (IH (k + 1)). unfold vlen in *. cbn [length]. nia.
Qed.

Lemma append_words_0 ins : append_words 0 ins = replay_words (vlen ins).
Proof.
  unfold replay_words. pose proof (append_words_twice 0 ins) as H.
  apply (N.div_unique _ _ _ 0); lia.
Qed.

(** [h'] is [h] with [ins] appended behind the [k] inputs of node [i]. *)
Record appended (h h' : Graph) (i : NodeId) (nd : Node) (ins : list N) : Prop := {
  ap_ok : graph_ok h';
  ap_len : vlen (nodes_ h') = vlen (nodes_ h);
  ap_node : exists off, vget (nodes_ h') i =
    Some (nd_with_slice nd off (nd_numInputs nd + vlen ins));
  ap_other : forall m, m <> i -> vget (nodes_ h') m = vget (nodes_ h) m;
  ap_input : forall m s, input h' m s =
    if (m =? i) && (nd_numInputs nd <=? s)
    then default kInvalidNodeId (vget ins (s - nd_numInputs nd)) else input h m s;
  ap_pool : vlen (edgePool_ h') = vlen (edgePool_ h) + append_words (nd_numInputs nd) ins;
  ap_side : side h' = side h
}.

Lemma nd_with_slice_twice nd a b c d :
  nd_with_slice (nd_with_slice nd a b) c d = nd_with_slice nd c d.
Proof. done. Qed.

Lemma nd_with_slice_self nd : nd_with_slice nd (nd_edgeOffset nd) (nd_numInputs nd) = nd.
Proof. by destruct nd. Qed.

Lemma replay_inputs_spec h i nd ins :
  graph_ok h -> vget (nodes_ h) i = Some nd ->
  fits16 (nd_numInputs nd + vlen ins) ->
  vlen (edgePool_ h) + append_words (nd_numInputs nd) ins < 4294967296 ->
  appended h (replay_inputs h i ins) i nd ins.
Proof.
  revert h nd. induction ins as [|v ins IH]; intros h nd Hh Hnd Hfit Hpool.
  { simpl. split; try done.
    - exists (nd_edgeOffset nd). rewrite N.add_0_r. by rewrite nd_with_slice_self.
    - intros m s. destruct (N.eqb_spec m i) as [->|]; [|done]. simpl.
      destruct (N.leb_spec (nd_numInputs nd) s) as [Hs|]; [|done].
      rewrite input_no_slot by (rewrite has_slot_iff; unfold numInputs;
        rewrite (node_Some _ _ _ Hnd); lia).
      rewrite (proj2 (vget_ge_None [] _)); [done|]. unfold vlen. simpl. lia.
    - simpl. lia. }
  assert (vlen (v :: ins) = vlen ins + 1) as Hlen by (unfold vlen; simpl; lia).
  cbn [append_words] in Hpool. rewrite Hlen in Hfit.
  assert (fits16 (nd_numInputs nd + 1)) as H1 by (unfold fits16 in *; lia).
  assert (vlen (edgePool_ h) + nd_numInputs nd + 1 < 4294967296) as H2 by lia.
  pose proof (appendInput_ok h i v nd Hh Hnd H1 H2) as Hok.
  pose proof (appendInput_nodes h i v nd Hh Hnd H1 H2) as Hnodes.
  pose proof (appendInput_input h i v nd Hh Hnd H1 H2) as Hinput.
  pose proof (appendInput_vlen_pool h i v nd Hh Hnd H1 H2) as Hvp.
  pose proof (appendInput_vlen_nodes h i v nd Hh Hnd H1 H2) as Hvn.
  pose proof (Hnodes i) as Hi. rewrite N.eqb_refl in Hi.
  destruct (IH (appendInput h i v) _ Hok Hi) as [A1 A2 [off A3] A4 A5 A6 A7].
  { simpl. unfold fits16 in *. lia. }
  { simpl. rewrite Hvp. lia. }
  simpl in A3, A5, A6. unfold replay_inputs in *. cbn [foldl]. split.
  - done.
  - by rewrite A2.
  - exists off. rewrite A3, Hlen. f_equal. unfold nd_with_slice. simpl. f_equal. lia.
  - intros m Hm. rewrite A4 by done. rewrite Hnodes. by destruct (N.eqb_spec m i).
  - intros m s. rewrite A5, Hinput. destruct (N.eqb_spec m i) as [->|Hm]; simpl.
    + destruct (N.leb_spec (nd_numInputs nd + 1) s), (N.leb_spec (nd_numInputs nd) s); try lia.
      * rewrite !vget_lookup. replace (N.to_nat (s - nd_numInputs nd)) with
          (S (N.to_nat (s - (nd_numInputs nd + 1)))) by lia. done.
      * assert (s = nd_numInputs nd) as -> by lia. rewrite decide_True by done.
        by rewrite N.sub_diag.
      * rewrite decide_False by lia. done.
    + rewrite decide_False by naive_solver. done.
  - rewrite A6, Hvp. cbn [append_words]. lia.
  - rewrite A7. apply appendInput_side.
Qed.

Section Pass2.
Context (g : Graph) (Hg : serializable g).
Let n := vlen (nodes_ g).

Definition pool_prefix (j : N) : N :=
  foldl (fun acc nd => acc + replay_words (nd_numInputs nd)) 0 (take (N.to_nat j) (nodes_ g)).

Lemma foldl_words_mono l acc :
  acc <= foldl (fun acc nd => acc + replay_words (nd_numInputs nd)) acc l.
Proof.
  revert acc. induction l as [|nd l IH]; intros acc; simpl; [lia|].
  specialize (IH (acc + replay_words (nd_numInputs nd))). lia.
Qed.

Lemma pool_prefix_bound j : pool_prefix j <= replay_pool g.
Proof.
  unfold pool_prefix, replay_pool.
  rewrite <- (take_drop (N.to_nat j) (nodes_ g)) at 2. rewrite foldl_app.
  apply foldl_words_mono.
Qed.

Lemma pool_prefix_succ j nd :
  vget (nodes_ g) j = Some nd ->
  pool_prefix (j + 1) = pool_prefix j + replay_words (nd_numInputs nd).
Proof.
  intros Hj. rewrite vget_lookup in Hj. unfold pool_prefix.
  replace (N.to_nat (j + 1)) with (S (N.to_nat j)) by lia.
  rewrite (take_S_r _ _ nd) by done. by rewrite foldl_app.
Qed.

(** After the inputs of the first [j] nodes. *)
Record replayed (j : N) (h : Graph) : Prop := {
  rp_ok : graph_ok h;
  rp_len : vlen (nodes_ h) = n;
  rp_node : forall m nd, vget (nodes_ g) m = Some nd ->
    exists hd, vget (nodes_ h) m = Some hd /\
      node_view hd = if m <? j then node_view nd else skel_node nd;
  rp_input : forall m s, m < j -> input h m s = input g m s;
  rp_pool : vlen (edgePool_ h) = pool_prefix j;
  rp_side : side h = side newGraph
}.

Lemma vget_skel m : vget (nodes_ (skel g n)) m = skel_node <$> vget (nodes_ g) m.
Proof.
  unfold skel. simpl. rewrite firstn_all2 by (unfold n, vlen; lia). apply vget_fmap.
Qed.

Lemma skel_ok : graph_ok (skel g n).
Proof.
  assert (forall m, numInputs (skel g n) m = 0) as Hnum.
  { intros m. unfold numInputs, node. rewrite vget_skel. by destruct (vget (nodes_ g) m). }
  assert (vlen (nodes_ (skel g n)) = n) as Hlen by (apply vlen_skel_nodes; unfold n; lia).
  assert (forall d, usesOf (skel g n) d = []) as Huses.
  { intros d. unfold usesOf. rewrite vget_lookup. simpl.
    destruct (replicate (N.to_nat n) [] !! N.to_nat d) as [l|] eqn:E; [|done].
    by apply lookup_replicate in E as [-> _]. }
  split; split.
  - rewrite Hlen. simpl. unfold vlen at 1. rewrite length_replicate. lia.
  - rewrite Hlen. apply (sz_storage g Hg).
  - simpl. unfold vlen. simpl. lia.
  - intros m nd. rewrite vget_skel. intros (nd0 & _ & ->)%fmap_Some_1. simpl. lia.
  - intros m1 m2 d1 d2 _. rewrite !vget_skel.
    intros (e1 & _ & ->)%fmap_Some_1 (e2 & _ & ->)%fmap_Some_1. simpl. lia.
  - intros d u Hu. rewrite Huses in Hu. by apply not_elem_of_nil in Hu.
  - intros m s Hs. apply has_slot_iff in Hs. rewrite Hnum in Hs. lia.
  - intros d. rewrite Huses. constructor.
Qed.

Lemma replayed_start : replayed 0 (skel g n).
Proof.
  split.
  - apply skel_ok.
  - apply vlen_skel_nodes. unfold n. lia.
  - intros m nd Hm. rewrite vget_skel, Hm. exists (skel_node nd). split; [done|].
    by destruct (N.ltb_spec m 0); [lia|].
  - intros m s Hm. lia.
  - done.
  - done.
Qed.

Lemma node_view_skel nd :
  nd_reserved nd = 0 -> nd_with_slice (skel_node nd) 0 (nd_numInputs nd) = node_view nd.
Proof. destruct nd. simpl. by intros ->. Qed.

Lemma vget_inputs m s :
  default kInvalidNodeId (vget (inputs g m) s) = input g m s.
Proof.
  unfold inputs. rewrite vget_fmap. destruct (N.lt_ge_cases s (numInputs g m)) as [Hs|Hs].
  - assert (vget (indices (numInputs g m)) s = Some s) as ->; [|done].
    rewrite vget_lookup. unfold indices. rewrite list_lookup_fmap, lookup_seq_lt by lia.
    simpl. by rewrite N2Nat.id.
  - rewrite (proj2 (vget_ge_None (indices _) s)).
    + simpl. rewrite input_no_slot; [done|]. rewrite has_slot_iff. lia.
    + unfold vlen. rewrite length_indices. lia.
Qed.

Lemma replayed_step j h :
  j < n -> replayed j h -> replayed (j + 1) (replay_inputs h j (inputs g j)).
Proof.
  intros Hj [Hok Hlen Hnode Hinput Hpool Hside].
  pose proof Hj as [nd Hnd]%vget_lt_is_Some.
  destruct (Hnode j nd Hnd) as (hd & Hhd & Hview).
  destruct (N.ltb_spec j j) as [|_]; [lia|].
  pose proof (node_typed_at g Hg j nd Hnd) as Hty.
  assert (nd_numInputs hd = 0) as Hnum by (by apply (f_equal nd_numInputs) in Hview).
  assert (vlen (inputs g j) = nd_numInputs nd) as Hins.
  { rewrite vlen_inputs. unfold numInputs. by rewrite (node_Some _ _ _ Hnd). }
  pose proof (pool_prefix_succ j nd Hnd) as Hsucc.
  pose proof (pool_prefix_bound (j + 1)) as Hbound. pose proof (sz_pool g Hg).
  destruct (replay_inputs_spec h j hd (inputs g j)) as [A1 A2 [off A3] A4 A5 A6 A7]; try done.
  { rewrite Hnum, Hins. apply Hty. }
  { rewrite Hpool, Hnum, append_words_0, Hins. lia. }
  rewrite Hnum, Hins in *. split; try done.
  - by rewrite A2.
  - intros m md Hm. destruct (decide (m = j)) as [->|Hne].
    + eexists. split; [exact A3|]. simplify_eq.
      destruct (N.ltb_spec j (j + 1)); [|lia].
      rewrite <- (node_view_skel nd), <- Hview by apply Hty. done.
    + rewrite A4 by done. destruct (Hnode m md Hm) as (hm & Hhm & Hv).
      exists hm. split; [done|]. rewrite Hv.
      destruct (N.ltb_spec m j), (N.ltb_spec m (j + 1)); try done; lia.
  - intros m s Hm. rewrite A5. destruct (N.eqb_spec m j) as [->|Hne]; simpl.
    + destruct (N.leb_spec 0 s); [|lia]. rewrite N.sub_0_r. apply vget_inputs.
    + apply Hinput. lia.
  - rewrite A6, Hpool, append_words_0, Hins. lia.
  - by rewrite A7.
Qed.

Lemma zip_fmap_r {A B} (f : A -> B) l : zip l (f <$> l) = (fun x => (x, f x)) <$> l.
Proof. induction l as [|x l IH]; [done|]. apply (f_equal (cons (x, f x))), IH. Qed.

Lemma pass2 : replayed n (replay_edges (skel g n) n (inputs g <$> indices n)).
Proof.
  unfold replay_edges. rewrite zip_fmap_r.
  assert (forall j, j <= n -> replayed j (foldl (fun g p => replay_inputs g (fst p) (snd p))
    (skel g n) ((fun x => (x, inputs g x)) <$> indices j))) as H; [|by apply H].
  induction j as [|j IH] using N.peano_ind; intros Hj.
  { apply replayed_start. }
  rewrite <- N.add_1_r, indices_S, fmap_app, foldl_app. apply replayed_step; [cbn [fst]; lia|].
  apply IH. lia.
Qed.

End Pass2.

(** ** The side tables *)

Lemma graph_eta g :
  g = mkGraph (nodes_ g) (edgePool_ g) (uses_ g) (fsDesc_ g) (fsVobjs_ g) (specMetas_ g)
        (deps_ g) (replacements_ g) (epoch_ g) (start_ g).
Proof. by destruct g. Qed.

Section Tables.
Context (g : Graph) (Hg : serializable g).
Context (h0 : Graph) (Hside : side h0 = side newGraph).

Definition replay_vobjs (k : N) : list NodeId := concat (frameStateVobjs g <$> indices k).

Definition replay_desc (i : N) : FrameStateDesc :=
  let d := frameState g i in
  mkFrameStateDesc (fs_method d) (fs_pc d) (fs_caller d)
    (vlen (replay_vobjs i)) (vlen (frameStateVobjs g i)).

(** [h0] with the first entries of each table. *)
Definition tables (fs spec dep : N) : Graph :=
  mkGraph (nodes_ h0) (edgePool_ h0) (uses_ h0) (replay_desc <$> indices fs)
    (replay_vobjs fs) (take (N.to_nat spec) (specMetas_ g))
    (take (N.to_nat dep) (deps_ g)) [] 0 0.

Lemma tables_start : h0 = tables 0 0 0.
Proof.
  unfold side in Hside. injection Hside as H1 H2 H3 H4 H5 H6 H7.
  rewrite (graph_eta h0) at 1. unfold tables. by rewrite H1, H2, H3, H4, H5, H6, H7.
Qed.

Lemma desc_at i d :
  vget (fsDesc_ g) i = Some d ->
  frameState g i = d /\ desc_typed d /\ vlen (frameStateVobjs g i) = fs_vobjCount d /\
  Forall fits32 (frameStateVobjs g i).
Proof.
  intros Hd. pose proof (frameStateVobjs_Some g i d (sz_fs g Hg) Hd) as Hv.
  pose proof (fo_range g (sz_fs g Hg) i d Hd) as Hr. unfold fs_slice_end in Hr.
  split_and!.
  - unfold frameState. by rewrite Hd.
  - pose proof (sz_descs g Hg) as H. rewrite Forall_forall in H. apply H.
    rewrite vget_lookup in Hd. by eapply list_elem_of_lookup_2.
  - rewrite Hv. unfold slice, vlen in *. rewrite length_take, length_drop. lia.
  - rewrite Hv. unfold slice. apply Forall_take, Forall_drop, Hg.
Qed.

Lemma replay_vobjs_succ k : replay_vobjs (k + 1) = replay_vobjs k ++ frameStateVobjs g k.
Proof.
  unfold replay_vobjs. rewrite indices_S, fmap_app, concat_app. simpl. by rewrite app_nil_r.
Qed.

Lemma vlen_replay_vobjs k :
  k <= vlen (fsDesc_ g) ->
  vlen (replay_vobjs k) =
  foldl (fun acc d => acc + fs_vobjCount d) 0 (take (N.to_nat k) (fsDesc_ g)).
Proof.
  induction k as [|k IH] using N.peano_ind; intros Hk; [done|].
  rewrite <- N.add_1_r, replay_vobjs_succ, vlen_app, IH by lia.
  assert (k < vlen (fsDesc_ g)) as [d Hd]%vget_lt_is_Some by lia.
  destruct (desc_at k d Hd) as (_ & _ & -> & _). rewrite vget_lookup in Hd.
  replace (N.to_nat (k + 1)) with (S (N.to_nat k)) by lia.
  by rewrite (take_S_r _ _ d), foldl_app by done.
Qed.

Lemma foldl_count_mono (l : list FrameStateDesc) acc :
  acc <= foldl (fun acc d => acc + fs_vobjCount d) acc l.
Proof.
  revert acc. induction l as [|d l IH]; intros acc; simpl; [lia|].
  specialize (IH (acc + fs_vobjCount d)). lia.
Qed.

Lemma replay_vobjs_bound k : k <= vlen (fsDesc_ g) -> vlen (replay_vobjs k) < 4294967295.
Proof.
  intros Hk. rewrite vlen_replay_vobjs by done. pose proof (sz_vobj_total g Hg) as Ht.
  unfold vobj_total in Ht. rewrite <- (take_drop (N.to_nat k) (fsDesc_ g)), foldl_app in Ht.
  eapply N.le_lt_trans; [apply foldl_count_mono|exact Ht].
Qed.

Lemma parse_framestate_step i rest :
  i < vlen (fsDesc_ g) ->
  parse_framestate i (tables i 0 0) (put_framestate g i ++ rest) =
  inr (tables (i + 1) 0 0, rest).
Proof.
  intros Hi. pose proof Hi as [d Hd]%vget_lt_is_Some.
  destruct (desc_at i d Hd) as (Hf & (H1 & H2 & H3) & Hlen & Hfit).
  pose proof (replay_vobjs_bound (i + 1) ltac:(lia)) as Hb.
  rewrite replay_vobjs_succ, vlen_app in Hb.
  assert (fits32 (vlen (frameStateVobjs g i))) as Hl by (unfold fits32; lia).
  unfold parse_framestate, put_framestate. cbv zeta. rewrite Hf, <- !app_assoc.
  rewrite (u32_small (vlen (frameStateVobjs g i))) by done.
  do 4 (rewrite pbind_read by done).
  rewrite (pbind_inr _ _ _ (frameStateVobjs g i) rest) by (by apply read_words_put).
  unfold replayFrameStateDesc, addFrameStateDesc, tables. cbn [fsDesc_ fsVobjs_ set_framestates].
  rewrite (u32_small (vlen (frameStateVobjs g i))), (u32_small (vlen (replay_vobjs i)))
    by (unfold fits32; lia).
  rewrite vlen_app. change (vlen [_]) with 1.
  assert (vlen (replay_desc <$> indices i) = i) as Hdl.
  { unfold vlen. rewrite length_fmap, length_indices. lia. }
  rewrite Hdl, N.add_sub.
  rewrite u32_small by (pose proof (fo_descs g (sz_fs g Hg)); unfold fits32 in *; lia).
  rewrite N.eqb_refl. cbn [negb]. unfold pret, set_framestates. simpl. do 3 f_equal.
  - rewrite indices_S, fmap_app. simpl. unfold replay_desc at 3. by rewrite Hf.
  - by rewrite replay_vobjs_succ.
Qed.

Lemma spec_codes sm :
  fits32 (SpecMeta.kind_code (SpecMeta.sm_kind sm)) /\
  fits32 (SpecMeta.source_code (SpecMeta.sm_source sm)) /\
  fits32 (SpecMeta.rollback_code (SpecMeta.sm_rollback sm)) /\
  (SpecMeta.kind_code SpecMeta.StaticProofCarried <? SpecMeta.kind_code (SpecMeta.sm_kind sm))
    || (SpecMeta.source_code SpecMeta.Assumption <? SpecMeta.source_code (SpecMeta.sm_source sm))
    || (SpecMeta.rollback_code SpecMeta.Compensated
        <? SpecMeta.rollback_code (SpecMeta.sm_rollback sm)) = false /\
  SpecMeta.mkSpecMeta
    (SpecMeta.kind_of_code (SpecMeta.kind_code (SpecMeta.sm_kind sm)))
    (SpecMeta.source_of_code (SpecMeta.source_code (SpecMeta.sm_source sm)))
    (SpecMeta.sm_confidence sm) (SpecMeta.sm_guard sm) (SpecMeta.sm_deoptTarget sm)
    (SpecMeta.sm_cost sm) (SpecMeta.sm_dependency sm)
    (SpecMeta.rollback_of_code (SpecMeta.rollback_code (SpecMeta.sm_rollback sm))) = sm.
Proof. destruct sm as [k s c gd dt co dp r]. by destruct k, s, r. Qed.

Lemma take_succ {A} (l : list A) i x :
  vget l i = Some x -> take (N.to_nat (i + 1)) l = take (N.to_nat i) l ++ [x].
Proof.
  intros Hx. rewrite vget_lookup in Hx.
  replace (N.to_nat (i + 1)) with (S (N.to_nat i)) by lia. by apply take_S_r.
Qed.

Lemma vlen_take_snoc {A} (l : list A) i x :
  i < vlen l -> fits32 (vlen l) -> u32 (vlen (take (N.to_nat i) l ++ [x]) - 1) = i.
Proof.
  intros Hi Hl. unfold fits32, vlen in *. rewrite length_app, length_take. simpl.
  rewrite u32_small by (unfold fits32; lia). lia.
Qed.

Lemma parse_specmeta_step fs i rest :
  i < vlen (specMetas_ g) ->
  parse_specmeta i (tables fs i 0) (put_specmeta g i ++ rest) =
  inr (tables fs (i + 1) 0, rest).
Proof.
  intros Hi. pose proof Hi as [sm Hsm]%vget_lt_is_Some.
  assert (spec_typed sm) as (H1 & H2 & H3 & H4 & H5).
  { pose proof (sz_spec g Hg) as H. rewrite Forall_forall in H. apply H.
    rewrite vget_lookup in Hsm. by eapply list_elem_of_lookup_2. }
  destruct (spec_codes sm) as (C1 & C2 & C3 & C4 & C5).
  unfold parse_specmeta, put_specmeta, specMeta. cbv zeta. rewrite Hsm. cbn [default from_option id].
  rewrite <- !app_assoc.
  do 8 (rewrite pbind_read by done). rewrite C4, C5. unfold addSpecMeta.
  cbn [tables specMetas_]. rewrite vlen_take_snoc, N.eqb_refl by (done || apply Hg).
  unfold tables. by rewrite (take_succ _ i sm).
Qed.

Lemma parse_dependency_step fs sp i rest :
  i < vlen (deps_ g) ->
  parse_dependency i (tables fs sp i) (put_dependency g i ++ rest) =
  inr (tables fs sp (i + 1), rest).
Proof.
  intros Hi. pose proof Hi as [d Hd]%vget_lt_is_Some.
  assert (fits32 (Dependency.dep_target d)) as H1.
  { pose proof (sz_dep g Hg) as H. rewrite Forall_forall in H. apply H.
    rewrite vget_lookup in Hd. by eapply list_elem_of_lookup_2. }
  assert (fits32 (Dependency.code (Dependency.dep_kind d)) /\
    (Dependency.code Dependency.StaticProof <? Dependency.code (Dependency.dep_kind d)) = false /\
    Dependency.mkDependency (Dependency.of_code (Dependency.code (Dependency.dep_kind d)))
      (Dependency.dep_target d) = d) as (C1 & C2 & C3).
  { destruct d as [k t]. by destruct k. }
  unfold parse_dependency, put_dependency, dependency. cbv zeta. rewrite Hd.
  cbn [default from_option id]. rewrite <- !app_assoc.
  do 2 (rewrite pbind_read by done). rewrite C2, C3. unfold addDependency.
  cbn [tables deps_]. rewrite vlen_take_snoc, N.eqb_refl by (done || apply Hg).
  unfold tables. by rewrite (take_succ _ i d).
Qed.

Definition replay_log (h : Graph) (log : list Replacement) : Graph :=
  foldl (fun h r => replayReplacement h (rp_oldNode r) (rp_newNode r) (rp_epoch r)) h log.

Lemma parse_replacement_step h i r rest :
  vget (replacements_ g) i = Some r ->
  parse_replacement (vlen (nodes_ g)) i (replay_log h (take (N.to_nat i) (replacements_ g)))
    (put_replacement r ++ rest) =
  inr (replay_log h (take (N.to_nat (i + 1)) (replacements_ g)), rest).
Proof.
  intros Hr. assert (log_typed (vlen (nodes_ g)) r) as (H1 & H2 & H3).
  { pose proof (sz_log g Hg) as H. rewrite Forall_forall in H. apply H.
    rewrite vget_lookup in Hr. by eapply list_elem_of_lookup_2. }
  pose proof (so_nodes g (sz_storage g Hg)) as Hn.
  unfold parse_replacement, put_replacement. cbv zeta. rewrite <- !app_assoc.
  do 3 (rewrite pbind_read by (done || (unfold fits32 in *; lia))).
  destruct (N.leb_spec (vlen (nodes_ g)) (rp_oldNode r)); [lia|].
  destruct (N.leb_spec (vlen (nodes_ g)) (rp_newNode r)); [lia|].
  cbn [orb]. unfold replay_log. rewrite (take_succ _ i r), foldl_app by done. done.
Qed.

Lemma fs_table rest :
  pfor (indices (vlen (fsDesc_ g))) parse_framestate h0
    (concat (put_framestate g <$> indices (vlen (fsDesc_ g))) ++ rest) =
  inr (tables (vlen (fsDesc_ g)) 0 0, rest).
Proof.
  rewrite tables_start at 1. apply (pfor_records _ _ (fun i => tables i 0 0)).
  intros i r Hi. by apply parse_framestate_step.
Qed.

Lemma spec_table fs rest :
  pfor (indices (vlen (specMetas_ g))) parse_specmeta (tables fs 0 0)
    (concat (put_specmeta g <$> indices (vlen (specMetas_ g))) ++ rest) =
  inr (tables fs (vlen (specMetas_ g)) 0, rest).
Proof.
  apply (pfor_records _ _ (fun i => tables fs i 0)).
  intros i r Hi. by apply parse_specmeta_step.
Qed.

Lemma dep_table fs sp rest :
  pfor (indices (vlen (deps_ g))) parse_dependency (tables fs sp 0)
    (concat (put_dependency g <$> indices (vlen (deps_ g))) ++ rest) =
  inr (tables fs sp (vlen (deps_ g)), rest).
Proof.
  apply (pfor_records _ _ (fun i => tables fs sp i)).
  intros i r Hi. by apply parse_dependency_step.
Qed.

Lemma log_table h rest :
  pfor (indices (vlen (replacements_ g))) (parse_replacement (vlen (nodes_ g))) h
    (concat (put_replacement <$> replacements_ g) ++ rest) =
  inr (replay_log h (replacements_ g), rest).
Proof.
  rewrite (fmap_indices (mkReplacement 0 0 0)).
  pose proof (pfor_records (parse_replacement (vlen (nodes_ g)))
    (fun i => put_replacement (default (mkReplacement 0 0 0) (vget (replacements_ g) i)))
    (fun i => replay_log h (take (N.to_nat i) (replacements_ g)))
    (vlen (replacements_ g)) rest) as H.
  assert (take (N.to_nat (vlen (replacements_ g))) (replacements_ g) = replacements_ g) as E
    by (unfold vlen; by rewrite Nat2N.id, firstn_all).
  cbn beta in H. rewrite E in H. apply H.
  intros i r Hi. pose proof Hi as [x Hx]%vget_lt_is_Some. rewrite Hx.
  cbn [default from_option id]. by apply parse_replacement_step.
Qed.

Lemma replay_vobjs_prefix i k :
  i <= k -> exists r, replay_vobjs k = replay_vobjs i ++ r.
Proof.
  intros Hi. induction k as [|k IH] using N.peano_ind.
  - exists []. replace i with 0 by lia. by rewrite app_nil_r.
  - destruct (N.eq_dec i (N.succ k)) as [->|]; [exists []; by rewrite app_nil_r|].
    destruct IH as [r Hr]; [lia|].
    rewrite <- N.add_1_r, replay_vobjs_succ, Hr. exists (r ++ frameStateVobjs g k).
    by rewrite app_assoc.
Qed.

(** Reading a FrameState back from the replayed tables. *)
Lemma tables_fs_view i h' :
  i < vlen (fsDesc_ g) ->
  fsDesc_ h' = replay_desc <$> indices (vlen (fsDesc_ g)) ->
  fsVobjs_ h' = replay_vobjs (vlen (fsDesc_ g)) ->
  fs_view h' i = fs_view g i.
Proof.
  intros Hi Hd Hv.
  assert (vget (fsDesc_ h') i = Some (replay_desc i)) as Hat.
  { rewrite Hd, vget_fmap, vget_lookup. unfold indices.
    rewrite list_lookup_fmap, lookup_seq_lt by lia. simpl. by rewrite N2Nat.id. }
  unfold fs_view, frameState at 1 2 3, frameStateVobjs at 1. rewrite Hat. cbn [default from_option id].
  pose proof (replay_vobjs_bound (vlen (fsDesc_ g)) ltac:(lia)) as Hb.
  destruct (replay_vobjs_prefix (i + 1) (vlen (fsDesc_ g)) ltac:(lia)) as [r Hr].
  rewrite replay_vobjs_succ in Hr. rewrite Hv. unfold replay_desc. cbn.
  rewrite Hr, !vlen_app in *. rewrite u32_small by (unfold fits32; lia).
  destruct (N.leb_spec (vlen (replay_vobjs i) + vlen (frameStateVobjs g i))
    (vlen (replay_vobjs i) + vlen (frameStateVobjs g i) + vlen r)); [|lia].
  f_equal. unfold slice, vlen. rewrite !Nat2N.id, <- app_assoc, drop_app_length.
  by rewrite take_app_length.
Qed.

End Tables.

(** ** The replacement log *)

Lemma tombstone_keeps e : keeps_slice (tombstone e).
Proof. by intros nd. Qed.

Lemma replay_tag_view n log nd : node_view (replay_tag n log nd) = replay_tag n log (node_view nd).
Proof.
  unfold replay_tag. revert nd. induction log as [|r log IH]; intros nd; [done|].
  simpl. rewrite IH. by destruct (rp_oldNode r =? n).
Qed.

(** The epoch counter after the replay. *)
Definition last_epoch (log : list Replacement) (e : N) : N :=
  foldl (fun e r => N.max e (rp_epoch r)) e log.

Record relogged (h h' : Graph) (log : list Replacement) : Prop := {
  rl_ok : graph_ok h -> graph_ok h';
  rl_node : forall m, vget (nodes_ h') m = replay_tag m log <$> vget (nodes_ h) m;
  rl_input : forall m s, input h' m s = input h m s;
  rl_log : replacements_ h' = replacements_ h ++ log;
  rl_epoch : epoch_ h' = last_epoch log (epoch_ h);
  rl_side : (fsDesc_ h', fsVobjs_ h', specMetas_ h', deps_ h', start_ h') =
            (fsDesc_ h, fsVobjs_ h, specMetas_ h, deps_ h, start_ h)
}.

Lemma replayReplacement_spec h r :
  rp_oldNode r < vlen (nodes_ h) ->
  relogged h (replayReplacement h (rp_oldNode r) (rp_newNode r) (rp_epoch r)) [r].
Proof.
  intros Hr. unfold replayReplacement.
  destruct (N.leb_spec (vlen (nodes_ h)) (rp_oldNode r)); [lia|].
  set (u := update_node h (rp_oldNode r) (tombstone (rp_epoch r))).
  set (l := set_log u (replacements_ u ++ [mkReplacement (rp_oldNode r) (rp_newNode r) (rp_epoch r)])).
  set (h' := if epoch_ l <? rp_epoch r then set_epoch l (rp_epoch r) else l).
  assert (same_edges u h') as Hse by (unfold h'; by destruct (epoch_ l <? rp_epoch r)).
  assert (epoch_ u = epoch_ h /\ replacements_ u = replacements_ h /\
    (fsDesc_ u, fsVobjs_ u, specMetas_ u, deps_ u, start_ u) =
    (fsDesc_ h, fsVobjs_ h, specMetas_ h, deps_ h, start_ h)) as (He & Hl & Hs).
  { unfold u, update_node. by destruct (vget _ _). }
  split.
  - intros Hok. eapply same_edges_ok; [exact Hse|]. apply update_node_ok; [|done].
    apply tombstone_keeps.
  - intros m. destruct Hse as (-> & _). unfold u. rewrite update_node_vget.
    unfold replay_tag. cbn [foldl]. destruct (vget (nodes_ h) m) as [x|]; [|by case_decide].
    cbn. destruct (decide (m = rp_oldNode r)), (N.eqb_spec (rp_oldNode r) m); congruence.
  - intros m s. transitivity (input u m s); [|apply update_node_input, tombstone_keeps].
    destruct Hse as (H1 & H2 & _). unfold input, pool_at, node. by rewrite H1, H2.
  - rewrite <- Hl. unfold h'. destruct r. by destruct (epoch_ l <? _).
  - unfold last_epoch. simpl. rewrite <- He. unfold h'. change (epoch_ l) with (epoch_ u).
    destruct (N.ltb_spec (epoch_ u) (rp_epoch r)); simpl; lia.
  - rewrite <- Hs. unfold h'. by destruct (epoch_ l <? _).
Qed.

Lemma replay_log_spec h log :
  Forall (log_typed (vlen (nodes_ h))) log -> relogged h (replay_log h log) log.
Proof.
  revert h. induction log as [|r log IH]; intros h Hlog.
  { unfold replay_log. cbn [foldl]. split; try done; [|by rewrite app_nil_r].
    intros m. by destruct (vget (nodes_ h) m). }
  inversion_clear Hlog as [|?? (Hr & _ & _) Hlog'].
  destruct (replayReplacement_spec h r Hr) as [A1 A2 A3 A4 A5 A6].
  set (h1 := replayReplacement _ _ _ _) in *.
  assert (vlen (nodes_ h1) = vlen (nodes_ h)) as Hlen.
  { apply N.le_antisymm; apply N.le_ngt; intros Hlt.
    - apply vget_lt_is_Some in Hlt as [x Hx]. rewrite A2 in Hx.
      apply fmap_Some_1 in Hx as (y & Hy & _). apply vget_Some_lt in Hy. lia.
    - pose proof (proj1 (vget_lt_is_Some _ _) Hlt) as [x Hx].
      assert (is_Some (vget (nodes_ h1) (vlen (nodes_ h1)))) as Hs by (rewrite A2, Hx; by eexists).
      apply vget_lt_is_Some in Hs. lia. }
  destruct (IH h1) as [B1 B2 B3 B4 B5 B6]; [by rewrite Hlen|].
  change (replay_log h (r :: log)) with (replay_log h1 log). split.
  - auto.
  - intros m. rewrite B2, A2. by destruct (vget (nodes_ h) m).
  - intros m s. by rewrite B3, A3.
  - rewrite B4, A4, <- app_assoc. done.
  - rewrite B5, A5. done.
  - by rewrite B6, A6.
Qed.

(** ** Assembly *)

Section Roundtrip.
Context (g : Graph) (Hg : serializable g).
Let n := vlen (nodes_ g).

(** The graph the replay builds. *)
Definition replayed_graph : Graph :=
  let h0 := replay_edges (skel g n) n (inputs g <$> indices n) in
  replay_log (tables g h0 (vlen (fsDesc_ g)) (vlen (specMetas_ g)) (vlen (deps_ g)))
    (replacements_ g).

Lemma parse_header_ok rest :
  parse_header (putU32 kIrMagic ++ putU32 kIrFormatVersion ++ rest) = inr (tt, rest).
Proof. unfold parse_header. by do 2 (rewrite pbind_read by done). Qed.

Lemma counts_ok :
  nodeCount g = n /\ frameStateCount g = vlen (fsDesc_ g) /\
  specMetaCount g = vlen (specMetas_ g) /\ dependencyCount g = vlen (deps_ g) /\
  u32 (vlen (replacements_ g)) = vlen (replacements_ g).
Proof.
  unfold nodeCount, frameStateCount, specMetaCount, dependencyCount.
  rewrite !u32_small; [done|..]; apply Hg || apply (sz_storage g Hg) || apply (sz_fs g Hg).
Qed.

Lemma parse_serialize rest :
  parse_graph newGraph (serialize g ++ rest) = inr (replayed_graph, rest).
Proof.
  destruct counts_ok as (C1 & C2 & C3 & C4 & C5).
  pose proof (rp_side g n _ (pass2 g Hg)) as Hside. fold n in Hside.
  unfold parse_graph, serialize. rewrite C1, C2, C3, C4, C5, <- !app_assoc.
  rewrite (pbind_inr _ _ _ _ _ (parse_header_ok _)).
  rewrite pbind_read by apply (sz_storage g Hg).
  rewrite (pbind_inr _ _ _ _ _ (pass1 g Hg _)). cbn [fst snd].
  set (h0 := replay_edges _ _ _) in *.
  rewrite pbind_read by apply (sz_fs g Hg).
  rewrite (pbind_inr _ _ _ _ _ (fs_table g Hg h0 Hside _)).
  rewrite pbind_read by apply Hg.
  rewrite (pbind_inr _ _ _ _ _ (spec_table g Hg h0 _ _)).
  rewrite pbind_read by apply Hg.
  rewrite (pbind_inr _ _ _ _ _ (dep_table g Hg h0 _ _ _)).
  rewrite pbind_read by apply Hg.
  apply log_table, Hg.
Qed.

Lemma replayed_graph_spec :
  graph_equiv g replayed_graph /\ graph_ok replayed_graph /\
  epoch_ replayed_graph = last_epoch (replacements_ g) 0.
Proof.
  destruct (pass2 g Hg) as [Hok Hlen Hnode Hinput Hpool Hside]. fold n in Hok, Hlen, Hnode, Hinput, Hpool, Hside.
  unfold replayed_graph. set (h0 := replay_edges _ _ _) in *.
  set (h1 := tables _ _ _ _ _).
  assert (same_edges h0 h1) as Hse by done.
  destruct (replay_log_spec h1 (replacements_ g)) as [A1 A2 A3 A4 A5 A6].
  { change (vlen (nodes_ h1)) with (vlen (nodes_ h0)). rewrite Hlen. apply Hg. }
  split_and!; [|by apply A1, (same_edges_ok h0)|done].
  injection A6 as F1 F2 F3 F4 F5. split.
  - apply list_eq. intros i. rewrite !list_lookup_fmap.
    pose proof (A2 (N.of_nat i)) as Hi. rewrite !vget_lookup, Nat2N.id in Hi. rewrite Hi.
    change (nodes_ h1) with (nodes_ h0).
    destruct (nodes_ g !! i) as [nd|] eqn:E.
    + assert (vget (nodes_ g) (N.of_nat i) = Some nd) as Hnd by (by rewrite vget_lookup, Nat2N.id).
      destruct (Hnode (N.of_nat i) nd Hnd) as (hd & Hhd & Hview).
      rewrite vget_lookup, Nat2N.id in Hhd. rewrite Hhd. cbn. f_equal.
      rewrite replay_tag_view, Hview.
      destruct (N.ltb_spec (N.of_nat i) n) as [_|Hge].
      * rewrite <- replay_tag_view, (sz_tags g Hg _ nd Hnd). done.
      * apply vget_Some_lt in Hnd. unfold n in Hge. lia.
    + apply lookup_ge_None in E. rewrite (proj2 (lookup_ge_None (nodes_ h0) i)); [done|].
      unfold n, vlen in Hlen. lia.
  - intros m s. rewrite A3. transitivity (input h0 m s); [|done].
    destruct (N.lt_ge_cases m n) as [Hm|Hm]; [by rewrite Hinput|].
    rewrite !input_no_slot; [done|..]; intros [Hs _]; unfold n in Hm, Hlen; lia.
  - rewrite F1. unfold h1, tables, vlen. simpl. rewrite length_fmap, length_indices. lia.
  - intros i Hi. symmetry. by apply (tables_fs_view g Hg).
  - rewrite F3. unfold h1, tables, vlen. simpl. by rewrite Nat2N.id, firstn_all.
  - rewrite F4. unfold h1, tables, vlen. simpl. by rewrite Nat2N.id, firstn_all.
  - by rewrite A4.
  - rewrite F5. apply Hg.
Qed.

End Roundtrip.

(** ** The reader is local *)

Ltac solve_local :=
  repeat first
    [ apply local_pret | apply local_pfail | apply local_cursor | apply local_read_words
    | apply local_pfor; intros | apply local_pbind; [|intros ?] | apply local_if
    | apply _
    | match goal with |- Local (let '(_, _) := ?p in _) => destruct p end ].

#[export] Instance local_parse_header : Local parse_header.
Proof. unfold parse_header. solve_local. Qed.
#[export] Instance local_parse_node i st : Local (parse_node i st).
Proof. destruct st as [g pending]. unfold parse_node. cbv zeta. solve_local. Qed.
#[export] Instance local_parse_framestate i g : Local (parse_framestate i g).
Proof. unfold parse_framestate. cbv zeta. solve_local. Qed.
#[export] Instance local_parse_specmeta i g : Local (parse_specmeta i g).
Proof. unfold parse_specmeta. cbv zeta. solve_local. Qed.
#[export] Instance local_parse_dependency i g : Local (parse_dependency i g).
Proof. unfold parse_dependency. cbv zeta. solve_local. Qed.
#[export] Instance local_parse_replacement n i g : Local (parse_replacement n i g).
Proof. unfold parse_replacement. cbv zeta. solve_local. Qed.
#[export] Instance local_parse_graph g : Local (parse_graph g).
Proof. unfold parse_graph. cbv zeta. solve_local. Qed.

(** ** Theorems *)

(** C3: for every graph that fits the format, whatever the verifier accepts:
    replaying its bytes into a fresh graph succeeds up to the load gate, the
    rebuilt graph has the same nodes, inputs, FrameStates, side tables and log,
    exact use lists, and serializes to the very same bytes; its epoch counter is
    the largest epoch of the replacement log. *)
Theorem serialize_roundtrip verify g :
  serializable g ->
  exists g', graph_equiv g g' /\ graph_ok g' /\ serialize g' = serialize g /\
    epoch_ g' = last_epoch (replacements_ g) 0 /\
    deserializeInto verify (serialize g) newGraph =
      if verify g' then inr g' else inl "replayed graph failed verification"%string.
Proof.
  intros Hg. destruct (replayed_graph_spec g Hg) as (He & Hok & Hep).
  exists (replayed_graph g). split_and!; try done.
  - symmetry. by apply serialize_proper.
  - unfold deserializeInto. pose proof (parse_serialize g Hg []) as Hp.
    rewrite app_nil_r in Hp. by rewrite Hp.
Qed.

(** The reader rejects every proper prefix of an artifact, and ignores
    bytes that follow a complete one. *)
Theorem truncated_rejected verify g p q :
  serializable g -> serialize g = p ++ q ->
  (q <> [] -> exists msg, deserializeInto verify p newGraph = inl msg) /\
  (forall junk, deserializeInto verify (serialize g ++ junk) newGraph =
                deserializeInto verify (serialize g) newGraph).
Proof.
  intros Hg Hpq. pose proof (parse_serialize g Hg) as Hfull. split.
  - intros Hq. unfold deserializeInto.
    destruct (parse_graph newGraph p) as [msg|[g' r]] eqn:E; [by exists msg|].
    exfalso. apply (local _ _ _ q) in E. specialize (Hfull []).
    rewrite app_nil_r, Hpq, E in Hfull. injection Hfull as _ Hr.
    apply app_eq_nil in Hr as [_ ->]. done.
  - intros junk. unfold deserializeInto. rewrite (Hfull junk).
    specialize (Hfull []). rewrite app_nil_r in Hfull. by rewrite Hfull.
Qed.

Lemma vget_forall {A} (P : N -> A -> Prop) (l : list A) :
  Forall (fun p => P (fst p) (snd p)) (zip (indices (vlen l)) l) ->
  forall i x, vget l i = Some x -> P i x.
Proof.
  intros H i x Hx. rewrite Forall_forall in H. apply (H (i, x)).
  apply elem_of_zip_indices; [done|]. split; [|done]. by eapply vget_Some_lt.
Qed.

(** The example graph of [GraphReplace], with one replaced node. *)
Lemma g_example_serializable : serializable g_example.
Proof.
  split.
  - apply (reachable_ok g_example g_example_reachable).
  - assert (nodes_ g_example = ltac:(let x := eval vm_compute in (nodes_ g_example) in exact x))
      as -> by (vm_compute; reflexivity).
    repeat constructor; vm_compute; congruence.
  - apply (bool_decide_eq_true_1 _). vm_compute. reflexivity.
  - eexists. vm_compute. split_and!; reflexivity.
  - reflexivity.
  - split; try (vm_compute; reflexivity);
      intros i; [|intros j]; intros d; [|intros e _]; intros Hd; by destruct i.
  - constructor.
  - constructor.
  - reflexivity.
  - reflexivity.
  - constructor.
  - reflexivity.
  - constructor.
  - reflexivity.
  - assert (replacements_ g_example = [mkReplacement 1 2 1]) as -> by (vm_compute; reflexivity).
    constructor; [|constructor]. split_and!; vm_compute; reflexivity.
  - unfold log_consistent. apply vget_forall.
    match goal with |- Forall _ ?l => let x := eval vm_compute in l in
      assert (l = x) as -> by (vm_compute; reflexivity) end.
    repeat (constructor; [vm_compute; reflexivity|]). constructor.
  - vm_compute. reflexivity.
Qed.

Lemma serialize_roundtrip_witness :
  exists g', graph_equiv g_example g' /\ graph_ok g' /\
    deserializeInto (fun _ => true) (serialize g_example) newGraph = inr g'.
Proof.
  destruct (serialize_roundtrip (fun _ => true) g_example g_example_serializable)
    as (g' & He & Hok & _ & _ & Hd).
  exists g'. split; [exact He|]. split; [exact Hok|exact Hd].
Defined.

Lemma truncated_rejected_witness :
  exists msg, deserializeInto (fun _ => true) (take 20 (serialize g_example)) newGraph = inl msg.
Proof.
  apply (truncated_rejected (fun _ => true) g_example (take 20 (serialize g_example))
           (drop 20 (serialize g_example))).
  - apply g_example_serializable.
  - symmetry. apply take_drop.
  - vm_compute. discriminate.
Defined.

(** A node replaced and then killed: [killNode] moves the tombstone to a later
    epoch than the log entry says. *)
Definition g_rekilled : Graph := killNode g_example 1.

(** Replay does not preserve a graph in which a replaced node was killed
    afterwards: the log replay overwrites the node's serialized epoch with the
    older epoch of its log entry, so the rebuilt graph, accepted by a verifier
    that looks at no epochs, serializes to different bytes. *)
Theorem rekilled_node_not_preserved :
  reachable g_rekilled /\ ~ log_consistent g_rekilled /\
  exists g', deserializeInto (fun _ => true) (serialize g_rekilled) newGraph = inr g' /\
    nd_epoch (node g' 1) <> nd_epoch (node g_rekilled 1) /\
    serialize g' <> serialize g_rekilled.
Proof.
  split_and!.
  - eapply rtc_r; [apply g_example_reachable|]. apply step_killNode.
  - intros H. specialize (H 1 (node g_rekilled 1) ltac:(vm_compute; reflexivity)).
    vm_compute in H. discriminate H.
  - destruct (deserializeInto (fun _ => true) (serialize g_rekilled) newGraph)
      as [msg|g'] eqn:E; [vm_compute in E; discriminate E|].
    exists g'. split; [done|].
    assert (inr g' = deserializeInto (fun _ => true) (serialize g_rekilled) newGraph) as E'
      by (by rewrite E).
    vm_compute in E'. injection E' as ->. split; vm_compute; discriminate.
Qed.
