(* ===== verification/ResultType.v ===== *)
(** * Result types

    [resultTypeOf] of compiler/ir/core/Printer.cpp: the type of the value a node
    produces. The C++ function recurses through Phi and BitCast inputs without a
    bound; here each call costs one unit of fuel and [None] is a recursion that
    did not return. *)

From S2P Require Import Prelude IRTypes Effect NodeInfo SmallVector Graph GraphInv.

Local Open Scope N_scope.

(** The slots [1 .. num - 1]. *)
Definition value_slots (num : N) : list N := drop 1 (indices num).

Fixpoint resultTypeOf (fuel : nat) (g : Graph) (n : NodeId) : option IRType :=
  match fuel with
  | O => None
  | S fuel' =>
      let nd := node g n in
      match nd_kind nd with
      | NodeKind.Start | NodeKind.End | NodeKind.Region | NodeKind.If
      | NodeKind.IfTrue | NodeKind.IfFalse | NodeKind.Switch | NodeKind.SwitchCase
      | NodeKind.SwitchDefault | NodeKind.LoopBegin | NodeKind.LoopEnd
      | NodeKind.LoopExit | NodeKind.Return | NodeKind.Unwind | NodeKind.Deopt
      | NodeKind.StoreField | NodeKind.StoreStatic | NodeKind.StoreElem
      | NodeKind.MemBar | NodeKind.MonitorEnter | NodeKind.MonitorExit
      | NodeKind.ClassInit | NodeKind.Guard | NodeKind.RepTransitionGuard
      | NodeKind.VectorStore | NodeKind.FrameState => Some IRType.Bottom
      | NodeKind.LoadField | NodeKind.LoadStatic | NodeKind.UnboxPrimitive =>
          Some (castIRType (nd_payload2 nd))
      | NodeKind.LoadElem => Some (castIRType (nd_payload nd))
      | NodeKind.ArrayLength | NodeKind.InstanceOf => Some IRType.Int
      | NodeKind.New | NodeKind.NewArray | NodeKind.NewRefArray
      | NodeKind.NewMultiArray | NodeKind.ConstantSym | NodeKind.CheckCast
      | NodeKind.Materialize | NodeKind.CompressedRefDecode
      | NodeKind.BoxPrimitive | NodeKind.VirtualObjectState => Some IRType.Ref
      | NodeKind.CompressedRefEncode => Some IRType.Int
      | NodeKind.CallStatic | NodeKind.CallVirtual | NodeKind.CallInterface
      | NodeKind.CallDynamic => Some (castIRType (nd_payload2 nd))
      | NodeKind.CallExcept | NodeKind.LoadException => Some IRType.Ref
      | NodeKind.ConstantI => Some IRType.Int
      | NodeKind.ConstantL => Some IRType.Long
      | NodeKind.ConstantF => Some IRType.Float
      | NodeKind.ConstantD => Some IRType.Double
      | NodeKind.ConstantNull => Some IRType.Null
      | NodeKind.Parameter_ => Some (castIRType (nd_payload2 nd))
      | NodeKind.AddI | NodeKind.SubI | NodeKind.MulI | NodeKind.DivI
      | NodeKind.RemI | NodeKind.NegI | NodeKind.ShlI | NodeKind.ShrI
      | NodeKind.UShrI | NodeKind.AndI | NodeKind.OrI | NodeKind.XorI
      | NodeKind.CmpI | NodeKind.I2B | NodeKind.I2C | NodeKind.I2S
      | NodeKind.Truncate | NodeKind.Not | NodeKind.IsNull | NodeKind.RefEq
      | NodeKind.EqI | NodeKind.NeI | NodeKind.LtI | NodeKind.LeI
      | NodeKind.GtI | NodeKind.GeI | NodeKind.CmpL | NodeKind.CmpFl
      | NodeKind.CmpFg | NodeKind.CmpDl | NodeKind.CmpDg => Some IRType.Int
      | NodeKind.AddL | NodeKind.SubL | NodeKind.MulL | NodeKind.DivL
      | NodeKind.RemL | NodeKind.NegL | NodeKind.ShlL | NodeKind.ShrL
      | NodeKind.UShrL | NodeKind.AndL | NodeKind.OrL | NodeKind.XorL
      | NodeKind.SignExtend | NodeKind.ZeroExtend => Some IRType.Long
      | NodeKind.AddF | NodeKind.SubF | NodeKind.MulF | NodeKind.DivF
      | NodeKind.RemF | NodeKind.NegF => Some IRType.Float
      | NodeKind.AddD | NodeKind.SubD | NodeKind.MulD | NodeKind.DivD
      | NodeKind.RemD | NodeKind.NegD => Some IRType.Double
      | NodeKind.I2D | NodeKind.L2D | NodeKind.F2D => Some IRType.Double
      | NodeKind.I2F | NodeKind.L2F | NodeKind.D2F => Some IRType.Float
      | NodeKind.L2I | NodeKind.F2I | NodeKind.D2I => Some IRType.Int
      | NodeKind.I2L | NodeKind.F2L | NodeKind.D2L => Some IRType.Long
      | NodeKind.BitCast =>
          if 1 <=? nd_numInputs nd then
            match resultTypeOf fuel' g (input g n 0) with
            | None => None
            | Some t => if bool_decide (t <> IRType.Bottom) then Some t else Some IRType.Bottom
            end
          else Some IRType.Bottom
      | NodeKind.Phi =>
          snd <$> foldl (fun acc s =>
              match acc, resultTypeOf fuel' g (input g n s) with
              | Some (seen, t), Some v => Some (true, if seen : bool then join t v else v)
              | _, _ => None
              end) (Some (false, IRType.Bottom)) (value_slots (nd_numInputs nd))
      | NodeKind.VectorBroadcast | NodeKind.VectorPack =>
          Some (vectorOfLane (castIRType (nd_payload nd)))
      | NodeKind.VectorOp | NodeKind.VectorMaskOp | NodeKind.VectorInsert
      | NodeKind.VectorLoad => Some (vectorOfLane (unpackVecLane (nd_payload2 nd)))
      | NodeKind.VectorExtract | NodeKind.VectorReduce =>
          Some (unpackVecLane (nd_payload2 nd))
      | NodeKind.TagValue => Some IRType.Tagged
      | NodeKind.UntagValue =>
          Some match castValueRep (nd_payload2 nd) with
               | ValueRep.UnboxedInt32 | ValueRep.TaggedInt31 => IRType.Int
               | ValueRep.UnboxedInt64 => IRType.Long
               | ValueRep.UnboxedFloat32 => IRType.Float
               | ValueRep.UnboxedFloat64 => IRType.Double
               | _ => IRType.Ref
               end
      | NodeKind.Undef | NodeKind._Count => Some IRType.Bottom
      end
  end.

(** ** Termination *)

(** The recursive calls of [n]. *)
Definition type_calls (g : Graph) (n : NodeId) : list NodeId :=
  match nd_kind (node g n) with
  | NodeKind.BitCast => if 1 <=? numInputs g n then [input g n 0] else []
  | NodeKind.Phi => (fun s => input g n s) <$> value_slots (numInputs g n)
  | _ => []
  end.

Lemma elem_of_value_slots num s : s ∈ value_slots num <-> 1 <= s < num.
Proof.
  unfold value_slots, indices. rewrite <- fmap_drop, drop_seq.
  rewrite list_elem_of_fmap. setoid_rewrite elem_of_seq. split.
  - intros (k & -> & Hk). lia.
  - intros Hs. exists (N.to_nat s). lia.
Qed.

Lemma phi_fold_Some (f : N -> option IRType) l acc :
  is_Some (foldl (fun (acc : option (bool * IRType)) s =>
      match acc, f s with
      | Some (seen, t), Some v => Some (true, if seen : bool then join t v else v)
      | _, _ => None
      end) acc l) <->
  is_Some acc /\ forall s, s ∈ l -> is_Some (f s).
Proof.
  revert acc. induction l as [|s l IH]; intros acc; cbn [foldl].
  { split; [|tauto]. intros H. split; [done|]. by intros s ?%not_elem_of_nil. }
  rewrite IH. setoid_rewrite elem_of_cons. split.
  - intros [Ha Hl]. destruct acc as [[seen t]|], (f s) eqn:E; try by destruct Ha.
    split; [done|]. intros s' [->|Hs']; [by rewrite E|by apply Hl].
  - intros [[[seen t] ->] Hl]. destruct (Hl s) as [v ->]; [by left|].
    split; [by eexists|]. intros s' Hs'. apply Hl. by right.
Qed.

(** A call returns exactly when all its recursive calls do. *)
Lemma resultTypeOf_Some fuel g n :
  is_Some (resultTypeOf (S fuel) g n) <->
  forall m, m ∈ type_calls g n -> is_Some (resultTypeOf fuel g m).
Proof.
  unfold type_calls, numInputs. cbn [resultTypeOf].
  destruct (nd_kind (node g n)) eqn:Hk;
    try (split; [intros _ m ?%not_elem_of_nil; done|intros _; by eexists]).
  - destruct (1 <=? nd_numInputs (node g n)).
    + setoid_rewrite list_elem_of_singleton. split.
      * intros H m ->. by destruct (resultTypeOf fuel g (input g n 0)); [eexists|destruct H].
      * intros H. destruct (H _ eq_refl) as [t ->]. case_bool_decide; by eexists.
    + split; [intros _ m ?%not_elem_of_nil; done|intros _; by eexists].
  - rewrite fmap_is_Some, phi_fold_Some. setoid_rewrite list_elem_of_fmap. split.
    + intros [_ H] m (s & -> & Hs). by apply H.
    + intros H. split; [by eexists|]. intros s Hs. apply H. by exists s.
Qed.

Lemma phi_fold_mono (f f' : N -> option IRType) l acc r :
  (forall s v, f s = Some v -> f' s = Some v) ->
  foldl (fun (acc : option (bool * IRType)) s =>
      match acc, f s with
      | Some (seen, t), Some v => Some (true, if seen : bool then join t v else v)
      | _, _ => None
      end) acc l = Some r ->
  foldl (fun (acc : option (bool * IRType)) s =>
      match acc, f' s with
      | Some (seen, t), Some v => Some (true, if seen : bool then join t v else v)
      | _, _ => None
      end) acc l = Some r.
Proof.
  intros Hf. revert acc. induction l as [|s l IH]; intros acc; cbn [foldl]; [done|].
  intros H. apply IH. rewrite <- H. f_equal.
  assert (is_Some (match acc, f s with
    | Some (seen, t), Some v => Some (true, if seen : bool then join t v else v)
    | _, _ => None end)) as [x Hx].
  { apply (phi_fold_Some f l). by rewrite H. }
  destruct acc as [[seen t]|]; [|done]. destruct (f s) eqn:E; [|done].
  by rewrite (Hf _ _ E).
Qed.

(** More fuel never changes a result. *)
Lemma resultTypeOf_mono fuel fuel' g n t :
  (fuel <= fuel')%nat -> resultTypeOf fuel g n = Some t -> resultTypeOf fuel' g n = Some t.
Proof.
  revert fuel' n t. induction fuel as [|fuel IH]; intros [|fuel'] n t Hle; try done; [lia|].
  assert (forall m v, resultTypeOf fuel g m = Some v -> resultTypeOf fuel' g m = Some v) as IH'.
  { intros m v. apply IH. lia. }
  cbn [resultTypeOf]. destruct (nd_kind (node g n)); try done.
  - destruct (1 <=? nd_numInputs (node g n)); [|done].
    destruct (resultTypeOf fuel g (input g n 0)) eqn:E; [|done]. by rewrite (IH' _ _ E).
  - intros (r & Hr & ->)%fmap_Some_1.
    erewrite phi_fold_mono; [done| |exact Hr]. intros s v. apply IH'.
Qed.

(** [m] is a recursive call of [n]. *)
Definition calls (g : Graph) (m n : NodeId) : Prop := m ∈ type_calls g n.

Lemma enough_fuel g (l : list NodeId) :
  (forall m, m ∈ l -> exists fuel t, resultTypeOf fuel g m = Some t) ->
  exists fuel, forall m, m ∈ l -> is_Some (resultTypeOf fuel g m).
Proof.
  induction l as [|m l IHl]; intros H.
  - exists O. by intros m ?%not_elem_of_nil.
  - destruct IHl as [f1 H1]; [intros m' Hm'; apply H; by right|].
    destruct (H m) as (f2 & t & H2); [by left|].
    exists (Nat.max f1 f2). intros m' [->|Hm']%elem_of_cons.
    + exists t. eapply resultTypeOf_mono; [|exact H2]. lia.
    + destruct (H1 m' Hm') as [v Hv]. exists v. eapply resultTypeOf_mono; [|exact Hv]. lia.
Qed.

Lemma acc_returns g n : Acc (calls g) n -> exists fuel t, resultTypeOf fuel g n = Some t.
Proof.
  induction 1 as [n _ IH]. destruct (enough_fuel g (type_calls g n)) as [fuel Hf].
  { intros m Hm. by apply IH. }
  apply resultTypeOf_Some in Hf as [t Ht]. by exists (S fuel), t.
Qed.

(** Enough fuel for all nodes of a list at once. *)
Lemma common_fuel g (l : list NodeId) :
  (forall m, m ∈ l -> Acc (calls g) m) ->
  exists fuel, forall m, m ∈ l -> is_Some (resultTypeOf fuel g m).
Proof. intros H. apply enough_fuel. intros m Hm. by apply acc_returns, H. Qed.

(** The recursion of [resultTypeOf] returns on a node exactly when no
    infinite path of Phi value inputs and BitCast inputs starts there. *)
Theorem resultTypeOf_terminates g n :
  (exists fuel t, resultTypeOf fuel g n = Some t) <-> Acc (calls g) n.
Proof.
  split.
  - intros (fuel & t & H). revert n t H. induction fuel as [|fuel IH]; intros n t H; [done|].
    constructor. intros m Hm.
    assert (is_Some (resultTypeOf (S fuel) g n)) as Hs by (by rewrite H).
    rewrite resultTypeOf_Some in Hs. destruct (Hs m Hm) as [v Hv]. by eapply IH.
  - apply acc_returns.
Qed.

(** On a Phi with a value input that is the Phi itself, the form the
    verifier documents as legal (the loop-invariant marker), [resultTypeOf]
    never returns. *)
Theorem resultTypeOf_self_phi_diverges g p s fuel :
  nd_kind (node g p) = NodeKind.Phi -> 1 <= s < numInputs g p -> input g p s = p ->
  resultTypeOf fuel g p = None.
Proof.
  intros Hk Hs Hin. induction fuel as [|fuel IH]; [done|].
  apply eq_None_not_Some. rewrite resultTypeOf_Some. intros H.
  destruct (H p) as [t Ht]; [|congruence].
  unfold type_calls. rewrite Hk. apply list_elem_of_fmap. exists s.
  split; [done|]. by apply elem_of_value_slots.
Qed.

(** [LoopBegin; Phi(LoopBegin, p, phi)]. *)
Definition self_phi_graph : Graph :=
  let '(p, g) := parameter newGraph 0 IRType.Int in
  let '(l, g) := make g NodeKind.LoopBegin [0; 0] 0 0 in
  let '(phi, g) := make g NodeKind.Phi [l; p] 0 0 in
  appendInput g phi phi.

Lemma resultTypeOf_self_phi_diverges_witness : resultTypeOf 1000 self_phi_graph 3 = None.
Proof.
  apply (resultTypeOf_self_phi_diverges self_phi_graph 3 2).
  - vm_compute. reflexivity.
  - split; vm_compute; [discriminate|reflexivity].
  - vm_compute. reflexivity.
Defined.
