(* ===== verification/Verifier.v ===== *)
(** * The graph verifier

    compiler/ir/core/Verifier.cpp. A check returns the diagnostics it emits, in
    order; [None] is a type query that did not return (see [ResultType]).
    Diagnostics never influence the control flow, so [verify] concatenates what
    the passes emit and keeps the first [kMaxDiags], as the capped [diag] does.
    [fuel] only bounds [resultTypeOf]; every walk of the verifier itself runs on
    the bound the source gives it. *)

From stdpp Require Import pretty.
From S2P Require Import Prelude IRTypes Effect NodeInfo SmallVector Graph GraphInv ResultType.

Local Open Scope N_scope.

Definition kMaxDiags : N := 100.

Abbreviation VerifyDiag := (NodeId * string)%type.

(** What a check emits. *)
Abbreviation chk := (option (list VerifyDiag)).

Definition ok : chk := Some [].
Definition diag (n : NodeId) (msg : string) : chk := Some [(n, msg)].
Definition seqc (a b : chk) : chk :=
  match a, b with Some x, Some y => Some (x ++ y) | _, _ => None end.
Definition when (b : bool) (c : chk) : chk := if b then c else ok.
Definition each {A} (l : list A) (f : A -> chk) : chk :=
  foldr (fun x rest => seqc (f x) rest) ok l.

Notation "a ;;; b" := (seqc a b) (at level 98, right associativity) : b2_scope.
Local Open Scope b2_scope.

Definition validId (g : Graph) (n : NodeId) : bool :=
  negb (n =? kInvalidNodeId) && (n <? nodeCount g).

Definition kind_of (g : Graph) (n : NodeId) : NodeKind := nd_kind (node g n).

(** ** Classification *)

Definition producesControl (k : NodeKind) : bool :=
  match k with
  | NodeKind.Start | NodeKind.Region | NodeKind.IfTrue | NodeKind.IfFalse
  | NodeKind.SwitchCase | NodeKind.SwitchDefault | NodeKind.LoopBegin
  | NodeKind.LoopEnd | NodeKind.LoopExit | NodeKind.CallStatic
  | NodeKind.CallVirtual | NodeKind.CallInterface | NodeKind.CallDynamic
  | NodeKind.CallExcept | NodeKind.LoadException
  | NodeKind.If | NodeKind.Switch | NodeKind.LoadField | NodeKind.StoreField
  | NodeKind.LoadStatic | NodeKind.StoreStatic | NodeKind.LoadElem
  | NodeKind.StoreElem | NodeKind.MemBar | NodeKind.MonitorEnter
  | NodeKind.MonitorExit | NodeKind.New | NodeKind.NewArray
  | NodeKind.NewRefArray | NodeKind.NewMultiArray | NodeKind.ClassInit
  | NodeKind.CheckCast | NodeKind.Guard | NodeKind.RepTransitionGuard
  | NodeKind.Materialize | NodeKind.VectorLoad | NodeKind.VectorStore => true
  | _ => false
  end.

Definition producesMemoryState (k : NodeKind) : bool :=
  match k with
  | NodeKind.Start | NodeKind.StoreField | NodeKind.StoreStatic
  | NodeKind.StoreElem | NodeKind.MemBar | NodeKind.MonitorEnter
  | NodeKind.MonitorExit | NodeKind.New | NodeKind.NewArray
  | NodeKind.NewRefArray | NodeKind.NewMultiArray | NodeKind.ClassInit
  | NodeKind.CallStatic | NodeKind.CallVirtual | NodeKind.CallInterface
  | NodeKind.CallDynamic | NodeKind.Materialize | NodeKind.VectorStore => true
  | NodeKind.Phi => true
  | _ => false
  end.

(** [memoryPhiOffender(phi, depth)] and [memoryChainOffender(cur, depth)]: the
    remaining depth [g.nodeCount() + 1 - depth] is the structural argument, so
    the depth test that reports the Phi itself is the [O] case. *)
Fixpoint memoryPhiOffender (g : Graph) (phi : NodeId) (budget : nat) : NodeId :=
  match budget with
  | O => phi
  | S budget' =>
      foldr (fun s rest =>
          let inp := input g phi s in
          if inp =? phi then rest
          else
            let off :=
              if negb (validId g inp) then kInvalidNodeId
              else if kind_eqb (kind_of g inp) NodeKind.Phi
              then memoryPhiOffender g inp budget'
              else if producesMemoryState (kind_of g inp) then kInvalidNodeId else inp in
            if negb (off =? kInvalidNodeId) then off else rest)
        kInvalidNodeId (value_slots (numInputs g phi))
  end.

(** The call with depth 0. *)
Definition memoryPhiOffender0 (g : Graph) (phi : NodeId) : NodeId :=
  memoryPhiOffender g phi (N.to_nat (nodeCount g) + 2).

Definition isTerminal (k : NodeKind) : bool :=
  match k with
  | NodeKind.Return | NodeKind.Unwind | NodeKind.Deopt | NodeKind.End => true
  | _ => false
  end.

Definition isCallKind (k : NodeKind) : bool :=
  match k with
  | NodeKind.CallStatic | NodeKind.CallVirtual | NodeKind.CallInterface
  | NodeKind.CallDynamic => true
  | _ => false
  end.

(** ** Operand types *)

Definition laneCarrier (lane : IRType) : IRType :=
  match lane with
  | IRType.Int8 | IRType.Int16 | IRType.Int => IRType.Int
  | IRType.Long => IRType.Long
  | IRType.Float => IRType.Float
  | IRType.Double => IRType.Double
  | _ => IRType.Bottom
  end.

Definition checkOperandType (fuel : nat) (g : Graph) (n operand : NodeId) (want : IRType)
    (what : string) : chk :=
  if negb (validId g operand) then ok
  else
    match resultTypeOf fuel g operand with
    | None => None
    | Some got =>
        when (negb (isAssignable got want))
          (diag n (what +:+ ": operand n" +:+ pretty operand +:+ " has type " +:+
                   typeName got +:+ ", expected " +:+ typeName want))
    end.

Definition binaryOperandTypes (k : NodeKind) : option (IRType * IRType) :=
  match k with
  | NodeKind.AddI | NodeKind.SubI | NodeKind.MulI | NodeKind.DivI | NodeKind.RemI
  | NodeKind.ShlI | NodeKind.ShrI | NodeKind.UShrI | NodeKind.AndI | NodeKind.OrI
  | NodeKind.XorI | NodeKind.CmpI | NodeKind.EqI | NodeKind.NeI | NodeKind.LtI
  | NodeKind.LeI | NodeKind.GtI | NodeKind.GeI => Some (IRType.Int, IRType.Int)
  | NodeKind.RefEq => Some (IRType.Ref, IRType.Ref)
  | NodeKind.AddL | NodeKind.SubL | NodeKind.MulL | NodeKind.DivL | NodeKind.RemL
  | NodeKind.AndL | NodeKind.OrL | NodeKind.XorL | NodeKind.CmpL =>
      Some (IRType.Long, IRType.Long)
  | NodeKind.ShlL | NodeKind.ShrL | NodeKind.UShrL => Some (IRType.Long, IRType.Int)
  | NodeKind.AddF | NodeKind.SubF | NodeKind.MulF | NodeKind.DivF | NodeKind.RemF
  | NodeKind.CmpFl | NodeKind.CmpFg => Some (IRType.Float, IRType.Float)
  | NodeKind.AddD | NodeKind.SubD | NodeKind.MulD | NodeKind.DivD | NodeKind.RemD
  | NodeKind.CmpDl | NodeKind.CmpDg => Some (IRType.Double, IRType.Double)
  | _ => None
  end.

Definition unaryOperandType (k : NodeKind) : option IRType :=
  match k with
  | NodeKind.NegI | NodeKind.Not => Some IRType.Int
  | NodeKind.IsNull => Some IRType.Ref
  | NodeKind.NegL => Some IRType.Long
  | NodeKind.NegF => Some IRType.Float
  | NodeKind.NegD => Some IRType.Double
  | NodeKind.I2L | NodeKind.I2F | NodeKind.I2D | NodeKind.I2B | NodeKind.I2C
  | NodeKind.I2S | NodeKind.SignExtend | NodeKind.ZeroExtend => Some IRType.Int
  | NodeKind.L2I | NodeKind.L2F | NodeKind.L2D | NodeKind.Truncate => Some IRType.Long
  | NodeKind.F2I | NodeKind.F2L | NodeKind.F2D => Some IRType.Float
  | NodeKind.D2I | NodeKind.D2L | NodeKind.D2F => Some IRType.Double
  | _ => None
  end.

(** ** Pass 1: structure, roles, types *)

(** The structural check of slot [s]. *)
Definition checkSlot (g : Graph) (n : NodeId) (s : N) : chk :=
  let inp := input g n s in
  let slot := ("input slot " +:+ pretty s)%string in
  if negb (validId g inp) then diag n (slot +:+ ": dangling NodeId " +:+ pretty inp)
  else if (inp =? n) && negb (kind_eqb (kind_of g n) NodeKind.Phi && (1 <=? s))
  then diag n (slot +:+ ": self reference")
  else when (isDead (node g inp)) (diag n (slot +:+ ": n" +:+ pretty inp +:+ " is dead")).

Definition minInputs (row : NodeInfo) : N :=
  ni_numFixed row + (if ni_hasFrameState row then 1 else 0).

Definition checkShape (g : Graph) (n : NodeId) : chk :=
  let nd := node g n in
  let row := info (nd_kind nd) in
  let min := minInputs row in
  when (nd_numInputs nd <? min)
    (diag n (ni_name row +:+ ": expected at least " +:+ pretty min +:+
             " inputs, found " +:+ pretty (nd_numInputs nd))) ;;;
  when (negb (ni_variadic row) && negb (nd_numInputs nd =? min))
    (diag n (ni_name row +:+ ": expected exactly " +:+ pretty min +:+
             " inputs, found " +:+ pretty (nd_numInputs nd) +:+ " (kind is not variadic)")) ;;;
  when (ni_hasFrameState row && (min <=? nd_numInputs nd))
    (let fs := input g n (nd_numInputs nd - 1) in
     when (validId g fs && negb (kind_eqb (kind_of g fs) NodeKind.FrameState))
       (diag n "last input must be a FrameState (Rule 5)")).

(** The role the verifier gives slot [s]. *)
Definition roleOf (nd : Node) (s : N) : InputRole :=
  let row := info (nd_kind nd) in
  if s <? ni_numFixed row then role_at row s
  else if ni_hasFrameState row && (s + 1 =? nd_numInputs nd) then InputRole.FrameState
  else ni_variadicRole row.

Definition checkRole (g : Graph) (n : NodeId) (s : N) : chk :=
  let nd := node g n in
  let inp := input g n s in
  if negb (validId g inp) then ok
  else
    let prod := kind_of g inp in
    match roleOf nd s with
    | InputRole.Ctrl =>
        when (negb (producesControl prod))
          (diag n ("ctrl input slot " +:+ pretty s +:+ ": n" +:+ pretty inp +:+ " (" +:+
                   ni_name (info prod) +:+ ") does not produce control"))
    | InputRole.Mem =>
        if negb (producesMemoryState prod) then
          diag n ("mem input slot " +:+ pretty s +:+ ": n" +:+ pretty inp +:+ " (" +:+
                  ni_name (info prod) +:+ ") does not produce memory state")
        else when (kind_eqb prod NodeKind.Phi)
          (let off := memoryPhiOffender0 g inp in
           when (negb (off =? kInvalidNodeId))
             (diag n ("mem input slot " +:+ pretty s +:+ ": Phi n" +:+ pretty inp +:+
                      " has value input n" +:+ pretty off +:+ " (" +:+
                      ni_name (info (kind_of g off)) +:+
                      ") which does not produce memory state")))
    | InputRole.FrameState =>
        when (negb (kind_eqb prod NodeKind.FrameState))
          (diag n ("framestate input slot " +:+ pretty s +:+ ": n" +:+ pretty inp +:+
                   " is not a FrameState"))
    | InputRole.Parent | InputRole.Data | InputRole.None => ok
    end ;;;
    when (kind_eqb prod NodeKind.Undef && negb (kind_eqb (nd_kind nd) NodeKind.FrameState) &&
          negb (kind_eqb (nd_kind nd) NodeKind.Phi && (1 <=? s)))
      (diag n ("Undef may only feed a FrameState or a Phi value input; n" +:+ pretty n +:+
               " (" +:+ ni_name (info (nd_kind nd)) +:+ ") reads it at slot " +:+ pretty s)).

Definition checkMergeShapes (g : Graph) (n : NodeId) : chk :=
  let nd := node g n in
  match nd_kind nd with
  | NodeKind.Phi =>
      if nd_numInputs nd <? 1 then ok
      else
        let region := input g n 0 in
        if negb (validId g region) then ok
        else
          let r := node g region in
          if negb (kind_eqb (nd_kind r) NodeKind.Region) &&
             negb (kind_eqb (nd_kind r) NodeKind.LoopBegin)
          then diag n "Phi input 0 must be a Region or LoopBegin"
          else when (negb (nd_numInputs nd =? nd_numInputs r + 1))
                 (diag n ("Phi input count must be 1 + region predecessors (" +:+
                          pretty (nd_numInputs r) +:+ "), found " +:+
                          pretty (nd_numInputs nd - 1)))
  | NodeKind.Region =>
      when (nd_numInputs nd <? 2)
        (diag n "Region needs at least 2 predecessors at verification time")
  | NodeKind.LoopBegin =>
      when (nd_numInputs nd <? 2)
        (diag n "LoopBegin needs an entry and at least one backedge")
  | NodeKind.Return =>
      let values := if 0 <? nd_numInputs nd then nd_numInputs nd - 1 else 0 in
      when (1 <? values) (diag n "Return takes at most one value input")
  | _ => ok
  end.

Definition checkProjectionParent (g : Graph) (n : NodeId) : chk :=
  let nd := node g n in
  let p := input g n 0 in
  let parent := kind_of g p in
  let expect want :=
    when (negb (kind_eqb parent want))
      (diag n (ni_name (info (nd_kind nd)) +:+ " input must be a " +:+
               ni_name (info want) +:+ " node")) in
  if (nd_numInputs nd <? 1) || negb (validId g p) then ok
  else
    match nd_kind nd with
    | NodeKind.IfTrue | NodeKind.IfFalse => expect NodeKind.If
    | NodeKind.SwitchCase | NodeKind.SwitchDefault => expect NodeKind.Switch
    | NodeKind.CallExcept =>
        when (negb (isCallKind parent)) (diag n "CallExcept input must be a Call node")
    | _ => ok
    end.

Definition checkOperandTypes (fuel : nat) (g : Graph) (n : NodeId) : chk :=
  let nd := node g n in
  let num := nd_numInputs nd in
  let op s want what := checkOperandType fuel g n (input g n s) want what in
  match binaryOperandTypes (nd_kind nd) with
  | Some (a, b) =>
      when (2 <=? num) (op 0 a "binary operand a" ;;; op 1 b "binary operand b")
  | None =>
  match unaryOperandType (nd_kind nd) with
  | Some a => when (1 <=? num) (op 0 a "unary operand")
  | None =>
  match nd_kind nd with
  | NodeKind.If => when (2 <=? num) (op 1 IRType.Int "If condition")
  | NodeKind.Switch => when (2 <=? num) (op 1 IRType.Int "Switch selector")
  | NodeKind.Guard => when (2 <=? num) (op 1 IRType.Int "Guard condition")
  | NodeKind.Unwind => when (2 <=? num) (op 1 IRType.Ref "Unwind exception")
  | NodeKind.LoadField => when (3 <=? num) (op 2 IRType.Ref "LoadField object")
  | NodeKind.StoreField => when (4 <=? num) (op 2 IRType.Ref "StoreField object")
  | NodeKind.LoadElem =>
      when (4 <=? num) (op 2 IRType.Ref "LoadElem array" ;;; op 3 IRType.Int "LoadElem index")
  | NodeKind.StoreElem =>
      when (5 <=? num)
        (op 2 IRType.Ref "StoreElem array" ;;; op 3 IRType.Int "StoreElem index" ;;;
         op 4 (castIRType (nd_payload nd)) "StoreElem value")
  | NodeKind.ArrayLength => when (1 <=? num) (op 0 IRType.Ref "ArrayLength array")
  | NodeKind.MonitorEnter | NodeKind.MonitorExit =>
      when (3 <=? num) (op 2 IRType.Ref "monitor object")
  | NodeKind.NewArray | NodeKind.NewRefArray =>
      when (2 <=? num) (op 1 IRType.Int "array length")
  | NodeKind.NewMultiArray => each (value_slots num) (fun s => op s IRType.Int "array dimension")
  | NodeKind.CheckCast => when (2 <=? num) (op 1 IRType.Ref "CheckCast object")
  | NodeKind.InstanceOf => when (1 <=? num) (op 0 IRType.Ref "InstanceOf object")
  | NodeKind.CompressedRefEncode =>
      when (1 <=? num) (op 0 IRType.Ref "CompressedRefEncode reference")
  | NodeKind.CompressedRefDecode =>
      when (1 <=? num) (op 0 IRType.Int "CompressedRefDecode oop")
  | NodeKind.UntagValue => when (1 <=? num) (op 0 IRType.Tagged "UntagValue tagged value")
  | NodeKind.RepTransitionGuard =>
      when (2 <=? num) (op 1 IRType.Tagged "RepTransitionGuard value")
  | NodeKind.Materialize =>
      when (3 <=? num)
        (let v := input g n 2 in
         when (validId g v && negb (kind_eqb (kind_of g v) NodeKind.VirtualObjectState))
           (diag n "Materialize input 2 must be a VirtualObjectState"))
  | _ => ok
  end end end.

Definition checkKindPayloads (g : Graph) (n : NodeId) : chk :=
  let nd := node g n in
  match nd_kind nd with
  | NodeKind.Parameter_ =>
      when (negb (isScalarType (castIRType (nd_payload2 nd))))
        (diag n "Parameter type must be a scalar IRType")
  | NodeKind.LoadField | NodeKind.LoadStatic | NodeKind.UnboxPrimitive =>
      when (negb (isScalarType (castIRType (nd_payload2 nd))))
        (diag n "load result type must be a scalar IRType")
  | NodeKind.LoadElem | NodeKind.StoreElem | NodeKind.NewArray =>
      when (negb (isScalarType (castIRType (nd_payload nd))))
        (diag n "element type must be a scalar IRType")
  | NodeKind.MemBar =>
      when (MemBarKind.code MemBarKind.Release <? nd_payload nd)
        (diag n "MemBar kind out of range")
  | NodeKind.Guard =>
      when (GuardKind.code GuardKind.Deoptimize <? nd_payload nd)
        (diag n "Guard kind out of range")
  | NodeKind.VirtualObjectState =>
      when (1 <? nd_payload2 nd)
        (diag n "VirtualObjectState kind must be 0 (instance) or 1 (array)")
  | _ => ok
  end.

Definition checkNode (fuel : nat) (g : Graph) (n : NodeId) : chk :=
  let nd := node g n in
  when (negb (nd_reserved nd =? 0))
    (diag n "reserved field must be 0 (corrupt node record)") ;;;
  each (indices (nd_numInputs nd)) (checkSlot g n) ;;;
  checkShape g n ;;;
  each (indices (nd_numInputs nd)) (checkRole g n) ;;;
  when (isTerminal (nd_kind nd) && negb (bool_decide (usesOf g n = [])))
    (diag n "terminal node still has users") ;;;
  checkProjectionParent g n ;;;
  checkMergeShapes g n ;;;
  checkOperandTypes fuel g n ;;;
  checkKindPayloads g n.

(** ** Pass 2: memory chains *)

(** The first memory slot of the fixed prefix. *)
Definition memSlotOf (row : NodeInfo) : option N :=
  List.find (fun s => bool_decide (role_at row s = InputRole.Mem))
    (indices (N.min (ni_numFixed row) 6)).

(** [WalkFrame] *)
Abbreviation frame := (NodeId * N)%type.

(** The variables of one walk: the stack (its back is the head of the list),
    [onPath] and [doneStamp]. *)
Record walk_state := mkWalk {
  w_stack : list frame;
  w_onPath : list N;
  w_done : list N
}.

Definition vget0 (l : list N) (i : N) : N := default 0 (vget l i).

(** The children of a memory producer: a Phi's value inputs, or its memory input. *)
Definition mem_children (g : Graph) (n : NodeId) : N :=
  let c := node g n in
  if kind_eqb (nd_kind c) NodeKind.Phi then
    (if 1 <? nd_numInputs c then nd_numInputs c - 1 else 0)
  else match memSlotOf (info (nd_kind c)) with
       | Some s => if s <? nd_numInputs c then 1 else 0
       | None => 0
       end.

Definition mem_child (g : Graph) (n : NodeId) (i : N) : NodeId :=
  if kind_eqb (kind_of g n) NodeKind.Phi then input g n (i + 1)
  else match memSlotOf (info (kind_of g n)) with
       | Some s => input g n s
       | None => 0
       end.

(** Where an on-path child closes a loop at its header Phi. *)
Definition loop_header_phi (g : Graph) (child : NodeId) : bool :=
  let cn := node g child in
  kind_eqb (nd_kind cn) NodeKind.Phi && (1 <=? nd_numInputs cn) &&
  (let region := input g child 0 in
   validId g region && kind_eqb (kind_of g region) NodeKind.LoopBegin).

(** One iteration of the [while] loop: the new state, or the diagnostic it
    breaks with (and the state at the break). *)
Definition walk_step (g : Graph) (n gen : N) (top : frame) (rest : list frame)
    (onPath done : list N) : walk_state * option string :=
  let '(t, child) := top in
  let isPhi := kind_eqb (kind_of g t) NodeKind.Phi in
  if negb isPhi && negb (producesMemoryState (kind_of g t)) then
    (mkWalk (top :: rest) onPath done,
     Some ("memory chain passes through n" +:+ pretty t +:+ " (" +:+
           ni_name (info (kind_of g t)) +:+ ") which does not produce memory state")%string)
  else if mem_children g t <=? child then
    (mkWalk rest (vset onPath t 0) (vset done t gen), None)
  else
    let stack := (t, child + 1) :: rest in
    let c := mem_child g t child in
    let keep := (mkWalk stack onPath done, None) in
    if isPhi && (c =? t) then keep
    else if negb (validId g c) then keep
    else if c =? startNode g then keep
    else if vget0 onPath c =? gen then
      if loop_header_phi g c then keep
      else (mkWalk stack onPath done,
            Some ("memory chain cycle detected at n" +:+ pretty c)%string)
    else if vget0 done c =? gen then keep
    else (mkWalk ((c, 0) :: stack) (vset onPath c gen) done, None).

(** The loop, with [steps++ > maxSteps] as its first test. *)
Fixpoint walk (fuel : nat) (g : Graph) (n gen steps maxSteps : N) (st : walk_state)
    : option (list VerifyDiag * walk_state) :=
  match fuel with
  | O => None
  | S fuel' =>
      match w_stack st with
      | [] => Some ([], st)
      | top :: rest =>
          if maxSteps <? steps
          then Some ([(n, "memory chain walk exceeded graph size (cycle?)"%string)], st)
          else
            match walk_step g n gen top rest (w_onPath st) (w_done st) with
            | (st', Some msg) => Some ([(n, msg)], st')
            | (st', None) => walk fuel' g n gen (steps + 1) maxSteps st'
            end
      end
  end.

Definition maxMemSteps (g : Graph) : N := u32 (2 * nodeCount g + 2).

(** The body of the loop over the nodes; the state is [onPath], [doneStamp],
    [generation] and the diagnostics so far. *)
Definition check_chain (g : Graph) (acc : option (list N * list N * N * list VerifyDiag))
    (n : NodeId) : option (list N * list N * N * list VerifyDiag) :=
  match acc with
  | None => None
  | Some (onPath, done, gen, ds) =>
      let nd := node g n in
      if isDead nd || (nd_numInputs nd <? 1) then acc
      else
        match memSlotOf (info (nd_kind nd)) with
        | None => acc
        | Some s =>
            if nd_numInputs nd <=? s then acc
            else
              let gen := u32 (gen + 1) in
              let root := input g n s in
              let st := if validId g root then mkWalk [(root, 0)] (vset onPath root gen) done
                        else mkWalk [] onPath done in
              match walk (N.to_nat (maxMemSteps g) + 3) g n gen 0 (maxMemSteps g) st with
              | None => None
              | Some (new, st') =>
                  Some (foldl (fun p f => vset p (fst f) 0) (w_onPath st') (w_stack st'),
                        w_done st', gen, ds ++ new)
              end
        end
  end.

Definition checkMemoryChains (g : Graph) : chk :=
  let zeros := replicate (N.to_nat (nodeCount g)) 0 in
  match foldl (check_chain g) (Some (zeros, zeros, 0, [])) (indices (nodeCount g)) with
  | Some (_, _, _, ds) => Some ds
  | None => None
  end.

(** ** Pass 3: speculation and FrameStates *)

Definition checkSpeculation (g : Graph) (n : NodeId) : chk :=
  let nd := node g n in
  when (flags_has (nd_flags nd) NodeFlag.Speculative)
    (if nd_specMeta nd =? 0 then diag n "speculative node has no SpecMeta (Rule 122)"
     else
       let sm := specMeta g (nd_specMeta nd - 1) in
       let src := SpecMeta.source_code (SpecMeta.sm_source sm) in
       let pgo := SpecMeta.source_code SpecMeta.PGO in
       let assumption := SpecMeta.source_code SpecMeta.Assumption in
       let static := SpecMeta.source_code SpecMeta.Static in
       when (10000 <? SpecMeta.sm_confidence sm)
         (diag n "SpecMeta confidence exceeds 10000 basis points") ;;;
       when ((src =? pgo) || (src =? assumption))
         (when ((SpecMeta.sm_dependency sm =? kInvalidDependency) ||
                (dependencyCount g <=? SpecMeta.sm_dependency sm))
            (diag n "PGO/assumption speculation without a valid dependency (Rule 42)")) ;;;
       when (negb (src =? static) && (SpecMeta.sm_guard sm =? kInvalidNodeId))
         (diag n "non-static speculation has no guard plan (Rule 122)")) ;;;
  when (kind_eqb (nd_kind nd) NodeKind.RepTransitionGuard &&
        negb (flags_has (nd_flags nd) NodeFlag.Speculative))
    (diag n "RepTransitionGuard must be speculative (Part XVIII)").

Definition isLiveFrameState (g : Graph) (n : NodeId) : bool :=
  kind_eqb (kind_of g n) NodeKind.FrameState && negb (isDead (node g n)).

(** [descHasLiveFs[d]] *)
Definition descHasLiveFs (g : Graph) (d : N) : bool :=
  existsb (fun n => isLiveFrameState g n && (nd_payload (node g n) <? frameStateCount g) &&
                    (nd_payload (node g n) =? d))
    (indices (nodeCount g)).

(** The caller-chain loop of node [n]. *)
Fixpoint walk_callers (fuel : nat) (g : Graph) (n : NodeId) (steps cur : N) : chk :=
  match fuel with
  | O => None
  | S fuel' =>
      if cur =? kInvalidFrameState then ok
      else if u32 (frameStateCount g + 1) <? steps then diag n "FrameState caller chain cycle"
      else if frameStateCount g <=? cur then diag n "FrameState caller id out of range"
      else if negb (descHasLiveFs g cur)
      then diag n ("FrameState caller chain target " +:+ pretty cur +:+
                   " has no live snapshot node")
      else walk_callers fuel' g n (steps + 1) (fs_caller (frameState g cur))
  end.

Definition checkVobjEntry (g : Graph) (n v : NodeId) : chk :=
  if negb (validId g v) then diag n "FrameState vobj list contains a dangling id"
  else if negb (kind_eqb (kind_of g v) NodeKind.VirtualObjectState)
  then diag n "FrameState vobj entry is not a VirtualObjectState"
  else when (isDead (node g v)) (diag n "FrameState vobj entry is dead").

Definition checkFrameState (g : Graph) (n : NodeId) : chk :=
  let nd := node g n in
  if negb (isLiveFrameState g n) then ok
  else if frameStateCount g <=? nd_payload nd
  then diag n "FrameState descriptor id out of range"
  else
    walk_callers (N.to_nat (frameStateCount g) + 4) g n 0 (nd_payload nd) ;;;
    each (frameStateVobjs g (nd_payload nd)) (checkVobjEntry g n).

Definition checkFrameStates (g : Graph) : chk :=
  each (indices (nodeCount g)) (checkFrameState g).

(** ** Pass 4: materialization *)

Definition isVobj (g : Graph) (n : NodeId) : bool :=
  kind_eqb (kind_of g n) NodeKind.VirtualObjectState.

(** Depth-first search with colours 0, 1, 2; the recursion depth is at most the
    number of nodes. *)
Fixpoint hasVobjCycle (fuel : nat) (g : Graph) (n : NodeId) (color : list N)
    : option (list VerifyDiag * list N) :=
  match fuel with
  | O => None
  | S fuel' =>
      let visit acc s :=
        match acc with
        | None => None
        | Some (ds, color) =>
            let f := input g n s in
            if negb (validId g f) || negb (isVobj g f) then Some (ds, color)
            else if vget0 color f =? 1 then
              Some (ds ++ [(n, ("materialization graph cycle: vobj n" +:+ pretty f +:+
                               " participates in a cycle")%string)], color)
            else if vget0 color f =? 0 then
              match hasVobjCycle fuel' g f color with
              | Some (ds', color') => Some (ds ++ ds', color')
              | None => None
              end
            else Some (ds, color)
        end in
      match foldl visit (Some ([], vset color n 1)) (indices (numInputs g n)) with
      | Some (ds, color) => Some (ds, vset color n 2)
      | None => None
      end
  end.

Definition checkVobjCycles (g : Graph) : chk :=
  let visit acc n :=
    match acc with
    | None => None
    | Some (ds, color) =>
        if isVobj g n && (vget0 color n =? 0) then
          match hasVobjCycle (S (N.to_nat (nodeCount g))) g n color with
          | Some (ds', color') => Some (ds ++ ds', color')
          | None => None
          end
        else Some (ds, color)
    end in
  fst <$> foldl visit (Some ([], replicate (N.to_nat (nodeCount g)) 0)) (indices (nodeCount g)).

Definition checkMaterializeNode (g : Graph) (n : NodeId) : chk :=
  let v := input g n 2 in
  when (kind_eqb (kind_of g n) NodeKind.Materialize && (3 <=? numInputs g n) &&
        validId g v && isVobj g v)
    (each (indices (numInputs g v)) (fun s =>
       let f := input g v s in
       when (validId g f && isVobj g f)
         (diag n ("Materialize stores a still-virtual field: vobj n" +:+ pretty v +:+
                  " field n" +:+ pretty f +:+
                  " must be materialized (or deopt-listed) first")))).

Definition checkClosure (g : Graph) (n : NodeId) : chk :=
  let vobjs := frameStateVobjs g (nd_payload (node g n)) in
  when (kind_eqb (kind_of g n) NodeKind.FrameState &&
        (nd_payload (node g n) <? frameStateCount g))
    (each vobjs (fun v =>
       when (validId g v && isVobj g v)
         (each (indices (numInputs g v)) (fun s =>
            let f := input g v s in
            when (validId g f && isVobj g f && negb (existsb (fun w => w =? f) vobjs))
              (diag n ("materialization closure violated: vobj n" +:+ pretty v +:+
                       " references vobj n" +:+ pretty f +:+
                       " which is not materialized at this deopt point")))))).

Definition checkMaterialization (g : Graph) : chk :=
  checkVobjCycles g ;;;
  each (indices (nodeCount g)) (fun n =>
    if isDead (node g n) then ok
    else checkMaterializeNode g n ;;; checkClosure g n).

(** ** Pass 5: vectors *)

Definition bad_lanes (lanes : N) : bool :=
  (lanes <? kMinVectorLanes) || (kMaxVectorLanes <? lanes) ||
  negb (N.land lanes (lanes - 1) =? 0).

Definition is_bottom (t : IRType) : bool := bool_decide (t = IRType.Bottom).

Definition checkVectorOp (fuel : nat) (g : Graph) (n : NodeId) : chk :=
  let nd := node g n in
  let num := nd_numInputs nd in
  let operand s want what := checkOperandType fuel g n (input g n s) want what in
  let lane := unpackVecLane (nd_payload2 nd) in
  let lanes := unpackVecLanes (nd_payload2 nd) in
  let vt := vectorOfLane lane in
  let op := castVectorOp (nd_payload nd) in
  if is_bottom vt then diag n "vector op lane type must be lane-legal"
  else if bad_lanes lanes
  then diag n "vector op lane count must be a power of two in [2, 64]"
  else if (VectorOp.code VectorOp._Count <=? VectorOp.code op) ||
          negb (isLegalElementWiseOp op lane)
  then diag n "vector op not legal for this lane type"
  else if kind_eqb (nd_kind nd) NodeKind.VectorOp then
    when (2 <=? num) (operand 0 vt "VectorOp operand a" ;;; operand 1 vt "VectorOp operand b")
  else
    when (3 <=? num)
      (operand 0 IRType.VectorI8 "VectorMaskOp mask" ;;;
       operand 1 vt "VectorMaskOp operand a" ;;; operand 2 vt "VectorMaskOp operand b") ;;;
    when (1 <=? num)
      (let m := input g n 0 in
       when (validId g m && kind_eqb (kind_of g m) NodeKind.VectorBroadcast &&
             negb (unpackVecLanes (nd_payload2 (node g m)) =? lanes))
         (diag n "mask lane count differs from operand lane count")).

Definition checkVector (fuel : nat) (g : Graph) (n : NodeId) : chk :=
  let nd := node g n in
  let num := nd_numInputs nd in
  let operand s want what := checkOperandType fuel g n (input g n s) want what in
  match nd_kind nd with
  | NodeKind.VectorPack =>
      let lane := castIRType (nd_payload nd) in
      if negb (bool_decide (laneTypeOf (vectorOfLane lane) = lane)) ||
         is_bottom (vectorOfLane lane)
      then diag n "VectorPack lane type must be a lane-legal IRType"
      else if bad_lanes num
      then diag n "VectorPack lane count must be a power of two in [2, 64]"
      else each (indices num) (fun s => operand s (laneCarrier lane) "VectorPack lane value")
  | NodeKind.VectorBroadcast =>
      let lane := castIRType (nd_payload nd) in
      if is_bottom (vectorOfLane lane)
      then diag n "VectorBroadcast lane type must be lane-legal"
      else if bad_lanes (unpackVecLanes (nd_payload2 nd))
      then diag n "VectorBroadcast lane count must be a power of two in [2, 64]"
      else operand 0 (laneCarrier lane) "VectorBroadcast scalar"
  | NodeKind.VectorOp | NodeKind.VectorMaskOp => checkVectorOp fuel g n
  | NodeKind.VectorLoad | NodeKind.VectorStore =>
      let lane := unpackVecLane (nd_payload2 nd) in
      if is_bottom (vectorOfLane lane)
      then diag n "vector memory lane type must be lane-legal"
      else if bad_lanes (unpackVecLanes (nd_payload2 nd))
      then diag n "vector memory lane count must be a power of two in [2, 64]"
      else
        when (kind_eqb (nd_kind nd) NodeKind.VectorLoad && (4 <=? num))
          (operand 2 IRType.Ref "VectorLoad array" ;;;
           operand 3 IRType.Int "VectorLoad index") ;;;
        when (kind_eqb (nd_kind nd) NodeKind.VectorStore && (5 <=? num))
          (operand 2 IRType.Ref "VectorStore array" ;;;
           operand 3 IRType.Int "VectorStore index" ;;;
           operand 4 (vectorOfLane lane) "VectorStore vector")
  | NodeKind.VectorReduce =>
      let lane := unpackVecLane (nd_payload2 nd) in
      let op := castVectorOp (nd_payload nd) in
      if is_bottom (vectorOfLane lane)
      then diag n "VectorReduce lane type must be lane-legal"
      else
        when ((VectorOp.code VectorOp._Count <=? VectorOp.code op) ||
              negb (isLegalReductionOp op lane))
          (diag n "VectorReduce op not legal for this lane type") ;;;
        when (1 <=? num) (operand 0 (vectorOfLane lane) "VectorReduce operand")
  | NodeKind.VectorExtract =>
      when (2 <=? num)
        (let v := input g n 0 in
         (if negb (validId g v) then ok
          else match resultTypeOf fuel g v with
               | None => None
               | Some vt => when (negb (isVectorType vt))
                              (diag n "VectorExtract operand must be a vector")
               end) ;;;
         operand 1 IRType.Int "VectorExtract index")
  | NodeKind.VectorInsert =>
      when (3 <=? num)
        (let v := input g n 0 in
         (if negb (validId g v) then ok
          else match resultTypeOf fuel g v with
               | None => None
               | Some vt =>
                   if negb (isVectorType vt)
                   then diag n "VectorInsert operand must be a vector"
                   else operand 1 (laneCarrier (laneTypeOf vt)) "VectorInsert value"
               end) ;;;
         operand 2 IRType.Int "VectorInsert index")
  | _ => ok
  end.

(** ** Pass 6: tagged values *)

Definition checkTagged (g : Graph) (n : NodeId) : chk :=
  let nd := node g n in
  match nd_kind nd with
  | NodeKind.TagValue | NodeKind.UntagValue | NodeKind.RepTransitionGuard =>
      let from := castValueRep (nd_payload nd) in
      let to := castValueRep (nd_payload2 nd) in
      let guard := kind_eqb (nd_kind nd) NodeKind.RepTransitionGuard in
      if negb (isValidRep from) || negb (isValidRep to)
      then diag n "tagged node has an out-of-range ValueRep payload"
      else
        when (negb guard && (bool_decide (from = ValueRep.Polymorphic) ||
                             bool_decide (to = ValueRep.Polymorphic)))
          (diag n "unguarded Polymorphic rep transition: use RepTransitionGuard (Part XVIII)") ;;;
        when (guard && bool_decide (from = to))
          (diag n "RepTransitionGuard must actually change the representation")
  | _ => ok
  end.

(** ** The verifier *)

(** Everything the passes emit, before the cap. *)
Definition all_diags (fuel : nat) (g : Graph) : chk :=
  let nodes := indices (nodeCount g) in
  each nodes (checkNode fuel g) ;;;
  checkMemoryChains g ;;;
  each nodes (checkSpeculation g) ;;;
  checkFrameStates g ;;;
  checkMaterialization g ;;;
  each nodes (fun n => checkVector fuel g n ;;; checkTagged g n).

Record VerifyResult := mkVerifyResult { vr_ok : bool; vr_diags : list VerifyDiag }.

Definition verify (fuel : nat) (g : Graph) : option VerifyResult :=
  match all_diags fuel g with
  | None => None
  | Some ds =>
      let diags := take (N.to_nat kMaxDiags) ds in
      Some (mkVerifyResult (bool_decide (diags = [])) diags)
  end.
