(* ===== verification/VerifierSound.v ===== *)
(** * What an accepted graph satisfies

    Soundness of compiler/ir/core/Verifier.cpp: the facts about a graph that
    follow from an empty diagnostic list, that the verifier always stops when
    the type queries do, and the legal graphs it rejects. *)

From stdpp Require Import pretty.
From S2P Require Import Prelude IRTypes Effect NodeInfo SmallVector Graph GraphInv.
From S2P Require Import GraphReplace ResultType Verifier.

Local Open Scope N_scope.
Local Open Scope b2_scope.

(** ** Checks that emit nothing *)

Lemma seqc_nil a b : (a ;;; b) = Some [] <-> a = Some [] /\ b = Some [].
Proof.
  destruct a as [x|], b as [y|]; simpl; try naive_solver.
  split; [|by intros [[= ->] [= ->]]]. intros [= H]. apply app_eq_nil in H as [-> ->]. done.
Qed.

Lemma when_nil b c : when b c = Some [] <-> (b = true -> c = Some []).
Proof. destruct b; simpl; naive_solver. Qed.

Lemma when_diag b n msg : when b (diag n msg) = Some [] <-> b = false.
Proof. destruct b; simpl; naive_solver. Qed.

Lemma each_nil {A} (l : list A) f : each l f = Some [] <-> forall x, x ∈ l -> f x = Some [].
Proof.
  induction l as [|x l IH]; simpl.
  - split; [|done]. by intros _ x ?%not_elem_of_nil.
  - rewrite seqc_nil, IH. setoid_rewrite elem_of_cons. naive_solver.
Qed.

Lemma each_nodes g (f : NodeId -> chk) n :
  each (indices (nodeCount g)) f = Some [] -> n < nodeCount g -> f n = Some [].
Proof. intros H Hn. rewrite each_nil in H. by apply H, elem_of_indices. Qed.

(** The verifier accepted [g]. *)
Definition accepted (fuel : nat) (g : Graph) : Prop :=
  exists r, verify fuel g = Some r /\ vr_ok r = true.

Record passes (fuel : nat) (g : Graph) : Prop := {
  pa_nodes : forall n, n < nodeCount g -> checkNode fuel g n = Some [];
  pa_memory : checkMemoryChains g = Some [];
  pa_spec : forall n, n < nodeCount g -> checkSpeculation g n = Some [];
  pa_fs : checkFrameStates g = Some [];
  pa_mat : checkMaterialization g = Some [];
  pa_vector : forall n, n < nodeCount g -> checkVector fuel g n = Some [];
  pa_tagged : forall n, n < nodeCount g -> checkTagged g n = Some []
}.

Lemma accepted_passes fuel g : accepted fuel g -> passes fuel g.
Proof.
  intros (r & Hr & Hok). unfold verify in Hr.
  destruct (all_diags fuel g) as [ds|] eqn:E; [|done]. injection Hr as <-. simpl in Hok.
  apply bool_decide_eq_true in Hok.
  assert (ds = []) as -> by (by destruct ds).
  unfold all_diags in E. rewrite !seqc_nil in E.
  destruct E as (E1 & E2 & E3 & E4 & E5 & E6). split; try done.
  - intros n. by apply each_nodes.
  - intros n. by apply each_nodes.
  - intros n Hn. pose proof (each_nodes g _ n E6 Hn) as H. by apply seqc_nil in H as [? _].
  - intros n Hn. pose proof (each_nodes g _ n E6 Hn) as H. by apply seqc_nil in H as [_ ?].
Qed.

(** ** Structure *)

Lemma validId_true g n : validId g n = true -> n < nodeCount g.
Proof. unfold validId. rewrite andb_true_iff, N.ltb_lt. by intros [_ ?]. Qed.

Lemma kind_eqb_refl k : kind_eqb k k = true.
Proof. by apply kind_eqb_spec. Qed.

Lemma validId_lt g n : n < nodeCount g -> validId g n = true.
Proof.
  intros Hn. unfold validId. rewrite (proj2 (N.ltb_lt _ _) Hn), andb_true_r, negb_true_iff.
  apply N.eqb_neq. intros ->. pose proof (u32_fits (vlen (nodes_ g))) as Hf.
  unfold nodeCount, fits32, kInvalidNodeId in *. lia.
Qed.

(** An input of an accepted node. *)
Record input_ok (g : Graph) (n s : N) : Prop := {
  io_range : input g n s < nodeCount g;
  io_live : isDead (node g (input g n s)) = false;
  io_self : input g n s = n -> kind_of g n = NodeKind.Phi /\ 1 <= s;
  io_ctrl : roleOf (node g n) s = InputRole.Ctrl ->
    producesControl (kind_of g (input g n s)) = true;
  io_mem : roleOf (node g n) s = InputRole.Mem ->
    producesMemoryState (kind_of g (input g n s)) = true /\
    (kind_of g (input g n s) = NodeKind.Phi ->
     memoryPhiOffender0 g (input g n s) = kInvalidNodeId);
  io_fs : roleOf (node g n) s = InputRole.FrameState ->
    kind_of g (input g n s) = NodeKind.FrameState;
  io_undef : kind_of g (input g n s) = NodeKind.Undef ->
    kind_of g n = NodeKind.FrameState \/ kind_of g n = NodeKind.Phi /\ 1 <= s
}.

Lemma checkSlot_ok g n s :
  checkSlot g n s = Some [] ->
  validId g (input g n s) = true /\ isDead (node g (input g n s)) = false /\
  (input g n s = n -> kind_of g n = NodeKind.Phi /\ 1 <= s).
Proof.
  unfold checkSlot. destruct (validId g (input g n s)); simpl; [|done].
  destruct (N.eqb_spec (input g n s) n) as [Heq|Hne]; simpl.
  - destruct (kind_eqb (kind_of g n) NodeKind.Phi) eqn:Hk; simpl; [|done].
    destruct (N.leb_spec 1 s); simpl; [|done]. rewrite when_diag.
    intros Hd. split_and!; [done..|]. intros _. split; [by apply kind_eqb_spec|done].
  - rewrite when_diag. intros Hd. done.
Qed.

Lemma checkRole_ok g n s :
  validId g (input g n s) = true -> checkRole g n s = Some [] ->
  (roleOf (node g n) s = InputRole.Ctrl -> producesControl (kind_of g (input g n s)) = true) /\
  (roleOf (node g n) s = InputRole.Mem ->
    producesMemoryState (kind_of g (input g n s)) = true /\
    (kind_of g (input g n s) = NodeKind.Phi ->
     memoryPhiOffender0 g (input g n s) = kInvalidNodeId)) /\
  (roleOf (node g n) s = InputRole.FrameState ->
    kind_of g (input g n s) = NodeKind.FrameState) /\
  (kind_of g (input g n s) = NodeKind.Undef ->
    kind_of g n = NodeKind.FrameState \/ kind_of g n = NodeKind.Phi /\ 1 <= s).
Proof.
  intros Hv. unfold checkRole. rewrite Hv. cbn [negb]. rewrite seqc_nil, when_diag.
  intros [Hrole Hundef]. split_and!.
  - intros Hr. rewrite Hr, when_diag in Hrole. by apply negb_false_iff.
  - intros Hr. rewrite Hr in Hrole.
    destruct (producesMemoryState (kind_of g (input g n s))); [|done]. split; [done|].
    intros Hp. cbn [negb] in Hrole. rewrite Hp, kind_eqb_refl in Hrole. cbn [when] in Hrole.
    apply when_diag in Hrole. by apply negb_false_iff, N.eqb_eq in Hrole.
  - intros Hr. rewrite Hr, when_diag in Hrole. by apply kind_eqb_spec, negb_false_iff.
  - intros Hu. rewrite Hu, kind_eqb_refl in Hundef. cbn [andb] in Hundef.
    destruct (kind_eqb (nd_kind (node g n)) NodeKind.FrameState) eqn:E1.
    + left. by apply kind_eqb_spec.
    + destruct (kind_eqb (nd_kind (node g n)) NodeKind.Phi) eqn:E2; [|done].
      destruct (N.leb_spec 1 s); [|done]. right. split; [by apply kind_eqb_spec|done].
Qed.

(** A node of an accepted graph, dead or alive. *)
Record node_ok (g : Graph) (n : NodeId) : Prop := {
  no_reserved : nd_reserved (node g n) = 0;
  no_inputs : forall s, s < numInputs g n -> input_ok g n s;
  no_arity : minInputs (info (kind_of g n)) <= numInputs g n /\
    (ni_variadic (info (kind_of g n)) = false ->
     numInputs g n = minInputs (info (kind_of g n)));
  no_framestate : ni_hasFrameState (info (kind_of g n)) = true ->
    kind_of g (input g n (numInputs g n - 1)) = NodeKind.FrameState;
  no_terminal : isTerminal (kind_of g n) = true -> usesOf g n = [];
  no_phi : kind_of g n = NodeKind.Phi ->
    (kind_of g (input g n 0) = NodeKind.Region \/
     kind_of g (input g n 0) = NodeKind.LoopBegin) /\
    numInputs g n = numInputs g (input g n 0) + 1;
  no_merge : kind_of g n = NodeKind.Region \/ kind_of g n = NodeKind.LoopBegin ->
    2 <= numInputs g n;
  no_return : kind_of g n = NodeKind.Return -> numInputs g n <= 2;
  no_if : kind_of g n = NodeKind.IfTrue \/ kind_of g n = NodeKind.IfFalse ->
    kind_of g (input g n 0) = NodeKind.If;
  no_switch : kind_of g n = NodeKind.SwitchCase \/ kind_of g n = NodeKind.SwitchDefault ->
    kind_of g (input g n 0) = NodeKind.Switch;
  no_except : kind_of g n = NodeKind.CallExcept -> isCallKind (kind_of g (input g n 0)) = true
}.

Lemma checkShape_ok g n :
  checkShape g n = Some [] ->
  minInputs (info (kind_of g n)) <= numInputs g n /\
  (ni_variadic (info (kind_of g n)) = false ->
   numInputs g n = minInputs (info (kind_of g n))) /\
  (ni_hasFrameState (info (kind_of g n)) = true ->
   validId g (input g n (numInputs g n - 1)) = true ->
   kind_of g (input g n (numInputs g n - 1)) = NodeKind.FrameState).
Proof.
  unfold checkShape, numInputs, kind_of. rewrite !seqc_nil, !when_diag, when_nil.
  set (row := info (nd_kind (node g n))). set (num := nd_numInputs (node g n)).
  intros (Hmin & Hvar & Hfs). apply N.ltb_ge in Hmin. split_and!; [done| |].
  - intros Hv. rewrite Hv in Hvar. cbn [negb andb] in Hvar.
    by apply negb_false_iff, N.eqb_eq in Hvar.
  - intros Hh Hvalid. rewrite Hh in Hfs. cbn [andb] in Hfs.
    specialize (Hfs (proj2 (N.leb_le _ _) Hmin)). apply when_diag in Hfs.
    rewrite Hvalid in Hfs. cbn [andb] in Hfs. by apply negb_false_iff, kind_eqb_spec in Hfs.
Qed.

Lemma checkMergeShapes_ok g n :
  checkMergeShapes g n = Some [] ->
  (kind_of g n = NodeKind.Phi -> 1 <= numInputs g n -> validId g (input g n 0) = true ->
   (kind_of g (input g n 0) = NodeKind.Region \/
    kind_of g (input g n 0) = NodeKind.LoopBegin) /\
   numInputs g n = numInputs g (input g n 0) + 1) /\
  (kind_of g n = NodeKind.Region \/ kind_of g n = NodeKind.LoopBegin -> 2 <= numInputs g n) /\
  (kind_of g n = NodeKind.Return -> numInputs g n <= 2).
Proof.
  unfold checkMergeShapes, numInputs. fold (kind_of g n). intros H. split_and!.
  - intros Hk Hnum Hv. rewrite Hk in H.
    destruct (N.ltb_spec (nd_numInputs (node g n)) 1); [lia|]. rewrite Hv in H. cbn [negb] in H.
    fold (kind_of g (input g n 0)) in H.
    destruct (kind_eqb (kind_of g (input g n 0)) NodeKind.Region) eqn:E1,
      (kind_eqb (kind_of g (input g n 0)) NodeKind.LoopBegin) eqn:E2; cbn [negb andb] in H;
      try done; apply when_diag, negb_false_iff, N.eqb_eq in H;
      (split; [|done]); rewrite !kind_eqb_spec in *; auto.
  - intros [Hk|Hk]; rewrite Hk, when_diag in H; by apply N.ltb_ge in H.
  - intros Hk. rewrite Hk, when_diag in H. apply N.ltb_ge in H.
    destruct (N.ltb_spec 0 (nd_numInputs (node g n))); lia.
Qed.

Lemma checkProjectionParent_ok g n :
  checkProjectionParent g n = Some [] -> 1 <= numInputs g n ->
  validId g (input g n 0) = true ->
  (kind_of g n = NodeKind.IfTrue \/ kind_of g n = NodeKind.IfFalse ->
    kind_of g (input g n 0) = NodeKind.If) /\
  (kind_of g n = NodeKind.SwitchCase \/ kind_of g n = NodeKind.SwitchDefault ->
    kind_of g (input g n 0) = NodeKind.Switch) /\
  (kind_of g n = NodeKind.CallExcept -> isCallKind (kind_of g (input g n 0)) = true).
Proof.
  unfold checkProjectionParent, numInputs. fold (kind_of g n). intros H Hnum Hv.
  destruct (N.ltb_spec (nd_numInputs (node g n)) 1); [lia|]. rewrite Hv in H. cbn [negb orb] in H.
  split_and!.
  - intros [Hk|Hk]; rewrite Hk, when_diag in H; by apply negb_false_iff, kind_eqb_spec in H.
  - intros [Hk|Hk]; rewrite Hk, when_diag in H; by apply negb_false_iff, kind_eqb_spec in H.
  - intros Hk. rewrite Hk, when_diag in H. by apply negb_false_iff.
Qed.

Lemma checkNode_ok fuel g n : checkNode fuel g n = Some [] -> node_ok g n.
Proof.
  unfold checkNode. rewrite !seqc_nil, !when_diag, !each_nil.
  intros (Hres & Hslots & Hshape & Hroles & Hterm & Hproj & Hmerge & _ & _).
  assert (forall s, s < numInputs g n -> validId g (input g n s) = true) as Hvalid.
  { intros s Hs. apply checkSlot_ok, Hslots. by apply elem_of_indices. }
  apply checkShape_ok in Hshape as (Hmin & Hex & Hfs).
  apply checkMergeShapes_ok in Hmerge as (Hphi & Hreg & Hret).
  assert (0 < ni_numFixed (info (kind_of g n)) -> 1 <= numInputs g n) as Hone.
  { intros Hf. unfold minInputs in Hmin. destruct (ni_hasFrameState _); lia. }
  assert (forall k, kind_of g n = k -> 0 < ni_numFixed (info k) ->
    validId g (input g n 0) = true /\ 1 <= numInputs g n) as Hfirst.
  { intros k <- Hf. specialize (Hone Hf). split; [|done]. apply Hvalid. lia. }
  pose proof (checkProjectionParent_ok g n Hproj) as Hp.
  split; try done.
  - by apply negb_false_iff, N.eqb_eq in Hres.
  - intros s Hs. assert (s ∈ indices (numInputs g n)) as Hin by (by apply elem_of_indices).
    destruct (checkSlot_ok g n s (Hslots s Hin)) as (Hv & Hd & Hself).
    destruct (checkRole_ok g n s Hv (Hroles s Hin)) as (H1 & H2 & H3 & H4).
    split; try done. by apply validId_true.
  - intros Hh. apply Hfs; [done|]. apply Hvalid.
    unfold minInputs in Hmin. rewrite Hh in Hmin. lia.
  - intros Ht. unfold kind_of in Ht. rewrite Ht in Hterm. cbn [andb] in Hterm.
    by apply negb_false_iff, bool_decide_eq_true in Hterm.
  - intros Hk. destruct (Hfirst _ Hk) as [Hv H1]; [done|]. by apply Hphi.
  - intros Hk. destruct (Hfirst (kind_of g n) eq_refl) as [Hv H1];
      [by destruct Hk as [-> | ->]|]. by apply Hp.
  - intros Hk. destruct (Hfirst (kind_of g n) eq_refl) as [Hv H1];
      [by destruct Hk as [-> | ->]|]. by apply Hp.
  - intros Hk. destruct (Hfirst _ Hk) as [Hv H1]; [done|]. by apply Hp.
Qed.

(** C4: every node of an accepted graph, dead nodes included, is well formed:
    each input is an existing live node other than the node itself (but for a
    Phi's value inputs) and produces what its slot's role demands, the input
    count fits the registry signature with a FrameState last where one is
    required, terminals have no users, Phis match their merge's predecessor
    count, merges have two predecessors and projections hang off their parent
    kind. *)
Theorem accepted_structure fuel g n :
  accepted fuel g -> n < nodeCount g -> node_ok g n.
Proof.
  intros Ha Hn. eapply checkNode_ok. by apply (pa_nodes _ _ (accepted_passes _ _ Ha)).
Qed.

(** [Return(Start, AddI(p, 7))]. *)
Definition add_graph : Graph :=
  let '(p, g) := parameter newGraph 0 IRType.Int in
  let '(c, g) := constantI g 7 in
  let '(a, g) := make g NodeKind.AddI [p; c] 0 0 in
  snd (make g NodeKind.Return [0; a] 0 0).

Lemma add_graph_accepted : accepted 5 add_graph.
Proof.
  exists (mkVerifyResult true []). split; [vm_compute; reflexivity|reflexivity].
Qed.

Lemma accepted_structure_witness : input_ok add_graph 4 1.
Proof.
  apply (accepted_structure 5 add_graph 4).
  - apply add_graph_accepted.
  - vm_compute. reflexivity.
  - vm_compute. reflexivity.
Defined.

(** ** Operand types *)









Section demands.
Context (fuel : nat) (g : Graph) (n : N).
Hypothesis Hin : forall s, s < numInputs g n -> validId g (input g n s) = true.
Hypothesis Hmin : minInputs (info (kind_of g n)) <= numInputs g n.




End demands.





(** ** FrameStates *)

(** [d] has a live snapshot node. *)
Definition has_snapshot (g : Graph) (d : N) : Prop :=
  exists m, m < nodeCount g /\ isLiveFrameState g m = true /\ nd_payload (node g m) = d.

(** The caller chain from descriptor [d], innermost first. *)
Inductive callers (g : Graph) : N -> list N -> Prop :=
| callers_end : callers g kInvalidFrameState []
| callers_step d l :
    d <> kInvalidFrameState -> d < frameStateCount g -> has_snapshot g d ->
    callers g (fs_caller (frameState g d)) l -> callers g d (d :: l).

Lemma callers_det g d l l' : callers g d l -> callers g d l' -> l = l'.
Proof.
  intros H. revert l'. induction H as [|d l Hd _ _ _ IH]; intros l' H';
    inversion H'; subst; try done. f_equal. by apply IH.
Qed.

Lemma callers_suffix g d l x :
  callers g d l -> x ∈ l -> exists l', callers g x l' /\ (length l' <= length l)%nat.
Proof.
  induction 1 as [|d l Hd Hr Hs Hc IH]; [by intros ?%not_elem_of_nil|].
  intros [->|Hx]%elem_of_cons.
  - exists (d :: l). split; [by constructor|done].
  - destruct (IH Hx) as (l' & Hl' & Hle). exists l'. split; [done|]. simpl. lia.
Qed.

Lemma callers_NoDup g d l : callers g d l -> NoDup l.
Proof.
  induction 1 as [|d l Hd Hr Hs Hc IH]; constructor; [|done].
  intros Hin. destruct (callers_suffix _ _ _ _ Hc Hin) as (l' & Hl' & Hle).
  assert (l' = d :: l) as -> by (eapply callers_det; [done|by constructor]). simpl in Hle. lia.
Qed.

Lemma descHasLiveFs_snapshot g d : descHasLiveFs g d = true -> has_snapshot g d.
Proof.
  unfold descHasLiveFs. intros (m & Hm & Hc)%existsb_exists. exists m.
  rewrite !andb_true_iff, N.eqb_eq in Hc. destruct Hc as [[Hl _] Hp].
  split; [|done]. by apply elem_of_indices, list_elem_of_In.
Qed.

Lemma walk_callers_ok fuel g n steps cur :
  walk_callers fuel g n steps cur = Some [] -> exists l, callers g cur l.
Proof.
  revert steps cur. induction fuel as [|fuel IH]; intros steps cur; simpl; [done|].
  destruct (N.eqb_spec cur kInvalidFrameState) as [->|Hne]; [intros _; exists []; constructor|].
  destruct (_ <? steps); [done|].
  destruct (N.leb_spec (frameStateCount g) cur); [done|].
  destruct (descHasLiveFs g cur) eqn:Hl; simpl; [|done]. intros Hw.
  destruct (IH _ _ Hw) as [l Hl']. exists (cur :: l).
  constructor; try done. by apply descHasLiveFs_snapshot.
Qed.

(** C30: in an accepted graph every live FrameState can be reconstructed: its
    descriptor exists, its caller chain is finite without repetition and every
    frame of it has a live snapshot node; the virtual objects it lists are live
    VirtualObjectStates, and a virtual object stored in a field of a listed one
    is listed too. *)
Theorem accepted_framestate fuel g n :
  accepted fuel g -> n < nodeCount g -> isLiveFrameState g n = true ->
  nd_payload (node g n) < frameStateCount g /\
  (exists chain, callers g (nd_payload (node g n)) chain /\ NoDup chain) /\
  (forall v, v ∈ frameStateVobjs g (nd_payload (node g n)) ->
     v < nodeCount g /\ isVobj g v = true /\ isDead (node g v) = false /\
     forall s, s < numInputs g v -> input g v s < nodeCount g ->
       isVobj g (input g v s) = true ->
       input g v s ∈ frameStateVobjs g (nd_payload (node g n))).
Proof.
  intros Ha Hn Hl. destruct (accepted_passes _ _ Ha) as [Hnodes _ _ Hfs Hmat _ _].
  pose proof (each_nodes g _ n Hfs Hn) as H. unfold checkFrameState in H.
  rewrite Hl in H. cbn [negb] in H.
  destruct (N.leb_spec (frameStateCount g) (nd_payload (node g n))) as [|Hlt]; [done|].
  rewrite seqc_nil, each_nil in H. destruct H as [Hchain Hvobj]. split_and!; [done| |].
  - destruct (walk_callers_ok _ _ _ _ _ Hchain) as [l Hc]. exists l.
    split; [done|]. by eapply callers_NoDup.
  - intros v Hv. specialize (Hvobj v Hv). unfold checkVobjEntry in Hvobj. fold (isVobj g v) in Hvobj.
    destruct (validId g v) eqn:Hvalid; [|done].
    destruct (isVobj g v) eqn:Hisv; [|done]. cbn [negb] in Hvobj. apply when_diag in Hvobj.
    split_and!; [by apply validId_true|done|done|]. intros s Hs Hlt' Hf.
    unfold checkMaterialization in Hmat. apply seqc_nil in Hmat as [_ Hmat].
    pose proof (each_nodes g _ n Hmat Hn) as Hcl. cbn beta in Hcl.
    unfold isLiveFrameState in Hl. apply andb_true_iff in Hl as [Hk Hd].
    apply negb_true_iff in Hd. rewrite Hd in Hcl. apply seqc_nil in Hcl as [_ Hcl].
    unfold checkClosure in Hcl. rewrite Hk, (proj2 (N.ltb_lt _ _) Hlt) in Hcl.
    cbn [andb when] in Hcl. rewrite each_nil in Hcl. specialize (Hcl v Hv).
    rewrite Hvalid, Hisv in Hcl. cbn [andb when] in Hcl. rewrite each_nil in Hcl.
    specialize (Hcl s ltac:(by apply elem_of_indices)). apply when_diag in Hcl.
    rewrite (validId_lt g (input g v s)), Hf in Hcl by done. cbn [andb] in Hcl. apply negb_false_iff in Hcl.
    apply existsb_exists in Hcl as (w & Hw & ->%N.eqb_eq). by apply list_elem_of_In.
Qed.

(** Two frames; the inner one lists a virtual object that holds another. *)
Definition fs_graph : Graph :=
  let '(p, g) := parameter newGraph 0 IRType.Int in
  let '(w, g) := makeVirtualObject g 7 [p] in
  let '(v, g) := makeVirtualObject g 8 [w; p] in
  let '(f0, g) := makeFrameState g 1 10 [p] kInvalidFrameState [] in
  let '(f1, g) := makeFrameState g 2 20 [p] 0 [v; w] in
  snd (make g NodeKind.Return [0; p] 0 0).

Lemma fs_graph_accepted : accepted 5 fs_graph.
Proof.
  exists (mkVerifyResult true []). split; [vm_compute; reflexivity|reflexivity].
Qed.

Lemma accepted_framestate_witness :
  exists chain, callers fs_graph 1 chain /\ NoDup chain.
Proof.
  apply (accepted_framestate 5 fs_graph 5).
  - apply fs_graph_accepted.
  - vm_compute. reflexivity.
  - vm_compute. reflexivity.
Defined.

(** ** Memory Phis of nested loops *)

Lemma offender_fold g phi budget l s y :
  s ∈ l -> input g phi s = y -> y <> phi -> validId g y = true ->
  kind_of g y = NodeKind.Phi -> memoryPhiOffender g y budget <> kInvalidNodeId ->
  foldr (fun s rest =>
      let inp := input g phi s in
      if inp =? phi then rest
      else
        let off :=
          if negb (validId g inp) then kInvalidNodeId
          else if kind_eqb (kind_of g inp) NodeKind.Phi
          then memoryPhiOffender g inp budget
          else if producesMemoryState (kind_of g inp) then kInvalidNodeId else inp in
        if negb (off =? kInvalidNodeId) then off else rest)
    kInvalidNodeId l <> kInvalidNodeId.
Proof.
  intros Hs Hy Hne Hv Hk Hoff. induction l as [|s' l IH]; [by apply not_elem_of_nil in Hs|].
  cbn [foldr]. cbv zeta. apply elem_of_cons in Hs as [->|Hs].
  - rewrite Hy, (proj2 (N.eqb_neq _ _) Hne), Hv, Hk, kind_eqb_refl. cbn [negb].
    by rewrite (proj2 (N.eqb_neq _ _) Hoff).
  - specialize (IH Hs). destruct (input g phi s' =? phi); [done|].
    destruct (negb _) eqn:E; [|done]. by apply negb_true_iff, N.eqb_neq in E.
Qed.

(** [a] is a value input of the Phi [b]. *)
Definition phi_reads (g : Graph) (b a : NodeId) : Prop :=
  kind_of g b = NodeKind.Phi /\ exists s, 1 <= s < numInputs g b /\ input g b s = a.

Lemma mutual_phis_offend g a b budget :
  a <> b -> a < nodeCount g -> b < nodeCount g -> phi_reads g a b -> phi_reads g b a ->
  memoryPhiOffender g a budget <> kInvalidNodeId /\
  memoryPhiOffender g b budget <> kInvalidNodeId.
Proof.
  intros Hab Ha Hb [Hka (s & Hs & Hsb)] [Hkb (t & Ht & Hta)].
  pose proof (validId_lt g a Ha) as Hva. pose proof (validId_lt g b Hb) as Hvb.
  assert (forall x, validId g x = true -> x <> kInvalidNodeId) as Hne.
  { intros x Hx ->. unfold validId in Hx. by rewrite N.eqb_refl in Hx. }
  induction budget as [|budget [IHa IHb]].
  { simpl. split; by apply Hne. }
  split; cbn [memoryPhiOffender].
  - apply (offender_fold g a budget _ s b); try done. by apply elem_of_value_slots.
  - apply (offender_fold g b budget _ t a); try done. by apply elem_of_value_slots.
Qed.

(** Two Phis that are value inputs of each other make the verifier reject
    the graph as soon as a memory slot reads one of them: the search for an
    offending input follows the cycle until its depth bound and then reports the
    Phi itself. The memory Phis of a loop nest whose inner loop writes memory
    have exactly this shape. *)
Theorem nested_memory_phis_rejected fuel g a b n s :
  a <> b -> a < nodeCount g -> b < nodeCount g -> phi_reads g a b -> phi_reads g b a ->
  n < nodeCount g -> s < numInputs g n -> roleOf (node g n) s = InputRole.Mem ->
  input g n s = b -> ~ accepted fuel g.
Proof.
  intros Hab Ha Hb Hra Hrb Hn Hs Hrole Hin Hacc.
  pose proof (checkNode_ok _ _ _ (pa_nodes _ _ (accepted_passes _ _ Hacc) n Hn)) as Hok.
  destruct (no_inputs _ _ Hok s Hs) as [_ _ _ _ Hmem _ _].
  destruct (Hmem Hrole) as [_ Hoff]. rewrite Hin in Hoff.
  specialize (Hoff (proj1 Hrb)). revert Hoff.
  by apply (mutual_phis_offend g a b _ Hab Ha Hb Hra Hrb).
Qed.

(** A loop nest with one store in the inner loop: 4 and 5 are the memory Phis of
    the outer and the inner header, 6 the store. *)
Definition loop_nest : Graph :=
  let '(p, g) := parameter newGraph 0 IRType.Int in
  let '(outer, g) := make g NodeKind.LoopBegin [0] 0 0 in
  let '(inner, g) := make g NodeKind.LoopBegin [outer] 0 0 in
  let '(mo, g) := make g NodeKind.Phi [outer; 0] 0 0 in
  let '(mi, g) := make g NodeKind.Phi [inner; mo] 0 0 in
  let '(st, g) := make g NodeKind.StoreStatic [inner; mi; p] 0 0 in
  let '(if1, g) := make g NodeKind.If [st; p] 0 0 in
  let '(t1, g) := make g NodeKind.IfTrue [if1] 0 0 in
  let '(f1, g) := make g NodeKind.IfFalse [if1] 0 0 in
  let '(if2, g) := make g NodeKind.If [f1; p] 0 0 in
  let '(t2, g) := make g NodeKind.IfTrue [if2] 0 0 in
  let '(f2, g) := make g NodeKind.IfFalse [if2] 0 0 in
  let '(_, g) := make g NodeKind.Return [f2] 0 0 in
  let g := appendInput (appendInput g inner t1) mi st in
  appendInput (appendInput g outer t2) mo mi.

(** The memory-chain pass itself accepts the nest. *)
Example loop_nest_chains : checkMemoryChains loop_nest = Some [].
Proof. vm_compute. reflexivity. Qed.

Lemma nested_memory_phis_rejected_witness : ~ accepted 5 loop_nest.
Proof.
  apply (nested_memory_phis_rejected 5 loop_nest 4 5 6 1).
  - discriminate.
  - vm_compute. reflexivity.
  - vm_compute. reflexivity.
  - split; [vm_compute; reflexivity|]. exists 2. vm_compute. split_and!; (discriminate || reflexivity).
  - split; [vm_compute; reflexivity|]. exists 1. vm_compute. split_and!; (discriminate || reflexivity).
  - vm_compute. reflexivity.
  - vm_compute. reflexivity.
  - vm_compute. reflexivity.
  - vm_compute. reflexivity.
Defined.

(** ** Termination *)

Lemma seqc_Some a b : is_Some a -> is_Some b -> is_Some (a ;;; b).
Proof. intros [x ->] [y ->]. by eexists. Qed.

Lemma when_Some b c : is_Some c -> is_Some (when b c).
Proof. intros H. destruct b; [done|by eexists]. Qed.

Lemma diag_Some n msg : is_Some (diag n msg).
Proof. by eexists. Qed.

Lemma ok_Some : is_Some ok.
Proof. by eexists. Qed.

Lemma each_Some {A} (l : list A) f : (forall x, x ∈ l -> is_Some (f x)) -> is_Some (each l f).
Proof.
  induction l as [|x l IH]; intros H; [apply ok_Some|]. simpl. apply seqc_Some.
  - apply H. by left.
  - apply IH. intros y Hy. apply H. by right.
Qed.

(** The walk along the memory chain stops on its step bound. *)
Lemma walk_Some fuel g n gen steps max st :
  (N.to_nat (max + 2 - steps) <= fuel)%nat -> steps <= max + 1 -> (0 < fuel)%nat ->
  is_Some (walk fuel g n gen steps max st).
Proof.
  revert steps st. induction fuel as [|fuel IH]; intros steps st Hf Hs Hpos; [lia|]. simpl.
  destruct (w_stack st) as [|top rest]; [by eexists|].
  destruct (N.ltb_spec max steps); [by eexists|].
  destruct (walk_step g n gen top rest (w_onPath st) (w_done st)) as [st' [msg|]]; [by eexists|].
  apply IH; lia.
Qed.

Lemma checkMemoryChains_Some g : is_Some (checkMemoryChains g).
Proof.
  unfold checkMemoryChains. set (l := indices (nodeCount g)).
  set (acc := Some _). assert (is_Some acc) as Hacc by (by eexists). clearbody acc l.
  revert acc Hacc. induction l as [|n l IH]; intros acc Hacc; cbn [foldl].
  { destruct Hacc as [[[[p d] gen] ds] ->]. by eexists. }
  apply IH. destruct Hacc as [[[[p d] gen] ds] ->]. unfold check_chain.
  destruct (_ || _); [by eexists|]. destruct (memSlotOf _) as [s|]; [|by eexists].
  destruct (_ <=? s); [by eexists|].
  destruct (walk_Some (N.to_nat (maxMemSteps g) + 3) g n (u32 (gen + 1)) 0 (maxMemSteps g)
    (if validId g (input g n s)
     then mkWalk [(input g n s, 0)] (vset p (input g n s) (u32 (gen + 1))) d
     else mkWalk [] p d)) as [[new st'] ->]; [lia..|]. by eexists.
Qed.

Lemma walk_callers_Some fuel g n steps cur :
  (N.to_nat (u32 (frameStateCount g + 1) + 2 - steps) <= fuel)%nat ->
  steps <= u32 (frameStateCount g + 1) + 1 -> (0 < fuel)%nat ->
  is_Some (walk_callers fuel g n steps cur).
Proof.
  revert steps cur. induction fuel as [|fuel IH]; intros steps cur Hf Hs Hpos; [lia|]. simpl.
  destruct (cur =? kInvalidFrameState); [apply ok_Some|].
  destruct (N.ltb_spec (u32 (frameStateCount g + 1)) steps); [apply diag_Some|].
  destruct (_ <=? cur); [apply diag_Some|].
  destruct (negb _); [apply diag_Some|]. apply IH; lia.
Qed.

Lemma checkFrameStates_Some g : is_Some (checkFrameStates g).
Proof.
  apply each_Some. intros n _. unfold checkFrameState.
  destruct (negb _); [apply ok_Some|]. destruct (_ <=? _); [apply diag_Some|].
  apply seqc_Some.
  - assert (u32 (frameStateCount g + 1) <= frameStateCount g + 1) by (apply N.Div0.mod_le).
    apply walk_callers_Some; lia.
  - apply each_Some. intros v _. unfold checkVobjEntry.
    repeat case_match; (apply diag_Some || apply when_Some, diag_Some).
Qed.

(** The number of white nodes bounds the depth of the search for cycles. *)
Definition white (color : list N) : nat := length (filter (fun c => c = 0) color).

Lemma white_vset color i x :
  x <> 0 -> (white (vset color i x) <= white color)%nat /\
  (vget color i = Some 0 -> (white (vset color i x) < white color)%nat).
Proof.
  intros Hx. rewrite vset_insert, vget_lookup. unfold white.
  generalize (N.to_nat i). induction color as [|c color IH]; intros [|k]; try done.
  - cbn [insert list_insert lookup list_lookup]. rewrite !filter_cons. split.
    + repeat case_decide; simpl; try done; lia.
    + intros [= ->]. repeat case_decide; simpl; try done; lia.
  - change (<[S k:=x]> (c :: color)) with (c :: <[k:=x]> color). rewrite !filter_cons.
    destruct (IH k) as [IH1 IH2]. simpl. case_decide; simpl; (split; [lia|]);
      intros Hk; apply IH2 in Hk; lia.
Qed.

Section Cycles.
Context (g : Graph).

Lemma vget_color color f :
  length color = N.to_nat (nodeCount g) -> f < nodeCount g -> vget0 color f = 0 ->
  vget color f = Some 0.
Proof.
  intros Hl Hf H0. unfold vget0 in H0.
  assert (is_Some (vget color f)) as [x Hx] by (apply vget_lt_is_Some; unfold vlen; lia).
  rewrite Hx in *. simpl in H0. by subst.
Qed.

Lemma length_vset (l : list N) i x : length (vset l i x) = length l.
Proof. rewrite vset_insert. apply length_insert. Qed.

Lemma hasVobjCycle_Some fuel n color :
  length color = N.to_nat (nodeCount g) -> vget color n = Some 0 -> (white color <= fuel)%nat ->
  exists ds color', hasVobjCycle fuel g n color = Some (ds, color') /\
    (white color' <= white color)%nat /\ length color' = length color.
Proof.
  revert n color. induction fuel as [|fuel IH]; intros n color Hlen Hn Hf.
  { destruct (white_vset color n 1) as [_ H]; [done|]. specialize (H Hn). lia. }
  cbn [hasVobjCycle]. destruct (white_vset color n 1) as [_ Hlt]; [done|]. specialize (Hlt Hn).
  set (visit := fun (acc : option (list VerifyDiag * list N)) (s : N) => _).
  assert (forall l ds c, length c = N.to_nat (nodeCount g) -> (white c <= fuel)%nat ->
    exists ds' c', foldl visit (Some (ds, c)) l = Some (ds', c') /\
    (white c' <= white c)%nat /\ length c' = length c) as Hloop.
  { induction l as [|s l IHl]; intros ds c Hc Hw; cbn [foldl]; [by exists ds, c|].
    assert (exists ds1 c1, visit (Some (ds, c)) s = Some (ds1, c1) /\
      (white c1 <= white c)%nat /\ length c1 = length c) as (ds1 & c1 & -> & Hw1 & Hl1).
    { unfold visit. cbv zeta.
      destruct (negb (validId g (input g n s)) || negb (isVobj g (input g n s))) eqn:Eor;
        [by exists ds, c|].
      destruct (N.eqb_spec (vget0 c (input g n s)) 1); [by eexists _, c|].
      destruct (N.eqb_spec (vget0 c (input g n s)) 0) as [E0|]; [|by exists ds, c].
      apply orb_false_iff in Eor as [Hv _]. apply negb_false_iff, validId_true in Hv.
      destruct (IH (input g n s) c Hc) as (ds' & c' & -> & Hw' & Hl');
        [by apply vget_color|done|]. by eexists _, c'. }
    destruct (IHl ds1 c1) as (ds2 & c2 & -> & Hw2 & Hl2); [lia..|]. exists ds2, c2.
    split; [done|]. lia. }
  destruct (Hloop (indices (numInputs g n)) [] (vset color n 1)) as (ds & c & -> & Hw & Hl).
  - by rewrite length_vset.
  - lia.
  - rewrite length_vset in Hl. exists ds, (vset c n 2).
    destruct (white_vset c n 2) as [H2 _]; [done|]. rewrite length_vset. split_and!; [done|lia|done].
Qed.

Lemma checkVobjCycles_Some : is_Some (checkVobjCycles g).
Proof.
  unfold checkVobjCycles. rewrite fmap_is_Some.
  set (visit := fun (acc : option (list VerifyDiag * list N)) (n : N) => _).
  assert (forall l ds c, length c = N.to_nat (nodeCount g) ->
    (forall n, n ∈ l -> n < nodeCount g) -> is_Some (foldl visit (Some (ds, c)) l)) as Hloop.
  { induction l as [|n l IHl]; intros ds c Hc Hin; cbn [foldl]; [by eexists|].
    assert (forall m, m ∈ l -> m < nodeCount g) as Hin'.
    { intros m Hm. apply Hin. by right. }
    unfold visit at 2. destruct (isVobj g n && (vget0 c n =? 0)) eqn:E; [|by apply IHl].
    apply andb_true_iff in E as [_ E0%N.eqb_eq].
    assert (n < nodeCount g) as Hn by (apply Hin; by left).
    destruct (hasVobjCycle_Some (S (N.to_nat (nodeCount g))) n c Hc) as (ds' & c' & -> & _ & Hl').
    - by apply vget_color.
    - unfold white. pose proof (length_filter (fun c => c = 0) c). lia.
    - apply IHl; [by rewrite Hl'|done]. }
  apply Hloop.
  - by rewrite length_replicate.
  - intros n. apply elem_of_indices.
Qed.

Lemma checkMaterialization_Some : is_Some (checkMaterialization g).
Proof.
  apply seqc_Some; [apply checkVobjCycles_Some|]. apply each_Some. intros n _.
  destruct (isDead _); [apply ok_Some|]. apply seqc_Some; apply when_Some, each_Some; intros x _.
  - apply when_Some, diag_Some.
  - apply when_Some, each_Some. intros s _. apply when_Some, diag_Some.
Qed.

End Cycles.

Section Total.
Context (g : Graph) (F : nat).
Context (HF : forall m, m < nodeCount g -> is_Some (resultTypeOf F g m)).

Lemma checkOperandType_Some n op want what : is_Some (checkOperandType F g n op want what).
Proof.
  unfold checkOperandType. destruct (validId g op) eqn:Hv; simpl; [|apply ok_Some].
  destruct (HF op) as [t ->]; [by apply validId_true|]. apply when_Some, diag_Some.
Qed.

Ltac solve_some :=
  repeat first
    [ apply seqc_Some | apply when_Some | apply diag_Some | apply ok_Some
    | apply checkOperandType_Some | apply each_Some; intros ? ? ].

Lemma checkSlot_Some n s : is_Some (checkSlot g n s).
Proof. unfold checkSlot. repeat case_match; solve_some. Qed.

Lemma checkRole_Some n s : is_Some (checkRole g n s).
Proof.
  unfold checkRole. destruct (negb _); [apply ok_Some|]. apply seqc_Some; [|solve_some].
  destruct (roleOf _ _); solve_some. destruct (negb _); solve_some.
Qed.

Lemma checkOperandTypes_Some n : is_Some (checkOperandTypes F g n).
Proof.
  unfold checkOperandTypes. destruct (binaryOperandTypes _) as [[a b]|]; [solve_some|].
  destruct (unaryOperandType _); [solve_some|]. destruct (nd_kind (node g n)); solve_some.
Qed.

Lemma checkNode_Some n : is_Some (checkNode F g n).
Proof.
  unfold checkNode. cbv zeta. apply seqc_Some; [solve_some|].
  apply seqc_Some; [apply each_Some; intros; apply checkSlot_Some|].
  apply seqc_Some; [unfold checkShape; solve_some|].
  apply seqc_Some; [apply each_Some; intros; apply checkRole_Some|].
  apply seqc_Some; [solve_some|].
  apply seqc_Some.
  { unfold checkProjectionParent. destruct (_ || _); [solve_some|].
    destruct (nd_kind (node g n)); solve_some. }
  apply seqc_Some.
  { unfold checkMergeShapes. destruct (nd_kind (node g n)); solve_some.
    repeat case_match; solve_some. }
  apply seqc_Some; [apply checkOperandTypes_Some|].
  unfold checkKindPayloads. destruct (nd_kind (node g n)); solve_some.
Qed.

Lemma checkVector_Some n : is_Some (checkVector F g n).
Proof.
  assert (forall v (f : IRType -> chk), (forall t, is_Some (f t)) ->
    is_Some (if negb (validId g v) then ok else
             match resultTypeOf F g v with None => None | Some t => f t end)) as Hty.
  { intros v f Hf. destruct (validId g v) eqn:Hv; simpl; [|apply ok_Some].
    destruct (HF v) as [t ->]; [by apply validId_true|apply Hf]. }
  unfold checkVector. destruct (nd_kind (node g n)); solve_some.
  all: first
    [ apply Hty; intros t; solve_some; destruct (negb _); solve_some; fail
    | unfold checkVectorOp; cbv zeta; repeat case_match; solve_some ].
Qed.

Lemma verify_Some : is_Some (verify F g).
Proof.
  unfold verify. destruct (all_diags F g) as [ds|] eqn:E; [by eexists|]. exfalso.
  assert (is_Some (all_diags F g)) as [x Hx]; [|congruence].
  unfold all_diags. cbv zeta. apply seqc_Some; [apply each_Some; intros; apply checkNode_Some|].
  apply seqc_Some; [apply checkMemoryChains_Some|].
  apply seqc_Some.
  { apply each_Some. intros n _. unfold checkSpeculation. cbv zeta. solve_some.
    destruct (_ =? 0); solve_some. }
  apply seqc_Some; [apply checkFrameStates_Some|].
  apply seqc_Some; [apply checkMaterialization_Some|].
  apply each_Some. intros n _. apply seqc_Some; [apply checkVector_Some|].
  unfold checkTagged. destruct (nd_kind (node g n)); solve_some; destruct (_ || _); solve_some.
Qed.

End Total.

(** C28: on a graph without an infinite path of Phi and BitCast inputs the
    verifier returns: the memory walks, caller-chain walks and the cycle search
    all stop within the bounds of the source, however malformed the graph; at
    most 100 diagnostics come back, and the verdict is that there are none. *)
Theorem verify_total g :
  (forall m, m < nodeCount g -> Acc (calls g) m) ->
  exists fuel r, verify fuel g = Some r /\
    vlen (vr_diags r) <= kMaxDiags /\ (vr_ok r = true <-> vr_diags r = []).
Proof.
  intros Hacc.
  assert (exists F, forall m, m < nodeCount g -> is_Some (resultTypeOf F g m)) as [F HF].
  { assert (exists F, forall m, m ∈ indices (nodeCount g) -> is_Some (resultTypeOf F g m))
      as [F HF]; [|exists F; intros m Hm; by apply HF, elem_of_indices].
    assert (forall m, m ∈ indices (nodeCount g) -> Acc (calls g) m) as Hl
      by (intros m Hm; by apply Hacc, elem_of_indices).
    by apply common_fuel. }
  destruct (verify_Some g F HF) as [r Hr]. exists F, r. split; [done|].
  unfold verify in Hr. destruct (all_diags F g) as [ds|]; [|done]. injection Hr as <-. simpl.
  rewrite bool_decide_eq_true. split; [|done].
  unfold vlen. rewrite length_take. unfold kMaxDiags. lia.
Qed.

Lemma verify_total_witness : exists fuel r, verify fuel add_graph = Some r.
Proof.
  destruct (verify_total add_graph) as (fuel & r & H & _).
  - intros m Hm. constructor. intros k Hk. exfalso.
    assert (nodeCount add_graph = 5) as E by (vm_compute; reflexivity). rewrite E in Hm.
    assert (m = 0 \/ m = 1 \/ m = 2 \/ m = 3 \/ m = 4) as Hc by lia.
    revert Hk. unfold calls.
    destruct Hc as [-> | [-> | [-> | [-> | ->]]]]; vm_compute; by intros ?%not_elem_of_nil.
  - exists fuel, r. exact H.
Defined.
