(* ===== verification/PassSupport.v ===== *)
(** * The passes' shared machinery

    compiler/passes/src/PassInternal.h and PassSupport.cpp: the rewrite budget,
    the cache of junk sinks, the rewiring of tombstone edges onto them, the
    [replace] and [kill] protocols every pass goes through, and the predicates
    on node kinds. The sinks are created in the graph they serve, so a call that
    may need one takes and returns the graph together with the cache. [None] is
    a type computation that does not return. *)

From S2P Require Import Prelude IRTypes Effect NodeInfo SmallVector Graph GraphInv.
From S2P Require Import GraphReplace ResultType.

Local Open Scope N_scope.

(** ** Telemetry and budget *)

Record PassTelemetry := mkTelemetry {
  t_rewrites : N; t_removals : N; t_folds : N; t_gvnDedups : N;
  t_sccpConstants : N; t_rounds : N; t_budgetOverruns : N;
  t_peaScalarized : N; t_peaMaterialized : N; t_peaRejected : N;
  t_converged : bool
}.

Definition noTelemetry : PassTelemetry := mkTelemetry 0 0 0 0 0 0 0 0 0 0 true.

Definition count_rewrite (t : PassTelemetry) : PassTelemetry :=
  mkTelemetry (u32 (t_rewrites t + 1)) (t_removals t) (t_folds t) (t_gvnDedups t)
    (t_sccpConstants t) (t_rounds t) (t_budgetOverruns t) (t_peaScalarized t)
    (t_peaMaterialized t) (t_peaRejected t) (t_converged t).

Definition count_removal (t : PassTelemetry) : PassTelemetry :=
  mkTelemetry (t_rewrites t) (u32 (t_removals t + 1)) (t_folds t) (t_gvnDedups t)
    (t_sccpConstants t) (t_rounds t) (t_budgetOverruns t) (t_peaScalarized t)
    (t_peaMaterialized t) (t_peaRejected t) (t_converged t).

Definition count_dedup (t : PassTelemetry) : PassTelemetry :=
  mkTelemetry (t_rewrites t) (t_removals t) (t_folds t) (u32 (t_gvnDedups t + 1))
    (t_sccpConstants t) (t_rounds t) (t_budgetOverruns t) (t_peaScalarized t)
    (t_peaMaterialized t) (t_peaRejected t) (t_converged t).

Record Budget := mkBudget { b_limit : N; b_used : N; b_exceeded : bool }.

Definition charge (b : Budget) : bool * Budget :=
  if b_exceeded b || (b_limit b <=? b_used b)
  then (false, mkBudget (b_limit b) (b_used b) true)
  else (true, mkBudget (b_limit b) (u32 (b_used b + 1)) (b_exceeded b)).

(** ** Junk sinks *)

Record Junk := mkJunk {
  ifSink : NodeId; switchSink : NodeId; callSink : NodeId; fsSink : NodeId;
  constI : NodeId; constL : NodeId; constF : NodeId; constD : NodeId;
  constNull : NodeId; regionSinks : list NodeId
}.

Definition newJunk : Junk :=
  mkJunk kInvalidNodeId kInvalidNodeId kInvalidNodeId kInvalidNodeId kInvalidNodeId
    kInvalidNodeId kInvalidNodeId kInvalidNodeId kInvalidNodeId [].

Definition set_ifSink v j := mkJunk v (switchSink j) (callSink j) (fsSink j)
  (constI j) (constL j) (constF j) (constD j) (constNull j) (regionSinks j).
Definition set_switchSink v j := mkJunk (ifSink j) v (callSink j) (fsSink j)
  (constI j) (constL j) (constF j) (constD j) (constNull j) (regionSinks j).
Definition set_callSink v j := mkJunk (ifSink j) (switchSink j) v (fsSink j)
  (constI j) (constL j) (constF j) (constD j) (constNull j) (regionSinks j).
Definition set_fsSink v j := mkJunk (ifSink j) (switchSink j) (callSink j) v
  (constI j) (constL j) (constF j) (constD j) (constNull j) (regionSinks j).
Definition set_constI v j := mkJunk (ifSink j) (switchSink j) (callSink j) (fsSink j)
  v (constL j) (constF j) (constD j) (constNull j) (regionSinks j).
Definition set_constL v j := mkJunk (ifSink j) (switchSink j) (callSink j) (fsSink j)
  (constI j) v (constF j) (constD j) (constNull j) (regionSinks j).
Definition set_constF v j := mkJunk (ifSink j) (switchSink j) (callSink j) (fsSink j)
  (constI j) (constL j) v (constD j) (constNull j) (regionSinks j).
Definition set_constD v j := mkJunk (ifSink j) (switchSink j) (callSink j) (fsSink j)
  (constI j) (constL j) (constF j) v (constNull j) (regionSinks j).
Definition set_constNull v j := mkJunk (ifSink j) (switchSink j) (callSink j) (fsSink j)
  (constI j) (constL j) (constF j) (constD j) v (regionSinks j).
Definition push_regionSink v j := mkJunk (ifSink j) (switchSink j) (callSink j) (fsSink j)
  (constI j) (constL j) (constF j) (constD j) (constNull j) (regionSinks j ++ [v]).

(** The graph and the cache of sinks that refers to it. *)
Abbreviation world := (Graph * Junk)%type.

Definition ctrlSink (g : Graph) : NodeId := startNode g.
Definition memSink (g : Graph) : NodeId := startNode g.

Definition makeFsSink (g : Graph) : NodeId * Graph :=
  makeFrameState g 0 0 [] kInvalidFrameState [].

Definition makeIfSink (g : Graph) : NodeId * Graph :=
  let '(c, g) := constantI g 0 in make g NodeKind.If [startNode g; c] 0 0.

Definition makeSwitchSink (g : Graph) : NodeId * Graph :=
  let '(c, g) := constantI g 0 in make g NodeKind.Switch [startNode g; c] 0 0.

Definition makeCallSink (g : Graph) : NodeId * Graph :=
  let '(fs, g) := makeFsSink g in
  let '(call, g) := make g NodeKind.CallStatic [startNode g; startNode g] 0
                      (IRType.code IRType.Bottom) in
  (call, appendInput g call fs).

(** [if (sink == kInvalidNodeId || g.node(sink).isDead()) sink = mk(); return sink;] *)
Definition cached (get : Junk -> NodeId) (set : NodeId -> Junk -> Junk)
    (mk : Graph -> NodeId * Graph) (w : world) : NodeId * world :=
  let '(g, jk) := w in
  if (get jk =? kInvalidNodeId) || isDead (node g (get jk))
  then let '(id, g) := mk g in (id, (g, set id jk))
  else (get jk, w).

Definition parentSink (projectionKind : NodeKind) (w : world) : NodeId * world :=
  match projectionKind with
  | NodeKind.IfTrue | NodeKind.IfFalse => cached ifSink set_ifSink makeIfSink w
  | NodeKind.SwitchCase | NodeKind.SwitchDefault =>
      cached switchSink set_switchSink makeSwitchSink w
  | NodeKind.CallExcept => cached callSink set_callSink makeCallSink w
  | _ => (ctrlSink (fst w), w)
  end.

Definition fsSinkGet (w : world) : NodeId * world := cached fsSink set_fsSink makeFsSink w.

Definition dataSink (type : IRType) (w : world) : NodeId * world :=
  match type with
  | IRType.Int => cached constI set_constI (fun g => constantI g 0) w
  | IRType.Long => cached constL set_constL (fun g => constantL g 0) w
  | IRType.Float => cached constF set_constF (fun g => constantF g 0) w
  | IRType.Double => cached constD set_constD (fun g => constantD g 0) w
  | IRType.Null | IRType.Ref => cached constNull set_constNull constantNull w
  | IRType.Bottom => (ctrlSink (fst w), w)
  | _ => (kInvalidNodeId, w)
  end.

(** One iteration of the loop of [regionSink]. *)
Definition push_region (w : world) : world :=
  let '(g, jk) := w in
  let n := u16 (vlen (regionSinks jk) + 2) in
  let '(r, g) := make g NodeKind.Region (replicate (N.to_nat n) (startNode g)) 0 0 in
  (g, push_regionSink r jk).

(** The loop runs until [regionSinks] has [preds - 1] entries; each iteration
    adds one. The final subscript is in range then. *)
Definition regionSink (preds : N) (w : world) : NodeId * world :=
  let preds := if preds <? 2 then 2 else preds in
  let missing := (preds - 1) - vlen (regionSinks (snd w)) in
  let w := Nat.iter (N.to_nat missing) push_region w in
  (default kInvalidNodeId (vget (regionSinks (snd w)) (preds - 2)), w).

Definition isJunkSink (jk : Junk) (n : NodeId) : bool :=
  (n =? ifSink jk) || (n =? switchSink jk) || (n =? callSink jk) ||
  (n =? fsSink jk) || (n =? constI jk) || (n =? constL jk) || (n =? constF jk) ||
  (n =? constD jk) || (n =? constNull jk) ||
  existsb (fun r => r =? n) (regionSinks jk).

(** ** Rewiring tombstone edges *)

Definition roleOfSlot (g : Graph) (n : NodeId) (slot : N) : InputRole :=
  let nd := node g n in
  let row := info (nd_kind nd) in
  if nd_numInputs nd <=? slot then InputRole.None
  else if ni_hasFrameState row && (slot + 1 =? nd_numInputs nd) then InputRole.FrameState
  else if slot <? ni_numFixed row
  then (if slot <? 6 then role_at row slot else InputRole.None)
  else if ni_variadic row then ni_variadicRole row
  else InputRole.None.

(** [resultTypeOf] recurses at most once per node when it returns at all. *)
Definition typeOf (g : Graph) (n : NodeId) : option IRType :=
  resultTypeOf (S (N.to_nat (nodeCount g))) g n.

Definition junkForSlot (n : NodeId) (slot : N) (w : world) : option (NodeId * world) :=
  let g := fst w in
  let nd := node g n in
  if nd_numInputs nd <=? slot then Some (kInvalidNodeId, w)
  else if kind_eqb (nd_kind nd) NodeKind.Phi && (slot =? 0) then
    let values := if 0 <? nd_numInputs nd then nd_numInputs nd - 1 else 0 in
    Some (regionSink (if values <? 2 then 2 else values) w)
  else
    match roleOfSlot g n slot with
    | InputRole.Ctrl => Some (ctrlSink g, w)
    | InputRole.Parent => Some (parentSink (nd_kind nd) w)
    | InputRole.Mem => Some (memSink g, w)
    | InputRole.FrameState => Some (fsSinkGet w)
    | InputRole.Data | InputRole.None =>
        match typeOf g (input g n slot) with
        | None => None
        | Some t => Some (dataSink t w)
        end
    end.

(** The padding of a Phi with a single value input. *)
Definition padPhi (n : NodeId) (w : world) : option world :=
  let g := fst w in
  if kind_eqb (nd_kind (node g n)) NodeKind.Phi && (nd_numInputs (node g n) =? 2) then
    match typeOf g (input g n 1) with
    | None => None
    | Some t =>
        let '(pad, (g, jk)) :=
          dataSink (if bool_decide (t = IRType.Bottom) then IRType.Int else t) w in
        Some (if negb (pad =? kInvalidNodeId) then appendInput g n pad else g, jk)
    end
  else Some w.

Definition junkSlot (n : NodeId) (s : N) (w : world) : option world :=
  let cur := input (fst w) n s in
  if (cur =? startNode (fst w)) || (cur =? n) then Some w
  else
    match junkForSlot n s w with
    | None => None
    | Some (sink, (g, jk)) =>
        if (sink =? kInvalidNodeId) || (sink =? cur) then Some (g, jk)
        else Some (setInput g n s sink, jk)
    end.

(** A loop whose body may fail to return. *)
Definition ofor {A W} (l : list A) (body : A -> W -> option W) (w : W) : option W :=
  foldl (fun acc x => acc ≫= body x) (Some w) l.

(** The loop bound [g.node(n).numInputs] is re-read by the code; no iteration
    changes it. *)
Definition junkEdges (n : NodeId) (w : world) : option world :=
  match padPhi n w with
  | None => None
  | Some w => ofor (indices (numInputs (fst w) n)) (junkSlot n) w
  end.

(** ** The two protocols *)

Record pass_state := mkPass {
  ps_world : world; ps_t : PassTelemetry; ps_b : Budget
}.

Definition ps_g (st : pass_state) : Graph := fst (ps_world st).
Definition ps_jk (st : pass_state) : Junk := snd (ps_world st).

Definition replace (oldNode withNode : NodeId) (st : pass_state) : option pass_state :=
  let '(ok, b) := charge (ps_b st) in
  if negb ok then Some (mkPass (ps_world st) (ps_t st) b)
  else
    let '(e, g) := replaceNode (ps_g st) oldNode withNode in
    if negb (e =? 0) then
      match junkEdges oldNode (g, ps_jk st) with
      | None => None
      | Some w => Some (mkPass w (count_rewrite (ps_t st)) b)
      end
    else Some (mkPass (g, ps_jk st) (ps_t st) b).

(** One dead referencer of the node being killed. *)
Definition junkUse (n : NodeId) (u : Use) (w : world) : option world :=
  let g := fst w in
  if (nodeCount g <=? u_user u) || (nd_numInputs (node g (u_user u)) <=? u_slot u)
  then Some w
  else if negb (input g (u_user u) (u_slot u) =? n) then Some w
  else
    match junkForSlot (u_user u) (u_slot u) w with
    | None => None
    | Some (sink, (g, jk)) =>
        Some (if negb (sink =? kInvalidNodeId)
              then setInput g (u_user u) (u_slot u) sink else g, jk)
    end.

Definition live_user (g : Graph) (u : Use) : bool :=
  (u_user u <? nodeCount g) && negb (isDead (node g (u_user u))).

Definition kill (n : NodeId) (st : pass_state) : option (bool * pass_state) :=
  let g := ps_g st in
  if (nodeCount g <=? n) || isDead (node g n) then Some (true, st)
  else
    let '(ok, b) := charge (ps_b st) in
    let st := mkPass (ps_world st) (ps_t st) b in
    if negb ok then Some (false, st)
    else if existsb (live_user g) (usesOf g n) then Some (false, st)
    else
      match ofor (usesOf g n) (junkUse n) (ps_world st) with
      | None => None
      | Some w =>
          match junkEdges n w with
          | None => None
          | Some (g, jk) =>
              Some (true, mkPass (killNode g n, jk) (count_removal (ps_t st)) b)
          end
      end.

(** ** Predicates on kinds and nodes *)

Definition consumesControl (k : NodeKind) : bool :=
  let row := info k in
  existsb (fun i => bool_decide (role_at row i = InputRole.Ctrl) ||
                    bool_decide (role_at row i = InputRole.Parent))
    (indices (N.min (ni_numFixed row) 6)) ||
  (ni_variadic row && bool_decide (ni_variadicRole row = InputRole.Ctrl)).

Definition isTerminator (k : NodeKind) : bool :=
  match k with
  | NodeKind.Return | NodeKind.Unwind | NodeKind.Deopt | NodeKind.End => true
  | _ => false
  end.

Definition isNeverNullNode (g : Graph) (n : NodeId) : bool :=
  let nd := node g n in
  if isDead nd then false
  else if flags_has (nd_flags nd) NodeFlag.NeverNull then true
  else match nd_kind nd with
       | NodeKind.New | NodeKind.NewArray | NodeKind.NewRefArray
       | NodeKind.NewMultiArray | NodeKind.Materialize | NodeKind.ConstantSym => true
       | _ => false
       end.

Definition useCount (g : Graph) (n : NodeId) : N := u32 (vlen (usesOf g n)).

Definition liveUseCount (g : Graph) (n : NodeId) : N :=
  foldl (fun live u => if negb (isDead (node g (u_user u))) then u32 (live + 1) else live)
    0 (usesOf g n).

Definition isPureValueKind (k : NodeKind) : bool :=
  let row := info k in
  bool_decide (ni_cls row = NodeClass.Value) && bool_decide (ni_effect row = EffectKind.Pure).

Definition isDceSafe (k : NodeKind) : bool :=
  if kind_eqb k NodeKind.FrameState then true
  else if kind_eqb k NodeKind.ArrayLength || kind_eqb k NodeKind.InstanceOf then true
  else if negb (isPureValueKind k) then false
  else match k with
       | NodeKind.DivI | NodeKind.RemI | NodeKind.DivL | NodeKind.RemL
       | NodeKind.VirtualObjectState => false
       | _ => true
       end.

Definition isGvnEligible (k : NodeKind) : bool :=
  match k with
  | NodeKind.Phi | NodeKind.ArrayLength | NodeKind.InstanceOf | NodeKind.LoadField
  | NodeKind.LoadStatic | NodeKind.LoadElem => true
  | _ =>
      if negb (isPureValueKind k) then false
      else match k with
           | NodeKind.Undef | NodeKind.VirtualObjectState => false
           | _ => true
           end
  end.
