(* ===== verification/PassLaw.v ===== *)
(** * The tombstone law

    PassSupport.cpp states its invariant in prose: after every [replace] and
    [kill] every node, live or dead, has only live inputs. This file states it
    as [law], describes what creating a sink and rewiring a tombstone can change
    ([grown]), and proves that the protocols keep the law. *)

From S2P Require Import Prelude IRTypes Effect NodeInfo SmallVector Graph GraphInv.
From S2P Require Import GraphReplace ResultType PassSupport.

Local Open Scope N_scope.

(** ** Type computations that return *)

Lemma type_calls_lt g n m :
  graph_ok g -> closed g -> m ∈ type_calls g n -> m < vlen (nodes_ g).
Proof.
  intros Hg Hc. unfold type_calls. destruct (nd_kind (node g n)); try by intros ?%not_elem_of_nil.
  - destruct (N.leb_spec 1 (numInputs g n)); [|by intros ?%not_elem_of_nil].
    intros ->%list_elem_of_singleton. apply Hc, has_slot_iff. lia.
  - intros (s & -> & Hs%elem_of_value_slots)%list_elem_of_fmap.
    apply Hc, has_slot_iff. lia.
Qed.

Lemma acc_irrefl {A} (R : A -> A -> Prop) x : Acc R x -> ~ tc R x x.
Proof.
  induction 1 as [x _ IH]. intros Hx.
  assert (R x x \/ exists y, tc R x y /\ R y x) as [Hr|(y & Hxy & Hyx)].
  { apply (@tc_ind_r A R (fun z => R x z \/ exists y, tc R x y /\ R y z) x); eauto. }
  - apply (IH x Hr). by apply tc_once.
  - apply (IH y Hyx). by eapply tc_l.
Qed.

(** On an acyclic path every node occurs once, so a unit of fuel per node is
    enough. *)
Lemma acyclic_fuel g fuel n (path : list NodeId) :
  graph_ok g -> closed g -> (forall m, Acc (calls g) m) ->
  n < vlen (nodes_ g) -> NoDup path ->
  (forall m, m ∈ path -> m < vlen (nodes_ g) /\ tc (calls g) n m) ->
  vlen (nodes_ g) < vlen path + N.of_nat fuel ->
  is_Some (resultTypeOf fuel g n).
Proof.
  intros Hg Hc Hacc. revert n path. induction fuel as [|fuel IH]; intros n path Hn Hnd Hp Hf.
  { exfalso. assert (vlen path <= vlen (nodes_ g)); [|lia].
    cut (length path <= length (indices (vlen (nodes_ g))))%nat.
    { rewrite length_indices. unfold vlen. lia. }
    apply submseteq_length, NoDup_submseteq; [done|].
    intros m Hm. apply elem_of_indices, Hp, Hm. }
  apply resultTypeOf_Some. intros m Hm.
  assert (n ∉ path) as Hnp.
  { intros H. eapply acc_irrefl; [apply (Hacc n)|]. by apply Hp. }
  apply (IH m (n :: path)).
  - by eapply type_calls_lt.
  - by apply NoDup_cons.
  - intros x [->|Hx]%elem_of_cons; [split; [done|by apply tc_once]|].
    destruct (Hp x Hx). split; [done|]. by eapply tc_l.
  - revert Hf. unfold vlen. simpl. lia.
Qed.

Lemma typeOf_returns g n :
  graph_ok g -> closed g -> (forall m, Acc (calls g) m) -> is_Some (typeOf g n).
Proof.
  intros Hg Hc Hacc. unfold typeOf, nodeCount.
  rewrite u32_small by apply (so_nodes g (go_storage g Hg)).
  destruct (N.lt_ge_cases n (vlen (nodes_ g))) as [Hn|Hn].
  - apply (acyclic_fuel g _ n []); try done; [constructor| |].
    + by intros m ?%not_elem_of_nil.
    + change (vlen []) with 0. lia.
  - cbn [resultTypeOf]. rewrite node_out_of_range by done. by eexists.
Qed.

(** ** The law *)

Definition alive (g : Graph) (n : NodeId) : Prop :=
  n < vlen (nodes_ g) /\ isDead (node g n) = false.

Definition alive_inputs (g : Graph) : Prop :=
  forall n s, has_slot g n s -> isDead (node g (input g n s)) = false.

(** A well-formed graph whose edges all end on live nodes, in which every type
    computation returns. *)
Record law (g : Graph) : Prop := {
  law_ok : graph_ok g;
  law_closed : closed g;
  law_alive : alive_inputs g;
  law_types : forall m, Acc (calls g) m;
  law_start : alive g (startNode g) /\ nd_kind (node g (startNode g)) = NodeKind.Start
}.

(** The kinds of junk sinks. *)
Definition sink_kind (k : NodeKind) : bool :=
  match k with
  | NodeKind.ConstantI | NodeKind.ConstantL | NodeKind.ConstantF | NodeKind.ConstantD
  | NodeKind.ConstantNull | NodeKind.If | NodeKind.Switch | NodeKind.CallStatic
  | NodeKind.FrameState | NodeKind.Region => true
  | _ => false
  end.

(** The kinds the two passes may remove. *)
Definition removable_kind (k : NodeKind) : bool := isGvnEligible k || isDceSafe k.

(** Nodes whose type does not depend on other nodes. *)
Definition leaf (g : Graph) (n : NodeId) : Prop :=
  nd_kind (node g n) <> NodeKind.Phi /\ nd_kind (node g n) <> NodeKind.BitCast.

Lemma leaf_calls g n : leaf g n -> type_calls g n = [].
Proof. intros [??]. unfold type_calls. by destruct (nd_kind (node g n)). Qed.

Lemma sink_leaf g n : sink_kind (nd_kind (node g n)) = true -> leaf g n.
Proof. unfold leaf. by destruct (nd_kind (node g n)). Qed.

Lemma law_start_leaf g : law g -> leaf g (startNode g).
Proof. intros Hl. unfold leaf. by rewrite (proj2 (law_start g Hl)). Qed.

(** Adding edges to leaves keeps every type computation finite. *)
Lemma acc_leaves g g' :
  (forall u v, v ∈ type_calls g' u -> v ∈ type_calls g u \/ leaf g' v) ->
  (forall m, Acc (calls g) m) -> forall m, Acc (calls g') m.
Proof.
  intros Hsub Hacc m. induction (Hacc m) as [u _ IH]. constructor. intros v Hv.
  destruct (Hsub u v Hv) as [H|H]; [by apply IH|].
  constructor. intros x Hx. unfold calls in Hx. rewrite (leaf_calls _ _ H) in Hx. by apply not_elem_of_nil in Hx.
Qed.

(** ** What the law's steps do to it *)

Lemma type_calls_spec g n m :
  m ∈ type_calls g n <->
  exists s, has_slot g n s /\ input g n s = m /\
    (nd_kind (node g n) = NodeKind.BitCast /\ s = 0 \/
     nd_kind (node g n) = NodeKind.Phi /\ 1 <= s).
Proof.
  unfold type_calls. destruct (nd_kind (node g n)) eqn:Hk;
    try (rewrite elem_of_nil; split; [done|intros (s & _ & _ & [[? _]|[? _]]); done]).
  - destruct (N.leb_spec 1 (numInputs g n)).
    + rewrite list_elem_of_singleton. setoid_rewrite has_slot_iff. split.
      * intros ->. exists 0. split_and!; [lia|done|by left].
      * intros (s & _ & <- & [[_ ->]|[? _]]); done.
    + rewrite elem_of_nil. setoid_rewrite has_slot_iff. split; [done|].
      intros (s & ? & _ & [[_ ->]|[? _]]); [lia|done].
  - rewrite list_elem_of_fmap. setoid_rewrite elem_of_value_slots.
    setoid_rewrite has_slot_iff. split.
    + intros (s & -> & ?). exists s. split_and!; [lia|done|right; split; [done|lia]].
    + intros (s & ? & <- & [[? _]|[_ ?]]); [done|]. exists s. split; [done|lia].
Qed.

Lemma law_setInput g n s v :
  law g -> alive g v -> leaf g v \/ leaf g n -> law (setInput g n s v).
Proof.
  intros [Hg Hc Ha Ht [[Hs1 Hs2] Hs3]] [Hv Hd] Hleaf.
  assert (forall m, node (setInput g n s v) m = node g m) as Hnode by (by apply setInput_node).
  split.
  - by apply setInput_ok.
  - by apply setInput_closed.
  - intros m t Hm. rewrite setInput_has_slot in Hm by done.
    rewrite Hnode, setInput_input by done. case_decide; [done|by apply Ha].
  - apply (acc_leaves g); [|done]. intros u x.
    rewrite type_calls_spec. intros (t & Ht1 & Ht2 & Ht3).
    rewrite setInput_has_slot in Ht1 by done. rewrite Hnode in Ht3.
    rewrite setInput_input in Ht2 by done. case_decide as Hdec.
    + subst x. destruct Hleaf as [Hleaf|[Hn1 Hn2]].
      * right. unfold leaf in *. by rewrite Hnode.
      * destruct Hdec as (-> & _ & _). naive_solver.
    + left. apply type_calls_spec. eauto.
  - unfold startNode. destruct (setInput_cases g n s v Hg) as [[-> _]|(nd & _ & _ & _ & ->)];
      done.
Qed.

Lemma law_appendInput g n v :
  law g -> alive g v -> leaf g v -> n < vlen (nodes_ g) -> no_wrap_append g n ->
  law (appendInput g n v).
Proof.
  intros [Hg Hc Ha Ht [[Hs1 Hs2] Hs3]] [Hv Hd] Hleaf [nd Hnd]%vget_lt_is_Some [Hw1 Hw2].
  unfold numInputs in Hw1, Hw2. rewrite (node_Some _ _ _ Hnd) in Hw1, Hw2.
  assert (forall m, nd_kind (node (appendInput g n v) m) = nd_kind (node g m) /\
                    nd_flags (node (appendInput g n v) m) = nd_flags (node g m)) as Hnode.
  { intros m. unfold node at 1 3. rewrite (appendInput_nodes g n v nd) by done.
    destruct (N.eqb_spec m n) as [->|]; [|done]. by rewrite (node_Some _ _ _ Hnd). }
  assert (forall m, isDead (node (appendInput g n v) m) = isDead (node g m)) as Hdead.
  { intros m. unfold isDead. by rewrite (proj2 (Hnode m)). }
  split.
  - by eapply appendInput_ok.
  - by eapply appendInput_closed.
  - intros m t Hm. rewrite Hdead, (appendInput_input g n v nd) by done.
    case_decide as Hdec; [done|]. apply Ha.
    apply (appendInput_has_slot g n v nd) in Hm; [tauto|done..].
  - apply (acc_leaves g); [|done]. intros u x.
    rewrite type_calls_spec. intros (t & Ht1 & Ht2 & Ht3).
    rewrite (proj1 (Hnode u)) in Ht3.
    rewrite (appendInput_input g n v nd) in Ht2 by done. case_decide as Hdec.
    + right. subst x. unfold leaf. by rewrite (proj1 (Hnode v)).
    + left. apply type_calls_spec. exists t. split; [|done].
      apply (appendInput_has_slot g n v nd) in Ht1; [tauto|done..].
  - assert (startNode (appendInput g n v) = startNode g) as Hst.
    { unfold appendInput. by rewrite Hnd. }
    rewrite Hst. unfold alive. rewrite Hdead, (proj1 (Hnode _)).
    by rewrite (appendInput_vlen_nodes g n v nd).
Qed.

Lemma law_makeRaw g k ins p p2 cv :
  law g -> no_wrap_make g ins -> k <> NodeKind.Phi -> k <> NodeKind.BitCast ->
  Forall (alive g) ins -> law (snd (makeRaw g k ins p p2 cv)).
Proof.
  intros [Hg Hc Ha Ht [[Hs1 Hs2] Hs3]] (Hw1 & Hw2 & Hw3) Hphi Hcast Hins.
  assert (forall m, m <> vlen (nodes_ g) ->
    node (snd (makeRaw g k ins p p2 cv)) m = node g m) as Hnode.
  { intros m Hm. rewrite makeRaw_node by done. by case_cmp. }
  assert (forall m, m < vlen (nodes_ g) -> m <> vlen (nodes_ g)) as Hlt by lia.
  split.
  - split; [by apply makeRaw_storage|by apply makeRaw_uses_exact].
  - apply makeRaw_closed; try done. eapply Forall_impl; [exact Hins|]. intros v [? _]. simpl. lia.
  - intros m t Hm%has_slot_iff. rewrite makeRaw_numInputs in Hm by done.
    rewrite makeRaw_input by done. destruct (N.eqb_spec m (vlen (nodes_ g))).
    + apply vget_lt_is_Some in Hm as [v Hv]. rewrite Hv. simpl.
      rewrite vget_lookup in Hv. eapply Forall_lookup_1 in Hins as [Hv1 Hv2]; [|done].
      by rewrite Hnode by auto.
    + apply has_slot_iff in Hm. rewrite Hnode by (apply Hlt, Hc, Hm). by apply Ha.
  - apply (acc_leaves g); [|done]. intros u x.
    rewrite type_calls_spec. intros (t & Ht1%has_slot_iff & Ht2 & Ht3). left.
    rewrite makeRaw_numInputs in Ht1 by done. rewrite makeRaw_input in Ht2 by done.
    rewrite makeRaw_node in Ht3 by done.
    destruct (N.eqb_spec u (vlen (nodes_ g))); [simpl in Ht3; naive_solver|].
    apply type_calls_spec. exists t. by rewrite has_slot_iff.
  - change (startNode (snd (makeRaw g k ins p p2 cv))) with (startNode g).
    unfold alive. rewrite Hnode, makeRaw_vlen_nodes by auto. split_and!; [lia|done..].
Qed.

Lemma law_killNode g n :
  law g -> usesOf g n = [] -> n <> startNode g -> law (killNode g n).
Proof.
  intros [Hg Hc Ha Ht [[Hs1 Hs2] Hs3]] Hu Hn.
  destruct (N.lt_ge_cases n (vlen (nodes_ g))) as [Hlt|Hge].
  2:{ rewrite killNode_out_of_range by done. by split. }
  assert (forall m, m <> n -> node (killNode g n) m = node g m) as Hnode.
  { intros m Hm. destruct (N.lt_ge_cases m (vlen (nodes_ g))).
    - rewrite killNode_node by done. by rewrite decide_False.
    - rewrite !node_out_of_range; [done|done|by rewrite killNode_vlen]. }
  assert (forall m, nd_kind (node (killNode g n) m) = nd_kind (node g m) /\
                    numInputs (killNode g n) m = numInputs g m) as Hkind.
  { intros m. destruct (decide (m = n)) as [->|Hm]; [|unfold numInputs; by rewrite Hnode].
    unfold numInputs. by rewrite killNode_node, decide_True. }
  assert (forall m s, has_slot (killNode g n) m s <-> has_slot g m s) as Hslot.
  { intros m s. by rewrite !has_slot_iff, (proj2 (Hkind m)). }
  split.
  - by apply killNode_ok.
  - by apply killNode_closed.
  - intros m s Hm%Hslot. rewrite killNode_input, Hnode; [by apply Ha|].
    intros Hin. assert (mkUse m s ∈ usesOf g n) as Hmem by (by apply elem_of_usesOf).
    rewrite Hu in Hmem. by apply not_elem_of_nil in Hmem.
  - apply (acc_leaves g); [|done]. intros u x. rewrite !type_calls_spec.
    setoid_rewrite killNode_input. setoid_rewrite Hslot. rewrite (proj1 (Hkind u)). by left.
  - assert (startNode (killNode g n) = startNode g) as ->.
    { unfold killNode, update_node, startNode.
      destruct (N.leb_spec (vlen (nodes_ g)) n); [done|].
      apply vget_lt_is_Some in Hlt as [nd Hnd]. simpl. by rewrite Hnd. }
    unfold alive. rewrite Hnode, killNode_vlen by done. done.
Qed.

Lemma replaceNode_side g o w :
  graph_ok g -> can_replace g o w ->
  let g' := snd (replaceNode g o w) in
  startNode g' = startNode g /\ fsDesc_ g' = fsDesc_ g /\ fsVobjs_ g' = fsVobjs_ g /\
  vlen (edgePool_ g') = vlen (edgePool_ g).
Proof.
  intros Hg Hcan g'. unfold g'. rewrite replaceNode_eq by done.
  destruct (replace_loop g o w Hg) as (_ & _ & (Hd & Hv & _ & _ & _ & _ & Hs) & Hp & _).
  unfold startNode, update_node. simpl.
  by destruct (vget (nodes_ (foldl (rewire_use o w) g (usesOf g o))) o).
Qed.

Lemma replaceNode_kind g o w m :
  graph_ok g -> can_replace g o w ->
  nd_kind (node (snd (replaceNode g o w)) m) = nd_kind (node g m).
Proof.
  intros Hg Hcan. destruct (N.lt_ge_cases m (vlen (nodes_ g))).
  - rewrite replaceNode_node by done. by case_decide.
  - rewrite !node_out_of_range; [done|done|by rewrite replaceNode_vlen].
Qed.

Lemma law_replaceNode g o w :
  law g -> can_replace g o w -> o <> startNode g ->
  (forall m, Acc (calls (snd (replaceNode g o w))) m) ->
  law (snd (replaceNode g o w)).
Proof.
  intros [Hg Hc Ha Ht [[Hs1 Hs2] Hs3]] Hcan Hstart Hacc.
  pose proof Hcan as (Ho & Hw & How & Hdead). split.
  - by apply replaceNode_graph_ok.
  - by apply replaceNode_closed.
  - intros m s Hm. rewrite has_slot_iff, replaceNode_numInputs, <- has_slot_iff in Hm by done.
    rewrite replaceNode_input by done. case_decide as Hin.
    + rewrite replaceNode_node by done. by rewrite decide_False.
    + rewrite replaceNode_node by (done || by apply Hc). rewrite decide_False by done.
      by apply Ha.
  - done.
  - destruct (replaceNode_side g o w) as (Hst & _); [done..|]. rewrite Hst.
    unfold alive. rewrite replaceNode_kind, replaceNode_vlen, replaceNode_node by done.
    by rewrite decide_False.
Qed.

(** Merging a node into one that makes the same recursive calls keeps the
    recursion finite. *)
Lemma acc_merge g o w :
  graph_ok g -> can_replace g o w -> (forall m, Acc (calls g) m) ->
  type_calls g o = type_calls g w ->
  forall m, Acc (calls (snd (replaceNode g o w))) m.
Proof.
  intros Hg Hcan Hacc Heq.
  assert (forall u v, v ∈ type_calls (snd (replaceNode g o w)) u <->
    exists x, x ∈ type_calls g u /\ v = if decide (x = o) then w else x) as Hcalls.
  { intros u v. rewrite type_calls_spec. setoid_rewrite type_calls_spec.
    rewrite replaceNode_kind by done. setoid_rewrite has_slot_iff.
    rewrite replaceNode_numInputs by done. split.
    - intros (s & Hs & Hin & Hk). rewrite replaceNode_input in Hin by (done || by apply has_slot_iff).
      exists (input g u s). split; [eauto|done].
    - intros (x & (s & Hs & Hin & Hk) & ->). exists s. split_and!; [done| |done].
      rewrite replaceNode_input by (done || by apply has_slot_iff). by rewrite Hin. }
  intros m. induction (Hacc m) as [u _ IH]. constructor. intros v Hv.
  apply Hcalls in Hv as (x & Hx & ->). pose proof (IH x Hx) as Hax.
  case_decide as Hxo; [subst x|done].
  constructor. intros y Hy. apply (Acc_inv Hax).
  apply Hcalls in Hy as (z & Hz & ->). apply Hcalls. exists z. by rewrite Heq.
Qed.

(** A test for the law on graphs without Phi and BitCast nodes. *)
Definition law_check (g : Graph) : bool :=
  forallb (fun n =>
    negb (kind_eqb (nd_kind (node g n)) NodeKind.Phi) &&
    negb (kind_eqb (nd_kind (node g n)) NodeKind.BitCast) &&
    forallb (fun s => negb (isDead (node g (input g n s)))) (indices (numInputs g n)))
    (indices (vlen (nodes_ g))) &&
  (startNode g <? vlen (nodes_ g)) && negb (isDead (node g (startNode g))) &&
  kind_eqb (nd_kind (node g (startNode g))) NodeKind.Start.

Lemma law_check_sound g : reachable g -> law_check g = true -> law g.
Proof.
  intros Hr. unfold law_check. rewrite !andb_true_iff, !negb_true_iff, kind_eqb_spec, N.ltb_lt.
  intros (((Hall & Hs1) & Hs2) & Hs3).
  destruct (reachable_ok g Hr) as [Hg Hc].
  assert (forall n, n < vlen (nodes_ g) -> leaf g n /\
    forall s, s < numInputs g n -> isDead (node g (input g n s)) = false) as Hnode.
  { intros n Hn. rewrite forallb_forall in Hall.
    specialize (Hall n ltac:(by apply list_elem_of_In, elem_of_indices)).
    rewrite !andb_true_iff, !negb_true_iff, forallb_forall in Hall.
    destruct Hall as ((H1 & H2) & H3). split.
    - split; intros Hk; rewrite Hk in *; done.
    - intros s Hs. specialize (H3 s ltac:(by apply list_elem_of_In, elem_of_indices)).
      by apply negb_true_iff. }
  split; [exact Hg|exact Hc| | |done].
  - intros n s [Hn Hs]. by apply Hnode.
  - intros m. constructor. intros x Hx. exfalso. unfold calls in Hx.
    rewrite leaf_calls in Hx; [by apply not_elem_of_nil in Hx|].
    destruct (N.lt_ge_cases m (vlen (nodes_ g))); [by apply Hnode|].
    unfold leaf. by rewrite node_out_of_range.
Qed.
