(* ===== verification/PassGrow.v ===== *)
(** * What junk rewiring changes

    [grown P c g g']: [g'] is [g] with at most [c] more nodes and [c] more edge
    words, in which only nodes satisfying [P] may have other inputs; every node
    keeps its kind, flags and payloads, and the new nodes are live sinks. Each
    sink request and each rewiring loop of PassSupport.cpp is such a growth. *)

From S2P Require Import Prelude IRTypes Effect NodeInfo SmallVector Graph GraphInv.
From S2P Require Import GraphReplace ResultType PassSupport PassLaw.

Local Open Scope N_scope.

(** The records differ at most in their edge slice. *)
Definition same_view (nd nd' : Node) : Prop :=
  nd_with_slice nd' 0 0 = nd_with_slice nd 0 0.

Lemma same_view_kind nd nd' : same_view nd nd' -> nd_kind nd' = nd_kind nd.
Proof. unfold same_view, nd_with_slice. by intros [= ??????]. Qed.

Lemma same_view_dead nd nd' : same_view nd nd' -> isDead nd' = isDead nd.
Proof. unfold same_view, nd_with_slice, isDead. by intros [= ? -> ?????]. Qed.

Lemma same_view_flags nd nd' : same_view nd nd' -> nd_flags nd' = nd_flags nd.
Proof. unfold same_view, nd_with_slice. by intros [= ? -> ?????]. Qed.

Lemma flags_0_alive nd : nd_flags nd = 0 -> isDead nd = false.
Proof. unfold isDead. by intros ->. Qed.

Record grown (P : NodeId -> Prop) (c : N) (g g' : Graph) : Prop := {
  gr_count : vlen (nodes_ g) <= vlen (nodes_ g') <= vlen (nodes_ g) + c;
  gr_pool : vlen (edgePool_ g') <= vlen (edgePool_ g) + c;
  gr_view : forall m, m < vlen (nodes_ g) -> same_view (node g m) (node g' m);
  gr_kept : forall m, m < vlen (nodes_ g) -> ~ P m ->
    node g' m = node g m /\ forall s, input g' m s = input g m s;
  gr_new : forall m, vlen (nodes_ g) <= m < vlen (nodes_ g') ->
    nd_flags (node g' m) = 0 /\ sink_kind (nd_kind (node g' m)) = true /\
    (removable_kind (nd_kind (node g' m)) = true -> numInputs g' m = 0);
  gr_start : startNode g' = startNode g;
  gr_fs : exists ds, fsDesc_ g' = fsDesc_ g ++ ds /\
    Forall (fun d => fs_caller d = kInvalidFrameState) ds /\ vlen ds <= c;
  gr_vobjs : fsVobjs_ g' = fsVobjs_ g
}.

Lemma grown_refl P g : grown P 0 g g.
Proof.
  split; try done; [lia|lia|intros; lia|]. exists []. by rewrite app_nil_r.
Qed.

Lemma grown_weaken (P Q : NodeId -> Prop) c c' g g' :
  grown P c g g' -> (forall m, m < vlen (nodes_ g) -> P m -> Q m) -> c <= c' -> grown Q c' g g'.
Proof.
  intros [H1 H2 H3 H4 H5 H6 (ds & H7 & H9 & H10) H8] HPQ Hc. split; try done; [lia|lia| |].
  - intros m Hm HQ. apply H4; [done|]. auto.
  - exists ds. split_and!; [done|done|lia].
Qed.

Lemma grown_trans (P Q : NodeId -> Prop) c1 c2 g1 g2 g3 :
  grown P c1 g1 g2 -> grown Q c2 g2 g3 ->
  (forall m, Q m -> m < vlen (nodes_ g1) -> P m) ->
  (forall m, Q m -> vlen (nodes_ g1) <= m ->
     removable_kind (nd_kind (node g2 m)) = false) ->
  grown P (c1 + c2) g1 g3.
Proof.
  intros [A1 A2 A3 A4 A5 A6 (d1 & A7 & A8 & A10) A9]
    [B1 B2 B3 B4 B5 B6 (d2 & B7 & B8 & B10) B9] HQ Hnew.
  split.
  - lia.
  - lia.
  - intros m Hm. unfold same_view in *. rewrite B3 by lia. by apply A3.
  - intros m Hm HP. destruct (A4 m Hm HP) as [An Ai].
    destruct (B4 m) as [Bn Bi]; [lia|by intros ?; apply HP, HQ|].
    split; [congruence|]. intros s. by rewrite Bi.
  - intros m Hm. destruct (N.lt_ge_cases m (vlen (nodes_ g2))) as [Hlt|Hge]; [|apply B5; lia].
    destruct (A5 m) as (H1 & H2 & H3); [lia|]. pose proof (B3 m Hlt) as Hv.
    rewrite (same_view_flags _ _ Hv), (same_view_kind _ _ Hv). split_and!; [done..|].
    intros Hr. rewrite <- (H3 Hr). unfold numInputs. destruct (B4 m Hlt) as [-> _]; [|done].
    intros HQm. rewrite Hnew in Hr; [done|done|lia].
  - congruence.
  - exists (d1 ++ d2). rewrite B7, A7, (assoc_L (++)). rewrite vlen_app.
    split_and!; [done|by apply Forall_app|lia].
  - congruence.
Qed.

Lemma grown_then P c1 c2 g1 g2 g3 :
  (forall m, P m -> m < vlen (nodes_ g1)) ->
  grown P c1 g1 g2 -> grown P c2 g2 g3 -> grown P (c1 + c2) g1 g3.
Proof.
  intros HP H1 H2. eapply grown_trans; [exact H1|exact H2|done|].
  intros m Hm Hge. apply HP in Hm. lia.
Qed.

Lemma grown_makeRaw P g k ins p p2 cv :
  graph_ok g -> no_wrap_make g ins -> sink_kind k = true ->
  (removable_kind k = true -> ins = []) ->
  grown P (1 + vlen ins) g (snd (makeRaw g k ins p p2 cv)).
Proof.
  intros Hg (Hw1 & Hw2 & Hw3) Hk Hr.
  split; try done.
  - rewrite makeRaw_vlen_nodes by done. lia.
  - simpl. rewrite vlen_app. lia.
  - intros m Hm. rewrite makeRaw_node by done. by case_cmp; [lia|].
  - intros m Hm _. split; [|intros s]; rewrite ?makeRaw_node, ?makeRaw_input by done;
      by case_cmp; [lia|].
  - intros m. rewrite makeRaw_vlen_nodes by done. intros Hm.
    assert (m = vlen (nodes_ g)) as -> by lia.
    unfold numInputs. rewrite makeRaw_node, N.eqb_refl by done. simpl. split_and!; [done..|].
    intros Hrem. by rewrite Hr.
  - exists []. rewrite app_nil_r. split_and!; [done|constructor|]. change (vlen []) with 0. lia.
Qed.

Lemma grown_setInput (P : NodeId -> Prop) g n s v :
  graph_ok g -> P n -> grown P 0 g (setInput g n s v).
Proof.
  intros Hg HP. pose proof (setInput_meta g n s v Hg) as (Hd & Hv & _ & _ & _ & _ & Hs).
  split; try done.
  - rewrite setInput_nodes by done. lia.
  - rewrite setInput_vlen_pool by done. lia.
  - intros m Hm. by rewrite setInput_node.
  - intros m Hm HnP. split; [by apply setInput_node|]. intros t.
    rewrite setInput_input by done. rewrite decide_False; [done|]. naive_solver.
  - intros m. rewrite setInput_nodes by done. lia.
  - exists []. by rewrite Hd, app_nil_r.
Qed.

Lemma grown_appendInput (P : NodeId -> Prop) g n v :
  graph_ok g -> n < vlen (nodes_ g) -> no_wrap_append g n -> P n ->
  grown P (numInputs g n + 1) g (appendInput g n v).
Proof.
  intros Hg [nd Hnd]%vget_lt_is_Some [Hw1 Hw2] HP.
  assert (numInputs g n = nd_numInputs nd) as Hnum.
  { unfold numInputs. by rewrite (node_Some _ _ _ Hnd). }
  rewrite Hnum in Hw1, Hw2.
  assert (forall m, m <> n -> node (appendInput g n v) m = node g m) as Hnode.
  { intros m Hm. unfold node. rewrite (appendInput_nodes g n v nd) by done. by case_cmp. }
  assert (startNode (appendInput g n v) = startNode g /\
    fsDesc_ (appendInput g n v) = fsDesc_ g /\
    fsVobjs_ (appendInput g n v) = fsVobjs_ g) as (Hs1 & Hs2 & Hs3).
  { unfold appendInput. by rewrite Hnd. }
  split; try done.
  - rewrite (appendInput_vlen_nodes g n v nd) by done. lia.
  - rewrite (appendInput_vlen_pool g n v nd) by done. lia.
  - intros m Hm. destruct (decide (m = n)) as [->|Hne]; [|by rewrite Hnode].
    unfold node. rewrite (appendInput_nodes g n v nd), N.eqb_refl by done. by rewrite Hnd.
  - intros m Hm HnP. assert (m <> n) by naive_solver. split; [by apply Hnode|]. intros t.
    rewrite (appendInput_input g n v nd) by done. rewrite decide_False; [done|]. naive_solver.
  - intros m. rewrite (appendInput_vlen_nodes g n v nd) by done. lia.
  - exists []. rewrite Hs2, app_nil_r. split_and!; [done|constructor|]. change (vlen []) with 0. lia.
Qed.

(** Every edge [g'] has beyond those of [g] ends in [T]. *)
Definition only_to (T : NodeId -> Prop) (g g' : Graph) : Prop :=
  forall m s, has_slot g' m s ->
    (has_slot g m s /\ input g' m s = input g m s) \/ T (input g' m s).

Lemma only_to_refl T g : only_to T g g.
Proof. intros m s Hs. by left. Qed.

Lemma only_to_trans T g1 g2 g3 : only_to T g1 g2 -> only_to T g2 g3 -> only_to T g1 g3.
Proof.
  intros H1 H2 m s Hs. destruct (H2 m s Hs) as [[Hs2 Hin]|]; [|by right]. rewrite Hin. by apply H1.
Qed.

Lemma only_to_impl (T U : NodeId -> Prop) g g' :
  (forall x, T x -> U x) -> only_to T g g' -> only_to U g g'.
Proof. intros HTU H m s Hs. destruct (H m s Hs); auto. Qed.

Lemma only_to_makeRaw T g k ins p p2 cv :
  graph_ok g -> no_wrap_make g ins -> Forall T ins ->
  only_to T g (snd (makeRaw g k ins p p2 cv)).
Proof.
  intros Hg (? & ? & ?) HT m s Hs%has_slot_iff. rewrite makeRaw_numInputs in Hs by done.
  rewrite makeRaw_input by done. destruct (N.eqb_spec m (vlen (nodes_ g))) as [->|Hne].
  - right. apply vget_lt_is_Some in Hs as [v Hv]. rewrite Hv. simpl.
    rewrite vget_lookup in Hv. by eapply Forall_lookup_1 in HT.
  - left. by rewrite has_slot_iff.
Qed.

Lemma only_to_setInput (T : NodeId -> Prop) g n s v :
  graph_ok g -> T v -> only_to T g (setInput g n s v).
Proof.
  intros Hg Hv m t Ht. rewrite setInput_has_slot in Ht by done.
  rewrite setInput_input by done. case_decide; [by right|by left].
Qed.

Lemma only_to_appendInput (T : NodeId -> Prop) g n v :
  graph_ok g -> n < vlen (nodes_ g) -> no_wrap_append g n -> T v ->
  only_to T g (appendInput g n v).
Proof.
  intros Hg [nd Hnd]%vget_lt_is_Some [Hw1 Hw2] Hv m t Ht.
  unfold numInputs in Hw1, Hw2. rewrite (node_Some _ _ _ Hnd) in Hw1, Hw2.
  apply (appendInput_has_slot g n v nd) in Ht; [|done..].
  rewrite (appendInput_input g n v nd) by done. case_decide; [by right|left; tauto].
Qed.

(** ** Making sinks *)

Definition nowhere (_ : NodeId) : Prop := False.

Definition room (c : N) (g : Graph) : Prop :=
  vlen (nodes_ g) + c < 4294967296 /\ vlen (edgePool_ g) + c < 4294967296 /\
  vlen (fsDesc_ g) + c < 4294967296.

Lemma room_grown P c d g g' : grown P c g g' -> room (c + d) g -> room d g'.
Proof.
  intros [? ? _ _ _ _ (ds & Hd & _ & ?) _] (? & ? & ?). unfold room. rewrite Hd, vlen_app. lia.
Qed.

Lemma room_le c d g : room c g -> d <= c -> room d g.
Proof. unfold room. lia. Qed.

Lemma room_make c g ins :
  room c g -> fits16 (vlen ins) -> 1 + vlen ins <= c -> no_wrap_make g ins.
Proof. intros (? & ? & _) ??. unfold no_wrap_make, fits32. split_and!; [lia|done|lia]. Qed.

Lemma law_same_edges g g' :
  same_edges g g' -> startNode g' = startNode g -> law g -> law g'.
Proof.
  intros Hs Hst [Hg Hc Ha Ht Hstart]. pose proof Hs as (Hn & Hp & Hu).
  assert (forall m, node g' m = node g m) as Hnode by (intros m; unfold node; by rewrite Hn).
  assert (forall m s, input g' m s = input g m s) as Hin.
  { intros m s. unfold input, pool_at. by rewrite Hnode, Hp. }
  split.
  - by eapply same_edges_ok.
  - by eapply same_edges_closed.
  - intros m s Hm. rewrite Hin, Hnode. apply Ha. revert Hm. unfold has_slot, numInputs.
    by rewrite Hnode, Hn.
  - apply (acc_leaves g); [|done]. intros u x. rewrite !type_calls_spec. unfold has_slot, numInputs.
    setoid_rewrite Hin. rewrite Hnode, Hn. by left.
  - unfold alive. by rewrite Hst, Hnode, Hn.
Qed.

Lemma grown_alive P c g g' n : grown P c g g' -> alive g n -> alive g' n.
Proof.
  intros [H1 _ H3 _ _ _ _ _] [Hn Hd]. split; [lia|]. by rewrite (same_view_dead _ _ (H3 n Hn)).
Qed.

Lemma grown_leaf P c g g' n : grown P c g g' -> n < vlen (nodes_ g) -> leaf g n -> leaf g' n.
Proof. intros [_ _ H3 _ _ _ _ _] Hn. unfold leaf. by rewrite (same_view_kind _ _ (H3 n Hn)). Qed.

Definition new_or_start (g : Graph) (x : NodeId) : Prop :=
  x = startNode g \/ vlen (nodes_ g) <= x.

Lemma new_or_start_grown {P c g g' x} :
  grown P c g g' -> new_or_start g' x -> new_or_start g x.
Proof.
  intros Hgr [->|Hx]; [left; apply (gr_start _ _ _ _ Hgr)|right].
  pose proof (gr_count _ _ _ _ Hgr). lia.
Qed.

(** A function that makes a fresh sink, at a cost of at most [c]. *)
Definition sink_maker (c : N) (mk : Graph -> NodeId * Graph) : Prop :=
  forall g, law g -> room c g ->
    law (snd (mk g)) /\ grown nowhere c g (snd (mk g)) /\
    only_to (new_or_start g) g (snd (mk g)) /\
    vlen (nodes_ g) <= fst (mk g) < vlen (nodes_ (snd (mk g))).

Lemma leaf_maker k p p2 cv :
  sink_kind k = true -> sink_maker 3 (fun g => makeRaw g k [] p p2 cv).
Proof.
  intros Hk g Hl Hroom.
  assert (no_wrap_make g []) as Hw by (by eapply room_make).
  split_and!.
  - apply law_makeRaw; auto; by destruct k.
  - eapply grown_weaken; [apply grown_makeRaw; auto; apply Hl|done|done].
  - apply only_to_makeRaw; [apply Hl|done|constructor].
  - rewrite makeRaw_id by apply Hw. done.
  - destruct Hw as (? & ? & ?). rewrite makeRaw_id, makeRaw_vlen_nodes by done. lia.
Qed.

Lemma makeFsSink_maker : sink_maker 4 makeFsSink.
Proof.
  intros g Hl Hroom. unfold makeFsSink, makeFrameState.
  set (g1 := snd (addFrameStateDesc g 0 0 kInvalidFrameState [])).
  assert (law g1) as Hl1 by (by apply (law_same_edges g)).
  assert (grown nowhere 1 g g1) as Hg1.
  { split; try done; unfold g1; simpl; try (intros; lia); try lia.
    - eexists [_]. split_and!; [reflexivity|by apply Forall_singleton|done].
    - by rewrite app_nil_r. }
  assert (room 3 g1) as Hroom1 by (by eapply room_grown).
  destruct (leaf_maker NodeKind.FrameState
    (fst (addFrameStateDesc g 0 0 kInvalidFrameState [])) 0 0%Z) with (g := g1)
    as (Hl2 & Hg2 & Ho2 & Hid); try done.
  split_and!; [exact Hl2| |exact Ho2|apply Hid|apply Hid].
  eapply grown_weaken; [eapply (grown_then nowhere 1 3 g g1); [done..|exact Hg2]|done|lia].
Qed.

Lemma law_start_alive g : law g -> alive g (startNode g).
Proof. intros Hl. apply Hl. Qed.

(** An If or Switch sink: a constant and the node that reads it. *)
Lemma branch_maker k :
  k = NodeKind.If \/ k = NodeKind.Switch ->
  sink_maker 8 (fun g => let '(c, g) := constantI g 0 in make g k [startNode g; c] 0 0).
Proof.
  intros Hk g Hl Hroom.
  destruct (leaf_maker NodeKind.ConstantI 0 0 0%Z eq_refl g Hl) as (Hl1 & Hg1 & Ho1 & Hc1);
    [by eapply room_le|].
  unfold constantI. destruct (makeRaw g NodeKind.ConstantI [] 0 0 0%Z) as [c g1] eqn:E1.
  cbn [fst snd] in *.
  assert (alive g1 c) as Hc.
  { split; [apply Hc1|]. apply flags_0_alive, (gr_new _ _ _ _ Hg1). lia. }
  assert (room 5 g1) as Hroom1 by (eapply room_grown; [exact Hg1|done]).
  assert (no_wrap_make g1 [startNode g1; c]) as Hw by (by eapply room_make).
  assert (sink_kind k = true /\ removable_kind k = false) as [Hk1 Hk2] by (by destruct Hk; subst k).
  assert (grown nowhere (1 + 2) g1 (snd (make g1 k [startNode g1; c] 0 0))) as Hg2.
  { apply (grown_makeRaw nowhere g1 k [startNode g1; c]); [apply Hl1|done|done|by rewrite Hk2]. }
  split_and!.
  - apply law_makeRaw; [done|done|by destruct Hk; subst k..|].
    apply Forall_cons; split; [by apply law_start_alive|by apply Forall_singleton].
  - eapply grown_weaken; [eapply (grown_then nowhere); [done|exact Hg1|exact Hg2]|done|lia].
  - eapply only_to_trans; [exact Ho1|]. apply only_to_makeRaw; [apply Hl1|done|].
    apply Forall_cons; split; [left; apply (gr_start _ _ _ _ Hg1)|].
    apply Forall_singleton. right. lia.
  - unfold make. rewrite makeRaw_id by apply Hw. lia.
  - unfold make. rewrite makeRaw_id, makeRaw_vlen_nodes by apply Hw. lia.
Qed.

Lemma makeCallSink_maker : sink_maker 10 makeCallSink.
Proof.
  intros g Hl Hroom. unfold makeCallSink.
  destruct (makeFsSink_maker g Hl) as (Hl1 & Hg1 & Ho1 & Hfs); [by eapply room_le|].
  destruct (makeFsSink g) as [fs g1]. cbn [fst snd] in *.
  assert (alive g1 fs /\ sink_kind (nd_kind (node g1 fs)) = true) as [Hfsa Hfsk].
  { destruct (gr_new _ _ _ _ Hg1 fs Hfs) as (?%flags_0_alive & ? & _). split; [split; [apply Hfs|done]|done]. }
  assert (room 6 g1) as Hroom1 by (eapply room_grown; [exact Hg1|done]).
  assert (no_wrap_make g1 [startNode g1; startNode g1]) as Hw by (by eapply room_make).
  pose proof Hw as (Hw1 & Hw2 & Hw3). pose proof (law_ok g1 Hl1) as Hok1.
  unfold make. set (bot := IRType.code IRType.Bottom).
  pose proof (grown_makeRaw nowhere g1 NodeKind.CallStatic [startNode g1; startNode g1] 0 bot 0%Z
    Hok1 Hw eq_refl ltac:(done)) as Hg2.
  pose proof (law_makeRaw g1 NodeKind.CallStatic [startNode g1; startNode g1] 0 bot 0%Z
    Hl1 Hw ltac:(done) ltac:(done)) as Hl2.
  pose proof (only_to_makeRaw (new_or_start g) g1 NodeKind.CallStatic
    [startNode g1; startNode g1] 0 bot 0%Z Hok1 Hw) as Ho2.
  pose proof (makeRaw_id g1 NodeKind.CallStatic [startNode g1; startNode g1] 0 bot 0%Z Hw1) as Hid.
  assert (vlen (nodes_ (snd (makeRaw g1 NodeKind.CallStatic [startNode g1; startNode g1] 0 bot 0%Z)))
    = vlen (nodes_ g1) + 1) as Hlen by (by apply makeRaw_vlen_nodes).
  pose proof (makeRaw_node g1 NodeKind.CallStatic [startNode g1; startNode g1] 0 bot 0%Z
    Hw2 Hw3 (vlen (nodes_ g1))) as Hnode.
  rewrite N.eqb_refl in Hnode.
  destruct (makeRaw g1 NodeKind.CallStatic [startNode g1; startNode g1] 0 bot 0%Z)
    as [call g2]. cbn [fst snd] in *. subst call.
  assert (law g2) as Hlg2.
  { apply Hl2. apply Forall_cons; split; [|apply Forall_singleton]; by apply law_start_alive. }
  assert (room 3 g2) as Hroom2 by (eapply room_grown; [exact Hg2|done]).
  assert (numInputs g2 (vlen (nodes_ g1)) = 2) as Hnum by (unfold numInputs; by rewrite Hnode).
  assert (no_wrap_append g2 (vlen (nodes_ g1))) as Hwa.
  { unfold no_wrap_append. rewrite Hnum. destruct Hroom2. split; [done|lia]. }
  assert (vlen (nodes_ (appendInput g2 (vlen (nodes_ g1)) fs)) = vlen (nodes_ g2)) as Hlen3.
  { destruct (vget_lt_is_Some (nodes_ g2) (vlen (nodes_ g1))) as [[nd Hnd] _]; [lia|].
    assert (nd_numInputs nd = 2) as Hn2 by (rewrite <- Hnum; unfold numInputs;
      by rewrite (node_Some _ _ _ Hnd)).
    destruct Hwa as [Hwa1 Hwa2]. rewrite Hnum in Hwa1, Hwa2.
    apply (appendInput_vlen_nodes g2 _ fs nd); [apply Hlg2|done|by rewrite Hn2|rewrite Hn2; lia]. }
  split_and!.
  - apply law_appendInput; try done.
    + by eapply grown_alive.
    + eapply grown_leaf; [exact Hg2|apply Hfs|by apply sink_leaf].
    + lia.
  - pose proof (grown_appendInput (fun m => m = vlen (nodes_ g1)) g2 (vlen (nodes_ g1)) fs
      (law_ok _ Hlg2) ltac:(lia) Hwa eq_refl) as Hg3. rewrite Hnum in Hg3.
    eapply grown_weaken.
    + eapply (grown_trans nowhere _ _ _ g g2); [eapply (grown_then nowhere); [done|exact Hg1|exact Hg2]|exact Hg3| |].
      * intros m -> Hm. pose proof (gr_count _ _ _ _ Hg1). lia.
      * intros m -> _. by rewrite Hnode.
    + done.
    + change (vlen [startNode g1; startNode g1]) with 2. lia.
  - eapply only_to_trans; [exact Ho1|]. eapply only_to_trans.
    + apply Ho2. apply Forall_cons; split; [|apply Forall_singleton]; left;
        apply (gr_start _ _ _ _ Hg1).
    + apply only_to_appendInput; [apply Hlg2|lia|done|]. right. lia.
  - pose proof (gr_count _ _ _ _ Hg1). lia.
  - lia.
Qed.

(** ** The cache of sinks *)

Definition sink_ids (jk : Junk) : list NodeId :=
  [ifSink jk; switchSink jk; callSink jk; fsSink jk; constI jk; constL jk; constF jk;
   constD jk; constNull jk].

Record junk_ok (g : Graph) (jk : Junk) : Prop := {
  jo_ids : forall x, x ∈ sink_ids jk ->
    x = kInvalidNodeId \/
    (x < vlen (nodes_ g) /\ sink_kind (nd_kind (node g x)) = true /\
     (removable_kind (nd_kind (node g x)) = true -> numInputs g x = 0));
  jo_regions : forall r, r ∈ regionSinks jk ->
    alive g r /\ nd_kind (node g r) = NodeKind.Region
}.

Definition world_ok (w : world) : Prop := law (fst w) /\ junk_ok (fst w) (snd w).

Lemma isJunkSink_spec jk x :
  isJunkSink jk x = true <-> x ∈ sink_ids jk \/ x ∈ regionSinks jk.
Proof.
  unfold isJunkSink, sink_ids. rewrite !orb_true_iff, !N.eqb_eq, !elem_of_cons, elem_of_nil.
  assert (existsb (fun r => r =? x) (regionSinks jk) = true <-> x ∈ regionSinks jk) as ->.
  { rewrite existsb_exists. setoid_rewrite N.eqb_eq. setoid_rewrite <- list_elem_of_In.
    naive_solver. }
  tauto.
Qed.

Lemma junk_ok_grown P c g g' jk :
  grown P c g g' ->
  (forall x, x < vlen (nodes_ g) -> sink_kind (nd_kind (node g x)) = true ->
     numInputs g' x = numInputs g x) ->
  junk_ok g jk -> junk_ok g' jk.
Proof.
  intros Hgr Hnum [H1 H2]. pose proof (gr_count _ _ _ _ Hgr). split.
  - intros x [->|(Hx & Hk & Hz)]%H1; [by left|right]. split; [lia|].
    rewrite (same_view_kind _ _ (gr_view _ _ _ _ Hgr x Hx)), Hnum; done.
  - intros r [Ha Hk]%H2. split; [by eapply grown_alive|].
    by rewrite (same_view_kind _ _ (gr_view _ _ _ _ Hgr r (proj1 Ha))).
Qed.

Lemma grown_numInputs c g g' x :
  grown nowhere c g g' -> x < vlen (nodes_ g) -> numInputs g' x = numInputs g x.
Proof.
  intros Hgr Hx. unfold numInputs. destruct (gr_kept _ _ _ _ Hgr x Hx) as [-> _]; [by intros []|done].
Qed.

(** What a request for a sink returns: no sink, or a live leaf that is the start
    node, an older sink or a new node. *)
Record sink_spec (c : N) (w : world) (r : NodeId) (w' : world) : Prop := {
  ss_ok : world_ok w';
  ss_grown : grown nowhere c (fst w) (fst w');
  ss_junk : forall x, isJunkSink (snd w') x = true ->
    isJunkSink (snd w) x = true \/ vlen (nodes_ (fst w)) <= x;
  ss_ends : only_to (new_or_start (fst w)) (fst w) (fst w');
  ss_sink : r = kInvalidNodeId \/
    (alive (fst w') r /\ leaf (fst w') r /\
     (r = startNode (fst w) \/ isJunkSink (snd w) r = true \/ vlen (nodes_ (fst w)) <= r))
}.

Lemma sink_spec_same w r :
  world_ok w ->
  r = kInvalidNodeId \/ (alive (fst w) r /\ leaf (fst w) r /\
     (r = startNode (fst w) \/ isJunkSink (snd w) r = true)) ->
  forall c, sink_spec c w r w.
Proof.
  intros Hw Hr c. split; [done| |by left|apply only_to_refl|naive_solver].
  eapply grown_weaken; [apply grown_refl|done|lia].
Qed.

Lemma sink_spec_start w c : world_ok w -> sink_spec c w (startNode (fst w)) w.
Proof.
  intros [Hl Hj]. apply sink_spec_same; [by split|]. right.
  split_and!; [by apply law_start_alive|by apply law_start_leaf|by left].
Qed.

(** [get] and [set] are the accessors of one cached id. *)
Definition cache_field (get : Junk -> NodeId) (set : NodeId -> Junk -> Junk) : Prop :=
  forall jk, get jk ∈ sink_ids jk /\
    forall v, regionSinks (set v jk) = regionSinks jk /\
      forall x, x ∈ sink_ids (set v jk) -> x = v \/ x ∈ sink_ids jk.

Lemma cached_spec c get set mk w :
  cache_field get set -> sink_maker c mk -> world_ok w -> room c (fst w) ->
  sink_spec c w (fst (cached get set mk w)) (snd (cached get set mk w)).
Proof.
  destruct w as [g jk]. intros Hf Hmk [Hl Hj] Hroom. cbn [fst snd] in *.
  destruct (Hf jk) as [Hget Hset]. unfold cached.
  destruct ((get jk =? kInvalidNodeId) || isDead (node g (get jk))) eqn:Hs.
  - destruct (Hmk g Hl Hroom) as (Hl' & Hg' & Ho' & Hid). destruct (mk g) as [id g'].
    cbn [fst snd] in *. destruct (Hset id) as [Hreg Hids].
    destruct (gr_new _ _ _ _ Hg' id Hid) as (Hd%flags_0_alive & Hk & Hz).
    split; cbn [fst snd].
    + split; [done|]. cbn [fst snd]. apply (junk_ok_grown _ _ _ _ _ Hg') in Hj as [H1 H2];
        [|intros x Hx _; by eapply grown_numInputs]. split.
      * intros x [->|Hx]%Hids; [right; split_and!; [apply Hid|done..]|by apply H1].
      * intros r. rewrite Hreg. apply H2.
    + done.
    + intros x. rewrite !isJunkSink_spec, Hreg. intros [[->|?]%Hids|?]; [right; lia|tauto..].
    + done.
    + right. split_and!; [split; [apply Hid|done]|by apply sink_leaf|right; right; lia].
  - apply orb_false_iff in Hs as [Hinv%N.eqb_neq Hdead]. cbn [fst snd].
    apply (sink_spec_same (g, jk)); [by split|]. right. cbn [fst snd].
    destruct (jo_ids g jk Hj _ Hget) as [?|(Hlt & Hk & _)]; [done|].
    split_and!; [by split|by apply sink_leaf|]. right. apply isJunkSink_spec. by left.
Qed.

Lemma sink_maker_le c d mk : sink_maker c mk -> c <= d -> sink_maker d mk.
Proof.
  intros H Hle g Hl Hroom. destruct (H g Hl) as (H1 & H2 & H3 & H4); [by eapply room_le|].
  split_and!; [done| |done|apply H4|apply H4]. by eapply grown_weaken.
Qed.

Ltac cache_field := intros jk; unfold sink_ids; simpl; rewrite !elem_of_cons; split; [tauto|];
  intros v; split; [done|]; intros x; rewrite !elem_of_cons; tauto.

Lemma parentSink_spec k w :
  world_ok w -> room 10 (fst w) ->
  sink_spec 10 w (fst (parentSink k w)) (snd (parentSink k w)).
Proof.
  intros Hw Hroom. destruct k; cbn [parentSink]; try exact (sink_spec_start w 10 Hw);
    apply cached_spec; try exact Hw; try exact Hroom; try exact makeCallSink_maker;
    try cache_field; (eapply sink_maker_le; [apply branch_maker; auto|lia]).
Qed.

Lemma fsSinkGet_spec w :
  world_ok w -> room 10 (fst w) -> sink_spec 10 w (fst (fsSinkGet w)) (snd (fsSinkGet w)).
Proof.
  intros Hw Hroom. unfold fsSinkGet. apply cached_spec; [cache_field| |exact Hw|exact Hroom].
  eapply sink_maker_le; [apply makeFsSink_maker|lia].
Qed.

Lemma dataSink_spec t w :
  world_ok w -> room 10 (fst w) ->
  sink_spec 10 w (fst (dataSink t w)) (snd (dataSink t w)).
Proof.
  intros Hw Hroom. destruct t; cbn [dataSink]; try exact (sink_spec_start w 10 Hw);
    try exact (sink_spec_same w _ Hw (or_introl eq_refl) 10);
    (apply cached_spec; [cache_field| |exact Hw|exact Hroom];
     eapply sink_maker_le; [by apply leaf_maker|lia]).
Qed.

Lemma law_not_invalid w r : world_ok w -> alive (fst w) r -> r <> kInvalidNodeId.
Proof.
  intros [Hl _] [Hr _] ->. pose proof (so_nodes _ (go_storage _ (law_ok _ Hl))) as Hn.
  unfold fits32, kInvalidNodeId in *. lia.
Qed.

Lemma push_region_spec c w :
  let k := vlen (regionSinks (snd w)) in
  world_ok w -> room c (fst w) -> k + 3 <= c -> fits16 (k + 2) ->
  sink_spec c w kInvalidNodeId (push_region w) /\
  vlen (regionSinks (snd (push_region w))) = k + 1.
Proof.
  destruct w as [g jk]. cbn [fst snd]. intros [Hl Hj] Hroom Hc Hk. unfold push_region.
  cbn [fst snd] in *. set (n := u16 (vlen (regionSinks jk) + 2)).
  assert (n = vlen (regionSinks jk) + 2) as Hn by (by apply u16_small).
  set (ins := replicate (N.to_nat n) (startNode g)).
  assert (vlen ins = n) as Hlen by (unfold vlen, ins; rewrite length_replicate; lia).
  assert (no_wrap_make g ins) as Hw.
  { eapply room_make; [exact Hroom|by rewrite Hlen, Hn|lia]. }
  assert (Forall (alive g) ins) as Hins.
  { apply Forall_replicate. by apply law_start_alive. }
  pose proof (law_makeRaw g NodeKind.Region ins 0 0 0%Z Hl Hw ltac:(done) ltac:(done) Hins) as Hl'.
  assert (grown nowhere c g (snd (makeRaw g NodeKind.Region ins 0 0 0%Z))) as Hg'.
  { eapply grown_weaken; [apply (grown_makeRaw nowhere); [apply Hl|done|done|done]|done|lia]. }
  assert (only_to (new_or_start g) g (snd (makeRaw g NodeKind.Region ins 0 0 0%Z))) as Ho'.
  { apply only_to_makeRaw; [apply Hl|done|]. apply Forall_replicate. by left. }
  assert (fst (makeRaw g NodeKind.Region ins 0 0 0%Z) = vlen (nodes_ g)) as Hid
    by (apply makeRaw_id, Hw).
  pose proof Hw as (Hw1 & Hw2 & Hw3).
  pose proof (makeRaw_node g NodeKind.Region ins 0 0 0%Z Hw2 Hw3 (vlen (nodes_ g))) as Hnode.
  assert (vlen (nodes_ (snd (makeRaw g NodeKind.Region ins 0 0 0%Z))) = vlen (nodes_ g) + 1)
    as Hlen' by (by apply makeRaw_vlen_nodes).
  rewrite N.eqb_refl in Hnode. unfold make.
  destruct (makeRaw g NodeKind.Region ins 0 0 0%Z) as [r g']. cbn [fst snd] in *. subst r.
  split; [split; cbn [fst snd]|].
  - split; [done|]. cbn [fst snd]. apply (junk_ok_grown _ _ _ _ _ Hg') in Hj as [H1 H2];
      [|intros x Hx _; by eapply grown_numInputs].
    split; [done|]. intros r. unfold push_regionSink. cbn [regionSinks].
    rewrite elem_of_app, list_elem_of_singleton. intros [Hr| ->]; [by apply H2|].
    unfold alive. rewrite Hnode. split; [split; [lia|done]|done].
  - done.
  - intros x. rewrite !isJunkSink_spec. unfold push_regionSink. cbn [regionSinks].
    rewrite elem_of_app, list_elem_of_singleton. intros [?|[?| ->]]; [tauto|tauto|right; lia].
  - done.
  - by left.
  - cbn [regionSinks push_regionSink]. rewrite vlen_app. done.
Qed.

Lemma push_regions_spec (B : N) k w :
  world_ok w -> room (N.of_nat k * B) (fst w) ->
  vlen (regionSinks (snd w)) + N.of_nat k + 2 <= B -> B <= 65536 ->
  sink_spec (N.of_nat k * B) w kInvalidNodeId (Nat.iter k push_region w) /\
  vlen (regionSinks (snd (Nat.iter k push_region w))) = vlen (regionSinks (snd w)) + N.of_nat k.
Proof.
  induction k as [|k IH]; intros Hw Hroom Hle HB.
  { split; [|simpl; lia]. by apply (sink_spec_same w _ Hw (or_introl eq_refl)). }
  destruct IH as [[Hw1 Hg1 Hj1 Ho1 _] Hlen]; [done|eapply room_le; [exact Hroom|lia]|lia|done|].
  assert (room B (fst (Nat.iter k push_region w))) as Hroom1.
  { eapply room_grown; [exact Hg1|]. eapply room_le; [exact Hroom|lia]. }
  rewrite Nat.iter_succ.
  destruct (push_region_spec B (Nat.iter k push_region w) Hw1 Hroom1) as [[Hw2 Hg2 Hj2 Ho2 _] Hlen2];
    [lia|unfold fits16; lia|].
  split; [|lia]. split.
  - done.
  - eapply grown_weaken; [eapply (grown_then nowhere); [done|exact Hg1|exact Hg2]|done|lia].
  - intros x [Hx|Hx]%Hj2; [by apply Hj1|]. right. pose proof (gr_count _ _ _ _ Hg1). lia.
  - eapply only_to_trans; [exact Ho1|]. by eapply only_to_impl; [intros x; apply (new_or_start_grown Hg1)|].
  - by left.
Qed.

Lemma regionSink_spec preds w :
  world_ok w -> 2 <= preds <= 65534 -> room ((preds + 2) * (preds + 2)) (fst w) ->
  sink_spec ((preds + 2) * (preds + 2)) w (fst (regionSink preds w)) (snd (regionSink preds w)) /\
  fst (regionSink preds w) <> kInvalidNodeId.
Proof.
  intros Hw Hp Hroom. unfold regionSink. cbn [fst snd].
  destruct (N.ltb_spec preds 2); [lia|].
  set (k := vlen (regionSinks (snd w))). set (m := preds - 1 - k).
  destruct (N.le_gt_cases (preds - 1) k) as [Hle|Hgt].
  - replace (N.to_nat m) with O by lia. change (Nat.iter 0 push_region w) with w.
    destruct (proj1 (vget_lt_is_Some (regionSinks (snd w)) (preds - 2))) as [r Hr]; [lia|].
    rewrite Hr. cbn [default from_option id]. rewrite vget_lookup in Hr.
    apply list_elem_of_lookup_2 in Hr.
    destruct (jo_regions _ _ (proj2 Hw) r Hr) as [Ha Hk].
    split; [|by apply (law_not_invalid w)]. apply sink_spec_same; [done|]. right.
    split_and!; [done| |right; apply isJunkSink_spec; by right].
    apply sink_leaf. by rewrite Hk.
  - destruct (push_regions_spec (preds + 2) (N.to_nat m) w) as [[Hw1 Hg1 Hj1 Ho1 _] Hlen];
      [done|eapply room_le; [exact Hroom|nia]|lia|lia|].
    rewrite N2Nat.id in Hg1, Hlen. fold k in Hlen.
    set (w1 := Nat.iter (N.to_nat m) push_region w) in *.
    destruct (proj1 (vget_lt_is_Some (regionSinks (snd w1)) (preds - 2))) as [r Hr]; [lia|].
    rewrite Hr. cbn [default from_option id]. rewrite vget_lookup in Hr.
    apply list_elem_of_lookup_2 in Hr.
    destruct (jo_regions _ _ (proj2 Hw1) r Hr) as [Ha Hk].
    split; [|by apply (law_not_invalid w1)]. split; [done| |done|done|].
    + eapply grown_weaken; [exact Hg1|done|nia].
    + right. split_and!; [done|apply sink_leaf; by rewrite Hk|].
      right. apply Hj1, isJunkSink_spec. by right.
Qed.
