(* ===== verification/PassRewire.v ===== *)
(** * Rewiring tombstones, [replace] and [kill]

    The loops of PassSupport.cpp that move edges onto sinks, and the two
    protocols built on them: each returns, keeps the tombstone law, and changes
    nothing but the edges it is meant to change. *)

From S2P Require Import Prelude IRTypes Effect NodeInfo SmallVector Graph GraphInv.
From S2P Require Import GraphReplace ResultType Verifier PassSupport PassLaw PassGrow.

Local Open Scope N_scope.

(** The nodes a rewiring may point an edge at. *)
Definition target (w : world) (x : NodeId) : Prop :=
  isJunkSink (snd w) x = true \/ new_or_start (fst w) x.

Record rewired (P : NodeId -> Prop) (c : N) (w w' : world) : Prop := {
  rw_ok : world_ok w';
  rw_grown : grown P c (fst w) (fst w');
  rw_junk : forall x, isJunkSink (snd w') x = true ->
    isJunkSink (snd w) x = true \/ vlen (nodes_ (fst w)) <= x;
  rw_ends : only_to (target w) (fst w) (fst w')
}.

Lemma rewired_refl P w : world_ok w -> rewired P 0 w w.
Proof. intros Hw. split; [done|apply grown_refl|by left|apply only_to_refl]. Qed.

Lemma target_back P c w w' x : rewired P c w w' -> target w' x -> target w x.
Proof.
  intros [_ Hg Hj _] [Hx|Hx]; [|right; by apply (new_or_start_grown Hg)].
  apply Hj in Hx as [?|?]; [by left|right; by right].
Qed.

Lemma rewired_trans P c1 c2 w1 w2 w3 :
  (forall m, P m -> m < vlen (nodes_ (fst w1))) ->
  rewired P c1 w1 w2 -> rewired P c2 w2 w3 -> rewired P (c1 + c2) w1 w3.
Proof.
  intros HP H12 H23. pose proof H12 as [Hw2 Hg2 Hj2 Ho2]. pose proof H23 as [Hw3 Hg3 Hj3 Ho3].
  split.
  - done.
  - by eapply grown_then.
  - intros x [Hx|Hx]%Hj3; [by apply Hj2|]. right. pose proof (gr_count _ _ _ _ Hg2). lia.
  - eapply only_to_trans; [exact Ho2|]. eapply only_to_impl; [|exact Ho3].
    intros x. by eapply target_back.
Qed.

Lemma rewired_weaken (P Q : NodeId -> Prop) c c' w w' :
  rewired P c w w' -> (forall m, m < vlen (nodes_ (fst w)) -> P m -> Q m) -> c <= c' ->
  rewired Q c' w w'.
Proof. intros [Hw Hg Hj Ho] HPQ Hc. split; [done| |done|done]. by eapply grown_weaken. Qed.

Lemma rewired_sink P c w r w' : sink_spec c w r w' -> rewired P c w w'.
Proof.
  intros [Hw Hg Hj Ho _]. split; [done| |done|].
  - eapply grown_weaken; [exact Hg|by intros m _ []|done].
  - eapply only_to_impl; [|exact Ho]. intros x Hx. by right.
Qed.

Lemma sink_target c w r w' :
  sink_spec c w r w' -> r <> kInvalidNodeId ->
  alive (fst w') r /\ leaf (fst w') r /\ target w r.
Proof.
  intros Hs Hr. destruct (ss_sink _ _ _ _ Hs) as [?|(Ha & Hl & Ht)]; [done|].
  split_and!; [done..|]. unfold target, new_or_start. tauto.
Qed.

Lemma sink_spec_le c c' w r w' : sink_spec c w r w' -> c <= c' -> sink_spec c' w r w'.
Proof.
  intros [H1 H2 H3 H4 H5] Hc. split; try done. by eapply grown_weaken.
Qed.

(** ** One slot *)

Definition slot_cost (k : N) : N := (k + 4) * (k + 4).

Lemma slot_cost_10 k : 10 <= slot_cost k.
Proof. unfold slot_cost. nia. Qed.

Lemma junkForSlot_spec n s w :
  let k := numInputs (fst w) n in
  world_ok w -> k <= 65535 -> room (slot_cost k) (fst w) ->
  exists r w', junkForSlot n s w = Some (r, w') /\ sink_spec (slot_cost k) w r w'.
Proof.
  intros k Hw Hk Hroom. pose proof (slot_cost_10 k) as Hc. unfold junkForSlot.
  fold (numInputs (fst w) n). fold k.
  assert (room 10 (fst w)) as Hroom10 by (by eapply room_le).
  assert (forall p, sink_spec 10 w (fst p) (snd p) -> exists r w', Some p = Some (r, w') /\
    sink_spec (slot_cost k) w r w') as Hpair.
  { intros [r w'] Hs. exists r, w'. split; [done|]. by eapply sink_spec_le. }
  destruct (N.leb_spec k s).
  { exists kInvalidNodeId, w. split; [done|]. by apply sink_spec_same; [|left]. }
  destruct (kind_eqb (nd_kind (node (fst w) n)) NodeKind.Phi && (s =? 0)).
  { set (preds := if (if 0 <? k then k - 1 else 0) <? 2 then 2
                  else if 0 <? k then k - 1 else 0).
    assert (2 <= preds <= 65534 /\ preds + 2 <= k + 4) as [Hp1 Hp2].
    { unfold preds. destruct (N.ltb_spec 0 k); [|lia]. destruct (N.ltb_spec (k - 1) 2); lia. }
    assert ((preds + 2) * (preds + 2) <= slot_cost k) as Hp3 by (unfold slot_cost; nia).
    exists (fst (regionSink preds w)), (snd (regionSink preds w)).
    split; [by rewrite <- surjective_pairing|].
    eapply sink_spec_le; [apply regionSink_spec; [done|done|eapply room_le; [exact Hroom|exact Hp3]]|exact Hp3]. }
  destruct (roleOfSlot (fst w) n s).
  1,4: (destruct (typeOf_returns (fst w) (input (fst w) n s)) as [t ->]; [apply Hw..|];
        by apply Hpair, dataSink_spec).
  - apply (Hpair (ctrlSink (fst w), w)). by apply sink_spec_start.
  - apply (Hpair (memSink (fst w), w)). by apply sink_spec_start.
  - by apply Hpair, fsSinkGet_spec.
  - by apply Hpair, parentSink_spec.
Qed.

(** Pointing an edge of [n] at the sink a request returned. *)
Lemma rewired_setInput (P : NodeId -> Prop) c w r w' n s :
  sink_spec c w r w' -> r <> kInvalidNodeId -> P n -> n < vlen (nodes_ (fst w)) ->
  (forall m, P m -> m < vlen (nodes_ (fst w))) ->
  rewired P c w (setInput (fst w') n s r, snd w').
Proof.
  intros Hs Hr HP Hn HPlt. pose proof Hs as [[Hl' Hj'] Hg' Hjk' Ho' _].
  destruct (sink_target _ _ _ _ Hs Hr) as (Ha & Hleaf & Ht).
  pose proof (law_ok _ Hl') as Hok.
  assert (grown P 0 (fst w') (setInput (fst w') n s r)) as Hg2 by (by apply grown_setInput).
  split; cbn [fst snd].
  - split; [apply law_setInput; auto|]. eapply junk_ok_grown; [exact Hg2| |done].
    intros x Hx _. by apply setInput_numInputs.
  - replace c with (c + 0) by lia. eapply (grown_then P); [done| |exact Hg2].
    apply (rw_grown P c w w'). by eapply rewired_sink.
  - done.
  - eapply only_to_trans; [apply (rw_ends nowhere c w w'); by eapply rewired_sink|].
    by apply only_to_setInput.
Qed.

Lemma junkSlot_spec (P : NodeId -> Prop) n s w :
  let k := numInputs (fst w) n in
  world_ok w -> k <= 65535 -> room (slot_cost k) (fst w) ->
  n < vlen (nodes_ (fst w)) -> P n -> (forall m, P m -> m < vlen (nodes_ (fst w))) ->
  exists w', junkSlot n s w = Some w' /\ rewired P (slot_cost k) w w' /\
    numInputs (fst w') n = k.
Proof.
  intros k Hw Hk Hroom Hn HP HPlt. unfold junkSlot.
  assert (exists w', Some w = Some w' /\ rewired P (slot_cost k) w w' /\
    numInputs (fst w') n = k) as Hskip.
  { exists w. split_and!; [done| |done].
    eapply rewired_weaken; [by apply (rewired_refl P)|done|lia]. }
  destruct ((input (fst w) n s =? startNode (fst w)) || (input (fst w) n s =? n)); [done|].
  destruct (junkForSlot_spec n s w Hw Hk Hroom) as (r & [g' jk'] & -> & Hs).
  assert (numInputs g' n = k) as Hnum.
  { unfold numInputs. destruct (gr_kept _ _ _ _ (ss_grown _ _ _ _ Hs) n Hn) as [H _]; [by intros []|].
    cbn [fst] in H. by rewrite H. }
  destruct (N.eqb_spec r kInvalidNodeId) as [->|Hr]; cbn [orb].
  { exists (g', jk'). split_and!; [done| |done]. by eapply rewired_sink. }
  destruct (N.eqb_spec r (input (fst w) n s)) as [->|Hr'].
  { exists (g', jk'). split_and!; [done| |done]. by eapply rewired_sink. }
  exists (setInput g' n s r, jk'). split_and!; [done| |].
  - by apply (rewired_setInput P _ w r (g', jk')).
  - cbn [fst]. rewrite setInput_numInputs; [done|].
    apply (law_ok g'), (ss_ok _ _ _ _ Hs).
Qed.

Lemma ofor_cons {A W} (x : A) l (body : A -> W -> option W) w :
  ofor (x :: l) body w = body x w ≫= ofor l body.
Proof.
  unfold ofor. cbn [foldl]. change (Some w ≫= body x) with (body x w).
  destruct (body x w); [done|]. cbn. by induction l.
Qed.

Lemma junkSlots_spec (P : NodeId -> Prop) n k l w :
  world_ok w -> numInputs (fst w) n = k -> k <= 65535 ->
  room (vlen l * slot_cost k) (fst w) ->
  n < vlen (nodes_ (fst w)) -> P n -> (forall m, P m -> m < vlen (nodes_ (fst w))) ->
  exists w', ofor l (junkSlot n) w = Some w' /\ rewired P (vlen l * slot_cost k) w w' /\
    numInputs (fst w') n = k.
Proof.
  revert w. induction l as [|s l IH]; intros w Hw Hnum Hk Hroom Hn HP HPlt.
  { exists w. split_and!; [done| |done]. by apply (rewired_refl P). }
  assert (vlen (s :: l) = 1 + vlen l) as Hlen by (unfold vlen; simpl length; lia).
  rewrite Hlen in *. rewrite ofor_cons. subst k.
  destruct (junkSlot_spec P n s w Hw Hk) as (w1 & -> & H1 & Hn1); try done.
  { eapply room_le; [exact Hroom|lia]. }
  pose proof (gr_count _ _ _ _ (rw_grown _ _ _ _ H1)).
  destruct (IH w1) as (w2 & Hf & H2 & Hn2).
  - apply H1.
  - done.
  - done.
  - eapply room_grown; [apply H1|]. eapply room_le; [exact Hroom|lia].
  - lia.
  - done.
  - intros m Hm. apply HPlt in Hm. lia.
  - exists w2. split_and!; [exact Hf| |done].
    eapply rewired_weaken; [eapply (rewired_trans P); [done|exact H1|exact H2]|done|lia].
Qed.

Definition edges_cost (k : N) : N := (k + 2) * ((k + 5) * (k + 5)).

Lemma padPhi_spec (P : NodeId -> Prop) n w :
  let k := numInputs (fst w) n in
  world_ok w -> room 13 (fst w) ->
  n < vlen (nodes_ (fst w)) -> P n -> (forall m, P m -> m < vlen (nodes_ (fst w))) ->
  exists w', padPhi n w = Some w' /\ rewired P 13 w w' /\
    numInputs (fst w') n <= k + 1 /\ (k <> 2 -> numInputs (fst w') n = k).
Proof.
  intros k Hw Hroom Hn HP HPlt. unfold padPhi.
  fold (numInputs (fst w) n). fold k.
  destruct (kind_eqb (nd_kind (node (fst w) n)) NodeKind.Phi && (k =? 2)) eqn:Hc.
  2:{ exists w. split_and!; [done| |fold k; lia|done].
      eapply rewired_weaken; [by apply (rewired_refl P)|done|lia]. }
  apply andb_true_iff in Hc as [Hphi%kind_eqb_spec Hk2%N.eqb_eq].
  destruct (typeOf_returns (fst w) (input (fst w) n 1)) as [t ->]; [apply Hw..|].
  set (t' := if bool_decide (t = IRType.Bottom) then IRType.Int else t).
  pose proof (dataSink_spec t' w Hw) as Hs. specialize (Hs ltac:(by eapply room_le)).
  destruct (dataSink t' w) as [pad [g' jk']]. cbn [fst snd] in Hs.
  pose proof (gr_count _ _ _ _ (ss_grown _ _ _ _ Hs)) as Hcount.
  assert (numInputs g' n = k) as Hnum.
  { unfold numInputs. destruct (gr_kept _ _ _ _ (ss_grown _ _ _ _ Hs) n Hn) as [H _]; [by intros []|].
    cbn [fst] in H. by rewrite H. }
  destruct (N.eqb_spec pad kInvalidNodeId) as [->|Hpad]; cbn [negb].
  { exists (g', jk'). split_and!; [done| |cbn [fst]; lia|done].
    eapply rewired_weaken; [by eapply rewired_sink|done|lia]. }
  destruct (sink_target _ _ _ _ Hs Hpad) as (Ha & Hleaf & Ht). cbn [fst snd] in *.
  destruct (ss_ok _ _ _ _ Hs) as [Hl' Hj']. cbn [fst snd] in *.
  assert (room 3 g') as Hroom' by (eapply room_grown; [apply (ss_grown _ _ _ _ Hs)|done]).
  assert (n < vlen (nodes_ g')) as Hn' by lia.
  assert (no_wrap_append g' n) as Hwa.
  { unfold no_wrap_append. rewrite Hnum, Hk2. destruct Hroom'. split; [done|lia]. }
  assert (grown P 3 g' (appendInput g' n pad)) as Hg2.
  { eapply grown_weaken; [apply (grown_appendInput P); [apply Hl'|done|done|done]|done|lia]. }
  exists (appendInput g' n pad, jk'). cbn [fst snd].
  assert (numInputs (appendInput g' n pad) n = k + 1) as Hnum2.
  { apply vget_lt_is_Some in Hn' as [nd Hnd]. destruct Hwa as [Hw1 Hw2].
    unfold numInputs in Hw1, Hw2, Hnum. rewrite (node_Some _ _ _ Hnd) in Hw1, Hw2, Hnum.
    rewrite (appendInput_numInputs g' n pad nd), N.eqb_refl, Hnum; [done|apply Hl'|done..]. }
  split_and!; [done| |lia|done]. split; cbn [fst snd].
  - split; [by apply law_appendInput|]. eapply junk_ok_grown; [exact Hg2| |done].
    intros x Hx Hxk. apply vget_lt_is_Some in Hn' as [nd Hnd]. destruct Hwa as [Hw1 Hw2].
    unfold numInputs in Hw1, Hw2. rewrite (node_Some _ _ _ Hnd) in Hw1, Hw2.
    rewrite (appendInput_numInputs g' n pad nd); [|apply Hl'|done..].
    destruct (N.eqb_spec x n) as [->|]; [|done]. exfalso.
    pose proof (same_view_kind _ _ (gr_view _ _ _ _ (ss_grown _ _ _ _ Hs) n Hn)) as Hv.
    cbn [fst] in Hv. rewrite Hv, Hphi in Hxk. done.
  - change 13 with (10 + 3). eapply (grown_then P); [done| |exact Hg2].
    apply (rw_grown P 10 w (g', jk')). by eapply rewired_sink.
  - apply (ss_junk _ _ _ _ Hs).
  - eapply only_to_trans; [apply (rw_ends nowhere 10 w (g', jk')); by eapply rewired_sink|].
    apply only_to_appendInput; [apply Hl'|done..].
Qed.

Lemma vlen_indices k : vlen (indices k) = k.
Proof. unfold vlen. rewrite length_indices. lia. Qed.

Lemma junkEdges_spec n w :
  let k := numInputs (fst w) n in
  world_ok w -> k <= 65535 -> room (edges_cost k) (fst w) -> n < vlen (nodes_ (fst w)) ->
  exists w', junkEdges n w = Some w' /\ rewired (eq n) (edges_cost k) w w'.
Proof.
  intros k Hw Hk Hroom Hn. unfold junkEdges.
  assert (13 + (k + 1) * slot_cost (k + 1) <= edges_cost k) as Hcost.
  { unfold edges_cost, slot_cost. nia. }
  destruct (padPhi_spec (eq n) n w Hw) as (w1 & -> & H1 & Hn1 & Hn1'); [|done|done|by intros ? <-|].
  { eapply room_le; [exact Hroom|lia]. }
  fold k in Hn1, Hn1'. pose proof (gr_count _ _ _ _ (rw_grown _ _ _ _ H1)) as Hc1.
  set (k1 := numInputs (fst w1) n) in *.
  assert (k1 <= 65535) as Hk1 by (destruct (decide (k = 2)); [lia|rewrite Hn1'; done]).
  assert (k1 * slot_cost k1 <= (k + 1) * slot_cost (k + 1)) as Hc2.
  { unfold slot_cost. nia. }
  destruct (junkSlots_spec (eq n) n k1 (indices k1) w1) as (w2 & Hf & H2 & _);
    rewrite ?vlen_indices; [apply H1|done|done| |lia|done|intros ? <-; lia|].
  { eapply room_grown; [apply H1|]. eapply room_le; [exact Hroom|lia]. }
  rewrite vlen_indices in H2. exists w2. split; [exact Hf|].
  eapply rewired_weaken; [eapply (rewired_trans (eq n)); [by intros ? <-|exact H1|exact H2]|done|lia].
Qed.

(** ** [replace] *)

Lemma charge_spec b :
  charge b = (false, mkBudget (b_limit b) (b_used b) true) \/
  (charge b = (true, mkBudget (b_limit b) (u32 (b_used b + 1)) false) /\
   b_exceeded b = false /\ b_used b < b_limit b).
Proof.
  unfold charge. destruct (b_exceeded b) eqn:He; cbn [orb]; [by left|].
  destruct (N.leb_spec (b_limit b) (b_used b)); [by left|by right].
Qed.

(** The state after [replaceNode], before the tombstone is rewired. *)
Lemma junk_ok_replaceNode g o w jk :
  graph_ok g -> can_replace g o w -> nd_kind (node g o) <> NodeKind.Region ->
  junk_ok g jk -> junk_ok (snd (replaceNode g o w)) jk.
Proof.
  intros Hg Hcan Ho [H1 H2]. split.
  - intros x [->|(Hx & Hk)]%H1; [by left|right].
    by rewrite replaceNode_vlen, replaceNode_kind, replaceNode_numInputs by done.
  - intros r [[Hr Hd] Hk]%H2. unfold alive. rewrite replaceNode_vlen, replaceNode_kind by done.
    split; [|done]. split; [done|]. rewrite replaceNode_node by done.
    rewrite decide_False; [done|]. naive_solver.
Qed.

Lemma replaceNode_law st o w :
  world_ok (ps_world st) -> can_replace (ps_g st) o w ->
  o <> startNode (ps_g st) -> nd_kind (node (ps_g st) o) <> NodeKind.Region ->
  (forall m, Acc (calls (snd (replaceNode (ps_g st) o w))) m) ->
  world_ok (snd (replaceNode (ps_g st) o w), ps_jk st).
Proof.
  intros [Hl Hj] Hcan Ho Hk Hacc. split; cbn [fst snd].
  - by apply law_replaceNode.
  - by apply junk_ok_replaceNode; [apply Hl|..].
Qed.

(** Under the law nothing refers to a dead node. *)
Lemma law_dead_unused g n :
  law g -> n < vlen (nodes_ g) -> isDead (node g n) = true -> usesOf g n = [].
Proof.
  intros Hl Hn Hd. apply elem_of_nil_inv. intros u Hu.
  apply elem_of_usesOf in Hu as [Hs Hin]; [|apply Hl|done].
  pose proof (law_alive g Hl _ _ Hs) as Ha. rewrite Hin in Ha. congruence.
Qed.

Record replaced (o v : NodeId) (g g' : Graph) : Prop := {
  rp_dead : isDead (node g' o) = true;
  rp_unused : usesOf g' o = [];
  rp_nodes : forall m, m < vlen (nodes_ g) -> m <> o -> node g' m = node g m;
  rp_inputs : forall m s, has_slot g m s -> m <> o ->
    input g' m s = if decide (input g m s = o) then v else input g m s;
  rp_new : forall m, vlen (nodes_ g) <= m < vlen (nodes_ g') ->
    nd_flags (node g' m) = 0 /\ sink_kind (nd_kind (node g' m)) = true /\
    (removable_kind (nd_kind (node g' m)) = true -> numInputs g' m = 0);
  rp_count : vlen (nodes_ g) <= vlen (nodes_ g') <= vlen (nodes_ g) + edges_cost (numInputs g o);
  rp_pool : vlen (edgePool_ g') <= vlen (edgePool_ g) + edges_cost (numInputs g o);
  rp_fs : exists ds, fsDesc_ g' = fsDesc_ g ++ ds /\
    vlen ds <= edges_cost (numInputs g o);
  rp_start : startNode g' = startNode g;
  rp_kind : forall m, m < vlen (nodes_ g) -> nd_kind (node g' m) = nd_kind (node g m)
}.

(** What the proof of [replace] needs to know before the call. *)
Record replaceable (o v : NodeId) (st : pass_state) : Prop := {
  rb_world : world_ok (ps_world st);
  rb_inputs : numInputs (ps_g st) o <= 65535;
  rb_room : room (edges_cost (numInputs (ps_g st) o)) (ps_g st);
  rb_kind : nd_kind (node (ps_g st) o) <> NodeKind.Region;
  rb_start : o <> startNode (ps_g st);
  rb_types : can_replace (ps_g st) o v ->
    forall m, Acc (calls (snd (replaceNode (ps_g st) o v))) m
}.

Lemma replace_cases o v st :
  replaceable o v st ->
  exists st', replace o v st = Some st' /\ world_ok (ps_world st') /\
  ( (ps_world st' = ps_world st /\ ps_t st' = ps_t st /\
     (b_exceeded (ps_b st') = true \/ ~ can_replace (ps_g st) o v)) \/
    (can_replace (ps_g st) o v /\ replaced o v (ps_g st) (ps_g st') /\
     b_exceeded (ps_b st') = false) ) /\
  b_limit (ps_b st') = b_limit (ps_b st) /\
  (b_exceeded (ps_b st') = false ->
     b_exceeded (ps_b st) = false /\ b_used (ps_b st) < b_limit (ps_b st) /\
     b_used (ps_b st') = u32 (b_used (ps_b st) + 1)).
Proof.
  intros [Hw Hk Hroom Hkind Hstart Hacc]. unfold replace.
  destruct (charge_spec (ps_b st)) as [->|(-> & Hex & Hlim)]; cbn [negb].
  { eexists. split; [done|]. cbn [ps_world ps_t ps_b b_exceeded b_limit]. split_and!; auto. done. }
  destruct (decide (can_replace (ps_g st) o v)) as [Hcan|Hcan].
  2:{ rewrite replaceNode_refused by done. cbn [N.eqb negb].
      eexists. split; [done|]. unfold ps_g, ps_jk.
      cbn [ps_world ps_t ps_b b_exceeded b_limit b_used]. rewrite <- surjective_pairing.
      split_and!; auto. }
  pose proof (replaceNode_law st o v Hw Hcan Hstart Hkind (Hacc Hcan)) as Hw1.
  pose proof (law_ok _ (proj1 Hw)) as Hok. fold (ps_g st) in Hok.
  pose proof (replaceNode_numInputs (ps_g st) o v Hok Hcan o) as Hnum.
  destruct (replaceNode_side (ps_g st) o v Hok Hcan) as (Hst & Hfsd & _ & Hpool).
  pose proof (replaceNode_vlen (ps_g st) o v Hok Hcan) as Hlen.
  pose proof (fun m => replaceNode_node (ps_g st) o v Hok Hcan m) as Hnode.
  pose proof (fun m s => replaceNode_input (ps_g st) o v Hok Hcan m s) as Hin.
  pose proof (fun m => replaceNode_kind (ps_g st) o v m Hok Hcan) as Hkd.
  destruct (replaceNode (ps_g st) o v) as [e g1]. cbn [fst snd] in *.
  assert (o < vlen (nodes_ (ps_g st))) as Ho by apply Hcan.
  set (b1 := mkBudget _ _ false).
  assert (exists w' t', (if negb (e =? 0) then
      match junkEdges o (g1, ps_jk st) with
      | None => None | Some w => Some (mkPass w (count_rewrite (ps_t st)) b1) end
      else Some (mkPass (g1, ps_jk st) (ps_t st) b1)) = Some (mkPass w' t' b1) /\
    rewired (eq o) (edges_cost (numInputs g1 o)) (g1, ps_jk st) w') as (w' & t' & -> & Hrw).
  { destruct (N.eqb_spec e 0) as [_|_]; cbn [negb].
    - eexists _, _. split; [done|].
      eapply rewired_weaken; [by apply (rewired_refl nowhere)|by intros m _ []|lia].
    - destruct (junkEdges_spec o (g1, ps_jk st) Hw1) as (w' & -> & Hrw); cbn [fst].
      + by rewrite Hnum.
      + rewrite Hnum. destruct Hroom. unfold room. by rewrite Hlen, Hpool, Hfsd.
      + by rewrite Hlen.
      + by eexists _, _. }
  cbn [fst] in Hrw. rewrite Hnum in Hrw. destruct Hrw as [Hw2 Hg2 _ _]. cbn [fst snd] in *.
  destruct Hg2 as [G1 G2 G3 G4 G5 G6 (ds & G7 & _ & G8) _]. rewrite Hlen in G1, G3, G4, G5.
  rewrite Hpool in G2. rewrite Hst in G6.
  eexists. split; [done|]. cbn [ps_world ps_t ps_b b_exceeded b_limit b_used].
  split; [done|]. split; [right|by split; [|done]].
  split; [done|]. split; [|done].
  assert (isDead (node (fst w') o) = true) as Hdead.
  { rewrite (same_view_dead _ _ (G3 o Ho)), (Hnode o Ho), decide_True by done.
    apply isDead_tombstone. }
  change (replaced o v (ps_g st) (fst w')). split; try done.
  - apply law_dead_unused; [apply Hw2|lia|done].
  - intros m Hm Hne. rewrite (proj1 (G4 m Hm ltac:(congruence))), (Hnode m Hm).
    by rewrite decide_False.
  - intros m s Hs Hne. rewrite (proj2 (G4 m (proj1 Hs) ltac:(congruence))). by apply Hin.
  - exists ds. by rewrite G7, Hfsd.
  - intros m Hm. by rewrite (same_view_kind _ _ (G3 m Hm)), Hkd.
Qed.

Lemma replace_no_budget o v st :
  charge (ps_b st) = (false, mkBudget (b_limit (ps_b st)) (b_used (ps_b st)) true) ->
  replace o v st = Some (mkPass (ps_world st) (ps_t st)
    (mkBudget (b_limit (ps_b st)) (b_used (ps_b st)) true)).
Proof. intros Hch. unfold replace. by rewrite Hch. Qed.

(** ** Slots that have a sink *)

(** The value types for which [dataSink] returns a node. *)
Definition has_sink (t : IRType) : bool :=
  match t with
  | IRType.Int | IRType.Long | IRType.Float | IRType.Double | IRType.Null | IRType.Ref
  | IRType.Bottom => true
  | _ => false
  end.

Lemma start_valid w : world_ok w -> startNode (fst w) <> kInvalidNodeId.
Proof. intros Hw. apply (law_not_invalid w); [done|]. apply law_start_alive, Hw. Qed.

Lemma cached_valid c get set mk w :
  sink_maker c mk -> world_ok w -> room c (fst w) ->
  fst (cached get set mk w) <> kInvalidNodeId.
Proof.
  destruct w as [g jk]. intros Hmk [Hl Hj] Hroom. unfold cached.
  destruct (N.eqb_spec (get jk) kInvalidNodeId); cbn [orb].
  2: destruct (isDead (node g (get jk))); [|done].
  all: destruct (Hmk g Hl Hroom) as (Hl' & _ & _ & _ & Hid); destruct (mk g) as [id g'];
    cbn [fst snd] in *; intros ->;
    pose proof (so_nodes _ (go_storage _ (law_ok _ Hl'))) as Hn;
    unfold fits32, kInvalidNodeId in *; lia.
Qed.

Lemma dataSink_valid t w :
  world_ok w -> room 10 (fst w) -> has_sink t = true -> fst (dataSink t w) <> kInvalidNodeId.
Proof.
  intros Hw Hroom Ht. destruct t; try discriminate Ht; cbn [dataSink];
    try exact (start_valid w Hw);
    (apply (cached_valid 10); [|exact Hw|exact Hroom];
     eapply sink_maker_le; [by apply leaf_maker|lia]).
Qed.

Lemma parentSink_valid k w :
  world_ok w -> room 10 (fst w) -> fst (parentSink k w) <> kInvalidNodeId.
Proof.
  intros Hw Hroom. destruct k; cbn [parentSink]; try exact (start_valid w Hw);
    (apply (cached_valid 10); [|exact Hw|exact Hroom]);
    try exact makeCallSink_maker; (eapply sink_maker_le; [apply branch_maker; auto|lia]).
Qed.

Lemma fsSinkGet_valid w : world_ok w -> room 10 (fst w) -> fst (fsSinkGet w) <> kInvalidNodeId.
Proof.
  intros Hw Hroom. unfold fsSinkGet. apply (cached_valid 10); [|exact Hw|exact Hroom].
  eapply sink_maker_le; [apply makeFsSink_maker|lia].
Qed.

Lemma junkForSlot_valid n s w r w' :
  let k := numInputs (fst w) n in
  world_ok w -> k <= 65535 -> room (slot_cost k) (fst w) -> s < k ->
  (forall t, typeOf (fst w) (input (fst w) n s) = Some t -> has_sink t = true) ->
  junkForSlot n s w = Some (r, w') -> r <> kInvalidNodeId.
Proof.
  intros k Hw Hk Hroom Hs Ht. pose proof (slot_cost_10 k) as Hc. unfold junkForSlot.
  fold (numInputs (fst w) n). fold k.
  assert (room 10 (fst w)) as Hroom10 by (by eapply room_le).
  assert (forall p : NodeId * world, fst p <> kInvalidNodeId -> Some p = Some (r, w') ->
    r <> kInvalidNodeId) as Hpair by (by intros [??] ? [= -> ->]).
  destruct (N.leb_spec k s); [lia|].
  destruct (kind_eqb (nd_kind (node (fst w) n)) NodeKind.Phi && (s =? 0)).
  { apply Hpair. set (preds := if (if 0 <? k then k - 1 else 0) <? 2 then 2
                  else if 0 <? k then k - 1 else 0).
    assert (2 <= preds <= 65534 /\ preds + 2 <= k + 4) as [Hp1 Hp2].
    { unfold preds. destruct (N.ltb_spec 0 k); [|lia]. destruct (N.ltb_spec (k - 1) 2); lia. }
    apply regionSink_spec; [done|done|]. eapply room_le; [exact Hroom|]. unfold slot_cost. nia. }
  destruct (roleOfSlot (fst w) n s).
  1,4: (destruct (typeOf (fst w) (input (fst w) n s)) as [t|]; [|done];
        apply Hpair, dataSink_valid; auto).
  - apply Hpair. by apply start_valid.
  - apply Hpair. by apply start_valid.
  - by apply Hpair, fsSinkGet_valid.
  - by apply Hpair, parentSink_valid.
Qed.

(** ** Types of live nodes *)

Lemma law_count g : law g -> nodeCount g = vlen (nodes_ g).
Proof. intros Hl. apply u32_small, so_nodes, go_storage, Hl. Qed.

Definition dead_in (g : Graph) (m : NodeId) : Prop :=
  m < vlen (nodes_ g) /\ isDead (node g m) = true.

Lemma phi_fold_ext (f f' : N -> option IRType) l acc :
  (forall s, s ∈ l -> f s = f' s) ->
  foldl (fun (acc : option (bool * IRType)) s =>
      match acc, f s with
      | Some (seen, t), Some v => Some (true, if seen : bool then join t v else v)
      | _, _ => None
      end) acc l =
  foldl (fun (acc : option (bool * IRType)) s =>
      match acc, f' s with
      | Some (seen, t), Some v => Some (true, if seen : bool then join t v else v)
      | _, _ => None
      end) acc l.
Proof.
  revert acc. induction l as [|s l IH]; intros acc Hf; cbn [foldl]; [done|].
  rewrite Hf by (by left). apply IH. intros s' Hs'. apply Hf. by right.
Qed.

(** Rewiring tombstones does not change the type of a live node. *)
Lemma resultTypeOf_kept c g g' fuel n :
  law g -> grown (dead_in g) c g g' -> alive g n ->
  resultTypeOf fuel g' n = resultTypeOf fuel g n.
Proof.
  intros Hl Hgr. revert n. induction fuel as [|fuel IH]; intros n [Hn Hd]; [done|].
  destruct (gr_kept _ _ _ _ Hgr n Hn) as [Hnode Hin]; [intros [_ ?]; congruence|].
  assert (forall s, s < numInputs g n ->
    resultTypeOf fuel g' (input g' n s) = resultTypeOf fuel g (input g n s)) as Hrec.
  { intros s Hs. rewrite Hin. apply IH. apply has_slot_iff in Hs.
    split; [by apply Hl|by apply Hl]. }
  cbn [resultTypeOf]. rewrite Hnode. destruct (nd_kind (node g n)); try done.
  - destruct (N.leb_spec 1 (nd_numInputs (node g n))); [|done].
    by rewrite Hrec by (unfold numInputs; lia).
  - f_equal. apply phi_fold_ext. intros s [_ Hs]%elem_of_value_slots. by apply Hrec.
Qed.

Lemma typeOf_kept c g g' n :
  law g -> law g' -> grown (dead_in g) c g g' -> alive g n -> typeOf g' n = typeOf g n.
Proof.
  intros Hl Hl' Hgr Ha. destruct (typeOf_returns g n) as [t Ht]; [apply Hl..|]. rewrite Ht.
  unfold typeOf in *. rewrite <- (resultTypeOf_kept c g g') in Ht by done.
  eapply resultTypeOf_mono; [|exact Ht]. rewrite !law_count by done.
  pose proof (gr_count _ _ _ _ Hgr). lia.
Qed.

(** ** [kill] *)

(** One dead referencer: only its edge moves, and off [n] when [n]'s type has a
    sink and [n] is not one itself. *)
Lemma junkUse_spec (P : NodeId -> Prop) n u W w :
  world_ok w -> P (u_user u) -> (forall m, P m -> m < vlen (nodes_ (fst w))) ->
  numInputs (fst w) (u_user u) <= W -> W <= 65535 -> room (slot_cost W) (fst w) ->
  exists w', junkUse n u w = Some w' /\ rewired P (slot_cost W) w w' /\
    (forall m, m < vlen (nodes_ (fst w)) -> numInputs (fst w') m = numInputs (fst w) m) /\
    (~ target w n -> (forall t, typeOf (fst w) n = Some t -> has_sink t = true) ->
     has_slot (fst w) (u_user u) (u_slot u) -> input (fst w') (u_user u) (u_slot u) <> n).
Proof.
  intros Hw HP HPlt HkW HW Hroom. set (k := numInputs (fst w) (u_user u)).
  assert (slot_cost k <= slot_cost W) as Hcost by (unfold slot_cost; nia).
  assert (rewired P (slot_cost W) w w) as Hrefl.
  { eapply rewired_weaken; [by apply (rewired_refl P)|done|lia]. }
  unfold junkUse. fold (numInputs (fst w) (u_user u)). fold k. rewrite law_count by apply Hw.
  destruct ((vlen (nodes_ (fst w)) <=? u_user u) || (k <=? u_slot u)) eqn:Hst.
  { exists w. split_and!; [done..|]. intros _ _ [H1 H2].
    apply orb_true_iff in Hst as [?%N.leb_le|?%N.leb_le]; [lia|]. fold k in H2. lia. }
  apply orb_false_iff in Hst as [Hlt%N.leb_gt Hslot%N.leb_gt].
  destruct (N.eqb_spec (input (fst w) (u_user u) (u_slot u)) n) as [Hin|Hne]; cbn [negb];
    [|by exists w].
  destruct (junkForSlot_spec (u_user u) (u_slot u) w Hw) as (r & [g' jk'] & Hj & Hs);
    [lia|by eapply room_le|].
  fold k in Hs. apply (fun H => sink_spec_le _ _ _ _ _ H Hcost) in Hs.
  assert ((forall t, typeOf (fst w) n = Some t -> has_sink t = true) -> r <> kInvalidNodeId)
    as Hvalid.
  { intros Ht. eapply (junkForSlot_valid (u_user u) (u_slot u) w r (g', jk'));
      [done|fold k; lia|by eapply room_le|done|by rewrite Hin|done]. }
  rewrite Hj.
  assert (forall m, m < vlen (nodes_ (fst w)) -> numInputs g' m = numInputs (fst w) m) as Hnum.
  { intros m Hm. unfold numInputs.
    destruct (gr_kept _ _ _ _ (ss_grown _ _ _ _ Hs) m Hm) as [H _]; [by intros []|].
    cbn [fst] in H. by rewrite H. }
  eexists. split; [done|]. destruct (N.eqb_spec r kInvalidNodeId) as [->|Hr]; cbn [negb fst snd].
  { split_and!; [by eapply rewired_sink|done|]. intros _ Ht. by destruct (Hvalid Ht). }
  pose proof (law_ok _ (proj1 (ss_ok _ _ _ _ Hs))) as Hok. cbn [fst] in Hok.
  split_and!.
  - by apply (rewired_setInput P _ w r (g', jk')).
  - intros m Hm. rewrite setInput_numInputs by done. by apply Hnum.
  - intros Ht _ Hh. rewrite setInput_input by done. rewrite decide_True.
    + intros ->. apply Ht. by eapply sink_target.
    + split_and!; [done|done|]. apply has_slot_iff. rewrite Hnum by done. by apply has_slot_iff.
Qed.

Lemma dead_in_grown P c g g' m : grown P c g g' -> dead_in g' m -> dead_in g m.
Proof.
  intros Hgr [Hm Hd]. destruct (N.lt_ge_cases m (vlen (nodes_ g))) as [Hlt|Hge].
  - split; [done|]. by rewrite <- (same_view_dead _ _ (gr_view _ _ _ _ Hgr m Hlt)).
  - destruct (gr_new _ _ _ _ Hgr m) as (Ha%flags_0_alive & _); [done|congruence].
Qed.

Lemma junkUses_spec n W us w :
  world_ok w -> alive (fst w) n -> ~ target w n ->
  (us <> [] -> forall t, typeOf (fst w) n = Some t -> has_sink t = true) ->
  (forall u, u ∈ us -> dead_in (fst w) (u_user u) /\ numInputs (fst w) (u_user u) <= W) ->
  W <= 65535 -> room (vlen us * slot_cost W) (fst w) ->
  exists w', ofor us (junkUse n) w = Some w' /\
    rewired (dead_in (fst w)) (vlen us * slot_cost W) w w' /\
    (forall m, m < vlen (nodes_ (fst w)) -> numInputs (fst w') m = numInputs (fst w) m) /\
    (forall m s, has_slot (fst w') m s -> input (fst w') m s = n ->
       has_slot (fst w) m s /\ input (fst w) m s = n /\ mkUse m s ∉ us).
Proof.
  revert w. induction us as [|u us IH]; intros w Hw Hn Ht Hty0 Hus HW Hroom.
  { exists w. split_and!; [done|by apply rewired_refl|done|].
    intros m s Hs Hin. split_and!; [done|done|apply not_elem_of_nil]. }
  assert (vlen (u :: us) = 1 + vlen us) as Hlen by (unfold vlen; simpl length; lia).
  rewrite Hlen in *. rewrite ofor_cons. specialize (Hty0 ltac:(done)) as Hty. clear Hty0.
  destruct (Hus u) as [Hu HuW]; [by left|].
  destruct (junkUse_spec (dead_in (fst w)) n u W w Hw) as (w1 & -> & H1 & Hn1 & Hrm); try done.
  { by intros m []. }
  { eapply room_le; [exact Hroom|lia]. }
  specialize (Hrm Ht Hty). pose proof (rw_grown _ _ _ _ H1) as Hg1.
  pose proof (gr_count _ _ _ _ Hg1) as Hc1.
  destruct (IH w1) as (w2 & Hf & H2 & Hn2 & Hend).
  - apply H1.
  - by eapply grown_alive.
  - intros H. apply Ht. by eapply target_back.
  - intros _ t. rewrite (typeOf_kept (slot_cost W) (fst w) (fst w1));
      [apply Hty|apply Hw|apply (rw_ok _ _ _ _ H1)|exact Hg1|done].
  - intros u' Hu'. destruct (Hus u') as [[Hlt Hd] HW']; [by right|].
    rewrite Hn1 by done. split; [|done]. split; [lia|].
    by rewrite (same_view_dead _ _ (gr_view _ _ _ _ Hg1 _ Hlt)).
  - done.
  - eapply room_grown; [exact Hg1|]. eapply room_le; [exact Hroom|lia].
  - exists w2. split_and!; [exact Hf| | |].
    + eapply rewired_weaken; [eapply (rewired_trans (dead_in (fst w)))|done|].
      * by intros m [].
      * exact H1.
      * eapply rewired_weaken; [exact H2| |apply N.le_refl].
        intros m _. by eapply dead_in_grown.
      * lia.
    + intros m Hm. rewrite Hn2 by lia. by apply Hn1.
    + intros m s Hs Hin. destruct (Hend m s Hs Hin) as (Hs1 & Hin1 & Hnu).
      destruct (rw_ends _ _ _ _ H1 m s Hs1) as [[Hs0 Hin0]|Hbad]; [|by rewrite Hin1 in Hbad].
      split_and!; [done|congruence|]. rewrite not_elem_of_cons. split; [|done].
      intros <-. cbn [u_user u_slot] in Hrm. by apply (Hrm Hs0).
Qed.

Lemma junk_ok_killNode g n jk :
  n < vlen (nodes_ g) -> n ∉ regionSinks jk -> junk_ok g jk -> junk_ok (killNode g n) jk.
Proof.
  intros Hn Hreg [H1 H2].
  assert (forall m, m < vlen (nodes_ g) ->
    nd_kind (node (killNode g n) m) = nd_kind (node g m)) as Hkind.
  { intros m Hm. rewrite killNode_node by done. by case_decide. }
  split.
  - intros x [->|(Hx & Hk)]%H1; [by left|right]. rewrite killNode_vlen, Hkind by done.
    split; [done|]. unfold numInputs. rewrite killNode_node by done. by case_decide.
  - intros r Hr. destruct (H2 r Hr) as [[Hlt Hd] Hk]. rewrite Hkind by done.
    split; [|done]. split; [by rewrite killNode_vlen|].
    rewrite killNode_node by done. rewrite decide_False; [done|]. by intros ->.
Qed.

(** [n] is dead in [g'], nothing refers to it, and the live part of [g] is
    untouched. *)
Record killed (n : NodeId) (c : N) (g g' : Graph) : Prop := {
  kd_dead : isDead (node g' n) = true;
  kd_unused : usesOf g' n = [];
  kd_live : forall m, alive g m -> m <> n ->
    node g' m = node g m /\ forall s, input g' m s = input g m s;
  kd_view : forall m, m < vlen (nodes_ g) ->
    nd_kind (node g' m) = nd_kind (node g m) /\
    (m <> n -> isDead (node g' m) = isDead (node g m));
  kd_new : forall m, vlen (nodes_ g) <= m < vlen (nodes_ g') ->
    isDead (node g' m) = false /\ sink_kind (nd_kind (node g' m)) = true /\
    (removable_kind (nd_kind (node g' m)) = true -> numInputs g' m = 0);
  kd_count : vlen (nodes_ g) <= vlen (nodes_ g') <= vlen (nodes_ g) + c;
  kd_pool : vlen (edgePool_ g') <= vlen (edgePool_ g) + c;
  kd_start : startNode g' = startNode g;
  kd_fs : exists ds, fsDesc_ g' = fsDesc_ g ++ ds /\
    Forall (fun d => fs_caller d = kInvalidFrameState) ds /\ vlen ds <= c
}.

(** What the proof of [kill] needs to know before the call. [W] bounds the
    number of inputs of the dead referencers. *)
Definition kill_cost (W : N) (g : Graph) (n : NodeId) : N :=
  vlen (usesOf g n) * slot_cost W + edges_cost (numInputs g n).

Record killable (W : N) (n : NodeId) (st : pass_state) : Prop := {
  kb_world : world_ok (ps_world st);
  kb_sink : isJunkSink (ps_jk st) n = false \/
    (usesOf (ps_g st) n = [] /\ numInputs (ps_g st) n = 0 /\ n ∉ regionSinks (ps_jk st));
  kb_start : n <> startNode (ps_g st);
  kb_type : usesOf (ps_g st) n <> [] ->
    forall t, typeOf (ps_g st) n = Some t -> has_sink t = true;
  kb_inputs : numInputs (ps_g st) n <= 65535 /\ W <= 65535;
  kb_users : forall u, u ∈ usesOf (ps_g st) n -> numInputs (ps_g st) (u_user u) <= W;
  kb_room : room (kill_cost W (ps_g st) n) (ps_g st)
}.

Lemma live_user_spec g u :
  law g -> live_user g u = true <-> alive g (u_user u).
Proof.
  intros Hl. unfold live_user, alive. rewrite law_count by done.
  rewrite andb_true_iff, negb_true_iff, N.ltb_lt. done.
Qed.

Lemma kill_rewire W n st :
  killable W n st -> alive (ps_g st) n ->
  existsb (live_user (ps_g st)) (usesOf (ps_g st) n) = false ->
  exists w1 w2, ofor (usesOf (ps_g st) n) (junkUse n) (ps_world st) = Some w1 /\
    junkEdges n w1 = Some w2 /\
    rewired (fun m => dead_in (ps_g st) m \/ n = m) (kill_cost W (ps_g st) n) (ps_world st) w2 /\
    usesOf (fst w2) n = [] /\ n ∉ regionSinks (snd w2).
Proof.
  intros [Hw Hsink Hstart Hty [Hk HW] Husers Hroom] Ha Hlive. unfold kill_cost in *.
  destruct Hsink as [Hsink|(Hu0 & Hk0 & Hr0)].
  2:{ rewrite Hu0, Hk0. exists (ps_world st), (ps_world st). split; [done|].
      assert (junkEdges n (ps_world st) = Some (ps_world st)) as ->.
      { unfold junkEdges, padPhi. fold (ps_g st) (numInputs (ps_g st) n). rewrite Hk0.
        rewrite andb_false_r. fold (ps_g st). by rewrite Hk0. }
      split; [done|]. split; [|done].
      eapply rewired_weaken; [by apply (rewired_refl nowhere)|by intros m _ []|lia]. }
  assert (~ target (ps_world st) n) as Ht.
  { unfold ps_jk in Hsink. intros [?|[?|?]]; [congruence|done|]. destruct Ha. unfold ps_g in *. lia. }
  pose proof (proj1 Hw) as Hl. fold (ps_g st) in Hl.
  assert (forall u, u ∈ usesOf (ps_g st) n -> dead_in (ps_g st) (u_user u)) as Hdead.
  { intros u Hu. destruct (proj1 (elem_of_usesOf (ps_g st) n u (law_ok _ Hl) (proj1 Ha)) Hu)
      as [[Hlt _] _].
    split; [done|]. destruct (isDead (node (ps_g st) (u_user u))) eqn:E; [done|exfalso].
    rewrite <- not_true_iff_false, existsb_exists in Hlive. apply Hlive. exists u.
    split; [by apply list_elem_of_In|]. by apply live_user_spec. }
  destruct (junkUses_spec n W (usesOf (ps_g st) n) (ps_world st)) as (w1 & Hf1 & H1 & Hn1 & Hend);
    try done.
  { intros u Hu. split; [by apply Hdead|by apply Husers]. }
  { eapply room_le; [exact Hroom|lia]. }
  fold (ps_g st) in *. pose proof (rw_grown _ _ _ _ H1) as Hg1. fold (ps_g st) in Hg1.
  pose proof (gr_count _ _ _ _ Hg1) as Hc1. destruct Ha as [Hlt Hd].
  destruct (junkEdges_spec n w1) as (w2 & Hf2 & H2); rewrite ?Hn1 by done.
  { apply H1. } { done. }
  { eapply room_grown; [exact Hg1|exact Hroom]. } { lia. }
  rewrite Hn1 in H2 by done.
  assert (rewired (fun m => dead_in (ps_g st) m \/ n = m)
    (vlen (usesOf (ps_g st) n) * slot_cost W + edges_cost (numInputs (ps_g st) n))
    (ps_world st) w2) as H.
  { eapply (rewired_trans _ _ _ _ w1).
    - intros m [[? _]| <-]; done.
    - eapply rewired_weaken; [exact H1|by left|done].
    - eapply rewired_weaken; [exact H2|by right|done]. }
  exists w1, w2. split_and!; [done|done|exact H| |].
  - apply elem_of_nil_inv. intros u Hu. pose proof (gr_count _ _ _ _ (rw_grown _ _ _ _ H2)).
    apply elem_of_usesOf in Hu as [Hs Hin]; [|apply (rw_ok _ _ _ _ H2)|lia].
    destruct (rw_ends _ _ _ _ H2 _ _ Hs) as [[Hs1 Hin1]|Hbad].
    + destruct (Hend (u_user u) (u_slot u)) as (Hs0 & Hin0 & Hnu); [done|congruence|].
      apply Hnu. apply (elem_of_usesOf (ps_g st)); [apply Hl|done|done].
    + rewrite Hin in Hbad. apply Ht. eapply target_back; [exact H1|exact Hbad].
  - intros Hr. apply Ht. eapply target_back; [exact H|]. left. apply isJunkSink_spec. by right.
Qed.

Lemma killed_intro c n g g2 :
  grown (fun m => dead_in g m \/ n = m) c g g2 -> alive g n -> usesOf g2 n = [] ->
  killed n c g (killNode g2 n).
Proof.
  intros [G1 G2 G3 G4 G5 G6 G7 _] [Hlt Hd] Hun.
  assert (n < vlen (nodes_ g2)) as Hlt2 by lia.
  assert (forall m, m <> n -> node (killNode g2 n) m = node g2 m) as Hnode.
  { intros m Hm. destruct (N.lt_ge_cases m (vlen (nodes_ g2))).
    - rewrite killNode_node by done. by rewrite decide_False.
    - rewrite !node_out_of_range; [done|done|by rewrite killNode_vlen]. }
  assert (forall m, nd_kind (node (killNode g2 n) m) = nd_kind (node g2 m)) as Hkind.
  { intros m. destruct (decide (m = n)) as [->|]; [|by rewrite Hnode].
    by rewrite killNode_node, decide_True. }
  destruct (killNode_same_edges g2 n Hlt2) as (Hns & Hps & _).
  assert (startNode (killNode g2 n) = startNode g2 /\ fsDesc_ (killNode g2 n) = fsDesc_ g2)
    as [Hst Hfs].
  { unfold killNode, update_node. destruct (N.leb_spec (vlen (nodes_ g2)) n); [done|].
    cbn. by destruct (vget (nodes_ g2) n). }
  split.
  - rewrite killNode_node, decide_True by done. apply isDead_kill.
  - by rewrite killNode_usesOf.
  - intros m [Hm Hmd] Hne. destruct (G4 m Hm) as [Hn Hi].
    { intros [[_ ?]|?]; congruence. }
    rewrite Hnode by done. split; [done|]. intros s. by rewrite killNode_input.
  - intros m Hm. rewrite Hkind. split; [by apply same_view_kind, G3|]. intros Hne.
    rewrite Hnode by done. by apply same_view_dead, G3.
  - intros m. rewrite killNode_vlen. intros Hm. unfold numInputs.
    rewrite Hnode by lia. destruct (G5 m Hm) as (?%flags_0_alive & ? & ?). done.
  - by rewrite killNode_vlen.
  - rewrite Hps, update_node_pool. lia.
  - by rewrite Hst.
  - by rewrite Hfs.
Qed.

Lemma kill_no_budget n st :
  law (ps_g st) -> alive (ps_g st) n ->
  charge (ps_b st) = (false, mkBudget (b_limit (ps_b st)) (b_used (ps_b st)) true) ->
  kill n st = Some (false, mkPass (ps_world st) (ps_t st)
    (mkBudget (b_limit (ps_b st)) (b_used (ps_b st)) true)).
Proof.
  intros Hl [Hlt Hd] Hch. unfold kill. rewrite law_count, Hd, Hch by done.
  by destruct (N.leb_spec (vlen (nodes_ (ps_g st))) n); [lia|].
Qed.

Lemma kill_cases W n st :
  killable W n st ->
  exists b st', kill n st = Some (b, st') /\ world_ok (ps_world st') /\
    b_limit (ps_b st') = b_limit (ps_b st) /\
  ( (b = true /\ st' = st /\ ~ alive (ps_g st) n) \/
    (b = false /\ alive (ps_g st) n /\ ps_world st' = ps_world st /\ ps_t st' = ps_t st /\
     ((charge (ps_b st) = (false, ps_b st') /\ b_exceeded (ps_b st') = true) \/
      exists u, u ∈ usesOf (ps_g st) n /\ alive (ps_g st) (u_user u))) \/
    (b = true /\ alive (ps_g st) n /\ killed n (kill_cost W (ps_g st) n) (ps_g st) (ps_g st') /\
     (forall u, u ∈ usesOf (ps_g st) n -> ~ alive (ps_g st) (u_user u)) /\
     ps_t st' = count_removal (ps_t st) /\ b_exceeded (ps_b st') = false) ) /\
  (alive (ps_g st) n -> b_exceeded (ps_b st') = false ->
     b_exceeded (ps_b st) = false /\ b_used (ps_b st) < b_limit (ps_b st) /\
     b_used (ps_b st') = u32 (b_used (ps_b st) + 1)).
Proof.
  intros Hkb. pose proof (kb_world _ _ _ Hkb) as Hw. pose proof (proj1 Hw) as Hl.
  fold (ps_g st) in Hl. unfold kill. rewrite law_count by done.
  destruct ((vlen (nodes_ (ps_g st)) <=? n) || isDead (node (ps_g st) n)) eqn:Hgone.
  { assert (~ alive (ps_g st) n) as Hna.
    { intros [H1 H2]. apply orb_true_iff in Hgone as [?%N.leb_le|?]; [lia|congruence]. }
    exists true, st. split_and!; try done. by left. }
  apply orb_false_iff in Hgone as [Hlt%N.leb_gt Hd].
  assert (alive (ps_g st) n) as Ha by done.
  destruct (charge_spec (ps_b st)) as [Hch|(Hch & Hex & Hlim)]; rewrite Hch; cbn [negb].
  { eexists false, _. split; [done|]. cbn [ps_world ps_t ps_b b_exceeded b_limit].
    split_and!; try done. right; left. split_and!; auto. }
  destruct (existsb (live_user (ps_g st)) (usesOf (ps_g st) n)) eqn:Hlive.
  { eexists false, _. split; [done|]. cbn [ps_world ps_t ps_b b_exceeded b_limit b_used].
    split_and!; try done. right; left. split_and!; auto. right.
    apply existsb_exists in Hlive as (u & Hu & Hal). exists u.
    split; [by apply list_elem_of_In|]. by apply live_user_spec. }
  destruct (kill_rewire W n st Hkb Ha Hlive) as (w1 & [g2 jk2] & Hf1 & Hf2 & H2 & Hun & Hreg).
  cbn [ps_world]. rewrite Hf1, Hf2. cbn [fst snd] in *.
  destruct H2 as [[Hl2 Hj2] Hg2 _ _]. cbn [fst snd] in *.
  fold (ps_g st) in *.
  eexists true, _. split; [done|]. cbn [ps_world ps_t ps_b b_exceeded b_limit b_used fst].
  split; [|split; [done|split]].
  - split; cbn [fst snd].
    + apply law_killNode; [done|done|]. rewrite (gr_start _ _ _ _ Hg2). apply (kb_start _ _ _ Hkb).
    + apply junk_ok_killNode; [|done|done]. pose proof (gr_count _ _ _ _ Hg2). lia.
  - right; right. split; [done|]. split; [done|]. split; [|split; [|done]].
    + by apply killed_intro.
    + intros u Hu Hal. rewrite <- not_true_iff_false, existsb_exists in Hlive. apply Hlive.
      exists u. split; [by apply list_elem_of_In|]. by apply live_user_spec.
  - done.
Qed.

(** ** Runs of a pass *)

(** The invariant of a run that removes nodes of the kinds [sel]: [W] bounds
    their inputs, and there is room for the sinks of every removal the budget
    still allows. *)
Record run_ok (sel : NodeKind -> bool) (W : N) (st : pass_state) : Prop := {
  do_world : world_ok (ps_world st);
  do_width : forall m, alive (ps_g st) m -> sel (nd_kind (node (ps_g st) m)) = true ->
    numInputs (ps_g st) m <= W;
  do_W : W <= 65535;
  do_limit : b_limit (ps_b st) < 4294967296;
  do_room : room ((b_limit (ps_b st) - b_used (ps_b st)) * edges_cost W) (ps_g st)
}.

Lemma run_ok_budget sel W st b t :
  run_ok sel W st -> b_limit b = b_limit (ps_b st) -> b_used (ps_b st) <= b_used b ->
  run_ok sel W (mkPass (ps_world st) t b).
Proof.
  intros [H1 H2 H3 H4 H5] Hl Hu. split; try done; unfold ps_g in *; cbn [ps_b ps_world] in *;
    rewrite Hl; [done|]. eapply room_le; [exact H5|]. apply N.mul_le_mono_r. lia.
Qed.

Lemma edges_cost_mono k W : k <= W -> edges_cost k <= edges_cost W.
Proof.
  intros H. unfold edges_cost. apply N.mul_le_mono; [lia|]. apply N.mul_le_mono; lia.
Qed.

Lemma run_ok_fs sel W st : run_ok sel W st -> vlen (fsDesc_ (ps_g st)) < 4294967296.
Proof.
  intros [_ _ _ _ Hroom].
  assert (room 0 (ps_g st)) as (_ & _ & R) by (eapply room_le; [exact Hroom|apply N.le_0_l]). lia.
Qed.

(** Paying for one removal leaves the room for the others. *)
Lemma room_step W l u g g' :
  room ((l - u) * edges_cost W) g -> u < l ->
  vlen (nodes_ g') <= vlen (nodes_ g) + edges_cost W /\
  vlen (edgePool_ g') <= vlen (edgePool_ g) + edges_cost W /\
  (exists ds, fsDesc_ g' = fsDesc_ g ++ ds /\ vlen ds <= edges_cost W) ->
  room ((l - (u + 1)) * edges_cost W) g'.
Proof.
  intros Hroom Hlt (H1 & H2 & ds & H3 & H4).
  assert ((l - u) * edges_cost W = (l - (u + 1)) * edges_cost W + edges_cost W) as Heq.
  { rewrite <- N.mul_succ_l. f_equal. lia. }
  rewrite Heq in Hroom. destruct Hroom as (R1 & R2 & R3). unfold room. rewrite H3, vlen_app.
  split_and!; lia.
Qed.

(** A budget that allows one more removal has the room for it. *)
Lemma room_one sel W st c :
  run_ok sel W st -> b_used (ps_b st) < b_limit (ps_b st) -> c <= edges_cost W ->
  room c (ps_g st).
Proof.
  intros [_ _ _ _ Hroom] Hlt Hc. eapply room_le; [exact Hroom|]. etrans; [exact Hc|].
  rewrite <- (N.mul_1_l (edges_cost W)) at 1. apply N.mul_le_mono_r. lia.
Qed.

(** ** An example *)

(** [return 1 + 2], with the sum computed twice. *)
Definition pass_example : Graph :=
  let '(a, g) := constantI newGraph 1 in
  let '(b, g) := constantI g 2 in
  let '(_, g) := make g NodeKind.AddI [a; b] 0 0 in
  let '(s, g) := make g NodeKind.AddI [a; b] 0 0 in
  snd (make g NodeKind.Return [startNode g; s] 0 0).

Definition example_state : pass_state :=
  mkPass (pass_example, newJunk) noTelemetry (mkBudget 10 0 false).

Lemma pass_example_law : law pass_example.
Proof.
  apply law_check_sound; [|vm_compute; reflexivity]. unfold reachable.
  eapply rtc_l. { apply (step_make _ NodeKind.ConstantI [] 0 0 1%Z); vm_compute; repeat constructor. }
  eapply rtc_l. { apply (step_make _ NodeKind.ConstantI [] 0 0 2%Z); vm_compute; repeat constructor. }
  eapply rtc_l. { apply (step_make _ NodeKind.AddI [1; 2] 0 0 0%Z);
    vm_compute; repeat constructor; discriminate. }
  eapply rtc_l. { apply (step_make _ NodeKind.AddI [1; 2] 0 0 0%Z);
    vm_compute; repeat constructor; discriminate. }
  apply rtc_once. apply (step_make _ NodeKind.Return [0; 4] 0 0 0%Z);
    vm_compute; repeat constructor; discriminate.
Qed.

Lemma junk_ok_new g : junk_ok g newJunk.
Proof.
  split; [|by intros r ?%not_elem_of_nil]. intros x Hx. left. revert x Hx.
  apply Forall_forall. by repeat constructor.
Qed.

Lemma example_world_ok : world_ok (ps_world example_state).
Proof. split; [apply pass_example_law|apply junk_ok_new]. Qed.

Lemma example_width m : m < vlen (nodes_ pass_example) -> numInputs pass_example m <= 2.
Proof.
  cut (Forall (fun m => numInputs pass_example m <= 2) [0;1;2;3;4;5]).
  { intros H Hm. apply (proj1 (Forall_forall _ _) H).
    change (m < 6) in Hm. rewrite !elem_of_cons. lia. }
  repeat constructor; vm_compute; discriminate.
Qed.

(** ** The protocols keep the law *)

(** [replace] returns and keeps the tombstone law. When it acts, the old
    node is dead and unreferenced, every edge that named it names the new node,
    and every other node, live or dead, is unchanged; otherwise (budget spent,
    or [replaceNode] refused) the graph is as before. *)
Theorem replace_keeps_law o v st :
  replaceable o v st ->
  exists st', replace o v st = Some st' /\ world_ok (ps_world st') /\
    (ps_world st' = ps_world st \/
     (can_replace (ps_g st) o v /\ replaced o v (ps_g st) (ps_g st'))).
Proof.
  intros Hr. destruct (replace_cases o v st Hr) as (st' & Hs & Hw & Hc & _).
  exists st'. split; [exact Hs|]. split; [exact Hw|].
  destruct Hc as [(? & _)|(? & ? & _)]; [by left|by right].
Qed.

Lemma replace_keeps_law_witness :
  exists st', replace 4 3 example_state = Some st' /\ world_ok (ps_world st') /\
    input (ps_g st') 5 1 = 3.
Proof.
  assert (replaceable 4 3 example_state) as Hr.
  { split; [apply example_world_ok|vm_compute; discriminate| |vm_compute; discriminate
           |vm_compute; discriminate|].
    - split_and!; vm_compute; reflexivity.
    - intros Hcan. apply (acc_merge pass_example);
        [apply pass_example_law|exact Hcan|apply pass_example_law|vm_compute; reflexivity]. }
  destruct (replace_keeps_law 4 3 example_state Hr) as (st' & Hs & Hw & _).
  exists st'. split; [exact Hs|]. split; [exact Hw|].
  assert (exists st0, replace 4 3 example_state = Some st0 /\ input (ps_g st0) 5 1 = 3)
    as (st0 & H0 & Hin) by (eexists; split; vm_compute; reflexivity).
  congruence.
Defined.

(** [kill] returns. When the node's value type has a sink and the node is
    no sink itself, the tombstone law holds afterwards: on success the node is
    dead and nothing refers to it, and every other live node is unchanged; on
    refusal (a live referencer, or no budget) the graph is as before. *)
Theorem kill_keeps_law W n st :
  killable W n st ->
  exists b st', kill n st = Some (b, st') /\ world_ok (ps_world st') /\
    (b = false -> ps_world st' = ps_world st /\ alive (ps_g st) n) /\
    (b = true -> ~ alive (ps_g st') n /\
       (n < vlen (nodes_ (ps_g st)) -> usesOf (ps_g st') n = []) /\
       forall m, alive (ps_g st) m -> m <> n ->
         alive (ps_g st') m /\ node (ps_g st') m = node (ps_g st) m /\
         forall s, input (ps_g st') m s = input (ps_g st) m s).
Proof.
  intros Hk. destruct (kill_cases W n st Hk) as (b & st' & Hs & Hw & _ & Hc & _).
  exists b, st'. split; [exact Hs|]. split; [exact Hw|].
  destruct Hc as [(-> & -> & Hna)|[(-> & Ha & Hsame & _)|(-> & Ha & Hkd & _)]].
  - split; [done|]. intros _. split; [done|]. split; [|done]. intros Hlt.
    apply law_dead_unused; [apply Hw|done|].
    destruct (isDead (node (ps_g st) n)) eqn:E; [done|]. by destruct Hna.
  - by split.
  - split; [done|]. intros _. destruct Hkd as [K1 K2 K3 K4 K5 K6 _ _ _].
    split; [intros [_ ?]; congruence|]. split; [done|]. intros m Hm Hne.
    destruct (K3 m Hm Hne) as [Hnode Hin]. split; [|done].
    destruct Hm as [Hlt Hd]. split; [lia|]. by rewrite Hnode.
Qed.

Lemma kill_keeps_law_witness :
  exists st', kill 3 example_state = Some (true, st') /\ world_ok (ps_world st') /\
    ~ alive (ps_g st') 3.
Proof.
  assert (killable 0 3 example_state) as Hk.
  { split; [apply example_world_ok|left; vm_compute; reflexivity|vm_compute; discriminate
           |intros H; exfalso; apply H; vm_compute; reflexivity
           |split; vm_compute; discriminate| |].
    - intros u Hu. exfalso. change (usesOf (ps_g example_state) 3) with (@nil Use) in Hu.
      by apply not_elem_of_nil in Hu.
    - split_and!; vm_compute; reflexivity. }
  destruct (kill_keeps_law 0 3 example_state Hk) as (b & st' & Hs & Hw & _ & Hb).
  assert (exists st0, kill 3 example_state = Some (true, st0))
    as (st0 & H0) by (eexists; vm_compute; reflexivity).
  assert (b = true /\ st' = st0) as [-> ->] by (split; congruence).
  exists st0. split; [exact H0|]. split; [exact Hw|]. apply Hb. reflexivity.
Defined.

(** The law needs the type condition: when the only referencer of a live
    node is dead and reads a value of a type without a sink (a vector or a
    tagged value), [kill] leaves that edge in place and still kills the node, so
    a tombstone keeps a dead input. *)
Theorem kill_leaves_dead_input st n u t :
  world_ok (ps_world st) -> alive (ps_g st) n -> usesOf (ps_g st) n = [u] ->
  dead_in (ps_g st) (u_user u) -> roleOfSlot (ps_g st) (u_user u) (u_slot u) = InputRole.Data ->
  nd_kind (node (ps_g st) (u_user u)) <> NodeKind.Phi ->
  typeOf (ps_g st) n = Some t -> has_sink t = false ->
  numInputs (ps_g st) n <= 65535 -> room (edges_cost (numInputs (ps_g st) n)) (ps_g st) ->
  b_exceeded (ps_b st) = false -> b_used (ps_b st) < b_limit (ps_b st) ->
  exists st', kill n st = Some (true, st') /\
    input (ps_g st') (u_user u) (u_slot u) = n /\ isDead (node (ps_g st') n) = true /\
    ~ alive_inputs (ps_g st').
Proof.
  intros Hw [Hlt Hd] Hu [Hult Hud] Hrole Hphi Ht Hsink Hk Hroom Hex Hbud.
  pose proof (proj1 Hw) as Hl. fold (ps_g st) in Hl.
  destruct (proj1 (elem_of_usesOf (ps_g st) n u (law_ok _ Hl) Hlt)) as [Hslot Hin];
    [rewrite Hu; by left|].
  assert (junkUse n u (ps_world st) = Some (ps_world st)) as Hju.
  { unfold junkUse, junkForSlot. fold (ps_g st). rewrite law_count by done.
    destruct Hslot as [_ Hs]. unfold numInputs in Hs.
    destruct (N.leb_spec (vlen (nodes_ (ps_g st))) (u_user u)); [lia|].
    destruct (N.leb_spec (nd_numInputs (node (ps_g st) (u_user u))) (u_slot u)); [lia|].
    cbn [orb]. rewrite Hin, N.eqb_refl. cbn [negb].
    destruct (kind_eqb (nd_kind (node (ps_g st) (u_user u))) NodeKind.Phi) eqn:E;
      [by apply kind_eqb_spec in E|]. cbn [andb]. rewrite Hrole, Ht. unfold ps_g.
    destruct t; try discriminate Hsink; cbn [dataSink]; by destruct (ps_world st). }
  destruct (junkEdges_spec n (ps_world st) Hw Hk Hroom Hlt) as ([g2 jk2] & Hje & Hrw).
  pose proof (rw_grown _ _ _ _ Hrw) as Hgr. cbn [fst] in Hgr. fold (ps_g st) in Hgr.
  pose proof (gr_count _ _ _ _ Hgr) as Hc.
  assert (u_user u <> n) as Hne by congruence.
  destruct (gr_kept _ _ _ _ Hgr (u_user u) Hult) as [Hnode2 Hin2]; [congruence|].
  eexists. split.
  { unfold kill. rewrite law_count, Hd by done.
    destruct (N.leb_spec (vlen (nodes_ (ps_g st))) n); [lia|]. cbn [orb].
    unfold charge. rewrite Hex. destruct (N.leb_spec (b_limit (ps_b st)) (b_used (ps_b st))); [lia|].
    cbn [orb negb ps_world]. rewrite Hu. cbn [existsb]. unfold live_user. rewrite Hud.
    rewrite andb_false_r. cbn [orb]. rewrite ofor_cons, Hju. cbn [mbind option_bind].
    change (ofor [] (junkUse n) (ps_world st)) with (Some (ps_world st)). cbn [mbind option_bind].
    rewrite Hje. reflexivity. }
  unfold ps_g at 1 2 3. cbn [ps_world fst].
  assert (isDead (node (killNode g2 n) n) = true) as Hdead.
  { rewrite killNode_node, decide_True by (done || lia). apply isDead_kill. }
  assert (input (killNode g2 n) (u_user u) (u_slot u) = n) as Hstill.
  { by rewrite killNode_input, Hin2, Hin. }
  split; [exact Hstill|]. split; [exact Hdead|]. intros Hall.
  assert (has_slot (killNode g2 n) (u_user u) (u_slot u)) as Hs.
  { apply has_slot_iff. unfold numInputs. rewrite killNode_node by lia.
    rewrite decide_False by done. rewrite Hnode2. apply Hslot. }
  specialize (Hall _ _ Hs). rewrite Hstill in Hall. congruence.
Qed.

(** A vector and the reduction that reads it, the reduction already killed. *)
Definition vector_example : Graph :=
  let lanes := packVecPayload IRType.Int 4 in
  let '(a, g) := constantI newGraph 1 in
  let '(v, g) := make g NodeKind.VectorBroadcast [a] (IRType.code IRType.Int) lanes in
  let '(r, g) := make g NodeKind.VectorReduce [v] (VectorOp.code VectorOp.Sum) lanes in
  killNode g r.

Definition vector_state : pass_state :=
  mkPass (vector_example, newJunk) noTelemetry (mkBudget 10 0 false).

Lemma vector_world_ok : world_ok (ps_world vector_state).
Proof.
  split; [|apply junk_ok_new]. apply law_check_sound; [|vm_compute; reflexivity].
  unfold reachable.
  eapply rtc_l. { apply (step_make _ NodeKind.ConstantI [] 0 0 1%Z); vm_compute; repeat constructor. }
  eapply rtc_l. { apply (step_make _ NodeKind.VectorBroadcast [1]
      (IRType.code IRType.Int) (packVecPayload IRType.Int 4) 0%Z);
    vm_compute; repeat constructor; discriminate. }
  eapply rtc_l. { apply (step_make _ NodeKind.VectorReduce [2]
      (VectorOp.code VectorOp.Sum) (packVecPayload IRType.Int 4) 0%Z);
    vm_compute; repeat constructor; discriminate. }
  apply rtc_once. apply (step_killNode _ 3).
Qed.

(** The verifier accepts the graph before and rejects it after. *)
Lemma kill_leaves_dead_input_witness :
  (vr_ok <$> verify 20 vector_example) = Some true /\
  exists st', kill 2 vector_state = Some (true, st') /\ ~ alive_inputs (ps_g st') /\
    (vr_ok <$> verify 20 (ps_g st')) = Some false.
Proof.
  split; [vm_compute; reflexivity|].
  destruct (kill_leaves_dead_input vector_state 2 (mkUse 3 0) IRType.VectorI32)
    as (st' & Hs & _ & _ & Hno);
    [exact vector_world_ok|split; vm_compute; reflexivity|vm_compute; reflexivity
    |split; vm_compute; reflexivity|vm_compute; reflexivity|vm_compute; discriminate
    |vm_compute; reflexivity|reflexivity|vm_compute; discriminate
    |split_and!; vm_compute; reflexivity|reflexivity|reflexivity|].
  exists st'. split; [exact Hs|]. split; [exact Hno|].
  assert ((kill 2 vector_state ≫= fun r => vr_ok <$> verify 20 (ps_g (snd r))) = Some false)
    as Hv by (vm_compute; reflexivity).
  rewrite Hs in Hv. exact Hv.
Defined.
