(* ===== verification/DCE.v ===== *)
(** * Dead code elimination

    compiler/passes/src/DCE.cpp: sweeps over the graph killing the nodes of the
    DCE-safe kinds that nothing refers to, until a sweep removes nothing. *)

From S2P Require Import Prelude IRTypes Effect NodeInfo SmallVector Graph GraphInv.
From S2P Require Import GraphReplace ResultType PassSupport PassLaw PassGrow PassRewire.

Local Open Scope N_scope.

Definition kMaxDceSweeps : nat := 64.

Definition isCallerChained (g : Graph) (descId : N) : bool :=
  existsb (fun i => fs_caller (frameState g i) =? descId) (indices (frameStateCount g)).

(** The body of the inner loop: whether [n] was removed, and the new state. *)
Definition dce_visit (n : NodeId) (st : pass_state) : option (bool * pass_state) :=
  let g := ps_g st in
  let nd := node g n in
  if isDead nd || negb (isDceSafe (nd_kind nd)) then Some (false, st)
  else if n =? startNode g then Some (false, st)
  else if kind_eqb (nd_kind nd) NodeKind.FrameState && isCallerChained g (nd_payload nd)
  then Some (false, st)
  else if useCount g n =? 0 then kill n st
  else Some (false, st).

(** [for (n; n < g.nodeCount() && !b.exceeded; ++n)]; the bound is re-read, for
    a kill can create sinks. *)
Fixpoint dce_sweep (fuel : nat) (n : NodeId) (changed : bool) (st : pass_state)
    : option (bool * pass_state) :=
  match fuel with
  | O => None
  | S fuel =>
      if (n <? nodeCount (ps_g st)) && negb (b_exceeded (ps_b st)) then
        match dce_visit n st with
        | None => None
        | Some (removed, st) => dce_sweep fuel (u32 (n + 1)) (changed || removed) st
        end
      else Some (changed, st)
  end.

Fixpoint dce_sweeps (sweeps : nat) (fuel : nat) (st : pass_state) : option pass_state :=
  match sweeps with
  | O => Some st
  | S sweeps =>
      match dce_sweep fuel 0 false st with
      | None => None
      | Some (changed, st) => if changed then dce_sweeps sweeps fuel st else Some st
      end
  end.

Definition runDCE (fuel : nat) (st : pass_state) : option pass_state :=
  dce_sweeps kMaxDceSweeps fuel st.

(** ** What may be removed *)

(** The node is live, of a safe kind, nothing refers to it, and it is not the
    snapshot of a caller frame. *)
Definition unobservable (g : Graph) (n : NodeId) : Prop :=
  alive g n /\ isDceSafe (nd_kind (node g n)) = true /\ n <> startNode g /\
  (nd_kind (node g n) = NodeKind.FrameState ->
     isCallerChained g (nd_payload (node g n)) = false) /\
  usesOf g n = [].

Lemma useCount_zero g n :
  graph_ok g -> vlen (edgePool_ g) < 4294967296 ->
  useCount g n = 0 <-> usesOf g n = [].
Proof.
  intros Hg Hp. unfold useCount. pose proof (uses_bound g n Hg).
  rewrite u32_small by (unfold fits32; lia). unfold vlen. split; [|by intros ->].
  destruct (usesOf g n); [done|]. simpl length. lia.
Qed.

Lemma dce_visit_cases n st :
  law (ps_g st) -> vlen (edgePool_ (ps_g st)) < 4294967296 -> n < vlen (nodes_ (ps_g st)) ->
  (dce_visit n st = Some (false, st) /\ ~ unobservable (ps_g st) n) \/
  (dce_visit n st = kill n st /\ unobservable (ps_g st) n).
Proof.
  intros Hl Hp Hn. unfold dce_visit, unobservable, alive.
  destruct (isDead (node (ps_g st) n)); cbn [orb]; [left; naive_solver|].
  destruct (isDceSafe (nd_kind (node (ps_g st) n))); cbn [negb]; [|left; naive_solver].
  destruct (N.eqb_spec n (startNode (ps_g st))); [left; naive_solver|].
  destruct (kind_eqb (nd_kind (node (ps_g st) n)) NodeKind.FrameState) eqn:Hk; cbn [andb].
  - apply kind_eqb_spec in Hk.
    destruct (isCallerChained _ _); [left; naive_solver|].
    destruct (N.eqb_spec (useCount (ps_g st) n) 0) as [H0|H0];
      rewrite useCount_zero in H0 by (done || apply Hl); [right|left]; naive_solver.
  - assert (nd_kind (node (ps_g st) n) <> NodeKind.FrameState) as Hnk.
    { intros Hk'. apply kind_eqb_spec in Hk'. congruence. }
    destruct (N.eqb_spec (useCount (ps_g st) n) 0) as [H0|H0];
      rewrite useCount_zero in H0 by (done || apply Hl); [right|left]; naive_solver.
Qed.

(** ** Runs *)

(** What a run does to the graph: survivors are untouched, whatever died was
    DCE-safe, not the start node and no chained snapshot, and new nodes are
    sinks. *)
Record dce_result (g g' : Graph) : Prop := {
  dr_count : vlen (nodes_ g) <= vlen (nodes_ g');
  dr_live : forall m, m < vlen (nodes_ g) -> alive g' m ->
    alive g m /\ node g' m = node g m /\ forall s, input g' m s = input g m s;
  dr_killed : forall m, alive g m -> ~ alive g' m ->
    isDceSafe (nd_kind (node g m)) = true /\ m <> startNode g /\
    (nd_kind (node g m) = NodeKind.FrameState ->
       isCallerChained g (nd_payload (node g m)) = false);
  dr_new : forall m, vlen (nodes_ g) <= m -> alive g' m ->
    sink_kind (nd_kind (node g' m)) = true;
  dr_start : startNode g' = startNode g;
  dr_fs : exists ds, fsDesc_ g' = fsDesc_ g ++ ds
}.

Lemma alive_dec_dead g m : alive g m \/ ~ alive g m.
Proof. unfold alive. destruct (decide (m < vlen (nodes_ g))), (isDead (node g m)); naive_solver. Qed.

(** Snapshots that a descriptor chains to stay chained when the table grows. *)
Lemma isCallerChained_grows g g' d ds :
  fsDesc_ g' = fsDesc_ g ++ ds -> vlen (fsDesc_ g') < 4294967296 ->
  isCallerChained g' d = false -> isCallerChained g d = false.
Proof.
  intros Hfs Hlen. rewrite <- !not_true_iff_false. intros Hno Hyes. apply Hno.
  unfold isCallerChained, frameStateCount in *. rewrite existsb_exists in *.
  destruct Hyes as (i & Hi & Hd). exists i. rewrite Hfs, vlen_app in Hlen.
  assert (i < vlen (fsDesc_ g)) as Hlt.
  { apply list_elem_of_In, elem_of_indices in Hi.
    rewrite u32_small in Hi by (unfold fits32; lia). done. }
  split.
  - apply list_elem_of_In, elem_of_indices. rewrite u32_small; rewrite Hfs, vlen_app; [lia|].
    unfold fits32. lia.
  - unfold frameState in *. rewrite Hfs, vget_app. by destruct (N.ltb_spec i (vlen (fsDesc_ g))); [|lia].
Qed.

Lemma dce_result_refl g : dce_result g g.
Proof.
  split; try done.
  - intros m Hm [? _]. lia.
  - exists []. by rewrite app_nil_r.
Qed.

Lemma dce_result_trans g1 g2 g3 :
  vlen (fsDesc_ g2) < 4294967296 ->
  dce_result g1 g2 -> dce_result g2 g3 -> dce_result g1 g3.
Proof.
  intros Hf [A1 A2 A3 A4 A5 (d1 & A6)] [B1 B2 B3 B4 B5 (d2 & B6)]. split.
  - lia.
  - intros m Hm H3. destruct (B2 m) as (H2 & Hn & Hi); [lia|done|].
    destruct (A2 m Hm H2) as (H1 & Hn1 & Hi1).
    split_and!; [done|congruence|]. intros s. by rewrite Hi.
  - intros m H1 H3. destruct (alive_dec_dead g2 m) as [H2|H2]; [|by apply A3].
    destruct (A2 m (proj1 H1) H2) as (_ & Hn1 & _).
    destruct (B3 m H2 H3) as (Hs & Hst & Hc). rewrite Hn1 in Hs, Hc.
    split_and!; [done|congruence|]. intros Hk. eapply isCallerChained_grows; [exact A6|done|auto].
  - intros m Hm H3. destruct (N.lt_ge_cases m (vlen (nodes_ g2))) as [Hlt|Hge]; [|by apply B4].
    destruct (B2 m Hlt H3) as (H2 & -> & _). by apply A4.
  - congruence.
  - exists (d1 ++ d2). by rewrite B6, A6, (assoc_L (++)).
Qed.

Lemma dce_result_killed c n g g' :
  unobservable g n -> killed n c g g' -> dce_result g g'.
Proof.
  intros (Ha & Hsafe & Hst & Hch & _) [K1 K2 K3 K4 K5 K6 K7 K8 (ds & K9 & _)]. split.
  - lia.
  - intros m Hm [Hlt Hd]. assert (m <> n) as Hne by congruence.
    destruct (K4 m Hm) as [_ Hdd]. rewrite Hdd in Hd by done.
    assert (alive g m) as Hal by done. split; [done|]. by apply K3.
  - intros m [Hm Hd] Hna. destruct (decide (m = n)) as [->|Hne]; [done|]. destruct Hna.
    split; [lia|]. rewrite (proj2 (K4 m Hm)); done.
  - intros m Hm [Hlt Hd]. by apply K5.
  - done.
  - by exists ds.
Qed.

(** The invariant of a run. *)
Abbreviation dce_ok := (run_ok isDceSafe).

(** The two ways a step of a run ends: out of budget, or one node fewer. *)
Definition out_of_budget (st st' : pass_state) : Prop :=
  b_exceeded (ps_b st') = true /\ ps_world st' = ps_world st /\
  b_used (ps_b st') = b_used (ps_b st).

Definition one_removed (st st' : pass_state) : Prop :=
  b_exceeded (ps_b st') = false /\ b_used (ps_b st) < b_limit (ps_b st) /\
  b_used (ps_b st') = b_used (ps_b st) + 1.

Lemma unobservable_killable W n st :
  dce_ok W st -> b_used (ps_b st) < b_limit (ps_b st) -> unobservable (ps_g st) n ->
  killable 0 n st /\ kill_cost 0 (ps_g st) n <= edges_cost W.
Proof.
  intros [Hw Hwd HW Hlim Hroom] Hu (Ha & Hsafe & Hst & Hch & Hun).
  pose proof (Hwd n Ha Hsafe) as HnW.
  assert (kill_cost 0 (ps_g st) n <= edges_cost W) as Hcost.
  { unfold kill_cost. rewrite Hun. change (vlen []) with 0.
    pose proof (edges_cost_mono _ _ HnW). lia. }
  split; [|done]. split.
  - done.
  - destruct (isJunkSink (ps_jk st) n) eqn:Hj; [right|by left].
    assert (n ∉ regionSinks (ps_jk st)) as Hr.
    { intros Hr. destruct (jo_regions _ _ (proj2 Hw) n Hr) as [_ Hk].
      fold (ps_g st) in Hk. by rewrite Hk in Hsafe. }
    split_and!; [done| |done]. apply isJunkSink_spec in Hj as [Hj|?]; [|done].
    destruct (jo_ids _ _ (proj2 Hw) n Hj) as [->|(_ & _ & Hz)].
    + by destruct (law_not_invalid (ps_world st) kInvalidNodeId Hw Ha).
    + apply Hz. unfold removable_kind. fold (ps_g st). by rewrite Hsafe, orb_true_r.
  - done.
  - by rewrite Hun.
  - lia.
  - rewrite Hun. by intros u ?%not_elem_of_nil.
  - by eapply (room_one _ W).
Qed.

Lemma dce_ok_killed W n c st st' :
  dce_ok W st -> world_ok (ps_world st') -> killed n c (ps_g st) (ps_g st') ->
  c <= edges_cost W -> b_limit (ps_b st') = b_limit (ps_b st) ->
  b_used (ps_b st) < b_limit (ps_b st) -> b_used (ps_b st') = b_used (ps_b st) + 1 ->
  dce_ok W st'.
Proof.
  intros [Hw Hwd HW Hlim Hroom] Hw' [K1 K2 K3 K4 K5 K6 K7 K8 (ds & K9 & _ & K10)] Hc Hl Hlt Hu.
  split; [done| |done|by rewrite Hl|].
  - intros m [Hm Hd] Hs. destruct (N.lt_ge_cases m (vlen (nodes_ (ps_g st)))) as [Hold|Hnew].
    + assert (m <> n) as Hne by congruence.
      assert (alive (ps_g st) m) as Ha.
      { split; [done|]. rewrite <- (proj2 (K4 m Hold) Hne). done. }
      unfold numInputs. rewrite (proj1 (K3 m Ha Hne)). apply Hwd; [done|].
      by rewrite <- (proj1 (K4 m Hold)).
    + destruct (K5 m) as (_ & _ & Hz); [done|]. rewrite Hz; [lia|].
      unfold removable_kind. by rewrite Hs, orb_true_r.
  - rewrite Hl, Hu. eapply room_step; [done..|]. split_and!; [lia|lia|]. exists ds. split; [done|lia].
Qed.

Lemma dce_visit_spec W n st :
  dce_ok W st -> n < vlen (nodes_ (ps_g st)) ->
  exists b st', dce_visit n st = Some (b, st') /\ dce_ok W st' /\
    dce_result (ps_g st) (ps_g st') /\ b_limit (ps_b st') = b_limit (ps_b st) /\
    ( (b = false /\ st' = st /\ ~ unobservable (ps_g st) n) \/
      (b = false /\ out_of_budget st st') \/
      (b = true /\ one_removed st st') ).
Proof.
  intros Hok Hn. pose proof Hok as [Hw _ _ Hlim Hroom].
  assert (room 0 (ps_g st)) as (_ & R2 & _) by (eapply room_le; [exact Hroom|apply N.le_0_l]).
  destruct (dce_visit_cases n st) as [[-> Hno]|[-> Hyes]]; [apply Hw|lia|done| |].
  { exists false, st. split_and!; try done; [apply dce_result_refl|by left]. }
  pose proof (proj1 Hyes) as Ha.
  destruct (charge_spec (ps_b st)) as [Hch|(Hch & _ & Hlt)].
  { rewrite (kill_no_budget n st (proj1 Hw) Ha Hch). eexists false, _.
    split; [reflexivity|]. split; [apply (run_ok_budget isDceSafe W st); [exact Hok|reflexivity..]|].
    split; [apply dce_result_refl|]. split; [reflexivity|].
    right; left. split; [reflexivity|]. split; [reflexivity|]. split; reflexivity. }
  destruct (unobservable_killable W n st Hok Hlt Hyes) as [Hkb Hcost].
  destruct (kill_cases 0 n st Hkb) as (b & st' & Hkill & Hw' & Hl' & Hcases & Hbud).
  exists b, st'. split; [done|].
  destruct Hcases as [(_ & _ & ?)|[(_ & _ & _ & _ & Hwhy)|(-> & _ & Hk & _ & _ & Hex)]].
  - done.
  - exfalso. destruct Hwhy as [[Hno _]|(u & Hu & _)].
    + congruence.
    + destruct Hyes as (_ & _ & _ & _ & Hun). rewrite Hun in Hu. by apply not_elem_of_nil in Hu.
  - destruct (Hbud Ha Hex) as (_ & _ & Hu). rewrite u32_small in Hu by (unfold fits32; lia).
    split_and!; [|by eapply dce_result_killed|done|].
    + by eapply dce_ok_killed.
    + right; right. split; [done|]. by split.
Qed.

(** ** Sweeps *)

(** What holds when a sweep from [n] ends. *)
Record swept (W : N) (n : NodeId) (changed : bool) (st : pass_state)
    (changed' : bool) (st' : pass_state) : Prop := {
  sw_ok : dce_ok W st';
  sw_result : dce_result (ps_g st) (ps_g st');
  sw_limit : b_limit (ps_b st') = b_limit (ps_b st);
  sw_used : b_used (ps_b st) <= b_used (ps_b st');
  sw_kept : changed = true -> changed' = true;
  sw_changed : changed' = true -> changed = true \/ b_used (ps_b st) < b_used (ps_b st');
  sw_stable : changed' = false -> b_exceeded (ps_b st') = false ->
    st' = st /\ forall m, n <= m -> ~ unobservable (ps_g st) m
}.

Lemma swept_stop W n changed st :
  dce_ok W st -> vlen (nodes_ (ps_g st)) <= n \/ b_exceeded (ps_b st) = true ->
  swept W n changed st changed st.
Proof.
  intros Hok Hstop. split; try done; [apply dce_result_refl|auto|].
  intros _ Hex. destruct Hstop as [Hn|?]; [|congruence]. split; [done|].
  intros m Hm [[Hlt _] _]. lia.
Qed.

Lemma swept_next W n changed st b st1 changed' st' :
  dce_visit n st = Some (b, st1) -> dce_ok W st -> n < vlen (nodes_ (ps_g st)) ->
  swept W (n + 1) (changed || b) st1 changed' st' -> swept W n changed st changed' st'.
Proof.
  intros Hv Hok Hn [S1 S2 S3 S4 SK S5 S6].
  destruct (dce_visit_spec W n st Hok Hn) as (b' & st1' & Hv' & Hok1 & Hr1 & Hl1 & Hcase).
  rewrite Hv in Hv'. injection Hv' as <- <-.
  assert (b_used (ps_b st) <= b_used (ps_b st1) /\
    (b = true -> b_used (ps_b st) < b_used (ps_b st1))) as [Hu Hub].
  { destruct Hcase as [(-> & -> & _)|[(-> & _ & _ & Hu)|(-> & _ & _ & Hu)]].
    - by split; [lia|].
    - by split; [lia|].
    - split; lia. }
  split.
  - done.
  - eapply dce_result_trans; [exact (run_ok_fs isDceSafe W st1 Hok1)|exact Hr1|exact S2].
  - congruence.
  - lia.
  - intros ->. by apply SK.
  - intros Hc. destruct (S5 Hc) as [H|H]; [|right; lia].
    apply orb_true_iff in H as [H|H]; [by left|right]. specialize (Hub H). lia.
  - intros Hc Hex. destruct (S6 Hc Hex) as [-> Hno].
    destruct Hcase as [(-> & -> & Hn')|[(-> & Hout & _)|(-> & _)]].
    + split; [done|]. intros m Hm. destruct (decide (m = n)) as [->|]; [done|]. apply Hno. lia.
    + congruence.
    + rewrite SK in Hc; [done|apply orb_true_r].
Qed.

Lemma dce_sweep_mono fuel fuel' n changed st r :
  (fuel <= fuel')%nat -> dce_sweep fuel n changed st = Some r ->
  dce_sweep fuel' n changed st = Some r.
Proof.
  revert fuel' n changed st. induction fuel as [|fuel IH]; intros [|fuel'] n changed st Hle; try done;
    [lia|]. cbn [dce_sweep].
  destruct ((n <? nodeCount (ps_g st)) && negb (b_exceeded (ps_b st))); [|done].
  destruct (dce_visit n st) as [[b st1]|]; [|done]. apply IH. lia.
Qed.

(** A sweep ends: every step either moves on to the next node or uses up budget. *)
Lemma dce_sweep_total W k j n changed st :
  dce_ok W st -> (N.to_nat (b_limit (ps_b st) - b_used (ps_b st)) <= k)%nat ->
  (N.to_nat (vlen (nodes_ (ps_g st)) - n) <= j)%nat ->
  exists fuel changed' st', dce_sweep fuel n changed st = Some (changed', st') /\
    swept W n changed st changed' st'.
Proof.
  revert j n changed st. induction k as [k IHk] using lt_wf_ind.
  intros j. induction j as [j IHj] using lt_wf_ind. intros n changed st Hok Hk Hj.
  pose proof (law_count _ (proj1 (do_world _ _ _ Hok))) as Hcount. fold (ps_g st) in Hcount.
  destruct ((n <? vlen (nodes_ (ps_g st))) && negb (b_exceeded (ps_b st))) eqn:Hgo.
  2:{ exists 1%nat, changed, st. cbn [dce_sweep]. rewrite Hcount, Hgo. split; [done|].
      apply swept_stop; [done|].
      apply andb_false_iff in Hgo as [?%N.ltb_ge|?%negb_false_iff]; [by left|by right]. }
  pose proof Hgo as [Hn%N.ltb_lt Hex%negb_true_iff]%andb_true_iff.
  destruct (dce_visit_spec W n st Hok Hn) as (b & st1 & Hv & Hok1 & Hr1 & Hl1 & Hcase).
  assert (u32 (n + 1) = n + 1) as Hu32.
  { apply u32_small. pose proof (so_nodes _ (go_storage _ (law_ok _ (proj1 (do_world _ _ _ Hok))))).
    fold (ps_g st) in H. unfold fits32 in *. lia. }
  assert (exists fuel changed' st', dce_sweep fuel (n + 1) (changed || b) st1 = Some (changed', st') /\
    swept W (n + 1) (changed || b) st1 changed' st') as (fuel & changed' & st' & Hs & Hsw).
  { destruct Hcase as [(-> & -> & _)|[(-> & _ & Hsame & Hu)|(-> & _ & Hlt & Hu)]].
    - eapply (IHj (N.to_nat (vlen (nodes_ (ps_g st)) - (n + 1)))); [lia|done|done|lia].
    - assert (ps_g st1 = ps_g st) as Hg by (unfold ps_g; by rewrite Hsame).
      eapply (IHj (N.to_nat (vlen (nodes_ (ps_g st)) - (n + 1))));
        [lia|done|rewrite Hl1, Hu; done|rewrite Hg; lia].
    - eapply (IHk (N.to_nat (b_limit (ps_b st1) - b_used (ps_b st1)))); [lia|done|done|done]. }
  exists (S fuel), changed', st'. split; [|by eapply swept_next].
  cbn [dce_sweep]. by rewrite Hcount, Hgo, Hv, Hu32.
Qed.

(** A run ends with nothing left to remove, out of budget, or after 64 sweeps
    that each removed a node. *)
Lemma dce_sweeps_total W k st :
  dce_ok W st ->
  exists fuel0 st', (forall fuel, (fuel0 <= fuel)%nat -> dce_sweeps k fuel st = Some st') /\
    dce_ok W st' /\ dce_result (ps_g st) (ps_g st') /\
    ( b_exceeded (ps_b st') = true \/
      b_used (ps_b st) + N.of_nat k <= b_used (ps_b st') \/
      forall m, ~ unobservable (ps_g st') m ).
Proof.
  revert st. induction k as [|k IH]; intros st Hok.
  { exists O, st. split_and!; [done|done|apply dce_result_refl|]. right; left. lia. }
  destruct (dce_sweep_total W _ _ 0 false st Hok (le_n _) (le_n _)) as (f1 & ch & st1 & Hs & Hsw).
  destruct Hsw as [S1 S2 S3 S4 _ S5 S6]. destruct ch.
  - destruct (IH st1 S1) as (f2 & st' & Hs' & Hok' & Hr' & Hend).
    exists (Nat.max f1 f2), st'. split_and!.
    + intros fuel Hf. cbn [dce_sweeps].
      rewrite (dce_sweep_mono f1 fuel 0 false st _ ltac:(lia) Hs). apply Hs'. lia.
    + done.
    + eapply dce_result_trans; [exact (run_ok_fs isDceSafe W st1 S1)|exact S2|exact Hr'].
    + destruct (S5 eq_refl) as [?|Hlt]; [done|].
      destruct Hend as [?|[?|?]]; [by left|right; left; lia|by right; right].
  - exists f1, st1. split_and!; [|done|done|].
    + intros fuel Hf. cbn [dce_sweeps]. by rewrite (dce_sweep_mono f1 fuel 0 false st _ Hf Hs).
    + destruct (b_exceeded (ps_b st1)) eqn:Hex; [by left|right; right].
      destruct (S6 eq_refl eq_refl) as [-> Hno]. intros m. apply Hno. lia.
Qed.

Lemma dce_sweeps_mono k fuel fuel' st r :
  (fuel <= fuel')%nat -> dce_sweeps k fuel st = Some r -> dce_sweeps k fuel' st = Some r.
Proof.
  intros Hle. revert st. induction k as [|k IH]; intros st; cbn [dce_sweeps]; [done|].
  destruct (dce_sweep fuel 0 false st) as [[ch st1]|] eqn:E; [|done].
  rewrite (dce_sweep_mono _ _ _ _ _ _ Hle E). destruct ch; [apply IH|done].
Qed.

Lemma runDCE_mono fuel fuel' st r :
  (fuel <= fuel')%nat -> runDCE fuel st = Some r -> runDCE fuel' st = Some r.
Proof. apply dce_sweeps_mono. Qed.

(** C35: dead code elimination returns on every graph that obeys the tombstone
    law (with room for the sinks of the kills its budget allows): the law still
    holds, every surviving node is unchanged with its inputs, every removed node
    was of a safe kind, not the start node and not the snapshot of a caller
    frame, and no removable node is left unless the budget ran out or each of 64
    sweeps removed one. *)
Theorem runDCE_spec W st :
  dce_ok W st ->
  exists fuel0 st', (forall fuel, (fuel0 <= fuel)%nat -> runDCE fuel st = Some st') /\
    world_ok (ps_world st') /\ dce_result (ps_g st) (ps_g st') /\
    ( b_exceeded (ps_b st') = true \/
      b_used (ps_b st) + 64 <= b_used (ps_b st') \/
      forall m, ~ unobservable (ps_g st') m ).
Proof.
  intros Hok. destruct (dce_sweeps_total W kMaxDceSweeps st Hok) as (f & st' & Hs & Hok' & Hr & Hend).
  exists f, st'. split_and!; [exact Hs|apply Hok'|exact Hr|exact Hend].
Qed.

Lemma example_dce_ok : dce_ok 2 example_state.
Proof.
  split.
  - apply example_world_ok.
  - intros m [Hm _] _. revert m Hm. apply example_width.
  - lia.
  - reflexivity.
  - split_and!; vm_compute; reflexivity.
Qed.

(** The unused sum is removed and the other is kept. *)
Lemma runDCE_spec_witness :
  exists fuel0 st', (forall fuel, (fuel0 <= fuel)%nat -> runDCE fuel example_state = Some st') /\
    world_ok (ps_world st') /\ isDead (node (ps_g st') 3) = true /\
    isDead (node (ps_g st') 4) = false.
Proof.
  destruct (runDCE_spec 2 example_state example_dce_ok) as (f & st' & Hrun & Hw & _).
  exists f, st'. split; [exact Hrun|]. split; [exact Hw|].
  assert (exists st0, runDCE 20 example_state = Some st0 /\
    isDead (node (ps_g st0) 3) = true /\ isDead (node (ps_g st0) 4) = false)
    as (st0 & H0 & Hd) by (eexists; split; [vm_compute; reflexivity|split; vm_compute; reflexivity]).
  assert (Some st0 = Some st') as [= ->]; [|exact Hd].
  rewrite <- (Hrun (Nat.max 20 f)) by lia. symmetry.
  exact (runDCE_mono 20 (Nat.max 20 f) example_state st0 (Nat.le_max_l 20 f) H0).
Defined.
