(* ===== verification/GVN.v ===== *)
(** * Global value numbering

    compiler/passes/src/GVN.cpp: nodes are visited in id order and a node whose
    key (kind, payloads, constant, exact inputs) was seen before is replaced by
    the first node with that key. The hash map is probed and never iterated, so
    a finite map on keys has its behaviour. *)

From S2P Require Import Prelude IRTypes Effect NodeInfo SmallVector Graph GraphInv.
From S2P Require Import GraphReplace ResultType PassSupport PassLaw PassGrow PassRewire.

Local Open Scope N_scope.

Record Key := mkKey {
  k_kind : N; k_payload : N; k_payload2 : N; k_constValue : N; k_inputs : list NodeId
}.

#[export] Instance Key_eq_dec : EqDecision Key.
Proof. solve_decision. Defined.

#[export] Instance Key_countable : Countable Key.
Proof.
  apply (inj_countable'
    (fun k => (k_kind k, k_payload k, k_payload2 k, k_constValue k, k_inputs k))
    (fun '(a, b, c, d, e) => mkKey a b c d e)). by intros [].
Defined.

Definition keyOf (g : Graph) (n : NodeId) : Key :=
  let nd := node g n in
  mkKey (NodeKind.code (nd_kind nd)) (nd_payload nd) (nd_payload2 nd)
    (i64_to_u64 (nd_constValue nd))
    ((fun s => input g n s) <$> indices (nd_numInputs nd)).

Abbreviation seen_map := (gmap Key NodeId).

(** One node of the sweep. *)
Definition gvn_visit (n : NodeId) (seen : seen_map) (st : pass_state)
    : option (seen_map * pass_state) :=
  let g := ps_g st in
  let nd := node g n in
  if isDead nd || negb (isGvnEligible (nd_kind nd)) then Some (seen, st)
  else
    let k := keyOf g n in
    match seen !! k with
    | None => Some (<[k := n]> seen, st)
    | Some survivor =>
        if (survivor =? n) || isDead (node g survivor) then Some (seen, st)
        else
          match replace n survivor st with
          | None => None
          | Some st' =>
              Some (seen, if negb (t_rewrites (ps_t st') =? t_rewrites (ps_t st))
                          then mkPass (ps_world st') (count_dedup (ps_t st')) (ps_b st')
                          else st')
          end
    end.

(** The loop re-reads [g.nodeCount()], for a replacement can create sinks. *)
Fixpoint gvn_loop (fuel : nat) (n : NodeId) (seen : seen_map) (st : pass_state)
    : option pass_state :=
  match fuel with
  | O => None
  | S fuel =>
      if n <? nodeCount (ps_g st) then
        if b_exceeded (ps_b st) then Some st
        else
          match gvn_visit n seen st with
          | None => None
          | Some (seen, st) => gvn_loop fuel (u32 (n + 1)) seen st
          end
      else Some st
  end.

Definition runGVN (fuel : nat) (st : pass_state) : option pass_state :=
  gvn_loop fuel 0 ∅ st.

(** ** Values

    A node of an eligible kind computes some function of its kind, payloads and
    constant, and of what its inputs provide (values, the control state, the
    memory state). The theorems hold for any such interpretation [F] and any
    assignment [V] of results to nodes that agrees with it. *)

Section Values.
Context {Val : Type} (F : N -> N -> N -> N -> list Val -> Val).

Definition node_value (V : NodeId -> Val) (g : Graph) (n : NodeId) : Val :=
  let nd := node g n in
  F (NodeKind.code (nd_kind nd)) (nd_payload nd) (nd_payload2 nd) (i64_to_u64 (nd_constValue nd))
    ((fun s => V (input g n s)) <$> indices (nd_numInputs nd)).

(** What a key describes. *)
Definition key_value (V : NodeId -> Val) (k : Key) : Val :=
  F (k_kind k) (k_payload k) (k_payload2 k) (k_constValue k) (V <$> k_inputs k).

Definition respects (V : NodeId -> Val) (g : Graph) : Prop :=
  forall n, alive g n -> isGvnEligible (nd_kind (node g n)) = true ->
    V n = node_value V g n.

(** [g'] computes the same values as [g]: its live nodes that come from [g] are
    live there with the same record, and read inputs with the same results. *)
Record same_values (V V' : NodeId -> Val) (g g' : Graph) : Prop := {
  sv_count : vlen (nodes_ g) <= vlen (nodes_ g');
  sv_old : forall m, m < vlen (nodes_ g) -> V' m = V m;
  sv_live : forall m, m < vlen (nodes_ g) -> alive g' m ->
    alive g m /\ node g' m = node g m /\
    forall s, s < numInputs g m -> V' (input g' m s) = V (input g m s);
  sv_gone : forall m, alive g m -> ~ alive g' m ->
    isGvnEligible (nd_kind (node g m)) = true
}.

Lemma same_values_refl V g : same_values V V g g.
Proof. split; try done. Qed.

Lemma same_values_trans V1 V2 V3 g1 g2 g3 :
  closed g1 -> same_values V1 V2 g1 g2 -> same_values V2 V3 g2 g3 -> same_values V1 V3 g1 g3.
Proof.
  intros Hc [A1 A2 A3 A4] [B1 B2 B3 B4]. split.
  - lia.
  - intros m Hm. rewrite B2 by lia. by apply A2.
  - intros m Hm H3. destruct (B3 m) as (H2 & Hn2 & Hi2); [lia|done|].
    destruct (A3 m Hm H2) as (H1 & Hn1 & Hi1). split_and!; [done|congruence|].
    intros s Hs. rewrite Hi2; [by apply Hi1|]. unfold numInputs. by rewrite Hn1.
  - intros m H1 H3. destruct (decide (isDead (node g2 m) = false)) as [Hd|Hd].
    + assert (alive g2 m) as H2 by (split; [destruct H1; lia|done]).
      destruct (A3 m (proj1 H1) H2) as (_ & Hn & _). rewrite <- Hn. by apply B4.
    + apply A4; [done|]. by intros [_ ?].
Qed.
(** ** Keys *)

(** The key of a node determines what the node computes. *)
Lemma keyOf_value V g n : key_value V (keyOf g n) = node_value V g n.
Proof. unfold key_value, keyOf, node_value. cbn. f_equal. by rewrite <- list_fmap_compose. Qed.

Lemma keyOf_inputs g n x :
  x ∈ k_inputs (keyOf g n) <-> exists s, has_slot g n s /\ x = input g n s.
Proof.
  unfold keyOf. cbn [k_inputs]. rewrite list_elem_of_fmap. setoid_rewrite elem_of_indices.
  setoid_rewrite has_slot_iff. unfold numInputs. naive_solver.
Qed.

(** Equal keys: same kind, same number of inputs, same inputs. *)
Lemma keyOf_inj g n m :
  keyOf g n = keyOf g m ->
  nd_kind (node g n) = nd_kind (node g m) /\ numInputs g n = numInputs g m /\
  forall s, s < numInputs g n -> input g n s = input g m s.
Proof.
  unfold keyOf. intros Heq. injection Heq as Hk _ _ _ Hin.
  assert (numInputs g n = numInputs g m) as Hnum.
  { apply (f_equal length) in Hin. rewrite !length_fmap, !length_indices in Hin.
    unfold numInputs. lia. }
  split_and!; [by apply NodeKind_code_inj|done|]. intros s Hs. unfold numInputs in Hnum.
  rewrite <- Hnum in Hin. unfold indices in Hin.
  assert (Hl := f_equal (fun l => l !! N.to_nat s) Hin). cbn beta in Hl.
  rewrite <- !list_fmap_compose, !list_lookup_fmap in Hl.
  rewrite lookup_seq_lt in Hl by (unfold numInputs in Hs; lia).
  cbn in Hl. injection Hl as Hl. by rewrite N2Nat.id in Hl.
Qed.

Lemma keyOf_type_calls g n m : keyOf g n = keyOf g m -> type_calls g n = type_calls g m.
Proof.
  intros (Hk & Hnum & Hin)%keyOf_inj. unfold type_calls. rewrite <- Hk, <- Hnum.
  destruct (nd_kind (node g n)); try done.
  - destruct (N.leb_spec 1 (numInputs g n)); [|done]. by rewrite Hin by lia.
  - apply list_fmap_ext. intros i s Hs%list_elem_of_lookup_2%elem_of_value_slots. apply Hin. lia.
Qed.

(** Keys that do not mention the replaced node are unchanged. *)
Lemma keyOf_replaced o v g g' m :
  replaced o v g g' -> m < vlen (nodes_ g) -> m <> o -> o ∉ k_inputs (keyOf g m) ->
  keyOf g' m = keyOf g m.
Proof.
  intros R Hm Hne Hno. unfold keyOf. rewrite (rp_nodes _ _ _ _ R m Hm Hne). f_equal.
  apply list_fmap_ext. intros i s Hs%list_elem_of_lookup_2%elem_of_indices.
  assert (has_slot g m s) as Hslot by by apply has_slot_iff.
  rewrite (rp_inputs _ _ _ _ R m s Hslot Hne). rewrite decide_False; [done|].
  intros Heq. apply Hno, keyOf_inputs. eauto.
Qed.

(** Replacing a node by one with the same result changes no result. *)
Lemma key_value_replaced o v g g' V V' m :
  closed g -> replaced o v g g' -> m < vlen (nodes_ g) -> m <> o -> v < vlen (nodes_ g) ->
  V o = V v -> (forall x, x < vlen (nodes_ g) -> V' x = V x) ->
  key_value V' (keyOf g' m) = key_value V (keyOf g m).
Proof.
  intros Hc R Hm Hne Hv Hov Hold. unfold key_value, keyOf.
  rewrite (rp_nodes _ _ _ _ R m Hm Hne). cbn [k_kind k_payload k_payload2 k_constValue k_inputs].
  f_equal. rewrite <- !list_fmap_compose.
  apply list_fmap_ext. intros i s Hs%list_elem_of_lookup_2%elem_of_indices. simpl.
  assert (has_slot g m s) as Hslot by by apply has_slot_iff.
  rewrite (rp_inputs _ _ _ _ R m s Hslot Hne). case_decide as Heq.
  - rewrite Heq, Hold, Hov by done. done.
  - apply Hold, Hc, Hslot.
Qed.

(** ** The table of survivors *)

(** An entry's node has the result its key describes, and still has that key as
    long as the key's inputs are live. *)
Record seen_ok (V : NodeId -> Val) (g : Graph) (seen : seen_map) : Prop := {
  sn_range : forall k m x, seen !! k = Some m -> x = m \/ x ∈ k_inputs k -> x < vlen (nodes_ g);
  sn_value : forall k m, seen !! k = Some m -> V m = key_value V k;
  sn_key : forall k m, seen !! k = Some m -> alive g m ->
    (forall x, x ∈ k_inputs k -> alive g x) -> keyOf g m = k
}.

Lemma seen_ok_empty V g : seen_ok V g ∅.
Proof. split; intros k m; by rewrite ?lookup_empty. Qed.

Lemma seen_ok_insert V g seen n :
  closed g -> seen_ok V g seen -> n < vlen (nodes_ g) -> V n = key_value V (keyOf g n) ->
  seen_ok V g (<[keyOf g n := n]> seen).
Proof.
  intros Hc [S1 S2 S3] Hn Hv. split.
  - intros k m x [[<- <-]|[_ Hs]]%lookup_insert_Some; [|by eapply S1].
    intros [->|(s & Hs & ->)%keyOf_inputs]; [done|by apply Hc].
  - intros k m [[<- <-]|[_ Hs]]%lookup_insert_Some; [done|by apply S2].
  - intros k m [[<- <-]|[_ Hs]]%lookup_insert_Some; [done|by apply S3].
Qed.

(** What the sinks a replacement creates compute. *)
Definition extend (V : NodeId -> Val) (g g' : Graph) (m : NodeId) : Val :=
  if decide (m < vlen (nodes_ g)) then V m else key_value V (keyOf g' m).

Lemma extend_old V g g' m : m < vlen (nodes_ g) -> extend V g g' m = V m.
Proof. intros. unfold extend. by rewrite decide_True. Qed.

Lemma extend_key V g g' k :
  (forall x, x ∈ k_inputs k -> x < vlen (nodes_ g)) ->
  key_value (extend V g g') k = key_value V k.
Proof.
  intros Hk. unfold key_value. f_equal. apply list_fmap_ext.
  intros i x Hx%list_elem_of_lookup_2. by apply extend_old, Hk.
Qed.

Lemma replaced_alive o v g g' m :
  replaced o v g g' -> m < vlen (nodes_ g) -> alive g' m -> m <> o /\ alive g m.
Proof.
  intros R Hm [_ Hd]. assert (m <> o) as Hne by (intros ->; rewrite (rp_dead _ _ _ _ R) in Hd; done).
  split; [done|]. split; [done|]. by rewrite <- (rp_nodes _ _ _ _ R m Hm Hne).
Qed.

Lemma seen_ok_replaced V o v g g' seen :
  replaced o v g g' -> seen_ok V g seen -> seen_ok (extend V g g') g' seen.
Proof.
  intros R [S1 S2 S3]. pose proof (rp_count _ _ _ _ R) as Hcount. split.
  - intros k m x Hs Hx. pose proof (S1 k m x Hs Hx). lia.
  - intros k m Hs. rewrite extend_old by eauto. rewrite (S2 k m Hs). symmetry.
    apply extend_key. eauto.
  - intros k m Hs Hm Hk.
    destruct (replaced_alive _ _ _ _ m R ltac:(eauto) Hm) as [Hne Hma].
    assert (keyOf g m = k) as Heq.
    { apply S3; [done|done|]. intros x Hx.
      apply (replaced_alive _ _ _ _ x R); [eauto|by apply Hk]. }
    rewrite <- Heq. eapply keyOf_replaced; [done|eauto|done|]. rewrite Heq. intros Ho.
    pose proof (Hk o Ho) as [_ Hd]. rewrite (rp_dead _ _ _ _ R) in Hd. done.
Qed.

Lemma respects_replaced V o v g g' :
  closed g -> replaced o v g g' -> v < vlen (nodes_ g) -> V o = V v -> respects V g ->
  respects (extend V g g') g'.
Proof.
  intros Hc R Hv Hov Hr m Hm He. pose proof (rp_count _ _ _ _ R) as Hcount.
  destruct (N.lt_ge_cases m (vlen (nodes_ g))) as [Hold|Hnew].
  - destruct (replaced_alive _ _ _ _ m R Hold Hm) as [Hne Hma]. rewrite extend_old by done.
    rewrite <- keyOf_value, (key_value_replaced o v g g' V) by (done || apply extend_old).
    rewrite keyOf_value. apply Hr; [done|]. by rewrite <- (rp_nodes _ _ _ _ R m Hold Hne).
  - unfold extend at 1. rewrite decide_False, <- keyOf_value by lia. symmetry. apply extend_key.
    destruct (rp_new _ _ _ _ R m ltac:(split; [done|apply Hm])) as (_ & _ & Hz).
    intros x (s & Hs%has_slot_iff & _)%keyOf_inputs. rewrite Hz in Hs; [lia|].
    unfold removable_kind. by rewrite He.
Qed.

Lemma same_values_replaced V o v g g' :
  closed g -> replaced o v g g' -> v < vlen (nodes_ g) -> V o = V v ->
  isGvnEligible (nd_kind (node g o)) = true -> same_values V (extend V g g') g g'.
Proof.
  intros Hc R Hv Hov He. pose proof (rp_count _ _ _ _ R) as Hcount. split.
  - lia.
  - apply extend_old.
  - intros m Hm Ha. destruct (replaced_alive _ _ _ _ m R Hm Ha) as [Hne Hma].
    split; [done|]. split; [by apply (rp_nodes _ _ _ _ R)|]. intros s Hs%has_slot_iff.
    rewrite (rp_inputs _ _ _ _ R m s Hs Hne). case_decide as Heq.
    + by rewrite Heq, Hov, extend_old.
    + by apply extend_old, Hc.
  - intros m [Hm Hd] Hna. destruct (decide (m = o)) as [->|Hne]; [done|]. destruct Hna.
    split; [lia|]. by rewrite (rp_nodes _ _ _ _ R m Hm Hne).
Qed.

(** ** The sweep *)

Abbreviation gvn_ok := (run_ok isGvnEligible).

Lemma gvn_replaceable W n v st :
  gvn_ok W st -> b_used (ps_b st) < b_limit (ps_b st) -> alive (ps_g st) n ->
  isGvnEligible (nd_kind (node (ps_g st) n)) = true -> keyOf (ps_g st) n = keyOf (ps_g st) v ->
  replaceable n v st /\ edges_cost (numInputs (ps_g st) n) <= edges_cost W.
Proof.
  intros Hok Hlt Ha He Hkey. pose proof (do_width _ _ _ Hok n Ha He) as Hw.
  pose proof (do_W _ _ _ Hok) as HW. pose proof (do_world _ _ _ Hok) as Hworld.
  pose proof (edges_cost_mono _ _ Hw) as Hcost. split; [|exact Hcost]. split.
  - exact Hworld.
  - lia.
  - by eapply (room_one _ W).
  - intros Hk. by rewrite Hk in He.
  - intros ->. pose proof (proj2 (law_start _ (proj1 Hworld))) as Hk. fold (ps_g st) in Hk.
    by rewrite Hk in He.
  - intros Hcan. apply (acc_merge (ps_g st)); [apply Hworld|exact Hcan|apply Hworld|].
    by apply keyOf_type_calls.
Qed.

Lemma gvn_ok_replaced W n v st st' :
  gvn_ok W st -> world_ok (ps_world st') -> replaced n v (ps_g st) (ps_g st') ->
  edges_cost (numInputs (ps_g st) n) <= edges_cost W ->
  b_limit (ps_b st') = b_limit (ps_b st) -> b_used (ps_b st) < b_limit (ps_b st) ->
  b_used (ps_b st') = b_used (ps_b st) + 1 -> gvn_ok W st'.
Proof.
  intros [Hw Hwd HW Hlim Hroom] Hw' R Hc Hl Hlt Hu.
  pose proof (rp_count _ _ _ _ R) as Hcount. split; [done| |done|by rewrite Hl|].
  - intros m Hm Hs. destruct (N.lt_ge_cases m (vlen (nodes_ (ps_g st)))) as [Hold|Hnew].
    + destruct (replaced_alive _ _ _ _ m R Hold Hm) as [Hne Ha].
      pose proof (rp_nodes _ _ _ _ R m Hold Hne) as Hnode. unfold numInputs.
      rewrite Hnode in *. by apply Hwd.
    + destruct (rp_new _ _ _ _ R m ltac:(split; [done|apply Hm])) as (_ & _ & Hz).
      rewrite Hz; [lia|]. unfold removable_kind. by rewrite Hs.
  - rewrite Hl, Hu. eapply room_step; [done..|]. split_and!.
    + lia.
    + pose proof (rp_pool _ _ _ _ R). lia.
    + destruct (rp_fs _ _ _ _ R) as (ds & H1 & H2). exists ds. split; [done|lia].
Qed.

(** What holds between the states of a sweep. *)
Record gvn_result (W : N) (V V' : NodeId -> Val) (st st' : pass_state) : Prop := {
  gr_ok : gvn_ok W st';
  gr_respects : respects V' (ps_g st');
  gr_same : same_values V V' (ps_g st) (ps_g st');
  gr_limit : b_limit (ps_b st') = b_limit (ps_b st);
  gr_used : b_used (ps_b st) <= b_used (ps_b st')
}.

(** A step that changes no more than budget and counters. *)
Lemma gvn_result_budget W V st b t :
  gvn_ok W st -> respects V (ps_g st) -> b_limit b = b_limit (ps_b st) ->
  b_used (ps_b st) <= b_used b -> gvn_result W V V st (mkPass (ps_world st) t b).
Proof.
  intros Hok Hr Hl Hu.
  split; [by apply run_ok_budget|exact Hr|apply same_values_refl|exact Hl|exact Hu].
Qed.

(** Counting a merge is invisible. *)
Lemma gvn_result_count W V V' st w t t' b :
  gvn_result W V V' st (mkPass w t b) -> gvn_result W V V' st (mkPass w t' b).
Proof.
  intros [H1 H2 H3 H4 H5]. split; [|exact H2|exact H3|exact H4|exact H5].
  exact (run_ok_budget _ W _ b t' H1 eq_refl (N.le_refl _)).
Qed.

(** What a step of the sweep from [st] does to the table and the results: the
    graph is untouched, or one replacement has been paid for. *)
Definition stepped (W : N) (V : NodeId -> Val) (st : pass_state)
    (seen' : seen_map) (st' : pass_state) : Prop :=
  exists V', gvn_result W V V' st st' /\ seen_ok V' (ps_g st') seen' /\
    (ps_g st' = ps_g st \/
     b_used (ps_b st) < b_limit (ps_b st) /\ b_used (ps_b st') = b_used (ps_b st) + 1).

(** Merging a node onto the survivor with its key. *)
Lemma gvn_merge_spec W n v seen st V :
  gvn_ok W st -> respects V (ps_g st) -> seen_ok V (ps_g st) seen ->
  alive (ps_g st) n -> isGvnEligible (nd_kind (node (ps_g st) n)) = true ->
  alive (ps_g st) v -> keyOf (ps_g st) v = keyOf (ps_g st) n -> V n = V v ->
  exists st', replace n v st = Some st' /\ stepped W V st seen st'.
Proof.
  intros Hok Hr Hseen Ha He Hav Hkey Hval.
  pose proof (law_closed _ (proj1 (do_world _ _ _ Hok))) as Hc. fold (ps_g st) in Hc.
  destruct (charge_spec (ps_b st)) as [Hch|(Hch & _ & Hlt)].
  { rewrite (replace_no_budget n v st Hch). eexists. split; [reflexivity|]. exists V.
    split; [by apply gvn_result_budget|]. split; [exact Hseen|by left]. }
  destruct (gvn_replaceable W n v st Hok Hlt Ha He (eq_sym Hkey)) as [Hrb Hcost].
  destruct (replace_cases n v st Hrb) as (st' & Hs & Hw' & Hcase & Hlim & Hbud).
  exists st'. split; [exact Hs|]. pose proof (do_limit _ _ _ Hok) as Hmax.
  assert (b_exceeded (ps_b st') = false) as Hex.
  { revert Hs. unfold replace. rewrite Hch. cbn [negb].
    destruct (replaceNode _ _ _) as [e g1]. destruct (negb _); [destruct (junkEdges _ _)|];
      try discriminate; intros [= <-]; reflexivity. }
  destruct (Hbud Hex) as (_ & _ & Hu). rewrite u32_small in Hu by (unfold fits32; lia).
  destruct Hcase as [(Hworld & _ & _)|(_ & R & _)].
  - assert (ps_g st' = ps_g st) as Hg by (unfold ps_g; by rewrite Hworld).
    exists V. rewrite Hg. split; [|split; [exact Hseen|by left]].
    destruct st' as [w' t' b']. cbn [ps_world ps_b] in *. subst w'.
    apply gvn_result_budget; [done|done|done|lia].
  - exists (extend V (ps_g st) (ps_g st')).
    split; [|split; [by eapply seen_ok_replaced|right; split; done]].
    split; [by eapply gvn_ok_replaced|eapply respects_replaced|eapply same_values_replaced|done|lia];
      first [exact R|exact Hc|exact (proj1 Hav)|exact Hval|exact Hr|exact He].
Qed.

(** One node. *)
Lemma gvn_visit_spec W n seen st V :
  gvn_ok W st -> n < vlen (nodes_ (ps_g st)) -> respects V (ps_g st) ->
  seen_ok V (ps_g st) seen ->
  exists seen' st', gvn_visit n seen st = Some (seen', st') /\ stepped W V st seen' st'.
Proof.
  intros Hok Hn Hr Hseen. pose proof (do_world _ _ _ Hok) as Hw.
  pose proof (law_closed _ (proj1 Hw)) as Hc. fold (ps_g st) in Hc.
  assert (forall seen', seen_ok V (ps_g st) seen' -> stepped W V st seen' st) as Hsame.
  { intros seen' Hs. exists V. split; [|split; [exact Hs|by left]].
    destruct st. by apply gvn_result_budget. }
  unfold gvn_visit. destruct (isDead (node (ps_g st) n)) eqn:Hd; cbn [orb].
  { exists seen, st. split; [reflexivity|by apply Hsame]. }
  destruct (isGvnEligible (nd_kind (node (ps_g st) n))) eqn:He; cbn [negb].
  2:{ exists seen, st. split; [reflexivity|by apply Hsame]. }
  assert (alive (ps_g st) n) as Ha by by split.
  pose proof (Hr n Ha He) as Hvn. rewrite <- keyOf_value in Hvn.
  destruct (seen !! keyOf (ps_g st) n) as [v|] eqn:Hlook.
  2:{ eexists _, st. split; [reflexivity|]. by apply Hsame, seen_ok_insert. }
  destruct ((v =? n) || isDead (node (ps_g st) v)) eqn:Hskip.
  { exists seen, st. split; [reflexivity|by apply Hsame]. }
  apply orb_false_iff in Hskip as [_ Hdv].
  assert (alive (ps_g st) v) as Hav.
  { split; [|exact Hdv]. exact (sn_range _ _ _ Hseen _ _ v Hlook (or_introl eq_refl)). }
  destruct (gvn_merge_spec W n v seen st V) as (st' & -> & V' & Hres & Hs' & Hgo); try done.
  - apply (sn_key _ _ _ Hseen); [done|done|]. intros x (s & Hs & ->)%keyOf_inputs.
    split; [by apply Hc|]. apply (law_alive _ (proj1 Hw)), Hs.
  - rewrite Hvn, <- (sn_value _ _ _ Hseen _ _ Hlook). done.
  - eexists seen, _. split; [reflexivity|]. exists V'.
    destruct st' as [w t b]. destruct (negb _); cbn [ps_world ps_t ps_b]; [|done].
    split; [|done]. by eapply gvn_result_count.
Qed.

Lemma gvn_result_trans W V1 V2 V3 st1 st2 st3 :
  closed (ps_g st1) -> gvn_result W V1 V2 st1 st2 -> gvn_result W V2 V3 st2 st3 ->
  gvn_result W V1 V3 st1 st3.
Proof.
  intros Hc [A1 A2 A3 A4 A5] [B1 B2 B3 B4 B5].
  split; [exact B1|exact B2|by eapply same_values_trans|congruence|lia].
Qed.

(** The sweep ends: every step moves on to the next node or uses up budget. *)
Lemma gvn_loop_total W k j n seen st V :
  gvn_ok W st -> respects V (ps_g st) -> seen_ok V (ps_g st) seen ->
  (N.to_nat (b_limit (ps_b st) - b_used (ps_b st)) <= k)%nat ->
  (N.to_nat (vlen (nodes_ (ps_g st)) - n) <= j)%nat ->
  exists fuel st' V', gvn_loop fuel n seen st = Some st' /\ gvn_result W V V' st st'.
Proof.
  revert j n seen st V. induction k as [k IHk] using lt_wf_ind.
  intros j. induction j as [j IHj] using lt_wf_ind. intros n seen st V Hok Hr Hseen Hk Hj.
  pose proof (do_world _ _ _ Hok) as Hw.
  pose proof (law_count _ (proj1 Hw)) as Hcount. fold (ps_g st) in Hcount.
  assert (gvn_result W V V st st) as Hsame by by (destruct st; apply gvn_result_budget).
  destruct (N.ltb_spec n (vlen (nodes_ (ps_g st)))) as [Hn|Hn].
  2:{ exists 1%nat, st, V. cbn [gvn_loop]. rewrite Hcount.
      destruct (N.ltb_spec n (vlen (nodes_ (ps_g st)))); [lia|done]. }
  destruct (b_exceeded (ps_b st)) eqn:Hex.
  { exists 1%nat, st, V. cbn [gvn_loop]. rewrite Hcount, Hex.
    destruct (N.ltb_spec n (vlen (nodes_ (ps_g st)))); [done|lia]. }
  destruct (gvn_visit_spec W n seen st V Hok Hn Hr Hseen)
    as (seen1 & st1 & Hv & V1 & [R1 R2 R3 R4 R5] & Hs1 & Hgo).
  assert (exists fuel st' V', gvn_loop fuel (n + 1) seen1 st1 = Some st' /\
    gvn_result W V1 V' st1 st') as (fuel & st' & V' & Hl & Hres).
  { destruct Hgo as [Hg|[Hlt Hu]].
    - apply (IHj (N.to_nat (vlen (nodes_ (ps_g st)) - (n + 1)))); [lia|done|done|done|lia|].
      rewrite Hg. done.
    - eapply (IHk (N.to_nat (b_limit (ps_b st1) - b_used (ps_b st1)))); [lia|done..]. }
  exists (S fuel), st', V'. split.
  - cbn [gvn_loop]. rewrite Hcount, Hex, Hv.
    destruct (N.ltb_spec n (vlen (nodes_ (ps_g st)))); [|lia].
    rewrite u32_small; [exact Hl|].
    pose proof (so_nodes _ (go_storage _ (law_ok _ (proj1 Hw)))) as Hmax.
    fold (ps_g st) in Hmax. unfold fits32 in *. lia.
  - eapply gvn_result_trans; [apply Hw| |exact Hres]. by split.
Qed.
End Values.

Lemma gvn_loop_mono fuel fuel' n seen st r :
  (fuel <= fuel')%nat -> gvn_loop fuel n seen st = Some r -> gvn_loop fuel' n seen st = Some r.
Proof.
  revert fuel' n seen st. induction fuel as [|fuel IH]; intros [|fuel'] n seen st Hle; try done;
    [lia|]. cbn [gvn_loop]. destruct (n <? nodeCount (ps_g st)); [|done].
  destruct (b_exceeded (ps_b st)); [done|].
  destruct (gvn_visit n seen st) as [[seen1 st1]|]; [|done]. apply IH. lia.
Qed.

(** C36: global value numbering returns on every graph that obeys the tombstone
    law (with room for the sinks its budget allows), and changes no result. Take
    any interpretation [F] of the eligible kinds as functions of kind, payloads,
    constant and input results, and any assignment [V] of results to nodes that
    agrees with it: the law still holds, [V] extends to the new graph, every
    surviving node is the same record and reads inputs with the same results as
    before, and only nodes of eligible kinds are gone. *)
Theorem runGVN_preserves_values {Val} (F : N -> N -> N -> N -> list Val -> Val) V W st :
  run_ok isGvnEligible W st -> respects F V (ps_g st) ->
  exists fuel0 st' V', (forall fuel, (fuel0 <= fuel)%nat -> runGVN fuel st = Some st') /\
    world_ok (ps_world st') /\ respects F V' (ps_g st') /\
    same_values V V' (ps_g st) (ps_g st').
Proof.
  intros Hok Hr.
  destruct (gvn_loop_total F W _ _ 0 ∅ st V Hok Hr (seen_ok_empty F V _) (le_n _) (le_n _))
    as (fuel & st' & V' & Hl & [R1 R2 R3 _ _]).
  exists fuel, st', V'. split; [|split; [apply R1|split; [exact R2|exact R3]]].
  intros fuel' Hle. exact (gvn_loop_mono _ _ _ _ _ _ Hle Hl).
Qed.

(** Constants are their value, an addition adds. *)
Definition example_F (kind payload payload2 const : N) (vs : list N) : N :=
  if kind =? NodeKind.code NodeKind.AddI then foldr N.add 0 vs else const.

Definition example_V (n : NodeId) : N := match n with 1 => 1 | 2 => 2 | 3 => 3 | 4 => 3 | _ => 0 end.

Lemma example_respects : respects example_F example_V (ps_g example_state).
Proof.
  intros n [Hn _]. change (n < 6) in Hn.
  assert (n = 0 \/ n = 1 \/ n = 2 \/ n = 3 \/ n = 4 \/ n = 5) as Hin by lia. clear Hn.
  destruct Hin as [->|[->|[->|[->|[->| ->]]]]]; vm_compute; congruence.
Qed.

Lemma example_gvn_ok : run_ok isGvnEligible 2 example_state.
Proof.
  split.
  - apply example_world_ok.
  - intros m [Hm _] _. revert m Hm. apply example_width.
  - lia.
  - reflexivity.
  - split_and!; vm_compute; reflexivity.
Qed.

(** The second sum is merged onto the first. *)
Lemma runGVN_preserves_values_witness :
  exists fuel0 st' V', (forall fuel, (fuel0 <= fuel)%nat -> runGVN fuel example_state = Some st') /\
    respects example_F V' (ps_g st') /\ same_values example_V V' pass_example (ps_g st') /\
    isDead (node (ps_g st') 4) = true /\ input (ps_g st') 5 1 = 3.
Proof.
  destruct (runGVN_preserves_values example_F example_V 2 example_state example_gvn_ok
    example_respects) as (f & st' & V' & Hrun & _ & Hr & Hsv).
  exists f, st', V'. split; [exact Hrun|]. split; [exact Hr|]. split; [exact Hsv|].
  assert (exists st0, runGVN 20 example_state = Some st0 /\
    isDead (node (ps_g st0) 4) = true /\ input (ps_g st0) 5 1 = 3)
    as (st0 & H0 & Hd) by (eexists; split; [vm_compute; reflexivity|split; vm_compute; reflexivity]).
  assert (Some st0 = Some st') as [= ->]; [|exact Hd].
  rewrite <- (Hrun (Nat.max 20 f)) by lia. symmetry.
  exact (gvn_loop_mono 20 (Nat.max 20 f) 0 ∅ example_state st0 (Nat.le_max_l 20 f) H0).
Defined.
