(* ===== verification/Machine.v ===== *)
(** * Machine numbers

    The fixed-width integers and the IEEE 754 values that the compiler's
    evaluators compute with: [wrap w] is the conversion of an integer to a
    signed [w]-bit type, [uwrap w] to an unsigned one; a [float] or a [double]
    is its bit pattern, decoded to the Standard Library's [spec_float] for
    arithmetic. Comparison, remainder and truncation are exact on the decoded
    values. *)

From Stdlib Require Import SpecFloat.
From S2P Require Import Prelude.

Local Open Scope Z_scope.

(** ** Integers *)

Definition uwrap (w z : Z) : Z := z mod 2 ^ w.
Definition wrap (w z : Z) : Z := (z + 2 ^ (w - 1)) mod 2 ^ w - 2 ^ (w - 1).

Abbreviation i8 := (wrap 8).
Abbreviation i16 := (wrap 16).
Abbreviation i32 := (wrap 32).
Abbreviation i64 := (wrap 64).
Abbreviation uz32 := (uwrap 32).
Abbreviation uz64 := (uwrap 64).

Definition in_signed (w z : Z) : Prop := - 2 ^ (w - 1) <= z < 2 ^ (w - 1).

#[export] Instance in_signed_dec w z : Decision (in_signed w z).
Proof. unfold in_signed. apply _. Defined.

Lemma pow2_half w : 0 < w -> 2 ^ w = 2 * 2 ^ (w - 1) /\ 0 < 2 ^ (w - 1).
Proof.
  intros Hw. split; [|apply Z.pow_pos_nonneg; lia].
  rewrite <- Z.pow_succ_r by lia. f_equal. lia.
Qed.

Lemma wrap_range w z : 0 < w -> in_signed w (wrap w z).
Proof.
  intros Hw. destruct (pow2_half w Hw) as [Hp Hpos]. unfold in_signed, wrap.
  pose proof (Z.mod_pos_bound (z + 2 ^ (w - 1)) (2 ^ w)). lia.
Qed.

Lemma wrap_small w z : 0 < w -> in_signed w z -> wrap w z = z.
Proof.
  intros Hw Hz. destruct (pow2_half w Hw) as [Hp Hpos]. unfold in_signed, wrap in *.
  rewrite Z.mod_small; lia.
Qed.

(** Integers that agree modulo [2 ^ w] have the same conversion. *)
Lemma wrap_eqm w a b : (a mod 2 ^ w = b mod 2 ^ w) -> wrap w a = wrap w b.
Proof.
  intros H. unfold wrap. by rewrite Zplus_mod, H, <- Zplus_mod.
Qed.

Lemma wrap_mod w z : 0 < w -> wrap w z mod 2 ^ w = z mod 2 ^ w.
Proof.
  intros Hw. unfold wrap. rewrite Zminus_mod_idemp_l. f_equal. lia.
Qed.

Lemma wrap_uwrap w z : wrap w (uwrap w z) = wrap w z.
Proof. apply wrap_eqm. unfold uwrap. apply Zmod_mod. Qed.

Lemma uwrap_wrap w z : 0 < w -> uwrap w (wrap w z) = uwrap w z.
Proof. intros. by apply wrap_mod. Qed.

Lemma wrap_wrap w z : 0 < w -> wrap w (wrap w z) = wrap w z.
Proof. intros Hw. apply wrap_small, wrap_range; done. Qed.

Lemma uwrap_range w z : 0 <= w -> 0 <= uwrap w z < 2 ^ w.
Proof. intros Hw. apply Z.mod_pos_bound, Z.pow_pos_nonneg; lia. Qed.

Lemma wrap_add w a b : wrap w (uwrap w (uwrap w a + uwrap w b)) = wrap w (a + b).
Proof. rewrite wrap_uwrap. apply wrap_eqm. unfold uwrap. by rewrite <- Zplus_mod. Qed.

Lemma wrap_sub w a b : wrap w (uwrap w (uwrap w a - uwrap w b)) = wrap w (a - b).
Proof. rewrite wrap_uwrap. apply wrap_eqm. unfold uwrap. by rewrite <- Zminus_mod. Qed.

Lemma wrap_mul w a b : wrap w (uwrap w (uwrap w a * uwrap w b)) = wrap w (a * b).
Proof. rewrite wrap_uwrap. apply wrap_eqm. unfold uwrap. by rewrite <- Zmult_mod. Qed.

Lemma wrap_shl w a s : 0 <= s -> wrap w (uwrap w (Z.shiftl (uwrap w a) s)) = wrap w (a * 2 ^ s).
Proof.
  intros Hs. rewrite Z.shiftl_mul_pow2, wrap_uwrap by done. apply wrap_eqm. unfold uwrap.
  by rewrite Zmult_mod_idemp_l.
Qed.

(** Bitwise operations stay in range. *)
Lemma in_signed_bits w z :
  0 < w -> in_signed w z <-> forall i, w - 1 <= i -> Z.testbit z i = Z.testbit z (w - 1).
Proof.
  intros Hw. unfold in_signed. split.
  - intros Hz i Hi. destruct (Z.le_gt_cases 0 z) as [Hpos|Hneg].
    + assert (forall j, w - 1 <= j -> Z.testbit z j = false) as Hb; [|by rewrite !Hb by lia].
      intros j Hj. destruct (Z.eq_dec z 0) as [->|Hnz]; [apply Z.bits_0|].
      apply Z.bits_above_log2; [done|]. assert (Z.log2 z < w - 1); [|lia].
      apply Z.log2_lt_pow2; lia.
    + assert (forall j, w - 1 <= j -> Z.testbit z j = true) as Hb; [|by rewrite !Hb by lia].
      intros j Hj. destruct (Z.eq_dec z (-1)) as [->|Hnz]; [apply Z.bits_m1; lia|].
      apply Z.bits_above_log2_neg; [lia|]. assert (Z.log2 (Z.pred (- z)) < w - 1); [|lia].
      apply Z.log2_lt_pow2; lia.
  - intros Hb. assert (Z.shiftr z (w - 1) = if Z.testbit z (w - 1) then -1 else 0) as Hs.
    { apply Z.bits_inj'. intros i Hi. rewrite Z.shiftr_spec, Hb by lia.
      destruct (Z.testbit z (w - 1)); [by rewrite Z.bits_m1|by rewrite Z.bits_0]. }
    rewrite Z.shiftr_div_pow2 in Hs by lia. destruct (pow2_half w Hw) as [_ Hpos].
    pose proof (Z.div_mod z (2 ^ (w - 1)) ltac:(lia)) as Hdm.
    pose proof (Z.mod_pos_bound z (2 ^ (w - 1)) Hpos). rewrite Hs in Hdm.
    destruct (Z.testbit z (w - 1)); lia.
Qed.

Lemma in_signed_land w a b : 0 < w -> in_signed w a -> in_signed w b -> in_signed w (Z.land a b).
Proof.
  intros Hw. rewrite !in_signed_bits by done. intros Ha Hb i Hi.
  by rewrite !Z.land_spec, (Ha i Hi), (Hb i Hi).
Qed.

Lemma in_signed_lor w a b : 0 < w -> in_signed w a -> in_signed w b -> in_signed w (Z.lor a b).
Proof.
  intros Hw. rewrite !in_signed_bits by done. intros Ha Hb i Hi.
  by rewrite !Z.lor_spec, (Ha i Hi), (Hb i Hi).
Qed.

Lemma in_signed_lxor w a b : 0 < w -> in_signed w a -> in_signed w b -> in_signed w (Z.lxor a b).
Proof.
  intros Hw. rewrite !in_signed_bits by done. intros Ha Hb i Hi.
  by rewrite !Z.lxor_spec, (Ha i Hi), (Hb i Hi).
Qed.

Lemma in_signed_shiftr w a s : 0 < w -> 0 <= s -> in_signed w a -> in_signed w (Z.shiftr a s).
Proof.
  intros Hw Hs. rewrite !in_signed_bits by done. intros Ha i Hi.
  rewrite !Z.shiftr_spec, (Ha (i + s)), (Ha (w - 1 + s)) by lia. done.
Qed.

Lemma in_signed_mono w w' z : 0 < w -> w <= w' -> in_signed w z -> in_signed w' z.
Proof.
  intros Hw Hle [H1 H2]. unfold in_signed.
  pose proof (Z.pow_le_mono_r 2 (w - 1) (w' - 1)). lia.
Qed.

Create HintDb machine discriminated.
#[export] Hint Resolve wrap_range in_signed_land in_signed_lor in_signed_lxor
  in_signed_shiftr : machine.
#[export] Hint Extern 1 (_ < _)%Z => lia : machine.
#[export] Hint Extern 1 (_ <= _)%Z => lia : machine.

(** ** IEEE 754 values *)

Record format := mkFormat { f_prec : Z; f_emax : Z; f_ebits : Z }.

Definition binary32 : format := mkFormat 24 128 8.
Definition binary64 : format := mkFormat 53 1024 11.

Definition f_emin (f : format) : Z := emin (f_prec f) (f_emax f).
Definition f_bits (f : format) : Z := f_prec f + f_ebits f.

Definition decode (f : format) (b : Z) : spec_float :=
  let mw := f_prec f - 1 in
  let s := Z.testbit b (f_bits f - 1) in
  let m := b mod 2 ^ mw in
  let ex := (b / 2 ^ mw) mod 2 ^ f_ebits f in
  if ex =? 2 ^ f_ebits f - 1 then (if m =? 0 then S754_infinity s else S754_nan)
  else match (if ex =? 0 then m else m + 2 ^ mw) with
       | Zpos p => S754_finite s p (Z.max 0 (ex - 1) + f_emin f)
       | _ => S754_zero s
       end.

Definition encode (f : format) (x : spec_float) : Z :=
  let mw := f_prec f - 1 in
  let sign (s : bool) := if s then 2 ^ (f_bits f - 1) else 0 in
  uwrap (f_bits f) match x with
  | S754_zero s => sign s
  | S754_infinity s => sign s + (2 ^ f_ebits f - 1) * 2 ^ mw
  | S754_nan => (2 ^ f_ebits f - 1) * 2 ^ mw + 2 ^ (mw - 1)
  | S754_finite s m e =>
      if Zpos m <? 2 ^ mw then sign s + Zpos m
      else sign s + (e - f_emin f) * 2 ^ mw + Zpos m
  end.

(** What is not a NaN is its bits. *)
Lemma decode_encode_nan f : f = binary32 \/ f = binary64 -> decode f (encode f S754_nan) = S754_nan.
Proof. by intros [->| ->]. Qed.

Lemma encode_decode f b :
  f = binary32 \/ f = binary64 -> 0 <= b < 2 ^ f_bits f -> decode f b <> S754_nan ->
  encode f (decode f b) = b.
Proof.
  intros Hf Hb Hn.
  set (mw := f_prec f - 1). set (eb := f_ebits f).
  assert (f_bits f = 1 + mw + eb /\ 0 < mw /\ 0 < eb /\ f_bits f - 1 = mw + eb) as (Hw & Hmw & Heb & Hs)
    by (by destruct Hf as [->| ->]).
  rewrite Hw in Hb. assert (0 < 2 ^ mw /\ 0 < 2 ^ eb) as [Hp1 Hp2]
    by (split; apply Z.pow_pos_nonneg; lia).
  assert (2 ^ (1 + mw + eb) = 2 * (2 ^ mw * 2 ^ eb)) as Hpow
    by (rewrite !Z.pow_add_r by lia; change (2 ^ 1) with 2; lia).
  set (m := b mod 2 ^ mw). set (q := b / 2 ^ mw). set (ex := q mod 2 ^ eb).
  set (s := q / 2 ^ eb).
  assert (b = (s * 2 ^ eb + ex) * 2 ^ mw + m) as Hb'.
  { unfold s, ex, m, q. pose proof (Z.div_mod b (2 ^ mw)).
    pose proof (Z.div_mod (b / 2 ^ mw) (2 ^ eb)). nia. }
  assert (0 <= m < 2 ^ mw) as Hm by (by apply Z.mod_pos_bound).
  assert (0 <= ex < 2 ^ eb) as Hex by (by apply Z.mod_pos_bound).
  assert (s = 0 \/ s = 1) as Hs01.
  { assert (0 <= s < 2); [|lia]. split; [apply Z.div_pos; [apply Z.div_pos|]; lia|].
    unfold s, q. rewrite Z.div_div by lia. apply Z.div_lt_upper_bound; lia. }
  assert (Z.testbit b (mw + eb) = bool_decide (s = 1)) as Hsign.
  { replace (mw + eb) with (0 + eb + mw) by lia.
    rewrite <- (Z.div_pow2_bits b mw (0 + eb)) by lia. fold q.
    rewrite <- (Z.div_pow2_bits q eb 0) by lia. fold s. destruct Hs01 as [->| ->]; done. }
  assert (forall z, z = b -> uwrap (f_bits f) z = b) as Hu.
  { intros z ->. unfold uwrap. rewrite Hw. by apply Z.mod_small. }
  assert ((if bool_decide (s = 1) then 2 ^ (f_bits f - 1) else 0) = s * (2 ^ mw * 2 ^ eb)) as Hsg.
  { rewrite Hs, Z.pow_add_r by lia. destruct Hs01 as [->| ->]; case_bool_decide; lia. }
  revert Hn. unfold decode. rewrite Hs, Hsign. fold mw eb. fold m. fold q. fold ex.
  destruct (Z.eqb_spec ex (2 ^ eb - 1)) as [He|He].
  - destruct (Z.eqb_spec m 0) as [Hz|]; [|done]. intros _. unfold encode. fold mw eb.
    apply Hu. rewrite Hsg, Hb', He, Hz. ring.
  - intros _. destruct (Z.eqb_spec ex 0) as [H0|H0].
    + destruct m as [|p|p] eqn:Hmp; [| |lia].
      * unfold encode. apply Hu. rewrite Hsg, Hb', H0. ring.
      * unfold encode. fold mw eb. destruct (Z.ltb_spec (Zpos p) (2 ^ mw)); [|lia].
        apply Hu. rewrite Hsg, Hb', H0. ring.
    + destruct (m + 2 ^ mw) as [|p|p] eqn:Hmp; [lia| |lia]. unfold encode. fold mw eb.
      destruct (Z.ltb_spec (Zpos p) (2 ^ mw)); [lia|].
      apply Hu. rewrite Hsg, Hb', <- Hmp. rewrite Z.max_r by lia. ring.
Qed.

Lemma encode_range f x : f = binary32 \/ f = binary64 -> 0 <= encode f x < 2 ^ f_bits f.
Proof. intros Hf. apply uwrap_range. by destruct Hf as [->| ->]. Qed.

Definition is_nan (x : spec_float) : bool :=
  match x with S754_nan => true | _ => false end.

Definition is_inf (x : spec_float) : bool :=
  match x with S754_infinity _ => true | _ => false end.

Definition is_zero (x : spec_float) : bool :=
  match x with S754_zero _ => true | _ => false end.

(** The integer scaled by a power of two that a finite value is. *)
Definition scaled (x : spec_float) : Z * Z :=
  match x with
  | S754_finite s m e => (cond_Zopp s (Zpos m), e)
  | _ => (0, 0)
  end.

Definition fcompare (x y : spec_float) : option comparison :=
  match x, y with
  | S754_nan, _ | _, S754_nan => None
  | S754_infinity s, S754_infinity t =>
      Some (match s, t with true, false => Lt | false, true => Gt | _, _ => Eq end)
  | S754_infinity s, _ => Some (if s then Lt else Gt)
  | _, S754_infinity t => Some (if t then Gt else Lt)
  | _, _ =>
      let '(a, i) := scaled x in
      let '(b, j) := scaled y in
      let e := Z.min i j in
      Some (a * 2 ^ (i - e) ?= b * 2 ^ (j - e))
  end.

Definition fgt (x y : spec_float) : bool :=
  match fcompare x y with Some Gt => true | _ => false end.
Definition flt (x y : spec_float) : bool :=
  match fcompare x y with Some Lt => true | _ => false end.
Definition fge (x y : spec_float) : bool :=
  match fcompare x y with Some (Gt | Eq) => true | _ => false end.
Definition fle (x y : spec_float) : bool :=
  match fcompare x y with Some (Lt | Eq) => true | _ => false end.

(** An integral constant of the source. *)
Definition sf_of_Z (z : Z) : spec_float :=
  match z with
  | Z0 => S754_zero false
  | Zpos p => S754_finite false p 0
  | Zneg p => S754_finite true p 0
  end.

(** Rounding toward zero of a finite value. *)
Definition ftrunc (x : spec_float) : Z :=
  let '(a, i) := scaled x in if 0 <=? i then a * 2 ^ i else Z.quot a (2 ^ (- i)).

(** [std::fmod]: the remainder of a truncated division is exact. *)
Definition ffmod (f : format) (x y : spec_float) : spec_float :=
  match x, y with
  | S754_nan, _ | _, S754_nan | S754_infinity _, _ | _, S754_zero _ => S754_nan
  | S754_zero _, _ | _, S754_infinity _ => x
  | S754_finite s m i, S754_finite _ p j =>
      let e := Z.min i j in
      binary_normalize (f_prec f) (f_emax f)
        (cond_Zopp s ((Zpos m * 2 ^ (i - e)) mod (Zpos p * 2 ^ (j - e)))) e s
  end.

(** The value of an integer in a format, and of a value in another format. *)
Definition of_int (f : format) (z : Z) : spec_float :=
  binary_normalize (f_prec f) (f_emax f) z 0 false.

Definition convert (f : format) (x : spec_float) : spec_float :=
  match x with
  | S754_finite s m e => binary_round (f_prec f) (f_emax f) s m e
  | _ => x
  end.

Definition fadd (f : format) := SFadd (f_prec f) (f_emax f).
Definition fsub (f : format) := SFsub (f_prec f) (f_emax f).
Definition fmul (f : format) := SFmul (f_prec f) (f_emax f).
Definition fdiv (f : format) := SFdiv (f_prec f) (f_emax f).

(** ** Rounding never makes a NaN *)

Lemma iter_pos_ind {A} (f : A -> A) (P : A -> Prop) p x :
  (forall y, P y -> P (f y)) -> P x -> P (SpecFloat.iter_pos f p x).
Proof. intros Hf. revert x. induction p; cbn; auto. Qed.

Lemma shr_nonneg r e k : 0 <= shr_m r -> 0 <= shr_m (fst (shr r e k)).
Proof.
  intros Hr. destruct k; cbn [shr fst]; try done.
  apply (iter_pos_ind _ (fun r => 0 <= shr_m r)); [|done].
  intros [[|[]|[]] ? ?]; cbn; lia.
Qed.

Lemma shr_fexp_nonneg prec emax m e l :
  0 <= m -> 0 <= shr_m (fst (shr_fexp prec emax m e l)).
Proof. intros Hm. apply shr_nonneg. by destruct l as [|[]]. Qed.

Lemma round_nearest_even_nonneg m l : 0 <= m -> 0 <= round_nearest_even m l.
Proof. destruct l as [|[]]; cbn; try lia. destruct (Z.even m); lia. Qed.

Lemma binary_round_aux_not_nan prec emax s m e l :
  0 <= m -> is_nan (binary_round_aux prec emax s m e l) = false.
Proof.
  intros Hm. unfold binary_round_aux.
  destruct (shr_fexp prec emax m e l) as [r e'] eqn:E1.
  pose proof (shr_fexp_nonneg prec emax m e l Hm) as H1. rewrite E1 in H1. cbn [fst] in H1.
  destruct (shr_fexp prec emax _ e' loc_Exact) as [r' e''] eqn:E2.
  pose proof (shr_fexp_nonneg prec emax _ e' loc_Exact
    (round_nearest_even_nonneg _ (loc_of_shr_record r) H1)) as H2.
  rewrite E2 in H2. cbn [fst] in H2.
  destruct (shr_m r'); [done|by destruct (_ <=? _)|lia].
Qed.

Lemma binary_round_not_nan prec emax s m e : is_nan (binary_round prec emax s m e) = false.
Proof. unfold binary_round. destruct (shl_align _ _ _). by apply binary_round_aux_not_nan. Qed.

Lemma of_int_not_nan f z : is_nan (of_int f z) = false.
Proof. unfold of_int, binary_normalize. destruct z; [done|..]; apply binary_round_not_nan. Qed.

Lemma convert_nan f x : is_nan (convert f x) = is_nan x.
Proof. destruct x; try done. apply binary_round_not_nan. Qed.

(** 1.5 + 0.25 = 1.75; 1 / 0 is infinite; -5.5 rem 2 = -1.5; 0.1 + 0.2 in double. *)
Example float_examples :
  encode binary32 (fadd binary32 (decode binary32 0x3fc00000) (decode binary32 0x3e800000))
    = 0x3fe00000 /\
  encode binary32 (fdiv binary32 (decode binary32 0x3f800000) (decode binary32 0)) = 0x7f800000 /\
  encode binary64 (ffmod binary64 (decode binary64 0xc016000000000000)
    (decode binary64 0x4000000000000000)) = 0xbff8000000000000 /\
  encode binary64 (fadd binary64 (decode binary64 0x3fb999999999999a)
    (decode binary64 0x3fc999999999999a)) = 0x3fd3333333333334 /\
  encode binary32 (of_int binary32 16777217) = 0x4b800000 /\
  encode binary32 (convert binary32 (decode binary64 0x3ff8000000000000)) = 0x3fc00000.
Proof. vm_compute. repeat split. Qed.
