(* ===== verification/JavaSem.v ===== *)
(** * What the value kinds of the IR compute

    The reference semantics the rewrites are judged by: the operators of the Java
    Language Specification (chapters 5.1, 15.15 to 15.22 and 4.2.3) as relations
    between operand values and results, written with mathematical integers and
    IEEE 754 values and not with the compiler's evaluators. An arithmetic result
    that is NaN may have any NaN bits; a division by zero constrains nothing, for
    a guard stops the execution before its result is used. *)

From Stdlib Require Import SpecFloat.
From S2P Require Import Prelude IRTypes Effect NodeInfo Machine.

Local Open Scope Z_scope.

(** A value: int, long, float and double bits, a reference, or a control or
    memory state. *)
Inductive jval :=
| JI (z : Z) | JL (z : Z) | JF (bits : Z) | JD (bits : Z)
| JRef (r : option N) | JState (s : N).

#[export] Instance jval_eq_dec : EqDecision jval.
Proof. solve_decision. Defined.

Definition jval_ok (v : jval) : Prop :=
  match v with
  | JI z => in_signed 32 z
  | JL z => in_signed 64 z
  | JF b => 0 <= b < 2 ^ 32
  | JD b => 0 <= b < 2 ^ 64
  | JRef _ | JState _ => True
  end.

Definition b2z (b : bool) : Z := if b then 1 else 0.

Definition sign_of (c : comparison) : Z :=
  match c with Lt => -1 | Eq => 0 | Gt => 1 end.

(** The bits of a floating-point result. *)
Definition ieee (f : format) (r : spec_float) (bits : Z) : Prop :=
  match r with
  | S754_nan => decode f bits = S754_nan
  | _ => bits = encode f r
  end.

(** A comparison that sends unordered operands to [nan]. *)
Definition fcmp (nan : Z) (x y : spec_float) : Z :=
  match fcompare x y with Some c => sign_of c | None => nan end.

(** JLS 5.1.3: a NaN narrows to 0, any other value to the nearest value of the
    type in the direction of zero. *)
Definition narrow (w : Z) (x : spec_float) : Z :=
  match x with
  | S754_nan => 0
  | S754_infinity s => if s then - 2 ^ (w - 1) else 2 ^ (w - 1) - 1
  | _ => Z.max (- 2 ^ (w - 1)) (Z.min (2 ^ (w - 1) - 1) (ftrunc x))
  end.

Abbreviation d32 := (decode binary32).
Abbreviation d64 := (decode binary64).

Definition java_bin (k : NodeKind) (a b v : jval) : Prop :=
  match k, a, b, v with
  | NodeKind.AddI, JI x, JI y, JI z => z = i32 (x + y)
  | NodeKind.SubI, JI x, JI y, JI z => z = i32 (x - y)
  | NodeKind.MulI, JI x, JI y, JI z => z = i32 (x * y)
  | NodeKind.DivI, JI x, JI y, JI z => y <> 0 -> z = i32 (Z.quot x y)
  | NodeKind.RemI, JI x, JI y, JI z => y <> 0 -> z = Z.rem x y
  | NodeKind.AndI, JI x, JI y, JI z => z = Z.land x y
  | NodeKind.OrI, JI x, JI y, JI z => z = Z.lor x y
  | NodeKind.XorI, JI x, JI y, JI z => z = Z.lxor x y
  | NodeKind.ShlI, JI x, JI y, JI z => z = i32 (x * 2 ^ (y mod 32))
  | NodeKind.ShrI, JI x, JI y, JI z => z = x / 2 ^ (y mod 32)
  | NodeKind.UShrI, JI x, JI y, JI z => z = i32 (x mod 2 ^ 32 / 2 ^ (y mod 32))
  | NodeKind.CmpI, JI x, JI y, JI z => z = sign_of (x ?= y)
  | NodeKind.EqI, JI x, JI y, JI z => z = b2z (bool_decide (x = y))
  | NodeKind.NeI, JI x, JI y, JI z => z = b2z (bool_decide (x <> y))
  | NodeKind.LtI, JI x, JI y, JI z => z = b2z (bool_decide (x < y))
  | NodeKind.LeI, JI x, JI y, JI z => z = b2z (bool_decide (x <= y))
  | NodeKind.GtI, JI x, JI y, JI z => z = b2z (bool_decide (y < x))
  | NodeKind.GeI, JI x, JI y, JI z => z = b2z (bool_decide (y <= x))
  | NodeKind.AddL, JL x, JL y, JL z => z = i64 (x + y)
  | NodeKind.SubL, JL x, JL y, JL z => z = i64 (x - y)
  | NodeKind.MulL, JL x, JL y, JL z => z = i64 (x * y)
  | NodeKind.DivL, JL x, JL y, JL z => y <> 0 -> z = i64 (Z.quot x y)
  | NodeKind.RemL, JL x, JL y, JL z => y <> 0 -> z = Z.rem x y
  | NodeKind.AndL, JL x, JL y, JL z => z = Z.land x y
  | NodeKind.OrL, JL x, JL y, JL z => z = Z.lor x y
  | NodeKind.XorL, JL x, JL y, JL z => z = Z.lxor x y
  | NodeKind.ShlL, JL x, JI y, JL z => z = i64 (x * 2 ^ (y mod 64))
  | NodeKind.ShrL, JL x, JI y, JL z => z = x / 2 ^ (y mod 64)
  | NodeKind.UShrL, JL x, JI y, JL z => z = i64 (x mod 2 ^ 64 / 2 ^ (y mod 64))
  | NodeKind.CmpL, JL x, JL y, JI z => z = sign_of (x ?= y)
  | NodeKind.AddF, JF x, JF y, JF z => ieee binary32 (fadd binary32 (d32 x) (d32 y)) z
  | NodeKind.SubF, JF x, JF y, JF z => ieee binary32 (fsub binary32 (d32 x) (d32 y)) z
  | NodeKind.MulF, JF x, JF y, JF z => ieee binary32 (fmul binary32 (d32 x) (d32 y)) z
  | NodeKind.DivF, JF x, JF y, JF z => ieee binary32 (fdiv binary32 (d32 x) (d32 y)) z
  | NodeKind.RemF, JF x, JF y, JF z => ieee binary32 (ffmod binary32 (d32 x) (d32 y)) z
  | NodeKind.AddD, JD x, JD y, JD z => ieee binary64 (fadd binary64 (d64 x) (d64 y)) z
  | NodeKind.SubD, JD x, JD y, JD z => ieee binary64 (fsub binary64 (d64 x) (d64 y)) z
  | NodeKind.MulD, JD x, JD y, JD z => ieee binary64 (fmul binary64 (d64 x) (d64 y)) z
  | NodeKind.DivD, JD x, JD y, JD z => ieee binary64 (fdiv binary64 (d64 x) (d64 y)) z
  | NodeKind.RemD, JD x, JD y, JD z => ieee binary64 (ffmod binary64 (d64 x) (d64 y)) z
  | NodeKind.CmpFl, JF x, JF y, JI z => z = fcmp (-1) (d32 x) (d32 y)
  | NodeKind.CmpFg, JF x, JF y, JI z => z = fcmp 1 (d32 x) (d32 y)
  | NodeKind.CmpDl, JD x, JD y, JI z => z = fcmp (-1) (d64 x) (d64 y)
  | NodeKind.CmpDg, JD x, JD y, JI z => z = fcmp 1 (d64 x) (d64 y)
  | NodeKind.RefEq, JRef x, JRef y, JI z => z = b2z (bool_decide (x = y))
  | _, _, _, _ => False
  end.

Definition java_un (k : NodeKind) (a v : jval) : Prop :=
  match k, a, v with
  | NodeKind.NegI, JI x, JI z => z = i32 (- x)
  | NodeKind.NegL, JL x, JL z => z = i64 (- x)
  | NodeKind.NegF, JF x, JF z => z = Z.lxor x (2 ^ 31)
  | NodeKind.NegD, JD x, JD z => z = Z.lxor x (2 ^ 63)
  | NodeKind.Not, JI x, JI z => z = b2z (bool_decide (x = 0))
  | NodeKind.I2L, JI x, JL z => z = x
  | NodeKind.L2I, JL x, JI z => z = i32 x
  | NodeKind.I2B, JI x, JI z => z = i8 x
  | NodeKind.I2C, JI x, JI z => z = x mod 2 ^ 16
  | NodeKind.I2S, JI x, JI z => z = i16 x
  | NodeKind.I2F, JI x, JF z | NodeKind.L2F, JL x, JF z => ieee binary32 (of_int binary32 x) z
  | NodeKind.I2D, JI x, JD z | NodeKind.L2D, JL x, JD z => ieee binary64 (of_int binary64 x) z
  | NodeKind.F2I, JF x, JI z => z = narrow 32 (d32 x)
  | NodeKind.F2L, JF x, JL z => z = narrow 64 (d32 x)
  | NodeKind.F2D, JF x, JD z => ieee binary64 (convert binary64 (d32 x)) z
  | NodeKind.D2I, JD x, JI z => z = narrow 32 (d64 x)
  | NodeKind.D2L, JD x, JL z => z = narrow 64 (d64 x)
  | NodeKind.D2F, JD x, JF z => ieee binary32 (convert binary32 (d64 x)) z
  | NodeKind.IsNull, JRef x, JI z => z = b2z (bool_decide (x = None))
  | NodeKind.InstanceOf, JRef None, JI z => z = 0
  | NodeKind.InstanceOf, JRef (Some _), JI z => z = 0 \/ z = 1
  | _, _, _ => False
  end.

(** The kinds the two relations describe. *)
Definition java_bin_kind (k : NodeKind) : bool :=
  match k with
  | NodeKind.AddI | NodeKind.SubI | NodeKind.MulI | NodeKind.DivI | NodeKind.RemI
  | NodeKind.AndI | NodeKind.OrI | NodeKind.XorI | NodeKind.ShlI | NodeKind.ShrI
  | NodeKind.UShrI | NodeKind.CmpI | NodeKind.EqI | NodeKind.NeI | NodeKind.LtI
  | NodeKind.LeI | NodeKind.GtI | NodeKind.GeI | NodeKind.AddL | NodeKind.SubL
  | NodeKind.MulL | NodeKind.DivL | NodeKind.RemL | NodeKind.AndL | NodeKind.OrL
  | NodeKind.XorL | NodeKind.ShlL | NodeKind.ShrL | NodeKind.UShrL | NodeKind.CmpL
  | NodeKind.AddF | NodeKind.SubF | NodeKind.MulF | NodeKind.DivF | NodeKind.RemF
  | NodeKind.AddD | NodeKind.SubD | NodeKind.MulD | NodeKind.DivD | NodeKind.RemD
  | NodeKind.CmpFl | NodeKind.CmpFg | NodeKind.CmpDl | NodeKind.CmpDg
  | NodeKind.RefEq => true
  | _ => false
  end.

Definition java_un_kind (k : NodeKind) : bool :=
  match k with
  | NodeKind.NegI | NodeKind.NegL | NodeKind.NegF | NodeKind.NegD | NodeKind.Not
  | NodeKind.I2L | NodeKind.L2I | NodeKind.I2B | NodeKind.I2C | NodeKind.I2S
  | NodeKind.I2F | NodeKind.L2F | NodeKind.I2D | NodeKind.L2D | NodeKind.F2I
  | NodeKind.F2L | NodeKind.F2D | NodeKind.D2I | NodeKind.D2L | NodeKind.D2F
  | NodeKind.IsNull | NodeKind.InstanceOf => true
  | _ => false
  end.

(** The relations constrain no other kind's operands to nonsense: a result
    exists for the kinds they describe only. *)
Lemma java_bin_kind_of k a b v : java_bin k a b v -> java_bin_kind k = true.
Proof. by destruct k. Qed.

Lemma java_un_kind_of k a v : java_un k a v -> java_un_kind k = true.
Proof. by destruct k. Qed.
