(* ===== verification/ConstFold.v ===== *)
(** * The shared constant machinery

    The constant representation of compiler/passes/src/PassInternal.h and the
    evaluators of Simplify.cpp that the folding pass and SCCP share: what a
    constant node carries, the two-operand and one-operand folds, and the node
    made from a result. Floats and doubles travel as bit patterns, as in
    [ConstVal]; [bitsToF] and its companions are [decode] and [encode]. *)

From Stdlib Require Import SpecFloat.
From S2P Require Import Prelude IRTypes Effect NodeInfo SmallVector Graph.
From S2P Require Import Machine JavaSem.

Local Open Scope Z_scope.

Module CV.
Inductive t := None | I | L | F | D | Null.
#[global] Instance eq_dec : EqDecision t.
Proof. solve_decision. Defined.
End CV.

Record ConstVal := mkConstVal {
  flavor : CV.t; cv_i : Z; cv_l : Z; cv_fb : Z; cv_db : Z
}.

#[export] Instance ConstVal_eq_dec : EqDecision ConstVal.
Proof. solve_decision. Defined.

(** [ConstVal c;] *)
Definition noConst : ConstVal := mkConstVal CV.None 0 0 0 0.
Definition nullConst : ConstVal := mkConstVal CV.Null 0 0 0 0.

Definition constOfI (v : Z) : ConstVal := mkConstVal CV.I v 0 0 0.
Definition constOfL (v : Z) : ConstVal := mkConstVal CV.L 0 v 0 0.
Definition constOfF (bits : Z) : ConstVal := mkConstVal CV.F 0 0 bits 0.
Definition constOfD (bits : Z) : ConstVal := mkConstVal CV.D 0 0 0 bits.

(** [constValue] is an [int64_t], on which [i64] is the identity. *)
Definition constOf (g : Graph) (n : NodeId) : ConstVal :=
  let nd := node g n in
  if isDead nd then noConst
  else match nd_kind nd with
       | NodeKind.ConstantI => constOfI (i32 (nd_constValue nd))
       | NodeKind.ConstantL => constOfL (i64 (nd_constValue nd))
       | NodeKind.ConstantF => constOfF (uz32 (nd_constValue nd))
       | NodeKind.ConstantD => constOfD (uz64 (nd_constValue nd))
       | NodeKind.ConstantNull => nullConst
       | _ => noConst
       end.

Definition isConst (c : ConstVal) : bool := negb (bool_decide (flavor c = CV.None)).

Abbreviation bitsToF := (decode binary32).
Abbreviation bitsToD := (decode binary64).
Abbreviation fToBits := (encode binary32).
Abbreviation dToBits := (encode binary64).

Definition INT32_MAX : Z := 2147483647.
Definition INT32_MIN : Z := -2147483648.
Definition INT64_MAX : Z := 9223372036854775807.
Definition INT64_MIN : Z := -9223372036854775808.

(** The literal 9.2233720368547758e18 is the double [2 ^ 63]. A float argument is
    widened to double on the call, which keeps its value. *)
Definition fpToInt64 (v : spec_float) (isLong : bool) : Z :=
  if is_nan v then 0
  else if fge v (sf_of_Z 9223372036854775808)
  then (if isLong then INT64_MAX else INT32_MAX)
  else if fle v (sf_of_Z (-9223372036854775808))
  then (if isLong then INT64_MIN else INT32_MIN)
  else if negb isLong && fgt v (sf_of_Z 2147483647) then INT32_MAX
  else if negb isLong && flt v (sf_of_Z (-2147483648)) then INT32_MIN
  else ftrunc v.

Definition javaDivI (a b : Z) : Z :=
  if (a =? INT32_MIN) && (b =? -1) then INT32_MIN else Z.quot a b.

Definition javaRemI (a b : Z) : Z :=
  if (a =? INT32_MIN) && (b =? -1) then 0 else Z.rem a b.

Definition javaDivL (a b : Z) : Z :=
  if (a =? INT64_MIN) && (b =? -1) then INT64_MIN else Z.quot a b.

Definition javaRemL (a b : Z) : Z :=
  if (a =? INT64_MIN) && (b =? -1) then 0 else Z.rem a b.

(** [(a > b) - (a < b)] *)
Definition threeWay (a b : Z) : Z := b2z (b <? a) - b2z (a <? b).

Definition foldIntBin (k : NodeKind) (a b : Z) : option Z :=
  let ua := uz32 a in
  let ub := uz32 b in
  let count := Z.land ub 31 in
  match k with
  | NodeKind.AddI => Some (i32 (uz32 (ua + ub)))
  | NodeKind.SubI => Some (i32 (uz32 (ua - ub)))
  | NodeKind.MulI => Some (i32 (uz32 (ua * ub)))
  | NodeKind.AndI => Some (Z.land a b)
  | NodeKind.OrI => Some (Z.lor a b)
  | NodeKind.XorI => Some (Z.lxor a b)
  | NodeKind.ShlI => Some (i32 (uz32 (Z.shiftl ua count)))
  | NodeKind.ShrI => Some (Z.shiftr a count)
  | NodeKind.UShrI => Some (i32 (Z.shiftr ua count))
  | NodeKind.DivI => if b =? 0 then None else Some (javaDivI a b)
  | NodeKind.RemI => if b =? 0 then None else Some (javaRemI a b)
  | NodeKind.CmpI => Some (threeWay a b)
  | NodeKind.EqI => Some (if a =? b then 1 else 0)
  | NodeKind.NeI => Some (if negb (a =? b) then 1 else 0)
  | NodeKind.LtI => Some (if a <? b then 1 else 0)
  | NodeKind.LeI => Some (if a <=? b then 1 else 0)
  | NodeKind.GtI => Some (if b <? a then 1 else 0)
  | NodeKind.GeI => Some (if b <=? a then 1 else 0)
  | _ => None
  end.

Definition foldLongBin (k : NodeKind) (a b : Z) : option Z :=
  let ua := uz64 a in
  let ub := uz64 b in
  let count := Z.land b 63 in
  match k with
  | NodeKind.AddL => Some (i64 (uz64 (ua + ub)))
  | NodeKind.SubL => Some (i64 (uz64 (ua - ub)))
  | NodeKind.MulL => Some (i64 (uz64 (ua * ub)))
  | NodeKind.AndL => Some (Z.land a b)
  | NodeKind.OrL => Some (Z.lor a b)
  | NodeKind.XorL => Some (Z.lxor a b)
  | NodeKind.ShlL => Some (i64 (uz64 (Z.shiftl ua count)))
  | NodeKind.ShrL => Some (Z.shiftr a count)
  | NodeKind.UShrL => Some (i64 (Z.shiftr ua count))
  | NodeKind.DivL => if b =? 0 then None else Some (javaDivL a b)
  | NodeKind.RemL => if b =? 0 then None else Some (javaRemL a b)
  | NodeKind.CmpL => Some (threeWay a b)
  | _ => None
  end.

(** The last lines of both float folds. *)
Definition nanFree (f : format) (r : spec_float) : option Z :=
  if is_nan r then None else Some (encode f r).

Definition foldFloatBin (k : NodeKind) (a b : spec_float) : option Z :=
  if is_nan a || is_nan b then None
  else match k with
       | NodeKind.AddF => nanFree binary32 (fadd binary32 a b)
       | NodeKind.SubF => nanFree binary32 (fsub binary32 a b)
       | NodeKind.MulF => nanFree binary32 (fmul binary32 a b)
       | NodeKind.DivF => nanFree binary32 (fdiv binary32 a b)
       | NodeKind.RemF =>
           if is_zero b || is_inf a then None else nanFree binary32 (ffmod binary32 a b)
       | _ => None
       end.

Definition foldDoubleBin (k : NodeKind) (a b : spec_float) : option Z :=
  if is_nan a || is_nan b then None
  else match k with
       | NodeKind.AddD => nanFree binary64 (fadd binary64 a b)
       | NodeKind.SubD => nanFree binary64 (fsub binary64 a b)
       | NodeKind.MulD => nanFree binary64 (fmul binary64 a b)
       | NodeKind.DivD => nanFree binary64 (fdiv binary64 a b)
       | NodeKind.RemD =>
           if is_zero b || is_inf a then None else nanFree binary64 (ffmod binary64 a b)
       | _ => None
       end.

(** [isnan(x) || isnan(y) ? nan : (x > y) - (x < y)] *)
Definition cmpFP (nan : Z) (x y : spec_float) : Z :=
  if is_nan x || is_nan y then nan else b2z (fgt x y) - b2z (flt x y).

Definition evalBinOp (k : NodeKind) (a b : ConstVal) : option ConstVal :=
  match flavor a, flavor b with
  | CV.I, CV.I =>
      match foldIntBin k (cv_i a) (cv_i b) with
      | None => None
      | Some r => Some (constOfI (i32 r))
      end
  | CV.L, CV.L =>
      match foldLongBin k (cv_l a) (cv_l b) with
      | None => None
      | Some r =>
          if kind_eqb k NodeKind.CmpL then Some (constOfI (i32 r)) else Some (constOfL r)
      end
  | CV.F, CV.F =>
      let x := bitsToF (cv_fb a) in
      let y := bitsToF (cv_fb b) in
      match foldFloatBin k x y with
      | Some r => Some (constOfF r)
      | None =>
          if kind_eqb k NodeKind.CmpFl then Some (constOfI (cmpFP (-1) x y))
          else if kind_eqb k NodeKind.CmpFg then Some (constOfI (cmpFP 1 x y))
          else None
      end
  | CV.D, CV.D =>
      let x := bitsToD (cv_db a) in
      let y := bitsToD (cv_db b) in
      match foldDoubleBin k x y with
      | Some r => Some (constOfD r)
      | None =>
          if kind_eqb k NodeKind.CmpDl then Some (constOfI (cmpFP (-1) x y))
          else if kind_eqb k NodeKind.CmpDg then Some (constOfI (cmpFP 1 x y))
          else None
      end
  | _, _ => None
  end.

Definition evalUnaryOp (k : NodeKind) (a : ConstVal) : option ConstVal :=
  match k, flavor a with
  | NodeKind.NegI, CV.I => Some (constOfI (i32 (uz32 (0 - uz32 (cv_i a)))))
  | NodeKind.Not, CV.I => Some (constOfI (if cv_i a =? 0 then 1 else 0))
  | NodeKind.NegL, CV.L => Some (constOfL (i64 (uz64 (0 - uz64 (cv_l a)))))
  | NodeKind.NegF, CV.F => Some (constOfF (Z.lxor (cv_fb a) 0x80000000))
  | NodeKind.NegD, CV.D => Some (constOfD (Z.lxor (cv_db a) 0x8000000000000000))
  | NodeKind.I2L, CV.I => Some (constOfL (cv_i a))
  | NodeKind.L2I, CV.L => Some (constOfI (i32 (uz32 (cv_l a))))
  | NodeKind.I2B, CV.I => Some (constOfI (i32 (i8 (cv_i a))))
  | NodeKind.I2C, CV.I => Some (constOfI (Z.land (cv_i a) 0xFFFF))
  | NodeKind.I2S, CV.I => Some (constOfI (i32 (i16 (cv_i a))))
  | NodeKind.I2F, CV.I => Some (constOfF (fToBits (of_int binary32 (cv_i a))))
  | NodeKind.I2D, CV.I => Some (constOfD (dToBits (of_int binary64 (cv_i a))))
  | NodeKind.L2F, CV.L => Some (constOfF (fToBits (of_int binary32 (cv_l a))))
  | NodeKind.L2D, CV.L => Some (constOfD (dToBits (of_int binary64 (cv_l a))))
  | NodeKind.F2I, CV.F => Some (constOfI (i32 (fpToInt64 (bitsToF (cv_fb a)) false)))
  | NodeKind.F2L, CV.F => Some (constOfL (fpToInt64 (bitsToF (cv_fb a)) true))
  | NodeKind.F2D, CV.F =>
      let x := bitsToF (cv_fb a) in
      if is_nan x then None else Some (constOfD (dToBits (convert binary64 x)))
  | NodeKind.D2I, CV.D => Some (constOfI (i32 (fpToInt64 (bitsToD (cv_db a)) false)))
  | NodeKind.D2L, CV.D => Some (constOfL (fpToInt64 (bitsToD (cv_db a)) true))
  | NodeKind.D2F, CV.D =>
      let x := bitsToD (cv_db a) in
      if is_nan x then None
      else let r := convert binary32 x in
           if is_nan r then None else Some (constOfF (fToBits r))
  | _, _ => None
  end.

(** [g.constantF(bitsToF(c.fb))] copies the bits. *)
Definition makeConstNode (g : Graph) (c : ConstVal) : NodeId * Graph :=
  match flavor c with
  | CV.I => constantI g (cv_i c)
  | CV.L => constantL g (cv_l c)
  | CV.F => constantF g (Z.to_N (cv_fb c))
  | CV.D => constantD g (Z.to_N (cv_db c))
  | CV.Null => constantNull g
  | CV.None => (kInvalidNodeId, g)
  end.

(** ** Exactness *)

(** Comparing a finite value with an integer, and truncating it, are integer
    operations on a numerator and a positive denominator. *)
Lemma finite_fraction v :
  is_nan v = false -> is_inf v = false ->
  exists A P, 0 < P /\ ftrunc v = Z.quot A P /\
    forall c, fcompare v (sf_of_Z c) = Some (A ?= c * P).
Proof.
  intros Hn Hi. destruct (scaled v) as [a i] eqn:Hs.
  assert (forall c, fcompare v (sf_of_Z c) =
    Some (a * 2 ^ (i - Z.min i 0) ?= c * 2 ^ (0 - Z.min i 0))) as Hc.
  { intros c. assert (scaled (sf_of_Z c) = (c, 0)) as Hsc by by destruct c.
    assert (is_nan (sf_of_Z c) = false /\ is_inf (sf_of_Z c) = false) as [Hn' Hi'] by by destruct c.
    unfold fcompare. rewrite Hs, Hsc. destruct v, (sf_of_Z c); done. }
  unfold ftrunc. rewrite Hs. destruct (Z.leb_spec 0 i).
  - exists (a * 2 ^ i), 1. split_and!; [lia|by rewrite Z.quot_1_r|]. intros c. rewrite Hc.
    rewrite Z.min_r by lia. by rewrite !Z.sub_0_r.
  - exists a, (2 ^ (- i)). split_and!; [apply Z.pow_pos_nonneg; lia|done|]. intros c. rewrite Hc.
    rewrite Z.min_l by lia. rewrite Z.sub_diag, Z.sub_0_l. f_equal. f_equal. lia.
Qed.

Lemma quot_bounds A P c :
  0 < P ->
  (c * P <= A -> c <= Z.quot A P) /\ (A <= c * P -> Z.quot A P <= c) /\
  (0 < c -> A < c * P -> Z.quot A P < c).
Proof.
  intros HP. assert (Z.quot (c * P) P = c) as Hq by (apply Z.quot_mul; lia).
  split_and!.
  - intros H. rewrite <- Hq. by apply Z.quot_le_mono.
  - intros H. etrans; [by apply (Z.quot_le_mono _ (c * P))|lia].
  - intros Hc H. destruct (Z.le_gt_cases 0 A).
    + apply Z.quot_lt_upper_bound; lia.
    + assert (Z.quot A P <= Z.quot 0 P) by (apply Z.quot_le_mono; lia).
      rewrite Z.quot_0_l in * by lia. lia.
Qed.

Lemma fpToInt64_narrow v isLong :
  fpToInt64 v isLong = narrow (if isLong then 64 else 32) v.
Proof.
  destruct (is_nan v) eqn:Hn; [by destruct v|].
  destruct (is_inf v) eqn:Hi; [destruct v as [|s| |]; try done; by destruct s, isLong|].
  destruct (finite_fraction v Hn Hi) as (A & P & HP & Ht & Hc).
  assert (narrow (if isLong then 64 else 32) v =
    if isLong then Z.max (-9223372036854775808) (Z.min 9223372036854775807 (ftrunc v))
    else Z.max (-2147483648) (Z.min 2147483647 (ftrunc v))) as ->.
  { by destruct v, isLong. }
  unfold fpToInt64, fge, fle, fgt, flt. rewrite Hn, !Hc, Ht.
  pose proof (quot_bounds A P 9223372036854775808 HP) as (Q1 & _ & Q2).
  pose proof (quot_bounds A P (-9223372036854775808) HP) as (Q3 & Q4 & _).
  pose proof (quot_bounds A P 2147483647 HP) as (Q5 & Q6 & _).
  pose proof (quot_bounds A P (-2147483648) HP) as (Q7 & Q8 & _).
  unfold INT64_MAX, INT64_MIN, INT32_MAX, INT32_MIN.
  destruct (Z.compare_spec A (9223372036854775808 * P));
    destruct (Z.compare_spec A (-9223372036854775808 * P)); try lia;
    destruct isLong; cbn [negb andb]; try lia;
    destruct (Z.compare_spec A (2147483647 * P)); try lia;
    destruct (Z.compare_spec A (-2147483648 * P)); lia.
Qed.

(** The value a constant denotes. *)
Definition cval (c : ConstVal) : option jval :=
  match flavor c with
  | CV.None => None
  | CV.I => Some (JI (cv_i c))
  | CV.L => Some (JL (cv_l c))
  | CV.F => Some (JF (cv_fb c))
  | CV.D => Some (JD (cv_db c))
  | CV.Null => Some (JRef None)
  end.

Lemma threeWay_sign a b : threeWay a b = sign_of (a ?= b).
Proof.
  unfold threeWay. destruct (Z.compare_spec a b); destruct (Z.ltb_spec a b), (Z.ltb_spec b a);
    cbn; lia.
Qed.

Lemma land_mask a n : 0 <= n -> Z.land a (Z.ones n) = a mod 2 ^ n.
Proof. apply Z.land_ones. Qed.

(** The masked shift counts. *)
Lemma count32 b : Z.land (uz32 b) 31 = b mod 32 /\ 0 <= b mod 32 < 32.
Proof.
  split; [|apply Z.mod_pos_bound; lia]. change 31 with (Z.ones 5). rewrite land_mask by lia.
  unfold uwrap. apply Z.mod_mod_divide. by exists (2 ^ 27).
Qed.

Lemma count64 b : Z.land b 63 = b mod 64 /\ 0 <= b mod 64 < 64.
Proof.
  split; [|apply Z.mod_pos_bound; lia]. change 63 with (Z.ones 6). by rewrite land_mask by lia.
Qed.

(** Truncated division overflows on the most negative dividend only. *)
Lemma quot_in_signed w a b :
  0 < w -> in_signed w a -> b <> 0 -> ~ (a = - 2 ^ (w - 1) /\ b = -1) ->
  in_signed w (Z.quot a b).
Proof.
  intros Hw Ha Hb Hno. destruct (pow2_half w Hw) as [_ Hp]. unfold in_signed in *.
  destruct (Z.eq_dec b (-1)) as [->|Hm1].
  { change (-1) with (- (1)). rewrite Z.quot_opp_r, Z.quot_1_r by done. lia. }
  destruct (Z.eq_dec b 1) as [->|H1]; [rewrite Z.quot_1_r; lia|].
  pose proof (Z.quot_abs a b Hb) as Habs.
  assert (Z.quot (Z.abs a) (Z.abs b) < 2 ^ (w - 1)); [|lia].
  apply Z.quot_lt_upper_bound; nia.
Qed.

Lemma rem_in_signed w a b :
  0 < w -> in_signed w a -> b <> 0 -> in_signed w (Z.rem a b).
Proof.
  intros Hw Ha Hb. unfold in_signed in *. destruct (Z.le_gt_cases 0 a).
  - pose proof (Z.rem_nonneg a b Hb ltac:(lia)).
    assert (Z.rem (Z.abs a) (Z.abs b) <= Z.abs a) as Hle by (apply Z.rem_le; lia).
    rewrite Z.rem_abs in Hle by done. lia.
  - pose proof (Z.rem_nonpos a b Hb ltac:(lia)).
    assert (Z.rem (Z.abs a) (Z.abs b) <= Z.abs a) as Hle by (apply Z.rem_le; lia).
    rewrite Z.rem_abs in Hle by done. lia.
Qed.

Lemma javaDiv_exact w m a b :
  0 < w -> m = - 2 ^ (w - 1) -> in_signed w a -> b <> 0 ->
  (if (a =? m) && (b =? -1) then m else Z.quot a b) = wrap w (Z.quot a b).
Proof.
  intros Hw -> Ha Hb. destruct (Z.eqb_spec a (- 2 ^ (w - 1))) as [->|Hne].
  - destruct (Z.eqb_spec b (-1)) as [->|Hne]; cbn [andb].
    + change (-1) with (- (1)). rewrite Z.quot_opp_r, Z.quot_1_r by done.
      destruct (pow2_half w Hw) as [H2 Hp]. unfold wrap.
      replace (- - 2 ^ (w - 1) + 2 ^ (w - 1)) with (2 ^ w) by lia. rewrite Z.mod_same; lia.
    + symmetry. apply wrap_small; [done|]. apply quot_in_signed; [done..|]. by intros [_ ?].
  - cbn [andb]. symmetry. apply wrap_small; [done|]. apply quot_in_signed; [done..|]. by intros [? _].
Qed.

Lemma javaRem_exact m a b :
  (if (a =? m) && (b =? -1) then 0 else Z.rem a b) = Z.rem a b.
Proof.
  destruct (Z.eqb_spec b (-1)) as [->|]; [|by rewrite andb_false_r].
  change (-1) with (- (1)). rewrite Z.rem_opp_r, Z.rem_1_r by done. by destruct (_ =? _).
Qed.

Lemma bool_in_signed w b : 1 < w -> in_signed w (b2z b).
Proof.
  intros Hw. unfold in_signed. assert (2 ^ 1 <= 2 ^ (w - 1)) by (apply Z.pow_le_mono_r; lia).
  destruct b; cbn [b2z]; lia.
Qed.

Lemma sign_in_signed w c : 1 < w -> in_signed w (sign_of c).
Proof.
  intros Hw. unfold in_signed. assert (2 ^ 1 <= 2 ^ (w - 1)) by (apply Z.pow_le_mono_r; lia).
  destruct c; cbn [sign_of]; lia.
Qed.

#[export] Hint Resolve quot_in_signed rem_in_signed bool_in_signed sign_in_signed : machine.

(** The tests of the source are the comparisons of the specification. *)
Ltac decide_tests :=
  repeat match goal with
  | |- context [Z.eqb ?a ?b] => destruct (Z.eqb_spec a b)
  | |- context [Z.ltb ?a ?b] => destruct (Z.ltb_spec a b)
  | |- context [Z.leb ?a ?b] => destruct (Z.leb_spec a b)
  end; repeat case_bool_decide; cbn [negb b2z]; lia || congruence.

Lemma foldIntBin_sound k a b r :
  in_signed 32 a -> in_signed 32 b -> foldIntBin k a b = Some r ->
  java_bin k (JI a) (JI b) (JI r) /\ in_signed 32 r.
Proof.
  intros Ha Hb. destruct (count32 b) as [Hc Hr].
  assert (forall c : bool, (if c then 1 else 0) = b2z c) as Hif by by intros [].
  unfold foldIntBin. rewrite Hc.
  destruct k; cbn [java_bin]; try discriminate.
  all: try (intros [= <-]; rewrite ?wrap_add, ?wrap_sub, ?wrap_mul, ?wrap_shl by lia;
    rewrite ?threeWay_sign, ?Hif; split; [|by auto with machine]; try reflexivity).
  all: try by rewrite Z.shiftr_div_pow2 by lia.
  all: try decide_tests.
  - destruct (Z.eqb_spec b 0) as [|Hne]; [done|]. intros [= <-]. unfold javaDivI.
    rewrite (javaDiv_exact 32) by done. auto with machine.
  - destruct (Z.eqb_spec b 0) as [|Hne]; [done|]. intros [= <-]. unfold javaRemI.
    rewrite javaRem_exact. auto with machine.
Qed.

(** Long shifts by a long are folded by the code but are not Java operations. *)
Definition long_shift (k : NodeKind) : bool :=
  match k with NodeKind.ShlL | NodeKind.ShrL | NodeKind.UShrL => true | _ => false end.

Lemma foldLongBin_sound k a b r :
  in_signed 64 a -> in_signed 64 b -> foldLongBin k a b = Some r -> long_shift k = false ->
  java_bin k (JL a) (JL b) (if kind_eqb k NodeKind.CmpL then JI r else JL r) /\
  in_signed (if kind_eqb k NodeKind.CmpL then 32 else 64) r.
Proof.
  intros Ha Hb. unfold foldLongBin.
  destruct k; cbn [java_bin kind_eqb]; try discriminate; intros Hf Hs; try discriminate Hs;
    change (kind_eqb _ _) with false || change (kind_eqb _ _) with true; revert Hf.
  all: try (intros [= <-]; rewrite ?wrap_add, ?wrap_sub, ?wrap_mul by lia;
    rewrite ?threeWay_sign; split; [reflexivity|by auto with machine]).
  - destruct (Z.eqb_spec b 0) as [|Hne]; [done|]. intros [= <-]. unfold javaDivL.
    rewrite (javaDiv_exact 64) by done. auto with machine.
  - destruct (Z.eqb_spec b 0) as [|Hne]; [done|]. intros [= <-]. unfold javaRemL.
    rewrite javaRem_exact. auto with machine.
Qed.

Lemma nanFree_ieee f r z :
  nanFree f r = Some z -> ieee f r z /\ z = encode f r.
Proof. unfold nanFree. by destruct r; cbn; intros [= <-]. Qed.

Lemma ieee_encode f r : f = binary32 \/ f = binary64 -> ieee f r (encode f r).
Proof. intros Hf. destruct r; try done. by apply decode_encode_nan. Qed.

Lemma foldFloatBin_sound k a b z :
  foldFloatBin k (d32 a) (d32 b) = Some z ->
  java_bin k (JF a) (JF b) (JF z) /\ 0 <= z < 2 ^ 32.
Proof.
  unfold foldFloatBin. destruct (_ || _); [done|].
  assert (forall r, nanFree binary32 r = Some z -> ieee binary32 r z /\ 0 <= z < 2 ^ 32) as Hn.
  { intros r [Hi ->]%nanFree_ieee. split; [done|]. apply (encode_range binary32). by left. }
  destruct k; cbn [java_bin]; try discriminate; try apply Hn.
  destruct (_ || _); [done|]. apply Hn.
Qed.

Lemma foldDoubleBin_sound k a b z :
  foldDoubleBin k (d64 a) (d64 b) = Some z ->
  java_bin k (JD a) (JD b) (JD z) /\ 0 <= z < 2 ^ 64.
Proof.
  unfold foldDoubleBin. destruct (_ || _); [done|].
  assert (forall r, nanFree binary64 r = Some z -> ieee binary64 r z /\ 0 <= z < 2 ^ 64) as Hn.
  { intros r [Hi ->]%nanFree_ieee. split; [done|]. apply (encode_range binary64). by right. }
  destruct k; cbn [java_bin]; try discriminate; try apply Hn.
  destruct (_ || _); [done|]. apply Hn.
Qed.

Lemma fcompare_nan x y : fcompare x y = None <-> is_nan x || is_nan y = true.
Proof.
  unfold fcompare. destruct x, y; cbn [is_nan orb]; try done;
    repeat destruct (scaled _); done.
Qed.

Lemma cmpFP_fcmp nan x y : cmpFP nan x y = fcmp nan x y.
Proof.
  unfold cmpFP, fcmp, fgt, flt. pose proof (fcompare_nan x y) as Hn.
  destruct (fcompare x y) as [c|], (is_nan x || is_nan y) eqn:He; try done.
  - destruct Hn as [_ Hn]. by specialize (Hn eq_refl).
  - by destruct c.
  - destruct Hn as [Hn _]. by specialize (Hn eq_refl).
Qed.

Lemma fcmp_range nan x y : -1 <= nan <= 1 -> in_signed 32 (fcmp nan x y).
Proof.
  intros Hn. unfold fcmp. destruct (fcompare x y); [by auto with machine|].
  unfold in_signed. cbn. lia.
Qed.

(** A floating-point value that is a NaN. *)
Definition nan_val (v : jval) : Prop :=
  match v with
  | JF b => d32 b = S754_nan
  | JD b => d64 b = S754_nan
  | _ => False
  end.

Definition zero_val (v : jval) : Prop := v = JI 0 \/ v = JL 0.

Definition division (k : NodeKind) : bool :=
  match k with
  | NodeKind.DivI | NodeKind.RemI | NodeKind.DivL | NodeKind.RemL => true
  | _ => false
  end.

(** Why a typed pair of constants is not folded. *)
Definition bin_refused (k : NodeKind) (a b : jval) : Prop :=
  division k = true /\ zero_val b \/ long_shift k = true \/ k = NodeKind.RefEq \/
  forall v, java_bin k a b v -> nan_val v.

Lemma cval_inv c v :
  cval c = Some v ->
  match v with
  | JI z => flavor c = CV.I /\ cv_i c = z
  | JL z => flavor c = CV.L /\ cv_l c = z
  | JF z => flavor c = CV.F /\ cv_fb c = z
  | JD z => flavor c = CV.D /\ cv_db c = z
  | JRef r => flavor c = CV.Null /\ r = None
  | JState _ => False
  end.
Proof. unfold cval. by destruct (flavor c); intros [= <-]. Qed.

(** Equal bits when the result is not a NaN. *)
Lemma ieee_unique f r z z' : is_nan r = false -> ieee f r z -> ieee f r z' -> z' = z.
Proof. destruct r; cbn; congruence. Qed.

Lemma fold_float_refused k a b :
  foldFloatBin k (d32 a) (d32 b) = None -> kind_eqb k NodeKind.CmpFl = false ->
  kind_eqb k NodeKind.CmpFg = false -> forall v, java_bin k (JF a) (JF b) v -> nan_val v.
Proof.
  unfold foldFloatBin, nanFree. intros Hf H1 H2 [| |z| | |]; destruct k; try done;
    cbn [java_bin nan_val]; clear H1 H2;
    destruct (d32 a) eqn:Ha; destruct (d32 b) eqn:Hb; cbn [is_nan orb is_zero is_inf] in Hf; try done;
    try (match type of Hf with (if is_nan ?r then _ else _) = _ => destruct r eqn:Hr; try done end).
Qed.

Lemma fold_double_refused k a b :
  foldDoubleBin k (d64 a) (d64 b) = None -> kind_eqb k NodeKind.CmpDl = false ->
  kind_eqb k NodeKind.CmpDg = false -> forall v, java_bin k (JD a) (JD b) v -> nan_val v.
Proof.
  unfold foldDoubleBin, nanFree. intros Hf H1 H2 [| | |z| |]; destruct k; try done;
    cbn [java_bin nan_val]; clear H1 H2;
    destruct (d64 a) eqn:Ha; destruct (d64 b) eqn:Hb; cbn [is_nan orb is_zero is_inf] in Hf; try done;
    try (match type of Hf with (if is_nan ?r then _ else _) = _ => destruct r eqn:Hr; try done end).
Qed.

(** An integer result is determined unless it is a division by zero. *)
Lemma java_bin_unique k a b v v' :
  java_bin k a b v -> java_bin k a b v' -> (forall z, v <> JF z /\ v <> JD z) ->
  ~ (division k = true /\ zero_val b) -> v' = v.
Proof.
  destruct k; try (by intros []); destruct a; try (by intros []); destruct b; try (by intros []);
    destruct v; try (by intros []); intros H; destruct v'; try (by intros []);
    intros H' Hfp Hdiv; cbn [java_bin] in *.
  all: try (by destruct (Hfp bits1)).
  all: try congruence.
  all: assert (z0 <> 0) as Hnz
    by (intros ->; apply Hdiv; split; [done|]; (by left) || (by right)); rewrite H, H' by done; done.
Qed.

Lemma nanFree_unique f r z z' : nanFree f r = Some z -> ieee f r z' -> z' = z.
Proof. unfold nanFree. destruct r; cbn; congruence. Qed.

Lemma foldFloatBin_unique k a b z v :
  foldFloatBin k (d32 a) (d32 b) = Some z -> java_bin k (JF a) (JF b) v -> v = JF z.
Proof.
  unfold foldFloatBin. destruct (_ || _); [done|]. destruct k; try done; destruct v; try done;
    cbn [java_bin]; repeat case_match; try done; intros Hf Hv; f_equal; by eapply nanFree_unique.
Qed.

Lemma foldDoubleBin_unique k a b z v :
  foldDoubleBin k (d64 a) (d64 b) = Some z -> java_bin k (JD a) (JD b) v -> v = JD z.
Proof.
  unfold foldDoubleBin. destruct (_ || _); [done|]. destruct k; try done; destruct v; try done;
    cbn [java_bin]; repeat case_match; try done; intros Hf Hv; f_equal; by eapply nanFree_unique.
Qed.

Definition bin_typed (k : NodeKind) (a b : jval) : Prop := exists v, java_bin k a b v.

Lemma evalBinOp_sound k a b c va vb :
  cval a = Some va -> cval b = Some vb -> jval_ok va -> jval_ok vb ->
  bin_typed k va vb -> evalBinOp k a b = Some c ->
  exists vc, cval c = Some vc /\ jval_ok vc /\ java_bin k va vb vc.
Proof.
  intros Ha Hb Oa Ob [v Ht]. apply cval_inv in Ha, Hb. unfold evalBinOp.
  destruct va; try done; destruct Ha as [-> Ha]; destruct vb; try done; destruct Hb as [-> Hb];
    try discriminate; rewrite Ha, Hb; clear Ha Hb; cbn [jval_ok] in Oa, Ob.
  - destruct (foldIntBin _ _ _) as [r|] eqn:Hf; [|done]. intros [= <-].
    apply foldIntBin_sound in Hf as [Hj Hr]; [|done..]. rewrite wrap_small by done. by exists (JI r).
  - destruct (foldLongBin _ _ _) as [r|] eqn:Hf; [|done].
    apply foldLongBin_sound in Hf as [Hj Hr]; [|done..|by destruct k].
    destruct (kind_eqb k NodeKind.CmpL); intros [= <-].
    + rewrite wrap_small by done. by exists (JI r).
    + by exists (JL r).
  - rewrite !cmpFP_fcmp. destruct (foldFloatBin _ _ _) as [r|] eqn:Hf.
    + intros [= <-]. apply foldFloatBin_sound in Hf as [Hj Hr]. by exists (JF r).
    + destruct (kind_eqb k NodeKind.CmpFl) eqn:H1; [|destruct (kind_eqb k NodeKind.CmpFg) eqn:H2; [|done]];
        intros [= <-]; eexists; (split; [done|]);
        (apply kind_eqb_spec in H1 || apply kind_eqb_spec in H2); subst k;
        (split; [apply fcmp_range; lia|done]).
  - rewrite !cmpFP_fcmp. destruct (foldDoubleBin _ _ _) as [r|] eqn:Hf.
    + intros [= <-]. apply foldDoubleBin_sound in Hf as [Hj Hr]. by exists (JD r).
    + destruct (kind_eqb k NodeKind.CmpDl) eqn:H1; [|destruct (kind_eqb k NodeKind.CmpDg) eqn:H2; [|done]];
        intros [= <-]; eexists; (split; [done|]);
        (apply kind_eqb_spec in H1 || apply kind_eqb_spec in H2); subst k;
        (split; [apply fcmp_range; lia|done]).
Qed.

Lemma evalBinOp_refused k a b va vb :
  cval a = Some va -> cval b = Some vb -> bin_typed k va vb -> evalBinOp k a b = None ->
  bin_refused k va vb.
Proof.
  intros Ha Hb [v Ht]. apply cval_inv in Ha, Hb. unfold evalBinOp, bin_refused.
  destruct va; try done; destruct Ha as [-> Ha]; destruct vb; try done; destruct Hb as [Hf Hb];
    rewrite ?Hf, ?Ha, ?Hb; clear Hf Ha Hb; 
    try (destruct k; try (by destruct Ht); intros _;
      ((by (right; left)) || (by (right; right; left)))).
  - destruct k; try done; cbn [foldIntBin]; (destruct (Z.eqb_spec z0 0) as [->|]; [|done]);
      left; split; [done|by left| done|by left].
  - destruct k; try done; cbn [foldLongBin]; (destruct (Z.eqb_spec z0 0) as [->|]; [|done]);
      left; split; [done|by right|done|by right].
  - destruct (foldFloatBin _ _ _) as [r|] eqn:Hf; [done|].
    destruct (kind_eqb k NodeKind.CmpFl) eqn:H1; [done|].
    destruct (kind_eqb k NodeKind.CmpFg) eqn:H2; [done|]. intros _. do 3 right.
    by apply fold_float_refused.
  - destruct (foldDoubleBin _ _ _) as [r|] eqn:Hf; [done|].
    destruct (kind_eqb k NodeKind.CmpDl) eqn:H1; [done|].
    destruct (kind_eqb k NodeKind.CmpDg) eqn:H2; [done|]. intros _. do 3 right.
    by apply fold_double_refused.
Qed.

(** ** One operand *)

Lemma narrow_range w v : 1 < w -> in_signed w (narrow w v).
Proof.
  intros Hw. destruct (pow2_half w ltac:(lia)) as [_ Hp]. unfold in_signed, narrow.
  destruct v as [|[]| |]; lia.
Qed.

Lemma lxor_range n a b : 0 <= n -> 0 <= a < 2 ^ n -> 0 <= b < 2 ^ n -> 0 <= Z.lxor a b < 2 ^ n.
Proof.
  intros Hn Ha Hb.
  assert (Z.lxor a b = (Z.lxor a b) mod 2 ^ n) as ->; [|apply Z.mod_pos_bound; lia].
  rewrite <- !Z.land_ones by done. apply Z.bits_inj'. intros i Hi.
  rewrite Z.land_spec, Z.lxor_spec, Z.testbit_ones_nonneg by lia.
  destruct (Z.ltb_spec i n); [by rewrite andb_true_r|]. rewrite andb_false_r.
  rewrite <- (Z.mod_small a (2 ^ n)), <- (Z.mod_small b (2 ^ n)) by done.
  by rewrite !Z.mod_pow2_bits_high by lia.
Qed.

Lemma mod_in_signed w n a : 0 <= n < w -> in_signed w (a mod 2 ^ n).
Proof.
  intros Hn. pose proof (Z.mod_pos_bound a (2 ^ n) ltac:(apply Z.pow_pos_nonneg; lia)).
  assert (2 ^ n <= 2 ^ (w - 1)) by (apply Z.pow_le_mono_r; lia). unfold in_signed. lia.
Qed.

Lemma wrap_in_signed w w' a : 0 < w -> w <= w' -> in_signed w' (wrap w a).
Proof. intros Hw Hle. eapply in_signed_mono; [exact Hw|exact Hle|]. by apply wrap_range. Qed.

Lemma wrap_neg w a : wrap w (uwrap w (0 - uwrap w a)) = wrap w (- a).
Proof.
  rewrite wrap_uwrap. apply wrap_eqm. unfold uwrap. by rewrite Zminus_mod_idemp_r.
Qed.

Definition un_typed (k : NodeKind) (a : jval) : Prop := exists v, java_un k a v.

(** Why a typed constant is not folded: the two conversions of a NaN between
    formats, and the tests [foldValueFacts] handles. *)
Definition un_refused (k : NodeKind) (a : jval) : Prop :=
  (k = NodeKind.F2D \/ k = NodeKind.D2F) /\ (forall v, java_un k a v -> nan_val v) \/
  k = NodeKind.IsNull \/ k = NodeKind.InstanceOf.

Lemma evalUnaryOp_sound k a c va :
  cval a = Some va -> jval_ok va -> evalUnaryOp k a = Some c ->
  exists vc, cval c = Some vc /\ jval_ok vc /\ java_un k va vc.
Proof.
  intros Ha%cval_inv Oa.
  destruct va as [z|z|z|z|r|]; try done; destruct Ha as [Hf Ha]; unfold evalUnaryOp; rewrite Hf;
    destruct k; try discriminate; rewrite ?Ha; cbn [jval_ok] in Oa.
  all: try (intros [= <-]; eexists; split; [reflexivity|]; cbn [jval_ok java_un cv_i cv_l cv_fb cv_db constOfI constOfL constOfF constOfD]).
  all: rewrite ?fpToInt64_narrow.
  all: try (split; [apply (encode_range binary32); by left|apply ieee_encode; by left]).
  all: try (split; [apply (encode_range binary64); by right|apply ieee_encode; by right]).
  all: try (split; [|reflexivity]; apply lxor_range; lia).
  all: try (split; [apply narrow_range; lia|reflexivity]).
  all: try (rewrite wrap_neg; split; [by auto with machine|reflexivity]).
  all: try (rewrite (wrap_small 32 (narrow 32 _)) by (lia || by apply narrow_range);
            split; [by apply narrow_range|reflexivity]).
  all: try (rewrite (wrap_small 32 (wrap _ _)) by (lia || (apply wrap_in_signed; lia));
            split; [apply wrap_in_signed; lia|reflexivity]).
  - split; [by eapply (in_signed_mono 32)|done].
  - change 0xFFFF with (Z.ones 16). rewrite land_mask by lia.
    split; [by apply mod_in_signed|done].
  - destruct (Z.eqb_spec z 0) as [Hz|Hz].
    + split; [by apply (bool_in_signed 32 true)|by case_bool_decide].
    + split; [by apply (bool_in_signed 32 false)|by case_bool_decide].
  - rewrite wrap_uwrap. split; [by auto with machine|done].
  - destruct (is_nan _); [done|]. intros [= <-]. eexists. split; [reflexivity|].
    split; [apply (encode_range binary64); by right|apply ieee_encode; by right].
  - destruct (is_nan _); [done|]. destruct (is_nan _); [done|]. intros [= <-]. eexists.
    split; [reflexivity|].
    split; [apply (encode_range binary32); by left|apply ieee_encode; by left].
Qed.

Lemma evalUnaryOp_refused k a va :
  cval a = Some va -> un_typed k va -> evalUnaryOp k a = None -> un_refused k va.
Proof.
  intros Ha%cval_inv [v Ht]. unfold un_refused, evalUnaryOp.
  destruct va as [z|z|z|z|r|]; try done; destruct Ha as [Hf Ha]; rewrite Hf;
    destruct k; try (by destruct Ht); try discriminate; rewrite ?Ha; auto.
  - destruct (d32 z) eqn:Hd; try done. intros _. left. split; [auto|].
    intros [| | |b| |] Hb; cbn [java_un nan_val] in *; try done. by rewrite Hd in Hb.
  - intros Hn. left. split; [auto|]. intros [| |b| | |] Hb; cbn [java_un nan_val] in *; try done.
    destruct (is_nan (d64 z)) eqn:Hd.
    + destruct (d64 z); try done.
    + destruct (convert binary32 (d64 z)); done.
Qed.

(** What a fold returns is the only result the specification allows. *)
Lemma evalBinOp_unique k a b c va vb vc v :
  cval a = Some va -> cval b = Some vb -> jval_ok va -> jval_ok vb ->
  evalBinOp k a b = Some c -> cval c = Some vc -> java_bin k va vb v -> v = vc.
Proof.
  intros Ha Hb Oa Ob He Hc Hv.
  destruct (evalBinOp_sound k a b c va vb Ha Hb Oa Ob ltac:(by exists v) He) as (vc' & Hc' & _ & Hj).
  rewrite Hc in Hc'. injection Hc' as <-. apply cval_inv in Ha, Hb. revert He. unfold evalBinOp.
  assert (zero_val vb -> division k = true -> evalBinOp k a b = None) as Hdz.
  { intros Hz Hk. unfold evalBinOp. destruct Hz as [->| ->]; destruct Hb as [Fb Hb];
      destruct va; try done; destruct Ha as [Fa Ha]; rewrite Fa, ?Fb, ?Ha, ?Hb; destruct k; done. }
  destruct va; try done; destruct Ha as [Fa Ha]; destruct vb; try done; destruct Hb as [Fb Hb];
    rewrite ?Fa, ?Fb; try discriminate.
  all: rewrite ?Ha, ?Hb.
  - destruct (foldIntBin _ _ _) eqn:Hf; [|done]. intros [= <-].
    eapply java_bin_unique; [exact Hj|exact Hv| |].
    + intros z'. by injection Hc as <-.
    + intros [Hk Hz]. specialize (Hdz Hz Hk). unfold evalBinOp in Hdz.
      by rewrite Fa, Fb, Ha, Hb, Hf in Hdz.
  - destruct (foldLongBin _ _ _) eqn:Hf; [|done]. intros He.
    eapply java_bin_unique; [exact Hj|exact Hv| |].
    + intros z'. destruct (kind_eqb k NodeKind.CmpL); injection He as <-; by injection Hc as <-.
    + intros [Hk Hz]. specialize (Hdz Hz Hk). unfold evalBinOp in Hdz.
      rewrite Fa, Fb, Ha, Hb, Hf in Hdz. by destruct (kind_eqb _ _).
  - destruct (foldFloatBin _ _ _) as [r|] eqn:Hf.
    + intros [= <-]. injection Hc as <-. by eapply foldFloatBin_unique.
    + intros He. eapply java_bin_unique; [exact Hj|exact Hv| |by intros [? [?|?]]].
      intros z'. destruct (kind_eqb k NodeKind.CmpFl); [|destruct (kind_eqb k NodeKind.CmpFg); [|done]];
        injection He as <-; by injection Hc as <-.
  - destruct (foldDoubleBin _ _ _) as [r|] eqn:Hf.
    + intros [= <-]. injection Hc as <-. by eapply foldDoubleBin_unique.
    + intros He. eapply java_bin_unique; [exact Hj|exact Hv| |by intros [? [?|?]]].
      intros z'. destruct (kind_eqb k NodeKind.CmpDl); [|destruct (kind_eqb k NodeKind.CmpDg); [|done]];
        injection He as <-; by injection Hc as <-.
Qed.

Lemma evalUnaryOp_unique k a c va vc v :
  cval a = Some va -> jval_ok va -> evalUnaryOp k a = Some c -> cval c = Some vc ->
  java_un k va v -> v = vc.
Proof.
  intros Ha Oa He Hc Hv.
  destruct (evalUnaryOp_sound k a c va Ha Oa He) as (vc' & Hc' & _ & Hj).
  rewrite Hc in Hc'. injection Hc' as <-. clear Hc. apply cval_inv in Ha. revert He. unfold evalUnaryOp.
  destruct va as [z|z|z|z|r|]; try done; destruct Ha as [Hf Ha]; rewrite Hf, ?Ha;
    destruct k; try (by destruct Hv); try discriminate; destruct v; try (by destruct Hv);
    destruct vc; try (by destruct Hj); cbn [java_un] in Hv, Hj; intros He; try congruence;
    f_equal; refine (ieee_unique _ _ _ _ _ Hj Hv); rewrite ?convert_nan; try apply of_int_not_nan.
  - by destruct (is_nan (d32 z)).
  - by destruct (is_nan (d64 z)).
Qed.

Lemma evalBinOp_kind k a b c : evalBinOp k a b = Some c -> java_bin_kind k = true.
Proof. unfold evalBinOp. destruct (flavor a), (flavor b); try done; destruct k; try done;
  cbn; try done; unfold foldFloatBin, foldDoubleBin; destruct (_ || _); done. Qed.

Lemma evalUnaryOp_kind k a c : evalUnaryOp k a = Some c -> java_un_kind k = true.
Proof. unfold evalUnaryOp. by destruct k, (flavor a). Qed.

(** ** The evaluators are the Java operators *)

(** C26: the two-operand evaluator is exact. On constants of the operand types of
    the kind it either returns the one value the Java operator has there, within
    the range of its type, or refuses; it refuses only a division or
    remainder by zero, arithmetic whose result is a NaN, a reference comparison,
    and a long shift, whose count is an int constant. *)
Theorem evalBinOp_exact k a b va vb :
  cval a = Some va -> cval b = Some vb -> jval_ok va -> jval_ok vb -> bin_typed k va vb ->
  match evalBinOp k a b with
  | Some c => exists vc, cval c = Some vc /\ jval_ok vc /\ forall v, java_bin k va vb v <-> v = vc
  | None => bin_refused k va vb
  end.
Proof.
  intros Ha Hb Oa Ob Ht. destruct (evalBinOp k a b) as [c|] eqn:He.
  - destruct (evalBinOp_sound k a b c va vb Ha Hb Oa Ob Ht He) as (vc & Hc & Hok & Hj).
    exists vc. split; [exact Hc|]. split; [exact Hok|]. intros v. split.
    + intros Hv. exact (evalBinOp_unique k a b c va vb vc v Ha Hb Oa Ob He Hc Hv).
    + by intros ->.
  - by eapply evalBinOp_refused.
Qed.

(** The most negative int divided by -1 wraps to itself. *)
Lemma evalBinOp_exact_witness :
  evalBinOp NodeKind.DivI (constOfI (-2147483648)) (constOfI (-1)) =
    Some (constOfI (-2147483648)) /\
  forall v, java_bin NodeKind.DivI (JI (-2147483648)) (JI (-1)) v <-> v = JI (-2147483648).
Proof.
  split; [vm_compute; reflexivity|].
  assert (bin_typed NodeKind.DivI (JI (-2147483648)) (JI (-1))) as Ht.
  { exists (JI (-2147483648)). intros _. vm_compute. reflexivity. }
  pose proof (evalBinOp_exact NodeKind.DivI (constOfI (-2147483648)) (constOfI (-1))
    (JI (-2147483648)) (JI (-1)) eq_refl eq_refl) as H.
  destruct H as (vc & Hc & _ & Hv); [vm_compute; split; congruence..|exact Ht|].
  vm_compute in Hc. injection Hc as <-. exact Hv.
Defined.

(** C27: the one-operand evaluator returns the one value the Java operator or
    conversion has, in the range of its type: in particular the
    narrowing of any float or double to int or long is the JLS 5.1.3 one, and
    the wide path of [fpToInt64] never truncates out of range. It refuses a typed
    constant only for the conversion of a NaN to the other format, and for the
    two reference tests. *)
Theorem evalUnaryOp_exact k a va :
  cval a = Some va -> jval_ok va ->
  match evalUnaryOp k a with
  | Some c => exists vc, cval c = Some vc /\ jval_ok vc /\ forall v, java_un k va v <-> v = vc
  | None => un_typed k va -> un_refused k va
  end.
Proof.
  intros Ha Oa. destruct (evalUnaryOp k a) as [c|] eqn:He.
  - destruct (evalUnaryOp_sound k a c va Ha Oa He) as (vc & Hc & Hok & Hj).
    exists vc. split; [exact Hc|]. split; [exact Hok|]. intros v. split.
    + intros Hv. exact (evalUnaryOp_unique k a c va vc v Ha Oa He Hc Hv).
    + by intros ->.
  - intros Ht. by eapply evalUnaryOp_refused.
Qed.

(** 3e9 narrows to the largest int; -1.5 to -1. *)
Lemma evalUnaryOp_exact_witness :
  evalUnaryOp NodeKind.D2I (constOfD 0x41e65a0bc0000000) = Some (constOfI 2147483647) /\
  evalUnaryOp NodeKind.D2I (constOfD 0xbff8000000000000) = Some (constOfI (-1)) /\
  exists vc, cval (constOfI 2147483647) = Some vc /\ jval_ok vc /\
    forall v, java_un NodeKind.D2I (JD 0x41e65a0bc0000000) v <-> v = vc.
Proof.
  split; [vm_compute; reflexivity|]. split; [vm_compute; reflexivity|].
  assert (evalUnaryOp NodeKind.D2I (constOfD 0x41e65a0bc0000000) = Some (constOfI 2147483647))
    as He by (vm_compute; reflexivity).
  pose proof (evalUnaryOp_exact NodeKind.D2I (constOfD 0x41e65a0bc0000000)
    (JD 0x41e65a0bc0000000) eq_refl) as H.
  rewrite He in H. apply H. vm_compute. split; congruence.
Defined.
