(* ===== verification/Simplify.v ===== *)
(** * The simplify engine

    compiler/passes/src/Simplify.cpp: constant folding, identity removal,
    strength reduction, canonicalization and trivial-phi collapse, selected by a
    mask and applied by sweeps in id order. A rule returns the replacement, if
    any, with the graph, in which it may have made a node. *)

From S2P Require Import Prelude IRTypes Effect NodeInfo SmallVector Graph.
From S2P Require Import ResultType PassSupport Machine JavaSem ConstFold.

Local Open Scope N_scope.

Definition kFold : N := 1.
Definition kIdentity : N := 2.
Definition kStrength : N := 4.
Definition kCanonical : N := 8.
Definition kTrivialPhi : N := 16.

Definition kMaxSimplifySweeps : N := 8.

Definition has_class (classMask c : N) : bool := negb (N.land classMask c =? 0).

(** [std::optional<NodeId>] beside the graph. *)
Abbreviation found := (option NodeId * Graph)%type.

Definition no (g : Graph) : found := (None, g).
Definition yes (r : NodeId * Graph) : found := (Some (fst r), snd r).

(** [if (!rep) rep = next();] *)
Definition orelse (r : found) (next : Graph -> found) : found :=
  match fst r with Some _ => r | None => next (snd r) end.

(** ** Folding *)

Definition foldUnary (g : Graph) (k : NodeKind) (a : ConstVal) : found :=
  if negb (isConst a) then no g
  else match evalUnaryOp k a with
       | None => no g
       | Some r => yes (makeConstNode g r)
       end.

Definition isNullConst (c : ConstVal) : bool := bool_decide (flavor c = CV.Null).

Definition foldValueFacts (g : Graph) (k : NodeKind) (n : NodeId) : found :=
  match k with
  | NodeKind.IsNull =>
      let x := input g n 0 in
      if isNullConst (constOf g x) then yes (constantI g 1)
      else if isNeverNullNode g x then yes (constantI g 0)
      else no g
  | NodeKind.RefEq =>
      let a := input g n 0 in
      let b := input g n 1 in
      let ca := constOf g a in
      let cb := constOf g b in
      if a =? b then yes (constantI g 1)
      else if isNullConst ca && isNullConst cb then yes (constantI g 1)
      else if (isNullConst ca && isNeverNullNode g b) ||
              (isNullConst cb && isNeverNullNode g a) then yes (constantI g 0)
      else no g
  | NodeKind.InstanceOf =>
      if isNullConst (constOf g (input g n 0)) then yes (constantI g 0) else no g
  | _ => no g
  end.

(** ** Identities *)

(** [isI(nd) && valOf(nd) == v] *)
Definition isVal (isLong : bool) (nd : Node) (v : Z) : bool :=
  kind_eqb (nd_kind nd) (if isLong then NodeKind.ConstantL else NodeKind.ConstantI) &&
  ((if isLong then i64 (nd_constValue nd) else i32 (nd_constValue nd)) =? v)%Z.

Definition constantIL (isLong : bool) (g : Graph) (v : Z) : NodeId * Graph :=
  if isLong then constantL g v else constantI g v.

(** The switch on equal operands. *)
Definition selfIdentity (g : Graph) (k : NodeKind) (a : NodeId) (isLong : bool) : found :=
  match k with
  | NodeKind.SubI | NodeKind.SubL => yes (constantIL isLong g 0)
  | NodeKind.AndI | NodeKind.AndL | NodeKind.OrI | NodeKind.OrL => (Some a, g)
  | NodeKind.XorI | NodeKind.XorL => yes (constantIL isLong g 0)
  | NodeKind.CmpI | NodeKind.CmpL => yes (constantI g 0)
  | NodeKind.EqI | NodeKind.LeI | NodeKind.GeI => yes (constantI g 1)
  | NodeKind.NeI | NodeKind.LtI | NodeKind.GtI => yes (constantI g 0)
  | _ => no g
  end.

(** The switch on constant operands. *)
Definition constIdentity (g : Graph) (k : NodeKind) (a b : NodeId) (isLong : bool) : found :=
  let na := node g a in
  let nb := node g b in
  let eqs := isVal isLong in
  match k with
  | NodeKind.AddI | NodeKind.AddL =>
      if eqs na 0 then (Some b, g) else if eqs nb 0 then (Some a, g) else no g
  | NodeKind.SubI | NodeKind.SubL => if eqs nb 0 then (Some a, g) else no g
  | NodeKind.MulI | NodeKind.MulL =>
      if eqs na 1 then (Some b, g) else if eqs nb 1 then (Some a, g)
      else if eqs na 0 || eqs nb 0 then yes (constantIL isLong g 0) else no g
  | NodeKind.AndI | NodeKind.AndL =>
      if eqs na (-1) then (Some b, g) else if eqs nb (-1) then (Some a, g)
      else if eqs na 0 || eqs nb 0 then yes (constantIL isLong g 0) else no g
  | NodeKind.OrI | NodeKind.OrL =>
      if eqs na 0 then (Some b, g) else if eqs nb 0 then (Some a, g)
      else if eqs na (-1) || eqs nb (-1) then yes (constantIL isLong g (-1)) else no g
  | NodeKind.XorI | NodeKind.XorL =>
      if eqs na 0 then (Some b, g) else if eqs nb 0 then (Some a, g) else no g
  | NodeKind.ShlI | NodeKind.ShrI | NodeKind.UShrI
  | NodeKind.ShlL | NodeKind.ShrL | NodeKind.UShrL =>
      if isVal false nb 0 then (Some a, g) else no g
  | NodeKind.DivI | NodeKind.DivL => if eqs nb 1 then (Some a, g) else no g
  | NodeKind.RemI | NodeKind.RemL =>
      if eqs nb 1 then yes (constantIL isLong g 0) else no g
  | _ => no g
  end%Z.

Definition tryIdentity (g : Graph) (k : NodeKind) (n : NodeId) (isLong : bool) : found :=
  let a := input g n 0 in
  let b := input g n 1 in
  orelse (if a =? b then selfIdentity g k a isLong else no g)
    (fun g => constIdentity g k a b isLong).

Definition tryDoubleNeg (g : Graph) (k : NodeKind) (n : NodeId) : found :=
  match k with
  | NodeKind.NegI | NodeKind.NegL | NodeKind.NegF | NodeKind.NegD =>
      let inner := input g n 0 in
      let ni := node g inner in
      if isDead ni || negb (kind_eqb (nd_kind ni) k) then no g else (Some (input g inner 0), g)
  | _ => no g
  end.

Definition tryConversionIdentity (g : Graph) (k : NodeKind) (n : NodeId) : found :=
  let inner := input g n 0 in
  let ni := node g inner in
  if isDead ni then no g
  else match k with
       | NodeKind.L2I =>
           if kind_eqb (nd_kind ni) NodeKind.I2L then (Some (input g inner 0), g) else no g
       | NodeKind.I2B | NodeKind.I2C | NodeKind.I2S =>
           if kind_eqb (nd_kind ni) k then (Some inner, g) else no g
       | _ => no g
       end.

Definition tryNotNot (g : Graph) (k : NodeKind) (n : NodeId) : found :=
  if negb (kind_eqb k NodeKind.Not) then no g
  else
    let inner := input g n 0 in
    let ni := node g inner in
    if isDead ni || negb (kind_eqb (nd_kind ni) NodeKind.Not) then no g
    else
      let inner2 := input g inner 0 in
      match nd_kind (node g inner2) with
      | NodeKind.EqI | NodeKind.NeI | NodeKind.LtI | NodeKind.LeI | NodeKind.GtI
      | NodeKind.GeI | NodeKind.IsNull | NodeKind.RefEq => (Some inner2, g)
      | _ => no g
      end.

(** ** Strength reduction *)

(** [std::countr_zero] of a non-zero value. *)
Fixpoint pos_trailing_zeros (p : positive) : N :=
  match p with
  | xO q => 1 + pos_trailing_zeros q
  | _ => 0
  end.

Definition countr_zero (z : Z) : N :=
  match z with Zpos p => pos_trailing_zeros p | _ => 64 end.

(** One operand of the loop: the constant [nd] and the other operand [x]. *)
Definition strengthOperand (g : Graph) (isMulI : bool) (nd : Node) (x : NodeId) : found :=
  if negb (kind_eqb (nd_kind nd) (if isMulI then NodeKind.ConstantI else NodeKind.ConstantL))
  then no g
  else
    let raw := if isMulI then uz32 (nd_constValue nd) else uz64 (nd_constValue nd) in
    if ((1 <? raw) && (Z.land raw (raw - 1) =? 0))%Z then
      let '(shiftK, g) := constantI g (Z.of_N (countr_zero raw)) in
      yes (make g (if isMulI then NodeKind.ShlI else NodeKind.ShlL) [x; shiftK] 0 0)
    else no g.

(** The operand that is not the constant is slot 1 exactly when the constant's
    node is the node of slot 0, which for equal operands it also is. *)
Definition tryStrength (g : Graph) (k : NodeKind) (n : NodeId) : found :=
  let isMulI := kind_eqb k NodeKind.MulI in
  let isMulL := kind_eqb k NodeKind.MulL in
  if negb isMulI && negb isMulL then no g
  else
    let a := input g n 0 in
    let b := input g n 1 in
    orelse (strengthOperand g isMulI (node g a) b)
      (fun g => strengthOperand g isMulI (node g b) (if b =? a then b else a)).

(** ** Canonical forms *)

Definition isCommutativeInt (k : NodeKind) : bool :=
  match k with
  | NodeKind.AddI | NodeKind.MulI | NodeKind.AndI | NodeKind.OrI | NodeKind.XorI
  | NodeKind.AddL | NodeKind.MulL | NodeKind.AndL | NodeKind.OrL | NodeKind.XorL => true
  | _ => false
  end.

Definition complementTest (k : NodeKind) : option NodeKind :=
  match k with
  | NodeKind.EqI => Some NodeKind.NeI
  | NodeKind.NeI => Some NodeKind.EqI
  | NodeKind.LtI => Some NodeKind.GeI
  | NodeKind.GeI => Some NodeKind.LtI
  | NodeKind.LeI => Some NodeKind.GtI
  | NodeKind.GtI => Some NodeKind.LeI
  | _ => None
  end.

Definition isIntConst (nd : Node) : bool :=
  kind_eqb (nd_kind nd) NodeKind.ConstantI || kind_eqb (nd_kind nd) NodeKind.ConstantL.

(** [swapOperands] *)
Definition wantsSwap (g : Graph) (k : NodeKind) (n : NodeId) : bool :=
  let n0 := node g (input g n 0) in
  let n1 := node g (input g n 1) in
  (numInputs g n =? 2) && isCommutativeInt k &&
  (isIntConst n0 && negb (isIntConst n1) && negb (isDead n1)).

Definition complementNot (g : Graph) (k : NodeKind) (n : NodeId) : found :=
  if kind_eqb k NodeKind.Not && (numInputs g n =? 1) then
    let inner := input g n 0 in
    let ni := node g inner in
    if negb (isDead ni) && (nd_numInputs ni =? 2) then
      match complementTest (nd_kind ni) with
      | None => no g
      | Some comp => yes (make g comp [input g inner 0; input g inner 1] 0 0)
      end
    else no g
  else no g.

(** ** Trivial phis *)

(** The loop over the value inputs: [distinct] so far, or [None] once two
    different ones are seen. *)
Definition phiStep (g : Graph) (n : NodeId) (distinct : option NodeId) (s : N) : option NodeId :=
  match distinct with
  | None => None
  | Some d =>
      let v := input g n s in
      if v =? n then Some d
      else if d =? kInvalidNodeId then Some v
      else if negb (d =? v) then None
      else Some d
  end.

Definition tryTrivialPhi (g : Graph) (n : NodeId) : option NodeId :=
  if negb (kind_eqb (nd_kind (node g n)) NodeKind.Phi) || (numInputs g n <? 1) then None
  else
    match foldl (phiStep g n) (Some kInvalidNodeId) (value_slots (numInputs g n)) with
    | None => None
    | Some d => if d =? kInvalidNodeId then None else Some d
    end.

(** ** One node *)

Definition foldRules (g : Graph) (k : NodeKind) (n : NodeId) : found :=
  orelse
    (orelse
       (if numInputs g n =? 2 then
          let a := constOf g (input g n 0) in
          let b := constOf g (input g n 1) in
          if isConst a && isConst b then
            match evalBinOp k a b with
            | Some r => yes (makeConstNode g r)
            | None => no g
            end
          else no g
        else no g)
       (fun g => if numInputs g n =? 1 then foldUnary g k (constOf g (input g n 0)) else no g))
    (fun g => foldValueFacts g k n).

Definition isLongKind (k : NodeKind) : bool :=
  match k with
  | NodeKind.AddL | NodeKind.SubL | NodeKind.MulL | NodeKind.AndL | NodeKind.OrL
  | NodeKind.XorL | NodeKind.DivL | NodeKind.RemL => true
  | _ => false
  end.

Definition identityRules (g : Graph) (k : NodeKind) (n : NodeId) : found :=
  orelse (if numInputs g n =? 2 then tryIdentity g k n (isLongKind k) else no g) (fun g =>
  orelse (tryDoubleNeg g k n) (fun g =>
  orelse (tryConversionIdentity g k n) (fun g => tryNotNot g k n))).

(** The replacement the mask's rules find for [n]. *)
Definition findReplacement (classMask : N) (g : Graph) (n : NodeId) : found :=
  let k := nd_kind (node g n) in
  let enabled c (rule : Graph -> found) g := if has_class classMask c then rule g else no g in
  orelse (if has_class classMask kTrivialPhi then (tryTrivialPhi g n, g) else no g) (fun g =>
  orelse (enabled kFold (fun g => foldRules g k n) g) (fun g =>
  orelse (enabled kIdentity (fun g => identityRules g k n) g) (fun g =>
  orelse (enabled kStrength (fun g => tryStrength g k n) g)
         (enabled kCanonical (fun g =>
            if (numInputs g n =? 2) && isCommutativeInt k then no g else complementNot g k n))))).

Definition count_fold (t : PassTelemetry) : PassTelemetry :=
  mkTelemetry (t_rewrites t) (t_removals t) (u32 (t_folds t + 1)) (t_gvnDedups t)
    (t_sccpConstants t) (t_rounds t) (t_budgetOverruns t) (t_peaScalarized t)
    (t_peaMaterialized t) (t_peaRejected t) (t_converged t).

Definition swapInputs (g : Graph) (n : NodeId) : Graph :=
  let a := input g n 0 in
  let b := input g n 1 in
  setInput (setInput g n 0 b) n 1 a.

(** The body of the inner loop; the result says whether [changed] is set. *)
Definition simplify_visit (classMask : N) (n : NodeId) (st : pass_state)
    : option (bool * pass_state) :=
  let g := ps_g st in
  if isDead (node g n) then Some (false, st)
  else
    let k := nd_kind (node g n) in
    let '(rep, g') := findReplacement classMask g n in
    let st := mkPass (g', ps_jk st) (ps_t st) (ps_b st) in
    match rep with
    | Some r =>
        if negb (r =? n) then
          if (r <? nodeCount g') && isDead (node g' r) then Some (false, st)
          else
            match replace n r st with
            | None => None
            | Some st' =>
                if negb (t_rewrites (ps_t st') =? t_rewrites (ps_t st))
                then Some (true, mkPass (ps_world st') (count_fold (ps_t st')) (ps_b st'))
                else Some (false, st')
            end
        else Some (false, st)
    | None =>
        if has_class classMask kCanonical && wantsSwap g k n
        then Some (true, mkPass (swapInputs g' n, ps_jk st)
                           (count_rewrite (count_fold (ps_t st))) (ps_b st))
        else Some (false, st)
    end.

(** One sweep; [changed] is threaded through. *)
Fixpoint simplify_sweep (fuel : nat) (classMask : N) (n : NodeId) (changed : bool)
    (st : pass_state) : option (bool * pass_state) :=
  match fuel with
  | O => None
  | S fuel =>
      if n <? nodeCount (ps_g st) then
        if b_exceeded (ps_b st) then Some (changed, st)
        else
          match simplify_visit classMask n st with
          | None => None
          | Some (c, st) => simplify_sweep fuel classMask (u32 (n + 1)) (changed || c) st
          end
      else Some (changed, st)
  end.

Fixpoint simplify_sweeps (sweeps : nat) (fuel : nat) (classMask : N) (st : pass_state)
    : option pass_state :=
  match sweeps with
  | O => Some st
  | S sweeps =>
      match simplify_sweep fuel classMask 0 false st with
      | None => None
      | Some (changed, st) =>
          if changed then simplify_sweeps sweeps fuel classMask st else Some st
      end
  end.

Definition runSimplify (fuel : nat) (classMask : N) (st : pass_state) : option pass_state :=
  simplify_sweeps (N.to_nat kMaxSimplifySweeps) fuel classMask st.
