(* ===== verification/SimplifyValues.v ===== *)
(** * What the simplify rules preserve

    [java_values pick V g]: the assignment [V] of Java values to the nodes of [g]
    agrees with the specification of every live node (for a Phi, with the input
    that [pick] chooses). Making a node, replacing a node by one with the same
    value and swapping the operands of a commutative operation all keep such an
    assignment. *)

From Stdlib Require Import SpecFloat.
From S2P Require Import Prelude IRTypes Effect NodeInfo SmallVector Graph GraphInv.
From S2P Require Import GraphReplace ResultType PassSupport PassLaw PassGrow PassRewire.
From S2P Require Import Machine JavaSem ConstFold Simplify.

Local Open Scope N_scope.

Definition java_node (pick : NodeId -> N) (V : NodeId -> jval) (g : Graph) (n : NodeId) : Prop :=
  let nd := node g n in
  match nd_kind nd with
  | NodeKind.ConstantI => V n = JI (i32 (nd_constValue nd))
  | NodeKind.ConstantL => V n = JL (i64 (nd_constValue nd))
  | NodeKind.ConstantF => V n = JF (uz32 (nd_constValue nd))
  | NodeKind.ConstantD => V n = JD (uz64 (nd_constValue nd))
  | NodeKind.ConstantNull => V n = JRef None
  | NodeKind.Phi => 1 <= pick n < numInputs g n /\ V n = V (input g n (pick n))
  | k =>
      (java_bin_kind k = true ->
         numInputs g n = 2 /\ java_bin k (V (input g n 0)) (V (input g n 1)) (V n)) /\
      (java_un_kind k = true -> numInputs g n = 1 /\ java_un k (V (input g n 0)) (V n))
  end.

Definition node_values (pick : NodeId -> N) (V : NodeId -> jval) (g : Graph) (n : NodeId) : Prop :=
  jval_ok (V n) /\ (isNeverNullNode g n = true -> exists p, V n = JRef (Some p)) /\
  java_node pick V g n.

Definition java_values (pick : NodeId -> N) (V : NodeId -> jval) (g : Graph) : Prop :=
  forall n, alive g n -> node_values pick V g n.

(** Kinds whose inputs a value is computed from. *)
Definition data_kind (k : NodeKind) : bool :=
  java_bin_kind k || java_un_kind k || kind_eqb k NodeKind.Phi || kind_eqb k NodeKind.BitCast.

(** [n] is computed from [m]. *)
Definition reads_value (g : Graph) (n m : NodeId) : Prop :=
  isDead (node g n) = false /\ data_kind (nd_kind (node g n)) = true /\
  exists s, has_slot g n s /\ input g n s = m /\
    (nd_kind (node g n) = NodeKind.Phi -> 1 <= s).

(** No value is computed from itself. *)
Definition acyclic (g : Graph) : Prop := forall m, Acc (fun y x => reads_value g x y) m.

(** ** Reading the specification of a node *)

Lemma java_bin_node pick V g n :
  java_node pick V g n -> java_bin_kind (nd_kind (node g n)) = true ->
  numInputs g n = 2 /\
  java_bin (nd_kind (node g n)) (V (input g n 0)) (V (input g n 1)) (V n).
Proof. unfold java_node. destruct (nd_kind (node g n)); try done; by intros [? _]; auto. Qed.

Lemma java_un_node pick V g n :
  java_node pick V g n -> java_un_kind (nd_kind (node g n)) = true ->
  numInputs g n = 1 /\ java_un (nd_kind (node g n)) (V (input g n 0)) (V n).
Proof. unfold java_node. destruct (nd_kind (node g n)); try done; by intros [_ ?]; auto. Qed.

(** The value of a constant node is the constant the evaluators read. *)
Lemma constOf_value pick V g n c :
  node_values pick V g n -> constOf g n = c -> isConst c = true ->
  cval c = Some (V n) /\ jval_ok (V n).
Proof.
  intros (Hok & _ & Hj) <-. split; [|done]. revert H Hj Hok. unfold constOf, java_node.
  destruct (isDead (node g n)); [done|].
  destruct (nd_kind (node g n)); try done; cbn [isConst flavor]; intros _ ->; try done.
Qed.

(** ** Making nodes *)

(** [g'] is [g] with at most [c] more live nodes and [c] more edge words. *)
Record made (c : N) (g g' : Graph) : Prop := {
  md_law : law g';
  md_acyclic : acyclic g';
  md_count : vlen (nodes_ g) <= vlen (nodes_ g') <= vlen (nodes_ g) + c;
  md_pool : vlen (edgePool_ g') <= vlen (edgePool_ g) + c;
  md_kept : forall m, m < vlen (nodes_ g) ->
    node g' m = node g m /\ forall s, input g' m s = input g m s;
  md_new : forall m, vlen (nodes_ g) <= m < vlen (nodes_ g') ->
    isDead (node g' m) = false /\ nd_kind (node g' m) <> NodeKind.Phi;
  md_start : startNode g' = startNode g;
  md_fs : fsDesc_ g' = fsDesc_ g
}.

Lemma made_refl g : law g -> acyclic g -> made 0 g g.
Proof. intros Hl Ha. split; try done; try lia. Qed.

Lemma made_trans c1 c2 g1 g2 g3 : made c1 g1 g2 -> made c2 g2 g3 -> made (c1 + c2) g1 g3.
Proof.
  intros [A1 A2 A3 A4 A5 A6 A7 A8] [B1 B2 B3 B4 B5 B6 B7 B8].
  split; [done|done|lia|lia| | |congruence|congruence].
  - intros m Hm. destruct (A5 m Hm) as [An Ai]. destruct (B5 m) as [Bn Bi]; [lia|].
    split; [congruence|]. intros s. by rewrite Bi.
  - intros m Hm. destruct (N.lt_ge_cases m (vlen (nodes_ g2))); [|apply B6; lia].
    destruct (B5 m) as [-> _]; [done|]. apply A6. lia.
Qed.

Lemma made_weaken c c' g g' : made c g g' -> c <= c' -> made c' g g'.
Proof. intros [A1 A2 A3 A4 A5 A6 A7 A8] Hc. split; try done; lia. Qed.

Lemma made_room c d g g' : made c g g' -> room (c + d) g -> room d g'.
Proof. intros [_ _ A3 A4 _ _ _ A8] (?&?&?). unfold room. rewrite A8. split_and!; lia. Qed.

Lemma made_numInputs c g g' m : made c g g' -> m < vlen (nodes_ g) -> numInputs g' m = numInputs g m.
Proof. intros Hm Hlt. unfold numInputs. by destruct (md_kept _ _ _ Hm m Hlt) as [-> _]. Qed.

Lemma made_alive c g g' m : made c g g' -> alive g m -> alive g' m.
Proof.
  intros Hm [Hlt Hd]. pose proof (md_count _ _ _ Hm). split; [lia|].
  by destruct (md_kept _ _ _ Hm m Hlt) as [-> _].
Qed.

Lemma made_junk c g g' jk : made c g g' -> junk_ok g jk -> junk_ok g' jk.
Proof.
  intros Hm [J1 J2]. pose proof (md_count _ _ _ Hm). split.
  - intros x [->|(Hx & Hk & Hz)]%J1; [by left|right]. split; [lia|].
    rewrite (made_numInputs _ _ _ _ Hm Hx). by destruct (md_kept _ _ _ Hm x Hx) as [-> _].
  - intros r [Ha Hk]%J2. split; [by eapply made_alive|].
    by destruct (md_kept _ _ _ Hm r (proj1 Ha)) as [-> _].
Qed.

(** Old nodes read what they read before. *)
Lemma made_reads c g g' n m :
  closed g -> made c g g' -> n < vlen (nodes_ g) -> reads_value g' n m <-> reads_value g n m.
Proof.
  intros Hc Hm Hn. unfold reads_value. destruct (md_kept _ _ _ Hm n Hn) as [-> Hi].
  setoid_rewrite has_slot_iff. setoid_rewrite Hi.
  rewrite (made_numInputs _ _ _ _ Hm Hn). done.
Qed.

Lemma reads_value_lt g n m : closed g -> reads_value g n m -> m < vlen (nodes_ g).
Proof. intros Hc (_ & _ & s & Hs & <- & _). by apply Hc. Qed.

(** A fresh node adds no cycle. *)
Lemma acyclic_fresh g g' f :
  closed g -> acyclic g -> f = vlen (nodes_ g) ->
  (forall n m, n <> f -> reads_value g' n m -> reads_value g n m) ->
  (forall m, reads_value g' f m -> m < f) -> acyclic g'.
Proof.
  intros Hc Ha -> Hold Hf.
  assert (forall m, m < vlen (nodes_ g) -> Acc (fun y x => reads_value g' x y) m) as Hlt.
  { intros m. induction (Ha m) as [m _ IH]. intros Hm. constructor. intros y Hy.
    apply Hold in Hy; [|lia]. apply IH; [done|]. by eapply reads_value_lt. }
  intros m. destruct (decide (m = vlen (nodes_ g))) as [->|Hne].
  - constructor. intros y Hy%Hf. by apply Hlt.
  - constructor. intros y Hy%Hold; [|done]. by eapply Hlt, reads_value_lt.
Qed.

Definition fresh (g : Graph) : NodeId := vlen (nodes_ g).

Lemma makeRaw_made g k ins p p2 cv :
  law g -> acyclic g -> no_wrap_make g ins -> k <> NodeKind.Phi -> k <> NodeKind.BitCast ->
  Forall (alive g) ins -> made (1 + vlen ins) g (snd (makeRaw g k ins p p2 cv)).
Proof.
  intros Hl Ha Hw Hphi Hcast Hins. pose proof Hw as (Hw1 & Hw2 & Hw3).
  pose proof (law_ok g Hl) as Hok. pose proof (law_closed g Hl) as Hc.
  assert (forall m, m <> vlen (nodes_ g) ->
    node (snd (makeRaw g k ins p p2 cv)) m = node g m /\
    numInputs (snd (makeRaw g k ins p p2 cv)) m = numInputs g m /\
    forall s, input (snd (makeRaw g k ins p p2 cv)) m s = input g m s) as Hkept.
  { intros m Hm. rewrite makeRaw_node, makeRaw_numInputs by done.
    split_and!; [by case_cmp..|]. intros s. rewrite makeRaw_input by done. by case_cmp. }
  split.
  - by apply law_makeRaw.
  - apply (acyclic_fresh g _ (vlen (nodes_ g))); [done..| |].
    + intros n m Hn. destruct (Hkept n Hn) as (H1 & H2 & H3). unfold reads_value.
      setoid_rewrite has_slot_iff. rewrite H1, H2. setoid_rewrite H3. done.
    + intros m (_ & _ & s & Hs%has_slot_iff & <- & _).
      rewrite makeRaw_numInputs, N.eqb_refl in Hs by done.
      rewrite makeRaw_input, N.eqb_refl by done. apply vget_lt_is_Some in Hs as [x Hx].
      rewrite Hx. cbn [default]. rewrite vget_lookup in Hx.
      by eapply Forall_lookup_1 in Hins as [? _].
  - rewrite makeRaw_vlen_nodes by done. lia.
  - simpl. rewrite vlen_app. lia.
  - intros m Hm. destruct (Hkept m) as (H1 & _ & H3); [lia|done].
  - intros m. rewrite makeRaw_vlen_nodes by done. intros Hm.
    assert (m = vlen (nodes_ g)) as -> by lia. by rewrite makeRaw_node, N.eqb_refl.
  - done.
  - done.
Qed.

(** ** Values of unchanged nodes *)

(** The specification of a node mentions its record and the values of its inputs. *)
Lemma node_values_ext pick V V' g g' n :
  node g' n = node g n -> V' n = V n ->
  (forall s, has_slot g n s -> V' (input g' n s) = V (input g n s)) ->
  node_values pick V g n -> node_values pick V' g' n.
Proof.
  intros Hn HV Hin (Hok & Hnn & Hj). unfold node_values. rewrite HV. split; [done|].
  split; [unfold isNeverNullNode in *; by rewrite Hn|].
  assert (numInputs g' n = numInputs g n) as Hnum by (unfold numInputs; by rewrite Hn).
  setoid_rewrite has_slot_iff in Hin. revert Hj. unfold java_node. rewrite Hn, HV, Hnum.
  destruct (nd_kind (node g n)); try done;
    try (intros [Hb Hu]; split; intros Hk;
         [destruct (Hb Hk) as [H2 H3]; split; [done|]; rewrite !Hin by lia; done
         |destruct (Hu Hk) as [H2 H3]; split; [done|]; rewrite !Hin by lia; done]).
  intros [Hp Hv]. split; [done|]. by rewrite Hin by lia.
Qed.

Definition with_value (V : NodeId -> jval) (f : NodeId) (v : jval) (m : NodeId) : jval :=
  if decide (m = f) then v else V m.

Lemma with_value_eq V f v : with_value V f v f = v.
Proof. unfold with_value. by rewrite decide_True. Qed.

Lemma with_value_ne V f v m : m <> f -> with_value V f v m = V m.
Proof. intros. unfold with_value. by rewrite decide_False. Qed.

Definition fresh_kind (k : NodeKind) : bool :=
  match k with
  | NodeKind.Phi | NodeKind.BitCast | NodeKind.New | NodeKind.NewArray | NodeKind.NewRefArray
  | NodeKind.NewMultiArray | NodeKind.Materialize | NodeKind.ConstantSym => false
  | _ => true
  end.

Lemma fresh_not_never_null g m :
  nd_flags (node g m) = 0 -> fresh_kind (nd_kind (node g m)) = true -> isNeverNullNode g m = false.
Proof.
  unfold isNeverNullNode. intros Hf Hk. rewrite (flags_0_alive _ Hf), Hf. cbn.
  by destruct (nd_kind (node g m)).
Qed.

(** A fresh node with the value its specification demands. *)
Lemma java_values_make pick V g k ins p p2 cv v :
  law g -> java_values pick V g -> no_wrap_make g ins -> fresh_kind k = true ->
  jval_ok v ->
  java_node pick (with_value V (fresh g) v) (snd (makeRaw g k ins p p2 cv)) (fresh g) ->
  java_values pick (with_value V (fresh g) v) (snd (makeRaw g k ins p p2 cv)).
Proof.
  intros Hl HV Hw Hk Hv Hj n [Hn Hd]. pose proof Hw as (Hw1 & Hw2 & Hw3).
  rewrite makeRaw_vlen_nodes in Hn by done. pose proof (law_closed g Hl) as Hc.
  pose proof (law_ok g Hl) as Hok. destruct (decide (n = fresh g)) as [->|Hne].
  - unfold node_values. rewrite with_value_eq. split; [done|]. split; [|done].
    rewrite fresh_not_never_null; [done|..];
      rewrite makeRaw_node by done; unfold fresh; by rewrite N.eqb_refl.
  - assert (n < vlen (nodes_ g)) as Hlt by (unfold fresh in Hne; lia).
    apply (node_values_ext pick V _ g).
    + rewrite makeRaw_node by done. unfold fresh in Hne. by case_cmp.
    + by apply with_value_ne.
    + intros s Hs. rewrite makeRaw_input by done. unfold fresh in Hne. case_cmp; [done|].
      apply with_value_ne. pose proof (Hc _ _ Hs). unfold fresh. lia.
    + apply HV. split; [done|]. rewrite makeRaw_node in Hd by done. unfold fresh in Hne.
      revert Hd. by case_cmp.
Qed.

(** ** Replacements that keep the value *)

Definition steps (g : Graph) : NodeId -> NodeId -> Prop := tc (reads_value g).
Definition leaf_value (g : Graph) (x : NodeId) : Prop := data_kind (nd_kind (node g x)) = false.

(** [r] can take the place of [n] without closing a cycle: [n] is computed from
    [r], or from everything [r] is computed from. *)
Definition below (g : Graph) (n r : NodeId) : Prop :=
  steps g n r \/ forall x, reads_value g r x -> steps g n x \/ leaf_value g x.

Record answer (c : N) (pick : NodeId -> N) (V : NodeId -> jval) (g : Graph) (n r : NodeId)
    (g' : Graph) (V' : NodeId -> jval) : Prop := {
  an_made : made c g g';
  an_old : forall m, m < vlen (nodes_ g) -> V' m = V m;
  an_values : java_values pick V' g';
  an_alive : alive g' r;
  an_ne : r <> n;
  an_value : V' r = V n;
  an_below : below g' n r
}.

(** A rule is sound when its replacement has the value of the node. *)
Definition sound_rule (pick : NodeId -> N) (V : NodeId -> jval) (g : Graph) (n : NodeId)
    (r : found) : Prop :=
  match fst r with
  | None => snd r = g
  | Some x => exists V', answer 6 pick V g n x (snd r) V'
  end.

Lemma sound_no pick V g n : sound_rule pick V g n (no g).
Proof. done. Qed.

Lemma sound_orelse pick V g n r next :
  sound_rule pick V g n r -> sound_rule pick V g n (next g) -> sound_rule pick V g n (orelse r next).
Proof.
  unfold sound_rule, orelse. destruct (fst r) eqn:Hr; [by rewrite Hr|]. by intros ->.
Qed.

(** Along [steps] every node is reached in finitely many ways. *)
Lemma acc_steps g m : acyclic g -> Acc (fun y x => steps g x y) m.
Proof.
  intros Ha. induction (Ha m) as [m _ IH]. constructor. intros y Hy.
  inversion Hy as [|? w ? Hw Hwy]; subst; [by apply IH|].
  by apply (Acc_inv (IH w Hw)).
Qed.

Lemma not_self g m : acyclic g -> ~ steps g m m.
Proof.
  intros Ha Hm. induction (acc_steps g m Ha) as [m _ IH]. by apply (IH m).
Qed.

Section Rules.
Context (pick : NodeId -> N) (V : NodeId -> jval) (g : Graph) (n : NodeId).
Context (Hl : law g) (Hacyc : acyclic g) (Hroom : room 6 g).
Context (HV : java_values pick V g) (Hn : alive g n).

Lemma alive_input m s : alive g m -> has_slot g m s -> alive g (input g m s).
Proof using Hl.
  intros Hm Hs. split; [by apply (law_closed g Hl)|by apply (law_alive g Hl)].
Qed.

(** An older node with the same value. *)
Lemma sound_old r :
  alive g r -> V r = V n -> steps g n r -> sound_rule pick V g n (Some r, g).
Proof using All.
  intros Hr Heq Hst. exists V. split.
  - eapply made_weaken; [by apply made_refl|lia].
  - done.
  - exact HV.
  - exact Hr.
  - intros ->. by apply (not_self g n).
  - exact Heq.
  - by left.
Qed.

(** A fresh constant with the same value. *)
Lemma answer_const k cv v :
  sink_kind k = true -> fresh_kind k = true -> data_kind k = false -> jval_ok v ->
  java_node pick (with_value V (fresh g) v) (snd (makeRaw g k [] 0 0 cv)) (fresh g) ->
  fst (makeRaw g k [] 0 0 cv) = fresh g /\
  made 1 g (snd (makeRaw g k [] 0 0 cv)) /\
  java_values pick (with_value V (fresh g) v) (snd (makeRaw g k [] 0 0 cv)) /\
  leaf_value (snd (makeRaw g k [] 0 0 cv)) (fresh g) /\
  alive (snd (makeRaw g k [] 0 0 cv)) (fresh g).
Proof using Hl Hacyc Hroom HV.
  intros Hsk Hk Hd Hok Hj. assert (no_wrap_make g []) as Hw by (by eapply room_make).
  pose proof Hw as (Hw1 & Hw2 & Hw3). split_and!.
  - by rewrite makeRaw_id.
  - apply (makeRaw_made g k []); try done; by destruct k.
  - by apply java_values_make.
  - unfold leaf_value. rewrite makeRaw_node by done. unfold fresh. by rewrite N.eqb_refl.
  - unfold alive, fresh. rewrite makeRaw_vlen_nodes, makeRaw_node, N.eqb_refl by done.
    split; [lia|done].
Qed.

Lemma sound_const k cv v :
  sink_kind k = true -> fresh_kind k = true -> data_kind k = false -> jval_ok v -> V n = v ->
  java_node pick (with_value V (fresh g) v) (snd (makeRaw g k [] 0 0 cv)) (fresh g) ->
  sound_rule pick V g n (yes (makeRaw g k [] 0 0 cv)).
Proof using All.
  intros Hsk Hk Hd Hok Hv Hj. destruct (answer_const k cv v Hsk Hk Hd Hok Hj) as (Hid & Hm & HV' & Hlf & Ha).
  unfold sound_rule, yes. cbn [fst snd]. exists (with_value V (fresh g) v). rewrite Hid.
  split.
  - eapply made_weaken; [exact Hm|lia].
  - intros m Hm'. apply with_value_ne. unfold fresh. lia.
  - exact HV'.
  - exact Ha.
  - intros He. pose proof (proj1 Hn). unfold fresh in He. lia.
  - rewrite with_value_eq. exact (eq_sym Hv).
  - right. intros x (_ & Hdk & _). unfold leaf_value in Hlf. by rewrite Hlf in Hdk.
Qed.

Lemma makeRaw_fresh k ins p p2 cv :
  no_wrap_make g ins ->
  node (snd (makeRaw g k ins p p2 cv)) (fresh g) =
    mkNode k 0 (vlen (edgePool_ g)) (vlen ins) 0 p p2 cv 0 0 /\
  numInputs (snd (makeRaw g k ins p p2 cv)) (fresh g) = vlen ins /\
  (forall s, input (snd (makeRaw g k ins p p2 cv)) (fresh g) s = default kInvalidNodeId (vget ins s)) /\
  alive (snd (makeRaw g k ins p p2 cv)) (fresh g).
Proof using Hl.
  intros (Hw1 & Hw2 & Hw3). pose proof (law_ok g Hl) as Hok. unfold fresh, alive.
  rewrite makeRaw_node, makeRaw_numInputs, makeRaw_vlen_nodes, N.eqb_refl by done.
  split_and!; [done|done| |lia|done]. intros s. rewrite makeRaw_input by done. by rewrite N.eqb_refl.
Qed.

Lemma no_wrap_nil : no_wrap_make g [].
Proof using Hroom. by eapply room_make. Qed.

Lemma sound_makeConst c v :
  cval c = Some v -> jval_ok v -> V n = v -> sound_rule pick V g n (yes (makeConstNode g c)).
Proof using All.
  intros Hc Hok Hv. apply cval_inv in Hc. unfold makeConstNode.
  assert (forall k cv, java_node pick (with_value V (fresh g) v)
    (snd (makeRaw g k [] 0 0 cv)) (fresh g) <->
    match k with
    | NodeKind.ConstantI => v = JI (i32 cv)
    | NodeKind.ConstantL => v = JL (i64 cv)
    | NodeKind.ConstantF => v = JF (uz32 cv)
    | NodeKind.ConstantD => v = JD (uz64 cv)
    | NodeKind.ConstantNull => v = JRef None
    | _ => java_node pick (with_value V (fresh g) v) (snd (makeRaw g k [] 0 0 cv)) (fresh g)
    end) as Hj.
  { intros k cv. destruct (makeRaw_fresh k [] 0 0 cv no_wrap_nil) as (Hnode & _).
    destruct k; try done; unfold java_node; rewrite Hnode; cbn [nd_kind nd_constValue];
      by rewrite with_value_eq. }
  destruct v; try done; destruct Hc as [-> Hc]; cbn [jval_ok] in Hok;
    [apply (sound_const NodeKind.ConstantI _ (JI z))
    |apply (sound_const NodeKind.ConstantL _ (JL z))
    |apply (sound_const NodeKind.ConstantF _ (JF bits))
    |apply (sound_const NodeKind.ConstantD _ (JD bits))
    |apply (sound_const NodeKind.ConstantNull _ (JRef r))];
    try reflexivity; try exact Hok; try exact Hv; apply Hj; rewrite ?Hc.
  - by rewrite wrap_small.
  - by rewrite wrap_small.
  - unfold uwrap. rewrite Z2N.id by lia. by rewrite Z.mod_small.
  - unfold uwrap, u64_to_i64. rewrite Z2N.id by lia.
    destruct (_ <? _); [by rewrite Z.mod_small|].
    change (2 ^ 64)%Z with 18446744073709551616%Z in *.
    rewrite <- (Z_mod_plus_full (bits - 18446744073709551616) 1 18446744073709551616).
    rewrite Z.mod_small; f_equal; lia.
  - done.
Qed.

Lemma sound_constI z :
  in_signed 32 z -> V n = JI z -> sound_rule pick V g n (yes (constantI g z)).
Proof using All. intros Hz Hv. by apply (sound_makeConst (constOfI z) (JI z)). Qed.

Lemma sound_constIL (isLong : bool) z :
  in_signed 32 z -> V n = (if isLong then JL z else JI z) ->
  sound_rule pick V g n (yes (constantIL isLong g z)).
Proof using All.
  intros Hz. destruct isLong; intros Hv; [|by apply sound_constI].
  apply (sound_makeConst (constOfL z) (JL z)); [done| |done]. by eapply (in_signed_mono 32).
Qed.
End Rules.
