(* ===== verification/SimplifyRules.v ===== *)
(** * The simplify rules are sound

    Each rule of Simplify.cpp that finds a replacement finds one with the value
    of the node it replaces ([sound_rule]), for every assignment of Java values
    that agrees with the graph. *)

From Stdlib Require Import SpecFloat.
From S2P Require Import Prelude IRTypes Effect NodeInfo SmallVector Graph GraphInv.
From S2P Require Import GraphReplace ResultType PassSupport PassLaw PassGrow PassRewire.
From S2P Require Import Machine JavaSem ConstFold Simplify SimplifyValues.

Local Open Scope N_scope.

(** ** Arithmetic of the rules *)

(** A positive number with no bit in common with its predecessor is a power of two. *)
Lemma power_of_two p :
  Z.land (Zpos p) (Zpos p - 1) = 0%Z -> Zpos p = (2 ^ Z.of_N (pos_trailing_zeros p))%Z.
Proof.
  induction p as [q _|q IH|]; cbn [pos_trailing_zeros]; intros H; [|..].
  - exfalso. replace (Zpos q~1 - 1)%Z with (2 * Zpos q)%Z in H by lia.
    assert (Z.testbit (Z.land (Zpos q~1) (2 * Zpos q)) (Z.succ (Z.log2 (Zpos q))) = true) as Hb.
    { rewrite Z.land_spec. change (Zpos q~1) with (2 * Zpos q + 1)%Z.
      rewrite Z.testbit_odd_succ, Z.testbit_even_succ by apply Z.log2_nonneg.
      by rewrite Z.bit_log2 by lia. }
    by rewrite H, Z.bits_0 in Hb.
  - change (Zpos q~0) with (2 * Zpos q)%Z in *.
    assert (Z.land (Zpos q) (Zpos q - 1) = 0%Z) as Hq.
    { apply Z.bits_inj'. intros i Hi. rewrite Z.bits_0.
      assert (Z.testbit (Z.land (2 * Zpos q) (2 * Zpos q - 1)) (Z.succ i) = false) as Hb
        by by rewrite H, Z.bits_0.
      rewrite Z.land_spec in *. replace (2 * Zpos q - 1)%Z with (2 * (Zpos q - 1) + 1)%Z in Hb by lia.
      by rewrite Z.testbit_even_succ, Z.testbit_odd_succ in Hb by done. }
    rewrite (IH Hq), N2Z.inj_add, Z.pow_add_r by lia. done.
  - done.
Qed.

Lemma countr_zero_spec raw w :
  (1 < raw < 2 ^ w)%Z -> (0 <= w)%Z -> Z.land raw (raw - 1) = 0%Z ->
  raw = (2 ^ Z.of_N (countr_zero raw))%Z /\ (Z.of_N (countr_zero raw) < w)%Z.
Proof.
  intros Hr Hw Hp. destruct raw as [|p|p]; try lia. pose proof (power_of_two p Hp) as He.
  split; [exact He|]. cbn [countr_zero]. rewrite He in Hr.
  apply (Z.pow_lt_mono_r_iff 2); lia.
Qed.

(** The value of a test, and of its complement. *)
Lemma complement_bin k k' a b v :
  complementTest k = Some k' -> java_bin k a b v ->
  exists t, v = JI (b2z t) /\ java_bin k' a b (JI (b2z (negb t))).
Proof.
  assert (forall (P Q : Prop) `{Decision P} `{Decision Q}, (Q <-> ~ P) ->
    b2z (negb (bool_decide P)) = b2z (bool_decide Q)) as Hneg.
  { intros P Q ?? HPQ. f_equal. rewrite <- bool_decide_not. by apply bool_decide_ext. }
  destruct k; try discriminate; intros [= <-]; destruct a; try done; destruct b; try done;
    destruct v; try done; cbn [java_bin]; intros ->; eexists; (split; [reflexivity|]);
    apply Hneg; lia.
Qed.

(** The kinds whose negation of negation [tryNotNot] removes produce 0 or 1. *)
Lemma test_bool k a b v :
  java_bin k a b v -> is_Some (complementTest k) \/ k = NodeKind.RefEq -> exists t, v = JI (b2z t).
Proof.
  intros Hj Hk. destruct k; try (by destruct Hk as [[? ?]|?]); destruct a; try done; destruct b; try done;
    destruct v; try done; rewrite Hj; by eexists.
Qed.

Lemma not_bool t v : java_un NodeKind.Not (JI (b2z t)) v -> v = JI (b2z (negb t)).
Proof. destruct v; try done. cbn. intros ->. by destruct t. Qed.

(** ** Fresh operations *)

Lemma java_node_bin pick V g n :
  java_bin_kind (nd_kind (node g n)) = true -> numInputs g n = 2 ->
  java_bin (nd_kind (node g n)) (V (input g n 0)) (V (input g n 1)) (V n) -> java_node pick V g n.
Proof. unfold java_node. intros Hk H2 Hj. by destruct (nd_kind (node g n)). Qed.

Lemma java_bin_data k : java_bin_kind k = true -> data_kind k = true /\ fresh_kind k = true.
Proof. by destruct k. Qed.

Lemma java_un_data k : java_un_kind k = true -> data_kind k = true /\ k <> NodeKind.Phi.
Proof. by destruct k. Qed.

Lemma fresh_op pick V g k x y v :
  law g -> acyclic g -> room 3 g -> java_values pick V g -> alive g x -> alive g y ->
  java_bin_kind k = true -> java_bin k (V x) (V y) v -> jval_ok v ->
  let r := make g k [x; y] 0 0 in
  fst r = fresh g /\ made 3 g (snd r) /\
  java_values pick (with_value V (fresh g) v) (snd r) /\
  (forall z, reads_value (snd r) (fresh g) z -> z = x \/ z = y) /\ alive (snd r) (fresh g).
Proof.
  intros Hl Ha Hroom HV Hx Hy Hk Hj Hok r. destruct (java_bin_data k Hk) as [_ Hfk].
  assert (no_wrap_make g [x; y]) as Hw by (by eapply room_make).
  destruct (makeRaw_fresh g Hl k [x; y] 0 0 0%Z Hw) as (Hnode & Hnum & Hin & Hal).
  unfold r, make. split_and!.
  - pose proof Hw as (Hw1 & ? & ?). by rewrite makeRaw_id.
  - apply (makeRaw_made g k [x; y]); try done; [by destruct k|by destruct k|].
    apply Forall_cons; split; [exact Hx|]. apply Forall_singleton. exact Hy.
  - apply java_values_make; try done. apply java_node_bin; rewrite ?Hnode; [exact Hk|exact Hnum|].
    rewrite !Hin, with_value_eq. pose proof (proj1 Hy). pose proof (proj1 Hx).
    change (default kInvalidNodeId (vget [x; y] 0)) with x.
    change (default kInvalidNodeId (vget [x; y] 1)) with y.
    rewrite !with_value_ne by (unfold fresh; lia). exact Hj.
  - intros z (_ & _ & s & Hs%has_slot_iff & <- & _). rewrite Hnum in Hs. rewrite Hin.
    change (vlen [x; y]) with 2 in Hs.
    assert (s = 0 \/ s = 1) as [->| ->] by lia; [by left|by right].
  - exact Hal.
Qed.

Section Rules.
Context (pick : NodeId -> N) (V : NodeId -> jval) (g : Graph) (n : NodeId).
Context (Hl : law g) (Hacyc : acyclic g) (Hroom : room 6 g).
Context (HV : java_values pick V g) (Hn : alive g n).

Abbreviation k := (nd_kind (node g n)).
Abbreviation sound := (sound_rule pick V g n).

Lemma bin_facts m :
  alive g m -> java_bin_kind (nd_kind (node g m)) = true ->
  numInputs g m = 2 /\ java_bin (nd_kind (node g m)) (V (input g m 0)) (V (input g m 1)) (V m) /\
  (alive g (input g m 0) /\ alive g (input g m 1)) /\
  reads_value g m (input g m 0) /\ reads_value g m (input g m 1).
Proof using Hl HV.
  intros Hm Hk. destruct (java_bin_node _ _ _ _ (proj2 (proj2 (HV m Hm))) Hk) as [H2 Hj].
  destruct (java_bin_data _ Hk) as [Hd _].
  assert (forall s, s < 2 -> has_slot g m s) as Hs by (intros s ?; apply has_slot_iff; lia).
  split; [done|]. split; [done|]. split; [split; apply alive_input; auto; apply Hs; lia|].
  assert (nd_kind (node g m) <> NodeKind.Phi) as Hp by (intros He; by rewrite He in Hk).
  split; (split; [apply Hm|]; split; [done|]).
  - exists 0. split; [apply Hs; lia|]. by split.
  - exists 1. split; [apply Hs; lia|]. by split.
Qed.

Lemma un_facts m :
  alive g m -> java_un_kind (nd_kind (node g m)) = true ->
  numInputs g m = 1 /\ java_un (nd_kind (node g m)) (V (input g m 0)) (V m) /\
  alive g (input g m 0) /\ reads_value g m (input g m 0).
Proof using Hl HV.
  intros Hm Hk. destruct (java_un_node _ _ _ _ (proj2 (proj2 (HV m Hm))) Hk) as [H1 Hj].
  destruct (java_un_data _ Hk) as [Hd Hp].
  assert (has_slot g m 0) as Hs by (apply has_slot_iff; lia).
  split; [done|]. split; [done|]. split; [by apply alive_input|].
  split; [apply Hm|]. split; [done|]. exists 0. by split.
Qed.

Lemma value_ok m : alive g m -> jval_ok (V m).
Proof using HV. intros Hm. apply (HV m Hm). Qed.

(** An operand, or an operand's operand, is below the node. *)
Lemma step1 x : reads_value g n x -> steps g n x.
Proof. apply tc_once. Qed.

Lemma step2 x y : reads_value g n x -> reads_value g x y -> steps g n y.
Proof. intros H1 H2. eapply tc_l; [exact H1|]. by apply tc_once. Qed.

(** ** Folding *)

Lemma sound_foldUnary : numInputs g n = 1 -> sound (foldUnary g k (constOf g (input g n 0))).
Proof using All.
  intros H1. unfold foldUnary. destruct (isConst _) eqn:Hc; cbn [negb]; [|apply sound_no].
  destruct (evalUnaryOp _ _) as [c|] eqn:He; [|apply sound_no].
  destruct (un_facts n Hn (evalUnaryOp_kind _ _ _ He)) as (_ & Hj & Ha & _).
  destruct (constOf_value _ _ _ _ _ (HV _ Ha) eq_refl Hc) as [Hv Hok].
  destruct (evalUnaryOp_sound _ _ _ _ Hv Hok He) as (vc & Hvc & Hokc & _).
  apply (sound_makeConst pick V g n Hl Hacyc Hroom HV Hn c vc Hvc Hokc).
  exact (evalUnaryOp_unique _ _ _ _ _ _ Hv Hok He Hvc Hj).
Qed.

Lemma sound_foldBinary :
  isConst (constOf g (input g n 0)) = true -> isConst (constOf g (input g n 1)) = true ->
  sound (match evalBinOp k (constOf g (input g n 0)) (constOf g (input g n 1)) with
         | Some r => yes (makeConstNode g r) | None => no g end).
Proof using All.
  intros Hca Hcb. destruct (evalBinOp _ _ _) as [c|] eqn:He; [|apply sound_no].
  destruct (bin_facts n Hn (evalBinOp_kind _ _ _ _ He)) as (_ & Hj & [Ha Hb] & _).
  destruct (constOf_value _ _ _ _ _ (HV _ Ha) eq_refl Hca) as [Hva Hoka].
  destruct (constOf_value _ _ _ _ _ (HV _ Hb) eq_refl Hcb) as [Hvb Hokb].
  destruct (evalBinOp_sound _ _ _ _ _ _ Hva Hvb Hoka Hokb (ex_intro _ _ Hj) He)
    as (vc & Hvc & Hokc & _).
  apply (sound_makeConst pick V g n Hl Hacyc Hroom HV Hn c vc Hvc Hokc).
  exact (evalBinOp_unique _ _ _ _ _ _ _ _ Hva Hvb Hoka Hokb He Hvc Hj).
Qed.

Lemma null_value m : alive g m -> isNullConst (constOf g m) = true -> V m = JRef None.
Proof using HV.
  intros Hm Hc%bool_decide_eq_true_1.
  destruct (constOf_value _ _ _ _ _ (HV _ Hm) eq_refl) as [Hv _].
  { unfold isConst. by rewrite Hc. }
  unfold cval in Hv. rewrite Hc in Hv. by injection Hv as <-.
Qed.

Lemma never_null_value m : alive g m -> isNeverNullNode g m = true -> exists p, V m = JRef (Some p).
Proof using HV. intros Hm. apply (HV m Hm). Qed.

Lemma sound_constI' z : in_signed 32 z -> V n = JI z -> sound (yes (constantI g z)).
Proof using All. exact (sound_constI pick V g n Hl Hacyc Hroom HV Hn z). Qed.

Lemma in_signed_1 : in_signed 32 1.
Proof. apply (bool_in_signed 32 true). lia. Qed.

Lemma in_signed_0 : in_signed 32 0.
Proof. apply (bool_in_signed 32 false). lia. Qed.

Lemma sound_foldValueFacts : sound (foldValueFacts g k n).
Proof using All.
  unfold foldValueFacts. destruct k eqn:Hk; try apply sound_no.
  - destruct (un_facts n Hn) as (_ & Hj & Ha & _); [by rewrite Hk|]. rewrite Hk in Hj.
    destruct (isNullConst _) eqn:Hc; [|apply sound_no].
    apply sound_constI'; [apply in_signed_0|]. rewrite (null_value _ Ha Hc) in Hj.
    destruct (V n); try done. by rewrite Hj.
  - destruct (un_facts n Hn) as (_ & Hj & Ha & _); [by rewrite Hk|]. rewrite Hk in Hj.
    destruct (isNullConst _) eqn:Hc; [|destruct (isNeverNullNode _ _) eqn:Hnn; [|apply sound_no]].
    + apply sound_constI'; [apply in_signed_1|]. rewrite (null_value _ Ha Hc) in Hj.
      destruct (V n); try done. by rewrite Hj.
    + apply sound_constI'; [apply in_signed_0|].
      destruct (never_null_value _ Ha Hnn) as [p Hp]. rewrite Hp in Hj.
      destruct (V n); try done. by rewrite Hj.
  - destruct (bin_facts n Hn) as (_ & Hj & [Ha Hb] & _); [by rewrite Hk|]. rewrite Hk in Hj.
    destruct (N.eqb_spec (input g n 0) (input g n 1)) as [He|He].
    { apply sound_constI'; [apply in_signed_1|]. rewrite He in Hj.
      destruct (V (input g n 1)); try done. destruct (V n); try done. rewrite Hj.
      by rewrite bool_decide_true. }
    destruct (isNullConst (constOf g (input g n 0))) eqn:Hca;
      destruct (isNullConst (constOf g (input g n 1))) eqn:Hcb; cbn [andb orb].
    + apply sound_constI'; [apply in_signed_1|].
      rewrite (null_value _ Ha Hca), (null_value _ Hb Hcb) in Hj.
      destruct (V n); try done. by rewrite Hj.
    + rewrite orb_false_r. destruct (isNeverNullNode _ _) eqn:Hnn; [|apply sound_no].
      apply sound_constI'; [apply in_signed_0|].
      destruct (never_null_value _ Hb Hnn) as [p Hp]. rewrite Hp, (null_value _ Ha Hca) in Hj.
      destruct (V n); try done. by rewrite Hj.
    + destruct (isNeverNullNode _ _) eqn:Hnn; [|apply sound_no].
      apply sound_constI'; [apply in_signed_0|].
      destruct (never_null_value _ Ha Hnn) as [p Hp]. rewrite Hp, (null_value _ Hb Hcb) in Hj.
      destruct (V n); try done. by rewrite Hj.
    + apply sound_no.
Qed.

Lemma sound_foldRules : sound (foldRules g k n).
Proof using All.
  unfold foldRules. apply sound_orelse; [apply sound_orelse|apply sound_foldValueFacts].
  - destruct (N.eqb_spec (numInputs g n) 2) as [H2|]; [|apply sound_no].
    destruct (isConst (constOf g (input g n 0))) eqn:Ha; [|apply sound_no].
    destruct (isConst (constOf g (input g n 1))) eqn:Hb; [|apply sound_no].
    by apply sound_foldBinary.
  - destruct (N.eqb_spec (numInputs g n) 1); [by apply sound_foldUnary|apply sound_no].
Qed.

(** ** Identities *)

Lemma isVal_value isLong m z :
  alive g m -> isVal isLong (node g m) z = true -> V m = if isLong then JL z else JI z.
Proof using HV.
  intros Hm [Hk Hz]%andb_true_iff. pose proof (proj2 (proj2 (HV m Hm))) as Hj.
  apply kind_eqb_spec in Hk. apply Z.eqb_eq in Hz. unfold java_node in Hj.
  by destruct isLong; rewrite Hk in Hj; rewrite Hj, Hz.
Qed.

Lemma sound_old' r : alive g r -> V r = V n -> steps g n r -> sound (Some r, g).
Proof using All. exact (sound_old pick V g n Hl Hacyc Hroom HV Hn r). Qed.

Lemma sound_constIL' (isLong : bool) z :
  in_signed 32 z -> V n = (if isLong then JL z else JI z) ->
  sound (yes (constantIL isLong g z)).
Proof using All. exact (sound_constIL pick V g n Hl Hacyc Hroom HV Hn isLong z). Qed.

(** The two operands of a binary node, with their values. *)
Ltac operands Hk :=
  destruct (bin_facts n Hn) as (_ & Hj & [Ha Hb] & Hra & Hrb); [by rewrite Hk|];
  rewrite Hk in Hj;
  pose proof (value_ok _ Ha) as Hoka; pose proof (value_ok _ Hb) as Hokb.

(** The relation determines the shape of the values it relates. *)
Ltac shapes Hj :=
  repeat match type of Hj with
  | java_bin _ ?a _ _ => is_var a; destruct a; try (by destruct Hj)
  | java_bin _ _ ?b _ => is_var b; destruct b; try (by destruct Hj)
  | java_bin _ _ _ ?v => is_var v; destruct v; try (by destruct Hj)
  end.

Lemma sound_selfIdentity :
  numInputs g n = 2 -> input g n 0 = input g n 1 ->
  sound (selfIdentity g k (input g n 0) (isLongKind k)).
Proof using All.
  intros H2 Heq. unfold selfIdentity. destruct k eqn:Hk; try apply sound_no; cbn [isLongKind];
    operands Hk; rewrite <- Heq in Hj; clear Hrb Hokb Hb;
    (apply sound_constIL' || apply sound_constI' || apply sound_old');
    try exact in_signed_0; try exact in_signed_1; try exact Ha; try (by apply step1);
    revert Hj Hoka; generalize (V (input g n 0)) (V n); intros va vn Hj Hoka; shapes Hj;
    cbn [java_bin jval_ok] in *; rewrite Hj;
    rewrite ?Z.sub_diag, ?Z.land_diag, ?Z.lor_diag, ?Z.lxor_nilpotent, ?Z.compare_refl;
    try reflexivity.
  all: f_equal; unfold b2z; case_bool_decide; (reflexivity || lia).
Qed.

(** The identities on values: an operand equal to the constant [c] makes the
    result [r c x], for [x] the other operand. *)
Lemma wrap32 z : in_signed 32 z -> i32 z = z.
Proof. intros Hz. by apply wrap_small. Qed.

Lemma wrap64 z : in_signed 64 z -> i64 z = z.
Proof. intros Hz. by apply wrap_small. Qed.

Lemma in_signed_m1 : in_signed 32 (-1).
Proof. unfold in_signed. cbn. lia. Qed.

(** Simplify the operator at a known operand. *)
Ltac evaluate Hj :=
  cbn [java_bin jval_ok] in *; rewrite ?Hj by lia;
  rewrite ?Z.add_0_l, ?Z.add_0_r, ?Z.sub_0_r, ?Z.mul_1_l, ?Z.mul_1_r, ?Z.mul_0_l, ?Z.mul_0_r,
    ?Z.land_m1_l, ?Z.land_m1_r, ?Z.land_0_l, ?Z.land_0_r, ?Z.lor_0_l, ?Z.lor_0_r,
    ?Z.lor_m1_l, ?Z.lor_m1_r, ?Z.lxor_0_l, ?Z.lxor_0_r, ?Z.mod_0_l, ?Z.pow_0_r, ?Z.div_1_r,
    ?Z.mul_1_r, ?Z.quot_1_r, ?Z.rem_1_r by lia;
  repeat match goal with
  | |- context [(?z mod 2 ^ 32)%Z] => change (z mod 2 ^ 32)%Z with (uz32 z)
  | |- context [(?z mod 2 ^ 64)%Z] => change (z mod 2 ^ 64)%Z with (uz64 z)
  end;
  rewrite ?(wrap_uwrap 32), ?(wrap_uwrap 64), ?wrap32, ?wrap64 by assumption; reflexivity.

Lemma sound_constIdentity :
  numInputs g n = 2 ->
  sound (constIdentity g k (input g n 0) (input g n 1) (isLongKind k)).
Proof using All.
  intros H2. unfold constIdentity. destruct k eqn:Hk; try apply sound_no; cbn [isLongKind];
    operands Hk; repeat (match goal with
      |- context [if ?b then _ else _] => destruct b eqn:?
      end); try apply sound_no;
    repeat match goal with
    | H : _ || _ = true |- _ => apply orb_true_iff in H as [H|H]
    end;
    (apply sound_old' || apply sound_constIL');
    try exact in_signed_0; try exact in_signed_m1; try exact Ha; try exact Hb;
    try (by apply step1);
    match goal with
    | H : isVal _ (node g (input g n 0)) _ = true |- _ => apply (isVal_value _ _ _ Ha) in H; rewrite H in *
    | H : isVal _ (node g (input g n 1)) _ = true |- _ => apply (isVal_value _ _ _ Hb) in H; rewrite H in *
    end.
  all: clear - Hj Hoka Hokb; revert Hj Hoka Hokb;
    generalize (V (input g n 0)) (V (input g n 1)) (V n); intros va vb vn Hj Hoka Hokb;
    shapes Hj; evaluate Hj.
Qed.

Lemma sound_tryIdentity : numInputs g n = 2 -> sound (tryIdentity g k n (isLongKind k)).
Proof using All.
  intros H2. unfold tryIdentity. apply sound_orelse; [|by apply sound_constIdentity].
  destruct (N.eqb_spec (input g n 0) (input g n 1)); [by apply sound_selfIdentity|apply sound_no].
Qed.

(** A one-operand node whose operand is one too. *)
Lemma un_un_facts x :
  x = input g n 0 ->
  java_un_kind k = true -> java_un_kind (nd_kind (node g x)) = true ->
  java_un k (V x) (V n) /\ java_un (nd_kind (node g x)) (V (input g x 0)) (V x) /\
  alive g x /\ alive g (input g x 0) /\ jval_ok (V (input g x 0)) /\
  steps g n x /\ steps g n (input g x 0).
Proof using All.
  intros -> Hk Hkx. destruct (un_facts n Hn Hk) as (_ & Hj & Hx & Hr).
  destruct (un_facts _ Hx Hkx) as (_ & Hjx & Hy & Hrx).
  split_and!; [exact Hj|exact Hjx|exact Hx|exact Hy|by apply value_ok|by apply step1|
    by eapply step2].
Qed.

Lemma wrap_opp w z : (0 < w)%Z -> wrap w (- wrap w z) = wrap w (- z).
Proof.
  intros Hw. apply wrap_eqm. rewrite <- !Z.sub_0_l, <- Zminus_mod_idemp_r, wrap_mod by done.
  by rewrite Zminus_mod_idemp_r.
Qed.

Lemma sound_tryDoubleNeg : sound (tryDoubleNeg g k n).
Proof using All.
  unfold tryDoubleNeg. set (x := input g n 0).
  destruct k eqn:Hk; try apply sound_no;
    (destruct (isDead (node g x)) eqn:Hd; [apply sound_no|]); cbn [orb];
    (destruct (kind_eqb _ _) eqn:Hkx; [|apply sound_no]); cbn [negb];
    apply kind_eqb_spec in Hkx;
    (destruct (un_un_facts x eq_refl) as (Hj & Hjx & _ & Hy & Hok & _ & Hst); [by rewrite Hk|by rewrite Hkx|]);
    rewrite Hk in Hj; rewrite Hkx in Hjx;
    (apply sound_old'; [exact Hy| |exact Hst]);
    destruct (V (input g x 0)); try done; destruct (V x); try done; destruct (V n); try done;
    cbn [java_un jval_ok] in *; rewrite Hj, Hjx.
  - rewrite wrap_opp, Z.opp_involutive by lia. by rewrite wrap32.
  - rewrite wrap_opp, Z.opp_involutive by lia. by rewrite wrap64.
  - by rewrite Z.lxor_assoc, Z.lxor_nilpotent, Z.lxor_0_r.
  - by rewrite Z.lxor_assoc, Z.lxor_nilpotent, Z.lxor_0_r.
Qed.

Lemma sound_tryConversionIdentity : sound (tryConversionIdentity g k n).
Proof using All.
  unfold tryConversionIdentity. set (x := input g n 0).
  destruct (isDead (node g x)) eqn:Hd; [apply sound_no|].
  destruct k eqn:Hk; try apply sound_no;
    (destruct (kind_eqb _ _) eqn:Hkx; [|apply sound_no]); apply kind_eqb_spec in Hkx;
    (destruct (un_un_facts x eq_refl) as (Hj & Hjx & Hx & Hy & Hok & Hs1 & Hs2);
      [by rewrite Hk|by rewrite Hkx|]);
    rewrite Hk in Hj; rewrite Hkx in Hjx.
  - apply sound_old'; [exact Hy| |exact Hs2].
    destruct (V (input g x 0)); try done; destruct (V x); try done; destruct (V n); try done.
    cbn [java_un jval_ok] in *. by rewrite Hj, Hjx, wrap32.
  - apply sound_old'; [exact Hx| |exact Hs1].
    destruct (V (input g x 0)); try done; destruct (V x); try done; destruct (V n); try done.
    cbn [java_un jval_ok] in *. by rewrite Hj, Hjx, wrap_wrap.
  - apply sound_old'; [exact Hx| |exact Hs1].
    destruct (V (input g x 0)); try done; destruct (V x); try done; destruct (V n); try done.
    cbn [java_un jval_ok] in *. by rewrite Hj, Hjx, Zmod_mod.
  - apply sound_old'; [exact Hx| |exact Hs1].
    destruct (V (input g x 0)); try done; destruct (V x); try done; destruct (V n); try done.
    cbn [java_un jval_ok] in *. by rewrite Hj, Hjx, wrap_wrap.
Qed.

(** A test has a boolean value. *)
Lemma test_value t :
  alive g t ->
  match nd_kind (node g t) with
  | NodeKind.EqI | NodeKind.NeI | NodeKind.LtI | NodeKind.LeI | NodeKind.GtI
  | NodeKind.GeI | NodeKind.IsNull | NodeKind.RefEq => true
  | _ => false
  end = true -> exists b, V t = JI (b2z b).
Proof using Hl HV.
  intros Ht Hk. destruct (nd_kind (node g t)) eqn:Hkt; try discriminate Hk.
  all: try (destruct (bin_facts t Ht) as (_ & Hj & _); [by rewrite Hkt|];
    rewrite Hkt in Hj; eapply test_bool; [exact Hj|]; (by right) || (by left; eexists)).
  destruct (un_facts t Ht) as (_ & Hj & _); [by rewrite Hkt|]. rewrite Hkt in Hj.
  destruct (V (input g t 0)); try done. destruct (V t); try done. rewrite Hj. by eexists.
Qed.

Lemma sound_tryNotNot : sound (tryNotNot g k n).
Proof using All.
  unfold tryNotNot. set (x := input g n 0). set (y := input g x 0).
  destruct (kind_eqb k NodeKind.Not) eqn:Hk; cbn [negb]; [|apply sound_no].
  destruct (isDead (node g x)) eqn:Hd; [apply sound_no|]; cbn [orb].
  destruct (kind_eqb (nd_kind (node g x)) NodeKind.Not) eqn:Hkx; cbn [negb]; [|apply sound_no].
  apply kind_eqb_spec in Hk, Hkx.
  destruct (un_un_facts x eq_refl) as (Hj & Hjx & Hx & Hy & Hok & _ & Hst);
    [by rewrite Hk|by rewrite Hkx|].
  fold y in Hjx, Hy, Hok, Hst.
  rewrite Hk in Hj. rewrite Hkx in Hjx.
  pose proof (test_value y Hy) as Htest.
  destruct (nd_kind (node g y)); try apply sound_no;
    (destruct (Htest eq_refl) as [b Hb]; apply sound_old'; [exact Hy| |exact Hst];
     rewrite Hb in Hjx |- *; apply not_bool in Hjx; rewrite Hjx in Hj; apply not_bool in Hj;
     by rewrite Hj, negb_involutive).
Qed.

Lemma sound_identityRules : sound (identityRules g k n).
Proof using All.
  unfold identityRules. apply sound_orelse.
  { destruct (N.eqb_spec (numInputs g n) 2); [by apply sound_tryIdentity|apply sound_no]. }
  apply sound_orelse; [apply sound_tryDoubleNeg|].
  apply sound_orelse; [apply sound_tryConversionIdentity|apply sound_tryNotNot].
Qed.

(** ** Fresh operations in place of the node *)

Lemma steps_made c g' x : made c g g' -> steps g n x -> steps g' n x.
Proof using Hl Hn.
  intros Hm Hst. assert (n < vlen (nodes_ g)) as Hlt by apply Hn. clear Hn. revert Hlt. unfold steps in *.
  induction Hst as [u v Huv|u w v Huw _ IH]; intros Hlt.
  - apply tc_once. by apply (made_reads _ _ _ _ _ (law_closed g Hl) Hm).
  - eapply tc_l; [by apply (made_reads _ _ _ _ _ (law_closed g Hl) Hm)|].
    apply IH. by eapply reads_value_lt; [apply (law_closed g Hl)|].
Qed.

(** A fresh operation that computes the value of [n] from operands of [n]. *)
Lemma sound_op k' x y :
  alive g x -> alive g y -> steps g n x -> steps g n y -> java_bin_kind k' = true ->
  java_bin k' (V x) (V y) (V n) -> sound (yes (make g k' [x; y] 0 0)).
Proof using All.
  intros Hx Hy Hsx Hsy Hk Hj.
  destruct (fresh_op pick V g k' x y (V n)) as (Hid & Hm & HV' & Hr & Ha);
    [exact Hl|exact Hacyc|by eapply room_le|exact HV|exact Hx|exact Hy|exact Hk|exact Hj|by apply value_ok|].
  unfold sound_rule, yes. cbn [fst snd]. rewrite Hid. exists (with_value V (fresh g) (V n)). split.
  - eapply made_weaken; [exact Hm|lia].
  - intros m Hm'. apply with_value_ne. unfold fresh. lia.
  - exact HV'.
  - exact Ha.
  - intros He. pose proof (proj1 Hn). unfold fresh in He. lia.
  - by rewrite with_value_eq.
  - right. intros z [->| ->]%Hr; left; by eapply steps_made.
Qed.

(** The same, when the second operand is a fresh int constant. *)
Lemma sound_op_const k' x z :
  alive g x -> steps g n x -> in_signed 32 z -> java_bin_kind k' = true ->
  java_bin k' (V x) (JI z) (V n) ->
  sound (let '(c, g') := constantI g z in yes (make g' k' [x; c] 0 0)).
Proof using All.
  intros Hx Hsx Hz Hk Hj.
  destruct (answer_const pick V g Hl Hacyc Hroom HV NodeKind.ConstantI z (JI z))
    as (Hid & Hm & HV1 & Hlf & Ha1); [done..| |].
  { unfold java_node. destruct (makeRaw_fresh g Hl NodeKind.ConstantI [] 0 0 z) as (Hnode & _);
      [by eapply no_wrap_nil|]. rewrite Hnode. cbn [nd_kind nd_constValue].
    by rewrite with_value_eq, wrap32. }
  unfold constantI. destruct (makeRaw g NodeKind.ConstantI [] 0 0 z) as [c g1]. cbn [fst snd] in *.
  subst c. set (V1 := with_value V (fresh g) (JI z)) in *.
  assert (forall m, m < vlen (nodes_ g) -> V1 m = V m) as Hold
    by (intros m ?; apply with_value_ne; unfold fresh; lia).
  destruct (fresh_op pick V1 g1 k' x (fresh g) (V n)) as (Hid2 & Hm2 & HV2 & Hr & Ha2).
  - apply Hm.
  - apply Hm.
  - eapply (made_room 1); [exact Hm|]. by eapply room_le.
  - exact HV1.
  - by eapply made_alive.
  - exact Ha1.
  - exact Hk.
  - rewrite Hold by apply Hx. unfold V1. by rewrite with_value_eq.
  - by apply value_ok.
  - unfold sound_rule, yes. cbn [fst snd]. rewrite Hid2. exists (with_value V1 (fresh g1) (V n)).
    pose proof (made_trans _ _ _ _ _ Hm Hm2) as Hm12. pose proof (md_count _ _ _ Hm) as Hc1.
    split.
    + eapply made_weaken; [exact Hm12|lia].
    + intros m Hlt. rewrite with_value_ne by (unfold fresh; lia). by apply Hold.
    + exact HV2.
    + exact Ha2.
    + intros He. pose proof (proj1 Hn). unfold fresh in He. lia.
    + by rewrite with_value_eq.
    + right. intros y [->| ->]%Hr; [left; by eapply steps_made|right].
      unfold leaf_value. destruct (md_kept _ _ _ Hm2 (fresh g)) as [-> _]; [apply Ha1|done].
Qed.

(** ** Strength reduction *)

Lemma wrap_mul_pow w y c raw s :
  (0 < w)%Z -> raw = uwrap w c -> raw = (2 ^ s)%Z ->
  wrap w (wrap w c * y) = wrap w (y * 2 ^ s).
Proof.
  intros Hw Hraw Hs. apply wrap_eqm.
  rewrite <- Hs, Hraw, Zmult_mod, wrap_mod, (Zmult_mod y) by done. unfold uwrap.
  rewrite Zmod_mod. f_equal. lia.
Qed.

Lemma sound_strengthOperand (isMulI : bool) m x :
  alive g m -> alive g x -> steps g n x ->
  java_bin (if isMulI then NodeKind.MulI else NodeKind.MulL) (V m) (V x) (V n) ->
  sound (strengthOperand g isMulI (node g m) x).
Proof using All.
  intros Hm Hx Hst Hj. unfold strengthOperand.
  destruct (kind_eqb (nd_kind (node g m)) _) eqn:Hkm; cbn [negb]; [|apply sound_no].
  apply kind_eqb_spec in Hkm.
  set (raw := if isMulI then uz32 (nd_constValue (node g m)) else uz64 (nd_constValue (node g m))).
  destruct ((1 <? raw) && (Z.land raw (raw - 1) =? 0))%Z eqn:Hp; [|apply sound_no].
  apply andb_true_iff in Hp as [Hp1%Z.ltb_lt Hp2%Z.eqb_eq].
  pose proof (proj2 (proj2 (HV m Hm))) as Hjm. unfold java_node in Hjm.
  assert (exists w, (w = 32 \/ w = 64)%Z /\ w = (if isMulI then 32 else 64)%Z /\
    raw = uwrap w (nd_constValue (node g m))) as (w & Hw & Hwi & Hraw).
  { destruct isMulI; [exists 32%Z|exists 64%Z]; split_and!; auto. }
  assert (raw < 2 ^ w)%Z as Hlt by (rewrite Hraw; apply uwrap_range; lia).
  destruct (countr_zero_spec raw w) as [Hpow Hs]; [lia|lia|exact Hp2|].
  set (s := Z.of_N (countr_zero raw)) in *.
  assert (0 <= s < w)%Z as Hsr by (split; [apply N2Z.is_nonneg|exact Hs]).
  assert (in_signed 32 s) as Hs32 by (unfold in_signed; cbn; lia).
  apply sound_op_const; [exact Hx|exact Hst|exact Hs32|by destruct isMulI|].
  destruct isMulI; rewrite Hkm in Hjm; rewrite Hjm in Hj; subst w;
    destruct (V x) as [y|y|y|y|y|y]; try done; destruct (V n); try done; cbn [java_bin] in *;
    rewrite Hj, (Z.mod_small s) by lia; by apply (wrap_mul_pow _ _ _ raw).
Qed.

Lemma java_mul_comm k' a b v :
  k' = NodeKind.MulI \/ k' = NodeKind.MulL -> java_bin k' a b v -> java_bin k' b a v.
Proof.
  intros [->| ->]; destruct a; try done; destruct b; try done; destruct v; try done;
    cbn [java_bin]; intros ->; by rewrite Z.mul_comm.
Qed.

Lemma sound_tryStrength : sound (tryStrength g k n).
Proof using All.
  unfold tryStrength. destruct (negb _ && negb _) eqn:Hmul; [apply sound_no|].
  assert (k = if kind_eqb k NodeKind.MulI then NodeKind.MulI else NodeKind.MulL) as Hk.
  { destruct (kind_eqb k NodeKind.MulI) eqn:H1; [by apply kind_eqb_spec|].
    destruct (kind_eqb k NodeKind.MulL) eqn:H2; [by apply kind_eqb_spec|done]. }
  destruct (bin_facts n Hn) as (_ & Hj & [Ha Hb] & Hra & Hrb).
  { rewrite Hk. by destruct (kind_eqb k NodeKind.MulI). }
  rewrite Hk in Hj at 1. apply sound_orelse.
  - apply sound_strengthOperand; [exact Ha|exact Hb|by apply step1|exact Hj].
  - apply java_mul_comm in Hj; [|destruct (kind_eqb k NodeKind.MulI); auto].
    apply sound_strengthOperand; [exact Hb| | |];
      destruct (N.eqb_spec (input g n 1) (input g n 0)) as [He|He];
      try exact Hb; try exact Ha; try (by apply step1); [by rewrite He in Hj |- *|exact Hj].
Qed.

(** ** Canonical forms *)

Lemma sound_complementNot : sound (complementNot g k n).
Proof using All.
  unfold complementNot. destruct (kind_eqb k NodeKind.Not) eqn:Hk; [|apply sound_no].
  apply kind_eqb_spec in Hk. destruct (numInputs g n =? 1); [|apply sound_no]. cbn [andb].
  destruct (isDead _) eqn:Hd; [apply sound_no|]. cbn [negb andb].
  destruct (_ =? 2) eqn:H2; [|apply sound_no].
  destruct (complementTest _) as [comp|] eqn:Hc; [|apply sound_no].
  destruct (un_facts n Hn) as (_ & Hj & Hx & Hr); [by rewrite Hk|]. rewrite Hk in Hj.
  destruct (bin_facts _ Hx) as (_ & Hjx & [Ha Hb] & Hra & Hrb).
  { revert Hc. by destruct (nd_kind (node g (input g n 0))). }
  destruct (complement_bin _ _ _ _ _ Hc Hjx) as (t & Ht & Hcomp).
  rewrite Ht in Hj. apply not_bool in Hj.
  apply sound_op; [exact Ha|exact Hb|by eapply step2|by eapply step2| |by rewrite Hj].
  clear -Hc. revert Hc. by destruct (nd_kind (node g (input g n 0))); intros [= <-].
Qed.

(** ** Trivial phis *)

Lemma phi_fold_trivial d0 l d :
  (forall s, s ∈ l -> input g n s <> n /\ input g n s <> kInvalidNodeId) ->
  foldl (phiStep g n) (Some d0) l = Some d ->
  (d0 = kInvalidNodeId \/ d = d0) /\ forall s, s ∈ l -> input g n s = d.
Proof.
  revert d0. induction l as [|s l IH]; cbn [foldl]; intros d0 Hin Hf.
  { injection Hf as ->. split; [by right|]. by intros s ?%not_elem_of_nil. }
  destruct (Hin s) as [Hs1 Hs2]; [by left|].
  assert (forall s', s' ∈ l -> input g n s' <> n /\ input g n s' <> kInvalidNodeId) as Hin'
    by (intros s' ?; apply Hin; by right).
  assert (forall l, foldl (phiStep g n) None l = None) as Hnone by (intros l'; by induction l').
  revert Hf. unfold phiStep at 2. destruct (N.eqb_spec (input g n s) n); [done|].
  destruct (N.eqb_spec d0 kInvalidNodeId) as [Hd|Hd].
  - intros Hf. destruct (IH _ Hin' Hf) as [[Hbad|Heq] Hall]; [done|]. split; [by left|].
    intros s' [->|Hs']%elem_of_cons; [done|by apply Hall].
  - destruct (N.eqb_spec d0 (input g n s)) as [He|He]; cbn [negb]; [|by rewrite Hnone].
    intros Hf. destruct (IH _ Hin' Hf) as [[Hbad|Heq] Hall]; [done|]. split; [by right|].
    intros s' [->|Hs']%elem_of_cons; [congruence|by apply Hall].
Qed.

Lemma alive_valid m : alive g m -> m <> kInvalidNodeId.
Proof using Hl.
  intros [Hm _]. pose proof (so_nodes _ (go_storage _ (law_ok g Hl))) as Hn'.
  unfold fits32, kInvalidNodeId in *. lia.
Qed.

Lemma sound_tryTrivialPhi : sound (tryTrivialPhi g n, g).
Proof using All.
  unfold tryTrivialPhi. destruct (negb _ || _) eqn:Hphi; [apply sound_no|].
  apply orb_false_iff in Hphi as [Hk _]. apply negb_false_iff, kind_eqb_spec in Hk.
  destruct (foldl _ _ _) as [d|] eqn:Hf; [|apply sound_no].
  destruct (N.eqb_spec d kInvalidNodeId) as [|Hd]; [apply sound_no|].
  pose proof (proj2 (proj2 (HV n Hn))) as Hj. unfold java_node in Hj. rewrite Hk in Hj.
  destruct Hj as [Hp Hv].
  assert (forall s, 1 <= s < numInputs g n ->
    reads_value g n (input g n s) /\ alive g (input g n s)) as Hread.
  { intros s Hs. assert (has_slot g n s) as Hslot by (apply has_slot_iff; lia).
    split; [|by apply alive_input]. split; [apply Hn|]. split; [by rewrite Hk|].
    exists s. split_and!; [done|done|]. intros _. lia. }
  destruct (phi_fold_trivial kInvalidNodeId (value_slots (numInputs g n)) d) as [_ Hall].
  - intros s Hs%elem_of_value_slots. destruct (Hread s Hs) as [Hr Ha]. split.
    + intros He. apply (not_self g n Hacyc). apply tc_once. by rewrite He in Hr.
    + by apply alive_valid.
  - exact Hf.
  - pose proof (Hall (pick n) ltac:(by apply elem_of_value_slots)) as Hd'.
    destruct (Hread (pick n) Hp) as [Hr Ha]. rewrite Hd' in Hr, Ha, Hv.
    apply sound_old'; [exact Ha|exact (eq_sym Hv)|by apply step1].
Qed.

(** ** The rules of a mask *)

Theorem findReplacement_sound classMask : sound (findReplacement classMask g n).
Proof using All.
  unfold findReplacement. apply sound_orelse.
  { destruct (has_class _ kTrivialPhi); [apply sound_tryTrivialPhi|apply sound_no]. }
  apply sound_orelse.
  { destruct (has_class _ kFold); [apply sound_foldRules|apply sound_no]. }
  apply sound_orelse.
  { destruct (has_class _ kIdentity); [apply sound_identityRules|apply sound_no]. }
  apply sound_orelse.
  { destruct (has_class _ kStrength); [apply sound_tryStrength|apply sound_no]. }
  destruct (has_class _ kCanonical); [|apply sound_no].
  destruct (_ && _); [apply sound_no|apply sound_complementNot].
Qed.
End Rules.
