(* ===== verification/SimplifyRun.v ===== *)
(** * A run of the simplify engine

    Replacing a node by one that is computed from what it is computed from closes
    no cycle; swapping the operands of a commutative operation changes no value;
    so every visit, every sweep and the whole run keep the tombstone law, the
    acyclicity of the value computations and every value. *)

From Stdlib Require Import SpecFloat.
From S2P Require Import Prelude IRTypes Effect NodeInfo SmallVector Graph GraphInv.
From S2P Require Import GraphReplace ResultType PassSupport PassLaw PassGrow PassRewire.
From S2P Require Import Machine JavaSem ConstFold Simplify SimplifyValues SimplifyRules.

Local Open Scope N_scope.

(** ** Replacing closes no cycle *)

(** [g'] has the computations of [g] with [o] renamed to [v], and no others. *)
Definition renamed (o v : NodeId) (g g' : Graph) : Prop :=
  forall u y, reads_value g' u y ->
    exists x, reads_value g u x /\ y = if decide (x = o) then v else x.

Lemma acyclic_renamed o v g g' :
  acyclic g -> renamed o v g g' -> below g o v -> data_kind (nd_kind (node g o)) = true ->
  acyclic g'.
Proof.
  intros Ha Hr Hb Ho m.
  induction (acc_steps g m Ha) as [u _ IH]. constructor. intros y Hy.
  destruct (Hr u y Hy) as (x & Hx & ->). case_decide as Hxo; [subst x|by apply IH, tc_once].
  destruct Hb as [Hb|Hb]; [apply IH; by eapply tc_l|].
  constructor. intros z Hz. destruct (Hr v z Hz) as (w & Hw & ->).
  destruct (Hb w Hw) as [Hst|Hlf].
  - case_decide as Hwo; [subst w; by destruct (not_self g o Ha)|].
    apply IH. eapply tc_l; [exact Hx|exact Hst].
  - case_decide as Hwo; [subst w; unfold leaf_value in Hlf; congruence|].
    constructor. intros t Ht. destruct (Hr w t Ht) as (t' & (_ & Hd & _) & _).
    unfold leaf_value in Hlf. congruence.
Qed.

(** Acyclic computations and live inputs make every type computation finite. *)
Lemma acyclic_types g : acyclic g -> alive_inputs g -> forall m, Acc (calls g) m.
Proof.
  intros Ha Hal.
  assert (forall u y, y ∈ type_calls g u -> isDead (node g y) = false) as Hlive.
  { intros u y (s & Hs & <- & _)%type_calls_spec. by apply Hal. }
  assert (forall u, isDead (node g u) = false -> Acc (calls g) u) as Hacc.
  { intros u. induction (Ha u) as [u _ IH]. intros Hu. constructor. intros y Hy.
    apply IH; [|by eapply Hlive]. apply type_calls_spec in Hy as (s & Hs & Hi & Hk).
    split; [done|]. split; [destruct Hk as [[-> _]|[-> _]]; done|]. exists s.
    split_and!; [done|done|]. intros Hp. destruct Hk as [[Hk _]|[_ ?]]; [congruence|done]. }
  intros u. constructor. intros y Hy. by eapply Hacc, Hlive.
Qed.

Lemma replaceNode_renamed g o v :
  law g -> can_replace g o v -> renamed o v g (snd (replaceNode g o v)).
Proof.
  intros Hl Hcan u y (Hd & Hk & s & Hs & Hi & Hp). pose proof (law_ok g Hl) as Hok.
  assert (u < vlen (nodes_ g)) as Hu.
  { destruct Hs as [Hu _]. by rewrite replaceNode_vlen in Hu. }
  rewrite replaceNode_kind in Hk, Hp by done.
  rewrite has_slot_iff, replaceNode_numInputs, <- has_slot_iff in Hs by done.
  rewrite replaceNode_input in Hi by done. rewrite replaceNode_node in Hd by done.
  exists (input g u s). split; [|done]. split; [|split; [done|by exists s]].
  revert Hd. destruct (decide (u = o)); [by rewrite isDead_tombstone|auto].
Qed.

Lemma replaceNode_alive_inputs g o v :
  law g -> can_replace g o v -> alive_inputs (snd (replaceNode g o v)).
Proof.
  intros Hl Hcan m s Hs. pose proof (law_ok g Hl) as Hok. pose proof Hcan as (Ho & Hv & Hne & Hd).
  rewrite has_slot_iff, replaceNode_numInputs, <- has_slot_iff in Hs by done.
  rewrite replaceNode_input by done. case_decide as Hio.
  - rewrite replaceNode_node by done. by rewrite decide_False.
  - rewrite replaceNode_node by (done || by apply (law_closed g Hl)).
    rewrite decide_False by done. by apply (law_alive g Hl).
Qed.

Lemma replaced_renamed o v g g' :
  replaced o v g g' -> renamed o v g g'.
Proof.
  intros R u y (Hd & Hk & s & Hs & Hi & Hp).
  destruct (N.lt_ge_cases u (vlen (nodes_ g))) as [Hu|Hu].
  2:{ destruct (rp_new _ _ _ _ R u) as (_ & Hsk & _); [split; [done|apply Hs]|].
      exfalso. revert Hk Hsk. by destruct (nd_kind (node g' u)). }
  assert (u <> o) as Huo by (intros ->; rewrite (rp_dead _ _ _ _ R) in Hd; done).
  pose proof (rp_nodes _ _ _ _ R u Hu Huo) as Hnode. rewrite Hnode in Hd, Hk, Hp.
  apply has_slot_iff in Hs. unfold numInputs in Hs. rewrite Hnode in Hs.
  assert (has_slot g u s) as Hs' by (by apply has_slot_iff).
  rewrite (rp_inputs _ _ _ _ R u s Hs' Huo) in Hi. exists (input g u s).
  split; [|done]. split; [done|]. split; [done|by exists s].
Qed.

(** ** Replacing keeps the values *)

(** The values of the sinks a replacement creates. *)
Definition sink_value (g : Graph) (m : NodeId) : jval :=
  let nd := node g m in
  match nd_kind nd with
  | NodeKind.ConstantI => JI (i32 (nd_constValue nd))
  | NodeKind.ConstantL => JL (i64 (nd_constValue nd))
  | NodeKind.ConstantF => JF (uz32 (nd_constValue nd))
  | NodeKind.ConstantD => JD (uz64 (nd_constValue nd))
  | NodeKind.ConstantNull => JRef None
  | _ => JState 0
  end.

Definition with_sinks (V : NodeId -> jval) (g g' : Graph) (m : NodeId) : jval :=
  if decide (m < vlen (nodes_ g)) then V m else sink_value g' m.

Lemma with_sinks_old V g g' m : m < vlen (nodes_ g) -> with_sinks V g g' m = V m.
Proof. intros. unfold with_sinks. by rewrite decide_True. Qed.

Lemma sink_values pick V g m :
  nd_flags (node g m) = 0 -> sink_kind (nd_kind (node g m)) = true -> V m = sink_value g m ->
  node_values pick V g m.
Proof.
  intros Hf Hk Hv. unfold node_values. split; [|split].
  - rewrite Hv. unfold sink_value. destruct (nd_kind (node g m)); try done; cbn [jval_ok];
      (apply wrap_range || apply uwrap_range); lia.
  - rewrite fresh_not_never_null; [done|done|]. by destruct (nd_kind (node g m)).
  - unfold java_node, sink_value in *. by destruct (nd_kind (node g m)).
Qed.

Lemma replaced_alive' o v g g' m :
  replaced o v g g' -> m < vlen (nodes_ g) -> alive g' m ->
  m <> o /\ alive g m /\ node g' m = node g m.
Proof.
  intros R Hm [_ Hd]. assert (m <> o) as Hne by (intros ->; rewrite (rp_dead _ _ _ _ R) in Hd; done).
  pose proof (rp_nodes _ _ _ _ R m Hm Hne) as Hnode. rewrite Hnode in Hd. done.
Qed.

Lemma java_values_replaced pick V o v g g' :
  closed g -> replaced o v g g' -> v < vlen (nodes_ g) -> V o = V v ->
  java_values pick V g -> java_values pick (with_sinks V g g') g'.
Proof.
  intros Hc R Hv Hov HV m Hm.
  destruct (N.lt_ge_cases m (vlen (nodes_ g))) as [Hold|Hnew].
  - destruct (replaced_alive' _ _ _ _ m R Hold Hm) as (Hne & Hma & Hnode).
    apply (node_values_ext pick V _ g); [exact Hnode|by apply with_sinks_old| |by apply HV].
    intros s Hs. rewrite (rp_inputs _ _ _ _ R m s Hs Hne). case_decide as Heq.
    + rewrite with_sinks_old by done. congruence.
    + by apply with_sinks_old, Hc.
  - destruct (rp_new _ _ _ _ R m) as (Hf & Hk & _); [split; [done|apply Hm]|].
    apply sink_values; [exact Hf|exact Hk|]. unfold with_sinks. rewrite decide_False by lia. done.
Qed.

(** ** Swapping *)

Lemma java_bin_comm k a b v :
  isCommutativeInt k = true -> java_bin k a b v -> java_bin k b a v.
Proof.
  destruct k; try discriminate; intros _; destruct a; try done; destruct b; try done;
    destruct v; try done; cbn [java_bin]; intros ->;
    first [by rewrite Z.add_comm|by rewrite Z.mul_comm|by rewrite Z.land_comm
          |by rewrite Z.lor_comm|by rewrite Z.lxor_comm].
Qed.

Section Swap.
Context (g : Graph) (n : NodeId) (Hl : law g) (Hn : alive g n).
Context (Hk : isCommutativeInt (nd_kind (node g n)) = true) (H2 : numInputs g n = 2).

Lemma swap_leaf : leaf g n.
Proof using Hk. unfold leaf. split; intros He; by rewrite He in Hk. Qed.

Lemma swap_slots : has_slot g n 0 /\ has_slot g n 1.
Proof using H2. split; apply has_slot_iff; lia. Qed.

Lemma swap_law : law (swapInputs g n).
Proof using All.
  destruct swap_slots as [S0 S1]. unfold swapInputs.
  pose proof (law_ok g Hl) as Hok.
  assert (law (setInput g n 0 (input g n 1))) as Hl1.
  { apply law_setInput; [done| |right; apply swap_leaf]. by apply alive_input. }
  apply law_setInput; [done| |].
  - destruct (alive_input g Hl n 0 Hn S0) as [Ha Hd]. split; [by rewrite setInput_nodes|].
    by rewrite setInput_node.
  - right. unfold leaf. rewrite setInput_node by done. apply swap_leaf.
Qed.

Lemma swap_node m : node (swapInputs g n) m = node g m.
Proof using All.
  pose proof (law_ok g Hl) as Hok. unfold swapInputs.
  rewrite !setInput_node; [done|done|]. by apply setInput_ok.
Qed.

Lemma swap_input m s :
  input (swapInputs g n) m s =
    if decide (m = n /\ s = 0) then input g n 1
    else if decide (m = n /\ s = 1) then input g n 0 else input g m s.
Proof using All.
  destruct swap_slots as [S0 S1]. pose proof (law_ok g Hl) as Hok. unfold swapInputs.
  assert (graph_ok (setInput g n 0 (input g n 1))) as Hok1 by by apply setInput_ok.
  pose proof (setInput_has_slot g n 0 (input g n 1) Hok n 1) as Hs1.
  rewrite setInput_input by done. rewrite setInput_input by done.
  repeat case_decide; naive_solver.
Qed.

Lemma swap_side :
  vlen (nodes_ (swapInputs g n)) = vlen (nodes_ g) /\
  vlen (edgePool_ (swapInputs g n)) = vlen (edgePool_ g) /\
  startNode (swapInputs g n) = startNode g /\ fsDesc_ (swapInputs g n) = fsDesc_ g.
Proof using All.
  pose proof (law_ok g Hl) as Hok. unfold swapInputs.
  set (b := input g n 1). set (a := input g n 0).
  assert (graph_ok (setInput g n 0 b)) as Hok1 by by apply setInput_ok.
  pose proof (setInput_meta g n 0 b Hok) as (Hd & _ & _ & _ & _ & _ & Hs).
  pose proof (setInput_meta (setInput g n 0 b) n 1 a Hok1) as (Hd' & _ & _ & _ & _ & _ & Hs').
  rewrite !setInput_nodes, !setInput_vlen_pool by done.
  split_and!; [done|done| |congruence]. unfold startNode in *. congruence.
Qed.

Lemma swap_alive m : alive (swapInputs g n) m <-> alive g m.
Proof using All. unfold alive. destruct swap_side as (-> & _). by rewrite swap_node. Qed.

Lemma swap_reads u y : reads_value (swapInputs g n) u y -> reads_value g u y.
Proof using All.
  intros (Hd & Hdk & s & Hs & Hi & Hp). rewrite swap_node in Hd, Hdk, Hp.
  destruct swap_slots as [S0 S1]. split; [done|]. split; [done|].
  assert (has_slot g u s) as Hs'.
  { apply has_slot_iff in Hs. apply has_slot_iff. unfold numInputs in *. by rewrite swap_node in Hs. }
  rewrite swap_input in Hi. case_decide as H0; [|case_decide as H1].
  - destruct H0 as [-> ->]. exists 1. split_and!; [done|done|]. intros _. lia.
  - destruct H1 as [-> ->]. exists 0. split_and!; [done|done|]. intros He. by rewrite He in Hk.
  - by exists s.
Qed.

Lemma swap_acyclic : acyclic g -> acyclic (swapInputs g n).
Proof using All.
  intros Ha m. induction (Ha m) as [m _ IH]. constructor. intros y Hy. apply IH.
  by apply swap_reads.
Qed.

Lemma swap_junk jk : junk_ok g jk -> junk_ok (swapInputs g n) jk.
Proof using All.
  intros [J1 J2]. destruct swap_side as (Hc & _). split.
  - intros x Hx. destruct (J1 x Hx) as [->|(H1 & H3 & H4)]; [by left|right].
    rewrite Hc, swap_node. unfold numInputs in *. by rewrite swap_node.
  - intros r Hr. destruct (J2 r Hr). rewrite swap_node. split; [by apply swap_alive|done].
Qed.

Lemma swap_values pick V : java_values pick V g -> java_values pick V (swapInputs g n).
Proof using All.
  intros HV m Hm%swap_alive. destruct (decide (m = n)) as [->|Hne].
  - pose proof (HV n Hn) as (Hok & Hnn & Hj). split; [done|].
    split; [unfold isNeverNullNode in *; by rewrite swap_node|].
    assert (java_bin_kind (nd_kind (node g n)) = true) as Hbk by by destruct (nd_kind (node g n)).
    destruct (java_bin_node _ _ _ _ Hj Hbk) as [_ Hb].
    apply java_node_bin; rewrite ?swap_node; [done|unfold numInputs in *; by rewrite swap_node|].
    rewrite !swap_input. rewrite decide_True, (decide_False (P := n = n /\ 1 = 0)), decide_True by lia.
    by apply java_bin_comm.
  - apply (node_values_ext pick V V g); [by apply swap_node|done| |by apply HV].
    intros s Hs. rewrite swap_input. by rewrite !decide_False by naive_solver.
Qed.
End Swap.

(** ** What a run preserves *)

(** A surviving node reads operands with the values it read before, the two of a
    commutative operation possibly exchanged. *)
Definition same_operands (V V' : NodeId -> jval) (g g' : Graph) (m : NodeId) : Prop :=
  (forall s, s < numInputs g m -> V' (input g' m s) = V (input g m s)) \/
  (isCommutativeInt (nd_kind (node g m)) = true /\ numInputs g m = 2 /\
   V' (input g' m 0) = V (input g m 1) /\ V' (input g' m 1) = V (input g m 0)).

Record simplified (V V' : NodeId -> jval) (g g' : Graph) : Prop := {
  sm_count : vlen (nodes_ g) <= vlen (nodes_ g');
  sm_old : forall m, m < vlen (nodes_ g) -> V' m = V m;
  sm_live : forall m, m < vlen (nodes_ g) -> alive g' m ->
    alive g m /\ node g' m = node g m /\ same_operands V V' g g' m;
  sm_gone : forall m, alive g m -> ~ alive g' m -> data_kind (nd_kind (node g m)) = true
}.

Lemma same_operands_trans V1 V2 V3 g1 g2 g3 m :
  node g2 m = node g1 m -> same_operands V1 V2 g1 g2 m -> same_operands V2 V3 g2 g3 m ->
  same_operands V1 V3 g1 g3 m.
Proof.
  intros Hn. assert (numInputs g2 m = numInputs g1 m) as Hnum by (unfold numInputs; by rewrite Hn).
  unfold same_operands. rewrite Hnum, Hn.
  intros [H12|(Hk & H2 & H120 & H121)] [H23|(Hk' & H2' & H230 & H231)].
  - left. intros s Hs. by rewrite H23, H12.
  - right. by rewrite H230, H231, !H12 by lia.
  - right. rewrite !H23, H120, H121 by lia. done.
  - left. intros s Hs. assert (s = 0 \/ s = 1) as [->| ->] by lia; congruence.
Qed.

Lemma simplified_refl V g : simplified V V g g.
Proof.
  split; [done|done| |by intros m ? []]. intros m _ Hm.
  split; [exact Hm|]. split; [reflexivity|]. by left.
Qed.

Lemma simplified_trans V1 V2 V3 g1 g2 g3 :
  simplified V1 V2 g1 g2 -> simplified V2 V3 g2 g3 -> simplified V1 V3 g1 g3.
Proof.
  intros [A1 A2 A3 A4] [B1 B2 B3 B4]. split.
  - lia.
  - intros m Hm. rewrite B2 by lia. by apply A2.
  - intros m Hm H3. destruct (B3 m) as (H2 & Hn2 & Hi2); [lia|exact H3|].
    destruct (A3 m Hm H2) as (H1 & Hn1 & Hi1). split; [exact H1|]. split; [congruence|].
    by eapply same_operands_trans.
  - intros m H1 H3. destruct (decide (isDead (node g2 m) = false)) as [Hd|Hd].
    + assert (alive g2 m) as H2 by (split; [destruct H1; lia|exact Hd]).
      destruct (A3 m (proj1 H1) H2) as (_ & Hn & _). rewrite <- Hn. by apply B4.
    + apply A4; [exact H1|]. by intros [_ ?].
Qed.

Lemma simplified_made c V V' g g' :
  closed g -> made c g g' -> (forall m, m < vlen (nodes_ g) -> V' m = V m) -> simplified V V' g g'.
Proof.
  intros Hc Hm Hold. pose proof (md_count _ _ _ Hm) as Hcount. split; [lia|exact Hold| |].
  - intros m Hlt [_ Hd]. destruct (md_kept _ _ _ Hm m Hlt) as [Hn Hi]. rewrite Hn in Hd.
    split; [by split|]. split; [exact Hn|]. left. intros s Hs%has_slot_iff. rewrite Hi.
    by apply Hold, Hc.
  - intros m Ha Hna. destruct Hna. by eapply made_alive.
Qed.

Lemma simplified_replaced V o v g g' :
  closed g -> replaced o v g g' -> v < vlen (nodes_ g) -> V o = V v ->
  data_kind (nd_kind (node g o)) = true -> simplified V (with_sinks V g g') g g'.
Proof.
  intros Hc R Hv Hov Hk. pose proof (rp_count _ _ _ _ R) as Hcount. split.
  - lia.
  - apply with_sinks_old.
  - intros m Hm Ha. destruct (replaced_alive' _ _ _ _ m R Hm Ha) as (Hne & Hma & Hnode).
    split; [exact Hma|]. split; [exact Hnode|]. left. intros s Hs%has_slot_iff.
    rewrite (rp_inputs _ _ _ _ R m s Hs Hne). case_decide as Heq.
    + rewrite with_sinks_old by done. congruence.
    + by apply with_sinks_old, Hc.
  - intros m [Hm Hd] Hna. destruct (decide (m = o)) as [->|Hne]; [exact Hk|]. destruct Hna.
    split; [lia|]. by rewrite (rp_nodes _ _ _ _ R m Hm Hne).
Qed.

Lemma simplified_swap V g n :
  law g -> alive g n -> isCommutativeInt (nd_kind (node g n)) = true -> numInputs g n = 2 ->
  simplified V V g (swapInputs g n).
Proof.
  intros Hl Hn Hk H2. destruct (swap_side g n Hl Hn Hk H2) as (Hc & _). split.
  - lia.
  - done.
  - intros m Hm Ha%swap_alive; [|done..]. split; [exact Ha|].
    split; [by apply swap_node|]. destruct (decide (m = n)) as [->|Hne].
    + right. rewrite !swap_input by done.
      by rewrite decide_True, (decide_False (P := n = n /\ 1 = 0)), decide_True by lia.
    + left. intros s Hs. rewrite swap_input by done. by rewrite !decide_False by naive_solver.
  - intros m Ha Hna. destruct Hna. by apply swap_alive.
Qed.

(** ** The kinds the rules replace *)

Definition value_kind (k : NodeKind) : bool :=
  java_bin_kind k || java_un_kind k || kind_eqb k NodeKind.Phi.

Definition finds (k : NodeKind) (r : found) : Prop := fst r <> None -> value_kind k = true.

Lemma finds_no k g : finds k (no g).
Proof. by intros []. Qed.

Lemma finds_orelse k r next :
  finds k r -> (forall g, finds k (next g)) -> finds k (orelse r next).
Proof. unfold orelse. intros Hr Hnext. destruct (fst r) eqn:He; [done|apply Hnext]. Qed.

Lemma finds_kind k r : value_kind k = true -> finds k r.
Proof. by intros ? _. Qed.

Lemma finds_foldRules g k n : finds k (foldRules g k n).
Proof.
  unfold foldRules. apply finds_orelse; [apply finds_orelse|].
  - destruct (_ =? 2); [|apply finds_no]. destruct (_ && _); [|apply finds_no].
    destruct (evalBinOp _ _ _) eqn:He; [|apply finds_no]. apply finds_kind.
    unfold value_kind. by rewrite (evalBinOp_kind _ _ _ _ He).
  - intros g'. destruct (_ =? 1); [|apply finds_no]. unfold foldUnary.
    destruct (negb _); [apply finds_no|]. destruct (evalUnaryOp _ _) eqn:He; [|apply finds_no].
    apply finds_kind. unfold value_kind. by rewrite (evalUnaryOp_kind _ _ _ He), orb_true_r.
  - intros g'. destruct k; try apply finds_no; by apply finds_kind.
Qed.

Lemma finds_identityRules g k n : finds k (identityRules g k n).
Proof.
  unfold identityRules. apply finds_orelse.
  { destruct (_ =? 2); [|apply finds_no]. unfold tryIdentity. apply finds_orelse.
    - destruct (_ =? _); [|apply finds_no]. destruct k; try apply finds_no; by apply finds_kind.
    - intros g'. destruct k; try apply finds_no; by apply finds_kind. }
  intros g1. apply finds_orelse.
  { destruct k; try apply finds_no; by apply finds_kind. }
  intros g2. apply finds_orelse.
  { unfold tryConversionIdentity. destruct (isDead _); [apply finds_no|].
    destruct k; try apply finds_no; by apply finds_kind. }
  intros g3. unfold tryNotNot. destruct (kind_eqb k NodeKind.Not) eqn:Hk; [|apply finds_no].
  apply kind_eqb_spec in Hk as ->. by apply finds_kind.
Qed.

Lemma findReplacement_kind classMask g n :
  finds (nd_kind (node g n)) (findReplacement classMask g n).
Proof.
  unfold findReplacement. apply finds_orelse.
  { destruct (has_class _ _); [|apply finds_no]. unfold tryTrivialPhi.
    destruct (kind_eqb _ NodeKind.Phi) eqn:Hk; [|by intros []]. apply finds_kind.
    unfold value_kind. by rewrite Hk, orb_true_r. }
  intros g1. apply finds_orelse.
  { destruct (has_class _ _); [apply finds_foldRules|apply finds_no]. }
  intros g2. apply finds_orelse.
  { destruct (has_class _ _); [apply finds_identityRules|apply finds_no]. }
  intros g3. apply finds_orelse.
  { destruct (has_class _ _); [|apply finds_no]. unfold tryStrength.
    destruct (kind_eqb _ NodeKind.MulI) eqn:H1.
    { apply kind_eqb_spec in H1 as ->. by apply finds_kind. }
    destruct (kind_eqb _ NodeKind.MulL) eqn:H2; [|apply finds_no].
    apply kind_eqb_spec in H2 as ->. by apply finds_kind. }
  intros g4. destruct (has_class _ _); [|apply finds_no]. destruct (_ && _); [apply finds_no|].
  unfold complementNot. destruct (kind_eqb _ NodeKind.Not) eqn:Hk; [|apply finds_no].
  apply kind_eqb_spec in Hk as ->. by apply finds_kind.
Qed.

Lemma value_kind_facts k :
  value_kind k = true ->
  data_kind k = true /\ k <> NodeKind.Region /\ k <> NodeKind.Start.
Proof. by destruct k. Qed.

(** ** One visit *)

(** The state of a run: [W] bounds the inputs of the phis, and while the budget
    lasts there is room for the sinks of every rewrite it still allows. *)
Record simp_ok (W : N) (st : pass_state) : Prop := {
  si_world : world_ok (ps_world st);
  si_acyclic : acyclic (ps_g st);
  si_phi : forall m, alive (ps_g st) m -> nd_kind (node (ps_g st) m) = NodeKind.Phi ->
    numInputs (ps_g st) m <= W;
  si_W : 2 <= W <= 65534;
  si_limit : b_limit (ps_b st) < 4294967296;
  si_room : b_exceeded (ps_b st) = false ->
    room ((b_limit (ps_b st) - b_used (ps_b st)) * edges_cost (W + 1) + 6) (ps_g st)
}.

Lemma simp_ok_telemetry W st t : simp_ok W st -> simp_ok W (mkPass (ps_world st) t (ps_b st)).
Proof. intros [A1 A2 A3 A4 A5 A6]. by split. Qed.

Lemma edges_cost_step k W : k <= W -> edges_cost k + 6 <= edges_cost (W + 1).
Proof.
  intros H. etrans; [apply N.add_le_mono_r, (edges_cost_mono _ _ H)|].
  unfold edges_cost. nia.
Qed.

Lemma value_width pick V W st n :
  simp_ok W st -> java_values pick V (ps_g st) -> alive (ps_g st) n ->
  value_kind (nd_kind (node (ps_g st) n)) = true -> numInputs (ps_g st) n <= W.
Proof.
  intros Hok HV Hn Hk. pose proof (si_W _ _ Hok) as HW. pose proof (HV n Hn) as (_ & _ & Hj).
  unfold value_kind in Hk. apply orb_true_iff in Hk as [[Hk|Hk]%orb_true_iff|Hk].
  - destruct (java_bin_node _ _ _ _ Hj Hk). lia.
  - destruct (java_un_node _ _ _ _ Hj Hk). lia.
  - apply kind_eqb_spec in Hk. by apply (si_phi _ _ Hok).
Qed.

Definition progress (st st' : pass_state) : Prop :=
  b_exceeded (ps_b st') = true \/
  (vlen (nodes_ (ps_g st')) = vlen (nodes_ (ps_g st)) /\ ps_b st' = ps_b st) \/
  (b_used (ps_b st) < b_limit (ps_b st) /\ b_used (ps_b st') = b_used (ps_b st) + 1).

Record simp_result (pick : NodeId -> N) (W : N) (V V' : NodeId -> jval) (st st' : pass_state)
    : Prop := {
  sr_ok : simp_ok W st';
  sr_values : java_values pick V' (ps_g st');
  sr_same : simplified V V' (ps_g st) (ps_g st');
  sr_limit : b_limit (ps_b st') = b_limit (ps_b st)
}.

Lemma simp_result_refl pick W V st :
  simp_ok W st -> java_values pick V (ps_g st) -> simp_result pick W V V st st.
Proof. intros. split; [done|done|apply simplified_refl|done]. Qed.

Lemma simp_result_trans pick W V1 V2 V3 st1 st2 st3 :
  simp_result pick W V1 V2 st1 st2 -> simp_result pick W V2 V3 st2 st3 ->
  simp_result pick W V1 V3 st1 st3.
Proof.
  intros [A1 A2 A3 A4] [B1 B2 B3 B4].
  split; [exact B1|exact B2|by eapply simplified_trans|congruence].
Qed.

Section Visit.
Context (pick : NodeId -> N) (V : NodeId -> jval) (W : N) (st : pass_state) (n : NodeId).
Context (Hok : simp_ok W st) (HV : java_values pick V (ps_g st)).
Context (Hex : b_exceeded (ps_b st) = false) (Hn : alive (ps_g st) n).

(** The state after the rule has made its nodes. *)
Abbreviation after g' := (mkPass (g', ps_jk st) (ps_t st) (ps_b st)).

Lemma after_made_ok g' c :
  made c (ps_g st) g' -> c <= 6 ->
  world_ok (ps_world (after g')) /\ acyclic g' /\
  (forall m, alive g' m -> nd_kind (node g' m) = NodeKind.Phi -> numInputs g' m <= W) /\
  room ((b_limit (ps_b st) - b_used (ps_b st)) * edges_cost (W + 1)) g'.
Proof using Hok Hex.
  intros Hm Hc. pose proof (si_world _ _ Hok) as [Hl Hj]. split_and!.
  - split; [apply Hm|by eapply made_junk].
  - apply Hm.
  - intros m Ha Hk. destruct (N.lt_ge_cases m (vlen (nodes_ (ps_g st)))) as [Hlt|Hge].
    + rewrite (made_numInputs _ _ _ _ Hm Hlt). destruct Ha as [_ Hd].
      destruct (md_kept _ _ _ Hm m Hlt) as [Hnode _]. rewrite Hnode in Hd, Hk.
      apply (si_phi _ _ Hok); [by split|done].
    + destruct (md_new _ _ _ Hm m) as [_ Hne]; [split; [done|apply Ha]|done].
  - eapply made_room; [exact Hm|]. eapply room_le; [by apply (si_room _ _ Hok)|lia].
Qed.

Lemma after_replaceable g' V' r :
  answer 6 pick V (ps_g st) n r g' V' -> value_kind (nd_kind (node (ps_g st) n)) = true ->
  can_replace g' n r /\
  (b_used (ps_b st) < b_limit (ps_b st) -> replaceable n r (after g')).
Proof using All.
  intros [Hm Hold HV' Hr Hne Hval Hb] Hk.
  destruct (value_kind_facts _ Hk) as (Hdk & Hreg & Hstart).
  destruct (after_made_ok g' 6 Hm) as (Hw & Ha & _ & Hroom); [lia|].
  pose proof (made_alive _ _ _ _ Hm Hn) as Hn'.
  destruct (md_kept _ _ _ Hm n (proj1 Hn)) as [Hnode _].
  assert (can_replace g' n r) as Hcan.
  { split; [apply Hn'|]. split; [apply Hr|]. split; [congruence|apply Hr]. }
  split; [exact Hcan|]. intros Hlt.
  pose proof (value_width _ _ _ _ _ Hok HV Hn Hk) as Hwidth.
  pose proof (si_W _ _ Hok) as HW.
  assert (numInputs g' n <= W) as Hwidth' by (by rewrite (made_numInputs _ _ _ _ Hm (proj1 Hn))).
  split; unfold ps_g in *; cbn [ps_world fst] in *.
  - exact Hw.
  - lia.
  - eapply room_le; [exact Hroom|]. pose proof (edges_cost_step _ _ Hwidth').
    etrans; [|apply N.mul_le_mono_r; instantiate (1 := 1); lia]. lia.
  - by rewrite Hnode.
  - intros ->. pose proof (proj2 (law_start _ (proj1 Hw))) as Hst. cbn [fst] in Hst.
    by rewrite Hnode in Hst.
  - intros _. apply acyclic_types; [|by apply replaceNode_alive_inputs; [apply Hw|]].
    eapply acyclic_renamed; [exact Ha|by apply replaceNode_renamed; [apply Hw|]|exact Hb|].
    by rewrite Hnode.
Qed.

Lemma visit_replace g' V' r :
  answer 6 pick V (ps_g st) n r g' V' -> value_kind (nd_kind (node (ps_g st) n)) = true ->
  exists st', replace n r (after g') = Some st' /\
    exists V2, simp_result pick W V V2 st st' /\ progress st st'.
Proof using All.
  intros Hans Hk. destruct (after_replaceable g' V' r Hans Hk) as [Hcan Hrep].
  pose proof Hans as [Hm Hold HV' Hr Hne Hval Hb].
  destruct (value_kind_facts _ Hk) as (Hdk & _ & _).
  pose proof (si_world _ _ Hok) as [Hl _].
  destruct (after_made_ok g' 6 Hm) as (Hw & Ha & Hphi & Hroom); [lia|].
  assert (simplified V V' (ps_g st) g') as Hs1
    by (eapply simplified_made; [apply (law_closed _ Hl)|exact Hm|exact Hold]).
  destruct (N.lt_ge_cases (b_used (ps_b st)) (b_limit (ps_b st))) as [Hlt|Hge].
  2:{ eexists. split.
      - apply replace_no_budget. unfold charge. cbn [ps_b]. rewrite Hex. cbn [orb].
        destruct (N.leb_spec (b_limit (ps_b st)) (b_used (ps_b st))); [done|lia].
      - exists V'. split; [|by left]. split; [|exact HV'|exact Hs1|done].
        split; [exact Hw|exact Ha|exact Hphi|apply (si_W _ _ Hok)|apply (si_limit _ _ Hok)|done]. }
  destruct (replace_cases n r (after g') (Hrep Hlt)) as (st' & Hst' & Hw' & Hcase & Hlim & Hbud).
  cbn [ps_b] in Hlim, Hbud. exists st'. split; [exact Hst'|].
  destruct Hcase as [(Hworld & _ & [Hexc|Hno])|(_ & R & Hexc)]; [|done|].
  - exists V'. assert (ps_g st' = g') as Hg by (unfold ps_g; by rewrite Hworld).
    split; [|by left]. split; rewrite ?Hg; [|exact HV'|exact Hs1|exact Hlim].
    split; rewrite ?Hg; [exact Hw'|exact Ha|exact Hphi|apply (si_W _ _ Hok)| |congruence].
    rewrite Hlim. apply (si_limit _ _ Hok).
  - destruct (Hbud Hexc) as (_ & _ & Hu). change (ps_g (after g')) with g' in R.
    pose proof (law_closed _ (proj1 Hw)) as Hc'. cbn [ps_world fst] in Hc'.
    destruct (md_kept _ _ _ Hm n (proj1 Hn)) as [Hnode _].
    assert (V' n = V' r) as Heq by (rewrite Hval; by apply Hold, Hn).
    pose proof (si_limit _ _ Hok) as Hmax. rewrite u32_small in Hu by (unfold fits32; lia).
    exists (with_sinks V' g' (ps_g st')). split; [|right; right; by split]. split.
    + pose proof (value_width _ _ _ _ _ Hok HV Hn Hk) as Hwidth.
      pose proof (made_numInputs _ _ _ _ Hm (proj1 Hn)) as Hnum.
      split; [exact Hw'| | |apply (si_W _ _ Hok)|by rewrite Hlim|].
      * eapply acyclic_renamed; [exact Ha|by apply replaced_renamed|exact Hb|by rewrite Hnode].
      * intros m Hma Hmk. destruct (N.lt_ge_cases m (vlen (nodes_ g'))) as [Hlt'|Hge'].
        -- destruct (replaced_alive' _ _ _ _ _ R Hlt' Hma) as (_ & Hma' & Hn').
           unfold numInputs. rewrite Hn' in Hmk |- *. by apply Hphi.
        -- destruct (rp_new _ _ _ _ R m) as (_ & Hsk & _); [split; [done|apply Hma]|].
           by rewrite Hmk in Hsk.
      * intros _. rewrite Hlim, Hu.
        pose proof (edges_cost_step _ _ Hwidth) as Hcost. rewrite <- Hnum in Hcost.
        pose proof (si_room _ _ Hok Hex) as (R1 & R2 & R3).
        assert ((b_limit (ps_b st) - b_used (ps_b st)) * edges_cost (W + 1) =
          (b_limit (ps_b st) - (b_used (ps_b st) + 1)) * edges_cost (W + 1) + edges_cost (W + 1))
          as Hsplit by (rewrite <- N.mul_succ_l; f_equal; lia).
        pose proof (md_count _ _ _ Hm). pose proof (md_pool _ _ _ Hm).
        pose proof (rp_count _ _ _ _ R). pose proof (rp_pool _ _ _ _ R).
        destruct (rp_fs _ _ _ _ R) as (ds & Hds & Hdl).
        unfold room. rewrite Hds, vlen_app, (md_fs _ _ _ Hm). split_and!; lia.
    + eapply java_values_replaced; [exact Hc'|exact R|apply Hr|exact Heq|exact HV'].
    + eapply simplified_trans; [exact Hs1|].
      eapply simplified_replaced; [exact Hc'|exact R|apply Hr|exact Heq|by rewrite Hnode].
    + exact Hlim.
Qed.
End Visit.

Lemma simplify_visit_spec pick V W classMask n st :
  simp_ok W st -> java_values pick V (ps_g st) -> b_exceeded (ps_b st) = false ->
  n < vlen (nodes_ (ps_g st)) ->
  exists c st', simplify_visit classMask n st = Some (c, st') /\
    exists V', simp_result pick W V V' st st' /\ progress st st'.
Proof.
  intros Hok HV Hex Hlt. pose proof (si_world _ _ Hok) as [Hl Hj].
  assert (simp_result pick W V V st st /\ progress st st) as Hsame
    by (split; [by apply simp_result_refl|right; by left]).
  assert (st = mkPass (ps_g st, ps_jk st) (ps_t st) (ps_b st)) as Heta
    by (by destruct st as [[g jk] t b]).
  unfold simplify_visit. destruct (isDead (node (ps_g st) n)) eqn:Hd.
  { exists false, st. split; [done|]. by exists V. }
  assert (alive (ps_g st) n) as Hn by by split.
  assert (room 6 (ps_g st)) as Hroom
    by (eapply room_le; [exact (si_room _ _ Hok Hex)|apply N.le_add_l]).
  pose proof (findReplacement_sound pick V (ps_g st) n Hl (si_acyclic _ _ Hok) Hroom HV Hn classMask)
    as Hsound.
  pose proof (findReplacement_kind classMask (ps_g st) n) as Hkind.
  destruct (findReplacement classMask (ps_g st) n) as [[r|] g'];
    unfold sound_rule, finds in *; cbn [fst snd] in *.
  - destruct Hsound as [V' Hans]. specialize (Hkind ltac:(done)).
    destruct (N.eqb_spec r n) as [->|_]; [by destruct (an_ne _ _ _ _ _ _ _ _ Hans)|]. cbn [negb].
    destruct (an_alive _ _ _ _ _ _ _ _ Hans) as [_ Hrd]. rewrite Hrd, andb_false_r.
    destruct (visit_replace pick V W st n Hok HV Hex Hn g' V' r Hans Hkind)
      as (st' & -> & V2 & [R1 R2 R3 R4] & Hp).
    destruct (negb _); eexists _, _; (split; [reflexivity|]); exists V2.
    + split; [|exact Hp]. split; [by apply simp_ok_telemetry|exact R2|exact R3|exact R4].
    + split; [|exact Hp]. by split.
  - subst g'. destruct (has_class classMask kCanonical && _) eqn:Hswap.
    2:{ eexists _, _. split; [reflexivity|]. exists V. by rewrite <- Heta. }
    apply andb_true_iff in Hswap as [_ Hswap]. unfold wantsSwap in Hswap.
    apply andb_true_iff in Hswap as [[H2%N.eqb_eq Hk]%andb_true_iff _].
    eexists _, _. split; [reflexivity|]. exists V.
    destruct (swap_side (ps_g st) n Hl Hn Hk H2) as (S1 & S2 & S3 & S4).
    split; [|right; left; by split]. split.
    + split; unfold ps_g in *; cbn [ps_world ps_b fst snd].
      * split; [by apply swap_law|by apply swap_junk].
      * by apply swap_acyclic; [..|apply (si_acyclic _ _ Hok)].
      * intros m Hm%swap_alive; [|done..]. unfold numInputs. rewrite swap_node by done.
        by apply (si_phi _ _ Hok).
      * apply (si_W _ _ Hok).
      * apply (si_limit _ _ Hok).
      * intros _. unfold room. rewrite S1, S2, S4. by apply (si_room _ _ Hok).
    + by apply swap_values.
    + by apply simplified_swap.
    + done.
Qed.

(** ** Sweeps *)

(** Every visit moves on to the next node, uses up budget or ends the sweep. *)
Lemma simplify_sweep_total pick W classMask b j n changed st V :
  simp_ok W st -> java_values pick V (ps_g st) ->
  (N.to_nat (b_limit (ps_b st) - b_used (ps_b st)) <= b)%nat ->
  (N.to_nat (vlen (nodes_ (ps_g st)) - n) <= j)%nat ->
  exists fuel c st', simplify_sweep fuel classMask n changed st = Some (c, st') /\
    exists V', simp_result pick W V V' st st'.
Proof.
  revert j n changed st V. induction b as [b IHb] using lt_wf_ind.
  intros j. induction j as [j IHj] using lt_wf_ind. intros n changed st V Hok HV Hb Hj.
  pose proof (si_world _ _ Hok) as Hw.
  pose proof (law_count _ (proj1 Hw)) as Hcount. fold (ps_g st) in Hcount.
  assert (simp_result pick W V V st st) as Hsame by by apply simp_result_refl.
  destruct (N.ltb_spec n (vlen (nodes_ (ps_g st)))) as [Hn|Hn].
  2:{ exists 1%nat, changed, st. cbn [simplify_sweep]. rewrite Hcount.
      destruct (N.ltb_spec n (vlen (nodes_ (ps_g st)))); [lia|]. split; [done|by exists V]. }
  destruct (b_exceeded (ps_b st)) eqn:Hex.
  { exists 1%nat, changed, st. cbn [simplify_sweep]. rewrite Hcount, Hex.
    destruct (N.ltb_spec n (vlen (nodes_ (ps_g st)))); [|lia]. split; [done|by exists V]. }
  destruct (simplify_visit_spec pick V W classMask n st Hok HV Hex Hn)
    as (c & st1 & Hv & V1 & Hres1 & Hp). pose proof Hres1 as [R1 R2 R3 R4].
  assert (exists fuel c' st', simplify_sweep fuel classMask (n + 1) (changed || c) st1 = Some (c', st') /\
    exists V', simp_result pick W V1 V' st1 st') as (fuel & c' & st' & Hl & V' & Hres).
  { destruct Hp as [Hexc|[[Hg Hbud]|[Hlt Hu]]].
    - exists 1%nat. cbn [simplify_sweep]. rewrite Hexc.
      exists (changed || c), st1. split; [by destruct (_ <? _)|].
      exists V1. by apply simp_result_refl.
    - apply (IHj (N.to_nat (vlen (nodes_ (ps_g st)) - (n + 1)))); [lia|exact R1|exact R2| |].
      + by rewrite Hbud.
      + by rewrite Hg.
    - eapply (IHb (N.to_nat (b_limit (ps_b st1) - b_used (ps_b st1)))); [|exact R1|exact R2|done..].
      rewrite R4, Hu. lia. }
  exists (S fuel), c', st'. split.
  - cbn [simplify_sweep]. rewrite Hcount, Hex, Hv.
    destruct (N.ltb_spec n (vlen (nodes_ (ps_g st)))); [|lia].
    rewrite u32_small; [exact Hl|].
    pose proof (so_nodes _ (go_storage _ (law_ok _ (proj1 Hw)))) as Hmax.
    fold (ps_g st) in Hmax. unfold fits32 in *. lia.
  - exists V'. by eapply simp_result_trans.
Qed.

Lemma simplify_sweep_mono fuel fuel' classMask n changed st r :
  (fuel <= fuel')%nat -> simplify_sweep fuel classMask n changed st = Some r ->
  simplify_sweep fuel' classMask n changed st = Some r.
Proof.
  revert fuel' n changed st. induction fuel as [|fuel IH]; intros [|fuel'] n changed st Hle; try done;
    [lia|]. cbn [simplify_sweep]. destruct (n <? nodeCount (ps_g st)); [|done].
  destruct (b_exceeded (ps_b st)); [done|].
  destruct (simplify_visit classMask n st) as [[c st1]|]; [|done]. apply IH. lia.
Qed.

Lemma simplify_sweeps_mono sweeps fuel fuel' classMask st r :
  (fuel <= fuel')%nat -> simplify_sweeps sweeps fuel classMask st = Some r ->
  simplify_sweeps sweeps fuel' classMask st = Some r.
Proof.
  intros Hle. revert st. induction sweeps as [|sweeps IH]; intros st; [done|]. cbn [simplify_sweeps].
  destruct (simplify_sweep fuel classMask 0 false st) as [[c st1]|] eqn:Hs; [|done].
  rewrite (simplify_sweep_mono _ _ _ _ _ _ _ Hle Hs). destruct c; [apply IH|done].
Qed.

Lemma simplify_sweeps_total pick W classMask sweeps st V :
  simp_ok W st -> java_values pick V (ps_g st) ->
  exists fuel st', simplify_sweeps sweeps fuel classMask st = Some st' /\
    exists V', simp_result pick W V V' st st'.
Proof.
  revert st V. induction sweeps as [|sweeps IH]; intros st V Hok HV.
  { exists O, st. split; [done|]. exists V. by apply simp_result_refl. }
  destruct (simplify_sweep_total pick W classMask _ _ 0 false st V Hok HV (le_n _) (le_n _))
    as (f1 & c & st1 & H1 & V1 & R1).
  destruct c.
  - destruct (IH st1 V1 (sr_ok _ _ _ _ _ _ R1) (sr_values _ _ _ _ _ _ R1))
      as (f2 & st' & H2 & V' & R2).
    exists (Nat.max f1 f2), st'. split; [|exists V'; by eapply simp_result_trans].
    cbn [simplify_sweeps].
    rewrite (simplify_sweep_mono f1 (Nat.max f1 f2) _ _ _ _ _ (Nat.le_max_l _ _) H1).
    exact (simplify_sweeps_mono _ f2 _ _ _ _ (Nat.le_max_r _ _) H2).
  - exists f1, st1. split; [|by exists V1]. cbn [simplify_sweeps]. by rewrite H1.
Qed.

(** C15: the simplify engine, with any mask of its rule classes, returns on every
    graph that obeys the tombstone law and in which no value is computed from
    itself, and changes no value. Take any assignment [V] of Java values to nodes
    that agrees with the specification of every live node (a Phi takes the input
    that [pick] chooses): the law and the acyclicity still hold, [V] extends to an
    assignment that agrees with the new graph, every surviving node is the same
    record and reads operands with the same values (those of a commutative
    operation possibly exchanged), and only arithmetic, test and Phi nodes are
    gone. *)
Theorem runSimplify_preserves_values pick V W classMask st :
  simp_ok W st -> java_values pick V (ps_g st) ->
  exists fuel0 st' V',
    (forall fuel, (fuel0 <= fuel)%nat -> runSimplify fuel classMask st = Some st') /\
    world_ok (ps_world st') /\ acyclic (ps_g st') /\ java_values pick V' (ps_g st') /\
    simplified V V' (ps_g st) (ps_g st').
Proof.
  intros Hok HV.
  destruct (simplify_sweeps_total pick W classMask (N.to_nat kMaxSimplifySweeps) st V Hok HV)
    as (fuel & st' & Hs & V' & [R1 R2 R3 _]).
  exists fuel, st', V'. split; [|split; [apply R1|split; [apply R1|split; [exact R2|exact R3]]]].
  intros fuel' Hle. exact (simplify_sweeps_mono _ _ _ _ _ _ Hle Hs).
Qed.

Definition simplify_state : pass_state :=
  mkPass (pass_example, newJunk) noTelemetry (mkBudget 10 0 false).

Definition example_values (n : NodeId) : jval :=
  match n with 1 => JI 1 | 2 => JI 2 | 3 => JI 3 | 4 => JI 3 | _ => JState 0 end.

Lemma example_java_values : java_values (fun _ => 1) example_values (ps_g simplify_state).
Proof.
  assert (Forall (node_values (fun _ => 1) example_values (ps_g simplify_state)) [0; 1; 2; 3; 4; 5])
    as Hall.
  { repeat (apply Forall_cons; split); [..|apply Forall_nil; exact I];
      vm_compute; intuition (discriminate || congruence). }
  intros n [Hn _]. rewrite Forall_forall in Hall. apply Hall.
  assert (vlen (nodes_ (ps_g simplify_state)) = 6) as Hc by (vm_compute; reflexivity).
  rewrite Hc in Hn. rewrite !elem_of_cons. lia.
Qed.

(** A test for acyclicity: values are computed from nodes of smaller id. *)
Definition acyclic_check (g : Graph) : bool :=
  forallb (fun n => negb (data_kind (nd_kind (node g n))) ||
    forallb (fun s => input g n s <? n) (indices (numInputs g n))) (indices (vlen (nodes_ g))).

Lemma acyclic_check_sound g : acyclic_check g = true -> acyclic g.
Proof.
  intros Hall m. induction (N.lt_wf_0 m) as [m _ IH]. constructor.
  intros y (_ & Hk & s & [Hm Hs] & <- & _). apply IH. unfold acyclic_check in Hall.
  rewrite forallb_forall in Hall.
  specialize (Hall m ltac:(by apply list_elem_of_In, elem_of_indices)). rewrite Hk in Hall.
  cbn [negb orb] in Hall. rewrite forallb_forall in Hall.
  apply N.ltb_lt, Hall. by apply list_elem_of_In, elem_of_indices.
Qed.

Lemma example_simp_ok : simp_ok 2 simplify_state.
Proof.
  split.
  - apply example_world_ok.
  - apply acyclic_check_sound. vm_compute. reflexivity.
  - intros m [Hm _] _. revert m Hm. apply example_width.
  - lia.
  - reflexivity.
  - intros _. split_and!; vm_compute; reflexivity.
Qed.

Lemma runSimplify_mono fuel fuel' classMask st r :
  (fuel <= fuel')%nat -> runSimplify fuel classMask st = Some r ->
  runSimplify fuel' classMask st = Some r.
Proof. apply simplify_sweeps_mono. Qed.

Lemma example_run :
  exists st, runSimplify 20 31 simplify_state = Some st /\
    constOf (ps_g st) (input (ps_g st) 5 1) = constOfI 3.
Proof.
  assert (match runSimplify 20 31 simplify_state with
    | Some s => bool_decide (constOf (ps_g s) (input (ps_g s) 5 1) = constOfI 3)
    | None => false end = true) as Hd by (vm_compute; reflexivity).
  revert Hd. generalize (runSimplify 20 31 simplify_state). intros [st|] Hd; [|discriminate Hd].
  exists st. split; [reflexivity|]. by apply bool_decide_eq_true_1 in Hd.
Qed.

(** Both sums fold, and the returned value is the constant 3. *)
Lemma runSimplify_preserves_values_witness :
  exists fuel0 st' V',
    (forall fuel, (fuel0 <= fuel)%nat -> runSimplify fuel 31 simplify_state = Some st') /\
    java_values (fun _ => 1) V' (ps_g st') /\
    simplified example_values V' (ps_g simplify_state) (ps_g st') /\
    constOf (ps_g st') (input (ps_g st') 5 1) = constOfI 3.
Proof.
  destruct (runSimplify_preserves_values (fun _ => 1) example_values 2 31 simplify_state
    example_simp_ok example_java_values) as (f & st' & V' & Hrun & _ & _ & HV & Hsm).
  exists f, st', V'. split; [exact Hrun|]. split; [exact HV|]. split; [exact Hsm|].
  destruct example_run as (st0 & H0 & Hd).
  apply (runSimplify_mono 20 (Nat.max 20 f)) in H0; [|apply Nat.le_max_l].
  rewrite (Hrun (Nat.max 20 f)) in H0 by apply Nat.le_max_r. injection H0 as <-. exact Hd.
Defined.

(** ** A phi that becomes its own input *)

Lemma resultTypeOf_self g p s fuel :
  has_slot g p s -> 1 <= s -> nd_kind (node g p) = NodeKind.Phi -> input g p s = p ->
  resultTypeOf fuel g p = None.
Proof.
  intros Hs H1 Hk Hin. induction fuel as [|fuel IH]; [done|].
  destruct (resultTypeOf (S fuel) g p) eqn:Hr; [|done]. exfalso.
  assert (is_Some (resultTypeOf (S fuel) g p)) as Hsome by (rewrite Hr; by eexists).
  rewrite resultTypeOf_Some in Hsome. destruct (Hsome p) as [t Ht]; [|by rewrite IH in Ht].
  apply type_calls_spec. exists s. split_and!; [done|done|by right].
Qed.

(** C37: an identity on a loop phi does not return. When [n] reads the Phi [p] in
    its first slot, a data slot, and [p] has [n] as a value input (a loop variable
    [x = x + 0]), [replace] rewires the phi onto itself before it moves the edges
    of [n] to sinks; choosing the sink asks for the type of [p], and that recursion
    never ends, whatever the fuel. *)
Theorem replace_by_reader_diverges st n p s :
  reachable (ps_g st) -> can_replace (ps_g st) n p ->
  b_exceeded (ps_b st) = false -> b_used (ps_b st) < b_limit (ps_b st) ->
  u32 (epoch_ (ps_g st) + 1) <> 0 ->
  nd_kind (node (ps_g st) p) = NodeKind.Phi -> 1 <= s -> has_slot (ps_g st) p s ->
  input (ps_g st) p s = n ->
  nd_kind (node (ps_g st) n) <> NodeKind.Phi -> has_slot (ps_g st) n 0 ->
  roleOfSlot (ps_g st) n 0 = InputRole.Data -> input (ps_g st) n 0 = p ->
  p <> startNode (ps_g st) ->
  (forall fuel, resultTypeOf fuel (snd (replaceNode (ps_g st) n p)) p = None) /\
  replace n p st = None.
Proof.
  set (g := ps_g st). intros [Hok Hc]%reachable_ok Hcan Hex Hlt He Hkp H1 Hps Hpn Hkn Hn0 Hrole Hnp Hst.
  pose proof Hcan as (Hn & Hp & Hne & Hpd).
  pose proof (replaceNode_side g n p Hok Hcan) as (Hstart & _).
  pose proof (replaceNode_numInputs g n p Hok Hcan) as Hnum.
  pose proof (fun m => replaceNode_kind g n p m Hok Hcan) as Hkind.
  pose proof (fun m t => replaceNode_input g n p Hok Hcan m t) as Hin.
  assert (fst (replaceNode g n p) <> 0) as e_ok by (by rewrite replaceNode_eq by done).
  unfold replace, charge. fold g. rewrite Hex. cbn [orb].
  destruct (N.leb_spec (b_limit (ps_b st)) (b_used (ps_b st))); [lia|]. cbn [negb].
  destruct (replaceNode g n p) as [e g1]. cbn [fst snd] in *.
  assert (forall fuel, resultTypeOf fuel g1 p = None) as Hdiv.
  { intros fuel. apply (resultTypeOf_self g1 p s).
    - by rewrite has_slot_iff, Hnum, <- has_slot_iff.
    - done.
    - by rewrite Hkind.
    - rewrite Hin by done. by rewrite decide_True. }
  split; [exact Hdiv|]. apply N.eqb_neq in e_ok. rewrite e_ok. cbn [negb].
  unfold junkEdges, padPhi. cbn [fst]. rewrite Hkind.
  destruct (kind_eqb (nd_kind (node g n)) NodeKind.Phi) eqn:Hk; [by apply kind_eqb_spec in Hk|].
  cbn [andb fst]. assert (exists l, indices (numInputs g1 n) = 0 :: l) as [l ->].
  { apply has_slot_iff in Hn0. rewrite <- Hnum in Hn0. unfold indices.
    destruct (N.to_nat (numInputs g1 n)) eqn:Hz; [lia|]. by eexists. }
  rewrite ofor_cons. enough (junkSlot n 0 (g1, ps_jk st) = None) as -> by done.
  unfold junkSlot. cbn [fst]. rewrite (Hin n 0 Hn0), Hnp.
  rewrite decide_False by congruence.
  rewrite Hstart. destruct (N.eqb_spec p (startNode g)) as [|_]; [done|].
  destruct (N.eqb_spec p n) as [|_]; [congruence|]. cbn [orb].
  unfold junkForSlot. cbn [fst]. fold (numInputs g1 n). rewrite Hnum, Hkind, Hk.
  destruct (N.leb_spec (numInputs g n) 0) as [Hz|_]; [apply has_slot_iff in Hn0; lia|]. cbn [andb].
  assert (roleOfSlot g1 n 0 = InputRole.Data) as ->.
  { rewrite <- Hrole. unfold roleOfSlot. rewrite Hkind. fold (numInputs g1 n).
    by rewrite Hnum. }
  rewrite (Hin n 0 Hn0), Hnp, decide_False by congruence. unfold typeOf. by rewrite Hdiv.
Qed.

(** [x = 0; for (;;) x = x + 0;] *)
Definition loop_example : Graph :=
  let '(c0, g) := constantI newGraph 0 in
  let '(lb, g) := make g NodeKind.LoopBegin [startNode g; startNode g] 0 0 in
  let '(p, g) := make g NodeKind.Phi [lb; c0; c0] 0 0 in
  let '(a, g) := make g NodeKind.AddI [p; c0] 0 0 in
  setInput g p 2 a.

Definition loop_state : pass_state :=
  mkPass (loop_example, newJunk) noTelemetry (mkBudget 100 0 false).

Lemma loop_reachable : reachable (ps_g loop_state).
Proof.
  unfold reachable.
  eapply rtc_l. { apply (step_make _ NodeKind.ConstantI [] 0 0 0%Z); vm_compute; repeat constructor. }
  eapply rtc_l. { apply (step_make _ NodeKind.LoopBegin [0; 0] 0 0 0%Z);
    vm_compute; repeat constructor; discriminate. }
  eapply rtc_l. { apply (step_make _ NodeKind.Phi [2; 1; 1] 0 0 0%Z);
    vm_compute; repeat constructor; discriminate. }
  eapply rtc_l. { apply (step_make _ NodeKind.AddI [3; 1] 0 0 0%Z);
    vm_compute; repeat constructor; discriminate. }
  apply rtc_once. apply (step_setInput _ 3 2 4). vm_compute. reflexivity.
Qed.

(** The whole pass on the loop: identity removal never returns. *)
Lemma loop_example_diverges fuel : runSimplify fuel kIdentity loop_state = None.
Proof. do 5 (destruct fuel as [|fuel]; [reflexivity|]). vm_compute. reflexivity. Qed.

Lemma replace_by_reader_diverges_witness :
  (forall fuel, resultTypeOf fuel (snd (replaceNode (ps_g loop_state) 4 3)) 3 = None) /\
  replace 4 3 loop_state = None /\
  forall fuel, runSimplify fuel kIdentity loop_state = None.
Proof.
  destruct (replace_by_reader_diverges loop_state 4 3 2 loop_reachable) as [H1 H2].
  - split; [vm_compute; reflexivity|]. split; [vm_compute; reflexivity|].
    split; [discriminate|vm_compute; reflexivity].
  - reflexivity.
  - reflexivity.
  - vm_compute. discriminate.
  - vm_compute. reflexivity.
  - vm_compute. discriminate.
  - apply has_slot_iff. vm_compute. reflexivity.
  - vm_compute. reflexivity.
  - vm_compute. discriminate.
  - apply has_slot_iff. vm_compute. reflexivity.
  - vm_compute. reflexivity.
  - vm_compute. reflexivity.
  - vm_compute. discriminate.
  - split; [exact H1|]. split; [exact H2|]. exact loop_example_diverges.
Defined.
