(* ===== verification/SCCP.v ===== *)
(** * Sparse conditional constant propagation

    compiler/passes/src/SCCP.cpp: the value lattice, the seeding of values and
    control, the two worklists, the completion rule and the apply phase. The
    graph does not change while values propagate, so it is an argument of the
    propagation; the record [Sccp] is the rest of the struct. *)

From S2P Require Import Prelude IRTypes Effect NodeInfo SmallVector Graph GraphInv.
From S2P Require Import ResultType PassSupport Machine JavaSem ConstFold.

Local Open Scope N_scope.

(** ** The lattice *)

Module LV.
Inductive t := Top | Const | Bot.
Definition code (v : t) : N := match v with Top => 0 | Const => 1 | Bot => 2 end.
#[global] Instance eq_dec : EqDecision t.
Proof. solve_decision. Defined.
End LV.

Record LatVal := mkLat { lv : LV.t; lc : ConstVal }.

#[export] Instance LatVal_eq_dec : EqDecision LatVal.
Proof. solve_decision. Defined.

Definition topLat : LatVal := mkLat LV.Top noConst.
Definition constLat (c : ConstVal) : LatVal := mkLat LV.Const c.
Definition botLat : LatVal := mkLat LV.Bot noConst.

Definition sameConst (c o : ConstVal) : bool :=
  bool_decide (flavor c = flavor o) &&
  match flavor c with
  | CV.I => (cv_i c =? cv_i o)%Z
  | CV.L => (cv_l c =? cv_l o)%Z
  | CV.F => (cv_fb c =? cv_fb o)%Z
  | CV.D => (cv_db c =? cv_db o)%Z
  | CV.Null => true
  | CV.None => false
  end.

Definition meet (a b : LatVal) : LatVal :=
  match lv a, lv b with
  | LV.Top, _ => b
  | _, LV.Top => a
  | LV.Bot, _ | _, LV.Bot => botLat
  | LV.Const, LV.Const => if sameConst (lc a) (lc b) then a else botLat
  end.

(** ** Kinds *)

Definition isUnaryEvalK (k : NodeKind) : bool :=
  match k with
  | NodeKind.NegI | NodeKind.Not | NodeKind.NegL | NodeKind.NegF | NodeKind.NegD
  | NodeKind.I2L | NodeKind.L2I | NodeKind.I2B | NodeKind.I2C | NodeKind.I2S
  | NodeKind.I2F | NodeKind.I2D | NodeKind.L2F | NodeKind.L2D | NodeKind.F2I
  | NodeKind.F2L | NodeKind.F2D | NodeKind.D2I | NodeKind.D2L | NodeKind.D2F => true
  | _ => false
  end.

Definition isBinaryEvalK (k : NodeKind) : bool :=
  match k with
  | NodeKind.AddI | NodeKind.SubI | NodeKind.MulI | NodeKind.DivI | NodeKind.RemI
  | NodeKind.ShlI | NodeKind.ShrI | NodeKind.UShrI
  | NodeKind.AndI | NodeKind.OrI | NodeKind.XorI
  | NodeKind.AddL | NodeKind.SubL | NodeKind.MulL | NodeKind.DivL | NodeKind.RemL
  | NodeKind.ShlL | NodeKind.ShrL | NodeKind.UShrL
  | NodeKind.AndL | NodeKind.OrL | NodeKind.XorL
  | NodeKind.AddF | NodeKind.SubF | NodeKind.MulF | NodeKind.DivF | NodeKind.RemF
  | NodeKind.AddD | NodeKind.SubD | NodeKind.MulD | NodeKind.DivD | NodeKind.RemD
  | NodeKind.CmpI | NodeKind.CmpL
  | NodeKind.CmpFl | NodeKind.CmpFg | NodeKind.CmpDl | NodeKind.CmpDg
  | NodeKind.EqI | NodeKind.NeI
  | NodeKind.LtI | NodeKind.LeI | NodeKind.GtI | NodeKind.GeI => true
  | _ => false
  end.

Definition isEvalK (k : NodeKind) : bool :=
  isUnaryEvalK k || isBinaryEvalK k || kind_eqb k NodeKind.IsNull ||
  kind_eqb k NodeKind.RefEq || kind_eqb k NodeKind.InstanceOf.

Definition isRegionLikeK (k : NodeKind) : bool :=
  kind_eqb k NodeKind.Region || kind_eqb k NodeKind.LoopBegin.

Definition isSccpReplaceableK (k : NodeKind) : bool :=
  isEvalK k || kind_eqb k NodeKind.Phi.

(** ** The propagation state *)

Record Sccp := mkSccp {
  s_val : list LatVal; s_exec : list bool;
  s_cfgQ : list NodeId; s_ssaQ : list NodeId; s_cfgHead : N; s_ssaHead : N;
  s_inCfg : list bool; s_inSsa : list bool; s_b : Budget
}.

Definition newSccp (g : Graph) (b : Budget) : Sccp :=
  let c := N.to_nat (nodeCount g) in
  mkSccp (replicate c topLat) (replicate c false) [] [] 0 0
    (replicate c false) (replicate c false) b.

Definition set_val (s : Sccp) (n : NodeId) (v : LatVal) : Sccp :=
  mkSccp (vset (s_val s) n v) (s_exec s) (s_cfgQ s) (s_ssaQ s) (s_cfgHead s)
    (s_ssaHead s) (s_inCfg s) (s_inSsa s) (s_b s).
Definition set_exec (s : Sccp) (n : NodeId) : Sccp :=
  mkSccp (s_val s) (vset (s_exec s) n true) (s_cfgQ s) (s_ssaQ s) (s_cfgHead s)
    (s_ssaHead s) (s_inCfg s) (s_inSsa s) (s_b s).
Definition set_budget (s : Sccp) (b : Budget) : Sccp :=
  mkSccp (s_val s) (s_exec s) (s_cfgQ s) (s_ssaQ s) (s_cfgHead s)
    (s_ssaHead s) (s_inCfg s) (s_inSsa s) b.

(** [live(n)] of the struct. *)
Definition sccp_live (g : Graph) (n : NodeId) : bool :=
  (n <? nodeCount g) && negb (isDead (node g n)).

Definition valAt (g : Graph) (s : Sccp) (n : NodeId) : LatVal :=
  if nodeCount g <=? n then botLat else default topLat (vget (s_val s) n).

Definition flagAt (l : list bool) (n : NodeId) : bool := default false (vget l n).

Definition pushCfg (g : Graph) (n : NodeId) (s : Sccp) : Sccp :=
  if negb (sccp_live g n) || (vlen (s_inCfg s) <=? n) || flagAt (s_inCfg s) n then s
  else mkSccp (s_val s) (s_exec s) (s_cfgQ s ++ [n]) (s_ssaQ s) (s_cfgHead s)
         (s_ssaHead s) (vset (s_inCfg s) n true) (s_inSsa s) (s_b s).

Definition pushSsa (g : Graph) (n : NodeId) (s : Sccp) : Sccp :=
  if negb (sccp_live g n) || (vlen (s_inSsa s) <=? n) || flagAt (s_inSsa s) n then s
  else mkSccp (s_val s) (s_exec s) (s_cfgQ s) (s_ssaQ s ++ [n]) (s_cfgHead s)
         (s_ssaHead s) (s_inCfg s) (vset (s_inSsa s) n true) (s_b s).

(** ** Control *)

Definition markCtrlUser (g : Graph) (u : NodeId) (s : Sccp) : Sccp :=
  if negb (sccp_live g u) then s
  else if isRegionLikeK (nd_kind (node g u)) then
    pushCfg g u (if u <? vlen (s_exec s) then set_exec s u else s)
  else if (u <? vlen (s_exec s)) && negb (flagAt (s_exec s) u)
  then pushCfg g u (set_exec s u)
  else s.

Definition is_control_role (r : InputRole) : bool :=
  match r with InputRole.Ctrl | InputRole.Parent => true | _ => false end.

(** One use in [propagateCtrlUsers]. *)
Definition ctrl_use (g : Graph) (n : NodeId) (s : Sccp) (u : Use) : Sccp :=
  if negb (sccp_live g (u_user u)) then s
  else if (nd_numInputs (node g (u_user u)) <=? u_slot u) ||
          negb (input g (u_user u) (u_slot u) =? n) then s
  else if is_control_role (roleOfSlot g (u_user u) (u_slot u))
  then markCtrlUser g (u_user u) s
  else s.

Definition propagateCtrlUsers (g : Graph) (n : NodeId) (s : Sccp) : Sccp :=
  foldl (ctrl_use g n) s (usesOf g n).

(** A use that is a projection of kind [want]. *)
Definition is_projection (g : Graph) (want : NodeKind) (u : Use) : bool :=
  (u_slot u =? 0) && sccp_live g (u_user u) && kind_eqb (nd_kind (node g (u_user u))) want.

Definition projectionOf (g : Graph) (iff : NodeId) (want : NodeKind) : NodeId :=
  match List.find (is_projection g want) (usesOf g iff) with
  | Some u => u_user u
  | None => kInvalidNodeId
  end.

Definition markProjection (g : Graph) (iff : NodeId) (want : NodeKind) (s : Sccp) : Sccp :=
  let p := projectionOf g iff want in
  if negb (p =? kInvalidNodeId) then markCtrlUser g p s else s.

Definition switch_use (g : Graph) (s : Sccp) (u : Use) : Sccp :=
  if is_projection g NodeKind.SwitchCase u || is_projection g NodeKind.SwitchDefault u
  then markCtrlUser g (u_user u) s else s.

Definition phi_use (g : Graph) (s : Sccp) (u : Use) : Sccp :=
  if is_projection g NodeKind.Phi u then pushSsa g (u_user u) s else s.

Definition is_int (c : ConstVal) : bool := bool_decide (flavor c = CV.I).

Definition processIf (g : Graph) (n : NodeId) (s : Sccp) : Sccp :=
  if nd_numInputs (node g n) <? 2 then s
  else
    let cond := valAt g s (input g n 1) in
    match lv cond with
    | LV.Top => s
    | _ =>
        if bool_decide (lv cond = LV.Const) && is_int (lc cond)
        then markProjection g n (if negb (cv_i (lc cond) =? 0)%Z
                                 then NodeKind.IfTrue else NodeKind.IfFalse) s
        else markProjection g n NodeKind.IfFalse (markProjection g n NodeKind.IfTrue s)
    end.

Definition processGuard (g : Graph) (n : NodeId) (s : Sccp) : Sccp :=
  if nd_numInputs (node g n) <? 2 then s
  else
    let cond := valAt g s (input g n 1) in
    match lv cond with
    | LV.Top => s
    | _ =>
        if bool_decide (lv cond = LV.Const) && is_int (lc cond) && (cv_i (lc cond) =? 0)%Z
        then s else propagateCtrlUsers g n s
    end.

Definition processCfg (g : Graph) (n : NodeId) (s : Sccp) : Sccp :=
  if negb (sccp_live g n) || (vlen (s_exec s) <=? n) || negb (flagAt (s_exec s) n) then s
  else
    match nd_kind (node g n) with
    | NodeKind.If => processIf g n s
    | NodeKind.Switch => foldl (switch_use g) s (usesOf g n)
    | NodeKind.Guard => processGuard g n s
    | NodeKind.Region | NodeKind.LoopBegin =>
        propagateCtrlUsers g n (foldl (phi_use g) s (usesOf g n))
    | NodeKind.Return | NodeKind.Unwind | NodeKind.Deopt | NodeKind.End => s
    | _ => propagateCtrlUsers g n s
    end.

(** ** Values *)

Definition operand (g : Graph) (s : Sccp) (n : NodeId) (slot : N) : LatVal :=
  if nd_numInputs (node g n) <=? slot then botLat else valAt g s (input g n slot).

Definition inputOf (g : Graph) (n : NodeId) (slot : N) : NodeId :=
  if slot <? nd_numInputs (node g n) then input g n slot else kInvalidNodeId.

(** The region inputs from the [j]s on. *)
Fixpoint phi_meet (g : Graph) (s : Sccp) (n region : NodeId) (js : list N) (acc : LatVal)
    : LatVal :=
  match js with
  | [] => acc
  | j :: js =>
      let pred := input g region j in
      if negb (sccp_live g pred) || (vlen (s_exec s) <=? pred) || negb (flagAt (s_exec s) pred)
      then phi_meet g s n region js acc
      else if nd_numInputs (node g n) <=? j + 1 then botLat
      else phi_meet g s n region js (meet acc (valAt g s (input g n (u16 (j + 1)))))
  end.

Definition evalPhi (g : Graph) (s : Sccp) (n : NodeId) : LatVal :=
  let region := inputOf g n 0 in
  if negb (sccp_live g region) || negb (isRegionLikeK (nd_kind (node g region))) then botLat
  else if (vlen (s_exec s) <=? region) || negb (flagAt (s_exec s) region) then topLat
  else phi_meet g s n region (indices (nd_numInputs (node g region))) topLat.

Definition is_null (a : LatVal) : bool :=
  bool_decide (lv a = LV.Const) && bool_decide (flavor (lc a) = CV.Null).

Definition evalRefTest (g : Graph) (s : Sccp) (n : NodeId) (k : NodeKind) : LatVal :=
  let x := inputOf g n 0 in
  let a := operand g s n 0 in
  if is_null a then constLat (constOfI (if kind_eqb k NodeKind.IsNull then 1 else 0))
  else if sccp_live g x && isNeverNullNode g x then constLat (constOfI 0)
  else match lv a with LV.Top => topLat | _ => botLat end.

Definition evalRefEq (g : Graph) (s : Sccp) (n : NodeId) : LatVal :=
  let aIn := inputOf g n 0 in
  let bIn := inputOf g n 1 in
  if negb (aIn =? kInvalidNodeId) && (aIn =? bIn) then constLat (constOfI 1)
  else
    let a := operand g s n 0 in
    let bv := operand g s n 1 in
    if is_null a && is_null bv then constLat (constOfI 1)
    else if (is_null a && sccp_live g bIn && isNeverNullNode g bIn) ||
            (is_null bv && sccp_live g aIn && isNeverNullNode g aIn)
    then constLat (constOfI 0)
    else match lv a, lv bv with
         | LV.Top, _ | _, LV.Top => topLat
         | _, _ => botLat
         end.

Definition foldResult (r : option ConstVal) : LatVal :=
  match r with Some c => constLat c | None => botLat end.

Definition evalNode (g : Graph) (s : Sccp) (n : NodeId) : LatVal :=
  let k := nd_kind (node g n) in
  if kind_eqb k NodeKind.Phi then evalPhi g s n
  else if kind_eqb k NodeKind.IsNull || kind_eqb k NodeKind.InstanceOf then evalRefTest g s n k
  else if kind_eqb k NodeKind.RefEq then evalRefEq g s n
  else if isUnaryEvalK k then
    let a := operand g s n 0 in
    match lv a with
    | LV.Bot => botLat
    | LV.Top => topLat
    | LV.Const => foldResult (evalUnaryOp k (lc a))
    end
  else
    let a := operand g s n 0 in
    let bv := operand g s n 1 in
    match lv a, lv bv with
    | LV.Bot, _ | _, LV.Bot => botLat
    | LV.Top, _ | _, LV.Top => topLat
    | LV.Const, LV.Const => foldResult (evalBinOp k (lc a) (lc bv))
    end.

Definition push_use (g : Graph) (s : Sccp) (u : Use) : Sccp :=
  if negb (sccp_live g (u_user u)) then s
  else
    let uk := nd_kind (node g (u_user u)) in
    if kind_eqb uk NodeKind.If || kind_eqb uk NodeKind.Guard || kind_eqb uk NodeKind.Switch
    then pushCfg g (u_user u) s
    else if isEvalK uk || kind_eqb uk NodeKind.Phi then pushSsa g (u_user u) s
    else s.

Definition pushUsersOf (g : Graph) (n : NodeId) (s : Sccp) : Sccp :=
  foldl (push_use g) s (usesOf g n).

Definition processSsa (g : Graph) (n : NodeId) (s : Sccp) : Sccp :=
  if negb (sccp_live g n) then s
  else
    let k := nd_kind (node g n) in
    if negb (isEvalK k || kind_eqb k NodeKind.Phi) then s
    else
      let nv := evalNode g s n in
      if LV.code (lv (valAt g s n)) <? LV.code (lv nv)
      then pushUsersOf g n (set_val s n nv) else s.

(** ** Draining the worklists *)

Definition popCfg (n : NodeId) (s : Sccp) : Sccp :=
  mkSccp (s_val s) (s_exec s) (s_cfgQ s) (s_ssaQ s) (s_cfgHead s + 1) (s_ssaHead s)
    (if n <? vlen (s_inCfg s) then vset (s_inCfg s) n false else s_inCfg s) (s_inSsa s) (s_b s).
Definition popSsa (n : NodeId) (s : Sccp) : Sccp :=
  mkSccp (s_val s) (s_exec s) (s_cfgQ s) (s_ssaQ s) (s_cfgHead s) (s_ssaHead s + 1)
    (s_inCfg s) (if n <? vlen (s_inSsa s) then vset (s_inSsa s) n false else s_inSsa s) (s_b s).

Fixpoint propagate (fuel : nat) (g : Graph) (s : Sccp) : option Sccp :=
  match fuel with
  | O => None
  | S fuel =>
      if (s_cfgHead s <? vlen (s_cfgQ s)) || (s_ssaHead s <? vlen (s_ssaQ s)) then
        let '(ok, b) := charge (s_b s) in
        let s := set_budget s b in
        if negb ok then Some s
        else
          match vget (s_cfgQ s) (s_cfgHead s) with
          | Some n => propagate fuel g (processCfg g n (popCfg n s))
          | None =>
              match vget (s_ssaQ s) (s_ssaHead s) with
              | Some n => propagate fuel g (processSsa g n (popSsa n s))
              | None => Some s
              end
          end
      else Some s
  end.

(** One node of the completion sweep. *)
Definition complete_node (g : Graph) (fs : bool * Sccp) (n : NodeId) : bool * Sccp :=
  let '(forced, s) := fs in
  if negb (sccp_live g n) || negb (bool_decide (lv (valAt g s n) = LV.Top)) then fs
  else
    let k := nd_kind (node g n) in
    if negb (isEvalK k || kind_eqb k NodeKind.Phi) then fs
    else if liveUseCount g n =? 0 then fs
    else (true, pushUsersOf g n (set_val s n botLat)).

Definition complete (g : Graph) (s : Sccp) : bool * Sccp :=
  foldl (complete_node g) (false, s) (indices (nodeCount g)).

(** [while (s.complete()) { s.propagate(); if (b.exceeded) return; }] *)
Fixpoint stabilize (fuel pfuel : nat) (g : Graph) (s : Sccp) : option Sccp :=
  match fuel with
  | O => None
  | S fuel =>
      let '(forced, s) := complete g s in
      if negb forced then Some s
      else
        match propagate pfuel g s with
        | None => None
        | Some s => if b_exceeded (s_b s) then Some s else stabilize fuel pfuel g s
        end
  end.

(** ** Seeding *)

Definition seed_node (g : Graph) (s : Sccp) (n : NodeId) : Sccp :=
  let nd := node g n in
  if isDead nd then s
  else
    let k := nd_kind nd in
    if kind_eqb k NodeKind.ConstantI || kind_eqb k NodeKind.ConstantL ||
       kind_eqb k NodeKind.ConstantF || kind_eqb k NodeKind.ConstantD ||
       kind_eqb k NodeKind.ConstantNull
    then set_val s n (constLat (constOf g n))
    else if n =? startNode g then
      pushCfg g n (if n <? vlen (s_exec s) then set_exec s n else s)
    else if isEvalK k || kind_eqb k NodeKind.Phi then pushSsa g n (set_val s n topLat)
    else set_val s n botLat.

Definition seed (g : Graph) (b : Budget) : Sccp :=
  foldl (seed_node g) (newSccp g b) (indices (nodeCount g)).

(** The fixpoint, before any rewrite. *)
Definition analyse (fuel pfuel : nat) (g : Graph) (b : Budget) : option Sccp :=
  match propagate pfuel g (seed g b) with
  | None => None
  | Some s => if b_exceeded (s_b s) then Some s else stabilize fuel pfuel g s
  end.

(** ** Applying the constants *)

(** Each call pushes a Phi that is not on the path, so the depth is bounded by
    the number of nodes. *)
Fixpoint typeOfNoCycle (fuel : nat) (g : Graph) (n : NodeId) (onPath : list NodeId)
    : option IRType :=
  match fuel with
  | O => None
  | S fuel =>
      if negb (kind_eqb (nd_kind (node g n)) NodeKind.Phi) then typeOf g n
      else if existsb (fun p => p =? n) onPath then Some IRType.Bottom
      else
        let onPath := onPath ++ [n] in
        let arm (acc : option (bool * IRType)) (s : N) : option (bool * IRType) :=
          match acc with
          | None => None
          | Some (seen, t) =>
              if existsb (fun p => p =? input g n s) onPath then acc
              else match typeOfNoCycle fuel g (input g n s) onPath with
                   | None => None
                   | Some v => Some (true, if seen : bool then join t v else v)
                   end
          end in
        match foldl arm (Some (false, IRType.Bottom)) (value_slots (nd_numInputs (node g n))) with
        | None => None
        | Some (_, t) => Some t
        end
  end.

Definition flavorType (f : CV.t) : IRType :=
  match f with
  | CV.I => IRType.Int
  | CV.L => IRType.Long
  | CV.F => IRType.Float
  | CV.D => IRType.Double
  | CV.Null => IRType.Null
  | CV.None => IRType.Bottom
  end.

Definition count_sccp (t : PassTelemetry) : PassTelemetry :=
  mkTelemetry (t_rewrites t) (t_removals t) (t_folds t) (t_gvnDedups t)
    (u32 (t_sccpConstants t + 1)) (t_rounds t) (t_budgetOverruns t) (t_peaScalarized t)
    (t_peaMaterialized t) (t_peaRejected t) (t_converged t).

Record ConstKey := mkConstKey {
  ck_flavor : CV.t; ck_i : Z; ck_l : Z; ck_fb : Z; ck_db : Z
}.

#[export] Instance ConstKey_eq_dec : EqDecision ConstKey.
Proof. solve_decision. Defined.

Definition constKeyOf (c : ConstVal) : ConstKey :=
  mkConstKey (flavor c) (cv_i c) (cv_l c) (cv_fb c) (cv_db c).

(** The unordered map is probed and never iterated: an association list whose
    first entry for a key counts. *)
Abbreviation intern_map := (list (ConstKey * NodeId)).

Definition intern_find (m : intern_map) (key : ConstKey) : option NodeId :=
  snd <$> List.find (fun kv => bool_decide (fst kv = key)) m.

(** The node that carries a constant: interned, or made now. *)
Definition intern_const (c : ConstVal) (m : intern_map) (g : Graph)
    : option NodeId * intern_map * Graph :=
  let key := constKeyOf c in
  let fresh := let '(rep, g) := makeConstNode g c in
               if rep =? kInvalidNodeId then (None, m, g) else (Some rep, (key, rep) :: m, g) in
  match intern_find m key with
  | None => fresh
  | Some r => if negb (sccp_live g r) then fresh else (Some r, m, g)
  end.

(** One node of the apply loop, [v] its lattice value. *)
Definition apply_node (val : list LatVal) (n : NodeId) (ms : intern_map * pass_state)
    : option (intern_map * pass_state) :=
  let '(m, st) := ms in
  let g := ps_g st in
  let v := default topLat (vget val n) in
  if b_exceeded (ps_b st) then Some ms
  else if negb (sccp_live g n) || negb (bool_decide (lv v = LV.Const)) then Some ms
  else if negb (isSccpReplaceableK (nd_kind (node g n))) then Some ms
  else
    match typeOfNoCycle (S (S (N.to_nat (nodeCount g)))) g n [] with
    | None => None
    | Some t =>
        if negb (bool_decide (flavorType (flavor (lc v)) = t)) then Some ms
        else
          let '(rep, m, g) := intern_const (lc v) m g in
          match rep with
          | None => Some (m, mkPass (g, ps_jk st) (ps_t st) (ps_b st))
          | Some rep =>
              match replace n rep (mkPass (g, ps_jk st) (ps_t st) (ps_b st)) with
              | None => None
              | Some st' =>
                  Some (m, if negb (t_rewrites (ps_t st') =? t_rewrites (ps_t st))
                           then mkPass (ps_world st') (count_sccp (ps_t st')) (ps_b st')
                           else st')
              end
          end
    end.

Definition apply_consts (val : list LatVal) (st : pass_state) : option pass_state :=
  snd <$> ofor (indices (nodeCount (ps_g st))) (apply_node val) ([], st).

Definition runSCCP (fuel pfuel : nat) (st : pass_state) : option pass_state :=
  match analyse fuel pfuel (ps_g st) (ps_b st) with
  | None => None
  | Some s =>
      let st := mkPass (ps_world st) (ps_t st) (s_b s) in
      if b_exceeded (s_b s) then Some st else apply_consts (s_val s) st
  end.
