(* ===== verification/SccpLattice.v ===== *)
(** * The value lattice of SCCP and its transfer function

    [lle a b]: [a] is at most [b] in the order Bot < constants < Top. The meet is
    the greatest lower bound on the values the pass computes, and evaluating a
    node is monotone: values that descend and edges that become executable only
    lower the result. *)

From Stdlib Require Import SpecFloat.
From S2P Require Import Prelude IRTypes Effect NodeInfo SmallVector Graph GraphInv.
From S2P Require Import ResultType PassSupport Machine JavaSem ConstFold SCCP.

Local Open Scope N_scope.

(** ** Constants in normal form *)

(** A constant that carries its own field only. *)
Definition canon (c : ConstVal) : Prop :=
  (exists z, c = constOfI z) \/ (exists z, c = constOfL z) \/
  (exists z, c = constOfF z) \/ (exists z, c = constOfD z) \/ c = nullConst.

Lemma canon_cval c : canon c -> is_Some (cval c).
Proof. intros [[? ->]|[[? ->]|[[? ->]|[[? ->]| ->]]]]; by eexists. Qed.

Lemma sameConst_eq c o : canon c -> canon o -> sameConst c o = true -> c = o.
Proof.
  intros [[z ->]|[[z ->]|[[z ->]|[[z ->]| ->]]]] [[y ->]|[[y ->]|[[y ->]|[[y ->]| ->]]]];
    intros [Hf%bool_decide_eq_true Hz]%andb_true_iff; try discriminate Hf; try reflexivity;
    apply Z.eqb_eq in Hz; cbn in Hz; by subst.
Qed.

Lemma sameConst_refl c : canon c -> sameConst c c = true.
Proof.
  intros [[z ->]|[[z ->]|[[z ->]|[[z ->]| ->]]]]; unfold sameConst;
    rewrite bool_decide_true by done; cbn; try done; apply Z.eqb_refl.
Qed.

Lemma canon_constOf g n : isConst (constOf g n) = true -> canon (constOf g n).
Proof.
  unfold constOf, canon. destruct (isDead _); [done|].
  destruct (nd_kind _); try done; intros _; eauto 10.
Qed.

Definition numeric (c : ConstVal) : Prop := canon c /\ flavor c <> CV.Null.

Lemma numeric_intro c :
  (exists z, c = constOfI z) \/ (exists z, c = constOfL z) \/
  (exists z, c = constOfF z) \/ (exists z, c = constOfD z) -> numeric c.
Proof. unfold numeric, canon. intros [[z ->]|[[z ->]|[[z ->]|[z ->]]]]; (split; [eauto 10|done]). Qed.

Lemma evalBinOp_numeric k a b c : evalBinOp k a b = Some c -> numeric c.
Proof.
  intros H. apply numeric_intro. revert H. unfold evalBinOp.
  repeat case_match; try discriminate; intros [= <-]; eauto 10.
Qed.

Lemma evalUnaryOp_numeric k a c : evalUnaryOp k a = Some c -> numeric c.
Proof.
  intros H. apply numeric_intro. revert H. unfold evalUnaryOp.
  repeat case_match; try discriminate; intros [= <-]; eauto 10.
Qed.

(** ** The order *)

Definition lle (a b : LatVal) : Prop := a = botLat \/ b = topLat \/ a = b.

Inductive wf_lat : LatVal -> Prop :=
| wf_top : wf_lat topLat
| wf_bot : wf_lat botLat
| wf_const c : canon c -> wf_lat (constLat c).

Create HintDb sccp discriminated.
#[export] Hint Constructors wf_lat : sccp.

Lemma lle_refl a : lle a a.
Proof. by right; right. Qed.

Lemma lle_top a : lle a topLat.
Proof. by right; left. Qed.

Lemma lle_bot a : lle botLat a.
Proof. by left. Qed.

#[export] Hint Resolve lle_refl lle_top lle_bot : sccp.

Lemma lle_trans a b c : lle a b -> lle b c -> lle a c.
Proof. unfold lle. intros [->|[->| ->]] [H|[->| <-]]; auto; discriminate H. Qed.

#[export] Instance lle_preorder : PreOrder lle.
Proof. split; [exact lle_refl|exact lle_trans]. Qed.

Lemma lle_bot_inv a : lle a botLat -> a = botLat.
Proof. by intros [->|[?| ->]]. Qed.

Lemma lle_top_inv a : lle topLat a -> a = topLat.
Proof. by intros [?|[->| <-]]. Qed.

Lemma lle_const_inv a c : lle a (constLat c) -> a = botLat \/ a = constLat c.
Proof. intros [->|[?| ->]]; [by left|done|by right]. Qed.

(** What the test [nv.lv > val.lv] decides. *)
Lemma not_lower a b :
  wf_lat a -> wf_lat b -> a = botLat \/ lle b a ->
  ~ LV.code (lv a) < LV.code (lv b) -> a = botLat \/ a = b.
Proof.
  destruct 1, 1; intros Hl Hlt; cbn in Hlt; auto; try lia;
    destruct Hl as [?|[?|[?|?]]]; try discriminate; auto.
Qed.

Lemma lower a b : wf_lat a -> a = botLat \/ lle b a -> LV.code (lv a) < LV.code (lv b) -> lle b a.
Proof. intros Ha [->|H] Hlt; [|done]. destruct b as [[]]; cbn in Hlt; lia. Qed.

(** ** The meet *)

Lemma meet_top_l b : meet topLat b = b.
Proof. done. Qed.

Lemma meet_top_r a : wf_lat a -> meet a topLat = a.
Proof. by destruct 1. Qed.

Lemma meet_bot_l b : wf_lat b -> meet botLat b = botLat.
Proof. by destruct 1. Qed.

Lemma meet_bot_r a : wf_lat a -> meet a botLat = botLat.
Proof. by destruct 1. Qed.

Lemma meet_const c d :
  meet (constLat c) (constLat d) = if sameConst c d then constLat c else botLat.
Proof. done. Qed.

Lemma meet_wf a b : wf_lat a -> wf_lat b -> wf_lat (meet a b).
Proof.
  destruct 1; destruct 1; cbn; auto with sccp.
  destruct (sameConst _ _); auto with sccp.
Qed.

Lemma meet_lower a b : wf_lat a -> wf_lat b -> lle (meet a b) a /\ lle (meet a b) b.
Proof.
  intros [| |c Hc] [| |d Hd]; cbn; auto with sccp.
  destruct (sameConst c d) eqn:He; [|auto with sccp].
  apply sameConst_eq in He as ->; auto with sccp.
Qed.

Lemma meet_greatest x a b : wf_lat a -> wf_lat b -> lle x a -> lle x b -> lle x (meet a b).
Proof.
  intros [| |c Hc] [| |d Hd]; cbn; auto with sccp.
  intros [->|H1]%lle_const_inv H2; [apply lle_bot|]. subst x.
  apply lle_const_inv in H2 as [?|[= ->]]; [done|].
  rewrite sameConst_refl by done. apply lle_refl.
Qed.

Lemma meet_mono a a' b b' :
  wf_lat a -> wf_lat a' -> wf_lat b -> wf_lat b' ->
  lle a' a -> lle b' b -> lle (meet a' b') (meet a b).
Proof.
  intros Ha Ha' Hb Hb' H1 H2. destruct (meet_lower a' b' Ha' Hb').
  apply meet_greatest; [done|done|by trans a'|by trans b'].
Qed.

#[export] Hint Resolve meet_wf : sccp.

(** ** Reading a state *)

Abbreviation execAt s n := (flagAt (s_exec s) n).

(** [s'] has at most the values of [s] and at least its executable control. *)
Record desc (g : Graph) (s s' : Sccp) : Prop := {
  de_val : forall n, lle (valAt g s' n) (valAt g s n);
  de_exec : forall n, execAt s n = true -> execAt s' n = true
}.

Record wf_state (g : Graph) (s : Sccp) : Prop := {
  ws_val : vlen (s_val s) = vlen (nodes_ g);
  ws_exec : vlen (s_exec s) = vlen (nodes_ g);
  ws_inCfg : vlen (s_inCfg s) = vlen (nodes_ g);
  ws_inSsa : vlen (s_inSsa s) = vlen (nodes_ g);
  ws_wf : forall n, wf_lat (valAt g s n)
}.

(** A node known not to be null has no lattice value of its own. *)
Definition null_apart (g : Graph) (s : Sccp) : Prop :=
  forall n, isNeverNullNode g n = true -> valAt g s n = botLat.

Lemma flagAt_lt l n : flagAt l n = true -> n < vlen l.
Proof.
  unfold flagAt. intros H. apply vget_lt_is_Some. destruct (vget l n); [by eexists|done].
Qed.

Lemma flagAt_vset l n b m :
  flagAt (vset l n b) m = if decide (n = m /\ n < vlen l) then b else flagAt l m.
Proof. unfold flagAt. rewrite vget_vset. by case_decide. Qed.

Lemma flagAt_set l n m : n < vlen l -> flagAt (vset l n true) m = (n =? m) || flagAt l m.
Proof.
  intros Hn. rewrite flagAt_vset. destruct (N.eqb_spec n m); case_decide; try done; tauto.
Qed.

Section Eval.
Context (g : Graph).

Lemma operand_wf s n slot : wf_state g s -> wf_lat (operand g s n slot).
Proof. intros Hw. unfold operand. destruct (_ <=? _); [constructor|apply Hw]. Qed.

Lemma operand_desc s s' n slot : desc g s s' -> lle (operand g s' n slot) (operand g s n slot).
Proof. intros Hd. unfold operand. destruct (_ <=? _); [apply lle_refl|apply Hd]. Qed.

Lemma foldResult_wf r : (forall c, r = Some c -> numeric c) -> wf_lat (foldResult r).
Proof. destruct r as [c|]; cbn; [|constructor]. intros H. constructor. by apply H. Qed.

Lemma canon_I z : canon (constOfI z).
Proof. left. by eexists. Qed.
Hint Resolve canon_I : sccp.

Lemma phi_meet_wf s n r js acc :
  wf_state g s -> wf_lat acc -> wf_lat (phi_meet g s n r js acc).
Proof.
  intros Hw. revert acc. induction js as [|j js IH]; intros acc Ha; [done|]. cbn [phi_meet].
  destruct (_ || _); [by apply IH|]. destruct (_ <=? _); [constructor|].
  apply IH, meet_wf; [done|apply Hw].
Qed.

Lemma evalNode_wf s n : wf_state g s -> wf_lat (evalNode g s n).
Proof.
  intros Hw. unfold evalNode, evalPhi, evalRefTest, evalRefEq.
  repeat case_match; auto with sccp.
  - apply phi_meet_wf; auto with sccp.
  - apply foldResult_wf. intros c. apply evalUnaryOp_numeric.
  - apply foldResult_wf. intros c. apply evalBinOp_numeric.
Qed.

(** Only Phis and null constants are ever the null constant. *)
Lemma evalNode_not_null s n :
  kind_eqb (nd_kind (node g n)) NodeKind.Phi = false -> is_null (evalNode g s n) = false.
Proof.
  intros Hk. unfold evalNode, evalRefTest, evalRefEq. rewrite Hk.
  repeat case_match; try done; unfold foldResult; case_match; try done; unfold is_null; cbn [lv lc constLat];
    (rewrite andb_false_iff; right; apply bool_decide_eq_false);
    [eapply evalUnaryOp_numeric; eassumption|eapply evalBinOp_numeric; eassumption].
Qed.

(** ** What a Phi meets *)

(** The region input [j] as the test of the loop sees it. *)
Definition edge_flows (s : Sccp) (r j : N) : bool :=
  sccp_live g (input g r j) && execAt s (input g r j).

Definition phi_arm (s : Sccp) (n j : N) : LatVal :=
  if nd_numInputs (node g n) <=? j + 1 then botLat else valAt g s (input g n (u16 (j + 1))).

Lemma phi_arm_wf s n j : wf_state g s -> wf_lat (phi_arm s n j).
Proof. intros Hw. unfold phi_arm. destruct (_ <=? _); [constructor|apply Hw]. Qed.

Lemma phi_arm_desc s s' n j : desc g s s' -> lle (phi_arm s' n j) (phi_arm s n j).
Proof. intros Hd. unfold phi_arm. destruct (_ <=? _); [apply lle_refl|apply Hd]. Qed.

Lemma exec_test s p :
  (vlen (s_exec s) <=? p) || negb (execAt s p) = negb (execAt s p).
Proof.
  destruct (execAt s p) eqn:He; cbn; [|apply orb_true_r].
  apply flagAt_lt in He. destruct (N.leb_spec (vlen (s_exec s)) p); [lia|done].
Qed.

(** The loop as a fold over the arms of the edges that flow. *)
Lemma phi_meet_cons s n r j js acc :
  wf_state g s -> wf_lat acc ->
  phi_meet g s n r (j :: js) acc =
  if negb (edge_flows s r j) then phi_meet g s n r js acc
  else if nd_numInputs (node g n) <=? j + 1 then botLat
  else phi_meet g s n r js (meet acc (phi_arm s n j)).
Proof.
  intros Hw Ha. cbn [phi_meet]. rewrite <- orb_assoc, exec_test. unfold edge_flows.
  rewrite negb_andb. destruct (_ || _); [done|]. unfold phi_arm. by destruct (_ <=? _).
Qed.

Lemma phi_meet_le s n r js acc :
  wf_state g s -> wf_lat acc ->
  lle (phi_meet g s n r js acc) acc /\
  forall j, j ∈ js -> edge_flows s r j = true -> lle (phi_meet g s n r js acc) (phi_arm s n j).
Proof.
  intros Hw. revert acc. induction js as [|j js IH]; intros acc Ha.
  { split; [apply lle_refl|by intros j ?%not_elem_of_nil]. }
  rewrite phi_meet_cons by done.
  destruct (edge_flows s r j) eqn:He; cbn [negb].
  - destruct (_ <=? _); [split; [apply lle_bot|intros; apply lle_bot]|].
    pose proof (phi_arm_wf s n j Hw) as Hj. destruct (meet_lower acc _ Ha Hj) as [H1 H2].
    destruct (IH (meet acc (phi_arm s n j))) as [H3 H4]; [by apply meet_wf|].
    split; [by trans (meet acc (phi_arm s n j))|].
    intros i [->|Hi]%elem_of_cons Hfl; [by trans (meet acc (phi_arm s n j))|by apply H4].
  - destruct (IH acc Ha) as [H3 H4]. split; [done|].
    intros i [->|Hi]%elem_of_cons Hfl; [congruence|by apply H4].
Qed.

Lemma edge_flows_desc s s' r j : desc g s s' -> edge_flows s r j = true -> edge_flows s' r j = true.
Proof.
  intros Hd. unfold edge_flows. rewrite !andb_true_iff. intros [? ?]. split; [done|by apply Hd].
Qed.

Lemma phi_meet_mono s s' n r js acc acc' :
  wf_state g s -> wf_state g s' -> desc g s s' -> wf_lat acc -> wf_lat acc' -> lle acc' acc ->
  lle (phi_meet g s' n r js acc') (phi_meet g s n r js acc).
Proof.
  intros Hw Hw' Hd. revert acc acc'. induction js as [|j js IH]; intros acc acc' Ha Ha' Hle; [done|].
  rewrite !phi_meet_cons by done. pose proof (phi_arm_wf s n j Hw). pose proof (phi_arm_wf s' n j Hw').
  destruct (edge_flows s r j) eqn:He; cbn [negb].
  - rewrite (edge_flows_desc s s' r j Hd He). cbn [negb].
    destruct (_ <=? _); [apply lle_refl|].
    apply IH; [by apply meet_wf..|]. by apply meet_mono, phi_arm_desc.
  - destruct (edge_flows s' r j); cbn [negb]; [|by apply IH].
    destruct (_ <=? _); [apply lle_bot|]. apply IH; [done|by apply meet_wf|].
    trans acc'; [by apply meet_lower|done].
Qed.

(** ** Monotonicity *)

Lemma is_null_inv a : wf_lat a -> is_null a = true -> a = constLat nullConst.
Proof.
  destruct 1 as [| |c Hc]; try done. unfold is_null. cbn. intros Hf%bool_decide_eq_true.
  by destruct Hc as [[? ->]|[[? ->]|[[? ->]|[[? ->]| ->]]]].
Qed.

Lemma is_null_lower a b : wf_lat a -> wf_lat b -> lle a b -> is_null b = true -> a = botLat \/ a = constLat nullConst.
Proof. intros Ha Hb Hl ->%is_null_inv; [|done]. by apply lle_const_inv. Qed.

Lemma evalPhi_mono s s' n :
  wf_state g s -> wf_state g s' -> desc g s s' -> lle (evalPhi g s' n) (evalPhi g s n).
Proof.
  intros Hw Hw' Hd. unfold evalPhi. rewrite !exec_test.
  destruct (_ || _); [apply lle_refl|].
  destruct (execAt s (inputOf g n 0)) eqn:He; cbn [negb]; [|apply lle_top].
  rewrite (de_exec _ _ _ Hd _ He). apply phi_meet_mono; auto with sccp.
Qed.

Lemma operand_apart s n i :
  null_apart g s -> sccp_live g (inputOf g n i) && isNeverNullNode g (inputOf g n i) = true ->
  operand g s n i = botLat.
Proof.
  intros Hna [_ Hnn]%andb_true_iff. unfold operand, inputOf in *. rewrite N.ltb_antisym in Hnn.
  destruct (nd_numInputs (node g n) <=? i); [done|]. by apply Hna.
Qed.

Lemma evalRefTest_mono s s' n k :
  wf_state g s -> wf_state g s' -> desc g s s' -> null_apart g s ->
  lle (evalRefTest g s' n k) (evalRefTest g s n k).
Proof.
  intros Hw Hw' Hd Hna. unfold evalRefTest.
  pose proof (operand_wf s n 0 Hw) as H1. pose proof (operand_wf s' n 0 Hw') as H2.
  pose proof (operand_desc s s' n 0 Hd) as Hle.
  destruct (sccp_live g (inputOf g n 0) && isNeverNullNode g (inputOf g n 0)) eqn:Hnn.
  { rewrite (operand_apart s) in Hle |- * by done. apply lle_bot_inv in Hle as ->. apply lle_refl. }
  revert Hle. destruct H1 as [| |c Hc]; [by intros _; apply lle_top| |].
  - intros ->%lle_bot_inv. apply lle_refl.
  - intros [-> | ->]%lle_const_inv; [|apply lle_refl]. apply lle_bot.
Qed.

(** [evalRefEq] on distinct operands, [na] and [nb] telling which is never null. *)
Definition ref_eq (na nb : bool) (a b : LatVal) : LatVal :=
  if is_null a && is_null b then constLat (constOfI 1)
  else if (is_null a && nb) || (is_null b && na) then constLat (constOfI 0)
  else match lv a, lv b with LV.Top, _ | _, LV.Top => topLat | _, _ => botLat end.

Lemma is_null_top : is_null topLat = false.
Proof. done. Qed.

Lemma is_null_bot : is_null botLat = false.
Proof. done. Qed.

Ltac ref_eq_red := unfold ref_eq; rewrite ?is_null_top, ?is_null_bot, ?andb_true_r, ?andb_false_r;
  cbn [andb orb lv topLat botLat constLat]; rewrite ?orb_false_r.

Lemma ref_eq_mono na nb a b a' b' :
  wf_lat a -> wf_lat b -> lle a' a -> lle b' b ->
  (na = true -> a = botLat) -> (nb = true -> b = botLat) ->
  lle (ref_eq na nb a' b') (ref_eq na nb a b).
Proof.
  intros Ha Hb La Lb Na Nb. destruct na.
  { rewrite (Na eq_refl) in *. apply lle_bot_inv in La as ->. ref_eq_red.
    destruct Hb as [| |c Hc]; [apply lle_top|by apply lle_bot_inv in Lb as ->|].
    apply lle_const_inv in Lb as [-> | ->]; [apply lle_bot|apply lle_refl]. }
  destruct nb.
  { rewrite (Nb eq_refl) in *. apply lle_bot_inv in Lb as ->. ref_eq_red.
    destruct Ha as [| |c Hc]; [apply lle_top|by apply lle_bot_inv in La as ->|].
    apply lle_const_inv in La as [-> | ->]; [apply lle_bot|apply lle_refl]. }
  destruct Ha as [| |c Hc]; destruct Hb as [| |d Hd];
    try apply lle_bot_inv in La as ->; try apply lle_bot_inv in Lb as ->;
    try apply lle_const_inv in La as [-> | ->]; try apply lle_const_inv in Lb as [-> | ->];
    ref_eq_red; try apply lle_top; try apply lle_bot; try apply lle_refl.
Qed.

Lemma evalRefEq_mono s s' n :
  wf_state g s -> wf_state g s' -> desc g s s' -> null_apart g s ->
  lle (evalRefEq g s' n) (evalRefEq g s n).
Proof.
  intros Hw Hw' Hd Hna. unfold evalRefEq. destruct (_ && _); [apply lle_refl|].
  rewrite <- !andb_assoc. apply ref_eq_mono; try (by apply operand_wf); try (by apply operand_desc);
    by apply operand_apart.
Qed.

Lemma evalNode_mono s s' n :
  wf_state g s -> wf_state g s' -> desc g s s' -> null_apart g s ->
  lle (evalNode g s' n) (evalNode g s n).
Proof.
  intros Hw Hw' Hd Hna. unfold evalNode. set (k := nd_kind (node g n)).
  destruct (kind_eqb k NodeKind.Phi); [by apply evalPhi_mono|].
  destruct (_ || _); [by apply evalRefTest_mono|].
  destruct (kind_eqb k NodeKind.RefEq); [by apply evalRefEq_mono|].
  pose proof (operand_desc s s' n 0 Hd) as L0. pose proof (operand_desc s s' n 1 Hd) as L1.
  pose proof (operand_wf s' n 0 Hw') as W0'. pose proof (operand_wf s' n 1 Hw') as W1'.
  destruct (isUnaryEvalK k).
  - destruct (operand_wf s n 0 Hw) as [| |c Hc]; cbn [lv lc topLat botLat constLat]; [apply lle_top| |].
    + apply lle_bot_inv in L0 as ->. apply lle_bot.
    + apply lle_const_inv in L0 as [-> | ->]; [apply lle_bot|apply lle_refl].
  - destruct (operand_wf s n 0 Hw) as [| |c Hc]; destruct (operand_wf s n 1 Hw) as [| |d Hd'];
      cbn [lv lc topLat botLat constLat]; try apply lle_top;
      try (apply lle_bot_inv in L0 as ->); try (apply lle_bot_inv in L1 as ->);
      try (apply lle_const_inv in L0 as [-> | ->]); try (apply lle_const_inv in L1 as [-> | ->]);
      try apply lle_bot; try apply lle_refl;
      destruct W0'; try apply lle_bot; destruct W1'; apply lle_bot.
Qed.

(** ** What an evaluation reads *)

Lemma evalNode_ext s s' n :
  s_exec s' = s_exec s ->
  (forall slot, slot < nd_numInputs (node g n) -> valAt g s' (input g n slot) = valAt g s (input g n slot)) ->
  evalNode g s' n = evalNode g s n.
Proof.
  intros He Hv.
  assert (forall i, operand g s' n i = operand g s n i) as Ho.
  { intros i. unfold operand. destruct (N.leb_spec (nd_numInputs (node g n)) i); [done|by apply Hv]. }
  assert (evalPhi g s' n = evalPhi g s n) as Hp.
  { unfold evalPhi. rewrite He. destruct (_ || _); [done|]. destruct (_ || _); [done|].
    generalize topLat as acc. induction (indices _) as [|j js IH]; intros acc; [done|].
    cbn [phi_meet]. rewrite He. destruct (_ || _); [by apply IH|].
    destruct (N.leb_spec (nd_numInputs (node g n)) (j + 1)); [done|]. rewrite Hv; [by apply IH|].
    unfold u16. eapply N.le_lt_trans; [apply N.Div0.mod_le|]; lia. }
  unfold evalNode, evalRefTest, evalRefEq. by rewrite Hp, !Ho.
Qed.
End Eval.

Lemma live_alive g n :
  nodeCount g = vlen (nodes_ g) ->
  sccp_live g n = true <-> n < vlen (nodes_ g) /\ isDead (node g n) = false.
Proof.
  intros Hc. unfold sccp_live. by rewrite Hc, andb_true_iff, N.ltb_lt, negb_true_iff.
Qed.
