(* ===== verification/SccpFix.v ===== *)
(** * The worklists of SCCP reach a fixpoint

    [obl hc hs s]: what holds of a propagation state between two pops. Every
    obligation (control that must flow on, a value that must be re-evaluated) is
    either met or pending in a worklist; [hc] and [hs] are the entries being
    processed. When both worklists are empty every obligation is met. *)

From S2P Require Import Prelude IRTypes Effect NodeInfo SmallVector Graph GraphInv.
From S2P Require Import ResultType PassSupport PassLaw Machine JavaSem ConstFold SCCP.
From S2P Require Import SccpLattice.

Local Open Scope N_scope.

(** ** What the pass relies on *)

Definition floating (g : Graph) (n : NodeId) : Prop :=
  alive g n /\ isSccpReplaceableK (nd_kind (node g n)) = true.

Definition const_kind (k : NodeKind) : bool :=
  match k with
  | NodeKind.ConstantI | NodeKind.ConstantL | NodeKind.ConstantF | NodeKind.ConstantD
  | NodeKind.ConstantNull => true
  | _ => false
  end.

Record sccp_graph (g : Graph) : Prop := {
  sg_ok : graph_ok g;
  sg_closed : closed g;
  sg_pool : vlen (edgePool_ g) < 4294967296;
  sg_inputs : forall n, fits16 (numInputs g n);
  sg_start : alive g (startNode g) /\ nd_kind (node g (startNode g)) = NodeKind.Start;
  (** An If has at most one live projection of each kind. *)
  sg_projection : forall c u u' k,
    nd_kind (node g c) = NodeKind.If -> k = NodeKind.IfTrue \/ k = NodeKind.IfFalse ->
    alive g u -> alive g u' -> nd_kind (node g u) = k -> nd_kind (node g u') = k ->
    has_slot g u 0 -> has_slot g u' 0 -> input g u 0 = c -> input g u' 0 = c -> u = u';
  (** The NeverNull flag is on nodes whose value the pass does not compute. *)
  sg_never_null : forall n, isNeverNullNode g n = true ->
    alive g n /\ n <> startNode g /\ const_kind (nd_kind (node g n)) = false /\
    isSccpReplaceableK (nd_kind (node g n)) = false
}.

(** The value a node that is never evaluated keeps. *)
Definition seed_val (g : Graph) (n : NodeId) : LatVal :=
  if vlen (nodes_ g) <=? n then botLat
  else if isDead (node g n) then topLat
  else if const_kind (nd_kind (node g n)) then constLat (constOf g n)
  else if n =? startNode g then topLat
  else if isSccpReplaceableK (nd_kind (node g n)) then topLat
  else botLat.

(** ** Where control may flow *)

Definition cond_allows (v : LatVal) (b : bool) : bool :=
  match lv v with
  | LV.Top => false
  | LV.Bot => true
  | LV.Const => if is_int (lc v) then Bool.eqb (negb (cv_i (lc v) =? 0)%Z) b else true
  end.

Definition guard_passes (v : LatVal) : bool :=
  match lv v with
  | LV.Top => false
  | LV.Bot => true
  | LV.Const => negb (is_int (lc v) && (cv_i (lc v) =? 0)%Z)
  end.

Definition control_slot (g : Graph) (u i : N) : Prop :=
  is_control_role (roleOfSlot g u i) = true.

Definition may_flow (g : Graph) (s : Sccp) (c u i : N) : Prop :=
  alive g u /\ has_slot g u i /\ input g u i = c /\
  match nd_kind (node g c) with
  | NodeKind.If =>
      i = 0 /\ 2 <= numInputs g c /\
      (nd_kind (node g u) = NodeKind.IfTrue /\ cond_allows (valAt g s (input g c 1)) true = true \/
       nd_kind (node g u) = NodeKind.IfFalse /\ cond_allows (valAt g s (input g c 1)) false = true)
  | NodeKind.Switch =>
      i = 0 /\ (nd_kind (node g u) = NodeKind.SwitchCase \/
                nd_kind (node g u) = NodeKind.SwitchDefault)
  | NodeKind.Guard =>
      2 <= numInputs g c /\ guard_passes (valAt g s (input g c 1)) = true /\ control_slot g u i
  | NodeKind.Return | NodeKind.Unwind | NodeKind.Deopt | NodeKind.End => False
  | _ => control_slot g u i
  end.

(** ** The worklists *)

Definition pcfg (s : Sccp) (n : NodeId) : Prop := n ∈ drop (N.to_nat (s_cfgHead s)) (s_cfgQ s).
Definition pssa (s : Sccp) (n : NodeId) : Prop := n ∈ drop (N.to_nat (s_ssaHead s)) (s_ssaQ s).

Record tidy (g : Graph) (s : Sccp) : Prop := {
  td_wf : wf_state g s;
  td_cfgHead : s_cfgHead s <= vlen (s_cfgQ s);
  td_ssaHead : s_ssaHead s <= vlen (s_ssaQ s);
  td_inCfg : forall n, flagAt (s_inCfg s) n = true -> pcfg s n;
  td_inSsa : forall n, flagAt (s_inSsa s) n = true -> pssa s n
}.

Record obl (g : Graph) (hc hs : NodeId -> Prop) (s : Sccp) : Prop := {
  ob_tidy : tidy g s;
  ob_seed : forall n, ~ floating g n -> valAt g s n = seed_val g n;
  ob_over : forall n, floating g n -> valAt g s n = botLat \/ lle (evalNode g s n) (valAt g s n);
  ob_start : execAt s (startNode g) = true;
  ob_flow : forall c u i, alive g c -> execAt s c = true -> ~ pcfg s c -> ~ hc c ->
    may_flow g s c u i -> execAt s u = true;
  ob_eval : forall n, floating g n -> nd_kind (node g n) <> NodeKind.Phi ->
    ~ pssa s n -> ~ hs n -> lle (valAt g s n) (evalNode g s n);
  ob_phi : forall n r j, floating g n -> nd_kind (node g n) = NodeKind.Phi ->
    has_slot g n 0 -> input g n 0 = r -> alive g r -> isRegionLikeK (nd_kind (node g r)) = true ->
    execAt s r = true -> alive g (input g r j) -> execAt s (input g r j) = true ->
    may_flow g s (input g r j) r j ->
    ~ pcfg s (input g r j) -> ~ hc (input g r j) -> ~ pcfg s r -> ~ hc r ->
    ~ pssa s n -> ~ hs n ->
    lle (valAt g s n) (phi_arm g s n j)
}.

Definition nothing (_ : NodeId) : Prop := False.

(** ** Steps that only push and mark *)

Record grow (g : Graph) (s s' : Sccp) : Prop := {
  gw_val : s_val s' = s_val s;
  gw_budget : s_b s' = s_b s;
  gw_exec : forall n, execAt s n = true -> execAt s' n = true;
  gw_pcfg : forall n, pcfg s n -> pcfg s' n;
  gw_pssa : forall n, pssa s n -> pssa s' n;
  gw_new : forall n, execAt s' n = true -> execAt s n = true \/ pcfg s' n;
  gw_tidy : tidy g s -> tidy g s'
}.

Section Graph.
Context (g : Graph).

Lemma grow_refl s : grow g s s.
Proof. split; auto. Qed.

Lemma grow_trans s1 s2 s3 : grow g s1 s2 -> grow g s2 s3 -> grow g s1 s3.
Proof.
  intros [A1 A2 A3 A4 A5 A6 A7] [B1 B2 B3 B4 B5 B6 B7]. split; auto; try congruence.
  intros n [H|H]%B6; [|by right]. destruct (A6 n H); auto.
Qed.

Lemma valAt_val s s' n : s_val s' = s_val s -> valAt g s' n = valAt g s n.
Proof. unfold valAt. by intros ->. Qed.

Lemma may_flow_val s s' c u i :
  valAt g s' (input g c 1) = valAt g s (input g c 1) -> may_flow g s' c u i -> may_flow g s c u i.
Proof. unfold may_flow. by intros ->. Qed.

Lemma phi_arm_val s s' n j :
  (forall i, i < nd_numInputs (node g n) -> valAt g s' (input g n i) = valAt g s (input g n i)) ->
  phi_arm g s' n j = phi_arm g s n j.
Proof.
  intros Hv. unfold phi_arm. destruct (N.leb_spec (nd_numInputs (node g n)) (j + 1)); [done|].
  apply Hv. unfold u16. eapply N.le_lt_trans; [apply N.Div0.mod_le|lia].
Qed.

Lemma operand_val s s' n i :
  (forall m, valAt g s' m = valAt g s m) -> operand g s' n i = operand g s n i.
Proof. intros Hv. unfold operand. by rewrite Hv. Qed.

Lemma evalNode_exec s s' n :
  s_val s' = s_val s -> nd_kind (node g n) <> NodeKind.Phi -> evalNode g s' n = evalNode g s n.
Proof.
  intros Hv Hk. unfold evalNode, evalRefTest, evalRefEq.
  rewrite !(operand_val s s') by (intros; by apply valAt_val).
  destruct (kind_eqb _ NodeKind.Phi) eqn:He; [by apply kind_eqb_spec in He|done].
Qed.

Lemma never_null_apart s :
  sccp_graph g -> (forall n, ~ floating g n -> valAt g s n = seed_val g n) -> null_apart g s.
Proof.
  intros Hg Hs n Hnn. destruct (sg_never_null g Hg n Hnn) as ([Hn Hd] & Hst & Hc & Hf).
  rewrite Hs by (intros [_ ?]; congruence). unfold seed_val. rewrite Hd, Hc, Hf.
  destruct (N.leb_spec (vlen (nodes_ g)) n); [lia|]. by destruct (N.eqb_spec n (startNode g)).
Qed.

Lemma grow_desc s s' : grow g s s' -> desc g s s'.
Proof.
  intros Hw. split; [|apply Hw]. intros n. rewrite (valAt_val s s') by apply Hw. apply lle_refl.
Qed.

Lemma grow_obl hc hs s s' : sccp_graph g -> obl g hc hs s -> grow g s s' -> obl g hc hs s'.
Proof.
  intros Hg [O1 O2 O3 O4 O5 O6 O7] Hw. pose proof Hw as [W1 W2 W3 W4 W5 W6 W7].
  assert (forall n, valAt g s' n = valAt g s n) as Hv by (intros; by apply valAt_val).
  split.
  - auto.
  - intros n Hn. rewrite Hv. by apply O2.
  - intros n Hn. rewrite Hv. destruct (O3 n Hn) as [?|Hle]; [by left|right].
    eapply lle_trans; [|exact Hle]. apply evalNode_mono; [apply O1|apply (W7 O1)|by apply grow_desc|].
    by apply never_null_apart.
  - auto.
  - intros c u i Ha He Hp Hh Hf. destruct (W6 c He) as [He'|]; [|done].
    apply W3, (O5 c u i); auto. by apply (may_flow_val s s').
  - intros n Hn Hk Hp Hh. rewrite Hv, (evalNode_exec s s') by done. auto.
  - intros n r j Hn Hk H0 Hr Har Hreg Her Hap Hep Hf P1 P2 P3 P4 P5 P6.
    rewrite Hv, (phi_arm_val s s') by (intros; apply Hv).
    destruct (W6 r Her) as [Her'|]; [|done]. destruct (W6 _ Hep) as [Hep'|]; [|done].
    apply (O7 n r j); auto. by apply (may_flow_val s s').
Qed.

Lemma obl_weaken (hc hc' hs hs' : NodeId -> Prop) s :
  (forall n, hc n -> hc' n) -> (forall n, hs n -> hs' n) -> obl g hc hs s -> obl g hc' hs' s.
Proof.
  intros Hc Hs [O1 O2 O3 O4 O5 O6 O7]. split; try done; eauto 20.
Qed.

(** ** The primitive steps *)

Context (Hg : sccp_graph g).

Lemma sg_count : nodeCount g = vlen (nodes_ g).
Proof using Hg. apply u32_small, so_nodes, go_storage, Hg. Qed.

Lemma sccp_live_spec n : sccp_live g n = true <-> alive g n.
Proof using Hg. apply live_alive, sg_count. Qed.

Lemma sccp_live_dec n : alive g n \/ sccp_live g n = false.
Proof using Hg. destruct (sccp_live g n) eqn:H; [left; by apply sccp_live_spec|by right]. Qed.

Lemma elem_of_drop_app {A} (x : A) i l l' : x ∈ drop i l -> x ∈ drop i (l ++ l').
Proof using. rewrite drop_app. rewrite elem_of_app. by left. Qed.

Lemma elem_of_drop_snoc {A} (x : A) (i : N) l : i <= vlen l -> x ∈ drop (N.to_nat i) (l ++ [x]).
Proof using.
  intros Hi. rewrite drop_app_le by (unfold vlen in Hi; lia). apply elem_of_app. right.
  by apply list_elem_of_singleton.
Qed.

Lemma grow_pushCfg n s : tidy g s -> grow g s (pushCfg g n s).
Proof using.
  intros Ht. unfold pushCfg. destruct (_ || _) eqn:Hc; [apply grow_refl|].
  apply orb_false_iff in Hc as [[Hl Hlen]%orb_false_iff Hf]. apply N.leb_gt in Hlen.
  split; try done; cbn.
  - intros m. unfold pcfg. cbn. apply elem_of_drop_app.
  - by left.
  - intros [[T1 T2 T3 T4 T5] T6 T7 T8 T9]. split; cbn; [|rewrite vlen_app; lia|done| |done].
    + split; cbn; try done. by rewrite vlen_vset.
    + intros m. rewrite flagAt_set by done. unfold pcfg. cbn.
      intros [->%N.eqb_eq|Hm]%orb_true_iff; [by apply elem_of_drop_snoc|].
      by apply elem_of_drop_app, T8.
Qed.

Lemma grow_pushSsa n s : tidy g s -> grow g s (pushSsa g n s).
Proof using.
  intros Ht. unfold pushSsa. destruct (_ || _) eqn:Hc; [apply grow_refl|].
  apply orb_false_iff in Hc as [[Hl Hlen]%orb_false_iff Hf]. apply N.leb_gt in Hlen.
  split; try done; cbn.
  - intros m. unfold pssa. cbn. apply elem_of_drop_app.
  - by left.
  - intros [[T1 T2 T3 T4 T5] T6 T7 T8 T9]. split; cbn; [|done|rewrite vlen_app; lia|done|].
    + split; cbn; try done. by rewrite vlen_vset.
    + intros m. rewrite flagAt_set by done. unfold pssa. cbn.
      intros [->%N.eqb_eq|Hm]%orb_true_iff; [by apply elem_of_drop_snoc|].
      by apply elem_of_drop_app, T9.
Qed.

Lemma pushCfg_pending n s : tidy g s -> alive g n -> pcfg (pushCfg g n s) n.
Proof using Hg.
  intros Ht Ha. unfold pushCfg. rewrite (proj2 (sccp_live_spec n) Ha). cbn [negb orb].
  destruct (N.leb_spec (vlen (s_inCfg s)) n) as [Hle|Hlt].
  { rewrite (ws_inCfg _ _ (td_wf _ _ Ht)) in Hle. destruct Ha. lia. }
  cbn [orb]. destruct (flagAt (s_inCfg s) n) eqn:Hf; [by apply Ht|].
  apply elem_of_drop_snoc, Ht.
Qed.

Lemma pushSsa_pending n s : tidy g s -> alive g n -> pssa (pushSsa g n s) n.
Proof using Hg.
  intros Ht Ha. unfold pushSsa. rewrite (proj2 (sccp_live_spec n) Ha). cbn [negb orb].
  destruct (N.leb_spec (vlen (s_inSsa s)) n) as [Hle|Hlt].
  { rewrite (ws_inSsa _ _ (td_wf _ _ Ht)) in Hle. destruct Ha. lia. }
  cbn [orb]. destruct (flagAt (s_inSsa s) n) eqn:Hf; [by apply Ht|].
  apply elem_of_drop_snoc, Ht.
Qed.

(** Marking a node and pushing it. *)
Lemma grow_mark u s :
  tidy g s -> alive g u -> grow g s (pushCfg g u (set_exec s u)).
Proof using Hg.
  intros Ht Ha. assert (u < vlen (s_exec s)) as Hu.
  { rewrite (ws_exec _ _ (td_wf _ _ Ht)). apply Ha. }
  assert (tidy g (set_exec s u)) as Ht'.
  { destruct Ht as [[T1 T2 T3 T4 T5] T6 T7 T8 T9]. split; try done. split; try done.
    cbn. by rewrite vlen_vset. }
  pose proof (grow_pushCfg u (set_exec s u) Ht') as [W1 W2 W3 W4 W5 W6 W7].
  split; auto.
  - intros n Hn. apply W3. cbn. rewrite flagAt_set by done. by rewrite Hn, orb_true_r.
  - intros n [Hn|Hn]%W6; [|by right]. cbn in Hn. rewrite flagAt_set in Hn by done.
    apply orb_true_iff in Hn as [->%N.eqb_eq|?]; [right|by left].
    by apply pushCfg_pending.
Qed.

Definition marked (s : Sccp) (u : NodeId) : Prop :=
  execAt s u = true /\ (isRegionLikeK (nd_kind (node g u)) = true -> pcfg s u).

Lemma marked_grow s s' u : grow g s s' -> marked s u -> marked s' u.
Proof using. intros Hw [? ?]. split; [by apply Hw|]. intros. apply Hw. auto. Qed.

Lemma markCtrlUser_spec u s :
  tidy g s -> grow g s (markCtrlUser g u s) /\ (alive g u -> marked (markCtrlUser g u s) u).
Proof using Hg.
  intros Ht. unfold markCtrlUser. destruct (sccp_live_dec u) as [Ha|Hd].
  2:{ rewrite Hd. cbn. split; [apply grow_refl|]. intros Ha%sccp_live_spec. congruence. }
  rewrite (proj2 (sccp_live_spec u) Ha). cbn [negb].
  assert ((u <? vlen (s_exec s)) = true) as Hu.
  { apply N.ltb_lt. rewrite (ws_exec _ _ (td_wf _ _ Ht)). apply Ha. }
  rewrite Hu. cbn [andb]. pose proof (grow_mark u s Ht Ha) as Hw.
  assert (tidy g (pushCfg g u (set_exec s u))) as Ht' by by apply Hw.
  assert (execAt (pushCfg g u (set_exec s u)) u = true) as He.
  { apply N.ltb_lt in Hu. unfold pushCfg. destruct (_ || _); cbn;
      rewrite flagAt_set, N.eqb_refl by done; done. }
  assert (tidy g (set_exec s u)) as Ht2.
  { destruct Ht as [[T1 T2 T3 T4 T5] T6 T7 T8 T9]. split; try done. split; try done.
    cbn. by rewrite vlen_vset. }
  destruct (isRegionLikeK (nd_kind (node g u))) eqn:Hr.
  - split; [done|]. intros _. split; [done|]. intros _. by apply pushCfg_pending.
  - destruct (execAt s u) eqn:He0; cbn [negb].
    + split; [apply grow_refl|]. intros _. split; [done|congruence].
    + split; [done|]. intros _. split; [done|congruence].
Qed.

(** Folds of growing steps. *)
Lemma grow_fold {A} (f : Sccp -> A -> Sccp) (P : A -> Sccp -> Prop) l s :
  tidy g s ->
  (forall s x, tidy g s -> grow g s (f s x) /\ P x (f s x)) ->
  (forall s s' x, grow g s s' -> P x s -> P x s') ->
  grow g s (foldl f s l) /\ forall x, x ∈ l -> P x (foldl f s l).
Proof using.
  intros Ht Hf Hp. revert s Ht. induction l as [|x l IH]; intros s Ht; cbn [foldl].
  { split; [apply grow_refl|by intros x ?%not_elem_of_nil]. }
  destruct (Hf s x Ht) as [Hw HP]. destruct (IH (f s x)) as [Hw' HP']; [by apply Hw|].
  split; [by eapply grow_trans|]. intros y [->|Hy]%elem_of_cons; [by eapply Hp|by apply HP'].
Qed.

Lemma propagateCtrlUsers_spec n s :
  tidy g s -> n < vlen (nodes_ g) ->
  grow g s (propagateCtrlUsers g n s) /\
  forall u i, alive g u -> has_slot g u i -> input g u i = n -> control_slot g u i ->
    marked (propagateCtrlUsers g n s) u.
Proof using Hg.
  intros Ht Hn. unfold propagateCtrlUsers.
  destruct (grow_fold (ctrl_use g n)
    (fun u s => alive g (u_user u) -> has_slot g (u_user u) (u_slot u) ->
       input g (u_user u) (u_slot u) = n -> control_slot g (u_user u) (u_slot u) ->
       marked s (u_user u)) (usesOf g n) s Ht) as [Hw HP].
  - intros s' u Ht'. destruct (markCtrlUser_spec (u_user u) s' Ht') as [Hw Hm].
    unfold ctrl_use. destruct (sccp_live_dec (u_user u)) as [Ha|Hd].
    2:{ rewrite Hd. split; [apply grow_refl|]. intros Ha%sccp_live_spec. congruence. }
    rewrite (proj2 (sccp_live_spec _) Ha). cbn [negb].
    destruct (N.leb_spec (nd_numInputs (node g (u_user u))) (u_slot u)) as [Hle|Hlt].
    { split; [apply grow_refl|]. intros _ [_ Hs]. unfold numInputs in Hs. lia. }
    destruct (N.eqb_spec (input g (u_user u) (u_slot u)) n) as [Hin|Hin]; cbn [orb negb].
    2:{ split; [apply grow_refl|]. done. }
    destruct (is_control_role _) eqn:Hr.
    + split; [done|]. auto.
    + split; [apply grow_refl|]. unfold control_slot. congruence.
  - intros s1 s2 u Hw HP H1 H2 H3 H4. eapply marked_grow; [exact Hw|by apply HP].
  - split; [done|]. intros u i Ha Hs Hi Hc. apply (HP (mkUse u i)); try done.
    apply elem_of_usesOf; [apply Hg|done|done].
Qed.

(** ** Processing a control node *)

Lemma is_projection_spec k u :
  is_projection g k u = true <->
  u_slot u = 0 /\ alive g (u_user u) /\ nd_kind (node g (u_user u)) = k.
Proof using Hg.
  unfold is_projection. rewrite !andb_true_iff, N.eqb_eq, sccp_live_spec, kind_eqb_spec. tauto.
Qed.

Lemma markProjection_spec c k s :
  tidy g s -> c < vlen (nodes_ g) -> nd_kind (node g c) = NodeKind.If ->
  k = NodeKind.IfTrue \/ k = NodeKind.IfFalse ->
  grow g s (markProjection g c k s) /\
  forall u, alive g u -> has_slot g u 0 -> input g u 0 = c -> nd_kind (node g u) = k ->
    marked (markProjection g c k s) u.
Proof using Hg.
  intros Ht Hc Hkc Hk. unfold markProjection.
  set (p := projectionOf g c k). destruct (markCtrlUser_spec p s Ht) as [Hw Hm].
  split; [destruct (negb _); [done|apply grow_refl]|].
  intros u Ha Hs Hi Hku.
  assert (mkUse u 0 ∈ usesOf g c) as Hu by (apply elem_of_usesOf; [apply Hg|done|done]).
  assert (p = u) as Hp.
  { unfold p, projectionOf. destruct (List.find _ _) as [v|] eqn:Hf.
    - apply List.find_some in Hf as [Hin (Hv0 & Hva & Hvk)%is_projection_spec].
      apply list_elem_of_In in Hin. apply elem_of_usesOf in Hin as [Hvs Hvi]; [|apply Hg|done].
      rewrite Hv0 in Hvs, Hvi. by eapply (sg_projection g Hg c (u_user v) u k).
    - exfalso. assert (is_projection g k (mkUse u 0) = true) as Ht'
        by (apply is_projection_spec; done).
      rewrite (List.find_none _ _ Hf) in Ht'; [done|]. by apply list_elem_of_In. }
  rewrite Hp in *. destruct (N.eqb_spec u kInvalidNodeId) as [->|_]; [|by apply Hm].
  exfalso. destruct Ha as [Ha _]. pose proof (so_nodes g (go_storage g (sg_ok g Hg))) as Hmax.
  unfold fits32, kInvalidNodeId in *. lia.
Qed.

(** Control has left [c]: wherever it may go is marked. *)
Definition left_control (s : Sccp) (c : NodeId) : Prop :=
  forall u i, may_flow g s c u i -> marked s u.

Lemma left_control_grow s s' c : grow g s s' -> left_control s c -> left_control s' c.
Proof using.
  intros Hw Hl u i Hf. eapply marked_grow; [exact Hw|]. apply (Hl u i).
  eapply may_flow_val; [|exact Hf]. by apply valAt_val, Hw.
Qed.

Lemma processIf_spec c s :
  tidy g s -> c < vlen (nodes_ g) -> nd_kind (node g c) = NodeKind.If ->
  grow g s (processIf g c s) /\ left_control (processIf g c s) c.
Proof using Hg.
  intros Ht Hc Hk. unfold processIf. fold (numInputs g c).
  destruct (N.ltb_spec (numInputs g c) 2) as [H2|H2].
  { split; [apply grow_refl|]. intros u i (_ & _ & _ & Hf). rewrite Hk in Hf. lia. }
  destruct (markProjection_spec c NodeKind.IfTrue s Ht Hc Hk (or_introl eq_refl)) as [WT MT].
  destruct (markProjection_spec c NodeKind.IfFalse s Ht Hc Hk (or_intror eq_refl)) as [WF MF].
  destruct (markProjection_spec c NodeKind.IfFalse (markProjection g c NodeKind.IfTrue s))
    as [WF2 MF2]; [by apply WT|done|done|by right|].
  set (cond := valAt g s (input g c 1)).
  assert (forall s', grow g s s' ->
    (forall u, alive g u -> has_slot g u 0 -> input g u 0 = c ->
       nd_kind (node g u) = NodeKind.IfTrue /\ cond_allows cond true = true \/
       nd_kind (node g u) = NodeKind.IfFalse /\ cond_allows cond false = true -> marked s' u) ->
    grow g s s' /\ left_control s' c) as Hfin.
  { intros s' Hw Hm. split; [done|]. intros u i (Ha & Hs & Hi & Hf). rewrite Hk in Hf.
    destruct Hf as (-> & _ & Hf). apply Hm; try done.
    by rewrite (valAt_val s s') in Hf by apply Hw. }
  unfold cond_allows in Hfin. destruct (lv cond) eqn:Hlv; rewrite ?Hlv in Hfin.
  - apply Hfin; [apply grow_refl|]. by intros u _ _ _ [[_ ?]|[_ ?]].
  - rewrite bool_decide_true by done. cbn [andb]. destruct (is_int (lc cond)) eqn:Hi.
    + apply Hfin; [by destruct (negb _)|]. destruct (negb _).
      * intros u Ha Hs Hin [[Hu _]|[_ ?]]; [by apply MT|done].
      * intros u Ha Hs Hin [[_ ?]|[Hu _]]; [done|by apply MF].
    + apply Hfin; [exact (grow_trans _ _ _ WT WF2)|].
      intros u Ha Hs Hin [[Hu _]|[Hu _]]; [|by apply MF2]. eapply marked_grow; [exact WF2|by apply MT].
  - rewrite bool_decide_false by done. cbn [andb]. apply Hfin; [exact (grow_trans _ _ _ WT WF2)|].
    intros u Ha Hs Hin [[Hu _]|[Hu _]]; [|by apply MF2]. eapply marked_grow; [exact WF2|by apply MT].
Qed.

Lemma processSwitch_spec c s :
  tidy g s -> c < vlen (nodes_ g) -> nd_kind (node g c) = NodeKind.Switch ->
  grow g s (foldl (switch_use g) s (usesOf g c)) /\
  left_control (foldl (switch_use g) s (usesOf g c)) c.
Proof using Hg.
  intros Ht Hc Hk.
  destruct (grow_fold (switch_use g)
    (fun u s => is_projection g NodeKind.SwitchCase u = true \/
       is_projection g NodeKind.SwitchDefault u = true -> marked s (u_user u))
    (usesOf g c) s Ht) as [Hw HP].
  - intros s' u Ht'. destruct (markCtrlUser_spec (u_user u) s' Ht') as [Hw Hm]. unfold switch_use.
    destruct (is_projection g NodeKind.SwitchCase u) eqn:H1; cbn [orb].
    { split; [done|]. intros _. apply Hm. by apply is_projection_spec in H1 as (_ & ? & _). }
    destruct (is_projection g NodeKind.SwitchDefault u) eqn:H2.
    { split; [done|]. intros _. apply Hm. by apply is_projection_spec in H2 as (_ & ? & _). }
    split; [apply grow_refl|]. by intros [?|?].
  - intros s1 s2 u Hw HP H. eapply marked_grow; [exact Hw|by apply HP].
  - split; [done|]. intros u i (Ha & Hs & Hi & Hf). rewrite Hk in Hf. destruct Hf as [-> Hf].
    apply (HP (mkUse u 0)).
    + apply elem_of_usesOf; [apply Hg|done|done].
    + destruct Hf; [left|right]; by apply is_projection_spec.
Qed.

Lemma processGuard_spec c s :
  tidy g s -> c < vlen (nodes_ g) -> nd_kind (node g c) = NodeKind.Guard ->
  grow g s (processGuard g c s) /\ left_control (processGuard g c s) c.
Proof using Hg.
  intros Ht Hc Hk. unfold processGuard. fold (numInputs g c).
  destruct (N.ltb_spec (numInputs g c) 2) as [H2|H2].
  { split; [apply grow_refl|]. intros u i (_ & _ & _ & Hf). rewrite Hk in Hf. lia. }
  destruct (propagateCtrlUsers_spec c s Ht Hc) as [Hw Hm].
  set (cond := valAt g s (input g c 1)).
  assert (forall s', grow g s s' ->
    (forall u i, alive g u -> has_slot g u i -> input g u i = c -> control_slot g u i ->
       guard_passes cond = true -> marked s' u) ->
    grow g s s' /\ left_control s' c) as Hfin.
  { intros s' Hw' Hm'. split; [done|]. intros u i (Ha & Hs & Hi & Hf). rewrite Hk in Hf.
    destruct Hf as (_ & Hp & Hf). rewrite (valAt_val s s') in Hp by apply Hw'. by apply (Hm' u i). }
  unfold guard_passes in Hfin. destruct (lv cond) eqn:Hlv; rewrite ?Hlv in Hfin.
  - apply Hfin; [apply grow_refl|done].
  - rewrite bool_decide_true by done. cbn [andb].
    destruct (is_int (lc cond) && (cv_i (lc cond) =? 0)%Z) eqn:Hi.
    + apply Hfin; [apply grow_refl|done].
    + apply Hfin; [done|]. intros; by eapply Hm.
  - rewrite bool_decide_false by done. cbn [andb]. apply Hfin; [done|]. intros; by eapply Hm.
Qed.

Lemma processRegion_spec c s :
  tidy g s -> c < vlen (nodes_ g) -> isRegionLikeK (nd_kind (node g c)) = true ->
  let s' := propagateCtrlUsers g c (foldl (phi_use g) s (usesOf g c)) in
  grow g s s' /\ left_control s' c /\
  forall n, alive g n -> nd_kind (node g n) = NodeKind.Phi -> has_slot g n 0 -> input g n 0 = c ->
    pssa s' n.
Proof using Hg.
  intros Ht Hc Hk s'.
  destruct (grow_fold (phi_use g)
    (fun u s => is_projection g NodeKind.Phi u = true -> pssa s (u_user u))
    (usesOf g c) s Ht) as [Hw HP].
  - intros s1 u Ht'. unfold phi_use. destruct (is_projection g NodeKind.Phi u) eqn:H1.
    + split; [by apply grow_pushSsa|]. intros _. apply pushSsa_pending; [done|].
      by apply is_projection_spec in H1 as (_ & ? & _).
    + split; [apply grow_refl|done].
  - intros s1 s2 u Hw HP H. apply (gw_pssa _ _ _ Hw). by apply HP.
  - destruct (propagateCtrlUsers_spec c (foldl (phi_use g) s (usesOf g c))) as [Hw' Hm];
      [by apply Hw|done|].
    split; [exact (grow_trans _ _ _ Hw Hw')|]. split.
    + intros u i (Ha & Hs & Hi & Hf). apply (Hm u i); try done.
      by destruct (nd_kind (node g c)).
    + intros n Ha Hn Hs Hi. apply (gw_pssa _ _ _ Hw'). apply (HP (mkUse n 0)).
      * apply elem_of_usesOf; [apply Hg|done|done].
      * by apply is_projection_spec.
Qed.

Lemma processCfg_spec c s :
  tidy g s ->
  grow g s (processCfg g c s) /\
  (alive g c -> execAt s c = true ->
   left_control (processCfg g c s) c /\
   (isRegionLikeK (nd_kind (node g c)) = true ->
    forall n, alive g n -> nd_kind (node g n) = NodeKind.Phi -> has_slot g n 0 -> input g n 0 = c ->
      pssa (processCfg g c s) n)).
Proof using Hg.
  intros Ht. unfold processCfg. rewrite <- orb_assoc, exec_test.
  destruct (sccp_live_dec c) as [Ha|Hd].
  2:{ rewrite Hd. split; [apply grow_refl|]. intros Ha%sccp_live_spec. congruence. }
  rewrite (proj2 (sccp_live_spec _) Ha). cbn [negb orb].
  destruct (execAt s c) eqn:He; cbn [negb]; [|split; [apply grow_refl|done]].
  pose proof (proj1 Ha) as Hc.
  assert (forall s', grow g s s' /\ left_control s' c ->
    isRegionLikeK (nd_kind (node g c)) = false ->
    grow g s s' /\ (alive g c -> true = true -> left_control s' c /\
      (isRegionLikeK (nd_kind (node g c)) = true -> forall n, alive g n ->
       nd_kind (node g n) = NodeKind.Phi -> has_slot g n 0 -> input g n 0 = c -> pssa s' n))) as Hfin.
  { intros s' [Hw Hl] Hr. split; [done|]. intros _ _. split; [done|]. congruence. }
  assert (left_control (propagateCtrlUsers g c s) c \/
    nd_kind (node g c) = NodeKind.If \/ nd_kind (node g c) = NodeKind.Switch \/
    nd_kind (node g c) = NodeKind.Guard) as Hdef.
  { destruct (propagateCtrlUsers_spec c s Ht Hc) as [Hw Hm].
    destruct (decide (nd_kind (node g c) = NodeKind.If)); [by right; left|].
    destruct (decide (nd_kind (node g c) = NodeKind.Switch)); [by right; right; left|].
    destruct (decide (nd_kind (node g c) = NodeKind.Guard)); [by right; right; right|].
    left. intros u i (Hua & Hus & Hui & Hf). apply (Hm u i); try done.
    by destruct (nd_kind (node g c)). }
  pose proof (proj1 (propagateCtrlUsers_spec c s Ht Hc)) as Hprop.
  pose proof (processIf_spec c s Ht Hc) as HIf. pose proof (processSwitch_spec c s Ht Hc) as HSw.
  pose proof (processGuard_spec c s Ht Hc) as HG. pose proof (processRegion_spec c s Ht Hc) as HR.
  assert (forall s', nd_kind (node g c) = NodeKind.Return \/ nd_kind (node g c) = NodeKind.Unwind \/
     nd_kind (node g c) = NodeKind.Deopt \/ nd_kind (node g c) = NodeKind.End -> left_control s' c) as Hterm.
  { intros s' Hk u i (_ & _ & _ & Hf). by destruct Hk as [Hk|[Hk|[Hk|Hk]]]; rewrite Hk in Hf. }
  destruct (nd_kind (node g c));
    first
      [ destruct Hdef as [Hdef|[?|[?|?]]]; [|discriminate..]; apply Hfin; [by split|reflexivity]
      | apply Hfin; [exact (HIf eq_refl)|reflexivity]
      | apply Hfin; [exact (HSw eq_refl)|reflexivity]
      | apply Hfin; [exact (HG eq_refl)|reflexivity]
      | apply Hfin; [split; [apply grow_refl|apply Hterm; tauto]|reflexivity]
      | destruct (HR eq_refl) as (R1 & R2 & R3); split; [exact R1|]; intros _ _; split;
        [exact R2|by intros _; apply R3] ].
Qed.

Lemma obl_processCfg c hs s : obl g (eq c) hs s -> obl g nothing hs (processCfg g c s).
Proof using Hg.
  intros O. destruct (processCfg_spec c s (ob_tidy _ _ _ _ O)) as [Hw Hc].
  pose proof (grow_obl _ _ _ _ Hg O Hw) as [O1 O2 O3 O4 O5 O6 O7].
  set (s' := processCfg g c s) in *.
  assert (alive g c -> execAt s' c = true -> pcfg s' c \/ execAt s c = true) as Hexec.
  { intros _ He. destruct (gw_new _ _ _ Hw c He); auto. }
  split; try done.
  - intros d u i Ha He Hp _ Hf. destruct (decide (c = d)) as [<-|Hne]; [|by apply (O5 d u i)].
    destruct (Hexec Ha He) as [?|He0]; [done|]. by apply (proj1 (Hc Ha He0) u i).
  - intros n r j Hn Hk H0 Hr Har Hreg Her Hap Hep Hf P1 _ P3 _ P5 P6.
    destruct (decide (c = r)) as [Hcr|Hcr].
    { exfalso. subst c. destruct (Hexec Har Her) as [?|He0]; [done|].
      apply P5. by apply (proj2 (Hc Har He0) Hreg); [apply Hn|..]. }
    destruct (decide (c = input g r j)) as [Hcp|Hcp].
    { exfalso. rewrite <- Hcp in *. destruct (Hexec Hap Hep) as [?|He0]; [done|].
      by apply P3, (proj1 (Hc Hap He0) r j). }
    by apply (O7 n r j).
Qed.

(** ** Popping *)

Lemma drop_head {A} (l : list A) (i : N) x :
  vget l i = Some x -> drop (N.to_nat i) l = x :: drop (N.to_nat (i + 1)) l.
Proof using.
  rewrite vget_lookup. intros H. rewrite (drop_S _ _ _ H). f_equal. f_equal. lia.
Qed.

Lemma obl_popCfg hs s n :
  obl g nothing hs s -> vget (s_cfgQ s) (s_cfgHead s) = Some n -> obl g (eq n) hs (popCfg n s).
Proof using Hg.
  intros [[[T1 T2 T3 T4 T5] T6 T7 T8 T9] O2 O3 O4 O5 O6 O7] Hh.
  assert (forall x, pcfg s x -> n = x \/ pcfg (popCfg n s) x) as Hp.
  { intros x. unfold pcfg. rewrite (drop_head _ _ _ Hh). cbn. intros [->|Hx]%elem_of_cons; auto. }
  assert (forall x, ~ pcfg (popCfg n s) x -> n <> x -> ~ pcfg s x) as Hnp.
  { intros x H1 H2 H3. destruct (Hp x H3); auto. }
  assert (forall x, evalNode g (popCfg n s) x = evalNode g s x) as He by (intros; by apply evalNode_ext).
  split; try done.
  - split; cbn; try done.
    + split; cbn; try done. destruct (_ <? _); [by rewrite vlen_vset|done].
    + apply vget_Some_lt in Hh. lia.
    + intros x Hx. assert (flagAt (s_inCfg s) x = true /\ n <> x) as [Hx' Hne].
      { destruct (N.ltb_spec n (vlen (s_inCfg s))) as [Hlt|Hge].
        - rewrite flagAt_vset in Hx. case_decide as Hd; [done|]. split; [done|]. intros ->. tauto.
        - split; [done|]. intros ->. apply flagAt_lt in Hx. lia. }
      destruct (Hp x (T8 x Hx')); done.
  - intros x Hx. rewrite He. by apply O3.
  - intros c u i Ha Hex Hnp' Hne Hf. apply (O5 c u i); auto.
  - intros x Hx Hk Hs Hs'. rewrite He. by apply O6.
  - intros x r j Hx Hk H0 Hr Har Hreg Her Hap Hep Hf P1 P2 P3 P4 P5 P6. apply (O7 x r j); auto.
Qed.

Lemma obl_popSsa s n :
  obl g nothing nothing s -> vget (s_ssaQ s) (s_ssaHead s) = Some n ->
  obl g nothing (eq n) (popSsa n s).
Proof using Hg.
  intros [[[T1 T2 T3 T4 T5] T6 T7 T8 T9] O2 O3 O4 O5 O6 O7] Hh.
  assert (forall x, pssa s x -> n = x \/ pssa (popSsa n s) x) as Hp.
  { intros x. unfold pssa. rewrite (drop_head _ _ _ Hh). cbn. intros [->|Hx]%elem_of_cons; auto. }
  assert (forall x, ~ pssa (popSsa n s) x -> n <> x -> ~ pssa s x) as Hnp.
  { intros x H1 H2 H3. destruct (Hp x H3); auto. }
  assert (forall x, evalNode g (popSsa n s) x = evalNode g s x) as He by (intros; by apply evalNode_ext).
  split; try done.
  - split; cbn; try done.
    + split; cbn; try done. destruct (_ <? _); [by rewrite vlen_vset|done].
    + apply vget_Some_lt in Hh. lia.
    + intros x Hx. assert (flagAt (s_inSsa s) x = true /\ n <> x) as [Hx' Hne].
      { destruct (N.ltb_spec n (vlen (s_inSsa s))) as [Hlt|Hge].
        - rewrite flagAt_vset in Hx. case_decide as Hd; [done|]. split; [done|]. intros ->. tauto.
        - split; [done|]. intros ->. apply flagAt_lt in Hx. lia. }
      destruct (Hp x (T9 x Hx')); done.
  - intros x Hx. rewrite He. by apply O3.
  - intros x Hx Hk Hs Hs'. rewrite He. by apply O6; auto.
  - intros x r j Hx Hk H0 Hr Har Hreg Her Hap Hep Hf P1 P2 P3 P4 P5 P6. apply (O7 x r j); auto.
Qed.

(** ** Lowering a value *)

Lemma valAt_set_val s n nv m :
  tidy g s -> n < vlen (nodes_ g) ->
  valAt g (set_val s n nv) m = if decide (n = m) then nv else valAt g s m.
Proof using Hg.
  intros Ht Hn. unfold valAt. rewrite sg_count. cbn. rewrite vget_vset.
  rewrite (ws_val _ _ (td_wf _ _ Ht)). destruct (N.leb_spec (vlen (nodes_ g)) m).
  - case_decide; [lia|done].
  - case_decide; case_decide; try done; tauto.
Qed.

Lemma tidy_set_val s n nv :
  tidy g s -> n < vlen (nodes_ g) -> wf_lat nv -> tidy g (set_val s n nv).
Proof using Hg.
  intros Ht Hn Hnv. pose proof Ht as [[T1 T2 T3 T4 T5] T6 T7 T8 T9]. split; try done. split; try done.
  - cbn. by rewrite vlen_vset.
  - intros m. rewrite valAt_set_val by done. by case_decide.
Qed.

(** A use whose user reacts to a new value. *)
Definition woken (s : Sccp) (u : NodeId) : Prop :=
  alive g u ->
  (nd_kind (node g u) = NodeKind.If \/ nd_kind (node g u) = NodeKind.Guard -> pcfg s u) /\
  (isSccpReplaceableK (nd_kind (node g u)) = true -> pssa s u).

Lemma pushUsersOf_spec n s :
  tidy g s -> n < vlen (nodes_ g) ->
  grow g s (pushUsersOf g n s) /\
  forall u i, has_slot g u i -> input g u i = n -> woken (pushUsersOf g n s) u.
Proof using Hg.
  intros Ht Hn. unfold pushUsersOf.
  destruct (grow_fold (push_use g) (fun u s => woken s (u_user u)) (usesOf g n) s Ht) as [Hw HP].
  - intros s' u Ht'. unfold push_use, woken. destruct (sccp_live_dec (u_user u)) as [Ha|Hd].
    2:{ rewrite Hd. split; [apply grow_refl|]. intros Ha%sccp_live_spec. congruence. }
    rewrite (proj2 (sccp_live_spec _) Ha). cbn [negb].
    pose proof (grow_pushCfg (u_user u) s' Ht') as W1. pose proof (grow_pushSsa (u_user u) s' Ht') as W2.
    pose proof (pushCfg_pending (u_user u) s' Ht' Ha) as P1.
    pose proof (pushSsa_pending (u_user u) s' Ht' Ha) as P2.
    unfold isSccpReplaceableK.
    destruct (nd_kind (node g (u_user u)));
      first [ split; [exact W1|intros _; split; [by intros _|done]]
            | split; [exact W2|intros _; split; [by intros [?|?]|by intros _]]
            | split; [apply grow_refl|intros _; split; [by intros [?|?]|done]] ].
  - intros s1 s2 u Hw HP Ha. destruct (HP Ha) as [H1 H2].
    split; intros; apply Hw; auto.
  - split; [done|]. intros u i Hs Hi. apply (HP (mkUse u i)).
    by apply elem_of_usesOf; [apply Hg|..].
Qed.

Lemma pushUsersOf_exec n s : s_exec (pushUsersOf g n s) = s_exec s.
Proof using.
  unfold pushUsersOf. generalize (usesOf g n) as l. intros l. revert s.
  induction l as [|u l IH]; intros s; cbn [foldl]; [done|]. rewrite IH.
  unfold push_use, pushCfg, pushSsa. repeat case_match; done.
Qed.

(** The value of a floating node moves down and its users are pushed. *)
Section Lower.
Context (hs : NodeId -> Prop) (s : Sccp) (n : NodeId) (nv : LatVal).
Context (O : obl g nothing hs s) (Hn : floating g n) (Hwf : wf_lat nv).

Abbreviation s1 := (set_val s n nv).
Abbreviation s2 := (pushUsersOf g n s1).

Lemma lower_val m : valAt g s2 m = if decide (n = m) then nv else valAt g s m.
Proof using Hg O Hn Hwf.
  destruct (pushUsersOf_spec n s1) as [Hw _]; [apply tidy_set_val; [apply O|apply Hn|done]|apply Hn|].
  rewrite (valAt_val s1 s2) by apply Hw. apply valAt_set_val; [apply O|apply Hn].
Qed.

Lemma lower_tidy : tidy g s2.
Proof using Hg O Hn Hwf.
  destruct (pushUsersOf_spec n s1) as [Hw _]; [apply tidy_set_val; [apply O|apply Hn|done]|apply Hn|].
  apply Hw, tidy_set_val; [apply O|apply Hn|done].
Qed.

(** Nothing that is not woken reads the new value. *)
Lemma lower_unread m i :
  alive g m -> has_slot g m i ->
  (isSccpReplaceableK (nd_kind (node g m)) = true /\ ~ pssa s2 m \/
   (nd_kind (node g m) = NodeKind.If \/ nd_kind (node g m) = NodeKind.Guard) /\ ~ pcfg s2 m) ->
  valAt g s2 (input g m i) = valAt g s (input g m i).
Proof using Hg O Hn Hwf.
  intros Ha Hs Hk. rewrite lower_val. case_decide as Hi; [|done]. exfalso.
  destruct (pushUsersOf_spec n s1) as [_ Hwk]; [apply tidy_set_val; [apply O|apply Hn|done]|apply Hn|].
  destruct (Hwk m i Hs (eq_sym Hi) Ha) as [H1 H2]. tauto.
Qed.

Lemma lower_flow c u i :
  alive g c -> ~ pcfg s2 c -> may_flow g s2 c u i -> may_flow g s c u i.
Proof using Hg O Hn Hwf.
  intros Ha Hp Hf. pose proof Hf as (Hua & Hus & Hui & Hk).
  destruct (decide (nd_kind (node g c) = NodeKind.If \/ nd_kind (node g c) = NodeKind.Guard)) as [Hc|Hc].
  - eapply may_flow_val; [|exact Hf]. apply lower_unread; [done| |by right].
    split; [apply Ha|]. destruct Hc as [Hc|Hc]; rewrite Hc in Hk; lia.
  - unfold may_flow. split_and!; try done.
    destruct (nd_kind (node g c)); first [exact Hk|destruct Hc; auto].
Qed.

Context (Hle : lle nv (valAt g s n)).

Lemma lower_desc : desc g s s2.
Proof using Hg O Hn Hwf Hle.
  destruct (pushUsersOf_spec n s1) as [Hw _]; [apply tidy_set_val; [apply O|apply Hn|done]|apply Hn|].
  split.
  - intros m. rewrite lower_val. case_decide; [by subst|apply lle_refl].
  - intros m Hm. apply (gw_exec _ _ _ Hw). exact Hm.
Qed.

Context (Hov : nv = botLat \/ lle (evalNode g s n) nv).

Lemma obl_lower : obl g nothing (fun m => hs m \/ n = m) s2.
Proof using All.
  destruct (pushUsersOf_spec n s1) as [Hw _]; [apply tidy_set_val; [apply O|apply Hn|done]|apply Hn|].
  pose proof O as [O1 O2 O3 O4 O5 O6 O7]. pose proof lower_desc as Hd.
  assert (forall m, execAt s2 m = true -> execAt s m = true \/ pcfg s2 m) as Hex
    by (intros m Hm; exact (gw_new _ _ _ Hw m Hm)).
  assert (forall m, pcfg s m -> pcfg s2 m) as Hpc by (intros m Hm; exact (gw_pcfg _ _ _ Hw m Hm)).
  assert (forall m, pssa s m -> pssa s2 m) as Hps by (intros m Hm; exact (gw_pssa _ _ _ Hw m Hm)).
  assert (forall m, lle (evalNode g s2 m) (evalNode g s m)) as Hmono.
  { intros m. apply evalNode_mono; [apply O1|apply lower_tidy|done|by apply never_null_apart]. }
  split.
  - apply lower_tidy.
  - intros m Hm. rewrite lower_val. case_decide; [by subst|by apply O2].
  - intros m Hm. rewrite lower_val. case_decide as Hd'.
    + subst m. destruct Hov as [?|H]; [by left|right]. eapply lle_trans; [apply Hmono|exact H].
    + destruct (O3 m Hm) as [?|H]; [by left|right]. eapply lle_trans; [apply Hmono|exact H].
  - by apply Hd.
  - intros c u i Ha He Hp _ Hf. destruct (Hex c He) as [He'|]; [|done].
    apply Hd, (O5 c u i); auto. by apply lower_flow.
  - intros m Hm Hk Hp Hh. assert (n <> m) as Hne by tauto.
    rewrite lower_val, decide_False by done.
    assert (forall i, i < nd_numInputs (node g m) -> valAt g s2 (input g m i) = valAt g s (input g m i)) as Hv.
    { intros i Hi. apply lower_unread; [apply Hm|split; [apply Hm|done]|]. left. split; [apply Hm|done]. }
    assert (evalNode g s2 m = evalNode g s m) as ->; [|apply O6; [done|done|auto|tauto]].
    unfold evalNode, evalRefTest, evalRefEq.
    assert (forall i, operand g s2 m i = operand g s m i) as Ho.
    { intros i. unfold operand. destruct (N.leb_spec (nd_numInputs (node g m)) i); [done|by apply Hv]. }
    rewrite !Ho. destruct (kind_eqb _ NodeKind.Phi) eqn:He; [by apply kind_eqb_spec in He|done].
  - intros m r j Hm Hk H0 Hr Har Hreg Her Hap Hep Hf P1 P2 P3 P4 P5 P6.
    assert (n <> m) as Hne by tauto. rewrite lower_val, decide_False by done.
    rewrite (phi_arm_val s s2).
    2:{ intros i Hi. apply lower_unread; [apply Hm|split; [apply Hm|done]|]. left. split; [apply Hm|done]. }
    destruct (Hex r Her) as [Her'|]; [|done]. destruct (Hex _ Hep) as [Hep'|]; [|done].
    apply (O7 m r j); auto. by apply lower_flow.
Qed.
End Lower.

(** A value equal to its evaluation is settled. *)
Lemma settle n s (hs : NodeId -> Prop) :
  obl g nothing hs s -> lle (valAt g s n) (evalNode g s n) \/ pssa s n \/ ~ floating g n ->
  obl g nothing (fun m => hs m /\ n <> m) s.
Proof using Hg.
  intros [O1 O2 O3 O4 O5 O6 O7] Hs. split; try done.
  - intros m Hm Hk Hp Hh. destruct (decide (n = m)) as [->|Hne]; [|apply O6; auto; tauto].
    by destruct Hs as [?|[?|?]].
  - intros m r j Hm Hk H0 Hr Har Hreg Her Hap Hep Hf P1 P2 P3 P4 P5 P6.
    destruct (decide (n = m)) as [->|Hne].
    2:{ apply (O7 m r j); auto; tauto. }
    destruct Hs as [Hle|[?|?]]; [|done|done]. etrans; [exact Hle|].
    unfold evalNode. rewrite Hk. cbn [kind_eqb]. 
    assert (kind_eqb NodeKind.Phi NodeKind.Phi = true) as -> by done. unfold evalPhi.
    assert (inputOf g m 0 = r) as ->.
    { unfold inputOf. destruct H0 as [_ H0]. apply N.ltb_lt in H0. unfold numInputs in H0. by rewrite H0. }
    rewrite exec_test, Hreg, Her, (proj2 (sccp_live_spec r) Har). cbn [negb orb].
    apply phi_meet_le; [apply O1|constructor| |].
    + apply elem_of_indices. apply Hf.
    + unfold edge_flows. by rewrite (proj2 (sccp_live_spec _) Hap), Hep.
Qed.

Lemma isSccp_test k : isEvalK k || kind_eqb k NodeKind.Phi = isSccpReplaceableK k.
Proof using. done. Qed.

Lemma obl_processSsa n s :
  obl g nothing (eq n) s ->
  obl g nothing nothing (processSsa g n s) /\ desc g s (processSsa g n s).
Proof using Hg.
  intros O. unfold processSsa.
  assert (forall s', obl g nothing (fun m => n = m /\ n <> m) s' -> desc g s s' ->
    obl g nothing nothing s' /\ desc g s s') as Hfin.
  { intros s' O' Hd. split; [|done]. revert O'. apply obl_weaken; [done|]. by intros m [??]. }
  destruct (sccp_live_dec n) as [Ha|Hd].
  2:{ rewrite Hd. apply Hfin; [|apply grow_desc, grow_refl]. apply settle; [done|]. right; right. intros [Ha%sccp_live_spec _]. congruence. }
  rewrite (proj2 (sccp_live_spec _) Ha). cbn [negb]. rewrite isSccp_test.
  destruct (isSccpReplaceableK _) eqn:Hk; cbn [negb].
  2:{ apply Hfin; [|apply grow_desc, grow_refl]. apply settle; [done|]. right; right. intros [_ ?]. congruence. }
  assert (floating g n) as Hn by by split.
  pose proof (ws_wf _ _ (td_wf _ _ (ob_tidy _ _ _ _ O)) n) as Hw1.
  pose proof (evalNode_wf g s n (td_wf _ _ (ob_tidy _ _ _ _ O))) as Hw2.
  pose proof (ob_over _ _ _ _ O n Hn) as Hov.
  destruct (N.ltb_spec (LV.code (lv (valAt g s n))) (LV.code (lv (evalNode g s n)))) as [Hlt|Hge].
  - pose proof (lower _ _ Hw1 Hov Hlt) as Hle.
    assert (evalNode g s n = botLat \/ lle (evalNode g s n) (evalNode g s n)) as Hself
      by (right; apply lle_refl).
    pose proof (obl_lower (eq n) s n (evalNode g s n) O Hn Hw2 Hle Hself) as O'.
    apply Hfin; [|by apply (lower_desc (eq n))]. apply (obl_weaken nothing nothing (fun m => (n = m \/ n = m) /\ n <> m)); [done|naive_solver|].
    apply settle; [exact O'|].
    destruct (existsb (fun i => input g n i =? n) (indices (numInputs g n))) eqn:Hself'.
    + apply existsb_exists in Hself' as (i & Hi%list_elem_of_In%elem_of_indices & Hin%N.eqb_eq).
      right; left. destruct (pushUsersOf_spec n (set_val s n (evalNode g s n))) as [_ Hwk];
        [apply tidy_set_val; [apply O|apply Hn|done]|apply Hn|].
      destruct (Hwk n i) as [_ Hp]; [split; [apply Hn|done]|done|done|by apply Hp].
    + left. rewrite (lower_val (eq n)) by done. rewrite decide_True by done.
      rewrite (evalNode_ext g s (pushUsersOf g n (set_val s n (evalNode g s n))) n); [apply lle_refl|by rewrite pushUsersOf_exec|].
      intros i Hi. rewrite (lower_val (eq n)) by done. apply decide_False. intros Hin.
      assert (existsb (fun i => input g n i =? n) (indices (numInputs g n)) = true) as Ht;
        [|congruence].
      apply existsb_exists. exists i. split; [by apply list_elem_of_In, elem_of_indices|].
      by apply N.eqb_eq.
  - apply Hfin; [|apply grow_desc, grow_refl]. apply settle; [done|]. left.
    destruct (not_lower (valAt g s n) (evalNode g s n)) as [->|He]; try done; [lia|apply lle_bot|].
    rewrite <- He. apply lle_refl.
Qed.

(** ** Draining *)

Lemma desc_trans s1 s2 s3 : desc g s1 s2 -> desc g s2 s3 -> desc g s1 s3.
Proof using.
  intros [A1 A2] [B1 B2]. split; [|auto]. intros n. eapply lle_trans; [apply B1|apply A1].
Qed.

Lemma obl_budget hc hs s b : obl g hc hs s -> obl g hc hs (set_budget s b).
Proof using.
  intros [[[T1 T2 T3 T4 T5] T6 T7 T8 T9] O2 O3 O4 O5 O6 O7].
  assert (forall x, evalNode g (set_budget s b) x = evalNode g s x) as He by (intros; by apply evalNode_ext).
  split; try done.
  - intros x Hx. rewrite He. by apply O3.
  - intros x Hx Hk Hs Hs'. rewrite He. by apply O6.
Qed.

Lemma same_desc s s' : s_val s' = s_val s -> s_exec s' = s_exec s -> desc g s s'.
Proof using.
  intros Hv He. split; [|by rewrite He]. intros n. rewrite (valAt_val s s') by done. apply lle_refl.
Qed.

Definition no_pending (s : Sccp) : Prop := (forall n, ~ pcfg s n) /\ (forall n, ~ pssa s n).

Lemma drained_no_pending s :
  (s_cfgHead s <? vlen (s_cfgQ s)) || (s_ssaHead s <? vlen (s_ssaQ s)) = false -> no_pending s.
Proof using.
  intros [H1%N.ltb_ge H2%N.ltb_ge]%orb_false_iff. unfold vlen in *.
  split; intros n; unfold pcfg, pssa; rewrite drop_ge by lia; apply not_elem_of_nil.
Qed.

(** What a drain leaves. *)
Record drained (s s' : Sccp) : Prop := {
  dr_obl : obl g nothing nothing s';
  dr_desc : desc g s s';
  dr_limit : b_limit (s_b s') = b_limit (s_b s) /\ b_used (s_b s) <= b_used (s_b s');
  dr_done : b_exceeded (s_b s') = false -> b_exceeded (s_b s) = false /\ no_pending s'
}.

Lemma drained_trans s1 s2 s3 :
  desc g s1 s2 -> b_limit (s_b s2) = b_limit (s_b s1) -> b_used (s_b s1) <= b_used (s_b s2) ->
  (b_exceeded (s_b s2) = false -> b_exceeded (s_b s1) = false) ->
  drained s2 s3 -> drained s1 s3.
Proof using.
  intros Hd Hl Hu He [D1 D2 [D3 D4] D5]. split; [done|by eapply desc_trans|split; [congruence|lia]|].
  intros H. destruct (D5 H). auto.
Qed.

Lemma processCfg_budget n s : obl g (eq n) nothing s -> s_b (processCfg g n s) = s_b s.
Proof using Hg. intros O. by apply (processCfg_spec n s (ob_tidy _ _ _ _ O)). Qed.

Lemma pushUsersOf_budget n s : s_b (pushUsersOf g n s) = s_b s.
Proof using.
  unfold pushUsersOf. generalize (usesOf g n) as l. intros l. revert s.
  induction l as [|u l IH]; intros s; cbn [foldl]; [done|]. rewrite IH.
  unfold push_use, pushCfg, pushSsa. repeat case_match; done.
Qed.

Lemma processSsa_budget n s : s_b (processSsa g n s) = s_b s.
Proof using.
  unfold processSsa. repeat case_match; try done. by rewrite pushUsersOf_budget.
Qed.

(** Every turn of the loop uses up budget. *)
Lemma propagate_total pfuel s :
  obl g nothing nothing s -> b_limit (s_b s) < 4294967296 ->
  (N.to_nat (b_limit (s_b s) - b_used (s_b s)) < pfuel)%nat ->
  exists s', propagate pfuel g s = Some s' /\ drained s s'.
Proof using Hg.
  revert s. induction pfuel as [|pfuel IH]; intros s O Hmax Hf; [lia|]. cbn [propagate].
  destruct (_ || _) eqn:Hq.
  2:{ exists s. split; [done|]. split; [done|apply grow_desc, grow_refl|done|].
      intros He. split; [done|by apply drained_no_pending]. }
  unfold charge. destruct (b_exceeded (s_b s) || (b_limit (s_b s) <=? b_used (s_b s))) eqn:Hc;
    cbn [negb].
  { eexists. split; [reflexivity|]. split; [by apply obl_budget|by apply same_desc|done|done]. }
  apply orb_false_iff in Hc as [Hex Hlt%N.leb_gt].
  set (b := mkBudget _ _ _). pose proof (obl_budget nothing nothing s b O) as Ob.
  assert (b_used b = b_used (s_b s) + 1) as Hu by (apply u32_small; unfold fits32; lia).
  assert (forall s2, obl g nothing nothing s2 -> desc g s s2 -> s_b s2 = b ->
    exists s', propagate pfuel g s2 = Some s' /\ drained s s') as Hnext.
  { intros s2 O2 Hd Hb. destruct (IH s2) as (s' & Hp & Hdr); [done|by rewrite Hb|rewrite Hb, Hu; cbn; lia|].
    exists s'. split; [done|]. eapply drained_trans; [exact Hd| | | |exact Hdr]; rewrite Hb;
      [done|rewrite Hu; lia|done]. }
  destruct (vget (s_cfgQ (set_budget s b)) _) as [n|] eqn:Hn.
  - pose proof (obl_popCfg nothing _ n Ob Hn) as Op. apply Hnext; [by apply obl_processCfg| |].
    + eapply desc_trans; [|apply grow_desc, processCfg_spec, (ob_tidy _ _ _ _ Op)]. by apply same_desc.
    + by rewrite processCfg_budget.
  - destruct (vget (s_ssaQ (set_budget s b)) _) as [n|] eqn:Hm.
    + pose proof (obl_popSsa _ n Ob Hm) as Op. destruct (obl_processSsa n _ Op) as [O2 D2].
      apply Hnext; [done| |by rewrite processSsa_budget].
      eapply desc_trans; [|exact D2]. by apply same_desc.
    + exfalso. apply vget_ge_None in Hn, Hm. cbn in Hn, Hm.
      apply orb_true_iff in Hq as [H%N.ltb_lt|H%N.ltb_lt]; lia.
Qed.

(** ** Completion *)

Definition unresolved (s : Sccp) (n : NodeId) : Prop :=
  floating g n /\ valAt g s n = topLat /\ liveUseCount g n <> 0.

Lemma wf_top_inv v : wf_lat v -> lv v = LV.Top -> v = topLat.
Proof using. by destruct 1. Qed.

Lemma complete_node_spec forced s n :
  obl g nothing nothing s ->
  let '(forced', s') := complete_node g (forced, s) n in
  obl g nothing nothing s' /\ desc g s s' /\ s_b s' = s_b s /\
  ( (forced' = forced /\ s' = s /\ ~ unresolved s n) \/
    (forced' = true /\ floating g n /\ valAt g s n = topLat /\ valAt g s' n = botLat) ).
Proof using Hg.
  intros O. unfold complete_node, unresolved.
  pose proof (ws_wf _ _ (td_wf _ _ (ob_tidy _ _ _ _ O)) n) as Hw.
  assert (forall P : Prop, ~ P -> obl g nothing nothing s /\ desc g s s /\ s_b s = s_b s /\
    ((forced = forced /\ s = s /\ ~ P) \/
     (forced = true /\ floating g n /\ valAt g s n = topLat /\ valAt g s n = botLat))) as Hsame.
  { intros P HP. split_and!; [done|apply grow_desc, grow_refl|done|by left]. }
  destruct (sccp_live_dec n) as [Ha|Hd].
  2:{ rewrite Hd. apply Hsame. intros ([Ha%sccp_live_spec _] & _). congruence. }
  rewrite (proj2 (sccp_live_spec _) Ha). cbn [negb orb].
  case_bool_decide as Hlv; cbn [negb].
  2:{ apply Hsame. intros (_ & Hv & _). by rewrite Hv in Hlv. }
  rewrite isSccp_test. destruct (isSccpReplaceableK _) eqn:Hk; cbn [negb].
  2:{ apply Hsame. intros ([_ Hf] & _). congruence. }
  destruct (N.eqb_spec (liveUseCount g n) 0) as [H0|H0]; [apply Hsame; tauto|].
  assert (floating g n) as Hn by by split. pose proof (wf_top_inv _ Hw Hlv) as Ht.
  pose proof (obl_lower nothing s n botLat O Hn wf_bot (lle_bot _) (or_introl eq_refl)) as O'.
  split_and!.
  - apply (obl_weaken nothing nothing (fun m => (nothing m \/ n = m) /\ n <> m));
      [done|by intros m [[?|?] ?]|].
    apply settle; [exact O'|]. left. rewrite (lower_val nothing) by (done || constructor).
    rewrite decide_True by done. apply lle_bot.
  - apply (lower_desc nothing); [done|done|constructor|apply lle_bot].
  - by rewrite pushUsersOf_budget.
  - right. split_and!; try done. rewrite (lower_val nothing) by (done || constructor).
    by rewrite decide_True.
Qed.

Lemma complete_fold l forced s :
  obl g nothing nothing s ->
  let '(forced', s') := foldl (complete_node g) (forced, s) l in
  obl g nothing nothing s' /\ desc g s s' /\ s_b s' = s_b s /\
  ( (forced' = forced /\ s' = s /\ forall n, n ∈ l -> ~ unresolved s n) \/
    (forced' = true /\ exists n, floating g n /\ valAt g s n = topLat /\ valAt g s' n = botLat) ).
Proof using Hg.
  revert forced s. induction l as [|n l IH]; intros forced s O; cbn [foldl].
  { split_and!; [done|apply grow_desc, grow_refl|done|]. left. split_and!; [done..|].
    by intros n ?%not_elem_of_nil. }
  pose proof (complete_node_spec forced s n O) as H1.
  destruct (complete_node g (forced, s) n) as [f1 s1]. destruct H1 as (O1 & D1 & B1 & H1).
  specialize (IH f1 s1 O1). destruct (foldl (complete_node g) (f1, s1) l) as [f2 s2].
  destruct IH as (O2 & D2 & B2 & H2).
  split_and!; [done|by eapply desc_trans|congruence|].
  destruct H1 as [(-> & -> & Hn)|(-> & Hn & Ht & Hb)].
  - destruct H2 as [(-> & -> & Hl)|(-> & m & Hm)]; [left|right; eauto].
    split_and!; [done..|]. intros m [->|Hm]%elem_of_cons; auto.
  - right. destruct H2 as [(-> & -> & Hl)|(-> & m & Hm)].
    + split; [done|]. by exists n.
    + split; [done|]. exists n. split_and!; [done..|].
      apply lle_bot_inv. rewrite <- Hb. apply D2.
Qed.

Lemma complete_spec s :
  obl g nothing nothing s ->
  let '(forced, s') := complete g s in
  obl g nothing nothing s' /\ desc g s s' /\ s_b s' = s_b s /\
  ( (forced = false /\ s' = s /\ forall n, ~ unresolved s n) \/
    (forced = true /\ exists n, floating g n /\ valAt g s n = topLat /\ valAt g s' n = botLat) ).
Proof using Hg.
  intros O. unfold complete. pose proof (complete_fold (indices (nodeCount g)) false s O) as H.
  destruct (foldl _ _ _) as [f s']. destruct H as (O' & D' & B' & H). split_and!; [done..|].
  destruct H as [(-> & -> & Hl)|H]; [left|by right]. split_and!; [done..|].
  intros n Hn. apply (Hl n); [|done]. apply elem_of_indices. rewrite sg_count. apply Hn.
Qed.

(** The values that may still be forced. *)
Definition tops (s : Sccp) : list NodeId :=
  filter (fun n => valAt g s n = topLat) (indices (vlen (nodes_ g))).

Lemma elem_of_tops s n : n ∈ tops s <-> valAt g s n = topLat /\ n < vlen (nodes_ g).
Proof using. unfold tops. by rewrite list_elem_of_filter, elem_of_indices. Qed.

Lemma tops_le s s' : desc g s s' -> (length (tops s') <= length (tops s))%nat.
Proof using.
  intros Hd. apply submseteq_length, NoDup_submseteq; [apply NoDup_filter, NoDup_indices|].
  intros n [Hv Hn]%elem_of_tops. apply elem_of_tops. split; [|done].
  apply lle_top_inv. rewrite <- Hv. apply Hd.
Qed.

Lemma tops_lt s s' n :
  desc g s s' -> floating g n -> valAt g s n = topLat -> valAt g s' n = botLat ->
  (length (tops s') < length (tops s))%nat.
Proof using.
  intros Hd Hn Ht Hb.
  assert (n :: tops s' ⊆+ tops s) as H%submseteq_length; [|cbn in H; lia].
  apply NoDup_submseteq.
  - apply NoDup_cons. split; [|apply NoDup_filter, NoDup_indices].
    intros [Hv _]%elem_of_tops. by rewrite Hv in Hb.
  - intros m [->|[Hv Hm]%elem_of_tops]%elem_of_cons; apply elem_of_tops; [split; [done|apply Hn]|].
    split; [|done]. apply lle_top_inv. rewrite <- Hv. apply Hd.
Qed.

Lemma tops_bound s : (length (tops s) <= N.to_nat (vlen (nodes_ g)))%nat.
Proof using.
  unfold tops. etrans; [apply length_filter|]. by rewrite length_indices.
Qed.

(** The state in which the analysis ends. *)
Record settled (s : Sccp) : Prop := {
  se_obl : obl g nothing nothing s;
  se_none : no_pending s;
  se_resolved : forall n, ~ unresolved s n
}.

Lemma stabilize_total fuel pfuel s :
  obl g nothing nothing s -> no_pending s -> b_exceeded (s_b s) = false ->
  b_limit (s_b s) < 4294967296 ->
  (N.to_nat (b_limit (s_b s) - b_used (s_b s)) < pfuel)%nat -> (length (tops s) < fuel)%nat ->
  exists s', stabilize fuel pfuel g s = Some s' /\ desc g s s' /\ obl g nothing nothing s' /\
    b_limit (s_b s') = b_limit (s_b s) /\ b_used (s_b s) <= b_used (s_b s') /\
    (b_exceeded (s_b s') = false -> settled s').
Proof using Hg.
  revert s. induction fuel as [|fuel IH]; intros s O Hnp Hex Hmax Hpf Hf; [lia|]. cbn [stabilize].
  pose proof (complete_spec s O) as Hc. destruct (complete g s) as [forced s1].
  destruct Hc as (O1 & D1 & B1 & [(-> & -> & Hr)|(-> & n & Hn & Ht & Hb)]); cbn [negb].
  { exists s. split_and!; [done|apply grow_desc, grow_refl|done|done|lia|]. by split. }
  destruct (propagate_total pfuel s1) as (s2 & -> & [O2 D2 [L2 U2] N2]); [done|by rewrite B1..|].
  destruct (b_exceeded (s_b s2)) eqn:Hex2.
  { exists s2. rewrite B1 in *. split_and!; try done; [by eapply desc_trans|congruence]. }
  destruct (N2 eq_refl) as [_ Hnp2]. rewrite B1 in *.
  destruct (IH s2) as (s3 & Hs & D3 & O3 & L3 & U3 & N3); try done.
  - by rewrite L2.
  - rewrite L2. lia.
  - pose proof (tops_lt _ _ _ D1 Hn Ht Hb). pose proof (tops_le _ _ D2). lia.
  - exists s3. split_and!; [done|eapply desc_trans; [exact D1|by eapply desc_trans]|done|congruence|lia|done].
Qed.
End Graph.
