(* ===== verification/SccpSound.v ===== *)
(** * What SCCP claims is true

    The analysis returns for every graph ([analyse_total]). [reach g c phi omega]:
    some execution of the graph has reached the control node [c], with the Phis
    holding [phi] and the nodes the pass cannot evaluate (parameters, loads, calls)
    holding [omega]. Every constant the analysis ends with is the value of its node
    in every such state. *)

From Stdlib Require Import SpecFloat.
From S2P Require Import Prelude IRTypes Effect NodeInfo SmallVector Graph GraphInv.
From S2P Require Import ResultType PassSupport PassLaw Machine JavaSem ConstFold SCCP.
From S2P Require Import SccpLattice SccpFix.

Local Open Scope N_scope.

Section Graph.
Context (g : Graph) (Hg : sccp_graph g).

(** ** Seeding *)

(** The state after the nodes of [done] have been seeded. *)
Record seeded (b : Budget) (done : NodeId -> Prop) (s : Sccp) : Prop := {
  sd_tidy : tidy g s;
  sd_val : forall n, n < vlen (nodes_ g) -> (done n -> valAt g s n = seed_val g n) /\
    (~ done n -> valAt g s n = topLat);
  sd_exec : forall n, execAt s n = true <-> done n /\ n = startNode g;
  sd_start : done (startNode g) -> pcfg s (startNode g);
  sd_pssa : forall n, done n -> floating g n -> pssa s n;
  sd_budget : s_b s = b
}.

Lemma valAt_lt s n : n < vlen (nodes_ g) -> valAt g s n = default topLat (vget (s_val s) n).
Proof using Hg.
  intros Hn. unfold valAt. rewrite sg_count by done. destruct (N.leb_spec (vlen (nodes_ g)) n); [lia|done].
Qed.

Lemma vget_replicate {A} c (x : A) n :
  vget (replicate c x) n = if n <? N.of_nat c then Some x else None.
Proof using.
  rewrite vget_lookup. destruct (N.ltb_spec n (N.of_nat c)).
  - rewrite lookup_replicate_2; [done|lia].
  - apply lookup_ge_None. rewrite length_replicate. lia.
Qed.

Lemma seeded_new b : seeded b nothing (newSccp g b).
Proof using Hg.
  assert (forall {A} (x : A), vlen (replicate (N.to_nat (nodeCount g)) x) = vlen (nodes_ g)) as Hlen.
  { intros A x. rewrite sg_count by done. unfold vlen. rewrite length_replicate. lia. }
  assert (forall n, flagAt (replicate (N.to_nat (nodeCount g)) false) n = false) as Hflag.
  { intros n. unfold flagAt. rewrite vget_replicate. by destruct (_ <? _). }
  assert (forall n, default topLat (vget (replicate (N.to_nat (nodeCount g)) topLat) n) = topLat) as Hval.
  { intros n. rewrite vget_replicate. by destruct (_ <? _). }
  split; cbn.
  - split; cbn; try done; try (intros n; rewrite Hflag; done). split; cbn; try apply Hlen.
    intros n. unfold valAt. cbn. rewrite Hval. destruct (_ <=? _); constructor.
  - intros n Hn. split; [done|]. intros _. rewrite valAt_lt by done. apply Hval.
  - intros n. rewrite Hflag. split; [done|]. by intros [? _].
  - done.
  - done.
  - done.
Qed.

Lemma seeded_ext b (P Q : NodeId -> Prop) s :
  (forall n, P n <-> Q n) -> seeded b P s -> seeded b Q s.
Proof using.
  intros H [T1 T2 T3 T4 T5 T6]. split; try done.
  - intros n Hn. rewrite <- H. by apply T2.
  - intros n. rewrite <- H. apply T3.
  - rewrite <- H. apply T4.
  - intros n. rewrite <- H. apply T5.
Qed.

(** Seeding a node that only gets a value. *)
Lemma seeded_val b (P : NodeId -> Prop) s n v :
  seeded b P s -> n < vlen (nodes_ g) -> wf_lat v -> v = seed_val g n -> n <> startNode g ->
  (floating g n -> pssa s n) -> seeded b (fun m => P m \/ m = n) (set_val s n v).
Proof using Hg.
  intros [T1 T2 T3 T4 T5 T6] Hn Hw Hv Hs Hf. split; cbn.
  - by apply tidy_set_val.
  - intros m Hm. rewrite valAt_set_val by done. case_decide as Hd; [subst m; split; [done|tauto]|].
    split; [intros [?|?]; [by apply T2|congruence]|]. intros Hnp. apply T2; tauto.
  - intros m. rewrite T3. split; [tauto|]. intros [[?|?] ?]; [done|congruence].
  - intros [?|?]; [by apply T4|congruence].
  - intros m [?|?] Hfl; [by apply T5|subst; by apply Hf].
  - done.
Qed.

Lemma seeded_same b (P : NodeId -> Prop) s n :
  seeded b P s -> n < vlen (nodes_ g) -> ~ P n -> seed_val g n = topLat -> n <> startNode g ->
  ~ floating g n -> seeded b (fun m => P m \/ m = n) s.
Proof using Hg.
  intros [T1 T2 T3 T4 T5 T6] Hn Hp Hv Hs Hf. split; try done.
  - intros m Hm. split; [|intros Hnp; apply T2; tauto].
    intros [?|?]; [by apply T2|subst]. rewrite Hv. by apply T2.
  - intros m. rewrite T3. split; [tauto|]. intros [[?|?] ?]; [done|congruence].
  - intros [?|?]; [by apply T4|congruence].
  - intros m [?|?] Hfl; [by apply T5|subst; tauto].
Qed.

Lemma seed_val_wf n : wf_lat (seed_val g n).
Proof using.
  unfold seed_val. destruct (_ <=? _); [constructor|]. destruct (isDead _) eqn:Hd; [constructor|].
  destruct (const_kind _) eqn:Hk; [|repeat case_match; constructor].
  constructor. apply canon_constOf. unfold constOf. rewrite Hd. by destruct (nd_kind _).
Qed.

Lemma const_test k :
  kind_eqb k NodeKind.ConstantI || kind_eqb k NodeKind.ConstantL || kind_eqb k NodeKind.ConstantF ||
  kind_eqb k NodeKind.ConstantD || kind_eqb k NodeKind.ConstantNull = const_kind k.
Proof using. by destruct k. Qed.

Lemma start_facts :
  const_kind (nd_kind (node g (startNode g))) = false /\
  isSccpReplaceableK (nd_kind (node g (startNode g))) = false.
Proof using Hg. by rewrite (proj2 (sg_start g Hg)). Qed.

Lemma seeded_node b (P : NodeId -> Prop) s n :
  seeded b P s -> n < vlen (nodes_ g) -> ~ P n ->
  seeded b (fun m => P m \/ m = n) (seed_node g s n).
Proof using Hg.
  intros Hs Hn Hp. pose proof start_facts as [Hsc Hsf]. pose proof (sg_start g Hg) as [[_ Hsd] _].
  pose proof (seed_val_wf n) as Hw. unfold seed_node.
  assert ((vlen (nodes_ g) <=? n) = false) as Hle by by apply N.leb_gt.
  destruct (isDead (node g n)) eqn:Hd.
  { apply seeded_same; try done; [by unfold seed_val; rewrite Hle, Hd|congruence|].
    intros [[_ ?] _]. congruence. }
  rewrite const_test, isSccp_test.
  destruct (const_kind (nd_kind (node g n))) eqn:Hk.
  { apply seeded_val; try done.
    - unfold seed_val in Hw. by rewrite Hle, Hd, Hk in Hw.
    - unfold seed_val. by rewrite Hle, Hd, Hk.
    - congruence.
    - intros [_ Hf]. by destruct (nd_kind (node g n)). }
  destruct (N.eqb_spec n (startNode g)) as [Hst|Hst].
  { pose proof Hs as [T1 T2 T3 T4 T5 T6]. subst n.
    assert ((startNode g <? vlen (s_exec s)) = true) as ->.
    { apply N.ltb_lt. by rewrite (ws_exec _ _ (td_wf _ _ T1)). }
    assert (alive g (startNode g)) as Ha by by split.
    pose proof (grow_mark g Hg (startNode g) s T1 Ha) as Hgw.
    assert (tidy g (set_exec s (startNode g))) as T1'.
    { destruct T1 as [[A1 A2 A3 A4 A5] A6 A7 A8 A9]. split; try done. split; try done.
      cbn. by rewrite vlen_vset. }
    split.
    - by apply Hgw.
    - intros m Hm. rewrite (valAt_val g s) by apply Hgw. split; [|intros; apply T2; tauto].
      intros [?|?]; [by apply T2|subst m].
      unfold seed_val. rewrite Hle, Hd, Hk, N.eqb_refl. by apply T2.
    - intros m. assert (s_exec (pushCfg g (startNode g) (set_exec s (startNode g))) =
        vset (s_exec s) (startNode g) true) as -> by (unfold pushCfg; by repeat case_match).
      rewrite flagAt_set by by rewrite (ws_exec _ _ (td_wf _ _ T1)).
      rewrite orb_true_iff, N.eqb_eq, T3. naive_solver.
    - intros _. by apply pushCfg_pending.
    - intros m [?|?] Hf; [apply Hgw; by apply T5|]. subst m. destruct Hf. congruence.
    - rewrite (gw_budget _ _ _ Hgw). done. }
  assert (startNode g <> n) as Hst' by congruence.
  destruct (isSccpReplaceableK (nd_kind (node g n))) eqn:Hr.
  - assert ((n =? startNode g) = false) as Hst2 by by apply N.eqb_neq.
    assert (seed_val g n = topLat) as Hv by (unfold seed_val; by rewrite Hle, Hd, Hk, Hst2, Hr).
    assert (alive g n) as Ha by by split.
    assert (tidy g (set_val s n topLat)) as Ht by (apply tidy_set_val; [done|apply Hs|done|constructor]).
    pose proof (grow_pushSsa g n (set_val s n topLat) Ht) as Hgw.
    destruct Hs as [T1 T2 T3 T4 T5 T6]. split.
    + by apply Hgw.
    + intros m Hm. rewrite (valAt_val g (set_val s n topLat)) by apply Hgw.
      rewrite valAt_set_val by done. case_decide; [subst m; split; congruence|].
      split; [intros [?|?]; [by apply T2|congruence]|]. intros; apply T2; tauto.
    + intros m. assert (s_exec (pushSsa g n (set_val s n topLat)) = s_exec s) as ->
        by (unfold pushSsa; by repeat case_match).
      rewrite T3. split; [tauto|]. intros [[?|?] ?]; [done|congruence].
    + intros [?|?]; [|congruence]. apply (gw_pcfg _ _ _ Hgw). by apply T4.
    + intros m [?|?] Hf; [apply (gw_pssa _ _ _ Hgw); by apply T5|]. subst m. by apply pushSsa_pending.
    + by rewrite (gw_budget _ _ _ Hgw).
  - apply seeded_val; try done; [constructor| |by intros [_ ?]; congruence].
    unfold seed_val. rewrite Hle, Hd, Hk, Hr. by destruct (N.eqb_spec n (startNode g)).
Qed.

Lemma seeded_fold b l (P : NodeId -> Prop) s :
  seeded b P s -> NoDup l -> (forall n, n ∈ l -> n < vlen (nodes_ g) /\ ~ P n) ->
  seeded b (fun m => P m \/ m ∈ l) (foldl (seed_node g) s l).
Proof using Hg.
  revert P s. induction l as [|n l IH]; intros P s Hs Hnd Hl; cbn [foldl].
  { revert Hs. apply seeded_ext. intros m. rewrite elem_of_nil. tauto. }
  apply NoDup_cons in Hnd as [Hn Hnd]. destruct (Hl n) as [Hlt Hp]; [by apply elem_of_cons; left|].
  eapply seeded_ext; [|apply (IH (fun m => P m \/ m = n)); [by apply seeded_node|done|]].
  - intros m. cbn beta. rewrite elem_of_cons. tauto.
  - intros m Hm. destruct (Hl m) as [H1 H2]; [by apply elem_of_cons; right|]. split; [done|].
    intros [?|?]; [done|by subst].
Qed.

Lemma seed_seeded b : seeded b (fun m => m < vlen (nodes_ g)) (seed g b).
Proof using Hg.
  unfold seed. eapply seeded_ext; [|apply seeded_fold; [apply seeded_new|apply NoDup_indices|]].
  - intros m. cbn beta. rewrite elem_of_indices, sg_count by done. unfold nothing. tauto.
  - intros n Hn%elem_of_indices. rewrite sg_count in Hn by done. split; [done|by intros []].
Qed.

Lemma obl_seed b : obl g nothing nothing (seed g b).
Proof using Hg.
  pose proof (seed_seeded b) as [T1 T2 T3 T4 T5 T6]. pose proof (sg_start g Hg) as [[Hst _] _].
  assert (forall c, execAt (seed g b) c = true -> pcfg (seed g b) c) as Hex
    by (intros c [_ ->]%T3; by apply T4).
  split; try done.
  - intros n Hn. destruct (N.lt_ge_cases n (vlen (nodes_ g))); [by apply T2|].
    unfold seed_val, valAt. rewrite sg_count by done.
    destruct (N.leb_spec (vlen (nodes_ g)) n); [done|lia].
  - intros n [[Hn Hd] Hk]. right. rewrite (proj1 (T2 n Hn) Hn). unfold seed_val.
    destruct (N.leb_spec (vlen (nodes_ g)) n); [lia|]. rewrite Hd, Hk.
    destruct (const_kind _) eqn:Hc; [by destruct (nd_kind (node g n))|].
    destruct (_ =? _); apply lle_top.
  - by apply T3.
  - intros c u i _ He%Hex Hp. done.
  - intros n Hn _ Hp. destruct Hp. apply T5; [apply Hn|done].
  - intros n r j Hn _ _ _ _ _ _ _ _ _ _ _ _ _ Hp. destruct Hp. apply T5; [apply Hn|done].
Qed.

(** The analysis ends: a turn of the loop per unit of budget, a round of the
    completion per node. *)
Lemma analyse_total fuel pfuel b :
  b_limit b < 4294967296 -> (N.to_nat (b_limit b - b_used b) < pfuel)%nat ->
  (N.to_nat (vlen (nodes_ g)) < fuel)%nat ->
  exists s, analyse fuel pfuel g b = Some s /\
    b_limit (s_b s) = b_limit b /\ b_used b <= b_used (s_b s) /\
    (b_exceeded (s_b s) = false -> b_exceeded b = false /\ settled g s).
Proof using Hg.
  intros Hmax Hpf Hf. pose proof (obl_seed b) as O. pose proof (sd_budget _ _ _ (seed_seeded b)) as Hb.
  unfold analyse.
  destruct (propagate_total g Hg pfuel (seed g b) O) as (s & -> & [O1 D1 [L1 U1] N1]);
    [by rewrite Hb..|]. rewrite Hb in *.
  destruct (b_exceeded (s_b s)) eqn:He.
  { exists s. split_and!; try done. congruence. }
  destruct (N1 eq_refl) as [He0 Hnp].
  destruct (stabilize_total g Hg fuel pfuel s) as (s' & -> & D2 & O2 & L2 & U2 & N2); try done.
  - by rewrite L1.
  - rewrite L1. lia.
  - pose proof (tops_bound g s). lia.
  - exists s'. split_and!; [done|congruence|lia|]. auto.
Qed.
End Graph.

(** ** Executions *)

Abbreviation env := (NodeId -> option jval).

Definition computed_kind (k : NodeKind) : bool :=
  java_bin_kind k || java_un_kind k || kind_eqb k NodeKind.Phi || const_kind k.

(** The values the nodes may have in a state. An operator reads its operands; a
    node that is neither an operator nor a constant has the value the state gives
    it. A control or memory state is not a value. *)
Inductive evals (g : Graph) (phi omega : env) : NodeId -> jval -> Prop :=
| ev_const n v :
    alive g n -> cval (constOf g n) = Some v -> jval_ok v -> evals g phi omega n v
| ev_phi n v :
    alive g n -> nd_kind (node g n) = NodeKind.Phi -> phi n = Some v -> jval_ok v ->
    evals g phi omega n v
| ev_bin n a b v :
    alive g n -> has_slot g n 0 -> has_slot g n 1 ->
    evals g phi omega (input g n 0) a -> evals g phi omega (input g n 1) b ->
    java_bin (nd_kind (node g n)) a b v -> jval_ok v -> evals g phi omega n v
| ev_un n a v :
    alive g n -> has_slot g n 0 -> evals g phi omega (input g n 0) a ->
    java_un (nd_kind (node g n)) a v -> jval_ok v -> evals g phi omega n v
| ev_opaque n v :
    alive g n -> n <> startNode g -> computed_kind (nd_kind (node g n)) = false ->
    omega n = Some v -> jval_ok v -> evals g phi omega n v.

(** Control goes from [c] to [u] along the edge in slot [i] of [u]. *)
Definition flows (g : Graph) (phi omega : env) (c u i : N) : Prop :=
  alive g u /\ has_slot g u i /\ input g u i = c /\
  match nd_kind (node g c) with
  | NodeKind.If =>
      i = 0 /\ has_slot g c 1 /\ exists z, evals g phi omega (input g c 1) (JI z) /\
      nd_kind (node g u) = if (z =? 0)%Z then NodeKind.IfFalse else NodeKind.IfTrue
  | NodeKind.Switch =>
      i = 0 /\ (nd_kind (node g u) = NodeKind.SwitchCase \/
                nd_kind (node g u) = NodeKind.SwitchDefault)
  | NodeKind.Guard =>
      has_slot g c 1 /\ control_slot g u i /\
      exists z, evals g phi omega (input g c 1) (JI z) /\ z <> 0%Z
  | NodeKind.Return | NodeKind.Unwind | NodeKind.Deopt | NodeKind.End => False
  | _ => control_slot g u i
  end.

(** Arriving at [u] through slot [i], the Phis of [u] take the values of their
    input [i + 1], all at once; the others keep theirs. *)
Definition phis_step (g : Graph) (phi omega : env) (u i : N) (phi' : env) : Prop :=
  forall n v, alive g n -> nd_kind (node g n) = NodeKind.Phi -> phi' n = Some v ->
    if decide (isRegionLikeK (nd_kind (node g u)) = true /\ has_slot g n 0 /\ input g n 0 = u)
    then has_slot g n (i + 1) /\ evals g phi omega (input g n (i + 1)) v
    else phi n = Some v.

(** The NeverNull facts are true. *)
Definition honest (g : Graph) (phi omega : env) : Prop :=
  forall n, isNeverNullNode g n = true -> ~ evals g phi omega n (JRef None).

Inductive reach (g : Graph) : NodeId -> env -> env -> Prop :=
| reach_start omega :
    honest g (fun _ => None) omega -> reach g (startNode g) (fun _ => None) omega
| reach_step c phi omega u i phi' omega' :
    reach g c phi omega -> flows g phi omega c u i ->
    nd_kind (node g u) <> NodeKind.Phi ->
    phis_step g phi omega u i phi' -> honest g phi' omega' -> reach g u phi' omega'.

(** The receiver of an [InstanceOf] is not known to be non-null: the case the
    evaluation gets wrong. *)
Definition no_known_instanceof (g : Graph) : Prop :=
  forall n, alive g n -> nd_kind (node g n) = NodeKind.InstanceOf ->
    isNeverNullNode g (input g n 0) = false.

(** What the analysis claims in a state. *)
Definition claims (g : Graph) (s : Sccp) (phi omega : env) : Prop :=
  forall n v k, evals g phi omega n v -> valAt g s n = constLat k -> cval k = Some v.

Lemma java_bin_ref k a b r : ~ java_bin k a b (JRef r).
Proof. intros H. destruct k; try done; destruct a; try done; by destruct b. Qed.

Lemma java_un_ref k a r : ~ java_un k a (JRef r).
Proof. intros H. destruct k; try done; destruct a as [| | | |[]|]; done. Qed.

(** A reference is a constant, what a Phi holds or what the state provides. *)
Lemma evals_ref_inv g phi omega n q :
  evals g phi omega n (JRef q) ->
  cval (constOf g n) = Some (JRef q) \/
  nd_kind (node g n) = NodeKind.Phi /\ phi n = Some (JRef q) \/
  computed_kind (nd_kind (node g n)) = false /\ omega n = Some (JRef q).
Proof.
  intros Hq. inversion Hq as [? ? ? Hc|? ? ? Hk Hp|? a b ? _ _ _ _ _ Hj _|? a ? _ _ _ Hj _|? ? ? ? Hk Ho];
    subst; auto; exfalso; [by apply java_bin_ref in Hj|by apply java_un_ref in Hj].
Qed.

Lemma evals_ref_unique g phi omega n r r' :
  evals g phi omega n (JRef r) -> evals g phi omega n (JRef r') -> r = r'.
Proof.
  assert (forall q, cval (constOf g n) = Some (JRef q) -> const_kind (nd_kind (node g n)) = true) as Hck.
  { intros q. unfold constOf. destruct (isDead _); [done|]. by destruct (nd_kind _). }
  intros [H|[[Hk H]|[Hk H]]]%evals_ref_inv [H'|[[Hk' H']|[Hk' H']]]%evals_ref_inv; try congruence;
    try (apply Hck in H); try (apply Hck in H'); try (rewrite Hk in *; done); try (rewrite Hk' in *; done).
  - unfold computed_kind in Hk'. by rewrite H, orb_true_r in Hk'.
  - unfold computed_kind in Hk. by rewrite H', orb_true_r in Hk.
Qed.

Section Soundness.
Context (g : Graph) (Hg : sccp_graph g) (Hio : no_known_instanceof g).
Context (s : Sccp) (Hs : settled g s).

Lemma computed_kind_spec k : computed_kind k = isSccpReplaceableK k || const_kind k.
Proof using. by destruct k. Qed.

Lemma evals_alive phi omega n v : evals g phi omega n v -> alive g n.
Proof using. by destruct 1. Qed.

Lemma evals_ok phi omega n v : evals g phi omega n v -> jval_ok v.
Proof using. by destruct 1. Qed.

Lemma settled_eval n :
  floating g n -> nd_kind (node g n) <> NodeKind.Phi ->
  valAt g s n = botLat \/ valAt g s n = evalNode g s n.
Proof using Hs.
  intros Hn Hk. pose proof (se_obl _ _ Hs) as O. pose proof (se_none _ _ Hs) as [_ Hnp].
  destruct (ob_over _ _ _ _ O n Hn) as [?|H1]; [by left|].
  pose proof (ob_eval _ _ _ _ O n Hn Hk (Hnp n) (fun H => H)) as H2.
  destruct H2 as [?|[H2|H2]]; [by left| |by right].
  right. rewrite H2 in H1. apply lle_top_inv in H1. congruence.
Qed.

Lemma uses_lt n : vlen (usesOf g n) < 4294967296.
Proof using Hg. pose proof (uses_bound g n (sg_ok g Hg)). pose proof (sg_pool g Hg). lia. Qed.

Lemma liveUseCount_pos n u i :
  alive g u -> has_slot g u i -> input g u i = n -> n < vlen (nodes_ g) -> liveUseCount g n <> 0.
Proof using Hg.
  intros [_ Hd] Hi Hin Hn.
  assert (mkUse u i ∈ usesOf g n) as Hu by (apply elem_of_usesOf; [apply Hg|done|done]).
  pose proof (uses_lt n) as Hlen. unfold liveUseCount. revert Hu Hlen. unfold vlen.
  assert (forall l acc, acc + N.of_nat (length l) < 4294967296 ->
    (acc <> 0 \/ mkUse u i ∈ l) ->
    foldl (fun live u => if negb (isDead (node g (u_user u))) then u32 (live + 1) else live) acc l <> 0)
    as H.
  { intros l. induction l as [|x l IH]; intros acc Hb Hor; cbn [foldl length] in *.
    - destruct Hor as [?|?%not_elem_of_nil]; done.
    - destruct (isDead (node g (u_user x))) eqn:Hx; cbn [negb].
      + apply IH; [lia|]. destruct Hor as [?|[<-|?]%elem_of_cons]; [by left| |by right].
        cbn in Hx. congruence.
      + rewrite u32_small by (unfold fits32; lia). apply IH; lia. }
  intros Hu Hlen. apply H; [lia|by right].
Qed.

(** A value that is used by a live node is resolved. *)
Lemma used_resolved phi omega n u i v :
  alive g u -> has_slot g u i -> input g u i = n -> evals g phi omega n v -> valAt g s n <> topLat.
Proof using Hg Hs.
  intros Hu Hi Hin Hv Ht. pose proof (evals_alive _ _ _ _ Hv) as Hn.
  destruct (isSccpReplaceableK (nd_kind (node g n))) eqn:Hk.
  { apply (se_resolved _ _ Hs n). split; [by split|]. split; [done|].
    eapply liveUseCount_pos; [exact Hu|exact Hi|done|apply Hn]. }
  rewrite (ob_seed _ _ _ _ (se_obl _ _ Hs)) in Ht by (intros [_ ?]; congruence).
  unfold seed_val in Ht. destruct Hn as [Hn Hd]. rewrite Hd, Hk in Ht.
  destruct (N.leb_spec (vlen (nodes_ g)) n); [lia|].
  destruct (const_kind _) eqn:Hc; [done|]. destruct (N.eqb_spec n (startNode g)) as [Heq|]; [|done].
  pose proof (proj2 (sg_start g Hg)) as Hst. rewrite <- Heq in Hst. clear Ht Hin Hc Hk.
  destruct Hv as [n v _ Hw _|n v _ Hw _ _|n a b v _ _ _ _ _ Hw _|n a v _ _ _ Hw _|n v _ Hw _ _ _];
    try congruence; try (rewrite Hst in Hw; done).
  unfold constOf in Hw. by rewrite Hd, Hst in Hw.
Qed.

(** ** Reading an evaluation *)

Lemma operand_input n i : has_slot g n i -> operand g s n i = valAt g s (input g n i).
Proof using.
  intros [_ Hi]. unfold operand, numInputs in *. destruct (N.leb_spec (nd_numInputs (node g n)) i); [lia|done].
Qed.

Lemma inputOf_input n i : has_slot g n i -> inputOf g n i = input g n i.
Proof using.
  intros [_ Hi]. unfold inputOf, numInputs in *. apply N.ltb_lt in Hi. by rewrite Hi.
Qed.

Lemma never_null_ref phi omega n r :
  honest g phi omega -> isNeverNullNode g n = true -> evals g phi omega n (JRef r) -> r <> None.
Proof using. intros Hh Hn He ->. by eapply Hh. Qed.

(** The reference tests. *)
Lemma evalRefTest_sound phi omega n k a v c :
  honest g phi omega -> alive g n -> nd_kind (node g n) = k ->
  k = NodeKind.IsNull \/ k = NodeKind.InstanceOf -> has_slot g n 0 ->
  evals g phi omega (input g n 0) a ->
  (forall c, valAt g s (input g n 0) = constLat c -> cval c = Some a) ->
  java_un k a v -> evalRefTest g s n k = constLat c -> cval c = Some v.
Proof using Hg Hio Hs.
  intros Hh Hn Hkn Hk H0 Ha Hc Hj. unfold evalRefTest.
  rewrite (operand_input n 0 H0), (inputOf_input n 0 H0).
  assert (exists r, a = JRef r) as [r ->].
  { destruct Hk as [-> | ->]; destruct a, v; cbn in Hj; try done; eauto. }
  destruct (is_null _) eqn:Hnull.
  - apply is_null_inv in Hnull; [|apply (ob_tidy _ _ _ _ (se_obl _ _ Hs))].
    specialize (Hc _ Hnull). injection Hc as <-. intros [= <-].
    destruct Hk as [-> | ->]; destruct v; cbn in Hj; try done; subst; done.
  - destruct (sccp_live _ _ && isNeverNullNode _ _) eqn:Hnn; [|by destruct (lv _)].
    apply andb_true_iff in Hnn as [_ Hnn]. intros [= <-].
    pose proof (never_null_ref _ _ _ _ Hh Hnn Ha) as Hr.
    destruct Hk as [-> | ->]; [|pose proof (Hio n Hn Hkn); congruence].
    destruct r, v; cbn in Hj; try done. subst. done.
Qed.

Lemma evalRefEq_sound phi omega n a b v c :
  honest g phi omega -> has_slot g n 0 -> has_slot g n 1 ->
  evals g phi omega (input g n 0) a -> evals g phi omega (input g n 1) b ->
  (forall c, valAt g s (input g n 0) = constLat c -> cval c = Some a) ->
  (forall c, valAt g s (input g n 1) = constLat c -> cval c = Some b) ->
  java_bin NodeKind.RefEq a b v -> evalRefEq g s n = constLat c -> cval c = Some v.
Proof using Hs.
  intros Hh H0 H1 Ha Hb Ca Cb Hj. unfold evalRefEq.
  rewrite (operand_input n 0 H0), (inputOf_input n 0 H0), (operand_input n 1 H1), (inputOf_input n 1 H1).
  destruct a as [| | | |r|]; try done; destruct b as [| | | |r'|]; try done; destruct v as [z| | | | |]; try done.
  cbn in Hj. subst z. pose proof (td_wf _ _ (ob_tidy _ _ _ _ (se_obl _ _ Hs))) as Hw.
  destruct (negb _ && _) eqn:Hsame.
  { apply andb_true_iff in Hsame as [_ Heq%N.eqb_eq]. rewrite Heq in Ha. intros [= <-].
    by rewrite (evals_ref_unique _ _ _ _ _ _ Ha Hb), bool_decide_true. }
  assert (is_null (valAt g s (input g n 0)) = true -> r = None) as Na.
  { intros Hn%is_null_inv; [|apply Hw]. by injection (Ca _ Hn). }
  assert (is_null (valAt g s (input g n 1)) = true -> r' = None) as Nb.
  { intros Hn%is_null_inv; [|apply Hw]. by injection (Cb _ Hn). }
  destruct (is_null (valAt g s (input g n 0)) && is_null (valAt g s (input g n 1))) eqn:H2.
  { apply andb_true_iff in H2 as [-> %Na -> %Nb]. intros [= <-]. done. }
  destruct (_ || _) eqn:H3; [|by repeat case_match]. intros [= <-].
  rewrite bool_decide_false; [done|]. intros ->.
  apply orb_true_iff in H3 as [[[H3 _]%andb_true_iff Hnn]%andb_true_iff|[[H3 _]%andb_true_iff Hnn]%andb_true_iff].
  - specialize (Na H3). subst. by apply (never_null_ref _ _ _ _ Hh Hnn Hb).
  - specialize (Nb H3). subst. by apply (never_null_ref _ _ _ _ Hh Hnn Ha).
Qed.

(** ** Every claim holds in every state *)

Lemma kind_eqb_neq k k' : k <> k' <-> kind_eqb k k' = false.
Proof using. rewrite <- not_true_iff_false. by rewrite kind_eqb_spec. Qed.

Lemma eval_kinds k :
  (k = NodeKind.IsNull \/ k = NodeKind.InstanceOf) \/ k = NodeKind.RefEq \/
  (java_un_kind k = true -> isUnaryEvalK k = true) /\
  (java_bin_kind k = true -> isUnaryEvalK k = false /\ isBinaryEvalK k = true).
Proof using. destruct k; auto. Qed.

Lemma eval_floating n k :
  alive g n -> nd_kind (node g n) = k -> java_un_kind k = true \/ java_bin_kind k = true ->
  floating g n /\ k <> NodeKind.Phi.
Proof using. intros Hn <- H. split; [split; [done|]|]; by destruct (nd_kind (node g n)), H. Qed.

Lemma un_sound phi omega n a v c :
  honest g phi omega -> alive g n -> has_slot g n 0 ->
  evals g phi omega (input g n 0) a ->
  (forall c, valAt g s (input g n 0) = constLat c -> cval c = Some a) ->
  java_un (nd_kind (node g n)) a v -> valAt g s n = constLat c -> cval c = Some v.
Proof using Hg Hio Hs.
  intros Hh Hn H0 Ha Ca Hj Hv. pose proof (java_un_kind_of _ _ _ Hj) as Hk.
  destruct (eval_floating n _ Hn eq_refl (or_introl Hk)) as [Hf Hp].
  destruct (settled_eval n Hf Hp) as [H|H]; rewrite Hv in H; [done|].
  unfold evalNode in H. apply kind_eqb_neq in Hp. rewrite Hp in H.
  destruct (eval_kinds (nd_kind (node g n))) as [Href|[Href|[Hun _]]].
  - assert (kind_eqb (nd_kind (node g n)) NodeKind.IsNull ||
      kind_eqb (nd_kind (node g n)) NodeKind.InstanceOf = true) as Ht by (by destruct Href as [-> | ->]).
    rewrite Ht in H. by eapply (evalRefTest_sound phi omega n (nd_kind (node g n)) a).
  - by rewrite Href in Hk.
  - specialize (Hun Hk). rewrite Hun in H.
    assert (kind_eqb (nd_kind (node g n)) NodeKind.IsNull ||
      kind_eqb (nd_kind (node g n)) NodeKind.InstanceOf = false) as Ht by (by destruct (nd_kind (node g n))).
    assert (kind_eqb (nd_kind (node g n)) NodeKind.RefEq = false) as Ht'
      by (by destruct (nd_kind (node g n))).
    rewrite Ht, Ht', (operand_input n 0 H0) in H.
    destruct (lv (valAt g s (input g n 0))) eqn:Hlv; [done| |done].
    assert (valAt g s (input g n 0) = constLat (lc (valAt g s (input g n 0)))) as Hc
      by (destruct (valAt g s (input g n 0)); cbn in *; by subst).
    specialize (Ca _ Hc). destruct (evalUnaryOp _ _) as [c'|] eqn:He; [|done]. injection H as ->.
    destruct (canon_cval c') as [v' Hv']; [by eapply evalUnaryOp_numeric|].
    rewrite Hv'. f_equal. symmetry.
    eapply (evalUnaryOp_unique _ _ _ _ _ _ Ca); [by eapply evals_ok|exact He|exact Hv'|exact Hj].
Qed.

Lemma bin_sound phi omega n a b v c :
  honest g phi omega -> alive g n -> has_slot g n 0 -> has_slot g n 1 ->
  evals g phi omega (input g n 0) a -> evals g phi omega (input g n 1) b ->
  (forall c, valAt g s (input g n 0) = constLat c -> cval c = Some a) ->
  (forall c, valAt g s (input g n 1) = constLat c -> cval c = Some b) ->
  java_bin (nd_kind (node g n)) a b v -> valAt g s n = constLat c -> cval c = Some v.
Proof using Hg Hio Hs.
  intros Hh Hn H0 H1 Ha Hb Ca Cb Hj Hv. pose proof (java_bin_kind_of _ _ _ _ Hj) as Hk.
  destruct (eval_floating n _ Hn eq_refl (or_intror Hk)) as [Hf Hp].
  destruct (settled_eval n Hf Hp) as [H|H]; rewrite Hv in H; [done|].
  unfold evalNode in H. apply kind_eqb_neq in Hp. rewrite Hp in H.
  destruct (eval_kinds (nd_kind (node g n))) as [Href|[Href|[_ Hbin]]].
  - by destruct Href as [Href|Href]; rewrite Href in Hk.
  - rewrite Href in H, Hj. cbn in H. by eapply (evalRefEq_sound phi omega n a b).
  - destruct (Hbin Hk) as [Hun _]. rewrite Hun in H.
    destruct (decide (nd_kind (node g n) = NodeKind.RefEq)) as [Href|Href].
    { rewrite Href in H, Hj. cbn in H. by eapply (evalRefEq_sound phi omega n a b). }
    assert (kind_eqb (nd_kind (node g n)) NodeKind.IsNull ||
      kind_eqb (nd_kind (node g n)) NodeKind.InstanceOf = false) as Ht by (by destruct (nd_kind (node g n))).
    apply kind_eqb_neq in Href.
    rewrite Ht, Href, (operand_input n 0 H0), (operand_input n 1 H1) in H.
    destruct (lv (valAt g s (input g n 0))) eqn:L0, (lv (valAt g s (input g n 1))) eqn:L1; try done.
    assert (valAt g s (input g n 0) = constLat (lc (valAt g s (input g n 0)))) as C0
      by (destruct (valAt g s (input g n 0)); cbn in *; by subst).
    assert (valAt g s (input g n 1) = constLat (lc (valAt g s (input g n 1)))) as C1
      by (destruct (valAt g s (input g n 1)); cbn in *; by subst).
    specialize (Ca _ C0). specialize (Cb _ C1).
    destruct (evalBinOp _ _ _) as [c'|] eqn:He; [|done]. injection H as ->.
    destruct (canon_cval c') as [v' Hv']; [by eapply evalBinOp_numeric|].
    rewrite Hv'. f_equal. symmetry.
    eapply (evalBinOp_unique _ _ _ _ _ _ _ _ Ca Cb); [by eapply evals_ok..|exact He|exact Hv'|exact Hj].
Qed.

Definition phi_claims (phi : env) : Prop :=
  forall n v k, alive g n -> nd_kind (node g n) = NodeKind.Phi -> phi n = Some v ->
    valAt g s n = constLat k -> cval k = Some v.

Lemma unfloating_val n k :
  alive g n -> isSccpReplaceableK (nd_kind (node g n)) = false -> valAt g s n = constLat k ->
  const_kind (nd_kind (node g n)) = true /\ k = constOf g n.
Proof using Hs.
  intros [Hn Hd] Hk Hv. rewrite (ob_seed _ _ _ _ (se_obl _ _ Hs)) in Hv by (intros [_ ?]; congruence).
  unfold seed_val in Hv. rewrite Hd, Hk in Hv. destruct (N.leb_spec (vlen (nodes_ g)) n); [lia|].
  destruct (const_kind _); [|by destruct (_ =? _)]. by injection Hv as <-.
Qed.

Lemma evals_sound phi omega : honest g phi omega -> phi_claims phi -> claims g s phi omega.
Proof using Hg Hio Hs.
  intros Hh Hp n v k He. revert k.
  induction He as [n v Hn Hc _|n v Hn Hk Hpn _|n a b v Hn H0 H1 Ha IHa Hb IHb Hj _
                  |n a v Hn H0 Ha IHa Hj _|n v Hn Hst Hk Ho _]; intros k Hv.
  - destruct (unfloating_val n k Hn) as [_ ->]; [|done|done].
    revert Hc. unfold constOf. destruct (isDead _); [done|]. by destruct (nd_kind _).
  - by eapply Hp.
  - by eapply (bin_sound phi omega n a b).
  - by eapply (un_sound phi omega n a).
  - rewrite computed_kind_spec in Hk. apply orb_false_iff in Hk as [Hk Hck].
    destruct (unfloating_val n k Hn Hk Hv). congruence.
Qed.

(** ** Control stays on executable edges *)

Lemma flows_may_flow phi omega c u i :
  claims g s phi omega -> alive g c -> flows g phi omega c u i -> may_flow g s c u i.
Proof using Hg Hs.
  intros Hcl Hc (Hu & Hs' & Hi & Hf). split_and!; [done..|].
  assert (forall z, has_slot g c 1 -> evals g phi omega (input g c 1) (JI z) ->
    2 <= numInputs g c /\ (valAt g s (input g c 1) = botLat \/
      valAt g s (input g c 1) = constLat (constOfI z))) as Hcond.
  { intros z H1 Hz. split; [destruct H1; lia|].
    pose proof (used_resolved phi omega _ c 1 _ Hc H1 eq_refl Hz) as Hnt.
    pose proof (fun k => Hcl _ _ k Hz) as Hk. revert Hnt Hk. destruct (ws_wf _ _ (td_wf _ _ (ob_tidy _ _ _ _ (se_obl _ _ Hs))) (input g c 1))
      as [| |k Hc0]; intros Hnt Hk; [done|by left|right]. specialize (Hk k eq_refl).
    destruct Hc0 as [[? ->]|[[? ->]|[[? ->]|[[? ->]| ->]]]]; try discriminate Hk. by injection Hk as ->. }
  destruct (nd_kind (node g c)); try done.
  - destruct Hf as (-> & H1 & z & Hz & Hk). destruct (Hcond z H1 Hz) as [H2 Hv]. split_and!; [done..|].
    destruct (Z.eqb_spec z 0) as [->|Hne]; [right|left]; (split; [done|]);
      destruct Hv as [-> | ->]; try done. cbn. by destruct (Z.eqb_spec z 0).
  - destruct Hf as (H1 & Hsl & z & Hz & Hne). destruct (Hcond z H1 Hz) as [H2 Hv]. split_and!; [done| |done].
    destruct Hv as [-> | ->]; [done|]. cbn. by destruct (Z.eqb_spec z 0).
Qed.

Record state_ok (c : NodeId) (phi omega : env) : Prop := {
  so_alive : alive g c;
  so_exec : execAt s c = true;
  so_honest : honest g phi omega;
  so_phi : phi_claims phi
}.

Lemma step_sound c phi omega u i phi' omega' :
  state_ok c phi omega -> flows g phi omega c u i -> phis_step g phi omega u i phi' ->
  honest g phi' omega' -> state_ok u phi' omega'.
Proof using Hg Hio Hs.
  intros [Ha He Hh Hp] Hf Hph Hh'. pose proof (evals_sound _ _ Hh Hp) as Hcl.
  pose proof (flows_may_flow _ _ _ _ _ Hcl Ha Hf) as Hm. pose proof Hf as (Hu & Hsl & Hin & _).
  pose proof (se_none _ _ Hs) as [Hnc Hns]. pose proof (se_obl _ _ Hs) as O.
  assert (execAt s u = true) as Heu by (exact (ob_flow _ _ _ _ O c u i Ha He (Hnc c) (fun H => H) Hm)).
  split; [done|done|done|].
  intros n v k Hn Hk Hv Hval. specialize (Hph n v Hn Hk Hv).
  case_decide as Hd; [|by eapply Hp]. destruct Hd as (Hreg & H0 & Hi0). destruct Hph as [Hs1 Hev].
  assert (floating g n) as Hfl by (split; [done|by rewrite Hk]).
  pose proof (ob_phi _ _ _ _ O n u i Hfl Hk H0 Hi0 Hu Hreg Heu) as Harm. rewrite Hin in Harm.
  specialize (Harm Ha He Hm (Hnc c) (fun H => H) (Hnc u) (fun H => H) (Hns n) (fun H => H)).
  rewrite Hval in Harm. unfold phi_arm in Harm.
  destruct (N.leb_spec (nd_numInputs (node g n)) (i + 1)) as [Hle|Hlt].
  { destruct Hs1 as [_ Hs1]. unfold numInputs in Hs1. lia. }
  rewrite u16_small in Harm.
  2:{ pose proof (sg_inputs g Hg n). unfold fits16, numInputs in *. lia. }
  pose proof (used_resolved phi omega _ n (i + 1) v Hn Hs1 eq_refl Hev) as Hnt.
  destruct Harm as [?|[?|Harm]]; [done|done|]. by eapply Hcl.
Qed.

(** Every value SCCP claims constant is that constant in every execution. *)
Lemma reach_sound c phi omega : reach g c phi omega -> state_ok c phi omega.
Proof using Hg Hio Hs.
  induction 1 as [omega Hh|c phi omega u i phi' omega' _ IH Hf _ Hph Hh]; [|by eapply step_sound].
  split; [apply Hg|apply (se_obl _ _ Hs)|done|done].
Qed.
End Soundness.
