(* ===== verification/SccpApply.v ===== *)
(** * Applying the constants keeps every execution

    [rewritten g s h]: [h] is [g] with some nodes removed, all of them claimed
    constant, whose readers read a constant node that carries the claim. The
    apply phase reaches only such graphs, and in such a graph every execution of
    [g] is still possible, with the same control and the same values. *)

From Stdlib Require Import SpecFloat.
From S2P Require Import Prelude IRTypes Effect NodeInfo SmallVector Graph GraphInv GraphReplace.
From S2P Require Import ResultType PassSupport PassLaw PassGrow PassRewire.
From S2P Require Import Machine JavaSem ConstFold Simplify SimplifyValues SCCP.
From S2P Require Import SccpLattice SccpFix SccpSound.

Local Open Scope N_scope.

(** The live node [r] denotes the constant [k], when [k] is in the range of its
    type. *)
Definition carries (h : Graph) (r : NodeId) (k : ConstVal) : Prop :=
  alive h r /\ forall v, cval k = Some v -> jval_ok v -> cval (constOf h r) = Some v.

Record rewritten (g : Graph) (s : Sccp) (h : Graph) : Prop := {
  rt_start : startNode h = startNode g;
  rt_count : vlen (nodes_ g) <= vlen (nodes_ h);
  rt_node : forall m, m < vlen (nodes_ g) -> alive h m -> alive g m /\ node h m = node g m;
  rt_input : forall m i, m < vlen (nodes_ g) -> alive h m -> has_slot g m i ->
    input h m i = input g m i \/
    exists k, floating g (input g m i) /\ valAt g s (input g m i) = constLat k /\
      vlen (nodes_ g) <= input h m i /\ carries h (input h m i) k;
  rt_dead : forall m, alive g m -> ~ alive h m ->
    floating g m /\ exists k, valAt g s m = constLat k;
  rt_new : forall m, vlen (nodes_ g) <= m < vlen (nodes_ h) ->
    nd_flags (node h m) = 0 /\ sink_kind (nd_kind (node h m)) = true
}.

(** ** Every execution is kept *)

Section Simulation.
Context (g : Graph) (Hg : sccp_graph g) (Hio : no_known_instanceof g).
Context (s : Sccp) (Hs : settled g s).
Context (h : Graph) (Hl : law h) (R : rewritten g s h).

Lemma rt_slot m i : m < vlen (nodes_ g) -> alive h m -> has_slot g m i -> has_slot h m i.
Proof using R.
  intros Hm Ha [_ Hi]. split; [apply Ha|]. unfold numInputs. by rewrite (proj2 (rt_node _ _ _ R m Hm Ha)).
Qed.

Lemma constOf_node m : m < vlen (nodes_ g) -> alive h m -> constOf h m = constOf g m.
Proof using R. intros Hm Ha. unfold constOf. by rewrite (proj2 (rt_node _ _ _ R m Hm Ha)). Qed.

Lemma evals_kept phi omega :
  claims g s phi omega ->
  forall n v, evals g phi omega n v ->
    (alive h n -> evals h phi omega n v) /\
    (forall m i, m < vlen (nodes_ g) -> alive h m -> has_slot g m i -> input g m i = n ->
       evals h phi omega (input h m i) v).
Proof using Hg Hl R.
  intros Hcl.
  assert (forall n v, evals g phi omega n v -> (alive h n -> evals h phi omega n v) ->
    forall m i, m < vlen (nodes_ g) -> alive h m -> has_slot g m i -> input g m i = n ->
       evals h phi omega (input h m i) v) as Hedge.
  { intros n v Hv Hn m i Hm Ha Hi Hin.
    destruct (rt_input _ _ _ R m i Hm Ha Hi) as [He|(k & Hf & Hk & _ & Hc & Hcv)].
    - rewrite He, Hin. apply Hn. rewrite <- Hin, <- He. split.
      + apply (law_closed h Hl). by apply rt_slot.
      + apply (law_alive h Hl). by apply rt_slot.
    - rewrite Hin in Hk. pose proof (Hcl _ _ _ Hv Hk) as Hkv.
      pose proof (evals_ok _ _ _ _ _ Hv) as Hok. apply ev_const; [done|by apply Hcv|done]. }
  intros n v Hv.
  assert (alive h n -> evals h phi omega n v) as Hn; [|split; [done|by eapply Hedge]].
  induction Hv as [n v Hn Hc Hok|n v Hn Hk Hpn Hok|n a b v Hn H0 H1 Ha IHa Hb IHb Hj Hok
                  |n a v Hn H0 Ha IHa Hj Hok|n v Hn Hst Hk Ho Hok]; intros Hh;
    pose proof (proj1 Hn) as Hlt; pose proof (proj2 (rt_node _ _ _ R n Hlt Hh)) as Hnode.
  - apply ev_const; [done| |done]. by rewrite constOf_node.
  - apply ev_phi; try done. by rewrite Hnode.
  - apply (ev_bin h phi omega n a b); try done; try by apply rt_slot.
    + by apply (Hedge _ _ Ha IHa).
    + by apply (Hedge _ _ Hb IHb).
    + by rewrite Hnode.
  - apply (ev_un h phi omega n a); try done; try by apply rt_slot.
    + by apply (Hedge _ _ Ha IHa).
    + by rewrite Hnode.
  - apply ev_opaque; try done; [by rewrite (rt_start _ _ _ R)|by rewrite Hnode].
Qed.

Lemma input_kept c u i phi omega :
  claims g s phi omega -> alive g c -> ~ floating g c -> alive h u -> has_slot g u i ->
  input g u i = c -> input h u i = c.
Proof using R.
  intros Hcl Hc Hnf Hu Hi Hin.
  destruct (rt_input _ _ _ R u i (proj1 Hi) Hu Hi) as [He|(k & Hf & _)]; [congruence|].
  rewrite Hin in Hf. done.
Qed.

Lemma honest_kept phi omega : honest g phi omega -> honest h phi omega.
Proof using Hg R.
  intros Hh n Hnn Hv. pose proof (evals_alive _ _ _ _ _ Hv) as Ha.
  destruct (N.lt_ge_cases n (vlen (nodes_ g))) as [Hlt|Hge].
  2:{ destruct (rt_new _ _ _ R n) as [Hf Hk]; [split; [done|apply Ha]|].
      rewrite fresh_not_never_null in Hnn; [done|done|]. revert Hk. by destruct (nd_kind (node h n)). }
  destruct (rt_node _ _ _ R n Hlt Ha) as [Hga Hnode].
  assert (isNeverNullNode g n = true) as Hgn by (unfold isNeverNullNode in *; by rewrite <- Hnode).
  destruct (sg_never_null g Hg n Hgn) as (_ & Hst & Hc & Hf). apply (Hh n Hgn).
  assert (computed_kind (nd_kind (node h n)) = false) as Hck
    by (by rewrite Hnode, computed_kind_spec, Hf, Hc).
  destruct (evals_ref_inv _ _ _ _ _ Hv) as [Hcv|[[Hk _]|[_ Ho]]].
  - exfalso. revert Hck Hcv. unfold constOf. destruct (isDead _); [done|].
    by destruct (nd_kind (node h n)).
  - by rewrite Hk in Hck.
  - apply ev_opaque; try done. by rewrite <- Hnode.
Qed.

Lemma control_kept c : alive g c -> ~ floating g c -> alive h c.
Proof using R.
  intros Hc Hf. destruct (decide (c < vlen (nodes_ h) /\ isDead (node h c) = false)) as [H|H]; [done|].
  destruct Hf. by apply (rt_dead _ _ _ R c Hc).
Qed.

(** Control does not arrive at a value: the registry gives an operator no control
    slot. *)
Definition no_control_slot (k : NodeKind) : bool :=
  let row := info k in
  negb (ni_variadic row) &&
  forallb (fun i => negb (is_control_role (role_at row i))) (indices 6).

Lemma eval_no_control_slot k : isEvalK k = true -> no_control_slot k = true.
Proof using. destruct k; intros H; try discriminate H; vm_compute; reflexivity. Qed.

Lemma control_slot_kind u i :
  control_slot g u i -> isEvalK (nd_kind (node g u)) = false.
Proof using.
  intros Hc. apply not_true_iff_false. intros [Hv Hf]%eval_no_control_slot%andb_true_iff.
  apply negb_true_iff in Hv. revert Hc. unfold control_slot, roleOfSlot. rewrite Hv.
  destruct (_ <=? i); [done|]. destruct (_ && _); [done|]. destruct (_ <? ni_numFixed _); [|done].
  destruct (N.ltb_spec i 6); [|done]. intros Hc. rewrite forallb_forall in Hf.
  specialize (Hf i). rewrite Hc in Hf. cbn [negb] in Hf.
  assert (false = true); [|done]. apply Hf. by apply list_elem_of_In, elem_of_indices.
Qed.

Lemma flows_target phi omega c u i :
  flows g phi omega c u i -> nd_kind (node g u) <> NodeKind.Phi -> ~ floating g u.
Proof using.
  intros (_ & _ & _ & Hf) Hp [_ Hk]. unfold isSccpReplaceableK in Hk.
  assert (isEvalK (nd_kind (node g u)) = false) as He.
  { destruct (nd_kind (node g c)); try done; try by eapply control_slot_kind.
    - destruct Hf as (_ & _ & z & _ & ->). by destruct (_ =? _)%Z.
    - by destruct Hf as (_ & [-> | ->]).
    - destruct Hf as (_ & Hc & _). by eapply control_slot_kind. }
  rewrite He in Hk. cbn in Hk. by apply kind_eqb_spec in Hk.
Qed.

Lemma control_slot_kept u i :
  u < vlen (nodes_ g) -> alive h u -> control_slot g u i -> control_slot h u i.
Proof using R.
  intros Hu Ha. unfold control_slot, roleOfSlot. by rewrite (proj2 (rt_node _ _ _ R u Hu Ha)).
Qed.

Lemma flows_kept phi omega c u i :
  claims g s phi omega -> alive g c -> ~ floating g c -> ~ floating g u ->
  flows g phi omega c u i -> flows h phi omega c u i.
Proof using Hg Hl R.
  intros Hcl Hc Hnc Hnu (Hu & Hi & Hin & Hf).
  pose proof (control_kept c Hc Hnc) as Hch. pose proof (control_kept u Hu Hnu) as Huh.
  pose proof (proj2 (rt_node _ _ _ R c (proj1 Hc) Hch)) as Nc.
  pose proof (proj2 (rt_node _ _ _ R u (proj1 Hu) Huh)) as Nu.
  assert (forall z, has_slot g c 1 -> evals g phi omega (input g c 1) (JI z) ->
    has_slot h c 1 /\ evals h phi omega (input h c 1) (JI z)) as Hcond.
  { intros z H1 Hz. split; [by apply rt_slot; [apply Hc|..]|].
    apply (proj2 (evals_kept phi omega Hcl _ _ Hz) c 1); [apply Hc|done..]. }
  split; [done|]. split; [by apply rt_slot; [apply Hu|..]|].
  split; [by eapply input_kept|]. rewrite Nc, Nu.
  pose proof (control_slot_kept u i (proj1 Hu) Huh) as Hcs.
  destruct (nd_kind (node g c)); auto.
  - destruct Hf as (-> & H1 & z & Hz & Hk). destruct (Hcond z H1 Hz). eauto 10.
  - destruct Hf as (H1 & Hsl & z & Hz & Hne). destruct (Hcond z H1 Hz). eauto 10.
Qed.

Lemma phis_step_kept phi omega u i phi' :
  claims g s phi omega -> alive g u -> ~ floating g u ->
  phis_step g phi omega u i phi' -> phis_step h phi omega u i phi'.
Proof using Hg Hl R.
  intros Hcl Hu Hnu Hp n v Ha Hk Hv.
  destruct (N.lt_ge_cases n (vlen (nodes_ g))) as [Hlt|Hge].
  2:{ destruct (rt_new _ _ _ R n) as [_ Hsk]; [split; [done|apply Ha]|]. by rewrite Hk in Hsk. }
  destruct (rt_node _ _ _ R n Hlt Ha) as [Hga Hnode].
  pose proof (control_kept u Hu Hnu) as Huh.
  pose proof (proj2 (rt_node _ _ _ R u (proj1 Hu) Huh)) as Nu.
  assert (forall j, has_slot h n j -> has_slot g n j) as Hback.
  { intros j [_ Hj]. split; [done|]. unfold numInputs in *. by rewrite <- Hnode. }
  rewrite Hnode in Hk. specialize (Hp n v Hga Hk Hv). rewrite Nu.
  case_decide as H1; case_decide as H2; try done.
  - destruct Hp as [Hs1 Hev]. split; [by apply rt_slot|].
    by apply (proj2 (evals_kept phi omega Hcl _ _ Hev) n (i + 1)).
  - exfalso. apply H2. destruct H1 as (Hr & H0 & Hi0). split_and!; [done|by apply rt_slot|].
    by eapply input_kept.
  - exfalso. apply H1. destruct H2 as (Hr & H0 & Hi0). apply Hback in H0. split_and!; [done|done|].
    destruct (rt_input _ _ _ R n 0 Hlt Ha H0) as [He|(k & _ & _ & Hge & _)]; [congruence|].
    destruct Hu. lia.
Qed.

Lemma reach_kept c phi omega :
  reach g c phi omega ->
  reach h c phi omega /\ ~ floating g c /\
  forall n v, evals g phi omega n v -> alive h n -> evals h phi omega n v.
Proof using Hg Hio Hs Hl R.
  intros Hr.
  assert (reach h c phi omega /\ ~ floating g c) as [H1 H2].
  2:{ split; [done|]. split; [done|]. intros n v Hv. apply evals_kept; [|done].
      pose proof (reach_sound g Hg Hio s Hs _ _ _ Hr). by apply (evals_sound g Hg Hio s Hs); apply H. }
  induction Hr as [omega Hh|c phi omega u i phi' omega' Hr IH Hf Hp Hph Hh].
  - rewrite <- (rt_start _ _ _ R). split; [by apply reach_start, honest_kept|].
    rewrite (rt_start _ _ _ R). intros [_ Hk]. by rewrite (proj2 (sg_start g Hg)) in Hk.
  - destruct IH as [IH Hnc]. pose proof (flows_target _ _ _ _ _ Hf Hp) as Hnu.
    pose proof (reach_sound g Hg Hio s Hs _ _ _ Hr) as [Hca _ Hch Hcp].
    pose proof (evals_sound g Hg Hio s Hs _ _ Hch Hcp) as Hcl. pose proof (proj1 Hf) as Hu.
    split; [|done]. apply (reach_step h c phi omega u i); try done.
    + by apply flows_kept.
    + rewrite (proj2 (rt_node _ _ _ R u (proj1 Hu) (control_kept u Hu Hnu))). done.
    + by apply phis_step_kept.
    + by apply honest_kept.
Qed.
End Simulation.

(** ** Making and finding constants *)

Lemma makeConst_spec g c :
  law g -> room 3 g -> canon c ->
  let '(r, g') := makeConstNode g c in
  law g' /\ grown nowhere 3 g g' /\ vlen (nodes_ g) <= r < vlen (nodes_ g') /\
  leaf g' r /\ carries g' r c.
Proof.
  intros Hl Hroom Hc.
  assert (no_wrap_make g []) as Hw by (by eapply room_make). pose proof Hw as (Hw1 & Hw2 & Hw3).
  assert (forall k cv, sink_kind k = true -> k <> NodeKind.Phi /\ k <> NodeKind.BitCast ->
    (forall v, cval c = Some v -> jval_ok v -> forall h r, node h r =
       mkNode k 0 (vlen (edgePool_ g)) 0 0 0 0 cv 0 0 -> cval (constOf h r) = Some v) ->
    makeConstNode g c = makeRaw g k [] 0 0 cv ->
    let '(r, g') := makeConstNode g c in
    law g' /\ grown nowhere 3 g g' /\ vlen (nodes_ g) <= r < vlen (nodes_ g') /\
    leaf g' r /\ carries g' r c) as Hmk.
  { intros k cv Hk [Hk1 Hk2] Hv ->. destruct (leaf_maker k 0 0 cv Hk g Hl Hroom) as (L & Gr & _ & Hid).
    pose proof (makeRaw_node g k [] 0 0 cv Hw2 Hw3) as Hnode.
    rewrite makeRaw_id in Hid by done. pose proof (makeRaw_id g k [] 0 0 cv Hw1) as Hid'.
    destruct (makeRaw g k [] 0 0 cv) as [r g']. cbn [fst snd] in *. subst r.
    specialize (Hnode (vlen (nodes_ g))). rewrite N.eqb_refl in Hnode.
    split_and!; [done|done|lia|lia|by split; rewrite Hnode|].
    split; [split; [lia|by rewrite Hnode]|]. intros v Hcv Hok. by eapply Hv. }
  destruct Hc as [[z ->]|[[z ->]|[[z ->]|[[z ->]| ->]]]].
  - apply (Hmk NodeKind.ConstantI z); [done|done| |done].
    intros v [= <-] Hok h r Hn. unfold constOf. rewrite Hn. cbn. by rewrite wrap_small.
  - apply (Hmk NodeKind.ConstantL z); [done|done| |done].
    intros v [= <-] Hok h r Hn. unfold constOf. rewrite Hn. cbn. by rewrite wrap_small.
  - apply (Hmk NodeKind.ConstantF (Z.of_N (Z.to_N z))); [done|done| |done].
    intros v [= <-] Hok h r Hn. unfold constOf. rewrite Hn. cbn in Hok |- *.
    unfold uwrap. rewrite Z2N.id by lia. by rewrite Z.mod_small.
  - apply (Hmk NodeKind.ConstantD (u64_to_i64 (Z.to_N z))); [done|done| |done].
    intros v [= <-] Hok h r Hn. unfold constOf. rewrite Hn. cbn in Hok.
    change (Some (JD (uz64 (u64_to_i64 (Z.to_N z)))) = Some (JD z)). do 2 f_equal.
    unfold uwrap, u64_to_i64. rewrite Z2N.id by lia.
    change (2 ^ 64)%Z with 18446744073709551616%Z in *.
    destruct (_ <? _); [by rewrite Z.mod_small|].
    rewrite <- (Z_mod_plus_full (z - 18446744073709551616) 1 18446744073709551616).
    rewrite Z.mod_small by lia. lia.
  - apply (Hmk NodeKind.ConstantNull 0%Z); [done|done| |done].
    intros v [= <-] Hok h r Hn. unfold constOf. by rewrite Hn.
Qed.

(** ** One replacement *)

Section Apply.
Context (g : Graph) (Hg : sccp_graph g) (s : Sccp) (Hs : settled g s).

(** The interned nodes are new leaves that carry their key. *)
Definition interned (h : Graph) (m : intern_map) : Prop :=
  forall key r, (key, r) ∈ m -> exists k, key = constKeyOf k /\ canon k /\
    vlen (nodes_ g) <= r /\ leaf h r /\ carries h r k.

Record applying (m : intern_map) (st : pass_state) : Prop := {
  ap_world : world_ok (ps_world st);
  ap_rel : rewritten g s (ps_g st);
  ap_map : interned (ps_g st) m
}.

Lemma carries_same h h' r k :
  node h' r = node h r -> vlen (nodes_ h) <= vlen (nodes_ h') -> carries h r k -> carries h' r k.
Proof using.
  intros Hn Hc [[Hr Hd] Hv]. split; [split; [lia|by rewrite Hn]|]. unfold constOf. by rewrite Hn.
Qed.

Lemma constKeyOf_inj k k' : constKeyOf k = constKeyOf k' -> k = k'.
Proof using. destruct k, k'. by intros [= -> -> -> -> ->]. Qed.

Lemma rewritten_grown h h' c :
  grown nowhere c h h' -> rewritten g s h -> rewritten g s h'.
Proof using.
  intros [G1 G2 G3 G4 G5 G6 _ _] [R1 R2 R3 R4 R5 R6].
  assert (forall m, m < vlen (nodes_ h) -> node h' m = node h m /\ forall i, input h' m i = input h m i)
    as Hkept by (intros m Hm; apply G4; [done|by intros []]).
  assert (forall m, m < vlen (nodes_ g) -> alive h' m -> alive h m) as Hback.
  { intros m Hm [_ Hd]. split; [lia|]. by rewrite <- (proj1 (Hkept m ltac:(lia))). }
  split.
  - congruence.
  - lia.
  - intros m Hm Ha. rewrite (proj1 (Hkept m ltac:(lia))). by apply R3, Hback.
  - intros m i Hm Ha Hi. rewrite (proj2 (Hkept m ltac:(lia))).
    destruct (R4 m i Hm (Hback m Hm Ha) Hi) as [?|(k & Hf & Hk & Hge & Hc)]; [by left|right].
    exists k. split_and!; try done. destruct Hc as [[Hlt Hd] Hv].
    eapply carries_same; [apply Hkept, Hlt|lia|]. by split.
  - intros m Ha Hna. apply R5; [done|]. intros [Hlt Hd]. apply Hna. split; [lia|].
    by rewrite (proj1 (Hkept m Hlt)).
  - intros m Hm. destruct (N.lt_ge_cases m (vlen (nodes_ h))) as [Hlt|Hge].
    + rewrite (proj1 (Hkept m Hlt)). apply R6. lia.
    + destruct (G5 m) as (? & ? & _); [lia|done].
Qed.

Lemma interned_kept h h' m :
  (forall r, vlen (nodes_ g) <= r -> alive h r -> node h' r = node h r) ->
  vlen (nodes_ h) <= vlen (nodes_ h') -> interned h m -> interned h' m.
Proof using.
  intros Hn Hc Hm key r Hin. destruct (Hm key r Hin) as (k & H1 & H2 & H3 & H4 & H5).
  exists k. split_and!; try done.
  - unfold leaf. rewrite Hn; [done|done|apply H5].
  - apply (carries_same h); [apply Hn; [done|apply H5]|done|done].
Qed.

Lemma intern_find_spec m key r : intern_find m key = Some r -> (key, r) ∈ m.
Proof using.
  unfold intern_find. destruct (List.find _ m) as [[key' r']|] eqn:Hf; [|done].
  intros [= <-]. apply List.find_some in Hf as [Hin Hk%bool_decide_eq_true].
  cbn in Hk. subst. by apply list_elem_of_In.
Qed.

(** What [intern_const] returns. *)
Lemma intern_const_spec c m st :
  applying m st -> canon c -> room 3 (ps_g st) ->
  exists r m' h, intern_const c m (ps_g st) = (Some r, m', h) /\
    applying m' (mkPass (h, ps_jk st) (ps_t st) (ps_b st)) /\
    grown nowhere 3 (ps_g st) h /\ vlen (nodes_ g) <= r /\ leaf h r /\ carries h r c.
Proof using.
  intros [[Hl Hj] HR Hm] Hc Hroom. fold (ps_g st) in Hl, Hj. fold (ps_jk st) in Hj.
  assert (exists r m' h,
    (let '(rep, g) := makeConstNode (ps_g st) c in
     if rep =? kInvalidNodeId then (None, m, g)
     else (Some rep, (constKeyOf c, rep) :: m, g)) = (Some r, m', h) /\
    applying m' (mkPass (h, ps_jk st) (ps_t st) (ps_b st)) /\
    grown nowhere 3 (ps_g st) h /\ vlen (nodes_ g) <= r /\ leaf h r /\ carries h r c) as Hfresh.
  { pose proof (makeConst_spec (ps_g st) c Hl Hroom Hc) as Hmk.
    destruct (makeConstNode (ps_g st) c) as [r h]. destruct Hmk as (Hl' & Gr & Hr & Hlf & Hcar).
    pose proof (rt_count _ _ _ HR) as Hcnt. pose proof (gr_count _ _ _ _ Gr) as Hcnt'.
    assert ((r =? kInvalidNodeId) = false) as ->.
    { apply N.eqb_neq. pose proof (so_nodes h (go_storage h (law_ok h Hl'))) as Hmax.
      unfold fits32, kInvalidNodeId in *. lia. }
    exists r, ((constKeyOf c, r) :: m), h. split; [done|]. split_and!; [|done|lia|done|done].
    split; unfold ps_g; cbn [ps_world fst].
    - split; [done|]. eapply junk_ok_grown; [exact Gr|intros x Hx _; by eapply grown_numInputs|done].
    - by eapply rewritten_grown.
    - intros key x [[= -> ->]|Hin]%elem_of_cons; [exists c; split_and!; try done; lia|].
      apply (interned_kept (ps_g st) h m) in Hm; [by apply Hm| |lia].
      intros y _ [Hy _]. apply (gr_kept _ _ _ _ Gr y Hy). by intros []. }
  unfold intern_const. destruct (intern_find m (constKeyOf c)) as [r|] eqn:Hf; [|done].
  pose proof (intern_find_spec _ _ _ Hf) as Hin.
  destruct (Hm _ _ Hin) as (k & ->%constKeyOf_inj & _ & Hge & Hlf & Hcar).
  assert (sccp_live (ps_g st) r = true) as ->.
  { apply live_alive; [by apply law_count|apply Hcar]. }
  cbn [negb]. exists r, m, (ps_g st). split; [done|]. split; [|split_and!; try done].
  - split; [by split|done|done].
  - eapply grown_weaken; [apply grown_refl|done|lia].
Qed.

(** Renaming a node to a leaf keeps the type computations finite. *)
Lemma acc_replaceNode h o r :
  law h -> can_replace h o r -> leaf h r -> forall m, Acc (calls (snd (replaceNode h o r))) m.
Proof using.
  intros Hl Hcan Hlf. pose proof (law_ok h Hl) as Hok.
  apply (acc_leaves h); [|apply Hl]. intros u v Hv.
  apply type_calls_spec in Hv as (i & Hi & <- & Hk).
  rewrite has_slot_iff, replaceNode_numInputs, <- has_slot_iff in Hi by done.
  rewrite replaceNode_kind in Hk by (done || apply Hi). rewrite replaceNode_input by done.
  case_decide as Hd.
  - right. unfold leaf. rewrite replaceNode_kind by (done || apply Hcan). done.
  - left. apply type_calls_spec. by exists i.
Qed.

Lemma rewritten_replaced h h' o r k :
  rewritten g s h -> law h -> replaced o r h h' -> floating g o -> alive h o ->
  valAt g s o = constLat k -> vlen (nodes_ g) <= r -> carries h r k -> rewritten g s h'.
Proof using.
  intros [R1 R2 R3 R4 R5 R6] Hl R Ho Hoa Hv Hr Hc. pose proof (rp_count _ _ _ _ R) as Hcnt.
  assert (forall m, m < vlen (nodes_ h) -> alive h' m -> m <> o /\ alive h m /\ node h' m = node h m)
    as Hback.
  { intros m Hm [_ Hd]. assert (m <> o) as Hne by (intros ->; by rewrite (rp_dead _ _ _ _ R) in Hd).
    pose proof (rp_nodes _ _ _ _ R m Hm Hne) as Hn. rewrite Hn in Hd. by split_and!. }
  assert (forall x, vlen (nodes_ g) <= x -> alive h x -> forall k', carries h x k' -> carries h' x k') as Hcar.
  { intros x Hx Ha k' Hk'. apply (carries_same h h'); [|lia|exact Hk'].
    apply (rp_nodes _ _ _ _ R); [apply Ha|]. intros ->. destruct Ho as [[Ho _] _]. lia. }
  split.
  - rewrite (rp_start _ _ _ _ R). done.
  - lia.
  - intros m Hm Ha. destruct (Hback m ltac:(lia) Ha) as (Hne & Ha' & ->). by apply R3.
  - intros m i Hm Ha Hi. destruct (Hback m ltac:(lia) Ha) as (Hne & Ha' & Hn).
    assert (has_slot h m i) as Hi'.
    { split; [lia|]. destruct Hi as [_ Hi]. unfold numInputs in *.
      by rewrite (proj2 (R3 m Hm Ha')). }
    rewrite (rp_inputs _ _ _ _ R m i Hi' Hne).
    destruct (R4 m i Hm Ha' Hi) as [He|(k' & Hf & Hk' & Hge & Hc')].
    + case_decide as Hd; [right|by left]. exists k. rewrite <- He, Hd.
      split_and!; try done. by apply Hcar; [|apply Hc|].
    + right. exists k'. case_decide as Hd; [destruct Ho as [[? _] _]; lia|].
      split_and!; try done. by apply Hcar; [|apply Hc'|].
  - intros m Ha Hna. destruct (decide (m = o)) as [->|Hne]; [split; [done|by exists k]|].
    apply R5; [done|]. intros [Hlt Hd]. apply Hna. split; [lia|].
    by rewrite (rp_nodes _ _ _ _ R m Hlt Hne).
  - intros m Hm. destruct (N.lt_ge_cases m (vlen (nodes_ h))) as [Hlt|Hge].
    + rewrite (rp_nodes _ _ _ _ R m Hlt); [apply R6; lia|]. intros ->. destruct Ho as [[? _] _]. lia.
    + destruct (rp_new _ _ _ _ R m) as (? & ? & _); [lia|done].
Qed.

(** ** The type belt *)

Lemma phi_fold_total (f : N -> option IRType) (skip : N -> bool) l acc :
  (forall i, i ∈ l -> skip i = false -> is_Some (f i)) ->
  is_Some (foldl (fun (acc : option (bool * IRType)) i =>
    match acc with
    | None => None
    | Some (seen, t) =>
        if skip i then acc
        else match f i with
             | None => None
             | Some v => Some (true, if seen : bool then join t v else v)
             end
    end) (Some acc) l).
Proof using.
  revert acc. induction l as [|i l IH]; intros [seen t] Hf; cbn [foldl]; [by eexists|].
  destruct (skip i) eqn:Hsk.
  - apply IH. intros j Hj. apply Hf. by apply elem_of_cons; right.
  - destruct (Hf i) as [v ->]; [by apply elem_of_cons; left|done|].
    apply IH. intros j Hj. apply Hf. by apply elem_of_cons; right.
Qed.

Lemma typeOfNoCycle_total h fuel n path :
  law h -> n < vlen (nodes_ h) -> NoDup path -> (forall p, p ∈ path -> p < vlen (nodes_ h)) ->
  (N.to_nat (vlen (nodes_ h)) + 1 <= fuel + length path)%nat ->
  is_Some (typeOfNoCycle fuel h n path).
Proof using.
  intros Hl. revert n path. induction fuel as [|fuel IH]; intros n path Hn Hnd Hp Hf.
  { exfalso. assert (length path <= length (indices (vlen (nodes_ h))))%nat as H.
    { apply submseteq_length, NoDup_submseteq; [done|]. intros p ?%Hp. by apply elem_of_indices. }
    rewrite length_indices in H. lia. }
  cbn [typeOfNoCycle]. destruct (kind_eqb _ _); cbn [negb].
  2:{ apply typeOf_returns; apply Hl. }
  destruct (existsb (fun p => p =? n) path) eqn:Hin; [by eexists|].
  assert (n ∉ path) as Hnot.
  { intros H. assert (existsb (fun p => p =? n) path = true); [|congruence].
    apply existsb_exists. exists n. split; [by apply list_elem_of_In|apply N.eqb_refl]. }
  match goal with |- context [foldl ?f ?a ?l] => assert (is_Some (foldl f a l)) as [[? ?] ->] end;
    [|by eexists].
  apply (phi_fold_total (fun i => typeOfNoCycle fuel h (input h n i) (path ++ [n]))
    (fun i => existsb (fun p => p =? input h n i) (path ++ [n]))).
  intros i Hi Hsk. apply IH.
  - apply elem_of_value_slots in Hi. apply (law_closed h Hl). split; [done|apply Hi].
  - apply NoDup_app. split_and!; [done| |apply NoDup_singleton].
    intros x Hx ->%list_elem_of_singleton. done.
  - intros p [?| ->%list_elem_of_singleton]%elem_of_app; auto.
  - rewrite length_app. cbn. lia.
Qed.

(** ** The loop *)

Context (W : N) (HW : W <= 65535) (Hwide : forall m, floating g m -> numInputs g m <= W).

Lemma apply_node_spec n m st k :
  applying m st -> n < vlen (nodes_ g) -> room (k + (edges_cost W + 3)) (ps_g st) ->
  exists m' st', apply_node (s_val s) n (m, st) = Some (m', st') /\ applying m' st' /\
    room k (ps_g st').
Proof using All.
  intros Hap Hn Hroom. pose proof Hap as [Hw HR Hm]. pose proof (proj1 Hw) as Hl.
  pose proof Hl as Hl'. fold (ps_g st) in Hl'.
  assert (room k (ps_g st)) as Hroomk by (eapply room_le; [exact Hroom|lia]).
  assert (exists m' st', Some (m, st) = Some (m', st') /\ applying m' st' /\ room k (ps_g st')) as Hsame
    by (by exists m, st).
  unfold apply_node. destruct (b_exceeded (ps_b st)); [done|].
  destruct (sccp_live (ps_g st) n) eqn:Hlive; cbn [negb orb]; [|done].
  apply live_alive in Hlive; [|by apply law_count].
  assert (default topLat (vget (s_val s) n) = valAt g s n) as Hval by (symmetry; by apply valAt_lt).
  rewrite Hval. case_bool_decide as Hlv; cbn [negb]; [|done].
  destruct (isSccpReplaceableK _) eqn:Hk; cbn [negb]; [|done].
  destruct (rt_node _ _ _ HR n Hn Hlive) as [Hga Hnode]. rewrite Hnode in Hk.
  assert (floating g n) as Hf by by split.
  assert (exists c, canon c /\ valAt g s n = constLat c) as (c & Hc & Hv).
  { pose proof (ws_wf _ _ (td_wf _ _ (ob_tidy _ _ _ _ (se_obl _ _ Hs))) n) as Hwf.
    revert Hlv Hwf. generalize (valAt g s n) as v. intros v Hlv Hwf.
    destruct Hwf as [| |c Hc]; [done|done|by exists c]. }
  rewrite Hv. cbn [lc constLat].
  assert (n < vlen (nodes_ (ps_g st))) as Hnh by apply Hlive.
  destruct (typeOfNoCycle_total (ps_g st) (S (S (N.to_nat (nodeCount (ps_g st))))) n []) as [t ->];
    [done|done|constructor|by intros p ?%not_elem_of_nil|rewrite law_count by done; cbn; lia|].
  case_bool_decide; cbn [negb]; [|done].
  destruct (intern_const_spec c m st Hap Hc) as (r & m' & h & -> & Hap' & Gr & Hge & Hlf & Hcar);
    [eapply room_le; [exact Hroom|lia]|].
  pose proof Hap' as [Hw' HR' Hm']. pose proof (proj1 Hw') as Hlh. cbn [ps_world fst] in Hlh.
  set (st1 := mkPass (h, ps_jk st) (ps_t st) (ps_b st)) in *.
  change (ps_g st1) with h in *.
  assert (node h n = node (ps_g st) n) as Hnh'.
  { apply (gr_kept _ _ _ _ Gr n Hnh). by intros []. }
  pose proof (gr_count _ _ _ _ Gr) as Hcnt.
  assert (alive h n) as Hah by (split; [lia|rewrite Hnh'; apply Hlive]).
  assert (numInputs h n <= W) as Hwd.
  { unfold numInputs. rewrite Hnh', Hnode. by apply Hwide. }
  assert (room (k + edges_cost W) h) as Hroomh.
  { eapply room_grown; [exact Gr|]. eapply room_le; [exact Hroom|lia]. }
  assert (edges_cost (numInputs h n) <= edges_cost W) as Hcost by by apply edges_cost_mono.
  assert (n <> startNode h) as Hnst.
  { rewrite (rt_start _ _ _ HR'). intros ->. by rewrite (proj2 (sg_start g Hg)) in Hk. }
  assert (nd_kind (node h n) <> NodeKind.Region) as Hnr.
  { rewrite Hnh', Hnode. intros Hr. by rewrite Hr in Hk. }
  destruct (replace_cases n r st1) as (st' & -> & Hw2 & Hcase & _).
  { split; change (ps_g st1) with h; [done|lia|eapply room_le; [exact Hroomh|lia]|done|done|].
    intros Hcan. by apply acc_replaceNode. }
  change (ps_g st1) with h in Hcase.
  assert (forall t', applying m' (mkPass (ps_world st') t' (ps_b st')) /\
    room k (ps_g (mkPass (ps_world st') t' (ps_b st')))) as Hfin.
  { intros t'. destruct Hcase as [(Hsw & _)|(Hcan & R & _)].
    - unfold ps_g. cbn [ps_world]. rewrite Hsw. split; [by split|]. cbn. eapply room_le; [exact Hroomh|lia].
    - unfold ps_g in *. cbn [ps_world] in *. pose proof (rp_count _ _ _ _ R) as Hcnt2.
      split; [split; cbn [ps_world]|].
      + done.
      + by eapply rewritten_replaced.
      + apply (interned_kept h (fst (ps_world st'))); [|lia|exact Hm']. intros x Hx [Hxl _]. apply (rp_nodes _ _ _ _ R); [done|].
        intros ->. lia.
      + destruct (rp_fs _ _ _ _ R) as (ds & Hds & Hdl). pose proof (rp_pool _ _ _ _ R).
        destruct Hroomh as (?&?&?). unfold room. rewrite Hds, vlen_app. split_and!; lia. }
  assert (st' = mkPass (ps_world st') (ps_t st') (ps_b st')) as Heta by by destruct st'.
  destruct (negb _).
  - eexists _, _. split; [reflexivity|]. apply Hfin.
  - exists m', st'. split; [done|]. rewrite Heta. apply Hfin.
Qed.

Lemma apply_loop l m st :
  applying m st -> (forall n, n ∈ l -> n < vlen (nodes_ g)) ->
  room (vlen l * (edges_cost W + 3)) (ps_g st) ->
  exists m' st', ofor l (apply_node (s_val s)) (m, st) = Some (m', st') /\ applying m' st'.
Proof using All.
  revert m st. induction l as [|n l IH]; intros m st Hap Hl Hroom; [by exists m, st|].
  rewrite ofor_cons. replace (vlen (n :: l)) with (vlen l + 1) in Hroom by (unfold vlen; cbn [length]; lia).
  destruct (apply_node_spec n m st (vlen l * (edges_cost W + 3)) Hap) as (m1 & st1 & -> & Hap1 & Hr1).
  - apply Hl. by apply elem_of_cons; left.
  - eapply room_le; [exact Hroom|lia].
  - cbn. apply IH; [done| |done]. intros x Hx. apply Hl. by apply elem_of_cons; right.
Qed.

Lemma rewritten_refl : law g -> rewritten g s g.
Proof using HW.
  intros Hl. split; try done; [by intros; left|by intros; lia].
Qed.

Lemma apply_consts_spec st :
  world_ok (ps_world st) -> ps_g st = g -> room (vlen (nodes_ g) * (edges_cost W + 3)) g ->
  exists st', apply_consts (s_val s) st = Some st' /\ law (ps_g st') /\ rewritten g s (ps_g st').
Proof using All.
  intros Hw He Hroom. pose proof (proj1 Hw) as Hl. fold (ps_g st) in Hl. rewrite He in Hl.
  destruct (apply_loop (indices (nodeCount (ps_g st))) [] st) as (m' & st' & Ha & Hap).
  - split; [done|rewrite He; by apply rewritten_refl|by intros ?? ?%not_elem_of_nil].
  - intros n Hn%elem_of_indices. by rewrite He, law_count in Hn by done.
  - rewrite vlen_indices, He, law_count by done. done.
  - exists st'. unfold apply_consts. rewrite Ha. split; [done|]. split; [apply Hap|apply Hap].
Qed.
End Apply.
