(* ===== verification/SccpRun.v ===== *)
(** * A run of SCCP

    The pass ends on every graph it is meant for and keeps every execution; what
    it claims is true wherever control can be. The last section is the case in
    which it is wrong: an [InstanceOf] whose receiver is known not to be null. *)

From Stdlib Require Import SpecFloat.
From S2P Require Import Prelude IRTypes Effect NodeInfo SmallVector Graph GraphInv GraphReplace.
From S2P Require Import ResultType Verifier VerifierSound PassSupport PassLaw PassGrow PassRewire.
From S2P Require Import Machine JavaSem ConstFold Simplify SimplifyValues SCCP.
From S2P Require Import SccpLattice SccpFix SccpSound SccpApply.

Local Open Scope N_scope.

(** What a run needs: a graph the analysis is meant for, junk sinks that are sinks,
    and room for one constant and the sinks of one rewiring per node. [W] bounds
    the inputs of the nodes the pass evaluates. *)
Record sccp_ready (W : N) (st : pass_state) : Prop := {
  sy_graph : sccp_graph (ps_g st);
  sy_instanceof : no_known_instanceof (ps_g st);
  sy_world : world_ok (ps_world st);
  sy_limit : b_limit (ps_b st) < 4294967296;
  sy_W : W <= 65535;
  sy_width : forall m, floating (ps_g st) m -> numInputs (ps_g st) m <= W;
  sy_room : room (vlen (nodes_ (ps_g st)) * (edges_cost W + 3)) (ps_g st)
}.

(** Every execution of [g] is one of [h], with the same control, the same values of
    the Phis and opaque nodes, and the same values of the nodes [h] still has. *)
Definition executions_kept (g h : Graph) : Prop :=
  forall c phi omega, reach g c phi omega ->
    reach h c phi omega /\
    forall n v, alive h n -> evals g phi omega n v -> evals h phi omega n v.

(** C18: SCCP keeps every execution, in a graph where no InstanceOf tests a value that is
    known not to be null (there it folds the test to false:
    [sccp_instanceof_fresh_object_false]), that is well formed ([sccp_graph]), with room
    for the nodes and edges the rewriting adds and a budget limit below 2^32. With fuel for one turn per unit of budget and
    one completion round per node the pass returns; the graph it leaves obeys the
    tombstone law, and every execution of the original graph, whatever the
    parameters, loads and calls produce, is an execution of the new one that goes
    through the same control nodes with the same values. *)
Theorem runSCCP_keeps_executions W st fuel pfuel :
  sccp_ready W st -> (N.to_nat (vlen (nodes_ (ps_g st))) < fuel)%nat ->
  (N.to_nat (b_limit (ps_b st) - b_used (ps_b st)) < pfuel)%nat ->
  exists st', runSCCP fuel pfuel st = Some st' /\ law (ps_g st') /\
    executions_kept (ps_g st) (ps_g st').
Proof.
  intros [Hg Hio Hw Hlim HW Hwide Hroom] Hf Hpf. unfold runSCCP.
  destruct (analyse_total (ps_g st) Hg fuel pfuel (ps_b st) Hlim Hpf Hf) as (s & -> & _ & _ & Hs).
  destruct (b_exceeded (s_b s)).
  { eexists. split; [reflexivity|]. split; [apply Hw|]. by intros c phi omega Hr. }
  destruct (Hs eq_refl) as [_ Hset].
  destruct (apply_consts_spec (ps_g st) Hg s Hset W HW Hwide (mkPass (ps_world st) (ps_t st) (s_b s)))
    as (st' & -> & Hl & HR); [exact Hw|reflexivity|exact Hroom|].
  exists st'. split; [reflexivity|]. split; [exact Hl|]. intros c phi omega Hr.
  destruct (reach_kept (ps_g st) Hg Hio s Hset (ps_g st') Hl HR c phi omega Hr) as (H1 & _ & H2).
  split; [exact H1|]. intros n v Ha Hv. by apply H2.
Qed.

(** C19: what SCCP claims is true, of a well-formed graph ([sccp_graph]) in which no
    InstanceOf tests a value that is known not to be null, with a budget limit below
    2^32. When the analysis ends within its budget, every
    control node an execution reaches was found executable, and every value
    claimed constant is that constant whenever it is computed, in particular in
    every iteration of a loop. *)
Theorem sccp_claims_hold g fuel pfuel b s :
  sccp_graph g -> no_known_instanceof g -> b_limit b < 4294967296 ->
  (N.to_nat (vlen (nodes_ g)) < fuel)%nat -> (N.to_nat (b_limit b - b_used b) < pfuel)%nat ->
  analyse fuel pfuel g b = Some s -> b_exceeded (s_b s) = false ->
  forall c phi omega, reach g c phi omega ->
    execAt s c = true /\
    forall n v k, evals g phi omega n v -> valAt g s n = constLat k -> cval k = Some v.
Proof.
  intros Hg Hio Hlim Hf Hpf Ha Hex c phi omega Hr.
  destruct (analyse_total g Hg fuel pfuel b Hlim Hpf Hf) as (s' & Ha' & _ & _ & Hs).
  rewrite Ha in Ha'. injection Ha' as <-. destruct (Hs Hex) as [_ Hset].
  pose proof (reach_sound g Hg Hio s Hset c phi omega Hr) as [_ He Hh Hp].
  split; [exact He|]. by apply (evals_sound g Hg Hio s Hset).
Qed.

(** ** An example *)

(** Concrete graphs: a list of calls of the mutation API, and a test that every
    call is one a client may make. *)
Inductive build_op :=
| OMake (k : NodeKind) (ins : list NodeId) (payload payload2 : N) (cv : Z)
| OSetInput (n slot v : N).

Definition build_step (g : Graph) (o : build_op) : Graph :=
  match o with
  | OMake k ins p p2 cv => snd (makeRaw g k ins p p2 cv)
  | OSetInput n s v => setInput g n s v
  end.

Definition build_ok (g : Graph) (o : build_op) : bool :=
  match o with
  | OMake _ ins _ _ _ =>
      bool_decide (no_wrap_make g ins) && forallb (fun v => v <=? vlen (nodes_ g)) ins
  | OSetInput _ _ v => v <? vlen (nodes_ g)
  end.

Fixpoint build_check (g : Graph) (l : list build_op) : bool :=
  match l with
  | [] => true
  | o :: l => build_ok g o && build_check (build_step g o) l
  end.

Definition build (l : list build_op) : Graph := foldl build_step newGraph l.

Lemma build_reachable l : build_check newGraph l = true -> reachable (build l).
Proof.
  unfold reachable, build. generalize newGraph as g. induction l as [|o l IH]; intros g; [done|].
  cbn [build_check foldl]. intros [Ho Hl]%andb_true_iff. eapply rtc_l; [|by apply IH].
  destruct o; cbn in Ho |- *.
  - apply andb_true_iff in Ho as [H1%bool_decide_eq_true H2]. constructor; [done|].
    rewrite forallb_forall in H2. apply Forall_forall. intros v Hv%list_elem_of_In.
    by apply N.leb_le, H2.
  - constructor. by apply N.ltb_lt.
Qed.

(** [x = 0; while (p) { x = x + 0; } return x;] *)
Definition sccp_example : Graph := build
  [ OMake NodeKind.ConstantI [] 0 0 0;
    OMake NodeKind.LoopBegin [0; 0] 0 0 0;
    OMake NodeKind.Phi [2; 1; 1] 0 0 0;
    OMake NodeKind.AddI [3; 1] 0 0 0;
    OSetInput 3 2 4;
    OMake NodeKind.Parameter_ [] 0 (IRType.code IRType.Int) 0;
    OMake NodeKind.If [2; 5] 0 0 0;
    OMake NodeKind.IfTrue [6] 0 0 0;
    OMake NodeKind.LoopEnd [7] 0 0 0;
    OSetInput 2 1 8;
    OMake NodeKind.IfFalse [6] 0 0 0;
    OMake NodeKind.Return [9; 3] 0 0 0 ].

Definition sccp_state : pass_state :=
  mkPass (sccp_example, newJunk) noTelemetry (mkBudget 100 0 false).

Lemma sccp_example_reachable : reachable sccp_example.
Proof. apply build_reachable. vm_compute. reflexivity. Qed.

(** Tests for the hypotheses on a concrete graph. *)
Definition every (g : Graph) (f : NodeId -> bool) : bool := forallb f (indices (vlen (nodes_ g))).

Lemma every_spec g f : every g f = true -> forall n, n < vlen (nodes_ g) -> f n = true.
Proof.
  unfold every. rewrite forallb_forall. intros H n Hn. apply H.
  by apply list_elem_of_In, elem_of_indices.
Qed.

Definition law_check_phi (g : Graph) : bool :=
  every g (fun n =>
    forallb (fun s => negb (isDead (node g (input g n s)))) (indices (numInputs g n)) &&
    forallb (fun x => (x <? n) || bool_decide (type_calls g x = [])) (type_calls g n)) &&
  (startNode g <? vlen (nodes_ g)) && negb (isDead (node g (startNode g))) &&
  kind_eqb (nd_kind (node g (startNode g))) NodeKind.Start.

Lemma law_check_phi_sound g : reachable g -> law_check_phi g = true -> law g.
Proof.
  intros Hr. unfold law_check_phi. rewrite !andb_true_iff, !negb_true_iff, kind_eqb_spec, N.ltb_lt.
  intros (((Hall & Hs1) & Hs2) & Hs3). destruct (reachable_ok g Hr) as [Hg Hc].
  pose proof (every_spec g _ Hall) as Hn. split; [exact Hg|exact Hc| | |done].
  - intros n i [Hlt Hi]. specialize (Hn n Hlt). apply andb_true_iff in Hn as [Hn _].
    rewrite forallb_forall in Hn. apply negb_true_iff, Hn. by apply list_elem_of_In, elem_of_indices.
  - intros m. induction (N.lt_wf_0 m) as [m _ IH]. constructor. intros x Hx. unfold calls in Hx.
    destruct (N.lt_ge_cases m (vlen (nodes_ g))) as [Hlt|Hge].
    + specialize (Hn m Hlt). apply andb_true_iff in Hn as [_ Hn]. rewrite forallb_forall in Hn.
      specialize (Hn x ltac:(by apply list_elem_of_In)).
      apply orb_true_iff in Hn as [Hn%N.ltb_lt|Hn%bool_decide_eq_true]; [by apply IH|].
      constructor. intros y Hy. unfold calls in Hy. rewrite Hn in Hy. by apply not_elem_of_nil in Hy.
    + unfold type_calls in Hx. rewrite node_out_of_range in Hx by done. by apply not_elem_of_nil in Hx.
Qed.

Definition is_projection_kind (k : NodeKind) : bool :=
  kind_eqb k NodeKind.IfTrue || kind_eqb k NodeKind.IfFalse.

Definition sccp_check (g : Graph) : bool :=
  (vlen (edgePool_ g) <? 4294967296) &&
  every g (fun n =>
    (numInputs g n <? 65536) &&
    (negb (isNeverNullNode g n) ||
      (negb (n =? startNode g) && negb (const_kind (nd_kind (node g n))) &&
       negb (isSccpReplaceableK (nd_kind (node g n))))) &&
    (negb (is_projection_kind (nd_kind (node g n))) ||
      forallb (fun m => (n =? m) || negb (kind_eqb (nd_kind (node g m)) (nd_kind (node g n))) ||
        negb (input g m 0 =? input g n 0)) (indices (vlen (nodes_ g))))).

Lemma sccp_check_sound g : law g -> sccp_check g = true -> sccp_graph g.
Proof.
  intros Hl. unfold sccp_check. rewrite andb_true_iff, N.ltb_lt. intros [Hp Hall].
  pose proof (every_spec g _ Hall) as Hn.
  split; [apply Hl|apply Hl|exact Hp| |apply Hl| |].
  - intros n. destruct (N.lt_ge_cases n (vlen (nodes_ g))) as [Hlt|Hge].
    + specialize (Hn n Hlt). rewrite !andb_true_iff, N.ltb_lt in Hn. apply Hn.
    + unfold numInputs. by rewrite node_out_of_range.
  - intros c u u' k _ Hk [Hu _] [Hu' _] Hku Hku' _ _ Hin Hin'.
    specialize (Hn u Hu). rewrite !andb_true_iff in Hn. destruct Hn as [_ Hn].
    assert (is_projection_kind (nd_kind (node g u)) = true) as Hpk
      by (rewrite Hku; by destruct Hk as [-> | ->]).
    rewrite Hpk in Hn. cbn [negb orb] in Hn. rewrite forallb_forall in Hn.
    specialize (Hn u' ltac:(by apply list_elem_of_In, elem_of_indices)).
    rewrite Hku, Hku', Hin, Hin', N.eqb_refl in Hn.
    assert (kind_eqb k k = true) as Hkk by by apply kind_eqb_spec.
    rewrite Hkk, !orb_false_r in Hn. by apply N.eqb_eq.
  - intros n Hnn. assert (alive g n) as [Hlt Hd].
    { split.
      - apply N.nle_gt. intros Hge. unfold isNeverNullNode in Hnn.
        by rewrite node_out_of_range in Hnn.
      - unfold isNeverNullNode in Hnn. by destruct (isDead (node g n)). }
    specialize (Hn n Hlt). rewrite !andb_true_iff in Hn. destruct Hn as [[_ Hn] _].
    rewrite Hnn in Hn. cbn [negb orb] in Hn.
    rewrite !andb_true_iff, !negb_true_iff, N.eqb_neq in Hn. split; [by split|tauto].
Qed.

Lemma sccp_example_law : law sccp_example.
Proof. apply law_check_phi_sound; [exact sccp_example_reachable|vm_compute; reflexivity]. Qed.

Lemma sccp_example_graph : sccp_graph sccp_example.
Proof. apply sccp_check_sound; [exact sccp_example_law|vm_compute; reflexivity]. Qed.

(** A property of the nodes of the example holds when a test of each succeeds. *)
Lemma example_instanceof : no_known_instanceof sccp_example.
Proof.
  intros n [Hn _] Hk. exfalso.
  assert (every sccp_example (fun n => negb (kind_eqb (nd_kind (node sccp_example n)) NodeKind.InstanceOf))
    = true) as H by (vm_compute; reflexivity).
  apply every_spec with (n := n) in H; [|exact Hn]. rewrite Hk in H. discriminate H.
Qed.

Lemma sccp_example_width m : floating sccp_example m -> numInputs sccp_example m <= 3.
Proof.
  intros [[Hm _] _].
  assert (every sccp_example (fun n => numInputs sccp_example n <=? 3) = true) as H
    by (vm_compute; reflexivity).
  apply every_spec with (n := m) in H; [|exact Hm]. by apply N.leb_le.
Qed.

Lemma sccp_example_ready : sccp_ready 3 sccp_state.
Proof.
  split.
  - exact sccp_example_graph.
  - exact example_instanceof.
  - split; [exact sccp_example_law|apply junk_ok_new].
  - reflexivity.
  - lia.
  - exact sccp_example_width.
  - split_and!; vm_compute; reflexivity.
Qed.

Lemma sccp_example_run :
  exists st, runSCCP 20 200 sccp_state = Some st /\
    constOf (ps_g st) (input (ps_g st) 10 1) = constOfI 0 /\
    isDead (node (ps_g st) 3) = true /\ isDead (node (ps_g st) 4) = true.
Proof.
  assert (match runSCCP 20 200 sccp_state with
    | Some s => bool_decide (constOf (ps_g s) (input (ps_g s) 10 1) = constOfI 0) &&
                isDead (node (ps_g s) 3) && isDead (node (ps_g s) 4)
    | None => false end = true) as Hd by (vm_compute; reflexivity).
  revert Hd. generalize (runSCCP 20 200 sccp_state). intros [st|] Hd; [|discriminate Hd].
  exists st. split; [reflexivity|]. apply andb_true_iff in Hd as [[H1 H2]%andb_true_iff H3].
  apply bool_decide_eq_true_1 in H1. auto.
Qed.

(** The loop-carried sum is the constant 0: the phi and the addition are gone, the
    function returns the constant, and the loop still runs as it did. *)
Lemma runSCCP_keeps_executions_witness :
  exists st, runSCCP 20 200 sccp_state = Some st /\
    constOf (ps_g st) (input (ps_g st) 10 1) = constOfI 0 /\
    executions_kept sccp_example (ps_g st).
Proof.
  destruct sccp_example_run as (st & Hr & Hc & _). exists st. split; [exact Hr|]. split; [exact Hc|].
  destruct (runSCCP_keeps_executions 3 sccp_state 20 200 sccp_example_ready) as (st' & Hr' & _ & Hk).
  - vm_compute. repeat constructor.
  - vm_compute. repeat constructor.
  - rewrite Hr in Hr'. injection Hr' as <-. exact Hk.
Defined.

Lemma sccp_example_analysis :
  exists s, analyse 20 200 sccp_example (mkBudget 100 0 false) = Some s /\
    b_exceeded (s_b s) = false /\ valAt sccp_example s 3 = constLat (constOfI 0).
Proof.
  assert (match analyse 20 200 sccp_example (mkBudget 100 0 false) with
    | Some s => negb (b_exceeded (s_b s)) &&
                bool_decide (valAt sccp_example s 3 = constLat (constOfI 0))
    | None => false end = true) as Hd by (vm_compute; reflexivity).
  revert Hd. generalize (analyse 20 200 sccp_example (mkBudget 100 0 false)).
  intros [s|] Hd; [|discriminate Hd]. apply andb_true_iff in Hd as [H1%negb_true_iff H2].
  exists s. split; [reflexivity|]. split; [exact H1|]. by apply bool_decide_eq_true_1 in H2.
Qed.

(** In every iteration the loop variable is 0. *)
Lemma sccp_claims_hold_witness :
  exists s, analyse 20 200 sccp_example (mkBudget 100 0 false) = Some s /\
    forall c phi omega, reach sccp_example c phi omega ->
      forall v, evals sccp_example phi omega 3 v -> v = JI 0.
Proof.
  destruct sccp_example_analysis as (s & Ha & Hex & H3). exists s. split; [exact Ha|].
  intros c phi omega Hr v Hv.
  destruct (sccp_claims_hold sccp_example 20 200 (mkBudget 100 0 false) s) with (c := c) (phi := phi) (omega := omega)
    as [_ Hc]; [exact sccp_example_graph|exact example_instanceof|reflexivity| | |exact Ha|exact Hex|exact Hr|].
  - vm_compute. repeat constructor.
  - vm_compute. repeat constructor.
  - specialize (Hc 3 v (constOfI 0) Hv H3). injection Hc as <-. reflexivity.
Defined.

(** ** An [InstanceOf] of a fresh object *)

(** [return new C() instanceof C;] *)
Definition instanceof_example : Graph := build
  [ OMake NodeKind.New [0] 1 0 0;
    OMake NodeKind.InstanceOf [1] 1 0 0;
    OMake NodeKind.Return [1; 2] 0 0 0 ].

Definition instanceof_state : pass_state :=
  mkPass (instanceof_example, newJunk) noTelemetry (mkBudget 100 0 false).

Definition instanceof_omega (n : NodeId) : option jval :=
  if n =? 1 then Some (JRef (Some 7)) else None.

Lemma instanceof_value r : evals instanceof_example (fun _ => None) instanceof_omega 1 (JRef r) -> r = Some 7.
Proof.
  intros [H|[[H _]|[_ H]]]%evals_ref_inv; vm_compute in H; [discriminate H..|]. by injection H as <-.
Qed.

Lemma instanceof_honest : honest instanceof_example (fun _ => None) instanceof_omega.
Proof.
  intros n Hn Hv.
  assert (n = 1) as ->.
  { assert (every instanceof_example (fun n => negb (isNeverNullNode instanceof_example n) || (n =? 1)) = true)
      as H by (vm_compute; reflexivity).
    pose proof (proj1 (evals_alive _ _ _ _ _ Hv)) as Hlt.
    apply every_spec with (n := n) in H; [|exact Hlt]. rewrite Hn in H. by apply N.eqb_eq. }
  by apply instanceof_value in Hv.
Qed.

Lemma instanceof_reach : reach instanceof_example 3 (fun _ => None) instanceof_omega.
Proof.
  apply (reach_step _ 1 (fun _ => None) instanceof_omega 3 0).
  - apply (reach_step _ 0 (fun _ => None) instanceof_omega 1 0).
    + exact (reach_start instanceof_example instanceof_omega instanceof_honest).
    + split_and!; vm_compute; intuition discriminate.
    + vm_compute. discriminate.
    + by intros n v _ _ ?.
    + exact instanceof_honest.
  - split_and!; vm_compute; intuition discriminate.
  - vm_compute. discriminate.
  - by intros n v _ _ ?.
  - exact instanceof_honest.
Qed.

Lemma instanceof_true : evals instanceof_example (fun _ => None) instanceof_omega 2 (JI 1).
Proof.
  apply (ev_un _ _ _ 2 (JRef (Some 7))).
  - split; vm_compute; reflexivity.
  - split; vm_compute; reflexivity.
  - apply ev_opaque; [split; vm_compute; reflexivity|vm_compute; discriminate|reflexivity|reflexivity|exact I].
  - right. reflexivity.
  - vm_compute. split; congruence.
Qed.

(** SCCP folds [new C() instanceof C] to false. The evaluation of the two
    reference tests answers 0 for a receiver that is known not to be null, which
    is right for [IsNull] and wrong for [InstanceOf]: the verifier accepts the
    graph, an execution reaches the return with the value 1, and the graph the
    pass leaves returns the constant 0. *)
Theorem sccp_instanceof_fresh_object_false :
  accepted 5 instanceof_example /\
  (exists phi omega, reach instanceof_example 3 phi omega /\
     evals instanceof_example phi omega (input instanceof_example 3 1) (JI 1)) /\
  exists st, runSCCP 20 200 instanceof_state = Some st /\
    nd_kind (node (ps_g st) 3) = NodeKind.Return /\
    constOf (ps_g st) (input (ps_g st) 3 1) = constOfI 0.
Proof.
  split; [exists (mkVerifyResult true []); split; [vm_compute; reflexivity|reflexivity]|].
  split; [exists (fun _ => None), instanceof_omega; split; [exact instanceof_reach|exact instanceof_true]|].
  assert (match runSCCP 20 200 instanceof_state with
    | Some s => kind_eqb (nd_kind (node (ps_g s) 3)) NodeKind.Return &&
                bool_decide (constOf (ps_g s) (input (ps_g s) 3 1) = constOfI 0)
    | None => false end = true) as Hd by (vm_compute; reflexivity).
  revert Hd. generalize (runSCCP 20 200 instanceof_state). intros [st|] Hd; [|discriminate Hd].
  exists st. split; [reflexivity|]. apply andb_true_iff in Hd as [H1%kind_eqb_spec H2].
  split; [exact H1|]. by apply bool_decide_eq_true_1 in H2.
Qed.
