(* ===== verification/ControlFlow.v ===== *)
(** * Control-flow cleanup

    compiler/passes/src/ControlFlow.cpp: the flow reachability sweep with its region
    repair, branch normalization and null-check folding. A [for] loop over the nodes
    reads [nodeCount] again at every turn, for the body may create nodes; it takes
    fuel, and [None] also means that a type computation does not return. *)

From S2P Require Import Prelude IRTypes Effect NodeInfo SmallVector Graph GraphInv.
From S2P Require Import GraphReplace ResultType PassSupport Machine.

Local Open Scope N_scope.

Definition kMaxSweepIterations : nat := 64.

Definition isRegionLike (k : NodeKind) : bool :=
  kind_eqb k NodeKind.Region || kind_eqb k NodeKind.LoopBegin.

(** The inner loop of the insertion sort. *)
Fixpoint insert_id (x : NodeId) (l : list NodeId) : list NodeId :=
  match l with
  | [] => [x]
  | y :: r => if x <? y then x :: l else y :: insert_id x r
  end.

Definition phisOf (g : Graph) (r : NodeId) : list NodeId :=
  foldl (fun l x => insert_id x l) []
    (map u_user (filter (fun u =>
       isDead (node g (u_user u)) = false /\ u_slot u = 0 /\
       nd_kind (node g (u_user u)) = NodeKind.Phi) (usesOf g r))).

Definition constCondOf (g : Graph) (cond : NodeId) : option Z :=
  let c := node g cond in
  if isDead c || negb (kind_eqb (nd_kind c) NodeKind.ConstantI) then None
  else Some (i32 (nd_constValue c)).

Definition projectionOf (g : Graph) (iff : NodeId) (want : NodeKind) : NodeId :=
  match List.find (fun u => (u_slot u =? 0) && negb (isDead (node g (u_user u))) &&
                            kind_eqb (nd_kind (node g (u_user u))) want) (usesOf g iff) with
  | Some u => u_user u
  | None => kInvalidNodeId
  end.

(** ** Flow *)

Definition flow_use (g : Graph) (c : NodeId) (u : Use) : bool :=
  if (nodeCount g <=? u_user u) || isDead (node g (u_user u)) then false
  else if negb (input g (u_user u) (u_slot u) =? c) then false
  else
    let role := roleOfSlot g (u_user u) (u_slot u) in
    bool_decide (role = InputRole.Ctrl) || bool_decide (role = InputRole.Parent).

(** The constant condition of a node of kind [k] with at least, or exactly, [2] inputs. *)
Definition decided_if (g : Graph) (c : NodeId) : option Z :=
  if kind_eqb (nd_kind (node g c)) NodeKind.If && (numInputs g c =? 2)
  then constCondOf g (input g c 1) else None.

Definition decided_guard (g : Graph) (c : NodeId) : option Z :=
  if kind_eqb (nd_kind (node g c)) NodeKind.Guard && (2 <=? numInputs g c)
  then constCondOf g (input g c 1) else None.

Definition flowSuccessors (g : Graph) (c : NodeId) : list NodeId :=
  if isTerminator (nd_kind (node g c)) then []
  else
    match decided_if g c with
    | Some condVal =>
        let keep := projectionOf g c (if negb (condVal =? 0)%Z then NodeKind.IfTrue else NodeKind.IfFalse) in
        map u_user (List.filter (fun u => (u_slot u =? 0) && (u_user u =? keep) &&
                                          negb (isDead (node g (u_user u)))) (usesOf g c))
    | None =>
        if bool_decide (decided_guard g c = Some 0%Z) then []
        else map u_user (List.filter (flow_use g c) (usesOf g c))
    end.

(** ** Region repair *)

Definition effectivePred (g : Graph) (reach : option (list bool)) (p : NodeId) : bool :=
  if isDead (node g p) then false
  else match reach with
       | Some reach => match vget reach p with Some false => false | _ => true end
       | None => true
       end.

(** The slots of a region whose predecessors are effective. *)
Definition live_slots (g : Graph) (reach : option (list bool)) (n : NodeId) : list N :=
  filter (fun s => effectivePred g reach (input g n s) = true) (indices (numInputs g n)).

(** [if (kill(g, n, t, b, jk)) changed = true;] *)
Definition kill_changed (n : NodeId) (w : bool * pass_state) : option (bool * pass_state) :=
  let '(changed, st) := w in
  match kill n st with
  | Some (killed, st) => Some (changed || killed, st)
  | None => None
  end.

(** A region without a live predecessor. *)
Definition kill_region (n : NodeId) (w : bool * pass_state) : option (bool * pass_state) :=
  match ofor (phisOf (ps_g (snd w)) n) kill_changed w with
  | Some w => kill_changed n w
  | None => None
  end.

(** One Phi of a region with a single live predecessor. *)
Definition collapse_phi (slot : N) (p : NodeId) (w : bool * pass_state) : option (bool * pass_state) :=
  let g := ps_g (snd w) in
  let v := input g p (u16 (1 + slot)) in
  if negb (isDead (node g v)) && negb (v =? p)
  then option_map (fun st => (true, st)) (replace p v (snd w))
  else kill_changed p w.

Definition collapse_region (n slot : N) (w : bool * pass_state) : option (bool * pass_state) :=
  let g := ps_g (snd w) in
  let pred := input g n slot in
  match ofor (phisOf g n) (collapse_phi slot) w with
  | None => None
  | Some w =>
      if negb (isDead (node (ps_g (snd w)) pred)) && negb (pred =? n)
      then option_map (fun st => (fst w, st)) (replace n pred (snd w))
      else kill_changed n w
  end.

Definition with_graph (g : Graph) (st : pass_state) : pass_state :=
  mkPass (g, ps_jk st) (ps_t st) (ps_b st).

(** One Phi of a region that loses some predecessors. *)
Definition rebuild_phi (fresh : NodeId) (live : list N) (p : NodeId) (st : pass_state)
    : option pass_state :=
  let g := ps_g st in
  let values := fresh :: map (fun s => input g p (u16 (1 + s))) live in
  let '(freshPhi, g) := make g NodeKind.Phi values 0 0 in
  replace p freshPhi (with_graph g st).

Definition rebuild_region (n : NodeId) (live : list N) (st : pass_state) : option pass_state :=
  let g := ps_g st in
  let phis := phisOf g n in
  let predIds := map (input g n) live in
  let '(fresh, g) := make g (nd_kind (node g n)) predIds 0 0 in
  match ofor phis (rebuild_phi fresh live) (with_graph g st) with
  | Some st => replace n fresh st
  | None => None
  end.

(** The body of the loop over the nodes. *)
Definition region_visit (reach : option (list bool)) (n : NodeId) (w : bool * pass_state)
    : option (bool * pass_state) :=
  let g := ps_g (snd w) in
  let nd := node g n in
  if isDead nd || negb (isRegionLike (nd_kind nd)) then Some w
  else
    let live := live_slots g reach n in
    match live with
    | [] => kill_region n w
    | slot :: more =>
        if vlen live =? nd_numInputs nd then Some w
        else match more with
             | [] => collapse_region n slot w
             | _ => option_map (fun st => (true, st)) (rebuild_region n live (snd w))
             end
    end.

(** [for (n; n < g.nodeCount() && !b.exceeded; ++n)] *)
Fixpoint each_node {W} (state : W -> pass_state) (body : NodeId -> W -> option W)
    (fuel : nat) (n : NodeId) (w : W) : option W :=
  match fuel with
  | O => None
  | S fuel =>
      if (n <? nodeCount (ps_g (state w))) && negb (b_exceeded (ps_b (state w))) then
        match body n w with
        | None => None
        | Some w => each_node state body fuel (u32 (n + 1)) w
        end
      else Some w
  end.

Fixpoint rebuild_iterations (iters : nat) (fuel : nat) (reach : option (list bool)) (st : pass_state)
    : option pass_state :=
  match iters with
  | O => Some st
  | S iters =>
      match each_node snd (region_visit reach) fuel 1 (false, st) with
      | None => None
      | Some (changed, st) => if changed then rebuild_iterations iters fuel reach st else Some st
      end
  end.

Definition rebuildRegions (fuel : nat) (reach : option (list bool)) (st : pass_state) : option pass_state :=
  rebuild_iterations kMaxSweepIterations fuel reach st.

(** ** The sweep *)

(** One successor: [work.push_back] is a cons, the last element being the head. *)
Definition flow_push (count : N) (w : list NodeId * list bool) (s : NodeId) : list NodeId * list bool :=
  let '(work, reach) := w in
  if (s <? count) && negb (default true (vget reach s)) then (s :: work, vset reach s true) else w.

Fixpoint flow_loop (fuel : nat) (g : Graph) (work : list NodeId) (reach : list bool) : option (list bool) :=
  match fuel with
  | O => None
  | S fuel =>
      match work with
      | [] => Some reach
      | c :: work =>
          let '(work, reach) := foldl (flow_push (nodeCount g)) (work, reach) (flowSuccessors g c) in
          flow_loop fuel g work reach
      end
  end.

(** Phase A. A node is pushed when it is marked, so a turn per node is enough. *)
Definition flowReach (g : Graph) : option (list bool) :=
  let reach := replicate (N.to_nat (nodeCount g)) false in
  let fuel := S (N.to_nat (nodeCount g)) in
  if startNode g <? nodeCount g
  then flow_loop fuel g [startNode g] (vset reach (startNode g) true)
  else flow_loop fuel g [] reach.

(** The body of the loop of phase C. *)
Definition sweep_visit (reach : list bool) (n : NodeId) (w : bool * pass_state) : option (bool * pass_state) :=
  let st := snd w in
  let g := ps_g st in
  let nd := node g n in
  if isDead nd || negb (consumesControl (nd_kind nd)) || isJunkSink (ps_jk st) n then Some w
  else
    let unreachable := bool_decide (vget reach n = Some false) in
    let deadGuard := bool_decide (decided_guard g n = Some 0%Z) in
    if (unreachable || deadGuard) && (liveUseCount g n =? 0) then kill_changed n w else Some w.

Fixpoint sweep_iterations (iters : nat) (fuel : nat) (st : pass_state) : option pass_state :=
  match iters with
  | O => Some st
  | S iters =>
      match flowReach (ps_g st) with
      | None => None
      | Some reach =>
          match rebuildRegions fuel (Some reach) st with
          | None => None
          | Some st =>
              match each_node snd (sweep_visit reach) fuel 0 (false, st) with
              | None => None
              | Some (killed, st) => if killed then sweep_iterations iters fuel st else Some st
              end
          end
      end
  end.

Definition unreachableSweep (fuel : nat) (st : pass_state) : option pass_state :=
  sweep_iterations kMaxSweepIterations fuel st.

(** ** Branch normalization *)

Definition norm_if (n : NodeId) (condVal : Z) (st : pass_state) : option pass_state :=
  let g := ps_g st in
  let trueProj := projectionOf g n NodeKind.IfTrue in
  let falseProj := projectionOf g n NodeKind.IfFalse in
  if (trueProj =? kInvalidNodeId) || (falseProj =? kInvalidNodeId) then Some st
  else
    let keep := if negb (condVal =? 0)%Z then trueProj else falseProj in
    let ctrl := input g n 0 in
    if negb (isDead (node g ctrl)) && negb (ctrl =? keep) then replace keep ctrl st else Some st.

Definition is_deopt_of (g : Graph) (fs payload : N) (u : Use) : bool :=
  let cand := node g (u_user u) in
  negb (isDead cand) && kind_eqb (nd_kind cand) NodeKind.Deopt && (nd_numInputs cand =? 2) &&
  (input g (u_user u) 1 =? fs) && (nd_payload cand =? payload).

Definition norm_guard (n : NodeId) (condVal : Z) (st : pass_state) : option pass_state :=
  let g := ps_g st in
  if negb (condVal =? 0)%Z then replace n (input g n 0) st
  else
    let ctrl := input g n 0 in
    let fs := input g n 2 in
    let payload2 := nd_payload2 (node g n) in
    if existsb (is_deopt_of g fs payload2) (usesOf g ctrl) then Some st
    else Some (with_graph (snd (make g NodeKind.Deopt [ctrl; fs] payload2 0)) st).

Definition branch_visit (n : NodeId) (st : pass_state) : option pass_state :=
  let g := ps_g st in
  if isDead (node g n) || isJunkSink (ps_jk st) n then Some st
  else match decided_if g n, decided_guard g n with
       | Some condVal, _ => norm_if n condVal st
       | None, Some condVal => norm_guard n condVal st
       | None, None => Some st
       end.

Definition runBranchNormalization (fuel : nat) (st : pass_state) : option pass_state :=
  match each_node id branch_visit fuel 0 st with
  | Some st => unreachableSweep fuel st
  | None => None
  end.

(** ** Null-check folding *)

(** The value [x] of a guard [NullCheck, Not(IsNull(x))]. *)
Definition null_checked (g : Graph) (n : NodeId) : option NodeId :=
  let nd := node g n in
  if isDead nd || negb (kind_eqb (nd_kind nd) NodeKind.Guard) || (nd_numInputs nd <? 3) then None
  else if negb (nd_payload nd mod 256 =? GuardKind.code GuardKind.NullCheck) then None
  else
    let cond := input g n 1 in
    let c := node g cond in
    if isDead c || negb (kind_eqb (nd_kind c) NodeKind.Not) || (nd_numInputs c <? 1) then None
    else
      let isnull := input g cond 0 in
      let i := node g isnull in
      if isDead i || negb (kind_eqb (nd_kind i) NodeKind.IsNull) || (nd_numInputs i <? 1) then None
      else Some (input g isnull 0).

Definition null_visit (n : NodeId) (st : pass_state) : option pass_state :=
  let g := ps_g st in
  match null_checked g n with
  | Some x => if isNeverNullNode g x then replace n (input g n 0) st else Some st
  | None => Some st
  end.

Definition runNullCheckFolding (fuel : nat) (st : pass_state) : option pass_state :=
  each_node id null_visit fuel 0 st.
