(* ===== verification/ControlFlowReach.v ===== *)
(** * What the control-flow sweep takes for reachable

    The worklist of the sweep ends and marks the closure of [flowSuccessors]; every
    control node that an execution goes through is marked, so what the sweep takes for
    unreachable never runs. At the end, a run that stops short of its contract. *)

From S2P Require Import Prelude IRTypes Effect NodeInfo SmallVector Graph GraphInv GraphReplace.
From S2P Require Import ResultType Verifier VerifierSound PassSupport PassLaw PassGrow PassRewire.
From S2P Require Import Machine JavaSem ConstFold Simplify SimplifyValues SCCP.
From S2P Require Import SccpLattice SccpFix SccpSound SccpApply SccpRun ControlFlow.

Local Open Scope N_scope.

Inductive flow_reachable (g : Graph) : NodeId -> Prop :=
| fr_start : startNode g < nodeCount g -> flow_reachable g (startNode g)
| fr_step c s : flow_reachable g c -> s ∈ flowSuccessors g c -> s < nodeCount g ->
    flow_reachable g s.

(** ** The worklist *)

Definition marked (reach : list bool) (n : NodeId) : Prop := vget reach n = Some true.

Fixpoint unmarked (reach : list bool) : nat :=
  match reach with [] => 0 | b :: r => (if b : bool then 0 else 1) + unmarked r end.

Lemma unmarked_vset reach s :
  vget reach s = Some false -> unmarked reach = S (unmarked (vset reach s true)).
Proof.
  rewrite vget_lookup, vset_insert. generalize (N.to_nat s). clear s.
  induction reach as [|b r IH]; intros [|i]; cbn; [done|done| |].
  - by intros [= ->].
  - intros H. apply IH in H. destruct b; cbn; rewrite H at 1; done.
Qed.

Lemma marked_vset reach s n : vget reach s = Some false ->
  marked (vset reach s true) n <-> n = s \/ marked reach n.
Proof.
  intros Hs. pose proof (vget_Some_lt _ _ _ Hs). unfold marked. rewrite vget_vset.
  case_decide as Hd; [destruct Hd as [-> _]; naive_solver|]. split; [by right|].
  intros [->|?]; [|done]. destruct Hd. by split.
Qed.

Section flow.
Context (g : Graph).
Abbreviation count := (nodeCount g).

(** What is marked is reachable, and marked nodes that are not waiting have marked
    successors. *)
Record flow_inv (work : list NodeId) (reach : list bool) : Prop := {
  fi_len : vlen reach = count;
  fi_sound : forall n, marked reach n -> flow_reachable g n;
  fi_work : forall n, n ∈ work -> marked reach n;
  fi_closed : forall c s, marked reach c -> c ∉ work -> s ∈ flowSuccessors g c ->
    s < count -> marked reach s
}.

Definition measure (work : list NodeId) (reach : list bool) : nat := List.length work + unmarked reach.

(** Pushing successors of a node keeps the measure, marks them and unmarks nothing. *)
Lemma flow_push_spec succ : forall work reach,
  vlen reach = count -> (forall n, n ∈ work -> marked reach n) ->
  let '(work', reach') := foldl (flow_push count) (work, reach) succ in
  vlen reach' = count /\ measure work' reach' = measure work reach /\
  (forall n, marked reach n -> marked reach' n) /\
  (forall n, n ∈ work' -> marked reach' n) /\ (forall n, n ∈ work -> n ∈ work') /\
  (forall n, marked reach' n -> marked reach n \/ n ∈ work' /\ n ∈ succ /\ n < count) /\
  (forall s, s ∈ succ -> s < count -> marked reach' s).
Proof.
  induction succ as [|s succ IH]; intros work reach Hlen Hwork.
  { cbn. split_and!; try done; try by auto. intros s Hs. by apply not_elem_of_nil in Hs. }
  cbn [foldl]. destruct (flow_push count (work, reach) s) as [work1 reach1] eqn:E.
  assert (vlen reach1 = count /\ measure work1 reach1 = measure work reach /\
    (forall n, marked reach n -> marked reach1 n) /\ (forall n, n ∈ work1 -> marked reach1 n) /\
    (forall n, n ∈ work -> n ∈ work1) /\
    (forall n, marked reach1 n -> marked reach n \/ n ∈ work1 /\ n = s /\ n < count) /\
    (s < count -> marked reach1 s)) as (H1 & H2 & H3 & H4 & H5 & H6 & H7).
  { unfold flow_push in E. destruct (N.ltb_spec s count) as [Hs|Hs]; cbn [andb] in E.
    2:{ injection E as <- <-. split_and!; auto. lia. }
    destruct (proj1 (vget_lt_is_Some reach s) ltac:(lia)) as [b Hb]. rewrite Hb in E. cbn [default] in E.
    destruct b; cbn [negb] in E; injection E as <- <-.
    - split_and!; auto.
    - rewrite vlen_vset. unfold measure. cbn [List.length]. pose proof (unmarked_vset reach s Hb).
      split_and!; [done|lia| | |intros; by right| |].
      + intros n Hn. apply marked_vset; auto.
      + intros n [->|Hn]%elem_of_cons; apply marked_vset; auto.
      + intros n [->|Hn]%(marked_vset _ _ _ Hb); [right; split_and!; [by left|done|done]|by left].
      + intros _. apply marked_vset; auto. }
  specialize (IH work1 reach1 H1 H4). destruct (foldl _ _ _) as [work' reach'].
  destruct IH as (I1 & I2 & I3 & I4 & I5 & I6 & I7). split_and!; [done|lia|auto|auto|auto| |].
  - intros n [Hn|(? & ? & ?)]%I6; [|right; split_and!; [done|by right|done]].
    apply H6 in Hn as [?|(? & -> & ?)]; [by left|]. right. split_and!; [auto|by left|done].
  - intros x [->|Hx]%elem_of_cons Hlt; auto.
Qed.

Lemma flow_loop_spec fuel : forall work reach,
  flow_inv work reach -> (measure work reach < fuel)%nat ->
  exists reach', flow_loop fuel g work reach = Some reach' /\ vlen reach' = count /\
    (forall n, marked reach n -> marked reach' n) /\ (forall n, marked reach' n -> flow_reachable g n) /\
    (forall c s, marked reach' c -> s ∈ flowSuccessors g c -> s < count -> marked reach' s).
Proof.
  induction fuel as [|fuel IH]; intros work reach [Hl Hs Hw Hc] Hf; [lia|].
  cbn [flow_loop]. destruct work as [|c work].
  { exists reach. split_and!; try done. intros c s Hm. apply (Hc c s Hm). by apply not_elem_of_nil. }
  pose proof (flow_push_spec (flowSuccessors g c) work reach Hl ltac:(intros; apply Hw; by right)) as H.
  destruct (foldl _ _ _) as [work' reach'].
  destruct H as (H1 & H2 & H3 & H4 & H5 & H6 & H7).
  destruct (IH work' reach') as (r & Hr & Hrl & Hm & Hsound & Hclosed).
  - split; [done| |done|].
    + intros n [?|(? & Hin & Hlt)]%H6; [auto|]. apply (fr_step g c); auto. apply Hs, Hw. by left.
    + intros d s Hd Hnw Hin Hlt. apply H6 in Hd as [Hd|(? & _ & _)]; [|done].
      destruct (decide (d = c)) as [->|Hne]; [by apply H7|].
      apply H3, (Hc d s Hd); [|done..]. intros [->|Hx]%elem_of_cons; [done|]. by apply Hnw, H5.
  - unfold measure in *. cbn [List.length] in Hf. lia.
  - exists r. split_and!; auto.
Qed.

Lemma unmarked_replicate n : unmarked (replicate n false) = n.
Proof. induction n as [|n IH]; [done|]. cbn. by rewrite IH. Qed.

Lemma marked_replicate n m : ~ marked (replicate n false) m.
Proof. unfold marked. rewrite vget_lookup. by intros [? _]%lookup_replicate. Qed.

End flow.

(** C21: The worklist of the sweep ends within a turn per node, on every graph, and marks
    a node exactly when control flows to it from the start node along the edges that the
    sweep follows: all control edges but those past a terminator, out of a guard whose
    condition is the constant 0, or into the projection that a constant condition does not take. *)
Theorem flowReach_exact g : exists reach, flowReach g = Some reach /\ vlen reach = nodeCount g /\
  forall n, vget reach n = Some true <-> flow_reachable g n.
Proof.
  assert (vlen (replicate (N.to_nat (nodeCount g)) false) = nodeCount g) as Hlen.
  { unfold vlen. rewrite length_replicate. lia. }
  unfold flowReach. destruct (N.ltb_spec (startNode g) (nodeCount g)) as [Hs|Hs].
  - assert (vget (replicate (N.to_nat (nodeCount g)) false) (startNode g) = Some false) as Hv.
    { rewrite vget_lookup. apply lookup_replicate. split; [done|lia]. }
    pose proof (unmarked_vset _ _ Hv) as Hu. rewrite unmarked_replicate in Hu.
    assert (forall n, marked (vset (replicate (N.to_nat (nodeCount g)) false) (startNode g) true) n <->
      n = startNode g) as Hm.
    { intros n. rewrite marked_vset by done. pose proof (marked_replicate (N.to_nat (nodeCount g)) n). tauto. }
    destruct (flow_loop_spec g (S (N.to_nat (nodeCount g))) [startNode g]
      (vset (replicate (N.to_nat (nodeCount g)) false) (startNode g) true)) as (r & Hr & Hl & H1 & H2 & H3).
    + split; [by rewrite vlen_vset|intros n ->%Hm; by constructor| |].
      * intros n ->%list_elem_of_singleton. by apply Hm.
      * intros c s ->%Hm []. by left.
    + unfold measure. cbn [List.length]. lia.
    + exists r. split_and!; [done..|]. intros n. split; [apply H2|].
      induction 1 as [|c s _ IH Hin Hlt]; [apply H1; by apply Hm|by apply (H3 c)].
  - destruct (flow_loop_spec g (S (N.to_nat (nodeCount g))) [] (replicate (N.to_nat (nodeCount g)) false))
      as (r & Hr & Hl & H1 & H2 & H3).
    + split; [done|by intros n ?%marked_replicate|by intros n ?%not_elem_of_nil|].
      by intros c s ?%marked_replicate.
    + unfold measure. rewrite unmarked_replicate. cbn [List.length]. lia.
    + exists r. split_and!; [done..|]. intros n. split; [apply H2|].
      induction 1 as [|c s _ IH Hin Hlt]; [lia|by apply (H3 c)].
Qed.

(** ** Executions *)

Lemma constCondOf_evals g n z phi omega v :
  constCondOf g n = Some z -> evals g phi omega n (JI v) -> v = z.
Proof.
  unfold constCondOf. intros Hc He.
  destruct (isDead (node g n)) eqn:Hd; [done|]. cbn [orb] in Hc.
  destruct (kind_eqb (nd_kind (node g n)) NodeKind.ConstantI) eqn:Hk; [|done]. apply kind_eqb_spec in Hk.
  cbn in Hc. injection Hc as <-.
  inversion He as [? ? _ Hv _|? ? _ Hk' _ _|? a b ? _ _ _ _ _ Hj _|? a ? _ _ _ Hj _|? ? _ _ Hk' _ _]; subst.
  - unfold constOf in Hv. rewrite Hd, Hk in Hv. cbn in Hv. by injection Hv.
  - congruence.
  - rewrite Hk in Hj. by destruct a.
  - rewrite Hk in Hj. by destruct a.
  - by rewrite Hk in Hk'.
Qed.

Section executions.
Context (g : Graph) (Hg : sccp_graph g).

Lemma count_nodes : nodeCount g = vlen (nodes_ g).
Proof using Hg. apply u32_small, so_nodes, go_storage, Hg. Qed.

Lemma control_slot_flow u i c :
  alive g u -> has_slot g u i -> input g u i = c -> control_slot g u i -> flow_use g c (mkUse u i) = true.
Proof using Hg.
  intros [Hu Hd] Hs Hin Hc. unfold flow_use. cbn [u_user u_slot]. rewrite count_nodes, Hd.
  rewrite (proj2 (N.leb_gt _ _)) by done. cbn [orb]. rewrite Hin, N.eqb_refl. cbn [negb].
  unfold control_slot, is_control_role in Hc. by destruct (roleOfSlot g u i).
Qed.

Lemma projection_slot_flow u i c :
  alive g u -> has_slot g u i -> input g u i = c -> i = 0 ->
  nd_kind (node g u) ∈ [NodeKind.IfTrue; NodeKind.IfFalse; NodeKind.SwitchCase; NodeKind.SwitchDefault] ->
  flow_use g c (mkUse u i) = true.
Proof using Hg.
  intros Ha Hs Hin -> Hk. apply control_slot_flow; try done. destruct Hs as [_ Hs].
  unfold control_slot, roleOfSlot. unfold numInputs in Hs.
  rewrite (proj2 (N.leb_gt _ _)) by done.
  rewrite !elem_of_cons, elem_of_nil in Hk. by destruct Hk as [->|[->|[->|[->|[]]]]].
Qed.

Lemma in_flow_uses c u i :
  c < vlen (nodes_ g) -> has_slot g u i -> input g u i = c ->
  flow_use g c (mkUse u i) = true -> u ∈ map u_user (List.filter (flow_use g c) (usesOf g c)).
Proof using Hg.
  intros Hc Hs Hin Hf. apply list_elem_of_In, in_map_iff. exists (mkUse u i). split; [done|].
  apply filter_In. split; [|done]. apply list_elem_of_In. by apply elem_of_usesOf; [apply Hg|..].
Qed.

(** The projection that a condition takes is the one the sweep follows. *)
Lemma projection_found c u k :
  nd_kind (node g c) = NodeKind.If -> k = NodeKind.IfTrue \/ k = NodeKind.IfFalse ->
  c < vlen (nodes_ g) -> alive g u -> has_slot g u 0 -> input g u 0 = c -> nd_kind (node g u) = k ->
  projectionOf g c k = u.
Proof using Hg.
  intros Hc Hk Hlt Ha Hs Hin Hu. unfold projectionOf.
  assert (mkUse u 0 ∈ usesOf g c) as Hin' by (apply elem_of_usesOf; [apply Hg|done|done]).
  destruct (List.find _ (usesOf g c)) as [[u' s']|] eqn:E.
  - apply find_some in E as [Hin2 E]. cbn [u_user u_slot] in *. rewrite !andb_true_iff, N.eqb_eq, negb_true_iff, kind_eqb_spec in E.
    destruct E as [[-> Hd] Hk']. apply list_elem_of_In, elem_of_usesOf in Hin2 as [Hs' Hi']; [|apply Hg|done].
    cbn in Hs', Hi'. apply (sg_projection g Hg c u' u k); try done. split; [apply Hs'|done].
  - exfalso. apply find_none with (x := mkUse u 0) in E; [|by apply list_elem_of_In].
    cbn [u_user u_slot] in E. destruct Ha as [_ Hd]. rewrite Hd, Hu, N.eqb_refl in E. cbn in E.
    assert (kind_eqb k k = true) as Hkk by (by apply kind_eqb_spec). congruence.
Qed.

Lemma flows_successor phi omega c u i :
  c < vlen (nodes_ g) -> flows g phi omega c u i -> u ∈ flowSuccessors g c.
Proof using Hg.
  intros Hlt (Ha & Hs & Hin & Hf). unfold flowSuccessors.
  assert (isTerminator (nd_kind (node g c)) = false) as -> by (by destruct (nd_kind (node g c))).
  destruct (decided_if g c) as [z|] eqn:Hdi.
  - unfold decided_if in Hdi. destruct (kind_eqb (nd_kind (node g c)) NodeKind.If) eqn:Hk; [|done].
    apply kind_eqb_spec in Hk. cbn [andb] in Hdi. destruct (numInputs g c =? 2); [|done].
    rewrite Hk in Hf. destruct Hf as (-> & _ & v & Hv & Hu).
    rewrite (constCondOf_evals _ _ _ _ _ _ Hdi Hv) in Hu.
    rewrite (projection_found c u (if negb (z =? 0)%Z then NodeKind.IfTrue else NodeKind.IfFalse)); try done.
    + apply list_elem_of_In, in_map_iff. exists (mkUse u 0). split; [done|]. apply filter_In. split.
      * apply list_elem_of_In, elem_of_usesOf; [apply Hg|done|done].
      * cbn [u_user u_slot]. by rewrite !N.eqb_refl, (proj2 Ha).
    + destruct (z =? 0)%Z; auto.
    + by destruct (z =? 0)%Z.
  - rewrite bool_decide_false.
    2:{ unfold decided_guard. destruct (kind_eqb (nd_kind (node g c)) NodeKind.Guard) eqn:Hk; [|done].
        apply kind_eqb_spec in Hk. cbn [andb]. destruct (2 <=? numInputs g c); [|done]. intros Hz.
        rewrite Hk in Hf. destruct Hf as (_ & _ & v & Hv & Hne).
        by rewrite (constCondOf_evals _ _ _ _ _ _ Hz Hv) in Hne. }
    apply (in_flow_uses c u i); try done.
    destruct (nd_kind (node g c)); try done; try (by apply control_slot_flow).
    + destruct Hf as (-> & _ & v & _ & Hu). apply projection_slot_flow; try done. rewrite Hu.
      destruct (v =? 0)%Z; rewrite !elem_of_cons; auto.
    + destruct Hf as (-> & Hu). apply projection_slot_flow; try done.
      destruct Hu as [-> | ->]; rewrite !elem_of_cons; auto.
    + destruct Hf as (_ & Hu & _). by apply control_slot_flow.
Qed.

Lemma executed_reachable c phi omega : reach g c phi omega -> flow_reachable g c.
Proof using Hg.
  induction 1 as [omega _|c phi omega u i phi' omega' Hr IH Hf _ _ _].
  - constructor. rewrite count_nodes. apply (sg_start g Hg).
  - assert (c < vlen (nodes_ g)) as Hc.
    { destruct Hr as [|? ? ? ? ? ? ? _ (Ha & _) _ _ _]; [apply (sg_start g Hg)|apply Ha]. }
    apply (fr_step g c); [done|by eapply flows_successor|]. rewrite count_nodes. apply (proj1 Hf).
Qed.
End executions.

(** C20: What the sweep takes for unreachable never runs: whatever the parameters, loads
    and calls produce, every control node that an execution goes through is marked. *)
Theorem unmarked_never_runs g c phi omega reachable :
  sccp_graph g -> reach g c phi omega -> flowReach g = Some reachable ->
  vget reachable c = Some true.
Proof.
  intros Hg Hr Hf. destruct (flowReach_exact g) as (r & Hr' & _ & Hm).
  rewrite Hf in Hr'. injection Hr' as <-. apply Hm. by eapply executed_reachable.
Qed.

(** ** Examples *)

(** Control from [c] through [n] class initialisations to a return; node 5 is taken. *)
Fixpoint init_chain (n : nat) (c : NodeId) : list build_op :=
  match n with
  | O => [OMake NodeKind.Return [c] 0 0 0]
  | S n => OMake NodeKind.ClassInit [c; 0] 0 0 0 :: init_chain n (if c =? 4 then 6 else c + 1)
  end.

(** [if (1) return; else { n class initialisations; return; }] *)
Definition dead_branch (n : nat) : Graph := build
  ([ OMake NodeKind.ConstantI [] 0 0 1;
     OMake NodeKind.If [0; 1] 0 0 0;
     OMake NodeKind.IfTrue [2] 0 0 0;
     OMake NodeKind.IfFalse [2] 0 0 0;
     OMake NodeKind.Return [3] 0 0 0 ] ++ init_chain n 4).

Definition no_env : env := fun _ => None.

Lemma dead_branch_graph : sccp_graph (dead_branch 2).
Proof.
  apply sccp_check_sound; [|vm_compute; reflexivity].
  apply law_check_phi_sound; [apply build_reachable|]; vm_compute; reflexivity.
Qed.

Lemma dead_branch_honest : honest (dead_branch 2) no_env no_env.
Proof.
  intros n Hn _. assert (every (dead_branch 2) (fun n => negb (isNeverNullNode (dead_branch 2) n)) = true) as H
    by (vm_compute; reflexivity).
  destruct (N.lt_ge_cases n (vlen (nodes_ (dead_branch 2)))) as [Hlt|Hge].
  - pose proof (every_spec _ _ H n Hlt) as Hf. cbv beta in Hf. by rewrite Hn in Hf.
  - unfold isNeverNullNode in Hn. by rewrite node_out_of_range in Hn.
Qed.

(** The taken projection is executed. *)
Lemma dead_branch_taken : reach (dead_branch 2) 3 no_env no_env.
Proof.
  apply (reach_step _ 2 no_env no_env 3 0); [| |by vm_compute|by intros|exact dead_branch_honest].
  - apply (reach_step _ 0 no_env no_env 2 0); [| |by vm_compute|by intros|exact dead_branch_honest].
    + apply (reach_start (dead_branch 2) no_env), dead_branch_honest.
    + split_and!; by vm_compute.
  - split_and!; [by vm_compute..|]. cbn [nd_kind]. change (nd_kind (node (dead_branch 2) 2)) with NodeKind.If.
    split; [done|]. split; [by vm_compute|]. exists 1%Z. split; [|by vm_compute].
    apply ev_const; [split|..]; by vm_compute.
Qed.

Lemma unmarked_never_runs_witness : exists reachable, flowReach (dead_branch 2) = Some reachable /\
  vget reachable 3 = Some true /\ vget reachable 6 = Some false.
Proof.
  assert (exists r, flowReach (dead_branch 2) = Some r /\ vget r 6 = Some false) as (r & Hr & H6)
    by (eexists; split; vm_compute; reflexivity).
  exists r. split; [exact Hr|]. split; [|exact H6].
  exact (unmarked_never_runs (dead_branch 2) 3 no_env no_env r dead_branch_graph dead_branch_taken Hr).
Defined.

Definition sweep_state (g : Graph) : pass_state :=
  mkPass (g, newJunk) noTelemetry (mkBudget 200000 0 false).

(** The sweep stops after 64 turns, and a turn kills only what nothing refers to any
    more, one node of a straight line. On a graph that the verifier accepts, with 70
    class initialisations in a branch that is never taken, nodes that the sweep itself
    takes for unreachable are alive when it returns, and nothing in the telemetry or
    the budget tells of it. With 10 none is left. *)
Theorem sweep_leaves_unreachable_code :
  (exists r, verify 1000 (dead_branch 70) = Some r /\ vr_ok r = true) /\
  (exists st reachable, unreachableSweep 1000 (sweep_state (dead_branch 70)) = Some st /\
     flowReach (dead_branch 70) = Some reachable /\ vget reachable 6 = Some false /\
     nd_kind (node (ps_g st) 6) = NodeKind.ClassInit /\ isDead (node (ps_g st) 6) = false /\
     t_converged (ps_t st) = true /\ t_budgetOverruns (ps_t st) = 0 /\ b_exceeded (ps_b st) = false) /\
  (exists st, unreachableSweep 1000 (sweep_state (dead_branch 10)) = Some st /\
     isDead (node (ps_g st) 6) = true).
Proof.
  split; [eexists; split; vm_compute; reflexivity|]. split.
  - eexists _, _. split; [vm_compute; reflexivity|]. split; [vm_compute; reflexivity|].
    split_and!; vm_compute; reflexivity.
  - eexists. split; vm_compute; reflexivity.
Qed.
