(* ===== verification/NullFold.v ===== *)
(** * Null-check folding

    What [runNullCheckFolding] does to a graph: it takes null checks of values that are
    never null out of the control flow, all of them and nothing else. *)

From S2P Require Import Prelude IRTypes Effect NodeInfo SmallVector Graph GraphInv GraphReplace.
From S2P Require Import ResultType PassSupport PassLaw PassGrow PassRewire DCE Machine SCCP.
From S2P Require Import SccpRun ControlFlow.

Local Open Scope N_scope.

(** ** Loops over the nodes *)

Lemma each_node_mono {W} (state : W -> pass_state) body fuel fuel' n w r :
  (fuel <= fuel')%nat -> each_node state body fuel n w = Some r -> each_node state body fuel' n w = Some r.
Proof.
  revert fuel' n w. induction fuel as [|fuel IH]; intros [|fuel'] n w Hle; try done; [lia|].
  cbn [each_node]. destruct (_ && _); [|done]. destruct (body n w) as [w1|]; [|done]. apply IH. lia.
Qed.

(** A step leaves the graph alone, or pays for what it does from the budget. *)
Definition paid (st st' : pass_state) : Prop :=
  b_limit (ps_b st') = b_limit (ps_b st) /\ b_used (ps_b st) <= b_used (ps_b st') /\
  (ps_g st' = ps_g st \/ b_used (ps_b st) < b_limit (ps_b st) /\ b_used (ps_b st') = b_used (ps_b st) + 1).

(** A loop whose body pays for its changes ends, past the last node unless the budget
    ran out. *)
Lemma each_node_total (I : NodeId -> pass_state -> Prop) (body : NodeId -> pass_state -> option pass_state) :
  (forall n st, I n st -> law (ps_g st)) ->
  (forall n st, I n st -> n < vlen (nodes_ (ps_g st)) -> b_exceeded (ps_b st) = false ->
     exists st', body n st = Some st' /\ I (n + 1) st' /\ paid st st') ->
  forall n st, I n st -> exists fuel n' st', each_node id body fuel n st = Some st' /\ I n' st' /\
    (b_exceeded (ps_b st') = false -> vlen (nodes_ (ps_g st')) <= n').
Proof.
  intros Hlaw Hbody.
  enough (forall k j n st, I n st ->
    (N.to_nat (b_limit (ps_b st) - b_used (ps_b st)) <= k)%nat ->
    (N.to_nat (vlen (nodes_ (ps_g st)) - n) <= j)%nat ->
    exists fuel n' st', each_node id body fuel n st = Some st' /\ I n' st' /\
      (b_exceeded (ps_b st') = false -> vlen (nodes_ (ps_g st')) <= n')) as H by eauto.
  intros k. induction k as [k IHk] using lt_wf_ind.
  intros j. induction j as [j IHj] using lt_wf_ind. intros n st HI Hk Hj.
  pose proof (law_count _ (Hlaw n st HI)) as Hcount.
  destruct (N.ltb_spec n (vlen (nodes_ (ps_g st)))) as [Hn|Hn].
  2:{ exists 1%nat, n, st. cbn [each_node]. unfold id at 1. rewrite Hcount, (proj2 (N.ltb_ge _ _)) by done. done. }
  destruct (b_exceeded (ps_b st)) eqn:Hex.
  { exists 1%nat, n, st. cbn [each_node]. unfold id. rewrite Hex, andb_false_r. split_and!; [done..|congruence]. }
  destruct (Hbody n st HI Hn Hex) as (st1 & Hb & HI1 & Hl & Hu & Hpaid).
  assert (exists fuel n' st', each_node id body fuel (n + 1) st1 = Some st' /\ I n' st' /\
    (b_exceeded (ps_b st') = false -> vlen (nodes_ (ps_g st')) <= n')) as (fuel & n' & st' & Hr & HI' & Hend).
  { destruct Hpaid as [Hg|[Hlt Heq]].
    - apply (IHj (N.to_nat (vlen (nodes_ (ps_g st)) - (n + 1)))); [lia|done|lia|by rewrite Hg].
    - eapply (IHk (N.to_nat (b_limit (ps_b st1) - b_used (ps_b st1)))); [lia|done..]. }
  exists (S fuel), n', st'. split; [|done]. cbn [each_node]. unfold id at 1 2.
  rewrite Hcount, Hex, (proj2 (N.ltb_lt _ _)), Hb by done. cbn [negb andb].
  rewrite u32_small; [exact Hr|].
  pose proof (so_nodes _ (go_storage _ (law_ok _ (Hlaw n st HI)))). unfold fits32 in *. lia.
Qed.

(** ** Folding *)

Definition is_guard (k : NodeKind) : bool := kind_eqb k NodeKind.Guard.

Definition foldable (g : Graph) (n : NodeId) : Prop :=
  exists x, null_checked g n = Some x /\ isNeverNullNode g x = true.

(** The control input of a guard is no value, and guards are not data of the nodes a
    null check looks at. *)
Record guards_ok (g : Graph) : Prop := {
  gk_ctrl : forall n, alive g n -> nd_kind (node g n) = NodeKind.Guard -> has_slot g n 0 ->
    leaf g (input g n 0);
  gk_data : forall n s, alive g n -> has_slot g n s ->
    nd_kind (node g n) = NodeKind.Guard /\ s = 1 \/
    (nd_kind (node g n) = NodeKind.Not \/ nd_kind (node g n) = NodeKind.IsNull) /\ s = 0 ->
    nd_kind (node g (input g n s)) <> NodeKind.Guard
}.

(** [g] is [g0] without the guards folded so far: [dest] says what took the place of
    each node, which for a guard is what took the place of its control input. *)
Record folded (dest : NodeId -> NodeId) (g0 g : Graph) : Prop := {
  fd_count : vlen (nodes_ g0) <= vlen (nodes_ g);
  fd_live : forall m, m < vlen (nodes_ g0) -> alive g m -> alive g0 m /\ node g m = node g0 m;
  fd_input : forall m s, m < vlen (nodes_ g0) -> alive g m -> s < numInputs g0 m ->
    input g m s = dest (input g0 m s);
  fd_keep : forall m, m < vlen (nodes_ g0) -> alive g m -> dest m = m;
  fd_gone : forall m, alive g0 m -> ~ alive g m -> foldable g0 m /\ dest m = dest (input g0 m 0);
  fd_new : forall m, vlen (nodes_ g0) <= m < vlen (nodes_ g) -> sink_kind (nd_kind (node g m)) = true
}.

Lemma null_checked_inv g n x : null_checked g n = Some x ->
  nd_kind (node g n) = NodeKind.Guard /\ isDead (node g n) = false /\ 3 <= numInputs g n /\
  nd_payload (node g n) mod 256 = GuardKind.code GuardKind.NullCheck /\
  let c := input g n 1 in
  nd_kind (node g c) = NodeKind.Not /\ isDead (node g c) = false /\ 1 <= numInputs g c /\
  let i := input g c 0 in
  nd_kind (node g i) = NodeKind.IsNull /\ isDead (node g i) = false /\ 1 <= numInputs g i /\
  x = input g i 0.
Proof.
  unfold null_checked. cbv zeta. intros H.
  repeat match type of H with (if ?b then _ else _) = _ => destruct b eqn:?; [done|] end.
  injection H as <-.
  repeat match goal with
  | H : (_ || _) = false |- _ => apply orb_false_iff in H as [? ?]
  | H : negb _ = false |- _ => apply negb_false_iff in H
  | H : kind_eqb _ _ = true |- _ => apply kind_eqb_spec in H
  | H : (_ =? _) = true |- _ => apply N.eqb_eq in H
  | H : (_ <? _) = false |- _ => apply N.ltb_ge in H
  end. split_and!; done.
Qed.

Lemma null_checked_intro g n :
  nd_kind (node g n) = NodeKind.Guard -> isDead (node g n) = false -> 3 <= numInputs g n ->
  nd_payload (node g n) mod 256 = GuardKind.code GuardKind.NullCheck ->
  let c := input g n 1 in
  nd_kind (node g c) = NodeKind.Not -> isDead (node g c) = false -> 1 <= numInputs g c ->
  let i := input g c 0 in
  nd_kind (node g i) = NodeKind.IsNull -> isDead (node g i) = false -> 1 <= numInputs g i ->
  null_checked g n = Some (input g i 0).
Proof.
  intros H1 H2 H3 H4 c H5 H6 H7 i H8 H9 H10. unfold null_checked. cbv zeta. fold c. fold i.
  unfold numInputs in *. rewrite H2, H6, H9, H1, H5, H8, H4.
  by rewrite !(proj2 (N.ltb_ge _ _)) by done.
Qed.

Section folding.
Context (g0 : Graph) (Hl0 : law g0) (Hk0 : guards_ok g0).

Lemma folded_id : folded id g0 g0.
Proof using. split; try done. intros m [??]. lia. Qed.

(** Nodes that are no guards stay. *)
Lemma folded_keeps dest g m :
  folded dest g0 g -> alive g0 m -> nd_kind (node g0 m) <> NodeKind.Guard ->
  alive g m /\ node g m = node g0 m /\ dest m = m.
Proof using.
  intros F Ha Hk. destruct (alive_dec_dead g m) as [H|H].
  - split_and!; [done|by apply (fd_live _ _ _ F m (proj1 Ha))|by apply (fd_keep _ _ _ F m (proj1 Ha))].
  - destruct (fd_gone _ _ _ F m Ha H) as [(x & Hx & _) _]. by apply null_checked_inv in Hx as [? _].
Qed.

(** The operand of a null check's condition is still there. *)
Lemma folded_operand dest g m s :
  folded dest g0 g -> alive g m -> m < vlen (nodes_ g0) -> s < numInputs g0 m ->
  nd_kind (node g0 m) = NodeKind.Guard /\ s = 1 \/
  (nd_kind (node g0 m) = NodeKind.Not \/ nd_kind (node g0 m) = NodeKind.IsNull) /\ s = 0 ->
  let x := input g0 m s in
  input g m s = x /\ alive g x /\ alive g0 x /\ node g x = node g0 x.
Proof using Hl0 Hk0.
  intros F Ha Hm Hs Hc x. destruct (fd_live _ _ _ F m Hm Ha) as [Ha0 _].
  assert (has_slot g0 m s) as Hslot by (by apply has_slot_iff).
  assert (alive g0 x) as Hax by (split; [by apply (law_closed _ Hl0)|by apply (law_alive _ Hl0)]).
  destruct (folded_keeps dest g x F Hax) as (H1 & H2 & H3); [by apply (gk_data _ Hk0)|].
  rewrite (fd_input _ _ _ F m s Hm Ha Hs). by split_and!.
Qed.

Lemma null_checked_kept dest g n x :
  folded dest g0 g -> n < vlen (nodes_ g0) -> alive g n ->
  (null_checked g0 n = Some x /\ isNeverNullNode g0 x = true <->
   null_checked g n = Some x /\ isNeverNullNode g x = true).
Proof using Hl0 Hk0.
  intros F Hn Ha. destruct (fd_live _ _ _ F n Hn Ha) as [Ha0 Hnode].
  assert (forall h, h = g0 \/ h = g -> null_checked h n = Some x ->
    exists c i, input g0 n 1 = c /\ input g n 1 = c /\ input g0 c 0 = i /\ input g c 0 = i /\
      input g0 i 0 = x /\ input g i 0 = x /\ alive g n /\ alive g c /\ alive g i /\
      node g c = node g0 c /\ node g i = node g0 i /\ node g x = node g0 x /\ 
      nd_kind (node g0 n) = NodeKind.Guard /\ nd_kind (node g0 c) = NodeKind.Not /\ nd_kind (node g0 i) = NodeKind.IsNull /\
      3 <= numInputs g0 n /\ 1 <= numInputs g0 c /\ 1 <= numInputs g0 i /\
      nd_payload (node g0 n) mod 256 = GuardKind.code GuardKind.NullCheck) as Hchain.
  { intros h Hh Hx. apply null_checked_inv in Hx as (H1 & _ & H3 & H4 & H5 & _ & H7 & H8 & _ & H10 & H11).
    set (c := input h n 1) in *. set (i := input h c 0) in *.
    assert (nd_kind (node g0 n) = NodeKind.Guard /\ 3 <= numInputs g0 n /\
      nd_payload (node g0 n) mod 256 = GuardKind.code GuardKind.NullCheck) as (K1 & K2 & K3).
    { unfold numInputs in *. destruct Hh as [-> | ->]; [|rewrite Hnode in *]; done. }
    destruct (folded_operand dest g n 1 F Ha Hn) as (C1 & C2 & C3 & C4); [lia|by left|].
    assert (input g0 n 1 = c) as Ec by (unfold c; destruct Hh as [-> | ->]; [done|by rewrite C1]).
    rewrite Ec in *.
    assert (nd_kind (node g0 c) = NodeKind.Not /\ 1 <= numInputs g0 c) as [K4 K5].
    { unfold numInputs in *. destruct Hh as [-> | ->]; [|rewrite C4 in *]; done. }
    destruct (folded_operand dest g c 0 F C2 (proj1 C3)) as (I1 & I2 & I3 & I4); [lia|right; auto|].
    assert (input g0 c 0 = i) as Ei by (unfold i; destruct Hh as [-> | ->]; [done|by rewrite I1]).
    rewrite Ei in *.
    assert (nd_kind (node g0 i) = NodeKind.IsNull /\ 1 <= numInputs g0 i) as [K6 K7].
    { unfold numInputs in *. destruct Hh as [-> | ->]; [|rewrite I4 in *]; done. }
    destruct (folded_operand dest g i 0 F I2 (proj1 I3)) as (X1 & X2 & X3 & X4); [lia|right; auto|].
    assert (input g0 i 0 = x) as Ex by (rewrite H11; destruct Hh as [-> | ->]; [done|by rewrite X1]).
    rewrite Ex in *. exists c, i. by split_and!. }
  assert (forall x, node g x = node g0 x -> isNeverNullNode g x = isNeverNullNode g0 x) as Hnn.
  { intros y Hy. unfold isNeverNullNode. by rewrite Hy. }
  split; intros [Hx Hv].
  - destruct (Hchain g0 (or_introl eq_refl) Hx)
      as (c & i & C0 & C1 & I0 & I1 & X0 & X1 & Han & Hac & Hai & Nc & Ni & Nx & Kn & Kc & Ki & Ln & Lc & Li & Hp).
    rewrite Hnn by done. split; [|done]. rewrite <- X1, <- I1, <- C1.
    unfold numInputs in *. apply null_checked_intro; cbv zeta; unfold numInputs; rewrite ?C1, ?I1, ?Hnode, ?Nc, ?Ni; try done;
      rewrite <- ?Hnode, <- ?Nc, <- ?Ni; (apply Han || apply Hac || apply Hai).
  - destruct (Hchain g (or_intror eq_refl) Hx)
      as (c & i & C0 & C1 & I0 & I1 & X0 & X1 & Han & Hac & Hai & Nc & Ni & Nx & Kn & Kc & Ki & Ln & Lc & Li & Hp).
    rewrite Hnn in Hv by done. split; [|done]. rewrite <- X0, <- I0, <- C0.
    unfold numInputs in *. apply null_checked_intro; cbv zeta; unfold numInputs; rewrite ?C0, ?I0; try done;
      rewrite <- ?Hnode, <- ?Nc, <- ?Ni; (apply Han || apply Hac || apply Hai).
Qed.
End folding.

(** ** The run *)

(** The state before node [n] is visited. *)
Record folding_at (g0 : Graph) (W : N) (n : NodeId) (st : pass_state) : Prop := {
  fa_ok : run_ok is_guard W st;
  fa_ctrl : forall m, alive (ps_g st) m -> nd_kind (node (ps_g st) m) = NodeKind.Guard ->
    has_slot (ps_g st) m 0 -> leaf (ps_g st) (input (ps_g st) m 0);
  fa_folded : exists dest, folded dest g0 (ps_g st);
  fa_done : forall m, m < n -> m < vlen (nodes_ g0) -> alive (ps_g st) m -> foldable g0 m ->
    input (ps_g st) m 0 = m
}.

Lemma folded_step dest g0 g g' o :
  law g0 -> guards_ok g0 -> folded dest g0 g -> o < vlen (nodes_ g0) -> alive g o ->
  foldable g0 o -> 3 <= numInputs g0 o -> can_replace g o (input g o 0) ->
  replaced o (input g o 0) g g' ->
  folded (fun m => if dest m =? o then input g o 0 else dest m) g0 g'.
Proof.
  intros Hl0 Hk0 F Ho Hao Hfo Hnum Hcan R. pose proof F as [F1 F2 F3 F4 F5 F6].
  pose proof (rp_count _ _ _ _ R) as Hc.
  assert (forall m, m < vlen (nodes_ g) -> alive g' m -> m <> o /\ alive g m /\ node g' m = node g m) as Hback.
  { intros m Hm [Hm' Hd]. assert (m <> o) as Hne by (intros ->; rewrite (rp_dead _ _ _ _ R) in Hd; done).
    rewrite (rp_nodes _ _ _ _ R m Hm Hne) in Hd. split_and!; [done|by split|by apply (rp_nodes _ _ _ _ R)]. }
  split.
  - lia.
  - intros m Hm Ha. destruct (Hback m ltac:(lia) Ha) as (Hne & Ham & ->). by apply F2.
  - intros m s Hm Ha Hs. destruct (Hback m ltac:(lia) Ha) as (Hne & Ham & Hnm).
    destruct (F2 m Hm Ham) as [_ Hn0].
    assert (has_slot g m s) as Hslot by (apply has_slot_iff; unfold numInputs in *; by rewrite Hn0).
    rewrite (rp_inputs _ _ _ _ R m s Hslot Hne), (F3 m s Hm Ham Hs).
    destruct (N.eqb_spec (dest (input g0 m s)) o); case_decide; done.
  - intros m Hm Ha. destruct (Hback m ltac:(lia) Ha) as (Hne & Ham & _).
    rewrite (F4 m Hm Ham). by rewrite (proj2 (N.eqb_neq _ _)).
  - intros m Ha Hna. destruct (decide (m = o)) as [->|Hne].
    + split; [done|]. rewrite (F4 o Ho Hao), N.eqb_refl.
      rewrite <- (F3 o 0 Ho Hao) by lia. destruct Hcan as (_ & _ & Hx & _).
      by rewrite (proj2 (N.eqb_neq _ _)) by congruence.
    + destruct (F5 m Ha) as [H1 H2]; [|split; [done|by rewrite H2]].
      intros [Hm Hd]. apply Hna. split; [lia|]. by rewrite (rp_nodes _ _ _ _ R m Hm Hne).
  - intros m [Hm Hm']. destruct (N.lt_ge_cases m (vlen (nodes_ g))) as [Hlt|Hge].
    + rewrite (rp_kind _ _ _ _ R m Hlt). apply F6. lia.
    + by apply (rp_new _ _ _ _ R).
Qed.

Lemma guard_ok_replaced W n v st st' :
  run_ok is_guard W st -> world_ok (ps_world st') -> replaced n v (ps_g st) (ps_g st') ->
  edges_cost (numInputs (ps_g st) n) <= edges_cost W ->
  b_limit (ps_b st') = b_limit (ps_b st) -> b_used (ps_b st) < b_limit (ps_b st) ->
  b_used (ps_b st') = b_used (ps_b st) + 1 -> run_ok is_guard W st'.
Proof.
  intros [Hw Hwd HW Hlim Hroom] Hw' R Hc Hl Hlt Hu.
  pose proof (rp_count _ _ _ _ R) as Hcount. split; [done| |done|by rewrite Hl|].
  - intros m Hm Hs. destruct (N.lt_ge_cases m (vlen (nodes_ (ps_g st)))) as [Hold|Hnew].
    + assert (m <> n) as Hne by (intros ->; destruct Hm as [_ Hd]; rewrite (rp_dead _ _ _ _ R) in Hd; done).
      pose proof (rp_nodes _ _ _ _ R m Hold Hne) as Hnode. unfold numInputs. rewrite Hnode in *.
      apply Hwd; [|done]. destruct Hm as [_ Hd]. rewrite Hnode in Hd. by split.
    + destruct (rp_new _ _ _ _ R m ltac:(split; [done|apply Hm])) as (_ & Hk & _).
      unfold is_guard in Hs. apply kind_eqb_spec in Hs. by rewrite Hs in Hk.
  - rewrite Hl, Hu. eapply room_step; [done..|]. split_and!.
    + lia.
    + pose proof (rp_pool _ _ _ _ R). lia.
    + destruct (rp_fs _ _ _ _ R) as (ds & H1 & H2). exists ds. split; [done|lia].
Qed.

Lemma guard_replaceable W n st :
  run_ok is_guard W st -> b_used (ps_b st) < b_limit (ps_b st) -> alive (ps_g st) n ->
  nd_kind (node (ps_g st) n) = NodeKind.Guard -> leaf (ps_g st) (input (ps_g st) n 0) ->
  replaceable n (input (ps_g st) n 0) st /\ edges_cost (numInputs (ps_g st) n) <= edges_cost W.
Proof.
  intros Hok Hlt Ha Hk Hleaf. assert (is_guard (nd_kind (node (ps_g st) n)) = true) as Hsel by (by apply kind_eqb_spec).
  pose proof (do_width _ _ _ Hok n Ha Hsel) as Hw. pose proof (do_W _ _ _ Hok) as HW.
  pose proof (do_world _ _ _ Hok) as Hworld. pose proof (edges_cost_mono _ _ Hw) as Hcost.
  split; [|exact Hcost]. split.
  - exact Hworld.
  - lia.
  - by eapply (room_one _ W).
  - by rewrite Hk.
  - intros ->. pose proof (proj2 (law_start _ (proj1 Hworld))) as Hs. fold (ps_g st) in Hs. congruence.
  - intros Hcan. apply (acc_merge (ps_g st)); [apply Hworld|exact Hcan|apply Hworld|].
    rewrite (leaf_calls _ _ Hleaf). unfold type_calls. by rewrite Hk.
Qed.

(** Taking one guard out. *)
Lemma fold_guard g0 W n st :
  law g0 -> guards_ok g0 -> folding_at g0 W n st -> b_exceeded (ps_b st) = false ->
  n < vlen (nodes_ g0) -> alive (ps_g st) n -> foldable g0 n ->
  exists st', replace n (input (ps_g st) n 0) st = Some st' /\
    (b_exceeded (ps_b st') = false -> folding_at g0 W (n + 1) st') /\ paid st st' /\
    (b_exceeded (ps_b st') = true -> ps_world st' = ps_world st).
Proof.
  intros Hl0 Hk0 [Hok Hctrl [dest F] Hdone] Hex Hn Ha Hfo.
  set (o := n) in *. set (v := input (ps_g st) o 0).
  assert (nd_kind (node g0 o) = NodeKind.Guard /\ 3 <= numInputs g0 o) as [Hkind0 Hnum0].
  { destruct Hfo as (x & Hx & _). apply null_checked_inv in Hx. tauto. }
  destruct (fd_live _ _ _ F o Hn Ha) as [Ha0 Hnode].
  assert (nd_kind (node (ps_g st) o) = NodeKind.Guard) as Hkind by congruence.
  assert (has_slot (ps_g st) o 0) as Hslot.
  { apply has_slot_iff. unfold numInputs in *. rewrite Hnode. lia. }
  pose proof (proj1 (do_world _ _ _ Hok)) as Hl. fold (ps_g st) in Hl.
  pose proof (do_limit _ _ _ Hok) as Hmax.
  destruct (charge_spec (ps_b st)) as [Hch|(Hch & _ & Hlt)].
  { rewrite (replace_no_budget o v st Hch). eexists. split; [reflexivity|]. cbn [ps_b ps_world b_exceeded].
    split; [done|]. split; [|done]. split_and!; [done|apply N.le_refl|by left]. }
  destruct (guard_replaceable W o st Hok Hlt Ha Hkind (Hctrl o Ha Hkind Hslot)) as [Hrb Hcost].
  destruct (replace_cases o v st Hrb) as (st' & Hs & Hw' & Hcase & Hlim & Hbud).
  exists st'. split; [exact Hs|].
  assert (b_exceeded (ps_b st') = false) as Hex'.
  { revert Hs. unfold replace. rewrite Hch. cbn [negb].
    destruct (replaceNode _ _ _) as [e g1]. destruct (negb _); [destruct (junkEdges _ _)|];
      try discriminate; intros [= <-]; reflexivity. }
  destruct (Hbud Hex') as (_ & _ & Hu). rewrite u32_small in Hu by (unfold fits32; lia).
  split; [|split; [|congruence]].
  2:{ split; [done|]. split; [lia|]. right. by split. }
  intros _. destruct Hcase as [(Hworld & _ & [Hbad|Hno])|(Hcan & R & _)]; [congruence| |].
  - assert (ps_g st' = ps_g st) as Hg by (unfold ps_g; by rewrite Hworld).
    split.
    + destruct st' as [w t b]. cbn [ps_world ps_b] in *. subst w. by apply run_ok_budget; [|lia..].
    + by rewrite Hg.
    + exists dest. by rewrite Hg.
    + rewrite Hg. intros m Hm Hm0 Ham Hfm. destruct (decide (m = o)) as [->|Hne]; [|apply Hdone; [lia|done..]].
      destruct (decide (v = o)) as [|Hvo]; [done|]. exfalso. apply Hno. split_and!; [apply Ha| |done|].
      * by apply (law_closed _ Hl).
      * by apply (law_alive _ Hl).
  - assert (forall m, m < vlen (nodes_ (ps_g st)) -> alive (ps_g st') m ->
      m <> o /\ alive (ps_g st) m /\ node (ps_g st') m = node (ps_g st) m) as Hback.
    { intros m Hm [Hm' Hd]. assert (m <> o) as Hne by (intros ->; rewrite (rp_dead _ _ _ _ R) in Hd; done).
      rewrite (rp_nodes _ _ _ _ R m Hm Hne) in Hd. split_and!; [done|by split|by apply (rp_nodes _ _ _ _ R)]. }
    pose proof (fd_count _ _ _ F) as Hcnt.
    split.
    + by eapply guard_ok_replaced.
    + intros m Ham Hkm Hsm. destruct (N.lt_ge_cases m (vlen (nodes_ (ps_g st)))) as [Hlt'|Hge].
      * destruct (Hback m Hlt' Ham) as (Hne & Ham1 & Hnm). rewrite Hnm in Hkm.
        assert (has_slot (ps_g st) m 0) as Hsm1.
        { apply has_slot_iff. apply has_slot_iff in Hsm. unfold numInputs in *. by rewrite Hnm in Hsm. }
        assert (forall x, x < vlen (nodes_ (ps_g st)) -> leaf (ps_g st) x -> leaf (ps_g st') x) as Hlf.
        { intros x Hx [? ?]. unfold leaf. by rewrite (rp_kind _ _ _ _ R x Hx). }
        rewrite (rp_inputs _ _ _ _ R m 0 Hsm1 Hne). case_decide.
        -- apply Hlf; [apply Hcan|by apply Hctrl].
        -- apply Hlf; [by apply (law_closed _ Hl)|by apply Hctrl].
      * destruct (rp_new _ _ _ _ R m ltac:(split; [done|apply Ham])) as (_ & Hsk & _). by rewrite Hkm in Hsk.
    + eexists. by apply (folded_step dest g0 (ps_g st)).
    + intros m Hm Hm0 Ham Hfm. destruct (Hback m ltac:(lia) Ham) as (Hne & Ham1 & Hnm).
      assert (input (ps_g st) m 0 = m) as Hself by (apply Hdone; [lia|done..]).
      rewrite (rp_inputs _ _ _ _ R m 0); [|apply has_slot_iff|done]; [rewrite Hself; by rewrite decide_False|].
      destruct Hfm as (x & Hx & _). apply null_checked_inv in Hx as (_ & _ & H3 & _).
      destruct (fd_live _ _ _ F m Hm0 Ham1) as [_ Hn0]. unfold numInputs in *. rewrite Hn0. lia.
Qed.

Definition loop_inv (g0 : Graph) (W : N) (n : NodeId) (st : pass_state) : Prop :=
  folding_at g0 W (if b_exceeded (ps_b st) then 0 else n) st.

Lemma folding_at_budget g0 W n n' st t b :
  folding_at g0 W n st -> n' <= n -> b_limit b = b_limit (ps_b st) -> b_used (ps_b st) <= b_used b ->
  folding_at g0 W n' (mkPass (ps_world st) t b).
Proof.
  intros [H1 H2 H3 H4] Hn Hl Hu. split; [by apply run_ok_budget|done|done|].
  intros m Hm. apply H4. lia.
Qed.

Lemma null_visit_spec g0 W n st :
  law g0 -> guards_ok g0 -> loop_inv g0 W n st -> n < vlen (nodes_ (ps_g st)) -> b_exceeded (ps_b st) = false ->
  exists st', null_visit n st = Some st' /\ loop_inv g0 W (n + 1) st' /\ paid st st'.
Proof.
  intros Hl0 Hk0 HI Hn Hex. unfold loop_inv in *. rewrite Hex in HI.
  assert (paid st st) as Hsame by (split_and!; [done|apply N.le_refl|by left]).
  destruct (fa_folded _ _ _ _ HI) as [dest F].
  assert ((alive (ps_g st) n -> foldable g0 n -> n < vlen (nodes_ g0) -> input (ps_g st) n 0 = n) ->
    folding_at g0 W (n + 1) st) as Hskip.
  { intros Hs. destruct HI as [H1 H2 H3 H4]. split; [done..|]. intros m Hm Hm0 Ha Hfo.
    destruct (decide (m = n)) as [->|Hne]; [by apply Hs|apply H4; [lia|done..]]. }
  unfold null_visit. destruct (null_checked (ps_g st) n) as [x|] eqn:Hx.
  2:{ exists st. split; [done|]. rewrite Hex. split; [|done]. apply Hskip. intros Ha (y & Hy & Hv) Hn0.
      destruct (proj1 (null_checked_kept g0 Hl0 Hk0 dest (ps_g st) n y F Hn0 Ha) (conj Hy Hv)) as [? _]. congruence. }
  destruct (isNeverNullNode (ps_g st) x) eqn:Hv.
  2:{ exists st. split; [done|]. rewrite Hex. split; [|done]. apply Hskip. intros Ha (y & Hy & Hyv) Hn0.
      destruct (proj1 (null_checked_kept g0 Hl0 Hk0 dest (ps_g st) n y F Hn0 Ha) (conj Hy Hyv)) as [? ?]. congruence. }
  pose proof (null_checked_inv _ _ _ Hx) as (Hk & Hd & _).
  assert (alive (ps_g st) n) as Ha by by split.
  assert (n < vlen (nodes_ g0)) as Hn0.
  { destruct (N.lt_ge_cases n (vlen (nodes_ g0))) as [|Hge]; [done|].
    pose proof (fd_new _ _ _ F n ltac:(done)) as Hs. by rewrite Hk in Hs. }
  assert (foldable g0 n) as Hfo.
  { exists x. by apply (null_checked_kept g0 Hl0 Hk0 dest (ps_g st) n x F Hn0 Ha). }
  destruct (fold_guard g0 W n st Hl0 Hk0 HI Hex Hn0 Ha Hfo) as (st' & Hr & H1 & H2 & H3).
  exists st'. split; [exact Hr|]. split; [|exact H2]. destruct (b_exceeded (ps_b st')) eqn:Hex'.
  - destruct st' as [w t b]. specialize (H3 eq_refl). cbn [ps_world] in H3. subst w. destruct H2 as (P1 & P2 & _).
    by apply (folding_at_budget g0 W n 0 st); [|lia|..].
  - by apply H1.
Qed.

(** C22: Null-check folding takes null checks out of the control flow, and only those
    whose value is never null. In a graph where guards follow no Phi or BitCast and
    are no data of what a null check looks at ([guards_ok]), with room for the sinks
    of every removal the budget allows ([run_ok]), the pass returns and keeps the
    tombstone law; a node that is gone was such a check and everything that referred
    to it refers to where its control came from; the other nodes are as they were.
    Unless the budget ran out, no such check is left, but for one that is its own
    control input. *)
Theorem runNullCheckFolding_spec W st :
  run_ok is_guard W st -> guards_ok (ps_g st) ->
  exists fuel0 st' dest, (forall fuel, (fuel0 <= fuel)%nat -> runNullCheckFolding fuel st = Some st') /\
    world_ok (ps_world st') /\ folded dest (ps_g st) (ps_g st') /\
    (b_exceeded (ps_b st') = false -> forall n, n < vlen (nodes_ (ps_g st)) ->
       alive (ps_g st') n -> foldable (ps_g st') n -> input (ps_g st') n 0 = n).
Proof.
  intros Hok Hk0. pose proof (proj1 (do_world _ _ _ Hok)) as Hl0. fold (ps_g st) in Hl0.
  assert (loop_inv (ps_g st) W 0 st) as HI.
  { unfold loop_inv. assert ((if b_exceeded (ps_b st) then 0 else 0) = 0) as -> by (by destruct (b_exceeded _)).
    split; [exact Hok|apply (gk_ctrl _ Hk0)|exists id; apply folded_id|lia]. }
  destruct (each_node_total (loop_inv (ps_g st) W) null_visit) with (n := 0) (st := st)
    as (fuel & n' & st' & Hr & HI' & Hend); [| |exact HI|].
  { intros n s Hs. apply (do_world _ _ _ (fa_ok _ _ _ _ Hs)). }
  { intros n s Hs Hn Hex. by apply null_visit_spec. }
  destruct (fa_folded _ _ _ _ HI') as [dest F]. exists fuel, st', dest. split_and!.
  - intros fuel' Hle. exact (each_node_mono _ _ _ _ _ _ _ Hle Hr).
  - apply (do_world _ _ _ (fa_ok _ _ _ _ HI')).
  - exact F.
  - intros Hex n Hn Ha (x & Hx & Hv). unfold loop_inv in HI'. rewrite Hex in HI'.
    pose proof (fd_count _ _ _ F). specialize (Hend Hex). apply (fa_done _ _ _ _ HI'); [lia|done|done|].
    exists x. by apply (null_checked_kept (ps_g st) Hl0 Hk0 dest (ps_g st') n x F Hn Ha).
Qed.

Lemma runNullCheckFolding_mono fuel fuel' st r : (fuel <= fuel')%nat ->
  runNullCheckFolding fuel st = Some r -> runNullCheckFolding fuel' st = Some r.
Proof. apply each_node_mono. Qed.

(** ** An example *)

(** [new C()] checked for null, then the same check of a parameter. *)
Definition null_example : Graph := build
  [ OMake NodeKind.New [0] 7 0 0;
    OMake NodeKind.IsNull [1] 0 0 0;
    OMake NodeKind.Not [2] 0 0 0;
    OMake NodeKind.FrameState [] 0 0 0;
    OMake NodeKind.Guard [1; 3; 4] 1 0 0;
    OMake NodeKind.Parameter_ [] 0 (IRType.code IRType.Ref) 0;
    OMake NodeKind.IsNull [6] 0 0 0;
    OMake NodeKind.Not [7] 0 0 0;
    OMake NodeKind.Guard [5; 8; 4] 1 0 0;
    OMake NodeKind.Return [9] 0 0 0 ].

Definition null_state : pass_state :=
  mkPass (null_example, newJunk) noTelemetry (mkBudget 10 0 false).

Definition guards_check (g : Graph) : bool :=
  every g (fun n => forallb (fun s =>
    let x := input g n s in let k := nd_kind (node g n) in
    (negb (is_guard k && (s =? 0)) ||
       negb (kind_eqb (nd_kind (node g x)) NodeKind.Phi) && negb (kind_eqb (nd_kind (node g x)) NodeKind.BitCast)) &&
    (negb (is_guard k && (s =? 1) ||
           (kind_eqb k NodeKind.Not || kind_eqb k NodeKind.IsNull) && (s =? 0)) ||
     negb (is_guard (nd_kind (node g x))))) (indices (numInputs g n))).

Lemma guards_check_sound g : guards_check g = true -> guards_ok g.
Proof.
  intros H. pose proof (every_spec g _ H) as Hn.
  assert (forall n s, alive g n -> has_slot g n s -> let x := input g n s in let k := nd_kind (node g n) in
    (negb (is_guard k && (s =? 0)) ||
       negb (kind_eqb (nd_kind (node g x)) NodeKind.Phi) && negb (kind_eqb (nd_kind (node g x)) NodeKind.BitCast)) &&
    (negb (is_guard k && (s =? 1) ||
           (kind_eqb k NodeKind.Not || kind_eqb k NodeKind.IsNull) && (s =? 0)) ||
     negb (is_guard (nd_kind (node g x)))) = true) as Hc.
  { intros n s [Hlt _] Hs%has_slot_iff. specialize (Hn n Hlt). rewrite forallb_forall in Hn.
    apply Hn. by apply list_elem_of_In, elem_of_indices. }
  assert (forall k k', kind_eqb k k' = false <-> k <> k') as Hne.
  { intros k k'. rewrite <- not_true_iff_false, kind_eqb_spec. done. }
  split.
  - intros n Ha Hk Hs. specialize (Hc n 0 Ha Hs). cbv zeta in Hc. rewrite Hk in Hc.
    apply andb_true_iff in Hc as [Hc _]. cbn in Hc. rewrite andb_true_iff, !negb_true_iff, !Hne in Hc. exact Hc.
  - intros n s Ha Hs Hcase. specialize (Hc n s Ha Hs). cbv zeta in Hc. apply andb_true_iff in Hc as [_ Hc].
    unfold is_guard in Hc. apply Hne. destruct Hcase as [[Hk ->]|[[Hk|Hk] ->]]; rewrite Hk in Hc; cbn in Hc;
      by apply negb_true_iff in Hc.
Qed.

Lemma null_ready : run_ok is_guard 3 null_state /\ guards_ok null_example.
Proof.
  split; [|apply guards_check_sound; vm_compute; reflexivity].
  split.
  - split; [|apply junk_ok_new]. apply law_check_phi_sound; [apply build_reachable|]; vm_compute; reflexivity.
  - assert (every null_example (fun m => numInputs null_example m <=? 3) = true) as H by (vm_compute; reflexivity).
    intros m [Hm _] _. apply N.leb_le. exact (every_spec null_example _ H m Hm).
  - lia.
  - reflexivity.
  - split_and!; vm_compute; reflexivity.
Qed.

(** The first check goes, the second now follows the allocation. *)
Lemma runNullCheckFolding_spec_witness :
  exists fuel0 st' dest, (forall fuel, (fuel0 <= fuel)%nat -> runNullCheckFolding fuel null_state = Some st') /\
    world_ok (ps_world st') /\ folded dest null_example (ps_g st') /\
    isDead (node (ps_g st') 5) = true /\ input (ps_g st') 9 0 = 1 /\ isDead (node (ps_g st') 9) = false.
Proof.
  destruct (runNullCheckFolding_spec 3 null_state (proj1 null_ready) (proj2 null_ready))
    as (fuel0 & st' & dest & Hr & Hw & F & _).
  exists fuel0, st', dest. split; [exact Hr|]. split; [exact Hw|]. split; [exact F|].
  assert (exists st0, runNullCheckFolding 100 null_state = Some st0 /\
    isDead (node (ps_g st0) 5) = true /\ input (ps_g st0) 9 0 = 1 /\ isDead (node (ps_g st0) 9) = false)
    as (st0 & H0 & Hc) by (eexists; split_and!; vm_compute; reflexivity).
  assert (runNullCheckFolding (Nat.max fuel0 100) null_state = Some st0) as H1.
  { apply (runNullCheckFolding_mono 100); [lia|exact H0]. }
  rewrite Hr in H1 by lia. injection H1 as <-. exact Hc.
Defined.
