(* ===== verification/Passes.v ===== *)
(** * The pass registry and the cleanup pipeline

    compiler/passes/src/Passes.cpp: the registry, the kill switches, the dispatcher that
    runs one pass and the pipeline that runs the group in rounds with the verifier in
    between. The escape analysis it calls (Escape.cpp) is a parameter, and what is said
    of the driver holds for any. [None] is a pass or the verifier out of fuel. *)

From stdpp Require Import pretty.
From Stdlib Require Import String.
From S2P Require Import Prelude IRTypes Effect NodeInfo SmallVector Graph GraphInv.
From S2P Require Import GraphReplace ResultType Verifier PassSupport DCE GVN.
From S2P Require Import Machine ConstFold Simplify SCCP ControlFlow.

Local Open Scope N_scope.

Module PassKey.
Inductive PassKey :=
| DeadCodeElimination | TrivialBlockFusion | Canonicalization | ConstantFolding
| StrengthReduction | IdentityRemoval | RedundantCastRemoval | NullCheckFolding
| BranchNormalization | ControlFlowSimplification | GVN
| SparseConditionalConstantPropagation | EscapeAnalysis | PartialEscapeAnalysis
| ScalarReplacement | MaterializationPlanning
| Raw (c : N).

Definition code (k : PassKey) : N :=
  match k with
  | DeadCodeElimination => 11 | TrivialBlockFusion => 12 | Canonicalization => 13
  | ConstantFolding => 14 | StrengthReduction => 15 | IdentityRemoval => 16
  | RedundantCastRemoval => 17 | NullCheckFolding => 18 | BranchNormalization => 19
  | ControlFlowSimplification => 20 | GVN => 35 | SparseConditionalConstantPropagation => 38
  | EscapeAnalysis => 65 | PartialEscapeAnalysis => 66 | ScalarReplacement => 67
  | MaterializationPlanning => 69 | Raw c => c
  end.
End PassKey.
Abbreviation PassKey := PassKey.PassKey.

(** [==] on keys *)
Definition key_eqb (a b : PassKey) : bool := PassKey.code a =? PassKey.code b.

Definition kMaxEarlyCleanupRounds : N := 3.
Definition kDefaultPassRewriteBudget : N := 200000.

Record PassInfo := mkPassInfo {
  pi_key : PassKey; pi_name : string; pi_contract : string;
  pi_growsGraph : bool; pi_rewriteBudget : N
}.

Definition kRegistry : list PassInfo :=
  [
   mkPassInfo PassKey.DeadCodeElimination "dce"
      ("requires: verifier-clean graph; produces: no live pure value with zero live " +:+
       "users (conservative exclusion set documented); shrinks")
      false kDefaultPassRewriteBudget;
   mkPassInfo PassKey.TrivialBlockFusion "fusion"
      ("requires: verifier-clean graph; produces: no Region/LoopBegin with a dead or " +:+
       "single predecessor, no trivial phi; repairs control edges")
      true kDefaultPassRewriteBudget;
   mkPassInfo PassKey.Canonicalization "canon"
      ("requires: verifier-clean graph; produces: constants right on commutative integer " +:+
       "ops, Not(test) folded to the complement test; FP commutativity untouched " +:+
       "(exact-bits policy)")
      true kDefaultPassRewriteBudget;
   mkPassInfo PassKey.ConstantFolding "constfold"
      ("requires: verifier-clean graph; produces: constant expressions replaced by " +:+
       "exact-bit constants (Java semantics: wrap, shifts, IEEE, JLS 5.1.3 conversions); " +:+
       "FP folds only when NaN-free")
      true kDefaultPassRewriteBudget;
   mkPassInfo PassKey.StrengthReduction "strength"
      ("requires: verifier-clean graph; produces: Mul-by-power-of-two (>=2) as Shl, " +:+
       "identical wrap semantics; negatives/FP untouched")
      true kDefaultPassRewriteBudget;
   mkPassInfo PassKey.IdentityRemoval "identity"
      ("requires: verifier-clean graph; produces: " +:+
       "x+0/x*1/x&-1/x<<0/x-x/self-compares/double-negation/round-trip conversions " +:+
       "removed; FP additive identities NOT removed (exact-bits policy)")
      true kDefaultPassRewriteBudget;
   mkPassInfo PassKey.NullCheckFolding "nullfold"
      ("requires: verifier-clean graph; produces: NullCheck guards on provably non-null " +:+
       "values pass through (control rewired); guards on maybe-null values kept")
      false kDefaultPassRewriteBudget;
   mkPassInfo PassKey.BranchNormalization "branchnorm"
      ("requires: verifier-clean graph; produces: constant-condition Ifs replaced by the " +:+
       "taken edge, constant guards pass through or become Deopt (same DeoptId, same " +:+
       "FrameState); unreachable aftermath repaired; switches NOT folded (v1: case " +:+
       "labels are frontend-side)")
      true kDefaultPassRewriteBudget;
   mkPassInfo PassKey.ControlFlowSimplification "cfs"
      ("requires: verifier-clean graph; produces: no live control consumer unreachable " +:+
       "from Start; regions/phis repaired after kills")
      true kDefaultPassRewriteBudget;
   mkPassInfo PassKey.GVN "gvn"
      ("requires: verifier-clean graph; produces: no two live nodes with identical " +:+
       "(kind, payload, payload2, constValue, inputs) in the eligible set; replacement " +:+
       "by the lowest id; FrameStates auto-update (Rule 14)")
      false kDefaultPassRewriteBudget;
   mkPassInfo PassKey.SparseConditionalConstantPropagation "sccp"
      ("requires: verifier-clean graph; produces: every live floating value provably " +:+
       "constant on all executable paths replaced by an interned constant (optimistic " +:+
       "Top/Const/Bot lattice, phi meets over executable edges only, unresolved-but-used " +:+
       "values forced overdefined); control stays branchnorm's business in the same " +:+
       "round; one engine for charter rows 37-39")
      true kDefaultPassRewriteBudget;
   mkPassInfo PassKey.EscapeAnalysis "escape"
      ("requires: verifier-clean post-inline graph (guards folded); produces: every " +:+
       "allocation classified on the height-6 escape lattice with an explainable " +:+
       "decision; analysis-only mode rewrites nothing")
      false kDefaultPassRewriteBudget;
   mkPassInfo PassKey.PartialEscapeAnalysis "pea"
      ("requires: verifier-clean graph; produces: every partially-escaping allocation " +:+
       "materialized at its first escape use (Materialize wired into ctrl AND mem; " +:+
       "pre-escape loads still forward)")
      true kDefaultPassRewriteBudget;
   mkPassInfo PassKey.ScalarReplacement "scalar"
      ("requires: verifier-clean graph; produces: no-escape allocations replaced by " +:+
       "field values (loads forwarded, virtual stores spliced out, IsNull folded, " +:+
       "allocation killed)")
      true kDefaultPassRewriteBudget;
   mkPassInfo PassKey.MaterializationPlanning "matplan"
      ("requires: verifier-clean graph; produces: materialized objects carry complete " +:+
       "vobj snapshots (typed defaults for unread fields, inner-first nested references)")
      true kDefaultPassRewriteBudget].

Definition BadRow : PassInfo := mkPassInfo (PassKey.Raw 0xFFFF) "bad" "not delivered" false 0.

Definition passInfo (key : PassKey) : PassInfo :=
  match List.find (fun row => key_eqb (pi_key row) key) kRegistry with
  | Some row => row
  | None => BadRow
  end.

Definition passRegistry : list PassInfo := kRegistry.

(** [None] is [kInvalidPassIndex]. *)
Fixpoint index_of (key : PassKey) (i : N) (rows : list PassInfo) : option N :=
  match rows with
  | [] => None
  | row :: rows => if key_eqb (pi_key row) key then Some i else index_of key (i + 1) rows
  end.

Definition passRegistryIndex (key : PassKey) : option N := index_of key 0 kRegistry.

(** ** Kill switches *)

Record PassConfig := mkConfig {
  pc_enabledBits : N; pc_verifyAfterEachPass : bool; pc_maxCleanupRounds : N
}.

Definition defaultConfig : PassConfig := mkConfig 0xFFFFFFFF true kMaxEarlyCleanupRounds.

Definition isPassEnabled (cfg : PassConfig) (key : PassKey) : bool :=
  match passRegistryIndex key with
  | None => false
  | Some idx => negb (N.land (pc_enabledBits cfg) (N.shiftl 1 idx) =? 0)
  end.

Definition with_bits (bits : N) (cfg : PassConfig) : PassConfig :=
  mkConfig bits (pc_verifyAfterEachPass cfg) (pc_maxCleanupRounds cfg).

Definition setPassEnabled (cfg : PassConfig) (key : PassKey) (on : bool) : PassConfig :=
  match passRegistryIndex key with
  | None => cfg
  | Some idx =>
      if 32 <=? idx then cfg
      else
        let bit := N.shiftl 1 idx in
        with_bits (if on then N.lor (pc_enabledBits cfg) bit
                   else N.land (pc_enabledBits cfg) (N.lxor 0xFFFFFFFF bit)) cfg
  end.

Definition disableAll (cfg : PassConfig) : PassConfig := mkConfig 0 (pc_verifyAfterEachPass cfg) 0.

(** ** Results *)

Record PassDiag := mkPassDiag { pd_pass : PassKey; pd_message : string }.

Record PassResult := mkResult {
  pr_ok : bool; pr_diags : list PassDiag; pr_telemetry : PassTelemetry
}.

Definition newResult : PassResult := mkResult true [] noTelemetry.

Definition kDiagCap : N := 32.

Definition addDiag (pass : PassKey) (message : string) (r : PassResult) : PassResult :=
  if kDiagCap <=? vlen (pr_diags r) then r
  else mkResult (pr_ok r) (pr_diags r ++ [mkPassDiag pass message]) (pr_telemetry r).

Definition with_telemetry (t : PassTelemetry) (r : PassResult) : PassResult :=
  mkResult (pr_ok r) (pr_diags r) t.

Definition failed (r : PassResult) : PassResult := mkResult false (pr_diags r) (pr_telemetry r).

(** [budgetOverruns += 1; converged = false;] *)
Definition count_overrun (t : PassTelemetry) : PassTelemetry :=
  mkTelemetry (t_rewrites t) (t_removals t) (t_folds t) (t_gvnDedups t)
    (t_sccpConstants t) (t_rounds t) (u32 (t_budgetOverruns t + 1)) (t_peaScalarized t)
    (t_peaMaterialized t) (t_peaRejected t) false.

Definition with_rounds (n : N) (t : PassTelemetry) : PassTelemetry :=
  mkTelemetry (t_rewrites t) (t_removals t) (t_folds t) (t_gvnDedups t)
    (t_sccpConstants t) n (t_budgetOverruns t) (t_peaScalarized t)
    (t_peaMaterialized t) (t_peaRejected t) (t_converged t).

Definition with_converged (b : bool) (t : PassTelemetry) : PassTelemetry :=
  mkTelemetry (t_rewrites t) (t_removals t) (t_folds t) (t_gvnDedups t)
    (t_sccpConstants t) (t_rounds t) (t_budgetOverruns t) (t_peaScalarized t)
    (t_peaMaterialized t) (t_peaRejected t) b.

Definition verify_message (d : VerifyDiag) : string :=
  ("IR verify failed at n" +:+ pretty (fst d) +:+ ": " +:+ snd d)%string.

(** Whether the graph is clean, and the result with the diagnostics. *)
Definition verifyInto (fuel : nat) (r : PassResult) (g : Graph) (pass : PassKey)
    : option (bool * PassResult) :=
  match verify fuel g with
  | None => None
  | Some v =>
      if vr_ok v then Some (true, r)
      else Some (false, foldl (fun r d => addDiag pass (verify_message d) r) (failed r) (vr_diags v))
  end.

(** ** The escape analysis *)

Module EscapeState.
Inductive EscapeState :=
| NoEscape | LocalEscape | ArgEscape | FieldEscape | ReturnEscape | GlobalEscape.
End EscapeState.

Record PeaDecision := mkPeaDecision {
  pe_alloc : NodeId; pe_kind : NodeKind; pe_state : EscapeState.EscapeState;
  pe_action : string; pe_reason : string; pe_materializeAt : NodeId;
  pe_fields : N; pe_loads : N; pe_stores : N
}.

Definition kPeaAnalyze : N := 1.
Definition kPeaPartial : N := 2.
Definition kPeaScalar : N := 4.
Definition kPeaPlanning : N := 8.

Definition peaMask (cfg : PassConfig) : N :=
  let bit key b := if isPassEnabled cfg key then b else 0 in
  N.lor (N.lor (bit PassKey.EscapeAnalysis kPeaAnalyze) (bit PassKey.PartialEscapeAnalysis kPeaPartial))
        (N.lor (bit PassKey.ScalarReplacement kPeaScalar) (bit PassKey.MaterializationPlanning kPeaPlanning)).

Section driver.
Context (runPEA : N -> pass_state -> option (pass_state * list PeaDecision)).
Context (fuel : nat).

Definition pea (mask : N) (st : pass_state) : option pass_state := option_map fst (runPEA mask st).

Definition runOne (key : PassKey) (st : pass_state) : option pass_state :=
  match key with
  | PassKey.DeadCodeElimination => runDCE fuel st
  | PassKey.TrivialBlockFusion =>
      match runSimplify fuel kTrivialPhi st with
      | Some st => rebuildRegions fuel None st
      | None => None
      end
  | PassKey.Canonicalization => runSimplify fuel kCanonical st
  | PassKey.ConstantFolding => runSimplify fuel kFold st
  | PassKey.StrengthReduction => runSimplify fuel kStrength st
  | PassKey.IdentityRemoval => runSimplify fuel kIdentity st
  | PassKey.NullCheckFolding => runNullCheckFolding fuel st
  | PassKey.BranchNormalization => runBranchNormalization fuel st
  | PassKey.ControlFlowSimplification => unreachableSweep fuel st
  | PassKey.GVN => runGVN fuel st
  | PassKey.SparseConditionalConstantPropagation => runSCCP fuel fuel st
  | PassKey.EscapeAnalysis => pea kPeaAnalyze st
  | PassKey.PartialEscapeAnalysis => pea (N.lor kPeaAnalyze kPeaPartial) st
  | PassKey.ScalarReplacement => pea (N.lor kPeaAnalyze kPeaScalar) st
  | PassKey.MaterializationPlanning => pea (N.lor (N.lor kPeaAnalyze kPeaPartial) kPeaPlanning) st
  | PassKey.RedundantCastRemoval | PassKey.Raw _ => Some st
  end.

Definition exhausted (name : string) (limit : N) : string :=
  (name +:+ ": rewrite budget exhausted (" +:+ pretty limit +:+ "); stopped at a valid point")%string.

(** Runs [body] on a budget of [limit] rewrites, records an overrun and verifies.
    [false] when the verifier objects. *)
Definition step (verifyAfter : bool) (key : PassKey) (name : string) (limit : N)
    (body : pass_state -> option pass_state) (r : PassResult) (w : world)
    : option (bool * PassResult * world) :=
  match body (mkPass w (pr_telemetry r) (mkBudget limit 0 false)) with
  | None => None
  | Some st =>
      let r := with_telemetry (ps_t st) r in
      let r := if b_exceeded (ps_b st)
               then addDiag key (exhausted name limit) (with_telemetry (count_overrun (ps_t st)) r)
               else r in
      if verifyAfter then
        match verifyInto fuel r (ps_g st) key with
        | Some (ok, r) => Some (ok, r, ps_world st)
        | None => None
        end
      else Some (true, r, ps_world st)
  end.

Definition undelivered (key : PassKey) : string :=
  ("pass key " +:+ pretty (PassKey.code key) +:+ " is not in the delivered registry")%string.

Definition runSinglePass (g : Graph) (key : PassKey) (cfg : PassConfig) : option (PassResult * Graph) :=
  let info := passInfo key in
  if negb (key_eqb (pi_key info) key) then Some (addDiag key (undelivered key) (failed newResult), g)
  else if negb (isPassEnabled cfg key) then Some (newResult, g)
  else
    match step (pc_verifyAfterEachPass cfg) key (pi_name info) (pi_rewriteBudget info) (runOne key)
            newResult (g, newJunk) with
    | Some (_, r, w) => Some (r, fst w)
    | None => None
    end.

Definition pea_summary (t : PassTelemetry) : string :=
  ("pea: " +:+ pretty (t_peaScalarized t) +:+ " scalarized, " +:+ pretty (t_peaMaterialized t) +:+
   " materialized, " +:+ pretty (t_peaRejected t) +:+ " rejected")%string.

Definition runPartialEscapeAnalysis (g : Graph) (cfg : PassConfig)
    : option (PassResult * list PeaDecision * Graph) :=
  let mask := peaMask cfg in
  if mask =? 0 then Some (newResult, [], g)
  else
    match runPEA mask (mkPass (g, newJunk) noTelemetry (mkBudget kDefaultPassRewriteBudget 0 false)) with
    | None => None
    | Some (st, decisions) =>
        let key := PassKey.EscapeAnalysis in
        let r := with_telemetry (ps_t st) newResult in
        let r := if b_exceeded (ps_b st)
                 then addDiag key (exhausted "pea" kDefaultPassRewriteBudget)
                        (with_telemetry (count_overrun (ps_t st)) r)
                 else r in
        let t := pr_telemetry r in
        let r := if (0 <? t_peaRejected t) || (0 <? t_budgetOverruns t)
                 then addDiag key (pea_summary t) r else r in
        if pc_verifyAfterEachPass cfg then
          match verifyInto fuel r (ps_g st) key with
          | Some (_, r) => Some (r, decisions, ps_g st)
          | None => None
          end
        else Some (r, decisions, ps_g st)
    end.

(** ** The pipeline *)

Definition simplify_keys : list (PassKey * N) :=
  [(PassKey.ConstantFolding, kFold); (PassKey.IdentityRemoval, kIdentity);
   (PassKey.StrengthReduction, kStrength); (PassKey.Canonicalization, kCanonical);
   (PassKey.TrivialBlockFusion, kTrivialPhi)].

Definition simplifyOn (cfg : PassConfig) : bool :=
  existsb (fun k => isPassEnabled cfg (fst k)) simplify_keys.

Definition simplifyMask (cfg : PassConfig) : N :=
  foldl (fun m k => N.lor m (if isPassEnabled cfg (fst k) then snd k else 0)) 0 simplify_keys.

Definition simplifyBudget (cfg : PassConfig) : N :=
  if simplifyOn cfg then
    foldl (fun b row =>
      if existsb (fun k => key_eqb (pi_key row) (fst k)) simplify_keys && (b <? pi_rewriteBudget row)
      then pi_rewriteBudget row else b) 0 passRegistry
  else 0.

(** One of the calls [if (!step(key)) return r;], and the sequence of a round. *)
Definition call : Type := PassKey * string * N * (pass_state -> option pass_state).

Definition pass_call (key : PassKey) : call :=
  (key, pi_name (passInfo key), pi_rewriteBudget (passInfo key), runOne key).

Definition round_calls (cfg : PassConfig) : list call :=
  (if simplifyOn cfg
   then [(PassKey.ConstantFolding, "simplify sweep"%string, simplifyBudget cfg,
          runSimplify fuel (simplifyMask cfg))] else []) ++
  map pass_call [PassKey.SparseConditionalConstantPropagation; PassKey.NullCheckFolding;
    PassKey.BranchNormalization; PassKey.ControlFlowSimplification;
    PassKey.DeadCodeElimination; PassKey.GVN] ++
  (if negb (peaMask cfg =? 0)
   then [(PassKey.EscapeAnalysis, "pea"%string, kDefaultPassRewriteBudget, pea (peaMask cfg))] else []) ++
  [pass_call PassKey.DeadCodeElimination].

Fixpoint run_calls (verifyAfter : bool) (calls : list call) (r : PassResult) (w : world)
    : option (bool * PassResult * world) :=
  match calls with
  | [] => Some (true, r, w)
  | (key, name, limit, body) :: calls =>
      match step verifyAfter key name limit body r w with
      | None => None
      | Some (false, r, w) => Some (false, r, w)
      | Some (true, r, w) => run_calls verifyAfter calls r w
      end
  end.

Definition work_done (r : PassResult) : N :=
  u32 (t_rewrites (pr_telemetry r) + t_removals (pr_telemetry r)).

Definition out_of_rounds (rounds : N) : string :=
  ("cleanup fixpoint stopped at the round budget (" +:+ pretty rounds +:+ " rounds) while still changing")%string.

(** The rounds from [round] on; [allowed] of them are allowed. *)
Fixpoint cleanup_rounds (allowed : nat) (round rounds : N) (cfg : PassConfig) (r : PassResult) (w : world)
    : option (PassResult * world) :=
  match allowed with
  | O => Some (r, w)
  | S allowed =>
      let r := with_telemetry (with_rounds (round + 1) (pr_telemetry r)) r in
      let before := work_done r in
      match run_calls (pc_verifyAfterEachPass cfg) (round_calls cfg) r w with
      | None => None
      | Some (false, r, w) => Some (r, w)
      | Some (true, r, w) =>
          if work_done r =? before
          then Some (with_telemetry (with_converged true (pr_telemetry r)) r, w)
          else if round + 1 =? rounds
          then Some (addDiag PassKey.DeadCodeElimination (out_of_rounds rounds)
                       (with_telemetry (with_converged false (pr_telemetry r)) r), w)
          else cleanup_rounds allowed (round + 1) rounds cfg r w
      end
  end.

Definition runEarlyCleanup (g : Graph) (cfg : PassConfig) : option (PassResult * Graph) :=
  let rounds := if kMaxEarlyCleanupRounds <? pc_maxCleanupRounds cfg
                then kMaxEarlyCleanupRounds else pc_maxCleanupRounds cfg in
  match cleanup_rounds (N.to_nat rounds) 0 rounds cfg newResult (g, newJunk) with
  | Some (r, w) => Some (r, fst w)
  | None => None
  end.
End driver.
