(* ===== verification/PassesSpec.v ===== *)
(** * What the pass driver guarantees

    The verdict of the pipeline is the verifier's on the graph it returns, the switches
    select what they name, and the pipeline does not look at most of them. *)

From stdpp Require Import pretty.
From Stdlib Require Import String.
From S2P Require Import Prelude IRTypes Effect NodeInfo SmallVector Graph GraphInv.
From S2P Require Import GraphReplace ResultType Verifier PassSupport PassRewire DCE GVN.
From S2P Require Import Machine ConstFold Simplify SCCP ControlFlow Passes.

Local Open Scope N_scope.

(** ** Verification *)

Lemma pr_ok_addDiag key msg r : pr_ok (addDiag key msg r) = pr_ok r.
Proof. unfold addDiag. by case_match. Qed.

Lemma pr_ok_foldl_addDiag {A} key (f : A -> string) l r :
  pr_ok (foldl (fun r d => addDiag key (f d) r) r l) = pr_ok r.
Proof. revert r. induction l as [|x l IH]; intros r; [done|]. cbn. by rewrite IH, pr_ok_addDiag. Qed.

(** The result agrees with the verifier on the graph. *)
Definition verdict (fuel : nat) (r : PassResult) (g : Graph) : Prop :=
  exists v, verify fuel g = Some v /\ vr_ok v = pr_ok r.

Lemma verifyInto_verdict fuel r g key ok r' :
  pr_ok r = true -> verifyInto fuel r g key = Some (ok, r') -> pr_ok r' = ok /\ verdict fuel r' g.
Proof.
  unfold verifyInto, verdict. intros Hr. destruct (verify fuel g) as [v|]; [|done].
  destruct (vr_ok v) eqn:Hv; intros [= <- <-].
  - split; [done|]. exists v. by rewrite Hv, Hr.
  - rewrite (pr_ok_foldl_addDiag key verify_message). cbn. split; [done|]. exists v. by rewrite Hv.
Qed.

Section driver.
Context (runPEA : N -> pass_state -> option (pass_state * list PeaDecision)) (fuel : nat).

Lemma step_verdict key name limit body r w ok r' w' :
  pr_ok r = true -> step fuel true key name limit body r w = Some (ok, r', w') ->
  pr_ok r' = ok /\ verdict fuel r' (fst w').
Proof.
  unfold step. intros Hr. destruct (body _) as [st|]; [|done].
  set (r1 := if b_exceeded (ps_b st) then _ else _).
  assert (pr_ok r1 = true) as Hr1 by (subst r1; case_match; by rewrite ?pr_ok_addDiag).
  clearbody r1. destruct (verifyInto fuel r1 (ps_g st) key) as [[ok1 r2]|] eqn:E; [|done].
  intros [= <- <- <-]. by eapply verifyInto_verdict.
Qed.

Lemma run_calls_verdict calls r w ok r' w' :
  pr_ok r = true -> run_calls fuel true calls r w = Some (ok, r', w') ->
  pr_ok r' = ok /\ (verdict fuel r (fst w) \/ calls <> [] -> verdict fuel r' (fst w')).
Proof.
  revert r w. induction calls as [|[[[key name] limit] body] calls IH]; intros r w Hr; cbn [run_calls].
  - intros [= <- <- <-]. split; [done|]. by intros [?|?].
  - destruct (step fuel true key name limit body r w) as [[[ok1 r1] w1]|] eqn:E; [|done].
    destruct (step_verdict _ _ _ _ _ _ _ _ _ Hr E) as [H1 H2]. destruct ok1.
    + intros H. destruct (IH r1 w1 H1 H) as [I1 I2]. split; [done|]. auto.
    + intros [= <- <- <-]. split; [done|auto].
Qed.

Lemma verdict_ok r r' g : pr_ok r' = pr_ok r -> verdict fuel r g -> verdict fuel r' g.
Proof. unfold verdict. by intros ->. Qed.

Lemma round_calls_ne cfg : round_calls runPEA fuel cfg <> [].
Proof. unfold round_calls. intros H. by apply app_eq_nil in H as [_ [=]]. Qed.

Lemma cleanup_rounds_verdict allowed : forall round rounds cfg r w r' w',
  pc_verifyAfterEachPass cfg = true -> pr_ok r = true ->
  cleanup_rounds runPEA fuel allowed round rounds cfg r w = Some (r', w') ->
  verdict fuel r (fst w) \/ allowed <> O -> verdict fuel r' (fst w').
Proof.
  induction allowed as [|allowed IH]; intros round rounds cfg r w r' w' Hv Hr; cbn [cleanup_rounds].
  - intros [= <- <-]. by intros [?|?].
  - rewrite Hv. set (r0 := with_telemetry _ r). assert (pr_ok r0 = true) as Hr0 by done.
    destruct (run_calls _ _ _ r0 w) as [[[ok r1] w1]|] eqn:E; [|done].
    destruct (run_calls_verdict _ _ _ _ _ _ Hr0 E) as [H1 H2].
    specialize (H2 (or_intror (round_calls_ne cfg))).
    destruct ok; [|by intros [= <- <-]]. destruct (work_done r1 =? _).
    { intros [= <- <-] _. by apply (verdict_ok r1). }
    destruct (round + 1 =? rounds).
    { intros [= <- <-] _. apply (verdict_ok r1); [by rewrite pr_ok_addDiag|done]. }
    intros H _. eapply IH; [exact Hv|exact H1|exact H|by left].
Qed.
End driver.

(** C23: The pipeline fails closed, and its verdict is about the graph it leaves: with
    verification on and at least one round, the result is ok exactly when the verifier
    accepts the graph that is returned. So an ok result is a verified graph, and after a
    failure the graph is the one the verifier rejected, whatever the escape analysis does. *)
Theorem cleanup_verdict runPEA fuel g cfg r g' :
  pc_verifyAfterEachPass cfg = true -> pc_maxCleanupRounds cfg <> 0 ->
  runEarlyCleanup runPEA fuel g cfg = Some (r, g') ->
  exists v, verify fuel g' = Some v /\ vr_ok v = pr_ok r.
Proof.
  unfold runEarlyCleanup. intros Hv Hr. set (rounds := if _ <? _ then _ else _).
  assert (rounds <> 0) as Hrounds.
  { subst rounds. destruct (N.ltb_spec kMaxEarlyCleanupRounds (pc_maxCleanupRounds cfg)); [|done].
    unfold kMaxEarlyCleanupRounds. lia. }
  destruct (cleanup_rounds _ _ _ _ _ _ _ _) as [[r1 w]|] eqn:E; [|done]. intros [= <- <-].
  eapply cleanup_rounds_verdict in E; [exact E|done|done|right; lia].
Qed.

(** ** Switches *)

Definition delivered (key : PassKey) : Prop := is_Some (passRegistryIndex key).

Lemma index_of_spec key i rows j : index_of key i rows = Some j ->
  i <= j < i + vlen rows /\ exists row, rows !! N.to_nat (j - i) = Some row /\ PassKey.code (pi_key row) = PassKey.code key.
Proof.
  revert i. induction rows as [|row rows IH]; intros i; [done|]. cbn [index_of].
  unfold vlen. cbn [List.length].
  destruct (key_eqb (pi_key row) key) eqn:E.
  - intros [= <-]. split; [lia|]. exists row. rewrite N.sub_diag. split; [done|by apply N.eqb_eq].
  - intros H. destruct (IH _ H) as [Hb (row' & Hl & Hc)]. unfold vlen in Hb. split; [lia|].
    exists row'. split; [|done]. replace (N.to_nat (j - i)) with (S (N.to_nat (j - (i + 1)))) by lia. done.
Qed.

Lemma index_small key j : passRegistryIndex key = Some j -> j < 15.
Proof. intros H. apply index_of_spec in H as [H _]. change (0 + vlen kRegistry) with 15 in H. lia. Qed.

Lemma index_inj k k' j : passRegistryIndex k = Some j -> passRegistryIndex k' = Some j ->
  PassKey.code k = PassKey.code k'.
Proof.
  intros (_ & row & H1 & H2)%index_of_spec (_ & row' & H3 & H4)%index_of_spec. congruence.
Qed.

Lemma index_code k k' : PassKey.code k = PassKey.code k' -> passRegistryIndex k = passRegistryIndex k'.
Proof.
  intros H. unfold passRegistryIndex. generalize 0. induction kRegistry as [|row rows IH]; intros i; [done|].
  cbn [index_of]. unfold key_eqb. by rewrite H, IH.
Qed.

Lemma enabled_testbit cfg key j : passRegistryIndex key = Some j ->
  isPassEnabled cfg key = N.testbit (pc_enabledBits cfg) j.
Proof.
  unfold isPassEnabled. intros ->. destruct (N.testbit (pc_enabledBits cfg) j) eqn:E.
  - apply negb_true_iff, N.eqb_neq. intros H. apply (f_equal (fun x => N.testbit x j)) in H.
    rewrite N.land_spec, E, N.shiftl_spec_high', N.sub_diag in H by lia. done.
  - apply negb_false_iff, N.eqb_eq. apply N.bits_inj. intros i. rewrite N.land_spec, N.bits_0.
    destruct (decide (i = j)) as [->|Hne]; [by rewrite E|].
    rewrite <- N.pow2_bits_false with (n := j) (m := i) by done. rewrite N.shiftl_1_l.
    rewrite N.pow2_bits_false by done. by rewrite andb_false_r.
Qed.

Lemma delivered_info key :
  delivered key \/ PassKey.code key = 0xFFFF <-> key_eqb (pi_key (passInfo key)) key = true.
Proof.
  unfold delivered, passRegistryIndex, passInfo. generalize 0.
  induction kRegistry as [|row rows IH]; intros i; cbn [index_of List.find].
  - unfold key_eqb. cbn [BadRow pi_key PassKey.code]. rewrite N.eqb_eq. split; [intros [[? ?]|?]; done|auto].
  - destruct (key_eqb (pi_key row) key) eqn:E; [|apply IH]. rewrite E. split; [done|]. left. eauto.
Qed.

Lemma isPassEnabled_set cfg key on other : delivered key -> delivered other ->
  isPassEnabled (setPassEnabled cfg key on) other =
    if key_eqb key other then on else isPassEnabled cfg other.
Proof.
  intros [i Hi] [j Hj]. rewrite !(enabled_testbit _ other j Hj). unfold setPassEnabled. rewrite Hi.
  pose proof (index_small _ _ Hi). pose proof (index_small _ _ Hj).
  rewrite (proj2 (N.leb_gt 32 i)) by lia. cbn [pc_enabledBits with_bits]. rewrite N.shiftl_1_l. unfold key_eqb.
  destruct (N.eqb_spec (PassKey.code key) (PassKey.code other)) as [He|Hne].
  - rewrite (index_code _ _ He), Hj in Hi. injection Hi as <-. destruct on.
    + by rewrite N.lor_spec, N.pow2_bits_true, orb_true_r.
    + rewrite N.land_spec, N.lxor_spec, N.pow2_bits_true, xorb_true_r.
      change 0xFFFFFFFF with (N.ones 32). rewrite N.ones_spec_low by lia. by rewrite andb_false_r.
  - assert (i <> j) as Hij by (intros ->; apply Hne; by eapply index_inj). destruct on.
    + by rewrite N.lor_spec, N.pow2_bits_false, orb_false_r.
    + rewrite N.land_spec, N.lxor_spec, N.pow2_bits_false, xorb_false_r by done.
      change 0xFFFFFFFF with (N.ones 32). rewrite N.ones_spec_low by lia. by rewrite andb_true_r.
Qed.

Lemma setPassEnabled_rest cfg key on :
  pc_verifyAfterEachPass (setPassEnabled cfg key on) = pc_verifyAfterEachPass cfg /\
  pc_maxCleanupRounds (setPassEnabled cfg key on) = pc_maxCleanupRounds cfg.
Proof. unfold setPassEnabled. destruct (passRegistryIndex key); [|done]. by case_match. Qed.

Lemma single_pass_off runPEA fuel g key cfg : delivered key ->
  runSinglePass runPEA fuel g key (setPassEnabled cfg key false) = Some (newResult, g).
Proof.
  intros Hd. unfold runSinglePass. rewrite (proj1 (delivered_info key) (or_introl Hd)). cbn [negb].
  rewrite isPassEnabled_set by done. unfold key_eqb. by rewrite N.eqb_refl.
Qed.

(** A switch sets the pass it names and no other, and a pass that is off does
    nothing: for delivered keys [setPassEnabled] then [isPassEnabled] is assignment
    then lookup; a key that is not delivered is ignored; running a single pass that is
    off succeeds and leaves the graph, whatever the passes do, and running a key that is not
    delivered fails with one diagnostic (but for the key of the bad row itself). *)
Theorem switches_select runPEA fuel g cfg key on other :
  (delivered key -> delivered other ->
   isPassEnabled (setPassEnabled cfg key on) other =
     if key_eqb key other then on else isPassEnabled cfg other) /\
  (~ delivered key -> setPassEnabled cfg key on = cfg) /\
  (delivered key -> runSinglePass runPEA fuel g key (setPassEnabled cfg key false) = Some (newResult, g)) /\
  (~ delivered key -> PassKey.code key <> 0xFFFF -> exists d, runSinglePass runPEA fuel g key cfg =
     Some (mkResult false [d] noTelemetry, g)).
Proof.
  split_and!.
  - apply isPassEnabled_set.
  - unfold setPassEnabled, delivered. intros H. destruct (passRegistryIndex key); [|done]. by destruct H.
  - apply single_pass_off.
  - intros Hd Hc. unfold runSinglePass. destruct (key_eqb (pi_key (passInfo key)) key) eqn:E.
    + apply delivered_info in E as [?|?]; done.
    + cbn [negb]. unfold addDiag. cbn. eauto.
Qed.

(** ** The pipeline and the switches *)

(** The passes that a round runs through [step] alone. *)
Definition stepped : list PassKey :=
  [PassKey.SparseConditionalConstantPropagation; PassKey.NullCheckFolding;
   PassKey.BranchNormalization; PassKey.ControlFlowSimplification;
   PassKey.DeadCodeElimination; PassKey.GVN].

(** The keys whose switches the pipeline reads. *)
Definition consulted : list PassKey :=
  (fst <$> simplify_keys) ++
  [PassKey.EscapeAnalysis; PassKey.PartialEscapeAnalysis; PassKey.ScalarReplacement;
   PassKey.MaterializationPlanning].

(** Two configurations the pipeline cannot tell apart. *)
Definition agree (cfg cfg' : PassConfig) : Prop :=
  Forall (fun key => isPassEnabled cfg key = isPassEnabled cfg' key) consulted /\
  pc_verifyAfterEachPass cfg = pc_verifyAfterEachPass cfg' /\
  pc_maxCleanupRounds cfg = pc_maxCleanupRounds cfg'.

Lemma agree_simplify cfg cfg' : agree cfg cfg' ->
  simplifyOn cfg = simplifyOn cfg' /\ simplifyMask cfg = simplifyMask cfg' /\
  peaMask cfg = peaMask cfg'.
Proof.
  intros [H _]. unfold consulted in H. cbn [simplify_keys fmap list_fmap fst app] in H.
  rewrite !Forall_cons in H. destruct_and! H.
  unfold simplifyOn, simplifyMask, peaMask, simplify_keys. cbn [existsb foldl fst snd].
  repeat match goal with E : isPassEnabled cfg _ = _ |- _ => rewrite E; clear E end. done.
Qed.

Lemma agree_rounds runPEA fuel allowed round rounds cfg cfg' r w : agree cfg cfg' ->
  cleanup_rounds runPEA fuel allowed round rounds cfg r w =
  cleanup_rounds runPEA fuel allowed round rounds cfg' r w.
Proof.
  intros H. destruct (agree_simplify _ _ H) as (E1 & E2 & E3).
  assert (round_calls runPEA fuel cfg = round_calls runPEA fuel cfg') as Ec.
  { unfold round_calls, simplifyBudget. by rewrite E1, E2, E3. }
  revert round r w. induction allowed as [|allowed IH]; intros round r w; [done|].
  cbn [cleanup_rounds]. rewrite Ec, (proj1 (proj2 H)).
  destruct (run_calls _ _ _ _ _) as [[[[] r1] w1]|]; [|done..].
  destruct (_ =? _); [done|]. destruct (_ =? _); [done|]. apply IH.
Qed.

Lemma agree_cleanup runPEA fuel g cfg cfg' : agree cfg cfg' ->
  runEarlyCleanup runPEA fuel g cfg = runEarlyCleanup runPEA fuel g cfg'.
Proof.
  intros H. unfold runEarlyCleanup. rewrite (proj2 (proj2 H)).
  by rewrite (agree_rounds runPEA fuel _ _ _ cfg cfg').
Qed.

Lemma stepped_switch key cfg on : key ∈ stepped -> agree (setPassEnabled cfg key on) cfg.
Proof.
  intros Hk. destruct (setPassEnabled_rest cfg key on) as [E1 E2]. split; [|done].
  apply Forall_forall. intros other Ho.
  assert (forallb (fun k => forallb (fun o => negb (key_eqb k o) &&
    bool_decide (is_Some (passRegistryIndex k)) && bool_decide (is_Some (passRegistryIndex o)))
    consulted) stepped = true) as H by (vm_compute; reflexivity).
  rewrite forallb_forall in H. specialize (H key). rewrite forallb_forall in H.
  specialize (H (proj1 (list_elem_of_In _ _) Hk) other (proj1 (list_elem_of_In _ _) Ho)).
  rewrite !andb_true_iff, negb_true_iff, !bool_decide_eq_true in H.
  destruct H as [[Hne Hd] Hd']. by rewrite isPassEnabled_set, Hne.
Qed.

(** C40: The pipeline does not look at the switches of constant propagation, null-check
    folding, branch normalization, the unreachable sweep, dead code elimination and
    value numbering: on any graph, with any escape analysis and in any configuration,
    setting one of them changes nothing of what the pipeline does or answers, and every
    round calls the pass, although the same switch turns the pass alone into one that
    does nothing. *)
Theorem cleanup_ignores_switches runPEA fuel g cfg key on :
  key ∈ stepped ->
  runEarlyCleanup runPEA fuel g (setPassEnabled cfg key on) =
    runEarlyCleanup runPEA fuel g cfg /\
  pass_call runPEA fuel key ∈ round_calls runPEA fuel (setPassEnabled cfg key on) /\
  runSinglePass runPEA fuel g key (setPassEnabled cfg key false) = Some (newResult, g).
Proof.
  intros Hk. split; [by apply agree_cleanup, stepped_switch|]. split.
  - unfold round_calls. rewrite !elem_of_app. right. left.
    apply list_elem_of_In, in_map, list_elem_of_In, Hk.
  - apply single_pass_off. unfold stepped in Hk. rewrite !elem_of_cons, elem_of_nil in Hk.
    destruct_or! Hk; subst; vm_compute; eauto.
Qed.

(** An escape analysis that finds nothing. *)
Definition idle_analysis (mask : N) (st : pass_state) : option (pass_state * list PeaDecision) :=
  Some (st, []).

Lemma cleanup_runs : exists r g', runEarlyCleanup idle_analysis 100 pass_example defaultConfig = Some (r, g') /\
  pr_ok r = true /\ isDead (node g' 3) = true.
Proof. eexists _, _. split; [vm_compute; reflexivity|]. by vm_compute. Qed.

Lemma cleanup_verdict_witness : exists r g' v,
  runEarlyCleanup idle_analysis 100 pass_example defaultConfig = Some (r, g') /\ isDead (node g' 3) = true /\
  verify 100 g' = Some v /\ vr_ok v = true.
Proof.
  destruct cleanup_runs as (r & g' & Hr & Hok & Hd).
  destruct (cleanup_verdict idle_analysis 100 pass_example defaultConfig r g' eq_refl) as (v & Hv & Hvo).
  - discriminate.
  - exact Hr.
  - exists r, g', v. split; [exact Hr|]. split; [exact Hd|]. split; [exact Hv|]. by rewrite Hvo.
Defined.

(** Value numbering switched off in the default configuration. *)
Lemma cleanup_ignores_switches_witness :
  runEarlyCleanup idle_analysis 100 pass_example
    (setPassEnabled defaultConfig PassKey.GVN false) =
  runEarlyCleanup idle_analysis 100 pass_example defaultConfig.
Proof.
  apply (cleanup_ignores_switches idle_analysis 100 pass_example defaultConfig PassKey.GVN false).
  unfold stepped. do 5 right. left.
Defined.
