(* ===== verification/RbcOpcode.v ===== *)
(** * RBC types and opcodes

    include/b2/rbc/Type.h, include/b2/rbc/Opcode.h and compiler/rbc/src/Opcode.cpp:
    the verification types of the register bytecode with their join and
    assignability, the opcodes, operand signatures and effect flags, and the table
    of opcode metadata. *)

From S2P Require Import Prelude.

Local Open Scope N_scope.

(** ** Types *)

Module RType.
Inductive RType := Bottom | Int | Long | Float | Double | Null | Ref.
End RType.
Abbreviation RType := RType.RType.

#[export] Instance RType_eq_dec : EqDecision RType.
Proof. solve_decision. Defined.

Definition join (a b : RType) : RType :=
  if decide (a = b) then a
  else match a, b with
       | RType.Null, RType.Ref | RType.Ref, RType.Null => RType.Ref
       | _, _ => RType.Bottom
       end.

Definition isAssignable (from to : RType) : bool :=
  if decide (from = to) then true
  else match from, to with
       | RType.Null, RType.Ref => true
       | _, _ => false
       end.

Definition isNumeric (t : RType) : bool :=
  match t with
  | RType.Int | RType.Long | RType.Float | RType.Double => true
  | _ => false
  end.

Definition isCategory2 (t : RType) : bool :=
  match t with RType.Long | RType.Double => true | _ => false end.

Definition typeName (t : RType) : string :=
  match t with
  | RType.Bottom => "bottom"
  | RType.Int => "int"
  | RType.Long => "long"
  | RType.Float => "float"
  | RType.Double => "double"
  | RType.Null => "null"
  | RType.Ref => "ref"
  end.

(** ** Opcodes *)

Module Op.
Inductive Op :=
| Nop | SafepointPoll | AconstNull | Iconst | Fconst | Lconst | Dconst | Ldc |
  Iload | Lload | Fload | Dload | Aload | Istore | Lstore | Fstore | Dstore |
  Astore | Imove | Lmove | Fmove | Dmove | Amove | Iadd | Isub | Imul | Idiv |
  Irem | Ineg | Ishl | Ishr | Iushr | Iand | Ior | Ixor | Iinc | Ladd | Lsub |
  Lmul | Ldiv | Lrem | Lneg | Lshl | Lshr | Lushr | Land | Lor | Lxor | Fadd |
  Fsub | Fmul | Fdiv | Frem | Fneg | Dadd | Dsub | Dmul | Ddiv | Drem | Dneg |
  Icmp | Lcmp | Fcmpl | Fcmpg | Dcmpl | Dcmpg | I2l | I2f | I2d | L2i | L2f |
  L2d | F2i | F2l | F2d | D2i | D2l | D2f | I2b | I2c | I2s | Goto | Ifeq |
  Ifne | Iflt | Ifge | Ifgt | Ifle | Ifnull | Ifnonnull | IfIcmpeq | IfIcmpne
  | IfIcmplt | IfIcmpge | IfIcmpgt | IfIcmple | IfAcmpeq | IfAcmpne |
  Tableswitch | Lookupswitch | Getfield | Putfield | Getstatic | Putstatic |
  GetfieldQuick | PutfieldQuick | NewArray | AnewArray | Arraylength | Iaload
  | Laload | Faload | Daload | Aaload | Baload | Caload | Saload | Iastore |
  Lastore | Fastore | Dastore | Aastore | Bastore | Castore | Sastore |
  Multianewarray | New | Checkcast | Instanceof | Monitorenter | Monitorexit |
  Invokevirtual | Invokespecial | Invokestatic | Invokeinterface |
  Invokedynamic | InvokevirtualQuick | InvokespecialQuick | InvokestaticQuick
  | InvokeinterfaceQuick | Return | Ireturn | Lreturn | Freturn | Dreturn |
  Areturn | Athrow | DeoptTrap | GuardNonNull | GuardClass.

(** The codes in order. [_Count] is not an opcode; it is [vlen all]. *)
Definition all : list Op :=
  [Nop; SafepointPoll; AconstNull; Iconst; Fconst; Lconst; Dconst; Ldc;
   Iload; Lload; Fload; Dload; Aload; Istore; Lstore; Fstore; Dstore;
   Astore; Imove; Lmove; Fmove; Dmove; Amove; Iadd; Isub; Imul; Idiv; Irem;
   Ineg; Ishl; Ishr; Iushr; Iand; Ior; Ixor; Iinc; Ladd; Lsub; Lmul; Ldiv;
   Lrem; Lneg; Lshl; Lshr; Lushr; Land; Lor; Lxor; Fadd; Fsub; Fmul; Fdiv;
   Frem; Fneg; Dadd; Dsub; Dmul; Ddiv; Drem; Dneg; Icmp; Lcmp; Fcmpl; Fcmpg;
   Dcmpl; Dcmpg; I2l; I2f; I2d; L2i; L2f; L2d; F2i; F2l; F2d; D2i; D2l; D2f;
   I2b; I2c; I2s; Goto; Ifeq; Ifne; Iflt; Ifge; Ifgt; Ifle; Ifnull;
   Ifnonnull; IfIcmpeq; IfIcmpne; IfIcmplt; IfIcmpge; IfIcmpgt; IfIcmple;
   IfAcmpeq; IfAcmpne; Tableswitch; Lookupswitch; Getfield; Putfield;
   Getstatic; Putstatic; GetfieldQuick; PutfieldQuick; NewArray; AnewArray;
   Arraylength; Iaload; Laload; Faload; Daload; Aaload; Baload; Caload;
   Saload; Iastore; Lastore; Fastore; Dastore; Aastore; Bastore; Castore;
   Sastore; Multianewarray; New; Checkcast; Instanceof; Monitorenter;
   Monitorexit; Invokevirtual; Invokespecial; Invokestatic; Invokeinterface;
   Invokedynamic; InvokevirtualQuick; InvokespecialQuick; InvokestaticQuick;
   InvokeinterfaceQuick; Return; Ireturn; Lreturn; Freturn; Dreturn;
   Areturn; Athrow; DeoptTrap; GuardNonNull; GuardClass].

Definition code (op : Op) : N :=
  match op with
  | Nop => 0 | SafepointPoll => 1 | AconstNull => 2 | Iconst => 3
  | Fconst => 4 | Lconst => 5 | Dconst => 6 | Ldc => 7
  | Iload => 8 | Lload => 9 | Fload => 10 | Dload => 11
  | Aload => 12 | Istore => 13 | Lstore => 14 | Fstore => 15
  | Dstore => 16 | Astore => 17 | Imove => 18 | Lmove => 19
  | Fmove => 20 | Dmove => 21 | Amove => 22 | Iadd => 23
  | Isub => 24 | Imul => 25 | Idiv => 26 | Irem => 27
  | Ineg => 28 | Ishl => 29 | Ishr => 30 | Iushr => 31
  | Iand => 32 | Ior => 33 | Ixor => 34 | Iinc => 35
  | Ladd => 36 | Lsub => 37 | Lmul => 38 | Ldiv => 39
  | Lrem => 40 | Lneg => 41 | Lshl => 42 | Lshr => 43
  | Lushr => 44 | Land => 45 | Lor => 46 | Lxor => 47
  | Fadd => 48 | Fsub => 49 | Fmul => 50 | Fdiv => 51
  | Frem => 52 | Fneg => 53 | Dadd => 54 | Dsub => 55
  | Dmul => 56 | Ddiv => 57 | Drem => 58 | Dneg => 59
  | Icmp => 60 | Lcmp => 61 | Fcmpl => 62 | Fcmpg => 63
  | Dcmpl => 64 | Dcmpg => 65 | I2l => 66 | I2f => 67
  | I2d => 68 | L2i => 69 | L2f => 70 | L2d => 71
  | F2i => 72 | F2l => 73 | F2d => 74 | D2i => 75
  | D2l => 76 | D2f => 77 | I2b => 78 | I2c => 79
  | I2s => 80 | Goto => 81 | Ifeq => 82 | Ifne => 83
  | Iflt => 84 | Ifge => 85 | Ifgt => 86 | Ifle => 87
  | Ifnull => 88 | Ifnonnull => 89 | IfIcmpeq => 90 | IfIcmpne => 91
  | IfIcmplt => 92 | IfIcmpge => 93 | IfIcmpgt => 94 | IfIcmple => 95
  | IfAcmpeq => 96 | IfAcmpne => 97 | Tableswitch => 98 | Lookupswitch => 99
  | Getfield => 100 | Putfield => 101 | Getstatic => 102 | Putstatic => 103
  | GetfieldQuick => 104 | PutfieldQuick => 105 | NewArray => 106 | AnewArray => 107
  | Arraylength => 108 | Iaload => 109 | Laload => 110 | Faload => 111
  | Daload => 112 | Aaload => 113 | Baload => 114 | Caload => 115
  | Saload => 116 | Iastore => 117 | Lastore => 118 | Fastore => 119
  | Dastore => 120 | Aastore => 121 | Bastore => 122 | Castore => 123
  | Sastore => 124 | Multianewarray => 125 | New => 126 | Checkcast => 127
  | Instanceof => 128 | Monitorenter => 129 | Monitorexit => 130 | Invokevirtual => 131
  | Invokespecial => 132 | Invokestatic => 133 | Invokeinterface => 134 | Invokedynamic => 135
  | InvokevirtualQuick => 136 | InvokespecialQuick => 137 | InvokestaticQuick => 138 | InvokeinterfaceQuick => 139
  | Return => 140 | Ireturn => 141 | Lreturn => 142 | Freturn => 143
  | Dreturn => 144 | Areturn => 145 | Athrow => 146 | DeoptTrap => 147
  | GuardNonNull => 148 | GuardClass => 149
  end.
End Op.
Abbreviation Op := Op.Op.

Lemma all_code op : vget Op.all (Op.code op) = Some op.
Proof. by destruct op. Qed.

#[export] Instance Op_eq_dec : EqDecision Op.
Proof.
  intros a b. destruct (decide (Op.code a = Op.code b)) as [H|H].
  - left. assert (Some a = Some b) as [= ->]; [|done]. by rewrite <- !all_code, H.
  - right. by intros ->.
Defined.

Definition opCount : N := vlen Op.all.

(** The opcode of a raw code, for codes below [opCount]. *)
Definition of_code (c : N) : option Op := vget Op.all c.

Lemma of_code_lt c : is_Some (of_code c) <-> c < opCount.
Proof. unfold of_code, opCount. by rewrite vget_lt_is_Some. Qed.

(** ** Operand signatures *)

Module Sig.
Inductive Sig :=
| None | Reg | RegImm | RegCp | RegSlot | SlotReg | RegReg | RegRegReg |
  RegRegImm | RegRegCp | RegRegRegCp | Branch | RegBranch | RegRegBranch |
  RegCpBranch | Call | CallQuick | Guard | GuardCp | Trap.
End Sig.
Abbreviation Sig := Sig.Sig.

#[export] Instance Sig_eq_dec : EqDecision Sig.
Proof. solve_decision. Defined.

(** ** Effect flags *)

Module Eff.
Definition None : N := 0.
Definition ReadsHeap : N := N.shiftl 1 0.
Definition WritesHeap : N := N.shiftl 1 1.
Definition CanCall : N := N.shiftl 1 2.
Definition CanTrap : N := N.shiftl 1 3.
Definition CanAllocate : N := N.shiftl 1 4.
Definition CanBranch : N := N.shiftl 1 5.
Definition IsSafepoint : N := N.shiftl 1 6.
Definition Quickened : N := N.shiftl 1 7.
End Eff.

Infix "|||" := N.lor (at level 50, left associativity) : b2_scope.
Local Open Scope b2_scope.

Definition hasEff (v f : N) : bool := negb (N.land v f =? 0).

(** ** The opcode table *)

Record OpInfo := mkOpInfo {
  oi_name : string; oi_sig : Sig; oi_result : RType;
  oi_operandA : RType; oi_operandB : RType; oi_effects : N
}.

Definition kR : N := Eff.ReadsHeap.
Definition kW : N := Eff.WritesHeap.
Definition kC : N := Eff.CanCall.
Definition kT : N := Eff.CanTrap.
Definition kA : N := Eff.CanAllocate.
Definition kB : N := Eff.CanBranch.
Definition kS : N := Eff.IsSafepoint.
Definition kQ : N := Eff.Quickened.

Definition kOpInfo : list OpInfo :=
  [mkOpInfo "nop" Sig.None RType.Bottom RType.Bottom RType.Bottom Eff.None;
   mkOpInfo "safepoint_poll" Sig.None RType.Bottom RType.Bottom RType.Bottom kS;
   mkOpInfo "aconst_null" Sig.RegImm RType.Null RType.Bottom RType.Bottom Eff.None;
   mkOpInfo "iconst" Sig.RegImm RType.Int RType.Bottom RType.Bottom Eff.None;
   mkOpInfo "fconst" Sig.RegImm RType.Float RType.Bottom RType.Bottom Eff.None;
   mkOpInfo "lconst" Sig.RegCp RType.Long RType.Bottom RType.Bottom Eff.None;
   mkOpInfo "dconst" Sig.RegCp RType.Double RType.Bottom RType.Bottom Eff.None;
   mkOpInfo "ldc" Sig.RegCp RType.Ref RType.Bottom RType.Bottom kT;
   mkOpInfo "iload" Sig.RegSlot RType.Int RType.Bottom RType.Bottom Eff.None;
   mkOpInfo "lload" Sig.RegSlot RType.Long RType.Bottom RType.Bottom Eff.None;
   mkOpInfo "fload" Sig.RegSlot RType.Float RType.Bottom RType.Bottom Eff.None;
   mkOpInfo "dload" Sig.RegSlot RType.Double RType.Bottom RType.Bottom Eff.None;
   mkOpInfo "aload" Sig.RegSlot RType.Ref RType.Bottom RType.Bottom Eff.None;
   mkOpInfo "istore" Sig.SlotReg RType.Bottom RType.Int RType.Bottom Eff.None;
   mkOpInfo "lstore" Sig.SlotReg RType.Bottom RType.Long RType.Bottom Eff.None;
   mkOpInfo "fstore" Sig.SlotReg RType.Bottom RType.Float RType.Bottom Eff.None;
   mkOpInfo "dstore" Sig.SlotReg RType.Bottom RType.Double RType.Bottom Eff.None;
   mkOpInfo "astore" Sig.SlotReg RType.Bottom RType.Ref RType.Bottom Eff.None;
   mkOpInfo "imove" Sig.RegReg RType.Int RType.Int RType.Bottom Eff.None;
   mkOpInfo "lmove" Sig.RegReg RType.Long RType.Long RType.Bottom Eff.None;
   mkOpInfo "fmove" Sig.RegReg RType.Float RType.Float RType.Bottom Eff.None;
   mkOpInfo "dmove" Sig.RegReg RType.Double RType.Double RType.Bottom Eff.None;
   mkOpInfo "amove" Sig.RegReg RType.Ref RType.Ref RType.Bottom Eff.None;
   mkOpInfo "iadd" Sig.RegRegReg RType.Int RType.Int RType.Int Eff.None;
   mkOpInfo "isub" Sig.RegRegReg RType.Int RType.Int RType.Int Eff.None;
   mkOpInfo "imul" Sig.RegRegReg RType.Int RType.Int RType.Int Eff.None;
   mkOpInfo "idiv" Sig.RegRegReg RType.Int RType.Int RType.Int kT;
   mkOpInfo "irem" Sig.RegRegReg RType.Int RType.Int RType.Int kT;
   mkOpInfo "ineg" Sig.RegReg RType.Int RType.Int RType.Bottom Eff.None;
   mkOpInfo "ishl" Sig.RegRegReg RType.Int RType.Int RType.Int Eff.None;
   mkOpInfo "ishr" Sig.RegRegReg RType.Int RType.Int RType.Int Eff.None;
   mkOpInfo "iushr" Sig.RegRegReg RType.Int RType.Int RType.Int Eff.None;
   mkOpInfo "iand" Sig.RegRegReg RType.Int RType.Int RType.Int Eff.None;
   mkOpInfo "ior" Sig.RegRegReg RType.Int RType.Int RType.Int Eff.None;
   mkOpInfo "ixor" Sig.RegRegReg RType.Int RType.Int RType.Int Eff.None;
   mkOpInfo "iinc" Sig.RegImm RType.Int RType.Bottom RType.Bottom Eff.None;
   mkOpInfo "ladd" Sig.RegRegReg RType.Long RType.Long RType.Long Eff.None;
   mkOpInfo "lsub" Sig.RegRegReg RType.Long RType.Long RType.Long Eff.None;
   mkOpInfo "lmul" Sig.RegRegReg RType.Long RType.Long RType.Long Eff.None;
   mkOpInfo "ldiv" Sig.RegRegReg RType.Long RType.Long RType.Long kT;
   mkOpInfo "lrem" Sig.RegRegReg RType.Long RType.Long RType.Long kT;
   mkOpInfo "lneg" Sig.RegReg RType.Long RType.Long RType.Bottom Eff.None;
   mkOpInfo "lshl" Sig.RegRegReg RType.Long RType.Long RType.Int Eff.None;
   mkOpInfo "lshr" Sig.RegRegReg RType.Long RType.Long RType.Int Eff.None;
   mkOpInfo "lushr" Sig.RegRegReg RType.Long RType.Long RType.Int Eff.None;
   mkOpInfo "land" Sig.RegRegReg RType.Long RType.Long RType.Long Eff.None;
   mkOpInfo "lor" Sig.RegRegReg RType.Long RType.Long RType.Long Eff.None;
   mkOpInfo "lxor" Sig.RegRegReg RType.Long RType.Long RType.Long Eff.None;
   mkOpInfo "fadd" Sig.RegRegReg RType.Float RType.Float RType.Float Eff.None;
   mkOpInfo "fsub" Sig.RegRegReg RType.Float RType.Float RType.Float Eff.None;
   mkOpInfo "fmul" Sig.RegRegReg RType.Float RType.Float RType.Float Eff.None;
   mkOpInfo "fdiv" Sig.RegRegReg RType.Float RType.Float RType.Float Eff.None;
   mkOpInfo "frem" Sig.RegRegReg RType.Float RType.Float RType.Float Eff.None;
   mkOpInfo "fneg" Sig.RegReg RType.Float RType.Float RType.Bottom Eff.None;
   mkOpInfo "dadd" Sig.RegRegReg RType.Double RType.Double RType.Double Eff.None;
   mkOpInfo "dsub" Sig.RegRegReg RType.Double RType.Double RType.Double Eff.None;
   mkOpInfo "dmul" Sig.RegRegReg RType.Double RType.Double RType.Double Eff.None;
   mkOpInfo "ddiv" Sig.RegRegReg RType.Double RType.Double RType.Double Eff.None;
   mkOpInfo "drem" Sig.RegRegReg RType.Double RType.Double RType.Double Eff.None;
   mkOpInfo "dneg" Sig.RegReg RType.Double RType.Double RType.Bottom Eff.None;
   mkOpInfo "icmp" Sig.RegRegReg RType.Int RType.Int RType.Int Eff.None;
   mkOpInfo "lcmp" Sig.RegRegReg RType.Int RType.Long RType.Long Eff.None;
   mkOpInfo "fcmpl" Sig.RegRegReg RType.Int RType.Float RType.Float Eff.None;
   mkOpInfo "fcmpg" Sig.RegRegReg RType.Int RType.Float RType.Float Eff.None;
   mkOpInfo "dcmpl" Sig.RegRegReg RType.Int RType.Double RType.Double Eff.None;
   mkOpInfo "dcmpg" Sig.RegRegReg RType.Int RType.Double RType.Double Eff.None;
   mkOpInfo "i2l" Sig.RegReg RType.Long RType.Int RType.Bottom Eff.None;
   mkOpInfo "i2f" Sig.RegReg RType.Float RType.Int RType.Bottom Eff.None;
   mkOpInfo "i2d" Sig.RegReg RType.Double RType.Int RType.Bottom Eff.None;
   mkOpInfo "l2i" Sig.RegReg RType.Int RType.Long RType.Bottom Eff.None;
   mkOpInfo "l2f" Sig.RegReg RType.Float RType.Long RType.Bottom Eff.None;
   mkOpInfo "l2d" Sig.RegReg RType.Double RType.Long RType.Bottom Eff.None;
   mkOpInfo "f2i" Sig.RegReg RType.Int RType.Float RType.Bottom Eff.None;
   mkOpInfo "f2l" Sig.RegReg RType.Long RType.Float RType.Bottom Eff.None;
   mkOpInfo "f2d" Sig.RegReg RType.Double RType.Float RType.Bottom Eff.None;
   mkOpInfo "d2i" Sig.RegReg RType.Int RType.Double RType.Bottom Eff.None;
   mkOpInfo "d2l" Sig.RegReg RType.Long RType.Double RType.Bottom Eff.None;
   mkOpInfo "d2f" Sig.RegReg RType.Float RType.Double RType.Bottom Eff.None;
   mkOpInfo "i2b" Sig.RegReg RType.Int RType.Int RType.Bottom Eff.None;
   mkOpInfo "i2c" Sig.RegReg RType.Int RType.Int RType.Bottom Eff.None;
   mkOpInfo "i2s" Sig.RegReg RType.Int RType.Int RType.Bottom Eff.None;
   mkOpInfo "goto" Sig.Branch RType.Bottom RType.Bottom RType.Bottom kB;
   mkOpInfo "ifeq" Sig.RegBranch RType.Bottom RType.Int RType.Bottom kB;
   mkOpInfo "ifne" Sig.RegBranch RType.Bottom RType.Int RType.Bottom kB;
   mkOpInfo "iflt" Sig.RegBranch RType.Bottom RType.Int RType.Bottom kB;
   mkOpInfo "ifge" Sig.RegBranch RType.Bottom RType.Int RType.Bottom kB;
   mkOpInfo "ifgt" Sig.RegBranch RType.Bottom RType.Int RType.Bottom kB;
   mkOpInfo "ifle" Sig.RegBranch RType.Bottom RType.Int RType.Bottom kB;
   mkOpInfo "ifnull" Sig.RegBranch RType.Bottom RType.Ref RType.Bottom kB;
   mkOpInfo "ifnonnull" Sig.RegBranch RType.Bottom RType.Ref RType.Bottom kB;
   mkOpInfo "if_icmpeq" Sig.RegRegBranch RType.Bottom RType.Int RType.Int kB;
   mkOpInfo "if_icmpne" Sig.RegRegBranch RType.Bottom RType.Int RType.Int kB;
   mkOpInfo "if_icmplt" Sig.RegRegBranch RType.Bottom RType.Int RType.Int kB;
   mkOpInfo "if_icmpge" Sig.RegRegBranch RType.Bottom RType.Int RType.Int kB;
   mkOpInfo "if_icmpgt" Sig.RegRegBranch RType.Bottom RType.Int RType.Int kB;
   mkOpInfo "if_icmple" Sig.RegRegBranch RType.Bottom RType.Int RType.Int kB;
   mkOpInfo "if_acmpeq" Sig.RegRegBranch RType.Bottom RType.Ref RType.Ref kB;
   mkOpInfo "if_acmpne" Sig.RegRegBranch RType.Bottom RType.Ref RType.Ref kB;
   mkOpInfo "tableswitch" Sig.RegCpBranch RType.Bottom RType.Int RType.Bottom kB;
   mkOpInfo "lookupswitch" Sig.RegCpBranch RType.Bottom RType.Int RType.Bottom kB;
   mkOpInfo "getfield" Sig.RegRegCp RType.Bottom RType.Ref RType.Bottom (kR ||| kT);
   mkOpInfo "putfield" Sig.RegRegRegCp RType.Bottom RType.Ref RType.Bottom (kW ||| kT);
   mkOpInfo "getstatic" Sig.RegCp RType.Bottom RType.Bottom RType.Bottom (kR ||| kT);
   mkOpInfo "putstatic" Sig.RegCp RType.Bottom RType.Bottom RType.Bottom (kW ||| kT);
   mkOpInfo "getfield_quick" Sig.RegRegCp RType.Bottom RType.Ref RType.Bottom (kR ||| kT ||| kQ);
   mkOpInfo "putfield_quick" Sig.RegRegRegCp RType.Bottom RType.Ref RType.Bottom (kW ||| kT ||| kQ);
   mkOpInfo "newarray" Sig.RegRegImm RType.Ref RType.Int RType.Bottom (kA ||| kT ||| kS);
   mkOpInfo "anewarray" Sig.RegRegCp RType.Ref RType.Int RType.Bottom (kA ||| kT ||| kS);
   mkOpInfo "arraylength" Sig.RegReg RType.Int RType.Ref RType.Bottom kT;
   mkOpInfo "iaload" Sig.RegRegReg RType.Int RType.Ref RType.Int (kR ||| kT);
   mkOpInfo "laload" Sig.RegRegReg RType.Long RType.Ref RType.Int (kR ||| kT);
   mkOpInfo "faload" Sig.RegRegReg RType.Float RType.Ref RType.Int (kR ||| kT);
   mkOpInfo "daload" Sig.RegRegReg RType.Double RType.Ref RType.Int (kR ||| kT);
   mkOpInfo "aaload" Sig.RegRegReg RType.Ref RType.Ref RType.Int (kR ||| kT);
   mkOpInfo "baload" Sig.RegRegReg RType.Int RType.Ref RType.Int (kR ||| kT);
   mkOpInfo "caload" Sig.RegRegReg RType.Int RType.Ref RType.Int (kR ||| kT);
   mkOpInfo "saload" Sig.RegRegReg RType.Int RType.Ref RType.Int (kR ||| kT);
   mkOpInfo "iastore" Sig.RegRegReg RType.Bottom RType.Ref RType.Int (kW ||| kT);
   mkOpInfo "lastore" Sig.RegRegReg RType.Bottom RType.Ref RType.Int (kW ||| kT);
   mkOpInfo "fastore" Sig.RegRegReg RType.Bottom RType.Ref RType.Int (kW ||| kT);
   mkOpInfo "dastore" Sig.RegRegReg RType.Bottom RType.Ref RType.Int (kW ||| kT);
   mkOpInfo "aastore" Sig.RegRegReg RType.Bottom RType.Ref RType.Int (kW ||| kT);
   mkOpInfo "bastore" Sig.RegRegReg RType.Bottom RType.Ref RType.Int (kW ||| kT);
   mkOpInfo "castore" Sig.RegRegReg RType.Bottom RType.Ref RType.Int (kW ||| kT);
   mkOpInfo "sastore" Sig.RegRegReg RType.Bottom RType.Ref RType.Int (kW ||| kT);
   mkOpInfo "multianewarray" Sig.RegRegRegCp RType.Ref RType.Int RType.Bottom (kA ||| kT ||| kS);
   mkOpInfo "new" Sig.RegCp RType.Ref RType.Bottom RType.Bottom (kA ||| kT ||| kS);
   mkOpInfo "checkcast" Sig.RegRegCp RType.Ref RType.Ref RType.Bottom kT;
   mkOpInfo "instanceof" Sig.RegRegCp RType.Int RType.Ref RType.Bottom kT;
   mkOpInfo "monitorenter" Sig.Reg RType.Bottom RType.Ref RType.Bottom (kT ||| kS);
   mkOpInfo "monitorexit" Sig.Reg RType.Bottom RType.Ref RType.Bottom (kT ||| kS);
   mkOpInfo "invokevirtual" Sig.Call RType.Bottom RType.Bottom RType.Bottom (kC ||| kT ||| kS);
   mkOpInfo "invokespecial" Sig.Call RType.Bottom RType.Bottom RType.Bottom (kC ||| kT ||| kS);
   mkOpInfo "invokestatic" Sig.Call RType.Bottom RType.Bottom RType.Bottom (kC ||| kT ||| kS);
   mkOpInfo "invokeinterface" Sig.Call RType.Bottom RType.Bottom RType.Bottom (kC ||| kT ||| kS);
   mkOpInfo "invokedynamic" Sig.Call RType.Bottom RType.Bottom RType.Bottom (kC ||| kT ||| kS);
   mkOpInfo "invokevirtual_quick" Sig.CallQuick RType.Bottom RType.Bottom RType.Bottom (kC ||| kT ||| kS ||| kQ);
   mkOpInfo "invokespecial_quick" Sig.CallQuick RType.Bottom RType.Bottom RType.Bottom (kC ||| kT ||| kS ||| kQ);
   mkOpInfo "invokestatic_quick" Sig.CallQuick RType.Bottom RType.Bottom RType.Bottom (kC ||| kT ||| kS ||| kQ);
   mkOpInfo "invokeinterface_quick" Sig.CallQuick RType.Bottom RType.Bottom RType.Bottom (kC ||| kT ||| kS ||| kQ);
   mkOpInfo "return" Sig.None RType.Bottom RType.Bottom RType.Bottom Eff.None;
   mkOpInfo "ireturn" Sig.Reg RType.Bottom RType.Int RType.Bottom Eff.None;
   mkOpInfo "lreturn" Sig.Reg RType.Bottom RType.Long RType.Bottom Eff.None;
   mkOpInfo "freturn" Sig.Reg RType.Bottom RType.Float RType.Bottom Eff.None;
   mkOpInfo "dreturn" Sig.Reg RType.Bottom RType.Double RType.Bottom Eff.None;
   mkOpInfo "areturn" Sig.Reg RType.Bottom RType.Ref RType.Bottom Eff.None;
   mkOpInfo "athrow" Sig.Reg RType.Bottom RType.Ref RType.Bottom kT;
   mkOpInfo "deopt_trap" Sig.Trap RType.Bottom RType.Bottom RType.Bottom kT;
   mkOpInfo "guard_non_null" Sig.Guard RType.Bottom RType.Ref RType.Bottom (kT ||| kB);
   mkOpInfo "guard_class" Sig.GuardCp RType.Bottom RType.Ref RType.Bottom (kT ||| kB)].

Definition kBadOp : OpInfo :=
  mkOpInfo "bad<op>" Sig.None RType.Bottom RType.Bottom RType.Bottom Eff.None.

Definition info (op : Op) : OpInfo := default kBadOp (vget kOpInfo (Op.code op)).

Definition opName (op : Op) : string := oi_name (info op).

(** ** Facts about the table *)

(** A test on all opcodes holds for each of them. *)
Lemma all_ops (P : Op -> bool) : forallb P Op.all = true -> forall op, P op = true.
Proof.
  intros H op. rewrite forallb_forall in H. apply H, list_elem_of_In.
  pose proof (all_code op) as Ha. rewrite vget_lookup in Ha. by eapply list_elem_of_lookup_2.
Qed.

(** The table has a row for every opcode. *)
(** The raw code of an opcode is its number. *)
Lemma of_code_code c op : of_code c = Some op -> Op.code op = c.
Proof.
  intros H. pose proof (vget_Some_lt _ _ _ H) as Hlt.
  assert (forallb (fun i => bool_decide (Op.code <$> of_code i = Some i)) (indices opCount) = true) as Hall
    by (vm_compute; reflexivity).
  rewrite forallb_forall in Hall. specialize (Hall c).
  rewrite H, bool_decide_eq_true in Hall. cbn in Hall.
  assert (Some (Op.code op) = Some c) as [= ?]; [|done]. apply Hall.
  by apply list_elem_of_In, elem_of_indices.
Qed.

Lemma kOpInfo_count : vlen kOpInfo = opCount.
Proof. by vm_compute. Qed.

(** Assignability is a partial order that [join] respects: what fits one side of
    a merge fits the result, unless the merge is [Bottom]. *)
Lemma join_assignable a b : join a b = RType.Bottom \/ isAssignable a (join a b) = true.
Proof. destruct a, b; vm_compute; auto. Qed.

Lemma rjoin_comm a b : join a b = join b a.
Proof. by destruct a, b. Qed.
