(* ===== verification/Rbc.v ===== *)
(** * RBC methods

    include/b2/rbc/Rbc.h and compiler/rbc/src/Rbc.cpp: instructions, constants,
    exception handlers, methods and programs, and the descriptor parsers. A
    position in a descriptor is the suffix that starts there. *)

From S2P Require Import Prelude RbcOpcode.
From Stdlib Require Import Ascii String.

Local Open Scope N_scope.

(** ** Data *)

Record Ins := mkIns { i_op : N; i_dst : N; i_a : N; i_b : N; i_imm : N }.

Definition ins (o : Op) (dst a b imm : N) : Ins := mkIns (Op.code o) dst a b imm.

Module Atype.
Inductive Atype := Boolean | Char | Float | Double | Byte | Short | Int | Long.

Definition code (a : Atype) : N :=
  match a with
  | Boolean => 4 | Char => 5 | Float => 6 | Double => 7
  | Byte => 8 | Short => 9 | Int => 10 | Long => 11
  end.
End Atype.

Module Kind.
Inductive Kind :=
| Int32 | Int64 | Float | Double | Utf8 | String | Class | NameType | FieldRef
| MethodRef | InterfaceMethodRef | MethodType | MethodHandle | InvokeDynamic
| SwitchTable.

Definition code (k : Kind) : N :=
  match k with
  | Int32 => 1 | Int64 => 2 | Float => 3 | Double => 4 | Utf8 => 5 | String => 6
  | Class => 7 | NameType => 8 | FieldRef => 9 | MethodRef => 10
  | InterfaceMethodRef => 11 | MethodType => 12 | MethodHandle => 13
  | InvokeDynamic => 14 | SwitchTable => 15
  end.
End Kind.
Abbreviation Kind := Kind.Kind.

#[export] Instance Kind_eq_dec : EqDecision Kind.
Proof. solve_decision. Defined.

(** Floating-point payloads are their bits. *)
Record Const := mkConst {
  c_kind : Kind; c_i32 : Z; c_i64 : Z; c_f32 : N; c_f64 : N;
  c_str : string; c_str2 : string; c_str3 : string; c_ints : list Z
}.

Definition kindName (c : Const) : string :=
  match c_kind c with
  | Kind.Int32 => "int"
  | Kind.Int64 => "long"
  | Kind.Float => "float"
  | Kind.Double => "double"
  | Kind.Utf8 => "utf8"
  | Kind.String => "string"
  | Kind.Class => "class"
  | Kind.NameType => "nametype"
  | Kind.FieldRef => "field"
  | Kind.MethodRef => "method"
  | Kind.InterfaceMethodRef => "imethod"
  | Kind.MethodType => "methodtype"
  | Kind.MethodHandle => "methodhandle"
  | Kind.InvokeDynamic => "indy"
  | Kind.SwitchTable => "switch"
  end.

Record ExceptionHandler := mkHandler {
  h_start : N; h_end : N; h_handler : N; h_catchType : Z
}.

Module method_flags.
Definition Public : N := 1.
Definition Private : N := 2.
Definition Protected : N := 4.
Definition Static : N := 8.
Definition Final : N := 16.
Definition Synchronized : N := 32.
Definition Native : N := 256.
Definition Abstract : N := 1024.
Definition Varargs : N := 128.
End method_flags.

Record Method := mkMethod {
  m_name : string; m_descriptor : string; m_flags : N;
  m_numRegs : N; m_numLocals : N;
  m_code : list Ins; m_cp : list Const; m_handlers : list ExceptionHandler
}.

Definition isStatic (m : Method) : bool := negb (N.land (m_flags m) method_flags.Static =? 0).
Definition isSynchronized (m : Method) : bool :=
  negb (N.land (m_flags m) method_flags.Synchronized =? 0).
Definition isAbstract (m : Method) : bool :=
  negb (N.land (m_flags m) method_flags.Abstract =? 0).

Record Program := mkProgram { p_className : string; p_methods : list Method }.

Definition find (p : Program) (name descriptor : string) : option Method :=
  List.find (fun m => (m_name m =? name)%string && (m_descriptor m =? descriptor)%string)
    (p_methods p).

(** ** Descriptors *)

Abbreviation chars := (list ascii).

Definition chars_of (s : string) : chars := list_ascii_of_string s.

(** The text after a class name and its [;], when the name is not empty and has
    no structural character. *)
Fixpoint name_rest (empty : bool) (d : chars) : option chars :=
  match d with
  | [] => None
  | c :: d =>
      if Ascii.eqb c ";" then (if empty then None else Some d)
      else if Ascii.eqb c "(" || Ascii.eqb c ")" || Ascii.eqb c "[" then None
      else name_rest false d
  end.

Fixpoint skip_brackets (d : chars) : chars :=
  match d with
  | c :: d' => if Ascii.eqb c "[" then skip_brackets d' else d
  | [] => []
  end.

(** One descriptor type and the text after it. The brackets of an array are
    consumed by a loop, so the element's call is the last one: [depth] 2 is
    enough. *)
Fixpoint parseTypeAt_ (depth : nat) (d : chars) (voidOk subIntOk : bool)
    : option (RType * chars) :=
  match depth, d with
  | O, _ | _, [] => None
  | S depth, c :: rest =>
      if Ascii.eqb c "V" then (if voidOk then Some (RType.Bottom, rest) else None)
      else if Ascii.eqb c "I" then Some (RType.Int, rest)
      else if Ascii.eqb c "J" then Some (RType.Long, rest)
      else if Ascii.eqb c "F" then Some (RType.Float, rest)
      else if Ascii.eqb c "D" then Some (RType.Double, rest)
      else if Ascii.eqb c "L" then
        match name_rest true rest with
        | None => None
        | Some rest => Some (RType.Ref, rest)
        end
      else if Ascii.eqb c "[" then
        match parseTypeAt_ depth (skip_brackets d) false true with
        | None => None
        | Some (_, rest) => Some (RType.Ref, rest)
        end
      else if Ascii.eqb c "Z" || Ascii.eqb c "B" || Ascii.eqb c "C" || Ascii.eqb c "S" then
        (if subIntOk then Some (RType.Int, rest) else None)
      else None
  end.

Definition parseTypeAt (d : chars) (voidOk subIntOk : bool) : option (RType * chars) :=
  parseTypeAt_ 2 d voidOk subIntOk.

(** The parameter section after [(], up to its [)]. Every type consumes a
    character, so the length bounds the loop. *)
Fixpoint walkParams_ (fuel : nat) (d : chars) (count : N) : option (N * chars) :=
  match fuel, d with
  | O, _ | _, [] => None
  | S fuel, c :: _ =>
      if Ascii.eqb c ")" then Some (count, d)
      else match parseTypeAt d false false with
           | None => None
           | Some (_, rest) => walkParams_ fuel rest (count + 1)
           end
  end.

Definition walkParams (d : chars) : option (N * chars) := walkParams_ (List.length d) d 0.

(** The second pass of [parseParams]. *)
Fixpoint collectParams (fuel : nat) (d : chars) (out : list RType) : bool * list RType :=
  match fuel, d with
  | O, _ | _, [] => (true, out)
  | S fuel, c :: _ =>
      if Ascii.eqb c ")" then (true, out)
      else match parseTypeAt d false false with
           | None => (false, [])
           | Some (t, rest) => collectParams fuel rest (out ++ [t])
           end
  end.

Definition parseParams (descriptor : string) (out : list RType) : bool * list RType :=
  match chars_of descriptor with
  | [] => (false, [])
  | c :: d =>
      if negb (Ascii.eqb c "(") then (false, [])
      else match walkParams d with
           | None => (false, [])
           | Some _ => collectParams (List.length d) d out
           end
  end.

Definition parseReturn (descriptor : string) : RType :=
  match chars_of descriptor with
  | [] => RType.Bottom
  | c :: d =>
      if negb (Ascii.eqb c "(") then RType.Bottom
      else match walkParams d with
           | None => RType.Bottom
           | Some (_, rest) =>
               match parseTypeAt (tail rest) true false with
               | Some (t, []) => t
               | _ => RType.Bottom
               end
           end
  end.

Definition paramCount (descriptor : string) : N :=
  match chars_of descriptor with
  | [] => 0
  | c :: d =>
      if negb (Ascii.eqb c "(") then 0
      else match walkParams d with
           | None => 0
           | Some (count, _) => u32 count
           end
  end.

Definition describeType (descriptorType : string) : string :=
  match parseTypeAt (chars_of descriptorType) true false with
  | Some (t, []) =>
      match t with
      | RType.Bottom => "void"
      | RType.Ref => "ref " +:+ descriptorType
      | _ => typeName t
      end
  | _ => "?"
  end.
