(* ===== verification/RbcVerifier.v ===== *)
(** * The RBC verifier

    compiler/rbc/src/Verifier.cpp and include/b2/rbc/Verifier.h: the gate every
    tier relies on. Structural checks on each instruction and handler, then an
    abstract interpretation over basic blocks driven by a worklist, a final sweep
    that reports type errors against the fixpoint, and the check that no local
    changes its type inside a protected range. Messages are the code's. *)

From Stdlib Require Import Ascii.
From stdpp Require Import pretty.
From S2P Require Import Prelude RbcOpcode Rbc.

Local Open Scope N_scope.

Record VerifyDiag := mkDiag { vd_pc : N; vd_message : string }.

Record VerifyResult := mkResult { vr_ok : bool; vr_diags : list VerifyDiag }.

Definition hasErrors (r : VerifyResult) : bool := negb (vr_ok r).

Definition kMaxDiags : N := 100.
Definition kMaxU16 : N := 65535.
Definition kOpBudget : N := N.shiftl 1 30.
Definition kMaxStateSlots : N := N.shiftl 1 28.
Definition kMaxBreakpoints : N := N.shiftl 1 23.

(** ** Descriptor scanning *)

(** The text after the next [;]. *)
Fixpoint after_semi (d : chars) : option chars :=
  match d with
  | [] => None
  | c :: d => if Ascii.eqb c ";" then Some d else after_semi d
  end.

(** The text after a class name that is not empty and its [;]. *)
Definition class_rest (d : chars) : option chars :=
  match d with
  | [] => None
  | c :: _ => if Ascii.eqb c ";" then None else after_semi d
  end.

Definition is_any (c : ascii) (l : chars) : bool := existsb (Ascii.eqb c) l.

(** One field type and the text after it. *)
Definition scanField (s : chars) : option (RType * chars) :=
  match s with
  | [] => None
  | c :: rest =>
      if is_any c ["I"; "Z"; "B"; "C"; "S"]%char then Some (RType.Int, rest)
      else if Ascii.eqb c "J" then Some (RType.Long, rest)
      else if Ascii.eqb c "F" then Some (RType.Float, rest)
      else if Ascii.eqb c "D" then Some (RType.Double, rest)
      else if Ascii.eqb c "L" then
        match class_rest rest with
        | None => None
        | Some rest => Some (RType.Ref, rest)
        end
      else if Ascii.eqb c "[" then
        match skip_brackets rest with
        | [] => None
        | e :: rest =>
            if Ascii.eqb e "L" then
              match class_rest rest with
              | None => None
              | Some rest => Some (RType.Ref, rest)
              end
            else if is_any e ["I"; "J"; "F"; "D"; "Z"; "B"; "C"; "S"]%char
            then Some (RType.Ref, rest)
            else None
        end
      else None
  end.

Record RetScan := mkRet { rs_ok : bool; rs_isVoid : bool; rs_type : RType }.

Definition badRet : RetScan := mkRet false false RType.Bottom.

(** The parameter loop of [scanMethodDesc]: the text from the [)] on. *)
Fixpoint scanParams (fuel : nat) (d : chars) : option chars :=
  match fuel, d with
  | O, _ | _, [] => None
  | S fuel, c :: _ =>
      if Ascii.eqb c ")" then Some d
      else match scanField d with
           | None => None
           | Some (_, rest) => scanParams fuel rest
           end
  end.

Definition scanMethodDesc (d : string) : RetScan :=
  match chars_of d with
  | [] => badRet
  | c :: rest =>
      if negb (Ascii.eqb c "(") then badRet
      else
        match scanParams (List.length rest) rest with
        | None | Some [] => badRet
        | Some (_ :: ret) =>
            match ret with
            | [] => badRet
            | c :: tl =>
                if Ascii.eqb c "V" && bool_decide (tl = []) then mkRet true true RType.Bottom
                else match scanField ret with
                     | Some (t, []) => mkRet true false t
                     | _ => badRet
                     end
            end
        end
  end.

Definition retName (rs : RetScan) : string :=
  if rs_isVoid rs then "void" else typeName (rs_type rs).

(** ** Operand layout *)

Record RegUse := mkUse { ru_dst : bool; ru_a : bool; ru_b : bool }.

Definition regUse (s : Sig) : RegUse :=
  match s with
  | Sig.None => mkUse false false false
  | Sig.Reg => mkUse false true false
  | Sig.RegImm => mkUse true false false
  | Sig.RegCp => mkUse true false false
  | Sig.RegSlot => mkUse true false false
  | Sig.SlotReg => mkUse false true false
  | Sig.RegReg => mkUse true true false
  | Sig.RegRegReg => mkUse true true true
  | Sig.RegRegImm => mkUse true true false
  | Sig.RegRegCp => mkUse true true false
  | Sig.RegRegRegCp => mkUse true true true
  | Sig.Branch => mkUse false false false
  | Sig.RegBranch => mkUse false true false
  | Sig.RegRegBranch => mkUse false true true
  | Sig.RegCpBranch => mkUse false true false
  | Sig.Call => mkUse true true false
  | Sig.CallQuick => mkUse true true false
  | Sig.Guard => mkUse false true false
  | Sig.GuardCp => mkUse false true false
  | Sig.Trap => mkUse false false false
  end.

Definition sigUsesCpIndex (s : Sig) : bool :=
  match s with
  | Sig.RegCp | Sig.RegRegCp | Sig.RegRegRegCp | Sig.Call | Sig.RegCpBranch => true
  | _ => false
  end.

Definition isBranchSig (s : Sig) : bool :=
  match s with Sig.Branch | Sig.RegBranch | Sig.RegRegBranch => true | _ => false end.

Definition isReturnOp (op : Op) : bool :=
  match op with
  | Op.Return | Op.Ireturn | Op.Lreturn | Op.Freturn | Op.Dreturn | Op.Areturn => true
  | _ => false
  end.

Definition canFallThrough (op : Op) : bool :=
  match op with
  | Op.Goto | Op.Tableswitch | Op.Lookupswitch | Op.Athrow | Op.DeoptTrap
  | Op.Return | Op.Ireturn | Op.Lreturn | Op.Freturn | Op.Dreturn | Op.Areturn => false
  | _ => true
  end.

Definition is_kind (k : Kind) (l : list Kind) : bool := bool_decide (k ∈ l).

Definition cpKindOk (op : Op) (k : Kind) : bool :=
  match op with
  | Op.Lconst => is_kind k [Kind.Int64]
  | Op.Dconst => is_kind k [Kind.Double]
  | Op.Ldc => is_kind k [Kind.String; Kind.Class; Kind.MethodType; Kind.MethodHandle]
  | Op.New | Op.AnewArray | Op.Checkcast | Op.Instanceof | Op.Multianewarray =>
      is_kind k [Kind.Class]
  | Op.Getfield | Op.Putfield | Op.Getstatic | Op.Putstatic => is_kind k [Kind.FieldRef]
  | Op.Invokevirtual | Op.Invokespecial => is_kind k [Kind.MethodRef]
  | Op.Invokeinterface | Op.Invokestatic => is_kind k [Kind.MethodRef; Kind.InterfaceMethodRef]
  | Op.Invokedynamic => is_kind k [Kind.InvokeDynamic]
  | Op.Tableswitch | Op.Lookupswitch => is_kind k [Kind.SwitchTable]
  | Op.GuardClass => is_kind k [Kind.Class]
  | _ => true
  end.

Definition expectedCpName (op : Op) : string :=
  match op with
  | Op.Lconst => "long"
  | Op.Dconst => "double"
  | Op.Ldc => "string, class, methodtype or methodhandle"
  | Op.New | Op.AnewArray | Op.Checkcast | Op.Instanceof | Op.Multianewarray
  | Op.GuardClass => "class"
  | Op.Getfield | Op.Putfield | Op.Getstatic | Op.Putstatic => "field"
  | Op.Invokevirtual | Op.Invokespecial => "method"
  | Op.Invokeinterface | Op.Invokestatic => "method or interface method"
  | Op.Invokedynamic => "invoke dynamic"
  | Op.Tableswitch | Op.Lookupswitch => "switch table"
  | _ => "any"
  end.

(** ** Diagnostics *)

Abbreviation diags := (list VerifyDiag).

Definition full (sink : diags) : bool := kMaxDiags <=? vlen sink.

Definition add (sink : diags) (pc : N) (msg : string) : diags :=
  if kMaxDiags <=? vlen sink then sink else sink ++ [mkDiag pc msg].

Definition add_all (sink : diags) (pc : N) (msgs : list string) : diags :=
  foldl (fun sink msg => add sink pc msg) sink msgs.

(** [if (cond) sink.add(pc, msg);] *)
Definition when (cond : bool) (msg : string) : list string := if cond then [msg] else [].

Definition operandMsg (pc : N) (opName : string) (expected : RType) (slot : N)
    (found : RType) (isLocal : bool) : string :=
  "pc " +:+ pretty pc +:+ ": " +:+ opName +:+ " expects " +:+ typeName expected +:+ " in " +:+
  (if isLocal then "l" else "r") +:+ pretty slot +:+ ", found " +:+ typeName found.

(** ** Loops *)

(** [for (x : l) { if (!go(s)) break; s = body(x, s); }] *)
Fixpoint for_while {A St} (go : St -> bool) (body : A -> St -> St) (l : list A) (s : St) : St :=
  match l with
  | [] => s
  | x :: l => if go s then for_while go body l (body x s) else s
  end.

(** A loop whose body says whether to break. *)
Fixpoint for_break {A St} (body : A -> St -> bool * St) (l : list A) (s : St) : St :=
  match l with
  | [] => s
  | x :: l => let '(stop, s) := body x s in if stop then s else for_break body l s
  end.

(** ** Switch payloads *)

(** [targetOk]: one candidate target, added to the verdict, the messages and the
    valid targets so far. *)
Definition targetOk (n : N) (acc : bool * list string * list N) (t : Z)
    : bool * list string * list N :=
  let '(ok, msgs, ts) := acc in
  if (t <? 0)%Z || (n <=? Z.to_N t) then
    (false, msgs ++ ["switch target " +:+ pretty t +:+ " out of range (code size " +:+
                     pretty n +:+ ")"], ts)
  else (ok, msgs, ts ++ [Z.to_N t]).

Definition targetsOk (n : N) (l : list Z) : bool * list string * list N :=
  foldl (targetOk n) (true, [], []) l.

Definition int_at (v : list Z) (i : N) : Z := default 0%Z (vget v i).

Definition tableswitch_bad_size (v : list Z) : string :=
  "malformed tableswitch payload (size " +:+ pretty (vlen v) +:+ ")".

Definition lookupswitch_bad_size (v : list Z) : string :=
  "malformed lookupswitch payload (size " +:+ pretty (vlen v) +:+ ")".

Definition validateTableswitch (n : N) (v : list Z) : bool * list string * list N :=
  let sz := vlen v in
  if sz <? 3 then (false, [tableswitch_bad_size v], [])
  else
    let low := int_at v 0 in
    let high := int_at v 1 in
    let disorder := (high <? low)%Z in
    let wrong := negb (3 + (high - low) + 1 =? Z.of_N sz)%Z in
    let msgs := when disorder ("tableswitch low " +:+ pretty low +:+ " exceeds high " +:+
                               pretty high) ++
                when wrong (tableswitch_bad_size v) in
    if disorder || wrong then (false, msgs, [])
    else targetsOk n (drop 2 v).

(** Entry [i]: its match against the previous one, then its target. *)
Definition lookup_entry (n : N) (v : list Z) (i : N) : bool * list string * list N :=
  let disorder := (0 <? i) && (int_at v (2 + 2 * i) <=? int_at v (2 + 2 * (i - 1)))%Z in
  let '(ok, msgs, ts) := targetsOk n [int_at v (3 + 2 * i)] in
  (negb disorder && ok,
   when disorder ("lookupswitch matches not strictly increasing at entry " +:+ pretty i) ++ msgs,
   ts).

Definition both (x y : bool * list string * list N) : bool * list string * list N :=
  let '(ok, msgs, ts) := x in
  let '(ok', msgs', ts') := y in
  (ok && ok', msgs ++ msgs', ts ++ ts').

Definition validateLookupswitch (n : N) (v : list Z) : bool * list string * list N :=
  let sz := vlen v in
  if sz <? 2 then (false, [lookupswitch_bad_size v], [])
  else
    let cnt := int_at v 0 in
    if (cnt <? 0)%Z || negb (2 + 2 * cnt =? Z.of_N sz)%Z
    then (false, [lookupswitch_bad_size v], [])
    else
      both (foldl both (true, [], []) (lookup_entry n v <$> indices (Z.to_N cnt)))
           (targetsOk n [int_at v 1]).

(** Validity, messages and valid targets of a switch. A caller without a sink
    drops the messages. *)
Definition validateSwitch (m : Method) (x : Ins) : bool * list string * list N :=
  match vget (m_cp m) (i_imm x) with
  | None => (false, [], [])
  | Some c =>
      if negb (bool_decide (c_kind c = Kind.SwitchTable)) then (false, [], [])
      else if i_op x =? Op.code Op.Tableswitch
           then validateTableswitch (vlen (m_code m)) (c_ints c)
           else validateLookupswitch (vlen (m_code m)) (c_ints c)
  end.

Definition switchTargets (m : Method) (x : Ins) : list N := snd (validateSwitch m x).

(** ** Phase 0 and 1: structure *)

Definition phase0 (m : Method) : diags :=
  add_all [] 0
    (when (bool_decide (m_code m = []) && negb (isAbstract m)) "empty method body" ++
     when (negb (bool_decide (m_code m = [])) && isAbstract m)
       "abstract method must have empty code" ++
     when (kMaxU16 <? m_numRegs m) ("numRegs " +:+ pretty (m_numRegs m) +:+ " exceeds 65535") ++
     when (kMaxU16 <? m_numLocals m)
       ("numLocals " +:+ pretty (m_numLocals m) +:+ " exceeds 65535")).

Definition regRange (m : Method) (r : N) : string :=
  "register r" +:+ pretty r +:+ " out of range (numRegs=" +:+ pretty (m_numRegs m) +:+ ")".

Definition isCallSig (s : Sig) : bool :=
  match s with Sig.Call | Sig.CallQuick => true | _ => false end.

Definition isSlotSig (s : Sig) : bool :=
  match s with Sig.RegSlot | Sig.SlotReg => true | _ => false end.

Definition usesCp (op : Op) : bool :=
  sigUsesCpIndex (oi_sig (info op)) || bool_decide (op = Op.GuardClass).

Definition checkCp (m : Method) (op : Op) (imm : N) : list string :=
  match vget (m_cp m) imm with
  | None => ["constant pool index " +:+ pretty imm +:+ " out of range (size " +:+
             pretty (vlen (m_cp m)) +:+ ")"]
  | Some c =>
      when (negb (cpKindOk op (c_kind c)))
        ("constant pool entry " +:+ pretty imm +:+ " is " +:+ kindName c +:+ ", but " +:+
         oi_name (info op) +:+ " requires " +:+ expectedCpName op)
  end.

(** The messages of one instruction. *)
Definition checkIns (m : Method) (pc : N) (x : Ins) : list string :=
  match of_code (i_op x) with
  | None => ["invalid opcode " +:+ pretty (i_op x) +:+ " at pc " +:+ pretty pc]
  | Some op =>
      let oi := info op in
      let ru := regUse (oi_sig oi) in
      let n := vlen (m_code m) in
      when (ru_dst ru && (m_numRegs m <=? i_dst x)) (regRange m (i_dst x)) ++
      when (ru_a ru && (m_numRegs m <=? i_a x)) (regRange m (i_a x)) ++
      when (ru_b ru && (m_numRegs m <=? i_b x)) (regRange m (i_b x)) ++
      when (isCallSig (oi_sig oi) && negb (i_b x =? 0) && (i_a x <? m_numRegs m) &&
            (m_numRegs m <? i_a x + i_b x)) (regRange m (m_numRegs m)) ++
      when (isSlotSig (oi_sig oi) && (m_numLocals m <=? i_imm x))
        ("local slot l" +:+ pretty (i_imm x) +:+ " out of range (numLocals=" +:+
         pretty (m_numLocals m) +:+ ")") ++
      when (bool_decide (op = Op.NewArray) && ((i_imm x <? 4) || (11 <? i_imm x)))
        ("invalid array type code " +:+ pretty (i_imm x) +:+ " at pc " +:+ pretty pc) ++
      (if usesCp op then checkCp m op (i_imm x) else []) ++
      when (isBranchSig (oi_sig oi) && (n <=? i_imm x))
        ("branch target " +:+ pretty (i_imm x) +:+ " out of range (code size " +:+
         pretty n +:+ ")") ++
      (if bool_decide (oi_sig oi = Sig.RegCpBranch)
       then snd (fst (validateSwitch m x)) else [])
  end.

Definition ins_at (m : Method) (pc : N) : Ins := default (mkIns 0 0 0 0 0) (vget (m_code m) pc).

Definition phase1 (m : Method) (sink : diags) : diags :=
  for_while (fun sink => negb (full sink))
    (fun pc sink => add_all sink pc (checkIns m pc (ins_at m pc)))
    (indices (vlen (m_code m))) sink.

Definition rangeName (h : ExceptionHandler) : string :=
  "exception handler range [" +:+ pretty (h_start h) +:+ "," +:+ pretty (h_end h) +:+ ")".

Definition badCatchType (m : Method) (h : ExceptionHandler) : bool :=
  (h_catchType h <? -1)%Z ||
  ((0 <=? h_catchType h)%Z &&
   match vget (m_cp m) (Z.to_N (h_catchType h)) with
   | None => true
   | Some c => negb (bool_decide (c_kind c = Kind.Class))
   end).

Definition checkHandler (m : Method) (h : ExceptionHandler) : list string :=
  let n := vlen (m_code m) in
  (if (h_end h <? h_start h) || (n <? h_end h) then [rangeName h +:+ " invalid"]
   else when (h_start h =? h_end h) (rangeName h +:+ " is empty")) ++
  when (n <=? h_handler h)
    ("exception handler target " +:+ pretty (h_handler h) +:+ " out of range") ++
  when (badCatchType m h)
    ("exception handler catch type " +:+ pretty (h_catchType h) +:+ " is not a Class constant").

Definition phase1b (m : Method) (sink : diags) : diags :=
  for_while (fun sink => negb (full sink)) (fun h sink => add_all sink 0 (checkHandler m h))
    (m_handlers m) sink.

(** ** Basic blocks *)

Definition isTerminatorIns (op : Op) : bool :=
  isBranchSig (oi_sig (info op)) || bool_decide (oi_sig (info op) = Sig.RegCpBranch) ||
  isReturnOp op || bool_decide (op = Op.Athrow) || bool_decide (op = Op.DeoptTrap).

(** The leaders an instruction makes. *)
Definition leadersOf (m : Method) (pc : N) : list N :=
  let n := vlen (m_code m) in
  let x := ins_at m pc in
  match of_code (i_op x) with
  | None => []
  | Some op =>
      let sg := oi_sig (info op) in
      (if isBranchSig sg && (i_imm x <? n) then [i_imm x] else []) ++
      (if bool_decide (sg = Sig.RegCpBranch)
       then List.filter (fun t => t <? n) (switchTargets m x) else []) ++
      (if isTerminatorIns op && (pc + 1 <? n) then [pc + 1] else [])
  end.

Definition leader (m : Method) : list bool :=
  let n := vlen (m_code m) in
  foldl (fun l t => vset l t true) (replicate (N.to_nat n) false)
    (0 :: concat (leadersOf m <$> indices n) ++
     List.filter (fun t => t <? n) (h_handler <$> m_handlers m)).

Definition starts (m : Method) : list N :=
  let l := leader m in
  List.filter (fun pc => default false (vget l pc)) (indices (vlen (m_code m))).

(** What the block loops read: the starts, the block of each instruction and
    the successors of each block. *)
Record Blocks := mkBlocks { bl_starts : list N; bl_blockOf : list N; bl_succ : list (list N) }.

Definition start_of (st : list N) (b : N) : N := default 0 (vget st b).

Definition end_of (n : N) (st : list N) (b : N) : N :=
  if b + 1 <? vlen st then start_of st (b + 1) else n.

Definition span (n : N) (st : list N) (b : N) : list N :=
  (fun i => start_of st b + i) <$> indices (end_of n st b - start_of st b).

Definition blockOf_table (n : N) (st : list N) : list N :=
  concat ((fun b => (fun _ => b) <$> span n st b) <$> indices (vlen st)).

Definition block_at (blockOf : list N) (pc : N) : N := default 0 (vget blockOf pc).

(** [addSucc]: in range, and not the block added last. *)
Definition addSucc (n : N) (blockOf : list N) (l : list N) (target : N) : list N :=
  if n <=? target then l
  else
    let tb := block_at blockOf target in
    if bool_decide (last l = Some tb) then l else l ++ [tb].

(** The instructions that may run after [pc]. *)
Definition nextPcs (m : Method) (pc : N) : list N :=
  let n := vlen (m_code m) in
  let x := ins_at m pc in
  match of_code (i_op x) with
  | None => []
  | Some op =>
      let sg := oi_sig (info op) in
      (if canFallThrough op && (pc + 1 <? n) then [pc + 1] else []) ++
      (if isBranchSig sg then [i_imm x] else []) ++
      (if bool_decide (sg = Sig.RegCpBranch) then switchTargets m x else [])
  end.

Definition succ_of (m : Method) (st blockOf : list N) (b : N) : list N :=
  let n := vlen (m_code m) in
  foldl (addSucc n blockOf) [] (nextPcs m (end_of n st b - 1)).

Definition blocks (m : Method) : Blocks :=
  let n := vlen (m_code m) in
  let st := starts m in
  let bo := blockOf_table n st in
  mkBlocks st bo (succ_of m st bo <$> indices (vlen st)).

(** ** Abstract states *)

Record FlowState := mkFlow { fl_regs : list RType; fl_locals : list RType }.

#[export] Instance FlowState_eq_dec : EqDecision FlowState.
Proof. solve_decision. Defined.

Definition bottoms (k : N) : list RType := replicate (N.to_nat k) RType.Bottom.

(** The state at entry, unless the parameters need more locals than there are. *)
Definition entryState (m : Method) (params : list RType) : option FlowState :=
  let base := if isStatic m then 0 else 1 in
  let needed := base + vlen params in
  if m_numLocals m <? needed then None
  else
    let locals := (if base =? 1 then [RType.Ref] else []) ++ params in
    Some (mkFlow (bottoms (m_numRegs m)) (locals ++ bottoms (m_numLocals m - vlen locals))).

Definition reg (s : FlowState) (r : N) : RType := default RType.Bottom (vget (fl_regs s) r).
Definition local (s : FlowState) (l : N) : RType := default RType.Bottom (vget (fl_locals s) l).

(** [setDst], which checks the bound. *)
Definition setReg (s : FlowState) (r : N) (t : RType) : FlowState :=
  mkFlow (vset (fl_regs s) r t) (fl_locals s).

Definition setLocal (s : FlowState) (l : N) (t : RType) : FlowState :=
  mkFlow (fl_regs s) (vset (fl_locals s) l t).

Definition cpAt (m : Method) (idx : N) (op : Op) : option Const :=
  match vget (m_cp m) idx with
  | None => None
  | Some c => if cpKindOk op (c_kind c) then Some c else None
  end.

Definition agrees (op : Op) (ret : RetScan) : bool :=
  match op with
  | Op.Return => rs_isVoid ret
  | Op.Ireturn => negb (rs_isVoid ret) && bool_decide (rs_type ret = RType.Int)
  | Op.Lreturn => negb (rs_isVoid ret) && bool_decide (rs_type ret = RType.Long)
  | Op.Freturn => negb (rs_isVoid ret) && bool_decide (rs_type ret = RType.Float)
  | Op.Dreturn => negb (rs_isVoid ret) && bool_decide (rs_type ret = RType.Double)
  | _ => negb (rs_isVoid ret) && bool_decide (rs_type ret = RType.Ref)
  end.

(** The type a descriptor-typed or table-typed instruction writes, if any, and
    its message when the descriptor is malformed. *)
Definition resultOf (m : Method) (pc : N) (op : Op) (imm : N) : option RType * list string :=
  match op with
  | Op.Getfield | Op.Getstatic =>
      match cpAt m imm op with
      | None => (None, [])
      | Some c =>
          match scanField (chars_of (c_str3 c)) with
          | Some (t, []) => (Some t, [])
          | _ => (Some RType.Ref, ["malformed FieldRef descriptor at pc " +:+ pretty pc])
          end
      end
  | Op.Invokevirtual | Op.Invokespecial | Op.Invokestatic | Op.Invokeinterface
  | Op.Invokedynamic =>
      match cpAt m imm op with
      | None => (None, [])
      | Some c =>
          let indy := bool_decide (op = Op.Invokedynamic) in
          let rs := scanMethodDesc (if indy then c_str2 c else c_str3 c) in
          if negb (rs_ok rs) then
            (Some RType.Ref,
             [(if indy then "malformed InvokeDynamic descriptor at pc "
               else "malformed MethodRef descriptor at pc ") +:+ pretty pc])
          else (if rs_isVoid rs then None else Some (rs_type rs), [])
      end
  | _ => (match oi_result (info op) with RType.Bottom => None | t => Some t end, [])
  end.

Definition setDst (s : FlowState) (dst : N) (t : option RType) : FlowState :=
  match t with None => s | Some t => setReg s dst t end.

(** Some operand is not a register of the state. *)
Definition regsMissing (ru : RegUse) (x : Ins) (s : FlowState) : bool :=
  let n := vlen (fl_regs s) in
  (ru_dst ru && (n <=? i_dst x)) || (ru_a ru && (n <=? i_a x)) || (ru_b ru && (n <=? i_b x)).

(** [sink.add(pc, operandMsg(...))] when the operand does not fit. *)
Definition operandCheck (uses : bool) (want : RType) (pc : N) (name : string) (slot : N)
    (found : RType) (isLocal : bool) : list string :=
  when (uses && negb (bool_decide (want = RType.Bottom)) && negb (isAssignable found want))
    (operandMsg pc name want slot found isLocal).

(** The operands of all but calls, whose [a] and [b] are a base and a count. *)
Definition operandMsgs (pc : N) (op : Op) (x : Ins) (s : FlowState) : list string :=
  let oi := info op in
  let ru := regUse (oi_sig oi) in
  if isCallSig (oi_sig oi) then []
  else
    operandCheck (ru_a ru) (oi_operandA oi) pc (oi_name oi) (i_a x) (reg s (i_a x)) false ++
    operandCheck (ru_b ru) (oi_operandB oi) pc (oi_name oi) (i_b x) (reg s (i_b x)) false.

(** One abstract step: the new state, the messages it reports, and the local it
    stores to with the stored type. *)
Definition stepIns (m : Method) (ret : RetScan) (pc : N) (x : Ins) (s : FlowState)
    : FlowState * list string * option (N * RType) :=
  match of_code (i_op x) with
  | None => (s, [], None)
  | Some op =>
      let oi := info op in
      let ru := regUse (oi_sig oi) in
      if regsMissing ru x s then (s, [], None)
      else
        let operands := operandMsgs pc op x s in
        if bool_decide (op = Op.Iinc) then
          (setReg s (i_dst x) RType.Int,
           operands ++ operandCheck true RType.Int pc (oi_name oi) (i_dst x) (reg s (i_dst x)) false,
           None)
        else if bool_decide (oi_sig oi = Sig.RegSlot) then
          if vlen (fl_locals s) <=? i_imm x then (s, operands, None)
          else
            (setReg s (i_dst x) (oi_result oi),
             operands ++ operandCheck true (oi_result oi) pc (oi_name oi) (i_imm x)
                           (local s (i_imm x)) true,
             None)
        else if bool_decide (oi_sig oi = Sig.SlotReg) then
          if vlen (fl_locals s) <=? i_imm x then (s, operands, None)
          else
            let stored := reg s (i_a x) in
            (setLocal s (i_imm x) stored, operands, Some (i_imm x, stored))
        else
          let '(t, bad) := resultOf m pc op (i_imm x) in
          (setDst s (i_dst x) t,
           operands ++
           when (isReturnOp op && negb (agrees op ret))
             ("pc " +:+ pretty pc +:+ ": " +:+ oi_name oi +:+
              " does not match method return type " +:+ retName ret) ++ bad,
           None)
  end.

Definition stepTypes (m : Method) (ret : RetScan) (pc : N) (s : FlowState) : FlowState :=
  fst (fst (stepIns m ret pc (ins_at m pc) s)).

Definition stepMsgs (m : Method) (ret : RetScan) (pc : N) (s : FlowState) : list string :=
  snd (fst (stepIns m ret pc (ins_at m pc) s)).

(** ** The worklist *)

(** The variables of the dataflow loop. [ops] stays below 2^64: it is bounded by
    the budget plus the work of one block. *)
Record Work := mkWork {
  w_inStates : list FlowState; w_visited : list bool; w_inQueue : list bool;
  w_queue : list N; w_ops : N; w_dead : bool; w_stateSlots : N; w_sink : diags
}.

Definition die (w : Work) (msg : string) : Work :=
  mkWork (w_inStates w) (w_visited w) (w_inQueue w) (w_queue w) (w_ops w) true
    (w_stateSlots w) (add (w_sink w) 0 msg).

Definition set_ops (w : Work) (ops : N) : Work :=
  mkWork (w_inStates w) (w_visited w) (w_inQueue w) (w_queue w) ops (w_dead w)
    (w_stateSlots w) (w_sink w).

Definition tick (w : Work) : Work :=
  let w' := set_ops w (w_ops w + 1) in
  if (kOpBudget <? w_ops w + 1) && negb (w_dead w)
  then die w' "verification budget exceeded" else w'.

Definition ticks (k : N) (w : Work) : Work := Nat.iter (N.to_nat k) tick w.

Definition flagged (l : list bool) (b : N) : bool := default false (vget l b).

Definition enq (b : N) (w : Work) : Work :=
  if flagged (w_inQueue w) b then w
  else mkWork (w_inStates w) (w_visited w) (vset (w_inQueue w) b true) (w_queue w ++ [b])
         (w_ops w) (w_dead w) (w_stateSlots w) (w_sink w).

Definition set_state (b : N) (s : FlowState) (w : Work) : Work :=
  mkWork (vset (w_inStates w) b s) (w_visited w) (w_inQueue w) (w_queue w) (w_ops w)
    (w_dead w) (w_stateSlots w) (w_sink w).

Definition state_of (w : Work) (b : N) : FlowState :=
  default (mkFlow [] []) (vget (w_inStates w) b).

(** The first edge into a block assigns its state; [false] when there are too
    many states. *)
Definition seed (m : Method) (b : N) (s : FlowState) (w : Work) : bool * Work :=
  let w := set_state b s w in
  let slots := w_stateSlots w + (m_numRegs m + m_numLocals m) in
  let w := mkWork (w_inStates w) (w_visited w) (w_inQueue w) (w_queue w) (w_ops w)
             (w_dead w) slots (w_sink w) in
  if kMaxStateSlots <? slots then (false, die w "method too large to verify")
  else (true, mkWork (w_inStates w) (vset (w_visited w) b true) (w_inQueue w) (w_queue w)
                (w_ops w) (w_dead w) (w_stateSlots w) (w_sink w)).

(** At a handler's entry the exception is in [r0] and no other register is live. *)
Definition edgeRegs (k : nat) : list RType :=
  match k with O => [] | S k => RType.Ref :: replicate k RType.Bottom end.

Definition handlerState (m : Method) (locals : list RType) : FlowState :=
  mkFlow (edgeRegs (N.to_nat (m_numRegs m))) locals.

(** The slot-wise merge, which stops at the shorter vector. *)
Fixpoint joinSlots (dst src : list RType) : list RType :=
  match dst, src with
  | d :: dst, s :: src => join d s :: joinSlots dst src
  | dst, _ => dst
  end.

Definition joinStates (dst src : FlowState) : FlowState :=
  mkFlow (joinSlots (fl_regs dst) (fl_regs src)) (joinSlots (fl_locals dst) (fl_locals src)).

(** The elementary operations of a loop over [dst] that breaks after [src]. *)
Definition loopTicks (dst src : list RType) : N :=
  if vlen dst <=? vlen src then vlen dst else vlen src + 1.

(** Merge into the state of a visited block, and whether it changed. *)
Definition mergeState (b : N) (s : FlowState) (k : N) (w : Work) : bool * Work :=
  let old := state_of w b in
  let new := joinStates old s in
  (negb (bool_decide (new = old)), set_state b new (ticks k w)).

Definition joinInto (b : N) (s : FlowState) (w : Work) : bool * Work :=
  let old := state_of w b in
  mergeState b s (loopTicks (fl_regs old) (fl_regs s) + loopTicks (fl_locals old) (fl_locals s)) w.

(** The exception edge into a visited handler. *)
Definition joinHandler (b : N) (locals : list RType) (w : Work) : bool * Work :=
  let old := state_of w b in
  mergeState b (mkFlow (edgeRegs (length (fl_regs old))) locals)
    (vlen (fl_regs old) + N.min (vlen (fl_locals old)) (vlen locals)) w.

(** A handler entry the structural checks have not flagged. *)
Definition soundHandler (m : Method) (h : ExceptionHandler) : bool :=
  negb ((h_end h <=? h_start h) || (vlen (m_code m) <? h_end h) ||
        (vlen (m_code m) <=? h_handler h)).

Definition covers (h : ExceptionHandler) (pc : N) : bool := (h_start h <=? pc) && (pc <? h_end h).

(** Flow into block [b]: seed it, or merge and requeue it on a change. [true]
    stops the loop. *)
Definition flowInto (seeding : Work -> bool * Work) (merging : Work -> bool * Work)
    (b : N) (w : Work) : bool * Work :=
  if negb (flagged (w_visited w) b) then
    let '(ok, w) := seeding w in
    if ok then (false, enq b w) else (true, w)
  else
    let '(changed, w) := merging w in
    (false, if changed then enq b w else w).

Definition handlerEdge (m : Method) (bl : Blocks) (pc : N) (locals : list RType)
    (h : ExceptionHandler) (w : Work) : bool * Work :=
  let w := tick w in
  if negb (soundHandler m h) then (false, w)
  else if negb (covers h pc) then (false, w)
  else
    let hb := block_at (bl_blockOf bl) (h_handler h) in
    flowInto (seed m hb (handlerState m locals)) (joinHandler hb locals) hb w.

(** One instruction of a block: its exception edges, then its effect. *)
Definition flowIns (m : Method) (ret : RetScan) (bl : Blocks) (pc : N) (x : FlowState * Work)
    : bool * (FlowState * Work) :=
  let '(s, w) := x in
  if w_dead w then (true, (s, w))
  else
    let w := tick w in
    let w := for_break (handlerEdge m bl pc (fl_locals s)) (m_handlers m) w in
    if w_dead w then (true, (s, w)) else (false, (stepTypes m ret pc s, w)).

Definition succEdge (m : Method) (bl : Blocks) (s : FlowState) (b : N) (w : Work) : bool * Work :=
  let w := tick w in
  if vlen (bl_starts bl) <=? b then (false, w)
  else flowInto (seed m b s) (joinInto b s) b w.

Definition block_span (m : Method) (bl : Blocks) (b : N) : list N :=
  span (vlen (m_code m)) (bl_starts bl) b.

(** One block taken from the queue. *)
Definition flowBlock (m : Method) (ret : RetScan) (bl : Blocks) (b : N) (w : Work) : Work :=
  let w := mkWork (w_inStates w) (w_visited w) (vset (w_inQueue w) b false) (w_queue w)
             (w_ops w) (w_dead w) (w_stateSlots w) (w_sink w) in
  let w := tick w in
  let '(s, w) := for_break (flowIns m ret bl) (block_span m bl b) (state_of w b, w) in
  if w_dead w then w
  else for_break (succEdge m bl s) (default [] (vget (bl_succ bl) b)) w.

Definition pop (w : Work) (q : list N) : Work :=
  mkWork (w_inStates w) (w_visited w) (w_inQueue w) q (w_ops w) (w_dead w)
    (w_stateSlots w) (w_sink w).

Fixpoint worklist (fuel : nat) (m : Method) (ret : RetScan) (bl : Blocks) (w : Work)
    : option Work :=
  match w_queue w with
  | [] => Some w
  | b :: q =>
      if w_dead w || full (w_sink w) then Some w
      else match fuel with
           | O => None
           | S fuel => worklist fuel m ret bl (flowBlock m ret bl b (pop w q))
           end
  end.

(** ** The final sweep *)

Record Sweep := mkSweep {
  s_running : list RType; s_bps : list (list (N * RType)); s_bpCount : N;
  s_ops : N; s_dead : bool; s_sink : diags
}.

Definition sweep_die (y : Sweep) : Sweep :=
  mkSweep (s_running y) (s_bps y) (s_bpCount y) (s_ops y) true
    (add (s_sink y) 0 "verification budget exceeded").

Definition sweep_tick (y : Sweep) : Sweep :=
  let y' := mkSweep (s_running y) (s_bps y) (s_bpCount y) (s_ops y + 1) (s_dead y) (s_sink y) in
  if (kOpBudget <? s_ops y + 1) && negb (s_dead y) then sweep_die y' else y'.

(** Local [i] has type [t] from [pc] on: a change point, if that is new. *)
Definition record (pc : N) (i : N) (t : RType) (y : Sweep) : Sweep :=
  match vget (s_running y) i with
  | None => y
  | Some old =>
      if decide (old = t) then y
      else
        let run := vset (s_running y) i t in
        if s_bpCount y <? kMaxBreakpoints then
          mkSweep run (vset (s_bps y) i (default [] (vget (s_bps y) i) ++ [(pc, t)]))
            (s_bpCount y + 1) (s_ops y) (s_dead y) (s_sink y)
        else
          sweep_die (mkSweep run (s_bps y) (s_bpCount y) (s_ops y) (s_dead y) (s_sink y))
  end.

Definition sweepIns (m : Method) (ret : RetScan) (pc : N) (x : FlowState * Sweep)
    : bool * (FlowState * Sweep) :=
  let '(s, y) := x in
  if s_dead y then (true, (s, y))
  else
    let y := sweep_tick y in
    if s_dead y then (false, (s, y))
    else
      let '(s', msgs, stored) := stepIns m ret pc (ins_at m pc) s in
      let y := mkSweep (s_running y) (s_bps y) (s_bpCount y) (s_ops y) (s_dead y)
                 (add_all (s_sink y) pc msgs) in
      (false, (s', match stored with
                   | None => y
                   | Some (l, t) => record (pc + 1) l t y
                   end)).

(** The block's entry types, for methods with handlers. *)
Definition sweepEntry (m : Method) (pc : N) (locals : list RType) (y : Sweep) : Sweep :=
  if bool_decide (m_handlers m = []) then y
  else for_break (fun i y => let y := record pc i (default RType.Bottom (vget locals i)) y in
                             (s_dead y, y))
         (indices (N.min (vlen locals) (vlen (s_running y)))) y.

Definition sweepBlock (m : Method) (ret : RetScan) (bl : Blocks) (w : Work) (b : N) (y : Sweep)
    : Sweep :=
  if negb (flagged (w_visited w) b) then y
  else
    let s := state_of w b in
    let y := sweepEntry m (start_of (bl_starts bl) b) (fl_locals s) y in
    if s_dead y then y
    else snd (for_break (sweepIns m ret) (block_span m bl b) (s, y)).

Definition sweep (m : Method) (ret : RetScan) (bl : Blocks) (w : Work) : Sweep :=
  for_while (fun y => negb (s_dead y) && negb (full (s_sink y)))
    (sweepBlock m ret bl w) (indices (vlen (bl_starts bl)))
    (mkSweep (fl_locals (state_of w 0)) (replicate (N.to_nat (m_numLocals m)) []) 0
       (w_ops w) (w_dead w) (w_sink w)).

(** The first change point after [start], by bisection. *)
Fixpoint bisect (fuel : nat) (l : list (N * RType)) (start lo hi : N) : N :=
  match fuel with
  | O => lo
  | S fuel =>
      if lo <? hi then
        let mid := lo + (hi - lo) / 2 in
        if fst (default (0, RType.Bottom) (vget l mid)) <=? start
        then bisect fuel l start (mid + 1) hi
        else bisect fuel l start lo mid
      else lo
  end.

Definition checkStable (h : ExceptionHandler) (i : N) (l : list (N * RType)) (sink : diags)
    : diags :=
  match vget l (bisect (length l) l (h_start h) 0 (vlen l)) with
  | Some (pc, _) =>
      if pc <? h_end h
      then add sink pc ("local l" +:+ pretty i +:+ " changes type within protected range")
      else sink
  | None => sink
  end.

Definition stability (m : Method) (bps : list (list (N * RType))) (sink : diags) : diags :=
  foldl (fun sink h =>
      if negb (soundHandler m h) then sink
      else foldl (fun sink i => checkStable h i (default [] (vget bps i)) sink) sink
             (indices (vlen bps)))
    sink (m_handlers m).

(** ** The whole verifier *)

Definition fallOff (m : Method) (sink : diags) : diags :=
  let last := vlen (m_code m) - 1 in
  match of_code (i_op (ins_at m last)) with
  | Some op => if canFallThrough op
               then add sink last "control falls off the end of the method" else sink
  | None => sink
  end.

Definition phase2 (fuel : nat) (m : Method) (sink : diags) : option diags :=
  let sink := fallOff m sink in
  let '(ok, params) := parseParams (m_descriptor m) [] in
  let ret := scanMethodDesc (m_descriptor m) in
  if negb ok || negb (rs_ok ret) then Some (add sink 0 "malformed method descriptor")
  else
    match entryState m params with
    | None =>
        Some (add sink 0 ("method parameters require " +:+
                          pretty ((if isStatic m then 0 else 1) + vlen params) +:+
                          " local slots but numLocals=" +:+ pretty (m_numLocals m)))
    | Some entry =>
        let bl := blocks m in
        let nb := N.to_nat (vlen (bl_starts bl)) in
        let w := mkWork (replicate nb (mkFlow [] [])) (replicate nb false) (replicate nb false)
                   [] 0 false 0 sink in
        let '(ok, w) := seed m 0 entry w in
        if negb ok then Some (w_sink w)
        else
          match worklist fuel m ret bl (enq 0 w) with
          | None => None
          | Some w =>
              if w_dead w then Some (w_sink w)
              else
                let y := sweep m ret bl w in
                if s_dead y then Some (s_sink y)
                else Some (stability m (s_bps y) (s_sink y))
          end
    end.

Definition verifyImpl (fuel : nat) (m : Method) : option diags :=
  if 4294967295 <? vlen (m_code m) then Some (add [] 0 "method too large to verify")
  else
    let sink := phase1b m (phase1 m (phase0 m)) in
    if (vlen (m_code m) =? 0) || full sink then Some sink
    else phase2 fuel m sink.

Definition verify (fuel : nat) (m : Method) : option VerifyResult :=
  match verifyImpl fuel m with
  | None => None
  | Some ds => Some (mkResult (bool_decide (ds = [])) ds)
  end.
