(* ===== verification/RbcBlocks.v ===== *)
(** * Basic blocks of the RBC verifier

    The blocks partition the code, every target of a jump starts a block, and
    inside a block control only moves on to the next instruction. *)

From Stdlib Require Import Ascii.
From S2P Require Import Prelude RbcOpcode Rbc RbcVerifier.

Local Open Scope N_scope.

(** ** Leaders *)

Lemma vget_foldl_vset (ts : list N) (l : list bool) (t : N) :
  t < vlen l -> t ∈ ts \/ vget l t = Some true ->
  vget (foldl (fun l t => vset l t true) l ts) t = Some true.
Proof.
  revert l. induction ts as [|u ts IH]; intros l Hlt Ht; cbn [foldl].
  - by destruct Ht as [?%not_elem_of_nil|?].
  - apply IH; [by rewrite vlen_vset|]. rewrite vget_vset. case_decide as Hd; [by right|].
    destruct Ht as [[->|Ht]%elem_of_cons|Ht]; [by destruct Hd|by left|by right].
Qed.

Lemma elem_of_Lfilter {A} (p : A -> bool) l x : x ∈ List.filter p l <-> x ∈ l /\ p x = true.
Proof. by rewrite !list_elem_of_In, filter_In. Qed.

Lemma vlen_replicate {A} k (x : A) : vlen (replicate (N.to_nat k) x) = k.
Proof. unfold vlen. rewrite length_replicate. lia. Qed.

Lemma elem_of_starts m t : t ∈ starts m <-> t < vlen (m_code m) /\ vget (leader m) t = Some true.
Proof.
  unfold starts. rewrite elem_of_Lfilter, elem_of_indices.
  destruct (vget (leader m) t) as [[]|]; naive_solver.
Qed.

(** The pcs the leader pass marks. *)
Lemma leader_starts m t :
  t < vlen (m_code m) ->
  t = 0 \/ (exists pc, pc < vlen (m_code m) /\ t ∈ leadersOf m pc) \/
  (exists h, h ∈ m_handlers m /\ t = h_handler h) ->
  t ∈ starts m.
Proof.
  intros Hlt Ht. apply elem_of_starts. split; [done|]. unfold leader.
  apply vget_foldl_vset; [by rewrite vlen_replicate|]. left.
  rewrite elem_of_cons, elem_of_app, elem_of_Lfilter.
  destruct Ht as [->|[(pc & Hpc & Ht)|(h & Hh & ->)]]; [by left|right; left|right; right].
  - rewrite list_elem_of_In, in_concat. exists (leadersOf m pc). split.
    + apply list_elem_of_In, list_elem_of_fmap. exists pc. split; [done|by apply elem_of_indices].
    + by apply list_elem_of_In.
  - split; [|by apply N.ltb_lt]. apply list_elem_of_fmap. eauto.
Qed.

Lemma indices_sorted k : strictly_sorted (indices k).
Proof.
  unfold indices. generalize 0%nat as a. induction (N.to_nat k) as [|j IH]; intros a; cbn.
  - constructor.
  - constructor; [apply IH|]. apply Forall_forall. intros x (y & -> & Hy%elem_of_seq)%list_elem_of_fmap.
    lia.
Qed.

Lemma starts_sorted m : strictly_sorted (starts m).
Proof.
  unfold starts. generalize (indices_sorted (vlen (m_code m))).
  induction (indices (vlen (m_code m))) as [|x l IH]; cbn; intros Hs; [done|].
  apply StronglySorted_inv in Hs as [Hs Hx]. destruct (default false _); [|by apply IH].
  constructor; [by apply IH|]. apply Forall_forall. intros y [Hy _]%elem_of_Lfilter.
  by apply (proj1 (Forall_forall _ _) Hx).
Qed.

Lemma sorted_lookup (l : list N) i j x y :
  strictly_sorted l -> (i < j)%nat -> l !! i = Some x -> l !! j = Some y -> x < y.
Proof.
  intros Hs. revert i j. induction Hs as [|z l Hs IH Hz]; intros [|i] [|j] Hij Hx Hy; try done; [lia|..].
  - injection Hx as ->. apply (proj1 (Forall_forall _ _) Hz). by eapply list_elem_of_lookup_2.
  - lia.
  - by apply (IH i j); [lia|..].
Qed.

(** ** A sorted list of starts cuts the code into spans *)

Section Spans.
Context (n : N) (st : list N).
Hypothesis Hsorted : strictly_sorted st.
Hypothesis Hbound : forall t, t ∈ st -> t < n.
Hypothesis Hfirst : vget st 0 = Some 0.

Lemma start_of_get b : b < vlen st -> vget st b = Some (start_of st b).
Proof. intros [x Hx]%vget_lt_is_Some. unfold start_of. by rewrite Hx. Qed.

Lemma start_elem b : b < vlen st -> start_of st b ∈ st.
Proof. intros Hb%start_of_get. rewrite vget_lookup in Hb. by eapply list_elem_of_lookup_2. Qed.

Lemma start_lt b c : b < c -> c < vlen st -> start_of st b < start_of st c.
Proof.
  intros Hbc Hc. pose proof (start_of_get b ltac:(lia)) as Hb. apply start_of_get in Hc.
  rewrite vget_lookup in Hb, Hc. revert Hb Hc. generalize (start_of st b) (start_of st c).
  intros x y Hx Hy.
  apply (sorted_lookup st (N.to_nat b) (N.to_nat c) x y); [done|lia|done|done].
Qed.

Lemma starts_nonempty : 0 < vlen st.
Proof. by apply vget_Some_lt in Hfirst. Qed.

Lemma start_0 : start_of st 0 = 0.
Proof. unfold start_of. by rewrite Hfirst. Qed.

Lemma span_nonempty b : b < vlen st -> start_of st b < end_of n st b <= n.
Proof.
  intros Hb. unfold end_of. destruct (N.ltb_spec (b + 1) (vlen st)) as [Hlt|Hge].
  - split; [apply start_lt; lia|]. apply N.lt_le_incl, Hbound, start_elem, Hlt.
  - split; [|lia]. by apply Hbound, start_elem.
Qed.

Lemma elem_of_span b pc : pc ∈ span n st b <-> start_of st b <= pc < end_of n st b.
Proof.
  unfold span. rewrite list_elem_of_fmap. setoid_rewrite elem_of_indices. split.
  - intros (i & -> & Hi). lia.
  - intros Hpc. exists (pc - start_of st b). lia.
Qed.

(** A start after [b]'s is past [b]'s end. *)
Lemma start_after b t : b < vlen st -> t ∈ st -> start_of st b < t -> end_of n st b <= t.
Proof.
  intros Hb Ht Hlt. apply list_elem_of_lookup in Ht as [i Hi].
  assert (vget st (N.of_nat i) = Some t) as Hget by (by rewrite vget_lookup, Nat2N.id).
  pose proof (vget_Some_lt _ _ _ Hget) as Hi'. rewrite start_of_get in Hget by done.
  injection Hget as <-. unfold end_of.
  destruct (decide (N.of_nat i <= b)) as [Hle|Hgt].
  - destruct (decide (N.of_nat i = b)) as [Heq|]; [rewrite Heq in Hlt; lia|].
    pose proof (start_lt (N.of_nat i) b ltac:(lia) Hb). lia.
  - destruct (N.ltb_spec (b + 1) (vlen st)); [|lia].
    destruct (decide (N.of_nat i = b + 1)) as [->|]; [lia|].
    pose proof (start_lt (b + 1) (N.of_nat i) ltac:(lia) Hi'). lia.
Qed.

Definition table_upto (k : N) : list N :=
  concat ((fun b => (fun _ => b) <$> span n st b) <$> indices k).

Definition bound_upto (k : N) : N := if k <? vlen st then start_of st k else n.

Lemma vlen_span b : vlen (span n st b) = end_of n st b - start_of st b.
Proof. unfold span, vlen. rewrite length_fmap, length_indices. lia. Qed.

Lemma vget_const {A B} (b : B) (l : list A) i :
  i < vlen l -> vget ((fun _ => b) <$> l) i = Some b.
Proof. intros [x Hx]%vget_lt_is_Some. by rewrite vget_fmap, Hx. Qed.

Lemma table_upto_spec k :
  k <= vlen st ->
  vlen (table_upto k) = bound_upto k /\
  forall pc, pc < bound_upto k ->
    exists b, vget (table_upto k) pc = Some b /\ b < k /\ pc ∈ span n st b.
Proof.
  induction k as [|k IH] using N.peano_ind; intros Hk.
  { pose proof starts_nonempty as H0. unfold bound_upto.
    destruct (N.ltb_spec 0 (vlen st)); [|lia]. rewrite start_0.
    split; [done|]. intros pc Hpc. lia. }
  rewrite <- N.add_1_r in *. destruct IH as [Hlen Hget]; [lia|].
  assert (bound_upto k = start_of st k) as Hbk.
  { unfold bound_upto. by destruct (N.ltb_spec k (vlen st)); [|lia]. }
  assert (bound_upto (k + 1) = end_of n st k) as Hbk' by done.
  pose proof (span_nonempty k ltac:(lia)) as Hne.
  assert (table_upto (k + 1) = table_upto k ++ ((fun _ => k) <$> span n st k)) as Htab.
  { unfold table_upto. rewrite indices_S, fmap_app, concat_app. cbn. by rewrite app_nil_r. }
  rewrite Htab, Hbk'. rewrite Hbk in *. split.
  - rewrite vlen_app, Hlen. unfold vlen at 1. rewrite length_fmap.
    change (N.of_nat (length (span n st k))) with (vlen (span n st k)). rewrite vlen_span. lia.
  - intros pc Hpc. rewrite vget_app, Hlen. destruct (N.ltb_spec pc (start_of st k)) as [Hlt|Hge].
    + destruct (Hget pc Hlt) as (b & Hb & Hbk'' & Hin). exists b. split_and!; [done|lia|done].
    + exists k. rewrite vget_const; [|rewrite vlen_span; lia].
      split_and!; [done|lia|]. apply elem_of_span. lia.
Qed.

Lemma block_at_spec pc :
  pc < n ->
  block_at (blockOf_table n st) pc < vlen st /\
  pc ∈ span n st (block_at (blockOf_table n st) pc).
Proof.
  intros Hpc. destruct (table_upto_spec (vlen st)) as [_ Hget]; [lia|].
  destruct (Hget pc) as (b & Hb & Hlt & Hin).
  { unfold bound_upto. destruct (N.ltb_spec (vlen st) (vlen st)); [lia|done]. }
  unfold block_at. change (blockOf_table n st) with (table_upto (vlen st)). by rewrite Hb.
Qed.

(** Spans do not overlap. *)
Lemma span_unique b c pc :
  b < vlen st -> c < vlen st -> pc ∈ span n st b -> pc ∈ span n st c -> b = c.
Proof.
  rewrite !elem_of_span. intros Hb Hc H1 H2.
  destruct (N.lt_trichotomy b c) as [H|[H|H]]; [|done|].
  - pose proof (start_after b (start_of st c) Hb (start_elem c Hc) (start_lt b c H Hc)). lia.
  - pose proof (start_after c (start_of st b) Hc (start_elem b Hb) (start_lt c b H Hb)). lia.
Qed.

(** A start is the first instruction of its block. *)
Lemma start_block t : t ∈ st -> start_of st (block_at (blockOf_table n st) t) = t.
Proof.
  intros Ht. destruct (block_at_spec t (Hbound t Ht)) as [Hb Hin%elem_of_span].
  destruct (N.lt_ge_cases (start_of st (block_at (blockOf_table n st) t)) t) as [Hlt|Hge].
  - pose proof (start_after _ t Hb Ht Hlt). lia.
  - lia.
Qed.
End Spans.

(** ** The blocks of a method *)

Lemma sorted_first (l : list N) : strictly_sorted l -> 0 ∈ l -> vget l 0 = Some 0.
Proof.
  intros Hs H0. destruct Hs as [|z l Hs Hz]; [by apply elem_of_nil in H0|].
  apply elem_of_cons in H0 as [<-|H0]; [done|].
  pose proof (proj1 (Forall_forall _ _) Hz 0 H0). lia.
Qed.

Section Method.
Context (m : Method).
Hypothesis Hcode : 0 < vlen (m_code m).

Abbreviation n := (vlen (m_code m)).
Abbreviation st := (starts m).

Lemma starts_bound t : t ∈ st -> t < n.
Proof. intros [? _]%elem_of_starts. done. Qed.

Lemma starts_first : vget st 0 = Some 0.
Proof. apply sorted_first; [apply starts_sorted|]. apply leader_starts; [done|by left]. Qed.

Lemma method_block pc : pc < n -> block_at (bl_blockOf (blocks m)) pc < vlen st /\
  pc ∈ block_span m (blocks m) (block_at (bl_blockOf (blocks m)) pc).
Proof. apply (block_at_spec n st (starts_sorted m) starts_bound starts_first). Qed.

Lemma elem_of_block b pc :
  pc ∈ block_span m (blocks m) b <-> start_of st b <= pc < end_of n st b.
Proof. apply elem_of_span. Qed.

Lemma block_pc b pc : b < vlen st -> pc ∈ block_span m (blocks m) b -> pc < n.
Proof.
  intros Hb Hpc%elem_of_block. pose proof (span_nonempty n st (starts_sorted m) starts_bound b Hb). lia.
Qed.

(** Inside a block control moves on to the next instruction. *)
Lemma next_inside b pc t :
  b < vlen st -> start_of st b <= pc -> pc + 1 < end_of n st b -> t ∈ nextPcs m pc -> t = pc + 1.
Proof.
  intros Hb Hs He Ht. pose proof (span_nonempty n st (starts_sorted m) starts_bound b Hb) as Hne.
  assert (pc + 1 ∉ st) as Hno.
  { intros Hin. pose proof (start_after n st (starts_sorted m) b (pc + 1) Hb Hin). lia. }
  unfold nextPcs in Ht. destruct (of_code (i_op (ins_at m pc))) as [op|] eqn:Hop;
    [|by apply elem_of_nil in Ht].
  assert (isTerminatorIns op = false) as Hterm.
  { destruct (isTerminatorIns op) eqn:Hterm; [|done]. destruct Hno.
    apply leader_starts; [lia|]. right; left. exists pc. split; [lia|].
    unfold leadersOf. rewrite Hop, Hterm. rewrite !elem_of_app. right; right.
    destruct (N.ltb_spec (pc + 1) n); [|lia]. by apply list_elem_of_singleton. }
  unfold isTerminatorIns in Hterm. rewrite !orb_false_iff in Hterm.
  destruct Hterm as [[[[Hb1 Hb2] _] _] _]. rewrite Hb1, Hb2, !app_nil_r in Ht.
  destruct (canFallThrough op && _); [by apply list_elem_of_singleton in Ht|by apply elem_of_nil in Ht].
Qed.

(** At the end of a block every successor starts a block. *)
Lemma next_outside b t :
  b < vlen st -> t < n -> t ∈ nextPcs m (end_of n st b - 1) -> t ∈ st.
Proof.
  intros Hb Ht Hin. pose proof (span_nonempty n st (starts_sorted m) starts_bound b Hb) as Hne.
  unfold nextPcs in Hin. set (pc := end_of n st b - 1) in *.
  destruct (of_code (i_op (ins_at m pc))) as [op|] eqn:Hop; [|by apply elem_of_nil in Hin].
  rewrite !elem_of_app in Hin. destruct Hin as [Hin|Hin].
  { destruct (canFallThrough op && _); [|by apply elem_of_nil in Hin].
    apply list_elem_of_singleton in Hin. assert (t = end_of n st b) as -> by (unfold pc in *; lia).
    unfold end_of in *. destruct (N.ltb_spec (b + 1) (vlen st)); [|lia]. by apply start_elem. }
  apply leader_starts; [done|]. right; left. exists pc. split; [unfold pc; lia|].
  unfold leadersOf. rewrite Hop, !elem_of_app. destruct Hin as [Hin|Hin].
  - left. destruct (isBranchSig _); [|by apply elem_of_nil in Hin].
    apply list_elem_of_singleton in Hin as ->. cbn [andb].
    destruct (N.ltb_spec (i_imm (ins_at m pc)) n); [|lia]. by apply list_elem_of_singleton.
  - right; left. destruct (bool_decide _); [|by apply elem_of_nil in Hin].
    apply elem_of_Lfilter. split; [done|by apply N.ltb_lt].
Qed.

Lemma foldl_addSucc bo ts l b :
  b ∈ l \/ (exists t, t ∈ ts /\ t < n /\ block_at bo t = b) ->
  b ∈ foldl (addSucc n bo) l ts.
Proof.
  revert l. induction ts as [|u ts IH]; intros l H; cbn [foldl].
  { destruct H as [?|(t & ?%elem_of_nil & _)]; done. }
  assert (forall x, x ∈ l -> x ∈ addSucc n bo l u) as Hkeep.
  { intros x Hx. unfold addSucc. destruct (n <=? u); [done|]. case_bool_decide; [done|].
    apply elem_of_app. by left. }
  apply IH. destruct H as [H|(t & [->|Ht]%elem_of_cons & Hlt & Hb)]; [left; auto| |right; eauto].
  left. unfold addSucc. destruct (N.leb_spec n u); [lia|]. rewrite Hb.
  case_bool_decide as Hlast; [|apply elem_of_app; right; by apply list_elem_of_singleton].
  by apply last_Some_elem_of in Hlast.
Qed.

(** The successors of a block are among its recorded successors. *)
Lemma succ_recorded b t :
  b < vlen st -> t < n -> t ∈ nextPcs m (end_of n st b - 1) ->
  block_at (bl_blockOf (blocks m)) t ∈ default [] (vget (bl_succ (blocks m)) b).
Proof.
  intros Hb Ht Hin. cbn [bl_succ blocks]. rewrite vget_fmap.
  rewrite vget_lookup. unfold indices. rewrite list_lookup_fmap, lookup_seq_lt by lia. cbn.
  rewrite N2Nat.id. unfold succ_of. apply foldl_addSucc. right. eauto.
Qed.

(** The target of a sound handler starts a block. *)
Lemma handler_start h : h ∈ m_handlers m -> soundHandler m h = true -> h_handler h ∈ st.
Proof.
  intros Hh Hs. unfold soundHandler in Hs. apply negb_true_iff in Hs.
  rewrite !orb_false_iff in Hs. destruct Hs as [_ Hlt%N.leb_gt].
  apply leader_starts; [done|]. right; right. eauto.
Qed.

Lemma block_start t : t ∈ st -> start_of st (block_at (bl_blockOf (blocks m)) t) = t.
Proof. apply (start_block n st (starts_sorted m) starts_bound starts_first). Qed.
End Method.
