(* ===== verification/RbcTotal.v ===== *)
(** * The RBC verifier returns

    Every turn of the worklist counts at least one elementary operation and the
    budget stops the loop, so the verifier returns on every input, with at most
    100 diagnostics. *)

From Stdlib Require Import Ascii.
From S2P Require Import Prelude RbcOpcode Rbc RbcVerifier.

Local Open Scope N_scope.

(** ** Sinks *)

Definition small (sink : diags) : Prop := vlen sink <= kMaxDiags.

Lemma add_small sink pc msg : small sink -> small (add sink pc msg).
Proof.
  unfold small, add. destruct (N.leb_spec kMaxDiags (vlen sink)); [done|].
  intros _. rewrite vlen_app. change (vlen [mkDiag pc msg]) with 1. lia.
Qed.

Lemma add_nonempty sink pc msg : add sink pc msg <> [].
Proof.
  unfold add. destruct (N.leb_spec kMaxDiags (vlen sink)) as [H|_].
  - intros ->. change (100 <= 0) in H. lia.
  - by intros [_ ?]%app_nil.
Qed.

Lemma add_all_small sink pc msgs : small sink -> small (add_all sink pc msgs).
Proof.
  revert sink. induction msgs as [|x l IH]; intros sink H; [done|]. by apply IH, add_small.
Qed.

Lemma add_all_nil sink pc msgs : add_all sink pc msgs = [] <-> sink = [] /\ msgs = [].
Proof.
  revert sink. induction msgs as [|x l IH]; intros sink.
  - split; [done|by intros [-> _]].
  - change (add_all sink pc (x :: l)) with (add_all (add sink pc x) pc l). rewrite IH. split.
    + by intros [?%add_nonempty _].
    + by intros [_ ?].
Qed.

(** A loop keeps what its body keeps. *)
Lemma for_while_keeps {A St} (P : St -> Prop) go (body : A -> St -> St) l s :
  (forall x s, P s -> P (body x s)) -> P s -> P (for_while go body l s).
Proof.
  intros Hb. revert s. induction l as [|x l IH]; intros s Hs; cbn [for_while]; [done|].
  destruct (go s); [|done]. by apply IH, Hb.
Qed.

Lemma for_break_keeps {A St} (P : St -> Prop) (body : A -> St -> bool * St) l s :
  (forall x s, P s -> P (snd (body x s))) -> P s -> P (for_break body l s).
Proof.
  intros Hb. revert s. induction l as [|x l IH]; intros s Hs; cbn [for_break]; [done|].
  specialize (Hb x s Hs). destruct (body x s) as [[] s']; [done|]. by apply IH.
Qed.

(** ** How the worklist's counters move *)

(** Within the budget, or stopped. *)
Definition in_budget (w : Work) : Prop := w_dead w = true \/ w_ops w <= kOpBudget.

Record moves (w w' : Work) : Prop := {
  mv_ops : w_ops w <= w_ops w';
  mv_dead : w_dead w = true -> w_dead w' = true;
  mv_budget : in_budget w -> in_budget w';
  mv_small : small (w_sink w) -> small (w_sink w');
  mv_sink : w_sink w' = [] -> w_sink w = [];
  mv_dies : w_sink w' = [] -> w_dead w' = w_dead w
}.

#[export] Instance moves_preorder : PreOrder moves.
Proof.
  split.
  - intros w. by split.
  - intros w1 w2 w3 [A1 A2 A3 A4 A5 A6] [B1 B2 B3 B4 B5 B6]. split; auto.
    + lia.
    + intros H. rewrite B6 by done. apply A6. auto.
Qed.

(** An update of the states and queues only. *)
Lemma moves_same w w' :
  w_ops w' = w_ops w -> w_dead w' = w_dead w -> w_sink w' = w_sink w -> moves w w'.
Proof. intros H1 H2 H3. split; unfold in_budget; rewrite ?H1, ?H2, ?H3; auto. Qed.

Lemma moves_die w msg : moves w (die w msg).
Proof.
  split; cbn; auto; try done.
  - by left.
  - apply add_small.
  - by intros ?%add_nonempty.
  - by intros ?%add_nonempty.
Qed.

Lemma moves_tick w : moves w (tick w).
Proof.
  unfold tick. destruct (N.ltb_spec kOpBudget (w_ops w + 1)) as [Hlt|Hge]; cbn [andb].
  - destruct (w_dead w) eqn:Hd; cbn [negb].
    + split; cbn; try done; [lia|by left].
    + split; cbn; try done; [lia|by left|apply add_small|by intros ?%add_nonempty..].
  - split; cbn; try done; [lia|]. intros _. by right.
Qed.

Lemma moves_ticks k w : moves w (ticks k w).
Proof.
  unfold ticks. induction (N.to_nat k) as [|j IH]; cbn [Nat.iter nat_rect]; [done|].
  etrans; [exact IH|apply moves_tick].
Qed.

Lemma moves_enq b w : moves w (enq b w).
Proof. unfold enq. destruct (flagged _ _); [done|by apply moves_same]. Qed.

Lemma moves_seed m b s w : moves w (snd (seed m b s w)).
Proof.
  unfold seed. destruct (kMaxStateSlots <? _); cbn [snd].
  - etrans; [|apply moves_die]. by apply moves_same.
  - by apply moves_same.
Qed.

Lemma moves_merge b s k w : moves w (snd (mergeState b s k w)).
Proof. unfold mergeState. cbn [snd]. etrans; [apply (moves_ticks k)|by apply moves_same]. Qed.

Lemma moves_flowInto sd mg b w :
  (forall w, moves w (snd (sd w))) -> (forall w, moves w (snd (mg w))) ->
  moves w (snd (flowInto sd mg b w)).
Proof.
  intros Hsd Hmg. unfold flowInto. destruct (negb _).
  - specialize (Hsd w). destruct (sd w) as [[] w']; cbn [snd] in *; [|done].
    etrans; [exact Hsd|apply moves_enq].
  - specialize (Hmg w). destruct (mg w) as [[] w']; cbn [snd] in *; [|done].
    etrans; [exact Hmg|apply moves_enq].
Qed.

Lemma moves_handlerEdge m bl pc ls h w : moves w (snd (handlerEdge m bl pc ls h w)).
Proof.
  unfold handlerEdge. etrans; [apply moves_tick|].
  destruct (negb (soundHandler m h)); [done|]. destruct (negb (covers h pc)); [done|].
  apply moves_flowInto; intros; [apply moves_seed|apply moves_merge].
Qed.

Lemma moves_succEdge m bl s b w : moves w (snd (succEdge m bl s b w)).
Proof.
  unfold succEdge. etrans; [apply moves_tick|]. destruct (_ <=? _); [done|].
  apply moves_flowInto; intros; [apply moves_seed|apply moves_merge].
Qed.

Lemma moves_for_break {A} (body : A -> Work -> bool * Work) l w :
  (forall x w, moves w (snd (body x w))) -> moves w (for_break body l w).
Proof.
  intros Hb. apply (for_break_keeps (moves w)); [|done].
  intros x w' H. etrans; [exact H|apply Hb].
Qed.

Lemma moves_flowIns m ret bl pc s w : moves w (snd (snd (flowIns m ret bl pc (s, w)))).
Proof.
  unfold flowIns. destruct (w_dead w); [done|].
  assert (moves w (for_break (handlerEdge m bl pc (fl_locals s)) (m_handlers m) (tick w))) as H.
  { etrans; [apply moves_tick|]. apply moves_for_break. apply moves_handlerEdge. }
  by destruct (w_dead (for_break _ _ _)).
Qed.

Lemma moves_flow_span m ret bl l s w : moves w (snd (for_break (flowIns m ret bl) l (s, w))).
Proof.
  apply (for_break_keeps (fun x => moves w (snd x))); [|done].
  intros pc [s' w'] H. etrans; [exact H|apply moves_flowIns].
Qed.

(** A turn of the loop counts at least one operation. *)
Lemma flowBlock_moves m ret bl b w :
  moves (tick (mkWork (w_inStates w) (w_visited w) (vset (w_inQueue w) b false) (w_queue w)
             (w_ops w) (w_dead w) (w_stateSlots w) (w_sink w))) (flowBlock m ret bl b w).
Proof.
  unfold flowBlock. set (w1 := tick _).
  pose proof (moves_flow_span m ret bl (block_span m bl b) (state_of w1 b) w1) as H.
  destruct (for_break _ _ _) as [s w2]. cbn [snd] in H. destruct (w_dead w2); [done|].
  etrans; [exact H|]. apply moves_for_break, moves_succEdge.
Qed.

Lemma tick_ops w : w_ops (tick w) = w_ops w + 1.
Proof. unfold tick. by destruct (_ && _). Qed.

Lemma flowBlock_ops m ret bl b w : w_ops w + 1 <= w_ops (flowBlock m ret bl b w).
Proof.
  pose proof (mv_ops _ _ (flowBlock_moves m ret bl b w)) as H. by rewrite tick_ops in H.
Qed.

Lemma moves_flowBlock m ret bl b q w : moves w (flowBlock m ret bl b (pop w q)).
Proof.
  etrans; [|apply flowBlock_moves]. etrans; [|apply moves_tick]. by apply moves_same.
Qed.

Lemma worklist_total fuel m ret bl w :
  in_budget w -> (N.to_nat (kOpBudget + 1 - w_ops w) <= fuel)%nat ->
  exists w', worklist fuel m ret bl w = Some w' /\ moves w w'.
Proof.
  revert w. induction fuel as [|fuel IH]; intros w Hb Hf; cbn [worklist].
  - destruct (w_queue w) as [|b q]; [by eexists|]. destruct Hb as [->|Hb]; [by eexists|]. lia.
  - destruct (w_queue w) as [|b q]; [by eexists|].
    destruct (w_dead w) eqn:Hd; [by eexists|]. cbn [orb].
    destruct (full (w_sink w)); [by eexists|].
    destruct (IH (flowBlock m ret bl b (pop w q))) as (w' & Hw & Hm).
    + by apply (mv_budget _ _ (moves_flowBlock m ret bl b q w)).
    + pose proof (flowBlock_ops m ret bl b (pop w q)) as Ho. cbn in Ho.
      destruct Hb as [?|Hb]; [congruence|]. lia.
    + exists w'. split; [exact Hw|]. etrans; [apply moves_flowBlock|exact Hm].
Qed.

Lemma worklist_moves fuel m ret bl w w' : worklist fuel m ret bl w = Some w' -> moves w w'.
Proof.
  revert w. induction fuel as [|fuel IH]; intros w; cbn [worklist];
    (destruct (w_queue w) as [|b q]; [by intros [= <-]|]);
    (destruct (_ || _); [by intros [= <-]|]); [done|].
  intros H%IH. etrans; [apply moves_flowBlock|exact H].
Qed.

(** ** The sweep and the verdict *)

Record sweeps (y y' : Sweep) : Prop := {
  sv_dead : s_dead y = true -> s_dead y' = true;
  sv_small : small (s_sink y) -> small (s_sink y');
  sv_sink : s_sink y' = [] -> s_sink y = [];
  sv_dies : s_sink y' = [] -> s_dead y' = s_dead y
}.

#[export] Instance sweeps_preorder : PreOrder sweeps.
Proof.
  split; [by split|]. intros x y z [A1 A2 A3 A4] [B1 B2 B3 B4]. split; auto.
  intros H. rewrite B4 by done. auto.
Qed.

Lemma sweeps_die y : sweeps y (sweep_die y).
Proof. split; cbn; [done|apply add_small|by intros ?%add_nonempty..]. Qed.

Lemma sweeps_same y y' : s_dead y' = s_dead y -> s_sink y' = s_sink y -> sweeps y y'.
Proof. intros H1 H2. by split; rewrite ?H1, ?H2. Qed.

Lemma sweeps_tick y : sweeps y (sweep_tick y).
Proof.
  unfold sweep_tick. destruct (_ && _); [|by apply sweeps_same].
  etrans; [|apply sweeps_die]. by apply sweeps_same.
Qed.

Lemma sweeps_record pc i t y : sweeps y (record pc i t y).
Proof.
  unfold record. destruct (vget _ i); [|done]. destruct (decide _); [done|].
  destruct (_ <? _); [by apply sweeps_same|]. etrans; [|apply sweeps_die]. by apply sweeps_same.
Qed.

Lemma sweeps_Ins m ret pc s y : sweeps y (snd (snd (sweepIns m ret pc (s, y)))).
Proof.
  unfold sweepIns. destruct (s_dead y); [done|].
  etrans; [apply sweeps_tick|]. destruct (s_dead (sweep_tick y)) eqn:Hd; [done|].
  destruct (stepIns _ _ _ _ _) as [[s' msgs] stored]. cbn [snd].
  set (z := mkSweep _ _ _ _ _ _).
  assert (sweeps (sweep_tick y) z) as H.
  { split; cbn; [congruence|apply add_all_small| |done]. by intros [? _]%add_all_nil. }
  destruct stored as [[l t]|]; [|apply H]. etrans; [apply H|apply sweeps_record].
Qed.

Lemma sweeps_Entry m pc ls y : sweeps y (sweepEntry m pc ls y).
Proof.
  unfold sweepEntry. case_bool_decide; [done|]. apply (for_break_keeps (sweeps y)); [|done].
  intros i z Hz. cbn [snd]. etrans; [exact Hz|apply sweeps_record].
Qed.

Lemma sweeps_span m ret l s y : sweeps y (snd (for_break (sweepIns m ret) l (s, y))).
Proof.
  apply (for_break_keeps (fun x => sweeps y (snd x))); [|done].
  intros pc [s' y'] H. etrans; [exact H|apply sweeps_Ins].
Qed.

Lemma sweeps_Block m ret bl w b y : sweeps y (sweepBlock m ret bl w b y).
Proof.
  unfold sweepBlock. destruct (negb _); [done|]. etrans; [apply sweeps_Entry|].
  destruct (s_dead _); [done|]. apply sweeps_span.
Qed.

Lemma sweeps_sweep m ret bl w :
  sweeps (mkSweep (fl_locals (state_of w 0)) (replicate (N.to_nat (m_numLocals m)) []) 0
            (w_ops w) (w_dead w) (w_sink w)) (sweep m ret bl w).
Proof.
  unfold sweep. apply (for_while_keeps (sweeps _)); [|done].
  intros b y H. etrans; [exact H|apply sweeps_Block].
Qed.

Lemma sweep_small m ret bl w : small (w_sink w) -> small (s_sink (sweep m ret bl w)).
Proof. intros H. by apply (sv_small _ _ (sweeps_sweep m ret bl w)). Qed.

Lemma foldl_keeps {A B} (P : B -> Prop) (f : B -> A -> B) l b :
  (forall b a, P b -> P (f b a)) -> P b -> P (foldl f b l).
Proof. intros Hf. revert b. induction l as [|a l IH]; intros b Hb; [done|]. by apply IH, Hf. Qed.

Lemma checkStable_small h i l sink : small sink -> small (checkStable h i l sink).
Proof.
  intros H. unfold checkStable. destruct (vget _ _) as [[pc t]|]; [|done].
  destruct (_ <? _); [by apply add_small|done].
Qed.

Lemma stability_small m bps sink : small sink -> small (stability m bps sink).
Proof.
  intros H. unfold stability. apply (foldl_keeps small); [|done]. intros s h Hs.
  destruct (negb _); [done|]. apply (foldl_keeps small); [|done]. intros. by apply checkStable_small.
Qed.

(** ** The verifier *)

Lemma structural_small m : small (phase1b m (phase1 m (phase0 m))).
Proof.
  unfold phase1b, phase1.
  apply (for_while_keeps small); [intros; by apply add_all_small|].
  apply (for_while_keeps small); [intros; by apply add_all_small|]. by apply add_all_small.
Qed.

Lemma phase2_total fuel m sink :
  (N.to_nat (kOpBudget + 1) <= fuel)%nat -> small sink ->
  exists ds, phase2 fuel m sink = Some ds /\ small ds.
Proof.
  intros Hf Hs. unfold phase2.
  assert (small (fallOff m sink)) as Hs1.
  { unfold fallOff. destruct (of_code _); [|done]. destruct (canFallThrough _); [|done].
    by apply add_small. }
  destruct (parseParams _ _) as [ok params]. destruct (negb ok || _).
  { eexists. split; [done|by apply add_small]. }
  destruct (entryState m params) as [entry|]; [|eexists; split; [done|by apply add_small]].
  set (w0 := mkWork _ _ _ _ _ _ _ _).
  pose proof (moves_seed m 0 entry w0) as Hsd. destruct (seed m 0 entry w0) as [ok' w1].
  cbn [snd] in Hsd. pose proof (mv_small _ _ Hsd Hs1) as Hs2.
  destruct (negb ok'); [by eexists|].
  pose proof (moves_enq 0 w1) as Hen.
  destruct (worklist_total fuel m (scanMethodDesc (m_descriptor m)) (blocks m) (enq 0 w1))
    as (w' & -> & Hw).
  - apply (mv_budget _ _ Hen), (mv_budget _ _ Hsd). right. cbn. lia.
  - lia.
  - pose proof (mv_small _ _ Hw (mv_small _ _ Hen Hs2)) as Hs3.
    destruct (w_dead w'); [by eexists|]. destruct (s_dead _).
    + eexists. split; [done|by apply sweep_small].
    + eexists. split; [done|by apply stability_small, sweep_small].
Qed.

(** C13: the bytecode verifier is total: on every method, malformed or not, it
    returns once the worklist may turn 2^30 + 1 times, reports at most 100
    diagnostics, and accepts exactly when it reports none. *)
Theorem rbc_verify_total fuel m :
  (N.to_nat (kOpBudget + 1) <= fuel)%nat ->
  exists r, verify fuel m = Some r /\ vlen (vr_diags r) <= 100 /\
    (vr_ok r = true <-> vr_diags r = []).
Proof.
  intros Hf.
  assert (exists ds, verifyImpl fuel m = Some ds /\ small ds) as (ds & Hv & Hs).
  { unfold verifyImpl. pose proof (structural_small m) as Hst.
    destruct (_ <? _); [eexists; split; [done|by apply add_small]|].
    destruct (_ || _); [by eexists|]. by apply phase2_total. }
  unfold verify. rewrite Hv. eexists. split; [done|]. split; [exact Hs|].
  cbn [vr_ok vr_diags]. apply bool_decide_eq_true.
Qed.

(** [static int add(int, int)]. *)
Definition add_method : Method :=
  mkMethod "add" "(II)I" method_flags.Static 2 2
    [ins Op.Iload 0 0 0 0; ins Op.Iload 1 0 0 1; ins Op.Iadd 0 0 1 0; ins Op.Ireturn 0 0 0 0]
    [] [].

Lemma rbc_verify_total_witness :
  exists r, verify (N.to_nat (kOpBudget + 1)) add_method = Some r /\ vlen (vr_diags r) <= 100.
Proof.
  destruct (rbc_verify_total (N.to_nat (kOpBudget + 1)) add_method (le_n _)) as (r & Hv & Hd & _).
  exists r. split; [exact Hv|exact Hd].
Defined.
