(* ===== verification/RbcFlow.v ===== *)
(** * The dataflow of the RBC verifier reaches a fixpoint

    When the worklist empties, every visited block is settled: its exception
    edges and its successors have states that admit everything the block's own
    state lets through. *)

From Stdlib Require Import Ascii.
From S2P Require Import Prelude RbcOpcode Rbc RbcVerifier RbcBlocks RbcTotal.

Local Open Scope N_scope.

(** ** Types of a slot *)

(** A value of type [a] may sit in a slot typed [t]; a slot typed [Bottom] may
    hold anything, for it is never read. *)
Definition below (a t : RType) : Prop := t = RType.Bottom \/ isAssignable a t = true.

Lemma below_refl a : below a a.
Proof. right. by destruct a. Qed.

Lemma below_trans a b c : below a b -> below b c -> below a c.
Proof.
  intros [->|H1] [->|H2]; [by left|left; by destruct c|by left|right].
  by destruct a, b; try done; destruct c.
Qed.

Lemma below_join_l a b : below a (join a b).
Proof. destruct a, b; vm_compute; auto. Qed.

Lemma below_join_r a b : below b (join a b).
Proof. rewrite rjoin_comm. apply below_join_l. Qed.

Lemma below_assignable a b t :
  below a b -> isAssignable b t = true -> t <> RType.Bottom -> isAssignable a t = true.
Proof. intros [->|H] Hb Ht; [by destruct t|]. by destruct a, b, t. Qed.

#[export] Instance below_preorder : PreOrder below.
Proof. split; [intros a; apply below_refl|intros a b c; apply below_trans]. Qed.

(** ** States *)

Definition sub (s t : FlowState) : Prop :=
  Forall2 below (fl_regs s) (fl_regs t) /\ Forall2 below (fl_locals s) (fl_locals t).

#[export] Instance sub_preorder : PreOrder sub.
Proof.
  split.
  - intros s. split; apply Forall_Forall2_diag, Forall_true, below_refl.
  - intros s t u [H1 H2] [H3 H4]. by split; etrans.
Qed.

Lemma joinSlots_l dst src : Forall2 below dst (joinSlots dst src).
Proof.
  revert src. induction dst as [|d dst IH]; intros [|s src]; cbn; [done..| |].
  - apply Forall_Forall2_diag, Forall_true, below_refl.
  - constructor; [apply below_join_l|apply IH].
Qed.

Lemma joinSlots_r dst src : length dst = length src -> Forall2 below src (joinSlots dst src).
Proof.
  revert src. induction dst as [|d dst IH]; intros [|s src] Hl; try done.
  constructor; [apply below_join_r|]. apply IH. by injection Hl.
Qed.

(** A state of the method's size. *)
Definition sized (m : Method) (s : FlowState) : Prop :=
  vlen (fl_regs s) = m_numRegs m /\ vlen (fl_locals s) = m_numLocals m.

Lemma sub_sized m s t : sub s t -> sized m s <-> sized m t.
Proof.
  intros [H1%Forall2_length H2%Forall2_length]. unfold sized, vlen. by rewrite H1, H2.
Qed.

Lemma sub_join_l s t : sub s (joinStates s t).
Proof. split; apply joinSlots_l. Qed.

Lemma sub_join_r m s t : sized m s -> sized m t -> sub t (joinStates s t).
Proof.
  intros [H1 H2] [H3 H4]. split; apply joinSlots_r; unfold vlen in *; lia.
Qed.

Lemma stepTypes_sized m ret pc s : sized m s -> sized m (stepTypes m ret pc s).
Proof.
  intros [H1 H2]. unfold stepTypes, stepIns, sized.
  destruct (of_code _) as [op|]; [|done]. destruct (regsMissing _ _ _); [done|].
  repeat case_bool_decide; cbn; rewrite ?vlen_vset; try done.
  - destruct (_ <=? _); cbn; rewrite ?vlen_vset; done.
  - destruct (_ <=? _); cbn; rewrite ?vlen_vset; done.
  - destruct (resultOf _ _ _ _) as [[t|] bad]; cbn; rewrite ?vlen_vset; done.
Qed.

Definition steps (m : Method) (ret : RetScan) (s : FlowState) (pcs : list N) : FlowState :=
  foldl (fun s pc => stepTypes m ret pc s) s pcs.

Lemma handlerState_sized m ls : vlen ls = m_numLocals m -> sized m (handlerState m ls).
Proof.
  intros H. split; [|done]. cbn. unfold edgeRegs, vlen.
  destruct (N.to_nat (m_numRegs m)) eqn:E; cbn; rewrite ?length_replicate; lia.
Qed.

(** ** The worklist's data *)

Section Flow.
Context (m : Method) (ret : RetScan) (bl : Blocks).

Abbreviation nb := (vlen (bl_starts bl)).

Definition seen (w : Work) (b : N) : Prop := flagged (w_visited w) b = true.

Record wf (w : Work) : Prop := {
  wf_states : vlen (w_inStates w) = nb;
  wf_visited : vlen (w_visited w) = nb;
  wf_inQueue : vlen (w_inQueue w) = nb;
  wf_queue : forall b, b ∈ w_queue w -> b < nb /\ seen w b;
  wf_flag : forall b, flagged (w_inQueue w) b = true -> b ∈ w_queue w;
  wf_sized : forall b, seen w b -> sized m (state_of w b)
}.

(** Visited blocks stay visited, and their states only become less precise. *)
Definition descends (w w' : Work) : Prop :=
  forall b, seen w b -> seen w' b /\ sub (state_of w b) (state_of w' b).

(** A part of a turn: whatever it visits or changes is queued. *)
Record evolves (w w' : Work) : Prop := {
  ev_desc : descends w w';
  ev_keep : forall b, seen w b -> state_of w' b = state_of w b \/ b ∈ w_queue w';
  ev_new : forall b, seen w' b -> seen w b \/ b ∈ w_queue w';
  ev_queue : forall b, b ∈ w_queue w -> b ∈ w_queue w'
}.

Lemma descends_refl w : descends w w.
Proof. by intros b Hb. Qed.

Lemma descends_trans w1 w2 w3 : descends w1 w2 -> descends w2 w3 -> descends w1 w3.
Proof.
  intros H1 H2 b Hb. destruct (H1 b Hb) as [Hb2 Hs2]. destruct (H2 b Hb2) as [Hb3 Hs3].
  split; [done|by etrans].
Qed.

#[local] Instance evolves_preorder : PreOrder evolves.
Proof.
  split.
  - intros w. split; auto. apply descends_refl.
  - intros w1 w2 w3 [A1 A2 A3 A4] [B1 B2 B3 B4]. split.
    + by eapply descends_trans.
    + intros b Hb. destruct (A2 b Hb) as [Heq|Hq]; [|right; auto].
      destruct (B2 b (proj1 (A1 b Hb))) as [Heq'|Hq]; [left; congruence|by right].
    + intros b Hb. destruct (B3 b Hb) as [H|H]; [|by right].
      destruct (A3 b H) as [?|?]; [by left|right; auto].
    + auto.
Qed.

(** An edge that carries state [s] into block [b] has been taken into account. *)
Definition covered (w : Work) (b : N) (s : FlowState) : Prop :=
  seen w b /\ sub s (state_of w b).

Lemma covered_descends w w' b s : descends w w' -> covered w b s -> covered w' b s.
Proof. intros Hd [Hb Hs]. destruct (Hd b Hb) as [Hb' Hs']. split; [done|by etrans]. Qed.

(** A change of counters only. *)
Lemma evolves_counters w w' :
  w_inStates w' = w_inStates w -> w_visited w' = w_visited w -> w_queue w' = w_queue w ->
  evolves w w'.
Proof.
  intros H1 H2 H3. split; unfold descends, seen, state_of; rewrite ?H1, ?H2, ?H3; auto.
  intros b Hb. by split.
Qed.

Lemma wf_counters w w' :
  w_inStates w' = w_inStates w -> w_visited w' = w_visited w -> w_queue w' = w_queue w ->
  w_inQueue w' = w_inQueue w -> wf w -> wf w'.
Proof.
  intros H1 H2 H3 H4 [A1 A2 A3 A4 A5 A6].
  split; unfold seen, state_of in *; rewrite ?H1, ?H2, ?H3, ?H4; auto.
Qed.

Lemma tick_same w :
  w_inStates (tick w) = w_inStates w /\ w_visited (tick w) = w_visited w /\
  w_queue (tick w) = w_queue w /\ w_inQueue (tick w) = w_inQueue w.
Proof. unfold tick. by destruct (_ && _). Qed.

Lemma ticks_same k w :
  w_inStates (ticks k w) = w_inStates w /\ w_visited (ticks k w) = w_visited w /\
  w_queue (ticks k w) = w_queue w /\ w_inQueue (ticks k w) = w_inQueue w.
Proof.
  unfold ticks. induction (N.to_nat k) as [|j IH]; [done|].
  change (Nat.iter (S j) tick w) with (tick (Nat.iter j tick w)).
  destruct (tick_same (Nat.iter j tick w)) as (H1 & H2 & H3 & H4).
  destruct IH as (I1 & I2 & I3 & I4). split_and!; congruence.
Qed.

Lemma tick_evolves w : wf w -> wf (tick w) /\ evolves w (tick w).
Proof.
  destruct (tick_same w) as (H1 & H2 & H3 & H4). intros Hw.
  split; [by eapply wf_counters|by apply evolves_counters].
Qed.
Lemma flagged_vset l b x c :
  flagged (vset l b x) c = if decide (b = c /\ b < vlen l) then x else flagged l c.
Proof. unfold flagged. rewrite vget_vset. by case_decide. Qed.

Lemma enq_evolves b w :
  wf w -> b < nb -> seen w b -> wf (enq b w) /\ evolves w (enq b w) /\ b ∈ w_queue (enq b w).
Proof.
  intros Hw Hb Hs. unfold enq. destruct (flagged (w_inQueue w) b) eqn:Hf.
  { split; [done|]. split; [done|]. by apply (wf_flag w Hw). }
  destruct Hw as [A1 A2 A3 A4 A5 A6]. split; [|split].
  - split; cbn; try done; [by rewrite vlen_vset| |].
    + intros c [?|Hc%list_elem_of_singleton]%elem_of_app; [auto|by subst].
    + intros c. rewrite flagged_vset, elem_of_app, list_elem_of_singleton.
      case_decide as Hd; [intros _; right; by destruct Hd|left; auto].
  - split; cbn; auto; [intros c Hc; by split|]. intros c Hc. apply elem_of_app. by left.
  - apply elem_of_app. right. by apply list_elem_of_singleton.
Qed.

Lemma state_of_set b s w c :
  state_of (set_state b s w) c =
  if decide (b = c /\ b < vlen (w_inStates w)) then s else state_of w c.
Proof. unfold state_of, set_state. cbn. rewrite vget_vset. by case_decide. Qed.

(** The first edge into a block. *)
Lemma seed_evolves b s w :
  wf w -> b < nb -> sized m s -> ~ seen w b ->
  let '(ok, w') := seed m b s w in
  if ok then wf (enq b w') /\ evolves w (enq b w') /\ covered (enq b w') b s
  else w_dead w' = true /\ wf w' /\ evolves w w'.
Proof.
  intros Hw Hb Hs Hn. unfold seed. cbn [w_stateSlots set_state]. pose proof Hw as [A1 A2 A3 A4 A5 A6].
  assert (forall c, seen w c -> b <> c) as Hne by naive_solver.
  destruct (kMaxStateSlots <? _).
  - split; [done|].
    assert (forall c, seen w c -> state_of (set_state b s w) c = state_of w c) as Hsame.
    { intros c Hc. rewrite state_of_set, decide_False; [done|]. intros [? _]. by eapply Hne. }
    split; split; cbn; auto; [by rewrite vlen_vset|..].
    + intros c Hc. change (sized m (state_of (set_state b s w) c)). rewrite Hsame by done. auto.
    + intros c Hc. split; [done|].
      change (sub (state_of w c) (state_of (set_state b s w) c)). by rewrite Hsame.
    + intros c Hc. left. by apply Hsame.
  - set (w' := mkWork _ _ _ _ _ _ _ _).
    assert (forall c, state_of w' c = if decide (b = c) then s else state_of w c) as Hst.
    { intros c. change (state_of w' c) with (state_of (set_state b s w) c).
      rewrite state_of_set, A1. repeat case_decide; naive_solver. }
    assert (forall c, seen w' c <-> c = b \/ seen w c) as Hseen.
    { intros c. unfold seen. cbn. rewrite flagged_vset, A2. case_decide; naive_solver. }
    assert (wf w') as Hw'.
    { split; cbn; rewrite ?vlen_vset; try done.
      - intros c Hc. destruct (A4 c Hc). split; [done|]. apply Hseen. by right.
      - intros c Hc%Hseen. rewrite Hst. case_decide; [done|]. apply A6. naive_solver. }
    destruct (enq_evolves b w' Hw' Hb) as (Hw2 & He & Hq); [apply Hseen; by left|].
    split; [done|]. split.
    + split.
      * intros c Hc. destruct (ev_desc _ _ He c) as [Hc2 Hs2]; [apply Hseen; by right|].
        rewrite Hst, decide_False in Hs2 by auto. done.
      * intros c Hc. destruct (ev_keep _ _ He c) as [Hc2|Hc2]; [apply Hseen; by right| |by right].
        left. rewrite Hc2, Hst, decide_False by auto. done.
      * intros c Hc. destruct (ev_new _ _ He c Hc) as [[->|?]%Hseen|?]; [by right|by left|by right].
      * intros c Hc. apply (ev_queue _ _ He). done.
    + destruct (ev_desc _ _ He b) as [Hc2 Hs2]; [apply Hseen; by left|].
      rewrite Hst, decide_True in Hs2 by done. done.
Qed.
(** A later edge into a block. *)
Lemma merge_evolves b s k w :
  wf w -> b < nb -> sized m s -> seen w b ->
  let '(changed, w') := mergeState b s k w in
  let w2 := if changed then enq b w' else w' in
  wf w2 /\ evolves w w2 /\ covered w2 b s.
Proof.
  intros Hw Hb Hs Hv. unfold mergeState. set (new := joinStates _ _).
  destruct (ticks_same k w) as (T1 & T2 & T3 & T4). pose proof Hw as [A1 A2 A3 A4 A5 A6].
  set (w' := set_state b new (ticks k w)).
  assert (sub (state_of w b) new) as Hnew by apply sub_join_l.
  assert (sub s new) as Hsn by (apply (sub_join_r m); auto).
  assert (forall c, state_of w' c = if decide (b = c) then new else state_of w c) as Hst.
  { intros c. unfold w'. rewrite state_of_set, T1, A1. unfold state_of. rewrite T1.
    repeat case_decide; naive_solver. }
  assert (forall c, seen w' c <-> seen w c) as Hseen by (intros c; unfold seen; cbn; by rewrite T2).
  assert (wf w') as Hw'.
  { split; cbn; rewrite ?vlen_vset, ?T1, ?T2, ?T3, ?T4; try done.
    - intros c Hc. rewrite Hseen. auto.
    - intros c Hc%Hseen. rewrite Hst. case_decide; [|auto]. subst c.
      by apply (sub_sized m _ _ Hnew), A6. }
  assert (descends w w') as Hdesc.
  { intros c Hc. split; [by apply Hseen|]. rewrite Hst. case_decide; [by subst c|done]. }
  assert (covered w' b s) as Hcov.
  { split; [by apply Hseen|]. by rewrite Hst, decide_True. }
  case_bool_decide as Hch; cbn [negb].
  - split; [done|]. split; [|done]. split; [done| | |].
    + intros c Hc. left. rewrite Hst. case_decide; [by subst c|done].
    + intros c Hc%Hseen. by left.
    + intros c. cbn. by rewrite T3.
  - destruct (enq_evolves b w' Hw' Hb) as (Hw2 & He & Hq); [by apply Hseen|].
    split; [done|]. split; [|by eapply covered_descends; [apply He|]]. split.
    + eapply descends_trans; [exact Hdesc|apply He].
    + intros c Hc. destruct (decide (c = b)) as [->|Hne]; [by right|].
      destruct (ev_keep _ _ He c) as [Heq|?]; [by apply Hseen| |by right].
      left. rewrite Heq, Hst, decide_False by congruence. done.
    + intros c Hc. destruct (ev_new _ _ He c Hc) as [?%Hseen|?]; [by left|by right].
    + intros c Hc. apply (ev_queue _ _ He). cbn. by rewrite T3.
Qed.

Lemma flowInto_evolves b s k w :
  wf w -> b < nb -> sized m s ->
  let '(stop, w') := flowInto (seed m b s) (mergeState b s k) b w in
  wf w' /\ evolves w w' /\ if stop then w_dead w' = true else covered w' b s.
Proof.
  intros Hw Hb Hs. unfold flowInto. destruct (flagged (w_visited w) b) eqn:Hv; cbn [negb].
  - pose proof (merge_evolves b s k w Hw Hb Hs Hv) as H.
    destruct (mergeState b s k w) as [ch w']. exact H.
  - pose proof (seed_evolves b s w Hw Hb Hs) as H. unfold seen in H. rewrite Hv in H.
    specialize (H ltac:(done)). destruct (seed m b s w) as [[] w'].
    + exact H.
    + destruct H as (H1 & H2 & H3). split; [exact H2|]. split; [exact H3|exact H1].
Qed.
(** A loop over edges: when it is not stopped, all of them are covered. *)
Lemma edges_evolve {A} (body : A -> Work -> bool * Work) (l : list A) (need : A -> Prop)
    (tgt : A -> N) (s : A -> FlowState) w :
  (forall x w, x ∈ l -> wf w ->
     let '(stop, w') := body x w in
     wf w' /\ evolves w w' /\ moves w w' /\
     if stop then w_dead w' = true else need x -> covered w' (tgt x) (s x)) ->
  wf w ->
  let w' := for_break body l w in
  wf w' /\ evolves w w' /\ moves w w' /\
  (w_dead w' = true \/ forall x, x ∈ l -> need x -> covered w' (tgt x) (s x)).
Proof.
  intros Hbody. revert w. induction l as [|x l IH]; intros w Hw; cbn [for_break].
  { split_and!; try done. right. by intros x ?%elem_of_nil. }
  pose proof (Hbody x w (list_elem_of_here _ _) Hw) as H. destruct (body x w) as [[] w1].
  - destruct H as (H1 & H2 & H3 & H4). split_and!; auto.
  - destruct H as (H1 & H2 & H3 & H4).
    destruct (IH (fun x w Hx => Hbody x w (list_elem_of_further _ _ _ Hx)) w1 H1)
      as (J1 & J2 & J3 & J4).
    split; [done|]. split; [by etrans|]. split; [by etrans|].
    destruct J4 as [J4|J4]; [by left|right]. intros y [->|Hy]%elem_of_cons Hn; [|auto].
    eapply covered_descends; [apply J2|auto].
Qed.

Definition handler_block (h : ExceptionHandler) : N := block_at (bl_blockOf bl) (h_handler h).

Hypothesis Hhandlers : forall h, h ∈ m_handlers m -> soundHandler m h = true -> handler_block h < nb.

Lemma joinHandler_merge b ls w :
  wf w -> exists k, flowInto (seed m b (handlerState m ls)) (joinHandler b ls) b w =
    flowInto (seed m b (handlerState m ls)) (mergeState b (handlerState m ls) k) b w.
Proof.
  intros Hw. unfold flowInto, joinHandler. destruct (flagged (w_visited w) b) eqn:Hv; cbn [negb].
  - destruct (wf_sized w Hw b Hv) as [Hr _]. eexists.
    assert (length (fl_regs (state_of w b)) = N.to_nat (m_numRegs m)) as ->
      by (unfold vlen in Hr; lia). reflexivity.
  - by exists 0.
Qed.

Lemma handlerEdge_evolves pc ls h w :
  h ∈ m_handlers m -> vlen ls = m_numLocals m -> wf w ->
  let '(stop, w') := handlerEdge m bl pc ls h w in
  wf w' /\ evolves w w' /\ moves w w' /\
  if stop then w_dead w' = true
  else soundHandler m h = true /\ covers h pc = true -> covered w' (handler_block h) (handlerState m ls).
Proof.
  intros Hh Hls Hw. pose proof (moves_handlerEdge m bl pc ls h w) as Hm. revert Hm.
  unfold handlerEdge. destruct (tick_evolves w Hw) as [Hw1 He1].
  destruct (soundHandler m h) eqn:Hs; cbn [negb]; [|intros; split_and!; naive_solver].
  destruct (covers h pc) eqn:Hc; cbn [negb]; [|intros; split_and!; naive_solver].
  change (block_at (bl_blockOf bl) (h_handler h)) with (handler_block h).
  destruct (joinHandler_merge (handler_block h) ls (tick w) Hw1) as [k ->].
  pose proof (flowInto_evolves (handler_block h) (handlerState m ls) k (tick w) Hw1
    (Hhandlers h Hh Hs) (handlerState_sized m ls Hls)) as H.
  destruct (flowInto _ _ _ _) as [stop w']. destruct H as (H1 & H2 & H3). intros Hm.
  split; [done|]. split; [by etrans|]. split; [done|]. by destruct stop.
Qed.

Lemma succEdge_evolves s b w :
  sized m s -> wf w ->
  let '(stop, w') := succEdge m bl s b w in
  wf w' /\ evolves w w' /\ moves w w' /\
  if stop then w_dead w' = true else b < nb -> covered w' b s.
Proof.
  intros Hs Hw. pose proof (moves_succEdge m bl s b w) as Hm. revert Hm.
  unfold succEdge. destruct (tick_evolves w Hw) as [Hw1 He1].
  destruct (N.leb_spec nb b) as [Hge|Hlt]; [intros; split_and!; auto; lia|].
  pose proof (flowInto_evolves b s
    (loopTicks (fl_regs (state_of (tick w) b)) (fl_regs s) +
     loopTicks (fl_locals (state_of (tick w) b)) (fl_locals s)) (tick w) Hw1 Hlt Hs) as H.
  change (flowInto (seed m b s) (joinInto b s) b (tick w)) with
    (flowInto (seed m b s) (mergeState b s
      (loopTicks (fl_regs (state_of (tick w) b)) (fl_regs s) +
       loopTicks (fl_locals (state_of (tick w) b)) (fl_locals s))) b (tick w)).
  destruct (flowInto _ _ _ _) as [stop w']. destruct H as (H1 & H2 & H3). intros Hm.
  split; [done|]. split; [by etrans|]. split; [done|]. by destruct stop.
Qed.
(** The exception edges of a run of instructions from state [s]. *)
Definition throws_covered (w : Work) (s : FlowState) (pcs : list N) : Prop :=
  forall i pc h, pcs !! i = Some pc -> h ∈ m_handlers m -> soundHandler m h = true ->
    covers h pc = true ->
    covered w (handler_block h) (handlerState m (fl_locals (steps m ret s (take i pcs)))).

Lemma throws_covered_descends w w' s pcs :
  descends w w' -> throws_covered w s pcs -> throws_covered w' s pcs.
Proof. intros Hd Ht i pc h Hi Hh Hs Hc. eapply covered_descends; [exact Hd|by eapply Ht]. Qed.

Lemma flowIns_evolves pc s w :
  sized m s -> wf w ->
  let '(stop, (s', w')) := flowIns m ret bl pc (s, w) in
  wf w' /\ evolves w w' /\ moves w w' /\
  if stop then w_dead w' = true
  else s' = stepTypes m ret pc s /\ throws_covered w' s [pc].
Proof.
  intros Hs Hw. pose proof (moves_flowIns m ret bl pc s w) as Hm. revert Hm.
  unfold flowIns. destruct (w_dead w) eqn:Hd; [intros; by split_and!|].
  destruct (tick_evolves w Hw) as [Hw1 He1].
  destruct (edges_evolve (handlerEdge m bl pc (fl_locals s)) (m_handlers m)
    (fun h => soundHandler m h = true /\ covers h pc = true) handler_block
    (fun _ => handlerState m (fl_locals s)) (tick w)) as (H1 & H2 & H3 & H4).
  { intros h w' Hh Hw'. by apply handlerEdge_evolves; [|apply Hs|]. }
  { exact Hw1. }
  destruct (w_dead (for_break _ _ _)) eqn:Hd'; intros Hm; cbn [snd] in Hm.
  - split; [done|]. split; [by etrans|]. by split.
  - destruct H4 as [?|H4]; [congruence|].
    split; [done|]. split; [by etrans|]. split; [done|]. split; [done|].
    intros [|i] pc' h Hi Hh Hsd Hc; [|done]. injection Hi as <-. by apply H4.
Qed.

Lemma flow_span pcs s w :
  sized m s -> wf w ->
  let '(s', w') := for_break (flowIns m ret bl) pcs (s, w) in
  wf w' /\ evolves w w' /\ moves w w' /\
  (w_dead w' = true \/ s' = steps m ret s pcs /\ throws_covered w' s pcs).
Proof.
  revert s w. induction pcs as [|pc pcs IH]; intros s w Hs Hw; cbn [for_break].
  { split_and!; try done. right. split; [done|]. by intros i pc h Hi. }
  pose proof (flowIns_evolves pc s w Hs Hw) as H.
  destruct (flowIns m ret bl pc (s, w)) as [[] [s1 w1]]; destruct H as (H1 & H2 & H3 & H4).
  { split_and!; auto. }
  destruct H4 as [-> H4]. specialize (IH (stepTypes m ret pc s) w1 (stepTypes_sized _ _ _ _ Hs) H1).
  destruct (for_break _ _ _) as [s2 w2]. destruct IH as (J1 & J2 & J3 & J4).
  split; [done|]. split; [by etrans|]. split; [by etrans|].
  destruct J4 as [J4|[-> J4]]; [by left|right]. split; [done|].
  intros [|i] pc' h Hi Hh Hsd Hc.
  - injection Hi as <-. eapply covered_descends; [apply J2|]. by apply (H4 0%nat pc).
  - by apply (J4 i pc').
Qed.

(** Block [b], entered in state [s], has had all its edges taken into account. *)
Definition settled (w : Work) (b : N) (s : FlowState) : Prop :=
  throws_covered w s (block_span m bl b) /\
  forall c, c ∈ default [] (vget (bl_succ bl) b) -> c < nb ->
    covered w c (steps m ret s (block_span m bl b)).

Lemma settled_descends w w' b s : descends w w' -> settled w b s -> settled w' b s.
Proof.
  intros Hd [H1 H2]. split; [by eapply throws_covered_descends|].
  intros c Hc Hlt. eapply covered_descends; [exact Hd|auto].
Qed.

Lemma steps_sized s pcs : sized m s -> sized m (steps m ret s pcs).
Proof.
  revert s. induction pcs as [|pc pcs IH]; intros s Hs; [done|]. by apply IH, stepTypes_sized.
Qed.

(** The work with block [b] taken off the queue. *)
Definition taken (w : Work) (b : N) (q : list N) : Work :=
  mkWork (w_inStates w) (w_visited w) (vset (w_inQueue w) b false) q
    (w_ops w) (w_dead w) (w_stateSlots w) (w_sink w).

Lemma taken_wf w b q : wf w -> w_queue w = b :: q -> wf (taken w b q).
Proof.
  intros [A1 A2 A3 A4 A5 A6] Hq. split; cbn; rewrite ?vlen_vset; try done.
  - intros c Hc. apply A4. rewrite Hq. by apply list_elem_of_further.
  - intros c. rewrite flagged_vset. case_decide as Hd; [done|]. intros Hf.
    pose proof (A5 c Hf) as Hin. rewrite Hq in Hin. apply elem_of_cons in Hin as [->|?]; [|done].
    destruct Hd. split; [done|]. rewrite A3. apply A4. rewrite Hq. apply list_elem_of_here.
Qed.

Lemma flowBlock_evolves b q w :
  wf w -> w_queue w = b :: q ->
  let w' := flowBlock m ret bl b (pop w q) in
  wf w' /\ evolves (taken w b q) w' /\ moves w w' /\
  (w_dead w' = true \/ settled w' b (state_of w b)).
Proof.
  intros Hw Hq. pose proof (moves_flowBlock m ret bl b q w) as Hm. revert Hm.
  unfold flowBlock. cbn [pop w_inStates w_visited w_inQueue w_queue w_ops w_dead w_stateSlots w_sink].
  fold (taken w b q). pose proof (taken_wf w b q Hw Hq) as Hw0.
  destruct (tick_evolves _ Hw0) as [Hw1 He1].
  assert (state_of (tick (taken w b q)) b = state_of w b) as Hst.
  { destruct (tick_same (taken w b q)) as (T1 & _). unfold state_of. by rewrite T1. }
  rewrite Hst. destruct (wf_queue w Hw b) as [Hb Hseen]; [rewrite Hq; apply list_elem_of_here|].
  pose proof (wf_sized w Hw b Hseen) as Hs.
  pose proof (flow_span (block_span m bl b) (state_of w b) _ Hs Hw1) as H.
  destruct (for_break _ _ _) as [s w2]. destruct H as (H1 & H2 & H3 & H4).
  destruct (w_dead w2) eqn:Hd.
  { intros Hm. split; [done|]. split; [by etrans|]. split; [done|by left]. }
  destruct H4 as [?|[-> H4]]; [congruence|].
  set (out := steps m ret (state_of w b) (block_span m bl b)) in *.
  destruct (edges_evolve (succEdge m bl out) (default [] (vget (bl_succ bl) b))
    (fun c => c < nb) (fun c => c) (fun _ => out) w2) as (J1 & J2 & J3 & J4); [|done|].
  { intros c w' _ Hw'. apply succEdge_evolves; [by apply steps_sized|done]. }
  intros Hm. split; [done|]. split; [by etrans; [|etrans]|]. split; [done|].
  destruct J4 as [J4|J4]; [by left|right]. split; [|exact J4].
  eapply throws_covered_descends; [apply J2|exact H4].
Qed.

(** Every visited block is queued or settled. *)
Definition progress (w : Work) : Prop :=
  forall b, seen w b -> b ∈ w_queue w \/ settled w b (state_of w b).

Lemma progress_flowBlock b q w :
  wf w -> progress w -> w_queue w = b :: q ->
  let w' := flowBlock m ret bl b (pop w q) in
  wf w' /\ descends w w' /\ moves w w' /\ (w_dead w' = true \/ progress w').
Proof.
  intros Hw Hp Hq. destruct (flowBlock_evolves b q w Hw Hq) as (H1 & H2 & H3 & H4).
  assert (descends w (flowBlock m ret bl b (pop w q))) as Hd by exact (ev_desc _ _ H2).
  split; [done|]. split; [done|]. split; [done|].
  destruct H4 as [?|H4]; [by left|right]. intros c Hc.
  destruct (decide (c ∈ w_queue (flowBlock m ret bl b (pop w q)))) as [|Hnq]; [by left|right].
  destruct (ev_new _ _ H2 c Hc) as [Hc0|?]; [|done].
  destruct (ev_keep _ _ H2 c Hc0) as [Heq|?]; [|done]. rewrite Heq.
  change (state_of (taken w b q) c) with (state_of w c).
  destruct (decide (c = b)) as [->|Hne]; [exact H4|].
  eapply settled_descends; [exact Hd|]. destruct (Hp c Hc0) as [Hin|?]; [|done].
  rewrite Hq in Hin. apply elem_of_cons in Hin as [?|Hin]; [done|].
  destruct Hnq. by apply (ev_queue _ _ H2).
Qed.

(** The fixpoint: when the worklist ends without a diagnostic, every visited
    block is settled. *)
Lemma worklist_fixpoint fuel w w' :
  wf w -> progress w -> worklist fuel m ret bl w = Some w' ->
  w_dead w' = false -> w_sink w' = [] ->
  wf w' /\ descends w w' /\ forall b, seen w' b -> settled w' b (state_of w' b).
Proof.
  intros Hw Hp Hrun Hdead Hsink. revert w Hw Hp Hrun.
  induction fuel as [|fuel IH]; intros w Hw Hp; cbn [worklist];
    destruct (w_queue w) as [|b q] eqn:Hq.
  - intros [= <-]. split_and!; [done|apply descends_refl|]. intros b Hb.
    destruct (Hp b Hb) as [Hin|?]; [|done]. rewrite Hq in Hin. by apply elem_of_nil in Hin.
  - destruct (w_dead w || full (w_sink w)) eqn:Hstop; [|done]. intros [= <-].
    rewrite Hdead, Hsink in Hstop. done.
  - intros [= <-]. split_and!; [done|apply descends_refl|]. intros b Hb.
    destruct (Hp b Hb) as [Hin|?]; [|done]. rewrite Hq in Hin. by apply elem_of_nil in Hin.
  - destruct (w_dead w || full (w_sink w)) eqn:Hstop.
    { intros [= <-]. rewrite Hdead, Hsink in Hstop. done. }
    destruct (progress_flowBlock b q w Hw Hp Hq) as (H1 & H2 & H3 & H4). intros Hrun.
    assert (w_dead (flowBlock m ret bl b (pop w q)) = false) as Hd1.
    { destruct (w_dead (flowBlock m ret bl b (pop w q))) eqn:E; [|done].
      rewrite <- Hdead. destruct fuel; cbn [worklist] in Hrun; rewrite E in Hrun; cbn [orb] in Hrun;
        destruct (w_queue (flowBlock _ _ _ _ _)); injection Hrun as <-; by rewrite E. }
    destruct H4 as [?|H4]; [congruence|].
    destruct (IH _ H1 H4 Hrun) as (J1 & J2 & J3). split_and!; [done| |done].
    by eapply descends_trans.
Qed.
End Flow.
