(* ===== verification/RbcSound.v ===== *)
(** * What the RBC verifier guarantees

    A machine that runs an RBC method on the types of its values, and the theorem
    that an accepted method never goes wrong on it: control stays in the code,
    every register, local and constant it touches exists, and every typed operand
    holds a value of its type. *)

From Stdlib Require Import Ascii.
From S2P Require Import Prelude RbcOpcode Rbc RbcVerifier RbcBlocks RbcTotal RbcFlow.

Local Open Scope N_scope.

(** ** The machine *)

(** Registers and locals hold the types of their values; [Bottom] is a slot that
    was never written. *)
Record mstate := mkState { ms_pc : N; ms_slots : FlowState }.

(** What instruction [x] can do to the slots. A load or a store moves a value; any
    other instruction that writes its destination writes some value of the type
    its table row or its descriptor declares. *)
Definition writes (m : Method) (pc : N) (op : Op) (x : Ins) (s s' : FlowState) : Prop :=
  if decide (op = Op.Iinc) then s' = setReg s (i_dst x) RType.Int
  else if decide (oi_sig (info op) = Sig.RegSlot) then
    s' = setReg s (i_dst x) (local s (i_imm x))
  else if decide (oi_sig (info op) = Sig.SlotReg) then
    s' = setLocal s (i_imm x) (reg s (i_a x))
  else match fst (resultOf m pc op (i_imm x)) with
       | None => s' = s
       | Some t => exists t', isAssignable t' t = true /\ s' = setReg s (i_dst x) t'
       end.

(** Where control can go from [pc]. *)
Inductive goes (m : Method) (pc : N) (op : Op) (x : Ins) : N -> Prop :=
| goes_on : canFallThrough op = true -> goes m pc op x (pc + 1)
| goes_branch : isBranchSig (oi_sig (info op)) = true -> goes m pc op x (i_imm x)
| goes_switch t : oi_sig (info op) = Sig.RegCpBranch -> t ∈ switchTargets m x ->
    goes m pc op x t.

(** An instruction runs, or throws into a handler that covers it: the exception
    is in [r0], the other registers are lost, the locals are kept. *)
Inductive mstep (m : Method) : mstate -> mstate -> Prop :=
| step_runs pc s x op s' pc' :
    vget (m_code m) pc = Some x -> of_code (i_op x) = Some op ->
    writes m pc op x s s' -> goes m pc op x pc' ->
    mstep m (mkState pc s) (mkState pc' s')
| step_throws pc s x h :
    vget (m_code m) pc = Some x -> h ∈ m_handlers m -> covers h pc = true ->
    mstep m (mkState pc s) (mkState (h_handler h) (handlerState m (fl_locals s))).

(** Everything the instruction at the machine's pc relies on. *)
Record runs_well (m : Method) (st : mstate) (x : Ins) (op : Op) : Prop := {
  rw_fetch : vget (m_code m) (ms_pc st) = Some x;
  rw_opcode : of_code (i_op x) = Some op;
  rw_dst : ru_dst (regUse (oi_sig (info op))) = true -> i_dst x < vlen (fl_regs (ms_slots st));
  rw_a : ru_a (regUse (oi_sig (info op))) = true -> i_a x < vlen (fl_regs (ms_slots st));
  rw_b : ru_b (regUse (oi_sig (info op))) = true -> i_b x < vlen (fl_regs (ms_slots st));
  rw_args : isCallSig (oi_sig (info op)) = true ->
    i_a x + i_b x <= vlen (fl_regs (ms_slots st));
  rw_slot : isSlotSig (oi_sig (info op)) = true -> i_imm x < vlen (fl_locals (ms_slots st));
  rw_cp : usesCp op = true ->
    exists c, vget (m_cp m) (i_imm x) = Some c /\ cpKindOk op (c_kind c) = true;
  rw_operandA : isCallSig (oi_sig (info op)) = false ->
    ru_a (regUse (oi_sig (info op))) = true -> oi_operandA (info op) <> RType.Bottom ->
    isAssignable (reg (ms_slots st) (i_a x)) (oi_operandA (info op)) = true;
  rw_operandB : isCallSig (oi_sig (info op)) = false ->
    ru_b (regUse (oi_sig (info op))) = true -> oi_operandB (info op) <> RType.Bottom ->
    isAssignable (reg (ms_slots st) (i_b x)) (oi_operandB (info op)) = true;
  rw_iinc : op = Op.Iinc -> isAssignable (reg (ms_slots st) (i_dst x)) RType.Int = true;
  rw_load : oi_sig (info op) = Sig.RegSlot -> oi_result (info op) <> RType.Bottom ->
    isAssignable (local (ms_slots st) (i_imm x)) (oi_result (info op)) = true;
  rw_return : isReturnOp op = true -> agrees op (scanMethodDesc (m_descriptor m)) = true
}.

(** ** Structure *)

Lemma when_msg_nil c msg : when c msg = [] <-> c = false.
Proof. by destruct c. Qed.

Lemma for_while_good {A St} (good : St -> Prop) go (body : A -> St -> St) l s :
  (forall x s, good (body x s) -> good s) -> (forall s, good s -> go s = true) ->
  good (for_while go body l s) ->
  good s /\ forall x, x ∈ l -> exists s1, good s1 /\ good (body x s1).
Proof.
  intros Hb Hgo. revert s. induction l as [|y l IH]; intros s; cbn [for_while].
  { intros Hs. split; [done|]. by intros x ?%elem_of_nil. }
  destruct (go s) eqn:E; [|intros Hs; by rewrite (Hgo s Hs) in E].
  intros [Hs Hl]%IH. split; [by eapply Hb|].
  intros x [->|Hx]%elem_of_cons; [|auto]. exists s. split; [by eapply Hb|done].
Qed.

Lemma structural_nil m :
  phase1b m (phase1 m (phase0 m)) = [] ->
  (forall pc, pc < vlen (m_code m) -> checkIns m pc (ins_at m pc) = []) /\
  (forall h, h ∈ m_handlers m -> checkHandler m h = []).
Proof.
  unfold phase1b, phase1. intros H.
  apply (for_while_good (fun sink => sink = [])) in H as [H Hh];
    [|by intros h sink [-> _]%add_all_nil|by intros ? ->].
  apply (for_while_good (fun sink => sink = [])) in H as [_ Hp];
    [|by intros pc sink [-> _]%add_all_nil|by intros ? ->].
  split.
  - intros pc Hpc. destruct (Hp pc) as (s1 & _ & [_ ?]%add_all_nil); [|done]. by apply elem_of_indices.
  - intros h Hin. by destruct (Hh h Hin) as (s1 & _ & [_ ?]%add_all_nil).
Qed.

Lemma ins_at_get m pc : pc < vlen (m_code m) -> vget (m_code m) pc = Some (ins_at m pc).
Proof. intros [x Hx]%vget_lt_is_Some. unfold ins_at. by rewrite Hx. Qed.

(** A handler without a message is sound. *)
Lemma checkHandler_sound m h : checkHandler m h = [] -> soundHandler m h = true.
Proof.
  unfold checkHandler, soundHandler. intros [H1 [H2 _]%app_nil]%app_nil.
  destruct ((h_end h <? h_start h) || (vlen (m_code m) <? h_end h)) eqn:E; [done|].
  rewrite when_msg_nil in H1, H2. apply orb_false_iff in E as [E1%N.ltb_ge E2].
  apply N.eqb_neq in H1. rewrite E2, H2. destruct (N.leb_spec (h_end h) (h_start h)); [lia|done].
Qed.

(** ** The sweep *)

Section Sweep.
Context (m : Method) (ret : RetScan) (bl : Blocks).

Definition quiet (y : Sweep) : Prop := s_dead y = false /\ s_sink y = [].

Lemma sweeps_quiet y y' : sweeps y y' -> quiet y' -> quiet y.
Proof.
  intros [H1 _ H2 _] [Hd Hs]. split; [|auto]. destruct (s_dead y); [|done]. by rewrite H1 in Hd.
Qed.

Lemma sweep_span_quiet pcs s y :
  quiet (snd (for_break (sweepIns m ret) pcs (s, y))) ->
  forall i pc, pcs !! i = Some pc -> stepMsgs m ret pc (steps m ret s (take i pcs)) = [].
Proof.
  revert s y. induction pcs as [|pc0 pcs IH]; intros s y; [done|]. cbn [for_break].
  destruct (sweepIns m ret pc0 (s, y)) as [stop [s1 y1]] eqn:E.
  assert (quiet (snd (if stop then (s1, y1) else for_break (sweepIns m ret) pcs (s1, y1))) ->
    quiet y1) as Hq1.
  { destruct stop; [done|]. apply sweeps_quiet, sweeps_span. }
  intros Hq. specialize (Hq1 Hq). revert E. unfold sweepIns.
  destruct (s_dead y) eqn:Hd.
  { intros [= <- <- <-]. destruct Hq1. congruence. }
  destruct (s_dead (sweep_tick y)) eqn:Hd'.
  { intros [= <- <- <-]. destruct Hq1. congruence. }
  destruct (stepIns m ret pc0 (ins_at m pc0) s) as [[s' msgs] stored] eqn:Hstep.
  intros [= <- <- Hy1].
  assert (stepTypes m ret pc0 s = s' /\ stepMsgs m ret pc0 s = msgs) as [Hst Hmsgs]
    by (unfold stepTypes, stepMsgs; by rewrite Hstep).
  assert (msgs = []) as Hnil.
  { set (z := mkSweep _ _ _ _ _ _) in Hy1.
    assert (quiet z) as [_ Hz].
    { destruct stored as [[l t]|]; [|by rewrite Hy1]. subst y1.
      eapply sweeps_quiet; [apply sweeps_record|exact Hq1]. }
    by apply add_all_nil in Hz as [_ ?]. }
  intros [|i] pc Hi; [injection Hi as <-; cbn; congruence|].
  cbn [take]. change (steps m ret s (pc0 :: take i pcs)) with
    (steps m ret (stepTypes m ret pc0 s) (take i pcs)). rewrite Hst. by eapply IH.
Qed.

Lemma sweep_quiet w :
  quiet (sweep m ret bl w) ->
  (w_dead w = false /\ w_sink w = []) /\
  forall b i pc, b < vlen (bl_starts bl) -> seen w b -> block_span m bl b !! i = Some pc ->
    stepMsgs m ret pc (steps m ret (state_of w b) (take i (block_span m bl b))) = [].
Proof.
  unfold sweep. intros Hq. apply (for_while_good quiet) in Hq as [Hw Hb].
  - split; [exact Hw|]. intros b i pc Hlt Hseen Hi.
    destruct (Hb b) as (y & Hy & Hy'); [by apply elem_of_indices|].
    unfold sweepBlock in Hy'. unfold seen in Hseen. rewrite Hseen in Hy'. cbn [negb] in Hy'.
    destruct (s_dead (sweepEntry _ _ _ _)) eqn:Hd; [destruct Hy'; congruence|].
    by eapply sweep_span_quiet.
  - intros b y. apply sweeps_quiet, sweeps_Block.
  - by intros y [-> ->].
Qed.
End Sweep.

(** ** Switch targets are in the code *)

Lemma targetsOk_lt n l t : t ∈ snd (targetsOk n l) -> t < n.
Proof.
  unfold targetsOk.
  cut (forall acc, (forall t, t ∈ snd acc -> t < n) ->
    forall t, t ∈ snd (foldl (targetOk n) acc l) -> t < n).
  { intros H. apply H. by intros ? ?%elem_of_nil. }
  induction l as [|z l IH]; intros [[ok msgs] ts] Hacc; [done|]. cbn [foldl]. apply IH.
  unfold targetOk. destruct ((z <? 0)%Z || (n <=? Z.to_N z)) eqn:E; [done|]. cbn [snd] in *.
  apply orb_false_iff in E as [_ E%N.leb_gt]. intros u [?|Hu%list_elem_of_singleton]%elem_of_app.
  - auto.
  - by subst u.
Qed.

Lemma both_targets x y t : t ∈ snd (both x y) -> t ∈ snd x \/ t ∈ snd y.
Proof. destruct x as [[? ?] ?], y as [[? ?] ?]. cbn. by rewrite elem_of_app. Qed.

Lemma lookup_entries_lt n v l acc t :
  (forall t, t ∈ snd acc -> t < n) ->
  t ∈ snd (foldl both acc (lookup_entry n v <$> l)) -> t < n.
Proof.
  revert acc. induction l as [|i l IH]; intros acc Hacc; [apply Hacc|]. cbn. apply IH.
  intros u [?|Hu]%both_targets; [auto|]. revert Hu. unfold lookup_entry.
  destruct (targetsOk n _) as [[ok msgs] ts] eqn:E. cbn. intros Hu.
  apply (targetsOk_lt n [int_at v (3 + 2 * i)]). by rewrite E.
Qed.

Lemma switchTargets_lt m x t : t ∈ switchTargets m x -> t < vlen (m_code m).
Proof.
  unfold switchTargets, validateSwitch. destruct (vget (m_cp m) (i_imm x)) as [c|];
    [|by intros ?%elem_of_nil]. destruct (negb _); [by intros ?%elem_of_nil|].
  destruct (_ =? _).
  - unfold validateTableswitch. destruct (_ <? _); [by intros ?%elem_of_nil|].
    destruct (_ || _); [by intros ?%elem_of_nil|]. apply targetsOk_lt.
  - unfold validateLookupswitch. destruct (_ <? _); [by intros ?%elem_of_nil|].
    destruct (_ || _); [by intros ?%elem_of_nil|].
    intros [H|H]%both_targets; [|by eapply targetsOk_lt].
    eapply lookup_entries_lt; [|exact H]. by intros ? ?%elem_of_nil.
Qed.

(** ** One instruction *)

Lemma sub_vset (l l' : list RType) i a b :
  Forall2 below l l' -> below a b -> Forall2 below (vset l i a) (vset l' i b).
Proof. intros H Hab. rewrite !vset_insert. by apply Forall2_insert. Qed.

Lemma sub_get (l l' : list RType) i :
  Forall2 below l l' -> below (default RType.Bottom (vget l i)) (default RType.Bottom (vget l' i)).
Proof.
  intros H. rewrite !vget_lookup. pose proof (Forall2_lookup_l below l l' (N.to_nat i)) as Hl.
  destruct (l !! N.to_nat i) as [a|] eqn:E.
  - destruct (Hl a H eq_refl) as (b & -> & ?). done.
  - apply lookup_ge_None in E. rewrite (Forall2_length _ _ _ H) in E.
    apply lookup_ge_None in E. rewrite E. apply below_refl.
Qed.

Lemma sub_reg s t i : sub s t -> below (reg s i) (reg t i).
Proof. intros [H _]. by apply sub_get. Qed.

Lemma sub_local s t i : sub s t -> below (local s i) (local t i).
Proof. intros [_ H]. by apply sub_get. Qed.

Lemma sub_setReg s t i a b : sub s t -> below a b -> sub (setReg s i a) (setReg t i b).
Proof. intros [H1 H2] Hab. split; [by apply sub_vset|done]. Qed.

Lemma sub_setLocal s t i a b : sub s t -> below a b -> sub (setLocal s i a) (setLocal t i b).
Proof. intros [H1 H2] Hab. split; [done|by apply sub_vset]. Qed.

(** What the structural check of an instruction guarantees. *)
Record well_formed (m : Method) (x : Ins) (op : Op) : Prop := {
  wi_dst : ru_dst (regUse (oi_sig (info op))) = true -> i_dst x < m_numRegs m;
  wi_a : ru_a (regUse (oi_sig (info op))) = true -> i_a x < m_numRegs m;
  wi_b : ru_b (regUse (oi_sig (info op))) = true -> i_b x < m_numRegs m;
  wi_args : isCallSig (oi_sig (info op)) = true -> i_a x + i_b x <= m_numRegs m;
  wi_slot : isSlotSig (oi_sig (info op)) = true -> i_imm x < m_numLocals m;
  wi_cp : usesCp op = true ->
    exists c, vget (m_cp m) (i_imm x) = Some c /\ cpKindOk op (c_kind c) = true;
  wi_branch : isBranchSig (oi_sig (info op)) = true -> i_imm x < vlen (m_code m)
}.

Lemma guarded_lt g a b : g && (b <=? a) = false -> g = true -> a < b.
Proof. intros H ->. by apply N.leb_gt in H. Qed.

Lemma checkIns_well_formed m pc x :
  checkIns m pc x = [] -> exists op, of_code (i_op x) = Some op /\ well_formed m x op.
Proof.
  unfold checkIns. destruct (of_code (i_op x)) as [op|]; [|done]. intros H. exists op. split; [done|].
  apply app_nil in H as [H1%when_msg_nil H]. apply app_nil in H as [H2%when_msg_nil H].
  apply app_nil in H as [H3%when_msg_nil H]. apply app_nil in H as [H4%when_msg_nil H].
  apply app_nil in H as [H5%when_msg_nil H]. apply app_nil in H as [_ H].
  apply app_nil in H as [H7 H]. apply app_nil in H as [H8%when_msg_nil _].
  split; try (by eapply guarded_lt; eassumption).
  - intros Hc. pose proof (guarded_lt _ _ _ H2) as Ha. rewrite Hc in H4. cbn [andb] in H4.
    assert (i_a x < m_numRegs m) as Hlt by (apply Ha; by destruct (oi_sig (info op))).
    destruct (N.eqb_spec (i_b x) 0); [lia|]. cbn [negb andb] in H4.
    rewrite (proj2 (N.ltb_lt _ _) Hlt) in H4. apply N.ltb_ge in H4. done.
  - intros Hu. rewrite Hu in H7. unfold checkCp in H7.
    destruct (vget (m_cp m) (i_imm x)) as [c|]; [|done]. apply when_msg_nil, negb_false_iff in H7. eauto.
Qed.

(** What the absence of messages guarantees of the abstract operands. *)
Lemma operandCheck_nil uses want pc name slot found isLocal :
  operandCheck uses want pc name slot found isLocal = [] ->
  uses = true -> want <> RType.Bottom -> isAssignable found want = true.
Proof.
  unfold operandCheck. rewrite when_msg_nil. intros H -> Hw. cbn [andb] in H.
  rewrite bool_decide_eq_false_2 in H by done. by apply negb_false_iff in H.
Qed.

Lemma regsMissing_false m x op s :
  well_formed m x op -> sized m s -> regsMissing (regUse (oi_sig (info op))) x s = false.
Proof.
  intros [H1 H2 H3 _ _ _ _] [Hr _]. unfold regsMissing. rewrite Hr.
  destruct (ru_dst _), (ru_a _), (ru_b _); cbn; rewrite ?orb_false_iff; split_and?;
    auto; apply N.leb_gt; auto.
Qed.

(** What the absence of messages says of the operands. *)
Record typed_operands (ret : RetScan) (x : Ins) (op : Op) (s : FlowState) : Prop := {
  to_a : isCallSig (oi_sig (info op)) = false ->
    ru_a (regUse (oi_sig (info op))) = true -> oi_operandA (info op) <> RType.Bottom ->
    isAssignable (reg s (i_a x)) (oi_operandA (info op)) = true;
  to_b : isCallSig (oi_sig (info op)) = false ->
    ru_b (regUse (oi_sig (info op))) = true -> oi_operandB (info op) <> RType.Bottom ->
    isAssignable (reg s (i_b x)) (oi_operandB (info op)) = true;
  to_iinc : op = Op.Iinc -> isAssignable (reg s (i_dst x)) RType.Int = true;
  to_load : oi_sig (info op) = Sig.RegSlot -> oi_result (info op) <> RType.Bottom ->
    isAssignable (local s (i_imm x)) (oi_result (info op)) = true;
  to_return : isReturnOp op = true -> agrees op ret = true
}.

(** The opcodes the step treats first return nothing. *)
Lemma iinc_sig : oi_sig (info Op.Iinc) = Sig.RegImm.
Proof. done. Qed.

Lemma return_sig op :
  isReturnOp op = true ->
  op <> Op.Iinc /\ oi_sig (info op) <> Sig.RegSlot /\ oi_sig (info op) <> Sig.SlotReg.
Proof. by destruct op. Qed.

Lemma stepMsgs_typed m ret pc x op s :
  ins_at m pc = x -> of_code (i_op x) = Some op -> well_formed m x op -> sized m s ->
  stepMsgs m ret pc s = [] -> typed_operands ret x op s.
Proof.
  intros Hx Hop Hwf Hs. unfold stepMsgs, stepIns. rewrite Hx, Hop.
  rewrite (regsMissing_false m x op s Hwf Hs).
  set (ops := operandMsgs pc op x s). intros H.
  assert (ops = []) as Hops.
  { revert H. repeat case_bool_decide; [|destruct (_ <=? _)..|destruct (resultOf _ _ _ _)];
      cbn; rewrite ?app_nil; naive_solver. }
  assert (isCallSig (oi_sig (info op)) = false ->
    operandCheck (ru_a (regUse (oi_sig (info op)))) (oi_operandA (info op)) pc (oi_name (info op))
      (i_a x) (reg s (i_a x)) false = [] /\
    operandCheck (ru_b (regUse (oi_sig (info op)))) (oi_operandB (info op)) pc (oi_name (info op))
      (i_b x) (reg s (i_b x)) false = []) as Hab.
  { intros Hc. unfold ops, operandMsgs in Hops. rewrite Hc in Hops. by apply app_nil in Hops. }
  rewrite Hops in H. cbn [app] in H. split.
  - intros Hc. destruct (Hab Hc) as [Ha _]. exact (operandCheck_nil _ _ _ _ _ _ _ Ha).
  - intros Hc. destruct (Hab Hc) as [_ Hb]. exact (operandCheck_nil _ _ _ _ _ _ _ Hb).
  - intros ->. rewrite bool_decide_eq_true_2 in H by done. cbn [fst snd] in H.
    by apply (operandCheck_nil _ _ _ _ _ _ _ H).
  - intros Hsig Hres. rewrite bool_decide_eq_false_2 in H by (intros ->; by rewrite iinc_sig in Hsig).
    rewrite bool_decide_eq_true_2 in H by done.
    assert (i_imm x < m_numLocals m) as Hslot by (apply (wi_slot _ _ _ Hwf); by rewrite Hsig).
    destruct (N.leb_spec (vlen (fl_locals s)) (i_imm x)) as [Hge|_].
    { destruct Hs as [_ Hl]. rewrite Hl in Hge. lia. }
    cbn [fst snd] in H. by apply (operandCheck_nil _ _ _ _ _ _ _ H).
  - intros Hr. destruct (return_sig op Hr) as (R1 & R2 & R3).
    rewrite !bool_decide_eq_false_2 in H by done. destruct (resultOf m pc op (i_imm x)) as [t bad].
    cbn [fst snd] in H. apply app_nil in H as [H _]. rewrite Hr in H. cbn [andb] in H.
    by apply when_msg_nil, negb_false_iff in H.
Qed.

(** The abstract step admits what the machine does. *)
Lemma writes_sound m ret pc x op s s' S :
  ins_at m pc = x -> of_code (i_op x) = Some op -> well_formed m x op -> sized m S ->
  typed_operands ret x op S -> sub s S -> writes m pc op x s s' -> sub s' (stepTypes m ret pc S).
Proof.
  intros Hx Hop Hwf HS Hty Hsub. unfold writes, stepTypes, stepIns. rewrite Hx, Hop.
  rewrite (regsMissing_false m x op S Hwf HS).
  assert (isSlotSig (oi_sig (info op)) = true -> (vlen (fl_locals S) <=? i_imm x) = false) as Hslot.
  { intros Hsig. apply N.leb_gt. rewrite (proj2 HS). by apply (wi_slot _ _ _ Hwf). }
  case_decide as Hi.
  { intros ->. rewrite bool_decide_eq_true_2 by done. apply sub_setReg; [done|apply below_refl]. }
  rewrite (bool_decide_eq_false_2 (op = Op.Iinc)) by done. case_decide as Hl.
  { intros ->. rewrite bool_decide_eq_true_2 by done. rewrite Hslot by (by rewrite Hl).
    cbn [fst]. apply sub_setReg; [done|].
    destruct (decide (oi_result (info op) = RType.Bottom)) as [->|Hne]; [by left|right].
    eapply below_assignable; [by apply sub_local|by apply (to_load _ _ _ _ Hty)|done]. }
  rewrite (bool_decide_eq_false_2 (oi_sig (info op) = Sig.RegSlot)) by done. case_decide as Hst.
  { intros ->. rewrite bool_decide_eq_true_2 by done. rewrite Hslot by (by rewrite Hst).
    cbn [fst]. apply sub_setLocal; [done|by apply sub_reg]. }
  rewrite bool_decide_eq_false_2 by done.
  destruct (resultOf m pc op (i_imm x)) as [[t|] bad]; cbn [fst setDst].
  - intros (t' & Ht & ->). apply sub_setReg; [done|by right].
  - by intros ->.
Qed.

(** ** Accepted methods *)

Lemma entryState_sized m params entry : entryState m params = Some entry -> sized m entry.
Proof.
  unfold entryState. destruct (N.ltb_spec (m_numLocals m) ((if isStatic m then 0 else 1) + vlen params))
    as [|Hle]; [done|]. intros [= <-]. split; cbn; [apply vlen_replicate|].
  rewrite vlen_app. unfold bottoms. rewrite vlen_replicate, vlen_app.
  destruct (isStatic m); cbn; change (vlen [RType.Ref]) with 1; change (vlen (@nil RType)) with 0; lia.
Qed.

(** What acceptance provides: well-formed instructions and handlers, an end that
    does not fall through, and a typing of the blocks that the entry state enters,
    that is closed under control flow, and under which no instruction complains. *)
Record typing (m : Method) (ret : RetScan) (entry : FlowState) (w : Work) : Prop := {
  ty_ins : forall pc, pc < vlen (m_code m) ->
    exists op, of_code (i_op (ins_at m pc)) = Some op /\ well_formed m (ins_at m pc) op;
  ty_handlers : forall h, h ∈ m_handlers m -> soundHandler m h = true;
  ty_end : forall op, of_code (i_op (ins_at m (vlen (m_code m) - 1))) = Some op ->
    canFallThrough op = false;
  ty_wf : wf m (blocks m) w;
  ty_entry : covered w 0 entry;
  ty_settled : forall b, seen w b -> settled m ret (blocks m) w b (state_of w b);
  ty_quiet : forall b i pc, b < vlen (starts m) -> seen w b ->
    block_span m (blocks m) b !! i = Some pc ->
    stepMsgs m ret pc (steps m ret (state_of w b) (take i (block_span m (blocks m) b))) = []
}.

Lemma fallOff_nil m sink :
  fallOff m sink = [] ->
  sink = [] /\ forall op, of_code (i_op (ins_at m (vlen (m_code m) - 1))) = Some op ->
    canFallThrough op = false.
Proof.
  unfold fallOff. destruct (of_code _) as [op|].
  - destruct (canFallThrough op) eqn:E; [by intros ?%add_nonempty|].
    intros ->. split; [done|]. by intros op' [= <-].
  - by intros ->.
Qed.

(** The structural part of acceptance. *)
Definition structured (m : Method) : Prop :=
  (forall pc, pc < vlen (m_code m) ->
     exists op, of_code (i_op (ins_at m pc)) = Some op /\ well_formed m (ins_at m pc) op) /\
  (forall h, h ∈ m_handlers m -> soundHandler m h = true) /\
  (forall op, of_code (i_op (ins_at m (vlen (m_code m) - 1))) = Some op ->
     canFallThrough op = false).

Lemma stability_nil m bps sink : stability m bps sink = [] -> sink = [].
Proof.
  intros H. destruct (decide (sink = [])) as [|Hne]; [done|]. exfalso. revert H.
  unfold stability. apply (foldl_keeps (fun s => s <> [])); [|done]. intros s h Hs.
  destruct (negb _); [done|]. apply (foldl_keeps (fun s => s <> [])); [|done].
  intros s' i Hs'. unfold checkStable. destruct (vget _ _) as [[pc t]|]; [|done].
  destruct (_ <? _); [apply add_nonempty|done].
Qed.

Lemma flow_typing fuel m ret entry w :
  0 < vlen (m_code m) -> structured m -> sized m entry ->
  let nb := N.to_nat (vlen (starts m)) in
  let '(ok, w1) := seed m 0 entry (mkWork (replicate nb (mkFlow [] [])) (replicate nb false)
                     (replicate nb false) [] 0 false 0 []) in
  ok = true -> worklist fuel m ret (blocks m) (enq 0 w1) = Some w ->
  quiet (sweep m ret (blocks m) w) -> typing m ret entry w.
Proof.
  intros Hn (S1 & S2 & S3) He nb. set (w0 := mkWork _ _ _ _ _ _ _ _).
  assert (0 < vlen (starts m)) as Hnb by (eapply vget_Some_lt, starts_first, Hn).
  assert (forall b, ~ seen w0 b) as Hno.
  { intros b. unfold seen, flagged. cbn. rewrite vget_lookup.
    destruct (replicate nb false !! N.to_nat b) as [x|] eqn:E; [|done].
    by apply lookup_replicate in E as [-> _]. }
  assert (wf m (blocks m) w0) as Hw0.
  { split; cbn; try apply vlen_replicate.
    - by intros b ?%elem_of_nil.
    - intros b Hb. destruct (Hno b). exact Hb.
    - intros b Hb. by destruct (Hno b). }
  pose proof (seed_evolves m (blocks m) 0 entry w0 Hw0 Hnb He (Hno 0)) as Hsd.
  destruct (seed m 0 entry w0) as [ok w1]. intros -> Hwl Hq.
  destruct Hsd as (H1 & H2 & H3).
  destruct (sweep_quiet m ret (blocks m) w Hq) as [[Hd Hs] Hmsgs].
  destruct (worklist_fixpoint m ret (blocks m)) with (fuel := fuel) (w := enq 0 w1) (w' := w)
    as (J1 & J2 & J3); try done.
  - intros h Hh Hsd. pose proof Hsd as Hlt. unfold soundHandler in Hlt.
    apply negb_true_iff in Hlt. rewrite !orb_false_iff in Hlt. destruct Hlt as [_ Hlt%N.leb_gt].
    by apply (method_block m Hn).
  - intros b Hb. destruct (ev_new _ _ H2 b Hb) as [Hb0|?]; [by destruct (Hno b)|by left].
  - split; try done. by eapply covered_descends.
Qed.

(** The work before the entry block is seeded. *)
Definition blank (m : Method) (sink : diags) : Work :=
  let nb := N.to_nat (vlen (starts m)) in
  mkWork (replicate nb (mkFlow [] [])) (replicate nb false) (replicate nb false) [] 0 false 0 sink.

(** A run of the dataflow whose final sink is empty: nothing died on the way. *)
Lemma run_quiet fuel m ret sink entry w1 w :
  seed m 0 entry (blank m sink) = (true, w1) ->
  worklist fuel m ret (blocks m) (enq 0 w1) = Some w ->
  (if w_dead w then Some (w_sink w)
   else if s_dead (sweep m ret (blocks m) w) then Some (s_sink (sweep m ret (blocks m) w))
        else Some (stability m (s_bps (sweep m ret (blocks m) w))
                     (s_sink (sweep m ret (blocks m) w)))) = Some [] ->
  sink = [] /\ quiet (sweep m ret (blocks m) w).
Proof.
  intros Hseed Hwl Hi. set (y := sweep m ret (blocks m) w) in *.
  pose proof (moves_seed m 0 entry (blank m sink)) as Hmv. rewrite Hseed in Hmv. cbn [snd] in Hmv.
  assert (moves (blank m sink) w) as Hmw.
  { etrans; [exact Hmv|]. etrans; [apply (moves_enq 0)|by eapply worklist_moves]. }
  pose proof (sweeps_sweep m ret (blocks m) w) as Hsw. fold y in Hsw.
  assert (w_sink w = [] -> w_dead w = false) as Hlive by (intros H; by rewrite (mv_dies _ _ Hmw H)).
  assert (s_sink y = []) as Hy.
  { destruct (w_dead w) eqn:Hdw; [injection Hi as Hi; by specialize (Hlive Hi)|].
    destruct (s_dead y); injection Hi as Hi; [done|by eapply stability_nil]. }
  pose proof (sv_sink _ _ Hsw Hy) as Hws. cbn in Hws.
  split; [exact (mv_sink _ _ Hmw Hws)|]. split; [|done].
  rewrite (sv_dies _ _ Hsw Hy). by apply Hlive.
Qed.

Lemma phase2_quiet fuel m sink :
  phase2 fuel m sink = Some [] ->
  exists params entry w1 w, parseParams (m_descriptor m) [] = (true, params) /\
    entryState m params = Some entry /\ seed m 0 entry (blank m []) = (true, w1) /\
    worklist fuel m (scanMethodDesc (m_descriptor m)) (blocks m) (enq 0 w1) = Some w /\
    fallOff m sink = [] /\ quiet (sweep m (scanMethodDesc (m_descriptor m)) (blocks m) w).
Proof.
  unfold phase2. set (ret := scanMethodDesc (m_descriptor m)).
  assert (forall s pc msg, Some (add s pc msg) = Some [] -> False) as Hno.
  { intros s pc msg [= H]. by apply add_nonempty in H. }
  destruct (parseParams (m_descriptor m) []) as [[] params]; cbn [negb orb]; [|by intros ?%Hno].
  destruct (rs_ok ret); cbn [negb]; [|by intros ?%Hno].
  destruct (entryState m params) as [entry|] eqn:He; [|by intros ?%Hno].
  change (mkWork _ _ _ _ _ _ _ (fallOff m sink)) with (blank m (fallOff m sink)).
  destruct (seed m 0 entry (blank m (fallOff m sink))) as [[] w1] eqn:Hseed; cbn [negb].
  - destruct (worklist fuel m ret (blocks m) (enq 0 w1)) as [w|] eqn:Hwl; [|done]. intros Hi.
    destruct (run_quiet _ _ _ _ _ _ _ Hseed Hwl Hi) as [Hs Hq]. rewrite Hs in Hseed.
    exists params, entry, w1, w. split; [reflexivity|]. split; [exact He|]. split; [exact Hseed|].
    split; [exact Hwl|]. split; [exact Hs|exact Hq].
  - revert Hseed. unfold seed. destruct (kMaxStateSlots <? _); [|done]. intros [= <-]. by intros ?%Hno.
Qed.

Lemma accepted_typing fuel m r :
  verify fuel m = Some r -> vr_ok r = true -> m_code m <> [] ->
  exists params entry w, parseParams (m_descriptor m) [] = (true, params) /\
    entryState m params = Some entry /\
    typing m (scanMethodDesc (m_descriptor m)) entry w.
Proof.
  intros Hv Hok Hne.
  assert (0 < vlen (m_code m)) as Hn by (destruct (m_code m); [done|unfold vlen; simpl; lia]).
  unfold verify in Hv. destruct (verifyImpl fuel m) as [ds|] eqn:Hi; [|done].
  injection Hv as <-. cbn in Hok. apply bool_decide_eq_true in Hok. subst ds.
  unfold verifyImpl in Hi. destruct (_ <? _); [injection Hi as Hi; by apply add_nonempty in Hi|].
  destruct (N.eqb_spec (vlen (m_code m)) 0); [lia|]. cbn [orb] in Hi.
  set (sink := phase1b m (phase1 m (phase0 m))) in *.
  destruct (full sink) eqn:Hfull; [injection Hi as Hi; by rewrite Hi in Hfull|].
  destruct (phase2_quiet fuel m sink Hi) as (params & entry & w1 & w & Hp & He & Hsd & Hwl & Hf & Hq).
  exists params, entry, w. split; [done|]. split; [done|].
  assert (structured m) as Hst.
  { apply fallOff_nil in Hf as [Hs Hend]. destruct (structural_nil m Hs) as [H1 H2]. split_and!.
    - intros pc Hpc. by eapply checkIns_well_formed, H1.
    - intros h Hh. by apply checkHandler_sound, H2.
    - exact Hend. }
  pose proof (flow_typing fuel m (scanMethodDesc (m_descriptor m)) entry w Hn Hst
    (entryState_sized m params entry He)) as Hty.
  cbn zeta in Hty. change (mkWork _ _ _ _ _ _ _ []) with (blank m []) in Hty.
  rewrite Hsd in Hty. by apply Hty.
Qed.

(** ** Safety *)

Section Safety.
Context (m : Method) (ret : RetScan) (entry : FlowState) (w : Work).
Hypothesis Hcode : 0 < vlen (m_code m).
Hypothesis Hty : typing m ret entry w.

Abbreviation n := (vlen (m_code m)).
Abbreviation bspan := (block_span m (blocks m)).

(** The machine is at some position of a visited block, with slots the typing of
    that position admits. *)
Definition typed_at (st : mstate) : Prop :=
  exists b i, b < vlen (starts m) /\ seen w b /\ bspan b !! i = Some (ms_pc st) /\
    sub (ms_slots st) (steps m ret (state_of w b) (take i (bspan b))).

Lemma span_lookup b i pc : bspan b !! i = Some pc -> pc = start_of (starts m) b + N.of_nat i.
Proof.
  unfold block_span, span. rewrite list_lookup_fmap. unfold indices.
  rewrite list_lookup_fmap. destruct (seq _ _ !! i) as [j|] eqn:E; [|done].
  apply lookup_seq in E as [-> _]. cbn. by intros [= <-].
Qed.

Lemma length_bspan b :
  N.of_nat (length (bspan b)) = end_of n (starts m) b - start_of (starts m) b.
Proof. exact (vlen_span n (starts m) b). Qed.

Lemma span_first b : b < vlen (starts m) -> bspan b !! 0%nat = Some (start_of (starts m) b).
Proof.
  intros Hb. destruct (bspan b !! 0%nat) as [pc|] eqn:E.
  - apply span_lookup in E as ->. f_equal. lia.
  - apply lookup_ge_None in E. pose proof (length_bspan b) as Hl.
    pose proof (span_nonempty n (starts m) (starts_sorted m) (starts_bound m) b Hb). lia.
Qed.

Lemma span_in b i pc : bspan b !! i = Some pc -> start_of (starts m) b <= pc < end_of n (starts m) b.
Proof. intros H%list_elem_of_lookup_2. by apply (elem_of_block m). Qed.

(** The position is the last of its block exactly when the block ends after it. *)
Lemma span_take b i pc :
  bspan b !! i = Some pc -> pc + 1 = end_of n (starts m) b -> take (S i) (bspan b) = bspan b.
Proof.
  intros Hi He. apply take_ge. pose proof (span_lookup b i pc Hi) as Hpc.
  pose proof (length_bspan b). lia.
Qed.

Lemma steps_snoc b i pc s :
  bspan b !! i = Some pc ->
  steps m ret s (take (S i) (bspan b)) = stepTypes m ret pc (steps m ret s (take i (bspan b))).
Proof. intros H. unfold steps. by rewrite (take_S_r _ _ _ H), foldl_app. Qed.

(** Entering the block that starts at [pc] in a covered state. *)
Lemma enter_block pc s S :
  pc ∈ starts m -> covered w (block_at (bl_blockOf (blocks m)) pc) S -> sub s S ->
  typed_at (mkState pc s).
Proof.
  intros Hpc [Hseen HS] Hs. pose proof (starts_bound m pc Hpc) as Hlt.
  destruct (method_block m Hcode pc Hlt) as [Hb _].
  exists (block_at (bl_blockOf (blocks m)) pc), 0%nat. split_and!; try done.
  - rewrite span_first by done. by rewrite (block_start m Hcode).
  - cbn. by etrans.
Qed.

(** Where an instruction goes is in the code and among its successors. *)
Lemma goes_next pc op pc' :
  pc < n -> of_code (i_op (ins_at m pc)) = Some op -> goes m pc op (ins_at m pc) pc' ->
  pc' < n /\ pc' ∈ nextPcs m pc.
Proof.
  intros Hpc Hop Hgo. destruct (ty_ins _ _ _ _ Hty pc Hpc) as (op' & Hop' & Hwf).
  assert (op' = op) as -> by congruence. unfold nextPcs. rewrite Hop, !elem_of_app.
  destruct Hgo as [Hf|Hb|t Hsw Ht].
  - assert (pc + 1 < n) as Hlt.
    { destruct (decide (pc = n - 1)) as [->|]; [|lia].
      rewrite (ty_end _ _ _ _ Hty op Hop) in Hf. done. }
    split; [done|]. left. rewrite Hf, (proj2 (N.ltb_lt _ _) Hlt). by apply list_elem_of_singleton.
  - split; [by apply (wi_branch _ _ _ Hwf)|]. right; left. rewrite Hb. by apply list_elem_of_singleton.
  - split; [by eapply switchTargets_lt|]. right; right. by rewrite bool_decide_eq_true_2.
Qed.

Lemma typed_step st st' : typed_at st -> mstep m st st' -> typed_at st'.
Proof.
  intros (b & i & Hb & Hseen & Hi & Hsub) Hstep.
  destruct (ty_settled _ _ _ _ Hty b Hseen) as [Hthr Hsucc].
  pose proof (steps_sized m ret _ (take i (bspan b)) (wf_sized _ _ _ (ty_wf _ _ _ _ Hty) b Hseen)) as Hsz.
  destruct Hstep as [pc s x op s' pc' Hx Hop Hwr Hgo|pc s x h Hx Hh Hcov]; cbn [ms_pc ms_slots] in *.
  - pose proof (vget_Some_lt _ _ _ Hx) as Hpc. rewrite ins_at_get in Hx by done. injection Hx as <-.
    destruct (ty_ins _ _ _ _ Hty pc Hpc) as (op' & Hop' & Hwf). assert (op' = op) as -> by congruence.
    pose proof (stepMsgs_typed m ret pc _ op _ eq_refl Hop Hwf Hsz (ty_quiet _ _ _ _ Hty b i pc Hb Hseen Hi))
      as Hto.
    pose proof (writes_sound m ret pc _ op s s' _ eq_refl Hop Hwf Hsz Hto Hsub Hwr) as Hs'.
    rewrite <- (steps_snoc b i pc) in Hs' by done.
    destruct (goes_next pc op pc' Hpc Hop Hgo) as [Hlt Hnext].
    pose proof (span_in b i pc Hi) as Hin. destruct (N.eq_dec (pc + 1) (end_of n (starts m) b)) as [He|He].
    + rewrite (span_take b i pc Hi He) in Hs'. assert (pc = end_of n (starts m) b - 1) as Hlast by lia.
      rewrite Hlast in Hnext. eapply enter_block; [| |exact Hs'].
      * by eapply next_outside.
      * apply Hsucc; [by apply succ_recorded|]. by apply (method_block m Hcode).
    + assert (pc' = pc + 1) as -> by (eapply (next_inside m Hcode b); try done; lia).
      exists b, (S i). split_and!; try done. cbn [ms_pc].
      assert (pc + 1 ∈ bspan b) as Hel by (apply (elem_of_block m); lia).
      apply list_elem_of_lookup in Hel as [j Hj]. pose proof (span_lookup b j _ Hj).
      pose proof (span_lookup b i _ Hi). assert (j = S i) as -> by lia. done.
  - pose proof (ty_handlers _ _ _ _ Hty h Hh) as Hs.
    eapply enter_block; [by apply handler_start|by eapply Hthr|].
    destruct Hsub as [_ Hl]. by split.
Qed.

Lemma typed_runs_well st :
  ret = scanMethodDesc (m_descriptor m) -> typed_at st -> exists x op, runs_well m st x op.
Proof.
  intros Hret (b & i & Hb & Hseen & Hi & Hsub).
  pose proof (steps_sized m ret _ (take i (bspan b)) (wf_sized _ _ _ (ty_wf _ _ _ _ Hty) b Hseen)) as Hsz.
  pose proof (proj2 (sub_sized m _ _ Hsub) Hsz) as [Hr Hl].
  assert (ms_pc st < n) as Hpc by (eapply block_pc, list_elem_of_lookup_2; done).
  destruct (ty_ins _ _ _ _ Hty _ Hpc) as (op & Hop & Hwf).
  pose proof (stepMsgs_typed m ret _ _ op _ eq_refl Hop Hwf Hsz (ty_quiet _ _ _ _ Hty b i _ Hb Hseen Hi)) as [T1 T2 T3 T4 T5].
  destruct Hwf as [W1 W2 W3 W4 W5 W6 W7].
  exists (ins_at m (ms_pc st)), op. split; rewrite ?Hr, ?Hl; auto.
  - by apply ins_at_get.
  - intros Hc Hu Hn. eapply below_assignable; [by apply sub_reg|by apply T1|done].
  - intros Hc Hu Hn. eapply below_assignable; [by apply sub_reg|by apply T2|done].
  - intros Hop'. eapply below_assignable; [by apply sub_reg|by apply T3|done].
  - intros Hs Hn. eapply below_assignable; [by apply sub_local|by apply T4|done].
  - rewrite <- Hret. done.
Qed.
End Safety.

(** C12: bytecode that the verifier accepts does not go wrong. Run the method from
    its entry with arguments of the types its descriptor declares: whatever it
    does, and whatever it throws, the next instruction exists, has a valid opcode,
    touches only registers, locals and constants that exist, and finds in each
    operand that its opcode declares a type for, each loaded or incremented local and
    each returned register a value of that type. Not typed, by the verifier and so
    here: the values stored into arrays and fields and the arguments of calls
    ([value_operands_unchecked]). *)
Theorem rbc_type_safety fuel m r params entry s0 st :
  verify fuel m = Some r -> vr_ok r = true -> m_code m <> [] ->
  parseParams (m_descriptor m) [] = (true, params) -> entryState m params = Some entry ->
  sub s0 entry -> rtc (mstep m) (mkState 0 s0) st ->
  exists x op, runs_well m st x op.
Proof.
  intros Hv Hok Hne Hp He Hs0 Hrun.
  destruct (accepted_typing fuel m r Hv Hok Hne) as (params' & entry' & w & Hp' & He' & Hty).
  assert (params' = params) as -> by congruence. assert (entry' = entry) as -> by congruence.
  assert (0 < vlen (m_code m)) as Hn by (destruct (m_code m); [done|unfold vlen; simpl; lia]).
  eapply typed_runs_well; [exact Hn|exact Hty|reflexivity|].
  remember (mkState 0 s0) as st0 eqn:E0.
  assert (typed_at m (scanMethodDesc (m_descriptor m)) w st0) as H0.
  { subst st0. assert (0 ∈ starts m) as H0 by (apply leader_starts; [done|by left]).
    eapply enter_block; [exact Hn|exact H0| |exact Hs0].
    assert (block_at (bl_blockOf (blocks m)) 0 = 0) as ->; [|apply (ty_entry _ _ _ _ Hty)].
    pose proof (block_start m Hn 0 H0) as Hb. destruct (method_block m Hn 0 Hn) as [Hlt _].
    pose proof (start_0 (starts m) (starts_first m Hn)) as Hz.
    destruct (N.lt_total (block_at (bl_blockOf (blocks m)) 0) 0) as [?|[?|Hgt]]; [lia|done|].
    pose proof (start_lt (starts m) (starts_sorted m) 0 _ Hgt Hlt). lia. }
  clear E0. induction Hrun as [|a c d Hac _ IH]; [done|]. by apply IH, (typed_step _ _ _ _ Hn Hty a).
Qed.

(** [add_method] from its entry to its addition. *)
Lemma rbc_type_safety_witness :
  exists x op, runs_well add_method
    (mkState 2 (mkFlow [RType.Int; RType.Int] [RType.Int; RType.Int])) x op.
Proof.
  eapply (rbc_type_safety 100 add_method _ [RType.Int; RType.Int]
    (mkFlow [RType.Bottom; RType.Bottom] [RType.Int; RType.Int])
    (mkFlow [RType.Bottom; RType.Bottom] [RType.Int; RType.Int]));
    [vm_compute; reflexivity|reflexivity|discriminate|vm_compute; reflexivity
    |vm_compute; reflexivity|reflexivity|].
  eapply rtc_l; [|eapply rtc_l; [|apply rtc_refl]].
  - eapply step_runs; [reflexivity|reflexivity|reflexivity|by apply goes_on].
  - eapply step_runs; [reflexivity|reflexivity|reflexivity|by apply goes_on].
Defined.

(** ** What is not checked *)

(** The registers whose types the messages of an instruction depend on. *)
Definition checked (op : Op) (x : Ins) (r : N) : Prop :=
  isCallSig (oi_sig (info op)) = false /\
  (ru_a (regUse (oi_sig (info op))) = true /\ oi_operandA (info op) <> RType.Bottom /\ r = i_a x \/
   ru_b (regUse (oi_sig (info op))) = true /\ oi_operandB (info op) <> RType.Bottom /\ r = i_b x) \/
  op = Op.Iinc /\ r = i_dst x.

(** The registers an instruction reads as values besides its typed operands: the
    value of an array or field store, the arguments of a call, and all but the
    first dimension of a multi-array. *)
Definition reads_value (op : Op) (x : Ins) (r : N) : Prop :=
  match op with
  | Op.Iastore | Op.Lastore | Op.Fastore | Op.Dastore | Op.Aastore | Op.Bastore | Op.Castore
  | Op.Sastore | Op.Putstatic => r = i_dst x
  | Op.Putfield => r = i_b x
  | Op.Multianewarray => i_a x < r < i_a x + i_b x
  | _ => isCallSig (oi_sig (info op)) = true /\ i_a x <= r < i_a x + i_b x
  end.

Lemma reg_setReg_ne s r t i : i <> r -> reg (setReg s r t) i = reg s i.
Proof. intros H. unfold reg, setReg. cbn. by rewrite vget_vset_ne by done. Qed.

Lemma operandCheck_ext uses want pc name slot f f' isLocal :
  (uses = true -> want <> RType.Bottom -> f = f') ->
  operandCheck uses want pc name slot f isLocal = operandCheck uses want pc name slot f' isLocal.
Proof.
  intros H. unfold operandCheck. destruct uses; [|done].
  case_bool_decide; cbn; [done|]. by rewrite H.
Qed.

(** The verifier does not look at the registers that stores, calls and
    multi-array allocations read as values. The messages of an instruction are
    the same whatever the type of such a register, written or not, unless it is
    also one of the instruction's typed operands. *)
Theorem value_operands_unchecked m ret pc op s r t :
  of_code (i_op (ins_at m pc)) = Some op -> reads_value op (ins_at m pc) r ->
  ~ checked op (ins_at m pc) r ->
  stepMsgs m ret pc (setReg s r t) = stepMsgs m ret pc s.
Proof.
  intros Hop _ Hno. unfold stepMsgs, stepIns. rewrite Hop.
  assert (regsMissing (regUse (oi_sig (info op))) (ins_at m pc) (setReg s r t) =
    regsMissing (regUse (oi_sig (info op))) (ins_at m pc) s) as ->
    by (unfold regsMissing, setReg; cbn; by rewrite vlen_vset).
  destruct (regsMissing _ _ _); [done|]. set (x := ins_at m pc) in *.
  assert (isCallSig (oi_sig (info op)) = false ->
    ru_a (regUse (oi_sig (info op))) = true -> oi_operandA (info op) <> RType.Bottom ->
    reg (setReg s r t) (i_a x) = reg s (i_a x)) as Ha.
  { intros. apply reg_setReg_ne. intros <-. apply Hno. left. auto. }
  assert (isCallSig (oi_sig (info op)) = false ->
    ru_b (regUse (oi_sig (info op))) = true -> oi_operandB (info op) <> RType.Bottom ->
    reg (setReg s r t) (i_b x) = reg s (i_b x)) as Hb.
  { intros. apply reg_setReg_ne. intros <-. apply Hno. left. auto. }
  assert (operandMsgs pc op x (setReg s r t) = operandMsgs pc op x s) as ->.
  { unfold operandMsgs. destruct (isCallSig _); [done|].
    f_equal; apply operandCheck_ext; auto. }
  case_bool_decide as Hi.
  { cbn. f_equal. apply operandCheck_ext. intros _ _. apply reg_setReg_ne.
    intros <-. apply Hno. by right. }
  case_bool_decide; [by destruct (_ <=? _)|]. case_bool_decide; [by destruct (_ <=? _)|].
  by destruct (resultOf _ _ _ _).
Qed.

(** [void f(int[])] that stores a register it never wrote into its argument. *)
Definition store_method : Method :=
  mkMethod "f" "([I)V" method_flags.Static 3 1
    [ins Op.Aload 1 0 0 0; ins Op.Iconst 2 0 0 0; ins Op.Iastore 0 1 2 0; ins Op.Return 0 0 0 0]
    [] [].

(** It is accepted, and its store reads the unwritten [r0]. *)
Lemma value_operands_unchecked_witness :
  verify 100 store_method = Some (mkResult true []) /\
  rtc (mstep store_method)
    (mkState 0 (mkFlow [RType.Bottom; RType.Bottom; RType.Bottom] [RType.Ref]))
    (mkState 2 (mkFlow [RType.Bottom; RType.Ref; RType.Int] [RType.Ref])) /\
  forall ret t,
    stepMsgs store_method ret 2 (setReg (mkFlow [RType.Bottom; RType.Ref; RType.Int] [RType.Ref]) 0 t) =
    stepMsgs store_method ret 2 (mkFlow [RType.Bottom; RType.Ref; RType.Int] [RType.Ref]).
Proof.
  split; [vm_compute; reflexivity|]. split.
  - eapply rtc_l; [|eapply rtc_l; [|apply rtc_refl]].
    + eapply step_runs; [reflexivity|reflexivity|reflexivity|by apply goes_on].
    + eapply step_runs; [reflexivity|reflexivity| |by apply goes_on].
      exists RType.Int. split; reflexivity.
  - intros ret t. apply (value_operands_unchecked store_method ret 2 Op.Iastore);
      [reflexivity|reflexivity|].
    intros [[_ [(_ & _ & ?)|(_ & _ & ?)]]|[? _]]; discriminate.
Defined.
