(* ===== verification/RbcDescriptor.v ===== *)
(** * The two descriptor parsers agree

    Rbc.cpp parses descriptors for lowering and entry states, Verifier.cpp scans
    them again for return types. Whatever the first accepts, the second accepts
    with the same types. *)

From Stdlib Require Import Ascii.
From S2P Require Import Prelude RbcOpcode Rbc RbcVerifier.

Local Open Scope N_scope.

Lemma name_rest_after e d r : name_rest e d = Some r -> after_semi d = Some r.
Proof.
  revert e. induction d as [|c d IH]; intros e; [done|]. cbn.
  destruct (Ascii.eqb c ";"); [by destruct e|]. destruct (_ || _); [done|]. apply IH.
Qed.

Lemma name_rest_class d r : name_rest true d = Some r -> class_rest d = Some r.
Proof.
  destruct d as [|c d]; [done|]. intros H. cbn in H |- *. pose proof H as H'.
  destruct (Ascii.eqb c ";") eqn:E; [done|]. destruct (_ || _); [done|].
  by apply name_rest_after in H'.
Qed.

(** Decides the tests on a character that is known. *)
Ltac known_char := repeat match goal with
  | H : context [Ascii.eqb ?c ?k] |- _ => is_var c; destruct (Ascii.eqb_spec c k); [subst c|]
  end.

Lemma elem_scan e rest t r :
  parseTypeAt_ 1 (e :: rest) false true = Some (t, r) ->
  (if Ascii.eqb e "L" then
     match class_rest rest with None => None | Some rest => Some (RType.Ref, rest) end
   else if is_any e ["I"; "J"; "F"; "D"; "Z"; "B"; "C"; "S"]%char then Some (RType.Ref, rest)
   else None) = Some (RType.Ref, r).
Proof.
  cbn [parseTypeAt_]. intros H. known_char; try done; cbn in H |- *; try (by injection H as <- <-).
  destruct (name_rest true rest) as [r'|] eqn:E; [|done]. injection H as <- <-.
  by rewrite (name_rest_class _ _ E).
Qed.

Lemma parse_scan d v t r :
  parseTypeAt d v false = Some (t, r) -> t <> RType.Bottom -> scanField d = Some (t, r).
Proof.
  unfold parseTypeAt. destruct d as [|c rest]; [done|]. intros H Ht.
  destruct (Ascii.eqb_spec c "[") as [->|Hb].
  { cbn [parseTypeAt_] in H. cbn in H. change (if Ascii.eqb "[" "[" then _ else _) with
      (skip_brackets rest) in H.
    destruct (skip_brackets rest) as [|e rest'] eqn:E; [done|].
    destruct (parseTypeAt_ 1 (e :: rest') false true) as [[t' r']|] eqn:E'; [|by cbn in H, E'; rewrite E' in H].
    pose proof (elem_scan _ _ _ _ E') as Hs. cbn in H, E'. rewrite E' in H. injection H as <- <-.
    unfold scanField. rewrite E. exact Hs. }
  cbn [parseTypeAt_] in H. known_char; try done; cbn in H |- *; try (by injection H as <- <-).
  - destruct v; [|done]. by injection H as <- <-.
  - destruct (name_rest true rest) as [r'|] eqn:E; [|done]. injection H as <- <-.
    by rewrite (name_rest_class _ _ E).
Qed.

Lemma parse_value d t r : parseTypeAt d false false = Some (t, r) -> t <> RType.Bottom.
Proof.
  unfold parseTypeAt. destruct d as [|c rest]; [done|]. cbn [parseTypeAt_]. intros H ->.
  destruct (Ascii.eqb_spec c "V"); [done|]. destruct (Ascii.eqb_spec c "I"); [done|].
  destruct (Ascii.eqb_spec c "J"); [done|]. destruct (Ascii.eqb_spec c "F"); [done|].
  destruct (Ascii.eqb_spec c "D"); [done|].
  destruct (Ascii.eqb_spec c "L"); [by destruct (name_rest true rest)|].
  destruct (Ascii.eqb_spec c "[").
  { change (match parseTypeAt_ 1 (skip_brackets (c :: rest)) false true with
            | None => None | Some (_, rest) => Some (RType.Ref, rest) end =
            Some (RType.Bottom, r)) in H.
    by destruct (parseTypeAt_ 1 _ false true) as [[]|]. }
  by destruct (_ || _).
Qed.

(** The scanner follows the parameter walk, and the collecting pass collects as
    many types as the walk counts. *)
Lemma walk_scan fuel d k k' rest :
  walkParams_ fuel d k = Some (k', rest) -> scanParams fuel d = Some rest.
Proof.
  revert d k. induction fuel as [|fuel IH]; intros [|c d] k; try done. cbn [walkParams_ scanParams].
  destruct (Ascii.eqb c ")"); [by intros [= <- <-]|].
  destruct (parseTypeAt (c :: d) false false) as [[t r]|] eqn:E; [|done].
  rewrite (parse_scan _ _ _ _ E (parse_value _ _ _ E)). apply IH.
Qed.

Lemma walk_collect fuel d k k' rest out :
  walkParams_ fuel d k = Some (k', rest) ->
  exists ps, collectParams fuel d out = (true, out ++ ps) /\ k' = k + vlen ps.
Proof.
  revert d k out. induction fuel as [|fuel IH]; intros [|c d] k out; try done.
  cbn [walkParams_ collectParams]. destruct (Ascii.eqb c ")").
  { intros [= <- <-]. exists []. rewrite app_nil_r. split; [done|]. change (vlen []) with 0. lia. }
  destruct (parseTypeAt (c :: d) false false) as [[t r]|]; [|done]. intros H.
  destruct (IH r (k + 1) (out ++ [t]) H) as (ps & -> & ->). exists (t :: ps).
  rewrite <- (assoc_L (++)). split; [done|]. unfold vlen. simpl. lia.
Qed.

(** The descriptor parsers of Rbc.cpp and Verifier.cpp agree. When
    [parseReturn] finds a return type, the descriptor's parameters parse and the
    verifier's scanner accepts it with the same type; and [paramCount] counts the
    parameters that [parseParams] collects. *)
Theorem descriptor_parsers_agree d :
  (parseReturn d <> RType.Bottom ->
     scanMethodDesc d = mkRet true false (parseReturn d) /\ fst (parseParams d []) = true) /\
  (forall ps, parseParams d [] = (true, ps) -> paramCount d = u32 (vlen ps)).
Proof.
  unfold parseReturn, scanMethodDesc, parseParams, paramCount.
  destruct (chars_of d) as [|c rest]; [by split|].
  destruct (negb (Ascii.eqb c "(")); [by split|]. unfold walkParams.
  destruct (walkParams_ (List.length rest) rest 0) as [[k tl]|] eqn:E; [|by split].
  destruct (walk_collect _ _ _ _ _ [] E) as (ps & -> & ->). split.
  - rewrite (walk_scan _ _ _ _ _ E). intros Hne. split; [|done].
    destruct tl as [|p tl]; [done|]. cbn [tail] in *.
    destruct (parseTypeAt tl true false) as [[t [|]]|] eqn:Et; try done.
    destruct tl as [|c' tl]; [done|].
    destruct (Ascii.eqb_spec c' "V") as [->|Hv].
    { destruct Hne. cbn in Et. congruence. }
    cbn [andb]. by rewrite (parse_scan _ _ _ _ Et Hne).
  - by intros ps' [= <-].
Qed.

(** [(I[BLjava/lang/Object;)J]. *)
Definition example_descriptor : string := "(I[BLjava/lang/Object;)J".

Example example_parse :
  parseParams example_descriptor [] = (true, [RType.Int; RType.Ref; RType.Ref]) /\
  scanMethodDesc example_descriptor = mkRet true false RType.Long.
Proof. split; vm_compute; reflexivity. Qed.

(** The scanner accepts more: a bare [Z] is an int to it and malformed to the
    parser, so the verifier rejects the method's own descriptor when it has one. *)
Example scanner_accepts_more :
  rs_ok (scanMethodDesc "(Z)V") = true /\ fst (parseParams "(Z)V" []) = false.
Proof. split; vm_compute; reflexivity. Qed.
