(* ===== verification/RbcBuilder.v ===== *)
(** * The method builder

    include/b2/rbc/RbcBuilder.h and compiler/rbc/src/RbcBuilder.cpp: constants are
    interned, instructions appended, labels resolved when the method is finished.
    The operations are functions on the builder's state; an operation that answers
    an index returns it with the new state. A label is its id. *)

From stdpp Require Import pretty.
From S2P Require Import Prelude Machine RbcOpcode Rbc.

Local Open Scope N_scope.

(** ** State *)

Definition kUnbound : N := 4294967295.
Definition kDoubleBound : N := 4294967294.
Definition kMaxRegs : N := 65536.
Definition kBranchSlot : N := 4294967295.
Definition kNoLabel : N := 4294967295.

Record Patch := mkPatch { pt_at : N; pt_labelId : N; pt_slot : N }.

(** [labels_] holds the ids in order, so only its size matters. *)
Record Builder := mkBuilder {
  bd_name : string; bd_descriptor : string; bd_flags : N;
  bd_numRegs : N; bd_numLocals : N;
  bd_code : list Ins; bd_cp : list Const; bd_handlers : list ExceptionHandler;
  bd_labels : list N; bd_boundAt : list N; bd_patches : list Patch;
  bd_pendingError : string
}.

Definition newBuilder (name descriptor : string) (flags : N) : Builder :=
  mkBuilder name descriptor flags 0 0 [] [] [] [] [] [] "".

Definition with_sizes (regs locals : N) (b : Builder) : Builder :=
  mkBuilder (bd_name b) (bd_descriptor b) (bd_flags b) regs locals (bd_code b) (bd_cp b)
    (bd_handlers b) (bd_labels b) (bd_boundAt b) (bd_patches b) (bd_pendingError b).

Definition with_code (code : list Ins) (b : Builder) : Builder :=
  mkBuilder (bd_name b) (bd_descriptor b) (bd_flags b) (bd_numRegs b) (bd_numLocals b) code
    (bd_cp b) (bd_handlers b) (bd_labels b) (bd_boundAt b) (bd_patches b) (bd_pendingError b).

Definition with_cp (cp : list Const) (b : Builder) : Builder :=
  mkBuilder (bd_name b) (bd_descriptor b) (bd_flags b) (bd_numRegs b) (bd_numLocals b)
    (bd_code b) cp (bd_handlers b) (bd_labels b) (bd_boundAt b) (bd_patches b)
    (bd_pendingError b).

Definition with_handlers (hs : list ExceptionHandler) (b : Builder) : Builder :=
  mkBuilder (bd_name b) (bd_descriptor b) (bd_flags b) (bd_numRegs b) (bd_numLocals b)
    (bd_code b) (bd_cp b) hs (bd_labels b) (bd_boundAt b) (bd_patches b) (bd_pendingError b).

Definition with_labels (labels boundAt : list N) (b : Builder) : Builder :=
  mkBuilder (bd_name b) (bd_descriptor b) (bd_flags b) (bd_numRegs b) (bd_numLocals b)
    (bd_code b) (bd_cp b) (bd_handlers b) labels boundAt (bd_patches b) (bd_pendingError b).

Definition with_patches (ps : list Patch) (b : Builder) : Builder :=
  mkBuilder (bd_name b) (bd_descriptor b) (bd_flags b) (bd_numRegs b) (bd_numLocals b)
    (bd_code b) (bd_cp b) (bd_handlers b) (bd_labels b) (bd_boundAt b) ps (bd_pendingError b).

Definition with_pending (err : string) (b : Builder) : Builder :=
  mkBuilder (bd_name b) (bd_descriptor b) (bd_flags b) (bd_numRegs b) (bd_numLocals b)
    (bd_code b) (bd_cp b) (bd_handlers b) (bd_labels b) (bd_boundAt b) (bd_patches b) err.

(** ** Sizing *)

Definition setRegs (n : N) (b : Builder) : Builder := with_sizes n (bd_numLocals b) b.
Definition setLocals (n : N) (b : Builder) : Builder := with_sizes (bd_numRegs b) n b.
Definition newReg (b : Builder) : N * Builder :=
  (bd_numRegs b, with_sizes (u32 (bd_numRegs b + 1)) (bd_numLocals b) b).

(** ** Constant pool *)

Definition isSwitchOp (op : Op) : bool :=
  bool_decide (op = Op.Tableswitch) || bool_decide (op = Op.Lookupswitch).

(** Floating-point constants are compared by their bits. *)
Definition sameConst (a b : Const) : bool :=
  bool_decide (c_kind a = c_kind b) &&
  match c_kind a with
  | Kind.Int32 => (c_i32 a =? c_i32 b)%Z
  | Kind.Int64 => (c_i64 a =? c_i64 b)%Z
  | Kind.Float => c_f32 a =? c_f32 b
  | Kind.Double => c_f64 a =? c_f64 b
  | Kind.Utf8 | Kind.String | Kind.Class | Kind.MethodType => (c_str a =? c_str b)%string
  | Kind.NameType | Kind.MethodHandle | Kind.InvokeDynamic =>
      (c_str a =? c_str b)%string && (c_str2 a =? c_str2 b)%string
  | Kind.FieldRef | Kind.MethodRef | Kind.InterfaceMethodRef =>
      (c_str a =? c_str b)%string && (c_str2 a =? c_str2 b)%string &&
      (c_str3 a =? c_str3 b)%string
  | Kind.SwitchTable => bool_decide (c_ints a = c_ints b)
  end.

(** The index of the first entry equal to [c]. *)
Fixpoint find_const (c : Const) (i : N) (cp : list Const) : option N :=
  match cp with
  | [] => None
  | x :: cp => if sameConst x c then Some i else find_const c (i + 1) cp
  end.

Definition push_const (c : Const) (b : Builder) : N * Builder :=
  (u32 (vlen (bd_cp b)), with_cp (bd_cp b ++ [c]) b).

Definition internConst (c : Const) (b : Builder) : N * Builder :=
  match find_const c 0 (bd_cp b) with
  | Some i => (u32 i, b)
  | None => push_const c b
  end.

Definition constInt (v : Z) : Builder -> N * Builder :=
  internConst (mkConst Kind.Int32 v 0 0 0 "" "" "" []).
Definition constLong (v : Z) : Builder -> N * Builder :=
  internConst (mkConst Kind.Int64 0 v 0 0 "" "" "" []).
Definition constFloat (bits : N) : Builder -> N * Builder :=
  internConst (mkConst Kind.Float 0 0 bits 0 "" "" "" []).
Definition constDouble (bits : N) : Builder -> N * Builder :=
  internConst (mkConst Kind.Double 0 0 0 bits "" "" "" []).
Definition constString (v : string) : Builder -> N * Builder :=
  internConst (mkConst Kind.String 0 0 0 0 v "" "" []).
Definition constClass (internalName : string) : Builder -> N * Builder :=
  internConst (mkConst Kind.Class 0 0 0 0 internalName "" "" []).
Definition constFieldRef (cls name descriptor : string) : Builder -> N * Builder :=
  internConst (mkConst Kind.FieldRef 0 0 0 0 cls name descriptor []).
Definition constMethodRef (cls name descriptor : string) : Builder -> N * Builder :=
  internConst (mkConst Kind.MethodRef 0 0 0 0 cls name descriptor []).
Definition switch_const (payload : list Z) : Const :=
  mkConst Kind.SwitchTable 0 0 0 0 "" "" "" payload.
Definition constSwitch (payload : list Z) : Builder -> N * Builder :=
  internConst (switch_const payload).

(** ** Emission *)

Definition rawEmit (i : Ins) (b : Builder) : N * Builder :=
  (u32 (vlen (bd_code b)), with_code (bd_code b ++ [i]) b).

Definition emit (op : Op) := rawEmit (ins op 0 0 0 0).
Definition emitReg (op : Op) (a : N) := rawEmit (ins op 0 a 0 0).
Definition emitRegImm (op : Op) (dst imm : N) := rawEmit (ins op dst 0 0 imm).
Definition emitRegCp (op : Op) (dst cpIdx : N) := rawEmit (ins op dst 0 0 cpIdx).
Definition emitRegSlot (op : Op) (dst slot : N) := rawEmit (ins op dst 0 0 slot).
Definition emitSlotReg (op : Op) (a slot : N) := rawEmit (ins op 0 a 0 slot).
Definition emitRegReg (op : Op) (dst a : N) := rawEmit (ins op dst a 0 0).
Definition emitRegRegReg (op : Op) (dst a b : N) := rawEmit (ins op dst a b 0).
Definition emitRegRegImm (op : Op) (dst a imm : N) := rawEmit (ins op dst a 0 imm).
Definition emitRegRegCp (op : Op) (dst a cpIdx : N) := rawEmit (ins op dst a 0 cpIdx).
Definition emitRegRegRegCp (op : Op) (dst a b cpIdx : N) := rawEmit (ins op dst a b cpIdx).
Definition emitCall (op : Op) (dst argBase argCount cpIdx : N) :=
  rawEmit (ins op dst argBase argCount cpIdx).
Definition emitGuard (op : Op) (a deoptId : N) := rawEmit (ins op 0 a 0 deoptId).
Definition emitTrap (deoptId : N) := rawEmit (ins Op.DeoptTrap 0 0 0 deoptId).

(** ** Branches *)

Definition add_patches (ps : list Patch) (b : Builder) : Builder :=
  with_patches (bd_patches b ++ ps) b.

(** An instruction whose [imm] is patched with each of the targets in turn. *)
Definition emit_patched (i : Ins) (targets : list N) (b : Builder) : N * Builder :=
  let '(at_, b) := rawEmit i b in
  (at_, add_patches ((fun t => mkPatch at_ t kBranchSlot) <$> targets) b).

Definition emitBranch (op : Op) (target : N) := emit_patched (ins op 0 0 0 0) [target].
Definition emitRegBranch (op : Op) (a target : N) := emit_patched (ins op 0 a 0 0) [target].
Definition emitRegRegBranch (op : Op) (a b target : N) :=
  emit_patched (ins op 0 a b 0) [target].

Definition at_pc (msg : string) (pc : N) (rest : string) : string :=
  msg +:+ pretty pc +:+ rest.

(** The first error of [pendingError_] stays. *)
Definition pend (cond : bool) (msg err : string) : string :=
  if cond && (err =? "")%string then msg else err.

(** The matches in order. Equal matches have no fixed order, and are an error. *)
Definition by_match (x y : Z * N) : Prop := (x.1 <= y.1)%Z.

#[export] Instance by_match_dec : RelDecision by_match.
Proof. intros x y. unfold by_match. apply _. Defined.

Definition sort_pairs (pairs : list (Z * N)) : list (Z * N) := merge_sort by_match pairs.

(** The error after the scan for equal neighbours. *)
Fixpoint dup_error (at_ : N) (pairs : list (Z * N)) (err : string) : string :=
  match pairs with
  | x :: (y :: _) as rest =>
      dup_error at_ rest
        (pend (x.1 =? y.1)%Z
           (at_pc "switch at pc " at_ (" has duplicate match " +:+ pretty y.1)) err)
  | _ => err
  end.

Definition slot_patches (at_ first step : N) (pairs : list (Z * N)) : list Patch :=
  imap (fun i p => mkPatch at_ p.2 (u32 (first + step * N.of_nat i))) pairs.

Definition contiguous (low high : Z) (n : N) : bool := (high - low + 1 =? Z.of_N n)%Z.

(** The default target of a switch at [at_]: the next instruction. *)
Definition fall_through (at_ : N) : Z := wrap 32 (Z.of_N (u32 (at_ + 1))).

Definition table_payload (at_ : N) (pairs : list (Z * N)) : list Z :=
  match pairs, last pairs with
  | x :: _, Some y =>
      x.1 :: y.1 :: fall_through at_ :: ((fun _ => 0%Z) <$> pairs)
  | _, _ => [0; -1; fall_through at_]%Z
  end.

Definition table_error (at_ : N) (pairs : list (Z * N)) (err : string) : string :=
  match pairs, last pairs with
  | x :: _, Some y =>
      pend (negb (contiguous x.1 y.1 (vlen pairs)))
        (at_pc "tableswitch at pc " at_
           " matches must be contiguous ascending (use lookupswitch for sparse matches)") err
  | _, _ => pend true (at_pc "tableswitch at pc " at_ " requires at least one match") err
  end.

Definition lookup_payload (at_ : N) (pairs : list (Z * N)) : list Z :=
  wrap 32 (Z.of_N (vlen pairs)) :: fall_through at_ :: concat ((fun p => [p.1; 0%Z]) <$> pairs).

Definition emitSwitch (op : Op) (a : N) (payload : list Z) (targets : list N) (b : Builder)
    : N * Builder :=
  if negb (isSwitchOp op) then emit_patched (ins op 0 a 0 0) targets b
  else
    let at_ := u32 (vlen (bd_code b)) in
    let err :=
      if negb (vlen payload =? vlen targets)
      then at_pc "switch at pc " at_
             (" has " +:+ pretty (vlen payload) +:+ " matches for " +:+
              pretty (vlen targets) +:+ " targets")
      else bd_pendingError b in
    let pairs := sort_pairs (zip payload targets) in
    let err := dup_error at_ pairs err in
    let '(ints, ps, err) :=
      if bool_decide (op = Op.Tableswitch)
      then (table_payload at_ pairs, slot_patches at_ 3 1 pairs, table_error at_ pairs err)
      else (lookup_payload at_ pairs, slot_patches at_ 3 2 pairs, err) in
    let '(cpIdx, b) := push_const (switch_const ints) (add_patches ps (with_pending err b)) in
    rawEmit (ins op 0 a 0 cpIdx) b.

(** ** Labels and handlers *)

Definition newLabel (b : Builder) : N * Builder :=
  let id := u32 (vlen (bd_labels b)) in
  (id, with_labels (bd_labels b ++ [id]) (bd_boundAt b ++ [kUnbound]) b).

Definition handlerLabel : Builder -> N * Builder := newLabel.

Definition here (b : Builder) : N := u32 (vlen (bd_code b)).

Definition bind (l : N) (b : Builder) : Builder :=
  if (l =? kNoLabel) || (vlen (bd_labels b) <=? l) then b
  else
    let bound := default 0 (vget (bd_boundAt b) l) in
    with_labels (bd_labels b)
      (vset (bd_boundAt b) l (if bound =? kUnbound then here b else kDoubleBound)) b.

Definition addHandler (start end_ handler : N) (catchTypeCp : Z) (b : Builder) : Builder :=
  with_handlers (bd_handlers b ++ [mkHandler start end_ handler catchTypeCp]) b.

(** ** Finish *)

Record FinishResult := mkFinish { fr_ok : bool; fr_error : string }.

(** A check answers its error, and the checks run until one does. *)
Abbreviation check := (option string).

Definition orelse (x y : check) : check := match x with Some e => Some e | None => y end.

Definition first_error {A} (f : A -> check) (l : list A) : check :=
  foldr (fun x rest => orelse (f x) rest) None l.

Definition fail_if (cond : bool) (msg : string) : check := if cond then Some msg else None.

Definition label_msg (l : N) (what : string) : string := "label L" +:+ pretty l +:+ what.

Definition doubleBound (b : Builder) : check :=
  first_error (fun i =>
      fail_if (bool_decide (vget (bd_boundAt b) i = Some kDoubleBound))
        (label_msg i " is already bound"))
    (indices (vlen (bd_labels b))).

Definition set_imm (imm : N) (x : Ins) : Ins :=
  mkIns (i_op x) (i_dst x) (i_a x) (i_b x) imm.

Definition set_int (slot : N) (v : Z) (c : Const) : Const :=
  mkConst (c_kind c) (c_i32 c) (c_i64 c) (c_f32 c) (c_f64 c) (c_str c) (c_str2 c) (c_str3 c)
    (vset (c_ints c) slot v).

Definition isSwitchIns (x : Ins) : bool :=
  match of_code (i_op x) with Some op => isSwitchOp op | None => false end.

Definition not_a_table (pc : N) : string :=
  at_pc "switch at pc " pc " does not reference a switch table".

(** The switch table an instruction refers to. *)
Definition tableOf (cp : list Const) (x : Ins) : option Const :=
  match vget cp (i_imm x) with
  | Some c => if bool_decide (c_kind c = Kind.SwitchTable) then Some c else None
  | None => None
  end.

(** The target of a patch among the labels bound so far. *)
Definition patch_target (labels boundAt : list N) (n : N) (p : Patch) : string + N :=
  if vlen labels <=? pt_labelId p then inl (label_msg (pt_labelId p) " is not bound")
  else
    let target := default 0 (vget boundAt (pt_labelId p)) in
    if target =? kUnbound then inl (label_msg (pt_labelId p) " is not bound")
    else if target =? kDoubleBound then inl (label_msg (pt_labelId p) " is already bound")
    else if n <=? target then inl "branch target out of range"
    else inr target.

Definition resolvePatch (labels boundAt : list N) (p : Patch) (st : list Ins * list Const)
    : string + (list Ins * list Const) :=
  let '(code, cp) := st in
  match vget code (pt_at p) with
  | None => inl ("internal error: patch references instruction " +:+ pretty (pt_at p))
  | Some x =>
      match patch_target labels boundAt (vlen code) p with
      | inl e => inl e
      | inr target =>
          if (pt_slot p =? kBranchSlot) || negb (isSwitchIns x)
          then inr (vset code (pt_at p) (set_imm target x), cp)
          else
            match tableOf cp x with
            | None => inl (not_a_table (pt_at p))
            | Some c =>
                if vlen (c_ints c) <=? pt_slot p
                then inl (at_pc "internal error: switch patch slot out of range at pc " (pt_at p) "")
                else inr (code, vset cp (i_imm x)
                                  (set_int (pt_slot p) (wrap 32 (Z.of_N target)) c))
            end
      end
  end.

(** The patches in order: the error, when there is one, and the state reached. *)
Fixpoint resolvePatches (labels boundAt : list N) (ps : list Patch)
    (st : list Ins * list Const) : check * (list Ins * list Const) :=
  match ps with
  | [] => (None, st)
  | p :: ps =>
      match resolvePatch labels boundAt p st with
      | inl e => (Some e, st)
      | inr st => resolvePatches labels boundAt ps st
      end
  end.

Definition int_or (d : Z) (v : list Z) (i : N) : Z := default d (vget v i).

Definition table_shape (v : list Z) : bool :=
  let sz := Z.of_N (vlen v) in
  negb ((sz <? 3) || negb (3 + (int_or (-1) v 1 - int_or 0 v 0) + 1 =? sz))%Z.

Definition lookup_shape (v : list Z) : bool :=
  let sz := Z.of_N (vlen v) in
  let n := int_or (-1) v 0 in
  negb ((sz <? 2) || negb (2 + 2 * n =? sz) || (n <? 0))%Z.

Definition switchShape (code : list Ins) (cp : list Const) (pc : N) (x : Ins) : check :=
  if negb (isSwitchIns x) then None
  else if vlen code <=? pc + 1 then
    Some (at_pc "switch at pc " pc
            " must not be the last instruction (default target is pc+1)")
  else match tableOf cp x with
       | None => Some (not_a_table pc)
       | Some c =>
           if i_op x =? Op.code Op.Tableswitch then
             fail_if (negb (table_shape (c_ints c)))
               (at_pc "switch at pc " pc " has a malformed tableswitch payload")
           else fail_if (negb (lookup_shape (c_ints c)))
                  (at_pc "switch at pc " pc " has a malformed lookupswitch payload")
       end.

(** Does a call write its destination register? *)
Definition callWritesResult (cp : list Const) (x : Ins) : bool :=
  match vget cp (i_imm x) with
  | None => false
  | Some c =>
      match c_kind c with
      | Kind.MethodRef | Kind.InterfaceMethodRef =>
          negb (bool_decide (parseReturn (c_str3 c) = RType.Bottom))
      | Kind.InvokeDynamic => negb (bool_decide (parseReturn (c_str2 c) = RType.Bottom))
      | _ => false
      end
  end.

Definition regRangeError (reg pc numRegs : N) : string :=
  "register r" +:+ pretty reg +:+ " out of range at pc " +:+ pretty pc +:+ " (numRegs " +:+
  pretty numRegs +:+ ")".

Definition slotRangeError (slot pc numLocals : N) : string :=
  "local slot " +:+ pretty slot +:+ " out of range at pc " +:+ pretty pc +:+ " (numLocals " +:+
  pretty numLocals +:+ ")".

Definition regOk (numRegs pc reg : N) : check :=
  fail_if (numRegs <=? reg) (regRangeError reg pc numRegs).

Definition slotOk (numLocals pc slot : N) : check :=
  fail_if (numLocals <=? slot) (slotRangeError slot pc numLocals).

(** The registers [a .. a+b-1]. *)
Definition rangeOk (what : string) (numRegs pc : N) (x : Ins) : check :=
  fail_if ((0 <? i_b x) && (numRegs <? i_a x + i_b x))
    (what +:+ " registers out of range at pc " +:+ pretty pc +:+ " (r" +:+ pretty (i_a x) +:+
     " + " +:+ pretty (i_b x) +:+ " > numRegs " +:+ pretty numRegs +:+ ")").

Definition operandBounds (numRegs numLocals : N) (cp : list Const) (pc : N) (x : Ins) : check :=
  match of_code (i_op x) with
  | None => None
  | Some op =>
      let sig := oi_sig (info op) in
      let reg := regOk numRegs pc in
      let slot := slotOk numLocals pc in
      if bool_decide (sig = Sig.Call) || bool_decide (sig = Sig.CallQuick) then
        orelse (if callWritesResult cp x then reg (i_dst x) else None)
          (rangeOk "call argument" numRegs pc x)
      else if bool_decide (op = Op.Multianewarray) then
        orelse (reg (i_dst x))
          (orelse (reg (i_a x)) (rangeOk "multianewarray dimension" numRegs pc x))
      else if bool_decide (op = Op.Putfield) || bool_decide (op = Op.PutfieldQuick) then
        orelse (reg (i_a x)) (reg (i_b x))
      else
        match sig with
        | Sig.None | Sig.Branch | Sig.Trap | Sig.Call | Sig.CallQuick => None
        | Sig.Reg | Sig.RegBranch | Sig.RegCpBranch | Sig.Guard | Sig.GuardCp => reg (i_a x)
        | Sig.RegImm | Sig.RegCp => reg (i_dst x)
        | Sig.RegSlot => orelse (reg (i_dst x)) (slot (i_imm x))
        | Sig.SlotReg => orelse (reg (i_a x)) (slot (i_imm x))
        | Sig.RegRegBranch => orelse (reg (i_a x)) (reg (i_b x))
        | Sig.RegReg | Sig.RegRegImm | Sig.RegRegCp => orelse (reg (i_dst x)) (reg (i_a x))
        | Sig.RegRegReg | Sig.RegRegRegCp =>
            orelse (reg (i_dst x)) (orelse (reg (i_a x)) (reg (i_b x)))
        end
  end.

Definition handlerBounds (code : list Ins) (cp : list Const) (h : ExceptionHandler) : check :=
  let n := vlen code in
  orelse
    (fail_if ((h_end h <=? h_start h) || (n <? h_end h))
       ("exception handler range out of code (start " +:+ pretty (h_start h) +:+ ", end " +:+
        pretty (h_end h) +:+ ", code size " +:+ pretty n +:+ ")"))
    (orelse
       (fail_if (n <=? h_handler h)
          ("exception handler entry out of range (handler " +:+ pretty (h_handler h) +:+
           ", code size " +:+ pretty n +:+ ")"))
       (fail_if ((0 <=? h_catchType h)%Z &&
                 negb (bool_decide (c_kind <$> vget cp (Z.to_N (h_catchType h)) = Some Kind.Class)))
          ("exception handler catch type c" +:+ pretty (h_catchType h) +:+
           " is not a Class constant"))).

Definition each_ins (f : N -> Ins -> check) (code : list Ins) : check :=
  first_error (fun p => f p.1 p.2) (zip (indices (vlen code)) code).

(** The checks that run on the resolved code. *)
Definition finalChecks (b : Builder) : check :=
  orelse (each_ins (switchShape (bd_code b) (bd_cp b)) (bd_code b))
    (orelse
       (fail_if (kMaxRegs <? bd_numRegs b)
          ("too many registers (" +:+ pretty (bd_numRegs b) +:+ ", max 65536)"))
       (orelse
          (each_ins (operandBounds (bd_numRegs b) (bd_numLocals b) (bd_cp b)) (bd_code b))
          (first_error (handlerBounds (bd_code b) (bd_cp b)) (bd_handlers b)))).

Definition publish (b : Builder) : Method :=
  mkMethod (bd_name b) (bd_descriptor b) (bd_flags b) (bd_numRegs b) (bd_numLocals b)
    (bd_code b) (bd_cp b) (bd_handlers b).

(** The verdict, the method argument afterwards and the builder, whose code and pool
    keep the patches written before an error. *)
Definition finish (out : Method) (b : Builder) : FinishResult * Method * Builder :=
  if negb (bd_pendingError b =? "")%string then (mkFinish false (bd_pendingError b), out, b)
  else match doubleBound b with
       | Some e => (mkFinish false e, out, b)
       | None =>
           let '(err, (code, cp)) :=
             resolvePatches (bd_labels b) (bd_boundAt b) (bd_patches b)
               (bd_code b, bd_cp b) in
           let b := with_cp cp (with_code code b) in
           match orelse err (finalChecks b) with
           | Some e => (mkFinish false e, out, b)
           | None => (mkFinish true "", publish b, b)
           end
       end.
