(* ===== verification/RbcAssemble.v ===== *)
(** * The builder against a two-pass assembler

    A client of the builder is a list of calls. The reference reads the calls as a
    source text of items and label positions, and lays every item out with the
    positions of the whole text in hand. The builder goes through the calls once
    and patches the code at the end; [finish_assembles] says that both agree, and
    when the builder refuses. *)

From stdpp Require Import pretty.
From S2P Require Import Prelude Machine RbcOpcode Rbc RbcBuilder.

Local Open Scope N_scope.

(** ** Calls *)

Inductive Call :=
| CSetRegs (n : N) | CSetLocals (n : N) | CNewReg
| CInt (v : Z) | CLong (v : Z) | CFloat (bits : N) | CDouble (bits : N)
| CString (v : string) | CClass (v : string)
| CFieldRef (cls name desc : string) | CMethodRef (cls name desc : string)
| CSwitchConst (payload : list Z)
| CEmit (op : Op) | CReg (op : Op) (a : N) | CRegImm (op : Op) (dst imm : N)
| CRegCp (op : Op) (dst cpIdx : N) | CRegSlot (op : Op) (dst slot : N)
| CSlotReg (op : Op) (a slot : N) | CRegReg (op : Op) (dst a : N)
| CRegRegReg (op : Op) (dst a b : N) | CRegRegImm (op : Op) (dst a imm : N)
| CRegRegCp (op : Op) (dst a cpIdx : N) | CRegRegRegCp (op : Op) (dst a b cpIdx : N)
| CCall (op : Op) (dst a b cpIdx : N) | CGuard (op : Op) (a deoptId : N)
| CTrap (deoptId : N)
| CBranch (op : Op) (l : N) | CRegBranch (op : Op) (a l : N)
| CRegRegBranch (op : Op) (a b l : N)
| CSwitch (op : Op) (a : N) (payload : list Z) (targets : list N)
| CLabel | CHandlerLabel | CBind (l : N)
| CHandler (start end_ handler : N) (catchType : Z).

(** The builder after one call; the client reads answers off the state. *)
Definition run1 (c : Call) (b : Builder) : Builder :=
  match c with
  | CSetRegs n => setRegs n b
  | CSetLocals n => setLocals n b
  | CNewReg => snd (newReg b)
  | CInt v => snd (constInt v b)
  | CLong v => snd (constLong v b)
  | CFloat v => snd (constFloat v b)
  | CDouble v => snd (constDouble v b)
  | CString v => snd (constString v b)
  | CClass v => snd (constClass v b)
  | CFieldRef c n d => snd (constFieldRef c n d b)
  | CMethodRef c n d => snd (constMethodRef c n d b)
  | CSwitchConst v => snd (constSwitch v b)
  | CEmit op => snd (emit op b)
  | CReg op a => snd (emitReg op a b)
  | CRegImm op d i => snd (emitRegImm op d i b)
  | CRegCp op d i => snd (emitRegCp op d i b)
  | CRegSlot op d i => snd (emitRegSlot op d i b)
  | CSlotReg op a i => snd (emitSlotReg op a i b)
  | CRegReg op d a => snd (emitRegReg op d a b)
  | CRegRegReg op d a r => snd (emitRegRegReg op d a r b)
  | CRegRegImm op d a i => snd (emitRegRegImm op d a i b)
  | CRegRegCp op d a i => snd (emitRegRegCp op d a i b)
  | CRegRegRegCp op d a r i => snd (emitRegRegRegCp op d a r i b)
  | CCall op d a r i => snd (emitCall op d a r i b)
  | CGuard op a i => snd (emitGuard op a i b)
  | CTrap i => snd (emitTrap i b)
  | CBranch op l => snd (emitBranch op l b)
  | CRegBranch op a l => snd (emitRegBranch op a l b)
  | CRegRegBranch op a r l => snd (emitRegRegBranch op a r l b)
  | CSwitch op a ms ls => snd (emitSwitch op a ms ls b)
  | CLabel => snd (newLabel b)
  | CHandlerLabel => snd (handlerLabel b)
  | CBind l => bind l b
  | CHandler s e h ct => addHandler s e h ct b
  end.

Definition run (cs : list Call) (b : Builder) : Builder := foldl (fun b c => run1 c b) b cs.

(** ** The reference *)

(** An instruction whose immediate is the position of the last of its labels, or a
    switch with its entries in the order of the matches. *)
Inductive Item :=
| Plain (x : Ins) (refs : list N)
| Switch (op : Op) (a : N) (entries : list (Z * N)).

Definition item_of (c : Call) : option Item :=
  match c with
  | CEmit op => Some (Plain (ins op 0 0 0 0) [])
  | CReg op a => Some (Plain (ins op 0 a 0 0) [])
  | CRegImm op d i | CRegCp op d i | CRegSlot op d i => Some (Plain (ins op d 0 0 i) [])
  | CSlotReg op a i | CGuard op a i => Some (Plain (ins op 0 a 0 i) [])
  | CRegReg op d a => Some (Plain (ins op d a 0 0) [])
  | CRegRegReg op d a r => Some (Plain (ins op d a r 0) [])
  | CRegRegImm op d a i | CRegRegCp op d a i => Some (Plain (ins op d a 0 i) [])
  | CRegRegRegCp op d a r i | CCall op d a r i => Some (Plain (ins op d a r i) [])
  | CTrap i => Some (Plain (ins Op.DeoptTrap 0 0 0 i) [])
  | CBranch op l => Some (Plain (ins op 0 0 0 0) [l])
  | CRegBranch op a l => Some (Plain (ins op 0 a 0 0) [l])
  | CRegRegBranch op a r l => Some (Plain (ins op 0 a r 0) [l])
  | CSwitch op a ms ls =>
      if isSwitchOp op then Some (Switch op a (sort_pairs (zip ms ls)))
      else Some (Plain (ins op 0 a 0 0) ls)
  | _ => None
  end.

(** Matches and targets come in pairs, no match twice; a table has no gap. *)
Definition switch_ok (op : Op) (ms : list Z) (ls : list N) : bool :=
  (vlen ms =? vlen ls) && bool_decide (NoDup ms) &&
  (bool_decide (op = Op.Lookupswitch) ||
   match sort_pairs (zip ms ls), last (sort_pairs (zip ms ls)) with
   | x :: _, Some y => contiguous x.1 y.1 (vlen ms)
   | _, _ => false
   end).

Definition call_ok (c : Call) : bool :=
  match c with
  | CSwitch op _ ms ls => negb (isSwitchOp op) || switch_ok op ms ls
  | _ => true
  end.

(** The text: its items, the labels made, where each label was bound. *)
Record Source := mkSource {
  s_items : list Item; s_labels : N; s_binds : list (N * N); s_ok : bool
}.

Definition read1 (c : Call) (s : Source) : Source :=
  let ok := s_ok s && call_ok c in
  match c with
  | CLabel | CHandlerLabel => mkSource (s_items s) (s_labels s + 1) (s_binds s) ok
  | CBind l =>
      if l <? s_labels s
      then mkSource (s_items s) (s_labels s) (s_binds s ++ [(l, vlen (s_items s))]) ok
      else s
  | _ =>
      match item_of c with
      | Some it => mkSource (s_items s ++ [it]) (s_labels s) (s_binds s) ok
      | None => s
      end
  end.

Definition source (cs : list Call) : Source :=
  foldl (fun s c => read1 c s) (mkSource [] 0 [] true) cs.

Definition positions (s : Source) (l : N) : list N :=
  snd <$> filter (fun e => e.1 = l) (s_binds s).

(** The instruction a label stands for, when it is bound once and before one. *)
Definition label_at (s : Source) (l : N) : option N :=
  match positions s l with
  | [p] => if p <? vlen (s_items s) then Some p else None
  | _ => None
  end.

(** The payload of a switch at [pc] with the given targets. *)
Definition layout (op : Op) (pc : N) (ms ts : list Z) : list Z :=
  if bool_decide (op = Op.Tableswitch)
  then default 0%Z (head ms) :: default 0%Z (last ms) :: Z.of_N (pc + 1) :: ts
  else Z.of_N (vlen ms) :: Z.of_N (pc + 1) :: concat (zip_with (fun m t => [m; t]) ms ts).

(** What an item assembles to. *)
Definition assembled (s : Source) (cp : list Const) (pc : N) (it : Item) (x : Ins) : Prop :=
  match it with
  | Plain i refs =>
      exists ts, mapM (label_at s) refs = Some ts /\
      x = match last ts with Some t => set_imm t i | None => i end
  | Switch op a es =>
      exists ts c, mapM (label_at s) es.*2 = Some ts /\
      x = ins op 0 a 0 (i_imm x) /\ tableOf cp x = Some c /\
      c_ints c = layout op pc es.*1 (Z.of_N <$> ts)
  end.

Definition refs_of (it : Item) : list N :=
  match it with Plain _ refs => refs | Switch _ _ es => es.*2 end.

(** The text has a meaning: its switches are well formed, no label is bound twice
    and every label used is bound before an instruction. *)
Definition resolvable (s : Source) : Prop :=
  s_ok s = true /\
  (forall l, (List.length (positions s l) <= 1)%nat) /\
  (forall it l, it ∈ s_items s -> l ∈ refs_of it -> is_Some (label_at s l)).

(** Sizes at which no index wraps. *)
Definition call_sized (c : Call) : Prop :=
  match c with CSwitch _ _ ms _ => vlen ms < 1073741824 | _ => True end.

Definition sized (cs : list Call) : Prop := vlen cs < 1073741823 /\ Forall call_sized cs.
