(* ===== verification/RbcAssembleSpec.v ===== *)
(** * The builder is a two-pass assembler

    The builder's state follows the text its calls spell: one instruction and one
    batch of patches per item, a pool entry of its own per switch, the positions of
    a label in [boundAt_]. Running the patches then lays the items out one by one. *)

From stdpp Require Import pretty.
From S2P Require Import Prelude Machine RbcOpcode Rbc RbcBuilder RbcAssemble.
Local Open Scope N_scope.

(** ** Misuse is recorded *)

Lemma at_pc_nonempty c m pc rest : at_pc (String.String c m) pc rest <> "".
Proof. done. Qed.

Lemma pend_empty cond m e : m <> "" -> pend cond m e = "" <-> e = "" /\ cond = false.
Proof.
  intros Hm. unfold pend. destruct cond, (String.eqb_spec e ""); simpl; naive_solver.
Qed.

Lemma dup_error_empty at_ pairs err :
  StronglySorted by_match pairs ->
  dup_error at_ pairs err = "" <-> err = "" /\ NoDup pairs.*1.
Proof.
  revert err. induction pairs as [|x [|y rest] IH]; intros err Hs.
  - cbn. split; [intros ->; split; [done|constructor]|by intros [-> _]].
  - cbn. split; [intros ->; split; [done|apply NoDup_singleton]|by intros [-> _]].
  - apply StronglySorted_inv in Hs as [Hs Hx].
    change (dup_error at_ (x :: y :: rest) err) with
      (dup_error at_ (y :: rest) (pend (x.1 =? y.1)%Z
        (at_pc "switch at pc " at_ (" has duplicate match " +:+ pretty y.1)) err)).
    rewrite (IH _ Hs), pend_empty by done. rewrite Z.eqb_neq.
    rewrite (fmap_cons fst x (y :: rest)), (NoDup_cons x.1).
    assert (x.1 ∉ (y :: rest).*1 <-> x.1 <> y.1) as ->; [|naive_solver].
    rewrite fmap_cons, not_elem_of_cons. split; [naive_solver|]. intros Hne. split; [done|].
    intros (z & Hz & Hin)%list_elem_of_fmap.
    apply Forall_cons in Hx as [Hxy _]. apply StronglySorted_inv in Hs as [_ Hy].
    rewrite Forall_forall in Hy. specialize (Hy z Hin). unfold by_match in *. lia.
Qed.

#[export] Instance by_match_trans : Transitive by_match.
Proof. intros x y z. unfold by_match. lia. Qed.

#[export] Instance by_match_total : Total by_match.
Proof. intros x y. unfold by_match. lia. Qed.

Lemma sort_pairs_sorted ps : StronglySorted by_match (sort_pairs ps).
Proof.
  apply (StronglySorted_merge_sort by_match).
Qed.

Lemma sort_pairs_perm ps : sort_pairs ps ≡ₚ ps.
Proof. apply merge_sort_Permutation. Qed.

Lemma vlen_zip_pairs (ms : list Z) (ls : list N) : vlen ms = vlen ls -> vlen (zip ms ls) = vlen ms.
Proof. unfold vlen. rewrite length_zip. lia. Qed.

Lemma vlen_perm {A} (l l' : list A) : l ≡ₚ l' -> vlen l = vlen l'.
Proof. intros H. unfold vlen. by rewrite (Permutation_length H). Qed.

Lemma NoDup_sort_pairs (ms : list Z) (ls : list N) :
  vlen ms = vlen ls -> NoDup (sort_pairs (zip ms ls)).*1 <-> NoDup ms.
Proof.
  intros Hl. rewrite (sort_pairs_perm (zip ms ls)), fst_zip; [done|]. unfold vlen in *. lia.
Qed.

(** What [emitSwitch] leaves in [pendingError_]. *)
Lemma emitSwitch_pending op a ms ls b :
  isSwitchOp op = true ->
  bd_pendingError (snd (emitSwitch op a ms ls b)) = "" <->
  bd_pendingError b = "" /\ switch_ok op ms ls = true.
Proof.
  intros Hop. unfold emitSwitch. rewrite Hop. cbn [negb].
  set (pairs := sort_pairs (zip ms ls)). set (at_ := u32 (vlen (bd_code b))).
  set (e0 := if negb (vlen ms =? vlen ls) then _ else _).
  assert (e0 = "" <-> bd_pendingError b = "" /\ vlen ms = vlen ls) as He0.
  { unfold e0. destruct (N.eqb_spec (vlen ms) (vlen ls)); cbn; naive_solver. }
  assert (dup_error at_ pairs e0 = "" <->
          bd_pendingError b = "" /\ vlen ms = vlen ls /\ NoDup ms) as Hd.
  { rewrite dup_error_empty by apply sort_pairs_sorted. rewrite He0.
    split; intros [[H1 H2] H3] || intros (H1 & H2 & H3);
      pose proof (NoDup_sort_pairs ms ls H2); naive_solver. }
  unfold switch_ok. fold pairs.
  rewrite !andb_true_iff, orb_true_iff, N.eqb_eq, !bool_decide_eq_true.
  assert (vlen ms = vlen ls -> vlen pairs = vlen ms) as Hlen.
  { intros H. unfold pairs. rewrite (vlen_perm _ _ (sort_pairs_perm _)). by apply vlen_zip_pairs. }
  destruct (decide (op = Op.Tableswitch)) as [->|Hne].
  - rewrite bool_decide_eq_true_2 by done. cbn -[table_error].
    unfold table_error. destruct pairs as [|x rest] eqn:Ep.
    { rewrite pend_empty by done. naive_solver. }
    destruct (last (x :: rest)) as [y|] eqn:El.
    2:{ rewrite pend_empty by done. naive_solver. }
    rewrite pend_empty by done. rewrite negb_false_iff, Hd. split.
    + intros [(H1 & H2 & H3) H4]. rewrite (Hlen H2) in H4. tauto.
    + intros (H1 & (H2 & H3) & [H4|H4]); [done|]. rewrite (Hlen H2). tauto.
  - rewrite (bool_decide_eq_false_2 (op = Op.Tableswitch)) by done. cbn.
    assert (op = Op.Lookupswitch) as -> by (destruct op; done). naive_solver.
Qed.

Lemma internConst_state c b :
  snd (internConst c b) = b \/ snd (internConst c b) = with_cp (bd_cp b ++ [c]) b.
Proof. unfold internConst. destruct (find_const c 0 (bd_cp b)); auto. Qed.

(** The calls that make neither an instruction, a label nor a binding, and only
    extend the pool. *)
Lemma run1_pending c b :
  bd_pendingError (run1 c b) = "" <-> bd_pendingError b = "" /\ call_ok c = true.
Proof.
  destruct c; try (cbn; tauto);
    try (unfold run1, constInt, constLong, constFloat, constDouble, constString, constClass,
           constFieldRef, constMethodRef, constSwitch;
         match goal with |- context [internConst ?x b] =>
           destruct (internConst_state x b) as [-> | ->] end; cbn; tauto).
  - cbn [run1 call_ok]. destruct (isSwitchOp op) eqn:Hop.
    + rewrite emitSwitch_pending by done. cbn. tauto.
    + unfold emitSwitch. rewrite Hop. cbn. tauto.
  - cbn. unfold bind. case_match; cbn; tauto.
Qed.

(** ** What the builder holds for the text read so far *)

(** The code of a position list in [boundAt_]. *)
Definition bound_code (ps : list N) : N :=
  match ps with [] => kUnbound | [p] => p | _ => kDoubleBound end.

Definition item_patches (pc : N) (it : Item) : list Patch :=
  match it with
  | Plain _ refs => (fun t => mkPatch pc t kBranchSlot) <$> refs
  | Switch op _ es =>
      slot_patches pc 3 (if bool_decide (op = Op.Tableswitch) then 1 else 2) es
  end.

Definition patched (i : Ins) (ts : list N) : Ins :=
  match last ts with Some t => set_imm t i | None => i end.

(** The instruction of an item, before its patches ([None]) or after them. [K] gives
    the pool entry of the switch at an index. *)
Definition item_is (K : N -> N) (cp : list Const) (pc : N) (it : Item) (ts : option (list N))
    (x : Ins) : Prop :=
  match it with
  | Plain i _ => x = match ts with Some ts => patched i ts | None => i end
  | Switch op a es =>
      x = ins op 0 a 0 (K pc) /\
      exists c, vget cp (K pc) = Some c /\ c_kind c = Kind.SwitchTable /\
      c_ints c = layout op pc es.*1
        (match ts with Some ts => Z.of_N <$> ts | None => (fun _ => 0%Z) <$> es end)
  end.

(** The switches have pool entries of their own. *)
Definition own_tables (K : N -> N) (items : list Item) (size : N) : Prop :=
  (forall pc op a es, vget items pc = Some (Switch op a es) ->
     K pc < size /\ isSwitchOp op = true /\ vlen es < 1073741824) /\
  (forall pc pc' op a es op' a' es', vget items pc = Some (Switch op a es) ->
     vget items pc' = Some (Switch op' a' es') -> K pc = K pc' -> pc = pc').

Record tracks (n : N) (K : N -> N) (s : Source) (b : Builder) : Prop := {
  t_code : vlen (bd_code b) = vlen (s_items s);
  t_labels : vlen (bd_labels b) = s_labels s;
  t_boundAt : vlen (bd_boundAt b) = s_labels s;
  t_bound : forall l, l < s_labels s -> vget (bd_boundAt b) l = Some (bound_code (positions s l));
  t_binds : Forall (fun e => e.1 < s_labels s /\ e.2 <= vlen (s_items s)) (s_binds s);
  t_patches : bd_patches b = concat (imap (fun i => item_patches (N.of_nat i)) (s_items s));
  t_items : forall pc it, vget (s_items s) pc = Some it ->
    exists x, vget (bd_code b) pc = Some x /\ item_is K (bd_cp b) pc it None x;
  t_own : own_tables K (s_items s) (vlen (bd_cp b));
  t_size : vlen (s_items s) <= n /\ vlen (bd_cp b) <= n /\ s_labels s <= n
}.

Lemma tracks_ext n K s b b' :
  bd_code b' = bd_code b -> bd_cp b' = bd_cp b -> bd_labels b' = bd_labels b ->
  bd_boundAt b' = bd_boundAt b -> bd_patches b' = bd_patches b ->
  tracks n K s b -> tracks n K s b'.
Proof. intros E1 E2 E3 E4 E5 []. constructor; rewrite ?E1, ?E2, ?E3, ?E4, ?E5; done. Qed.

Lemma tracks_le n n' K s b : n <= n' -> tracks n K s b -> tracks n' K s b.
Proof. intros H []. constructor; try done. naive_solver lia. Qed.

Lemma item_is_app K cp c pc it ts x : item_is K cp pc it ts x -> item_is K (cp ++ [c]) pc it ts x.
Proof.
  destruct it; [done|]. intros [-> (c' & H1 & H2)]. split; [done|]. exists c'. split; [|done].
  rewrite vget_app. pose proof (vget_Some_lt _ _ _ H1). case_cmp; [done|lia].
Qed.

Lemma tracks_push n K s b c :
  tracks n K s b -> tracks (n + 1) K s (with_cp (bd_cp b ++ [c]) b).
Proof.
  intros []. constructor; try done; cbn.
  - intros pc it (x & H1 & H2)%t_items0. exists x. split; [done|]. by apply item_is_app.
  - destruct t_own0 as [H1 H2]. split; [|done]. intros pc op a es H.
    rewrite vlen_app. destruct (H1 _ _ _ _ H) as (? & ? & ?). split; [lia|done].
  - rewrite vlen_app. change (vlen [c]) with 1. lia.
Qed.

Lemma positions_items its s l :
  positions (mkSource its (s_labels s) (s_binds s) (s_ok s)) l = positions s l.
Proof. done. Qed.

(** Appending an item: its patches come last. *)
Lemma patches_snoc its it :
  concat (imap (fun i => item_patches (N.of_nat i)) (its ++ [it])) =
  concat (imap (fun i => item_patches (N.of_nat i)) its) ++ item_patches (vlen its) it.
Proof.
  rewrite imap_app, concat_app. cbn. rewrite app_nil_r, Nat.add_0_r. done.
Qed.

Lemma tracks_item n K s b it x ok :
  tracks n K s b ->
  item_is K (bd_cp b) (vlen (s_items s)) it None x ->
  own_tables K (s_items s ++ [it]) (vlen (bd_cp b)) ->
  tracks (n + 1) K (mkSource (s_items s ++ [it]) (s_labels s) (s_binds s) ok)
    (add_patches (item_patches (vlen (s_items s)) it) (with_code (bd_code b ++ [x]) b)).
Proof.
  intros [] Hx Hown. constructor; cbn; try done.
  - rewrite !vlen_app. change (vlen [x]) with 1. change (vlen [it]) with 1. lia.
  - eapply Forall_impl; [done|]. cbn. intros e. rewrite vlen_app. lia.
  - by rewrite patches_snoc, t_patches0.
  - intros pc jt. rewrite !vget_snoc, t_code0. case_cmp; [|by apply t_items0].
    intros [= ->]. subst pc. by exists x.
  - rewrite vlen_app. change (vlen [it]) with 1. lia.
Qed.

Lemma own_tables_plain K its cp x refs :
  own_tables K its cp -> own_tables K (its ++ [Plain x refs]) cp.
Proof.
  intros [H1 H2]. split.
  - intros pc op a es. rewrite vget_snoc. case_cmp; [done|]. apply H1.
  - intros pc pc' op a es op' a' es'. rewrite !vget_snoc. case_cmp; try done. apply H2.
Qed.

Lemma tracks_plain n K s b x refs ok :
  n < 2147483648 -> tracks n K s b ->
  tracks (n + 1) K (mkSource (s_items s ++ [Plain x refs]) (s_labels s) (s_binds s) ok)
    (snd (emit_patched x refs b)).
Proof.
  intros Hn Ht. pose proof (tracks_item n K s b (Plain x refs) x ok Ht eq_refl
    (own_tables_plain _ _ _ _ _ (t_own _ _ _ _ Ht))) as H.
  eapply tracks_ext; [..|exact H]; try done. cbn.
  assert (u32 (vlen (bd_code b)) = vlen (s_items s)) as ->; [|done].
  destruct Ht. rewrite t_code0. apply u32_small. unfold fits32. lia.
Qed.

Lemma tracks_raw n K s b x ok :
  n < 2147483648 -> tracks n K s b ->
  tracks (n + 1) K (mkSource (s_items s ++ [Plain x []]) (s_labels s) (s_binds s) ok)
    (snd (rawEmit x b)).
Proof.
  intros Hn Ht. eapply tracks_ext; [..|exact (tracks_plain n K s b x [] ok Hn Ht)]; try done.
  cbn. by rewrite app_nil_r.
Qed.

Lemma tracks_agree n K K' s b :
  (forall pc, pc < vlen (s_items s) -> K' pc = K pc) -> tracks n K s b -> tracks n K' s b.
Proof.
  intros HK []. constructor; try done.
  - intros pc it Hit. destruct (t_items0 pc it Hit) as (x & H1 & H2). exists x. split; [done|].
    pose proof (vget_Some_lt _ _ _ Hit). destruct it; [done|]. cbn. by rewrite HK.
  - destruct t_own0 as [H1 H2]. split.
    + intros pc op a es H. rewrite HK by by eapply vget_Some_lt. by eapply H1.
    + intros pc pc' op a es op' a' es' H H'.
      rewrite !HK by by eapply vget_Some_lt. by eapply H2.
Qed.

Lemma fall_through_small at_ : at_ < 2147483647 -> fall_through at_ = Z.of_N (at_ + 1).
Proof.
  intros H. unfold fall_through. rewrite u32_small by (unfold fits32; lia).
  apply wrap_small; unfold in_signed; lia.
Qed.

Lemma last_fst (ps : list (Z * N)) y : last ps = Some y -> last ps.*1 = Some y.1.
Proof. intros H. by rewrite fmap_last, H. Qed.

Lemma concat_zeros (ps : list (Z * N)) :
  concat ((fun p => [p.1; 0%Z]) <$> ps) =
  concat (zip_with (fun m t => [m; t]) ps.*1 ((fun _ => 0%Z) <$> ps)).
Proof. induction ps as [|p ps IH]; [done|]. cbn. by rewrite IH. Qed.

Lemma table_payload_layout at_ ps : at_ < 2147483647 -> ps <> [] ->
  table_payload at_ ps = layout Op.Tableswitch at_ ps.*1 ((fun _ => 0%Z) <$> ps).
Proof.
  intros Ha Hp. unfold table_payload, layout. destruct ps as [|x ps]; [done|].
  destruct (last (x :: ps)) as [y|] eqn:El.
  2:{ by apply last_None in El. }
  cbn [bool_decide decide_rel]. rewrite (last_fst _ _ El), fall_through_small by done. done.
Qed.

Lemma lookup_payload_layout at_ ps : at_ < 2147483647 -> vlen ps < 1073741824 ->
  lookup_payload at_ ps = layout Op.Lookupswitch at_ ps.*1 ((fun _ => 0%Z) <$> ps).
Proof.
  intros Ha Hp. unfold lookup_payload, layout. cbn [bool_decide decide_rel].
  rewrite fall_through_small by done. rewrite wrap_small by (unfold in_signed; lia).
  rewrite concat_zeros. unfold vlen. by rewrite length_fmap.
Qed.

Lemma switch_ok_pairs op ms ls : isSwitchOp op = true -> switch_ok op ms ls = true ->
  vlen (sort_pairs (zip ms ls)) = vlen ms /\
  (op = Op.Tableswitch -> sort_pairs (zip ms ls) <> []).
Proof.
  intros Hop. unfold switch_ok.
  rewrite !andb_true_iff, orb_true_iff, N.eqb_eq, !bool_decide_eq_true.
  intros ((H1 & _) & H2). split.
  - rewrite (vlen_perm _ _ (sort_pairs_perm _)). by apply vlen_zip_pairs.
  - intros -> E. rewrite E in H2. naive_solver.
Qed.

Lemma tracks_switch n K s b op a ms ls ok :
  n < 2147483646 -> vlen ms < 1073741824 -> isSwitchOp op = true -> switch_ok op ms ls = true ->
  tracks n K s b ->
  exists K', tracks (n + 2) K'
    (mkSource (s_items s ++ [Switch op a (sort_pairs (zip ms ls))]) (s_labels s) (s_binds s) ok)
    (snd (emitSwitch op a ms ls b)).
Proof.
  intros Hn Hms Hop Hok Ht. destruct (switch_ok_pairs op ms ls Hop Hok) as [Hlen Hne].
  set (pairs := sort_pairs (zip ms ls)) in *.
  assert (vlen (bd_code b) = vlen (s_items s)) as Hc by apply Ht.
  pose proof (t_size _ _ _ _ Ht) as (Hs1 & Hs2 & _).
  set (ints := layout op (vlen (s_items s)) pairs.*1 ((fun _ => 0%Z) <$> pairs)).
  set (K' := fun pc => if pc =? vlen (s_items s) then vlen (bd_cp b) else K pc).
  exists K'.
  assert (tracks n K' s b) as Ht'.
  { eapply tracks_agree; [|done]. intros pc Hpc. unfold K'. case_cmp; [lia|done]. }
  pose proof (tracks_push n K' s b (switch_const ints) Ht') as Hp.
  assert (own_tables K' (s_items s ++ [Switch op a pairs]) (vlen (bd_cp b ++ [switch_const ints])))
    as Hown.
  { destruct (t_own _ _ _ _ Ht) as [H1 H2]. split.
    - intros pc o r es. rewrite vget_snoc, vlen_app. change (vlen [switch_const ints]) with 1.
      unfold K'. case_cmp; [|intros H3%H1; naive_solver lia].
      intros [= -> -> <-]. rewrite Hlen. repeat split; try done; lia.
    - intros pc pc' o r es o' r' es'. rewrite !vget_snoc. unfold K'. case_cmp; try lia.
      + intros _ (H3 & _)%H1. lia.
      + intros (H3 & _)%H1 _. lia.
      + apply H2. }
  assert (item_is K' (bd_cp b ++ [switch_const ints]) (vlen (s_items s)) (Switch op a pairs) None
            (ins op 0 a 0 (vlen (bd_cp b)))) as Hit.
  { cbn. unfold K'. rewrite N.eqb_refl. split; [done|]. exists (switch_const ints).
    rewrite vget_snoc, N.eqb_refl. done. }
  pose proof (tracks_item (n + 1) K' s _ _ _ ok Hp Hit Hown) as H.
  replace (n + 1 + 1) with (n + 2) in H by lia.
  assert (u32 (vlen (bd_code b)) = vlen (s_items s)) as Eat.
  { rewrite Hc. apply u32_small. unfold fits32. lia. }
  assert (u32 (vlen (bd_cp b)) = vlen (bd_cp b)) as Ecp by (apply u32_small; unfold fits32; lia).
  eapply tracks_ext; [..|exact H]; unfold emitSwitch; rewrite Hop, Eat; cbn [negb];
    fold pairs; (destruct (decide (op = Op.Tableswitch)) as [->|Hnt];
      [rewrite bool_decide_eq_true_2 by done|rewrite bool_decide_eq_false_2 by done;
       assert (op = Op.Lookupswitch) as -> by (destruct op; done)]);
    cbn; rewrite ?Ecp; try done; unfold ints; f_equal; f_equal; f_equal.
  - apply table_payload_layout; [lia|auto].
  - apply lookup_payload_layout; lia.
Qed.

Lemma tracks_label n K s b ok :
  tracks n K s b ->
  tracks (n + 1) K (mkSource (s_items s) (s_labels s + 1) (s_binds s) ok) (snd (newLabel b)).
Proof.
  intros []. constructor; cbn; try done.
  - rewrite vlen_app, t_labels0. done.
  - rewrite vlen_app, t_boundAt0. done.
  - intros l Hl. rewrite vget_snoc, t_boundAt0. case_cmp; [|apply t_bound0; lia].
    subst l. unfold positions. cbn. do 2 f_equal.
    destruct (filter _ _) as [|e es] eqn:E; [done|].
    assert (e ∈ filter (fun e => e.1 = s_labels s) (s_binds s)) as He by (rewrite E; left).
    apply list_elem_of_filter in He as [He1 He2]. rewrite Forall_forall in t_binds0.
    specialize (t_binds0 e He2). lia.
  - eapply Forall_impl; [done|]. cbn. intros e. lia.
  - lia.
Qed.

Lemma positions_snoc s l p l' ok :
  positions (mkSource (s_items s) (s_labels s) (s_binds s ++ [(l, p)]) ok) l' =
  positions s l' ++ (if decide (l = l') then [p] else []).
Proof.
  unfold positions. cbn. rewrite filter_app, fmap_app. f_equal.
  rewrite filter_cons. cbn. by case_decide.
Qed.

Lemma positions_bound n K s b l p :
  tracks n K s b -> p ∈ positions s l -> l < s_labels s /\ p <= vlen (s_items s).
Proof.
  intros [] (e & -> & He)%list_elem_of_fmap. apply list_elem_of_filter in He as [<- He].
  rewrite Forall_forall in t_binds0. by apply t_binds0.
Qed.

Lemma tracks_bind n K s b l ok :
  n < 2147483648 -> tracks n K s b -> l < s_labels s ->
  tracks (n + 1) K
    (mkSource (s_items s) (s_labels s) (s_binds s ++ [(l, vlen (s_items s))]) ok) (bind l b).
Proof.
  intros Hn Ht Hl. pose proof (positions_bound n K s b l) as Hpos. pose proof Ht as [].
  destruct t_size0 as (Hs1 & Hs2 & Hs3).
  unfold bind. rewrite t_labels0.
  destruct (N.eqb_spec l kNoLabel); [unfold kNoLabel in *; lia|].
  destruct (N.leb_spec (s_labels s) l); [lia|]. cbn [orb].
  rewrite (t_bound0 l Hl). cbn [default from_option id].
  constructor; cbn -[positions]; rewrite ?vlen_vset; try done; try lia.
  - intros l' Hl'. rewrite positions_snoc, vget_vset, t_boundAt0.
    destruct (decide (l = l')) as [->|Hne];
      [|by rewrite app_nil_r, decide_False by naive_solver; auto].
    rewrite decide_True by done. f_equal.
    all: destruct (positions s l') as [|p [|q ps]] eqn:Ep; cbn in *; try done.
    all: unfold kUnbound, here in *; try (rewrite t_code0; apply u32_small; unfold fits32; lia).
    destruct (Hpos p Ht ltac:(left)) as [_ ?]. case_cmp; [lia|done].
  - apply Forall_app. split; [done|]. constructor; [|constructor]. cbn. lia.
Qed.

Lemma read1_ok c s : s_ok (read1 c s) = s_ok s && call_ok c.
Proof.
  destruct c; cbn; try done; try (by rewrite andb_true_r).
  - by destruct (isSwitchOp op).
  - destruct (l <? s_labels s); [done|]. by rewrite andb_true_r.
Qed.

Lemma tracks_same n K s b ok :
  tracks n K s b -> tracks n K (mkSource (s_items s) (s_labels s) (s_binds s) ok) b.
Proof. by intros []. Qed.

Lemma tracks_intern n K s b c :
  tracks n K s b -> tracks (n + 2) K s (snd (internConst c b)).
Proof.
  intros Ht. destruct (internConst_state c b) as [-> | ->].
  - eapply tracks_le; [|done]. lia.
  - eapply tracks_le; [|by apply tracks_push]. lia.
Qed.

(** One call keeps the correspondence. *)
Lemma tracks_run1 n K s b c :
  n < 2147483646 -> call_sized c -> call_ok c = true -> tracks n K s b ->
  exists K', tracks (n + 2) K' (read1 c s) (run1 c b).
Proof.
  intros Hn Hsz Hok Ht.
  assert (tracks (n + 2) K s b) as Ht2 by (eapply tracks_le; [|done]; lia).
  destruct c; try (exists K; eapply tracks_ext; [..|exact Ht2]; done);
    try (exists K; by apply tracks_intern);
    try (exists K; eapply tracks_le; [|eapply tracks_raw; [|exact Ht]]; lia);
    try (exists K; eapply tracks_le; [|eapply tracks_plain; [|exact Ht]]; lia);
    try (exists K; eapply tracks_le; [|eapply tracks_label; exact Ht]; lia).
  - cbn [read1 item_of run1 call_ok] in *. destruct (isSwitchOp op) eqn:Hop.
    + by eapply tracks_switch.
    + unfold emitSwitch. rewrite Hop. cbn [negb].
      exists K. eapply tracks_le; [|eapply tracks_plain; [|exact Ht]]; lia.
  - exists K. cbn [read1 run1]. destruct (N.ltb_spec l (s_labels s)).
    + eapply tracks_le; [|eapply tracks_bind; [|exact Ht|done]]; lia.
    + unfold bind. rewrite (t_labels _ _ _ _ Ht).
      destruct (N.leb_spec (s_labels s) l); [|lia]. by rewrite orb_true_r.
Qed.

Lemma source_snoc cs c : source (cs ++ [c]) = read1 c (source cs).
Proof. unfold source. by rewrite foldl_app. Qed.

Lemma run_snoc cs c b : run (cs ++ [c]) b = run1 c (run cs b).
Proof. unfold run. by rewrite foldl_app. Qed.

Lemma sized_snoc cs c : sized (cs ++ [c]) -> sized cs /\ call_sized c /\ vlen cs < 1073741822.
Proof.
  intros [H1 [H2 H3]%Forall_app]. rewrite vlen_app in H1. change (vlen [c]) with 1 in H1.
  apply Forall_cons_1 in H3 as [H3 _].
  split; [split; [lia|done]|]. split; [done|lia].
Qed.

Lemma run_pending cs name desc flags :
  bd_pendingError (run cs (newBuilder name desc flags)) = "" <-> s_ok (source cs) = true.
Proof.
  induction cs as [|c cs IH] using rev_ind; [done|].
  rewrite run_snoc, source_snoc, run1_pending, read1_ok, andb_true_iff. naive_solver.
Qed.

Lemma vget_nil {A} pc : @vget A [] pc = None.
Proof. by rewrite vget_lookup. Qed.

Lemma run_tracks cs name desc flags :
  sized cs -> s_ok (source cs) = true ->
  exists K, tracks (2 * vlen cs) K (source cs) (run cs (newBuilder name desc flags)).
Proof.
  induction cs as [|c cs IH] using rev_ind; intros Hs Hok.
  - exists (fun _ => 0). constructor; try done; cbn; try lia.
    + intros pc it H. by rewrite vget_nil in H.
    + split; [intros pc op a es H|intros pc pc' op a es op' a' es' H]; by rewrite vget_nil in H.
  - apply sized_snoc in Hs as (Hs & Hc & Hn).
    rewrite source_snoc, read1_ok in Hok. apply andb_true_iff in Hok as [Hok1 Hok2].
    destruct (IH Hs Hok1) as [K HK]. rewrite source_snoc, run_snoc, vlen_app.
    change (vlen [c]) with 1. replace (2 * (vlen cs + 1)) with (2 * vlen cs + 2) by lia.
    eapply tracks_run1; try done. lia.
Qed.

(** ** Resolution *)

Lemma resolvePatches_app labels boundAt ps qs st :
  resolvePatches labels boundAt (ps ++ qs) st =
  match resolvePatches labels boundAt ps st with
  | (None, st) => resolvePatches labels boundAt qs st
  | r => r
  end.
Proof.
  revert st. induction ps as [|p ps IH]; intros st; [done|]. cbn.
  destruct (resolvePatch _ _ _ _); [done|apply IH].
Qed.

(** A patch finds the position the text gives its label. *)
Lemma patch_target_spec n K s b p :
  n < 2147483648 -> tracks n K s b ->
  match label_at s (pt_labelId p) with
  | Some t => patch_target (bd_labels b) (bd_boundAt b) (vlen (s_items s)) p = inr t
  | None => exists e, patch_target (bd_labels b) (bd_boundAt b) (vlen (s_items s)) p = inl e
  end.
Proof.
  intros Hn Ht. pose proof (fun q => positions_bound n K s b (pt_labelId p) q Ht) as Hpos.
  pose proof (t_bound _ _ _ _ Ht (pt_labelId p)) as Hb. destruct Ht.
  unfold label_at, patch_target. rewrite t_labels0.
  destruct (N.leb_spec (s_labels s) (pt_labelId p)) as [Hl|Hl].
  { destruct (positions s (pt_labelId p)) as [|q [|]]; eauto.
    destruct (Hpos q ltac:(left)). lia. }
  rewrite (Hb Hl). destruct (positions s (pt_labelId p)) as [|q [|r ps]]; cbn; eauto.
  destruct (Hpos q ltac:(left)) as [_ Hq]. unfold kUnbound, kDoubleBound.
  case_cmp; try lia; eauto.
Qed.

Lemma vset_same {A} (l : list A) i x : vget l i = Some x -> vset l i x = l.
Proof. rewrite vget_lookup, vset_insert. apply list_insert_id. Qed.

Lemma vset_twice {A} (l : list A) i x y : vset (vset l i x) i y = vset l i y.
Proof. rewrite !vset_insert. apply list_insert_insert_eq. Qed.

Lemma patched_cons x t ts : patched (set_imm t x) ts = patched x (t :: ts).
Proof. unfold patched. rewrite last_cons. by destruct (last ts). Qed.

Definition step_of (op : Op) : N := if bool_decide (op = Op.Tableswitch) then 1 else 2.

Lemma concat_pairs_length (ms ts : list Z) : List.length ts = List.length ms ->
  List.length (concat (zip_with (fun m t => [m; t]) ms ts)) = (2 * List.length ms)%nat.
Proof. revert ts. induction ms; intros [|? ?] H; cbn in *; try lia. rewrite IHms; lia. Qed.

Lemma concat_pairs_insert (ms ts : list Z) i v : List.length ts = List.length ms ->
  <[(2 * i + 1)%nat := v]> (concat (zip_with (fun m t => [m; t]) ms ts)) =
  concat (zip_with (fun m t => [m; t]) ms (<[i := v]> ts)).
Proof.
  revert ts i. induction ms as [|m ms IH]; intros [|t ts] [|i] H; try done; cbn in H.
  cbn. replace (i + S (i + 0) + 1)%nat with (S (2 * i + 1)) by lia. cbn.
  do 2 f_equal. apply IH. lia.
Qed.

Lemma layout_slot op pc ms ts i v :
  List.length ts = List.length ms -> (i < List.length ms)%nat ->
  3 + step_of op * N.of_nat i < vlen (layout op pc ms ts) /\
  vset (layout op pc ms ts) (3 + step_of op * N.of_nat i) v = layout op pc ms (<[i := v]> ts).
Proof.
  intros Hl Hi. unfold layout, step_of. rewrite vset_insert. unfold vlen. case_bool_decide.
  - replace (N.to_nat (3 + 1 * N.of_nat i)) with (S (S (S i))) by lia. cbn. split; [lia|done].
  - replace (N.to_nat (3 + 2 * N.of_nat i)) with (S (S (2 * i + 1))) by lia. cbn [List.length].
    rewrite concat_pairs_length by done. split; [lia|].
    cbn [insert list_insert]. do 2 f_equal. by rewrite <- concat_pairs_insert.
Qed.

Definition set_ints (v : list Z) (c : Const) : Const :=
  mkConst (c_kind c) (c_i32 c) (c_i64 c) (c_f32 c) (c_f64 c) (c_str c) (c_str2 c) (c_str3 c) v.

Abbreviation zeros es := ((fun _ : Z * N => 0%Z) <$> es).

Lemma slot_patches_snoc pc first step es e :
  slot_patches pc first step (es ++ [e]) =
  slot_patches pc first step es ++ [mkPatch pc e.2 (u32 (first + step * vlen es))].
Proof. unfold slot_patches. rewrite imap_app. cbn. by rewrite Nat.add_0_r. Qed.

Lemma mapM_snoc {A B} (f : A -> option B) l x :
  mapM f (l ++ [x]) = ys ← mapM f l; y ← f x; Some (ys ++ [y]).
Proof.
  induction l as [|a l IH]; cbn; [by destruct (f x)|].
  destruct (f a); cbn; [|done]. rewrite IH.
  destruct (mapM f l); cbn; [|done]. by destruct (f x).
Qed.

Section resolve.
Context (n : N) (K : N -> N) (s : Source) (b : Builder).
Hypothesis Hn : n < 2147483648.
Hypothesis Ht : tracks n K s b.

Let resolves := resolvePatches (bd_labels b) (bd_boundAt b).

Lemma plain_resolves pc refs code cp x :
  vlen code = vlen (s_items s) -> vget code pc = Some x ->
  match mapM (label_at s) refs with
  | Some ts => resolves ((fun t => mkPatch pc t kBranchSlot) <$> refs) (code, cp) =
               (None, (vset code pc (patched x ts), cp))
  | None => exists e st, resolves ((fun t => mkPatch pc t kBranchSlot) <$> refs) (code, cp) =
                         (Some e, st)
  end.
Proof.
  revert code x. induction refs as [|r refs IH]; intros code x Hlen Hx.
  { cbn. unfold patched. cbn. by rewrite vset_same. }
  cbn [mapM fmap list_fmap]. unfold resolves. cbn [resolvePatches]. unfold resolvePatch.
  cbn beta iota. cbn [pt_at pt_slot pt_labelId]. rewrite Hx, Hlen.
  pose proof (patch_target_spec n K s b (mkPatch pc r kBranchSlot) Hn Ht) as Hp.
  cbn [pt_labelId] in Hp. destruct (label_at s r) as [t|]; cbn [mbind option_bind].
  2:{ destruct Hp as [e ->]. eauto. }
  rewrite Hp, N.eqb_refl. cbn [orb].
  specialize (IH (vset code pc (set_imm t x)) (set_imm t x)).
  rewrite vlen_vset, vget_vset_eq in IH by by eapply vget_Some_lt.
  specialize (IH Hlen eq_refl). destruct (mapM (label_at s) refs) as [ts|]; cbn.
  - fold resolves. setoid_rewrite IH. by rewrite vset_twice, patched_cons.
  - exact IH.
Qed.

(** One slot of a table. *)
Lemma slot_resolves op a k pc es1 e es2 ts code cp c :
  vlen code = vlen (s_items s) -> vget code pc = Some (ins op 0 a 0 k) ->
  isSwitchOp op = true -> c_kind c = Kind.SwitchTable -> k < vlen cp ->
  vlen (es1 ++ e :: es2) < 1073741824 -> List.length ts = List.length es1 ->
  let ms := (es1 ++ e :: es2).*1 in
  let p := mkPatch pc e.2 (u32 (3 + step_of op * vlen es1)) in
  let st := (code, vset cp k (set_ints (layout op pc ms (ts ++ zeros (e :: es2))) c)) in
  match label_at s e.2 with
  | Some t =>
      resolvePatch (bd_labels b) (bd_boundAt b) p st =
      inr (code, vset cp k (set_ints (layout op pc ms ((ts ++ [Z.of_N t]) ++ zeros es2)) c))
  | None => exists err, resolvePatch (bd_labels b) (bd_boundAt b) p st = inl err
  end.
Proof.
  intros Hlen Hx Hop Hk Hcp Hes Hts ms p st.
  pose proof (patch_target_spec n K s b p Hn Ht) as Hp. unfold resolvePatch, st.
  cbn beta iota. unfold p in *. cbn [pt_at pt_labelId pt_slot] in *. rewrite Hx, Hlen.
  destruct (label_at s e.2) as [t|] eqn:El; [|destruct Hp as [err Hp]; rewrite Hp; eauto].
  assert (t < 2147483648) as Hbound.
  { unfold label_at in El. destruct Ht. repeat case_match; simplify_eq.
    rewrite N.ltb_lt in *. lia. }
  rewrite Hp.
  assert (vlen es1 + 1 <= vlen (es1 ++ e :: es2)) as Hle.
  { unfold vlen. rewrite length_app. cbn. lia. }
  assert (step_of op <= 2) as Hst by (unfold step_of; case_bool_decide; lia).
  rewrite u32_small by (unfold fits32; nia).
  destruct (N.eqb_spec (3 + step_of op * vlen es1) kBranchSlot); [unfold kBranchSlot in *; nia|].
  assert (isSwitchIns (ins op 0 a 0 k) = true) as ->.
  { unfold isSwitchIns. cbn [ins i_op]. destruct op; done. }
  cbn [orb negb]. unfold tableOf. cbn [ins i_imm]. rewrite vget_vset_eq by done.
  cbn [c_kind set_ints]. rewrite bool_decide_eq_true_2 by done.
  pose proof (layout_slot op pc ms (ts ++ zeros (e :: es2)) (List.length es1) (Z.of_N t)) as Hs.
  cbn [c_ints set_ints].
  destruct Hs as [Hs1 Hs2].
  { unfold ms. rewrite length_app, !length_fmap, length_app. cbn. lia. }
  { unfold ms. rewrite length_fmap, length_app. cbn. lia. }
  change (N.of_nat (List.length es1)) with (vlen es1) in *.
  destruct (N.leb_spec (vlen (layout op pc ms (ts ++ zeros (e :: es2)))) (3 + step_of op * vlen es1));
    [lia|].
  do 2 f_equal. rewrite vset_twice. f_equal. unfold set_int, set_ints.
  cbn [c_kind c_i32 c_i64 c_f32 c_f64 c_str c_str2 c_str3 c_ints]. f_equal.
  rewrite wrap_small by (unfold in_signed; lia). rewrite Hs2. f_equal.
  rewrite <- Hts. rewrite insert_app_r_alt by lia. rewrite Nat.sub_diag.
  by rewrite <- app_assoc.
Qed.

(** The slots of a whole switch. *)
Lemma slots_resolve op a k pc es1 es2 code cp c :
  vlen code = vlen (s_items s) -> vget code pc = Some (ins op 0 a 0 k) ->
  isSwitchOp op = true -> c_kind c = Kind.SwitchTable -> k < vlen cp ->
  vlen (es1 ++ es2) < 1073741824 ->
  let ms := (es1 ++ es2).*1 in
  let st ts := (code, vset cp k (set_ints (layout op pc ms ts) c)) in
  match mapM (label_at s) es1.*2 with
  | Some ts =>
      resolves (slot_patches pc 3 (step_of op) es1) (st (zeros (es1 ++ es2))) =
      (None, st ((Z.of_N <$> ts) ++ zeros es2))
  | None => exists err st', resolves (slot_patches pc 3 (step_of op) es1)
                              (st (zeros (es1 ++ es2))) = (Some err, st')
  end.
Proof.
  intros Hlen Hx Hop Hk Hcp. revert es2.
  induction es1 as [|e es1 IH] using rev_ind; intros es2 Hes; [done|].
  rewrite <- app_assoc in *. cbn [app] in *. specialize (IH (e :: es2) Hes).
  cbn zeta in *. rewrite (fmap_app snd es1 [e]), (mapM_snoc _ _ e.2), slot_patches_snoc.
  unfold resolves. rewrite resolvePatches_app.
  destruct (mapM (label_at s) es1.*2) as [ts|] eqn:Em; cbn [mbind option_bind].
  2:{ destruct IH as (err & st' & IH). unfold resolves in IH. rewrite IH. eauto. }
  unfold resolves in IH. rewrite IH. cbn [resolvePatches].
  pose proof (slot_resolves op a k pc es1 e es2 (Z.of_N <$> ts) code cp c Hlen Hx Hop Hk Hcp Hes)
    as Hstep.
  rewrite length_fmap in Hstep. pose proof (length_mapM _ _ _ Em) as El. rewrite length_fmap in El.
  specialize (Hstep (eq_sym El)). cbn zeta in Hstep.
  destruct (label_at s e.2) as [t|]; cbn [mbind option_bind].
  - rewrite Hstep. by rewrite (fmap_app Z.of_N ts [t]).
  - destruct Hstep as [err ->]. eauto.
Qed.

(** What an item's patches leave of it. *)
Definition item_done (j pc : N) (it : Item) : option (list N) :=
  if pc <? j then mapM (label_at s) (refs_of it) else None.

(** The items below [j] are resolved, the others as they were emitted. *)
Definition mid (j : N) (code : list Ins) (cp : list Const) : Prop :=
  vlen code = vlen (s_items s) /\ own_tables K (s_items s) (vlen cp) /\
  forall pc it, vget (s_items s) pc = Some it ->
    exists x, vget code pc = Some x /\ item_is K cp pc it (item_done j pc it) x.

Lemma mid_start : mid 0 (bd_code b) (bd_cp b).
Proof.
  destruct Ht. split; [done|]. split; [done|]. intros pc it Hit.
  destruct (t_items0 pc it Hit) as (x & H1 & H2). exists x. split; [done|].
  unfold item_done. case_cmp; [lia|done].
Qed.

Lemma item_done_other j pc it : pc <> j -> item_done (j + 1) pc it = item_done j pc it.
Proof. intros H. unfold item_done. case_cmp; lia || done. Qed.

Lemma item_done_self j it : item_done (j + 1) j it = mapM (label_at s) (refs_of it).
Proof. unfold item_done. case_cmp; lia || done. Qed.

Lemma item_done_before j it : item_done j j it = None.
Proof. unfold item_done. case_cmp; lia || done. Qed.

(** The patches of the item at [j], run between the items before and after it. *)
Lemma item_resolves j it code cp :
  vget (s_items s) j = Some it -> mid j code cp ->
  match mapM (label_at s) (refs_of it) with
  | Some _ => exists code' cp', resolves (item_patches j it) (code, cp) = (None, (code', cp')) /\
                                mid (j + 1) code' cp'
  | None => exists e st, resolves (item_patches j it) (code, cp) = (Some e, st)
  end.
Proof.
  intros Hit (Hlen & Hown & Hall). destruct (Hall j it Hit) as (x & Hx & His).
  rewrite item_done_before in His. destruct it as [i refs|op a es]; cbn [refs_of item_patches].
  - pose proof (plain_resolves j refs code cp x Hlen Hx) as H.
    destruct (mapM (label_at s) refs) as [ts|] eqn:Em; [|exact H].
    exists (vset code j (patched x ts)), cp. split; [exact H|].
    split; [by rewrite vlen_vset|]. split; [done|]. intros pc it Hpc.
    rewrite vget_vset. case_decide as Hd.
    + destruct Hd as [<- _]. assert (it = Plain i refs) as -> by congruence.
      exists (patched x ts). split; [done|]. rewrite item_done_self. cbn [refs_of]. rewrite Em.
      cbn in His |- *. by subst x.
    + rewrite item_done_other; [by apply Hall|]. intros ->.
      by apply Hd; split; [|eapply vget_Some_lt].
  - destruct His as [-> (c & Hc & Hk & Hints)].
    destruct (proj1 Hown _ _ _ _ Hit) as (HK & Hop & Hsz).
    pose proof (slots_resolve op a (K j) j es [] code cp c Hlen Hx Hop Hk HK) as H.
    rewrite app_nil_r in H. specialize (H Hsz). cbn beta zeta in H. rewrite <- Hints in H.
    replace (set_ints (c_ints c) c) with c in H by (by destruct c).
    rewrite (vset_same cp) in H by done. cbn [fmap list_fmap] in H.
    destruct (mapM (label_at s) es.*2) as [ts|] eqn:Em; [|exact H]. rewrite app_nil_r in H.
    eexists code, _. split; [exact H|]. split; [done|]. split; [by rewrite vlen_vset|].
    intros pc it Hpc. destruct (Hall pc it Hpc) as (x & Hx' & His).
    exists x. split; [done|].
    destruct (decide (pc = j)) as [->|Hne].
    + assert (it = Switch op a es) as -> by congruence.
      rewrite item_done_self. cbn [refs_of]. rewrite Em. destruct His as [-> _].
      split; [done|]. eexists. rewrite vget_vset_eq by done. done.
    + rewrite item_done_other by done. destruct it as [|op' a' es']; [done|].
      destruct His as [-> (c' & Hc' & ?)]. split; [done|]. exists c'.
      rewrite vget_vset_ne; [done|]. intros E. apply Hne. symmetry. by eapply (proj2 Hown).
Qed.

Lemma items_resolve its rest :
  s_items s = its ++ rest ->
  let ps := concat (imap (fun i => item_patches (N.of_nat i)) its) in
  (forall it, it ∈ its -> is_Some (mapM (label_at s) (refs_of it))) /\
  (exists code cp, resolves ps (bd_code b, bd_cp b) = (None, (code, cp)) /\ mid (vlen its) code cp) \/
  (exists it, it ∈ its /\ mapM (label_at s) (refs_of it) = None) /\
  (exists e st, resolves ps (bd_code b, bd_cp b) = (Some e, st)).
Proof.
  revert rest. induction its as [|it its IH] using rev_ind; intros rest E; cbn zeta.
  { left. split; [intros it H; by apply not_elem_of_nil in H|].
    exists (bd_code b), (bd_cp b). split; [done|]. apply mid_start. }
  rewrite <- app_assoc in E. cbn [app] in E. specialize (IH (it :: rest) E). cbn zeta in IH.
  rewrite patches_snoc. unfold resolves in *. rewrite resolvePatches_app.
  destruct IH as [(Hall & code & cp & Hr & Hm)|((jt & Hin & Hj) & e & st & Hr)]; rewrite Hr.
  2:{ right. split; [|eauto]. exists jt. split; [|done]. apply elem_of_app. by left. }
  assert (vget (s_items s) (vlen its) = Some it) as Hit.
  { rewrite E, vget_app. case_cmp; [lia|]. by rewrite N.sub_diag. }
  pose proof (item_resolves (vlen its) it code cp Hit Hm) as H. unfold resolves in H.
  destruct (mapM (label_at s) (refs_of it)) as [ts|] eqn:Em.
  - left. destruct H as (code' & cp' & H & Hm'). split.
    + intros jt [Hj|Hj%list_elem_of_singleton]%elem_of_app; [by apply Hall|]. subst. by eexists.
    + exists code', cp'. split; [done|]. rewrite vlen_app. exact Hm'.
  - right. split; [|done]. exists it. split; [|done]. apply elem_of_app. right. by left.
Qed.

End resolve.

(** ** The finished method *)

Lemma orelse_None x y : orelse x y = None <-> x = None /\ y = None.
Proof. destruct x; cbn; naive_solver. Qed.

Lemma fail_if_None cond msg : fail_if cond msg = None <-> cond = false.
Proof. unfold fail_if. destruct cond; naive_solver. Qed.

Lemma first_error_None {A} (f : A -> check) l :
  first_error f l = None <-> forall x, x ∈ l -> f x = None.
Proof.
  induction l as [|x l IH]; cbn.
  - split; [|done]. intros _ x H. by apply not_elem_of_nil in H.
  - rewrite orelse_None. setoid_rewrite elem_of_cons. unfold first_error in IH. naive_solver.
Qed.

Lemma doubleBound_None n K s b :
  n < 2147483648 -> tracks n K s b ->
  doubleBound b = None <-> forall l, (List.length (positions s l) <= 1)%nat.
Proof.
  intros Hn Ht. unfold doubleBound. rewrite first_error_None.
  pose proof (positions_bound n K s b) as Hpos. destruct Ht. rewrite t_labels0.
  setoid_rewrite elem_of_indices. setoid_rewrite fail_if_None.
  setoid_rewrite bool_decide_eq_false. split.
  - intros H l. destruct (positions s l) as [|p [|q ps]] eqn:E; cbn; try lia.
    exfalso. destruct (Hpos l p) as [Hl _]; [done|rewrite E; left|].
    apply (H l Hl). rewrite t_bound0, E by done. done.
  - intros H l Hl. rewrite t_bound0 by done. specialize (H l).
    destruct (positions s l) as [|p [|q ps]] eqn:E; cbn in *; [done| |lia].
    destruct (Hpos l p) as [_ Hp]; [done|rewrite E; left|]. unfold kDoubleBound. intros [= ->]. lia.
Qed.

Lemma refs_resolvable s it :
  is_Some (mapM (label_at s) (refs_of it)) <-> forall l, l ∈ refs_of it -> is_Some (label_at s l).
Proof. rewrite mapM_is_Some, Forall_forall. done. Qed.

Lemma mid_assembled K s code cp pc it :
  mid K s (vlen (s_items s)) code cp -> vget (s_items s) pc = Some it ->
  is_Some (mapM (label_at s) (refs_of it)) ->
  exists x, vget code pc = Some x /\ assembled s cp pc it x.
Proof.
  intros (_ & _ & H) Hit [ts Hts]. destruct (H pc it Hit) as (x & Hx & His). exists x.
  split; [done|]. unfold item_done in His. rewrite Hts in His.
  pose proof (vget_Some_lt _ _ _ Hit). destruct (N.ltb_spec pc (vlen (s_items s))); [|lia].
  destruct it as [i refs|op a es]; cbn in *; [by exists ts|].
  destruct His as [-> (c & Hc & Hk & Hints)]. exists ts, c. unfold tableOf. cbn.
  rewrite Hc, bool_decide_eq_true_2 by done. done.
Qed.

(** The patches of a whole text. *)
Lemma run_resolves cs name desc flags :
  sized cs -> s_ok (source cs) = true ->
  let s := source cs in
  let b := run cs (newBuilder name desc flags) in
  doubleBound b = None ->
  (resolvable s /\ exists code cp,
     resolvePatches (bd_labels b) (bd_boundAt b) (bd_patches b) (bd_code b, bd_cp b) =
       (None, (code, cp)) /\ vlen code = vlen (s_items s) /\
     forall pc it, vget (s_items s) pc = Some it ->
       exists x, vget code pc = Some x /\ assembled s cp pc it x) \/
  (~ resolvable s /\ exists e st,
     resolvePatches (bd_labels b) (bd_boundAt b) (bd_patches b) (bd_code b, bd_cp b) =
       (Some e, st)).
Proof.
  intros Hs Hok s b Hd. destruct (run_tracks cs name desc flags Hs Hok) as [K HK].
  fold s b in HK. assert (2 * vlen cs < 2147483648) as Hn by (destruct Hs; lia).
  pose proof (proj1 (doubleBound_None _ _ _ _ Hn HK) Hd) as Hd1.
  pose proof (items_resolve _ K s b Hn HK (s_items s) [] (eq_sym (app_nil_r _))) as Hr.
  cbn zeta in Hr. rewrite <- (t_patches _ _ _ _ HK) in Hr.
  destruct Hr as [(Hall & code & cp & -> & Hm)|((it & Hit & Hj) & e & st & ->)].
  - left. split.
    { split; [done|]. split; [done|]. intros it l H. by apply refs_resolvable, Hall. }
    exists code, cp. split; [done|]. split; [apply Hm|]. intros pc it Hpc.
    eapply mid_assembled; [done..|]. apply Hall. rewrite vget_lookup in Hpc.
    by eapply list_elem_of_lookup_2.
  - right. split; [|eauto]. intros (_ & _ & Hl).
    pose proof (proj2 (refs_resolvable s it) (fun l => Hl it l Hit)) as [ts Hts]. congruence.
Qed.

(** What a method that was finished satisfies. *)
Lemma finish_ok cs name desc flags out r m b :
  sized cs -> finish out (run cs (newBuilder name desc flags)) = (r, m, b) -> fr_ok r = true ->
  let s := source cs in
  resolvable s /\ finalChecks b = None /\ m = publish b /\ vlen (m_code m) = vlen (s_items s) /\
  forall pc it, vget (s_items s) pc = Some it ->
    exists x, vget (m_code m) pc = Some x /\ assembled s (m_cp m) pc it x.
Proof.
  intros Hs. unfold finish. pose proof (run_pending cs name desc flags) as Hp.
  destruct (String.eqb_spec (bd_pendingError (run cs (newBuilder name desc flags))) "") as [He|He];
    cbn [negb]; [|by intros [= <- <- <-]].
  destruct (doubleBound _) eqn:Hd; [by intros [= <- <- <-]|].
  destruct (run_resolves cs name desc flags Hs (proj1 Hp He) Hd)
    as [(Hr & code & cp & -> & Hc & Hall)|(_ & e & [code cp] & ->)];
    [|by intros [= <- <- <-]].
  cbn [orelse]. destruct (finalChecks _) eqn:Ef; intros [= <- <- <-]; [done|]. done.
Qed.

(** ** Theorem *)

(** A counted dispatch: a table over two cases, three forward labels. *)
Definition dispatch : list Call :=
  [CSetRegs 3; CSetLocals 1; CLabel; CLabel; CLabel;
   CRegSlot Op.Iload 0 0; CSwitch Op.Tableswitch 0 [1; 0]%Z [1; 0]; CBranch Op.Goto 2;
   CBind 0; CRegImm Op.Iconst 1 7; CBind 1; CRegImm Op.Iconst 1 8; CBind 2; CEmit Op.Return].

Definition no_method : Method := mkMethod "" "" 0 0 0 [] [] [].

Lemma dispatch_sized : sized dispatch.
Proof. split; [done|]. repeat constructor; done. Qed.

(** C6: finishing a builder after any sequence of calls is a two-pass assembly of
    the text the calls spell. It answers ok exactly when the text has a meaning (its
    switches well formed, no label bound twice, every label used bound before an
    instruction) and the resolved code passes the bound checks; then the method has
    one instruction per item, with the positions of the labels in its immediates and
    in the canonical switch tables, the fall-through instruction as the default. When
    it answers an error the method passed in is left alone. *)
Theorem finish_assembles cs name desc flags out :
  sized cs ->
  let s := source cs in
  let '(r, m, b) := finish out (run cs (newBuilder name desc flags)) in
  (fr_ok r = true <-> resolvable s /\ finalChecks b = None) /\
  (fr_ok r = false -> m = out) /\
  (fr_ok r = true ->
     m = publish b /\ vlen (m_code m) = vlen (s_items s) /\
     forall pc it, vget (s_items s) pc = Some it ->
       exists x, vget (m_code m) pc = Some x /\ assembled s (m_cp m) pc it x).
Proof.
  intros Hs s. pose proof (finish_ok cs name desc flags out) as Hfin.
  destruct (finish out _) as [[r m] b] eqn:E. specialize (Hfin r m b Hs eq_refl). fold s in Hfin.
  revert E. unfold finish.
  destruct (String.eqb_spec (bd_pendingError (run cs (newBuilder name desc flags))) "") as [He|He];
    cbn [negb].
  2:{ intros [= <- <- <-]. split; [|done]. split; [done|]. intros [(Hok & _) _].
      by apply (run_pending cs name desc flags) in Hok. }
  apply (run_pending cs name desc flags) in He as Hok. fold s in Hok.
  destruct (doubleBound _) as [e|] eqn:Hd.
  { intros [= <- <- <-]. split; [|done]. split; [done|]. intros [(_ & H & _) _].
    destruct (run_tracks cs name desc flags Hs Hok) as [K HK].
    assert (2 * vlen cs < 2147483648) as Hn by (destruct Hs; lia).
    pose proof (proj2 (doubleBound_None _ _ _ _ Hn HK) H). congruence. }
  destruct (run_resolves cs name desc flags Hs Hok Hd)
    as [(Hr & code & cp & -> & _)|(Hr & e & [code cp] & ->)].
  - cbn [orelse]. destruct (finalChecks (with_cp cp _)) eqn:Ef; intros [= <- <- <-].
    + split; [|done]. split; [done|]. intros [_ H]. congruence.
    + split; [done|]. split; [done|]. apply Hfin.
  - intros [= <- <- <-]. split; [|done]. split; [done|]. by intros [? _].
Qed.

Lemma finish_assembles_witness : sized dispatch /\ resolvable (source dispatch).
Proof.
  split; [exact dispatch_sized|].
  pose proof (finish_assembles dispatch "f" "(I)V" 8 no_method dispatch_sized) as H.
  assert (fr_ok (finish no_method (run dispatch (newBuilder "f" "(I)V" 8))).1.1 = true) as Hok
    by (vm_compute; reflexivity).
  destruct (finish _ _) as [[r m] b]. apply (proj1 (proj1 H) Hok).
Defined.
