(* ===== verification/RbcBuilderPool.v ===== *)
(** * The builder's constant pool

    A constant is interned: its index is the first equal entry. Entries are only
    appended, and [finish] writes to switch tables alone, so the index of any other
    constant reads it back in the finished method. A switch table has no such law. *)

From S2P Require Import Prelude RbcOpcode Rbc RbcBuilder RbcAssemble RbcAssembleSpec.

Local Open Scope N_scope.

(** ** Equality of constants *)




(** ** Entries stay *)









(** ** Theorems *)



(** A table interned by [constSwitch] after an [emitSwitch] whose unresolved
    payload it equals is that switch's own entry: finishing patches it, and its index
    no longer reads back the table the client passed. *)
Theorem constSwitch_is_patched :
  let cs := [CSetRegs 1; CLabel; CSwitch Op.Lookupswitch 0 [7]%Z [0]; CBind 0; CEmit Op.Return] in
  let '(i, b) := constSwitch [1; 1; 7; 0]%Z (run cs (newBuilder "f" "()V" 8)) in
  exists m b', finish no_method b = (mkFinish true "", m, b') /\
    c_ints <$> vget (m_cp m) i = Some [1; 1; 7; 1]%Z.
Proof. vm_compute. by eexists _, _. Qed.
