(* ===== verification/RbcBuilderGate.v ===== *)
(** * What the builder leaves to the verifier

    RbcBuilder.h leaves full verification to the verifier but promises to refuse
    malformed methods where it can. For calls that use each factory with an opcode
    of its signature, [finished_structure] says exactly which structural checks of
    the verifier a finished method can still fail. *)

From S2P Require Import Prelude Machine RbcOpcode Rbc RbcVerifier RbcTotal RbcSound.
From S2P Require Import RbcBuilder RbcAssemble RbcAssembleSpec.

Local Open Scope N_scope.

(** ** Calls with an opcode of the factory's signature *)

Definition sig_is (op : Op) (l : list Sig) : bool := bool_decide (oi_sig (info op) ∈ l).

(** RbcBuilder.cpp's mapping notes: [emitCall] also emits [guard_class]. *)
Definition sig_ok (c : Call) : bool :=
  match c with
  | CEmit op => sig_is op [Sig.None]
  | CReg op _ => sig_is op [Sig.Reg]
  | CRegImm op _ _ => sig_is op [Sig.RegImm]
  | CRegCp op _ _ => sig_is op [Sig.RegCp]
  | CRegSlot op _ _ => sig_is op [Sig.RegSlot]
  | CSlotReg op _ _ => sig_is op [Sig.SlotReg]
  | CRegReg op _ _ => sig_is op [Sig.RegReg]
  | CRegRegReg op _ _ _ => sig_is op [Sig.RegRegReg]
  | CRegRegImm op _ _ _ => sig_is op [Sig.RegRegImm]
  | CRegRegCp op _ _ _ => sig_is op [Sig.RegRegCp]
  | CRegRegRegCp op _ _ _ _ => sig_is op [Sig.RegRegRegCp]
  | CCall op _ _ _ _ => sig_is op [Sig.Call; Sig.CallQuick; Sig.GuardCp]
  | CGuard op _ _ => sig_is op [Sig.Guard]
  | CBranch op _ => sig_is op [Sig.Branch]
  | CRegBranch op _ _ => sig_is op [Sig.RegBranch]
  | CRegRegBranch op _ _ _ => sig_is op [Sig.RegRegBranch]
  | CSwitch op _ _ _ => isSwitchOp op
  | _ => true
  end.

(** ** The checks only the verifier makes *)

Definition ins_gap (m : Method) (x : Ins) : bool :=
  match of_code (i_op x) with
  | None => false
  | Some op =>
      let inRegs r := r <? m_numRegs m in
      implb (isCallSig (oi_sig (info op))) (inRegs (i_dst x) && inRegs (i_a x)) &&
      implb (bool_decide (op = Op.Multianewarray)) (inRegs (i_b x)) &&
      implb (bool_decide (op = Op.Putfield) || bool_decide (op = Op.PutfieldQuick))
        (inRegs (i_dst x)) &&
      implb (bool_decide (op = Op.NewArray)) ((4 <=? i_imm x) && (i_imm x <=? 11)) &&
      implb (usesCp op)
        (match vget (m_cp m) (i_imm x) with
         | Some c => cpKindOk op (c_kind c)
         | None => false
         end)
  end.

Definition verifier_only (m : Method) : bool :=
  (m_numRegs m <=? kMaxU16) && (m_numLocals m <=? kMaxU16) &&
  Bool.eqb (bool_decide (m_code m = [])) (isAbstract m) &&
  forallb (ins_gap m) (m_code m) &&
  forallb (fun h => (-1 <=? h_catchType h)%Z) (m_handlers m).

(** ** The verifier's structural phases as conditions *)

Lemma for_while_quiet {A} (go : diags -> bool) (body : A -> diags -> diags) l :
  go [] = true -> (forall x, x ∈ l -> body x [] = []) -> for_while go body l [] = [].
Proof.
  intros Hg. induction l as [|x l IH]; intros Hb; [done|]. cbn. rewrite Hg, Hb by left.
  apply IH. intros y Hy. apply Hb. by right.
Qed.

Lemma structural_iff m :
  phase1b m (phase1 m (phase0 m)) = [] <->
  ((m_numRegs m <=? kMaxU16) = true /\ (m_numLocals m <=? kMaxU16) = true /\
   bool_decide (m_code m = []) = isAbstract m) /\
  (forall pc x, vget (m_code m) pc = Some x -> checkIns m pc x = []) /\
  (forall h, h ∈ m_handlers m -> checkHandler m h = []).
Proof.
  assert (phase0 m = [] <-> (m_numRegs m <=? kMaxU16) = true /\ (m_numLocals m <=? kMaxU16) = true /\
    bool_decide (m_code m = []) = isAbstract m) as H0.
  { unfold phase0. rewrite !N.ltb_antisym.
    destruct (m_numRegs m <=? kMaxU16), (m_numLocals m <=? kMaxU16),
      (bool_decide (m_code m = [])), (isAbstract m); cbn; naive_solver. }
  rewrite <- H0. split.
  - intros H. pose proof (structural_nil m H) as [H1 H2]. split; [|split; [|done]].
    + unfold phase1b, phase1 in H.
      apply (for_while_good (fun sink => sink = [])) in H as [H _];
        [|by intros h sink [-> _]%add_all_nil|by intros ? ->].
      by apply (for_while_good (fun sink => sink = [])) in H as [H _];
        [|by intros pc sink [-> _]%add_all_nil|by intros ? ->].
    + intros pc x Hx. pose proof (vget_Some_lt _ _ _ Hx) as Hlt.
      specialize (H1 pc Hlt). unfold ins_at in H1. by rewrite Hx in H1.
  - intros (-> & H1 & H2). unfold phase1b, phase1.
    rewrite (for_while_quiet _ (fun pc sink => _)).
    + apply for_while_quiet; [done|]. intros h Hh. by rewrite H2.
    + done.
    + intros pc Hpc%elem_of_indices. rewrite H1; [done|]. by apply ins_at_get.
Qed.

(** ** A finished switch table is valid *)

Definition in_code (n : N) (t : Z) : Prop := (0 <= t < Z.of_N n)%Z.

Lemma targetsOk_quiet n l : Forall (in_code n) l -> (targetsOk n l).1 = (true, []).
Proof.
  unfold targetsOk.
  assert (forall acc, acc.1 = (true, []) -> Forall (in_code n) l ->
            (foldl (targetOk n) acc l).1 = (true, [])) as H; [|by apply H].
  induction l as [|t l IH]; intros [[ok ms] ts] Ha Hl; [done|]. cbn in Ha. injection Ha as -> ->.
  apply Forall_cons in Hl as [[Ht1 Ht2] Hl]. cbn [foldl]. apply IH; [|done]. unfold targetOk.
  destruct (Z.ltb_spec t 0); [lia|]. destruct (N.leb_spec n (Z.to_N t)); [lia|]. done.
Qed.

Lemma both_quiet acc rs :
  acc.1 = (true, []) -> Forall (fun r => r.1 = (true, [])) rs -> (foldl both acc rs).1 = (true, []).
Proof.
  revert acc. induction rs as [|[[ok ms] ts] rs IH]; intros [[ok' ms'] ts'] Ha Hr; [done|].
  apply Forall_cons in Hr as [Hr Hrs]. cbn in *. injection Ha as -> ->. injection Hr as -> ->.
  by apply IH.
Qed.

Lemma int_at_nat v i x : v !! i = Some x -> int_at v (N.of_nat i) = x.
Proof. intros H. unfold int_at. by rewrite vget_lookup, Nat2N.id, H. Qed.

Lemma int_at_0 x l : int_at (x :: l) 0 = x.
Proof. exact (int_at_nat (x :: l) 0 x eq_refl). Qed.

Lemma int_at_1 x y l : int_at (x :: y :: l) 1 = y.
Proof. exact (int_at_nat (x :: y :: l) 1 y eq_refl). Qed.

Lemma concat_pairs_lookup (ms ts : list Z) i m t :
  ms !! i = Some m -> ts !! i = Some t ->
  concat (zip_with (fun m t => [m; t]) ms ts) !! (2 * i)%nat = Some m /\
  concat (zip_with (fun m t => [m; t]) ms ts) !! (2 * i + 1)%nat = Some t.
Proof.
  revert ts i. induction ms as [|m' ms IH]; intros ts i Hm Ht; [done|].
  destruct ts as [|t' ts]; [done|]. destruct i as [|i]; cbn in *.
  - by injection Hm as ->; injection Ht as ->.
  - replace (i + S (i + 0))%nat with (S (2 * i)) by lia.
    replace (S (2 * i) + 1)%nat with (S (2 * i + 1)) by lia. by apply IH.
Qed.

(** Matches in strict order. *)
Definition ascending (ms : list Z) : Prop :=
  forall i m m', ms !! i = Some m -> ms !! S i = Some m' -> (m < m')%Z.

Lemma table_valid n pc ms ts :
  List.length ts = List.length ms -> Forall (in_code n) (Z.of_N (pc + 1) :: ts) ->
  contiguous (default 0%Z (head ms)) (default 0%Z (last ms)) (vlen ms) = true -> ms <> [] ->
  (validateTableswitch n (layout Op.Tableswitch pc ms ts)).1 = (true, []).
Proof.
  intros Hl Ht Hc Hne. unfold validateTableswitch, layout. cbn [bool_decide decide_rel].
  rewrite bool_decide_eq_true_2 by done.
  set (lo := default 0%Z (head ms)) in *. set (hi := default 0%Z (last ms)) in *.
  unfold contiguous in Hc. apply Z.eqb_eq in Hc.
  assert (0 < List.length ms)%nat as Hpos by (destruct ms; [done|cbn; lia]).
  unfold vlen in *. cbn [List.length]. rewrite Hl.
  destruct (N.ltb_spec (N.of_nat (S (S (S (List.length ms))))) 3); [lia|].
  rewrite int_at_0, int_at_1.
  destruct (Z.ltb_spec hi lo); [lia|].
  destruct (Z.eqb_spec (3 + (hi - lo) + 1) (Z.of_N (N.of_nat (S (S (S (List.length ms)))))));
    [|lia]. cbn [negb orb drop]. by apply targetsOk_quiet.
Qed.

Lemma lookup_valid n pc ms ts :
  List.length ts = List.length ms -> Forall (in_code n) (Z.of_N (pc + 1) :: ts) ->
  ascending ms ->
  (validateLookupswitch n (layout Op.Lookupswitch pc ms ts)).1 = (true, []).
Proof.
  intros Hl Ht Hasc. apply Forall_cons in Ht as [Hd Ht].
  unfold validateLookupswitch, layout. rewrite bool_decide_eq_false_2 by done.
  set (pairs := concat _). set (v := Z.of_N (vlen ms) :: Z.of_N (pc + 1) :: pairs).
  assert (vlen v = 2 + 2 * vlen ms) as Hv.
  { unfold v, vlen. cbn [List.length]. unfold pairs. rewrite concat_pairs_length by done. lia. }
  assert (int_at v 0 = Z.of_N (vlen ms)) as -> by apply int_at_0.
  assert (int_at v 1 = Z.of_N (pc + 1)) as -> by apply int_at_1.
  rewrite Hv. destruct (N.ltb_spec (2 + 2 * vlen ms) 2); [lia|].
  destruct (Z.ltb_spec (Z.of_N (vlen ms)) 0); [lia|].
  destruct (Z.eqb_spec (2 + 2 * Z.of_N (vlen ms)) (Z.of_N (2 + 2 * vlen ms))); [|lia].
  cbn [negb orb].
  assert (forall i m t, ms !! i = Some m -> ts !! i = Some t ->
            int_at v (2 + 2 * N.of_nat i) = m /\ int_at v (3 + 2 * N.of_nat i) = t) as Hat.
  { intros i m t Hm Htt. destruct (concat_pairs_lookup ms ts i m t Hm Htt) as [H1 H2].
    replace (2 + 2 * N.of_nat i) with (N.of_nat (S (S (2 * i)))) by lia.
    replace (3 + 2 * N.of_nat i) with (N.of_nat (S (S (2 * i + 1)))) by lia.
    split; by apply int_at_nat. }
  match goal with |- (both ?x ?y).1 = _ => assert (x.1 = (true, [])) as Hx;
    [|assert (y.1 = (true, [])) as Hy] end.
  - apply both_quiet; [done|]. apply Forall_fmap, Forall_forall. intros i Hi%elem_of_indices.
    cbn. unfold lookup_entry.
    assert (exists j, i = N.of_nat j /\ (j < List.length ms)%nat) as (j & -> & Hj).
    { exists (N.to_nat i). unfold vlen in Hi. lia. }
    destruct (lookup_lt_is_Some_2 ms j) as [m Hm]; [done|].
    destruct (lookup_lt_is_Some_2 ts j) as [t Htt]; [by rewrite Hl|].
    destruct (Hat j m t Hm Htt) as [-> ->].
    assert (((0 <? N.of_nat j) && (m <=? int_at v (2 + 2 * (N.of_nat j - 1)))%Z) = false) as ->.
    { destruct j as [|j]; [done|]. apply andb_false_iff. right. apply Z.leb_gt.
      destruct (lookup_lt_is_Some_2 ms j) as [m0 Hm0]; [lia|].
      destruct (lookup_lt_is_Some_2 ts j) as [t0 Ht0]; [lia|].
      replace (N.of_nat (S j) - 1) with (N.of_nat j) by lia.
      rewrite (proj1 (Hat j m0 t0 Hm0 Ht0)). by eapply Hasc. }
    pose proof (targetsOk_quiet n [t]) as Hq.
    destruct (targetsOk n [t]) as [[ok msgs] tts]. cbn in *. rewrite Hq; [done|].
    constructor; [|constructor]. rewrite Forall_forall in Ht. apply Ht.
    by eapply list_elem_of_lookup_2.
  - apply targetsOk_quiet. by constructor.
  - destruct (foldl both _ _) as [[ok1 m1] t1], (targetsOk _ _) as [[ok2 m2] t2].
    cbn in *. by simplify_eq.
Qed.

(** ** One instruction *)

Lemma regOk_None numRegs pc r : regOk numRegs pc r = None <-> r < numRegs.
Proof. unfold regOk. by rewrite fail_if_None, N.leb_gt. Qed.

Lemma slotOk_None numLocals pc s : slotOk numLocals pc s = None <-> s < numLocals.
Proof. unfold slotOk. by rewrite fail_if_None, N.leb_gt. Qed.

Lemma rangeOk_None what numRegs pc x :
  rangeOk what numRegs pc x = None <-> (0 < i_b x -> i_a x + i_b x <= numRegs).
Proof.
  unfold rangeOk. rewrite fail_if_None, andb_false_iff, !N.ltb_ge. lia.
Qed.

(** The register and slot checks of the verifier. *)
Definition regs_fine (m : Method) (op : Op) (x : Ins) : Prop :=
  let sg := oi_sig (info op) in
  (ru_dst (regUse sg) = true -> i_dst x < m_numRegs m) /\
  (ru_a (regUse sg) = true -> i_a x < m_numRegs m) /\
  (ru_b (regUse sg) = true -> i_b x < m_numRegs m) /\
  (isCallSig sg = true -> 0 < i_b x -> i_a x < m_numRegs m -> i_a x + i_b x <= m_numRegs m) /\
  (isSlotSig sg = true -> i_imm x < m_numLocals m).

(** The register part of [ins_gap]. *)
Definition regs_gap (m : Method) (op : Op) (x : Ins) : Prop :=
  (isCallSig (oi_sig (info op)) = true -> i_dst x < m_numRegs m /\ i_a x < m_numRegs m) /\
  (op = Op.Multianewarray -> i_b x < m_numRegs m) /\
  (op = Op.Putfield \/ op = Op.PutfieldQuick -> i_dst x < m_numRegs m).

Lemma bounds_regs m op x pc :
  of_code (i_op x) = Some op ->
  operandBounds (m_numRegs m) (m_numLocals m) (m_cp m) pc x = None ->
  regs_fine m op x <-> regs_gap m op x.
Proof.
  intros Hop. unfold operandBounds, regs_fine, regs_gap. rewrite Hop. cbn zeta.
  destruct (decide (op = Op.Multianewarray \/ op = Op.Putfield \/ op = Op.PutfieldQuick))
    as [Hs|Hs].
  { assert (oi_sig (info op) = Sig.RegRegRegCp) as -> by (by destruct Hs as [->|[->| ->]]).
    destruct Hs as [->|[->| ->]]; repeat case_bool_decide; try done;
      cbn -[orelse regOk rangeOk]; rewrite !orelse_None, !regOk_None; naive_solver. }
  rewrite !(bool_decide_eq_false_2 (op = _)) by naive_solver. cbn [orb].
  destruct (oi_sig (info op)); repeat case_bool_decide; try done;
    cbn -[orelse regOk slotOk rangeOk];
    rewrite ?orelse_None, ?regOk_None, ?slotOk_None, ?rangeOk_None; naive_solver.
Qed.

Lemma cp_nil m op imm :
  (if usesCp op then checkCp m op imm else []) = [] <->
  implb (usesCp op)
    (match vget (m_cp m) imm with Some c => cpKindOk op (c_kind c) | None => false end) = true.
Proof.
  unfold checkCp. destruct (usesCp op); [|done]. cbn.
  destruct (vget (m_cp m) imm) as [c|]; [|done]. rewrite when_msg_nil. by rewrite negb_false_iff.
Qed.

Lemma guarded_when g a b msg : when (g && (b <=? a)) msg = [] <-> (g = true -> a < b).
Proof. rewrite when_msg_nil, andb_false_iff, N.leb_gt. destruct g; naive_solver. Qed.

Lemma implb_true g c : implb g c = true <-> (g = true -> c = true).
Proof. destruct g, c; naive_solver. Qed.

Lemma ins_gap_iff m op x :
  of_code (i_op x) = Some op ->
  ins_gap m x = true <->
  regs_gap m op x /\ (op = Op.NewArray -> 4 <= i_imm x <= 11) /\
  (if usesCp op then checkCp m op (i_imm x) else []) = [].
Proof.
  intros Hop. unfold ins_gap, regs_gap. rewrite Hop, cp_nil. cbn zeta.
  rewrite !andb_true_iff, !implb_true, !andb_true_iff, orb_true_iff, !bool_decide_eq_true,
    !N.ltb_lt, !N.leb_le. tauto.
Qed.

Lemma checkIns_iff m pc x op :
  of_code (i_op x) = Some op ->
  (isBranchSig (oi_sig (info op)) = true -> i_imm x < vlen (m_code m)) ->
  (oi_sig (info op) = Sig.RegCpBranch -> (validateSwitch m x).1.2 = []) ->
  checkIns m pc x = [] <->
  regs_fine m op x /\ (op = Op.NewArray -> 4 <= i_imm x <= 11) /\
  (if usesCp op then checkCp m op (i_imm x) else []) = [].
Proof.
  intros Hop Hbr Hsw. unfold checkIns, regs_fine. rewrite Hop. cbn zeta.
  rewrite !app_nil, !guarded_when, !when_msg_nil.
  assert ((if bool_decide (oi_sig (info op) = Sig.RegCpBranch)
           then (validateSwitch m x).1.2 else []) = [] <-> True) as ->.
  { case_bool_decide; [|done]. by rewrite Hsw. }
  assert ((bool_decide (op = Op.NewArray) && ((i_imm x <? 4) || (11 <? i_imm x))) = false <->
          (op = Op.NewArray -> 4 <= i_imm x <= 11)) as ->.
  { rewrite andb_false_iff, orb_false_iff, bool_decide_eq_false, !N.ltb_ge.
    destruct (decide (op = Op.NewArray)); tauto. }
  assert ((isCallSig (oi_sig (info op)) && negb (i_b x =? 0) && (i_a x <? m_numRegs m) &&
           (m_numRegs m <? i_a x + i_b x)) = false <->
          (isCallSig (oi_sig (info op)) = true -> 0 < i_b x -> i_a x < m_numRegs m ->
           i_a x + i_b x <= m_numRegs m)) as ->.
  { rewrite !andb_false_iff, negb_false_iff, N.eqb_eq, !N.ltb_ge.
    destruct (isCallSig _); [|naive_solver].
    destruct (decide (i_a x < m_numRegs m)), (decide (0 < i_b x)); naive_solver lia. }
  tauto.
Qed.

(** ** What the calls say of the items *)

Definition item_good (it : Item) : Prop :=
  match it with
  | Plain i refs => exists op, of_code (i_op i) = Some op /\
      oi_sig (info op) <> Sig.RegCpBranch /\
      (isBranchSig (oi_sig (info op)) = true -> refs <> [])
  | Switch op _ es => isSwitchOp op = true /\ ascending es.*1 /\
      (op = Op.Tableswitch -> es.*1 <> [] /\
       contiguous (default 0%Z (head es.*1)) (default 0%Z (last es.*1)) (vlen es.*1) = true)
  end.

Lemma ascending_pairs es : StronglySorted by_match es -> NoDup es.*1 -> ascending es.*1.
Proof.
  intros Hs. induction Hs as [|e es Hs IH He]; intros Hn i m m' Hm Hm'; [done|].
  cbn in Hn. apply NoDup_cons in Hn as [Hni Hn]. destruct i as [|i]; cbn in Hm, Hm'.
  - injection Hm as <-. apply list_elem_of_lookup_2 in Hm'.
    assert (e.1 <> m') by (intros E; by rewrite E in Hni).
    apply list_elem_of_fmap in Hm' as (e' & -> & Hin).
    rewrite Forall_forall in He. specialize (He e' Hin). unfold by_match in He. lia.
  - by eapply (IH Hn i).
Qed.

Lemma switch_ok_good op a ms ls :
  isSwitchOp op = true -> switch_ok op ms ls = true ->
  item_good (Switch op a (sort_pairs (zip ms ls))).
Proof.
  intros Hop Hok. destruct (switch_ok_pairs op ms ls Hop Hok) as [Hlen Hne].
  unfold switch_ok in Hok.
  rewrite !andb_true_iff, orb_true_iff, N.eqb_eq, !bool_decide_eq_true in Hok.
  destruct Hok as ((Hl & Hnd) & Hc). split; [done|]. split.
  { apply ascending_pairs; [apply sort_pairs_sorted|]. by apply NoDup_sort_pairs. }
  intros ->. destruct Hc as [?|Hc]; [done|].
  destruct (sort_pairs (zip ms ls)) as [|x ps] eqn:E; [done|]. split; [done|].
  destruct (last (x :: ps)) as [y|] eqn:El; [|done]. rewrite (last_fst _ _ El).
  replace (vlen (x :: ps).*1) with (vlen ms); [done|].
  rewrite <- Hlen. unfold vlen. by rewrite length_fmap.
Qed.

Lemma sig_is_spec op l : sig_is op l = true -> oi_sig (info op) ∈ l.
Proof. apply bool_decide_eq_true. Qed.

Lemma plain_good op d a r i refs l :
  oi_sig (info op) ∈ l -> Sig.RegCpBranch ∉ l ->
  (refs <> [] \/ Forall (fun sg => isBranchSig sg = false) l) ->
  item_good (Plain (ins op d a r i) refs).
Proof.
  intros Hl Hn Hr. exists op. split; [apply all_code|]. split; [by intros E; rewrite E in Hl|].
  intros Hb. destruct Hr as [?|Hr]; [done|]. rewrite Forall_forall in Hr.
  by rewrite (Hr _ Hl) in Hb.
Qed.

Lemma call_item_good c it :
  sig_ok c = true -> call_ok c = true -> item_of c = Some it -> item_good it.
Proof.
  destruct c; cbn [sig_ok call_ok item_of]; intros Hs Hc Hi; try done;
    try (injection Hi as <-; apply sig_is_spec in Hs;
         eapply plain_good; [exact Hs|by apply (bool_decide_unpack _); vm_compute|];
         (by left) || (right; repeat constructor)).
  - injection Hi as <-. eapply (plain_good _ _ _ _ _ _ [Sig.Trap]);
      [left|by apply (bool_decide_unpack _); vm_compute|right; repeat constructor].
  - rewrite Hs in Hi, Hc. injection Hi as <-. by apply switch_ok_good.
Qed.

Lemma read1_items c s :
  s_items (read1 c s) = s_items s \/ exists it, item_of c = Some it /\
  s_items (read1 c s) = s_items s ++ [it].
Proof.
  destruct c; cbn [read1 item_of]; eauto.
  - destruct (isSwitchOp op); eauto.
  - destruct (l <? s_labels s); eauto.
Qed.

Lemma source_good cs :
  Forall (fun c => sig_ok c = true) cs -> s_ok (source cs) = true ->
  Forall item_good (s_items (source cs)).
Proof.
  induction cs as [|c cs IH] using rev_ind; intros Hs Hok; [constructor|].
  apply Forall_app in Hs as [Hs Hc]. apply Forall_cons_1 in Hc as [Hc _].
  rewrite source_snoc, read1_ok in Hok. apply andb_true_iff in Hok as [Hok Hcall].
  rewrite source_snoc.
  destruct (read1_items c (source cs)) as [-> |(it & Hit & ->)]; [by apply IH|].
  apply Forall_app. split; [by apply IH|]. constructor; [|constructor]. by eapply call_item_good.
Qed.

(** ** A finished method *)

Lemma each_ins_None f code :
  each_ins f code = None <-> forall pc x, vget code pc = Some x -> f pc x = None.
Proof.
  unfold each_ins. rewrite first_error_None. split.
  - intros H pc x Hx. apply (H (pc, x)). apply list_elem_of_lookup. exists (N.to_nat pc).
    pose proof (vget_Some_lt _ _ _ Hx). rewrite vget_lookup in Hx.
    apply lookup_zip_Some. split; [|done]. unfold indices.
    rewrite list_lookup_fmap, lookup_seq_lt by lia. cbn. f_equal. lia.
  - intros H [pc x] (i & [Hi Hx]%lookup_zip_Some)%list_elem_of_lookup. apply H. cbn in *.
    rewrite vget_lookup. unfold indices in Hi. rewrite list_lookup_fmap in Hi.
    destruct (seq 0 (N.to_nat (vlen code)) !! i) as [j|] eqn:E; [|done]. cbn in Hi.
    injection Hi as <-. apply lookup_seq in E as [-> _]. by rewrite Nat2N.id.
Qed.

Lemma handler_iff m h :
  handlerBounds (m_code m) (m_cp m) h = None ->
  checkHandler m h = [] <-> (-1 <=? h_catchType h)%Z = true.
Proof.
  unfold handlerBounds, checkHandler, badCatchType.
  rewrite !orelse_None, !fail_if_None, orb_false_iff, N.leb_gt, N.ltb_ge.
  intros ([H1 H2] & H3 & H4).
  destruct (N.ltb_spec (h_end h) (h_start h)); [lia|].
  destruct (N.ltb_spec (vlen (m_code m)) (h_end h)); [lia|].
  destruct (N.eqb_spec (h_start h) (h_end h)); [lia|]. cbn [orb when app].
  rewrite H3. cbn [when app]. rewrite when_msg_nil, orb_false_iff, Z.ltb_ge, Z.leb_le.
  split; [tauto|]. intros Hc. split; [done|]. apply andb_false_iff.
  destruct (Z.leb_spec 0 (h_catchType h)); [|by left]. right. cbn [andb] in H4.
  apply negb_false_iff, bool_decide_eq_true in H4.
  destruct (vget (m_cp m) (Z.to_N (h_catchType h))) as [c|]; [|done]. cbn in H4.
  injection H4 as ->. by rewrite bool_decide_eq_true_2.
Qed.

Lemma label_at_lt s l t : label_at s l = Some t -> t < vlen (s_items s).
Proof.
  unfold label_at. destruct (positions s l) as [|p [|]]; try done.
  destruct (N.ltb_spec p (vlen (s_items s))); [|done]. by intros [= ->].
Qed.

Lemma targets_in_code s ls ts :
  mapM (label_at s) ls = Some ts -> Forall (in_code (vlen (s_items s))) (Z.of_N <$> ts).
Proof.
  intros H%mapM_Some. apply Forall_fmap. induction H as [|l t ls ts Hl]; constructor; [|done].
  apply label_at_lt in Hl. unfold in_code. cbn. lia.
Qed.

(** A switch that assembles has a valid table. *)
Lemma switch_valid s m pc op a es x :
  vlen (m_code m) = vlen (s_items s) -> pc + 1 < vlen (m_code m) ->
  item_good (Switch op a es) -> assembled s (m_cp m) pc (Switch op a es) x ->
  (validateSwitch m x).1.2 = [].
Proof.
  intros Hlen Hpc (Hop & Hasc & Htab) (ts & c & Hts & Hx & Hc & Hints).
  pose proof (targets_in_code _ _ _ Hts) as Hin. apply length_mapM in Hts.
  rewrite length_fmap in Hts. rewrite <- Hlen in Hin.
  assert (Forall (in_code (vlen (m_code m))) (Z.of_N (pc + 1) :: (Z.of_N <$> ts))) as Hall.
  { constructor; [|done]. unfold in_code. lia. }
  assert (List.length (Z.of_N <$> ts) = List.length es.*1) as Hl.
  { by rewrite !length_fmap. }
  unfold validateSwitch. unfold tableOf in Hc.
  destruct (vget (m_cp m) (i_imm x)) as [c'|]; [|done].
  case_bool_decide as Hk; [|done]. injection Hc as ->. rewrite ?bool_decide_eq_true_2 by done.
  cbn [negb]. rewrite Hints, Hx. cbn [ins i_op].
  destruct op; try done; cbn -[validateTableswitch validateLookupswitch layout vlen].
  - destruct (Htab eq_refl) as [Hne Hcon].
    by rewrite (table_valid _ pc es.*1 _ Hl Hall Hcon Hne).
  - by rewrite (lookup_valid _ pc es.*1 _ Hl Hall Hasc).
Qed.

(** The verifier's check of an instruction the builder has checked. *)
Lemma checked_iff s m pc it x :
  vlen (m_code m) = vlen (s_items s) -> item_good it -> assembled s (m_cp m) pc it x ->
  switchShape (m_code m) (m_cp m) pc x = None ->
  operandBounds (m_numRegs m) (m_numLocals m) (m_cp m) pc x = None ->
  checkIns m pc x = [] <-> ins_gap m x = true.
Proof.
  intros Hlen Hg Ha Hsh Hb.
  assert (exists op, of_code (i_op x) = Some op /\
    (isBranchSig (oi_sig (info op)) = true -> i_imm x < vlen (m_code m)) /\
    (oi_sig (info op) = Sig.RegCpBranch -> (validateSwitch m x).1.2 = [])) as (op & Hop & Hbr & Hsw).
  { destruct it as [i refs|op a es].
    - destruct Hg as (op & Hop & Hs & Hr), Ha as (ts & Hts & ->). exists op.
      split; [by destruct (last ts)|]. split; [|done]. intros H. specialize (Hr H).
      destruct (last ts) as [t|] eqn:El.
      + cbn. rewrite Hlen. apply mapM_Some in Hts.
        rewrite last_lookup in El. destruct (Forall2_lookup_r _ _ _ _ _ Hts El) as (l & _ & Hl).
        by eapply label_at_lt.
      + apply last_None in El. subst ts. apply mapM_Some, Forall2_nil_inv_r in Hts. done.
    - pose proof Ha as (_ & _ & _ & Hx & _). pose proof (proj1 Hg) as Hop. exists op.
      assert (of_code (i_op x) = Some op) as Hcode by (rewrite Hx; apply all_code).
      split; [done|]. split; [by destruct op|]. intros _.
      eapply switch_valid; [done| |done..]. unfold switchShape, isSwitchIns in Hsh.
      rewrite Hcode, Hop in Hsh. cbn [negb] in Hsh.
      destruct (N.leb_spec (vlen (m_code m)) (pc + 1)); [done|lia]. }
  rewrite (checkIns_iff m pc x op Hop Hbr Hsw), (ins_gap_iff m op x Hop).
  by rewrite (bounds_regs m op x pc Hop Hb).
Qed.

(** C7: for calls that use each factory with an opcode of its signature, the method
    [finish] delivers passes the structural phases of the verifier exactly when it
    passes [verifier_only]: frame sizes in 16 bits, code present unless abstract, the
    result and first argument register of a call, the count register of a
    multianewarray and the unused destination of a putfield in range, array type
    codes, constant kinds and catch types. Branch targets, switch tables, protected
    ranges, local slots and all other registers are never refused. *)
Theorem finished_structure cs name desc flags out r m b :
  sized cs -> Forall (fun c => sig_ok c = true) cs ->
  finish out (run cs (newBuilder name desc flags)) = (r, m, b) -> fr_ok r = true ->
  phase1b m (phase1 m (phase0 m)) = [] <-> verifier_only m = true.
Proof.
  intros Hs Hsig Hf Hok.
  destruct (finish_ok cs name desc flags out r m b Hs Hf Hok) as (Hres & Hfin & -> & Hlen & Hall).
  pose proof (source_good cs Hsig (proj1 Hres)) as Hgood. rewrite Forall_forall in Hgood.
  unfold finalChecks in Hfin. rewrite !orelse_None, !each_ins_None, first_error_None in Hfin.
  destruct Hfin as (Hsh & _ & Hb & Hh). set (m := publish b) in *.
  rewrite structural_iff. unfold verifier_only.
  rewrite !andb_true_iff, !forallb_forall, Bool.eqb_true_iff.
  assert ((forall pc x, vget (m_code m) pc = Some x -> checkIns m pc x = []) <->
          (forall x, List.In x (m_code m) -> ins_gap m x = true)) as ->.
  { assert (forall pc x, vget (m_code m) pc = Some x ->
              checkIns m pc x = [] <-> ins_gap m x = true) as Hiff.
    { intros pc x Hx. pose proof (vget_Some_lt _ _ _ Hx) as Hlt. rewrite Hlen in Hlt.
      apply vget_lt_is_Some in Hlt as [it Hit]. destruct (Hall pc it Hit) as (x' & Hx' & Ha).
      assert (x' = x) as -> by congruence.
      eapply checked_iff; [done| |done|by apply Hsh|by apply Hb].
      apply Hgood. rewrite vget_lookup in Hit. by eapply list_elem_of_lookup_2. }
    split.
    - intros H x Hin. apply list_elem_of_In, list_elem_of_lookup in Hin as [i Hi].
      assert (vget (m_code m) (N.of_nat i) = Some x) as Hx by (by rewrite vget_lookup, Nat2N.id).
      apply (Hiff _ _ Hx). by eapply H.
    - intros H pc x Hx. apply (Hiff _ _ Hx), H, list_elem_of_In. rewrite vget_lookup in Hx.
      by eapply list_elem_of_lookup_2. }
  assert ((forall h, h ∈ m_handlers m -> checkHandler m h = []) <->
          (forall h, List.In h (m_handlers m) -> (-1 <=? h_catchType h)%Z = true)) as ->; [|tauto].
  setoid_rewrite <- list_elem_of_In. split; intros H h Hin; specialize (H h Hin);
    by apply (handler_iff m h (Hh h Hin)).
Qed.

Lemma finished_structure_witness :
  exists m, (finish no_method (run dispatch (newBuilder "f" "(I)V" 8))).1 = (mkFinish true "", m) /\
            phase1b m (phase1 m (phase0 m)) = [].
Proof.
  destruct (finish no_method (run dispatch (newBuilder "f" "(I)V" 8))) as [[r m] b] eqn:E.
  assert ((finish no_method (run dispatch (newBuilder "f" "(I)V" 8))).1.1 = mkFinish true "") as Hr
    by (vm_compute; reflexivity).
  assert (verifier_only (finish no_method (run dispatch (newBuilder "f" "(I)V" 8))).1.2 = true) as Hv
    by (vm_compute; reflexivity).
  rewrite E in Hr, Hv. cbn in Hr, Hv. subst r. exists m. split; [done|].
  apply (finished_structure dispatch "f" "(I)V" 8 no_method (mkFinish true "") m b dispatch_sized);
    [repeat constructor; vm_compute; reflexivity|exact E|done|exact Hv].
Defined.

(** ** A call in a method without registers *)

(** The method [void f() { g(); }], whose call has no operand and no result, is
    finished with no registers, as the comment of [callWritesResult] intends; the
    verifier then refuses its registers 0, which the call does not use. *)
Theorem registerless_call_refused :
  let cs := [CMethodRef "A" "g" "()V"; CCall Op.Invokestatic 0 0 0 0; CEmit Op.Return] in
  exists m, (finish no_method (run cs (newBuilder "f" "()V" 8))).1 = (mkFinish true "", m) /\
    m_numRegs m = 0 /\
    phase1b m (phase1 m (phase0 m)) =
      [mkDiag 0 "register r0 out of range (numRegs=0)";
       mkDiag 0 "register r0 out of range (numRegs=0)"].
Proof. eexists. split; [vm_compute; reflexivity|]. by vm_compute. Qed.
