(* ===== verification/RbcLex.v ===== *)
(** * Tokens of the RBC text format

    The tokenizer of compiler/rbc/src/RbcText.cpp. A position in the source is the
    text that is left; offsets are counted beside it and kept in 32 bits. A token's
    text is the one scanned; the code cuts it out of the source at the offset it kept,
    which is the same for a source shorter than 4 GiB. *)

From Stdlib Require Import Ascii String.
From S2P Require Import Prelude RbcOpcode Rbc.

Local Open Scope N_scope.

Module Tk.
Inductive t := Word | Int | Float | Str | Punct | End_.
#[global] Instance eq_dec : EqDecision t.
Proof. solve_decision. Defined.
End Tk.

Record Tok := mkTok {
  tk_kind : Tk.t; tk_offset : N; tk_length : N; tk_lineStart : bool; tk_text : string
}.

(** ** Characters *)

Definition chr (n : N) : ascii := ascii_of_N n.
Definition lf : ascii := chr 10.
Definition dquote : ascii := chr 34.
Definition backslash : ascii := chr 92.

Definition isWs (c : ascii) : bool :=
  Ascii.eqb c " " || Ascii.eqb c (chr 9) || Ascii.eqb c lf || Ascii.eqb c (chr 13) ||
  Ascii.eqb c (chr 11) || Ascii.eqb c (chr 12).

Definition between (lo hi c : ascii) : bool :=
  (N_of_ascii lo <=? N_of_ascii c) && (N_of_ascii c <=? N_of_ascii hi).

Definition isDigit (c : ascii) : bool := between "0" "9" c.

Definition isWordByte (c : ascii) : bool :=
  negb (isWs c) && negb (Ascii.eqb c "#") && negb (Ascii.eqb c dquote) &&
  negb (Ascii.eqb c ":") && negb (Ascii.eqb c "=") && negb (Ascii.eqb c "{") &&
  negb (Ascii.eqb c "}").

Definition isIdentStart (c : ascii) : bool :=
  between "A" "Z" c || between "a" "z" c || Ascii.eqb c "_" || Ascii.eqb c "$" ||
  Ascii.eqb c ".".

Definition isIdentByte (c : ascii) : bool := isIdentStart c || isDigit c.

(** ** Scans *)

(** The longest prefix of bytes that satisfy [p], and the text after it. *)
Fixpoint span (p : ascii -> bool) (s : string) : string * string :=
  match s with
  | EmptyString => (EmptyString, EmptyString)
  | String c r => if p c then let '(t, r) := span p r in (String c t, r) else (EmptyString, s)
  end.

(** A string literal after its opening quote, with the closing one if there is one:
    a backslash escapes the byte behind it. *)
Fixpoint scan_string (s : string) : string * string :=
  match s with
  | EmptyString => (EmptyString, EmptyString)
  | String c r =>
      if Ascii.eqb c dquote then (String c EmptyString, r)
      else match r with
           | String d r' =>
               if Ascii.eqb c backslash
               then let '(t, x) := scan_string r' in (String c (String d t), x)
               else let '(t, x) := scan_string r in (String c t, x)
           | EmptyString => (String c EmptyString, EmptyString)
           end
  end.

(** [digitAt(k)] *)
Definition digitAt (k : nat) (s : string) : bool :=
  match String.get k s with Some c => isDigit c | None => false end.

Definition charAt (k : nat) (c : ascii) (s : string) : bool :=
  match String.get k s with Some d => Ascii.eqb d c | None => false end.

Definition number_start (s : string) : bool :=
  digitAt 0 s || (charAt 0 "-" s && (digitAt 1 s || (charAt 1 "." s && digitAt 2 s))) ||
  (charAt 0 "." s && digitAt 1 s).

(** The exponent of a number: its text, or the empty string when there is none. *)
Definition scan_exponent (s : string) : string * string :=
  match s with
  | String c r =>
      if Ascii.eqb c "e" || Ascii.eqb c "E" then
        let '(sign, r') :=
          match r with
          | String d r' => if Ascii.eqb d "+" || Ascii.eqb d "-" then (String d EmptyString, r') else (EmptyString, r)
          | EmptyString => (EmptyString, r)
          end in
        if digitAt 0 r' then let '(ds, r'') := span isDigit r' in (String c (sign +:+ ds), r'')
        else (EmptyString, s)
      else (EmptyString, s)
  | EmptyString => (EmptyString, s)
  end.

(** A number: its kind, its text and the text after it. *)
Definition scan_number (s : string) : Tk.t * string * string :=
  let '(sign, s) :=
    match s with
    | String c r => if Ascii.eqb c "-" then (String c EmptyString, r) else (EmptyString, s)
    | EmptyString => (EmptyString, s)
    end in
  let '(whole, s) := span isDigit s in
  let '(frac, s) :=
    match s with
    | String c r =>
        if Ascii.eqb c "." then let '(ds, r) := span isDigit r in (String c ds, r)
        else (EmptyString, s)
    | EmptyString => (EmptyString, s)
    end in
  let '(ex, s) := scan_exponent s in
  let isFloat := negb (frac =? "")%string || negb (ex =? "")%string in
  (if isFloat then Tk.Float else Tk.Int, sign +:+ whole +:+ frac +:+ ex, s).

Definition is_punct (c : ascii) : bool :=
  Ascii.eqb c ":" || Ascii.eqb c "=" || Ascii.eqb c "{" || Ascii.eqb c "}" || Ascii.eqb c "-".

(** The token that starts with [c]. *)
Definition scan_token (c : ascii) (r : string) : Tk.t * string * string :=
  let s := String c r in
  if Ascii.eqb c dquote then let '(t, r) := scan_string r in (Tk.Str, String c t, r)
  else if number_start s then scan_number s
  else if is_punct c then (Tk.Punct, String c EmptyString, r)
  else let '(t, r) := span isWordByte s in (Tk.Word, t, r).

(** ** The token vector *)

Definition slen (s : string) : N := N.of_nat (String.length s).

(** Every turn consumes a byte. The counter [i] is a [std::size_t]; a token's offset and
    length are 32 bits of it. The text, which the code cuts out at the offset and length
    kept, is the one just scanned, as it is in the code while [i] fits 32 bits. *)
Fixpoint lex_from (fuel : nat) (i : N) (lineStart : bool) (s : string) : list Tok :=
  match fuel with
  | O => []
  | S fuel =>
      match s with
      | EmptyString => [mkTok Tk.End_ (u32 i) 0 true EmptyString]
      | String c r =>
          if isWs c then lex_from fuel (i + 1) (if Ascii.eqb c lf then true else lineStart) r
          else if Ascii.eqb c "#" then
            let '(skipped, rest) := span (fun d => negb (Ascii.eqb d lf)) s in
            lex_from fuel (i + slen skipped) lineStart rest
          else
            let '(kind, text, rest) := scan_token c r in
            mkTok kind (u32 i) (u32 (slen text)) lineStart text :: lex_from fuel (i + slen text) false rest
      end
  end.

Definition lex (src : string) : list Tok := lex_from (S (String.length src)) 0 true src.
