(* ===== verification/CharConv.v ===== *)
(** * Numbers as text

    [std::from_chars] and [std::to_chars] as compiler/rbc/src/RbcText.cpp calls
    them: 64-bit integers, and binary floating point with correct rounding one way
    and the shortest text that reads back the other way. A floating-point value is
    its bits. *)

From stdpp Require Import pretty.
From Stdlib Require Import Ascii String.
From S2P Require Import Prelude RbcLex.

Local Open Scope Z_scope.

(** A call's outcome. [Invalid] covers a text that the call does not consume to
    its end. *)
Inductive FromChars (A : Type) := Parsed (v : A) | OutOfRange | Invalid.
Arguments Parsed {A} v.
Arguments OutOfRange {A}.
Arguments Invalid {A}.

(** ** Integers *)

Definition digit_of (c : ascii) : Z := Z.of_N (N_of_ascii c) - 48.

Fixpoint digits_from (acc : Z) (s : string) : option Z :=
  match s with
  | EmptyString => Some acc
  | String c r => if isDigit c then digits_from (acc * 10 + digit_of c) r else None
  end.

Definition digits (s : string) : option Z :=
  match s with EmptyString => None | _ => digits_from 0 s end.

Definition from_chars_i64 (s : string) : FromChars Z :=
  let '(neg, ds) :=
    match s with
    | String c r => if Ascii.eqb c "-" then (true, r) else (false, s)
    | EmptyString => (false, s)
    end in
  match digits ds with
  | None => Invalid
  | Some m =>
      let v := if neg then - m else m in
      if bool_decide (is_i64 v) then Parsed v else OutOfRange
  end.

Definition from_chars_u64 (s : string) : FromChars N :=
  match digits s with
  | None => Invalid
  | Some m => if m <? 18446744073709551616 then Parsed (Z.to_N m) else OutOfRange
  end.

(** ** Binary floating point *)

(** Precision, least exponent of a unit in the last place, width. *)
Record Fmt := mkFmt { f_prec : Z; f_emin : Z; f_width : Z }.

Definition fmt32 : Fmt := mkFmt 24 (-149) 32.
Definition fmt64 : Fmt := mkFmt 53 (-1074) 64.

Definition f_hidden (f : Fmt) : Z := 2 ^ (f_prec f - 1).
Definition f_sign (f : Fmt) : Z := 2 ^ (f_width f - 1).
Definition f_inf (f : Fmt) : Z := (2 ^ (f_width f - f_prec f) - 1) * f_hidden f.
Definition f_nan (f : Fmt) : Z := f_inf f + f_hidden f / 2.

(** [a / b] to the nearest integer, ties to even; [b > 0]. *)
Definition div_even (a b : Z) : Z :=
  let q := a / b in
  match 2 * (a mod b) ?= b with
  | Lt => q
  | Gt => q + 1
  | Eq => if Z.even q then q else q + 1
  end.

(** The greatest [k] with [2^k <= num / den]. *)
Definition floor_log2 (num den : Z) : Z :=
  let k := Z.log2 num - Z.log2 den in
  if (num * 2 ^ Z.max 0 (- k) <? den * 2 ^ Z.max 0 k) then k - 1 else k.

(** The bits of the positive [num / den] rounded to nearest; at least [f_inf] when
    it overflows. A carry out of the significand moves to the exponent by itself. *)
Definition round_bits (f : Fmt) (num den : Z) : Z :=
  let e := Z.max (f_emin f) (floor_log2 num den - (f_prec f - 1)) in
  (e - f_emin f) * f_hidden f + div_even (num * 2 ^ Z.max 0 (- e)) (den * 2 ^ Z.max 0 e).

(** [m * 10^e] as a fraction. *)
Definition dec_num (m e : Z) : Z := m * 10 ^ Z.max 0 e.
Definition dec_den (e : Z) : Z := 10 ^ Z.max 0 (- e).

(** [[-] digits [. digits] [e[+|-] digits]] as sign, significand and exponent. *)
Definition decimal (s : string) : option (bool * Z * Z) :=
  let '(neg, s) :=
    match s with
    | String c r => if Ascii.eqb c "-" then (true, r) else (false, s)
    | EmptyString => (false, s)
    end in
  let '(whole, s) := span isDigit s in
  let '(frac, s) :=
    match s with
    | String c r => if Ascii.eqb c "." then span isDigit r else (EmptyString, s)
    | EmptyString => (EmptyString, s)
    end in
  let exponent :=
    match s with
    | EmptyString => Some 0
    | String c r =>
        if Ascii.eqb c "e" || Ascii.eqb c "E" then
          match r with
          | String d r' =>
              if Ascii.eqb d "-" then Z.opp <$> digits r'
              else if Ascii.eqb d "+" then digits r'
              else digits r
          | EmptyString => None
          end
        else None
    end in
  match digits (whole +:+ frac), exponent with
  | Some m, Some e => Some (neg, m, e - Z.of_nat (String.length frac))
  | _, _ => None
  end.

Definition with_sign (f : Fmt) (neg : bool) (bits : Z) : Z :=
  if neg then bits + f_sign f else bits.

(** A value that is not zero but rounds to it is out of range, as an overflow is. *)
Definition from_chars_float (f : Fmt) (s : string) : FromChars Z :=
  if (s =? "inf")%string then Parsed (f_inf f)
  else if (s =? "nan")%string then Parsed (f_nan f)
  else
    match decimal s with
    | None => Invalid
    | Some (neg, m, e) =>
        if m =? 0 then Parsed (with_sign f neg 0)
        else
          let b := round_bits f (dec_num m e) (dec_den e) in
          if (b =? 0) || (f_inf f <=? b) then OutOfRange else Parsed (with_sign f neg b)
    end.

(** [std::copysign(v, -1)] *)
Definition set_sign (f : Fmt) (bits : Z) : Z := Z.lor bits (f_sign f).

(** ** The shortest text *)

(** A finite value as the fraction it is: significand and exponent from its bits. *)
Definition f_frac (f : Fmt) (b : Z) : Z * Z :=
  let '(m, e) :=
    if b <? f_hidden f then (b, f_emin f)
    else (b mod f_hidden f + f_hidden f, f_emin f + b / f_hidden f - 1) in
  (m * 2 ^ Z.max 0 e, 2 ^ Z.max 0 (- e)).

(** The greatest [k] with [10^k <= num / den]. *)
Definition floor_log10 (num den : Z) : Z :=
  let est := (floor_log2 num den * 30103) / 100000 in
  let le k := dec_num den k <=? num * dec_den k in
  if negb (le est) then est - 1 else if le (est + 1) then est + 1 else est.

(** The decimals of [len] digits around [num / den], the nearer one first; [10^len]
    has one significant digit. *)
Definition around (num den len : Z) : list (Z * Z) :=
  let q := floor_log10 num den - len + 1 in
  let a := num * dec_den q in
  let b := dec_num den q in
  let lo := a / b in
  let near := div_even a b in
  let norm m := if m =? 10 ^ len then (1, q + len) else (m, q) in
  [norm near; norm (if near =? lo then lo + 1 else lo)].

(** The shortest decimal that rounds to the value: 17 digits are enough. *)
Definition shortest (f : Fmt) (b : Z) : option (Z * Z) :=
  let '(num, den) := f_frac f b in
  List.find (fun '(m, q) => round_bits f (dec_num m q) (dec_den q) =? b)
    (flat_map (fun len => around num den (Z.of_nat len)) (seq 1 17)).

Fixpoint take_str (n : nat) (s : string) : string :=
  match n, s with
  | S n, String c r => String c (take_str n r)
  | _, _ => EmptyString
  end.

Fixpoint drop_str (n : nat) (s : string) : string :=
  match n, s with
  | S n, String _ r => drop_str n r
  | _, _ => s
  end.

Fixpoint zero_str (n : nat) : string :=
  match n with O => EmptyString | S n => String "0" (zero_str n) end.

(** The exponent of the scientific form has two digits at least. *)
Definition exponent_text (e : Z) : string :=
  (if e <? 0 then "-" else "+") +:+ (if Z.abs e <? 10 then "0" else "") +:+ pretty (Z.abs e).

(** The C++ library's choice between the two forms. A whole number has all its
    digits in the fixed form. *)
Definition to_chars_pos (f : Fmt) (b : Z) : string :=
  match shortest f b with
  | None => EmptyString
  | Some (m, q) =>
      let ds := pretty m in
      let len := Z.of_nat (String.length ds) in
      let one := len =? 1 in
      let lower := if one then - (len + 3) + 1 else - (len + 3) in
      let upper := if one then 4 else 5 in
      let e := q + len - 1 in
      if (lower <=? q) && (q <=? upper) then
        if 0 <=? q then let '(num, den) := f_frac f b in pretty (num / den)
        else if 0 <=? e then
          take_str (Z.to_nat (e + 1)) ds +:+ "." +:+ drop_str (Z.to_nat (e + 1)) ds
        else "0." +:+ zero_str (Z.to_nat (- e - 1)) +:+ ds
      else
        take_str 1 ds +:+ (if one then "" else "." +:+ drop_str 1 ds) +:+ "e" +:+ exponent_text e
  end.

(** Any value but an infinity or a NaN. *)
Definition to_chars_float (f : Fmt) (bits : Z) : string :=
  let neg := f_sign f <=? bits in
  let b := bits mod f_sign f in
  (if neg then "-" else "") +:+ (if b =? 0 then "0" else to_chars_pos f b).
