(* ===== verification/RbcParse.v ===== *)
(** * The parser of the RBC text format

    The [Parser] class of compiler/rbc/src/RbcText.cpp. Its state is the tokens
    from the current one on, the method under construction and the fixup lists; a
    parse is a state monad over [std::expected]. A loop over tokens has the number
    of tokens left as its fuel, since every turn consumes one. *)

From stdpp Require Import pretty.
From Stdlib Require Import Ascii String.
From S2P Require Import Prelude Machine RbcOpcode Rbc RbcLex CharConv.

Local Open Scope N_scope.

(** ** Tables and helpers *)

Definition quote1 (s : string) : string := "'" +:+ s +:+ "'".

Definition kFlags : list (string * N) :=
  [("public", method_flags.Public);
   ("private", method_flags.Private);
   ("protected", method_flags.Protected);
   ("static", method_flags.Static);
   ("final", method_flags.Final);
   ("synchronized", method_flags.Synchronized);
   ("native", method_flags.Native);
   ("abstract", method_flags.Abstract);
   ("varargs", method_flags.Varargs)].

Record TextError := mkTextError { te_offset : N; te_message : string }.

Definition tokDisplay (t : Tok) : string :=
  if decide (tk_kind t = Tk.End_) then "<end of input>"
  else if 20 <? slen (tk_text t) then take_str 17 (tk_text t) +:+ "..." else tk_text t.

Definition errAt (t : Tok) (msg : string) : TextError := mkTextError (tk_offset t) msg.

Definition starts_with (w s : string) : bool := String.prefix w s.

(** The names of [opIndex] with their opcodes: the first opcode wins, fallback names
    are skipped. Names are distinct in it, so a search by name finds what the
    source's sort and binary search find. *)
Definition opIndex : list (string * Op) :=
  fold_left (fun v op =>
      let nm := opName op in
      if starts_with "bad" nm || existsb (fun e => (e.1 =? nm)%string) v then v
      else v ++ [(nm, op)])
    Op.all [].

Definition lookupOp (w : string) : option Op :=
  snd <$> List.find (fun e => (e.1 =? w)%string) opIndex.

Fixpoint all_chars (p : ascii -> bool) (s : string) : bool :=
  match s with
  | EmptyString => true
  | String c r => p c && all_chars p r
  end.

Definition isIdentShape (w : string) : bool :=
  match w with
  | EmptyString => false
  | String c r => isIdentStart c && all_chars isIdentByte r
  end.

Definition parsePrefixed (text : string) (prefix : ascii) : option N :=
  match text with
  | String c digits =>
      if Ascii.eqb c prefix && (2 <=? slen text) && all_chars isDigit digits then
        match from_chars_u64 digits with Parsed v => Some v | _ => None end
      else None
  | EmptyString => None
  end.

Definition isTableLayout (c : Const) : bool :=
  let v := c_ints c in
  match v with
  | low :: high :: _ :: _ :: _ =>
      if (high <? low)%Z then false else Z.to_N (high - low) + 1 =? vlen v - 3
  | _ => false
  end.

Definition isLookupLayout (c : Const) : bool :=
  let v := c_ints c in
  match v with
  | n :: _ :: _ =>
      ((vlen v - 2) mod 2 =? 0) && (0 <=? n)%Z && (Z.to_N n =? (vlen v - 2) / 2)
  | _ => false
  end.

(** ** State *)

Record LabelDef := mkLabelDef { ld_name : string; ld_offset : N; ld_pc : N; ld_pastEnd : bool }.
Record Pending := mkPending { pd_name : string; pd_offset : N }.
Record BranchFix := mkBranchFix { bf_insn : N; bf_offset : N; bf_name : string }.
Record SwitchFix := mkSwitchFix { sf_constIdx : N; sf_pos : N; sf_offset : N; sf_name : string }.
Record InsnCpFix := mkInsnCpFix { cf_insn : N; cf_offset : N; cf_cid : N }.
Record CatchLabelFix := mkCatchLabelFix {
  lf_handler : N; lf_which : N; lf_offset : N; lf_name : string
}.
Record CatchTypeFix := mkCatchTypeFix { tf_handler : N; tf_offset : N; tf_cid : N }.
Record ConstId := mkConstId { ci_cid : N; ci_index : N }.
Record SwitchEntry := mkSwitchEntry {
  se_match : Z; se_matchOffset : N; se_label : string; se_labelOffset : N
}.

(** [ps_m] is the method that the parser's functions take by reference. *)
Record St := mkSt {
  ps_toks : list Tok;
  ps_m : Method;
  labels_ : list LabelDef;
  pending_ : list Pending;
  branchFixes_ : list BranchFix;
  switchFixes_ : list SwitchFix;
  insnCpFixes_ : list InsnCpFix;
  catchLabelFixes_ : list CatchLabelFix;
  catchTypeFixes_ : list CatchTypeFix;
  constIds_ : list ConstId
}.

Definition newMethod : Method := mkMethod "" "" 0 0 0 [] [] [].

(** [resetMethodState] and the [Method m] of [parseMethod]. *)
Definition resetMethodState (st : St) : St :=
  mkSt (ps_toks st) newMethod [] [] [] [] [] [] [] [].

Definition set_toks (l : list Tok) (st : St) : St :=
  mkSt l (ps_m st) (labels_ st) (pending_ st) (branchFixes_ st) (switchFixes_ st)
    (insnCpFixes_ st) (catchLabelFixes_ st) (catchTypeFixes_ st) (constIds_ st).

Definition set_m (m : Method) (st : St) : St :=
  mkSt (ps_toks st) m (labels_ st) (pending_ st) (branchFixes_ st) (switchFixes_ st)
    (insnCpFixes_ st) (catchLabelFixes_ st) (catchTypeFixes_ st) (constIds_ st).

(** Pending labels are bound to a position. *)
Definition bind_pending (pc : N) (pastEnd : bool) (st : St) : St :=
  mkSt (ps_toks st) (ps_m st)
    (labels_ st ++
       map (fun p => mkLabelDef (pd_name p) (pd_offset p) pc pastEnd) (pending_ st))
    [] (branchFixes_ st) (switchFixes_ st)
    (insnCpFixes_ st) (catchLabelFixes_ st) (catchTypeFixes_ st) (constIds_ st).

Definition push_pending (p : Pending) (st : St) : St :=
  mkSt (ps_toks st) (ps_m st) (labels_ st) (pending_ st ++ [p]) (branchFixes_ st)
    (switchFixes_ st) (insnCpFixes_ st) (catchLabelFixes_ st) (catchTypeFixes_ st)
    (constIds_ st).

Definition push_branch (f : BranchFix) (st : St) : St :=
  mkSt (ps_toks st) (ps_m st) (labels_ st) (pending_ st) (branchFixes_ st ++ [f])
    (switchFixes_ st) (insnCpFixes_ st) (catchLabelFixes_ st) (catchTypeFixes_ st)
    (constIds_ st).

Definition push_switches (fs : list SwitchFix) (st : St) : St :=
  mkSt (ps_toks st) (ps_m st) (labels_ st) (pending_ st) (branchFixes_ st)
    (switchFixes_ st ++ fs) (insnCpFixes_ st) (catchLabelFixes_ st) (catchTypeFixes_ st)
    (constIds_ st).

Definition push_insnCp (f : InsnCpFix) (st : St) : St :=
  mkSt (ps_toks st) (ps_m st) (labels_ st) (pending_ st) (branchFixes_ st)
    (switchFixes_ st) (insnCpFixes_ st ++ [f]) (catchLabelFixes_ st) (catchTypeFixes_ st)
    (constIds_ st).

Definition push_catchLabel (f : CatchLabelFix) (st : St) : St :=
  mkSt (ps_toks st) (ps_m st) (labels_ st) (pending_ st) (branchFixes_ st)
    (switchFixes_ st) (insnCpFixes_ st) (catchLabelFixes_ st ++ [f]) (catchTypeFixes_ st)
    (constIds_ st).

Definition push_catchType (f : CatchTypeFix) (st : St) : St :=
  mkSt (ps_toks st) (ps_m st) (labels_ st) (pending_ st) (branchFixes_ st)
    (switchFixes_ st) (insnCpFixes_ st) (catchLabelFixes_ st) (catchTypeFixes_ st ++ [f])
    (constIds_ st).

Definition push_constId (f : ConstId) (st : St) : St :=
  mkSt (ps_toks st) (ps_m st) (labels_ st) (pending_ st) (branchFixes_ st)
    (switchFixes_ st) (insnCpFixes_ st) (catchLabelFixes_ st) (catchTypeFixes_ st)
    (constIds_ st ++ [f]).

(** Fields of the method. *)
Definition add_ins (i : Ins) (m : Method) : Method :=
  mkMethod (m_name m) (m_descriptor m) (m_flags m) (m_numRegs m) (m_numLocals m)
    (m_code m ++ [i]) (m_cp m) (m_handlers m).
Definition add_const (c : Const) (m : Method) : Method :=
  mkMethod (m_name m) (m_descriptor m) (m_flags m) (m_numRegs m) (m_numLocals m)
    (m_code m) (m_cp m ++ [c]) (m_handlers m).
Definition with_code (l : list Ins) (m : Method) : Method :=
  mkMethod (m_name m) (m_descriptor m) (m_flags m) (m_numRegs m) (m_numLocals m)
    l (m_cp m) (m_handlers m).
Definition with_cp (l : list Const) (m : Method) : Method :=
  mkMethod (m_name m) (m_descriptor m) (m_flags m) (m_numRegs m) (m_numLocals m)
    (m_code m) l (m_handlers m).
Definition with_handlers (l : list ExceptionHandler) (m : Method) : Method :=
  mkMethod (m_name m) (m_descriptor m) (m_flags m) (m_numRegs m) (m_numLocals m)
    (m_code m) (m_cp m) l.
Definition with_numRegs (n : N) (m : Method) : Method :=
  mkMethod (m_name m) (m_descriptor m) (m_flags m) n (m_numLocals m)
    (m_code m) (m_cp m) (m_handlers m).
Definition with_numLocals (n : N) (m : Method) : Method :=
  mkMethod (m_name m) (m_descriptor m) (m_flags m) (m_numRegs m) n
    (m_code m) (m_cp m) (m_handlers m).
Definition with_header (name descriptor : string) (flags : N) (m : Method) : Method :=
  mkMethod name descriptor flags (m_numRegs m) (m_numLocals m)
    (m_code m) (m_cp m) (m_handlers m).

(** ** The monad *)

Inductive PRes (A : Type) := Ok (a : A) (st : St) | Err (e : TextError) | NoFuel.
Arguments Ok {A} a st.
Arguments Err {A} e.
Arguments NoFuel {A}.

Definition P (A : Type) : Type := St -> PRes A.

Definition ret {A} (a : A) : P A := fun st => Ok a st.
Definition fail {A} (e : TextError) : P A := fun _ => Err e.
Definition nofuel {A} : P A := fun _ => NoFuel.
Definition modify (f : St -> St) : P unit := fun st => Ok tt (f st).
Definition reads {A} (f : St -> A) : P A := fun st => Ok (f st) st.
Definition bind {A B} (x : P A) (k : A -> P B) : P B :=
  fun st => match x st with Ok a st => k a st | Err e => Err e | NoFuel => NoFuel end.

Declare Scope rbctext_scope.
Notation "x <~ m ; k" := (bind m (fun x => k)) (at level 100, m at next level, right associativity)
  : rbctext_scope.
Notation "m ;; k" := (bind m (fun _ => k)) (at level 100, right associativity) : rbctext_scope.
Local Open Scope rbctext_scope.

(** ** Token access *)

Definition noTok : Tok := mkTok Tk.End_ 0 0 false EmptyString.

Definition nth_tok (k : nat) (l : list Tok) : Tok :=
  match l !! k with Some t => t | None => default noTok (last l) end.

(** The last token stays. *)
Definition advance_toks (l : list Tok) : list Tok :=
  match l with _ :: (_ :: _) as r => r | _ => l end.

Definition peek (k : nat) : P Tok := reads (fun st => nth_tok k (ps_toks st)).
Definition advance : P unit := modify (fun st => set_toks (advance_toks (ps_toks st)) st).

Definition errEof (size : N) (msg : string) : TextError :=
  mkTextError (if 4294967295 <? size then 4294967295 else u32 size) msg.

(** ** State helpers *)

Definition findLabel (name : string) (st : St) : option LabelDef :=
  List.find (fun d => (ld_name d =? name)%string) (labels_ st).

Definition labelDefined (name : string) (st : St) : bool :=
  match findLabel name st with
  | Some _ => true
  | None => existsb (fun p => (pd_name p =? name)%string) (pending_ st)
  end.

Definition findConst (cid : N) (st : St) : option N :=
  ci_index <$> List.find (fun c => ci_cid c =? cid) (constIds_ st).

(** ** Operand parsers *)

Definition isWord (t : Tok) : bool := bool_decide (tk_kind t = Tk.Word).
Definition isInt (t : Tok) : bool := bool_decide (tk_kind t = Tk.Int).
Definition isPunct (t : Tok) (s : string) : bool :=
  bool_decide (tk_kind t = Tk.Punct) && (tk_text t =? s)%string.
Definition wordIs (t : Tok) (s : string) : bool := isWord t && (tk_text t =? s)%string.

(** [r<N>], [l<N>] or [c<N>] from a word token. *)
Definition prefixed (t : Tok) (c : ascii) : option N :=
  if isWord t then parsePrefixed (tk_text t) c else None.

Definition parseReg : P N :=
  t <~ peek 0;
  match prefixed t "r" with
  | None => fail (errAt t ("expected register 'r<N>', found '" +:+ tokDisplay t +:+ "'"))
  | Some v =>
      if 65535 <? v then fail (errAt t "register number too large (max 65535)")
      else advance;; ret v
  end.

Definition parseSlot : P N :=
  t <~ peek 0;
  match prefixed t "l" with
  | None => fail (errAt t ("expected local slot 'l<N>', found '" +:+ tokDisplay t +:+ "'"))
  | Some v =>
      if 4294967295 <? v then fail (errAt t "local slot number too large")
      else advance;; ret v
  end.

Definition parseCid : P N :=
  t <~ peek 0;
  match prefixed t "c" with
  | None =>
      fail (errAt t ("expected constant reference 'c<N>', found '" +:+ tokDisplay t +:+ "'"))
  | Some v => advance;; ret v
  end.

Definition parseLabelIdent : P string :=
  t <~ peek 0;
  if isWord t && isIdentShape (tk_text t) then advance;; ret (tk_text t)
  else fail (errAt t ("expected label identifier, found '" +:+ tokDisplay t +:+ "'")).

Definition parseBareInt : P N :=
  t <~ peek 0;
  if negb (isInt t)
  then fail (errAt t ("expected integer, found '" +:+ tokDisplay t +:+ "'"))
  else
    advance;;
    let range := errAt t ("immediate out of 32-bit range: '" +:+ tokDisplay t +:+ "'") in
    match from_chars_i64 (tk_text t) with
    | OutOfRange => fail range
    | Invalid => fail (errAt t ("invalid integer '" +:+ tokDisplay t +:+ "'"))
    | Parsed v =>
        if ((v <? -2147483648) || (4294967295 <? v))%Z then fail range
        else ret (u32 (i64_to_u64 v))
    end.

Definition parseIntToken (t : Tok) : P Z :=
  match from_chars_i64 (tk_text t) with
  | Parsed v => ret v
  | _ => fail (errAt t ("invalid or out-of-range integer '" +:+ tokDisplay t +:+ "'"))
  end.

Definition expectPunct (p : string) (ctx : string) : P unit :=
  t <~ peek 0;
  if isPunct t p then advance
  else fail (errAt t ("expected '" +:+ p +:+ "' " +:+ ctx +:+ ", found '" +:+ tokDisplay t +:+ "'")).

Definition expectWord (w : string) : P unit :=
  t <~ peek 0;
  if wordIs t w then advance
  else fail (errAt t ("expected '" +:+ w +:+ "', found '" +:+ tokDisplay t +:+ "'")).

(** The byte an escape stands for. *)
Definition unescape (c : ascii) : option ascii :=
  if Ascii.eqb c dquote then Some dquote
  else if Ascii.eqb c backslash then Some backslash
  else if Ascii.eqb c "n" then Some lf
  else if Ascii.eqb c "t" then Some (chr 9)
  else if Ascii.eqb c "r" then Some (chr 13)
  else None.

(** The bytes between the quotes: [s] is the text after the opening one, its last
    byte the closing one. *)
Fixpoint decode_string (s : string) : string + string :=
  match s with
  | EmptyString | String _ EmptyString => inl EmptyString
  | String c (String d r as s') =>
      if Ascii.eqb c backslash then
        match r with
        | EmptyString => inr "unterminated escape in string literal"
        | _ =>
            match unescape d with
            | None =>
                inr ("unknown escape '\" +:+ String d EmptyString +:+ "' in string literal")
            | Some x => match decode_string r with inl t => inl (String x t) | inr e => inr e end
            end
        end
      else match decode_string s' with inl t => inl (String c t) | inr e => inr e end
  end.

Definition last_char (s : string) : option ascii := String.get (String.length s - 1) s.

Definition parseStringPayload : P string :=
  t <~ peek 0;
  if negb (bool_decide (tk_kind t = Tk.Str))
  then fail (errAt t ("expected string literal, found '" +:+ tokDisplay t +:+ "'"))
  else if (slen (tk_text t) <? 2) || negb (bool_decide (last_char (tk_text t) = Some dquote))
  then fail (errAt t "unterminated string literal")
  else
    match decode_string (drop_str 1 (tk_text t)) with
    | inr msg => fail (errAt t msg)
    | inl out => advance;; ret out
    end.

Definition nonFinite (t : Tok) : bool :=
  isWord t && ((tk_text t =? "inf")%string || (tk_text t =? "nan")%string).

(** The token at which the text of the number is, and whether a sign precedes it. *)
Definition floatText : P (bool * string) :=
  t <~ peek 0;
  if isPunct t "-" then
    advance;;
    w <~ peek 0;
    if nonFinite w then ret (true, tk_text w)
    else fail (errAt w ("expected floating-point constant, found '" +:+ tokDisplay w +:+ "'"))
  else if isInt t || bool_decide (tk_kind t = Tk.Float) || nonFinite t
  then ret (false, tk_text t)
  else fail (errAt t ("expected floating-point constant, found '" +:+ tokDisplay t +:+ "'")).

Definition parseFloatPayload (f : Fmt) : P N :=
  t <~ peek 0;
  x <~ floatText;
  let '(negate, text) := x in
  advance;;
  match from_chars_float f text with
  | OutOfRange => fail (errAt t ("floating-point constant out of range: '" +:+ text +:+ "'"))
  | Invalid => fail (errAt t ("invalid floating-point constant '" +:+ text +:+ "'"))
  | Parsed v => ret (Z.to_N (if negate then set_sign f v else v))
  end.

(** ** Constants *)

Definition emptyConst (k : Kind) : Const := mkConst k 0 0 0 0 "" "" "" [].
Definition const_i32 (v : Z) : Const := mkConst Kind.Int32 v 0 0 0 "" "" "" [].
Definition const_i64 (v : Z) : Const := mkConst Kind.Int64 0 v 0 0 "" "" "" [].
Definition const_f32 (v : N) : Const := mkConst Kind.Float 0 0 v 0 "" "" "" [].
Definition const_f64 (v : N) : Const := mkConst Kind.Double 0 0 0 v "" "" "" [].
Definition const_str (k : Kind) (a b c : string) : Const := mkConst k 0 0 0 0 a b c [].
Definition const_switch (ints : list Z) : Const :=
  mkConst Kind.SwitchTable 0 0 0 0 "" "" "" ints.

Definition is_i32 (v : Z) : bool := ((-2147483648 <=? v) && (v <=? 2147483647))%Z.

(** An [int] or [long] payload. *)
Definition parseIntPayload (what : string) : P (Tok * Z) :=
  t <~ peek 0;
  if negb (isInt t)
  then fail (errAt t ("expected " +:+ what +:+ " integer, found '" +:+ tokDisplay t +:+ "'"))
  else advance;; v <~ parseIntToken t; ret (t, v).

(** A word payload: [what] it is for the message. *)
Definition parseWordPayload (what : string) : P string :=
  t <~ peek 0;
  if isWord t && negb (starts_with "." (tk_text t)) then advance;; ret (tk_text t)
  else fail (errAt t ("expected " +:+ what +:+ ", found '" +:+ tokDisplay t +:+ "'")).

(** [std::sort] by match; entries of one match, which are rejected next, keep their
    order. *)
Fixpoint insert_entry (e : SwitchEntry) (l : list SwitchEntry) : list SwitchEntry :=
  match l with
  | [] => [e]
  | x :: r => if (se_match e <? se_match x)%Z then e :: l else x :: insert_entry e r
  end.

Definition sort_entries (l : list SwitchEntry) : list SwitchEntry :=
  fold_left (fun acc e => insert_entry e acc) l [].

Fixpoint duplicate_entry (l : list SwitchEntry) : option SwitchEntry :=
  match l with
  | a :: (b :: _) as r => if (se_match b =? se_match a)%Z then Some b else duplicate_entry r
  | _ => None
  end.

Fixpoint contiguous (l : list SwitchEntry) : bool :=
  match l with
  | a :: (b :: _) as r => (se_match b =? se_match a + 1)%Z && contiguous r
  | _ => true
  end.

(** The entries and the default, up to the closing brace. *)
Definition default_ref : Type := N * string.

Fixpoint switch_entries (fuel : nat) (size : N) (def : option default_ref)
    (entries : list SwitchEntry) : P (option default_ref * list SwitchEntry) :=
  match fuel with
  | O => nofuel
  | S fuel =>
      k <~ peek 0;
      if decide (tk_kind k = Tk.End_)
      then fail (errEof size "unexpected end of input inside switch payload")
      else if isPunct k "}" then advance;; ret (def, entries)
      else if wordIs k "default" then
        advance;;
        expectPunct ":" "after 'default'";;
        lab <~ parseLabelIdent;
        match def with
        | Some _ => fail (errAt k "duplicate 'default' entry in switch constant")
        | None => switch_entries fuel size (Some (tk_offset k, lab)) entries
        end
      else if isInt k then
        v <~ parseIntToken k;
        if negb (is_i32 v) then fail (errAt k "switch match value out of 32-bit range")
        else
          advance;;
          expectPunct ":" "after switch match value";;
          labTok <~ peek 0;
          lab <~ parseLabelIdent;
          switch_entries fuel size def
            (entries ++ [mkSwitchEntry v (tk_offset k) lab (tk_offset labTok)])
      else
        fail (errAt k ("expected match value or 'default' in switch payload, found '" +:+
                       tokDisplay k +:+ "'"))
  end.

(** The fixups of the entries' targets, from position [pos] on, [step] apart. *)
Fixpoint entry_fixes (constIdx pos step : N) (l : list SwitchEntry) : list SwitchFix :=
  match l with
  | [] => []
  | e :: r =>
      mkSwitchFix constIdx pos (se_labelOffset e) (se_label e) ::
      entry_fixes constIdx (pos + step) step r
  end.

Definition parseSwitchPayload (size : N) (kindTok : Tok) : P Const :=
  expectPunct "{" "to open switch payload";;
  fuel <~ reads (fun st => List.length (ps_toks st));
  x <~ switch_entries fuel size None [];
  let '(def, entries) := x in
  match def with
  | None => fail (errAt kindTok "switch constant requires a 'default' entry")
  | Some (defaultOffset, defaultLabel) =>
      let entries := sort_entries entries in
      match duplicate_entry entries with
      | Some e =>
          fail (mkTextError (se_matchOffset e)
                  ("duplicate switch match value " +:+ pretty (se_match e)))
      | None =>
          constIdx <~ reads (fun st => vlen (m_cp (ps_m st)));
          match entries with
          | first :: _ =>
              if contiguous entries then
                modify (push_switches
                  (mkSwitchFix constIdx 2 defaultOffset defaultLabel ::
                   entry_fixes constIdx 3 1 entries));;
                ret (const_switch
                  (se_match first :: se_match (List.last entries first) :: 0%Z ::
                   map (fun _ => 0%Z) entries))
              else
                modify (push_switches
                  (mkSwitchFix constIdx 1 defaultOffset defaultLabel ::
                   entry_fixes constIdx 3 2 entries));;
                ret (const_switch
                  (i32 (Z.of_N (vlen entries)) :: 0%Z ::
                   flat_map (fun e => [se_match e; 0%Z]) entries))
          | [] =>
              modify (push_switches [mkSwitchFix constIdx 1 defaultOffset defaultLabel]);;
              ret (const_switch [0%Z; 0%Z])
          end
      end
  end.

(** The payload of a constant of kind [k]. *)
Definition parsePayload (size : N) (kindTok : Tok) : P Const :=
  let k := tk_text kindTok in
  if (k =? "int")%string then
    x <~ parseIntPayload "32-bit";
    let '(t, v) := x in
    if negb (is_i32 v) then fail (errAt t "int constant out of 32-bit range")
    else ret (const_i32 v)
  else if (k =? "long")%string then
    x <~ parseIntPayload "64-bit"; ret (const_i64 x.2)
  else if (k =? "float")%string then v <~ parseFloatPayload fmt32; ret (const_f32 v)
  else if (k =? "double")%string then v <~ parseFloatPayload fmt64; ret (const_f64 v)
  else if (k =? "utf8")%string || (k =? "string")%string || (k =? "class")%string then
    s <~ parseStringPayload;
    ret (const_str
           (if (k =? "utf8")%string then Kind.Utf8
            else if (k =? "string")%string then Kind.String else Kind.Class) s "" "")
  else if (k =? "nametype")%string || (k =? "methodhandle")%string || (k =? "indy")%string then
    a <~ parseWordPayload "word operand";
    b <~ parseWordPayload "word operand";
    ret (const_str
           (if (k =? "nametype")%string then Kind.NameType
            else if (k =? "methodhandle")%string then Kind.MethodHandle
            else Kind.InvokeDynamic) a b "")
  else if (k =? "methodtype")%string then
    a <~ parseWordPayload "descriptor"; ret (const_str Kind.MethodType a "" "")
  else if (k =? "field")%string || (k =? "method")%string || (k =? "imethod")%string then
    a <~ parseWordPayload "word operand";
    b <~ parseWordPayload "word operand";
    c <~ parseWordPayload "word operand";
    ret (const_str
           (if (k =? "field")%string then Kind.FieldRef
            else if (k =? "method")%string then Kind.MethodRef
            else Kind.InterfaceMethodRef) a b c)
  else if (k =? "switch")%string then parseSwitchPayload size kindTok
  else fail (errAt kindTok ("unknown const kind '" +:+ k +:+ "'")).

Definition parseConst (size : N) : P unit :=
  cidTok <~ peek 0;
  match prefixed cidTok "c" with
  | None =>
      fail (errAt cidTok ("expected constant id 'c<N>', found '" +:+ tokDisplay cidTok +:+ "'"))
  | Some cid =>
      advance;;
      expectPunct "=" "after constant id";;
      kindTok <~ peek 0;
      if negb (isWord kindTok)
      then fail (errAt kindTok ("expected const kind, found '" +:+ tokDisplay kindTok +:+ "'"))
      else
        advance;;
        known <~ reads (findConst cid);
        match known with
        | Some _ => fail (errAt cidTok ("redefinition of constant 'c" +:+ pretty cid +:+ "'"))
        | None =>
            c <~ parsePayload size kindTok;
            modify (fun st => push_constId (mkConstId cid (u32 (vlen (m_cp (ps_m st))))) st);;
            modify (fun st => set_m (add_const c (ps_m st)) st)
        end
  end.

(** ** Handlers *)

Definition catch_part (hidx which : N) (keyword : string) : P unit :=
  expectWord keyword;;
  t <~ peek 0;
  lab <~ parseLabelIdent;
  modify (push_catchLabel (mkCatchLabelFix hidx which (tk_offset t) lab)).

Definition parseCatch : P unit :=
  hidx <~ reads (fun st => u32 (vlen (m_handlers (ps_m st))));
  modify (fun st =>
    set_m (with_handlers (m_handlers (ps_m st) ++ [mkHandler 0 0 0 (-1)]) (ps_m st)) st);;
  ct <~ peek 0;
  (if wordIs ct "all" then advance
   else
     match prefixed ct "c" with
     | None =>
         fail (errAt ct ("expected 'all' or constant id 'c<N>' after .catch, found '" +:+
                         tokDisplay ct +:+ "'"))
     | Some cid => advance;; modify (push_catchType (mkCatchTypeFix hidx (tk_offset ct) cid))
     end);;
  catch_part hidx 0 "from";;
  catch_part hidx 1 "to";;
  catch_part hidx 2 "handler".

(** ** Instructions *)

Definition set_dst (v : N) (x : Ins) : Ins := mkIns (i_op x) (u16 v) (i_a x) (i_b x) (i_imm x).
Definition set_a (v : N) (x : Ins) : Ins := mkIns (i_op x) (i_dst x) (u16 v) (i_b x) (i_imm x).
Definition set_b (v : N) (x : Ins) : Ins := mkIns (i_op x) (i_dst x) (i_a x) (u16 v) (i_imm x).
Definition set_imm (v : N) (x : Ins) : Ins := mkIns (i_op x) (i_dst x) (i_a x) (i_b x) v.

(** The operand lambdas of [parseInsn]: each stores into a field of the instruction
    or records a fixup of the instruction [idx]. *)
Definition op_reg (set : N -> Ins -> Ins) (x : Ins) : P Ins := v <~ parseReg; ret (set v x).
Definition op_slot (x : Ins) : P Ins := v <~ parseSlot; ret (set_imm v x).
Definition op_bare (x : Ins) : P Ins := v <~ parseBareInt; ret (set_imm v x).

Definition op_bare16 (x : Ins) : P Ins :=
  t <~ peek 0;
  v <~ parseBareInt;
  if 65535 <? v
  then fail (errAt t ("value too large for a 16-bit deopt id: '" +:+ pretty v +:+ "'"))
  else ret (set_b v x).

Definition op_cid (idx : N) (x : Ins) : P Ins :=
  t <~ peek 0;
  v <~ parseCid;
  modify (push_insnCp (mkInsnCpFix idx (tk_offset t) v));; ret x.

Definition op_label (idx : N) (x : Ins) : P Ins :=
  t <~ peek 0;
  l <~ parseLabelIdent;
  modify (push_branch (mkBranchFix idx (tk_offset t) l));; ret x.

Definition parseOperands (idx : N) (sig : Sig) (x : Ins) : P Ins :=
  match sig with
  | Sig.None => ret x
  | Sig.Reg => op_reg set_a x
  | Sig.RegImm => x <~ op_reg set_dst x; op_bare x
  | Sig.RegCp => x <~ op_reg set_dst x; op_cid idx x
  | Sig.RegSlot => x <~ op_reg set_dst x; op_slot x
  | Sig.SlotReg => x <~ op_reg set_a x; op_slot x
  | Sig.RegReg => x <~ op_reg set_dst x; op_reg set_a x
  | Sig.RegRegReg => x <~ op_reg set_dst x; x <~ op_reg set_a x; op_reg set_b x
  | Sig.RegRegImm => x <~ op_reg set_dst x; x <~ op_reg set_a x; op_bare x
  | Sig.RegRegCp => x <~ op_reg set_dst x; x <~ op_reg set_a x; op_cid idx x
  | Sig.RegRegRegCp =>
      x <~ op_reg set_dst x; x <~ op_reg set_a x; x <~ op_reg set_b x; op_cid idx x
  | Sig.Branch => op_label idx x
  | Sig.RegBranch => x <~ op_reg set_a x; op_label idx x
  | Sig.RegRegBranch => x <~ op_reg set_a x; x <~ op_reg set_b x; op_label idx x
  | Sig.RegCpBranch => x <~ op_reg set_a x; op_cid idx x
  | Sig.Call => x <~ op_reg set_dst x; x <~ op_reg set_a x; x <~ op_reg set_b x; op_cid idx x
  | Sig.CallQuick =>
      x <~ op_reg set_dst x; x <~ op_reg set_a x; x <~ op_reg set_b x; op_bare x
  | Sig.Guard => x <~ op_reg set_a x; op_bare x
  | Sig.GuardCp => x <~ op_reg set_a x; x <~ op_bare16 x; op_cid idx x
  | Sig.Trap => op_bare x
  end.

Definition absNat (m : Method) : bool :=
  negb (N.land (m_flags m) (N.lor method_flags.Abstract method_flags.Native) =? 0).

Definition parseInsn : P unit :=
  mn <~ peek 0;
  match lookupOp (tk_text mn) with
  | None => fail (errAt mn ("unknown mnemonic '" +:+ tk_text mn +:+ "'"))
  | Some op =>
      m <~ reads ps_m;
      if absNat m
      then fail (errAt mn "abstract or native method cannot contain instructions")
      else
        advance;;
        let idx := u32 (vlen (m_code m)) in
        modify (bind_pending idx false);;
        x <~ parseOperands idx (oi_sig (info op)) (ins op 0 0 0 0);
        modify (fun st => set_m (add_ins x (ps_m st)) st)
  end.

(** ** Methods *)

(** The words before the first one that starts a descriptor, or before the first
    token that is no word. *)
Fixpoint header_len (l : list Tok) : nat :=
  match l with
  | [] => O
  | t :: r => if negb (isWord t) || starts_with "(" (tk_text t) then O else S (header_len r)
  end.

(** The flag words; [seen] holds those met so far. *)
Fixpoint parseFlags (l : list Tok) (seen : list string) (flags : N) : P N :=
  match l with
  | [] => ret flags
  | t :: r =>
      match List.find (fun f => (f.1 =? tk_text t)%string) kFlags with
      | None => fail (errAt t ("unknown method flag '" +:+ tk_text t +:+ "'"))
      | Some f =>
          if existsb (fun w => (w =? tk_text t)%string) seen
          then fail (errAt t ("duplicate method flag '" +:+ tk_text t +:+ "'"))
          else parseFlags r (tk_text t :: seen) (N.lor flags f.2)
      end
  end.

Fixpoint advances (n : nat) : P unit :=
  match n with O => ret tt | S n => advance;; advances n end.

Definition parseHeader : P unit :=
  toks <~ reads ps_toks;
  let d := header_len toks in
  let desc := nth_tok d toks in
  if negb (isWord desc) || negb (starts_with "(" (tk_text desc)) then
    fail (errAt desc ("expected method descriptor (must start with '('), found '" +:+
                      tokDisplay desc +:+ "'"))
  else
    match d with
    | O =>
        fail (errAt desc ("expected method name before descriptor, found '" +:+
                          tokDisplay desc +:+ "'"))
    | S n =>
        flags <~ parseFlags (take n toks) [] 0;
        modify (fun st =>
          set_m (with_header (tk_text (nth_tok n toks)) (tk_text desc) flags (ps_m st)) st);;
        advances (S d)
    end.

Definition parseCount (directive : string) : P N :=
  num <~ peek 0;
  if negb (isInt num) then
    fail (errAt num ("expected non-negative integer after " +:+ directive +:+ ", found '" +:+
                     tokDisplay num +:+ "'"))
  else
    advance;;
    v <~ parseIntToken num;
    if ((v <? 0) || (4294967295 <? v))%Z
    then fail (errAt num "register/slot count out of range")
    else ret (Z.to_N v).

(** What the body loop keeps in local variables. *)
Record Body := mkBody { b_seenRegs : bool; b_seenLocals : bool; b_firstInsnOff : N }.

(** A turn of the body loop on a label: [ident :] alone on its line. *)
Definition parseLabel (t : Tok) : P unit :=
  if negb (isIdentShape (tk_text t))
  then fail (errAt t ("invalid label identifier '" +:+ tokDisplay t +:+ "'"))
  else
    t2 <~ peek 2;
    if negb (bool_decide (tk_kind t2 = Tk.End_)) && negb (tk_lineStart t2)
    then fail (errAt t ("label '" +:+ tk_text t +:+ "' must be on its own line"))
    else
      known <~ reads (labelDefined (tk_text t));
      if (known : bool) then fail (errAt t ("duplicate label '" +:+ tk_text t +:+ "'"))
      else modify (push_pending (mkPending (tk_text t) (tk_offset t)));; advance;; advance.

(** The body up to [.end]: the offset of [.end] and of the first instruction. *)
Fixpoint parseBody (fuel : nat) (size : N) (b : Body) : P (N * N) :=
  match fuel with
  | O => nofuel
  | S fuel =>
      t <~ peek 0;
      if decide (tk_kind t = Tk.End_)
      then fail (errEof size "unexpected end of input inside method (missing .end)")
      else if negb (isWord t)
      then fail (errAt t ("expected directive, label, or instruction, found '" +:+
                          tokDisplay t +:+ "'"))
      else if (tk_text t =? ".end")%string then advance;; ret (tk_offset t, b_firstInsnOff b)
      else if (tk_text t =? ".regs")%string then
        if b_seenRegs b then fail (errAt t "duplicate .regs directive")
        else
          advance;;
          v <~ parseCount ".regs";
          modify (fun st => set_m (with_numRegs v (ps_m st)) st);;
          parseBody fuel size (mkBody true (b_seenLocals b) (b_firstInsnOff b))
      else if (tk_text t =? ".locals")%string then
        if b_seenLocals b then fail (errAt t "duplicate .locals directive")
        else
          advance;;
          v <~ parseCount ".locals";
          modify (fun st => set_m (with_numLocals v (ps_m st)) st);;
          parseBody fuel size (mkBody (b_seenRegs b) true (b_firstInsnOff b))
      else if (tk_text t =? ".const")%string then
        advance;; parseConst size;; parseBody fuel size b
      else if (tk_text t =? ".catch")%string then
        advance;; parseCatch;; parseBody fuel size b
      else if starts_with "." (tk_text t)
      then fail (errAt t ("unknown directive '" +:+ tk_text t +:+ "'"))
      else
        t1 <~ peek 1;
        if isPunct t1 ":" && negb (tk_lineStart t1) then
          parseLabel t;; parseBody fuel size b
        else
          code <~ reads (fun st => m_code (ps_m st));
          parseInsn;;
          parseBody fuel size
            (match code with
             | [] => mkBody (b_seenRegs b) (b_seenLocals b) (tk_offset t)
             | _ => b
             end)
  end.

(** ** Resolution *)

(** The method being patched and the errors collected so far. A fixup's indices are
    ones the parser recorded for an element it appended. *)
Definition Res : Type := Method * list TextError.

Definition push_err (offset : N) (msg : string) (x : Res) : Res :=
  (x.1, x.2 ++ [mkTextError offset msg]).

Definition patch_ins (i : N) (imm : N) (m : Method) : Method :=
  match vget (m_code m) i with
  | Some x => with_code (vset (m_code m) i (set_imm imm x)) m
  | None => m
  end.

Definition set_int (pos : N) (v : Z) (c : Const) : Const :=
  mkConst (c_kind c) (c_i32 c) (c_i64 c) (c_f32 c) (c_f64 c) (c_str c) (c_str2 c) (c_str3 c)
    (vset (c_ints c) pos v).

Definition patch_const (i pos : N) (v : Z) (m : Method) : Method :=
  match vget (m_cp m) i with
  | Some c => with_cp (vset (m_cp m) i (set_int pos v c)) m
  | None => m
  end.

Definition patch_handler (i : N) (f : ExceptionHandler -> ExceptionHandler) (m : Method)
    : Method :=
  match vget (m_handlers m) i with
  | Some h => with_handlers (vset (m_handlers m) i (f h)) m
  | None => m
  end.

Definition set_catch_pc (which pc : N) (h : ExceptionHandler) : ExceptionHandler :=
  if which =? 0 then mkHandler pc (h_end h) (h_handler h) (h_catchType h)
  else if which =? 1 then mkHandler (h_start h) pc (h_handler h) (h_catchType h)
  else mkHandler (h_start h) (h_end h) pc (h_catchType h).

Definition set_catchType (v : Z) (h : ExceptionHandler) : ExceptionHandler :=
  mkHandler (h_start h) (h_end h) (h_handler h) v.

Definition undefinedConstant (cid : N) : string :=
  "undefined constant 'c" +:+ pretty cid +:+ "'".
Definition undefinedLabel (name : string) : string := "undefined label '" +:+ name +:+ "'".
Definition pastEndLabel (name : string) : string :=
  "label '" +:+ name +:+ "' points past the end of the method".

(** What a switch instruction asks of the constant it names. *)
Definition switch_error (op : option Op) (c : Const) : option string :=
  if decide (op = Some Op.Tableswitch) then
    if negb (bool_decide (c_kind c = Kind.SwitchTable))
    then Some "tableswitch operand must reference a switch constant"
    else if negb (isTableLayout c)
    then Some "tableswitch matches must be contiguous ascending" else None
  else if decide (op = Some Op.Lookupswitch) then
    if negb (bool_decide (c_kind c = Kind.SwitchTable))
    then Some "lookupswitch operand must reference a switch constant"
    else if negb (isLookupLayout c)
    then Some "lookupswitch matches must not be contiguous (use tableswitch)" else None
  else None.

Section resolve.
Variable st : St.

Definition fix_insnCp (x : Res) (f : InsnCpFix) : Res :=
  match findConst (cf_cid f) st with
  | None => push_err (cf_offset f) (undefinedConstant (cf_cid f)) x
  | Some idx =>
      let m := patch_ins (cf_insn f) idx x.1 in
      match vget (m_code m) (cf_insn f), vget (m_cp m) idx with
      | Some i, Some c =>
          match switch_error (of_code (i_op i)) c with
          | Some msg => push_err (cf_offset f) msg (m, x.2)
          | None => (m, x.2)
          end
      | _, _ => (m, x.2)
      end
  end.

(** The position of a label, or the error it gives; a label past the end is good
    for the end of a handler's range only. *)
Definition resolve_label (name : string) (offset : N) (endOk : bool) : N + TextError :=
  match findLabel name st with
  | None => inr (mkTextError offset (undefinedLabel name))
  | Some d =>
      if ld_pastEnd d && negb endOk then inr (mkTextError (ld_offset d) (pastEndLabel name))
      else inl (ld_pc d)
  end.

Definition fix_branch (x : Res) (f : BranchFix) : Res :=
  match resolve_label (bf_name f) (bf_offset f) false with
  | inr e => (x.1, x.2 ++ [e])
  | inl pc => (patch_ins (bf_insn f) pc x.1, x.2)
  end.

Definition fix_switch (x : Res) (f : SwitchFix) : Res :=
  match resolve_label (sf_name f) (sf_offset f) false with
  | inr e => (x.1, x.2 ++ [e])
  | inl pc => (patch_const (sf_constIdx f) (sf_pos f) (i32 (Z.of_N pc)) x.1, x.2)
  end.

Definition fix_catchLabel (x : Res) (f : CatchLabelFix) : Res :=
  match resolve_label (lf_name f) (lf_offset f) (lf_which f =? 1) with
  | inr e => (x.1, x.2 ++ [e])
  | inl pc => (patch_handler (lf_handler f) (set_catch_pc (lf_which f) pc) x.1, x.2)
  end.

Definition fix_catchType (x : Res) (f : CatchTypeFix) : Res :=
  match findConst (tf_cid f) st with
  | None => push_err (tf_offset f) (undefinedConstant (tf_cid f)) x
  | Some idx =>
      match vget (m_cp x.1) idx with
      | Some c =>
          if bool_decide (c_kind c = Kind.Class)
          then (patch_handler (tf_handler f) (set_catchType (i32 (Z.of_N idx))) x.1, x.2)
          else
            push_err (tf_offset f)
              (".catch type must reference a class constant ('c" +:+ pretty (tf_cid f) +:+
               "' is not a class)") x
      | None => x
      end
  end.

(** Labels past the end that no handler ends at. *)
Definition pastEnd_errors : list TextError :=
  flat_map (fun d =>
      if ld_pastEnd d &&
         negb (existsb (fun f => (lf_which f =? 1) && (lf_name f =? ld_name d)%string)
                 (catchLabelFixes_ st))
      then [mkTextError (ld_offset d) (pastEndLabel (ld_name d))] else [])
    (labels_ st).

Definition resolve : Res :=
  let x := fold_left fix_insnCp (insnCpFixes_ st) (ps_m st, []) in
  let x := fold_left fix_branch (branchFixes_ st) x in
  let x := fold_left fix_switch (switchFixes_ st) x in
  let x := fold_left fix_catchLabel (catchLabelFixes_ st) x in
  let x := fold_left fix_catchType (catchTypeFixes_ st) x in
  (x.1, x.2 ++ pastEnd_errors).
End resolve.

(** The first error of the least offset. *)
Definition best_error (first : TextError) (errs : list TextError) : TextError :=
  fold_left (fun best e => if te_offset e <? te_offset best then e else best) errs first.

Definition finishMethod (endOff firstInsnOff : N) : P Method :=
  m <~ reads ps_m;
  modify (bind_pending (u32 (vlen (m_code m))) true);;
  let empty := match m_code m with [] => true | _ => false end in
  if absNat m && negb empty
  then fail (mkTextError firstInsnOff "abstract or native method cannot contain instructions")
  else if negb (absNat m) && empty
  then fail (mkTextError endOff
        "method must contain at least one instruction (or be declared abstract/native)")
  else
    x <~ reads resolve;
    let '(m, errs) := x in
    match errs with
    | [] => ret m
    | e :: r => fail (best_error e r)
    end.

Definition parseMethod (size : N) : P Method :=
  modify resetMethodState;;
  advance;;
  parseHeader;;
  fuel <~ reads (fun st => List.length (ps_toks st));
  x <~ parseBody fuel size (mkBody false false 0);
  finishMethod x.2 x.1.

(** ** Programs *)

Definition expectedTop (t : Tok) : TextError :=
  errAt t ("expected '.class' or '.method', found '" +:+ tokDisplay t +:+ "'").

Fixpoint run (fuel : nat) (size : N) (seenClass : bool) (p : Program) : P Program :=
  match fuel with
  | O => nofuel
  | S fuel =>
      t <~ peek 0;
      if decide (tk_kind t = Tk.End_) then ret p
      else if negb (isWord t) then fail (expectedTop t)
      else if (tk_text t =? ".class")%string then
        if seenClass then fail (errAt t "duplicate .class directive")
        else
          match p_methods p with
          | _ :: _ => fail (errAt t ".class must precede all methods")
          | [] =>
              advance;;
              name <~ peek 0;
              if negb (isWord name) || starts_with "." (tk_text name) then
                fail (errAt name ("expected class internal name, found '" +:+
                                  tokDisplay name +:+ "'"))
              else advance;; run fuel size true (mkProgram (tk_text name) (p_methods p))
          end
      else if (tk_text t =? ".method")%string then
        m <~ parseMethod size;
        run fuel size seenClass (mkProgram (p_className p) (p_methods p ++ [m]))
      else fail (expectedTop t)
  end.

(** The parser's answer. *)
Inductive Parse := Parsed_ (p : Program) | ParseError (e : TextError) | OutOfFuel.

Definition parseRbcText (text : string) : Parse :=
  let toks := lex text in
  match run (List.length toks) (slen text) false (mkProgram "" [])
          (mkSt toks newMethod [] [] [] [] [] [] [] []) with
  | Ok p _ => Parsed_ p
  | Err e => ParseError e
  | NoFuel => OutOfFuel
  end.
