(* ===== verification/RbcPrint.v ===== *)
(** * The printer of the RBC text format

    The printer half of compiler/rbc/src/RbcText.cpp: [printRbcText] on programs and
    methods. *)

From stdpp Require Import pretty.
From Stdlib Require Import Ascii String.
From S2P Require Import Prelude Machine RbcOpcode Rbc RbcLex CharConv RbcParse.

Local Open Scope N_scope.

(** [appendU] and [appendI] *)
Definition appendU (v : N) : string := pretty v.
Definition appendI (v : Z) : string := pretty v.

Definition appendFloat (f : Fmt) (bits : N) : string :=
  let b := Z.of_N bits in
  let magnitude := (b mod f_sign f)%Z in
  let sign := if (f_sign f <=? b)%Z then "-" else "" in
  if (f_inf f <? magnitude)%Z then sign +:+ "nan"
  else if (magnitude =? f_inf f)%Z then sign +:+ "inf"
  else to_chars_float f b.

Definition escape (c : ascii) : string :=
  if Ascii.eqb c dquote then String backslash (String dquote "")
  else if Ascii.eqb c backslash then String backslash (String backslash "")
  else if Ascii.eqb c lf then "\n"
  else if Ascii.eqb c (chr 9) then "\t"
  else if Ascii.eqb c (chr 13) then "\r"
  else String c "".

Fixpoint escapes (s : string) : string :=
  match s with
  | EmptyString => EmptyString
  | String c r => escape c +:+ escapes r
  end.

Definition quoted (s : string) : string :=
  String dquote (escapes s +:+ String dquote EmptyString).

Definition eol : string := String lf EmptyString.

(** ** Switch constants *)

Record SwData := mkSwData {
  sd_table : bool; sd_matches : list Z; sd_targets : list N; sd_def : N
}.

Definition noSwData : SwData := mkSwData false [] [] 0.

Definition to_u32 (v : Z) : N := Z.to_N (uz32 v).

(** The elements at even and at odd positions. *)
Fixpoint evens {A} (l : list A) : list A :=
  match l with x :: _ :: r => x :: evens r | [x] => [x] | [] => [] end.
Fixpoint odds {A} (l : list A) : list A :=
  match l with _ :: y :: r => y :: odds r | _ => [] end.

Definition tryTable (c : Const) : option SwData :=
  match c_ints c with
  | low :: _ :: def :: rest =>
      if isTableLayout c
      then Some (mkSwData true (imap (fun k _ => i32 (low + Z.of_nat k)) rest) (map to_u32 rest)
                   (to_u32 def))
      else None
  | _ => None
  end.

Definition tryLookup (c : Const) : option SwData :=
  match c_ints c with
  | _ :: def :: rest =>
      if isLookupLayout c
      then Some (mkSwData false (evens rest) (map to_u32 (odds rest)) (to_u32 def))
      else None
  | _ => None
  end.

(** [form] is 1 for a constant of a tableswitch, 2 for one of a lookupswitch, 0 for
    one that no instruction names. *)
Definition decodeSwitch (c : Const) (form : N) : SwData :=
  let first := if form =? 2 then tryLookup c else tryTable c in
  let second := if form =? 2 then tryTable c else tryLookup c in
  match first, second with
  | Some d, _ | None, Some d => d
  | None, None =>
      mkSwData false [] [] (match last (c_ints c) with Some v => to_u32 v | None => 0 end)
  end.

Fixpoint print_cases (matches : list Z) (targets : list N) : string :=
  match matches, targets with
  | v :: ms, t :: ts => " " +:+ appendI v +:+ " : L" +:+ appendU t +:+ print_cases ms ts
  | _, _ => EmptyString
  end.

Definition printConst (c : Const) (sw : SwData) : string :=
  match c_kind c with
  | Kind.Int32 => "int " +:+ appendI (c_i32 c)
  | Kind.Int64 => "long " +:+ appendI (c_i64 c)
  | Kind.Float => "float " +:+ appendFloat fmt32 (c_f32 c)
  | Kind.Double => "double " +:+ appendFloat fmt64 (c_f64 c)
  | Kind.Utf8 => "utf8 " +:+ quoted (c_str c)
  | Kind.String => "string " +:+ quoted (c_str c)
  | Kind.Class => "class " +:+ quoted (c_str c)
  | Kind.NameType => "nametype " +:+ c_str c +:+ " " +:+ c_str2 c
  | Kind.MethodType => "methodtype " +:+ c_str c
  | Kind.MethodHandle => "methodhandle " +:+ c_str c +:+ " " +:+ c_str2 c
  | Kind.InvokeDynamic => "indy " +:+ c_str c +:+ " " +:+ c_str2 c
  | Kind.SwitchTable =>
      "switch {" +:+ print_cases (sd_matches sw) (sd_targets sw) +:+
      " default : L" +:+ appendU (sd_def sw) +:+ " }"
  | Kind.FieldRef => "field " +:+ c_str c +:+ " " +:+ c_str2 c +:+ " " +:+ c_str3 c
  | Kind.MethodRef => "method " +:+ c_str c +:+ " " +:+ c_str2 c +:+ " " +:+ c_str3 c
  | Kind.InterfaceMethodRef => "imethod " +:+ c_str c +:+ " " +:+ c_str2 c +:+ " " +:+ c_str3 c
  end.

(** ** Instructions *)

Definition pr_r (v : N) : string := " r" +:+ appendU v.
Definition pr_l (v : N) : string := " l" +:+ appendU v.
Definition pr_c (v : N) : string := " c" +:+ appendU v.
Definition pr_lab (v : N) : string := " L" +:+ appendU v.
Definition pr_immS (v : N) : string := " " +:+ appendI (i32 (Z.of_N v)).
Definition pr_immU (v : N) : string := " " +:+ appendU v.

Definition printOperands (sig : Sig) (x : Ins) : string :=
  match sig with
  | Sig.None => ""
  | Sig.Reg => pr_r (i_a x)
  | Sig.RegImm => pr_r (i_dst x) +:+ pr_immS (i_imm x)
  | Sig.RegCp => pr_r (i_dst x) +:+ pr_c (i_imm x)
  | Sig.RegSlot => pr_r (i_dst x) +:+ pr_l (i_imm x)
  | Sig.SlotReg => pr_r (i_a x) +:+ pr_l (i_imm x)
  | Sig.RegReg => pr_r (i_dst x) +:+ pr_r (i_a x)
  | Sig.RegRegReg => pr_r (i_dst x) +:+ pr_r (i_a x) +:+ pr_r (i_b x)
  | Sig.RegRegImm => pr_r (i_dst x) +:+ pr_r (i_a x) +:+ pr_immU (i_imm x)
  | Sig.RegRegCp => pr_r (i_dst x) +:+ pr_r (i_a x) +:+ pr_c (i_imm x)
  | Sig.RegRegRegCp =>
      pr_r (i_dst x) +:+ pr_r (i_a x) +:+ pr_r (i_b x) +:+ pr_c (i_imm x)
  | Sig.Branch => pr_lab (i_imm x)
  | Sig.RegBranch => pr_r (i_a x) +:+ pr_lab (i_imm x)
  | Sig.RegRegBranch => pr_r (i_a x) +:+ pr_r (i_b x) +:+ pr_lab (i_imm x)
  | Sig.RegCpBranch => pr_r (i_a x) +:+ pr_c (i_imm x)
  | Sig.Call => pr_r (i_dst x) +:+ pr_r (i_a x) +:+ pr_r (i_b x) +:+ pr_c (i_imm x)
  | Sig.CallQuick => pr_r (i_dst x) +:+ pr_r (i_a x) +:+ pr_r (i_b x) +:+ pr_immU (i_imm x)
  | Sig.Guard => pr_r (i_a x) +:+ pr_immU (i_imm x)
  | Sig.GuardCp => pr_r (i_a x) +:+ pr_immU (i_b x) +:+ pr_c (i_imm x)
  | Sig.Trap => pr_immU (i_imm x)
  end.

Definition printInsn (x : Ins) : string :=
  match of_code (i_op x) with
  | None =>
      oi_name kBadOp +:+ " r" +:+ appendU (i_dst x) +:+ " r" +:+ appendU (i_a x) +:+
      " r" +:+ appendU (i_b x) +:+ " " +:+ appendU (i_imm x)
  | Some op => opName op +:+ printOperands (oi_sig (info op)) x
  end.

(** ** Methods and programs *)

(** The layout each constant is printed in: that of the first switch naming it. *)
Definition form_step (form : list N) (x : Ins) : list N :=
  if bool_decide (vget form (i_imm x) = Some 0) then
    if decide (of_code (i_op x) = Some Op.Tableswitch) then vset form (i_imm x) 1
    else if decide (of_code (i_op x) = Some Op.Lookupswitch) then vset form (i_imm x) 2
    else form
  else form.

Definition forms (m : Method) : list N :=
  fold_left form_step (m_code m) (replicate (List.length (m_cp m)) 0).

Definition swData (m : Method) : list SwData :=
  zip_with (fun c form =>
      if bool_decide (c_kind c = Kind.SwitchTable) then decodeSwitch c form else noSwData)
    (m_cp m) (forms m).

Definition branch_target (x : Ins) : list N :=
  match of_code (i_op x) with
  | None => []
  | Some op =>
      match oi_sig (info op) with
      | Sig.Branch | Sig.RegBranch | Sig.RegRegBranch => [i_imm x]
      | _ => []
      end
  end.

(** The positions marked in [isTarget], those past [code.size()] dropped by the
    reader. *)
Definition marks (m : Method) : list N :=
  flat_map branch_target (m_code m) ++
  flat_map (fun s => sd_def s :: sd_targets s) (swData m) ++
  flat_map (fun h => [h_start h; h_end h; h_handler h]) (m_handlers m).

Definition isTarget (m : Method) (pc : N) : bool := existsb (N.eqb pc) (marks m).

Definition print_label (m : Method) (pc : N) : string :=
  if isTarget m pc then "L" +:+ appendU pc +:+ ":" +:+ eol else EmptyString.

Fixpoint concats (l : list string) : string :=
  match l with [] => EmptyString | s :: r => s +:+ concats r end.

Definition print_flags (m : Method) : string :=
  concats (map (fun f => if negb (N.land (m_flags m) f.2 =? 0) then " " +:+ f.1 else "") kFlags).

Definition print_consts (m : Method) : string :=
  concats (imap (fun i c =>
      ".const c" +:+ appendU (N.of_nat i) +:+ " = " +:+
      printConst c (default noSwData (swData m !! i)) +:+ eol) (m_cp m)).

Definition print_code (m : Method) : string :=
  concats (imap (fun pc x => print_label m (N.of_nat pc) +:+ printInsn x +:+ eol) (m_code m)).

Definition print_handler (h : ExceptionHandler) : string :=
  ".catch " +:+
  (if (h_catchType h <? 0)%Z then "all" else "c" +:+ appendU (Z.to_N (h_catchType h))) +:+
  " from L" +:+ appendU (h_start h) +:+ " to L" +:+ appendU (h_end h) +:+
  " handler L" +:+ appendU (h_handler h) +:+ eol.

Definition printMethod (m : Method) : string :=
  ".method" +:+ print_flags m +:+ " " +:+ m_name m +:+ " " +:+ m_descriptor m +:+ eol +:+
  ".regs " +:+ appendU (m_numRegs m) +:+ eol +:+
  ".locals " +:+ appendU (m_numLocals m) +:+ eol +:+
  print_consts m +:+ print_code m +:+ print_label m (vlen (m_code m)) +:+
  concats (map print_handler (m_handlers m)) +:+ ".end" +:+ eol.

Definition printRbcText (p : Program) : string :=
  ".class " +:+ p_className p +:+ eol +:+
  concats (map (fun m => eol +:+ printMethod m) (p_methods p)).
