(* ===== verification/RbcTextTotal.v ===== *)
(** * The parser of the RBC text format always answers

    Every text is either parsed or rejected with one error whose offset lies within
    it. The lemmas are Hoare triples of the parser's monad: [ok n live b b' x Q]
    says that [x], started with at most [b] tokens left (the first of them not the
    sentinel when [live] is set), leaves at most [b'], and fails only at an offset
    of at most [n]. *)

From Stdlib Require Import Ascii String.
From S2P Require Import Prelude RbcOpcode Rbc RbcLex CharConv RbcParse.

Local Open Scope N_scope.
Local Open Scope rbctext_scope.

(** ** The tokenizer *)

(** The sentinel is the last token and the only one of its kind. *)
Definition sentinel (l : list Tok) : Prop :=
  exists r e, l = r ++ [e] /\ tk_kind e = Tk.End_.

Lemma length_append a b : String.length (a +:+ b) = (String.length a + String.length b)%nat.
Proof.
  induction a as [|c a IH]; [done|].
  change (S (String.length (a +:+ b)) = S (String.length a + String.length b)%nat). by rewrite IH.
Qed.

Lemma slen_app a b : slen (a +:+ b) = slen a + slen b.
Proof. unfold slen. rewrite length_append. lia. Qed.

Lemma slen_cons c s : slen (String c s) = 1 + slen s.
Proof. unfold slen. cbn. lia. Qed.

Lemma span_app p s : (span p s).1 +:+ (span p s).2 = s.
Proof.
  induction s as [|c s IH]; [done|]. cbn [span]. destruct (p c); [|done].
  destruct (span p s) as [t r]. cbn [fst snd] in *.
  change (String c (t +:+ r) = String c s). by rewrite IH.
Qed.

Lemma span_slen p s : slen (span p s).1 + slen (span p s).2 = slen s.
Proof. by rewrite <- slen_app, span_app. Qed.

Lemma scan_string_slen s : slen (scan_string s).1 + slen (scan_string s).2 = slen s.
Proof.
  remember (String.length s) as k eqn:Hk. revert s Hk.
  induction k as [k IH] using lt_wf_ind. intros s ->.
  destruct s as [|c r]; [done|]. cbn [scan_string].
  destruct (Ascii.eqb c dquote); [cbn; rewrite !slen_cons; unfold slen; cbn; lia|].
  destruct r as [|d r']; [done|].
  destruct (Ascii.eqb c backslash).
  - specialize (IH (String.length r') ltac:(cbn; lia) r' eq_refl).
    destruct (scan_string r') as [t x]. cbn [fst snd] in *. rewrite !slen_cons. lia.
  - specialize (IH (String.length (String d r')) ltac:(cbn; lia) _ eq_refl).
    destruct (scan_string (String d r')) as [t x]. cbn [fst snd] in *. rewrite !slen_cons in *. lia.
Qed.

Lemma scan_exponent_slen s : slen (scan_exponent s).1 + slen (scan_exponent s).2 = slen s.
Proof.
  destruct s as [|c r]; [done|]. unfold scan_exponent.
  destruct (_ || _); [|done].
  destruct r as [|d r]; [done|].
  destruct (Ascii.eqb d "+" || Ascii.eqb d "-").
  - destruct (digitAt 0 r); [|done]. pose proof (span_slen isDigit r).
    destruct (span isDigit r). cbn [fst snd] in *. rewrite !slen_cons, slen_app, slen_cons.
    unfold slen in *. cbn. lia.
  - destruct (digitAt 0 (String d r)); [|done]. pose proof (span_slen isDigit (String d r)) as H.
    destruct (span isDigit (String d r)). cbn [fst snd] in *. rewrite !slen_cons, slen_app in *.
    unfold slen in *. cbn. lia.
Qed.

Lemma scan_number_slen s : slen (scan_number s).1.2 + slen (scan_number s).2 = slen s.
Proof.
  unfold scan_number.
  set (sg := match s with String c r => _ | EmptyString => _ end).
  assert (slen sg.1 + slen sg.2 = slen s) as H1.
  { subst sg. destruct s as [|c r]; [done|]. destruct (Ascii.eqb c "-"); [|done].
    cbn [fst snd]. rewrite !slen_cons. unfold slen. cbn. lia. }
  destruct sg as [sign s1]. cbn [fst snd] in H1.
  pose proof (span_slen isDigit s1) as H2.
  destruct (span isDigit s1) as [whole s2]. cbn [fst snd] in H2.
  set (fr := match s2 with String c r => _ | EmptyString => _ end).
  assert (slen fr.1 + slen fr.2 = slen s2) as H3.
  { subst fr. destruct s2 as [|c r]; [done|]. destruct (Ascii.eqb c "."); [|done].
    pose proof (span_slen isDigit r). destruct (span isDigit r). cbn [fst snd] in *.
    rewrite !slen_cons. lia. }
  destruct fr as [frac s3]. cbn [fst snd] in H3.
  pose proof (scan_exponent_slen s3) as H4.
  destruct (scan_exponent s3) as [ex s4]. cbn [fst snd] in *. rewrite !slen_app. lia.
Qed.

(** A token's text and the text after it make up the text before it. *)
Lemma scan_token_slen c r :
  slen (scan_token c r).1.2 + slen (scan_token c r).2 = 1 + slen r.
Proof.
  unfold scan_token. rewrite <- (slen_cons c r).
  destruct (Ascii.eqb c dquote).
  { pose proof (scan_string_slen r). destruct (scan_string r). cbn [fst snd] in *.
    rewrite !slen_cons. lia. }
  destruct (number_start (String c r)); [apply scan_number_slen|].
  destruct (is_punct c); [cbn [fst snd]; rewrite !slen_cons; unfold slen; cbn; lia|].
  pose proof (span_slen isWordByte (String c r)).
  destruct (span isWordByte (String c r)). done.
Qed.

Lemma scan_token_kind c r : (scan_token c r).1.1 <> Tk.End_.
Proof.
  unfold scan_token. destruct (Ascii.eqb c dquote); [by destruct (scan_string r)|].
  destruct (number_start (String c r)).
  { unfold scan_number.
    repeat match goal with |- context [let '(_, _) := ?x in _] => destruct x end.
    cbn. by destruct (_ || _). }
  destruct (is_punct c); [done|]. by destruct (span isWordByte (String c r)).
Qed.

(** A token has a byte at least. *)
Lemma scan_token_pos c r :
  isWs c = false -> Ascii.eqb c "#" = false -> 0 < slen (scan_token c r).1.2.
Proof.
  intros Hws Hsharp. unfold scan_token.
  destruct (Ascii.eqb c dquote) eqn:Hq.
  { destruct (scan_string r). cbn [fst snd]. rewrite slen_cons. lia. }
  destruct (number_start (String c r)) eqn:Hn.
  - unfold scan_number. destruct (Ascii.eqb c "-") eqn:Hm.
    { repeat match goal with |- context [let '(_, _) := ?x in _] => destruct x end.
      cbn [fst snd]. rewrite slen_app, slen_cons. lia. }
    cbn [span]. destruct (isDigit c) eqn:Hd.
    { destruct (span isDigit r).
      repeat match goal with |- context [let '(_, _) := ?x in _] => destruct x end.
      cbn [fst snd]. rewrite !slen_app, slen_cons. lia. }
    destruct (Ascii.eqb c ".") eqn:Hdot.
    { destruct (span isDigit r).
      repeat match goal with |- context [let '(_, _) := ?x in _] => destruct x end.
      cbn [fst snd]. rewrite !slen_app, slen_cons. lia. }
    exfalso. unfold number_start, digitAt, charAt in Hn. cbn in Hn.
    rewrite Hd, Hm, Hdot in Hn. done.
  - destruct (is_punct c) eqn:Hp; [cbn [fst snd]; rewrite slen_cons; lia|].
    cbn [span]. assert (isWordByte c = true) as ->.
    { unfold isWordByte, is_punct in *. rewrite Hws, Hsharp, Hq.
      repeat (apply orb_false_iff in Hp as [Hp ?]).
      repeat match goal with H : Ascii.eqb c _ = false |- _ => rewrite H; clear H end. done. }
    destruct (span isWordByte r). cbn [fst snd]. rewrite slen_cons. lia.
Qed.

Lemma sentinel_cons t l : sentinel l -> sentinel (t :: l).
Proof. intros (r & e & -> & He). by exists (t :: r), e. Qed.

Lemma lex_from_spec fuel : forall i ls s,
  (String.length s < fuel)%nat ->
  sentinel (lex_from fuel i ls s) /\
  Forall (fun t => tk_offset t <= i + slen s) (lex_from fuel i ls s).
Proof.
  induction fuel as [|fuel IH]; [lia|]. intros i ls s Hlen. cbn [lex_from].
  destruct s as [|c r].
  { split; [by exists [], (mkTok Tk.End_ (u32 i) 0 true "")|].
    constructor; [|constructor]. cbn [tk_offset]. pose proof (u32_le i). lia. }
  assert (forall i' ls' s', i' + slen s' = i + slen (String c r) ->
            slen s' < slen (String c r) ->
            sentinel (lex_from fuel i' ls' s') /\
            Forall (fun t => tk_offset t <= i + slen (String c r)) (lex_from fuel i' ls' s'))
    as Hrec.
  { intros i' ls' s' Hi Hl. rewrite <- Hi. apply IH. unfold slen in Hl. lia. }
  destruct (isWs c) eqn:Hws; [apply Hrec; rewrite slen_cons; lia|].
  destruct (Ascii.eqb c "#") eqn:Hsharp.
  - pose proof (span_slen (fun d => negb (Ascii.eqb d lf)) (String c r)) as Hs.
    assert (0 < slen (span (fun d => negb (Ascii.eqb d lf)) (String c r)).1) as Hp.
    { apply Ascii.eqb_eq in Hsharp as ->. cbn [span].
      change (negb (Ascii.eqb "#" lf)) with true. cbn iota.
      destruct (span _ r). cbn [fst]. rewrite slen_cons. lia. }
    destruct (span _ (String c r)) as [sk rest]. cbn [fst snd] in *. apply Hrec; lia.
  - pose proof (scan_token_slen c r) as Hs. pose proof (scan_token_pos c r Hws Hsharp) as Hp.
    destruct (scan_token c r) as [[kind text] rest]. cbn [fst snd] in *.
    rewrite <- slen_cons with (c := c) in Hs.
    destruct (Hrec (i + slen text) false rest) as [Hse Hf]; [lia..|].
    split; [by apply sentinel_cons|]. constructor; [|done].
    cbn [tk_offset]. pose proof (u32_le i). lia.
Qed.

Lemma lex_spec src :
  sentinel (lex src) /\ Forall (fun t => tk_offset t <= slen src) (lex src).
Proof. apply (lex_from_spec _ 0 true src). lia. Qed.

(** ** Triples *)

Section triples.
Variable n : N.

(** Every offset that the state holds is one of the text. *)
Record inv (st : St) : Prop := {
  inv_sentinel : sentinel (ps_toks st);
  inv_toks : Forall (fun t => tk_offset t <= n) (ps_toks st);
  inv_labels : Forall (fun d => ld_offset d <= n) (labels_ st);
  inv_pending : Forall (fun d => pd_offset d <= n) (pending_ st);
  inv_branch : Forall (fun d => bf_offset d <= n) (branchFixes_ st);
  inv_switch : Forall (fun d => sf_offset d <= n) (switchFixes_ st);
  inv_insnCp : Forall (fun d => cf_offset d <= n) (insnCpFixes_ st);
  inv_catchLabel : Forall (fun d => lf_offset d <= n) (catchLabelFixes_ st);
  inv_catchType : Forall (fun d => tf_offset d <= n) (catchTypeFixes_ st)
}.

Definition len (st : St) : nat := List.length (ps_toks st).
Definition live_at (st : St) : Prop := tk_kind (nth_tok 0 (ps_toks st)) <> Tk.End_.

Definition ok {A} (live : bool) (b b' : nat) (x : P A) (Q : A -> Prop) : Prop :=
  forall st, inv st -> (len st <= b)%nat -> (live = true -> live_at st) ->
  match x st with
  | Ok a st' => inv st' /\ (len st' <= b')%nat /\ Q a
  | Err e => te_offset e <= n
  | NoFuel => False
  end.

Lemma ok_ret {A} live b (a : A) (Q : A -> Prop) : Q a -> ok live b b (ret a) Q.
Proof. by intros HQ st Hi Hb _. Qed.

Lemma ok_fail {A} live b b' e (Q : A -> Prop) : te_offset e <= n -> ok live b b' (fail e) Q.
Proof. by intros He st Hi Hb _. Qed.

Lemma ok_bind {A B} live b c d (x : P A) (k : A -> P B) Q R :
  ok live b c x Q -> (forall a, Q a -> ok false c d (k a) R) -> ok live b d (bind x k) R.
Proof.
  intros Hx Hk st Hi Hb Hl. unfold bind. specialize (Hx st Hi Hb Hl).
  destruct (x st) as [a st'|e|]; [|done..]. destruct Hx as (Hi' & Hb' & HQ).
  by apply (Hk a HQ st').
Qed.

Lemma ok_weaken {A} live b b' c c' (x : P A) (Q Q' : A -> Prop) :
  ok live b' c x Q -> (b <= b')%nat -> (c <= c')%nat -> (forall a, Q a -> Q' a) ->
  ok live b c' x Q'.
Proof.
  intros Hx Hb Hc HQ st Hi Hl Hlive. specialize (Hx st Hi ltac:(lia) Hlive).
  destruct (x st) as [a st'|e|]; [|done..]. destruct Hx as (? & ? & ?). auto with lia.
Qed.

Lemma ok_le {A} live b b' c c' (x : P A) Q :
  ok live b' c x Q -> (b <= b')%nat -> (c <= c')%nat -> ok live b c' x Q.
Proof. intros Hx Hb Hc. by eapply ok_weaken. Qed.

Lemma ok_dead {A} live b c (x : P A) Q : ok false b c x Q -> ok live b c x Q.
Proof. intros Hx st Hi Hb _. by apply Hx. Qed.

Lemma ok_modify live b f : (forall st, inv st -> inv (f st) /\ len (f st) = len st) ->
  ok live b b (modify f) (fun _ => True).
Proof. intros Hf st Hi Hb _. cbn. destruct (Hf st Hi) as [? ?]. split_and!; [done|lia|done]. Qed.

Lemma ok_reads {A B} live b d (f : St -> A) (k : A -> P B) R :
  (forall a, ok live b d (k a) R) -> ok live b d (bind (reads f) k) R.
Proof. intros Hk st Hi Hb Hl. by apply Hk. Qed.

Lemma ok_reads_len {B} live b d (k : nat -> P B) R :
  (forall c, (c <= b)%nat -> ok live c d (k c) R) ->
  ok live b d (bind (reads (fun st => List.length (ps_toks st))) k) R.
Proof. intros Hk st Hi Hb Hl. unfold bind, reads. by apply Hk. Qed.

Lemma nth_tok_off i st : inv st -> tk_offset (nth_tok i (ps_toks st)) <= n.
Proof.
  intros [(r & e & Hs & _) Ht _ _ _ _ _ _ _]. rewrite Forall_forall in Ht.
  unfold nth_tok. destruct (ps_toks st !! i) as [t|] eqn:Hi.
  - by apply Ht, list_elem_of_lookup_2 with i.
  - apply Ht. rewrite Hs, last_snoc. cbn. set_solver.
Qed.

Lemma ok_peek {B} live b d i (k : Tok -> P B) R :
  (forall t, tk_offset t <= n -> ok live b d (k t) R) -> ok live b d (bind (peek i) k) R.
Proof. intros Hk st Hi Hb Hl. by apply Hk; [apply nth_tok_off|..]. Qed.

(** The current token, when it is not the sentinel, can be consumed. *)
Lemma ok_peek0 {B} live b d (k : Tok -> P B) R :
  (forall t, tk_offset t <= n ->
     ok (live || negb (bool_decide (tk_kind t = Tk.End_))) b d (k t) R) ->
  ok live b d (bind (peek 0) k) R.
Proof.
  intros Hk st Hi Hb Hl. apply (Hk (nth_tok 0 (ps_toks st))); [by apply nth_tok_off|done|done|].
  intros [?|H]%orb_true_iff; [by apply Hl|]. unfold live_at. by case_bool_decide.
Qed.

Lemma sentinel_advance l : sentinel l -> sentinel (advance_toks l).
Proof.
  intros (r & e & -> & He). destruct r as [|a [|b r]]; cbn; [by exists [], e..|].
  by exists (b :: r), e.
Qed.

Lemma ok_advance_any live b : ok live b b advance (fun _ => True).
Proof.
  intros st Hi Hb Hl. cbn. destruct Hi. split_and!; [|..|done].
  - split; cbn; try done; [by apply sentinel_advance|].
    destruct (ps_toks st) as [|a [|c l]]; [done..|]. by apply Forall_inv_tail in inv_toks0.
  - unfold len in *. cbn. destruct (ps_toks st) as [|a [|c l]]; cbn in *; lia.
Qed.

Lemma ok_advance b : ok true (S b) b advance (fun _ => True).
Proof.
  intros st Hi Hb Hl. pose proof (ok_advance_any true (S b) st Hi Hb Hl) as H. cbn in *.
  destruct H as (Hi' & _ & _). split_and!; [done| |done].
  specialize (Hl eq_refl). unfold live_at, nth_tok in Hl.
  destruct Hi as [(r & e & Hs & He) _ _ _ _ _ _ _ _]. unfold len in *. cbn in *. rewrite Hs in *.
  destruct r as [|x [|y r]]; cbn in *; [done|lia..].
Qed.

Lemma ok_live_tok {A} live b d t (x : P A) Q :
  tk_kind t <> Tk.End_ -> ok true b d x Q ->
  ok (live || negb (bool_decide (tk_kind t = Tk.End_))) b d x Q.
Proof. intros Ht Hx. rewrite bool_decide_false by done. by rewrite orb_true_r. Qed.

Lemma isWord_kind t : isWord t = true -> tk_kind t <> Tk.End_.
Proof. unfold isWord. case_bool_decide as H; [|done]. by rewrite H. Qed.
Lemma isInt_kind t : isInt t = true -> tk_kind t <> Tk.End_.
Proof. unfold isInt. case_bool_decide as H; [|done]. by rewrite H. Qed.
Lemma isPunct_kind t s : isPunct t s = true -> tk_kind t <> Tk.End_.
Proof. unfold isPunct. case_bool_decide as H; [|done]. by rewrite H. Qed.
Lemma wordIs_kind t s : wordIs t s = true -> tk_kind t <> Tk.End_.
Proof. unfold wordIs. intros [H _]%andb_true_iff. by apply isWord_kind. Qed.
Lemma prefixed_kind t c v : prefixed t c = Some v -> tk_kind t <> Tk.End_.
Proof. unfold prefixed. destruct (isWord t) eqn:H; [|done]. intros _. by apply isWord_kind. Qed.
Lemma nonFinite_kind t : nonFinite t = true -> tk_kind t <> Tk.End_.
Proof. unfold nonFinite. intros [H _]%andb_true_iff. by apply isWord_kind. Qed.

(** Offsets of errors at a token. *)
Lemma errAt_off t msg : tk_offset t <= n -> te_offset (errAt t msg) <= n.
Proof. done. Qed.
End triples.

Create HintDb tokens.
#[local] Hint Resolve isWord_kind isInt_kind isPunct_kind wordIs_kind prefixed_kind
  nonFinite_kind : tokens.

(** One step of a triple's proof, and the consumption of the token just looked at. *)
Ltac ok_step :=
  lazymatch goal with
  | |- ok _ _ _ _ (bind (peek 0) _) _ => apply ok_peek0; intros ? ?
  | |- ok _ _ _ _ (bind (peek _) _) _ => apply ok_peek; intros ? ?
  | |- ok _ _ _ _ (bind (reads _) _) _ => apply ok_reads; intros ?
  | |- ok _ _ _ _ (fail _) _ => apply ok_fail; cbn; done
  | |- ok _ _ _ _ (ret _) _ => apply ok_ret; done
  | |- ok _ _ _ _ (if ?x then _ else _) _ => destruct x eqn:?
  | |- ok _ _ _ _ (match ?x with _ => _ end) _ => destruct x eqn:?
  end.
Ltac oks := repeat ok_step.
Ltac eats := apply ok_live_tok; [eauto with tokens|]; eapply ok_bind; [apply ok_advance|]; intros _ _.

Section parsers.
Context (n : N).

Lemma parseReg_ok live b : ok n live (S b) b parseReg (fun _ => True).
Proof. unfold parseReg. oks. eats. oks. Qed.
Lemma parseSlot_ok live b : ok n live (S b) b parseSlot (fun _ => True).
Proof. unfold parseSlot. oks. eats. oks. Qed.
Lemma parseCid_ok live b : ok n live (S b) b parseCid (fun _ => True).
Proof. unfold parseCid. oks. eats. oks. Qed.
Lemma parseLabelIdent_ok live b : ok n live (S b) b parseLabelIdent (fun _ => True).
Proof. unfold parseLabelIdent. oks. apply andb_true_iff in Heqb0 as [? _]. eats. oks. Qed.
Lemma parseIntToken_ok live b t : tk_offset t <= n -> ok n live b b (parseIntToken t) (fun _ => True).
Proof. intros Ht. unfold parseIntToken. oks. Qed.
Lemma ok_parseIntToken {B} live b d t (k : Z -> P B) R :
  tk_offset t <= n -> (forall v, ok n live b d (k v) R) ->
  ok n live b d (bind (parseIntToken t) k) R.
Proof.
  intros Ht Hk. unfold parseIntToken. destruct (from_chars_i64 (tk_text t)) as [v| |].
  - exact (Hk v).
  - by apply (ok_fail n live b d (errAt t _)).
  - by apply (ok_fail n live b d (errAt t _)).
Qed.
Lemma parseBareInt_ok live b : ok n live (S b) b parseBareInt (fun _ => True).
Proof. unfold parseBareInt. oks. apply negb_false_iff in Heqb0. eats. cbn zeta. oks. Qed.
Lemma expectPunct_ok live b p ctx : ok n live (S b) b (expectPunct p ctx) (fun _ => True).
Proof. unfold expectPunct. oks. apply ok_live_tok; [eauto with tokens|]. apply ok_advance. Qed.
Lemma expectWord_ok live b w : ok n live (S b) b (expectWord w) (fun _ => True).
Proof. unfold expectWord. oks. apply ok_live_tok; [eauto with tokens|]. apply ok_advance. Qed.
Lemma parseStringPayload_ok live b : ok n live b b parseStringPayload (fun _ => True).
Proof.
  unfold parseStringPayload. oks. apply ok_dead. eapply ok_bind; [apply ok_advance_any|].
  intros _ _. oks.
Qed.
Lemma floatText_ok live b : ok n live b b floatText (fun _ => True).
Proof.
  unfold floatText. oks. apply ok_dead. eapply ok_bind; [apply ok_advance_any|].
  intros _ _. oks.
Qed.
Lemma parseFloatPayload_ok live b f : ok n live b b (parseFloatPayload f) (fun _ => True).
Proof.
  unfold parseFloatPayload. ok_step. eapply ok_bind; [apply floatText_ok|]. intros [neg text] _.
  eapply ok_bind; [apply ok_advance_any|]. intros _ _. oks.
Qed.

Lemma ok_spend {A} live b (x : P A) Q : ok n live (S b) b x Q -> ok n live b b x Q.
Proof. intros H. eapply ok_weaken; eauto with lia. Qed.

(** There is always a token left. *)
Lemma ok_zero {A} live d (x : P A) Q : ok n live 0 d x Q.
Proof.
  intros st [(r & e & Hs & _) _ _ _ _ _ _ _ _] Hl. unfold len in Hl. rewrite Hs, length_app in Hl.
  cbn in Hl. lia.
Qed.

Lemma parseIntPayload_ok live b what :
  ok n live (S b) b (parseIntPayload what) (fun x => tk_offset x.1 <= n).
Proof.
  unfold parseIntPayload. oks. apply negb_false_iff in Heqb0. eats.
  eapply ok_bind; [by apply parseIntToken_ok|]. intros v _. oks.
Qed.

Lemma parseWordPayload_ok live b what : ok n live (S b) b (parseWordPayload what) (fun _ => True).
Proof. unfold parseWordPayload. oks. apply andb_true_iff in Heqb0 as [? _]. eats. oks. Qed.

Definition entry_off (e : SwitchEntry) : Prop := se_matchOffset e <= n /\ se_labelOffset e <= n.
Definition entries_off (x : option default_ref * list SwitchEntry) : Prop :=
  (forall o l, x.1 = Some (o, l) -> o <= n) /\ Forall entry_off x.2.

Lemma errEof_off msg : te_offset (errEof n msg) <= n.
Proof.
  unfold errEof. cbn [te_offset]. destruct (N.ltb_spec 4294967295 n) as [H|H]; [lia|].
  unfold u32. pose proof (N.Div0.mod_le n 4294967296). lia.
Qed.

Lemma switch_entries_ok fuel : forall live b def entries,
  (b <= fuel)%nat -> entries_off (def, entries) ->
  ok n live b b (switch_entries fuel n def entries) entries_off.
Proof.
  induction fuel as [|fuel IH]; intros live b def entries Hb Hoff.
  { replace b with 0%nat by lia. apply ok_zero. }
  destruct b as [|b]; [apply ok_zero|]. cbn [switch_entries]. ok_step.
  ok_step; [apply ok_fail, errEof_off|].
  eapply (ok_le _ _ (S b) (S b) b); [|lia..].
  ok_step. { eats. by apply ok_ret. }
  ok_step.
  - eats. eapply ok_bind; [apply ok_spend, expectPunct_ok|]. intros _ _.
    eapply ok_bind; [apply ok_spend, parseLabelIdent_ok|]. intros lab _.
    destruct def as [d|]; [oks|]. apply IH; [lia|]. destruct Hoff as [_ He].
    split; [|done]. intros o l [= <- <-]. done.
  - ok_step; [|oks]. apply ok_live_tok; [eauto with tokens|].
    apply ok_parseIntToken; [done|]. intros v. ok_step; [oks|].
    eapply ok_bind; [apply ok_advance|]. intros _ _.
    eapply ok_bind; [apply ok_spend, expectPunct_ok|]. intros _ _. ok_step.
    eapply ok_bind; [apply ok_spend, parseLabelIdent_ok|]. intros lab _.
    apply IH; [lia|]. destruct Hoff as [Hd He]. split; [done|].
    apply Forall_app_2; [done|]. by constructor.
Qed.

Lemma insert_entry_off e l :
  entry_off e -> Forall entry_off l -> Forall entry_off (insert_entry e l).
Proof.
  intros He. induction 1 as [|x l Hx Hl IH]; cbn; [by constructor|].
  destruct (_ <? _)%Z; [constructor; [done|]|]; by constructor.
Qed.

Lemma sort_entries_off l : Forall entry_off l -> Forall entry_off (sort_entries l).
Proof.
  unfold sort_entries. assert (Forall entry_off []) as H0 by constructor. revert H0.
  generalize (@nil SwitchEntry) as acc. intros acc Hacc Hl. revert acc Hacc.
  induction Hl; intros acc Hacc; cbn; [done|]. apply IHHl. by apply insert_entry_off.
Qed.

Lemma duplicate_entry_elem l e : duplicate_entry l = Some e -> e ∈ l.
Proof.
  induction l as [|a [|b l] IH]; cbn; [done..|]. destruct (_ =? _)%Z.
  - intros [= <-]. set_solver.
  - intros H. apply IH in H. set_solver.
Qed.

Lemma entry_fixes_off i pos step l :
  Forall entry_off l -> Forall (fun f => sf_offset f <= n) (entry_fixes i pos step l).
Proof.
  intros H. revert pos. induction H as [|e l [_ He] Hl IH]; intros pos; cbn; by constructor.
Qed.

Lemma push_switches_ok live b fs :
  Forall (fun f => sf_offset f <= n) fs ->
  ok n live b b (modify (push_switches fs)) (fun _ => True).
Proof.
  intros Hf. apply ok_modify. intros st [].
  split; [split; try done; by apply Forall_app_2|done].
Qed.

Lemma parseSwitchPayload_ok live b t :
  tk_offset t <= n -> ok n live b b (parseSwitchPayload n t) (fun _ => True).
Proof.
  intros Ht. unfold parseSwitchPayload.
  eapply ok_bind; [apply ok_spend, expectPunct_ok|]. intros _ _.
  apply ok_reads_len. intros c Hc. eapply (ok_le _ _ c c c); [|lia..].
  eapply ok_bind; [apply switch_entries_ok; [lia|]; split; [done|constructor]|].
  intros [def entries] [Hd He]. cbn [fst snd] in *.
  destruct def as [[o l]|]; [|oks]. specialize (Hd o l eq_refl).
  apply sort_entries_off in He. generalize dependent (sort_entries entries). clear entries.
  intros entries He. destruct (duplicate_entry entries) as [e|] eqn:Hdup.
  { apply duplicate_entry_elem in Hdup. rewrite Forall_forall in He. apply He in Hdup as [? _].
    oks. }
  ok_step. destruct entries as [|e es].
  { eapply ok_bind; [apply push_switches_ok; by repeat constructor|]. intros _ _. oks. }
  ok_step; (eapply ok_bind;
    [apply push_switches_ok; constructor; [done|by apply entry_fixes_off]|]); intros _ _; oks.
Qed.

Lemma parsePayload_ok live b t :
  tk_offset t <= n -> ok n live b b (parsePayload n t) (fun _ => True).
Proof.
  intros Ht. unfold parsePayload. cbv zeta.
  assert (forall what, ok n live b b (parseWordPayload what) (fun _ => True)) as Hw.
  { intros what. apply ok_spend, parseWordPayload_ok. }
  assert (forall what, ok n false b b (parseWordPayload what) (fun _ => True)) as Hw'.
  { intros what. apply ok_spend, parseWordPayload_ok. }
  repeat match goal with |- ok _ _ _ _ (if ?c then _ else _) _ => destruct c end.
  - eapply ok_bind; [apply ok_spend, parseIntPayload_ok|]. intros [t' v] Hv. oks.
  - eapply ok_bind; [apply ok_spend, parseIntPayload_ok|]. intros x _. oks.
  - eapply ok_bind; [apply parseFloatPayload_ok|]. intros x _. oks.
  - eapply ok_bind; [apply parseFloatPayload_ok|]. intros x _. oks.
  - eapply ok_bind; [apply parseStringPayload_ok|]. intros x _. by apply ok_ret.
  - eapply ok_bind; [apply Hw|]. intros x _. eapply ok_bind; [apply Hw'|]. intros y _.
    by apply ok_ret.
  - eapply ok_bind; [apply Hw|]. intros x _. oks.
  - eapply ok_bind; [apply Hw|]. intros x _. eapply ok_bind; [apply Hw'|]. intros y _.
    eapply ok_bind; [apply Hw'|]. intros z _. by apply ok_ret.
  - by apply parseSwitchPayload_ok.
  - oks.
Qed.

(** An update that touches neither the tokens nor the lists with offsets. *)
Lemma set_m_ok live b f : ok n live b b (modify (fun st => set_m (f st) st)) (fun _ => True).
Proof. apply ok_modify. intros st []. by split. Qed.

Lemma parseConst_ok live b : ok n live b b (parseConst n) (fun _ => True).
Proof.
  unfold parseConst. eapply (ok_le _ _ b (S b) b); [|lia..].
  oks. eats. eapply ok_bind; [apply ok_spend, expectPunct_ok|]. intros _ _.
  ok_step. ok_step; [oks|]. apply ok_dead. eapply ok_bind; [apply ok_advance_any|]. intros _ _.
  ok_step. ok_step; [oks|].
  eapply ok_bind; [by apply parsePayload_ok|]. intros c _.
  eapply ok_bind; [apply ok_modify; intros st []; by split|]. intros _ _.
  apply set_m_ok.
Qed.

Lemma catch_part_ok live b hidx which kw :
  ok n live b b (catch_part hidx which kw) (fun _ => True).
Proof.
  unfold catch_part. eapply ok_bind; [apply ok_spend, expectWord_ok|]. intros _ _.
  ok_step. apply ok_dead. eapply ok_bind; [apply ok_spend, parseLabelIdent_ok|]. intros lab _.
  apply ok_modify. intros st []. split; [split; try done|done].
  apply Forall_app_2; [done|by constructor].
Qed.

Lemma parseCatch_ok live b : ok n live b b parseCatch (fun _ => True).
Proof.
  unfold parseCatch. ok_step. eapply ok_bind; [apply set_m_ok|]. intros _ _. ok_step.
  apply ok_dead. eapply (ok_bind _ _ _ b _ _ _ (fun _ => True)).
  - ok_step; [apply ok_advance_any|]. ok_step; [|oks].
    eapply ok_bind; [apply ok_advance_any|]. intros _ _.
    apply ok_modify. intros st []. split; [split; try done|done].
    apply Forall_app_2; [done|by constructor].
  - intros _ _. eapply ok_bind; [apply catch_part_ok|]. intros _ _.
    eapply ok_bind; [apply catch_part_ok|]. intros _ _. apply catch_part_ok.
Qed.

Lemma op_reg_ok live b set x : ok n live b b (op_reg set x) (fun _ => True).
Proof.
  unfold op_reg. eapply ok_bind; [apply ok_spend, parseReg_ok|]. intros v _. by apply ok_ret.
Qed.
Lemma op_slot_ok live b x : ok n live b b (op_slot x) (fun _ => True).
Proof.
  unfold op_slot. eapply ok_bind; [apply ok_spend, parseSlot_ok|]. intros v _. by apply ok_ret.
Qed.
Lemma op_bare_ok live b x : ok n live b b (op_bare x) (fun _ => True).
Proof.
  unfold op_bare. eapply ok_bind; [apply ok_spend, parseBareInt_ok|]. intros v _. by apply ok_ret.
Qed.
Lemma op_bare16_ok live b x : ok n live b b (op_bare16 x) (fun _ => True).
Proof.
  unfold op_bare16. ok_step. apply ok_dead.
  eapply ok_bind; [apply ok_spend, parseBareInt_ok|]. intros v _. oks.
Qed.
Lemma op_cid_ok live b idx x : ok n live b b (op_cid idx x) (fun _ => True).
Proof.
  unfold op_cid. ok_step. apply ok_dead. eapply ok_bind; [apply ok_spend, parseCid_ok|].
  intros v _. eapply ok_bind; [|intros _ _; by apply ok_ret].
  apply ok_modify. intros st []. split; [split; try done|done].
  apply Forall_app_2; [done|by constructor].
Qed.
Lemma op_label_ok live b idx x : ok n live b b (op_label idx x) (fun _ => True).
Proof.
  unfold op_label. ok_step. apply ok_dead. eapply ok_bind; [apply ok_spend, parseLabelIdent_ok|].
  intros v _. eapply ok_bind; [|intros _ _; by apply ok_ret].
  apply ok_modify. intros st []. split; [split; try done|done].
  apply Forall_app_2; [done|by constructor].
Qed.

Lemma parseOperands_ok b idx sig x : ok n false b b (parseOperands idx sig x) (fun _ => True).
Proof.
  assert (forall x : Ins, ok n false b b (ret x) (fun _ => True)) by (intros; by apply ok_ret).
  destruct sig; cbn [parseOperands];
    repeat (first [ apply op_reg_ok | apply op_slot_ok | apply op_bare_ok | apply op_bare16_ok
                  | apply op_cid_ok | apply op_label_ok | done
                  | eapply ok_bind; [|intros ? _] ]).
Qed.

Lemma bind_pending_inv pc pastEnd st : inv n st -> inv n (bind_pending pc pastEnd st).
Proof.
  intros []. split; try done. cbn. apply Forall_app_2; [done|].
  apply Forall_map. exact inv_pending0.
Qed.

Lemma parseInsn_ok b : ok n true (S b) b parseInsn (fun _ => True).
Proof.
  unfold parseInsn. ok_step. cbn [orb]. ok_step; [|oks]. ok_step. ok_step; [oks|].
  eapply ok_bind; [apply ok_advance|]. intros _ _. cbv zeta.
  eapply ok_bind; [apply ok_modify; intros st Hi; split; [by apply bind_pending_inv|done]|].
  intros _ _. eapply ok_bind; [apply parseOperands_ok|]. intros x _. apply set_m_ok.
Qed.

Lemma advances_ok k : forall live b, ok n live b b (advances k) (fun _ => True).
Proof.
  induction k as [|k IH]; intros live b; cbn; [by apply ok_ret|].
  eapply ok_bind; [apply ok_advance_any|]. intros _ _. apply IH.
Qed.

Lemma parseFlags_ok l : forall live b seen flags,
  Forall (fun t => tk_offset t <= n) l -> ok n live b b (parseFlags l seen flags) (fun _ => True).
Proof.
  induction l as [|t l IH]; intros live b seen flags H; cbn; [by apply ok_ret|].
  inv H. ok_step; [|oks]. ok_step; [oks|]. by apply IH.
Qed.

Lemma ok_reads_st {A B} live b d (f : St -> A) (k : A -> P B) R :
  (forall st, inv n st -> ok n live b d (k (f st)) R) -> ok n live b d (bind (reads f) k) R.
Proof. intros Hk st Hi Hb Hl. by apply Hk. Qed.

Lemma parseHeader_ok live b : ok n live b b parseHeader (fun _ => True).
Proof.
  unfold parseHeader. apply ok_reads_st. intros st Hi. cbv zeta.
  pose proof (nth_tok_off n (header_len (ps_toks st)) st Hi) as Hd.
  assert (forall k, Forall (fun t => tk_offset t <= n) (take k (ps_toks st))) as Ht.
  { intros k. apply Forall_take, Hi. }
  ok_step; [oks|]. destruct (header_len (ps_toks st)) as [|k]; [oks|].
  eapply ok_bind; [by apply parseFlags_ok|]. intros flags _.
  eapply ok_bind; [apply set_m_ok|]. intros _ _. apply advances_ok.
Qed.

Lemma parseCount_ok live b d : ok n live (S b) b (parseCount d) (fun _ => True).
Proof.
  unfold parseCount. ok_step. ok_step; [oks|]. apply negb_false_iff in Heqb0. eats.
  apply ok_parseIntToken; [done|]. intros v. oks.
Qed.

Lemma parseLabel_ok b t :
  tk_offset t <= n -> ok n true (S b) b (parseLabel t) (fun _ => True).
Proof.
  intros Ht. unfold parseLabel. ok_step; [oks|]. ok_step. ok_step; [oks|]. ok_step.
  ok_step; [oks|].
  intros st Hi Hb Hl. apply (ok_bind n true (S b) b b advance (fun _ => advance)
    (fun _ => True) (fun _ => True)); [apply ok_advance|intros _ _; apply ok_advance_any|..].
  - destruct Hi. split; try done. cbn. apply Forall_app_2; [done|by constructor].
  - done.
  - done.
Qed.

Lemma parseBody_ok fuel : forall b live bd,
  (b <= fuel)%nat -> b_firstInsnOff bd <= n ->
  ok n live b b (parseBody fuel n bd) (fun x => x.1 <= n /\ x.2 <= n).
Proof.
  induction fuel as [|fuel IH]; intros b live bd Hb Hoff.
  { replace b with 0%nat by lia. apply ok_zero. }
  destruct b as [|b]; [apply ok_zero|]. cbn [parseBody]. ok_step.
  ok_step; [apply ok_fail, errEof_off|]. ok_step; [oks|]. apply negb_false_iff in Heqb0.
  eapply (ok_le _ _ (S b) (S b) b); [|lia..].
  apply ok_live_tok; [eauto with tokens|].
  assert (forall (x : P unit) bd', b_firstInsnOff bd' <= n -> ok n false b b x (fun _ => True) ->
            ok n true (S b) b (advance;; x;; parseBody fuel n bd')
              (fun x => x.1 <= n /\ x.2 <= n)) as Hloop.
  { intros x bd' Hbd Hx. eapply ok_bind; [apply ok_advance|]. intros _ _.
    eapply ok_bind; [apply Hx|]. intros _ _. apply IH; [lia|done]. }
  assert (forall d f bd', b_firstInsnOff bd' <= n ->
            ok n true (S b) b
              (advance;; v <~ parseCount d; modify (fun st => set_m (f v st) st);;
               parseBody fuel n bd') (fun x => x.1 <= n /\ x.2 <= n)) as Hcount.
  { intros d f bd' Hbd. eapply ok_bind; [apply ok_advance|]. intros _ _.
    eapply ok_bind; [apply ok_spend, parseCount_ok|]. intros v _.
    eapply ok_bind; [apply set_m_ok|]. intros _ _. apply IH; [lia|done]. }
  repeat match goal with
  | |- ok _ _ _ _ (fail _) _ => by apply ok_fail
  | |- ok _ _ _ _ (if _ then _ else _) _ => ok_step
  | |- ok _ _ _ _ (bind (peek 1) _) _ => ok_step
  end.
  - eapply ok_bind; [apply ok_advance|]. intros _ _. by apply ok_ret.
  - by apply Hcount.
  - by apply Hcount.
  - apply Hloop; [done|apply parseConst_ok].
  - apply Hloop; [done|apply parseCatch_ok].
  - eapply ok_bind; [by apply parseLabel_ok|]. intros _ _. apply IH; [lia|done].
  - ok_step. eapply ok_bind; [apply parseInsn_ok|]. intros _ _. apply IH; [lia|].
    by destruct a.
Qed.

Definition errs_off (x : Res) : Prop := Forall (fun e => te_offset e <= n) x.2.

Lemma fold_errs_off {A} (f : Res -> A -> Res) (off : A -> N) l x :
  (forall x a, off a <= n -> errs_off x -> errs_off (f x a)) ->
  Forall (fun a => off a <= n) l -> errs_off x -> errs_off (fold_left f l x).
Proof. intros Hf Hl. revert x. induction Hl; intros y Hy; cbn; auto. Qed.

Lemma push_err_off o msg x : o <= n -> errs_off x -> errs_off (push_err o msg x).
Proof. intros Ho Hx. apply Forall_app_2; [done|by constructor]. Qed.

Lemma resolve_label_off st name o endOk e :
  inv n st -> o <= n -> resolve_label st name o endOk = inr e -> te_offset e <= n.
Proof.
  intros Hi Ho. unfold resolve_label, findLabel.
  destruct (List.find _ _) as [d|] eqn:Hf; [|by intros [= <-]].
  destruct (_ && _); [|done]. intros [= <-]. apply find_some in Hf as [Hf _].
  pose proof (inv_labels _ _ Hi) as Hl. rewrite Forall_forall in Hl.
  by apply Hl, list_elem_of_In.
Qed.

Lemma resolve_off st : inv n st -> errs_off (resolve st).
Proof.
  intros Hi. unfold resolve. apply Forall_app_2.
  - apply (fold_errs_off _ tf_offset).
    { intros x f Hf Hx. unfold fix_catchType. destruct (findConst _ _); [|by apply push_err_off].
      destruct (vget _ _); [|done]. destruct (bool_decide _); [done|by apply push_err_off]. }
    { apply Hi. }
    apply (fold_errs_off _ lf_offset).
    { intros x f Hf Hx. unfold fix_catchLabel. destruct (resolve_label _ _ _ _) eqn:Hr; [done|].
      apply Forall_app_2; [done|]. constructor; [by eapply resolve_label_off|done]. }
    { apply Hi. }
    apply (fold_errs_off _ sf_offset).
    { intros x f Hf Hx. unfold fix_switch. destruct (resolve_label _ _ _ _) eqn:Hr; [done|].
      apply Forall_app_2; [done|]. constructor; [by eapply resolve_label_off|done]. }
    { apply Hi. }
    apply (fold_errs_off _ bf_offset).
    { intros x f Hf Hx. unfold fix_branch. destruct (resolve_label _ _ _ _) eqn:Hr; [done|].
      apply Forall_app_2; [done|]. constructor; [by eapply resolve_label_off|done]. }
    { apply Hi. }
    apply (fold_errs_off _ cf_offset).
    { intros x f Hf Hx. unfold fix_insnCp. destruct (findConst _ _); [|by apply push_err_off].
      destruct (vget _ _); [|done]. destruct (vget _ _); [|done].
      destruct (switch_error _ _); [by apply push_err_off|done]. }
    { apply Hi. }
    constructor.
  - unfold pastEnd_errors. pose proof (inv_labels _ _ Hi) as Hl.
    induction Hl as [|d l Hd Hl IH]; cbn; [constructor|]. apply Forall_app_2; [|done].
    destruct (_ && _); by repeat constructor.
Qed.

Lemma best_error_off e r :
  Forall (fun e => te_offset e <= n) (e :: r) -> te_offset (best_error e r) <= n.
Proof.
  intros [He Hr]%Forall_cons_1. unfold best_error. revert e He.
  induction Hr; intros best Hb; cbn; [done|]. apply IHHr. by destruct (_ <? _).
Qed.

Lemma finishMethod_ok live b eo fo :
  eo <= n -> fo <= n -> ok n live b b (finishMethod eo fo) (fun _ => True).
Proof.
  intros He Hf. unfold finishMethod. ok_step.
  eapply ok_bind; [apply ok_modify; intros st Hi; split; [by apply bind_pending_inv|done]|].
  intros _ _. cbv zeta. ok_step; [oks|]. ok_step; [oks|].
  apply ok_reads_st. intros st Hi. pose proof (resolve_off st Hi) as Hr.
  destruct (resolve st) as [m errs]. unfold errs_off in Hr. cbn in Hr.
  destruct errs as [|e r]; [oks|]. apply ok_fail. by apply best_error_off.
Qed.

Lemma resetMethodState_inv st : inv n st -> inv n (resetMethodState st).
Proof. intros []. by split. Qed.

Lemma parseMethod_ok b : ok n true (S b) b (parseMethod n) (fun _ => True).
Proof.
  intros st Hi Hb Hl. unfold parseMethod.
  change (modify resetMethodState;; ?k) with (fun st => k (resetMethodState st)). cbv beta.
  eapply (ok_bind n true (S b) b b advance).
  - apply ok_advance.
  - intros _ _. eapply ok_bind; [apply parseHeader_ok|]. intros _ _.
    apply ok_reads_len. intros c Hc. eapply (ok_le _ _ c c c); [|lia..].
    eapply ok_bind; [apply (parseBody_ok c c); [lia|cbn; lia]|]. intros [eo fo] [He Hf].
    by apply finishMethod_ok.
  - by apply resetMethodState_inv.
  - done.
  - done.
Qed.

Lemma run_ok fuel : forall b live seen p,
  (b <= fuel)%nat -> ok n live b b (run fuel n seen p) (fun _ => True).
Proof.
  induction fuel as [|fuel IH]; intros b live seen p Hb.
  { replace b with 0%nat by lia. apply ok_zero. }
  destruct b as [|b]; [apply ok_zero|]. cbn [run]. ok_step. ok_step; [oks|].
  ok_step; [oks|]. apply negb_false_iff in Heqb0.
  eapply (ok_le _ _ (S b) (S b) b); [|lia..]. apply ok_live_tok; [eauto with tokens|].
  ok_step; [ok_step; [oks|]; ok_step; [|oks]|].
  - eapply ok_bind; [apply ok_advance|]. intros _ _. ok_step. ok_step; [oks|].
    apply ok_dead. eapply ok_bind; [apply ok_advance_any|]. intros _ _. apply IH. lia.
  - ok_step; [|oks]. eapply ok_bind; [apply parseMethod_ok|]. intros m _. apply IH. lia.
Qed.
End parsers.

(** C10: The parser answers every text: with a program, or with one error whose byte
    offset lies within the text or at its end. *)
Theorem parseRbcText_total text :
  (exists p, parseRbcText text = Parsed_ p) \/
  (exists e, parseRbcText text = ParseError e /\ te_offset e <= slen text).
Proof.
  unfold parseRbcText. destruct (lex_spec text) as [Hs Ht].
  set (st := mkSt (lex text) newMethod [] [] [] [] [] [] [] []).
  pose proof (run_ok (slen text) (List.length (lex text)) (List.length (lex text)) false false
                (mkProgram "" []) (Nat.le_refl _) st) as H.
  destruct (run _ _ _ _ st) as [p st'|e|]; [left; eauto|right|].
  - exists e. split; [done|]. apply H; [|done..]. by split.
  - exfalso. apply H; [|done..]. by split.
Qed.
