(* ===== verification/RbcTextLex.v ===== *)
(** * What printed text lexes to

    The keys of the tokens of a text (kind, text, line start), and one rule per
    piece of text that the printer emits: blanks, words, numbers, strings and
    punctuation. *)

From stdpp Require Import pretty.
From Stdlib Require Import Ascii String.
From S2P Require Import Prelude RbcOpcode Rbc RbcLex CharConv RbcParse RbcPrint RbcTextTotal.

Local Open Scope N_scope.

Definition key (t : Tok) : Tk.t * string * bool := (tk_kind t, tk_text t, tk_lineStart t).

(** The keys of the tokens of [s], when the first one is at a line start iff [ls]. *)
Definition lexk (ls : bool) (s : string) : list (Tk.t * string * bool) :=
  map key (lex_from (S (String.length s)) 0 ls s).

(** ** Strings *)

Lemma append_cons c a b : String c a +:+ b = String c (a +:+ b).
Proof. done. Qed.
Lemma append_nil_l b : "" +:+ b = b.
Proof. done. Qed.
Lemma append_nil_r a : a +:+ "" = a.
Proof. induction a as [|c a IH]; [done|]. by rewrite append_cons, IH. Qed.
Lemma append_assoc a b c : (a +:+ b) +:+ c = a +:+ (b +:+ c).
Proof. induction a as [|x a IH]; [done|]. by rewrite !append_cons, IH. Qed.

#[global] Arguments String.append : simpl never.

(** Every character of a string. *)
Lemma all_chars_app p a b : all_chars p (a +:+ b) = all_chars p a && all_chars p b.
Proof.
  induction a as [|c a IH]; [done|]. rewrite append_cons. cbn [all_chars]. by rewrite IH, andb_assoc.
Qed.

Lemma all_chars_impl p q s :
  (forall c, p c = true -> q c = true) -> all_chars p s = true -> all_chars q s = true.
Proof.
  intros H. induction s as [|c s IH]; [done|]. cbn. intros [Hc Hs]%andb_true_iff.
  by rewrite H, IH.
Qed.

(** The text after a token: the end, a blank or a colon. *)
Definition stop (s : string) : bool :=
  match s with EmptyString => true | String c _ => isWs c || Ascii.eqb c ":" end.

Lemma all_ascii (P : ascii -> bool) :
  forallb P (map ascii_of_N (indices 256)) = true -> forall c, P c = true.
Proof.
  intros H c. rewrite forallb_forall in H. apply H. apply in_map_iff. exists (N_of_ascii c).
  split; [apply ascii_N_embedding|]. apply list_elem_of_In, elem_of_indices, N_ascii_bounded.
Qed.

Lemma stop_not p s :
  (forall c, isWs c || Ascii.eqb c ":" = true -> p c = false) -> stop s = true ->
  match s with EmptyString => true | String c _ => negb (p c) end = true.
Proof. intros H. destruct s as [|c s]; [done|]. cbn [stop]. intros Hc. by rewrite H. Qed.

Lemma span_all p s r :
  all_chars p s = true ->
  match r with EmptyString => true | String c _ => negb (p c) end = true ->
  span p (s +:+ r) = (s, r).
Proof.
  intros Hs Hr. induction s as [|c s IH].
  - rewrite append_nil_l. destruct r as [|c r]; [done|]. cbn. by apply negb_true_iff in Hr as ->.
  - rewrite append_cons. cbn in *. apply andb_true_iff in Hs as [-> Hs]. by rewrite IH.
Qed.

Lemma stop_char p :
  forallb (fun c => negb (isWs c || Ascii.eqb c ":") || negb (p c)) (map ascii_of_N (indices 256)) = true ->
  forall c, isWs c || Ascii.eqb c ":" = true -> p c = false.
Proof.
  intros H c Hc. pose proof (all_ascii _ H c) as Hp. cbv beta in Hp. rewrite Hc in Hp. cbn in Hp.
  by apply negb_true_iff in Hp.
Qed.

Lemma stop_word s : stop s = true ->
  match s with EmptyString => true | String c _ => negb (isWordByte c) end = true.
Proof. apply stop_not, stop_char. by vm_compute. Qed.
Lemma stop_digit s : stop s = true ->
  match s with EmptyString => true | String c _ => negb (isDigit c) end = true.
Proof. apply stop_not, stop_char. by vm_compute. Qed.

(** ** Fuel and offsets do not matter *)

Lemma lex_from_keys fuel : forall i fuel' i' ls s,
  (String.length s < fuel)%nat -> (String.length s < fuel')%nat ->
  map key (lex_from fuel i ls s) = map key (lex_from fuel' i' ls s).
Proof.
  induction fuel as [|fuel IH]; [lia|]. intros i [|fuel'] i' ls s Hf Hf'; [lia|].
  cbn [lex_from]. destruct s as [|c r]; [done|]. cbn in Hf, Hf'.
  destruct (isWs c) eqn:Hws; [apply IH; lia|].
  destruct (Ascii.eqb c "#") eqn:Hsharp.
  - pose proof (span_slen (fun d => negb (Ascii.eqb d lf)) (String c r)) as Hs.
    assert (0 < slen (span (fun d => negb (Ascii.eqb d lf)) (String c r)).1) as Hp.
    { apply Ascii.eqb_eq in Hsharp as ->. cbn [span].
      change (negb (Ascii.eqb "#" lf)) with true. cbn iota.
      destruct (span _ r). cbn [fst]. rewrite slen_cons. lia. }
    destruct (span _ (String c r)) as [sk rest]. unfold slen in *. cbn in *. apply IH; lia.
  - pose proof (scan_token_slen c r) as Hs. pose proof (scan_token_pos c r Hws Hsharp) as Hp.
    destruct (scan_token c r) as [[kind text] rest]. unfold slen in *. cbn [fst snd] in *.
    cbn [map]. f_equal. apply IH; lia.
Qed.

Lemma lex_from_cons fuel i ls c r :
  lex_from (S fuel) i ls (String c r) =
  if isWs c then lex_from fuel (i + 1) (if Ascii.eqb c lf then true else ls) r
  else if Ascii.eqb c "#" then
    let '(skipped, rest) := span (fun d => negb (Ascii.eqb d lf)) (String c r) in
    lex_from fuel (i + slen skipped) ls rest
  else
    let '(kind, text, rest) := scan_token c r in
    mkTok kind (u32 i) (u32 (slen text)) ls text :: lex_from fuel (i + slen text) false rest.
Proof. done. Qed.

Lemma lex_lexk s : map key (lex s) = lexk true s.
Proof. done. Qed.

Lemma lexk_nil ls : lexk ls "" = [(Tk.End_, "", true)].
Proof. done. Qed.

Lemma lexk_ws ls c s : isWs c = true ->
  lexk ls (String c s) = lexk (if Ascii.eqb c lf then true else ls) s.
Proof.
  intros Hc. unfold lexk at 1. rewrite lex_from_cons, Hc.
  apply lex_from_keys; cbn; lia.
Qed.

Lemma lexk_space ls s : lexk ls (" " +:+ s) = lexk ls s.
Proof. by apply lexk_ws. Qed.

Lemma lexk_eol ls s : lexk ls (eol +:+ s) = lexk true s.
Proof. by apply lexk_ws. Qed.

(** A token at the start of a text. *)
Definition lexeme (k : Tk.t) (w s : string) : Prop :=
  match w with
  | EmptyString => False
  | String c r => isWs c = false /\ Ascii.eqb c "#" = false /\ scan_token c (r +:+ s) = (k, w, s)
  end.

Lemma lexk_tok ls k w s : lexeme k w s -> lexk ls (w +:+ s) = (k, w, ls) :: lexk false s.
Proof.
  destruct w as [|c r]; [done|]. intros (Hws & Hsharp & Hscan). rewrite append_cons.
  unfold lexk at 1. rewrite lex_from_cons, Hws, Hsharp, Hscan. cbn [map].
  unfold key at 1. cbn [tk_kind tk_text tk_lineStart]. f_equal. apply lex_from_keys; [|lia].
  pose proof (scan_token_slen c (r +:+ s)) as Hs. pose proof (scan_token_pos c (r +:+ s) Hws Hsharp) as Hp.
  rewrite Hscan in *. unfold slen in *. cbn [fst snd String.length] in *. lia.
Qed.

(** There is always a token, and one after a line's end starts a line. *)
Lemma lexk_cons ls s : exists k l, lexk ls s = k :: l.
Proof.
  unfold lexk. destruct (lex_from_spec (S (String.length s)) 0 ls s) as [(r & e & -> & _) _]; [lia|].
  destruct r; cbn; eauto.
Qed.

Lemma lex_from_lineStart fuel : forall i s k l,
  lex_from fuel i true s = k :: l -> tk_lineStart k = true.
Proof.
  induction fuel as [|fuel IH]; [done|]. intros i s k l. cbn [lex_from].
  destruct s as [|c r]; [by intros [= <- <-]|].
  destruct (isWs c); [destruct (Ascii.eqb c lf); apply IH|].
  destruct (Ascii.eqb c "#"); [destruct (span _ _); apply IH|].
  destruct (scan_token c r) as [[? ?] ?]. by intros [= <- <-].
Qed.

Lemma lexk_lineStart s k l : lexk true s = k :: l -> k.2 = true.
Proof.
  unfold lexk. destruct (lex_from _ _ _ _) as [|t ts] eqn:H; [done|].
  intros [= <- <-]. by eapply lex_from_lineStart.
Qed.

(** ** Words *)

(** A word token: word bytes, not the start of a number or of a negative one. *)
Definition is_word (w : string) : bool :=
  match w with
  | EmptyString => false
  | String c r =>
      all_chars isWordByte w && negb (isDigit c) && negb (Ascii.eqb c "-") &&
      negb (Ascii.eqb c "." && digitAt 0 r)
  end.

Lemma word_byte_facts c :
  isWordByte c = true ->
  isWs c = false /\ Ascii.eqb c "#" = false /\ Ascii.eqb c dquote = false /\
  Ascii.eqb c ":" = false /\ Ascii.eqb c "=" = false /\ Ascii.eqb c "{" = false /\
  Ascii.eqb c "}" = false.
Proof. unfold isWordByte. rewrite !andb_true_iff, !negb_true_iff. tauto. Qed.

Lemma digitAt_stop s : stop s = true -> digitAt 0 s = false.
Proof.
  intros H%stop_digit. unfold digitAt. destruct s as [|c s]; [done|]. by apply negb_true_iff in H.
Qed.

Lemma lexeme_word w s : is_word w = true -> stop s = true -> lexeme Tk.Word w s.
Proof.
  destruct w as [|c r]; [done|]. unfold is_word. rewrite !andb_true_iff, !negb_true_iff.
  intros [[[Hw Hd] Hm] Hdot] Hs. pose proof Hw as Hall. cbn in Hw.
  apply andb_true_iff in Hw as [Hc _].
  destruct (word_byte_facts c Hc) as (Hws & Hsharp & Hq & H1 & H2 & H3 & H4).
  split_and!; [done..|]. unfold scan_token. rewrite Hq.
  assert (number_start (String c (r +:+ s)) = false) as ->.
  { unfold number_start, charAt. cbn [digitAt String.get]. unfold digitAt at 1. cbn [String.get].
    rewrite Hd, Hm. cbn [orb andb]. destruct (Ascii.eqb c "."); [|done]. cbn [andb] in *.
    unfold digitAt. cbn [String.get]. destruct r as [|d r]; [|done].
    rewrite append_nil_l. by apply digitAt_stop. }
  unfold is_punct. rewrite H1, H2, H3, H4, Hm. cbn [orb].
  rewrite <- append_cons, (span_all isWordByte (String c r) s); [done..|by apply stop_word].
Qed.

Lemma lexeme_punct p s :
  p = ":" \/ p = "=" \/ p = "{" \/ p = "}" -> lexeme Tk.Punct p s.
Proof. by intros [->|[->|[->| ->]]]. Qed.

(** ** Numbers *)

Lemma digit_facts c : isDigit c = true ->
  isWs c = false /\ Ascii.eqb c "#" = false /\ Ascii.eqb c dquote = false /\
  Ascii.eqb c "-" = false /\ isWordByte c = true.
Proof.
  intros Hc. pose (P c := negb (isDigit c) || (negb (isWs c) && negb (Ascii.eqb c "#") &&
    negb (Ascii.eqb c dquote) && negb (Ascii.eqb c "-") && isWordByte c)).
  assert (P c = true) as H by (apply all_ascii; by vm_compute). unfold P in H.
  rewrite Hc in H. cbn [negb orb] in H. rewrite !andb_true_iff, !negb_true_iff in H. tauto.
Qed.

Lemma stop_exponent s : stop s = true -> scan_exponent s = ("", s).
Proof.
  destruct s as [|c s]; [done|]. cbn [stop]. intros Hc. unfold scan_exponent.
  by rewrite (stop_char (fun c => Ascii.eqb c "e" || Ascii.eqb c "E") ltac:(by vm_compute) c Hc).
Qed.

Lemma stop_dot c s : stop (String c s) = true -> Ascii.eqb c "." = false.
Proof. cbn [stop]. apply (stop_char (fun c => Ascii.eqb c ".")). by vm_compute. Qed.

(** A run of digits, or one after a minus sign. *)
Lemma scan_digits neg w s :
  all_chars isDigit w = true -> w <> "" -> stop s = true ->
  scan_number ((if neg : bool then "-" else "") +:+ (w +:+ s)) =
  (Tk.Int, (if neg then "-" else "") +:+ w, s).
Proof.
  intros Hw Hne Hs. unfold scan_number.
  set (x := match _ +:+ _ with String c r => _ | EmptyString => _ end).
  assert (x = ((if neg then "-" else ""), w +:+ s)) as ->.
  { subst x. destruct neg; [done|]. rewrite append_nil_l.
    destruct w as [|c r]; [done|]. rewrite append_cons. cbn in Hw.
    apply andb_true_iff in Hw as [Hc _]. by destruct (digit_facts c Hc) as (_ & _ & _ & -> & _). }
  rewrite (span_all isDigit w s Hw (stop_digit s Hs)).
  set (y := match s with String c r => _ | EmptyString => _ end).
  assert (y = ("", s)) as ->.
  { subst y. destruct s as [|c s]; [done|]. by rewrite (stop_dot c s Hs). }
  rewrite (stop_exponent s Hs), !append_nil_r. done.
Qed.

Lemma lexeme_digits neg w s :
  all_chars isDigit w = true -> w <> "" -> stop s = true ->
  lexeme Tk.Int ((if neg : bool then "-" else "") +:+ w) s.
Proof.
  intros Hw Hne Hs. pose proof (scan_digits neg w s Hw Hne Hs) as Hscan.
  destruct w as [|c r]; [done|]. cbn in Hw. apply andb_true_iff in Hw as [Hc Hr].
  destruct (digit_facts c Hc) as (Hws & Hsharp & Hq & Hm & _).
  destruct neg; rewrite ?append_cons, ?append_nil_l in *.
  - split_and!; [done..|]. unfold scan_token. change (Ascii.eqb "-" dquote) with false. cbn iota.
    rewrite append_cons. assert (number_start (String "-" (String c (r +:+ s))) = true) as ->; [|by rewrite Hscan].
    unfold number_start, digitAt, charAt. cbn [String.get]. rewrite Hc. by destruct (isDigit "-").
  - split_and!; [done..|]. unfold scan_token. rewrite Hq.
    assert (number_start (String c (r +:+ s)) = true) as ->; [|by rewrite Hscan].
    unfold number_start, digitAt at 1. cbn [String.get]. by rewrite Hc.
Qed.

(** ** Decimal text *)

Lemma digit_char x : x < 10 -> isDigit (pretty_N_char x) = true /\ digit_of (pretty_N_char x) = Z.of_N x.
Proof.
  intros H. assert (forallb (fun x => isDigit (pretty_N_char x) && (digit_of (pretty_N_char x) =? Z.of_N x)%Z)
    (indices 10) = true) as Hall by (by vm_compute).
  rewrite forallb_forall in Hall. specialize (Hall x).
  rewrite andb_true_iff, Z.eqb_eq in Hall. apply Hall, list_elem_of_In, elem_of_indices. done.
Qed.

Lemma pretty_go_digits x s :
  digits_from 0 (pretty_N_go x s) = digits_from (Z.of_N x) s /\
  (all_chars isDigit s = true -> all_chars isDigit (pretty_N_go x s) = true) /\
  (x <> 0 \/ s <> "" -> pretty_N_go x s <> "").
Proof.
  revert s. induction x as [x IH] using (well_founded_induction N.lt_wf_0). intros s.
  destruct (decide (x = 0)) as [->|Hx].
  { rewrite pretty_N_go_0. split_and!; [done..|]. intros [?|?]; done. }
  rewrite pretty_N_go_step by lia.
  destruct (IH (x / 10) ltac:(apply N.div_lt; lia) (String (pretty_N_char (x `mod` 10)) s))
    as (H1 & H2 & H3).
  destruct (digit_char (x `mod` 10) ltac:(apply N.mod_lt; lia)) as [Hd Hv].
  rewrite H1. split_and!.
  - cbn [digits_from]. rewrite Hd, Hv. f_equal. pose proof (N.div_mod x 10 ltac:(lia)). lia.
  - intros Hs. apply H2. cbn. by rewrite Hd.
  - intros _. apply H3. by right.
Qed.

Lemma pretty_digits (n : N) :
  digits (pretty n) = Some (Z.of_N n) /\ all_chars isDigit (pretty n) = true /\ pretty n <> "".
Proof.
  unfold pretty, pretty_N. case_decide as Hn; [by subst|].
  destruct (pretty_go_digits n "") as (H1 & H2 & H3).
  assert (pretty_N_go n "" <> "") as Hne by (apply H3; by left).
  split_and!; [|by apply H2|done]. unfold digits. destruct (pretty_N_go n ""); [done|]. by rewrite H1.
Qed.

Lemma pretty_Z_text (z : Z) :
  (pretty z : string) = (if (z <? 0)%Z then "-" else "") +:+ pretty (Z.abs_N z).
Proof. by destruct z. Qed.

Lemma lexeme_N (n : N) s : stop s = true -> lexeme Tk.Int (pretty n) s.
Proof.
  intros Hs. destruct (pretty_digits n) as (_ & Hd & Hne).
  pose proof (lexeme_digits false (pretty n) s Hd Hne Hs) as H. by rewrite append_nil_l in H.
Qed.

Lemma lexeme_Z (z : Z) s : stop s = true -> lexeme Tk.Int (pretty z) s.
Proof.
  intros Hs. destruct (pretty_digits (Z.abs_N z)) as (_ & Hd & Hne).
  rewrite pretty_Z_text. by apply lexeme_digits.
Qed.

(** A decimal number is read back. *)
Lemma digits_first c r : all_chars isDigit (String c r) = true -> Ascii.eqb c "-" = false.
Proof. cbn. intros [Hc _]%andb_true_iff. by apply digit_facts. Qed.

Lemma from_chars_Z (z : Z) : is_i64 z -> from_chars_i64 (pretty z) = Parsed z.
Proof.
  intros Hz. rewrite pretty_Z_text. destruct (pretty_digits (Z.abs_N z)) as (Hv & Hd & Hne).
  unfold from_chars_i64.
  set (x := match _ +:+ _ with String c r => _ | EmptyString => _ end).
  assert (x = ((z <? 0)%Z, pretty (Z.abs_N z))) as ->.
  { subst x. destruct (z <? 0)%Z; [done|]. rewrite append_nil_l.
    destruct (pretty (Z.abs_N z)) as [|c r] eqn:E; [done|]. by rewrite (digits_first c r Hd). }
  rewrite Hv. assert ((if (z <? 0)%Z then - Z.of_N (Z.abs_N z) else Z.of_N (Z.abs_N z)) = z)%Z as ->.
  { destruct (Z.ltb_spec z 0); lia. }
  by rewrite bool_decide_true.
Qed.

Lemma from_chars_N (n : N) : fits64 n -> from_chars_u64 (pretty n) = Parsed n.
Proof.
  intros Hn. unfold from_chars_u64. destruct (pretty_digits n) as (-> & _ & _).
  unfold fits64 in Hn. destruct (Z.ltb_spec (Z.of_N n) 18446744073709551616); [|lia]. by rewrite N2Z.id.
Qed.

Lemma pretty_N_as_Z (n : N) : (pretty n : string) = pretty (Z.of_N n).
Proof. rewrite pretty_Z_text, Zabs2N.id. destruct (Z.ltb_spec (Z.of_N n) 0); [lia|done]. Qed.

(** ** Names with a number *)

Lemma digit_word c : isDigit c = true -> isWordByte c = true.
Proof. intros. by apply digit_facts. Qed.

Lemma is_word_prefixed c (n : N) :
  isWordByte c && negb (isDigit c) && negb (Ascii.eqb c "-") && negb (Ascii.eqb c ".") = true ->
  is_word (String c (pretty n)) = true.
Proof.
  rewrite !andb_true_iff, !negb_true_iff. intros [[[Hc Hd] Hm] Hdot]. unfold is_word.
  cbn [all_chars]. rewrite Hc, Hd, Hm, Hdot. cbn.
  rewrite (all_chars_impl isDigit isWordByte _ digit_word); [done|]. apply pretty_digits.
Qed.

Lemma parsePrefixed_pretty c (n : N) : fits64 n -> parsePrefixed (String c (pretty n)) c = Some n.
Proof.
  intros Hn. unfold parsePrefixed. destruct (pretty_digits n) as (_ & Hd & Hne).
  rewrite Ascii.eqb_refl, Hd, (from_chars_N n Hn).
  assert ((2 <=? slen (String c (pretty n))) = true) as ->; [|done].
  rewrite slen_cons. apply N.leb_le. destruct (pretty n); [done|]. rewrite slen_cons. lia.
Qed.

Lemma digit_ident c : isDigit c = true -> isIdentByte c = true.
Proof. intros H. unfold isIdentByte. by rewrite H, orb_true_r. Qed.

Definition labelName (n : N) : string := String "L" (pretty n).

Lemma labelName_ident n : isIdentShape (labelName n) = true.
Proof.
  cbn. rewrite (all_chars_impl isDigit isIdentByte _ digit_ident); [done|]. apply pretty_digits.
Qed.

Lemma labelName_inj n k : labelName n = labelName k -> n = k.
Proof. intros [= H]. by apply (inj pretty) in H. Qed.

Lemma labelName_eqb n k : (labelName n =? labelName k)%string = (n =? k).
Proof.
  destruct (N.eqb_spec n k) as [->|H]; [apply String.eqb_refl|].
  apply String.eqb_neq. contradict H. by apply labelName_inj.
Qed.

(** ** Floating-point numerals *)

(** A text that lexes to one number. *)
Definition numeral (s : string) : option Tk.t :=
  match s with
  | EmptyString => None
  | String c r =>
      if negb (isWs c) && negb (Ascii.eqb c "#") && negb (Ascii.eqb c dquote) && number_start s then
        let '(k, t, rest) := scan_number s in
        if (t =? s)%string && (rest =? "")%string then Some k else None
      else None
  end.

Lemma span_app_rest p a r :
  (span p a).2 = "" -> match r with EmptyString => true | String c _ => negb (p c) end = true ->
  span p (a +:+ r) = ((span p a).1, r).
Proof.
  intros Ha Hr. induction a as [|c a IH].
  - cbn [span fst]. rewrite append_nil_l. destruct r as [|c r]; [done|]. cbn.
    by apply negb_true_iff in Hr as ->.
  - rewrite append_cons. cbn [span] in *. destruct (p c); [|done].
    destruct (span p a) as [t x]. cbn [fst snd] in *. by rewrite IH.
Qed.

Lemma span_app_more p a r :
  (span p a).2 <> "" -> span p (a +:+ r) = ((span p a).1, (span p a).2 +:+ r).
Proof.
  induction a as [|c a IH]; [done|]. rewrite append_cons. cbn [span]. destruct (p c); [|done].
  destruct (span p a) as [t x]. cbn [fst snd] in *. intros H. by rewrite IH.
Qed.

Lemma span_digits_app a r : stop r = true ->
  span isDigit (a +:+ r) = ((span isDigit a).1, (span isDigit a).2 +:+ r).
Proof.
  intros Hr. destruct (String.eqb_spec (span isDigit a).2 "") as [He|He].
  - rewrite (span_app_rest _ _ _ He (stop_digit r Hr)). by rewrite He.
  - by apply span_app_more.
Qed.

Lemma scan_exponent_app a r : stop r = true ->
  (scan_exponent a).2 = "" ->
  scan_exponent (a +:+ r) = ((scan_exponent a).1, r).
Proof.
  intros Hr. destruct a as [|c a]; [intros _; by apply stop_exponent|].
  rewrite append_cons. unfold scan_exponent.
  destruct (_ || _); [|done].
  destruct a as [|d a]; [done|]. rewrite append_cons.
  set (sg := if Ascii.eqb d "+" || Ascii.eqb d "-" then (String d "", a) else ("", String d a)).
  assert ((if Ascii.eqb d "+" || Ascii.eqb d "-" then (String d "", a +:+ r) else ("", String d (a +:+ r)))
    = (sg.1, sg.2 +:+ r)) as -> by (subst sg; by destruct (_ || _)).
  clearbody sg. destruct sg as [sg a']. cbn [fst snd].
  destruct (digitAt 0 a') eqn:Hd; [|done].
  assert (digitAt 0 (a' +:+ r) = true) as -> by (by destruct a').
  rewrite span_digits_app by done. destruct (span isDigit a') as [ds r']. cbn [fst snd].
  intros ->. by rewrite append_nil_l.
Qed.

Lemma scan_number_app k t c0 a0 r :
  stop r = true -> scan_number (String c0 a0) = (k, t, "") ->
  scan_number (String c0 a0 +:+ r) = (k, t, r).
Proof.
  intros Hr. unfold scan_number.
  set (sg := if Ascii.eqb c0 "-" then (String c0 "", a0) else ("", String c0 a0)).
  assert ((match String c0 a0 +:+ r with
           | EmptyString => ("", String c0 a0 +:+ r)
           | String c r0 => if Ascii.eqb c "-" then (String c "", r0) else ("", String c0 a0 +:+ r)
           end) = (sg.1, sg.2 +:+ r)) as ->.
  { subst sg. rewrite append_cons. by destruct (Ascii.eqb c0 "-"). }
  clearbody sg. destruct sg as [sign s1]. cbn [fst snd].
  rewrite (span_digits_app s1 r Hr). destruct (span isDigit s1) as [whole s2]. cbn [fst snd].
  set (fr := match s2 with
             | EmptyString => ("", s2)
             | String c r => if Ascii.eqb c "." then let '(ds, r) := span isDigit r in (String c ds, r) else ("", s2)
             end).
  assert ((match s2 +:+ r with
           | EmptyString => ("", s2 +:+ r)
           | String c r0 =>
               if Ascii.eqb c "." then let '(ds, r1) := span isDigit r0 in (String c ds, r1)
               else ("", s2 +:+ r)
           end) = (fr.1, fr.2 +:+ r)) as ->.
  { subst fr. destruct s2 as [|c s2].
    - rewrite append_nil_l. destruct r as [|c r]; [done|]. by rewrite (stop_dot c r Hr).
    - rewrite append_cons. destruct (Ascii.eqb c "."); [|done]. rewrite (span_digits_app s2 r Hr).
      by destruct (span isDigit s2). }
  clearbody fr. destruct fr as [frac s3]. cbn [fst snd].
  pose proof (scan_exponent_app s3 r Hr) as He.
  destruct (scan_exponent s3) as [ex s4]. cbn [fst snd] in He.
  intros [= <- <- ->]. by rewrite He.
Qed.

Lemma digitAt_app k a r : digitAt k a = true -> digitAt k (a +:+ r) = true.
Proof.
  unfold digitAt. destruct (String.get k a) as [c|] eqn:Hg; [|done]. intros Hc.
  assert (String.get k (a +:+ r) = Some c) as ->; [|done]. rewrite <- Hg. symmetry.
  apply append_correct1. clear Hc. revert k Hg. induction a as [|d a IH]; intros [|k] Hg; cbn in *;
    [done|done|lia|]. specialize (IH k Hg). lia.
Qed.

Lemma charAt_app k c a r : charAt k c a = true -> charAt k c (a +:+ r) = true.
Proof.
  unfold charAt. destruct (String.get k a) as [d|] eqn:Hg; [|done]. intros Hc.
  assert (String.get k (a +:+ r) = Some d) as ->; [|done]. rewrite <- Hg. symmetry.
  apply append_correct1. clear Hc. revert k Hg. induction a as [|x a IH]; intros [|k] Hg; cbn in *;
    [done|done|lia|]. specialize (IH k Hg). lia.
Qed.

Lemma number_start_app a r : number_start a = true -> number_start (a +:+ r) = true.
Proof.
  unfold number_start. rewrite !orb_true_iff, !andb_true_iff, !orb_true_iff, !andb_true_iff.
  intuition auto using digitAt_app, charAt_app.
Qed.

Lemma lexeme_numeral k w s : numeral w = Some k -> stop s = true -> lexeme k w s.
Proof.
  intros Hn Hs. destruct w as [|c r]; [done|]. unfold numeral in Hn.
  destruct (_ && number_start _) eqn:Hc; [|done].
  rewrite !andb_true_iff, !negb_true_iff in Hc. destruct Hc as [[[Hws Hsharp] Hq] Hns].
  destruct (scan_number _) as [[k' t] rest] eqn:Hscan. destruct (_ && _) eqn:He; [|done].
  apply andb_true_iff in He as [->%String.eqb_eq ->%String.eqb_eq]. injection Hn as ->.
  split_and!; [done..|]. unfold scan_token. rewrite Hq, <- append_cons.
  rewrite (number_start_app _ s Hns). by apply scan_number_app.
Qed.

(** A minus sign before a word. *)
Lemma lexeme_minus c s : isDigit c = false -> Ascii.eqb c "." = false ->
  lexeme Tk.Punct "-" (String c s).
Proof.
  intros Hd Hdot. split_and!; [done..|]. unfold scan_token. rewrite append_nil_l.
  change (Ascii.eqb "-" dquote) with false. cbn iota.
  assert (number_start (String "-" (String c s)) = false) as ->; [|done].
  unfold number_start, digitAt, charAt. cbn [String.get]. rewrite Hd, Hdot. done.
Qed.

(** ** Strings *)

Lemma backslash_dquote : Ascii.eqb backslash dquote = false.
Proof. done. Qed.

(** What an escape is: the byte itself, or a backslash and the byte's letter. *)
Lemma escape_cases c :
  (escape c = String c "" /\ Ascii.eqb c dquote = false /\ Ascii.eqb c backslash = false) \/
  (exists d, escape c = String backslash (String d "") /\ unescape d = Some c).
Proof.
  unfold escape. destruct (Ascii.eqb_spec c dquote) as [->|Hq]; [right; by eexists|].
  destruct (Ascii.eqb_spec c backslash) as [->|Hb]; [right; by eexists|].
  destruct (Ascii.eqb_spec c lf) as [->|]; [right; by eexists|].
  destruct (Ascii.eqb_spec c (chr 9)) as [->|]; [right; by eexists|].
  destruct (Ascii.eqb_spec c (chr 13)) as [->|]; [right; by eexists|].
  by left.
Qed.

Lemma scan_string_escapes x s :
  scan_string (escapes x +:+ String dquote s) = (escapes x +:+ String dquote "", s).
Proof.
  induction x as [|c x IH]; [done|]. cbn [escapes].
  destruct (escape_cases c) as [(-> & Hq & Hb)|(d & -> & Hd)].
  - rewrite !append_cons, append_nil_l. cbn [scan_string]. rewrite Hq, Hb.
    destruct (escapes x +:+ String dquote s) as [|e r] eqn:E.
    { destruct (escapes x); done. }
    by rewrite IH.
  - rewrite !append_cons, append_nil_l. cbn [scan_string]. rewrite backslash_dquote.
    change (Ascii.eqb backslash backslash) with true. cbn iota. by rewrite IH.
Qed.

Lemma lexeme_quoted x s : lexeme Tk.Str (quoted x) s.
Proof.
  split_and!; [done..|]. unfold scan_token. change (Ascii.eqb dquote dquote) with true. cbn iota.
  rewrite append_assoc, append_cons, append_nil_l, scan_string_escapes. done.
Qed.

Lemma decode_escapes x : decode_string (escapes x +:+ String dquote "") = inl x.
Proof.
  induction x as [|c x IH]; [done|]. cbn [escapes].
  destruct (escape_cases c) as [(-> & Hq & Hb)|(d & -> & Hd)].
  - rewrite !append_cons, append_nil_l. cbn [decode_string].
    destruct (escapes x +:+ String dquote "") as [|e r] eqn:E.
    { destruct (escapes x); done. }
    by rewrite Hb, IH.
  - rewrite !append_cons, append_nil_l. cbn [decode_string].
    change (Ascii.eqb backslash backslash) with true. cbn iota.
    destruct (escapes x +:+ String dquote "") as [|e r] eqn:E.
    { destruct (escapes x); done. }
    by rewrite Hd, IH.
Qed.

Lemma get_last s c : String.get (String.length s) (s +:+ String c "") = Some c.
Proof. induction s as [|d s IH]; [done|]. by rewrite append_cons. Qed.

Lemma quoted_shape x :
  (slen (quoted x) <? 2) = false /\ last_char (quoted x) = Some dquote /\
  drop_str 1 (quoted x) = escapes x +:+ String dquote "".
Proof.
  unfold quoted. split_and!; [|..|done].
  - apply N.ltb_ge. rewrite slen_cons, slen_app, slen_cons. lia.
  - unfold last_char. cbn [String.length]. rewrite length_append. cbn [String.length].
    replace (S (String.length (escapes x) + 1) - 1)%nat with (S (String.length (escapes x))) by lia.
    cbn [String.get]. apply get_last.
Qed.
