(* ===== verification/FloatText.v ===== *)
(** * Floating-point text reads back

    The text that [to_chars_float] writes for a finite value is a number, and
    [from_chars_float] reads the value back from it. A decimal of 17 digits is nearer to
    a value than half the distance to its neighbours, so the search for the shortest
    decimal ends; the two forms of the text carry the decimal's digits and exponent. *)

From stdpp Require Import pretty.
From Stdlib Require Import Ascii String.
From S2P Require Import Prelude RbcLex CharConv RbcParse RbcPrint RbcTextTotal RbcTextLex.

Local Open Scope Z_scope.

(** ** Fractions *)

Lemma pow2_pos x : 0 <= x -> 0 < 2 ^ x.
Proof. intros. by apply Z.pow_pos_nonneg. Qed.
Lemma pow10_pos x : 0 <= x -> 0 < 10 ^ x.
Proof. intros. by apply Z.pow_pos_nonneg. Qed.

Lemma div_even_spec a b : 0 < b -> 2 * Z.abs (div_even a b * b - a) <= b.
Proof.
  intros Hb. unfold div_even. pose proof (Z.div_mod a b ltac:(lia)) as Hd.
  pose proof (Z.mod_pos_bound a b Hb). destruct (Z.compare_spec (2 * (a mod b)) b); try destruct (Z.even _); nia.
Qed.

Lemma div_even_near a b m : 0 < b -> 2 * Z.abs (m * b - a) < b -> div_even a b = m.
Proof.
  intros Hb Hm. pose proof (div_even_spec a b Hb) as H.
  assert (2 * Z.abs (m * b - div_even a b * b) < 2 * b) by lia.
  assert (Z.abs ((m - div_even a b) * b) < b) as Hx by lia. rewrite Z.abs_mul in Hx. nia.
Qed.

Lemma div_even_prop a b a' b' : 0 < b -> 0 < b' -> a * b' = a' * b -> div_even a b = div_even a' b'.
Proof.
  assert (forall a b c, 0 < b -> 0 < c -> div_even (a * c) (b * c) = div_even a b) as Hs.
  { intros x y c Hy Hc. unfold div_even. rewrite Z.div_mul_cancel_r, Z.mul_mod_distr_r by lia.
    replace (2 * (x mod y * c)) with (2 * (x mod y) * c) by lia.
    rewrite <- Zmult_compare_compat_r by lia. done. }
  intros Hb Hb' H. rewrite <- (Hs a b b'), <- (Hs a' b' b), H by lia. f_equal. lia.
Qed.

(** [2^j <= n / d] *)
Definition le2 (j n d : Z) : Prop := d * 2 ^ Z.max 0 j <= n * 2 ^ Z.max 0 (- j).

Lemma le2_shift s j n d : 0 <= s -> 0 <= j + s -> le2 j n d <-> d * 2 ^ (j + s) <= n * 2 ^ s.
Proof.
  intros Hs Hj. unfold le2. destruct (Z.le_gt_cases 0 j) as [H|H].
  - rewrite Z.max_r, (Z.max_l 0 (- j)), Z.pow_add_r by lia. pose proof (pow2_pos s Hs). nia.
  - rewrite Z.max_l, (Z.max_r 0 (- j)) by lia. replace s with (j + s + - j) at 2 by lia.
    rewrite (Z.pow_add_r 2 (j + s)) by lia. pose proof (pow2_pos (j + s) Hj). nia.
Qed.

Lemma le2_mono i j n d : 0 < d -> i <= j -> le2 j n d -> le2 i n d.
Proof.
  intros Hd Hi. rewrite !(le2_shift (Z.max 0 (- i))) by lia. intros H.
  pose proof (Z.pow_le_mono_r 2 (i + Z.max 0 (- i)) (j + Z.max 0 (- i))). nia.
Qed.

Lemma floor_log2_spec n d : 0 < n -> 0 < d -> le2 (floor_log2 n d) n d /\ ~ le2 (floor_log2 n d + 1) n d.
Proof.
  intros Hn Hd. unfold floor_log2.
  pose proof (Z.log2_spec n Hn) as [Hn1 Hn2]. pose proof (Z.log2_spec d Hd) as [Hd1 Hd2].
  pose proof (Z.log2_nonneg n). pose proof (Z.log2_nonneg d).
  set (k := Z.log2 n - Z.log2 d) in *. set (s := Z.log2 d + 1).
  assert (le2 (k - 1) n d) as Hlo.
  { rewrite (le2_shift s) by lia. replace (k - 1 + s) with (Z.log2 n) by lia.
    unfold s. rewrite <- Z.add_1_r in Hd2. nia. }
  assert (~ le2 (k + 1) n d) as Hhi.
  { rewrite (le2_shift s) by lia. replace (k + 1 + s) with (Z.log2 n + 1 + 1) by lia.
    unfold s. rewrite <- Z.add_1_r in Hn2.
    rewrite (Z.pow_add_r 2 (Z.log2 d) 1), (Z.pow_add_r 2 (Z.log2 n + 1) 1) by lia.
    pose proof (pow2_pos (Z.log2 d)). nia. }
  destruct (Z.ltb_spec (n * 2 ^ Z.max 0 (- k)) (d * 2 ^ Z.max 0 k)) as [H'|H'].
  - split; [done|]. replace (k - 1 + 1) with k by lia. unfold le2. lia.
  - split; [unfold le2; lia|done].
Qed.

Lemma floor_log2_iff j n d : 0 < n -> 0 < d -> j <= floor_log2 n d <-> le2 j n d.
Proof.
  intros Hn Hd. destruct (floor_log2_spec n d Hn Hd) as [H1 H2]. split; intros H.
  - by apply (le2_mono j (floor_log2 n d)).
  - destruct (Z.le_gt_cases j (floor_log2 n d)) as [|Hx]; [done|].
    destruct H2. apply (le2_mono _ j); [done|lia|done].
Qed.

Lemma le2_prop j n d n' d' : 0 < d -> 0 < d' -> n * d' = n' * d -> le2 j n d -> le2 j n' d'.
Proof.
  unfold le2. intros Hd Hd' He H. apply (Z.mul_le_mono_pos_r _ _ d Hd).
  apply (Z.mul_le_mono_pos_r _ _ d' Hd') in H. nia.
Qed.

Lemma floor_log2_prop n d n' d' :
  0 < n -> 0 < d -> 0 < n' -> 0 < d' -> n * d' = n' * d -> floor_log2 n d = floor_log2 n' d'.
Proof.
  assert (forall n d n' d', 0 < n -> 0 < d -> 0 < n' -> 0 < d' -> n * d' = n' * d ->
    floor_log2 n d <= floor_log2 n' d') as H.
  { intros x y x' y' Hx Hy Hx' Hy' He. apply floor_log2_iff; [done..|].
    apply (le2_prop _ x y); [done..|]. by apply floor_log2_iff. }
  intros. by apply Z.le_antisymm; apply H.
Qed.

Lemma round_bits_prop f n d n' d' :
  0 < n -> 0 < d -> 0 < n' -> 0 < d' -> n * d' = n' * d -> round_bits f n d = round_bits f n' d'.
Proof.
  intros. unfold round_bits. rewrite (floor_log2_prop n d n' d') by done. f_equal.
  set (e := Z.max _ _). pose proof (pow2_pos (Z.max 0 e) ltac:(lia)). pose proof (pow2_pos (Z.max 0 (- e)) ltac:(lia)).
  apply div_even_prop; nia.
Qed.

(** ** Formats *)

Class Format (f : Fmt) : Prop := {
  fm_prec : 1 < f_prec f <= 53;
  fm_emin : - 1074 <= f_emin f < 0;
  fm_emax : f_emin f + 2 ^ (f_width f - f_prec f) - 3 <= 971;
  fm_width : f_prec f < f_width f;
  fm_sign : f_inf f < f_nan f < f_sign f;
  fm_neg_inf : set_sign f (f_inf f) = f_inf f + f_sign f;
  fm_neg_nan : set_sign f (f_nan f) = f_nan f + f_sign f
}.

#[export] Instance fmt32_ok : Format fmt32.
Proof. by split. Qed.
#[export] Instance fmt64_ok : Format fmt64.
Proof. by split. Qed.

Section format.
Context (f : Fmt) {Hf : Format f}.

Abbreviation hidden := (f_hidden f).
Abbreviation emin := (f_emin f).
Abbreviation K := (2 ^ (- f_emin f)).
(** A power of two in units of the least one. *)
Abbreviation P e := (2 ^ (e - f_emin f)).

Lemma hidden_bounds : 2 <= hidden /\ 2 * hidden <= 2 ^ 53.
Proof.
  pose proof (fm_prec (f := f)) as Hp. unfold f_hidden. split.
  - change 2 with (2 ^ 1) at 1. apply Z.pow_le_mono_r; lia.
  - replace (2 * _) with (2 ^ (f_prec f)); [apply Z.pow_le_mono_r; lia|].
    replace (f_prec f) with (1 + (f_prec f - 1)) at 1 by lia. by rewrite Z.pow_add_r by lia.
Qed.

Lemma P_pos e : emin <= e -> 0 < P e.
Proof. intros. apply pow2_pos. lia. Qed.

Lemma P_succ e : emin <= e -> P (e + 1) = 2 * P e.
Proof. intros. replace (e + 1 - emin) with (1 + (e - emin)) by lia. by rewrite Z.pow_add_r by lia. Qed.

Lemma P_hidden e : emin <= e -> P (e + (f_prec f - 1)) = hidden * P e.
Proof.
  intros. pose proof (fm_prec (f := f)) as Hp. replace (e + (f_prec f - 1) - emin) with (f_prec f - 1 + (e - emin)) by lia.
  by rewrite Z.pow_add_r by lia.
Qed.

Lemma le2_scaled j n d : emin <= j -> le2 j n d <-> d * P j <= n * K.
Proof. intros. pose proof (fm_emin (f := f)) as He. rewrite (le2_shift (- emin)) by lia. by replace (j + - emin) with (j - emin) by lia. Qed.

(** The rounding of [n / d] in units of [2^emin]. *)
Lemma round_bits_scaled n d e : 0 < d ->
  e = Z.max emin (floor_log2 n d - (f_prec f - 1)) ->
  round_bits f n d = (e - emin) * hidden + div_even (n * K) (d * P e).
Proof.
  intros Hd He. unfold round_bits. rewrite <- He. f_equal. pose proof (fm_emin (f := f)) as Hm.
  assert (emin <= e) by lia. clear He.
  pose proof (P_pos e ltac:(lia)). pose proof (pow2_pos (Z.max 0 e) ltac:(lia)).
  apply div_even_prop; [nia..|].
  enough (2 ^ Z.max 0 (- e) * P e = 2 ^ Z.max 0 e * K) as E.
  { replace (n * 2 ^ Z.max 0 (- e) * (d * P e)) with (n * d * (2 ^ Z.max 0 (- e) * P e)) by lia.
    rewrite E. lia. }
  rewrite <- !Z.pow_add_r by lia. f_equal. lia.
Qed.

(** ** Bits as a significand and an exponent *)

Definition f_man (b : Z) : Z := if b <? hidden then b else b mod hidden + hidden.
Definition f_exp (b : Z) : Z := if b <? hidden then emin else emin + b / hidden - 1.

Lemma f_frac_eq b : f_frac f b = (f_man b * 2 ^ Z.max 0 (f_exp b), 2 ^ Z.max 0 (- f_exp b)).
Proof. unfold f_frac, f_man, f_exp. by destruct (b <? hidden). Qed.

Lemma f_man_exp b : 0 < b < f_inf f ->
  b = (f_exp b - emin) * hidden + f_man b /\ 0 < f_man b < 2 * hidden /\
  emin <= f_exp b <= 971 /\ (f_exp b = emin \/ hidden <= f_man b).
Proof.
  intros [Hb Hi]. pose proof hidden_bounds as Hh. pose proof (fm_emin (f := f)). pose proof (fm_emax (f := f)). pose proof (fm_width (f := f)).
  unfold f_man, f_exp. destruct (Z.ltb_spec b hidden) as [|Hge]; [lia|].
  pose proof (Z.div_mod b hidden ltac:(lia)). pose proof (Z.mod_pos_bound b hidden ltac:(lia)).
  assert (1 <= b / hidden) by (apply Z.div_le_lower_bound; lia).
  assert (b / hidden < 2 ^ (f_width f - f_prec f) - 1).
  { apply Z.div_lt_upper_bound; [lia|]. unfold f_inf in Hi. lia. }
  split_and!; lia.
Qed.

Lemma f_man_exp_unique e m : emin <= e -> 0 < m < 2 * hidden -> e = emin \/ hidden <= m ->
  f_exp ((e - emin) * hidden + m) = e /\ f_man ((e - emin) * hidden + m) = m.
Proof.
  intros He Hm Hc. pose proof hidden_bounds as Hh. unfold f_man, f_exp.
  destruct (Z.ltb_spec ((e - emin) * hidden + m) hidden) as [Hl|Hl].
  - destruct Hc as [->|Hc]; [lia|]. assert (e = emin) as -> by nia. lia.
  - assert (hidden <= m) by (destruct Hc as [->|]; lia).
    replace ((e - emin) * hidden + m) with ((e - emin + 1) * hidden + (m - hidden)) by lia.
    rewrite Z.div_add_l, Z.div_small by lia.
    rewrite (Z.add_comm (_ * hidden)), Z.mod_add, Z.mod_small by lia. lia.
Qed.

(** A fraction within a relative error of [1 / (2 * 10^16)] rounds to the value. *)
Lemma round_bits_near b n d : 0 < b < f_inf f -> 0 < n -> 0 < d ->
  Z.abs (n * K - f_man b * (d * P (f_exp b))) * (2 * 10 ^ 16) <= f_man b * (d * P (f_exp b)) ->
  round_bits f n d = b.
Proof.
  intros Hb Hn Hd Herr. destruct (f_man_exp b Hb) as (Heq & Hm & He & Hc). pose proof hidden_bounds as [Hh1 Hh2].
  revert Heq Hm He Hc Herr. generalize (f_man b) (f_exp b). intros m e Heq Hm He Hc Herr.
  pose proof (P_pos e ltac:(lia)) as HP. pose proof (fm_prec (f := f)) as Hp.
  change (2 ^ 53) with 9007199254740992 in *. change (2 * 10 ^ 16) with 20000000000000000 in Herr.
  set (X := d * P e) in *. assert (0 < X) by nia.
  assert (m * X <= (2 * hidden - 1) * X) by nia. assert (2 * hidden * X <= 9007199254740992 * X) by nia.
  assert (floor_log2 n d < e + f_prec f) as Hup.
  { apply Z.nle_gt. rewrite floor_log2_iff, le2_scaled by lia.
    replace (e + f_prec f) with (e + 1 + (f_prec f - 1)) by lia. rewrite P_hidden, P_succ by lia.
    replace (d * (hidden * (2 * P e))) with (2 * hidden * X) by (unfold X; lia). lia. }
  destruct (decide (e = emin \/ hidden * X <= n * K)) as [Hin|Hout].
  - rewrite (round_bits_scaled n d e Hd).
    + rewrite (div_even_near _ _ m); [lia|done|]. lia.
    + destruct Hin as [->|Hin]; [lia|].
      assert (e + (f_prec f - 1) <= floor_log2 n d); [|lia].
      rewrite floor_log2_iff, le2_scaled, P_hidden by lia. unfold X in Hin. lia.
  - assert (emin <= e - 1) as He1 by lia. assert (m = hidden) as ->.
    { destruct (decide (m = hidden)); [done|]. assert ((hidden + 1) * X <= m * X) by nia. lia. }
    pose proof (P_succ (e - 1) He1) as HPs. replace (e - 1 + 1) with e in HPs by lia.
    set (Y := d * P (e - 1)). assert (X = 2 * Y) as HX by (unfold X, Y; rewrite HPs; lia).
    rewrite (round_bits_scaled n d (e - 1) Hd).
    + fold Y. rewrite (div_even_near _ _ (2 * hidden)); [lia|lia|]. rewrite HX in *. nia.
    + assert (e - 1 + (f_prec f - 1) <= floor_log2 n d /\ floor_log2 n d < e + (f_prec f - 1)); [|lia].
      split.
      * rewrite floor_log2_iff, le2_scaled, P_hidden by lia.
        replace (d * (hidden * P (e - 1))) with (hidden * Y) by (unfold Y; lia). nia.
      * apply Z.nle_gt. rewrite floor_log2_iff, le2_scaled, P_hidden by lia.
        replace (d * (hidden * P e)) with (hidden * X) by (unfold X; lia). lia.
Qed.

(** ** The shortest decimal *)

(** [10^k <= n / d] *)
Definition le10 (k n d : Z) : Prop := dec_num d k <= n * dec_den k.

Lemma le10_of_le2 L n d : 0 < n -> 0 < d -> - 1074 <= L < 1024 -> le2 L n d ->
  le10 ((L * 30103) / 100000 - 1) n d.
Proof.
  intros Hn Hd HL. unfold le2, le10, dec_num, dec_den.
  set (k := _ - 1). assert (10 ^ Z.max 0 k * 2 ^ Z.max 0 (- L) <= 2 ^ Z.max 0 L * 10 ^ Z.max 0 (- k)) as Hk.
  { subst k. assert (forallb (fun i => let L := Z.of_N i - 1074 in let k := (L * 30103) / 100000 - 1 in
      10 ^ Z.max 0 k * 2 ^ Z.max 0 (- L) <=? 2 ^ Z.max 0 L * 10 ^ Z.max 0 (- k)) (indices 2098) = true) as Hall
      by (vm_compute; reflexivity).
    rewrite forallb_forall in Hall. specialize (Hall (Z.to_N (L + 1074))). cbv zeta in Hall.
    replace (Z.of_N (Z.to_N (L + 1074)) - 1074) with L in Hall by lia.
    apply Z.leb_le, Hall, list_elem_of_In, elem_of_indices. lia. }
  pose proof (pow2_pos (Z.max 0 L) ltac:(lia)). pose proof (pow2_pos (Z.max 0 (- L)) ltac:(lia)).
  pose proof (pow10_pos (Z.max 0 (- k)) ltac:(lia)).
  intros H2. apply (Z.mul_le_mono_pos_r _ _ (2 ^ Z.max 0 (- L))); [done|].
  apply (Z.mul_le_mono_nonneg_l _ _ d) in Hk; [|lia].
  apply (Z.mul_le_mono_pos_r _ _ (10 ^ Z.max 0 (- k))) in H2; [|done]. lia.
Qed.

Lemma f_frac_scaled b num den : 0 < b < f_inf f -> f_frac f b = (num, den) ->
  0 < num /\ 0 < den /\ num * K = f_man b * P (f_exp b) * den.
Proof.
  intros Hb. rewrite f_frac_eq. injection 1 as <- <-. destruct (f_man_exp b Hb) as (_ & Hm & He & _).
  pose proof (pow2_pos (Z.max 0 (f_exp b)) ltac:(lia)). pose proof (pow2_pos (Z.max 0 (- f_exp b)) ltac:(lia)).
  split_and!; [nia|done|]. rewrite <- !Z.mul_assoc. f_equal. pose proof (fm_emin (f := f)).
  rewrite <- !Z.pow_add_r by lia. f_equal. lia.
Qed.

Lemma floor_log10_le b num den : 0 < b < f_inf f -> f_frac f b = (num, den) ->
  le10 (floor_log10 num den) num den.
Proof.
  intros Hb Hf'. destruct (f_frac_scaled b num den Hb Hf') as (Hn & Hd & Hv).
  destruct (f_man_exp b Hb) as (_ & Hm & He & _). pose proof hidden_bounds as [_ Hh]. pose proof (fm_emin (f := f)).
  pose proof (P_pos (f_exp b) ltac:(lia)) as HP.
  assert (- 1074 <= floor_log2 num den < 1024) as HL.
  { split.
    - assert (emin <= floor_log2 num den); [|lia]. rewrite floor_log2_iff, le2_scaled, Z.sub_diag by lia.
      rewrite Hv. change (2 ^ 0) with 1.
      assert (1 <= f_man b * P (f_exp b)) by nia. nia.
    - apply Z.nle_gt. rewrite floor_log2_iff, le2_scaled by lia. rewrite Hv.
      assert (P 1024 = 2 ^ 53 * P 971) as ->.
      { replace (1024 - emin) with (53 + (971 - emin)) by lia. by rewrite Z.pow_add_r by lia. }
      assert (P (f_exp b) <= P 971) by (apply Z.pow_le_mono_r; lia).
      assert (f_man b * P (f_exp b) < 2 ^ 53 * P 971) by nia. nia. }
  pose proof (floor_log2_spec num den Hn Hd) as [H2 _].
  pose proof (le10_of_le2 _ num den Hn Hd HL H2) as H10.
  unfold floor_log10. fold (le10 (floor_log2 num den * 30103 / 100000) num den).
  set (est := _ / 100000) in *. unfold le10 in *.
  destruct (Z.leb_spec (dec_num den est) (num * dec_den est)); cbn [negb]; [|done].
  destruct (Z.leb_spec (dec_num den (est + 1)) (num * dec_den (est + 1))); done.
Qed.

Lemma dec_den_pos e : 0 < dec_den e.
Proof. apply pow10_pos. lia. Qed.

Lemma dec_num_pos m e : 0 < m -> 0 < dec_num m e.
Proof. intros. unfold dec_num. pose proof (pow10_pos (Z.max 0 e) ltac:(lia)). nia. Qed.

(** The nearer decimal of 17 digits rounds to the value. *)
Lemma near_rounds b num den q near : 0 < b < f_inf f -> f_frac f b = (num, den) ->
  q = floor_log10 num den - 16 -> near = div_even (num * dec_den q) (dec_num den q) -> 0 < near ->
  round_bits f (dec_num near q) (dec_den q) = b.
Proof.
  intros Hb Hf' Hq Hnear Hpos. destruct (f_frac_scaled b num den Hb Hf') as (Hn & Hd & Hv).
  pose proof (floor_log10_le b num den Hb Hf') as H10. unfold le10 in H10.
  replace (floor_log10 num den) with (q + 16) in H10 by lia.
  apply round_bits_near; [done|by apply dec_num_pos|apply dec_den_pos|].
  pose proof (div_even_spec (num * dec_den q) (dec_num den q) (dec_num_pos _ _ Hd)) as Herr.
  rewrite <- Hnear in Herr.
  assert (dec_num den q * 10 ^ 16 <= num * dec_den q) as H16.
  { unfold dec_num, dec_den in *.
    destruct (Z.le_gt_cases 0 q); [|destruct (Z.le_gt_cases 0 (q + 16))].
    - rewrite !Z.max_r, !Z.max_l in * by lia. rewrite Z.pow_add_r in H10 by lia. lia.
    - rewrite (Z.max_r 0 (q + 16)), (Z.max_l 0 (- (q + 16))), (Z.max_l 0 q), (Z.max_r 0 (- q)) in * by lia.
      replace 16 with (q + 16 + - q) at 1 by lia. rewrite Z.pow_add_r by lia.
      pose proof (pow10_pos (- q) ltac:(lia)). change (10 ^ 0) with 1 in *. nia.
    - rewrite (Z.max_l 0 (q + 16)), (Z.max_r 0 (- (q + 16))), (Z.max_l 0 q), (Z.max_r 0 (- q)) in * by lia.
      replace (- q) with (- (q + 16) + 16) by lia. rewrite Z.pow_add_r by lia.
      change (10 ^ 0) with 1 in *. pose proof (pow10_pos 16 ltac:(lia)). nia. }
  assert (dec_num near q * den = near * dec_num den q) as Hnd by (unfold dec_num; lia).
  set (n := dec_num near q) in *. set (d := dec_den q) in *. set (V := f_man b * P (f_exp b)) in *.
  replace (f_man b * (d * P (f_exp b))) with (V * d) by (unfold V; lia).
  assert (0 < K) by (apply pow2_pos; pose proof (fm_emin (f := f)); lia).
  apply (Z.mul_le_mono_pos_r _ _ den Hd).
  replace (Z.abs (n * K - V * d) * (2 * 10 ^ 16) * den) with (Z.abs (n * K - V * d) * den * (2 * 10 ^ 16)) by lia.
  replace (Z.abs (n * K - V * d) * den) with (K * Z.abs (near * dec_num den q - num * d)).
  2:{ assert ((n * K - V * d) * den = K * (near * dec_num den q - num * d)) as He by (rewrite <- Hnd; nia).
      apply (f_equal Z.abs) in He. rewrite !Z.abs_mul, (Z.abs_eq den), (Z.abs_eq K) in He by lia. lia. }
  replace (V * d * den) with (K * (num * d)) by nia. nia.
Qed.

Lemma norm_rounds m q len : 0 < m -> 0 <= len ->
  let '(m', q') := if m =? 10 ^ len then (1, q + len) else (m, q) in
  0 < m' /\ round_bits f (dec_num m' q') (dec_den q') = round_bits f (dec_num m q) (dec_den q).
Proof.
  intros Hm Hlen. destruct (Z.eqb_spec m (10 ^ len)) as [->|]; [|done]. split; [done|].
  apply round_bits_prop; try apply dec_den_pos; try by apply dec_num_pos.
  unfold dec_num, dec_den. rewrite Z.mul_1_l, <- !Z.pow_add_r by lia. f_equal. lia.
Qed.

Lemma around_pos num den len m q : 0 < num -> 0 < den -> 1 <= len ->
  le10 (floor_log10 num den) num den -> (m, q) ∈ around num den len -> 0 < m.
Proof.
  intros Hn Hd Hlen H10. unfold around. cbv zeta. set (q0 := floor_log10 num den - len + 1).
  set (lo := _ / _). set (near := div_even _ _).
  assert (1 <= lo) as Hlo.
  { apply Z.div_le_lower_bound; [by apply dec_num_pos|]. unfold le10, dec_num, dec_den in *.
    assert (10 ^ Z.max 0 q0 <= 10 ^ Z.max 0 (floor_log10 num den)) by (apply Z.pow_le_mono_r; lia).
    assert (10 ^ Z.max 0 (- floor_log10 num den) <= 10 ^ Z.max 0 (- q0)) by (apply Z.pow_le_mono_r; lia). nia. }
  assert (lo <= near).
  { unfold near, div_even. fold lo. destruct (_ ?= _); try destruct (Z.even lo); lia. }
  assert (forall x, 1 <= x -> forall m q, (if x =? 10 ^ len then (1, q0 + len) else (x, q0)) = (m, q) -> 0 < m) as Hx.
  { intros x Hx m' q'. destruct (_ =? _); injection 1; lia. }
  rewrite !elem_of_cons, elem_of_nil. intros [E|[E|[]]]; symmetry in E; eapply Hx; try exact E; [lia|].
  destruct (near =? lo); lia.
Qed.

Lemma shortest_rounds b : 0 < b < f_inf f ->
  exists m q, shortest f b = Some (m, q) /\ 0 < m /\ round_bits f (dec_num m q) (dec_den q) = b.
Proof.
  intros Hb. unfold shortest. destruct (f_frac f b) as [num den] eqn:Hf'.
  destruct (f_frac_scaled b num den Hb Hf') as (Hn & Hd & Hv).
  pose proof (floor_log10_le b num den Hb Hf') as H10.
  set (l := flat_map _ _).
  assert (forall m q, (m, q) ∈ l -> 0 < m) as Hpos.
  { intros m q Hin. unfold l in Hin. apply list_elem_of_In, in_flat_map in Hin as (len & Hlen & Hin).
    apply in_seq in Hlen. apply list_elem_of_In in Hin. eapply (around_pos num den (Z.of_nat len)); [..|exact Hin]; (done || lia). }
  destruct (List.find _ l) as [[m q]|] eqn:E.
  - exists m, q. apply List.find_some in E as [Hin Hr]. apply Z.eqb_eq in Hr.
    split_and!; [done| |done]. eapply Hpos. by apply list_elem_of_In.
  - exfalso. set (q := floor_log10 num den - 16).
    set (near := div_even (num * dec_den q) (dec_num den q)).
    assert (0 < near) as Hnear.
    { unfold near, div_even. assert (1 <= num * dec_den q / dec_num den q); [|destruct (_ ?= _); try destruct (Z.even _); lia].
      apply Z.div_le_lower_bound; [by apply dec_num_pos|]. unfold le10, dec_num, dec_den in *.
      assert (10 ^ Z.max 0 q <= 10 ^ Z.max 0 (floor_log10 num den)) by (apply Z.pow_le_mono_r; lia).
      assert (10 ^ Z.max 0 (- floor_log10 num den) <= 10 ^ Z.max 0 (- q)) by (apply Z.pow_le_mono_r; lia). nia. }
    pose proof (norm_rounds near q 17 Hnear ltac:(lia)) as Hnorm.
    destruct (if near =? 10 ^ 17 then _ else _) as [m' q'] eqn:Em. destruct Hnorm as [_ Hnorm].
    apply (List.find_none _ _) with (x := (m', q')) in E.
    + apply Z.eqb_neq in E. apply E. rewrite Hnorm. by apply (near_rounds b num den q near).
    + unfold l. apply in_flat_map. exists 17%nat. split; [apply in_seq; lia|].
      left. unfold around. change (Z.of_nat 17) with 17.
      replace (floor_log10 num den - 17 + 1) with q by (unfold q; lia). exact Em.
Qed.
End format.

(** ** The text of a decimal *)

Definition frac_text (fr : string) : string := match fr with EmptyString => "" | _ => String "." fr end.

Definition exp_text (ex : option (bool * string)) : string :=
  match ex with None => "" | Some (s, ds) => String "e" (String (if s : bool then "-" else "+")%char ds) end.

Definition exp_value (ex : option (bool * string)) : option Z :=
  match ex with
  | None => Some 0
  | Some (s, ds) => (if s : bool then Z.opp else id) <$> digits ds
  end.

Definition sign_text (neg : bool) : string := if neg then "-" else "".

(** A number in its parts. *)
Definition nt_text (w fr : string) (ex : option (bool * string)) : string :=
  w +:+ (frac_text fr +:+ exp_text ex).

Record nt_ok (w fr : string) (ex : option (bool * string)) : Prop := {
  nt_whole : all_chars isDigit w = true;
  nt_ne : w <> "";
  nt_frac : all_chars isDigit fr = true;
  nt_exp : match ex with None => True | Some (_, ds) => all_chars isDigit ds = true /\ ds <> "" end
}.

Definition no_digit (s : string) : bool :=
  match s with EmptyString => true | String c _ => negb (isDigit c) end.

Lemma exp_text_stop ex : no_digit (exp_text ex) = true.
Proof. by destruct ex as [[s ds]|]. Qed.

Lemma frac_text_stop fr ex : no_digit (frac_text fr +:+ exp_text ex) = true.
Proof. destruct fr; [|done]. apply exp_text_stop. Qed.

Lemma span_frac fr ex : all_chars isDigit fr = true ->
  match frac_text fr +:+ exp_text ex with
  | String c r => if Ascii.eqb c "." then let '(ds, r) := span isDigit r in (String c ds, r)
                  else (EmptyString, frac_text fr +:+ exp_text ex)
  | EmptyString => (EmptyString, frac_text fr +:+ exp_text ex)
  end = (frac_text fr, exp_text ex).
Proof.
  intros Hf. destruct fr as [|c r]; [by destruct ex as [[[] ds]|]|].
  cbn [frac_text]. rewrite append_cons. cbn [Ascii.eqb Bool.eqb].
  by rewrite (span_all isDigit _ (exp_text ex) Hf (exp_text_stop ex)).
Qed.

Lemma digitAt_digits ds : all_chars isDigit ds = true -> ds <> "" -> digitAt 0 ds = true.
Proof. destruct ds as [|c r]; [done|]. cbn. by intros [-> _]%andb_true_iff. Qed.

Lemma scan_exp_text ex : match ex with None => True | Some (_, ds) => all_chars isDigit ds = true /\ ds <> "" end ->
  scan_exponent (exp_text ex) = (exp_text ex, "").
Proof.
  destruct ex as [[s ds]|]; [|done]. intros [Hd Hne]. cbn [exp_text]. unfold scan_exponent.
  change (Ascii.eqb "e" "e" || _) with true. cbn iota.
  assert (Ascii.eqb (if s then "-" else "+")%char "+" || Ascii.eqb (if s then "-" else "+")%char "-" = true) as ->
    by (by destruct s).
  rewrite (digitAt_digits ds Hd Hne). pose proof (span_all isDigit ds "" Hd eq_refl) as Hs.
  rewrite append_nil_r in Hs. by rewrite Hs.
Qed.

Lemma nt_first w fr ex : nt_ok w fr ex ->
  exists c r, nt_text w fr ex = String c r /\ isDigit c = true.
Proof.
  intros [Hw Hne _ _]. unfold nt_text. destruct w as [|c r]; [done|]. rewrite append_cons. cbn in Hw.
  apply andb_true_iff in Hw as [Hc _]. eauto.
Qed.

Lemma split_sign neg w fr ex : nt_ok w fr ex ->
  match sign_text neg +:+ nt_text w fr ex with
  | String c r => if Ascii.eqb c "-" then (true, r) else (false, sign_text neg +:+ nt_text w fr ex)
  | EmptyString => (false, sign_text neg +:+ nt_text w fr ex)
  end = (neg, nt_text w fr ex).
Proof.
  intros H. destruct neg; [done|]. cbn [sign_text]. rewrite append_nil_l.
  destruct (nt_first w fr ex H) as (c & r & -> & Hc). by destruct (digit_facts c Hc) as (_ & _ & _ & -> & _).
Qed.

Lemma split_sign_text neg w fr ex : nt_ok w fr ex ->
  match sign_text neg +:+ nt_text w fr ex with
  | String c r => if Ascii.eqb c "-" then (String c EmptyString, r)
                  else (EmptyString, sign_text neg +:+ nt_text w fr ex)
  | EmptyString => (EmptyString, sign_text neg +:+ nt_text w fr ex)
  end = (sign_text neg, nt_text w fr ex).
Proof.
  intros H. destruct neg; [done|]. cbn [sign_text]. rewrite append_nil_l.
  destruct (nt_first w fr ex H) as (c & r & -> & Hc). by destruct (digit_facts c Hc) as (_ & _ & _ & -> & _).
Qed.

Lemma scan_nt neg w fr ex : nt_ok w fr ex ->
  exists k, scan_number (sign_text neg +:+ nt_text w fr ex) = (k, sign_text neg +:+ nt_text w fr ex, "") /\
    (k = Tk.Int \/ k = Tk.Float).
Proof.
  intros H. unfold scan_number. rewrite (split_sign_text neg w fr ex H). destruct H as [Hw _ Hfr Hex].
  unfold nt_text at 1. rewrite (span_all isDigit w _ Hw (frac_text_stop fr ex)).
  rewrite (span_frac fr ex Hfr), (scan_exp_text ex Hex).
  eexists. split; [reflexivity|]. destruct (_ || _); auto.
Qed.

Lemma numeral_nt neg w fr ex : nt_ok w fr ex ->
  exists k, numeral (sign_text neg +:+ nt_text w fr ex) = Some k /\ (k = Tk.Int \/ k = Tk.Float).
Proof.
  intros H. destruct (scan_nt neg w fr ex H) as (k & Hs & Hk). exists k. split; [|done].
  destruct (nt_first w fr ex H) as (c & r & Hnt & Hc). rewrite Hnt in *.
  destruct (digit_facts c Hc) as (H1 & H2 & H3 & H4 & _). unfold numeral.
  destruct neg; cbn [sign_text] in *; rewrite ?append_cons, ?append_nil_l in *.
  - assert (number_start (String "-" (String c r)) = true) as ->.
    { unfold number_start, digitAt, charAt. cbn [String.get]. rewrite Hc. by destruct (isDigit "-"). }
    cbn [negb andb]. change (isWs "-") with false. rewrite Hs, String.eqb_refl. done.
  - assert (number_start (String c r) = true) as ->.
    { unfold number_start, digitAt at 1. cbn [String.get]. by rewrite Hc. }
    rewrite H1, H2, H3. cbn [negb andb]. rewrite Hs, String.eqb_refl. done.
Qed.

Lemma decimal_nt neg w fr ex M E : nt_ok w fr ex ->
  digits (w +:+ fr) = Some M -> exp_value ex = Some E ->
  decimal (sign_text neg +:+ nt_text w fr ex) = Some (neg, M, E - Z.of_nat (String.length fr)).
Proof.
  intros H HM HE. unfold decimal. rewrite (split_sign neg w fr ex H). destruct H as [Hw _ Hfr Hex].
  unfold nt_text. rewrite (span_all isDigit w _ Hw (frac_text_stop fr ex)).
  set (x := match _ +:+ _ with String c r => _ | EmptyString => _ end).
  assert (x = (fr, exp_text ex)) as ->.
  { subst x. destruct fr as [|c r]; [by destruct ex as [[[] ds]|]|].
    cbn [frac_text]. rewrite append_cons. cbn [Ascii.eqb Bool.eqb].
    by rewrite (span_all isDigit _ (exp_text ex) Hfr (exp_text_stop ex)). }
  rewrite HM. set (e := match exp_text ex with String c r => _ | EmptyString => _ end).
  assert (e = exp_value ex) as ->; [|by rewrite HE].
  subst e. destruct ex as [[s ds]|]; [|done]. cbn [exp_text exp_value].
  change (Ascii.eqb "e" "e" || _) with true. cbn iota. destruct s; [done|].
  cbn [Ascii.eqb Bool.eqb]. by destruct (digits ds).
Qed.

Lemma nt_not_word neg w fr ex v : nt_ok w fr ex ->
  match v with String c _ => negb (isDigit c) && negb (Ascii.eqb c "-") | EmptyString => false end = true ->
  ((sign_text neg +:+ nt_text w fr ex) =? v)%string = false.
Proof.
  intros H Hv. apply String.eqb_neq. intros E. destruct (nt_first w fr ex H) as (c & r & Hnt & Hc).
  rewrite Hnt in E. destruct v as [|d v]; [done|]. apply andb_true_iff in Hv as [Hv1 Hv2].
  destruct neg; cbn [sign_text] in E; rewrite ?append_cons, ?append_nil_l in E; injection E as <-; [done|].
  by rewrite Hc in Hv1.
Qed.

(** ** Digits *)

Lemma length_pretty_pos m : 0 < m -> (0 < String.length (pretty m))%nat.
Proof.
  intros Hm. rewrite pretty_Z_text. destruct (Z.ltb_spec m 0); [lia|]. rewrite append_nil_l.
  destruct (pretty_digits (Z.abs_N m)) as (_ & _ & Hne). destruct (pretty (Z.abs_N m)); cbn; [done|lia].
Qed.

Lemma pretty_Z_digits m : 0 <= m ->
  digits (pretty m) = Some m /\ all_chars isDigit (pretty m) = true /\ (pretty m : string) <> "".
Proof.
  intros Hm. rewrite pretty_Z_text. destruct (Z.ltb_spec m 0); [lia|]. rewrite append_nil_l.
  destruct (pretty_digits (Z.abs_N m)) as (H1 & H2 & H3). split_and!; [|done..]. rewrite H1. f_equal. lia.
Qed.

Lemma take_drop_str n s : take_str n s +:+ drop_str n s = s.
Proof. revert s. induction n as [|n IH]; intros [|c s]; try done. cbn [take_str drop_str]. by rewrite append_cons, IH. Qed.

Lemma length_drop_str n s : String.length (drop_str n s) = (String.length s - n)%nat.
Proof. revert s. induction n as [|n IH]; intros [|c s]; try done. cbn. apply IH. Qed.

Lemma take_str_ne n s : (0 < n)%nat -> s <> "" -> take_str n s <> "".
Proof. destruct n as [|n], s as [|c s]; try done; lia. Qed.

Lemma all_take_drop p n s : all_chars p s = true ->
  all_chars p (take_str n s) = true /\ all_chars p (drop_str n s) = true.
Proof. intros H. rewrite <- (take_drop_str n s), all_chars_app in H. by apply andb_true_iff in H. Qed.

Lemma zero_str_digits n s : digits_from 0 (zero_str n +:+ s) = digits_from 0 s /\
  all_chars isDigit (zero_str n) = true /\ String.length (zero_str n) = n.
Proof.
  induction n as [|n (H1 & H2 & H3)]; [done|]. cbn [zero_str]. rewrite append_cons.
  split_and!; [exact H1|exact H2|cbn; by rewrite H3].
Qed.

Lemma digits_ne s : s <> "" -> digits s = digits_from 0 s.
Proof. by destruct s. Qed.

(** ** The text of a finite value *)

Section text.
Context (f : Fmt) {Hf : Format f}.

(** A text that says [b]. *)
Definition says (b : Z) (t : string) : Prop := exists w fr ex M E,
  t = nt_text w fr ex /\ nt_ok w fr ex /\ digits (w +:+ fr) = Some M /\ exp_value ex = Some E /\ 0 < M /\
  let e := E - Z.of_nat (String.length fr) in round_bits f (dec_num M e) (dec_den e) = b.

(** A decimal whose exponent is not negative rounds to a whole number only. *)
Lemma whole_value b N : 0 < b < f_inf f -> 0 < N -> round_bits f N 1 = b ->
  let '(num, den) := f_frac f b in num = num / den * den.
Proof.
  intros Hb HN Hr. rewrite f_frac_eq. destruct (f_man_exp f b Hb) as (Heq & Hm & He & Hc).
  pose proof (hidden_bounds f) as [Hh1 Hh2]. pose proof (fm_prec (f := f)). pose proof (fm_emin (f := f)).
  destruct (Z.le_gt_cases 0 (f_exp f b)) as [Hpos|Hneg].
  { rewrite (Z.max_l 0 (- f_exp f b)) by lia. change (2 ^ 0) with 1. rewrite Z.div_1_r. lia. }
  set (fl := floor_log2 N 1). set (e := Z.max (f_emin f) (fl - (f_prec f - 1))).
  rewrite (round_bits_scaled f N 1 e) in Hr by (done || lia). rewrite Z.mul_1_l in Hr.
  pose proof (P_pos f e ltac:(lia)) as HP.
  assert (e < 0) as He0.
  { apply Z.nle_gt. intros He0. assert (hidden_le : f_hidden f * 2 ^ (e - f_emin f) <= N * 2 ^ (- f_emin f)).
    { assert (e + (f_prec f - 1) <= fl) as Hfl by lia. unfold fl in Hfl.
      rewrite floor_log2_iff, (le2_scaled f), (P_hidden f) in Hfl by lia. lia. }
    assert (f_hidden f <= div_even (N * 2 ^ (- f_emin f)) (2 ^ (e - f_emin f))) as Hd.
    { pose proof (div_even_spec (N * 2 ^ (- f_emin f)) (2 ^ (e - f_emin f)) HP). nia. }
    nia. }
  assert (2 ^ (- f_emin f) = 2 ^ (- e) * 2 ^ (e - f_emin f)) as HK.
  { rewrite <- Z.pow_add_r by lia. f_equal. lia. }
  rewrite HK, Z.mul_assoc, (div_even_near _ _ (N * 2 ^ (- e))) in Hr by lia.
  assert (N * 2 ^ (- e) < 2 * f_hidden f /\ (e = f_emin f \/ f_hidden f <= N * 2 ^ (- e))) as [Hup Hlo].
  { split.
    - assert (~ e + 1 + (f_prec f - 1) <= fl) as Hfl by lia. unfold fl in Hfl.
      rewrite floor_log2_iff, (le2_scaled f), (P_hidden f), (P_succ f), HK in Hfl by lia. nia.
    - destruct (decide (e = f_emin f)) as [|Hne]; [by left|right].
      assert (e + (f_prec f - 1) <= fl) as Hfl by lia. unfold fl in Hfl.
      rewrite floor_log2_iff, (le2_scaled f), (P_hidden f), HK in Hfl by lia. nia. }
  pose proof (pow2_pos (- e) ltac:(lia)) as Hp2.
  destruct (f_man_exp_unique f e (N * 2 ^ (- e)) ltac:(lia) ltac:(nia) Hlo) as [H1 H2].
  rewrite Hr in H1, H2. rewrite H1, H2, (Z.max_l 0 e), (Z.max_r 0 (- e)) by lia.
  change (2 ^ 0) with 1. rewrite Z.mul_1_r, Z.div_mul by lia. done.
Qed.

Lemma says_whole b N : 0 < b < f_inf f -> 0 < N -> round_bits f N 1 = b ->
  let '(num, den) := f_frac f b in says b (pretty (num / den)).
Proof.
  intros Hb HN Hr. pose proof (whole_value b N Hb HN Hr) as Hw.
  destruct (f_frac f b) as [num den] eqn:Hfr in Hw |- *. destruct (f_frac_scaled f b num den Hb Hfr) as (Hn & Hd & Hv).
  assert (0 < num / den) as Hq by nia. destruct (pretty_Z_digits (num / den) ltac:(lia)) as (H1 & H2 & H3).
  exists (pretty (num / den)), "", None, (num / den), 0. unfold nt_text. rewrite !append_nil_r. split_and!; try done.
  cbn zeta. change (dec_num ?x _) with (x * 1). change (dec_den _) with 1. rewrite Z.mul_1_r.
  apply (round_bits_near f); [done..|]. set (K := 2 ^ (- f_emin f)) in *. set (P := 2 ^ (f_exp f b - f_emin f)) in *.
  assert (num / den * K = f_man f b * P) as ->.
  { apply (Z.mul_reg_r _ _ den); [lia|]. rewrite <- Hv.
    replace (num / den * K * den) with (num / den * den * K) by lia. by rewrite <- Hw. }
  rewrite Z.mul_1_l, Z.sub_diag. destruct (f_man_exp f b Hb) as (_ & Hm & He & _).
  assert (0 < P) by (apply P_pos; lia). cbn [Z.abs Z.mul]. nia.
Qed.

Lemma exponent_text_eq e : exists ds,
  "e" +:+ exponent_text e = exp_text (Some ((e <? 0), ds)) /\ all_chars isDigit ds = true /\ ds <> "" /\
  exp_value (Some (e <? 0, ds)) = Some e.
Proof.
  set (ds := (if Z.abs e <? 10 then "0" else "") +:+ (pretty (Z.abs e) : string)).
  destruct (pretty_Z_digits (Z.abs e) ltac:(lia)) as (H1 & H2 & H3).
  assert (all_chars isDigit ds = true /\ ds <> "" /\ digits ds = Some (Z.abs e)) as (Ha & Hne & Hd).
  { subst ds. destruct (_ <? 10); [|by rewrite append_nil_l]. rewrite append_cons, append_nil_l. split_and!; [by cbn|done|].
    rewrite digits_ne in * by done. done. }
  exists ds. split_and!; [|done|done|].
  - unfold exponent_text, exp_text. fold ds. by destruct (e <? 0).
  - cbn [exp_value]. rewrite Hd. destruct (Z.ltb_spec e 0); cbn; f_equal; unfold id; lia.
Qed.

Lemma says_pos b : 0 < b < f_inf f -> says b (to_chars_pos f b).
Proof.
  intros Hb. destruct (shortest_rounds f b Hb) as (m & q & Hs & Hm & Hr).
  unfold to_chars_pos. rewrite Hs. cbv zeta. destruct (pretty_Z_digits m ltac:(lia)) as (Hv & Hd & Hne).
  pose proof (length_pretty_pos m Hm) as Hlen. set (ds := pretty m : string) in *.
  set (len := Z.of_nat (String.length ds)) in *. set (e := q + len - 1).
  destruct (_ && _).
  - destruct (Z.leb_spec 0 q) as [Hq|Hq]; [|destruct (Z.leb_spec 0 e) as [He|He]].
    + assert (round_bits f (dec_num m q) 1 = b) as Hr'.
      { unfold dec_den in Hr. by rewrite Z.max_l in Hr by lia. }
      pose proof (says_whole b _ Hb (dec_num_pos m q Hm) Hr') as H. by destruct (f_frac f b).
    + set (n := Z.to_nat (e + 1)). destruct (all_take_drop isDigit n ds Hd) as [Ht Hdr].
      pose proof (length_drop_str n ds) as Hld. assert (drop_str n ds <> "") as Hde.
      { intros E. rewrite E in Hld. cbn in Hld. lia. }
      exists (take_str n ds), (drop_str n ds), None, m, 0. rewrite take_drop_str, Hld. split_and!; try done.
      * unfold nt_text, exp_text. rewrite append_nil_r. by destruct (drop_str n ds).
      * split; try done. apply take_str_ne; [lia|done].
      * cbn zeta. by replace (0 - Z.of_nat (String.length ds - n)) with q by lia.
    + set (n := Z.to_nat (- e - 1)). destruct (zero_str_digits n ds) as (H1 & H2 & H3).
      assert (zero_str n +:+ ds <> "") as Hze by (by destruct n).
      exists "0", (zero_str n +:+ ds), None, m, 0. rewrite length_append, H3. split_and!; try done.
      * unfold nt_text, exp_text. rewrite append_nil_r. cbn [frac_text]. by destruct (zero_str n +:+ ds).
      * split; try done. by rewrite all_chars_app, H2.
      * rewrite digits_ne in * by done. rewrite append_cons, append_nil_l. change (digits_from 0 (zero_str n +:+ ds) = Some m).
        by rewrite H1.
      * cbn zeta. by replace (0 - Z.of_nat (n + String.length ds)) with q by lia.
  - destruct (all_take_drop isDigit 1 ds Hd) as [Ht Hdr]. pose proof (length_drop_str 1 ds) as Hld.
    destruct (exponent_text_eq e) as (es & Hes & Hed & Hen & Hev).
    exists (take_str 1 ds), (drop_str 1 ds), (Some (e <? 0, es)), m, e. rewrite take_drop_str, Hld. split_and!; try done.
    + unfold nt_text. rewrite <- Hes. f_equal. destruct (Z.eqb_spec len 1) as [H1|H1].
      * assert (drop_str 1 ds = "") as -> by (destruct (drop_str 1 ds); [done|cbn in Hld; lia]). done.
      * destruct (drop_str 1 ds) eqn:E; [cbn in Hld; lia|]. by rewrite append_assoc.
    + split; try done. apply take_str_ne; [lia|done].
    + cbn zeta. by replace (e - Z.of_nat (String.length ds - 1)) with q by lia.
Qed.

(** Reading the text of a finite value gives the value, its sign included. *)
Theorem float_reads_back neg b : 0 <= b < f_inf f ->
  exists w fr ex, nt_ok w fr ex /\
    sign_text neg +:+ (if b =? 0 then "0" else to_chars_pos f b) = sign_text neg +:+ nt_text w fr ex /\
    from_chars_float f (sign_text neg +:+ nt_text w fr ex) = Parsed (with_sign f neg b).
Proof.
  intros Hb. destruct (Z.eqb_spec b 0) as [->|Hne].
  { exists "0", "", None. by destruct neg. }
  destruct (says_pos b ltac:(lia)) as (w & fr & ex & M & E & -> & Hok & HM & HE & Hpos & Hr).
  exists w, fr, ex. split_and!; [done..|]. unfold from_chars_float.
  rewrite !(nt_not_word neg w fr ex _ Hok) by done. rewrite (decimal_nt neg w fr ex M E Hok HM HE).
  cbv zeta in Hr. rewrite Hr. rewrite (proj2 (Z.eqb_neq M 0)), (proj2 (Z.eqb_neq b 0)) by lia.
  by rewrite (proj2 (Z.leb_gt _ _)) by lia.
Qed.
End text.
