(* ===== verification/RbcTextParse.v ===== *)
(** * Parsing printed text

    What the parser does on the text of one operand, constant, instruction or
    handler, as triples over the text that is left. Offsets do not matter to a
    parse that succeeds: [erase] forgets them. *)

From stdpp Require Import pretty.
From Stdlib Require Import Ascii String.
From S2P Require Import Prelude Machine RbcOpcode Rbc RbcLex CharConv RbcParse RbcPrint.
From S2P Require Import RbcTextTotal RbcTextLex FloatText.

Local Open Scope N_scope.
Local Open Scope rbctext_scope.

(** ** States without offsets *)

Definition e_label (d : LabelDef) : LabelDef := mkLabelDef (ld_name d) 0 (ld_pc d) (ld_pastEnd d).
Definition e_pending (d : Pending) : Pending := mkPending (pd_name d) 0.
Definition e_branch (f : BranchFix) : BranchFix := mkBranchFix (bf_insn f) 0 (bf_name f).
Definition e_switch (f : SwitchFix) : SwitchFix :=
  mkSwitchFix (sf_constIdx f) (sf_pos f) 0 (sf_name f).
Definition e_insnCp (f : InsnCpFix) : InsnCpFix := mkInsnCpFix (cf_insn f) 0 (cf_cid f).
Definition e_catchLabel (f : CatchLabelFix) : CatchLabelFix :=
  mkCatchLabelFix (lf_handler f) (lf_which f) 0 (lf_name f).
Definition e_catchType (f : CatchTypeFix) : CatchTypeFix :=
  mkCatchTypeFix (tf_handler f) 0 (tf_cid f).

Definition erase (st : St) : St :=
  mkSt [] (ps_m st) (map e_label (labels_ st)) (map e_pending (pending_ st))
    (map e_branch (branchFixes_ st)) (map e_switch (switchFixes_ st))
    (map e_insnCp (insnCpFixes_ st)) (map e_catchLabel (catchLabelFixes_ st))
    (map e_catchType (catchTypeFixes_ st)) (constIds_ st).

Lemma findLabel_erase name st : e_label <$> findLabel name st = findLabel name (erase st).
Proof.
  unfold findLabel. cbn [erase labels_]. induction (labels_ st) as [|d l IH]; [done|].
  cbn. by destruct (ld_name d =? name)%string.
Qed.

Lemma labelDefined_erase name st : labelDefined name st = labelDefined name (erase st).
Proof.
  unfold labelDefined. rewrite <- findLabel_erase. destruct (findLabel name st); [done|].
  cbn [fmap option_fmap option_map erase pending_].
  induction (pending_ st) as [|d l IH]; [done|]. cbn [map existsb e_pending pd_name]. by rewrite IH.
Qed.

(** ** Triples *)

(** Started on the text [s] in the state [σ] with at most [b] tokens left, [x]
    succeeds with a result in [Q], the text [s'] and at most [c] tokens left, and the
    state [σ']. *)
Definition within (b c : nat) {A} (x : P A) (ls : bool) (s : string) (σ : St)
    (Q : A -> Prop) (ls' : bool) (s' : string) (σ' : St) : Prop :=
  forall st, map key (ps_toks st) = lexk ls s -> erase st = σ ->
  (List.length (ps_toks st) <= b)%nat ->
  exists a st', x st = Ok a st' /\ Q a /\ map key (ps_toks st') = lexk ls' s' /\ erase st' = σ' /\
    (List.length (ps_toks st') <= c)%nat.

(** [x] consumes [d] tokens at least. *)
Definition triple (d : nat) {A} (x : P A) (ls : bool) (s : string) (σ : St)
    (Q : A -> Prop) (ls' : bool) (s' : string) (σ' : St) : Prop :=
  forall b, within (d + b) b x ls s σ Q ls' s' σ'.

Abbreviation parses := (triple 0).
Abbreviation eats := (triple 1).

Lemma within_ret {A} b (a : A) ls s σ (Q : A -> Prop) : Q a -> within b b (ret a) ls s σ Q ls s σ.
Proof. intros HQ st Ht Hs Hb. by exists a, st. Qed.

Lemma within_bind {A B} b c d (x : P A) (k : A -> P B) ls s σ Q ls1 s1 σ1 R ls2 s2 σ2 :
  within b c x ls s σ Q ls1 s1 σ1 -> (forall a, Q a -> within c d (k a) ls1 s1 σ1 R ls2 s2 σ2) ->
  within b d (bind x k) ls s σ R ls2 s2 σ2.
Proof.
  intros Hx Hk st Ht Hs Hb. destruct (Hx st Ht Hs Hb) as (a & st1 & Hr & HQ & Ht1 & Hs1 & Hl1).
  destruct (Hk a HQ st1 Ht1 Hs1 Hl1) as (r & st2 & Hr2 & H). exists r, st2.
  unfold bind. by rewrite Hr.
Qed.

(** Texts with the same tokens are the same to the parser. *)
Lemma within_pre {A} b c (x : P A) ls s ls1 s1 σ Q ls2 s2 σ2 :
  lexk ls s = lexk ls1 s1 -> within b c x ls1 s1 σ Q ls2 s2 σ2 -> within b c x ls s σ Q ls2 s2 σ2.
Proof. intros He Hx st Ht Hs. apply Hx; [by rewrite Ht|done]. Qed.

Lemma within_post {A} b c (x : P A) ls s ls1 s1 σ (Q Q' : A -> Prop) ls2 s2 σ2 :
  within b c x ls s σ Q ls1 s1 σ2 -> lexk ls1 s1 = lexk ls2 s2 -> (forall a, Q a -> Q' a) ->
  within b c x ls s σ Q' ls2 s2 σ2.
Proof.
  intros Hx He HQ st Ht Hs Hb. destruct (Hx st Ht Hs Hb) as (a & st1 & Hr & Ha & Ht1 & Hs1 & Hl).
  exists a, st1. split_and!; [done|auto|by rewrite Ht1|done..].
Qed.

Lemma within_modify b f ls s σ σ' :
  (forall st, ps_toks (f st) = ps_toks st) -> (forall st, erase st = σ -> erase (f st) = σ') ->
  within b b (modify f) ls s σ (fun _ => True) ls s σ'.
Proof.
  intros Hf He st Ht Hs Hb. exists tt, (f st). rewrite Hf. split_and!; [done..|by auto|done].
Qed.

Lemma within_reads {A B} b c (f : St -> A) (k : A -> P B) v ls s σ R ls' s' σ' :
  (forall st, erase st = σ -> f st = v) -> within b c (k v) ls s σ R ls' s' σ' ->
  within b c (bind (reads f) k) ls s σ R ls' s' σ'.
Proof. intros Hf Hk st Ht Hs. unfold bind, reads. rewrite (Hf st Hs). by apply Hk. Qed.

(** A loop takes the number of tokens as its fuel. *)
Lemma within_fuel {B} b c (k : nat -> P B) ls s σ R ls' s' σ' :
  (forall n, (n <= b)%nat -> within n n (k n) ls s σ R ls' s' σ') -> (b <= c)%nat ->
  within b c (bind (reads (fun st => List.length (ps_toks st))) k) ls s σ R ls' s' σ'.
Proof.
  intros Hk Hc st Ht Hs Hb. unfold bind, reads.
  destruct (Hk _ Hb st Ht Hs (le_n _)) as (a & st1 & ? & ? & ? & ? & ?).
  exists a, st1. split_and!; [done..|lia].
Qed.

Lemma key_eq t k w ls : key t = (k, w, ls) -> tk_kind t = k /\ tk_text t = w /\ tk_lineStart t = ls.
Proof. unfold key. by intros [= -> -> ->]. Qed.

(** The current token, and the two after it. *)
Lemma within_peek {B} b c (k : Tok -> P B) kd w ls s σ R ls' s' σ' :
  lexeme kd w s ->
  (forall t, tk_kind t = kd -> tk_text t = w -> tk_lineStart t = ls ->
     within b c (k t) ls (w +:+ s) σ R ls' s' σ') ->
  within b c (bind (peek 0) k) ls (w +:+ s) σ R ls' s' σ'.
Proof.
  intros Hl Hk st Ht Hs. pose proof Ht as Ht'. rewrite (lexk_tok ls kd w s Hl) in Ht'.
  assert (exists t, nth_tok 0 (ps_toks st) = t /\ key t = (kd, w, ls)) as (t & Hn & H).
  { destruct (ps_toks st) as [|t l]; [done|]. exists t. split; [done|].
    unfold key. by injection Ht' as -> -> ->. }
  apply key_eq in H as (H1 & H2 & H3). unfold bind, peek, reads. rewrite Hn. by apply Hk.
Qed.

Lemma within_peek1 {B} b c (k : Tok -> P B) kd w ls s σ R ls' s' σ' :
  lexeme kd w s ->
  (forall t l, key t :: l = lexk false s -> within b c (k t) ls (w +:+ s) σ R ls' s' σ') ->
  within b c (bind (peek 1) k) ls (w +:+ s) σ R ls' s' σ'.
Proof.
  intros Hl Hk st Ht Hs. pose proof Ht as Ht'. rewrite (lexk_tok ls kd w s Hl) in Ht'.
  destruct (lexk_cons false s) as (k1 & l1 & Hk1). rewrite Hk1 in Ht'.
  assert (exists t, nth_tok 1 (ps_toks st) = t /\ key t = k1) as (t & Hn & H).
  { destruct (ps_toks st) as [|t [|t1 l]]; [done..|]. exists t1. split; [done|].
    by injection Ht' as _ _ _ H1 H2. }
  unfold bind, peek, reads. rewrite Hn. apply (Hk t l1); [by rewrite H, Hk1|done..].
Qed.

Lemma within_peek2 {B} b c (k : Tok -> P B) kd w kd' w' ls s σ R ls' s' σ' :
  lexeme kd w (w' +:+ s) -> lexeme kd' w' s ->
  (forall t l, key t :: l = lexk false s -> within b c (k t) ls (w +:+ (w' +:+ s)) σ R ls' s' σ') ->
  within b c (bind (peek 2) k) ls (w +:+ (w' +:+ s)) σ R ls' s' σ'.
Proof.
  intros Hl Hl' Hk st Ht Hs. pose proof Ht as Ht'.
  rewrite (lexk_tok ls kd w _ Hl), (lexk_tok false kd' w' s Hl') in Ht'.
  destruct (lexk_cons false s) as (k1 & l1 & Hk1). rewrite Hk1 in Ht'.
  assert (exists t, nth_tok 2 (ps_toks st) = t /\ key t = k1) as (t & Hn & H).
  { destruct (ps_toks st) as [|t [|t1 [|t2 l]]]; [done..|]. exists t2. split; [done|].
    by injection Ht' as _ _ _ _ _ _ H1 H2. }
  unfold bind, peek, reads. rewrite Hn. apply (Hk t l1); [by rewrite H, Hk1|done..].
Qed.

Lemma eats_advance kd w ls s σ :
  lexeme kd w s -> eats advance ls (w +:+ s) σ (fun _ => True) false s σ.
Proof.
  intros Hl b st Ht Hs Hb. rewrite (lexk_tok ls kd w s Hl) in Ht.
  exists tt, (set_toks (advance_toks (ps_toks st)) st). split; [done|]. cbn [set_toks ps_toks].
  destruct (lexk_cons false s) as (k1 & l1 & Hk1). rewrite Hk1 in *.
  destruct (ps_toks st) as [|t [|t1 l]]; [done..|]. cbn in *. injection Ht as _ _ _ H1 H2.
  split_and!; [done| |done|lia]. by rewrite <- H1, <- H2.
Qed.

(** The same rules for a parse that is not counted. *)
Lemma eats_parses {A} (x : P A) ls s σ Q ls' s' σ' :
  eats x ls s σ Q ls' s' σ' -> parses x ls s σ Q ls' s' σ'.
Proof. intros Hx b st Ht Hs Hb. destruct (Hx b st Ht Hs) as (a & st1 & ?); eauto with lia. Qed.

Lemma parses_advance kd w ls s σ :
  lexeme kd w s -> parses advance ls (w +:+ s) σ (fun _ => True) false s σ.
Proof. intros. by eapply eats_parses, eats_advance. Qed.

Lemma parses_ret {A} (a : A) ls s σ (Q : A -> Prop) : Q a -> parses (ret a) ls s σ Q ls s σ.
Proof. intros HQ b. by apply within_ret. Qed.

Lemma parses_bind {A B} (x : P A) (k : A -> P B) ls s σ Q ls1 s1 σ1 R ls2 s2 σ2 :
  parses x ls s σ Q ls1 s1 σ1 -> (forall a, Q a -> parses (k a) ls1 s1 σ1 R ls2 s2 σ2) ->
  parses (bind x k) ls s σ R ls2 s2 σ2.
Proof. intros Hx Hk b. eapply within_bind; [apply Hx|intros a Ha; by apply Hk]. Qed.

Lemma eats_bind {A B} (x : P A) (k : A -> P B) ls s σ Q ls1 s1 σ1 R ls2 s2 σ2 :
  eats x ls s σ Q ls1 s1 σ1 -> (forall a, Q a -> parses (k a) ls1 s1 σ1 R ls2 s2 σ2) ->
  eats (bind x k) ls s σ R ls2 s2 σ2.
Proof. intros Hx Hk b. eapply within_bind; [apply Hx|intros a Ha; by apply Hk]. Qed.

Lemma parses_eats {A B} (x : P A) (k : A -> P B) ls s σ Q ls1 s1 σ1 R ls2 s2 σ2 :
  parses x ls s σ Q ls1 s1 σ1 -> (forall a, Q a -> eats (k a) ls1 s1 σ1 R ls2 s2 σ2) ->
  eats (bind x k) ls s σ R ls2 s2 σ2.
Proof. intros Hx Hk b. eapply within_bind; [apply Hx|intros a Ha; by apply Hk]. Qed.

Lemma parses_pre {A} d (x : P A) ls s ls1 s1 σ Q ls2 s2 σ2 :
  lexk ls s = lexk ls1 s1 -> triple d x ls1 s1 σ Q ls2 s2 σ2 -> triple d x ls s σ Q ls2 s2 σ2.
Proof. intros He Hx b. by eapply within_pre. Qed.

Lemma parses_post {A} d (x : P A) ls s ls1 s1 σ (Q Q' : A -> Prop) ls2 s2 σ2 :
  triple d x ls s σ Q ls1 s1 σ2 -> lexk ls1 s1 = lexk ls2 s2 -> (forall a, Q a -> Q' a) ->
  triple d x ls s σ Q' ls2 s2 σ2.
Proof. intros Hx He HQ b. by eapply within_post. Qed.

Lemma parses_modify f ls s σ σ' :
  (forall st, ps_toks (f st) = ps_toks st) -> (forall st, erase st = σ -> erase (f st) = σ') ->
  parses (modify f) ls s σ (fun _ => True) ls s σ'.
Proof. intros Hf He b. by apply within_modify. Qed.

Lemma parses_reads {A B} d (f : St -> A) (k : A -> P B) v ls s σ R ls' s' σ' :
  (forall st, erase st = σ -> f st = v) -> triple d (k v) ls s σ R ls' s' σ' ->
  triple d (bind (reads f) k) ls s σ R ls' s' σ'.
Proof. intros Hf Hk b. by eapply within_reads. Qed.

Lemma parses_peek {B} d (k : Tok -> P B) kd w ls s σ R ls' s' σ' :
  lexeme kd w s ->
  (forall t, tk_kind t = kd -> tk_text t = w -> tk_lineStart t = ls ->
     triple d (k t) ls (w +:+ s) σ R ls' s' σ') ->
  triple d (bind (peek 0) k) ls (w +:+ s) σ R ls' s' σ'.
Proof. intros Hl Hk b. eapply within_peek; [done|]. intros t ???. by apply Hk. Qed.

Lemma parses_peek2 {B} d (k : Tok -> P B) kd w kd' w' ls s σ R ls' s' σ' :
  lexeme kd w (w' +:+ s) -> lexeme kd' w' s ->
  (forall t l, key t :: l = lexk false s -> triple d (k t) ls (w +:+ (w' +:+ s)) σ R ls' s' σ') ->
  triple d (bind (peek 2) k) ls (w +:+ (w' +:+ s)) σ R ls' s' σ'.
Proof. intros Hl Hl' Hk b. eapply within_peek2; [done..|]. intros t l H. by eapply Hk. Qed.

(** ** Operands *)

Lemma isWord_word t : tk_kind t = Tk.Word -> isWord t = true.
Proof. intros H. unfold isWord. by rewrite H. Qed.
Lemma isInt_int t : tk_kind t = Tk.Int -> isInt t = true.
Proof. intros H. unfold isInt. by rewrite H. Qed.

Lemma prefixed_name t c (n : N) :
  tk_kind t = Tk.Word -> tk_text t = String c (pretty n) -> fits64 n -> prefixed t c = Some n.
Proof. intros Hk Ht Hn. unfold prefixed. by rewrite isWord_word, Ht, parsePrefixed_pretty. Qed.

Lemma lexeme_name c (n : N) s :
  isWordByte c && negb (isDigit c) && negb (Ascii.eqb c "-") && negb (Ascii.eqb c ".") = true ->
  stop s = true -> lexeme Tk.Word (String c (pretty n)) s.
Proof. intros Hc Hs. apply lexeme_word; [by apply is_word_prefixed|done]. Qed.

(** A blank before a token is skipped. *)
Lemma parses_space {A} d (x : P A) ls s σ Q ls' s' σ' :
  triple d x ls s σ Q ls' s' σ' -> triple d x ls (" " +:+ s) σ Q ls' s' σ'.
Proof. intros. eapply parses_pre; [apply lexk_space|done]. Qed.

Lemma parseReg_print v ls s σ :
  fits16 v -> stop s = true ->
  parses parseReg ls (pr_r v +:+ s) σ (fun x => x = v) false s σ.
Proof.
  intros Hv Hs. change (pr_r v +:+ s) with (" " +:+ (String "r" (pretty v) +:+ s)).
  apply parses_space. unfold parseReg. eapply parses_peek; [by apply lexeme_name|].
  intros t Hk Ht _. unfold fits16 in Hv.
  rewrite (prefixed_name t "r" v Hk Ht) by (unfold fits64; lia).
  destruct (N.ltb_spec 65535 v); [lia|].
  eapply parses_bind; [eapply parses_advance; by apply lexeme_name|]. intros _ _. by apply parses_ret.
Qed.

Lemma parseSlot_print v ls s σ :
  fits32 v -> stop s = true ->
  parses parseSlot ls (pr_l v +:+ s) σ (fun x => x = v) false s σ.
Proof.
  intros Hv Hs. change (pr_l v +:+ s) with (" " +:+ (String "l" (pretty v) +:+ s)).
  apply parses_space. unfold parseSlot. eapply parses_peek; [by apply lexeme_name|].
  intros t Hk Ht _. unfold fits32 in Hv.
  rewrite (prefixed_name t "l" v Hk Ht) by (unfold fits64; lia).
  destruct (N.ltb_spec 4294967295 v); [lia|].
  eapply parses_bind; [eapply parses_advance; by apply lexeme_name|]. intros _ _. by apply parses_ret.
Qed.

(** A constant's name, without the blank before it. *)
Lemma parseCid_print v ls s σ :
  fits64 v -> stop s = true ->
  parses parseCid ls (String "c" (pretty v) +:+ s) σ (fun x => x = v) false s σ.
Proof.
  intros Hv Hs. unfold parseCid. eapply parses_peek; [by apply lexeme_name|].
  intros t Hk Ht _. rewrite (prefixed_name t "c" v Hk Ht Hv).
  eapply parses_bind; [eapply parses_advance; by apply lexeme_name|]. intros _ _. by apply parses_ret.
Qed.

Lemma parseLabelIdent_print v ls s σ :
  stop s = true ->
  parses parseLabelIdent ls (labelName v +:+ s) σ (fun x => x = labelName v) false s σ.
Proof.
  intros Hs. unfold parseLabelIdent, labelName. eapply parses_peek; [by apply lexeme_name|].
  intros t Hk Ht _. rewrite (isWord_word t Hk), Ht. fold (labelName v). rewrite labelName_ident.
  cbn [andb].
  eapply parses_bind; [eapply parses_advance; by apply lexeme_name|]. intros _ _. by apply parses_ret.
Qed.

Lemma from_chars_i32 (v : Z) : (-2147483648 <= v <= 4294967295)%Z -> from_chars_i64 (pretty v) = Parsed v.
Proof. intros H. apply from_chars_Z. unfold is_i64. lia. Qed.

(** An immediate, signed or unsigned, gives its 32 bits. *)
Lemma parseBareInt_print (v : Z) ls s σ :
  (-2147483648 <= v <= 4294967295)%Z -> stop s = true ->
  parses parseBareInt ls (" " +:+ ((pretty v : string) +:+ s)) σ
    (fun x => x = u32 (i64_to_u64 v)) false s σ.
Proof.
  intros Hv Hs. apply parses_space. unfold parseBareInt.
  eapply parses_peek; [by apply lexeme_Z|]. intros t Hk Ht _.
  rewrite (isInt_int t Hk). cbn [negb].
  eapply parses_bind; [eapply parses_advance; by apply lexeme_Z|]. intros _ _. cbv zeta.
  rewrite Ht, from_chars_i32 by done.
  destruct (Z.ltb_spec v (-2147483648)); [lia|]. destruct (Z.ltb_spec 4294967295 v); [lia|].
  by apply parses_ret.
Qed.

Lemma u32_i64 v : fits32 v -> u32 (i64_to_u64 (i32 (Z.of_N v))) = v /\ u32 (i64_to_u64 (Z.of_N v)) = v.
Proof.
  unfold fits32, u32, i64_to_u64, wrap. intros Hv.
  change (2 ^ (32 - 1))%Z with 2147483648%Z. change (2 ^ 32)%Z with 4294967296%Z.
  split.
  - destruct (decide (v < 2147483648)).
    + rewrite (Z.mod_small (Z.of_N v + 2147483648)) by lia.
      replace (Z.of_N v + 2147483648 - 2147483648)%Z with (Z.of_N v) by lia.
      rewrite (Z.mod_small (Z.of_N v)) by lia. rewrite N2Z.id. apply N.mod_small. lia.
    + replace (Z.of_N v + 2147483648)%Z with (Z.of_N v - 2147483648 + 1 * 4294967296)%Z by lia.
      rewrite Z.mod_add by lia. rewrite (Z.mod_small (Z.of_N v - 2147483648)) by lia.
      replace ((Z.of_N v - 2147483648 - 2147483648) mod 18446744073709551616)%Z
        with (Z.of_N v - 4294967296 + 18446744073709551616)%Z.
      2:{ rewrite <- (Z.mod_add _ 1) by lia. rewrite Z.mod_small; lia. }
      apply N2Z.inj. rewrite N2Z.inj_mod, Z2N.id by lia.
      replace (Z.of_N v - 4294967296 + 18446744073709551616)%Z
        with (Z.of_N v + 4294967295 * 4294967296)%Z by lia.
      change (Z.of_N 4294967296) with 4294967296%Z.
      rewrite Z.mod_add by lia. apply Z.mod_small. lia.
  - rewrite (Z.mod_small (Z.of_N v)) by lia. rewrite N2Z.id. apply N.mod_small. lia.
Qed.

(** ** Instructions *)

Lemma op_reg_print set v x ls s σ :
  fits16 v -> stop s = true ->
  parses (op_reg set x) ls (pr_r v +:+ s) σ (fun y => y = set v x) false s σ.
Proof.
  intros Hv Hs. unfold op_reg. eapply parses_bind; [by apply parseReg_print|]. intros a ->.
  by apply parses_ret.
Qed.

Lemma op_slot_print v x ls s σ :
  fits32 v -> stop s = true ->
  parses (op_slot x) ls (pr_l v +:+ s) σ (fun y => y = set_imm v x) false s σ.
Proof.
  intros Hv Hs. unfold op_slot. eapply parses_bind; [by apply parseSlot_print|]. intros a ->.
  by apply parses_ret.
Qed.

Lemma op_bareS_print v x ls s σ :
  fits32 v -> stop s = true ->
  parses (op_bare x) ls (pr_immS v +:+ s) σ (fun y => y = set_imm v x) false s σ.
Proof.
  intros Hv Hs. unfold op_bare, pr_immS, appendI. rewrite append_assoc.
  pose proof (wrap_range 32 (Z.of_N v)) as Hr. unfold in_signed in Hr. change (2 ^ (32 - 1))%Z with 2147483648%Z in Hr.
  eapply parses_bind; [apply parseBareInt_print; [lia|done]|]. intros a ->.
  apply parses_ret. by rewrite (proj1 (u32_i64 v Hv)).
Qed.

Lemma op_bareU_print v x ls s σ :
  fits32 v -> stop s = true ->
  parses (op_bare x) ls (pr_immU v +:+ s) σ (fun y => y = set_imm v x) false s σ.
Proof.
  intros Hv Hs. unfold op_bare, pr_immU, appendU. rewrite pretty_N_as_Z, append_assoc.
  unfold fits32 in Hv.
  eapply parses_bind; [apply parseBareInt_print; [lia|done]|]. intros a ->.
  apply parses_ret. by rewrite (proj2 (u32_i64 v Hv)).
Qed.

Lemma op_bare16_print v x ls s σ :
  fits16 v -> stop s = true ->
  parses (op_bare16 x) ls (pr_immU v +:+ s) σ (fun y => y = set_b v x) false s σ.
Proof.
  intros Hv Hs. unfold fits16 in Hv. unfold op_bare16, pr_immU, appendU.
  rewrite pretty_N_as_Z, append_assoc. apply parses_space.
  eapply parses_peek; [by apply lexeme_Z|]. intros t _ _ _.
  eapply parses_bind.
  { eapply parses_pre; [symmetry; apply lexk_space|]. apply parseBareInt_print; [lia|done]. }
  intros a ->. rewrite (proj2 (u32_i64 v ltac:(unfold fits32; lia))).
  destruct (N.ltb_spec 65535 v); [lia|]. by apply parses_ret.
Qed.

Lemma op_cid_print idx v x ls s σ :
  fits64 v -> stop s = true ->
  parses (op_cid idx x) ls (pr_c v +:+ s) σ (fun y => y = x) false s
    (push_insnCp (mkInsnCpFix idx 0 v) σ).
Proof.
  intros Hv Hs. change (pr_c v +:+ s) with (" " +:+ (String "c" (pretty v) +:+ s)).
  apply parses_space. unfold op_cid. eapply parses_peek; [by apply lexeme_name|]. intros t _ _ _.
  eapply parses_bind; [by apply parseCid_print|]. intros a ->.
  eapply parses_bind; [|intros _ _; by apply parses_ret].
  apply parses_modify; [done|]. intros st <-. unfold erase. cbn. by rewrite map_app.
Qed.

Lemma op_label_print idx v x ls s σ :
  stop s = true ->
  parses (op_label idx x) ls (pr_lab v +:+ s) σ (fun y => y = x) false s
    (push_branch (mkBranchFix idx 0 (labelName v)) σ).
Proof.
  intros Hs. change (pr_lab v +:+ s) with (" " +:+ (labelName v +:+ s)).
  apply parses_space. unfold op_label. eapply parses_peek; [by apply lexeme_name|]. intros t _ _ _.
  eapply parses_bind; [by apply parseLabelIdent_print|]. intros a ->.
  eapply parses_bind; [|intros _ _; by apply parses_ret].
  apply parses_modify; [done|]. intros st <-. unfold erase. cbn. by rewrite map_app.
Qed.

(** What an operand in [imm] is resolved from. *)
Definition uses_cp (sig : Sig) : bool :=
  match sig with
  | Sig.RegCp | Sig.RegRegCp | Sig.RegRegRegCp | Sig.RegCpBranch | Sig.Call | Sig.GuardCp => true
  | _ => false
  end.

Definition uses_label (sig : Sig) : bool :=
  match sig with Sig.Branch | Sig.RegBranch | Sig.RegRegBranch => true | _ => false end.

(** The fields that the text of an instruction shows, before resolution. *)
Definition shown (sig : Sig) (x : Ins) : Ins :=
  let o := i_op x in
  match sig with
  | Sig.None | Sig.Branch => mkIns o 0 0 0 0
  | Sig.Reg | Sig.RegBranch | Sig.RegCpBranch => mkIns o 0 (i_a x) 0 0
  | Sig.RegImm | Sig.RegSlot => mkIns o (i_dst x) 0 0 (i_imm x)
  | Sig.RegCp => mkIns o (i_dst x) 0 0 0
  | Sig.SlotReg | Sig.Guard => mkIns o 0 (i_a x) 0 (i_imm x)
  | Sig.RegReg | Sig.RegRegCp => mkIns o (i_dst x) (i_a x) 0 0
  | Sig.RegRegReg | Sig.RegRegRegCp | Sig.Call => mkIns o (i_dst x) (i_a x) (i_b x) 0
  | Sig.RegRegImm => mkIns o (i_dst x) (i_a x) 0 (i_imm x)
  | Sig.RegRegBranch | Sig.GuardCp => mkIns o 0 (i_a x) (i_b x) 0
  | Sig.CallQuick => mkIns o (i_dst x) (i_a x) (i_b x) (i_imm x)
  | Sig.Trap => mkIns o 0 0 0 (i_imm x)
  end.

Definition ins_fixes (idx : N) (sig : Sig) (x : Ins) (σ : St) : St :=
  if uses_cp sig then push_insnCp (mkInsnCpFix idx 0 (i_imm x)) σ
  else if uses_label sig then push_branch (mkBranchFix idx 0 (labelName (i_imm x))) σ
  else σ.

Lemma parseOperands_print op idx sig x ls s σ :
  i_op x = Op.code op ->
  fits16 (i_dst x) -> fits16 (i_a x) -> fits16 (i_b x) -> fits32 (i_imm x) -> stop s = true ->
  parses (parseOperands idx sig (ins op 0 0 0 0)) ls (printOperands sig x +:+ s) σ
    (fun y => y = shown sig x) (if decide (sig = Sig.None) then ls else false) s
    (ins_fixes idx sig x σ).
Proof.
  intros Hop Hd Ha Hb Hi Hs.
  assert (fits64 (i_imm x)) as Hi64 by (unfold fits64, fits32 in *; lia).
  pose proof (u16_small _ Hd) as Hd'. pose proof (u16_small _ Ha) as Ha'.
  pose proof (u16_small _ Hb) as Hb'.
  destruct sig; cbn [parseOperands printOperands decide_rel]; rewrite ?append_assoc;
    (let T := first [ by apply op_reg_print | by apply op_slot_print | by apply op_bareS_print
           | by apply op_bareU_print | by apply op_bare16_print | by apply op_cid_print
           | by apply op_label_print ] in
    first
    [ eapply parses_bind; [T|]; intros ? ->; eapply parses_bind; [T|]; intros ? ->;
      eapply parses_bind; [T|]; intros ? ->; eapply parses_post; [T|done|]
    | eapply parses_bind; [T|]; intros ? ->; eapply parses_bind; [T|]; intros ? ->;
      eapply parses_post; [T|done|]
    | eapply parses_bind; [T|]; intros ? ->; eapply parses_post; [T|done|]
    | eapply parses_post; [T|done|]
    | apply parses_ret ]).
  all: try intros ? ->; unfold set_dst, set_a, set_b, set_imm, shown, ins;
    cbn [i_op i_dst i_a i_b i_imm]; congruence.
Qed.

Lemma opName_facts op :
  lookupOp (opName op) = Some op /\ is_word (opName op) = true /\
  starts_with "." (opName op) = false.
Proof.
  pose proof (all_ops (fun op => bool_decide (lookupOp (opName op) = Some op) &&
    is_word (opName op) && negb (starts_with "." (opName op))) ltac:(by vm_compute) op) as H.
  cbv beta in H. rewrite !andb_true_iff, negb_true_iff, bool_decide_eq_true in H. tauto.
Qed.

(** The state after an instruction: pending labels bound, its fixups, the instruction. *)
Definition ins_state (x : Ins) (sig : Sig) (σ : St) : St :=
  let idx := u32 (vlen (m_code (ps_m σ))) in
  let σ := ins_fixes idx sig x (bind_pending idx false σ) in
  set_m (add_ins (shown sig x) (ps_m σ)) σ.

Lemma erase_bind_pending pc pastEnd st :
  erase (bind_pending pc pastEnd st) = bind_pending pc pastEnd (erase st).
Proof. unfold erase, bind_pending. cbn. by rewrite map_app, !map_map. Qed.

Lemma erase_set_m m st : erase (set_m m st) = set_m m (erase st).
Proof. done. Qed.

Lemma parseInsn_print op x s σ :
  of_code (i_op x) = Some op ->
  fits16 (i_dst x) -> fits16 (i_a x) -> fits16 (i_b x) -> fits32 (i_imm x) ->
  absNat (ps_m σ) = false ->
  eats parseInsn true (printInsn x +:+ (eol +:+ s)) σ (fun _ => True) true s
    (ins_state x (oi_sig (info op)) σ).
Proof.
  intros Hop Hd Ha Hb Hi Habs. unfold printInsn. rewrite Hop, append_assoc.
  destruct (opName_facts op) as (Hl & Hw & _). set (sig := oi_sig (info op)).
  assert (stop (printOperands sig x +:+ (eol +:+ s)) = true) as Hs by (by destruct sig).
  unfold parseInsn. eapply parses_peek; [by apply lexeme_word|]. intros t Hk Ht _.
  rewrite Ht, Hl. apply (parses_reads _ _ _ (ps_m σ)); [by intros st <-|]. rewrite Habs.
  eapply eats_bind; [eapply eats_advance; by apply lexeme_word|]. intros _ _. cbv zeta.
  eapply parses_bind.
  { apply (parses_modify _ _ _ _ (bind_pending (u32 (vlen (m_code (ps_m σ)))) false σ)); [done|].
    intros st <-. apply erase_bind_pending. }
  intros _ _. eapply parses_bind.
  { apply (parseOperands_print op); [|done..]. symmetry. by apply of_code_code. }
  intros ? ->.
  eapply parses_post; [apply parses_modify; [done|]; intros st Hst| |done].
  - rewrite erase_set_m. change (ps_m st) with (ps_m (erase st)). by rewrite Hst.
  - destruct (decide (sig = Sig.None)); apply lexk_eol.
Qed.

(** A line with a label. *)
Lemma parseLabel_print v s σ t :
  tk_kind t = Tk.Word -> tk_text t = labelName v -> labelDefined (labelName v) σ = false ->
  eats (parseLabel t) true (labelName v +:+ (":" +:+ (eol +:+ s))) σ (fun _ => True) true s
    (push_pending (mkPending (labelName v) 0) σ).
Proof.
  intros Hk Ht Hdef. unfold parseLabel. rewrite Ht, labelName_ident. cbn [negb].
  assert (lexeme Tk.Word (labelName v) (":" +:+ (eol +:+ s))) as Hl by (by apply lexeme_name).
  assert (lexeme Tk.Punct ":" (eol +:+ s)) as Hp by (apply lexeme_punct; auto).
  eapply parses_peek2; [done..|]. intros t2 l H2.
  rewrite lexk_eol in H2. symmetry in H2. apply lexk_lineStart in H2.
  cbn [key snd] in H2. rewrite H2, andb_false_r.
  apply (parses_reads _ _ _ false).
  { intros st <-. by rewrite labelDefined_erase, Hdef. }
  eapply parses_eats.
  { apply (parses_modify _ _ _ _ (push_pending (mkPending (labelName v) 0) σ)); [done|].
    intros st <-. unfold erase. cbn. by rewrite map_app. }
  intros _ _. eapply eats_bind; [by eapply eats_advance|]. intros _ _.
  eapply parses_post; [by eapply parses_advance|by rewrite lexk_eol|done].
Qed.

(** ** Constants *)

Lemma isPunct_punct t p : tk_kind t = Tk.Punct -> tk_text t = p -> isPunct t p = true.
Proof. intros Hk Ht. unfold isPunct. by rewrite Hk, Ht, String.eqb_refl. Qed.

Lemma expectPunct_print p ctx ls s σ :
  p = ":" \/ p = "=" \/ p = "{" \/ p = "}" ->
  parses (expectPunct p ctx) ls (p +:+ s) σ (fun _ => True) false s σ.
Proof.
  intros Hp. unfold expectPunct. eapply parses_peek; [by apply lexeme_punct|]. intros t Hk Ht _.
  rewrite isPunct_punct by done. eapply parses_advance. by apply lexeme_punct.
Qed.

Lemma expectWord_print w ls s σ :
  is_word w = true -> stop s = true ->
  parses (expectWord w) ls (w +:+ s) σ (fun _ => True) false s σ.
Proof.
  intros Hw Hs. unfold expectWord. eapply parses_peek; [by apply lexeme_word|]. intros t Hk Ht _.
  unfold wordIs. rewrite isWord_word, Ht, String.eqb_refl by done. cbn [andb].
  eapply parses_advance. by apply lexeme_word.
Qed.

Lemma parseIntToken_print t v ls s σ :
  tk_text t = pretty v -> is_i64 v ->
  parses (parseIntToken t) ls s σ (fun x => x = v) ls s σ.
Proof.
  intros Ht Hv. unfold parseIntToken. rewrite Ht, from_chars_Z by done. by apply parses_ret.
Qed.

Lemma parseIntPayload_print what v ls s σ :
  is_i64 v -> stop s = true ->
  parses (parseIntPayload what) ls ((pretty v : string) +:+ s) σ (fun x => x.2 = v) false s σ.
Proof.
  intros Hv Hs. unfold parseIntPayload. eapply parses_peek; [by apply lexeme_Z|]. intros t Hk Ht _.
  rewrite isInt_int by done. cbn [negb].
  eapply parses_bind; [eapply parses_advance; by apply lexeme_Z|]. intros _ _.
  eapply parses_bind; [by apply parseIntToken_print|]. intros ? ->. by apply parses_ret.
Qed.

(** A word that a payload may have. *)
Definition payload_word (w : string) : bool := is_word w && negb (starts_with "." w).

Lemma parseWordPayload_print what w ls s σ :
  payload_word w = true -> stop s = true ->
  parses (parseWordPayload what) ls (" " +:+ (w +:+ s)) σ (fun x => x = w) false s σ.
Proof.
  intros [Hw Hd]%andb_true_iff Hs. apply parses_space. unfold parseWordPayload.
  eapply parses_peek; [by apply lexeme_word|]. intros t Hk Ht _.
  rewrite isWord_word, Ht, Hd by done. cbn [andb].
  eapply parses_bind; [eapply parses_advance; by apply lexeme_word|]. intros _ _. by apply parses_ret.
Qed.

Lemma parseStringPayload_print x ls s σ :
  parses parseStringPayload ls (" " +:+ (quoted x +:+ s)) σ (fun y => y = x) false s σ.
Proof.
  apply parses_space. unfold parseStringPayload. eapply parses_peek; [apply lexeme_quoted|].
  intros t Hk Ht _. rewrite Hk, Ht. destruct (quoted_shape x) as (H1 & H2 & H3).
  rewrite H1, H2, H3, decode_escapes. cbn [bool_decide decide_rel negb orb].
  rewrite bool_decide_true by done. cbn [negb orb].
  eapply parses_bind; [eapply parses_advance; apply lexeme_quoted|]. intros _ _. by apply parses_ret.
Qed.

(** ** Floating-point constants *)

Definition reads_as (f : Fmt) (t : string) (neg : bool) (bits : N) : bool :=
  match from_chars_float f t with
  | Parsed v => Z.to_N (if neg then set_sign f v else v) =? bits
  | _ => false
  end.

Definition is_numeral (t : string) : bool :=
  match numeral t with Some Tk.Int | Some Tk.Float => true | _ => false end.

(** Every value but a NaN with a payload of its own. *)
Definition float_ok (f : Fmt) (bits : N) : bool :=
  let magnitude := (Z.of_N bits mod f_sign f)%Z in
  (Z.of_N bits <? 2 * f_sign f)%Z && ((magnitude <=? f_inf f) || (magnitude =? f_nan f))%Z.

(** The text of a value reads back as the value, by one of the three ways the parser has. *)
Definition float_text (f : Fmt) (bits : N) : bool :=
  let t := appendFloat f bits in
  (is_numeral t && reads_as f t false bits) ||
  existsb (fun w => (t =? w)%string && reads_as f w false bits) ["inf"; "nan"] ||
  existsb (fun w => (t =? "-" +:+ w)%string && reads_as f w true bits) ["inf"; "nan"].

Lemma float_text_word f bits neg v w : Format f ->
  (bits = Z.to_N (with_sign f neg v)) -> set_sign f v = (v + f_sign f)%Z ->
  appendFloat f bits = sign_text neg +:+ w -> from_chars_float f w = Parsed v ->
  (w = "inf" \/ w = "nan") -> float_text f bits = true.
Proof.
  intros Hf -> Hs Ht Hv Hw. unfold float_text. cbv zeta. rewrite Ht.
  assert (forall b, reads_as f w neg (Z.to_N b) = true <-> Z.to_N (if neg then set_sign f v else v) = Z.to_N b) as Hr.
  { intros b. unfold reads_as. by rewrite Hv, N.eqb_eq. }
  assert (reads_as f w neg (Z.to_N (with_sign f neg v)) = true) as Hrd.
  { apply Hr. by destruct neg; [rewrite Hs|]. }
  rewrite !orb_true_iff. destruct neg; cbn [sign_text] in *; [right|left; right; rewrite append_nil_l];
    cbn [existsb]; rewrite ?orb_false_r, orb_true_iff; destruct Hw as [-> | ->]; [left|right|left|right];
    by rewrite String.eqb_refl, Hrd.
Qed.

Lemma float_ok_text f bits : Format f -> float_ok f bits = true -> float_text f bits = true.
Proof.
  intros Hf. unfold float_ok. cbv zeta. rewrite andb_true_iff, Z.ltb_lt. intros [Hb Hm].
  set (b := Z.of_N bits) in *. set (s := f_sign f) in *. set (m := (b mod s)%Z) in *. set (neg := (s <=? b)%Z).
  assert (0 < s)%Z as Hs by (pose proof (fm_sign (f := f)) as H; fold s in H; unfold f_inf, f_hidden in H; lia).
  pose proof (Z.mod_pos_bound b s Hs) as Hmb. fold m in Hmb.
  assert (b = with_sign f neg m) as Hbm.
  { unfold with_sign, neg, m. fold s. destruct (Z.leb_spec s b).
    - rewrite <- (Z.mod_add b (-1) s), Z.mod_small by lia. lia.
    - by rewrite Z.mod_small by lia. }
  assert (bits = Z.to_N (with_sign f neg m)) as Hbits by lia.
  rewrite orb_true_iff, Z.leb_le, Z.eqb_eq in Hm. pose proof (fm_sign (f := f)) as Hsg.
  assert (appendFloat f bits = if (f_inf f <? m)%Z then sign_text neg +:+ "nan"
    else if (m =? f_inf f)%Z then sign_text neg +:+ "inf" else to_chars_float f b) as Ht by done.
  destruct (decide (m < f_inf f)%Z) as [Hfin|Hfin].
  - rewrite (proj2 (Z.ltb_ge _ _)), (proj2 (Z.eqb_neq _ _)) in Ht by lia.
    destruct (float_reads_back f neg m ltac:(lia)) as (w & fr & ex & Hok & He & Hr).
    destruct (numeral_nt neg w fr ex Hok) as (k & Hk & Hkk).
    assert (appendFloat f bits = sign_text neg +:+ nt_text w fr ex) as Ht' by (rewrite Ht; exact He).
    unfold float_text. cbv zeta. rewrite Ht'. unfold is_numeral, reads_as. rewrite Hk, Hr, <- Hbits, N.eqb_refl.
    by destruct Hkk as [-> | ->].
  - destruct (decide (m = f_inf f)) as [Hi|Hi].
    + rewrite (proj2 (Z.ltb_ge _ _)), (proj2 (Z.eqb_eq _ _)) in Ht by lia.
      apply (float_text_word f bits neg m "inf"); auto; rewrite Hi; [apply fm_neg_inf|done].
    + rewrite (proj2 (Z.ltb_lt _ _)) in Ht by lia. assert (m = f_nan f) as Hn by lia.
      apply (float_text_word f bits neg m "nan"); auto; rewrite Hn; [apply fm_neg_nan|done].
Qed.

Lemma reads_as_spec f t neg bits : reads_as f t neg bits = true ->
  exists v, from_chars_float f t = Parsed v /\ Z.to_N (if neg then set_sign f v else v) = bits.
Proof.
  unfold reads_as. destruct (from_chars_float f t) as [v| |]; [|done..].
  intros H%N.eqb_eq. eauto.
Qed.

(** A number token, or the word of a value that is not finite. *)
Lemma parseFloatPayload_token f bits k w ls s σ :
  lexeme k w s -> isPunct (mkTok k 0 0 ls w) "-" = false ->
  (k = Tk.Int \/ k = Tk.Float \/ (k = Tk.Word /\ (w = "inf" \/ w = "nan"))) ->
  reads_as f w false bits = true ->
  parses (parseFloatPayload f) ls (w +:+ s) σ (fun x => x = bits) false s σ.
Proof.
  intros Hl Hp Hk Hr. apply reads_as_spec in Hr as (v & Hv & Hb).
  unfold parseFloatPayload. eapply parses_peek; [done|]. intros t0 _ _ _.
  eapply parses_bind.
  { unfold floatText. eapply parses_peek; [done|]. intros t Ht Hw _.
    assert (isPunct t "-" = false) as ->.
    { revert Hp. unfold isPunct. cbn. by rewrite Ht, Hw. }
    assert ((isInt t || bool_decide (tk_kind t = Tk.Float) || nonFinite t) = true) as ->.
    { unfold isInt, nonFinite, isWord. rewrite Ht, Hw. by destruct Hk as [->|[->|[-> [-> | ->]]]]. }
    by apply parses_ret with (Q := fun x => x = (false, w)); rewrite Hw. }
  intros ? ->. eapply parses_bind; [by eapply parses_advance|]. intros _ _.
  rewrite Hv. by apply parses_ret.
Qed.

Lemma parseFloatPayload_print f bits ls s σ :
  Format f -> float_ok f bits = true -> stop s = true ->
  parses (parseFloatPayload f) ls (" " +:+ (appendFloat f bits +:+ s)) σ (fun x => x = bits) false s σ.
Proof.
  intros Hfm Hf%(float_ok_text _ _ Hfm) Hs. apply parses_space. unfold float_text in Hf. cbv zeta in Hf.
  generalize dependent (appendFloat f bits). intros t Hf.
  rewrite !orb_true_iff in Hf. destruct Hf as [[Hf|Hf]|Hf].
  - apply andb_true_iff in Hf as [Hn Hr]. unfold is_numeral in Hn.
    destruct (numeral t) as [k|] eqn:Hk; [|done].
    apply (parseFloatPayload_token f bits k); [by apply lexeme_numeral|by destruct k| |done].
    destruct k; auto; done.
  - assert ((t = "inf" \/ t = "nan") /\ reads_as f t false bits = true) as [Hw Hr].
    { cbn in Hf. rewrite !orb_true_iff, !andb_true_iff, !String.eqb_eq in Hf.
      destruct Hf as [[-> ?]|[[-> ?]|?]]; auto; done. }
    apply (parseFloatPayload_token f bits Tk.Word); [|done|auto|done].
    apply lexeme_word; [by destruct Hw as [-> | ->]|done].
  - assert (exists w, t = "-" +:+ w /\ (w = "inf" \/ w = "nan") /\ reads_as f w true bits = true)
      as (w & -> & Hw & Hr).
    { cbn in Hf. rewrite !orb_true_iff, !andb_true_iff, !String.eqb_eq in Hf.
      destruct Hf as [[-> ?]|[[-> ?]|?]]; [eexists..|done]; eauto. }
    apply reads_as_spec in Hr as (v & Hv & Hb). rewrite append_assoc.
    assert (lexeme Tk.Punct "-" (w +:+ s)) as Hm by (by destruct Hw as [-> | ->]; apply lexeme_minus).
    assert (lexeme Tk.Word w s) as Hl by (apply lexeme_word; [by destruct Hw as [-> | ->]|done]).
    unfold parseFloatPayload. eapply parses_peek; [done|]. intros t0 _ _ _.
    eapply parses_bind.
    { unfold floatText. eapply parses_peek; [done|]. intros t Ht Htx _.
      rewrite isPunct_punct by done. eapply parses_bind; [by eapply parses_advance|]. intros _ _.
      eapply parses_peek; [done|]. intros t1 Ht1 Htx1 _.
      assert (nonFinite t1 = true) as ->.
      { unfold nonFinite, isWord. rewrite Ht1, Htx1. by destruct Hw as [-> | ->]. }
      by apply parses_ret with (Q := fun x => x = (true, w)); rewrite Htx1. }
    intros ? ->. eapply parses_bind; [by eapply parses_advance|]. intros _ _.
    rewrite Hv. by apply parses_ret.
Qed.

(** ** Switch constants *)

(** What the parser makes of the cases of a switch, with the targets left to the
    fixups. *)
Fixpoint by_one (ms : list Z) : bool :=
  match ms with a :: (b :: _) as r => (b =? a + 1)%Z && by_one r | _ => true end.

Definition switch_table (ms : list Z) : bool :=
  match ms with [] => false | _ => by_one ms end.

Definition raw_switch (ms : list Z) : list Z :=
  match ms with
  | [] => [0%Z; 0%Z]
  | m :: _ =>
      if switch_table ms then m :: List.last ms m :: 0%Z :: map (fun _ => 0%Z) ms
      else i32 (Z.of_N (vlen ms)) :: 0%Z :: flat_map (fun v => [v; 0%Z]) ms
  end.

Fixpoint target_fixes (constIdx pos step : N) (ts : list N) : list SwitchFix :=
  match ts with
  | [] => []
  | t :: r => mkSwitchFix constIdx pos 0 (labelName t) :: target_fixes constIdx (pos + step) step r
  end.

Definition switch_fixes (constIdx : N) (sw : SwData) : list SwitchFix :=
  if switch_table (sd_matches sw)
  then mkSwitchFix constIdx 2 0 (labelName (sd_def sw)) :: target_fixes constIdx 3 1 (sd_targets sw)
  else mkSwitchFix constIdx 1 0 (labelName (sd_def sw)) :: target_fixes constIdx 3 2 (sd_targets sw).

Definition entry_of (mt : Z * N) (e : SwitchEntry) : Prop :=
  se_match e = mt.1 /\ se_label e = labelName mt.2.

Definition entries_of (sw : SwData) (l : list SwitchEntry) : Prop :=
  Forall2 entry_of (zip (sd_matches sw) (sd_targets sw)) l.

Lemma within_eats {A} b (x : P A) ls s σ Q ls' s' σ' :
  eats x ls s σ Q ls' s' σ' -> within (S b) b x ls s σ Q ls' s' σ'.
Proof. intros Hx. apply Hx. Qed.
Lemma within_parses {A} b (x : P A) ls s σ Q ls' s' σ' :
  parses x ls s σ Q ls' s' σ' -> within b b x ls s σ Q ls' s' σ'.
Proof. intros Hx. apply Hx. Qed.

Lemma within_zero {A} c (x : P A) ls s σ Q ls' s' σ' : within 0 c x ls s σ Q ls' s' σ'.
Proof.
  intros st Ht _ Hl. destruct (lexk_cons ls s) as (k & l & Hk). rewrite Hk in Ht.
  destruct (ps_toks st); [done|]. cbn in Hl. lia.
Qed.

Lemma within_spend {A} b c (x : P A) ls s σ Q ls' s' σ' :
  within (S b) b x ls s σ Q ls' s' σ' -> (S b <= c)%nat -> within (S b) c x ls s σ Q ls' s' σ'.
Proof.
  intros Hx Hc st Ht Hs Hb. destruct (Hx st Ht Hs Hb) as (a & st1 & ? & ? & ? & ? & ?).
  exists a, st1. split_and!; [done..|lia].
Qed.

Lemma within_space {A} b c (x : P A) ls s σ Q ls' s' σ' :
  within b c x ls s σ Q ls' s' σ' -> within b c x ls (" " +:+ s) σ Q ls' s' σ'.
Proof. intros. eapply within_pre; [apply lexk_space|done]. Qed.

(** The closing brace. *)
Lemma switch_close_print size fuel b def acc ls s σ :
  (b <= fuel)%nat ->
  within b b (switch_entries fuel size def acc) ls (" " +:+ ("}" +:+ s)) σ
    (fun x => x = (def, acc)) false s σ.
Proof.
  intros Hb. destruct b as [|b]; [apply within_zero|]. destruct fuel as [|fuel]; [lia|].
  apply within_space. cbn [switch_entries].
  eapply within_peek; [by apply lexeme_punct; auto|]. intros t Hk Ht _.
  destruct (decide _) as [He|_]; [by rewrite Hk in He|]. rewrite isPunct_punct by done.
  apply within_spend; [|done].
  eapply within_bind; [eapply within_eats, eats_advance; apply lexeme_punct; auto|]. intros _ _.
  by apply within_ret.
Qed.

Lemma not_punct t p : tk_kind t <> Tk.Punct -> isPunct t p = false.
Proof. intros H. unfold isPunct. by rewrite bool_decide_false. Qed.
Lemma not_word t w : tk_kind t <> Tk.Word -> wordIs t w = false.
Proof. intros H. unfold wordIs, isWord. by rewrite bool_decide_false. Qed.

Definition default_text (d : N) (s : string) : string :=
  " " +:+ ("default" +:+ (" " +:+ (":" +:+ (" " +:+ (labelName d +:+ (" " +:+ ("}" +:+ s))))))).

Lemma switch_default_print size fuel b d acc ls s σ :
  (b <= fuel)%nat ->
  within b b (switch_entries fuel size None acc) ls (default_text d s) σ
    (fun x => exists o, x = (Some (o, labelName d), acc)) false s σ.
Proof.
  intros Hb. destruct b as [|b]; [apply within_zero|]. destruct fuel as [|fuel]; [lia|].
  unfold default_text. apply within_space. cbn [switch_entries].
  eapply within_peek; [by apply lexeme_word|]. intros t Hk Ht _.
  destruct (decide _) as [He|_]; [by rewrite Hk in He|]. rewrite not_punct by (by rewrite Hk).
  assert (wordIs t "default" = true) as ->.
  { unfold wordIs. by rewrite isWord_word, Ht. }
  apply within_spend; [|done].
  eapply within_bind; [eapply within_eats, eats_advance; by apply lexeme_word|]. intros _ _.
  apply within_space. eapply within_bind; [apply within_parses, expectPunct_print; auto|]. intros _ _.
  apply within_space. eapply within_bind; [by apply within_parses, parseLabelIdent_print|]. intros ? ->.
  eapply within_post; [apply switch_close_print; lia|done|]. intros ? ->. eauto.
Qed.

Definition case_text (v : Z) (t : N) (s : string) : string :=
  " " +:+ ((pretty v : string) +:+ (" " +:+ (":" +:+ (" " +:+ (labelName t +:+ s))))).

Lemma print_cases_cons v ms t ts s :
  print_cases (v :: ms) (t :: ts) +:+ s = case_text v t (print_cases ms ts +:+ s).
Proof. cbn [print_cases]. unfold appendI, appendU. by rewrite !append_assoc. Qed.

Lemma is_i32_i64 v : is_i32 v = true -> is_i64 v.
Proof. unfold is_i32, is_i64. rewrite andb_true_iff, !Z.leb_le. lia. Qed.

Lemma switch_entries_print size d s σ : forall ms ts fuel b acc ls,
  List.length ms = List.length ts -> Forall (fun v => is_i32 v = true) ms -> (b <= fuel)%nat ->
  within b b (switch_entries fuel size None acc) ls
    (print_cases ms ts +:+ default_text d s) σ
    (fun x => exists o l, x = (Some (o, labelName d), acc ++ l) /\ Forall2 entry_of (zip ms ts) l)
    false s σ.
Proof.
  induction ms as [|v ms IH]; intros [|t ts] fuel b acc ls Hlen Hms Hb; try done.
  { eapply within_post; [by apply switch_default_print|done|]. intros ? (o & ->).
    exists o, []. rewrite app_nil_r. split; [done|constructor]. }
  inversion Hms as [|? ? Hv Hms']. subst. rewrite print_cases_cons. unfold case_text.
  destruct b as [|b]; [apply within_zero|]. destruct fuel as [|fuel]; [lia|].
  set (rest := print_cases ms ts +:+ default_text d s).
  assert (stop rest = true) as Hstop by (by destruct ms, ts).
  apply within_space. cbn [switch_entries].
  eapply within_peek; [by apply lexeme_Z|]. intros k Hk Ht _.
  destruct (decide _) as [He|_]; [by rewrite Hk in He|].
  rewrite not_punct, not_word, isInt_int by (by rewrite Hk).
  eapply within_bind; [apply within_parses, (parseIntToken_print _ v); [done|by apply is_i32_i64]|]. intros ? ->.
  rewrite Hv. cbn [negb]. apply within_spend; [|done].
  eapply within_bind; [eapply within_eats, eats_advance; by apply lexeme_Z|]. intros _ _.
  apply within_space. eapply within_bind; [apply within_parses, expectPunct_print; auto|]. intros _ _.
  apply within_space. eapply within_peek; [by apply lexeme_name|]. intros lt Hlk Hlt _.
  eapply within_bind; [by apply within_parses, (parseLabelIdent_print t)|]. intros ? ->.
  eapply within_post; [apply IH; [by injection Hlen|done|lia]|done|].
  intros ? (o & l & -> & Hl). exists o. eexists (_ :: l). rewrite <- app_assoc. split; [done|].
  by constructor.
Qed.

Lemma insert_entry_last e l :
  Forall (fun x => (se_match x < se_match e)%Z) l -> insert_entry e l = l ++ [e].
Proof.
  induction 1 as [|x l Hx Hl IH]; [done|]. cbn.
  destruct (Z.ltb_spec (se_match e) (se_match x)); [lia|]. by rewrite IH.
Qed.

Lemma sorted_before {A} (R : relation A) a x r :
  StronglySorted R (a ++ x :: r) -> Forall (fun y => R y x) a.
Proof.
  induction a as [|y a IH]; [constructor|]. intros Hs. inversion Hs as [|? ? Hs' Hf]. subst.
  constructor; [|by apply IH]. rewrite Forall_app in Hf. destruct Hf as [_ Hf]. by inversion Hf.
Qed.

Lemma entries_sorted l :
  StronglySorted Z.lt (map se_match l) -> sort_entries l = l.
Proof.
  intros Hs. unfold sort_entries.
  enough (forall acc, StronglySorted Z.lt (map se_match (acc ++ l)) ->
    fold_left (fun acc e => insert_entry e acc) l acc = acc ++ l) as H by (by apply (H [])).
  clear Hs. induction l as [|e l IH]; intros acc Hs; [by rewrite app_nil_r|].
  cbn. rewrite insert_entry_last.
  - rewrite IH by (by rewrite <- app_assoc). by rewrite <- app_assoc.
  - rewrite map_app in Hs. apply sorted_before in Hs. by apply Forall_map in Hs.
Qed.

Lemma no_duplicates l : StronglySorted Z.lt (map se_match l) -> duplicate_entry l = None.
Proof.
  induction l as [|a [|b l] IH]; [done..|]. intros Hs. cbn in Hs. inversion Hs as [|? ? Hs' Hf]. subst.
  inversion Hf. subst. cbn. destruct (Z.eqb_spec (se_match b) (se_match a)); [lia|]. by apply IH.
Qed.

Lemma contiguous_by_one l : contiguous l = by_one (map se_match l).
Proof. induction l as [|a [|b l] IH]; [done..|]. cbn in *. by rewrite IH. Qed.

Lemma entries_matches ms ts l :
  List.length ms = List.length ts -> Forall2 entry_of (zip ms ts) l -> map se_match l = ms.
Proof.
  revert ts l. induction ms as [|m ms IH]; intros [|t ts] l Hlen Hl; try done; inversion Hl; subst; [done|].
  cbn. f_equal; [by destruct H1|]. by eapply IH; [injection Hlen|].
Qed.

Lemma entry_fixes_targets idx pos step ms ts l :
  List.length ms = List.length ts -> Forall2 entry_of (zip ms ts) l ->
  map e_switch (entry_fixes idx pos step l) = target_fixes idx pos step ts.
Proof.
  revert ts l pos. induction ms as [|m ms IH]; intros [|t ts] l pos Hlen Hl; try done;
    inversion Hl; subst; [done|].
  cbn. destruct H1 as [_ H1]. cbn in H1. unfold e_switch at 1. cbn. rewrite H1. f_equal.
  by eapply IH; [injection Hlen|].
Qed.

Lemma last_match (l : list SwitchEntry) e : se_match (List.last l e) = List.last (map se_match l) (se_match e).
Proof. induction l as [|a [|b l] IH]; [done..|]. cbn in *. by rewrite IH. Qed.

Lemma parseSwitchPayload_print size t sw s ls σ :
  List.length (sd_matches sw) = List.length (sd_targets sw) ->
  Forall (fun v => is_i32 v = true) (sd_matches sw) ->
  StronglySorted Z.lt (sd_matches sw) ->
  vlen (sd_matches sw) < 2 ^ 32 ->
  parses (parseSwitchPayload size t) ls
    (" " +:+ ("{" +:+ (print_cases (sd_matches sw) (sd_targets sw) +:+ default_text (sd_def sw) s))) σ
    (fun c => c = const_switch (raw_switch (sd_matches sw))) false s
    (push_switches (switch_fixes (vlen (m_cp (ps_m σ))) sw) σ).
Proof.
  intros Hlen Hi32 Hs H32 b. unfold parseSwitchPayload. apply within_space.
  eapply within_bind; [apply within_parses, expectPunct_print; auto|]. intros _ _.
  apply within_fuel; [|done]. intros n _.
  eapply within_bind; [by apply switch_entries_print|]. cbn beta.
  intros ? (o & l & -> & Hl). rewrite app_nil_l.
  pose proof (entries_matches _ _ _ Hlen Hl) as Hm. rewrite <- Hm in Hs.
  rewrite (entries_sorted l Hs), (no_duplicates l Hs), contiguous_by_one, Hm.
  apply (within_reads _ _ _ _ (vlen (m_cp (ps_m σ)))); [by intros st <-|].
  assert (forall fs, map e_switch fs = switch_fixes (vlen (m_cp (ps_m σ))) sw ->
    within n n (modify (push_switches fs)) false s σ (fun _ => True) false s
      (push_switches (switch_fixes (vlen (m_cp (ps_m σ))) sw) σ)) as Hpush.
  { intros fs Hfs. apply within_modify; [done|]. intros st <-. unfold erase at 1. cbn.
    by rewrite map_app, Hfs. }
  unfold switch_fixes in Hpush. unfold raw_switch, switch_fixes.
  destruct (sd_matches sw) as [|m ms] eqn:Ems.
  { destruct l; [|done]. destruct (sd_targets sw) as [|] eqn:Ets; [|done].
    eapply within_bind; [by apply Hpush|]. intros _ _. by apply within_ret. }
  destruct l as [|e l]; [done|]. cbn [switch_table] in *. destruct (by_one (m :: ms)).
  - eapply within_bind; [apply Hpush; cbn [map]; by erewrite entry_fixes_targets|]. intros _ _.
    apply within_ret. f_equal. rewrite last_match, Hm. injection Hm as -> Hm.
    rewrite <- Hm. do 3 f_equal. cbn [map]. f_equal. by rewrite map_map.
  - eapply within_bind; [apply Hpush; cbn [map]; by erewrite entry_fixes_targets|]. intros _ _.
    apply within_ret. f_equal. rewrite <- Hm. f_equal; [unfold vlen; by rewrite length_map|].
    f_equal. clear. induction (e :: l) as [|x r IH]; [done|]. cbn. by rewrite IH.
Qed.
