(* ===== verification/RbcTextLines.v ===== *)
(** * Parsing the lines of a printed method

    What the parser's body loop does on the line of a constant, an instruction, a
    label or a handler, and on the header of a method. *)

From stdpp Require Import pretty.
From Stdlib Require Import Ascii String.
From S2P Require Import Prelude Machine RbcOpcode Rbc RbcLex CharConv RbcParse RbcPrint.
From S2P Require Import RbcTextTotal RbcTextLex RbcTextParse.

Local Open Scope N_scope.
Local Open Scope rbctext_scope.

#[export] Instance Const_eq_dec : EqDecision Const.
Proof. solve_decision. Defined.
#[export] Instance Ins_eq_dec : EqDecision Ins.
Proof. solve_decision. Defined.

(** ** Constants that have a text *)

Fixpoint ascending (ms : list Z) : bool :=
  match ms with a :: (b :: _) as r => (a <? b)%Z && ascending r | _ => true end.

(** The elements of a switch constant with its targets. *)
Definition full_switch (sw : SwData) : list Z :=
  let pc t := i32 (Z.of_N t) in
  let ms := sd_matches sw in
  match ms with
  | [] => [0%Z; pc (sd_def sw)]
  | m :: _ =>
      if switch_table ms
      then m :: List.last ms m :: pc (sd_def sw) :: map pc (sd_targets sw)
      else i32 (Z.of_N (vlen ms)) :: pc (sd_def sw) ::
           flat_map (fun x => [x.1; pc x.2]) (zip ms (sd_targets sw))
  end.

(** A constant that its text determines: the fields its kind has, words where the text
    has words, a switch in the layout that the parser picks with targets in the code. *)
Definition const_ok (codeLen : N) (c : Const) (sw : SwData) : bool :=
  match c_kind c with
  | Kind.Int32 => is_i32 (c_i32 c) && bool_decide (c = const_i32 (c_i32 c))
  | Kind.Int64 => bool_decide (is_i64 (c_i64 c)) && bool_decide (c = const_i64 (c_i64 c))
  | Kind.Float => float_ok fmt32 (c_f32 c) && bool_decide (c = const_f32 (c_f32 c))
  | Kind.Double => float_ok fmt64 (c_f64 c) && bool_decide (c = const_f64 (c_f64 c))
  | Kind.Utf8 | Kind.String | Kind.Class =>
      bool_decide (c = const_str (c_kind c) (c_str c) "" "")
  | Kind.NameType | Kind.MethodHandle | Kind.InvokeDynamic =>
      payload_word (c_str c) && payload_word (c_str2 c) &&
      bool_decide (c = const_str (c_kind c) (c_str c) (c_str2 c) "")
  | Kind.MethodType =>
      payload_word (c_str c) && bool_decide (c = const_str (c_kind c) (c_str c) "" "")
  | Kind.FieldRef | Kind.MethodRef | Kind.InterfaceMethodRef =>
      payload_word (c_str c) && payload_word (c_str2 c) && payload_word (c_str3 c) &&
      bool_decide (c = const_str (c_kind c) (c_str c) (c_str2 c) (c_str3 c))
  | Kind.SwitchTable =>
      bool_decide (List.length (sd_matches sw) = List.length (sd_targets sw)) &&
      forallb is_i32 (sd_matches sw) && ascending (sd_matches sw) &&
      (vlen (sd_matches sw) <? 2 ^ 32) &&
      (sd_def sw <? codeLen) && forallb (fun t => t <? codeLen) (sd_targets sw) &&
      bool_decide (c = const_switch (full_switch sw))
  end.

Definition is_switch (c : Const) : bool := bool_decide (c_kind c = Kind.SwitchTable).

Definition raw_const (c : Const) (sw : SwData) : Const :=
  if is_switch c then const_switch (raw_switch (sd_matches sw)) else c.

(** The state after the line of the constant [i]. *)
Definition const_state (i : N) (c : Const) (sw : SwData) (σ : St) : St :=
  let n := vlen (m_cp (ps_m σ)) in
  let σ := if is_switch c then push_switches (switch_fixes n sw) σ else σ in
  let σ := push_constId (mkConstId i (u32 n)) σ in
  set_m (add_const (raw_const c sw) (ps_m σ)) σ.

Lemma ascending_sorted ms : ascending ms = true -> StronglySorted Z.lt ms.
Proof.
  intros H. apply Sorted_StronglySorted; [intros x y z; lia|].
  induction ms as [|a [|b r] IH]; [constructor|by repeat constructor|].
  cbn in H. apply andb_true_iff in H as [Hab Hr]. apply Z.ltb_lt in Hab.
  constructor; [by apply IH|]. by constructor.
Qed.

(** The text of a payload, after the word of its kind. *)
Definition payload_text (c : Const) (sw : SwData) (s : string) : string :=
  match c_kind c with
  | Kind.Int32 => " " +:+ ((pretty (c_i32 c) : string) +:+ s)
  | Kind.Int64 => " " +:+ ((pretty (c_i64 c) : string) +:+ s)
  | Kind.Float => " " +:+ (appendFloat fmt32 (c_f32 c) +:+ s)
  | Kind.Double => " " +:+ (appendFloat fmt64 (c_f64 c) +:+ s)
  | Kind.Utf8 | Kind.String | Kind.Class => " " +:+ (quoted (c_str c) +:+ s)
  | Kind.NameType | Kind.MethodHandle | Kind.InvokeDynamic =>
      " " +:+ (c_str c +:+ (" " +:+ (c_str2 c +:+ s)))
  | Kind.MethodType => " " +:+ (c_str c +:+ s)
  | Kind.FieldRef | Kind.MethodRef | Kind.InterfaceMethodRef =>
      " " +:+ (c_str c +:+ (" " +:+ (c_str2 c +:+ (" " +:+ (c_str3 c +:+ s)))))
  | Kind.SwitchTable =>
      " " +:+ ("{" +:+ (print_cases (sd_matches sw) (sd_targets sw) +:+ default_text (sd_def sw) s))
  end.

Lemma printConst_text c sw s : printConst c sw +:+ s = kindName c +:+ payload_text c sw s.
Proof.
  unfold printConst, kindName, payload_text. destruct (c_kind c); rewrite ?append_assoc; done.
Qed.

Lemma const_str_ok x k a b c sw ls s σ t size :
  x = const_str k a b c -> tk_text t = kindName x -> stop s = true ->
  match k with
  | Kind.NameType | Kind.MethodHandle | Kind.InvokeDynamic =>
      payload_word a = true /\ payload_word b = true /\ c = ""
  | Kind.MethodType => payload_word a = true /\ b = "" /\ c = ""
  | Kind.FieldRef | Kind.MethodRef | Kind.InterfaceMethodRef =>
      payload_word a = true /\ payload_word b = true /\ payload_word c = true
  | Kind.Utf8 | Kind.String | Kind.Class => b = "" /\ c = ""
  | _ => False
  end ->
  parses (parsePayload size t) ls (payload_text x sw s) σ (fun y => y = x) false s σ.
Proof.
  intros -> Ht Hs Hk. unfold parsePayload. cbv zeta. rewrite Ht.
  destruct k; try done; cbn [kindName c_kind const_str payload_text c_str c_str2 c_str3];
    cbn [String.eqb Ascii.eqb Bool.eqb orb];
    repeat match goal with H : _ /\ _ |- _ => destruct H end; subst.
  1-3: eapply parses_bind; [by apply parseStringPayload_print|]; intros ? ->; by apply parses_ret.
  all: repeat (eapply parses_bind; [by apply parseWordPayload_print|]; intros ? ->);
    by apply parses_ret.
Qed.

Lemma eol_stop s : stop (eol +:+ s) = true.
Proof. done. Qed.

Lemma parsePayload_print codeLen c sw ls s σ t size :
  const_ok codeLen c sw = true -> tk_text t = kindName c -> stop s = true ->
  parses (parsePayload size t) ls (payload_text c sw s) σ (fun x => x = raw_const c sw) false s
    (if is_switch c then push_switches (switch_fixes (vlen (m_cp (ps_m σ))) sw) σ else σ).
Proof.
  intros Hok Ht Hs. unfold const_ok in Hok. unfold raw_const, is_switch.
  destruct (c_kind c) eqn:Hk; cbn [bool_decide decide_rel Kind_eq_dec] in *;
    rewrite ?andb_true_iff, ?bool_decide_eq_true in Hok;
    repeat match goal with H : _ /\ _ |- _ => destruct H end;
    rewrite ?bool_decide_false, ?bool_decide_true by congruence;
    try match goal with H : c = const_str _ _ _ _ |- _ => by eapply const_str_ok; [exact H|..] end.
  all: unfold payload_text, parsePayload; cbv zeta; rewrite Ht; unfold kindName; rewrite Hk;
    cbn [String.eqb Ascii.eqb Bool.eqb orb].
  - apply parses_space.
    eapply parses_bind; [by apply (parseIntPayload_print _ (c_i32 c)), Hs; apply is_i32_i64|].
    intros [t' v] Hv. cbn in Hv. subst v. rewrite H. by apply parses_ret.
  - apply parses_space.
    eapply parses_bind; [by apply (parseIntPayload_print _ (c_i64 c))|].
    intros [t' v] Hv. cbn in Hv. subst v. by apply parses_ret.
  - eapply parses_bind; [by apply parseFloatPayload_print|]. intros ? ->. by apply parses_ret.
  - eapply parses_bind; [by apply parseFloatPayload_print|]. intros ? ->. by apply parses_ret.
  - apply parseSwitchPayload_print; [done| |by apply ascending_sorted|by apply N.ltb_lt].
    rewrite forallb_forall in H5. apply Forall_forall. intros v Hv. by apply H5, list_elem_of_In.
Qed.

Lemma kindName_word c : is_word (kindName c) = true.
Proof. unfold kindName. by destruct (c_kind c). Qed.

Lemma payload_stop c sw s : stop (payload_text c sw s) = true.
Proof. unfold payload_text. by destruct (c_kind c). Qed.

Definition const_text (i : N) (c : Const) (sw : SwData) (s : string) : string :=
  " " +:+ (String "c" (pretty i) +:+ (" " +:+ ("=" +:+ (" " +:+
    (kindName c +:+ payload_text c sw (eol +:+ s)))))).

Lemma parseConst_print codeLen i c sw size ls s σ :
  const_ok codeLen c sw = true -> findConst i σ = None -> fits64 i ->
  parses (parseConst size) ls (const_text i c sw s) σ (fun _ => True) true s
    (const_state i c sw σ).
Proof.
  intros Hok Hf Hi. unfold const_text. apply parses_space. unfold parseConst.
  eapply parses_peek; [by apply lexeme_name|]. intros t Hk Ht _.
  rewrite (prefixed_name t "c" i Hk Ht Hi).
  eapply parses_bind; [eapply parses_advance; by apply lexeme_name|]. intros _ _.
  eapply parses_pre; [apply lexk_space|].
  eapply parses_bind; [apply expectPunct_print; auto|]. intros _ _.
  eapply parses_pre; [apply lexk_space|].
  assert (lexeme Tk.Word (kindName c) (payload_text c sw (eol +:+ s))) as Hw.
  { apply lexeme_word; [apply kindName_word|apply payload_stop]. }
  eapply parses_peek; [done|]. intros kt Hkk Hkt _. rewrite isWord_word by done. cbn [negb].
  eapply parses_bind; [by eapply parses_advance|]. intros _ _.
  apply (parses_reads _ _ _ None).
  { intros st <-. exact Hf. }
  eapply parses_bind; [by apply (parsePayload_print codeLen)|]. intros ? ->.
  set (σ1 := if is_switch c then _ else σ).
  eapply parses_bind.
  { apply (parses_modify _ _ _ _ (push_constId (mkConstId i (u32 (vlen (m_cp (ps_m σ1))))) σ1));
      [done|]. intros st <-. done. }
  intros _ _. eapply parses_post; [apply parses_modify; [done|]; intros st Hst| |done].
  - rewrite erase_set_m. change (ps_m st) with (ps_m (erase st)). rewrite Hst.
    unfold const_state. subst σ1. by destruct (is_switch c).
  - apply lexk_eol.
Qed.

(** ** Handlers *)

Definition handler_ok (m : Method) (h : ExceptionHandler) : bool :=
  (h_start h <? vlen (m_code m)) && (h_end h <=? vlen (m_code m)) &&
  (h_handler h <? vlen (m_code m)) &&
  ((h_catchType h =? -1)%Z ||
   ((0 <=? h_catchType h)%Z &&
    match m_cp m !! Z.to_nat (h_catchType h) with
    | Some c => bool_decide (c_kind c = Kind.Class)
    | None => false
    end)).

(** The state after the line of a handler. *)
Definition handler_state (h : ExceptionHandler) (σ : St) : St :=
  let idx := u32 (vlen (m_handlers (ps_m σ))) in
  let σ := set_m (with_handlers (m_handlers (ps_m σ) ++ [mkHandler 0 0 0 (-1)]) (ps_m σ)) σ in
  let σ := if (h_catchType h <? 0)%Z then σ
           else push_catchType (mkCatchTypeFix idx 0 (Z.to_N (h_catchType h))) σ in
  let σ := push_catchLabel (mkCatchLabelFix idx 0 0 (labelName (h_start h))) σ in
  let σ := push_catchLabel (mkCatchLabelFix idx 1 0 (labelName (h_end h))) σ in
  push_catchLabel (mkCatchLabelFix idx 2 0 (labelName (h_handler h))) σ.

Lemma catch_part_print idx which kw v ls s σ :
  is_word kw = true -> stop s = true ->
  parses (catch_part idx which kw) ls (" " +:+ (kw +:+ (" " +:+ (labelName v +:+ s)))) σ
    (fun _ => True) false s (push_catchLabel (mkCatchLabelFix idx which 0 (labelName v)) σ).
Proof.
  intros Hw Hs. apply parses_space. unfold catch_part.
  eapply parses_bind; [by apply expectWord_print|]. intros _ _. apply parses_space.
  eapply parses_peek; [by apply lexeme_name|]. intros t _ _ _.
  eapply parses_bind; [by apply (parseLabelIdent_print v)|]. intros ? ->.
  apply parses_modify; [done|]. intros st <-. unfold erase. cbn. by rewrite map_app.
Qed.

Definition handler_text (h : ExceptionHandler) (s : string) : string :=
  " " +:+ ((if (h_catchType h <? 0)%Z then "all" else String "c" (pretty (Z.to_N (h_catchType h)))) +:+
  (" " +:+ ("from" +:+ (" " +:+ (labelName (h_start h) +:+
  (" " +:+ ("to" +:+ (" " +:+ (labelName (h_end h) +:+
  (" " +:+ ("handler" +:+ (" " +:+ (labelName (h_handler h) +:+ (eol +:+ s)))))))))))))).

Lemma parseCatch_print h ls s σ :
  (h_catchType h < 2 ^ 31)%Z ->
  parses parseCatch ls (handler_text h s) σ (fun _ => True) true s (handler_state h σ).
Proof.
  intros Hc. unfold parseCatch, handler_text, handler_state.
  apply (parses_reads _ _ _ (u32 (vlen (m_handlers (ps_m σ))))); [by intros st <-|].
  set (idx := u32 _). set (σ1 := set_m _ σ).
  eapply parses_bind.
  { apply (parses_modify _ _ _ _ σ1); [done|]. by intros st <-. }
  intros _ _. apply parses_space.
  set (tail := _ +:+ ("from" +:+ _)).
  assert (stop tail = true) as Htail by done.
  assert (forall σ2, parses (catch_part idx 0 "from";; catch_part idx 1 "to";; catch_part idx 2 "handler")
    false tail σ2 (fun _ => True) true s
    (push_catchLabel (mkCatchLabelFix idx 2 0 (labelName (h_handler h)))
      (push_catchLabel (mkCatchLabelFix idx 1 0 (labelName (h_end h)))
        (push_catchLabel (mkCatchLabelFix idx 0 0 (labelName (h_start h))) σ2)))) as Hparts.
  { intros σ2. eapply parses_bind; [by apply catch_part_print|]. intros _ _.
    eapply parses_bind; [by apply catch_part_print|]. intros _ _.
    eapply parses_post; [by apply catch_part_print|apply lexk_eol|done]. }
  clearbody tail σ1. destruct (Z.ltb_spec (h_catchType h) 0) as [Hneg|Hpos].
  - eapply parses_peek; [by apply lexeme_word|]. intros t Hk Ht _.
    assert (wordIs t "all" = true) as ->.
    { unfold wordIs. by rewrite isWord_word, Ht. }
    eapply parses_bind; [eapply parses_advance; by apply lexeme_word|]. intros _ _. apply Hparts.
  - set (v := Z.to_N (h_catchType h)).
    eapply parses_peek; [by apply lexeme_name|]. intros t Hk Ht _.
    assert (wordIs t "all" = false) as ->.
    { unfold wordIs. rewrite isWord_word, Ht by done. done. }
    assert (fits64 v) as Hv by (unfold fits64, v; lia).
    rewrite (prefixed_name t "c" v Hk Ht Hv).
    eapply parses_bind; [|intros _ _; apply Hparts].
    eapply parses_bind; [eapply parses_advance; by apply lexeme_name|]. intros _ _.
    apply parses_modify; [done|]. intros st <-. unfold erase. cbn. by rewrite map_app.
Qed.

(** ** The body loop *)

(** The loop parses the text [s] in the state [σ], and leaves [s'] and [σ']. *)
Definition body (regs locals : bool) (s : string) (σ : St) (s' : string) (σ' : St) : Prop :=
  forall fuel b off size, (b <= fuel)%nat ->
  within b b (parseBody fuel size (mkBody regs locals off)) true s σ (fun _ => True) true s' σ'.

Lemma within_le {A} b c (x : P A) ls s σ Q ls' s' σ' :
  (forall fuel, b = S fuel -> within (S fuel) fuel x ls s σ Q ls' s' σ') -> (b <= c)%nat ->
  within b c x ls s σ Q ls' s' σ'.
Proof.
  intros Hx Hc. destruct b as [|b]; [apply within_zero|]. by apply within_spend, Hc; apply Hx.
Qed.

(** A turn on a line that starts with the word [w]. *)
Lemma body_word (regs locals : bool) w s σ s' σ' :
  is_word w = true -> stop s = true ->
  (forall fuel b off size t, (b <= fuel)%nat -> tk_kind t = Tk.Word -> tk_text t = w ->
   within (S b) b
     (if (w =? ".end")%string then advance;; ret (tk_offset t, off)
      else if (w =? ".regs")%string then
        if regs then fail (errAt t "duplicate .regs directive")
        else advance;; v <~ parseCount ".regs"; modify (fun st => set_m (with_numRegs v (ps_m st)) st);;
          parseBody fuel size (mkBody true locals off)
      else if (w =? ".locals")%string then
        if locals then fail (errAt t "duplicate .locals directive")
        else advance;; v <~ parseCount ".locals"; modify (fun st => set_m (with_numLocals v (ps_m st)) st);;
          parseBody fuel size (mkBody regs true off)
      else if (w =? ".const")%string then
        advance;; parseConst size;; parseBody fuel size (mkBody regs locals off)
      else if (w =? ".catch")%string then
        advance;; parseCatch;; parseBody fuel size (mkBody regs locals off)
      else if starts_with "." w then fail (errAt t ("unknown directive '" +:+ w +:+ "'"))
      else
        t1 <~ peek 1;
        if isPunct t1 ":" && negb (tk_lineStart t1) then
          parseLabel t;; parseBody fuel size (mkBody regs locals off)
        else
          code <~ reads (fun st => m_code (ps_m st));
          parseInsn;;
          parseBody fuel size
            (match code with
             | [] => mkBody regs locals (tk_offset t)
             | _ => mkBody regs locals off
             end)) true (w +:+ s) σ (fun _ => True) true s' σ') ->
  body regs locals (w +:+ s) σ s' σ'.
Proof.
  intros Hw Hs H fuel b off size Hb. apply within_le; [|done]. intros b' ->.
  destruct fuel as [|fuel]; [lia|]. cbn [parseBody].
  eapply within_peek; [by apply lexeme_word|]. intros t Hk Ht _.
  destruct (decide _) as [He|_]; [by rewrite Hk in He|]. rewrite isWord_word, Ht by done.
  cbn [negb]. apply H; [lia|done..].
Qed.

Lemma body_end regs locals s σ : body regs locals (".end" +:+ (eol +:+ s)) σ s σ.
Proof.
  apply body_word; [done..|]. intros fuel b off size t Hb Hk Ht.
  change ((".end" =? ".end")%string) with true. cbn iota.
  eapply (within_post _ _ _ _ _ _ _ _ (fun _ => True)); [|apply (lexk_eol false)|done].
  eapply within_bind; [eapply within_eats, eats_advance; by apply lexeme_word|].
  intros _ _. by apply within_ret.
Qed.

Lemma parseCount_print d v ls s σ :
  fits32 v -> stop s = true ->
  parses (parseCount d) ls ((pretty v : string) +:+ s) σ (fun x => x = v) false s σ.
Proof.
  intros Hv Hs. unfold parseCount. eapply parses_peek; [by apply lexeme_N|]. intros t Hk Ht _.
  rewrite isInt_int by done. cbn [negb].
  eapply parses_bind; [eapply parses_advance; by apply lexeme_N|]. intros _ _.
  unfold fits32 in Hv. eapply parses_bind.
  { apply (parseIntToken_print _ (Z.of_N v)); [by rewrite Ht, pretty_N_as_Z|unfold is_i64; lia]. }
  intros ? ->. destruct (Z.ltb_spec (Z.of_N v) 0); [lia|].
  destruct (Z.ltb_spec 4294967295 (Z.of_N v)); [lia|]. apply parses_ret. apply N2Z.id.
Qed.

Lemma body_regs v locals s σ s' σ' :
  fits32 v ->
  body true locals s (set_m (with_numRegs v (ps_m σ)) σ) s' σ' ->
  body false locals (".regs" +:+ (" " +:+ ((pretty v : string) +:+ (eol +:+ s)))) σ s' σ'.
Proof.
  intros Hv H. apply body_word; [done..|]. intros fuel b off size t Hb Hk Ht.
  cbn [String.eqb Ascii.eqb Bool.eqb].
  eapply within_bind; [eapply within_eats, eats_advance; by apply lexeme_word|]. intros _ _.
  apply within_space. eapply within_bind; [by apply within_parses, parseCount_print|]. intros ? ->.
  eapply within_pre; [apply lexk_eol|].
  eapply within_bind; [|intros _ _; by apply H].
  apply within_modify; [done|]. by intros st <-.
Qed.

Lemma body_locals v regs s σ s' σ' :
  fits32 v ->
  body regs true s (set_m (with_numLocals v (ps_m σ)) σ) s' σ' ->
  body regs false (".locals" +:+ (" " +:+ ((pretty v : string) +:+ (eol +:+ s)))) σ s' σ'.
Proof.
  intros Hv H. apply body_word; [done..|]. intros fuel b off size t Hb Hk Ht.
  cbn [String.eqb Ascii.eqb Bool.eqb].
  eapply within_bind; [eapply within_eats, eats_advance; by apply lexeme_word|]. intros _ _.
  apply within_space. eapply within_bind; [by apply within_parses, parseCount_print|]. intros ? ->.
  eapply within_pre; [apply lexk_eol|].
  eapply within_bind; [|intros _ _; by apply H].
  apply within_modify; [done|]. by intros st <-.
Qed.

Lemma body_const codeLen i c sw regs locals s σ s' σ' :
  const_ok codeLen c sw = true -> findConst i σ = None -> fits64 i ->
  body regs locals s (const_state i c sw σ) s' σ' ->
  body regs locals (".const" +:+ const_text i c sw s) σ s' σ'.
Proof.
  intros Hok Hf Hi H. apply body_word; [done..|]. intros fuel b off size t Hb Hk Ht.
  cbn [String.eqb Ascii.eqb Bool.eqb].
  eapply within_bind; [eapply within_eats, eats_advance; by apply lexeme_word|]. intros _ _.
  eapply within_bind; [by eapply within_parses, parseConst_print|]. intros _ _. by apply H.
Qed.

Lemma body_catch h regs locals s σ s' σ' :
  (h_catchType h < 2 ^ 31)%Z ->
  body regs locals s (handler_state h σ) s' σ' ->
  body regs locals (".catch" +:+ handler_text h s) σ s' σ'.
Proof.
  intros Hc H. apply body_word; [done..|]. intros fuel b off size t Hb Hk Ht.
  cbn [String.eqb Ascii.eqb Bool.eqb].
  eapply within_bind; [eapply within_eats, eats_advance; by apply lexeme_word|]. intros _ _.
  eapply within_bind; [by apply within_parses, parseCatch_print|]. intros _ _. by apply H.
Qed.

(** A word that is no directive. *)
Lemma no_directive w :
  starts_with "." w = false ->
  (w =? ".end")%string = false /\ (w =? ".regs")%string = false /\
  (w =? ".locals")%string = false /\ (w =? ".const")%string = false /\
  (w =? ".catch")%string = false.
Proof.
  intros H. split_and!; apply String.eqb_neq; intros ->; done.
Qed.

Lemma body_label v regs locals s σ s' σ' :
  labelDefined (labelName v) σ = false ->
  body regs locals s (push_pending (mkPending (labelName v) 0) σ) s' σ' ->
  body regs locals (labelName v +:+ (":" +:+ (eol +:+ s))) σ s' σ'.
Proof.
  intros Hdef H. apply body_word; [by apply is_word_prefixed|done|].
  intros fuel b off size t Hb Hk Ht.
  destruct (no_directive (labelName v) eq_refl) as (-> & -> & -> & -> & ->).
  change (starts_with "." (labelName v)) with false. cbn iota.
  eapply within_peek1; [by apply lexeme_name|]. intros t1 l H1.
  rewrite (lexk_tok false Tk.Punct ":") in H1 by (apply lexeme_punct; auto).
  injection H1 as Hk1 Ht1 Hl1 _. rewrite isPunct_punct, Hl1 by done. cbn [negb andb].
  eapply within_bind; [by apply within_eats, parseLabel_print|]. intros _ _. by apply H.
Qed.

(** After the mnemonic there is no colon on the same line. *)
Lemma operands_no_colon sig x s t l :
  key t :: l = lexk false (printOperands sig x +:+ (eol +:+ s)) ->
  isPunct t ":" && negb (tk_lineStart t) = false.
Proof.
  assert (forall k w r, key t :: l = lexk false (" " +:+ (w +:+ r)) -> lexeme k w r -> k <> Tk.Punct ->
            isPunct t ":" && negb (tk_lineStart t) = false) as Hword.
  { intros k w r H Hl Hk. rewrite lexk_space, (lexk_tok _ _ _ _ Hl) in H. injection H as Hk1 _ _ _.
    by rewrite not_punct by (by rewrite Hk1). }
  intros H. destruct sig; cbn [printOperands] in H; rewrite ?append_assoc in H;
    try (eapply (Hword Tk.Word (String _ _)); [exact H|by apply lexeme_name|done]).
  - rewrite append_nil_l, lexk_eol in H. symmetry in H. apply lexk_lineStart in H. cbn in H.
    by rewrite H, andb_false_r.
  - eapply (Hword Tk.Int (pretty _)); [exact H|by apply lexeme_N|done].
Qed.

Lemma body_insn op x regs locals s σ s' σ' :
  of_code (i_op x) = Some op ->
  fits16 (i_dst x) -> fits16 (i_a x) -> fits16 (i_b x) -> fits32 (i_imm x) ->
  absNat (ps_m σ) = false ->
  body regs locals s (ins_state x (oi_sig (info op)) σ) s' σ' ->
  body regs locals (printInsn x +:+ (eol +:+ s)) σ s' σ'.
Proof.
  intros Hop Hd Ha Hb Hi Habs H.
  assert (printInsn x +:+ (eol +:+ s) = opName op +:+ (printOperands (oi_sig (info op)) x +:+ (eol +:+ s)))
    as Htext by (unfold printInsn; by rewrite Hop, append_assoc).
  destruct (opName_facts op) as (_ & Hw & Hdot).
  assert (stop (printOperands (oi_sig (info op)) x +:+ (eol +:+ s)) = true) as Hs
    by (by destruct (oi_sig (info op))).
  rewrite Htext. apply body_word; [done..|]. intros fuel b off size t Hbf Hk Ht.
  destruct (no_directive _ Hdot) as (-> & -> & -> & -> & ->). rewrite Hdot. cbn iota.
  eapply within_peek1; [by apply lexeme_word|]. intros t1 l H1.
  rewrite (operands_no_colon _ _ _ _ _ H1).
  apply (within_reads _ _ _ _ (m_code (ps_m σ))); [by intros st <-|].
  rewrite <- Htext. eapply within_bind; [by eapply within_eats, parseInsn_print|]. intros _ _.
  destruct (m_code (ps_m σ)); by apply H.
Qed.

(** ** The header *)

Definition kFlagMask : N := fold_right (fun f acc => N.lor (f.2 : N) acc) 0 kFlags.

Definition flag_words (flags : N) : list string :=
  map fst (List.filter (fun f => negb (N.land flags f.2 =? 0)) kFlags).

(** What [parseFlags] computes from the texts of its tokens. *)
Fixpoint parse_words (l : list string) (seen : list string) (flags : N) : option N :=
  match l with
  | [] => Some flags
  | w :: r =>
      match List.find (fun f => (f.1 =? w)%string) kFlags with
      | None => None
      | Some f =>
          if existsb (fun x => (x =? w)%string) seen then None
          else parse_words r (w :: seen) (N.lor flags f.2)
      end
  end.

Lemma parseFlags_words l : forall seen flags f st,
  parse_words (map tk_text l) seen flags = Some f -> parseFlags l seen flags st = Ok f st.
Proof.
  induction l as [|t l IH]; intros seen flags f st; cbn [map parse_words parseFlags].
  - by intros [= ->].
  - destruct (List.find _ _) as [x|]; [|done]. destruct (existsb _ _); [done|]. apply IH.
Qed.

(** Every set of flags that has words is read back: checked on all of them. *)
Lemma flag_words_parse flags :
  N.land flags kFlagMask = flags ->
  parse_words (flag_words flags) [] 0 = Some flags /\
  Forall (fun w => is_word w = true /\ starts_with "(" w = false) (flag_words flags).
Proof.
  intros Hf. assert (flags < 2048) as Hlt.
  { rewrite <- Hf. change kFlagMask with 1471. apply N.le_lt_trans with 1471; [|lia].
    apply N.ldiff_le. apply N.bits_inj. intros i. rewrite N.ldiff_spec, N.land_spec, N.bits_0.
    by destruct (N.testbit flags i), (N.testbit 1471 i). }
  split.
  - assert (forallb (fun f => bool_decide (N.land f kFlagMask <> f) ||
        bool_decide (parse_words (flag_words f) [] 0 = Some f)) (indices 2048) = true) as H
      by (by vm_compute).
    rewrite forallb_forall in H. specialize (H flags ltac:(by apply list_elem_of_In, elem_of_indices)).
    apply orb_true_iff in H as [H|H]; apply bool_decide_eq_true in H; done.
  - unfold flag_words. apply Forall_forall. intros w Hw. apply list_elem_of_In, in_map_iff in Hw as (f & <- & Hin).
    apply filter_In in Hin as [Hin _].
    assert (forallb (fun f => is_word f.1 && negb (starts_with "(" f.1)) kFlags = true) as H
      by (by vm_compute).
    rewrite forallb_forall in H. specialize (H f Hin).
    by rewrite andb_true_iff, negb_true_iff in H.
Qed.

Definition header_text (flags : N) (name descriptor : string) (s : string) : string :=
  concats (map (fun w => " " +:+ w) (flag_words flags)) +:+
  (" " +:+ (name +:+ (" " +:+ (descriptor +:+ (eol +:+ s))))).

Lemma print_flags_text m : print_flags m = concats (map (fun w => " " +:+ w) (flag_words (m_flags m))).
Proof.
  unfold print_flags, flag_words. induction kFlags as [|f l IH]; [done|].
  cbn [map concats List.filter]. rewrite IH. by destruct (negb _).
Qed.

Lemma header_keys l rest :
  Forall (fun w => is_word w = true /\ starts_with "(" w = false) l -> stop rest = true ->
  lexk false (concats (map (fun w => " " +:+ w) l) +:+ rest) =
  map (fun w => (Tk.Word, w, false)) l ++ lexk false rest.
Proof.
  intros Hl Hr. induction Hl as [|w l [Hw _] Hl IH]; [done|].
  cbn [map concats]. rewrite !append_assoc, lexk_space, (lexk_tok false Tk.Word w).
  - cbn [app]. by rewrite IH.
  - apply lexeme_word; [done|]. by destruct l.
Qed.

Lemma header_len_words ft n de l :
  Forall (fun t => tk_kind t = Tk.Word /\ starts_with "(" (tk_text t) = false) ft ->
  tk_kind n = Tk.Word -> starts_with "(" (tk_text n) = false ->
  starts_with "(" (tk_text de) = true ->
  header_len (ft ++ n :: de :: l) = S (List.length ft).
Proof.
  intros Hft Hn Hnt Hde. induction Hft as [|t ft [Hk Ht] Hft IH]; cbn.
  - rewrite isWord_word, Hnt by done. cbn. by rewrite Hde, orb_true_r.
  - rewrite isWord_word, Ht by done. cbn. by rewrite IH.
Qed.

Lemma advances_drop n : forall st,
  (n < List.length (ps_toks st))%nat ->
  advances n st = Ok tt (set_toks (drop n (ps_toks st)) st).
Proof.
  induction n as [|n IH]; intros st Hl; [by destruct st|].
  cbn [advances]. unfold bind, advance at 1, modify. rewrite IH.
  - cbn [set_toks ps_toks]. by destruct (ps_toks st) as [|t [|t1 l]]; cbn in *; [lia..|].
  - cbn [set_toks ps_toks]. destruct (ps_toks st) as [|t [|t1 l]]; cbn in *; lia.
Qed.

Lemma parseHeader_print flags name descriptor s σ :
  N.land flags kFlagMask = flags ->
  is_word name = true -> starts_with "(" name = false ->
  is_word descriptor = true -> starts_with "(" descriptor = true ->
  parses parseHeader false (header_text flags name descriptor s) σ (fun _ => True) true s
    (set_m (with_header name descriptor flags (ps_m σ)) σ).
Proof.
  intros Hf Hn Hnp Hd Hdp b st Ht Hs Hb. destruct (flag_words_parse flags Hf) as [Hp Hw].
  unfold header_text in Ht. rewrite header_keys in Ht by done.
  rewrite lexk_space, (lexk_tok false Tk.Word name), lexk_space,
    (lexk_tok false Tk.Word descriptor), lexk_eol in Ht by (by apply lexeme_word).
  apply map_eq_app in Ht as (ft & l & Htoks & Hft & Ht).
  destruct l as [|nt [|dt l]]; [done..|]. cbn [map] in Ht.
  injection Ht as Hnk Hnt _ Hdk Hdt _ Hl.
  assert (map tk_text ft = flag_words flags) as Hftt.
  { apply (f_equal (map (fun k : Tk.t * string * bool => k.1.2))) in Hft. rewrite !map_map in Hft.
    etransitivity; [exact Hft|apply map_id]. }
  assert (Forall (fun t => tk_kind t = Tk.Word /\ starts_with "(" (tk_text t) = false) ft) as Hfw.
  { clear Htoks Hb. rewrite <- Hftt in Hft, Hw. apply Forall_map in Hw. rewrite map_map in Hft.
    revert Hft Hw. clear. induction ft as [|t ft IH]; intros Hft Hw; [constructor|].
    cbn in Hft. injection Hft as Hk _ Hft. inversion Hw as [|? ? [_ H] Hw']. subst.
    constructor; [done|by apply IH]. }
  unfold parseHeader, bind at 1, reads at 1. cbv zeta.
  rewrite Htoks, (header_len_words ft nt dt l Hfw Hnk) by (by rewrite ?Hnt, ?Hdt).
  assert (nth_tok (S (List.length ft)) (ft ++ nt :: dt :: l) = dt) as ->.
  { unfold nth_tok. by rewrite lookup_app_r, Nat.sub_succ_l, Nat.sub_diag by lia. }
  assert (nth_tok (List.length ft) (ft ++ nt :: dt :: l) = nt) as ->.
  { unfold nth_tok. by rewrite lookup_app_r, Nat.sub_diag by lia. }
  rewrite isWord_word, Hdt, Hdp, Hnt by done. cbn [negb orb].
  rewrite take_app_length. unfold bind at 1.
  rewrite (parseFlags_words ft [] 0 flags st) by (by rewrite Hftt).
  unfold bind at 1, modify at 1. rewrite advances_drop.
  - eexists _, _. split; [done|]. split_and!; [done| |by rewrite <- Hs|].
    + cbn [set_m set_toks ps_toks]. rewrite Htoks.
      replace (S (S (List.length ft))) with (List.length ft + 2)%nat by lia.
      rewrite drop_app_add. done.
    + cbn [set_m set_toks ps_toks]. rewrite length_drop. lia.
  - cbn [set_m ps_toks]. rewrite Htoks, length_app. cbn [List.length].
    destruct (lexk_cons true s) as (k & r & Hk). rewrite Hk in Hl. destruct l; [done|]. cbn. lia.
Qed.
