(* ===== verification/RbcTextResolve.v ===== *)
(** * Resolving the fixups of a printed method

    The lists that the parser has collected when it reaches the end of a printed
    method, and what [resolve] makes of them: the method that was printed. *)

From stdpp Require Import pretty.
From Stdlib Require Import Ascii String.
From S2P Require Import Prelude Machine RbcOpcode Rbc RbcLex CharConv RbcParse RbcPrint.
From S2P Require Import RbcTextTotal RbcTextLex RbcTextParse RbcTextLines.

Local Open Scope N_scope.

Definition sig_of (x : Ins) : Sig := match of_code (i_op x) with Some op => oi_sig (info op) | None => Sig.None end.

(** ** The lists *)

Definition raw_ins (x : Ins) : Ins := shown (sig_of x) x.

Fixpoint const_ids (i : N) (l : list (Const * SwData)) : list ConstId :=
  match l with [] => [] | _ :: r => mkConstId i (u32 i) :: const_ids (i + 1) r end.

Fixpoint all_switch_fixes (i : N) (l : list (Const * SwData)) : list SwitchFix :=
  match l with
  | [] => []
  | (c, sw) :: r => (if is_switch c then switch_fixes i sw else []) ++ all_switch_fixes (i + 1) r
  end.

Fixpoint branch_fixes (pc : N) (l : list Ins) : list BranchFix :=
  match l with
  | [] => []
  | x :: r =>
      (if uses_cp (sig_of x) then []
       else if uses_label (sig_of x) then [mkBranchFix (u32 pc) 0 (labelName (i_imm x))] else []) ++
      branch_fixes (pc + 1) r
  end.

Fixpoint cp_fixes (pc : N) (l : list Ins) : list InsnCpFix :=
  match l with
  | [] => []
  | x :: r =>
      (if uses_cp (sig_of x) then [mkInsnCpFix (u32 pc) 0 (i_imm x)] else []) ++ cp_fixes (pc + 1) r
  end.

(** The labels of the marked positions. *)
Fixpoint label_defs (tgt : N -> bool) (pc : N) (l : list Ins) : list LabelDef :=
  match l with
  | [] => []
  | _ :: r =>
      (if tgt pc then [mkLabelDef (labelName pc) 0 (u32 pc) false] else []) ++
      label_defs tgt (pc + 1) r
  end.

Fixpoint catch_labels (i : N) (l : list ExceptionHandler) : list CatchLabelFix :=
  match l with
  | [] => []
  | h :: r =>
      mkCatchLabelFix (u32 i) 0 0 (labelName (h_start h)) ::
      mkCatchLabelFix (u32 i) 1 0 (labelName (h_end h)) ::
      mkCatchLabelFix (u32 i) 2 0 (labelName (h_handler h)) :: catch_labels (i + 1) r
  end.

Fixpoint catch_types (i : N) (l : list ExceptionHandler) : list CatchTypeFix :=
  match l with
  | [] => []
  | h :: r =>
      (if (h_catchType h <? 0)%Z then [] else [mkCatchTypeFix (u32 i) 0 (Z.to_N (h_catchType h))]) ++
      catch_types (i + 1) r
  end.

(** ** Offsets do not matter to a resolution without errors *)

(** The same method, and as many errors. *)
Definition res_eq (x y : Res) : Prop := x.1 = y.1 /\ List.length x.2 = List.length y.2.

Lemma fold_res_eq {A} (f g : Res -> A -> Res) (e : A -> A) l : forall x y,
  (forall x y a, res_eq x y -> res_eq (f x a) (g y (e a))) -> res_eq x y ->
  res_eq (fold_left f l x) (fold_left g (map e l) y).
Proof. induction l as [|a l IH]; intros x y Hf Hxy; cbn; [done|]. apply IH; auto. Qed.

Lemma res_eq_err x y (e e' : TextError) : res_eq x y -> res_eq (x.1, x.2 ++ [e]) (y.1, y.2 ++ [e']).
Proof. intros [H1 H2]. split; cbn; [done|]. rewrite !length_app. cbn. lia. Qed.

Lemma resolve_label_erase st name o o' endOk :
  match resolve_label st name o endOk, resolve_label (erase st) name o' endOk with
  | inl pc, inl pc' => pc = pc'
  | inr _, inr _ => True
  | _, _ => False
  end.
Proof.
  unfold resolve_label. rewrite <- findLabel_erase. destruct (findLabel name st) as [d|]; [|done].
  cbn. by destruct (_ && _).
Qed.

Ltac by_label st :=
  intros [m es] [m' es'] f [Hm Hl]; cbn in Hm; subst m';
  match goal with |- res_eq (?g st _ _) _ => unfold g end;
  match goal with |- context [resolve_label st ?n ?o ?b] =>
    pose proof (resolve_label_erase st n o 0 b) end;
  cbn [e_branch e_switch e_catchLabel bf_insn bf_offset bf_name sf_constIdx sf_pos sf_offset
       sf_name lf_handler lf_which lf_offset lf_name];
  repeat match goal with |- context [resolve_label ?s ?n ?o ?b] =>
    destruct (resolve_label s n o b) end;
  try done; subst; (by apply res_eq_err) || by split.

Lemma fix_branch_erase st x y f : res_eq x y -> res_eq (fix_branch st x f) (fix_branch (erase st) y (e_branch f)).
Proof. revert x y f. by_label st. Qed.
Lemma fix_switch_erase st x y f : res_eq x y -> res_eq (fix_switch st x f) (fix_switch (erase st) y (e_switch f)).
Proof. revert x y f. by_label st. Qed.
Lemma fix_catchLabel_erase st x y f :
  res_eq x y -> res_eq (fix_catchLabel st x f) (fix_catchLabel (erase st) y (e_catchLabel f)).
Proof. revert x y f. by_label st. Qed.

Lemma fix_insnCp_erase st x y f :
  res_eq x y -> res_eq (fix_insnCp st x f) (fix_insnCp (erase st) y (e_insnCp f)).
Proof.
  destruct x as [m es], y as [m' es']. intros [Hm Hl]. cbn in Hm. subst m'. unfold fix_insnCp.
  change (findConst (cf_cid (e_insnCp f)) (erase st)) with (findConst (cf_cid f) st).
  cbn [e_insnCp cf_insn cf_offset cf_cid fst snd].
  destruct (findConst (cf_cid f) st); [|by apply (res_eq_err (m, es) (m, es'))].
  destruct (vget _ _); [|by split]. destruct (vget _ _); [|by split].
  destruct (switch_error _ _); [|by split].
  by apply (res_eq_err (patch_ins _ _ m, es) (patch_ins _ _ m, es')).
Qed.

Lemma fix_catchType_erase st x y f :
  res_eq x y -> res_eq (fix_catchType st x f) (fix_catchType (erase st) y (e_catchType f)).
Proof.
  destruct x as [m es], y as [m' es']. intros [Hm Hl]. cbn in Hm. subst m'. unfold fix_catchType.
  change (findConst (tf_cid (e_catchType f)) (erase st)) with (findConst (tf_cid f) st).
  cbn [e_catchType tf_handler tf_offset tf_cid fst snd].
  destruct (findConst (tf_cid f) st); [|by apply (res_eq_err (m, es) (m, es'))].
  destruct (vget _ _); [|by split].
  destruct (bool_decide _); [by split|by apply (res_eq_err (m, es) (m, es'))].
Qed.

Lemma pastEnd_erase st : List.length (pastEnd_errors (erase st)) = List.length (pastEnd_errors st).
Proof.
  unfold pastEnd_errors. cbn [erase labels_ catchLabelFixes_].
  assert (forall n, existsb (fun f => (lf_which f =? 1) && (lf_name f =? n)%string)
            (map e_catchLabel (catchLabelFixes_ st)) =
          existsb (fun f => (lf_which f =? 1) && (lf_name f =? n)%string) (catchLabelFixes_ st)) as He.
  { intros n. induction (catchLabelFixes_ st) as [|f l IH]; [done|]. cbn. by rewrite IH. }
  induction (labels_ st) as [|d l IH]; [done|]. cbn [map flat_map]. rewrite !length_app, IH.
  cbn [e_label ld_pastEnd ld_name]. rewrite He. by destruct (_ && _).
Qed.

Lemma resolve_erase st m : resolve (erase st) = (m, []) -> resolve st = (m, []).
Proof.
  intros H. assert (res_eq (resolve st) (resolve (erase st))) as [H1 H2].
  { unfold resolve. cbv zeta. cbn [erase insnCpFixes_ branchFixes_ switchFixes_ catchLabelFixes_ catchTypeFixes_ ps_m].
    match goal with |- res_eq (fst ?x, _) (fst ?y, _) => assert (res_eq x y) as [Ha Hb] end.
    { apply fold_res_eq; [apply fix_catchType_erase|].
      apply fold_res_eq; [apply fix_catchLabel_erase|].
      apply fold_res_eq; [apply fix_switch_erase|].
      apply fold_res_eq; [apply fix_branch_erase|].
      apply fold_res_eq; [apply fix_insnCp_erase|]. done. }
    split; cbn [fst snd]; [done|]. rewrite !length_app, pastEnd_erase. lia. }
  rewrite H in H1, H2. destruct (resolve st) as [m' [|e es]]; cbn in H1, H2; [by rewrite H1|lia].
Qed.

(** ** What a printed method resolves to *)

(** The state at the end of the text of [m], past-end labels bound. *)
Definition end_state (tgt : N -> bool) (m : Method) : St :=
  let l := zip (m_cp m) (swData m) in
  let n := vlen (m_code m) in
  mkSt []
    (mkMethod (m_name m) (m_descriptor m) (m_flags m) (m_numRegs m) (m_numLocals m)
       (map raw_ins (m_code m)) (map (fun x => raw_const x.1 x.2) l)
       (map (fun _ => mkHandler 0 0 0 (-1)) (m_handlers m)))
    (label_defs tgt 0 (m_code m) ++ (if tgt n then [mkLabelDef (labelName n) 0 (u32 n) true] else []))
    []
    (branch_fixes 0 (m_code m)) (all_switch_fixes 0 l) (cp_fixes 0 (m_code m))
    (catch_labels 0 (m_handlers m)) (catch_types 0 (m_handlers m)) (const_ids 0 l).

Section resolve.
Variable σ : St.

(** Looking names up. *)
Lemma find_const_ids v l : forall i,
  i <= v -> v < i + vlen l -> fits32 v ->
  List.find (fun c => ci_cid c =? v) (const_ids i l) = Some (mkConstId v v).
Proof.
  induction l as [|x l IH]; intros i Hi Hv H32; [cbn in Hv; unfold vlen in Hv; cbn in Hv; lia|].
  cbn [const_ids List.find ci_cid]. destruct (N.eqb_spec i v) as [->|Hne].
  - by rewrite u32_small.
  - apply IH; [lia| |done]. unfold vlen in *. cbn [List.length] in Hv. lia.
Qed.

Lemma find_label_defs tgt v l : forall pc,
  pc <= v -> v < pc + vlen l -> fits32 v -> tgt v = true -> forall rest,
  List.find (fun d => (ld_name d =? labelName v)%string) (label_defs tgt pc l ++ rest) =
  Some (mkLabelDef (labelName v) 0 v false).
Proof.
  induction l as [|x l IH]; intros pc Hpc Hv H32 Ht rest; [unfold vlen in Hv; cbn in Hv; lia|].
  cbn [label_defs]. destruct (N.eqb_spec pc v) as [->|Hne].
  - rewrite Ht. cbn [app List.find ld_name]. rewrite String.eqb_refl. by rewrite u32_small.
  - assert (List.find (fun d => (ld_name d =? labelName v)%string) (label_defs tgt (pc + 1) l ++ rest) =
      Some (mkLabelDef (labelName v) 0 v false)) as H.
    { apply IH; [lia| |done..]. unfold vlen in *. cbn [List.length] in Hv. lia. }
    destruct (tgt pc); cbn [app List.find ld_name]; [|done].
    rewrite labelName_eqb. destruct (N.eqb_spec pc v); [done|]. done.
Qed.

Lemma find_label_past tgt n l : forall pc,
  pc + vlen l <= n -> forall rest,
  List.find (fun d => (ld_name d =? labelName n)%string) (label_defs tgt pc l ++ rest) =
  List.find (fun d => (ld_name d =? labelName n)%string) rest.
Proof.
  induction l as [|x l IH]; intros pc Hn rest; [done|].
  unfold vlen in Hn. cbn [List.length] in Hn.
  cbn [label_defs]. destruct (tgt pc); cbn [app List.find ld_name].
  - rewrite labelName_eqb. destruct (N.eqb_spec pc n); [lia|]. apply IH. unfold vlen. lia.
  - apply IH. unfold vlen. lia.
Qed.

Lemma vget_mid {A} (a : list A) x b : vget (a ++ x :: b) (vlen a) = Some x.
Proof. unfold vlen. rewrite vget_lookup, Nat2N.id, lookup_app_r, Nat.sub_diag by lia. done. Qed.

Lemma vset_mid {A} (a : list A) x y b : vset (a ++ x :: b) (vlen a) y = a ++ y :: b.
Proof.
  unfold vlen. rewrite vset_insert, Nat2N.id.
  rewrite <- (Nat.add_0_r (List.length a)) at 1. by rewrite insert_app_r.
Qed.

Lemma vset_second {A} (x y w : A) l : vset (x :: y :: l) 1 w = x :: w :: l.
Proof. apply (vset_mid [x] y w l). Qed.
Lemma vset_third {A} (x y z w : A) l : vset (x :: y :: z :: l) 2 w = x :: y :: w :: l.
Proof. apply (vset_mid [x; y] z w l). Qed.

(** What the constants of an instruction, and then its label, are resolved to. *)
Definition with_cp_imm (x : Ins) : Ins :=
  if uses_cp (sig_of x) then set_imm (i_imm x) (raw_ins x) else raw_ins x.

Lemma raw_ins_op x : i_op (raw_ins x) = i_op x.
Proof. unfold raw_ins. by destruct (sig_of x). Qed.

Lemma with_cp_imm_op x : i_op (with_cp_imm x) = i_op x.
Proof. unfold with_cp_imm. destruct (uses_cp _); apply raw_ins_op. Qed.

Definition cp_good (m : Method) (x : Ins) : Prop :=
  uses_cp (sig_of x) = true ->
  findConst (i_imm x) σ = Some (i_imm x) /\
  exists c, vget (m_cp m) (i_imm x) = Some c /\ switch_error (of_code (i_op x)) c = None.

Lemma fold_cp_fixes l : forall done m,
  m_code m = done ++ map raw_ins l -> vlen done + vlen l < 2 ^ 32 -> Forall (cp_good m) l ->
  fold_left (fix_insnCp σ) (cp_fixes (vlen done) l) (m, []) =
  (with_code (done ++ map with_cp_imm l) m, []).
Proof.
  induction l as [|x l IH]; intros done m Hc Hlen Hl.
  { cbn in *. rewrite app_nil_r in *. by rewrite <- Hc; destruct m. }
  inversion Hl as [|? ? Hx Hl']. subst. unfold vlen in Hlen. cbn [List.length] in Hlen.
  cbn [cp_fixes]. unfold cp_good in Hx. rewrite fold_left_app.
  replace (vlen done + 1) with (vlen (done ++ [with_cp_imm x])) by (rewrite vlen_app; done).
  assert (fold_left (fix_insnCp σ) (if uses_cp (sig_of x) then [mkInsnCpFix (u32 (vlen done)) 0 (i_imm x)] else [])
    (m, []) = (with_code ((done ++ [with_cp_imm x]) ++ map raw_ins l) m, [])) as ->.
  { rewrite <- app_assoc. cbn [app]. unfold with_cp_imm. destruct (uses_cp (sig_of x)).
    - destruct (Hx eq_refl) as (Hfc & c & Hcp & Hsw). cbn [fold_left].
      unfold fix_insnCp. cbn [cf_insn cf_offset cf_cid fst snd]. rewrite Hfc.
      rewrite u32_small by (unfold fits32, vlen; lia). unfold patch_ins. rewrite Hc. cbn [map].
      rewrite vget_mid, vset_mid. cbn [with_code m_code m_cp].
      rewrite vget_mid, Hcp. cbn [set_imm i_op]. rewrite raw_ins_op, Hsw. done.
    - cbn [fold_left map] in *. rewrite <- Hc. by destruct m. }
  rewrite IH.
  - cbn [with_code m_name m_descriptor m_flags m_numRegs m_numLocals m_code m_cp m_handlers map].
    by rewrite <- app_assoc.
  - done.
  - rewrite vlen_app. unfold vlen. cbn [List.length]. lia.
  - eapply Forall_impl; [exact Hl'|]. intros y Hy. exact Hy.
Qed.

Definition label_good (x : Ins) : Prop :=
  uses_cp (sig_of x) = false -> uses_label (sig_of x) = true ->
  resolve_label σ (labelName (i_imm x)) 0 false = inl (i_imm x).

Definition with_imm (x : Ins) : Ins :=
  if uses_cp (sig_of x) || uses_label (sig_of x) then set_imm (i_imm x) (raw_ins x) else raw_ins x.

Lemma fold_branch_fixes l : forall done m,
  m_code m = done ++ map with_cp_imm l -> vlen done + vlen l < 2 ^ 32 -> Forall label_good l ->
  fold_left (fix_branch σ) (branch_fixes (vlen done) l) (m, []) =
  (with_code (done ++ map with_imm l) m, []).
Proof.
  induction l as [|x l IH]; intros done m Hc Hlen Hl.
  { cbn in *. rewrite app_nil_r in *. by rewrite <- Hc; destruct m. }
  inversion Hl as [|? ? Hx Hl']. subst. unfold vlen in Hlen. cbn [List.length] in Hlen.
  cbn [branch_fixes]. unfold label_good in Hx. rewrite fold_left_app.
  replace (vlen done + 1) with (vlen (done ++ [with_imm x])) by (rewrite vlen_app; done).
  assert (fold_left (fix_branch σ)
    (if uses_cp (sig_of x) then [] else if uses_label (sig_of x)
     then [mkBranchFix (u32 (vlen done)) 0 (labelName (i_imm x))] else [])
    (m, []) = (with_code ((done ++ [with_imm x]) ++ map with_cp_imm l) m, [])) as ->.
  { rewrite <- app_assoc. cbn [app]. cbn [map] in Hc. unfold with_cp_imm at 1 in Hc. unfold with_imm.
    destruct (uses_cp (sig_of x)); cbn [orb];
      [cbn [fold_left]; rewrite <- Hc; by destruct m|].
    destruct (uses_label (sig_of x)); [|cbn [fold_left]; rewrite <- Hc; by destruct m].
    cbn [fold_left]. unfold fix_branch. cbn [bf_insn bf_offset bf_name fst snd].
    rewrite (Hx eq_refl eq_refl).
    rewrite u32_small by (unfold fits32, vlen; lia). unfold patch_ins. rewrite Hc.
    by rewrite vget_mid, vset_mid. }
  rewrite IH.
  - cbn [with_code m_name m_descriptor m_flags m_numRegs m_numLocals m_code m_cp m_handlers map].
    by rewrite <- app_assoc.
  - done.
  - rewrite vlen_app. unfold vlen. cbn [List.length]. lia.
  - done.
Qed.

(** The targets of a switch constant. *)
Definition target_pc (t : N) : Z := i32 (Z.of_N t).

Definition target_good (t : N) : Prop := resolve_label σ (labelName t) 0 false = inl t.

Definition with_ints (l : list Z) (c : Const) : Const :=
  mkConst (c_kind c) (c_i32 c) (c_i64 c) (c_f32 c) (c_f64 c) (c_str c) (c_str2 c) (c_str3 c) l.

Lemma fix_switch_at a c b m pos t :
  m_cp m = a ++ c :: b -> target_good t ->
  fix_switch σ (m, []) (mkSwitchFix (vlen a) pos 0 (labelName t)) =
  (with_cp (a ++ with_ints (vset (c_ints c) pos (target_pc t)) c :: b) m, []).
Proof.
  intros Hc Ht. unfold fix_switch. cbn [sf_constIdx sf_pos sf_offset sf_name fst snd]. rewrite Ht.
  unfold patch_const. by rewrite Hc, vget_mid, vset_mid.
Qed.

Lemma fold_targets_by_one a b ts : forall pre c m,
  m_cp m = a ++ c :: b -> c_ints c = pre ++ map (fun _ => 0%Z) ts -> Forall target_good ts ->
  fold_left (fix_switch σ) (target_fixes (vlen a) (vlen pre) 1 ts) (m, []) =
  (with_cp (a ++ with_ints (pre ++ map target_pc ts) c :: b) m, []).
Proof.
  induction ts as [|t ts IH]; intros pre c m Hc Hi Hts.
  { cbn in *. rewrite <- Hi. replace (with_ints (c_ints c) c) with c by (by destruct c).
    rewrite <- Hc. by destruct m. }
  inversion Hts. subst. cbn [target_fixes fold_left]. rewrite (fix_switch_at a c b) by done.
  rewrite Hi. cbn [map]. rewrite vset_mid.
  replace (vlen pre + 1) with (vlen (pre ++ [target_pc t])) by (rewrite vlen_app; done).
  erewrite IH; [|done|by cbn; rewrite <- app_assoc|done].
  cbn [with_cp m_name m_descriptor m_flags m_numRegs m_numLocals m_code m_handlers].
  rewrite <- app_assoc. done.
Qed.

Lemma fold_targets_by_two a b ts : forall ms pre c m,
  List.length ms = List.length ts ->
  m_cp m = a ++ c :: b -> c_ints c = pre ++ flat_map (fun v => [v; 0%Z]) ms -> Forall target_good ts ->
  fold_left (fix_switch σ) (target_fixes (vlen a) (vlen pre + 1) 2 ts) (m, []) =
  (with_cp (a ++ with_ints (pre ++ flat_map (fun x => [x.1; target_pc x.2]) (zip ms ts)) c :: b) m, []).
Proof.
  induction ts as [|t ts IH]; intros [|v ms] pre c m Hlen Hc Hi Hts; try done.
  { cbn in *. rewrite <- Hi. replace (with_ints (c_ints c) c) with c by (by destruct c).
    rewrite <- Hc. by destruct m. }
  inversion Hts. subst. cbn [target_fixes fold_left]. rewrite (fix_switch_at a c b) by done.
  rewrite Hi. cbn [flat_map app].
  replace (pre ++ v :: 0%Z :: flat_map (fun v => [v; 0%Z]) ms)
    with ((pre ++ [v]) ++ 0%Z :: flat_map (fun v => [v; 0%Z]) ms) by (by rewrite <- app_assoc).
  replace (vlen pre + 1) with (vlen (pre ++ [v])) by (rewrite vlen_app; done). rewrite vset_mid.
  replace (vlen (pre ++ [v]) + 2) with (vlen (pre ++ [v; target_pc t]) + 1)
    by (rewrite !vlen_app; unfold vlen; cbn; lia).
  erewrite (IH ms (pre ++ [v; target_pc t])); [|by injection Hlen|done|by cbn; rewrite <- !app_assoc|done].
  cbn [with_cp m_name m_descriptor m_flags m_numRegs m_numLocals m_code m_handlers].
  rewrite <- app_assoc. done.
Qed.

Definition sw_good (c : Const) (sw : SwData) : Prop :=
  is_switch c = true ->
  List.length (sd_matches sw) = List.length (sd_targets sw) /\
  target_good (sd_def sw) /\ Forall target_good (sd_targets sw) /\
  c = const_switch (full_switch sw).

(** The fixups of one constant. *)
Lemma fold_one_switch a b c sw m :
  m_cp m = a ++ raw_const c sw :: b -> sw_good c sw ->
  fold_left (fix_switch σ) (if is_switch c then switch_fixes (vlen a) sw else []) (m, []) =
  (with_cp (a ++ c :: b) m, []).
Proof.
  intros Hc Hgood. unfold raw_const, sw_good in *. destruct (is_switch c).
  2:{ cbn. rewrite <- Hc. by destruct m. }
  destruct (Hgood eq_refl) as (Hlen & Hd & Ht & ->). clear Hgood.
  unfold switch_fixes, raw_switch, full_switch in *.
  destruct (sd_matches sw) as [|v ms] eqn:Ems.
  { destruct (sd_targets sw); [|done]. cbn [switch_table target_fixes fold_left].
    rewrite (fix_switch_at a (const_switch [0%Z; 0%Z]) b) by done. cbn [const_switch c_ints].
    by rewrite (vset_second 0%Z 0%Z). }
  destruct (switch_table (v :: ms)); cbn [fold_left];
    (rewrite (fix_switch_at a _ b _ _ _ Hc) by done); cbn [const_switch c_ints].
  - rewrite vset_third.
    erewrite (fold_targets_by_one a b (sd_targets sw) [v; List.last (v :: ms) v; target_pc (sd_def sw)]);
      [|reflexivity| |exact Ht]; [reflexivity|].
    cbn [with_ints c_ints app]. do 3 f_equal.
    clear -Hlen. revert Hlen. generalize (v :: ms). intros l.
    generalize (sd_targets sw). induction l as [|x l IH]; intros [|? ?]; cbn [List.length map]; try done.
    intros [= H]. f_equal. by apply IH.
  - rewrite vset_second. set (n := i32 (Z.of_N (vlen (v :: ms)))).
    erewrite (fold_targets_by_two a b (sd_targets sw) (v :: ms) [n; target_pc (sd_def sw)]);
      [|exact Hlen|reflexivity|reflexivity|exact Ht]. reflexivity.
Qed.

Lemma fold_switch_fixes l : forall done m,
  m_cp m = done ++ map (fun x => raw_const x.1 x.2) l -> Forall (fun x => sw_good x.1 x.2) l ->
  fold_left (fix_switch σ) (all_switch_fixes (vlen done) l) (m, []) =
  (with_cp (done ++ map fst l) m, []).
Proof.
  induction l as [|[c sw] l IH]; intros done m Hc Hl.
  { cbn in *. rewrite app_nil_r in *. by rewrite <- Hc; destruct m. }
  inversion Hl as [|? ? Hx Hl']. subst. cbn [all_switch_fixes]. rewrite fold_left_app.
  cbn [map fst snd] in *. rewrite (fold_one_switch done _ c sw m Hc Hx).
  replace (vlen done + 1) with (vlen (done ++ [c])) by (rewrite vlen_app; done).
  rewrite IH; [|by cbn; rewrite <- app_assoc|done].
  cbn [with_cp m_name m_descriptor m_flags m_numRegs m_numLocals m_code m_handlers].
  by rewrite <- app_assoc.
Qed.

(** Handlers: their labels, then their types. *)
Definition no_type (h : ExceptionHandler) : ExceptionHandler :=
  mkHandler (h_start h) (h_end h) (h_handler h) (-1).

Definition handler_labels_good (h : ExceptionHandler) : Prop :=
  resolve_label σ (labelName (h_start h)) 0 false = inl (h_start h) /\
  resolve_label σ (labelName (h_end h)) 0 true = inl (h_end h) /\
  resolve_label σ (labelName (h_handler h)) 0 false = inl (h_handler h).

Lemma patch_handler_at a h b m f :
  m_handlers m = a ++ h :: b -> patch_handler (vlen a) f m = with_handlers (a ++ f h :: b) m.
Proof. intros Hm. unfold patch_handler. by rewrite Hm, vget_mid, vset_mid. Qed.

Lemma fold_catch_labels l : forall done m,
  m_handlers m = done ++ map (fun _ => mkHandler 0 0 0 (-1)) l ->
  vlen done + vlen l < 2 ^ 32 -> Forall handler_labels_good l ->
  fold_left (fix_catchLabel σ) (catch_labels (vlen done) l) (m, []) =
  (with_handlers (done ++ map no_type l) m, []).
Proof.
  induction l as [|h l IH]; intros done m Hm Hlen Hl.
  { cbn in *. rewrite app_nil_r in *. by rewrite <- Hm; destruct m. }
  inversion Hl as [|? ? (H1 & H2 & H3) Hl']. subst. unfold vlen in Hlen. cbn [List.length] in Hlen.
  cbn [catch_labels fold_left]. rewrite u32_small by (unfold fits32, vlen; lia).
  unfold fix_catchLabel at 4. cbn [lf_handler lf_which lf_offset lf_name fst snd].
  change (0 =? 1) with false. rewrite H1.
  rewrite (patch_handler_at done _ (map (fun _ => mkHandler 0 0 0 (-1)) l)) by done.
  unfold fix_catchLabel at 3. cbn [lf_handler lf_which lf_offset lf_name fst snd].
  change (1 =? 1) with true. rewrite H2. erewrite patch_handler_at by done.
  unfold fix_catchLabel at 2. cbn [lf_handler lf_which lf_offset lf_name fst snd].
  change (2 =? 1) with false. rewrite H3. erewrite patch_handler_at by done.
  replace (vlen done + 1) with (vlen (done ++ [no_type h])) by (rewrite vlen_app; done).
  rewrite IH; [|by cbn; rewrite <- app_assoc| |done].
  - cbn [with_handlers m_name m_descriptor m_flags m_numRegs m_numLocals m_code m_cp map].
    by rewrite <- app_assoc.
  - rewrite vlen_app. unfold vlen. cbn [List.length]. lia.
Qed.

Definition handler_type_good (m : Method) (h : ExceptionHandler) : Prop :=
  (h_catchType h = -1)%Z \/
  (0 <= h_catchType h < 2 ^ 31)%Z /\
  findConst (Z.to_N (h_catchType h)) σ = Some (Z.to_N (h_catchType h)) /\
  exists c, vget (m_cp m) (Z.to_N (h_catchType h)) = Some c /\ c_kind c = Kind.Class.

Lemma fold_catch_types l : forall done m,
  m_handlers m = done ++ map no_type l ->
  vlen done + vlen l < 2 ^ 32 -> Forall (handler_type_good m) l ->
  fold_left (fix_catchType σ) (catch_types (vlen done) l) (m, []) = (with_handlers (done ++ l) m, []).
Proof.
  induction l as [|h l IH]; intros done m Hm Hlen Hl.
  { cbn in *. rewrite app_nil_r in *. by rewrite <- Hm; destruct m. }
  inversion Hl as [|? ? Hx Hl']. subst. unfold vlen in Hlen. cbn [List.length] in Hlen.
  cbn [catch_types]. rewrite fold_left_app.
  replace (vlen done + 1) with (vlen (done ++ [h])) by (rewrite vlen_app; done).
  assert (fold_left (fix_catchType σ) (if (h_catchType h <? 0)%Z then []
    else [mkCatchTypeFix (u32 (vlen done)) 0 (Z.to_N (h_catchType h))]) (m, []) =
    (with_handlers ((done ++ [h]) ++ map no_type l) m, [])) as ->.
  { rewrite <- app_assoc. cbn [app]. destruct Hx as [Hx|(Hr & Hf & c & Hc & Hk)].
    - rewrite Hx. cbn [Z.ltb Z.compare fold_left].
      replace h with (no_type h) by (unfold no_type; rewrite <- Hx; by destruct h).
      cbn [map] in Hm. rewrite <- Hm. by destruct m.
    - destruct (Z.ltb_spec (h_catchType h) 0); [lia|]. cbn [fold_left].
      unfold fix_catchType. cbn [tf_handler tf_offset tf_cid fst snd]. rewrite Hf, Hc.
      rewrite bool_decide_true by done. rewrite u32_small by (unfold fits32, vlen; lia).
      rewrite (patch_handler_at done (no_type h) (map no_type l)) by done.
      do 4 f_equal. unfold set_catchType, no_type. cbn. rewrite Z2N.id by lia.
      rewrite wrap_small; [by destruct h|lia|]. unfold in_signed. change (2 ^ (32 - 1))%Z with (2 ^ 31)%Z. lia. }
  rewrite IH; [|done| |exact Hl'].
  - cbn [with_handlers m_name m_descriptor m_flags m_numRegs m_numLocals m_code m_cp].
    by rewrite <- app_assoc.
  - rewrite vlen_app. unfold vlen. cbn [List.length]. lia.
Qed.
End resolve.

(** ** Methods that have a text *)

(** An instruction that its text determines, with operands in range. *)
Definition ins_ok (m : Method) (x : Ins) : bool :=
  match of_code (i_op x) with
  | None => false
  | Some op =>
      let sig := oi_sig (info op) in
      (i_dst x <? 65536) && (i_a x <? 65536) && (i_b x <? 65536) && (i_imm x <? 4294967296) &&
      bool_decide (x = if uses_cp sig || uses_label sig then set_imm (i_imm x) (shown sig x)
                       else shown sig x) &&
      (negb (uses_cp sig) ||
       match vget (zip (m_cp m) (swData m)) (i_imm x) with
       | Some (c, sw) => bool_decide (switch_error (Some op) (raw_const c sw) = None)
       | None => false
       end) &&
      (negb (uses_label sig) || (i_imm x <? vlen (m_code m)))
  end.

Definition is_nil {A} (l : list A) : bool := match l with [] => true | _ => false end.

Definition printable_method (m : Method) : bool :=
  is_word (m_name m) && negb (starts_with "(" (m_name m)) &&
  is_word (m_descriptor m) && starts_with "(" (m_descriptor m) &&
  (N.land (m_flags m) kFlagMask =? m_flags m) &&
  (m_numRegs m <? 2 ^ 32) && (m_numLocals m <? 2 ^ 32) &&
  (vlen (m_code m) <? 2 ^ 32) && (vlen (m_cp m) <? 2 ^ 31) && (vlen (m_handlers m) <? 2 ^ 32) &&
  (if absNat m then is_nil (m_code m) && is_nil (m_cp m) && is_nil (m_handlers m)
   else negb (is_nil (m_code m))) &&
  forallb (ins_ok m) (m_code m) &&
  forallb (fun x => const_ok (vlen (m_code m)) x.1 x.2) (zip (m_cp m) (swData m)) &&
  forallb (handler_ok m) (m_handlers m).

Record Printable (m : Method) : Prop := {
  pr_name : is_word (m_name m) = true;
  pr_name' : starts_with "(" (m_name m) = false;
  pr_desc : is_word (m_descriptor m) = true;
  pr_desc' : starts_with "(" (m_descriptor m) = true;
  pr_flags : N.land (m_flags m) kFlagMask = m_flags m;
  pr_regs : fits32 (m_numRegs m);
  pr_locals : fits32 (m_numLocals m);
  pr_code : vlen (m_code m) < 2 ^ 32;
  pr_cp : vlen (m_cp m) < 2 ^ 31;
  pr_handlers : vlen (m_handlers m) < 2 ^ 32;
  pr_shape : if absNat m then m_code m = [] /\ m_cp m = [] /\ m_handlers m = [] else m_code m <> [];
  pr_ins : Forall (fun x => ins_ok m x = true) (m_code m);
  pr_consts : Forall (fun x => const_ok (vlen (m_code m)) x.1 x.2 = true) (zip (m_cp m) (swData m));
  pr_hs : Forall (fun h => handler_ok m h = true) (m_handlers m)
}.

Lemma forallb_Forall {A} (p : A -> bool) l : forallb p l = true -> Forall (fun x => p x = true) l.
Proof. rewrite forallb_forall. intros H. apply Forall_forall. intros x Hx. by apply H, list_elem_of_In. Qed.

Lemma printable_spec m : printable_method m = true -> Printable m.
Proof.
  unfold printable_method. rewrite !andb_true_iff, !N.ltb_lt, N.eqb_eq, !negb_true_iff.
  intros H. repeat match goal with H : _ /\ _ |- _ => destruct H end.
  split; try done; try by apply forallb_Forall.
  destruct (absNat m).
  - destruct (m_code m), (m_cp m), (m_handlers m); done.
  - by destruct (m_code m).
Qed.

Lemma length_forms m : List.length (forms m) = List.length (m_cp m).
Proof.
  unfold forms. assert (forall l f, List.length (fold_left form_step l f) = List.length f) as H.
  { induction l as [|x l IH]; intros f; [done|]. cbn. rewrite IH. unfold form_step.
    assert (forall v : N, List.length (vset f (i_imm x) v) = List.length f) as Hv.
    { intros v. pose proof (vlen_vset f (i_imm x) v) as Hl. unfold vlen in Hl. lia. }
    destruct (bool_decide _); [|done]. destruct (decide _); [done|]. by destruct (decide _). }
  by rewrite H, length_replicate.
Qed.

Lemma length_swData m : List.length (swData m) = List.length (m_cp m).
Proof. unfold swData. rewrite length_zip_with, length_forms. lia. Qed.

Lemma zip_fst m : map fst (zip (m_cp m) (swData m)) = m_cp m.
Proof. apply fst_zip. rewrite length_swData. lia. Qed.

Lemma vlen_zip m : vlen (zip (m_cp m) (swData m)) = vlen (m_cp m).
Proof. unfold vlen. rewrite length_zip_with, length_swData. f_equal. lia. Qed.

(** ** Marks *)

Lemma isTarget_spec m pc : isTarget m pc = true <-> pc ∈ marks m.
Proof.
  unfold isTarget. rewrite existsb_exists. split.
  - intros (x & Hx & ->%N.eqb_eq). by apply list_elem_of_In.
  - intros H. exists pc. rewrite N.eqb_refl. split; [by apply list_elem_of_In|done].
Qed.

Lemma elem_of_flat_map {A B} (f : A -> list B) l y : y ∈ flat_map f l <-> exists x, x ∈ l /\ y ∈ f x.
Proof.
  rewrite list_elem_of_In, in_flat_map. setoid_rewrite list_elem_of_In. done.
Qed.

Lemma mark_branch m x :
  x ∈ m_code m -> uses_label (sig_of x) = true -> isTarget m (i_imm x) = true.
Proof.
  intros Hx Hu. apply isTarget_spec. unfold marks. rewrite !elem_of_app. left.
  apply elem_of_flat_map. exists x. split; [done|]. unfold branch_target, sig_of in *.
  destruct (of_code (i_op x)); [|done]. destruct (oi_sig _); try done; set_solver.
Qed.

Lemma mark_switch m sw t :
  sw ∈ swData m -> t = sd_def sw \/ t ∈ sd_targets sw -> isTarget m t = true.
Proof.
  intros Hs Ht. apply isTarget_spec. unfold marks. rewrite !elem_of_app. right. left.
  apply elem_of_flat_map. exists sw. split; [done|]. set_solver.
Qed.

Lemma mark_handler m h t :
  h ∈ m_handlers m -> t = h_start h \/ t = h_end h \/ t = h_handler h -> isTarget m t = true.
Proof.
  intros Hs Ht. apply isTarget_spec. unfold marks. rewrite !elem_of_app. right. right.
  apply elem_of_flat_map. exists h. split; [done|]. set_solver.
Qed.

(** ** Resolution *)

Section printed.
Variable m : Method.
Context (Hp : Printable m).

#[local] Abbreviation σ := (end_state (isTarget m) m).
#[local] Abbreviation n := (vlen (m_code m)).

Lemma findConst_end v : v < vlen (m_cp m) -> findConst v σ = Some v.
Proof.
  intros Hv. unfold findConst. cbn [end_state constIds_].
  pose proof (pr_cp m Hp). rewrite (find_const_ids v); [done|lia| |unfold fits32; lia].
  rewrite vlen_zip. lia.
Qed.

Lemma resolve_inside v o b : v < n -> isTarget m v = true -> resolve_label σ (labelName v) o b = inl v.
Proof.
  intros Hv Ht. unfold resolve_label, findLabel. cbn [end_state labels_]. pose proof (pr_code m Hp).
  by rewrite (find_label_defs (isTarget m) v) by (try done; try lia; unfold fits32; lia).
Qed.

Lemma resolve_end o : isTarget m n = true -> resolve_label σ (labelName n) o true = inl n.
Proof.
  intros Ht. unfold resolve_label, findLabel. cbn [end_state labels_]. pose proof (pr_code m Hp).
  rewrite find_label_past by lia. rewrite Ht. cbn [List.find ld_name]. rewrite String.eqb_refl.
  cbn. by rewrite u32_small.
Qed.

Lemma ins_ok_spec x : ins_ok m x = true ->
  fits16 (i_dst x) /\ fits16 (i_a x) /\ fits16 (i_b x) /\ fits32 (i_imm x) /\
  is_Some (of_code (i_op x)) /\ with_imm x = x /\
  (uses_cp (sig_of x) = true -> exists c sw,
     vget (zip (m_cp m) (swData m)) (i_imm x) = Some (c, sw) /\
     switch_error (of_code (i_op x)) (raw_const c sw) = None) /\
  (uses_label (sig_of x) = true -> i_imm x < n).
Proof.
  unfold ins_ok, with_imm, raw_ins, sig_of. destruct (of_code (i_op x)) as [op|]; [|done].
  set (sig := oi_sig (info op)). rewrite !andb_true_iff, !N.ltb_lt, bool_decide_eq_true.
  intros ((((((Hd & Ha) & Hb) & Hi) & Hx) & Hc) & Hl).
  split_and!; [done..|by rewrite <- Hx| |].
  - intros Hu. rewrite Hu in Hc. cbn [negb orb] in Hc.
    destruct (vget _ _) as [[c sw]|] eqn:E; [|done]. apply bool_decide_eq_true in Hc. eauto.
  - intros Hu. rewrite Hu in Hl. by apply N.ltb_lt in Hl.
Qed.

Lemma code_ok : Forall (fun x => ins_ok m x = true) (m_code m).
Proof. apply Hp. Qed.

(** A constant in the pool, with its switch data. *)
Lemma const_at x : x ∈ zip (m_cp m) (swData m) ->
  const_ok n x.1 x.2 = true /\ x.2 ∈ swData m.
Proof.
  intros Hx. split.
  - pose proof (pr_consts m Hp) as H. rewrite Forall_forall in H. by apply H.
  - destruct x as [c sw]. by apply elem_of_zip_r in Hx.
Qed.

Lemma switch_good x : x ∈ zip (m_cp m) (swData m) -> sw_good σ x.1 x.2.
Proof.
  intros Hx. destruct (const_at x Hx) as [Hok Hin]. destruct x as [c sw]. cbn [fst snd] in *.
  unfold sw_good, is_switch. intros Hk%bool_decide_eq_true. unfold const_ok in Hok. rewrite Hk in Hok.
  rewrite !andb_true_iff, !bool_decide_eq_true in Hok.
  destruct Hok as ((((((Hl & _) & _) & _) & Hd) & Ht) & Hc). apply N.ltb_lt in Hd.
  split_and!; [done| | |done].
  - apply resolve_inside; [done|]. apply (mark_switch m sw); auto.
  - apply Forall_forall. intros t Hin'. apply resolve_inside.
    + rewrite forallb_forall in Ht. by apply N.ltb_lt, Ht, list_elem_of_In.
    + apply (mark_switch m sw); auto.
Qed.

Lemma handler_good h : h ∈ m_handlers m ->
  handler_labels_good σ h /\ (h_catchType h < 2 ^ 31)%Z /\
  forall m', m_cp m' = m_cp m -> handler_type_good σ m' h.
Proof.
  intros Hh. pose proof (pr_hs m Hp) as Hok. rewrite Forall_forall in Hok. specialize (Hok h Hh).
  unfold handler_ok in Hok. rewrite !andb_true_iff, !N.ltb_lt, N.leb_le in Hok.
  destruct Hok as (((Hs & He) & Hd) & Ht).
  assert (forall t, t = h_start h \/ t = h_end h \/ t = h_handler h -> isTarget m t = true) as Hm.
  { intros t. by apply mark_handler. }
  split_and!.
  - split_and!; [apply resolve_inside; auto| |apply resolve_inside; auto].
    destruct (N.eq_dec (h_end h) n) as [Heq|Hne].
    + rewrite Heq. apply resolve_end. rewrite <- Heq. auto.
    + apply resolve_inside; [lia|auto].
  - apply orb_true_iff in Ht as [Ht%Z.eqb_eq|Ht]; [lia|].
    apply andb_true_iff in Ht as [Hpos Hc]. apply Z.leb_le in Hpos.
    destruct (m_cp m !! Z.to_nat (h_catchType h)) eqn:E; [|done]. apply lookup_lt_Some in E.
    pose proof (pr_cp m Hp) as H. unfold vlen in H. lia.
  - intros m' Hcp. unfold handler_type_good.
    apply orb_true_iff in Ht as [Ht%Z.eqb_eq|Ht]; [by left|]. right.
    apply andb_true_iff in Ht as [Hpos Hc]. apply Z.leb_le in Hpos.
    destruct (m_cp m !! Z.to_nat (h_catchType h)) as [c|] eqn:E; [|done].
    apply bool_decide_eq_true in Hc. pose proof (lookup_lt_Some _ _ _ E).
    pose proof (pr_cp m Hp) as H'. unfold vlen in H'. split; [lia|].
    split; [apply findConst_end; unfold vlen; lia|].
    exists c. split; [|done]. rewrite Hcp, vget_lookup. rewrite <- E. f_equal. lia.
Qed.

(** The end of the code is marked by handlers only. *)
Lemma end_mark : isTarget m n = true -> exists h, h ∈ m_handlers m /\ h_end h = n.
Proof.
  intros H%isTarget_spec. unfold marks in H. rewrite !elem_of_app in H.
  pose proof (pr_shape m Hp) as Hshape.
  destruct H as [H|[H|H]]; apply elem_of_flat_map in H as (x & Hx & H).
  - exfalso. pose proof code_ok as Hok. rewrite Forall_forall in Hok.
    destruct (ins_ok_spec x (Hok x Hx)) as (_ & _ & _ & _ & _ & _ & _ & Hl).
    unfold branch_target, sig_of in *. destruct (of_code (i_op x)) as [op|]; [|set_solver].
    destruct (oi_sig (info op)); try set_solver; apply list_elem_of_singleton in H;
      specialize (Hl eq_refl); lia.
  - exfalso. apply list_elem_of_lookup in Hx as (i & Hi).
    pose proof (lookup_lt_Some _ _ _ Hi) as Hlt. rewrite length_swData in Hlt.
    apply lookup_lt_is_Some in Hlt as (c & Hc).
    assert ((c, x) ∈ zip (m_cp m) (swData m)) as Hin.
    { apply list_elem_of_lookup. exists i. apply lookup_zip_with_Some. eauto. }
    destruct (const_at _ Hin) as [Hok _]. cbn [fst snd] in Hok.
    assert (0 < n) as Hpos.
    { destruct (absNat m); [destruct Hshape as (_ & Hcp & _); by rewrite Hcp in Hc|].
      destruct (m_code m); [done|]. unfold vlen. cbn [List.length]. lia. }
    destruct (decide (c_kind c = Kind.SwitchTable)) as [Hk|Hk].
    + unfold const_ok in Hok. rewrite Hk, !andb_true_iff in Hok.
      destruct Hok as ((((((_ & _) & _) & _) & Hd) & Ht) & _). apply N.ltb_lt in Hd.
      apply elem_of_cons in H as [H|H]; [lia|]. rewrite forallb_forall in Ht.
      specialize (Ht n (proj1 (list_elem_of_In _ _) H)). apply N.ltb_lt in Ht. lia.
    + unfold swData in Hi. apply lookup_zip_with_Some in Hi as (c' & f & -> & Hc' & _).
      rewrite Hc in Hc'. injection Hc' as <-. rewrite bool_decide_false in H by done.
      cbn in H. apply list_elem_of_singleton in H. lia.
  - exists x. split; [done|]. pose proof (pr_hs m Hp) as Hok. rewrite Forall_forall in Hok.
    specialize (Hok x Hx). unfold handler_ok in Hok.
    rewrite !andb_true_iff, !N.ltb_lt, N.leb_le in Hok. destruct Hok as (((Hs & He) & Hd) & Ht).
    rewrite !elem_of_cons in H. destruct H as [H|[H|[H|H]]]; [lia|done|lia|set_solver].
Qed.

Lemma no_pastEnd : pastEnd_errors σ = [].
Proof.
  unfold pastEnd_errors. cbn [end_state labels_ catchLabelFixes_]. rewrite flat_map_app.
  assert (forall l pc f, flat_map (fun d => if ld_pastEnd d && f d then [mkTextError (ld_offset d) (pastEndLabel (ld_name d))] else [])
            (label_defs (isTarget m) pc l) = []) as ->.
  { induction l as [|x l IH]; intros pc f; [done|]. cbn [label_defs].
    destruct (isTarget m pc); cbn; apply IH. }
  destruct (isTarget m n) eqn:Ht; [|done]. cbn [flat_map ld_pastEnd ld_offset ld_name].
  destruct (end_mark Ht) as (h & Hh & He).
  assert (existsb (fun f => (lf_which f =? 1) && (lf_name f =? labelName n)%string)
            (catch_labels 0 (m_handlers m)) = true) as ->; [|done].
  revert Hh. generalize 0. induction (m_handlers m) as [|h' l IH]; intros i Hh; [set_solver|].
  cbn [catch_labels existsb lf_which lf_name]. apply elem_of_cons in Hh as [<-|Hh].
  - rewrite He, String.eqb_refl. done.
  - rewrite (IH (i + 1) Hh). by rewrite !orb_true_r.
Qed.
End printed.

(** The fixups of a printed method resolve to the method, without errors. *)
Lemma resolve_printed m : Printable m -> resolve (end_state (isTarget m) m) = (m, []).
Proof.
  intros Hp. unfold resolve. rewrite (no_pastEnd m Hp).
  pose proof (code_ok m Hp) as Hcode. set (l := zip (m_cp m) (swData m)).
  cbn [end_state insnCpFixes_ branchFixes_ switchFixes_ catchLabelFixes_ catchTypeFixes_ ps_m].
  fold l. set (σ := end_state (isTarget m) m). set (m0 := mkMethod _ _ _ _ _ _ _ _).
  assert (Forall (cp_good σ m0) (m_code m)) as H1.
  { eapply Forall_impl; [exact Hcode|]. intros x Hx Hu.
    destruct (ins_ok_spec m x Hx) as (_ & _ & _ & _ & _ & _ & Hc & _).
    destruct (Hc Hu) as (c & sw & Hg & Hs). split.
    - apply (findConst_end m Hp). apply vget_Some_lt in Hg. by rewrite vlen_zip in Hg.
    - exists (raw_const c sw). split; [|done]. subst m0. cbn [m_cp].
      fold l in Hg. rewrite vget_lookup in Hg. rewrite vget_lookup, list_lookup_fmap, Hg. done. }
  assert (Forall (label_good σ) (m_code m)) as H2.
  { apply Forall_forall. intros x Hin Hu Hl. rewrite Forall_forall in Hcode.
    destruct (ins_ok_spec m x (Hcode x Hin)) as (_ & _ & _ & _ & _ & _ & _ & Hlt).
    apply (resolve_inside m Hp); [by apply Hlt|by apply mark_branch]. }
  assert (Forall (fun x => sw_good σ x.1 x.2) l) as H3.
  { apply Forall_forall. intros x Hx. by apply (switch_good m Hp). }
  assert (Forall (handler_labels_good σ) (m_handlers m)) as H4.
  { apply Forall_forall. intros h Hh. by apply (handler_good m Hp). }
  assert (forall m', m_cp m' = m_cp m -> Forall (handler_type_good σ m') (m_handlers m)) as H5.
  { intros m' Hcp. apply Forall_forall. intros h Hh. by apply (handler_good m Hp). }
  assert (vlen (@nil Ins) = 0 /\ vlen (@nil Const) = 0 /\ vlen (@nil ExceptionHandler) = 0)
    as (E1 & E2 & E3) by done.
  pose proof (pr_code m Hp). pose proof (pr_handlers m Hp).
  pose proof (fun m' => fold_cp_fixes σ (m_code m) [] m') as F1.
  pose proof (fun m' => fold_branch_fixes σ (m_code m) [] m') as F2.
  pose proof (fun m' => fold_switch_fixes σ l [] m') as F3.
  pose proof (fun m' => fold_catch_labels σ (m_handlers m) [] m') as F4.
  pose proof (fun m' => fold_catch_types σ (m_handlers m) [] m') as F5.
  rewrite E1 in F1, F2. rewrite E2 in F3. rewrite E3 in F4, F5. cbn [app] in *.
  rewrite F1, F2, F3, F4, F5 by (try done; try lia; apply H5; apply zip_fst).
  subst m0. cbn [with_handlers with_cp with_code m_name m_descriptor m_flags m_numRegs m_numLocals
    m_code m_cp m_handlers fst snd app]. f_equal.
  unfold l. rewrite zip_fst. replace (map with_imm (m_code m)) with (m_code m); [by destruct m|].
  symmetry. rewrite <- (map_id (m_code m)) at 2. apply map_ext_in. intros x Hx.
  rewrite Forall_forall in Hcode. apply (ins_ok_spec m x), Hcode. by apply list_elem_of_In.
Qed.
