(* ===== verification/RbcTextRound.v ===== *)
(** * The round trip of the RBC text format

    A program whose printed text can be read is read back as itself. [printable] says
    which programs these are. At the end are programs outside it that the parser or the
    verifier accepts, and every text without a class line. *)

From stdpp Require Import pretty.
From Stdlib Require Import Ascii String.
From S2P Require Import Prelude Machine RbcOpcode Rbc RbcLex CharConv RbcParse RbcPrint.
From S2P Require Import RbcTextTotal RbcTextLex RbcTextParse RbcTextLines RbcTextResolve RbcVerifier.

Local Open Scope N_scope.
Local Open Scope rbctext_scope.

(** ** The text of a method, line by line *)

Fixpoint consts_text (i : N) (l : list (Const * SwData)) (rest : string) : string :=
  match l with
  | [] => rest
  | (c, sw) :: r => ".const" +:+ const_text i c sw (consts_text (i + 1) r rest)
  end.

Definition label_line (tgt : N -> bool) (pc : N) (rest : string) : string :=
  if tgt pc then labelName pc +:+ (":" +:+ (eol +:+ rest)) else rest.

Fixpoint code_text (tgt : N -> bool) (pc : N) (l : list Ins) (rest : string) : string :=
  match l with
  | [] => rest
  | x :: r => label_line tgt pc (printInsn x +:+ (eol +:+ code_text tgt (pc + 1) r rest))
  end.

Fixpoint handlers_text (l : list ExceptionHandler) (rest : string) : string :=
  match l with [] => rest | h :: r => ".catch" +:+ handler_text h (handlers_text r rest) end.

Definition body_text (m : Method) (rest : string) : string :=
  ".regs" +:+ (" " +:+ ((pretty (m_numRegs m) : string) +:+ (eol +:+
  (".locals" +:+ (" " +:+ ((pretty (m_numLocals m) : string) +:+ (eol +:+
  consts_text 0 (zip (m_cp m) (swData m))
    (code_text (isTarget m) 0 (m_code m)
      (label_line (isTarget m) (vlen (m_code m))
        (handlers_text (m_handlers m) (".end" +:+ (eol +:+ rest)))))))))))).

Lemma print_label_text m pc rest : print_label m pc +:+ rest = label_line (isTarget m) pc rest.
Proof. unfold print_label, label_line. destruct (isTarget m pc); [by rewrite !append_assoc|done]. Qed.

Lemma print_consts_text m rest : print_consts m +:+ rest = consts_text 0 (zip (m_cp m) (swData m)) rest.
Proof.
  unfold print_consts. pose proof (length_swData m) as Hlen. symmetry in Hlen.
  enough (forall l sw k, List.length l = List.length sw ->
    (forall i c s, l !! i = Some c -> sw !! i = Some s ->
       default noSwData (swData m !! (k + i)%nat) = s) ->
    concats (imap (fun i c => ".const c" +:+ appendU (N.of_nat (k + i)) +:+ " = " +:+
      printConst c (default noSwData (swData m !! (k + i)%nat)) +:+ eol) l) +:+ rest =
    consts_text (N.of_nat k) (zip l sw) rest) as H.
  { apply (H (m_cp m) (swData m) 0%nat Hlen). intros i c s Hc Hs. cbn. by rewrite Hs. }
  clear Hlen. intros l. induction l as [|c l IH]; intros [|s sw] k Hlen Hsw; try done.
  cbn [imap concats zip zip_with consts_text]. rewrite append_assoc.
  replace (N.of_nat k + 1) with (N.of_nat (S k)) by lia.
  rewrite <- (IH sw (S k)); [|by injection Hlen|].
  - pose proof (Hsw 0%nat c s eq_refl eq_refl) as H0. rewrite Nat.add_0_r in *. rewrite H0.
    unfold const_text. rewrite <- printConst_text, !append_assoc.
    rewrite (imap_ext _ (fun i c => ".const c" +:+ appendU (N.of_nat (S k + i)) +:+ " = " +:+
      printConst c (default noSwData (swData m !! (S k + i)%nat)) +:+ eol)); [done|].
    intros i x _. unfold compose. by rewrite Nat.add_succ_r.
  - intros i c' s' Hc Hs. rewrite <- (Hsw (S i) c' s' Hc Hs). do 2 f_equal. lia.
Qed.

Lemma print_code_text m rest : print_code m +:+ rest = code_text (isTarget m) 0 (m_code m) rest.
Proof.
  unfold print_code.
  enough (forall l k,
    concats (imap (fun pc x => print_label m (N.of_nat (k + pc)) +:+ printInsn x +:+ eol) l) +:+ rest =
    code_text (isTarget m) (N.of_nat k) l rest) as H by (apply (H (m_code m) 0%nat)).
  induction l as [|x l IH]; intros k; [done|]. cbn [imap concats code_text].
  replace (N.of_nat k + 1) with (N.of_nat (S k)) by lia. rewrite <- (IH (S k)).
  rewrite Nat.add_0_r, !append_assoc, print_label_text. do 3 f_equal.
  rewrite (imap_ext _ (fun pc x => print_label m (N.of_nat (S k + pc)) +:+ printInsn x +:+ eol)); [done|].
  intros i y _. unfold compose. by rewrite Nat.add_succ_r.
Qed.

Lemma print_handlers_text l rest : concats (map print_handler l) +:+ rest = handlers_text l rest.
Proof.
  induction l as [|h l IH]; [done|]. cbn [map concats handlers_text]. rewrite append_assoc, IH.
  unfold print_handler, handler_text. destruct (h_catchType h <? 0)%Z; by rewrite !append_assoc.
Qed.

Lemma printMethod_text m rest :
  printMethod m +:+ rest =
  ".method" +:+ header_text (m_flags m) (m_name m) (m_descriptor m) (body_text m rest).
Proof.
  unfold printMethod, header_text, body_text, appendU. rewrite print_flags_text.
  rewrite !append_assoc. rewrite print_consts_text, print_code_text, print_label_text, print_handlers_text.
  done.
Qed.

(** ** The phases of a body *)

Definition add_cp (l : list Const) (m : Method) : Method := with_cp (m_cp m ++ l) m.
Definition add_code (l : list Ins) (m : Method) : Method := with_code (m_code m ++ l) m.
Definition add_handlers (l : list ExceptionHandler) (m : Method) : Method :=
  with_handlers (m_handlers m ++ l) m.

Lemma body_consts codeLen rest s' σ' l : forall m L Pd B SF IC CL CT CI,
  Forall (fun x => const_ok codeLen x.1 x.2 = true) l ->
  vlen (m_cp m) + vlen l < 2 ^ 32 -> Forall (fun c => ci_cid c < vlen (m_cp m)) CI ->
  body true true rest
    (mkSt [] (add_cp (map (fun x => raw_const x.1 x.2) l) m) L Pd B
       (SF ++ all_switch_fixes (vlen (m_cp m)) l) IC CL CT (CI ++ const_ids (vlen (m_cp m)) l)) s' σ' ->
  body true true (consts_text (vlen (m_cp m)) l rest) (mkSt [] m L Pd B SF IC CL CT CI) s' σ'.
Proof.
  induction l as [|[c sw] l IH]; intros m L Pd B SF IC CL CT CI Hl Hlen Hci H.
  { cbn [consts_text all_switch_fixes const_ids map] in *. unfold add_cp in H.
    rewrite !app_nil_r in H. by destruct m. }
  inversion Hl. subst. cbn [consts_text fst snd] in *. unfold vlen in Hlen. cbn [List.length] in Hlen.
  eapply (body_const codeLen); [done| |unfold fits64, vlen; lia|].
  { unfold findConst. cbn [constIds_]. destruct (List.find _ CI) as [x|] eqn:E; [|done].
    apply find_some in E as [Hx Heq%N.eqb_eq]. rewrite Forall_forall in Hci.
    specialize (Hci x (proj2 (list_elem_of_In _ _) Hx)). lia. }
  set (m' := add_cp [raw_const c sw] m).
  assert (vlen (m_cp m) + 1 = vlen (m_cp m')) as Hn by (subst m'; cbn; by rewrite vlen_app).
  assert (const_state (vlen (m_cp m)) c sw (mkSt [] m L Pd B SF IC CL CT CI) =
    mkSt [] m' L Pd B (SF ++ if is_switch c then switch_fixes (vlen (m_cp m)) sw else []) IC CL CT
      (CI ++ [mkConstId (vlen (m_cp m)) (u32 (vlen (m_cp m)))])) as ->.
  { unfold const_state. destruct (is_switch c); [done|]. by rewrite app_nil_r. }
  cbn [all_switch_fixes const_ids map fst snd] in H. rewrite Hn in *. apply IH; [done| | |].
  - subst m'. cbn. rewrite vlen_app. unfold vlen. cbn. lia.
  - rewrite <- Hn. apply Forall_app_2; [eapply Forall_impl; [exact Hci|cbn; lia]|].
    constructor; [cbn; lia|done].
  - rewrite <- !app_assoc. unfold add_cp in *. subst m'. cbn. cbn in H. by rewrite <- app_assoc.
Qed.

(** Labels met so far are those of earlier positions. *)
Definition labels_below (pc : N) (L : list LabelDef) : Prop :=
  Forall (fun d => exists k, k < pc /\ ld_name d = labelName k) L.

Lemma labels_below_fresh pc L m Pd B SF IC CL CT CI :
  labels_below pc L -> Pd = [] ->
  labelDefined (labelName pc) (mkSt [] m L Pd B SF IC CL CT CI) = false.
Proof.
  intros HL ->. unfold labelDefined, findLabel. cbn [labels_ pending_ existsb].
  destruct (List.find _ L) as [d|] eqn:E; [|done]. exfalso.
  apply find_some in E as [Hd Heq%String.eqb_eq]. unfold labels_below in HL. rewrite Forall_forall in HL.
  destruct (HL d (proj2 (list_elem_of_In _ _) Hd)) as (k & Hk & Hn). rewrite Hn in Heq.
  apply labelName_inj in Heq. lia.
Qed.

Lemma body_code M rest s' σ' l : forall m L B SF IC CL CT CI,
  Forall (fun x => ins_ok M x = true) l -> (l <> [] -> absNat m = false) ->
  vlen (m_code m) + vlen l < 2 ^ 32 -> labels_below (vlen (m_code m)) L ->
  (forall m', m' = add_code (map raw_ins l) m ->
   labels_below (vlen (m_code m')) (L ++ label_defs (isTarget M) (vlen (m_code m)) l) ->
   body true true rest
    (mkSt [] m' (L ++ label_defs (isTarget M) (vlen (m_code m)) l) []
       (B ++ branch_fixes (vlen (m_code m)) l) SF (IC ++ cp_fixes (vlen (m_code m)) l) CL CT CI) s' σ') ->
  body true true (code_text (isTarget M) (vlen (m_code m)) l rest)
    (mkSt [] m L [] B SF IC CL CT CI) s' σ'.
Proof.
  induction l as [|x l IH]; intros m L B SF IC CL CT CI Hl Habs Hlen HL H.
  { cbn [code_text label_defs branch_fixes cp_fixes] in *. rewrite !app_nil_r in H.
    apply H; [|done]. unfold add_code. cbn. rewrite app_nil_r. by destruct m. }
  inversion Hl as [|? ? Hx Hl']. subst. unfold vlen in Hlen. cbn [List.length] in Hlen.
  destruct (ins_ok_spec M x Hx) as (Hd & Ha & Hb & Hi & [op Hop] & _ & _ & _).
  cbn [code_text]. set (pc := vlen (m_code m)) in *.
  set (m' := add_code [raw_ins x] m).
  assert (pc + 1 = vlen (m_code m')) as Hn by (subst m'; cbn; by rewrite vlen_app).
  assert (forall Pd L', L' = L ++ map (fun p => mkLabelDef (pd_name p) (pd_offset p) (u32 pc) false) Pd ->
    ins_state x (oi_sig (info op)) (mkSt [] m L Pd B SF IC CL CT CI) =
    mkSt [] m' L' [] (B ++ (if uses_cp (sig_of x) then [] else if uses_label (sig_of x)
          then [mkBranchFix (u32 pc) 0 (labelName (i_imm x))] else [])) SF
      (IC ++ if uses_cp (sig_of x) then [mkInsnCpFix (u32 pc) 0 (i_imm x)] else []) CL CT CI) as Hst.
  { intros Pd L' ->. unfold ins_state, ins_fixes, m', raw_ins, sig_of. rewrite Hop.
    cbn [bind_pending ps_m]. fold pc. destruct (uses_cp _); [by rewrite app_nil_r|].
    destruct (uses_label _); rewrite !app_nil_r; done. }
  assert (forall L', L' = L ++ (if isTarget M pc then [mkLabelDef (labelName pc) 0 (u32 pc) false] else []) ->
    body true true (code_text (isTarget M) (pc + 1) l rest)
    (mkSt [] m' L' [] (B ++ (if uses_cp (sig_of x) then [] else if uses_label (sig_of x)
          then [mkBranchFix (u32 pc) 0 (labelName (i_imm x))] else [])) SF
      (IC ++ if uses_cp (sig_of x) then [mkInsnCpFix (u32 pc) 0 (i_imm x)] else []) CL CT CI) s' σ')
    as Hrec.
  { intros L' ->. rewrite Hn. apply IH; [done|intros _; by apply Habs| | |].
    - rewrite <- Hn. unfold pc, vlen. lia.
    - rewrite <- Hn. apply Forall_app_2; [eapply Forall_impl; [exact HL|]|].
      + intros d (k & Hk & Hkn). exists k. split; [lia|done].
      + destruct (isTarget M pc); [|constructor]. constructor; [|constructor].
        exists pc. split; [lia|done].
    - intros m2 Hm2 HL2. rewrite <- Hn in *. cbn [label_defs branch_fixes cp_fixes] in H.
      rewrite <- !app_assoc in *. apply H; [|done]. subst m2 m'. unfold add_code. cbn.
      by rewrite <- app_assoc. }
  unfold label_line. destruct (isTarget M pc) eqn:Ht.
  - apply body_label; [by apply labels_below_fresh|].
    change (push_pending ?p _) with (mkSt [] m L [p] B SF IC CL CT CI).
    eapply body_insn; [done..|by apply Habs|]. erewrite Hst by done. by apply Hrec.
  - eapply body_insn; [done..|by apply Habs|]. erewrite Hst by done. apply Hrec.
    cbn. by rewrite app_nil_r.
Qed.

Lemma body_handlers rest s' σ' l : forall m L Pd B SF IC CL CT CI,
  Forall (fun h => (h_catchType h < 2 ^ 31)%Z) l -> vlen (m_handlers m) + vlen l < 2 ^ 32 ->
  body true true rest
    (mkSt [] (add_handlers (map (fun _ => mkHandler 0 0 0 (-1)) l) m) L Pd B SF IC
       (CL ++ catch_labels (vlen (m_handlers m)) l) (CT ++ catch_types (vlen (m_handlers m)) l) CI) s' σ' ->
  body true true (handlers_text l rest) (mkSt [] m L Pd B SF IC CL CT CI) s' σ'.
Proof.
  induction l as [|h l IH]; intros m L Pd B SF IC CL CT CI Hl Hlen H.
  { cbn [handlers_text catch_labels catch_types map] in *. unfold add_handlers in H.
    rewrite !app_nil_r in H. by destruct m. }
  inversion Hl. subst. unfold vlen in Hlen. cbn [List.length] in Hlen. cbn [handlers_text].
  apply body_catch; [done|].
  set (i := vlen (m_handlers m)) in *. set (m' := add_handlers [mkHandler 0 0 0 (-1)] m).
  assert (i + 1 = vlen (m_handlers m')) as Hn by (subst m'; cbn; by rewrite vlen_app).
  assert (handler_state h (mkSt [] m L Pd B SF IC CL CT CI) =
    mkSt [] m' L Pd B SF IC
      (CL ++ [mkCatchLabelFix (u32 i) 0 0 (labelName (h_start h));
              mkCatchLabelFix (u32 i) 1 0 (labelName (h_end h));
              mkCatchLabelFix (u32 i) 2 0 (labelName (h_handler h))])
      (CT ++ if (h_catchType h <? 0)%Z then [] else [mkCatchTypeFix (u32 i) 0 (Z.to_N (h_catchType h))]) CI)
    as ->.
  { unfold handler_state. cbn [ps_m]. fold i. cbv zeta.
    assert (forall a b c, (CL ++ [a]) ++ [b] ++ [c] = CL ++ [a; b; c]) as HC
      by (intros; by rewrite <- app_assoc).
    destruct (h_catchType h <? 0)%Z; cbn; rewrite <- HC, !app_assoc; [by rewrite app_nil_r|done]. }
  apply IH; [done| |].
  - rewrite <- Hn. unfold i, vlen. lia.
  - rewrite <- Hn, <- !app_assoc. cbn [catch_labels catch_types map] in H.
    unfold add_handlers in *. subst m'. cbn in *. by rewrite <- app_assoc.
Qed.

(** ** Methods *)

(** The state before the past-end label is bound. *)
Definition before_end (m : Method) : St :=
  let σ := end_state (isTarget m) m in
  let n := vlen (m_code m) in
  mkSt [] (ps_m σ) (label_defs (isTarget m) 0 (m_code m))
    (if isTarget m n then [mkPending (labelName n) 0] else [])
    (branchFixes_ σ) (switchFixes_ σ) (insnCpFixes_ σ) (catchLabelFixes_ σ) (catchTypeFixes_ σ)
    (constIds_ σ).

Definition noSt : St := mkSt [] newMethod [] [] [] [] [] [] [] [].

Lemma finishMethod_print m eo fo ls s :
  Printable m ->
  parses (finishMethod eo fo) ls s (before_end m) (fun x => x = m) ls s (end_state (isTarget m) m).
Proof.
  intros Hp. unfold finishMethod.
  apply (parses_reads _ _ _ (ps_m (end_state (isTarget m) m)));
    [intros st Hst; change (ps_m (erase st) = ps_m (before_end m)); by rewrite Hst|].
  assert (vlen (m_code (ps_m (end_state (isTarget m) m))) = vlen (m_code m)) as Hlen.
  { cbn. unfold vlen. by rewrite length_map. }
  rewrite Hlen. eapply parses_bind.
  { apply (parses_modify _ _ _ _ (end_state (isTarget m) m)); [done|].
    intros st Hst. rewrite erase_bind_pending, Hst. unfold bind_pending, before_end.
    cbn [pending_ labels_ ps_toks ps_m branchFixes_ switchFixes_ insnCpFixes_ catchLabelFixes_
      catchTypeFixes_ constIds_]. unfold end_state at 8. f_equal. by destruct (isTarget m _). }
  intros _ _. cbv zeta.
  assert (absNat (ps_m (end_state (isTarget m) m)) = absNat m) as -> by done.
  pose proof (pr_shape m Hp) as Hshape. cbn [end_state ps_m m_code].
  assert ((absNat m && negb match map raw_ins (m_code m) with [] => true | _ => false end) = false /\
    (negb (absNat m) && match map raw_ins (m_code m) with [] => true | _ => false end) = false)
    as [-> ->].
  { destruct (absNat m); [by destruct Hshape as (-> & _)|]. by destruct (m_code m). }
  apply (parses_reads _ _ _ (m, [])).
  { intros st Hst. apply resolve_erase. rewrite Hst. by apply resolve_printed. }
  by apply parses_ret.
Qed.

Lemma body_print m rest :
  Printable m ->
  body false false (body_text m rest)
    (set_m (with_header (m_name m) (m_descriptor m) (m_flags m) newMethod) noSt) rest (before_end m).
Proof.
  intros Hp. unfold body_text. apply body_regs; [apply Hp|]. apply body_locals; [apply Hp|].
  set (m1 := mkMethod (m_name m) (m_descriptor m) (m_flags m) (m_numRegs m) (m_numLocals m) [] [] []).
  match goal with |- body _ _ _ ?s _ _ => change s with (mkSt [] m1 [] [] [] [] [] [] [] []) end.
  set (l := zip (m_cp m) (swData m)).
  change 0 with (vlen (m_cp m1)) at 1.
  apply (body_consts (vlen (m_code m))); [apply Hp| |constructor|].
  { pose proof (pr_cp m Hp). unfold l. rewrite vlen_zip. change (vlen (m_cp m1)) with 0. lia. }
  set (m2 := add_cp _ m1). change (vlen (m_cp m1)) with 0. cbn [app].
  change 0 with (vlen (m_code m2)) at 1.
  apply (body_code m); [apply Hp| |cbn; apply Hp|constructor|].
  { intros Hne. pose proof (pr_shape m Hp) as Hs. change (absNat m2) with (absNat m).
    destruct (absNat m); [by destruct Hs|done]. }
  intros m3 Hm3 HL. change (vlen (m_code m2)) with 0 in *. cbn [app] in *.
  assert (vlen (m_code m3) = vlen (m_code m)) as Hn.
  { subst m3. cbn. unfold vlen. by rewrite length_map. }
  rewrite Hn in HL.
  assert (forall Pd, Pd = (if isTarget m (vlen (m_code m)) then [mkPending (labelName (vlen (m_code m))) 0] else []) ->
    body true true (handlers_text (m_handlers m) (".end" +:+ (eol +:+ rest)))
      (mkSt [] m3 (label_defs (isTarget m) 0 (m_code m)) Pd (branch_fixes 0 (m_code m))
        (all_switch_fixes 0 l) (cp_fixes 0 (m_code m)) [] [] (const_ids 0 l)) rest (before_end m))
    as Hhandlers.
  { intros Pd ->. apply body_handlers.
    - apply Forall_forall. intros h Hh. by apply (handler_good m Hp).
    - subst m3. cbn. apply Hp.
    - assert (vlen (m_handlers m3) = 0) as -> by (by subst m3). cbn [app].
      match goal with |- body _ _ _ ?s _ ?s' => replace s with s'; [apply body_end|] end.
      subst m3 m2 m1. done. }
  unfold label_line. destruct (isTarget m (vlen (m_code m))) eqn:Ht.
  - apply body_label; [by apply labels_below_fresh|]. apply Hhandlers. done.
  - by apply Hhandlers.
Qed.

Lemma parseMethod_print m size rest st b :
  Printable m -> map key (ps_toks st) = lexk true (printMethod m +:+ rest) ->
  (List.length (ps_toks st) <= S b)%nat ->
  exists st', parseMethod size st = Ok m st' /\ map key (ps_toks st') = lexk true rest /\
    (List.length (ps_toks st') <= b)%nat.
Proof.
  intros Hp Ht Hb. rewrite printMethod_text in Ht.
  assert (within (S b) b
    (advance;; parseHeader;; fuel <~ reads (fun st => List.length (ps_toks st));
     x <~ parseBody fuel size (mkBody false false 0); finishMethod x.2 x.1)
    true (".method" +:+ header_text (m_flags m) (m_name m) (m_descriptor m) (body_text m rest)) noSt
    (fun x => x = m) true rest (end_state (isTarget m) m)) as H.
  { assert (lexeme Tk.Word ".method"
      (header_text (m_flags m) (m_name m) (m_descriptor m) (body_text m rest))) as Hl.
    { apply lexeme_word; [done|]. unfold header_text. by destruct (flag_words (m_flags m)). }
    eapply within_bind; [by eapply within_eats, eats_advance|]. intros _ _.
    eapply within_bind; [apply within_parses, parseHeader_print; apply Hp|]. intros _ _.
    apply within_fuel; [|done]. intros f Hf.
    eapply within_bind; [by apply (body_print m rest Hp)|]. intros [eo fo] _.
    by apply within_parses, finishMethod_print. }
  destruct (H (resetMethodState st)) as (x & st' & Hr & -> & Hk & _ & Hl); [done..|].
  exists st'. split_and!; [|done..]. exact Hr.
Qed.

(** ** Programs *)

(** The programs that have a text. *)
Definition printable (p : Program) : bool :=
  payload_word (p_className p) && forallb printable_method (p_methods p).

Definition methods_text (l : list Method) : string := concats (map (fun m => eol +:+ printMethod m) l).

Lemma run_methods size className : forall l done fuel st,
  Forall Printable l -> map key (ps_toks st) = lexk true (methods_text l) ->
  (List.length (ps_toks st) <= fuel)%nat ->
  exists st', run fuel size true (mkProgram className done) st =
    Ok (mkProgram className (done ++ l)) st'.
Proof.
  unfold methods_text. induction l as [|m l IH]; intros done fuel st Hl Ht Hf.
  - cbn [map concats] in Ht. rewrite lexk_nil in Ht.
    destruct (ps_toks st) as [|t [|]] eqn:E; [done| |done]. cbn in Ht, Hf.
    destruct fuel as [|fuel]; [lia|]. cbn [run]. unfold bind, peek, reads. rewrite E. cbn.
    injection Ht as Hk _ _. rewrite Hk. rewrite app_nil_r. eauto.
  - inversion Hl as [|? ? Hm Hl']. subst. cbn [map concats] in Ht. rewrite append_assoc, lexk_eol in Ht.
    destruct fuel as [|fuel].
    { destruct (lexk_cons true (printMethod m +:+ concats (map (fun m => eol +:+ printMethod m) l)))
        as (k & r & Hk). rewrite Hk in Ht. destruct (ps_toks st); [done|cbn in Hf; lia]. }
    destruct (parseMethod_print m size _ st fuel Hm Ht Hf) as (st1 & Hr & Ht1 & Hl1).
    destruct (IH (done ++ [m]) fuel st1 Hl' Ht1 Hl1) as (st' & H). exists st'.
    rewrite printMethod_text in Ht. rewrite (lexk_tok true Tk.Word ".method") in Ht.
    2:{ apply lexeme_word; [done|]. unfold header_text. by destruct (flag_words (m_flags m)). }
    destruct (ps_toks st) as [|t r] eqn:E; [done|]. cbn [map] in Ht. injection Ht as Hk Htx _ _.
    cbn [run]. unfold bind at 1, peek, reads. rewrite E. cbn [nth_tok lookup list_lookup].
    destruct (decide _) as [He|_]; [by rewrite Hk in He|]. rewrite isWord_word, Htx by done.
    cbn [negb String.eqb Ascii.eqb Bool.eqb]. unfold bind at 1. rewrite Hr.
    cbn [p_className p_methods]. rewrite <- app_assoc in H. exact H.
Qed.

(** C5: Parsing the printed text of a program gives the program back, for every program
    that has a text. *)
Theorem text_roundtrip p : printable p = true -> parseRbcText (printRbcText p) = Parsed_ p.
Proof.
  unfold printable. intros [Hc Hm]%andb_true_iff. apply andb_true_iff in Hc as [Hw Hd].
  apply negb_true_iff in Hd.
  assert (Forall Printable (p_methods p)) as Hl.
  { apply forallb_Forall in Hm. eapply Forall_impl; [exact Hm|]. intros m. apply printable_spec. }
  set (text := printRbcText p). unfold parseRbcText. cbv zeta.
  assert (map key (lex text) = (Tk.Word, ".class", true) :: (Tk.Word, p_className p, false) ::
            lexk true (methods_text (p_methods p))) as Hk.
  { rewrite lex_lexk. unfold text, printRbcText.
    change (".class " +:+ ?x) with (".class" +:+ (" " +:+ x)).
    rewrite (lexk_tok true Tk.Word ".class") by (by apply lexeme_word).
    rewrite lexk_space, (lexk_tok false Tk.Word (p_className p)), lexk_eol; [done|].
    by apply lexeme_word. }
  destruct (lexk_cons true (methods_text (p_methods p))) as (k0 & r0 & Hk0). rewrite Hk0 in Hk.
  destruct (lex text) as [|t [|t1 [|t2 r]]]; [done..|]. cbn [map] in Hk.
  injection Hk as H1 H2 _ H3 H4 _ H5 H6.
  destruct (run_methods (slen text) (p_className p) (p_methods p) [] (S (S (List.length r)))
    (mkSt (t2 :: r) newMethod [] [] [] [] [] [] [] [])) as (st' & H); [done| |cbn; lia|].
  { cbn [ps_toks map]. by rewrite Hk0, <- H5, <- H6. }
  cbn [List.length]. remember (S (S (List.length r))) as f. cbn [run].
  unfold bind at 1, peek at 1, reads at 1. cbn [ps_toks nth_tok lookup list_lookup].
  destruct (decide _) as [He|_]; [by rewrite H1 in He|]. rewrite isWord_word, H2 by done.
  cbn [negb String.eqb Ascii.eqb Bool.eqb p_methods].
  unfold bind at 1, advance at 1, modify at 1. unfold bind at 1, peek at 1, reads at 1.
  cbn [set_toks ps_toks advance_toks nth_tok lookup list_lookup].
  rewrite isWord_word, H4, Hd by done. cbn [negb orb].
  unfold bind at 1, advance at 1, modify at 1. cbn [set_toks ps_toks advance_toks].
  match goal with |- context [set_toks ?l ?s] =>
    change (set_toks l s) with (mkSt l newMethod [] [] [] [] [] [] [] []) end.
  rewrite H. by destruct p.
Qed.

(** ** Programs on both sides of [printable] *)

Definition int_const (v : Z) : Const := mkConst Kind.Int32 v 0 0 0 "" "" "" [].
Definition switch_const (v : list Z) : Const := mkConst Kind.SwitchTable 0 0 0 0 "" "" "" v.

(** A method with every kind of line: constants of both floating formats, a string with
    a quote and a line break, both switch layouts, branches back and forth, and a
    handler for the code up to its end. *)
Definition shown_method : Method :=
  mkMethod "f" "(I)I" 9 3 1
    [ins Op.Iload 0 0 0 0; ins Op.Iconst 2 0 0 0xFFFFFFFF; ins Op.Ldc 1 0 0 3;
     ins Op.Tableswitch 0 0 0 4; ins Op.Lookupswitch 0 0 0 5; ins Op.IfIcmpeq 0 0 2 2;
     ins Op.Ireturn 0 2 0 0; ins Op.Iconst 2 0 0 1; ins Op.Ireturn 0 2 0 0]
    [int_const (-5)%Z;
     mkConst Kind.Float 0 0 0x3DCCCCCD 0 "" "" "" [];
     mkConst Kind.Double 0 0 0 0xFFF0000000000000 "" "" "" [];
     mkConst Kind.String 0 0 0 0 (String dquote (String lf "x")) "" "" [];
     switch_const [-1; 1; 4; 4; 6; 6]%Z;
     switch_const [2; 6; 10; 0; 100; 5]%Z;
     mkConst Kind.Class 0 0 0 0 "java/lang/Exception" "" "" []]
    [mkHandler 2 9 7 6].

Definition shown_program : Program :=
  mkProgram "p/T" [shown_method; mkMethod "g" "()V" 0x401 0 0 [] [] []].

Definition verifies (m : Method) : bool :=
  match verify 100 m with Some r => vr_ok r | None => false end.

Lemma text_roundtrip_witness :
  verifies shown_method = true /\ printable shown_program = true /\
  parseRbcText (printRbcText shown_program) = Parsed_ shown_program.
Proof.
  assert (printable shown_program = true) as H by (vm_compute; reflexivity).
  split; [vm_compute; reflexivity|]. split; [exact H|exact (text_roundtrip shown_program H)].
Defined.

(** Whether a text is accepted, and the text printed from what it says is not. *)
Definition reprints_badly (text : string) : bool :=
  match parseRbcText text with
  | Parsed_ p => match parseRbcText (printRbcText p) with ParseError _ => true | _ => false end
  | _ => false
  end.

(** The grammar of RbcText.h has no [.class] line. *)
Definition without_class : string := ".method f ()V return .end".

Definition abstract_with_constant : string := ".class T .method abstract f ()V .const c0 = int 1 .end".

(** A switch constant that no instruction names. *)
Definition unnamed_switch : string :=
  ".class T .method f ()V .const c0 = switch { 10 : A 100 : B default : C }" +:+ eol +:+
  "A:" +:+ eol +:+ "nop nop" +:+ eol +:+ "B:" +:+ eol +:+ "nop nop" +:+ eol +:+
  "C:" +:+ eol +:+ "return .end".

(** A lookupswitch with one case. *)
Definition one_case : Method :=
  mkMethod "f" "()V" 9 1 0
    [ins Op.Iconst 0 0 0 0; ins Op.Lookupswitch 0 0 0 0; ins Op.Return 0 0 0 0]
    [switch_const [1; 2; 7; 2]%Z] [].

(** Where the text format does not round trip. A text without a [.class] line, an
    abstract method with a constant, and a switch constant that no instruction names and
    whose values also fit the other layout are accepted, and the text printed for them is
    not; neither is the text of a method that passes the verifier, when its lookupswitch
    has contiguous cases. *)
Theorem accepted_text_reprints_badly :
  reprints_badly without_class = true /\
  reprints_badly abstract_with_constant = true /\
  reprints_badly unnamed_switch = true /\
  verifies one_case = true /\
  exists e, parseRbcText (printRbcText (mkProgram "T" [one_case])) = ParseError e.
Proof.
  do 4 (split; [vm_compute; reflexivity|]). eexists. vm_compute. reflexivity.
Qed.

(** ** Texts without a class line *)

(** A turn at a blank, and one at a token, with their offsets. *)
Lemma lex_from_ws fuel i ls c s : isWs c = true ->
  lex_from (S fuel) i ls (String c EmptyString +:+ s) = lex_from fuel (i + 1) (if Ascii.eqb c lf then true else ls) s.
Proof. intros Hc. by rewrite append_cons, lex_from_cons, Hc. Qed.

Lemma lex_from_tok fuel i ls k w s : lexeme k w s ->
  lex_from (S fuel) i ls (w +:+ s) =
  mkTok k (u32 i) (u32 (slen w)) ls w :: lex_from fuel (i + slen w) false s.
Proof.
  destruct w as [|c r]; [done|]. intros (Hws & Hsharp & Hscan).
  by rewrite append_cons, lex_from_cons, Hws, Hsharp, Hscan.
Qed.

(** Once a method is read there is no way to a [.class] line. *)
Lemma run_keeps_class size seen fuel : forall p st q st',
  p_methods p <> [] -> run fuel size seen p st = Ok q st' -> p_className q = p_className p.
Proof.
  induction fuel as [|fuel IH]; intros p st q st' Hp; [done|]. cbn [run].
  unfold bind at 1, peek, reads. destruct (decide _); [by intros [= <- _]|].
  destruct (negb _); [done|]. destruct (_ =? _)%string.
  - destruct seen; [done|]. by destruct (p_methods p).
  - destruct (_ =? _)%string; [|done]. unfold bind.
    destruct (parseMethod size st) as [m st1| |]; [|done..]. intros Hr.
    apply IH in Hr; [done|]. by destruct (p_methods p).
Qed.

Lemma classless_unnamed text p :
  parseRbcText text = Parsed_ p -> tk_text (nth_tok 0 (lex text)) <> ".class" -> p_className p = "".
Proof.
  unfold parseRbcText. destruct (run _ _ _ _ _) as [q st'| |] eqn:E; [|done..]. intros [= ->] Ht.
  destruct (List.length (lex text)) as [|fuel]; [done|]. cbn [run] in E.
  unfold bind at 1, peek, reads in E. cbn [ps_toks] in E.
  destruct (decide _); [by injection E as <- _|]. destruct (negb _); [done|].
  apply String.eqb_neq in Ht. rewrite Ht in E. destruct (_ =? _)%string; [|done].
  unfold bind in E. destruct (parseMethod _ _) as [m st1| |]; [|done..].
  by apply run_keeps_class in E.
Qed.

(** The first two tokens of the text of a program without a name. *)
Lemma unnamed_text_lex ms :
  exists l, lex (printRbcText (mkProgram "" ms)) =
  mkTok Tk.Word 0 6 true ".class" ::
  match ms with
  | [] => [mkTok Tk.End_ 8 0 true ""]
  | _ => mkTok Tk.Word 9 7 true ".method" :: l
  end.
Proof.
  unfold lex, printRbcText. cbn [p_className p_methods]. rewrite append_nil_l.
  change (".class " +:+ ?x) with (".class" +:+ (" " +:+ x)).
  destruct ms as [|m ms]; [by eexists []|]. cbn [map concats]. rewrite !append_assoc, printMethod_text.
  set (rest := header_text _ _ _ _).
  assert (stop rest = true) as Hs by (unfold rest, header_text; by destruct (flag_words (m_flags m))).
  set (text := ".class" +:+ _).
  assert (6 <= slen text) as Hl by (unfold text; rewrite slen_app; change (slen ".class") with 6; lia).
  unfold slen in Hl. destruct (String.length text) as [|[|[|[|n]]]]; [lia..|]. clear Hl. unfold text.
  eexists. rewrite (lex_from_tok _ _ _ Tk.Word) by (by apply lexeme_word). cbn [app]. f_equal.
  unfold eol. rewrite !lex_from_ws by done.
  rewrite (lex_from_tok _ _ _ Tk.Word ".method") by (by apply lexeme_word). reflexivity.
Qed.

(** C38: A text that does not begin with a [.class] line does not round trip. The grammar
    and the parser allow it, and whatever program the parser reads from it, the text
    printed for that program is rejected, with the error and at the offset given here:
    the printer writes [.class] with no name after it. *)
Theorem classless_reprint_rejected text p :
  parseRbcText text = Parsed_ p -> tk_text (nth_tok 0 (lex text)) <> ".class" ->
  parseRbcText (printRbcText p) = ParseError (
    match p_methods p with
    | [] => mkTextError 8 "expected class internal name, found '<end of input>'"
    | _ => mkTextError 9 "expected class internal name, found '.method'"
    end).
Proof.
  intros Hp Ht. pose proof (classless_unnamed text p Hp Ht) as Hn. destruct p as [name ms].
  cbn [p_className p_methods] in *. subst name. unfold parseRbcText.
  destruct (unnamed_text_lex ms) as [l ->]. by destruct ms.
Qed.

Definition classless_program : Program :=
  mkProgram "" [mkMethod "f" "()V" 0 0 0 [ins Op.Return 0 0 0 0] [] []].

Lemma classless_reprint_rejected_witness :
  parseRbcText without_class = Parsed_ classless_program /\
  parseRbcText (printRbcText classless_program) =
    ParseError (mkTextError 9 "expected class internal name, found '.method'").
Proof.
  assert (parseRbcText without_class = Parsed_ classless_program) as H by (vm_compute; reflexivity).
  split; [exact H|]. apply (classless_reprint_rejected without_class classless_program H).
  vm_compute. discriminate.
Defined.
