(* ===== verification/Heap.v ===== *)
(** * Values and the heap

    include/b2/interp/Value.h, Heap.h and compiler/interp/src/Heap.cpp: the tagged
    slot values of the interpreter, and the object store with its fields, array
    elements, monitors and interned strings. The payload of a value is the 64-bit
    word of the union: a member is read from its low bits whatever member was
    written, as the compilers the build supports define it. *)

From S2P Require Import Prelude RbcOpcode Machine.

Local Open Scope N_scope.

(** ** Values *)

(** [ObjRef::id]; 0 is the invalid reference. *)
Abbreviation ObjRef := N.
Abbreviation ClassId := N.
Abbreviation FieldId := N.
Abbreviation MethodId := N.

Definition valid (r : ObjRef) : bool := negb (r =? 0).

Record Value := mkValue { v_type : RType; v_as : Z }.

#[export] Instance Value_eq_dec : EqDecision Value.
Proof. solve_decision. Defined.

(** Floats and doubles are their bits. *)
Definition as_i (v : Value) : Z := i32 (v_as v).
Definition as_l (v : Value) : Z := i64 (v_as v).
Definition as_f (v : Value) : Z := uz32 (v_as v).
Definition as_d (v : Value) : Z := uz64 (v_as v).
Definition as_obj (v : Value) : ObjRef := Z.to_N (uz32 (v_as v)).

Definition intVal (z : Z) : Value := mkValue RType.Int (uz32 z).
Definition longVal (z : Z) : Value := mkValue RType.Long (uz64 z).
Definition floatVal (bits : Z) : Value := mkValue RType.Float (uz32 bits).
Definition doubleVal (bits : Z) : Value := mkValue RType.Double (uz64 bits).
Definition refVal (r : ObjRef) : Value := mkValue RType.Ref (uz32 (Z.of_N r)).
Definition nullVal : Value := mkValue RType.Null 0.
Definition bottom : Value := mkValue RType.Bottom 0.

Definition has_type (t : RType) (v : Value) : bool := bool_decide (v_type v = t).

Definition isNull (v : Value) : bool := has_type RType.Null v.
Definition isRef (v : Value) : bool := has_type RType.Ref v.
Definition isRefLike (v : Value) : bool := isRef v || isNull v.
(** [Value::ref()] *)
Definition ref (v : Value) : ObjRef := as_obj v.

Definition sameObject (a b : Value) : bool :=
  if isNull a || isNull b then isNull a && isNull b
  else isRef a && isRef b && (as_obj a =? as_obj b).

(** ** Objects *)

Record MonitorState := mkMonitor { mon_owner : N; mon_count : N }.

Module ObjKind.
Inductive t := Instance_ | Array.
#[global] Instance eq_dec : EqDecision t.
Proof. solve_decision. Defined.
End ObjKind.

Record HeapObj := mkObj {
  o_kind : ObjKind.t; o_cls : ClassId; o_str : string; o_slots : list Value;
  o_elem : RType; o_length : N; o_mon : MonitorState
}.

(** [objs_] and [interned_]. The order of the string table is not observable: only
    the class of its first entry is read, and all entries share it. *)
Record Heap := mkHeap { h_objs : list HeapObj; h_interned : list (string * ObjRef) }.

Definition newHeap : Heap := mkHeap [] [].

Definition o_with_slots (o : HeapObj) (sl : list Value) : HeapObj :=
  mkObj (o_kind o) (o_cls o) (o_str o) sl (o_elem o) (o_length o) (o_mon o).

Definition o_with_mon (o : HeapObj) (m : MonitorState) : HeapObj :=
  mkObj (o_kind o) (o_cls o) (o_str o) (o_slots o) (o_elem o) (o_length o) m.

Definition kOwnerThread : N := 1.

Definition zeroOf (elem : RType) : Value :=
  match elem with
  | RType.Int => intVal 0
  | RType.Long => longVal 0
  | RType.Float => floatVal 0
  | RType.Double => doubleVal 0
  | RType.Ref | RType.Null => nullVal
  | RType.Bottom => bottom
  end.

(** [obj(r)]: ids are one more than indices. *)
Definition obj (h : Heap) (r : ObjRef) : option HeapObj :=
  if (r =? 0) || (vlen (h_objs h) <? r) then None else vget (h_objs h) (r - 1).

Definition peek (h : Heap) (r : ObjRef) : option HeapObj := obj h r.

(** A write through the pointer [obj(r)]. *)
Definition set_obj (h : Heap) (r : ObjRef) (o : HeapObj) : Heap :=
  mkHeap (vset (h_objs h) (r - 1) o) (h_interned h).

Definition objectCount (h : Heap) : N := u32 (vlen (h_objs h)).

Definition push_obj (h : Heap) (o : HeapObj) : ObjRef * Heap :=
  let objs := h_objs h ++ [o] in (u32 (vlen objs), mkHeap objs (h_interned h)).

Definition freeMonitor : MonitorState := mkMonitor 0 0.

Definition allocInstance (h : Heap) (cls : ClassId) (slotHint : N) : ObjRef * Heap :=
  push_obj h (mkObj ObjKind.Instance_ cls "" (replicate (N.to_nat slotHint) bottom)
    RType.Bottom 0 freeMonitor).

Definition allocArray (h : Heap) (arrayCls : ClassId) (elem : RType) (length : N) : ObjRef * Heap :=
  push_obj h (mkObj ObjKind.Array arrayCls "" (replicate (N.to_nat length) (zeroOf elem))
    elem length freeMonitor).

Definition allocString (h : Heap) (utf8 : string) (stringCls : ClassId) : ObjRef * Heap :=
  push_obj h (mkObj ObjKind.Instance_ stringCls utf8 [] RType.Bottom 0 freeMonitor).

(** ** Queries *)

Definition is_kind (k : ObjKind.t) (o : HeapObj) : bool := bool_decide (o_kind o = k).

Definition isInstance (h : Heap) (r : ObjRef) : bool :=
  match obj h r with Some o => is_kind ObjKind.Instance_ o | None => false end.

Definition isArray (h : Heap) (r : ObjRef) : bool :=
  match obj h r with Some o => is_kind ObjKind.Array o | None => false end.

Definition isString (h : Heap) (r : ObjRef) : bool :=
  match obj h r, h_interned h with
  | Some o, (_, a) :: _ =>
      if is_kind ObjKind.Instance_ o then
        match obj h a with Some anchor => o_cls anchor =? o_cls o | None => false end
      else false
  | _, _ => false
  end.

Definition classOf (h : Heap) (r : ObjRef) : ClassId :=
  match obj h r with Some o => o_cls o | None => 0 end.

Definition arrayLength (h : Heap) (r : ObjRef) : N :=
  match obj h r with
  | Some o => if is_kind ObjKind.Array o then o_length o else 0
  | None => 0
  end.

Definition stringOf (h : Heap) (r : ObjRef) : string :=
  if isString h r then match obj h r with Some o => o_str o | None => "" end else "".

(** ** Fields and elements *)

(** Slots grow when a field was resolved after the allocation. A slot is an index in
    a field list or a byte offset divided by 16, so [slot + 1] does not wrap. *)
Definition loadField (h : Heap) (r : ObjRef) (slot : N) : Value * Heap :=
  match obj h r with
  | Some o =>
      if is_kind ObjKind.Instance_ o then
        let sl := vgrow bottom (o_slots o) slot in
        (default bottom (vget sl slot), set_obj h r (o_with_slots o sl))
      else (bottom, h)
  | None => (bottom, h)
  end.

Definition storeField (h : Heap) (r : ObjRef) (slot : N) (v : Value) : bool * Heap :=
  match obj h r with
  | Some o =>
      if is_kind ObjKind.Instance_ o then
        (true, set_obj h r (o_with_slots o (vset (vgrow bottom (o_slots o) slot) slot v)))
      else (false, h)
  | None => (false, h)
  end.

Definition loadElem (h : Heap) (r : ObjRef) (index : N) : Value :=
  match obj h r with
  | Some o =>
      if negb (is_kind ObjKind.Array o) then bottom
      else if vlen (o_slots o) <=? index then bottom
      else default bottom (vget (o_slots o) index)
  | None => bottom
  end.

Definition storeElem (h : Heap) (r : ObjRef) (index : N) (v : Value) : bool * Heap :=
  match obj h r with
  | Some o =>
      if negb (is_kind ObjKind.Array o) then (false, h)
      else if vlen (o_slots o) <=? index then (false, h)
      else (true, set_obj h r (o_with_slots o (vset (o_slots o) index v)))
  | None => (false, h)
  end.

(** ** Monitors *)

Module MonFail.
Inductive t := None | Null | NotOwner.
#[global] Instance eq_dec : EqDecision t.
Proof. solve_decision. Defined.
End MonFail.

Definition monitorenter (h : Heap) (r : ObjRef) : MonFail.t * Heap :=
  match obj h r with
  | None => (MonFail.Null, h)
  | Some o =>
      let m := o_mon o in
      if mon_owner m =? 0 then (MonFail.None, set_obj h r (o_with_mon o (mkMonitor kOwnerThread 1)))
      else if mon_owner m =? kOwnerThread then
        (MonFail.None, set_obj h r (o_with_mon o (mkMonitor (mon_owner m) (u32 (mon_count m + 1)))))
      else (MonFail.NotOwner, h)
  end.

Definition monitorexit (h : Heap) (r : ObjRef) : MonFail.t * Heap :=
  match obj h r with
  | None => (MonFail.Null, h)
  | Some o =>
      let m := o_mon o in
      if negb (mon_owner m =? kOwnerThread) || (mon_count m =? 0) then (MonFail.NotOwner, h)
      else
        let c := mon_count m - 1 in
        (MonFail.None,
         set_obj h r (o_with_mon o (mkMonitor (if c =? 0 then 0 else mon_owner m) c)))
  end.

(** ** Interned strings *)

Definition interned_find (h : Heap) (s : string) : option ObjRef :=
  match List.find (fun e => (fst e =? s)%string) (h_interned h) with
  | Some (_, r) => Some r
  | None => None
  end.

Definition internString (h : Heap) (utf8 : string) (stringCls : ClassId) : ObjRef * Heap :=
  match interned_find h utf8 with
  | Some r => (r, h)
  | None =>
      let '(r, h) := allocString h utf8 stringCls in
      (r, mkHeap (h_objs h) (h_interned h ++ [(utf8, r)]))
  end.
