(* ===== verification/JavaString.v ===== *)
(** * Java's text of a float

    [javaFloatString] and [javaDoubleString] of compiler/interp/src/Runtime.cpp.
    The digits come from [std::to_chars] in scientific format: the shortest decimal
    that reads back as the same value, the nearest one when there are two. *)

From Stdlib Require Import SpecFloat Ascii.
From stdpp Require Import pretty.
From S2P Require Import Prelude RbcOpcode Rbc Machine.

Local Open Scope Z_scope.

(** ** [std::to_chars] *)

(** [m * 2 ^ e <= m' * 2 ^ e'], and with decimal factors: both sides as integers. *)
Definition pow_le (m e m' e' : Z) : bool :=
  let k := Z.min e e' in m * 2 ^ (e - k) <=? m' * 2 ^ (e' - k).

(** [d * 10 ^ q <= m * 2 ^ e] *)
Definition dec_le (d q m e : Z) : bool :=
  if 0 <=? q then pow_le (d * 10 ^ q) 0 m e else pow_le d 0 (m * 10 ^ (- q)) e.

(** [m * 2 ^ e <= d * 10 ^ q] *)
Definition le_dec (m e d q : Z) : bool :=
  if 0 <=? q then pow_le m e (d * 10 ^ q) 0 else pow_le (m * 10 ^ (- q)) e d 0.

(** The power of ten of the first digit of [m * 2 ^ e]. *)
Definition first_exponent (m e : Z) : Z :=
  let guess := ((Z.log2 m + e) * 30103) / 100000 in
  let up (x : Z) := if dec_le 1 (x + 1) m e then x + 1 else x in
  up (up guess).

(** Whether [d * 10 ^ q] reads back as the value with mantissa [m] and exponent [e]:
    it lies between the midpoints to the neighbours, or on one when [m] is even. *)
Definition reads_back (f : format) (m e d q : Z) : bool :=
  let hi := 4 * m + 2 in
  let lo := if (m =? 2 ^ (f_prec f - 1)) && negb (e =? f_emin f) then 4 * m - 1 else 4 * m - 2 in
  let inside := dec_le d q hi (e - 2) && le_dec lo (e - 2) d q in
  inside && (Z.even m || negb (le_dec hi (e - 2) d q || dec_le d q lo (e - 2))).

(** The largest [d] with [d * 10 ^ q <= m * 2 ^ e]. *)
Definition dec_floor (m e q : Z) : Z :=
  let num := m * (if 0 <=? e then 2 ^ e else 1) * (if 0 <=? q then 1 else 10 ^ (- q)) in
  let den := (if 0 <=? e then 1 else 2 ^ (- e)) * (if 0 <=? q then 10 ^ q else 1) in
  num / den.

(** [2 * m * 2 ^ e <= (2 * d + 1) * 10 ^ q]: rounding down is at least as near. *)
Definition nearer_down (m e d q : Z) : bool := le_dec (2 * m) e (2 * d + 1) q.

(** The shortest digits, as an integer, and the power of ten of its last digit. *)
Fixpoint shortest (fuel : nat) (f : format) (m e n : Z) : Z * Z :=
  match fuel with
  | O => (0, 0)
  | S fuel =>
      let q := first_exponent m e - n + 1 in
      let d := dec_floor m e q in
      let down := negb (d =? 0) && reads_back f m e d q in
      let up := reads_back f m e (d + 1) q in
      if down && up then (if nearer_down m e d q then d else d + 1, q)
      else if down then (d, q)
      else if up then (d + 1, q)
      else shortest fuel f m e (n + 1)
  end.

(** Seventeen digits always suffice. *)
Definition shortest_digits (f : format) (m e : Z) : Z * Z := shortest 18 f m e 1.

(** A power of ten loses its zeros. *)
Fixpoint strip_zeros (fuel : nat) (d q : Z) : Z * Z :=
  match fuel with
  | O => (d, q)
  | S fuel => if d mod 10 =? 0 then strip_zeros fuel (d / 10) (q + 1) else (d, q)
  end.

Definition two_digits (z : Z) : string :=
  if z <? 10 then "0" +:+ pretty z else pretty z.

(** The characters [to_chars] writes for a finite non-zero value. *)
Definition to_chars_scientific (f : format) (x : spec_float) : string :=
  match x with
  | S754_finite s m e =>
      let '(d0, q0) := shortest_digits f (Zpos m) e in
      let '(d, q) := strip_zeros 18 d0 q0 in
      let text := pretty d in
      let ex := q + Z.of_nat (String.length text) - 1 in
      (if s then "-" else "") +:+ String.substring 0 1 text +:+
      (if Nat.ltb 1 (String.length text)
       then "." +:+ String.substring 1 (String.length text - 1) text else "") +:+
      "e" +:+ (if ex <? 0 then "-" else "+") +:+ two_digits (Z.abs ex)
  | _ => ""
  end.

(** ** The layout *)

Record ShortestDecimal := mkShortest {
  sd_negative : bool; sd_digits : string; sd_exponent : Z; sd_ok : bool
}.

Definition is_digit (c : ascii) : bool :=
  (48 <=? Z.of_N (N_of_ascii c)) && (Z.of_N (N_of_ascii c) <=? 57).

Definition digit_value (c : ascii) : Z := Z.of_N (N_of_ascii c) - 48.

(** The exponent after its sign: [None] when the shape is wrong. *)
Fixpoint parseExponent (s : chars) (acc : Z) : option Z :=
  match s with
  | [] => Some acc
  | c :: s => if is_digit c then parseExponent s (acc * 10 + digit_value c) else None
  end.

Definition parseExponentPart (s : chars) : option Z :=
  match s with
  | c :: s' =>
      if Ascii.eqb c "-" then Z.opp <$> parseExponent s' 0
      else if Ascii.eqb c "+" then parseExponent s' 0
      else parseExponent s 0
  | [] => Some 0
  end.

(** The mantissa loop: [digits] holds at most 32 characters. *)
Fixpoint parseMantissa (neg : bool) (s : chars) (digits : string) : ShortestDecimal :=
  let bad := mkShortest neg digits 0 false in
  match s with
  | [] => bad
  | c :: s =>
      if Ascii.eqb c "e" || Ascii.eqb c "E" then
        match parseExponentPart s with
        | Some ex => mkShortest neg digits ex (Nat.ltb 0 (String.length digits))
        | None => bad
        end
      else if is_digit c then
        if Nat.leb 32 (String.length digits) then bad
        else parseMantissa neg s (digits +:+ String c "")
      else if Ascii.eqb c "." then parseMantissa neg s digits
      else bad
  end.

Definition parseShortestScientific (buf : string) : ShortestDecimal :=
  match chars_of buf with
  | c :: s =>
      if Ascii.eqb c "-" then parseMantissa true s "" else parseMantissa false (c :: s) ""
  | [] => parseMantissa false [] ""
  end.

Fixpoint zeros (n : nat) : string :=
  match n with O => "" | S n => String "0" (zeros n) end.

(** Plain notation for exponents from -3 to 6, scientific notation otherwise. *)
Definition layout (sd : ShortestDecimal) : string :=
  let d := sd_digits sd in
  let len := String.length d in
  let ex := sd_exponent sd in
  (if sd_negative sd then "-" else "") +:+
  if (-3 <=? ex) && (ex <? 7) then
    if 0 <=? ex then
      let intDigits := S (Z.to_nat ex) in
      if Nat.leb len intDigits then d +:+ zeros (intDigits - len) +:+ ".0"
      else String.substring 0 intDigits d +:+ "." +:+
           String.substring intDigits (len - intDigits) d
    else "0." +:+ zeros (Z.to_nat (- ex) - 1) +:+ d
  else
    String.substring 0 1 d +:+ "." +:+
    (if Nat.ltb 1 len then String.substring 1 (len - 1) d else "0") +:+
    "E" +:+ pretty ex.

Definition javaFloatStringImpl (f : format) (bits : Z) : string :=
  match decode f bits with
  | S754_nan => "NaN"
  | S754_infinity s => if s then "-Infinity" else "Infinity"
  | S754_zero s => if s then "-0.0" else "0.0"
  | v =>
      let sd := parseShortestScientific (to_chars_scientific f v) in
      if sd_ok sd then layout sd else "NaN"
  end.

Definition javaDoubleString (bits : Z) : string := javaFloatStringImpl binary64 bits.
Definition javaFloatString (bits : Z) : string := javaFloatStringImpl binary32 bits.

(** ** Values of the reference table *)

Lemma java_float_text :
  javaFloatString 0x3DCCCCCD = "0.1" /\ javaFloatString 0x7F7FFFFF = "3.4028235E38" /\
  javaFloatString 0x00000001 = "1.0E-45" /\ javaFloatString 0xC2C80000 = "-100.0" /\
  javaFloatString 0x7FC00000 = "NaN" /\ javaFloatString 0x80000000 = "-0.0".
Proof. vm_compute. repeat split. Qed.

Lemma java_double_text :
  javaDoubleString 0x400921FB54442D18 = "3.141592653589793" /\
  javaDoubleString 0x3FD5555555555555 = "0.3333333333333333" /\
  javaDoubleString 0x416312D000000000 = "1.0E7" /\ javaDoubleString 0x7FEFFFFFFFFFFFFF = "1.7976931348623157E308" /\
  javaDoubleString 0x0000000000000001 = "5.0E-324" /\ javaDoubleString 0x3F1A36E2EB1C432D = "1.0E-4" /\
  javaDoubleString 0x3F50624DD2F1A9FC = "0.001" /\ javaDoubleString 0xFFF0000000000000 = "-Infinity".
Proof. vm_compute. repeat split. Qed.
