(* ===== verification/Runtime.v ===== *)
(** * Runtime services

    include/b2/interp/Runtime.h and compiler/interp/src/Runtime.cpp: the class
    registry, lazy field resolution, statics, class initialisation, assignability,
    the print builtins, allocation, exception construction and profiles. A method
    is its index in the program's table; pointers into the table are indices. *)

From Stdlib Require Import Ascii String.
From stdpp Require Import pretty.
From S2P Require Import Prelude RbcOpcode Rbc Machine Heap JavaString.

Local Open Scope N_scope.

(** ** Data *)

Record ClassInfo := mkClass {
  ci_name : string; ci_superclass : ClassId; ci_initialized : bool;
  ci_fields : list FieldId; ci_isExceptionClass : bool
}.

Definition kEmpty : ClassInfo := mkClass "" 0 false [] false.

Record ResolvedField := mkResolved {
  rf_id : FieldId; rf_cls : ClassId; rf_slot : N; rf_type : RType
}.

Record MethodProfile := mkProfile { mp_invocations : N; mp_backedges : N }.

Record Runtime := mkRuntime {
  heap_ : Heap; classes_ : list ClassInfo; classByName_ : gmap string N;
  fieldIndex_ : list (N * N); statics_ : list Value; profiles_ : list MethodProfile;
  classObjects_ : list ObjRef; systemOut_ : ObjRef; systemErr_ : ObjRef;
  objectClass_ : ClassId; stringClass_ : ClassId; throwableClass_ : ClassId;
  classClass_ : ClassId; out_ : string; err_ : string
}.

Definition with_heap (rt : Runtime) (h : Heap) : Runtime :=
  mkRuntime h (classes_ rt) (classByName_ rt) (fieldIndex_ rt) (statics_ rt) (profiles_ rt)
    (classObjects_ rt) (systemOut_ rt) (systemErr_ rt) (objectClass_ rt) (stringClass_ rt)
    (throwableClass_ rt) (classClass_ rt) (out_ rt) (err_ rt).
Definition with_classes (rt : Runtime) (cs : list ClassInfo) (names : gmap string N) : Runtime :=
  mkRuntime (heap_ rt) cs names (fieldIndex_ rt) (statics_ rt) (profiles_ rt)
    (classObjects_ rt) (systemOut_ rt) (systemErr_ rt) (objectClass_ rt) (stringClass_ rt)
    (throwableClass_ rt) (classClass_ rt) (out_ rt) (err_ rt).
Definition with_fields (rt : Runtime) (fs : list (N * N)) (ss : list Value) : Runtime :=
  mkRuntime (heap_ rt) (classes_ rt) (classByName_ rt) fs ss (profiles_ rt)
    (classObjects_ rt) (systemOut_ rt) (systemErr_ rt) (objectClass_ rt) (stringClass_ rt)
    (throwableClass_ rt) (classClass_ rt) (out_ rt) (err_ rt).
Definition with_profiles (rt : Runtime) (ps : list MethodProfile) : Runtime :=
  mkRuntime (heap_ rt) (classes_ rt) (classByName_ rt) (fieldIndex_ rt) (statics_ rt) ps
    (classObjects_ rt) (systemOut_ rt) (systemErr_ rt) (objectClass_ rt) (stringClass_ rt)
    (throwableClass_ rt) (classClass_ rt) (out_ rt) (err_ rt).
Definition with_classObjects (rt : Runtime) (os : list ObjRef) : Runtime :=
  mkRuntime (heap_ rt) (classes_ rt) (classByName_ rt) (fieldIndex_ rt) (statics_ rt)
    (profiles_ rt) os (systemOut_ rt) (systemErr_ rt) (objectClass_ rt) (stringClass_ rt)
    (throwableClass_ rt) (classClass_ rt) (out_ rt) (err_ rt).
Definition with_output (rt : Runtime) (o e : string) : Runtime :=
  mkRuntime (heap_ rt) (classes_ rt) (classByName_ rt) (fieldIndex_ rt) (statics_ rt)
    (profiles_ rt) (classObjects_ rt) (systemOut_ rt) (systemErr_ rt) (objectClass_ rt)
    (stringClass_ rt) (throwableClass_ rt) (classClass_ rt) o e.

(** An allocation of the heap. *)
Definition on_heap (rt : Runtime) (r : ObjRef * Heap) : ObjRef * Runtime :=
  (fst r, with_heap rt (snd r)).

(** [program.find(..) - program.methods.data()] *)
Fixpoint method_position (ms : list Method) (name descriptor : string) : option N :=
  match ms with
  | [] => None
  | m :: ms =>
      if (m_name m =? name)%string && (m_descriptor m =? descriptor)%string then Some 0
      else N.succ <$> method_position ms name descriptor
  end.

Definition method_index (p : Program) (name descriptor : string) : option MethodId :=
  method_position (p_methods p) name descriptor.

(** ** Registry keys and field descriptors *)

Definition isFieldRegistryEntry (v : N) : bool := negb (N.land v 1 =? 0).

Definition registry_separator : string := String (ascii_of_N 1) "".

Definition fieldRegistryKey (cls name : string) : string :=
  registry_separator +:+ cls +:+ registry_separator +:+ name.

Definition is_structural (c : ascii) : bool :=
  Ascii.eqb c "(" || Ascii.eqb c ")" || Ascii.eqb c "[" || Ascii.eqb c ";".

Definition is_elem_char (c : ascii) : bool :=
  Ascii.eqb c "I" || Ascii.eqb c "J" || Ascii.eqb c "F" || Ascii.eqb c "D" ||
  Ascii.eqb c "Z" || Ascii.eqb c "B" || Ascii.eqb c "C" || Ascii.eqb c "S".

Definition alone (d : chars) (t : RType) : RType :=
  if vlen d =? 1 then t else RType.Bottom.

Definition fieldDescriptorType (s : string) : RType :=
  let d := chars_of s in
  match d with
  | [] => RType.Bottom
  | c :: d' =>
      if Ascii.eqb c "I" || Ascii.eqb c "Z" || Ascii.eqb c "B" || Ascii.eqb c "C" ||
         Ascii.eqb c "S" then alone d RType.Int
      else if Ascii.eqb c "J" then alone d RType.Long
      else if Ascii.eqb c "F" then alone d RType.Float
      else if Ascii.eqb c "D" then alone d RType.Double
      else if Ascii.eqb c "L" then
        if (vlen d <? 3) || negb (Ascii.eqb (List.last d c) ";") then RType.Bottom
        else if existsb is_structural (List.removelast d') then RType.Bottom
        else RType.Ref
      else if Ascii.eqb c "[" then
        match skip_brackets d with
        | [] => RType.Bottom
        | e :: rest =>
            if Ascii.eqb e "L" then
              if Ascii.eqb (List.last d c) ";" && (2 <=? vlen rest) then RType.Ref else RType.Bottom
            else if negb (vlen rest =? 0) then RType.Bottom
            else if is_elem_char e then RType.Ref
            else RType.Bottom
        end
      else RType.Bottom
  end.

Definition kValueSlotBytes : N := 16.

Definition kPrintOverloads : list string :=
  ["()V"; "(I)V"; "(J)V"; "(F)V"; "(D)V"; "(Z)V"; "(C)V"; "(Ljava/lang/String;)V";
   "(Ljava/lang/Object;)V"].

(** ** Class registry *)

Definition classInfo (rt : Runtime) (id : ClassId) : ClassInfo :=
  default kEmpty (vget (classes_ rt) id).

Definition classId (rt : Runtime) (internalName : string) : ClassId * Runtime :=
  let fresh :=
    let cid := u32 (vlen (classes_ rt)) in
    (cid, with_classes rt (classes_ rt ++ [mkClass internalName 0 false [] false])
            (<[internalName := u32 (cid * 2)]> (classByName_ rt))) in
  match classByName_ rt !! internalName with
  | Some v => if negb (isFieldRegistryEntry v) then (N.shiftr v 1, rt) else fresh
  | None => fresh
  end.

Definition findClass (rt : Runtime) (internalName : string) : ClassId :=
  match classByName_ rt !! internalName with
  | Some v => if negb (isFieldRegistryEntry v) then N.shiftr v 1 else u32 (vlen (classes_ rt))
  | None => u32 (vlen (classes_ rt))
  end.

(** [addClass] of [registerBuiltinClasses]; [emplace] keeps an existing entry. *)
Definition addClass (rt : Runtime) (name : string) (super : ClassId) (isExc : bool) : ClassId * Runtime :=
  let cid := u32 (vlen (classes_ rt)) in
  (cid, with_classes rt (classes_ rt ++ [mkClass name super false [] isExc])
          (match classByName_ rt !! name with
           | Some _ => classByName_ rt
           | None => <[name := u32 (cid * 2)]> (classByName_ rt)
           end)).

Definition with_roots (rt : Runtime) (o s c t : ClassId) : Runtime :=
  mkRuntime (heap_ rt) (classes_ rt) (classByName_ rt) (fieldIndex_ rt) (statics_ rt)
    (profiles_ rt) (classObjects_ rt) (systemOut_ rt) (systemErr_ rt) o s t c
    (out_ rt) (err_ rt).

Definition registerBuiltinClasses (rt : Runtime) : Runtime :=
  let '(objectC, rt) := addClass rt "java/lang/Object" 0 false in
  let '(stringC, rt) := addClass rt "java/lang/String" objectC false in
  let '(classC, rt) := addClass rt "java/lang/Class" objectC false in
  let '(_, rt) := addClass rt "java/io/PrintStream" objectC false in
  let '(_, rt) := addClass rt "java/lang/System" objectC false in
  let '(throwableC, rt) := addClass rt "java/lang/Throwable" objectC true in
  let rt := with_roots rt objectC stringC classC throwableC in
  let '(exceptionCls, rt) := addClass rt "java/lang/Exception" throwableC true in
  let '(errorCls, rt) := addClass rt "java/lang/Error" throwableC true in
  let '(runtimeExCls, rt) := addClass rt "java/lang/RuntimeException" exceptionCls true in
  let '(_, rt) := addClass rt "java/lang/ArithmeticException" runtimeExCls true in
  let '(_, rt) := addClass rt "java/lang/NullPointerException" runtimeExCls true in
  let '(_, rt) := addClass rt "java/lang/ArrayStoreException" runtimeExCls true in
  let '(_, rt) := addClass rt "java/lang/ClassCastException" runtimeExCls true in
  let '(_, rt) := addClass rt "java/lang/IllegalMonitorStateException" runtimeExCls true in
  let '(indexOutOfBoundsCls, rt) :=
    addClass rt "java/lang/IndexOutOfBoundsException" runtimeExCls true in
  let '(_, rt) := addClass rt "java/lang/NegativeArraySizeException" runtimeExCls true in
  let '(_, rt) := addClass rt "java/lang/UnsupportedOperationException" runtimeExCls true in
  let '(_, rt) :=
    addClass rt "java/lang/ArrayIndexOutOfBoundsException" indexOutOfBoundsCls true in
  let '(vmErrorCls, rt) := addClass rt "java/lang/VirtualMachineError" errorCls true in
  let '(_, rt) := addClass rt "java/lang/InternalError" vmErrorCls true in
  let '(_, rt) := addClass rt "java/lang/StackOverflowError" vmErrorCls true in
  let '(linkageErrorCls, rt) := addClass rt "java/lang/LinkageError" errorCls true in
  let '(_, rt) := addClass rt "java/lang/NoSuchMethodError" linkageErrorCls true in
  let '(_, rt) := addClass rt "java/lang/BootstrapMethodError" linkageErrorCls true in
  rt.

Definition blankRuntime : Runtime :=
  mkRuntime newHeap [] ∅ [] [] [] [] 0 0 0 0 0 0 "" "".

Definition set_streams (rt : Runtime) (o e : ObjRef) (h : Heap) (ps : list MethodProfile) : Runtime :=
  mkRuntime h (classes_ rt) (classByName_ rt) (fieldIndex_ rt) (statics_ rt) ps
    (classObjects_ rt) o e (objectClass_ rt) (stringClass_ rt) (throwableClass_ rt)
    (classClass_ rt) (out_ rt) (err_ rt).

Definition newRuntime (p : Program) : Runtime :=
  let rt := registerBuiltinClasses blankRuntime in
  let printStream := findClass rt "java/io/PrintStream" in
  let '(o, h) := allocInstance (heap_ rt) printStream 0 in
  let '(e, h) := allocInstance h printStream 0 in
  set_streams rt o e h (replicate (length (p_methods p)) (mkProfile 0 0)).

(** ** Class initialisation *)

Definition has_clinit (p : Program) : bool :=
  match method_index p "<clinit>" "()V" with Some _ => true | None => false end.

Definition needsInit (p : Program) (rt : Runtime) (id : ClassId) : bool :=
  match vget (classes_ rt) id with
  | None => false
  | Some ci =>
      if ci_initialized ci then false
      else if negb (ci_name ci =? p_className p)%string then false
      else has_clinit p
  end.

Definition findClinit (p : Program) (rt : Runtime) (id : ClassId) : MethodId :=
  if negb (needsInit p rt id) then 0 else default 0 (method_index p "<clinit>" "()V").

Definition markInitialized (rt : Runtime) (id : ClassId) : Runtime :=
  match vget (classes_ rt) id with
  | None => rt
  | Some ci =>
      with_classes rt (vset (classes_ rt) id
        (mkClass (ci_name ci) (ci_superclass ci) true (ci_fields ci) (ci_isExceptionClass ci)))
        (classByName_ rt)
  end.

(** ** Assignability and names *)

Definition isArrayName (s : string) : bool :=
  match s with String c _ => Ascii.eqb c "[" | EmptyString => false end.

(** The chain walk; its bound is the number of classes and one more. *)
Fixpoint chain_reaches (guard : nat) (rt : Runtime) (target cur : ClassId) : bool :=
  match guard with
  | O => false
  | S guard =>
      if cur =? target then true
      else
        let sup := ci_superclass (classInfo rt cur) in
        if (sup =? cur) || (vlen (classes_ rt) <=? sup) then false
        else chain_reaches guard rt target sup
  end.

Definition isAssignableFrom (rt : Runtime) (target value : ClassId) : bool :=
  if (vlen (classes_ rt) <=? target) || (vlen (classes_ rt) <=? value) then false
  else if isArrayName (ci_name (classInfo rt target)) || isArrayName (ci_name (classInfo rt value))
  then target =? value
  else chain_reaches (S (length (classes_ rt))) rt target value.

Definition classNameOf (rt : Runtime) (r : ObjRef) : string :=
  match peek (heap_ rt) r with Some o => ci_name (classInfo rt (o_cls o)) | None => "" end.

Fixpoint dotted (s : string) : string :=
  match s with
  | EmptyString => EmptyString
  | String c s => String (if Ascii.eqb c "/" then "."%char else c) (dotted s)
  end.

Definition dottedClassName (rt : Runtime) (id : ClassId) : string := dotted (ci_name (classInfo rt id)).

(** ** Fields *)

(** [classes_[cid.v].fields.push_back(fid)]; [None] is a subscript out of range. *)
Definition push_field (rt : Runtime) (cid : ClassId) (fid : FieldId) : option Runtime :=
  ci ← vget (classes_ rt) cid;
  Some (with_classes rt (vset (classes_ rt) cid
    (mkClass (ci_name ci) (ci_superclass ci) (ci_initialized ci) (ci_fields ci ++ [fid])
       (ci_isExceptionClass ci))) (classByName_ rt)).

Definition with_names (rt : Runtime) (names : gmap string N) : Runtime :=
  with_classes rt (classes_ rt) names.

(** The outer option is undefined behaviour, the inner one [std::nullopt]. *)
Definition resolveField (rt : Runtime) (c : Const) : option (option ResolvedField * Runtime) :=
  if negb (bool_decide (c_kind c = Kind.FieldRef)) then Some (None, rt)
  else
    let '(cid, rt) := classId rt (c_str c) in
    let key := fieldRegistryKey (c_str c) (c_str2 c) in
    let it := classByName_ rt !! key in
    let ty := fieldDescriptorType (c_str3 c) in
    let known :=
      match it with
      | Some v =>
          if isFieldRegistryEntry v then
            match vget (fieldIndex_ rt) (N.shiftr v 1) with
            | Some (ci, slot) =>
                if ci =? cid then Some (mkResolved (N.shiftr v 1) cid slot ty) else None
            | None => None
            end
          else None
      | None => None
      end in
    match known with
    | Some rf => Some (Some rf, rt)
    | None =>
        let fid := u32 (vlen (fieldIndex_ rt)) in
        ci ← vget (classes_ rt) cid;
        let slot := u32 (vlen (ci_fields ci)) in
        rt ← push_field rt cid fid;
        let rt := with_fields rt (fieldIndex_ rt ++ [(cid, slot)]) (statics_ rt ++ [bottom]) in
        let rt :=
          if match it with None => true | Some v => isFieldRegistryEntry v end
          then with_names rt (<[key := u32 (fid * 2 + 1)]> (classByName_ rt)) else rt in
        Some (Some (mkResolved fid cid slot ty), rt)
    end.

Definition fieldOffsetOf (slot : N) : N := u32 (slot * kValueSlotBytes).
Definition slotOfFieldOffset (offset : N) : N := offset / kValueSlotBytes.

(** ** Methods and builtins *)

Definition resolveMethod (p : Program) (c : Const) : option MethodId :=
  if negb (bool_decide (c_kind c = Kind.MethodRef)) &&
     negb (bool_decide (c_kind c = Kind.InterfaceMethodRef)) then None
  else if negb (c_str c =? p_className p)%string then None
  else method_index p (c_str2 c) (c_str3 c).

Definition kDummy : Method := mkMethod "<b2-bad-method-id>" "()V" 0 0 0 [] [] [].

Definition method (p : Program) (id : MethodId) : Method := default kDummy (vget (p_methods p) id).

Module Builtin.
Inductive t := None | Println | Print.
#[global] Instance eq_dec : EqDecision t.
Proof. solve_decision. Defined.
End Builtin.

Definition lookupBuiltinVirtual (rt : Runtime) (receiverClass : ClassId) (name descriptor : string)
    : Builtin.t :=
  if negb (name =? "println")%string && negb (name =? "print")%string then Builtin.None
  else if negb (ci_name (classInfo rt receiverClass) =? "java/io/PrintStream")%string then Builtin.None
  else if existsb (fun o => (o =? descriptor)%string) kPrintOverloads
  then (if (name =? "println")%string then Builtin.Println else Builtin.Print)
  else Builtin.None.

Definition javaValueText (rt : Runtime) (v : Value) : string :=
  match v_type v with
  | RType.Int => pretty (as_i v)
  | RType.Long => pretty (as_l v)
  | RType.Float => javaFloatString (as_f v)
  | RType.Double => javaDoubleString (as_d v)
  | RType.Null => "null"
  | RType.Ref =>
      let r := ref v in
      if isString (heap_ rt) r then stringOf (heap_ rt) r
      else dotted (classNameOf rt r) +:+ "@" +:+ pretty r
  | RType.Bottom => ""
  end.

Definition newline : string := String (ascii_of_N 10) "".

Definition execBuiltin (rt : Runtime) (b : Builtin.t) (args : list Value) : bool * Runtime :=
  if bool_decide (b = Builtin.None) then (false, rt)
  else
    match args with
    | [] => (false, rt)
    | recv :: rest =>
        if 1 <? vlen rest then (false, rt)
        else
          let toErr := isRef recv && (as_obj recv =? systemErr_ rt) in
          let text :=
            match rest with v :: _ => javaValueText rt v | [] => "" end +:+
            (if bool_decide (b = Builtin.Println) then newline else "") in
          (true, if toErr then with_output rt (out_ rt) (err_ rt +:+ text)
                 else with_output rt (out_ rt +:+ text) (err_ rt))
    end.

(** ** Allocation *)

Definition newInstance (rt : Runtime) (cls : ClassId) : ObjRef * Runtime :=
  on_heap rt (allocInstance (heap_ rt) cls (u32 (vlen (ci_fields (classInfo rt cls))))).

(** The element type and class name of an array type code. *)
Definition arrayOfAtype (atype : N) : RType * string :=
  if atype =? Atype.code Atype.Boolean then (RType.Int, "[Z")
  else if atype =? Atype.code Atype.Char then (RType.Int, "[C")
  else if atype =? Atype.code Atype.Float then (RType.Float, "[F")
  else if atype =? Atype.code Atype.Double then (RType.Double, "[D")
  else if atype =? Atype.code Atype.Byte then (RType.Int, "[B")
  else if atype =? Atype.code Atype.Short then (RType.Int, "[S")
  else if atype =? Atype.code Atype.Long then (RType.Long, "[J")
  else (RType.Int, "[I").

Definition newArray (rt : Runtime) (atype : N) (length : N) : ObjRef * Runtime :=
  let '(elem, clsName) := arrayOfAtype atype in
  let '(cls, rt) := classId rt clsName in
  on_heap rt (allocArray (heap_ rt) cls elem length).

Definition refArrayName (ec : string) : string :=
  match ec with
  | EmptyString => "[Ljava/lang/Object;"
  | String c _ => if Ascii.eqb c "[" then "[" +:+ ec else "[L" +:+ ec +:+ ";"
  end.

Definition newRefArray (rt : Runtime) (elementClass : ClassId) (length : N) : ObjRef * Runtime :=
  let '(cls, rt) := classId rt (refArrayName (ci_name (classInfo rt elementClass))) in
  on_heap rt (allocArray (heap_ rt) cls RType.Ref length).

Definition level_length (dims : list Z) (level : N) : N :=
  Z.to_N (default 0%Z (vget dims level)).

Definition childName (s : string) : string :=
  match s with String c s' => if Ascii.eqb c "[" then s' else s | EmptyString => s end.

Fixpoint buildMultiLevel (depthLeft : nat) (rt : Runtime) (levelClsName : string)
    (baseElem : RType) (dims : list Z) (level : N) : ObjRef * Runtime :=
  let len := level_length dims level in
  let '(cls, rt) := classId rt levelClsName in
  match depthLeft with
  | O | S O => on_heap rt (allocArray (heap_ rt) cls baseElem len)
  | S depthLeft =>
      let '(arr, rt) := on_heap rt (allocArray (heap_ rt) cls RType.Ref len) in
      (arr, foldl (fun rt i =>
              let '(sub, rt) :=
                buildMultiLevel depthLeft rt (childName levelClsName) baseElem dims (level + 1) in
              with_heap rt (snd (storeElem (heap_ rt) arr i (refVal sub))))
            rt (indices len))
  end.

Fixpoint count_brackets (s : string) : nat * string :=
  match s with
  | String c s' =>
      if Ascii.eqb c "[" then let '(n, rest) := count_brackets s' in (S n, rest) else (O, s)
  | EmptyString => (O, EmptyString)
  end.

(** The suffix after at most 255 brackets. *)
Fixpoint after_brackets (n : nat) (s : string) : string :=
  match n, s with
  | S n, String _ s => after_brackets n s
  | _, _ => s
  end.

Definition newMultiArray (rt : Runtime) (elementClass : ClassId) (dims : list Z) : ObjRef * Runtime :=
  let fullName := ci_name (classInfo rt elementClass) in
  let depth := fst (count_brackets fullName) in
  match depth with
  | O =>
      let name := "[L" +:+ (if (fullName =? "")%string then "java/lang/Object" else fullName) +:+ ";" in
      let '(cls, rt) := classId rt name in
      on_heap rt (allocArray (heap_ rt) cls RType.Ref (level_length dims 0))
  | _ =>
      let depth := Nat.min depth 255 in
      let t := fieldDescriptorType (after_brackets depth fullName) in
      let baseElem := if bool_decide (t = RType.Bottom) then RType.Ref else t in
      buildMultiLevel depth rt fullName baseElem dims 0
  end.

(** [Runtime::internString] *)
Definition rt_internString (rt : Runtime) (utf8 : string) : ObjRef * Runtime :=
  on_heap rt (internString (heap_ rt) utf8 (stringClass_ rt)).

(** ** Statics *)

Definition staticOf (rf : ResolvedField) : FieldId := rf_id rf.

Definition loadStatic (rt : Runtime) (f : FieldId) : Value :=
  if vlen (statics_ rt) <=? f then bottom else default bottom (vget (statics_ rt) f).

Definition storeStatic (rt : Runtime) (f : FieldId) (v : Value) : Runtime :=
  with_fields rt (fieldIndex_ rt) (vset (vgrow bottom (statics_ rt) f) f v).

(** ** Exceptions *)

Definition detailMessage : Const :=
  mkConst Kind.FieldRef 0 0 0 0 "java/lang/Throwable" "detailMessage" "Ljava/lang/String;" [].

Definition markException (rt : Runtime) (cid : ClassId) : Runtime :=
  match vget (classes_ rt) cid with
  | Some ci =>
      if negb (ci_isExceptionClass ci) && isAssignableFrom rt (throwableClass_ rt) cid
      then with_classes rt (vset (classes_ rt) cid
             (mkClass (ci_name ci) (ci_superclass ci) (ci_initialized ci) (ci_fields ci) true))
             (classByName_ rt)
      else rt
  | None => rt
  end.

Definition makeException (rt : Runtime) (internalName message : string) : option (ObjRef * Runtime) :=
  let '(cid, rt) := classId rt internalName in
  let rt := markException rt cid in
  let '(o, rt) := newInstance rt cid in
  '(rf, rt) ← resolveField rt detailMessage;
  match rf with
  | None => Some (o, rt)
  | Some rf =>
      let '(s, rt) := rt_internString rt message in
      Some (o, with_heap rt (snd (storeField (heap_ rt) o (rf_slot rf) (refVal s))))
  end.

(** The scan of the registry for the key of [detailMessage]. *)
Definition detail_slot (rt : Runtime) : option N :=
  match List.find (fun e =>
          isFieldRegistryEntry (snd e) &&
          (fst e =? fieldRegistryKey "java/lang/Throwable" "detailMessage")%string)
          (map_to_list (classByName_ rt)) with
  | Some (_, v) => snd <$> vget (fieldIndex_ rt) (N.shiftr v 1)
  | None => None
  end.

Definition exceptionMessage (rt : Runtime) (r : ObjRef) : string :=
  match detail_slot rt, peek (heap_ rt) r with
  | Some slot, Some o =>
      if negb (is_kind ObjKind.Instance_ o) then ""
      else match vget (o_slots o) slot with
           | Some v => if isRef v then stringOf (heap_ rt) (ref v) else ""
           | None => ""
           end
  | _, _ => ""
  end.

(** ** Class objects, builtin statics, profiles *)

Definition classObject (rt : Runtime) (id : ClassId) : ObjRef * Runtime :=
  let objects := vgrow 0 (classObjects_ rt) id in
  let cur := default 0 (vget objects id) in
  if valid cur then (cur, with_classObjects rt objects)
  else
    let '(r, rt) := newInstance rt (classClass_ rt) in
    (r, with_classObjects rt (vset objects id r)).

Definition builtinStatic (rt : Runtime) (c : Const) : option ObjRef :=
  if negb (bool_decide (c_kind c = Kind.FieldRef)) then None
  else if negb (c_str c =? "java/lang/System")%string then None
  else if negb (c_str3 c =? "Ljava/io/PrintStream;")%string then None
  else if (c_str2 c =? "out")%string then Some (systemOut_ rt)
  else if (c_str2 c =? "err")%string then Some (systemErr_ rt)
  else None.

(** Saturating increment. *)
Definition sat_succ (c : N) : N := if c =? 4294967295 then c else c + 1.

Definition bumpInvocations (rt : Runtime) (id : MethodId) : Runtime :=
  match vget (profiles_ rt) id with
  | None => rt
  | Some p =>
      with_profiles rt (vset (profiles_ rt) id (mkProfile (sat_succ (mp_invocations p)) (mp_backedges p)))
  end.

Definition bumpBackedge (rt : Runtime) (id : MethodId) : Runtime :=
  match vget (profiles_ rt) id with
  | None => rt
  | Some p =>
      with_profiles rt (vset (profiles_ rt) id (mkProfile (mp_invocations p) (sat_succ (mp_backedges p))))
  end.
