(* ===== verification/Frame.v ===== *)
(** * Frames and their text

    include/b2/interp/Frame.h and compiler/interp/src/Frame.cpp: the frame of the
    interpreter, which is the unit of deoptimisation, and its state dump. A frame
    stack is a list with the innermost frame first. *)

From Stdlib Require Import Ascii String.
From stdpp Require Import pretty.
From S2P Require Import Prelude RbcOpcode Rbc Machine Heap JavaString Runtime.

Local Open Scope N_scope.

(** [f_method] is the position of the method in the program's table, or [None] for
    a null pointer. *)
Record Frame := mkFrame {
  f_method : option MethodId; f_pc : N; f_locals : list Value; f_regs : list Value;
  f_monitors : list ObjRef; f_pendingException : ObjRef; f_callerPc : N
}.

Definition f_with_pc (f : Frame) (pc : N) : Frame :=
  mkFrame (f_method f) pc (f_locals f) (f_regs f) (f_monitors f) (f_pendingException f) (f_callerPc f).
Definition f_with_locals (f : Frame) (ls : list Value) : Frame :=
  mkFrame (f_method f) (f_pc f) ls (f_regs f) (f_monitors f) (f_pendingException f) (f_callerPc f).
Definition f_with_regs (f : Frame) (rs : list Value) : Frame :=
  mkFrame (f_method f) (f_pc f) (f_locals f) rs (f_monitors f) (f_pendingException f) (f_callerPc f).
Definition f_with_monitors (f : Frame) (ms : list ObjRef) : Frame :=
  mkFrame (f_method f) (f_pc f) (f_locals f) (f_regs f) ms (f_pendingException f) (f_callerPc f).
Definition f_with_pending (f : Frame) (r : ObjRef) : Frame :=
  mkFrame (f_method f) (f_pc f) (f_locals f) (f_regs f) (f_monitors f) r (f_callerPc f).

(** ** The state dump *)

Definition kindSpelling (t : RType) : string :=
  if bool_decide (t = RType.Bottom) then "bot" else typeName t.

Definition payloadText (rt : Runtime) (v : Value) : string :=
  match v_type v with
  | RType.Int => pretty (as_i v)
  | RType.Long => pretty (as_l v)
  | RType.Float => javaFloatString (as_f v)
  | RType.Double => javaDoubleString (as_d v)
  | RType.Null => "null"
  | RType.Bottom => "bot"
  | RType.Ref =>
      let r := ref v in
      classNameOf rt r +:+ "@" +:+ pretty r +:+
      (if isString (heap_ rt) r then " str=" +:+ stringOf (heap_ rt) r else "")
  end.

Fixpoint slotTexts (rt : Runtime) (slotKind : string) (i : N) (slots : list Value) : string :=
  match slots with
  | [] => ""
  | v :: slots =>
      " " +:+ slotKind +:+ pretty i +:+ ":" +:+ kindSpelling (v_type v) +:+ "=" +:+
      payloadText rt v +:+ slotTexts rt slotKind (i + 1) slots
  end.

Definition slotLine (rt : Runtime) (label slotKind : string) (slots : list Value) : string :=
  "  " +:+ label +:+ slotTexts rt slotKind 0 slots +:+ newline.

Fixpoint monitorTexts (ms : list ObjRef) : string :=
  match ms with
  | [] => ""
  | m :: ms => "," +:+ pretty m +:+ monitorTexts ms
  end.

Definition dumpFrame (p : Program) (f : Frame) (depth : N) (rt : Runtime) : string :=
  "frame " +:+ pretty depth +:+ " method=" +:+
  match f_method f with
  | Some id => m_name (method p id) +:+ m_descriptor (method p id)
  | None => "<none>"
  end +:+ " pc=" +:+ pretty (f_pc f) +:+ newline +:+
  slotLine rt "local" "l" (f_locals f) +:+ slotLine rt "reg" "r" (f_regs f) +:+
  "  monitors=" +:+ pretty (vlen (f_monitors f)) +:+ monitorTexts (f_monitors f) +:+ newline.

(** From the innermost frame outwards, a blank line between two frames. *)
Fixpoint dumpFramesFrom (p : Program) (frames : list Frame) (depth : N) (rt : Runtime) : string :=
  match frames with
  | [] => ""
  | f :: frames =>
      (if depth =? 0 then "" else newline) +:+ dumpFrame p f depth rt +:+
      dumpFramesFrom p frames (depth + 1) rt
  end.

Definition dumpFrames (p : Program) (frames : list Frame) (rt : Runtime) : string :=
  dumpFramesFrom p frames 0 rt.
