(* ===== verification/Interp.v ===== *)
(** * The interpreter

    include/b2/interp/Interp.h and compiler/interp/src/Interp.cpp: the dispatch loop
    over an explicit frame stack, with the call protocol, the exception algorithm,
    inline caches and dispatch profiles. A handler takes the machine state to an
    [outcome]. The option around it is C++ undefined behaviour: a subscript out of
    range, [back()] of an empty stack, or a method pointer outside the table. *)

From Stdlib Require Import Ascii String SpecFloat.
From stdpp Require Import pretty.
From S2P Require Import Prelude RbcOpcode Rbc RbcVerifier Machine ConstFold.
From S2P Require Import Heap JavaString Runtime Frame.

Local Open Scope N_scope.

(** ** Data *)

Module DispatchSiteKind.
Inductive t := Virtual | Interface_ | Special | Static.
#[global] Instance eq_dec : EqDecision t.
Proof. solve_decision. Defined.
End DispatchSiteKind.

Definition kMaxDispatchProfileEntries : nat := 3.
Definition kDispatchNoRecvClass : N := 4294967295.
Definition kDispatchNoTarget : N := 4294967295.

Record DispatchEntry := mkDispatch { de_recvClass : N; de_target : N; de_count : N }.

Definition noEntry : DispatchEntry := mkDispatch kDispatchNoRecvClass kDispatchNoTarget 0.

Record DispatchSiteProfile := mkSite {
  dp_kind : DispatchSiteKind.t; dp_megamorphic : bool; dp_count : N;
  dp_entries : list DispatchEntry
}.

Definition noSite : DispatchSiteProfile :=
  mkSite DispatchSiteKind.Virtual false 0 (replicate kMaxDispatchProfileEntries noEntry).

Record InterpConfig := mkConfig {
  cf_maxFrames : N; cf_traceSafepoints : bool; cf_collectStats : bool
}.

Record InterpStats := mkStats {
  st_instructions : N; st_polls : N; st_calls : N; st_icHits : N; st_icMisses : N;
  st_exceptions : N; st_allocations : N
}.

Module RunStatus.
Inductive t := Returned | Threw | VerifyFailed.
#[global] Instance eq_dec : EqDecision t.
Proof. solve_decision. Defined.
End RunStatus.

Record RunResult := mkRun {
  rr_status : RunStatus.t; rr_result : Value; rr_exception : ObjRef;
  rr_verifyDiags : list VerifyDiag; rr_stats : InterpStats; rr_safepointTrace : string
}.

Definition newResult : RunResult :=
  mkRun RunStatus.Returned bottom 0 [] (mkStats 0 0 0 0 0 0 0) "".

Record SiteIC := mkIC { ic_x : N; ic_y : N; ic_valid : bool }.

Definition noIC : SiteIC := mkIC 0 0 false.

(** The members of [Interpreter] and the result of the active run; the innermost
    frame comes first. *)
Record Interp := mkInterp {
  it_rt : Runtime; it_frames : list Frame; it_ics : list (list SiteIC);
  it_profiles : list (list DispatchSiteProfile); it_out : RunResult
}.

Definition with_rt (s : Interp) (rt : Runtime) : Interp :=
  mkInterp rt (it_frames s) (it_ics s) (it_profiles s) (it_out s).
Definition with_frames (s : Interp) (fs : list Frame) : Interp :=
  mkInterp (it_rt s) fs (it_ics s) (it_profiles s) (it_out s).
Definition with_ics (s : Interp) (ics : list (list SiteIC)) : Interp :=
  mkInterp (it_rt s) (it_frames s) ics (it_profiles s) (it_out s).
Definition with_dispatch (s : Interp) (ps : list (list DispatchSiteProfile)) : Interp :=
  mkInterp (it_rt s) (it_frames s) (it_ics s) ps (it_out s).
Definition with_out (s : Interp) (o : RunResult) : Interp :=
  mkInterp (it_rt s) (it_frames s) (it_ics s) (it_profiles s) o.

Definition r_with_status (o : RunResult) (st : RunStatus.t) : RunResult :=
  mkRun st (rr_result o) (rr_exception o) (rr_verifyDiags o) (rr_stats o) (rr_safepointTrace o).
Definition r_with_result (o : RunResult) (v : Value) : RunResult :=
  mkRun (rr_status o) v (rr_exception o) (rr_verifyDiags o) (rr_stats o) (rr_safepointTrace o).
Definition r_with_exception (o : RunResult) (r : ObjRef) : RunResult :=
  mkRun (rr_status o) (rr_result o) r (rr_verifyDiags o) (rr_stats o) (rr_safepointTrace o).
Definition r_with_diags (o : RunResult) (ds : list VerifyDiag) : RunResult :=
  mkRun (rr_status o) (rr_result o) (rr_exception o) ds (rr_stats o) (rr_safepointTrace o).
Definition r_with_stats (o : RunResult) (st : InterpStats) : RunResult :=
  mkRun (rr_status o) (rr_result o) (rr_exception o) (rr_verifyDiags o) st (rr_safepointTrace o).
Definition r_with_trace (o : RunResult) (t : string) : RunResult :=
  mkRun (rr_status o) (rr_result o) (rr_exception o) (rr_verifyDiags o) (rr_stats o) t.

(** A handler either goes on to the next fetch or ends the run. *)
Inductive outcome :=
| Continue (s : Interp)
| Finished (st : RunStatus.t) (s : Interp).

(** ** Counters *)

Definition count_instruction (t : InterpStats) : InterpStats :=
  mkStats (u64 (st_instructions t + 1)) (st_polls t) (st_calls t) (st_icHits t) (st_icMisses t)
    (st_exceptions t) (st_allocations t).
Definition count_poll (t : InterpStats) : InterpStats :=
  mkStats (st_instructions t) (u64 (st_polls t + 1)) (st_calls t) (st_icHits t) (st_icMisses t)
    (st_exceptions t) (st_allocations t).
Definition count_call (t : InterpStats) : InterpStats :=
  mkStats (st_instructions t) (st_polls t) (u64 (st_calls t + 1)) (st_icHits t) (st_icMisses t)
    (st_exceptions t) (st_allocations t).
Definition count_hit (t : InterpStats) : InterpStats :=
  mkStats (st_instructions t) (st_polls t) (st_calls t) (u64 (st_icHits t + 1)) (st_icMisses t)
    (st_exceptions t) (st_allocations t).
Definition count_miss (t : InterpStats) : InterpStats :=
  mkStats (st_instructions t) (st_polls t) (st_calls t) (st_icHits t) (u64 (st_icMisses t + 1))
    (st_exceptions t) (st_allocations t).
Definition count_exception (t : InterpStats) : InterpStats :=
  mkStats (st_instructions t) (st_polls t) (st_calls t) (st_icHits t) (st_icMisses t)
    (u64 (st_exceptions t + 1)) (st_allocations t).
Definition set_allocations (t : InterpStats) (n : N) : InterpStats :=
  mkStats (st_instructions t) (st_polls t) (st_calls t) (st_icHits t) (st_icMisses t)
    (st_exceptions t) n.

(** ** Numeric kernels *)

Definition wrapAdd32 (a b : Z) : Z := i32 (a + b).
Definition wrapSub32 (a b : Z) : Z := i32 (a - b).
Definition wrapMul32 (a b : Z) : Z := i32 (a * b).
Definition wrapAdd64 (a b : Z) : Z := i64 (uz64 (uz64 a + uz64 b)).
Definition wrapSub64 (a b : Z) : Z := i64 (uz64 (uz64 a - uz64 b)).
Definition wrapMul64 (a b : Z) : Z := i64 (uz64 (uz64 a * uz64 b)).
Definition neg32 (a : Z) : Z := i32 (uz32 (0 - uz32 a)).
Definition neg64 (a : Z) : Z := i64 (uz64 (0 - uz64 a)).

Definition kIntShiftMask : Z := 31.
Definition kLongShiftMask : Z := 63.

Definition shl32 (a b : Z) : Z := i32 (uz32 (Z.shiftl (uz32 a) (Z.land (uz32 b) kIntShiftMask))).
Definition shr32 (a b : Z) : Z := Z.shiftr a (Z.land (uz32 b) kIntShiftMask).
Definition ushr32 (a b : Z) : Z := i32 (Z.shiftr (uz32 a) (Z.land (uz32 b) kIntShiftMask)).
Definition shl64 (a b : Z) : Z := i64 (uz64 (Z.shiftl (uz64 a) (Z.land (uz32 b) kLongShiftMask))).
Definition shr64 (a b : Z) : Z := Z.shiftr a (Z.land (uz32 b) kLongShiftMask).
Definition ushr64 (a b : Z) : Z := i64 (Z.shiftr (uz64 a) (Z.land (uz32 b) kLongShiftMask)).

(** Quotient and remainder with the overflow case taken apart; the divisor is not 0. *)
Definition div_int (lowest a b : Z) : Z := (if (a =? lowest) && (b =? -1) then lowest else Z.quot a b)%Z.
Definition rem_int (lowest a b : Z) : Z := (if (a =? lowest) && (b =? -1) then 0 else Z.rem a b)%Z.

Definition toInt32Sat (v : spec_float) : Z :=
  if is_nan v then 0%Z
  else if fge v (sf_of_Z 2147483648) then INT32_MAX
  else if flt v (sf_of_Z (-2147483648)) then INT32_MIN
  else ftrunc v.

Definition toInt64Sat (v : spec_float) : Z :=
  if is_nan v then 0%Z
  else if fge v (sf_of_Z 9223372036854775808) then INT64_MAX
  else if flt v (sf_of_Z (-9223372036854775808)) then INT64_MIN
  else ftrunc v.

Definition zeroOfField (t : RType) : Value :=
  match t with
  | RType.Int => intVal 0
  | RType.Long => longVal 0
  | RType.Float => floatVal 0
  | RType.Double => doubleVal 0
  | RType.Null | RType.Ref => nullVal
  | RType.Bottom => bottom
  end.

Module InitFlow.
Inductive t := Ready | PushedClinit | UnwoundEmpty.
#[global] Instance eq_dec : EqDecision t.
Proof. solve_decision. Defined.
End InitFlow.

Module StoreNarrow.
Inductive t := None | Byte | Char | Short.
End StoreNarrow.

(** ** The protocols *)

Section Protocols.
Context (p : Program) (cfg : InterpConfig).

Definition stat (count : InterpStats -> InterpStats) (s : Interp) : Interp :=
  if cf_collectStats cfg
  then with_out s (r_with_stats (it_out s) (count (rr_stats (it_out s)))) else s.

(** [frames.back()] *)
Definition top (s : Interp) : option Frame :=
  match it_frames s with [] => None | f :: _ => Some f end.

Definition set_top (f : Frame) (s : Interp) : Interp :=
  match it_frames s with [] => s | _ :: fs => with_frames s (f :: fs) end.

(** [*f.method] *)
Definition frame_method (f : Frame) : option Method := method p <$> f_method f.

(** [f.method - program.methods.data()] *)
Definition methodIndex (f : Frame) : option N :=
  id ← f_method f;
  if id <? vlen (p_methods p) then Some id else None.

(** [f.regs[i]], [f.locals[i]], and the writes to them. *)
Definition rget (f : Frame) (i : N) : option Value := vget (f_regs f) i.
Definition lget (f : Frame) (i : N) : option Value := vget (f_locals f) i.
Definition rset (i : N) (v : Value) (f : Frame) : option Frame :=
  if i <? vlen (f_regs f) then Some (f_with_regs f (vset (f_regs f) i v)) else None.
Definition lset (i : N) (v : Value) (f : Frame) : option Frame :=
  if i <? vlen (f_locals f) then Some (f_with_locals f (vset (f_locals f) i v)) else None.

(** [++fr.pc] *)
Definition advance (f : Frame) : Frame := f_with_pc f (u32 (f_pc f + 1)).

(** [f.method->cp[i]] *)
Definition cp_at (f : Frame) (i : N) : option Const := m ← frame_method f; vget (m_cp m) i.

(** The exception handling of the interpreter. *)
Definition releaseMonitorsLIFO (rt : Runtime) (f : Frame) : Runtime :=
  with_heap rt (foldl (fun h m => snd (monitorexit h m)) (heap_ rt) (f_monitors f)).

(** The first handler of the table that covers [pc] and catches [exc]. *)
Fixpoint find_handler (m : Method) (hs : list ExceptionHandler) (pc : N) (exc : ObjRef) (rt : Runtime)
    : option (option ExceptionHandler * Runtime) :=
  match hs with
  | [] => Some (None, rt)
  | h :: hs =>
      if negb (covers h pc) then find_handler m hs pc exc rt
      else if (0 <=? h_catchType h)%Z then
        ct ← vget (m_cp m) (Z.to_N (h_catchType h));
        let '(cls, rt) := classId rt (c_str ct) in
        if isAssignableFrom rt cls (classOf (heap_ rt) exc) then Some (Some h, rt)
        else find_handler m hs pc exc rt
      else Some (Some h, rt)
  end.

(** The frame at the entry of a handler: registers die, [r0] carries the object. *)
Definition enter_handler (m : Method) (h : ExceptionHandler) (exc : ObjRef) (f : Frame) : Frame :=
  let regs := replicate (N.to_nat (m_numRegs m)) bottom in
  f_with_pending (f_with_regs (f_with_pc f (h_handler h)) (vset regs 0 (refVal exc))) 0.

(** Unwinding: the remaining stack when a frame catches, [None] when it empties. *)
Fixpoint unwind (exc : ObjRef) (frames : list Frame) (rt : Runtime)
    : option (option (list Frame) * Runtime) :=
  match frames with
  | [] => Some (None, rt)
  | f :: rest =>
      m ← frame_method f;
      '(h, rt) ← find_handler m (m_handlers m) (f_pc f) exc rt;
      match h with
      | Some h => Some (Some (enter_handler m h exc f :: rest), rt)
      | None => unwind exc rest (releaseMonitorsLIFO rt f)
      end
  end.

(** [true] when a handler caught the exception. *)
Definition throwException (exc : ObjRef) (s : Interp) : option (bool * Interp) :=
  let s := stat count_exception s in
  '(fs, rt) ← unwind exc (it_frames s) (it_rt s);
  match fs with
  | Some fs => Some (true, with_frames (with_rt s rt) fs)
  | None =>
      Some (false, with_out (with_frames (with_rt s rt) []) (r_with_exception (it_out s) exc))
  end.

(** [rt.makeException(..)] *)
Definition construct (cls msg : string) (s : Interp) : option (ObjRef * Interp) :=
  '(exc, rt) ← makeException (it_rt s) cls msg; Some (exc, with_rt s rt).

Definition raise (cls msg : string) (s : Interp) : option (bool * Interp) :=
  '(exc, s) ← construct cls msg s; throwException exc s.

(** [if (!raise(..)) return RunStatus::Threw; B2_NEXT;] *)
Definition thrown (r : option (bool * Interp)) : option outcome :=
  '(caught, s) ← r;
  Some (if caught : bool then Continue s else Finished RunStatus.Threw s).

Definition trap (cls msg : string) (s : Interp) : option outcome := thrown (raise cls msg s).

Definition kClsArithmetic := "java/lang/ArithmeticException".
Definition kClsNullPointer := "java/lang/NullPointerException".
Definition kClsArrayIndexOob := "java/lang/ArrayIndexOutOfBoundsException".
Definition kClsNegativeArraySize := "java/lang/NegativeArraySizeException".
Definition kClsClassCast := "java/lang/ClassCastException".
Definition kClsArrayStore := "java/lang/ArrayStoreException".
Definition kClsIllegalMonitor := "java/lang/IllegalMonitorStateException".
Definition kClsStackOverflow := "java/lang/StackOverflowError".
Definition kClsNoSuchMethod := "java/lang/NoSuchMethodError".
Definition kClsBootstrapMethod := "java/lang/BootstrapMethodError".
Definition kClsInternalError := "java/lang/InternalError".

Definition kMsgDivByZero := "/ by zero".
Definition kMsgIndyUnsupported := "invokedynamic not supported in v0".
Definition kMsgDeoptTrap := "deopt_trap executed in T0 without deopt metadata (v0)".
Definition kMsgLdcUnsupported := "ldc of methodtype/methodhandle not supported in v0".
Definition kMsgUnresolvedField := "unresolved field".
Definition kClinitName := "<clinit>".
Definition kClinitDesc := "()V".
Definition kMaxMultiDims : N := 255.

Definition trapNpe (s : Interp) : option outcome := trap kClsNullPointer "" s.
Definition trapAioobe (idx : Z) (len : N) (s : Interp) : option outcome :=
  trap kClsArrayIndexOob
    ("Index " +:+ pretty idx +:+ " out of bounds for length " +:+ pretty len) s.
Definition internalError (msg : string) (s : Interp) : option outcome := trap kClsInternalError msg s.

(** ** Calls *)

Definition push_frame (f : Frame) (s : Interp) : Interp := with_frames s (f :: it_frames s).

Definition bump_invocations (id : MethodId) (s : Interp) : Interp :=
  with_rt s (bumpInvocations (it_rt s) id).

Definition pushClinit (cls : ClassId) (s : Interp) : option (bool * Interp) :=
  let s := with_rt s (markInitialized (it_rt s) cls) in
  let clinit := findClinit p (it_rt s) cls in
  if cf_maxFrames cfg <=? vlen (it_frames s) then raise kClsStackOverflow "" s
  else
    caller ← top s;
    let nf := mkFrame (Some clinit) 0 []
                (replicate (N.to_nat (m_numRegs (method p clinit))) bottom) [] 0 (f_pc caller) in
    Some (true, bump_invocations clinit (stat count_call (push_frame nf s))).

Definition initClassIfNeeded (cls : ClassId) (s : Interp) : option (InitFlow.t * Interp) :=
  if negb (needsInit p (it_rt s) cls) then Some (InitFlow.Ready, s)
  else
    '(ok, s) ← pushClinit cls s;
    Some (if ok : bool then InitFlow.PushedClinit else InitFlow.UnwoundEmpty, s).

(** A handler that needs class [cls] initialised first; it runs again otherwise. *)
Definition with_init (cls : ClassId) (s : Interp) (body : Interp -> option outcome) : option outcome :=
  '(flow, s) ← initClassIfNeeded cls s;
  match flow with
  | InitFlow.Ready => body s
  | InitFlow.PushedClinit => Some (Continue s)
  | InitFlow.UnwoundEmpty => Some (Finished RunStatus.Threw s)
  end.

(** The clamped argument registers [a .. a + b - 1]. *)
Definition arguments (f : Frame) (x : Ins) : list Value :=
  let size := vlen (f_regs f) in
  let base := N.min (i_a x) size in
  let count := N.min (i_b x) (size - base) in
  take (N.to_nat count) (drop (N.to_nat base) (f_regs f)).

(** [v.resize(n, Value::bottom())] when [v] is shorter. *)
Definition pad (n : N) (l : list Value) : list Value :=
  l ++ replicate (N.to_nat (n - vlen l)) bottom.

Definition pushCall (x : Ins) (target : MethodId) (s : Interp) : option (bool * Interp) :=
  let m := method p target in
  if isAbstract m || negb (N.land (m_flags m) method_flags.Native =? 0) then
    raise kClsNoSuchMethod (p_className p +:+ "." +:+ m_name m +:+ m_descriptor m) s
  else if cf_maxFrames cfg <=? vlen (it_frames s) then raise kClsStackOverflow "" s
  else
    caller ← top s;
    let nf := mkFrame (Some target) 0 (pad (m_numLocals m) (arguments caller x))
                (replicate (N.to_nat (m_numRegs m)) bottom) [] 0 (f_pc caller) in
    Some (true, bump_invocations target (stat count_call (push_frame nf s))).

(** ** Inline caches and dispatch profiles *)

Definition ic_probe (s : Interp) (mIdx site : N) : option SiteIC :=
  ics ← vget (it_ics s) mIdx;
  ic ← vget ics site;
  if ic_valid ic then Some ic else None.

Definition fillSiteIC (mIdx site x y : N) (s : Interp) : Interp :=
  let table := vgrow [] (it_ics s) mIdx in
  let perMethod := vgrow noIC (default [] (vget table mIdx)) site in
  with_ics s (vset table mIdx (vset perMethod site (mkIC x y true))).

(** The entry of a receiver class that was seen before. *)
Fixpoint refresh_entry (recv target : N) (es : list DispatchEntry) : option (list DispatchEntry) :=
  match es with
  | [] => None
  | e :: es =>
      if negb (de_count e =? 0) && (de_recvClass e =? recv)
      then Some (mkDispatch recv target (sat_succ (de_count e)) :: es)
      else cons e <$> refresh_entry recv target es
  end.

(** The first free entry. *)
Fixpoint claim_entry (recv target : N) (es : list DispatchEntry) : option (list DispatchEntry) :=
  match es with
  | [] => None
  | e :: es =>
      if de_count e =? 0 then Some (mkDispatch recv target 1 :: es)
      else cons e <$> claim_entry recv target es
  end.

Definition record_site (kind : DispatchSiteKind.t) (recv target : N) (d : DispatchSiteProfile)
    : DispatchSiteProfile :=
  let mega := dp_megamorphic d in
  let count := sat_succ (dp_count d) in
  let es := dp_entries d in
  if recv =? kDispatchNoRecvClass then
    if target =? kDispatchNoTarget then mkSite kind mega count es
    else match es with
         | e :: es =>
             mkSite kind mega count
               (mkDispatch kDispatchNoRecvClass target (sat_succ (de_count e)) :: es)
         | [] => mkSite kind mega count es
         end
  else if mega then mkSite kind mega count es
  else match refresh_entry recv target es with
       | Some es => mkSite kind mega count es
       | None =>
           match claim_entry recv target es with
           | Some es => mkSite kind mega count es
           | None => mkSite kind true count es
           end
       end.

Definition recordDispatch (mIdx site : N) (kind : DispatchSiteKind.t) (recv target : N) (s : Interp)
    : Interp :=
  let table := vgrow [] (it_profiles s) mIdx in
  let perMethod := vgrow noSite (default [] (vget table mIdx)) site in
  let d := default noSite (vget perMethod site) in
  with_dispatch s (vset table mIdx (vset perMethod site (record_site kind recv target d))).

End Protocols.
