(* ===== verification/Dispatch.v ===== *)
(** * The instruction handlers

    The dispatch loop of compiler/interp/src/Interp.cpp: one case per opcode,
    grouped as the source groups them, the fetch, the loop, and the entry points
    [run] and [resume]. *)

From Stdlib Require Import Ascii String SpecFloat.
From stdpp Require Import pretty.
From S2P Require Import Prelude RbcOpcode Rbc RbcVerifier Machine ConstFold.
From S2P Require Import Heap JavaString Runtime Frame Interp.

Local Open Scope N_scope.

Section Dispatch.
Context (p : Program) (cfg : InterpConfig).

Local Abbreviation trap := (trap p cfg).
Local Abbreviation trapNpe := (trapNpe p cfg).
Local Abbreviation trapAioobe := (trapAioobe p cfg).
Local Abbreviation internalError := (internalError p cfg).

Definition go_on (f : Frame) (s : Interp) : option outcome := Some (Continue (set_top f s)).

(** [fr.regs[ins.dst] = v; ++fr.pc;] *)
Definition write_dst (x : Ins) (v : Value) (f : Frame) (s : Interp) : option outcome :=
  f ← rset (i_dst x) v f; go_on (advance f) s.

(** An instruction that computes its result from one or two registers. *)
Definition unary (x : Ins) (g : Value -> Value) (s : Interp) : option outcome :=
  f ← top s; a ← rget f (i_a x); write_dst x (g a) f s.

Definition binary (x : Ins) (g : Value -> Value -> Value) (s : Interp) : option outcome :=
  f ← top s; a ← rget f (i_a x); b ← rget f (i_b x); write_dst x (g a b) f s.

Definition constant (x : Ins) (v : Value) (s : Interp) : option outcome :=
  f ← top s; write_dst x v f s.

(** ** Constants and moves *)

Definition exec_ldc (x : Ins) (s : Interp) : option outcome :=
  f ← top s;
  c ← cp_at p f (i_imm x);
  match c_kind c with
  | Kind.String =>
      let '(r, rt) := rt_internString (it_rt s) (c_str c) in
      write_dst x (refVal r) f (with_rt s rt)
  | Kind.Class =>
      let '(cls, rt) := classId (it_rt s) (c_str c) in
      with_init p cfg cls (with_rt s rt) (fun s =>
        let '(r, rt) := classObject (it_rt s) cls in
        write_dst x (refVal r) f (with_rt s rt))
  | Kind.MethodType | Kind.MethodHandle => internalError kMsgLdcUnsupported s
  | _ => internalError "ldc of unsupported constant kind" s
  end.

Definition exec_const (op : Op) (x : Ins) (s : Interp) : option outcome :=
  match op with
  | Op.AconstNull => constant x nullVal s
  | Op.Iconst => constant x (intVal (i32 (Z.of_N (i_imm x)))) s
  | Op.Fconst => constant x (floatVal (Z.of_N (i_imm x))) s
  | Op.Lconst => f ← top s; c ← cp_at p f (i_imm x); constant x (longVal (c_i64 c)) s
  | Op.Dconst => f ← top s; c ← cp_at p f (i_imm x); constant x (doubleVal (Z.of_N (c_f64 c))) s
  | _ => exec_ldc x s
  end.

Definition exec_load (x : Ins) (s : Interp) : option outcome :=
  f ← top s; v ← lget f (i_imm x); write_dst x v f s.

Definition exec_store (x : Ins) (s : Interp) : option outcome :=
  f ← top s; v ← rget f (i_a x); f ← lset (i_imm x) v f; go_on (advance f) s.

Definition exec_move (x : Ins) (s : Interp) : option outcome := unary x id s.

(** ** Arithmetic *)

Definition int_op (g : Z -> Z -> Z) (a b : Value) : Value := intVal (g (as_i a) (as_i b)).
Definition long_op (g : Z -> Z -> Z) (a b : Value) : Value := longVal (g (as_l a) (as_l b)).
(** The count of a long shift is an int. *)
Definition long_shift (g : Z -> Z -> Z) (a b : Value) : Value := longVal (g (as_l a) (as_i b)).
Definition float_op (g : spec_float -> spec_float -> spec_float) (a b : Value) : Value :=
  floatVal (fToBits (g (bitsToF (as_f a)) (bitsToF (as_f b)))).
Definition double_op (g : spec_float -> spec_float -> spec_float) (a b : Value) : Value :=
  doubleVal (dToBits (g (bitsToD (as_d a)) (bitsToD (as_d b)))).

(** Division and remainder trap on zero. *)
Definition divide (x : Ins) (get : Value -> Z) (mk : Z -> Value) (g : Z -> Z -> Z) (s : Interp)
    : option outcome :=
  f ← top s; a ← rget f (i_a x); b ← rget f (i_b x);
  if (get b =? 0)%Z then trap kClsArithmetic kMsgDivByZero s
  else write_dst x (mk (g (get a) (get b))) f s.

Definition exec_int (op : Op) (x : Ins) (s : Interp) : option outcome :=
  match op with
  | Op.Iadd => binary x (int_op wrapAdd32) s
  | Op.Isub => binary x (int_op wrapSub32) s
  | Op.Imul => binary x (int_op wrapMul32) s
  | Op.Idiv => divide x as_i intVal (div_int INT32_MIN) s
  | Op.Irem => divide x as_i intVal (rem_int INT32_MIN) s
  | Op.Ineg => unary x (fun a => intVal (neg32 (as_i a))) s
  | Op.Ishl => binary x (int_op shl32) s
  | Op.Ishr => binary x (int_op shr32) s
  | Op.Iushr => binary x (int_op ushr32) s
  | Op.Iand => binary x (int_op Z.land) s
  | Op.Ior => binary x (int_op Z.lor) s
  | Op.Ixor => binary x (int_op Z.lxor) s
  | _ =>
      f ← top s; v ← rget f (i_dst x);
      write_dst x (intVal (wrapAdd32 (as_i v) (i32 (Z.of_N (i_imm x))))) f s
  end.

Definition exec_long (op : Op) (x : Ins) (s : Interp) : option outcome :=
  match op with
  | Op.Ladd => binary x (long_op wrapAdd64) s
  | Op.Lsub => binary x (long_op wrapSub64) s
  | Op.Lmul => binary x (long_op wrapMul64) s
  | Op.Ldiv => divide x as_l longVal (div_int INT64_MIN) s
  | Op.Lrem => divide x as_l longVal (rem_int INT64_MIN) s
  | Op.Lneg => unary x (fun a => longVal (neg64 (as_l a))) s
  | Op.Lshl => binary x (long_shift shl64) s
  | Op.Lshr => binary x (long_shift shr64) s
  | Op.Lushr => binary x (long_shift ushr64) s
  | Op.Land => binary x (long_op Z.land) s
  | Op.Lor => binary x (long_op Z.lor) s
  | _ => binary x (long_op Z.lxor) s
  end.

Definition exec_float (op : Op) (x : Ins) (s : Interp) : option outcome :=
  match op with
  | Op.Fadd => binary x (float_op (fadd binary32)) s
  | Op.Fsub => binary x (float_op (fsub binary32)) s
  | Op.Fmul => binary x (float_op (fmul binary32)) s
  | Op.Fdiv => binary x (float_op (fdiv binary32)) s
  | Op.Frem => binary x (float_op (ffmod binary32)) s
  | _ => unary x (fun a => floatVal (Z.lxor (as_f a) 0x80000000)) s
  end.

Definition exec_double (op : Op) (x : Ins) (s : Interp) : option outcome :=
  match op with
  | Op.Dadd => binary x (double_op (fadd binary64)) s
  | Op.Dsub => binary x (double_op (fsub binary64)) s
  | Op.Dmul => binary x (double_op (fmul binary64)) s
  | Op.Ddiv => binary x (double_op (fdiv binary64)) s
  | Op.Drem => binary x (double_op (ffmod binary64)) s
  | _ => unary x (fun a => doubleVal (Z.lxor (as_d a) 0x8000000000000000)) s
  end.

Definition fcmp_op (nan : Z) (a b : Value) : Value :=
  intVal (cmpFP nan (bitsToF (as_f a)) (bitsToF (as_f b))).
Definition dcmp_op (nan : Z) (a b : Value) : Value :=
  intVal (cmpFP nan (bitsToD (as_d a)) (bitsToD (as_d b))).

Definition exec_compare (op : Op) (x : Ins) (s : Interp) : option outcome :=
  match op with
  | Op.Icmp => binary x (int_op threeWay) s
  | Op.Lcmp => binary x (fun a b => intVal (threeWay (as_l a) (as_l b))) s
  | Op.Fcmpl => binary x (fcmp_op (-1)) s
  | Op.Fcmpg => binary x (fcmp_op 1) s
  | Op.Dcmpl => binary x (dcmp_op (-1)) s
  | _ => binary x (dcmp_op 1) s
  end.

Definition exec_convert (op : Op) (x : Ins) (s : Interp) : option outcome :=
  unary x (fun a =>
    match op with
    | Op.I2l => longVal (as_i a)
    | Op.I2f => floatVal (fToBits (of_int binary32 (as_i a)))
    | Op.I2d => doubleVal (dToBits (of_int binary64 (as_i a)))
    | Op.L2i => intVal (i32 (uz64 (as_l a)))
    | Op.L2f => floatVal (fToBits (of_int binary32 (as_l a)))
    | Op.L2d => doubleVal (dToBits (of_int binary64 (as_l a)))
    | Op.F2i => intVal (toInt32Sat (bitsToF (as_f a)))
    | Op.F2l => longVal (toInt64Sat (bitsToF (as_f a)))
    | Op.F2d => doubleVal (dToBits (convert binary64 (bitsToF (as_f a))))
    | Op.D2i => intVal (toInt32Sat (bitsToD (as_d a)))
    | Op.D2l => longVal (toInt64Sat (bitsToD (as_d a)))
    | Op.D2f => floatVal (fToBits (convert binary32 (bitsToD (as_d a))))
    | Op.I2b => intVal (i8 (as_i a))
    | Op.I2c => intVal (uwrap 16 (as_i a))
    | _ => intVal (i16 (as_i a))
    end) s.

(** ** Branches *)

(** [if (target < fr.pc) rt.bumpBackedge(..); fr.pc = target;] *)
Definition jump (target : N) (f : Frame) (s : Interp) : option outcome :=
  if target <? f_pc f then
    id ← methodIndex p f;
    go_on (f_with_pc f target) (with_rt s (bumpBackedge (it_rt s) id))
  else go_on (f_with_pc f target) s.

Definition branch (taken : bool) (x : Ins) (f : Frame) (s : Interp) : option outcome :=
  if taken then jump (i_imm x) f s else go_on (advance f) s.

Definition exec_if (test : Value -> bool) (x : Ins) (s : Interp) : option outcome :=
  f ← top s; a ← rget f (i_a x); branch (test a) x f s.

Definition exec_if_cmp (test : Value -> Value -> bool) (x : Ins) (s : Interp) : option outcome :=
  f ← top s; a ← rget f (i_a x); b ← rget f (i_b x); branch (test a b) x f s.

Definition int_test (g : Z -> Z -> bool) (a b : Value) : bool := g (as_i a) (as_i b).

Definition exec_branch (op : Op) (x : Ins) (s : Interp) : option outcome :=
  match op with
  | Op.Goto => f ← top s; jump (i_imm x) f s
  | Op.Ifeq => exec_if (fun a => as_i a =? 0)%Z x s
  | Op.Ifne => exec_if (fun a => negb (as_i a =? 0)%Z) x s
  | Op.Iflt => exec_if (fun a => as_i a <? 0)%Z x s
  | Op.Ifge => exec_if (fun a => 0 <=? as_i a)%Z x s
  | Op.Ifgt => exec_if (fun a => 0 <? as_i a)%Z x s
  | Op.Ifle => exec_if (fun a => as_i a <=? 0)%Z x s
  | Op.Ifnull => exec_if isNull x s
  | Op.Ifnonnull => exec_if (fun a => negb (isNull a)) x s
  | Op.IfIcmpeq => exec_if_cmp (int_test Z.eqb) x s
  | Op.IfIcmpne => exec_if_cmp (int_test (fun a b => negb (a =? b)%Z)) x s
  | Op.IfIcmplt => exec_if_cmp (int_test Z.ltb) x s
  | Op.IfIcmpge => exec_if_cmp (int_test (fun a b => b <=? a)%Z) x s
  | Op.IfIcmpgt => exec_if_cmp (int_test (fun a b => b <? a)%Z) x s
  | Op.IfIcmple => exec_if_cmp (int_test Z.leb) x s
  | Op.IfAcmpeq => exec_if_cmp sameObject x s
  | _ => exec_if_cmp (fun a b => negb (sameObject a b)) x s
  end.

(** [static_cast<std::uint32_t>(tbl[i])] *)
Definition target_at (tbl : list Z) (i : N) : option N :=
  z ← vget tbl i; Some (Z.to_N (uz32 z)).

Definition exec_tableswitch (x : Ins) (s : Interp) : option outcome :=
  f ← top s;
  c ← cp_at p f (i_imm x);
  let tbl := c_ints c in
  v ← rget f (i_a x);
  let sel := as_i v in
  low ← vget tbl 0; high ← vget tbl 1; dflt ← target_at tbl 2;
  target ← (if (low <=? sel)%Z && (sel <=? high)%Z
            then target_at tbl (3 + Z.to_N (sel - low)) else Some dflt);
  jump target f s.

(** The scan of [pairs] entries from index [i] on. *)
Fixpoint lookup_pairs (pairs : nat) (i : N) (tbl : list Z) (sel : Z) (dflt : N) : option N :=
  match pairs with
  | O => Some dflt
  | S pairs =>
      z ← vget tbl (2 + 2 * i);
      if (z =? sel)%Z then target_at tbl (3 + 2 * i)
      else lookup_pairs pairs (i + 1) tbl sel dflt
  end.

Definition exec_lookupswitch (x : Ins) (s : Interp) : option outcome :=
  f ← top s;
  c ← cp_at p f (i_imm x);
  let tbl := c_ints c in
  v ← rget f (i_a x);
  dflt ← target_at tbl 1;
  n ← vget tbl 0;
  target ← lookup_pairs (Z.to_nat n) 0 tbl (as_i v) dflt;
  jump target f s.

(** ** Fields *)

(** The slot of the field a site names, from its inline cache or by resolution;
    [None] inside when the field does not resolve. *)
Definition field_slot (x : Ins) (f : Frame) (s : Interp) : option (option N * Interp) :=
  mIdx ← methodIndex p f;
  match ic_probe s mIdx (f_pc f) with
  | Some ic => Some (Some (ic_x ic), stat cfg count_hit s)
  | None =>
      let s := stat cfg count_miss s in
      c ← cp_at p f (i_imm x);
      '(rf, rt) ← resolveField (it_rt s) c;
      let s := with_rt s rt in
      match rf with
      | None => Some (None, s)
      | Some rf => Some (Some (rf_slot rf), fillSiteIC mIdx (f_pc f) (rf_slot rf) (rf_cls rf) s)
      end
  end.

(** The value of a field that was never written. *)
Definition default_field (x : Ins) (r : ObjRef) (f : Frame) (s : Interp) : option outcome :=
  if negb (isInstance (heap_ (it_rt s)) r) then internalError "field access on non-instance" s
  else
    c ← cp_at p f (i_imm x);
    '(rf, rt) ← resolveField (it_rt s) c;
    let s := with_rt s rt in
    let ft := match rf with Some rf => rf_type rf | None => RType.Bottom end in
    if bool_decide (ft = RType.Bottom) then internalError "malformed field descriptor" s
    else write_dst x (zeroOfField ft) f s.

Definition load_field (r : ObjRef) (slot : N) (s : Interp) : Value * Interp :=
  let '(v, h) := loadField (heap_ (it_rt s)) r slot in (v, with_rt s (with_heap (it_rt s) h)).

Definition store_field (r : ObjRef) (slot : N) (v : Value) (s : Interp) : bool * Interp :=
  let '(ok, h) := storeField (heap_ (it_rt s)) r slot v in (ok, with_rt s (with_heap (it_rt s) h)).

Definition exec_getfield (x : Ins) (s : Interp) : option outcome :=
  f ← top s; o ← rget f (i_a x);
  if isNull o then trapNpe s
  else
    '(slot, s) ← field_slot x f s;
    match slot with
    | None => internalError kMsgUnresolvedField s
    | Some slot =>
        let '(v, s) := load_field (ref o) slot s in
        if has_type RType.Bottom v then default_field x (ref o) f s else write_dst x v f s
    end.

Definition exec_putfield (x : Ins) (s : Interp) : option outcome :=
  f ← top s; o ← rget f (i_a x);
  if isNull o then trapNpe s
  else
    '(slot, s) ← field_slot x f s;
    match slot with
    | None => internalError kMsgUnresolvedField s
    | Some slot =>
        v ← rget f (i_b x);
        let '(ok, s) := store_field (ref o) slot v s in
        if ok then go_on (advance f) s else internalError "field access on non-instance" s
    end.

Definition exec_getstatic (x : Ins) (s : Interp) : option outcome :=
  f ← top s; c ← cp_at p f (i_imm x);
  match builtinStatic (it_rt s) c with
  | Some r => write_dst x (refVal r) f s
  | None =>
      '(rf, rt) ← resolveField (it_rt s) c;
      let s := with_rt s rt in
      match rf with
      | None => internalError kMsgUnresolvedField s
      | Some rf =>
          with_init p cfg (rf_cls rf) s (fun s =>
            let v := loadStatic (it_rt s) (rf_id rf) in
            if has_type RType.Bottom v then
              if bool_decide (rf_type rf = RType.Bottom)
              then internalError "malformed field descriptor" s
              else write_dst x (zeroOfField (rf_type rf)) f s
            else write_dst x v f s)
      end
  end.

Definition exec_putstatic (x : Ins) (s : Interp) : option outcome :=
  f ← top s; c ← cp_at p f (i_imm x);
  match builtinStatic (it_rt s) c with
  | Some r => internalError "store to builtin static" s
  | None =>
      '(rf, rt) ← resolveField (it_rt s) c;
      let s := with_rt s rt in
      match rf with
      | None => internalError kMsgUnresolvedField s
      | Some rf =>
          with_init p cfg (rf_cls rf) s (fun s =>
            v ← rget f (i_dst x);
            go_on (advance f) (with_rt s (storeStatic (it_rt s) (rf_id rf) v)))
      end
  end.

Definition exec_getfield_quick (x : Ins) (s : Interp) : option outcome :=
  f ← top s; o ← rget f (i_a x);
  if isNull o then trapNpe s
  else
    let '(v, s) := load_field (ref o) (slotOfFieldOffset (i_imm x)) s in
    if has_type RType.Bottom v then
      if negb (isInstance (heap_ (it_rt s)) (ref o))
      then internalError "field access on non-instance" s
      else internalError "quickened getfield of unwritten field (v0)" s
    else write_dst x v f s.

Definition exec_putfield_quick (x : Ins) (s : Interp) : option outcome :=
  f ← top s; o ← rget f (i_a x);
  if isNull o then trapNpe s
  else
    v ← rget f (i_b x);
    let '(ok, s) := store_field (ref o) (slotOfFieldOffset (i_imm x)) v s in
    if ok then go_on (advance f) s else internalError "field access on non-instance" s.

(** ** Arrays *)

Definition exec_newarray (x : Ins) (s : Interp) : option outcome :=
  f ← top s; v ← rget f (i_a x);
  let len := as_i v in
  if (len <? 0)%Z then trap kClsNegativeArraySize (pretty len) s
  else
    let '(r, rt) := newArray (it_rt s) (i_imm x) (Z.to_N len) in
    write_dst x (refVal r) f (with_rt s rt).

Definition exec_anewarray (x : Ins) (s : Interp) : option outcome :=
  f ← top s; v ← rget f (i_a x);
  let len := as_i v in
  if (len <? 0)%Z then trap kClsNegativeArraySize (pretty len) s
  else
    c ← cp_at p f (i_imm x);
    let '(cls, rt) := classId (it_rt s) (c_str c) in
    let '(r, rt) := newRefArray rt cls (Z.to_N len) in
    write_dst x (refVal r) f (with_rt s rt).

Definition exec_arraylength (x : Ins) (s : Interp) : option outcome :=
  f ← top s; v ← rget f (i_a x);
  if isNull v then trapNpe s
  else if negb (isArray (heap_ (it_rt s)) (ref v)) then internalError "arraylength on non-array" s
  else write_dst x (intVal (i32 (Z.of_N (arrayLength (heap_ (it_rt s)) (ref v))))) f s.

(** [idx < 0 || static_cast<uint32_t>(idx) >= len] *)
Definition out_of_bounds (idx : Z) (len : N) : bool := (idx <? 0)%Z || (len <=? Z.to_N (uz32 idx)).

Definition arrayLoad (x : Ins) (s : Interp) : option outcome :=
  f ← top s; arr ← rget f (i_a x);
  if isNull arr then trapNpe s
  else
    i ← rget f (i_b x);
    let idx := as_i i in
    let len := arrayLength (heap_ (it_rt s)) (ref arr) in
    if out_of_bounds idx len then trapAioobe idx len s
    else
      let v := loadElem (heap_ (it_rt s)) (ref arr) (Z.to_N idx) in
      if has_type RType.Bottom v then internalError "array element access on non-array" s
      else write_dst x v f s.

Definition narrowed (n : StoreNarrow.t) (v : Value) : Value :=
  match n with
  | StoreNarrow.None => v
  | StoreNarrow.Byte => intVal (i8 (as_i v))
  | StoreNarrow.Char => intVal (uwrap 16 (as_i v))
  | StoreNarrow.Short => intVal (i16 (as_i v))
  end.

(** [rt.heap().storeElem(..)] and the rest of a store handler. *)
Definition store_elem (f : Frame) (r : ObjRef) (idx : Z) (v : Value) (s : Interp) : option outcome :=
  let '(ok, h) := storeElem (heap_ (it_rt s)) r (Z.to_N idx) v in
  let s := with_rt s (with_heap (it_rt s) h) in
  if ok then go_on (advance f) s else internalError "array element access on non-array" s.

Definition arrayStore (narrow : StoreNarrow.t) (x : Ins) (s : Interp) : option outcome :=
  f ← top s; arr ← rget f (i_a x);
  if isNull arr then trapNpe s
  else
    i ← rget f (i_b x);
    let idx := as_i i in
    let len := arrayLength (heap_ (it_rt s)) (ref arr) in
    if out_of_bounds idx len then trapAioobe idx len s
    else v ← rget f (i_dst x); store_elem f (ref arr) idx (narrowed narrow v) s.

(** Whether an array of class [arrayName] holds values of class [valueCls]: [None]
    for an array of primitives. *)
Definition element_accepts (rt : Runtime) (arrayName : string) (valueCls : ClassId)
    : option bool * Runtime :=
  let d := chars_of arrayName in
  match d with
  | c0 :: c1 :: rest =>
      if Ascii.eqb c0 "[" && Ascii.eqb c1 "L" && (2 <? vlen d) && Ascii.eqb (List.last d c0) ";" then
        let '(cls, rt) := classId rt (string_of_list_ascii (List.removelast rest)) in
        (Some (isAssignableFrom rt cls valueCls), rt)
      else if Ascii.eqb c0 "[" && Ascii.eqb c1 "[" then
        (Some (ci_name (classInfo rt valueCls) =? childName arrayName)%string, rt)
      else (None, rt)
  | _ => (None, rt)
  end.

Definition exec_aastore (x : Ins) (s : Interp) : option outcome :=
  f ← top s; arr ← rget f (i_a x);
  if isNull arr then trapNpe s
  else
    i ← rget f (i_b x);
    let idx := as_i i in
    let len := arrayLength (heap_ (it_rt s)) (ref arr) in
    if out_of_bounds idx len then trapAioobe idx len s
    else
      v ← rget f (i_dst x);
      if isNull v then store_elem f (ref arr) idx v s
      else
        let h := heap_ (it_rt s) in
        let arrayName := ci_name (classInfo (it_rt s) (classOf h (ref arr))) in
        let valueCls := classOf h (ref v) in
        let '(ok, rt) := element_accepts (it_rt s) arrayName valueCls in
        let s := with_rt s rt in
        match ok with
        | None => internalError "aastore into primitive-component array" s
        | Some false => trap kClsArrayStore ("class " +:+ dottedClassName rt valueCls) s
        | Some true => store_elem f (ref arr) idx v s
        end.

(** The dimension registers [a .. a + b - 1]: the lengths, or the first negative one. *)
Fixpoint dimensions (f : Frame) (regs : list N) : list Z + Z :=
  match regs with
  | [] => inl []
  | r :: regs =>
      let d := match vget (f_regs f) r with Some v => as_i v | None => 0%Z end in
      if (d <? 0)%Z then inr d
      else match dimensions f regs with
           | inl ds => inl (d :: ds)
           | inr d => inr d
           end
  end.

Definition exec_multianewarray (x : Ins) (s : Interp) : option outcome :=
  f ← top s;
  if i_b x =? 0 then internalError "multianewarray with zero dimensions" s
  else if kMaxMultiDims <? i_b x then internalError "multianewarray exceeds 255 dimensions" s
  else
    c ← cp_at p f (i_imm x);
    if negb (isArrayName (c_str c)) then internalError "multianewarray of non-array class" s
    else
      match dimensions f ((fun i => i_a x + i) <$> indices (i_b x)) with
      | inr d => trap kClsNegativeArraySize (pretty d) s
      | inl dims =>
          let '(cls, rt) := classId (it_rt s) (c_str c) in
          let '(r, rt) := newMultiArray rt cls dims in
          write_dst x (refVal r) f (with_rt s rt)
      end.

(** ** Objects and monitors *)

Definition exec_new (x : Ins) (s : Interp) : option outcome :=
  f ← top s; c ← cp_at p f (i_imm x);
  let '(cls, rt) := classId (it_rt s) (c_str c) in
  with_init p cfg cls (with_rt s rt) (fun s =>
    let '(r, rt) := newInstance (it_rt s) cls in
    write_dst x (refVal r) f (with_rt s rt)).

Definition exec_checkcast (x : Ins) (s : Interp) : option outcome :=
  f ← top s; v ← rget f (i_a x);
  if isNull v then write_dst x v f s
  else
    c ← cp_at p f (i_imm x);
    let '(target, rt) := classId (it_rt s) (c_str c) in
    let s := with_rt s rt in
    let actual := classOf (heap_ rt) (ref v) in
    if isAssignableFrom rt target actual then write_dst x v f s
    else trap kClsClassCast
      ("class " +:+ dottedClassName rt actual +:+ " cannot be cast to class " +:+
       dottedClassName rt target) s.

Definition exec_instanceof (x : Ins) (s : Interp) : option outcome :=
  f ← top s; v ← rget f (i_a x);
  if isNull v then write_dst x (intVal 0) f s
  else
    c ← cp_at p f (i_imm x);
    let '(target, rt) := classId (it_rt s) (c_str c) in
    let actual := classOf (heap_ rt) (ref v) in
    write_dst x (intVal (if isAssignableFrom rt target actual then 1 else 0)) f (with_rt s rt).

Definition exec_monitorenter (x : Ins) (s : Interp) : option outcome :=
  f ← top s; v ← rget f (i_a x);
  if isNull v then trapNpe s
  else
    let '(mf, h) := monitorenter (heap_ (it_rt s)) (ref v) in
    let s := with_rt s (with_heap (it_rt s) h) in
    match mf with
    | MonFail.Null => trapNpe s
    | MonFail.NotOwner => trap kClsIllegalMonitor "" s
    | MonFail.None => go_on (advance (f_with_monitors f (ref v :: f_monitors f))) s
    end.

(** Removes the first occurrence. *)
Fixpoint erase_first (r : ObjRef) (ms : list ObjRef) : list ObjRef :=
  match ms with
  | [] => []
  | m :: ms => if m =? r then ms else m :: erase_first r ms
  end.

Definition exec_monitorexit (x : Ins) (s : Interp) : option outcome :=
  f ← top s; v ← rget f (i_a x);
  if isNull v then trapNpe s
  else
    let '(mf, h) := monitorexit (heap_ (it_rt s)) (ref v) in
    let s := with_rt s (with_heap (it_rt s) h) in
    match mf with
    | MonFail.Null => trapNpe s
    | MonFail.NotOwner => trap kClsIllegalMonitor "" s
    | MonFail.None => go_on (advance (f_with_monitors f (erase_first (ref v) (f_monitors f)))) s
    end.

(** ** Calls *)

(** [if (!pushCall(..)) return RunStatus::Threw; recordDispatch(..); B2_NEXT;] *)
Definition call (x : Ins) (target : MethodId) (mIdx site : N) (kind : DispatchSiteKind.t)
    (recv : N) (s : Interp) : option outcome :=
  '(ok, s) ← pushCall p cfg x target s;
  Some (if ok : bool then Continue (recordDispatch mIdx site kind recv target s)
        else Finished RunStatus.Threw s).

Definition method_text (c : Const) : string := c_str c +:+ "." +:+ c_str2 c +:+ c_str3 c.

(** The miss path of a virtual call: builtin probe, resolution, cache fill. *)
Definition dispatch_miss (x : Ins) (c : Const) (recv : Value) (f : Frame) (mIdx site : N)
    (kind : DispatchSiteKind.t) (s : Interp) : option outcome :=
  let b := lookupBuiltinVirtual (it_rt s) (classOf (heap_ (it_rt s)) (ref recv)) (c_str2 c) (c_str3 c) in
  if negb (bool_decide (b = Builtin.None)) then
    let '(ok, rt) := execBuiltin (it_rt s) b (arguments f x) in
    let s := with_rt s rt in
    if negb ok then internalError "builtin arity mismatch" s
    else go_on (advance f) (recordDispatch mIdx site kind kDispatchNoRecvClass kDispatchNoTarget s)
  else
    match resolveMethod p c with
    | None => trap kClsNoSuchMethod (method_text c) s
    | Some target =>
        let recvCls := classOf (heap_ (it_rt s)) (ref recv) in
        call x target mIdx site kind recvCls (fillSiteIC mIdx site target recvCls s)
    end.

Definition exec_invokevirtual (kind : DispatchSiteKind.t) (x : Ins) (s : Interp) : option outcome :=
  f ← top s; recv ← rget f (i_a x);
  if isNull recv then trapNpe s
  else
    c ← cp_at p f (i_imm x);
    mIdx ← methodIndex p f;
    let site := f_pc f in
    match ic_probe s mIdx site with
    | Some ic =>
        call x (ic_x ic) mIdx site kind (classOf (heap_ (it_rt s)) (ref recv)) (stat cfg count_hit s)
    | None => dispatch_miss x c recv f mIdx site kind (stat cfg count_miss s)
    end.

Definition exec_invokespecial (x : Ins) (s : Interp) : option outcome :=
  f ← top s; recv ← rget f (i_a x);
  if isNull recv then trapNpe s
  else
    c ← cp_at p f (i_imm x);
    match resolveMethod p c with
    | None => trap kClsNoSuchMethod (method_text c) s
    | Some target =>
        mIdx ← methodIndex p f;
        call x target mIdx (f_pc f) DispatchSiteKind.Special kDispatchNoRecvClass s
    end.

(** [programClass]: interned when the loop starts, so this only looks it up. *)
Definition program_class (s : Interp) : ClassId := fst (classId (it_rt s) (p_className p)).

Definition exec_invokestatic (x : Ins) (s : Interp) : option outcome :=
  f ← top s; c ← cp_at p f (i_imm x);
  match resolveMethod p c with
  | None => trap kClsNoSuchMethod (method_text c) s
  | Some target =>
      with_init p cfg (program_class s) s (fun s =>
        mIdx ← methodIndex p f;
        call x target mIdx (f_pc f) DispatchSiteKind.Static kDispatchNoRecvClass s)
  end.

Definition is_method_ref (c : Const) : bool :=
  bool_decide (c_kind c = Kind.MethodRef) || bool_decide (c_kind c = Kind.InterfaceMethodRef).

Definition exec_invokevirtual_quick (kind : DispatchSiteKind.t) (x : Ins) (s : Interp)
    : option outcome :=
  f ← top s; recv ← rget f (i_a x);
  if isNull recv then trapNpe s
  else
    m ← frame_method p f;
    if vlen (m_code m) <=? i_imm x then internalError "quickened call site id out of range" s
    else
      mIdx ← methodIndex p f;
      match ic_probe s mIdx (i_imm x) with
      | Some ic =>
          call x (ic_x ic) mIdx (i_imm x) kind (classOf (heap_ (it_rt s)) (ref recv))
            (stat cfg count_hit s)
      | None =>
          let s := stat cfg count_miss s in
          match vget (m_cp m) (i_imm x) with
          | None => internalError "quickened virtual call with cold inline cache (v0)" s
          | Some c =>
              if negb (is_method_ref c)
              then internalError "quickened virtual call with cold inline cache (v0)" s
              else dispatch_miss x c recv f mIdx (i_imm x) kind s
          end
      end.

Definition exec_invokespecial_quick (x : Ins) (s : Interp) : option outcome :=
  f ← top s; recv ← rget f (i_a x);
  if isNull recv then trapNpe s
  else if vlen (p_methods p) <=? i_imm x then internalError "quickened method id out of range" s
  else
    mIdx ← methodIndex p f;
    call x (i_imm x) mIdx (f_pc f) DispatchSiteKind.Special kDispatchNoRecvClass s.

Definition exec_invokestatic_quick (x : Ins) (s : Interp) : option outcome :=
  f ← top s;
  if vlen (p_methods p) <=? i_imm x then internalError "quickened method id out of range" s
  else
    with_init p cfg (program_class s) s (fun s =>
      mIdx ← methodIndex p f;
      call x (i_imm x) mIdx (f_pc f) DispatchSiteKind.Static kDispatchNoRecvClass s).

(** ** Returns and throws *)

Definition is_clinit (m : Method) : bool :=
  (m_name m =? kClinitName)%string && (m_descriptor m =? kClinitDesc)%string.

(** The caller receives the value and moves past the call, unless the callee was a
    class initialiser. *)
Definition resume_caller (isVoid : bool) (m : Method) (v : Value) (caller : Frame) : option Frame :=
  caller ←
    (if negb isVoid && negb (bool_decide (parseReturn (m_descriptor m) = RType.Bottom)) then
       cm ← frame_method p caller;
       site ← vget (m_code cm) (f_pc caller);
       Some (if i_dst site <? vlen (f_regs caller)
             then f_with_regs caller (vset (f_regs caller) (i_dst site) v) else caller)
     else Some caller);
  Some (if is_clinit m then caller else advance caller).

Definition exec_return (isVoid : bool) (x : Ins) (s : Interp) : option outcome :=
  callee ← top s;
  m ← frame_method p callee;
  v ← (if isVoid then Some bottom else rget callee (i_a x));
  let s := with_rt s (releaseMonitorsLIFO (it_rt s) callee) in
  match tail (it_frames s) with
  | [] => Some (Finished RunStatus.Returned
                  (with_out (with_frames s []) (r_with_result (it_out s) v)))
  | caller :: rest =>
      caller ← resume_caller isVoid m v caller;
      Some (Continue (with_frames s (caller :: rest)))
  end.

Definition exec_athrow (x : Ins) (s : Interp) : option outcome :=
  f ← top s; v ← rget f (i_a x);
  if isNull v then trapNpe s else thrown (throwException p cfg (ref v) s).

Definition exec_nop (s : Interp) : option outcome := f ← top s; go_on (advance f) s.

Definition exec_poll (s : Interp) : option outcome :=
  let s := stat cfg count_poll s in
  let s :=
    if cf_traceSafepoints cfg
    then with_out s (r_with_trace (it_out s)
           (rr_safepointTrace (it_out s) +:+ dumpFrames p (it_frames s) (it_rt s))) else s in
  exec_nop s.

(** ** The loop *)

Definition dispatch (op : Op) (x : Ins) (s : Interp) : option outcome :=
  match op with
  | Op.Nop | Op.GuardNonNull | Op.GuardClass => exec_nop s
  | Op.SafepointPoll => exec_poll s
  | Op.AconstNull | Op.Iconst | Op.Fconst | Op.Lconst | Op.Dconst | Op.Ldc => exec_const op x s
  | Op.Iload | Op.Lload | Op.Fload | Op.Dload | Op.Aload => exec_load x s
  | Op.Istore | Op.Lstore | Op.Fstore | Op.Dstore | Op.Astore => exec_store x s
  | Op.Imove | Op.Lmove | Op.Fmove | Op.Dmove | Op.Amove => exec_move x s
  | Op.Iadd | Op.Isub | Op.Imul | Op.Idiv | Op.Irem | Op.Ineg | Op.Ishl | Op.Ishr | Op.Iushr
  | Op.Iand | Op.Ior | Op.Ixor | Op.Iinc => exec_int op x s
  | Op.Ladd | Op.Lsub | Op.Lmul | Op.Ldiv | Op.Lrem | Op.Lneg | Op.Lshl | Op.Lshr | Op.Lushr
  | Op.Land | Op.Lor | Op.Lxor => exec_long op x s
  | Op.Fadd | Op.Fsub | Op.Fmul | Op.Fdiv | Op.Frem | Op.Fneg => exec_float op x s
  | Op.Dadd | Op.Dsub | Op.Dmul | Op.Ddiv | Op.Drem | Op.Dneg => exec_double op x s
  | Op.Icmp | Op.Lcmp | Op.Fcmpl | Op.Fcmpg | Op.Dcmpl | Op.Dcmpg => exec_compare op x s
  | Op.I2l | Op.I2f | Op.I2d | Op.L2i | Op.L2f | Op.L2d | Op.F2i | Op.F2l | Op.F2d | Op.D2i
  | Op.D2l | Op.D2f | Op.I2b | Op.I2c | Op.I2s => exec_convert op x s
  | Op.Goto | Op.Ifeq | Op.Ifne | Op.Iflt | Op.Ifge | Op.Ifgt | Op.Ifle | Op.Ifnull
  | Op.Ifnonnull | Op.IfIcmpeq | Op.IfIcmpne | Op.IfIcmplt | Op.IfIcmpge | Op.IfIcmpgt
  | Op.IfIcmple | Op.IfAcmpeq | Op.IfAcmpne => exec_branch op x s
  | Op.Tableswitch => exec_tableswitch x s
  | Op.Lookupswitch => exec_lookupswitch x s
  | Op.Getfield => exec_getfield x s
  | Op.Putfield => exec_putfield x s
  | Op.Getstatic => exec_getstatic x s
  | Op.Putstatic => exec_putstatic x s
  | Op.GetfieldQuick => exec_getfield_quick x s
  | Op.PutfieldQuick => exec_putfield_quick x s
  | Op.NewArray => exec_newarray x s
  | Op.AnewArray => exec_anewarray x s
  | Op.Arraylength => exec_arraylength x s
  | Op.Iaload | Op.Laload | Op.Faload | Op.Daload | Op.Aaload | Op.Baload | Op.Caload
  | Op.Saload => arrayLoad x s
  | Op.Iastore | Op.Lastore | Op.Fastore | Op.Dastore => arrayStore StoreNarrow.None x s
  | Op.Bastore => arrayStore StoreNarrow.Byte x s
  | Op.Castore => arrayStore StoreNarrow.Char x s
  | Op.Sastore => arrayStore StoreNarrow.Short x s
  | Op.Aastore => exec_aastore x s
  | Op.Multianewarray => exec_multianewarray x s
  | Op.New => exec_new x s
  | Op.Checkcast => exec_checkcast x s
  | Op.Instanceof => exec_instanceof x s
  | Op.Monitorenter => exec_monitorenter x s
  | Op.Monitorexit => exec_monitorexit x s
  | Op.Invokevirtual => exec_invokevirtual DispatchSiteKind.Virtual x s
  | Op.Invokeinterface => exec_invokevirtual DispatchSiteKind.Interface_ x s
  | Op.Invokespecial => exec_invokespecial x s
  | Op.Invokestatic => exec_invokestatic x s
  | Op.Invokedynamic => trap kClsBootstrapMethod kMsgIndyUnsupported s
  | Op.InvokevirtualQuick => exec_invokevirtual_quick DispatchSiteKind.Virtual x s
  | Op.InvokeinterfaceQuick => exec_invokevirtual_quick DispatchSiteKind.Interface_ x s
  | Op.InvokespecialQuick => exec_invokespecial_quick x s
  | Op.InvokestaticQuick => exec_invokestatic_quick x s
  | Op.Return => exec_return true x s
  | Op.Ireturn | Op.Lreturn | Op.Freturn | Op.Dreturn | Op.Areturn => exec_return false x s
  | Op.Athrow => exec_athrow x s
  | Op.DeoptTrap => internalError kMsgDeoptTrap s
  end.

(** Fetch, count, dispatch. *)
Definition step (s : Interp) : option outcome :=
  f ← top s;
  m ← frame_method p f;
  match vget (m_code m) (f_pc f) with
  | None => internalError "pc out of range (corrupt frame)" s
  | Some x =>
      let s := stat cfg count_instruction s in
      match of_code (i_op x) with
      | None => internalError "unreachable opcode dispatched" s
      | Some op => dispatch op x s
      end
  end.

(** How a run of the loop ends. *)
Inductive ending :=
| Undefined
| OutOfFuel (s : Interp)
| Halted (st : RunStatus.t) (s : Interp).

Fixpoint loop (fuel : nat) (s : Interp) : ending :=
  match fuel with
  | O => OutOfFuel s
  | S fuel =>
      match step s with
      | None => Undefined
      | Some (Continue s) => loop fuel s
      | Some (Finished st s) => Halted st s
      end
  end.

(** The program class is interned, then a pending exception is thrown. *)
Definition dispatchLoop (fuel : nat) (s : Interp) : ending :=
  let s := with_rt s (snd (classId (it_rt s) (p_className p))) in
  match it_frames s with
  | f :: fs =>
      if valid (f_pendingException f) then
        match throwException p cfg (f_pendingException f) (with_frames s (f_with_pending f 0 :: fs)) with
        | None => Undefined
        | Some (false, s) => Halted RunStatus.Threw s
        | Some (true, s) => loop fuel s
        end
      else loop fuel s
  | [] => loop fuel s
  end.

(** ** Entry points *)

Definition newInterp : Interp := mkInterp (newRuntime p) [] [] [] newResult.

(** The first diagnostic list of a method that does not verify. [None]: the verifier
    did not return with this fuel. *)
Fixpoint verify_all (vfuel : nat) (ms : list Method) : option (option (list VerifyDiag)) :=
  match ms with
  | [] => Some None
  | m :: ms =>
      r ← verify vfuel m;
      if negb (vr_ok r) then Some (Some (vr_diags r)) else verify_all vfuel ms
  end.

Definition finish (e : ending) : ending :=
  match e with
  | Halted st s =>
      Halted st (with_out s
        (r_with_stats (r_with_status (it_out s) st)
           (set_allocations (rr_stats (it_out s)) (objectCount (heap_ (it_rt s))))))
  | _ => e
  end.

(** A run that ends before its first instruction with a constructed exception. *)
Definition fail_early (cls msg : string) (s : Interp) : ending :=
  match construct cls msg s with
  | None => Undefined
  | Some (exc, s) =>
      Halted RunStatus.Threw
        (stat cfg count_exception (with_out s (r_with_exception (it_out s) exc)))
  end.

(** The monitor a synchronized entry takes: [inr cls] when it traps. *)
Definition entry_lock (m : Method) (args : list Value) (s : Interp) : (ObjRef + string) * Interp :=
  let take (lock : ObjRef) (s : Interp) : (ObjRef + string) * Interp :=
    let '(mf, h) := monitorenter (heap_ (it_rt s)) lock in
    let s := with_rt s (with_heap (it_rt s) h) in
    if bool_decide (mf = MonFail.None) then (inl lock, s) else (inr kClsIllegalMonitor, s) in
  if isStatic m then
    let '(cls, rt) := classId (it_rt s) (p_className p) in
    let '(lock, rt) := classObject rt cls in
    take lock (with_rt s rt)
  else
    match args with
    | [] => (inr kClsNullPointer, s)
    | recv :: _ => if isNull recv then (inr kClsNullPointer, s) else take (ref recv) s
    end.

Definition entry_frame (id : MethodId) (m : Method) (args : list Value) (monitors : list ObjRef) : Frame :=
  mkFrame (Some id) 0 (pad (m_numLocals m) args) (replicate (N.to_nat (m_numRegs m)) bottom)
    monitors 0 0.

Definition enter (fuel : nat) (id : MethodId) (m : Method) (args : list Value) (s : Interp) : ending :=
  let s := with_frames s [] in
  let '(lock, s) := if isSynchronized m then
      let '(l, s) := entry_lock m args s in
      (match l with inl r => inl [r] | inr c => inr c end, s)
    else (inl [], s) in
  match lock with
  | inr cls => fail_early cls "" s
  | inl monitors =>
      dispatchLoop fuel
        (bump_invocations id (push_frame (entry_frame id m args monitors) s))
  end.

(** [None]: the verifier did not return. *)
Definition run (vfuel fuel : nat) (name descriptor : string) (args : list Value) (s : Interp)
    : option ending :=
  let s := with_out s newResult in
  bad ← verify_all vfuel (p_methods p);
  Some (finish match bad with
  | Some ds => Halted RunStatus.VerifyFailed (with_out s (r_with_diags (it_out s) ds))
  | None =>
      match method_index p name descriptor with
      | None => fail_early kClsNoSuchMethod (name +:+ descriptor) s
      | Some id =>
          let m := method p id in
          let required := paramCount descriptor + (if isStatic m then 0 else 1) in
          if vlen args <? required
          then fail_early kClsInternalError ("entry arguments insufficient for " +:+ name +:+ descriptor) s
          else enter fuel id m args s
      end
  end).

Definition method_in_range (f : Frame) : bool :=
  match f_method f with Some id => id <? vlen (p_methods p) | None => false end.

Definition resume (vfuel fuel : nat) (f : Frame) (s : Interp) : option ending :=
  let s := with_out s newResult in
  bad ← verify_all vfuel (p_methods p);
  Some (finish match bad with
  | Some ds => Halted RunStatus.VerifyFailed (with_out s (r_with_diags (it_out s) ds))
  | None =>
      let m := method p (default 0 (f_method f)) in
      if negb (method_in_range f) || (vlen (m_code m) <=? f_pc f)
      then fail_early kClsInternalError "resume frame does not match the program" s
      else
        let f := f_with_regs (f_with_locals f (pad (m_numLocals m) (f_locals f)))
                   (pad (m_numRegs m) (f_regs f)) in
        dispatchLoop fuel (with_frames s [f])
  end).

End Dispatch.
