(* ===== verification/RuntimeInv.v ===== *)
(** * Invariants of the runtime

    What every service of the runtime keeps: the class registry refers to classes
    that exist, and no service but [monitorenter] and [monitorexit] touches a
    monitor. [keeps] states both, and each service satisfies it. The counting of
    monitors against the monitor lists of a frame stack is here too. *)

From S2P Require Import Prelude RbcOpcode Rbc RbcVerifier Machine Heap JavaString Runtime Frame Interp.

Local Open Scope N_scope.

(** ** The registry and the monitors *)

(** A class entry of the registry is the index of a class. *)
Definition registry_ok (rt : Runtime) : Prop :=
  forall name v, classByName_ rt !! name = Some v -> isFieldRegistryEntry v = false ->
    N.shiftr v 1 < vlen (classes_ rt).

Definition mon_of (h : Heap) (r : ObjRef) : MonitorState :=
  match obj h r with Some o => o_mon o | None => freeMonitor end.

(** The names and superclasses of the classes, in order. *)
Definition class_table (rt : Runtime) : list (string * ClassId) :=
  (fun ci => (ci_name ci, ci_superclass ci)) <$> classes_ rt.

(** The table only grows, by classes whose superclass is class 0. *)
Definition table_grows (t t' : list (string * ClassId)) : Prop :=
  exists l, t' = t ++ l /\ Forall (fun e => snd e = 0) l.

Record keeps (rt rt' : Runtime) : Prop := {
  ke_registry : registry_ok rt -> registry_ok rt';
  ke_table : table_grows (class_table rt) (class_table rt');
  ke_monitors r : mon_of (heap_ rt') r = mon_of (heap_ rt) r
}.

#[export] Instance keeps_preorder : PreOrder keeps.
Proof.
  split; [split; try done; exists []; by rewrite app_nil_r|].
  intros a b c [H1 (l & H2 & Hl) H3] [H4 (l' & H5 & Hl') H6]. split; [auto| |].
  - exists (l ++ l'). rewrite H5, H2, app_assoc. split; [done|]. by apply Forall_app.
  - intros r. by rewrite H6, H3.
Qed.

Lemma table_same t : table_grows t t.
Proof. exists []. by rewrite app_nil_r. Qed.

(** Marking a class leaves its row. *)
Lemma table_vset cs c ci ci' :
  vget cs c = Some ci -> ci_name ci' = ci_name ci -> ci_superclass ci' = ci_superclass ci ->
  (fun ci => (ci_name ci, ci_superclass ci)) <$> vset cs c ci' =
  (fun ci => (ci_name ci, ci_superclass ci)) <$> cs.
Proof.
  intros Hc Hn Hs. rewrite vset_insert, list_fmap_insert. apply list_insert_id.
  rewrite list_lookup_fmap, <- vget_lookup, Hc. cbn. by rewrite Hn, Hs.
Qed.

(** ** Heap operations and monitors *)

Definition heap_keeps (h h' : Heap) : Prop := forall r, mon_of h' r = mon_of h r.

Lemma obj_set_obj h r o r' :
  is_Some (obj h r) -> obj (set_obj h r o) r' = if decide (r = r') then Some o else obj h r'.
Proof.
  unfold obj, set_obj. cbn. rewrite vlen_vset. intros Hr.
  destruct ((r =? 0) || (vlen (h_objs h) <? r)) eqn:E; [by destruct Hr|].
  apply orb_false_iff in E as [E1%N.eqb_neq E2%N.ltb_ge].
  destruct (decide (r = r')) as [<-|Hne].
  - rewrite (proj2 (orb_false_iff _ _)) by (split; [by apply N.eqb_neq|by apply N.ltb_ge]).
    apply vget_vset_eq. lia.
  - destruct ((r' =? 0) || _) eqn:E'; [done|]. apply orb_false_iff in E' as [E3%N.eqb_neq _].
    apply vget_vset_ne. lia.
Qed.

Lemma mon_of_set_obj h r o r' :
  is_Some (obj h r) -> mon_of (set_obj h r o) r' = if decide (r = r') then o_mon o else mon_of h r'.
Proof. intros H. unfold mon_of. rewrite obj_set_obj by done. by destruct (decide _). Qed.

Lemma heap_keeps_set_slots h r o sl :
  obj h r = Some o -> heap_keeps h (set_obj h r (o_with_slots o sl)).
Proof.
  intros H r'. rewrite mon_of_set_obj by (by rewrite H). destruct (decide _) as [<-|]; [|done].
  unfold mon_of. by rewrite H.
Qed.

Lemma heap_keeps_objs h h' : h_objs h' = h_objs h -> heap_keeps h h'.
Proof. intros H r. unfold mon_of, obj. by rewrite H. Qed.

Lemma heap_keeps_push h o : o_mon o = freeMonitor -> heap_keeps h (snd (push_obj h o)).
Proof.
  intros Ho r. unfold mon_of, obj. cbn. rewrite vlen_app. change (vlen [o]) with 1.
  destruct (N.eqb_spec r 0); cbn [orb]; [done|].
  destruct (N.ltb_spec (vlen (h_objs h)) r).
  - destruct (N.ltb_spec (vlen (h_objs h) + 1) r); [done|]. rewrite vget_snoc.
    destruct (N.eqb_spec (r - 1) (vlen (h_objs h))); [done|].
    by rewrite (proj2 (vget_ge_None _ _)) by lia.
  - rewrite (proj2 (N.ltb_ge _ _)) by lia. rewrite vget_snoc.
    destruct (N.eqb_spec (r - 1) (vlen (h_objs h))); [lia|done].
Qed.

Lemma heap_keeps_loadField h r i : heap_keeps h (snd (loadField h r i)).
Proof.
  unfold loadField. destruct (obj h r) as [o|] eqn:E; [|done].
  destruct (is_kind _ _); [|done]. by apply heap_keeps_set_slots.
Qed.

Lemma heap_keeps_storeField h r i v : heap_keeps h (snd (storeField h r i v)).
Proof.
  unfold storeField. destruct (obj h r) as [o|] eqn:E; [|done].
  destruct (is_kind _ _); [|done]. by apply heap_keeps_set_slots.
Qed.

Lemma heap_keeps_storeElem h r i v : heap_keeps h (snd (storeElem h r i v)).
Proof.
  unfold storeElem. destruct (obj h r) as [o|] eqn:E; [|done].
  destruct (negb _); [done|]. destruct (_ <=? _); [done|]. by apply heap_keeps_set_slots.
Qed.

Lemma heap_keeps_internString h s c : heap_keeps h (snd (internString h s c)).
Proof.
  unfold internString. destruct (interned_find h s); [done|].
  intros r. pose proof (heap_keeps_push h (mkObj ObjKind.Instance_ c s [] RType.Bottom 0 freeMonitor)
    eq_refl r) as H. unfold allocString. destruct (push_obj _ _) as [r' h'] eqn:E. cbn in *.
  rewrite <- H. by apply heap_keeps_objs.
Qed.

(** ** Services *)

Lemma keeps_heap rt h : heap_keeps (heap_ rt) h -> keeps rt (with_heap rt h).
Proof. intros H. split; [done|apply table_same|done]. Qed.

Lemma keeps_on_heap rt a : heap_keeps (heap_ rt) (snd a) -> keeps rt (snd (on_heap rt a)).
Proof. apply keeps_heap. Qed.

(** Changes that leave the registry and the heap alone. *)
Lemma keeps_same rt rt' :
  heap_ rt' = heap_ rt -> classByName_ rt' = classByName_ rt ->
  class_table rt' = class_table rt -> keeps rt rt'.
Proof.
  intros H1 H2 H3. split; [|rewrite H3; apply table_same|intros r; by rewrite H1].
  assert (vlen (classes_ rt') = vlen (classes_ rt)) as Hl.
  { unfold vlen. f_equal. rewrite <- (length_fmap (fun ci => (ci_name ci, ci_superclass ci)) (classes_ rt')).
    unfold class_table in H3. rewrite H3. apply length_fmap. }
  unfold registry_ok. by rewrite H2, Hl.
Qed.

Lemma shiftr_double x : N.shiftr (u32 (x * 2)) 1 <= x.
Proof.
  rewrite N.shiftr_div_pow2. change (2 ^ 1) with 2. pose proof (u32_le (x * 2)).
  apply N.Div0.div_le_upper_bound. lia.
Qed.

Lemma keeps_classId rt name : keeps rt (snd (classId rt name)).
Proof.
  assert (keeps rt (with_classes rt (classes_ rt ++ [mkClass name 0 false [] false])
    (<[name := u32 (u32 (vlen (classes_ rt)) * 2)]> (classByName_ rt)))) as Hfresh.
  { split; [|exists [(name, 0)]; unfold class_table; cbn; rewrite fmap_app; by repeat constructor|done].
    intros H s v. cbn [classByName_ classes_ with_classes].
    rewrite vlen_app. change (vlen [_]) with 1. intros Hv He.
    destruct (decide (name = s)) as [<-|Hne].
    - rewrite lookup_insert_eq in Hv. injection Hv as <-.
      pose proof (shiftr_double (u32 (vlen (classes_ rt)))). pose proof (u32_le (vlen (classes_ rt))). lia.
    - rewrite lookup_insert_ne in Hv by done. specialize (H s v Hv He). lia. }
  unfold classId. destruct (classByName_ rt !! name) as [v|]; [|exact Hfresh].
  destruct (negb _); [done|exact Hfresh].
Qed.

(** The class id of a name is the index of a class. *)
Lemma classId_lt rt name cid rt' :
  registry_ok rt -> classId rt name = (cid, rt') -> cid < vlen (classes_ rt').
Proof.
  intros H. unfold classId.
  assert (u32 (vlen (classes_ rt)) < vlen (classes_ rt ++ [mkClass name 0 false [] false])) as Hf.
  { rewrite vlen_app. change (vlen [_]) with 1. pose proof (u32_le (vlen (classes_ rt))). lia. }
  destruct (classByName_ rt !! name) as [v|] eqn:E; [|by intros [= <- <-]].
  destruct (isFieldRegistryEntry v) eqn:Ev; cbn [negb]; intros [= <- <-]; [exact Hf|by eapply H].
Qed.

Lemma keeps_newInstance rt c : keeps rt (snd (newInstance rt c)).
Proof. by apply keeps_on_heap, heap_keeps_push. Qed.

Lemma keeps_allocArray rt c e n : keeps rt (snd (on_heap rt (allocArray (heap_ rt) c e n))).
Proof. by apply keeps_on_heap, heap_keeps_push. Qed.

Lemma keeps_named_array rt name e n :
  keeps rt (snd (let '(c, rt) := classId rt name in on_heap rt (allocArray (heap_ rt) c e n))).
Proof.
  pose proof (keeps_classId rt name) as H. destruct (classId rt name) as [c rt'].
  etrans; [exact H|]. apply keeps_allocArray.
Qed.

Lemma keeps_newArray rt t n : keeps rt (snd (newArray rt t n)).
Proof. unfold newArray. destruct (arrayOfAtype t) as [e name]. apply keeps_named_array. Qed.

Lemma keeps_newRefArray rt c n : keeps rt (snd (newRefArray rt c n)).
Proof. apply keeps_named_array. Qed.

Lemma keeps_foldl {A} (f : Runtime -> A -> Runtime) l rt :
  (forall rt x, keeps rt (f rt x)) -> keeps rt (foldl f rt l).
Proof.
  intros H. revert rt. induction l as [|x l IH]; intros rt; [done|]. cbn. etrans; [apply H|apply IH].
Qed.

Lemma keeps_buildMultiLevel d rt name e dims l : keeps rt (snd (buildMultiLevel d rt name e dims l)).
Proof.
  revert rt name l. induction d as [|d IH]; intros rt name l; cbn [buildMultiLevel];
    pose proof (keeps_classId rt name) as Hc; destruct (classId rt name) as [c rt1];
    (etrans; [exact Hc|]); [apply keeps_allocArray|].
  destruct d as [|d]; [apply keeps_allocArray|].
  pose proof (keeps_allocArray rt1 c RType.Ref (level_length dims l)) as Ha.
  destruct (on_heap rt1 _) as [arr rt2]. etrans; [exact Ha|]. apply keeps_foldl. intros rt3 i.
  pose proof (IH rt3 (childName name) (l + 1)) as Hs.
  destruct (buildMultiLevel (S d) rt3 (childName name) e dims (l + 1)) as [sub rt4].
  etrans; [exact Hs|]. apply keeps_heap, heap_keeps_storeElem.
Qed.

Lemma keeps_newMultiArray rt c dims : keeps rt (snd (newMultiArray rt c dims)).
Proof.
  unfold newMultiArray. destruct (fst _); [apply keeps_named_array|apply keeps_buildMultiLevel].
Qed.

Lemma keeps_internString rt s : keeps rt (snd (rt_internString rt s)).
Proof. apply keeps_on_heap, heap_keeps_internString. Qed.

Lemma keeps_storeStatic rt f v : keeps rt (storeStatic rt f v).
Proof. by apply keeps_same. Qed.

Lemma keeps_bumpInvocations rt id : keeps rt (bumpInvocations rt id).
Proof. unfold bumpInvocations. by destruct (vget _ _); [apply keeps_same|]. Qed.

Lemma keeps_bumpBackedge rt id : keeps rt (bumpBackedge rt id).
Proof. unfold bumpBackedge. by destruct (vget _ _); [apply keeps_same|]. Qed.

Lemma keeps_markInitialized rt c : keeps rt (markInitialized rt c).
Proof.
  unfold markInitialized. destruct (vget _ _) eqn:E; [|done]. apply keeps_same; try done.
  by eapply table_vset.
Qed.

Lemma keeps_markException rt c : keeps rt (markException rt c).
Proof.
  unfold markException. destruct (vget _ _) eqn:E; [|done]. destruct (_ && _); [|done].
  apply keeps_same; try done. by eapply table_vset.
Qed.

Lemma keeps_classObject rt c : keeps rt (snd (classObject rt c)).
Proof.
  unfold classObject. destruct (valid _); [by apply keeps_same|].
  pose proof (keeps_newInstance rt (classClass_ rt)) as H.
  destruct (newInstance rt (classClass_ rt)) as [r rt']. etrans; [exact H|]. by apply keeps_same.
Qed.

Lemma keeps_execBuiltin rt b args : keeps rt (snd (execBuiltin rt b args)).
Proof.
  unfold execBuiltin. destruct (bool_decide _); [done|]. destruct args as [|a args]; [done|].
  destruct (1 <? _); [done|]. cbn. destruct (_ && _); by apply keeps_same.
Qed.

(** The entry of a field does not look like a class. *)
Lemma field_entry_odd x : isFieldRegistryEntry (u32 (x * 2 + 1)) = true.
Proof.
  unfold isFieldRegistryEntry, u32. apply negb_true_iff, N.eqb_neq.
  change (N.land ?a 1) with (N.land a (N.ones 1)). rewrite N.land_ones. change (2 ^ 1) with 2.
  change 4294967296 with (2 * 2147483648). rewrite N.Div0.mod_mul_r.
  rewrite (N.mul_comm 2 (_ mod _)), N.Div0.mod_add.
  rewrite (N.add_comm (x * 2)), N.Div0.mod_add. done.
Qed.

(** A field resolves without a subscript out of range. *)
Lemma resolveField_ok rt c :
  registry_ok rt -> exists rf rt', resolveField rt c = Some (rf, rt') /\ keeps rt rt'.
Proof.
  intros H. unfold resolveField. destruct (negb _); [by eexists _, _|].
  pose proof (keeps_classId rt (c_str c)) as Hk.
  destruct (classId rt (c_str c)) as [cid rt1] eqn:Ec. cbn [snd] in Hk.
  set (key := fieldRegistryKey _ _). set (it := classByName_ rt1 !! key).
  match goal with |- context [match ?k with Some rf => Some (Some rf, rt1) | None => _ end] =>
    destruct k; [by eexists _, _|] end.
  pose proof (classId_lt rt _ _ _ H Ec) as [ci Hci]%vget_lt_is_Some. unfold push_field. rewrite Hci. cbn.
  eexists _, _. split; [reflexivity|]. etrans; [exact Hk|].
  match goal with |- context [if ?b then _ else _] => destruct b end.
  - split; [|unfold class_table; cbn; erewrite table_vset; [apply table_same|done..]|done].
    intros H1 s v. cbn. rewrite vlen_vset. intros Hs Hv.
    destruct (decide (key = s)) as [<-|Hne]; [|rewrite lookup_insert_ne in Hs by done; by eapply H1].
    rewrite lookup_insert_eq in Hs. injection Hs as <-. by rewrite field_entry_odd in Hv.
  - apply keeps_same; [done..|]. by eapply table_vset.
Qed.

Lemma makeException_ok rt cls msg :
  registry_ok rt -> exists r rt', makeException rt cls msg = Some (r, rt') /\ keeps rt rt'.
Proof.
  intros H. unfold makeException. pose proof (keeps_classId rt cls) as H1.
  destruct (classId rt cls) as [cid rt1]. cbn [snd] in H1.
  assert (keeps rt (markException rt1 cid)) as H2 by (etrans; [exact H1|apply keeps_markException]).
  set (rt2 := markException rt1 cid) in *.
  pose proof (keeps_newInstance rt2 cid) as H3. destruct (newInstance rt2 cid) as [o rt3]. cbn [snd] in H3.
  assert (keeps rt rt3) as H4 by (by etrans).
  destruct (resolveField_ok rt3 detailMessage) as (rf & rt4 & -> & H5); [by apply H4|]. cbn [mbind option_bind].
  destruct rf as [rf|]; [|eexists _, _; split; [reflexivity|by etrans]].
  pose proof (keeps_internString rt4 msg) as H6. destruct (rt_internString rt4 msg) as [sr rt5].
  eexists _, _. split; [reflexivity|]. etrans; [exact H4|]. etrans; [exact H5|]. etrans; [exact H6|].
  apply keeps_heap, heap_keeps_storeField.
Qed.

(** ** Monitors held by a stack *)

(** The monitors of the frames, and how often an object occurs among them. *)
Definition held (fs : list Frame) : list ObjRef := concat (f_monitors <$> fs).

Definition occ (r : ObjRef) (ms : list ObjRef) : N := vlen (List.filter (N.eqb r) ms).

(** Every monitor is held at most as often as the frames record it; its owner is
    the thread. [k] bounds the records: below 2^32 no count has wrapped around. *)
Record monitors_ok (k : N) (ms : list ObjRef) (h : Heap) : Prop := {
  mo_held r : mon_count (mon_of h r) <= occ r ms;
  mo_owner r : 0 < mon_count (mon_of h r) -> mon_owner (mon_of h r) = kOwnerThread;
  mo_total : vlen ms <= k;
  mo_free r : k < 4294967296 -> mon_owner (mon_of h r) <> 0 -> 0 < mon_count (mon_of h r)
}.

Lemma occ_app r l l' : occ r (l ++ l') = occ r l + occ r l'.
Proof. unfold occ. by rewrite List.filter_app, vlen_app. Qed.

Lemma occ_cons r x l : occ r (x :: l) = (if r =? x then 1 else 0) + occ r l.
Proof. unfold occ. cbn. destruct (r =? x); [unfold vlen; cbn; lia|done]. Qed.

Lemma occ_le r l : occ r l <= vlen l.
Proof.
  induction l as [|x l IH]; [done|]. rewrite occ_cons. unfold vlen in *. cbn [length].
  destruct (r =? x); lia.
Qed.

Lemma held_cons f fs : held (f :: fs) = f_monitors f ++ held fs.
Proof. done. Qed.

Lemma monitors_keeps k ms h h' : heap_keeps h h' -> monitors_ok k ms h -> monitors_ok k ms h'.
Proof. intros H [H1 H2 H3 H4]. split; [intros r; rewrite H; auto..|done|intros r; rewrite H; auto]. Qed.

Lemma monitors_more k k' ms h : k <= k' -> monitors_ok k ms h -> monitors_ok k' ms h.
Proof. intros Hk [H1 H2 H3 H4]. split; [done|done|lia|]. intros r ?. apply H4. lia. Qed.

(** The records only matter up to their numbers. *)
Lemma monitors_records k ms ms' h :
  (forall r, occ r ms <= occ r ms') -> vlen ms' <= k -> monitors_ok k ms h -> monitors_ok k ms' h.
Proof. intros Ho Hl [H1 H2 H3 H4]. split; [|done..]. intros r. etrans; [apply H1|apply Ho]. Qed.

Lemma mon_of_monitorexit h r r' :
  mon_of (snd (monitorexit h r)) r' =
  let m := mon_of h r in
  if decide (r = r') then
    if (mon_owner m =? kOwnerThread) && negb (mon_count m =? 0)
    then mkMonitor (if mon_count m - 1 =? 0 then 0 else mon_owner m) (mon_count m - 1)
    else m
  else mon_of h r'.
Proof.
  unfold monitorexit. destruct (obj h r) as [o|] eqn:E; cbn zeta.
  - assert (mon_of h r = o_mon o) as -> by (unfold mon_of; by rewrite E).
    assert (mon_of h r' = if decide (r = r') then o_mon o else mon_of h r') as Hs.
    { destruct (decide (r = r')) as [<-|]; [|done]. unfold mon_of. by rewrite E. }
    destruct (mon_owner (o_mon o) =? kOwnerThread), (mon_count (o_mon o) =? 0); try exact Hs.
    cbn [negb orb andb snd]. rewrite mon_of_set_obj by (by rewrite E). by destruct (decide _).
  - assert (mon_of h r = freeMonitor) as -> by (unfold mon_of; by rewrite E).
    cbn. destruct (decide (r = r')) as [<-|]; [|done]. unfold mon_of. by rewrite E.
Qed.

(** Releasing [r] allows one record of it to go. *)
Lemma monitors_exit k ms ms' h r :
  (forall r', occ r' ms <= (if r' =? r then 1 else 0) + occ r' ms') -> vlen ms' <= k ->
  monitors_ok k ms h -> monitors_ok k ms' (snd (monitorexit h r)).
Proof.
  intros Hocc Hlen [H1 H2 H3 H4]. pose proof mon_of_monitorexit as E. cbn zeta in E.
  split; [| |done|]; intros r'; rewrite E; specialize (H1 r'); specialize (H2 r');
    specialize (H4 r'); specialize (Hocc r'); destruct (decide (r = r')) as [<-|Hne];
    rewrite ?N.eqb_refl in Hocc;
    rewrite ?(proj2 (N.eqb_neq r' r)) in Hocc by done; try done; try lia;
    destruct (N.eqb_spec (mon_owner (mon_of h r)) kOwnerThread);
    destruct (N.eqb_spec (mon_count (mon_of h r)) 0); cbn; try intros; case_cmp; try lia; auto.
Qed.

Lemma monitorenter_fails h r : fst (monitorenter h r) <> MonFail.None -> snd (monitorenter h r) = h.
Proof.
  unfold monitorenter. destruct (obj h r) as [o|]; [|done].
  destruct (_ =? 0); [done|]. by destruct (_ =? _).
Qed.

Lemma mon_of_monitorenter h r r' :
  fst (monitorenter h r) = MonFail.None ->
  mon_of (snd (monitorenter h r)) r' =
  let m := mon_of h r in
  if decide (r = r') then
    if mon_owner m =? 0 then mkMonitor kOwnerThread 1
    else mkMonitor kOwnerThread (u32 (mon_count m + 1))
  else mon_of h r'.
Proof.
  unfold monitorenter. destruct (obj h r) as [o|] eqn:E; [|done]. cbn zeta.
  assert (mon_of h r = o_mon o) as -> by (unfold mon_of; by rewrite E).
  destruct (mon_owner (o_mon o) =? 0).
  { intros _. cbn [snd]. rewrite mon_of_set_obj by (by rewrite E). by destruct (decide _). }
  destruct (N.eqb_spec (mon_owner (o_mon o)) kOwnerThread) as [->|]; [|done].
  intros _. cbn [snd]. rewrite mon_of_set_obj by (by rewrite E). by destruct (decide _).
Qed.

(** A monitor that is taken is recorded. *)
Lemma monitors_enter k ms h r :
  monitors_ok k ms h -> fst (monitorenter h r) = MonFail.None ->
  monitors_ok (k + 1) (r :: ms) (snd (monitorenter h r)).
Proof.
  intros [H1 H2 H3 H4] Hok.
  assert (vlen (r :: ms) <= k + 1) as Hlen by (unfold vlen in *; cbn [length]; lia).
  split; [| |exact Hlen|]; intros r'; rewrite mon_of_monitorenter by done; cbn zeta.
  - specialize (H1 r'). rewrite occ_cons. destruct (decide (r = r')) as [<-|Hne]; [|destruct (_ =? _); lia].
    rewrite N.eqb_refl. pose proof (u32_le (mon_count (mon_of h r) + 1)).
    destruct (_ =? 0); cbn; lia.
  - specialize (H2 r'). destruct (decide (r = r')) as [<-|Hne]; [|done]. by destruct (_ =? 0).
  - intros Hk. specialize (H4 r'). destruct (decide (r = r')) as [<-|Hne]; [|intros; apply H4; [lia|done]].
    destruct (N.eqb_spec (mon_owner (mon_of h r)) 0); cbn; [lia|]. intros _.
    pose proof (H1 r). pose proof (occ_le r ms). rewrite u32_small; [lia|]. unfold fits32. lia.
Qed.

Lemma monitors_exits k ms l h :
  monitors_ok k (l ++ ms) h -> monitors_ok k ms (foldl (fun h m => snd (monitorexit h m)) h l).
Proof.
  revert h. induction l as [|r l IH]; intros h; [done|]. cbn [foldl app]. intros H. apply IH.
  eapply monitors_exit; [|pose proof (mo_total _ _ _ H) as Hl; unfold vlen in *; cbn [length] in Hl; lia|exact H].
  intros r'. by rewrite occ_cons.
Qed.

(** A frame that is left releases what it recorded. *)
Lemma monitors_release k f fs rt :
  monitors_ok k (held (f :: fs)) (heap_ rt) ->
  monitors_ok k (held fs) (heap_ (releaseMonitorsLIFO rt f)).
Proof. apply monitors_exits. Qed.

(** Every monitor is free. *)
Definition all_free (h : Heap) : Prop := forall r, mon_of h r = freeMonitor.

Lemma all_free_ok h : all_free h -> monitors_ok 0 [] h.
Proof. intros H. split; [intros r; rewrite H; cbn; lia..|done|]. intros r _. by rewrite H. Qed.

(** With no record left, and no count wrapped around, every monitor is free. *)
Lemma monitors_all_free k h : k < 4294967296 -> monitors_ok k [] h -> all_free h.
Proof.
  intros Hk [H1 _ _ H4] r. specialize (H1 r). specialize (H4 r Hk).
  assert (mon_count (mon_of h r) = 0) as Hc by (unfold occ in H1; cbn in H1; unfold vlen in H1; cbn in H1; lia).
  destruct (mon_of h r) as [o c]. cbn in *. subst c. unfold freeMonitor. f_equal.
  destruct (decide (o = 0)); [done|]. exfalso. by apply (N.lt_irrefl 0), H4.
Qed.

(** ** The initial runtime *)

Lemma registry_builtins : registry_ok (registerBuiltinClasses blankRuntime).
Proof.
  set (rt := registerBuiltinClasses blankRuntime).
  assert (bool_decide (map_Forall (fun _ v => negb (isFieldRegistryEntry v) = true ->
    (N.shiftr v 1 <? vlen (classes_ rt)) = true) (classByName_ rt)) = true) as H
    by (vm_compute; reflexivity).
  apply bool_decide_eq_true in H. intros name v Hv Hf. apply N.ltb_lt, (H name v Hv). by rewrite Hf.
Qed.

Lemma builtins_no_objects : h_objs (heap_ (registerBuiltinClasses blankRuntime)) = [].
Proof. vm_compute. reflexivity. Qed.

(** The two streams are allocated on the runtime of the builtin classes. *)
Definition with_streams (rt : Runtime) (c : ClassId) (ps : list MethodProfile) : Runtime :=
  let '(o, h) := allocInstance (heap_ rt) c 0 in
  let '(e, h) := allocInstance h c 0 in
  set_streams rt o e h ps.

Lemma newRuntime_streams p :
  newRuntime p = with_streams (registerBuiltinClasses blankRuntime)
    (findClass (registerBuiltinClasses blankRuntime) "java/io/PrintStream")
    (replicate (length (p_methods p)) (mkProfile 0 0)).
Proof. unfold newRuntime, with_streams. reflexivity. Qed.

Lemma with_streams_ok rt c ps :
  registry_ok rt -> h_objs (heap_ rt) = [] ->
  registry_ok (with_streams rt c ps) /\ all_free (heap_ (with_streams rt c ps)).
Proof.
  intros Hr Hnil. unfold with_streams, allocInstance. cbn [replicate N.to_nat].
  set (o := mkObj _ _ _ _ _ _ _).
  pose proof (heap_keeps_push (heap_ rt) o eq_refl) as H1. destruct (push_obj (heap_ rt) o) as [r1 h].
  pose proof (heap_keeps_push h o eq_refl) as H2. destruct (push_obj h o) as [r2 h'].
  split; [exact Hr|]. intros r. cbn [heap_ set_streams snd] in *. rewrite H2, H1.
  unfold mon_of, obj. rewrite Hnil. destruct (_ || _) eqn:E; [done|]. by rewrite vget_lookup.
Qed.

Lemma newRuntime_ok p : registry_ok (newRuntime p) /\ all_free (heap_ (newRuntime p)).
Proof.
  rewrite newRuntime_streams.
  exact (with_streams_ok _ _ _ registry_builtins builtins_no_objects).
Qed.
