(* ===== verification/InterpInv.v ===== *)
(** * The invariant of the interpreter

    What the structural checks of the verifier give the interpreter ([sound_method]),
    the invariant of its states, and the proof that the protocols (exceptions,
    calls, class initialisation) keep it and never leave defined behaviour. *)

From Stdlib Require Import Ascii String.
From S2P Require Import Prelude RbcOpcode Rbc RbcVerifier RbcBlocks RbcTotal RbcFlow RbcSound Machine.
From S2P Require Import Heap JavaString Runtime Frame Interp RuntimeInv.

Local Open Scope N_scope.

(** ** Accepted methods *)

Definition in_code (n : N) (z : Z) : Prop := (0 <= z)%Z /\ Z.to_N z < n.

(** The shape of a switch payload. *)
Definition table_ok (n : N) (v : list Z) : Prop :=
  3 <= vlen v /\ (3 + (int_at v 1 - int_at v 0) + 1 = Z.of_N (vlen v))%Z /\
  forall i, 2 <= i < vlen v -> in_code n (int_at v i).

Definition lookup_ok (n : N) (v : list Z) : Prop :=
  2 <= vlen v /\ (0 <= int_at v 0)%Z /\ (2 + 2 * int_at v 0 = Z.of_N (vlen v))%Z /\
  in_code n (int_at v 1) /\ forall i, i < Z.to_N (int_at v 0) -> in_code n (int_at v (3 + 2 * i)).

Definition switch_ok (m : Method) (x : Ins) : Prop :=
  exists c, vget (m_cp m) (i_imm x) = Some c /\
    if i_op x =? Op.code Op.Tableswitch then table_ok (vlen (m_code m)) (c_ints c)
    else lookup_ok (vlen (m_code m)) (c_ints c).

(** An instruction of an accepted method. *)
Record sound_ins (m : Method) (pc : N) (x : Ins) (op : Op) : Prop := {
  si_op : of_code (i_op x) = Some op;
  si_wf : well_formed m x op;
  si_switch : oi_sig (info op) = Sig.RegCpBranch -> switch_ok m x;
  si_next : canFallThrough op = true -> pc + 1 < vlen (m_code m)
}.

Record sound_method (m : Method) : Prop := {
  sm_ins pc x : vget (m_code m) pc = Some x -> exists op, sound_ins m pc x op;
  sm_handler h : h ∈ m_handlers m -> h_handler h < vlen (m_code m);
  sm_catch h : h ∈ m_handlers m -> (0 <= h_catchType h)%Z ->
    is_Some (vget (m_cp m) (Z.to_N (h_catchType h)));
  sm_size : vlen (m_code m) < 4294967296
}.

Lemma targetsOk_nil n l : snd (fst (targetsOk n l)) = [] -> Forall (in_code n) l.
Proof.
  unfold targetsOk. generalize true, (@nil N). assert (forall acc l,
    snd (fst (foldl (targetOk n) acc l)) = [] -> snd (fst acc) = [] /\ Forall (in_code n) l) as H.
  { clear l. intros acc l. revert acc. induction l as [|z l IH]; intros acc; [done|].
    cbn [foldl]. intros [H1 H2]%IH. destruct acc as [[ok msgs] ts]. unfold targetOk in H1.
    destruct ((z <? 0)%Z || (n <=? Z.to_N z)) eqn:E; cbn in H1.
    - by apply app_nil in H1 as [_ ?].
    - apply orb_false_iff in E as [E1%Z.ltb_ge E2%N.leb_gt]. by repeat constructor. }
  intros b ts Hn. by apply H in Hn as [_ ?].
Qed.

Lemma validateTableswitch_ok n v : snd (fst (validateTableswitch n v)) = [] -> table_ok n v.
Proof.
  unfold validateTableswitch. destruct (N.ltb_spec (vlen v) 3); [done|].
  destruct (_ <? _)%Z eqn:Hd; cbn [orb when app fst snd]; [done|].
  destruct (Z.eqb_spec (3 + (int_at v 1 - int_at v 0) + 1) (Z.of_N (vlen v))) as [Hs|]; cbn [negb orb];
    [|done]. intros Ht%targetsOk_nil. split_and!; [done|done|]. intros i Hi.
  rewrite Forall_lookup in Ht. apply (Ht (N.to_nat (i - 2))). rewrite lookup_drop. unfold int_at.
  destruct (vget v i) as [z|] eqn:E; [|apply vget_ge_None in E; lia].
  rewrite vget_lookup in E. by replace (2 + N.to_nat (i - 2))%nat with (N.to_nat i) by lia.
Qed.

Lemma both_msgs_nil x y : snd (fst (both x y)) = [] -> snd (fst x) = [] /\ snd (fst y) = [].
Proof. destruct x as [[? ?] ?], y as [[? ?] ?]. cbn. by intros ?%app_nil. Qed.

Lemma lookup_entries_nil n v l acc :
  snd (fst (foldl both acc (lookup_entry n v <$> l))) = [] ->
  snd (fst acc) = [] /\ forall i, i ∈ l -> in_code n (int_at v (3 + 2 * i)).
Proof.
  revert acc. induction l as [|i l IH]; intros acc; [split; [done|by intros ? ?%elem_of_nil]|].
  cbn [fmap list_fmap foldl]. intros [[H1 H2]%both_msgs_nil H3]%IH. split; [done|].
  intros j [->|Hj]%elem_of_cons; [|auto]. unfold lookup_entry in H2.
  destruct (targetsOk n _) as [[ok msgs] ts] eqn:E. cbn [fst snd] in H2. apply app_nil in H2 as [_ H2].
  assert (snd (fst (targetsOk n [int_at v (3 + 2 * i)])) = []) as Ht by (by rewrite E).
  apply targetsOk_nil in Ht. by inversion Ht.
Qed.

Lemma validateLookupswitch_ok n v : snd (fst (validateLookupswitch n v)) = [] -> lookup_ok n v.
Proof.
  unfold validateLookupswitch. destruct (N.ltb_spec (vlen v) 2); [done|].
  destruct (Z.ltb_spec (int_at v 0) 0); cbn [orb]; [done|].
  destruct (Z.eqb_spec (2 + 2 * int_at v 0) (Z.of_N (vlen v))); cbn [negb]; [|done].
  intros [H1 H2]%both_msgs_nil. apply lookup_entries_nil in H1 as [_ H1].
  apply targetsOk_nil in H2. split_and!; try done; [by inversion H2|].
  intros i Hi. apply H1. by apply elem_of_indices.
Qed.

Lemma checkIns_switch m pc x op :
  checkIns m pc x = [] -> of_code (i_op x) = Some op -> oi_sig (info op) = Sig.RegCpBranch ->
  switch_ok m x.
Proof.
  unfold checkIns. intros H Hop Hsig. rewrite Hop in H. cbn zeta in H.
  rewrite !app_nil in H. destruct H as (_ & _ & _ & _ & _ & _ & Hcp & _ & Hsw).
  rewrite Hsig in Hsw. rewrite bool_decide_eq_true_2 in Hsw by done.
  assert (op = Op.Tableswitch \/ op = Op.Lookupswitch) as Ho by (by destruct op; auto).
  assert (usesCp op = true) as Hu by (by destruct Ho as [-> | ->]). rewrite Hu in Hcp.
  unfold checkCp in Hcp. unfold validateSwitch in Hsw. unfold switch_ok.
  destruct (vget (m_cp m) (i_imm x)) as [c|]; [|done]. exists c. split; [done|].
  apply when_msg_nil, negb_false_iff in Hcp.
  assert (c_kind c = Kind.SwitchTable) as Hk.
  { destruct Ho as [-> | ->]; cbn in Hcp; apply bool_decide_eq_true in Hcp;
      by apply list_elem_of_singleton in Hcp. }
  rewrite bool_decide_eq_true_2 in Hsw by done. cbn [negb] in Hsw.
  destruct (_ =? _); [by apply validateTableswitch_ok|by apply validateLookupswitch_ok].
Qed.

Lemma checkHandler_catch m h :
  checkHandler m h = [] -> h_handler h < vlen (m_code m) /\
  ((0 <= h_catchType h)%Z -> is_Some (vget (m_cp m) (Z.to_N (h_catchType h)))).
Proof.
  unfold checkHandler. intros [_ [H1%when_msg_nil%N.leb_gt H2%when_msg_nil]%app_nil]%app_nil.
  split; [done|]. intros Hc%Z.leb_le. unfold badCatchType in H2. rewrite Hc in H2.
  apply orb_false_iff in H2 as [_ H2]. by destruct (vget _ _).
Qed.

(** The structural content of acceptance, for methods with and without code. *)
Lemma accepted_sound fuel m r : verify fuel m = Some r -> vr_ok r = true -> sound_method m.
Proof.
  unfold verify. destruct (verifyImpl fuel m) as [ds|] eqn:Hi; [|done]. intros [= <-]. cbn.
  intros ->%bool_decide_eq_true. unfold verifyImpl in Hi.
  destruct (N.ltb_spec 4294967295 (vlen (m_code m))); [injection Hi as Hi; by apply add_nonempty in Hi|].
  set (sink := phase1b m (phase1 m (phase0 m))) in *.
  assert (sink = [] /\ (m_code m <> [] -> fallOff m [] = [])) as [Hs Hf].
  { destruct (N.eqb_spec (vlen (m_code m)) 0) as [Hz|Hz]; cbn [orb] in Hi.
    - injection Hi as ->. split; [done|]. intros Hne. by destruct (m_code m).
    - destruct (full sink) eqn:Hfull; [injection Hi as Hi; by rewrite Hi in Hfull|].
      destruct (phase2_quiet fuel m sink Hi) as (? & ? & ? & ? & _ & _ & _ & _ & Hf & _).
      pose proof (fallOff_nil _ _ Hf) as [Hs _]. rewrite Hs in Hf. by split. }
  destruct (structural_nil m Hs) as [H1 H2]. split.
  - intros pc x Hx. pose proof (vget_Some_lt _ _ _ Hx) as Hlt.
    assert (ins_at m pc = x) as Hat by (unfold ins_at; by rewrite Hx).
    specialize (H1 pc Hlt). rewrite Hat in H1.
    destruct (checkIns_well_formed m pc x H1) as (op & Hop & Hwf). exists op. split; try done.
    + by eapply checkIns_switch.
    + intros Hfall. destruct (decide (pc + 1 < vlen (m_code m))) as [|Hge]; [done|]. exfalso.
      assert (m_code m <> []) as Hne by (intros E; rewrite E in Hlt; unfold vlen in Hlt; cbn in Hlt; lia).
      specialize (Hf Hne). apply fallOff_nil in Hf as [_ Hf]. specialize (Hf op).
      replace (vlen (m_code m) - 1) with pc in Hf by lia. rewrite Hat, Hop in Hf.
      by rewrite (Hf eq_refl) in Hfall.
  - intros h Hh. by destruct (checkHandler_catch m h (H2 h Hh)).
  - intros h Hh. by destruct (checkHandler_catch m h (H2 h Hh)).
  - lia.
Qed.

(** ** The invariant *)

Section Invariant.
Context (p : Program) (cfg : InterpConfig).

(** In a program with a class initialiser, method 0, which is the one that
    initialisation runs and whose frame gets no locals, declares none. *)
Definition clinit_ok : Prop :=
  match method_index p "<clinit>" "()V" with
  | None => True
  | Some _ => m_numLocals (method p 0) = 0
  end.

(** Every method is accepted. *)
Definition accepted : Prop := forall m, m ∈ p_methods p -> sound_method m.

(** A frame has the registers and locals of its method, and is in its code. *)
Definition frame_ok (f : Frame) : Prop :=
  exists id, f_method f = Some id /\
    m_numRegs (method p id) <= vlen (f_regs f) /\ m_numLocals (method p id) <= vlen (f_locals f) /\
    (m_code (method p id) = [] \/ f_pc f < vlen (m_code (method p id))).

(** A frame below the innermost one is at an instruction it can move past. *)
Definition waiting (f : Frame) : Prop :=
  frame_ok f /\ exists id x op, f_method f = Some id /\
    vget (m_code (method p id)) (f_pc f) = Some x /\ of_code (i_op x) = Some op /\
    canFallThrough op = true.

Definition frames_ok (fs : list Frame) : Prop :=
  vlen fs <= N.max 1 (cf_maxFrames cfg) /\
  match fs with [] => False | f :: fs => frame_ok f /\ Forall waiting fs end.

Definition runtime_ok (k : N) (fs : list Frame) (rt : Runtime) : Prop :=
  registry_ok rt /\ monitors_ok k (held fs) (heap_ rt).

Definition inv (k : N) (s : Interp) : Prop :=
  runtime_ok k (it_frames s) (it_rt s) /\ frames_ok (it_frames s).

(** The state a run ends in. *)
Definition ended (k : N) (s : Interp) : Prop := it_frames s = [] /\ runtime_ok k [] (it_rt s).

(** A handler has defined behaviour and keeps the invariant. *)
Definition good (k : N) (o : option outcome) : Prop :=
  match o with
  | Some (Continue s) => inv k s
  | Some (Finished _ s) => ended k s
  | None => False
  end.

(** The same for the parts of a handler that say whether execution goes on. *)
Definition good_flag (k : N) (r : option (bool * Interp)) : Prop :=
  match r with
  | Some (true, s) => inv k s
  | Some (false, s) => ended k s
  | None => False
  end.

Hypothesis Haccepted : accepted.

Lemma sound_at id : sound_method (method p id).
Proof.
  unfold method. destruct (vget (p_methods p) id) as [m|] eqn:E; cbn.
  - apply Haccepted. rewrite vget_lookup in E. by eapply list_elem_of_lookup_2.
  - split; cbn; [|by intros h ?%elem_of_nil|by intros h ?%elem_of_nil|].
    + intros pc x Hx. apply vget_Some_lt in Hx. unfold vlen in Hx. cbn in Hx. lia.
    + unfold vlen. cbn. lia.
Qed.

Lemma runtime_ok_keeps k fs rt rt' : keeps rt rt' -> runtime_ok k fs rt -> runtime_ok k fs rt'.
Proof. intros [H1 H2] [H3 H4]. split; [auto|]. by eapply monitors_keeps. Qed.

Lemma runtime_ok_more k k' fs rt : k <= k' -> runtime_ok k fs rt -> runtime_ok k' fs rt.
Proof. intros ? [? ?]. split; [done|]. by eapply monitors_more. Qed.

Lemma inv_more k k' s : k <= k' -> inv k s -> inv k' s.
Proof. intros ? [? ?]. split; [|done]. by eapply runtime_ok_more. Qed.

Lemma good_more k k' o : k <= k' -> good k o -> good k' o.
Proof.
  intros Hk. destruct o as [[s|st s]|]; [exact (inv_more k k' s Hk)| |done].
  intros [H1 H2]. split; [done|]. by eapply runtime_ok_more.
Qed.

Lemma inv_with_rt k s rt : keeps (it_rt s) rt -> inv k s -> inv k (with_rt s rt).
Proof. intros Hk [H1 H2]. split; [|done]. by eapply runtime_ok_keeps. Qed.

(** The counters are not part of the invariant. *)
Lemma it_rt_stat c s : it_rt (stat cfg c s) = it_rt s.
Proof. unfold stat. by destruct (cf_collectStats cfg). Qed.
Lemma it_frames_stat c s : it_frames (stat cfg c s) = it_frames s.
Proof. unfold stat. by destruct (cf_collectStats cfg). Qed.
Lemma inv_stat k c s : inv k (stat cfg c s) <-> inv k s.
Proof. unfold inv. by rewrite it_rt_stat, it_frames_stat. Qed.

(** ** Exceptions *)

Lemma keeps_find_handler m hs pc exc rt :
  (forall h, h ∈ hs -> (0 <= h_catchType h)%Z -> is_Some (vget (m_cp m) (Z.to_N (h_catchType h)))) ->
  exists h rt', find_handler m hs pc exc rt = Some (h, rt') /\ keeps rt rt' /\
    forall h', h = Some h' -> h' ∈ hs.
Proof.
  revert rt. induction hs as [|h hs IH]; intros rt Hc; [by exists None, rt|].
  assert (exists h' rt', find_handler m hs pc exc rt = Some (h', rt') /\ keeps rt rt' /\
    forall h'', h' = Some h'' -> h'' ∈ h :: hs) as Hrest.
  { destruct (IH rt) as (h' & rt' & E & Hk & Hin); [intros ? ?; apply Hc; by right|].
    exists h', rt'. split_and!; [done|done|]. intros ? ?. right. auto. }
  cbn [find_handler]. destruct (covers h pc); cbn [negb]; [|exact Hrest].
  destruct (Z.leb_spec 0 (h_catchType h)) as [Hle|].
  2: { exists (Some h), rt. split_and!; [done|done|]. intros ? [= <-]. by left. }
  destruct (Hc h) as [c Hct]; [by left|done|]. rewrite Hct. cbn [mbind option_bind].
  pose proof (keeps_classId rt (c_str c)) as Hk. destruct (classId rt (c_str c)) as [cls rt1]. cbn in Hk.
  destruct (isAssignableFrom _ _ _).
  - exists (Some h), rt1. split_and!; [done|done|]. intros ? [= <-]. by left.
  - destruct (IH rt1) as (h' & rt' & E & Hk' & Hin); [intros ? ?; apply Hc; by right|].
    exists h', rt'. split_and!; [done|by etrans|]. intros ? ?. right. auto.
Qed.

Lemma frame_ok_enter id h exc f :
  f_method f = Some id -> m_numLocals (method p id) <= vlen (f_locals f) ->
  h ∈ m_handlers (method p id) -> frame_ok (enter_handler (method p id) h exc f).
Proof.
  intros Hm Hl Hh. exists id. unfold enter_handler. cbn. split_and!; [done| |done|].
  - rewrite vlen_vset. unfold vlen. rewrite length_replicate. lia.
  - right. by apply (sm_handler _ (sound_at id)).
Qed.

Lemma unwind_ok k exc fs rt :
  Forall frame_ok fs -> Forall waiting (tail fs) -> runtime_ok k fs rt ->
  exists o rt', unwind p exc fs rt = Some (o, rt') /\
    match o with
    | Some fs' => runtime_ok k fs' rt' /\ vlen fs' <= vlen fs /\
                  match fs' with [] => False | f :: fs' => frame_ok f /\ Forall waiting fs' end
    | None => runtime_ok k [] rt'
    end.
Proof.
  revert rt. induction fs as [|f fs IH]; intros rt Hfs Hw Hrt; [by exists None, rt|].
  cbn [unwind]. inversion Hfs as [|? ? (id & Hm & Hr & Hl & Hpc) Hfs']; subst. cbn [tail] in Hw.
  unfold frame_method. rewrite Hm. cbn [fmap option_fmap option_map mbind option_bind].
  destruct (keeps_find_handler (method p id) (m_handlers (method p id)) (f_pc f) exc rt)
    as (h & rt1 & -> & Hk & Hin).
  { intros h Hh. by apply (sm_catch _ (sound_at id)). }
  cbn [mbind option_bind]. pose proof (runtime_ok_keeps _ _ _ _ Hk Hrt) as [Hreg Hmon].
  destruct h as [h|].
  - eexists _, _. split; [reflexivity|]. split; [by split|]. split; [done|].
    split; [by apply frame_ok_enter, Hin|done].
  - destruct (IH (releaseMonitorsLIFO rt1 f)) as (o & rt' & -> & Ho); [done| | |].
    + destruct fs; [done|]. by inversion Hw.
    + split; [exact Hreg|]. by apply monitors_release.
    + exists o, rt'. split; [done|]. destruct o as [fs'|]; [|done]. destruct Ho as (? & ? & ?).
      split; [done|]. split; [|done]. etrans; [eassumption|]. unfold vlen. cbn. lia.
Qed.

Lemma frames_ok_all fs : frames_ok fs -> Forall frame_ok fs /\ Forall waiting (tail fs).
Proof.
  intros [_ H]. destruct fs as [|f fs]; [done|]. destruct H as [H1 H2]. split; [|done].
  constructor; [done|]. eapply Forall_impl; [exact H2|]. by intros g [? _].
Qed.

Lemma throwException_good k exc s : inv k s -> good_flag k (throwException p cfg exc s).
Proof.
  intros [Hrt Hfs]. unfold throwException. rewrite it_rt_stat, it_frames_stat.
  destruct (frames_ok_all _ Hfs) as [H1 H2].
  destruct (unwind_ok k exc _ _ H1 H2 Hrt) as (o & rt' & -> & Ho). cbn [mbind option_bind].
  destruct o as [fs'|]; cbn.
  - destruct Ho as (? & ? & ?). split; [done|]. split; [|done]. destruct Hfs as [? _]. cbn. lia.
  - by split.
Qed.

Lemma raise_good k cls msg s : inv k s -> good_flag k (raise p cfg cls msg s).
Proof.
  intros H. unfold raise, construct. destruct (makeException_ok (it_rt s) cls msg) as (r & rt & -> & Hk);
    [apply H|]. cbn [mbind option_bind]. by apply throwException_good, inv_with_rt.
Qed.

Lemma thrown_good k r : good_flag k r -> good k (thrown r).
Proof. by destruct r as [[[] s]|]. Qed.

Lemma trap_good k cls msg s : inv k s -> good k (trap p cfg cls msg s).
Proof. intros. by apply thrown_good, raise_good. Qed.

(** ** Calls *)

Lemma keeps_bump id s : it_frames (bump_invocations id s) = it_frames s /\
  keeps (it_rt s) (it_rt (bump_invocations id s)).
Proof. split; [done|]. apply keeps_bumpInvocations. Qed.

(** Pushing a frame that holds no monitor above one that waits. *)
Lemma inv_push k nf f fs s :
  it_frames s = f :: fs -> inv k s -> waiting f -> frame_ok nf -> f_monitors nf = [] ->
  vlen (it_frames s) < cf_maxFrames cfg -> inv k (push_frame nf s).
Proof.
  intros Hf [[Hr Hm] [Hl Hfs]] Hw Hn Hmon Hmax. unfold push_frame, inv. cbn. split.
  - split; [done|]. rewrite held_cons, Hmon. exact Hm.
  - split.
    + unfold vlen in *. cbn [length]. lia.
    + split; [done|]. rewrite Hf in *. destruct Hfs. by constructor.
Qed.

Lemma frame_ok_entry id args mons pend c :
  m_numLocals (method p id) <= vlen args ->
  frame_ok (mkFrame (Some id) 0 args (replicate (N.to_nat (m_numRegs (method p id))) bottom) mons pend c).
Proof.
  intros Hl. exists id. cbn. split_and!; [done| |done|].
  - unfold vlen. rewrite length_replicate. lia.
  - destruct (m_code (method p id)); [by left|right]. unfold vlen. cbn. lia.
Qed.

Lemma pad_length {n} l : n <= vlen (pad n l).
Proof. unfold pad. rewrite vlen_app. unfold vlen at 2. rewrite length_replicate. lia. Qed.

Lemma pushCall_good k x id s f fs :
  it_frames s = f :: fs -> waiting f -> inv k s -> good_flag k (pushCall p cfg x id s).
Proof.
  intros Hf Hw Hs. unfold pushCall. destruct (_ || _); [by apply raise_good|].
  destruct (N.leb_spec (cf_maxFrames cfg) (vlen (it_frames s))); [by apply raise_good|].
  unfold top. rewrite Hf. cbn. apply inv_with_rt; [apply keeps_bumpInvocations|]. apply inv_stat.
  eapply inv_push; try done. apply frame_ok_entry, pad_length.
Qed.

Hypothesis Hclinit : clinit_ok.

(** After the class is marked, it no longer needs initialisation. *)
Lemma needsInit_marked rt c : needsInit p (markInitialized rt c) c = false.
Proof.
  unfold needsInit, markInitialized. destruct (vget (classes_ rt) c) as [ci|] eqn:E; [|by rewrite E].
  cbn. by rewrite vget_vset_eq by (by eapply vget_Some_lt).
Qed.

(** So the initialiser that is found is method 0, whatever [<clinit>] is. *)
Lemma findClinit_marked rt c : findClinit p (markInitialized rt c) c = 0.
Proof. unfold findClinit. by rewrite needsInit_marked. Qed.

Lemma needsInit_locals rt c : needsInit p rt c = true -> m_numLocals (method p 0) = 0.
Proof.
  unfold needsInit. destruct (vget _ _); [|done]. destruct (ci_initialized _); [done|].
  destruct (negb _); [done|]. unfold has_clinit. unfold clinit_ok in Hclinit.
  by destruct (method_index p "<clinit>" "()V").
Qed.

Lemma pushClinit_good k c s f fs :
  it_frames s = f :: fs -> waiting f -> needsInit p (it_rt s) c = true -> inv k s ->
  good_flag k (pushClinit p cfg c s).
Proof.
  intros Hf Hw Hn Hs. unfold pushClinit. cbn [it_rt with_rt it_frames].
  assert (inv k (with_rt s (markInitialized (it_rt s) c))) as Hs'
    by (apply inv_with_rt; [apply keeps_markInitialized|done]).
  rewrite findClinit_marked. destruct (N.leb_spec (cf_maxFrames cfg) (vlen (it_frames s)));
    [by apply raise_good|].
  unfold top. cbn [it_frames with_rt]. rewrite Hf. cbn [mbind option_bind].
  apply inv_with_rt; [apply keeps_bumpInvocations|]. apply inv_stat.
  eapply inv_push; try done. apply frame_ok_entry. rewrite (needsInit_locals _ _ Hn). unfold vlen. cbn. lia.
Qed.

Lemma with_init_good k c s body f fs :
  it_frames s = f :: fs -> waiting f -> inv k s -> good k (body s) ->
  good k (with_init p cfg c s body).
Proof.
  intros Hf Hw Hs Hbody. unfold with_init, initClassIfNeeded.
  destruct (needsInit p (it_rt s) c) eqn:Hn; cbn [negb mbind option_bind]; [|done].
  pose proof (pushClinit_good k c s f fs Hf Hw Hn Hs) as H.
  destruct (pushClinit p cfg c s) as [[[] s']|]; cbn in *; done.
Qed.

End Invariant.
