(* ===== verification/InterpSafe.v ===== *)
(** * Accepted programs run safely

    Every handler of the dispatch loop keeps the invariant of InterpInv on the
    instructions of accepted methods, and never reaches undefined behaviour. So a
    run of a program that passed the verifier neither does: not in its registers,
    locals, constants, code, frame stack or method table. *)

From Stdlib Require Import Ascii String SpecFloat.
From S2P Require Import Prelude RbcOpcode Rbc RbcVerifier RbcSound Machine ConstFold.
From S2P Require Import Heap JavaString Runtime Frame Interp Dispatch RuntimeInv InterpInv.

Local Open Scope N_scope.

Section Safe.
Context (p : Program) (cfg : InterpConfig).
Hypothesis Haccepted : accepted p.
Hypothesis Hclinit : clinit_ok p.

Local Abbreviation good := (good p cfg).
Local Abbreviation inv := (inv p cfg).

(** The machine is about to execute instruction [x] of method [id] in frame [f]. *)
Record running (k : N) (s : Interp) (f : Frame) (id : MethodId) (x : Ins) (op : Op) : Prop := {
  rn_inv : inv k s;
  rn_top : exists fs, it_frames s = f :: fs;
  rn_method : f_method f = Some id;
  rn_regs : m_numRegs (method p id) <= vlen (f_regs f);
  rn_locals : m_numLocals (method p id) <= vlen (f_locals f);
  rn_fetch : vget (m_code (method p id)) (f_pc f) = Some x;
  rn_ins : sound_ins (method p id) (f_pc f) x op
}.

Abbreviation uses_dst op := (ru_dst (regUse (oi_sig (info op)))).
Abbreviation uses_a op := (ru_a (regUse (oi_sig (info op)))).
Abbreviation uses_b op := (ru_b (regUse (oi_sig (info op)))).

Section Facts.
Context {k s f id x op} (H : running k s f id x op).

Lemma rn_it_top : top s = Some f.
Proof. destruct (rn_top _ _ _ _ _ _ H) as [fs E]. unfold top. by rewrite E. Qed.

Lemma rn_frame_method : frame_method p f = Some (method p id).
Proof. unfold frame_method. by rewrite (rn_method _ _ _ _ _ _ H). Qed.

Lemma rn_index : methodIndex p f = Some id.
Proof.
  unfold methodIndex. rewrite (rn_method _ _ _ _ _ _ H). cbn.
  destruct (N.ltb_spec id (vlen (p_methods p))) as [|Hge]; [done|]. exfalso.
  pose proof (rn_fetch _ _ _ _ _ _ H) as Hx. apply vget_ge_None in Hge. unfold method in Hx.
  rewrite Hge in Hx. apply vget_Some_lt in Hx. unfold vlen in Hx. cbn in Hx. lia.
Qed.

Lemma rn_cp : usesCp op = true -> exists c, cp_at p f (i_imm x) = Some c /\ cpKindOk op (c_kind c) = true.
Proof.
  intros Hu. unfold cp_at. rewrite rn_frame_method. cbn.
  apply (wi_cp _ _ _ (si_wf _ _ _ _ (rn_ins _ _ _ _ _ _ H)) Hu).
Qed.

Lemma rn_a : uses_a op = true -> exists v, rget f (i_a x) = Some v.
Proof.
  intros Hu. apply vget_lt_is_Some. pose proof (rn_regs _ _ _ _ _ _ H).
  pose proof (wi_a _ _ _ (si_wf _ _ _ _ (rn_ins _ _ _ _ _ _ H)) Hu). lia.
Qed.

Lemma rn_b : uses_b op = true -> exists v, rget f (i_b x) = Some v.
Proof.
  intros Hu. apply vget_lt_is_Some. pose proof (rn_regs _ _ _ _ _ _ H).
  pose proof (wi_b _ _ _ (si_wf _ _ _ _ (rn_ins _ _ _ _ _ _ H)) Hu). lia.
Qed.

Lemma rn_dst_lt : uses_dst op = true -> i_dst x < vlen (f_regs f).
Proof.
  intros Hu. pose proof (rn_regs _ _ _ _ _ _ H).
  pose proof (wi_dst _ _ _ (si_wf _ _ _ _ (rn_ins _ _ _ _ _ _ H)) Hu). lia.
Qed.

Lemma rn_dst : uses_dst op = true -> exists v, rget f (i_dst x) = Some v.
Proof. intros Hu. by apply vget_lt_is_Some, rn_dst_lt. Qed.

Lemma rn_slot_lt : isSlotSig (oi_sig (info op)) = true -> i_imm x < vlen (f_locals f).
Proof.
  intros Hu. pose proof (rn_locals _ _ _ _ _ _ H).
  pose proof (wi_slot _ _ _ (si_wf _ _ _ _ (rn_ins _ _ _ _ _ _ H)) Hu). lia.
Qed.

Lemma rn_waiting : canFallThrough op = true -> waiting p f.
Proof.
  intros Hc. pose proof (rn_fetch _ _ _ _ _ _ H) as Hx. split.
  - exists id. split_and!; [apply H|apply H|apply H|]. right. by eapply vget_Some_lt.
  - exists id, x, op. split_and!; [apply H|done|apply (rn_ins _ _ _ _ _ _ H)|done].
Qed.

Lemma running_with_rt rt : keeps (it_rt s) rt -> running k (with_rt s rt) f id x op.
Proof. intros Hk. destruct H. split; try done. by apply inv_with_rt. Qed.

Lemma running_same s' : it_rt s' = it_rt s -> it_frames s' = it_frames s -> running k s' f id x op.
Proof.
  intros H1 H2. destruct H as [H3 H4 ?????]. split; try done; [|by rewrite H2].
  unfold InterpInv.inv. by rewrite H1, H2.
Qed.

Lemma running_stat c : running k (stat cfg c s) f id x op.
Proof. apply running_same; [apply it_rt_stat|apply it_frames_stat]. Qed.

Lemma trap_fine cls msg : good k (trap p cfg cls msg s).
Proof. apply trap_good; [done|]. apply H. Qed.

(** The frame after it wrote registers or locals and moved to [pc]. *)
Lemma go_on_good f' :
  f_method f' = f_method f -> f_monitors f' = f_monitors f ->
  vlen (f_regs f) <= vlen (f_regs f') -> vlen (f_locals f) <= vlen (f_locals f') ->
  f_pc f' < vlen (m_code (method p id)) -> good k (go_on f' s).
Proof.
  intros H1 H2 H3 H4 H5. destruct H as [[[Hr Hm] [Hl Hf]] [fs E] ?????].
  unfold go_on, set_top. rewrite E in *. cbn. split; cbn.
  - split; [done|]. rewrite held_cons in *. by rewrite H2.
  - destruct Hf as [_ Hfs]. split; [exact Hl|]. split; [|done].
    exists id. split_and!; [congruence|lia|lia|by right].
Qed.

Lemma advance_pc : canFallThrough op = true -> f_pc (advance f) = f_pc f + 1 /\
  f_pc f + 1 < vlen (m_code (method p id)).
Proof.
  intros Hc. pose proof (si_next _ _ _ _ (rn_ins _ _ _ _ _ _ H) Hc) as Hlt.
  pose proof (sm_size _ (sound_at p Haccepted id)) as Hsz. cbn. rewrite u32_small; [done|].
  unfold fits32. lia.
Qed.

Lemma advance_good f' :
  canFallThrough op = true -> f_pc f' = f_pc f ->
  f_method f' = f_method f -> f_monitors f' = f_monitors f ->
  vlen (f_regs f) <= vlen (f_regs f') -> vlen (f_locals f) <= vlen (f_locals f') ->
  good k (go_on (advance f') s).
Proof.
  intros Hc Hpc ????. destruct (advance_pc Hc) as [E Hlt]. apply go_on_good; try done.
  change (u32 (f_pc f' + 1) < vlen (m_code (method p id))). rewrite Hpc.
  change (f_pc (advance f) < vlen (m_code (method p id))). by rewrite E.
Qed.

Lemma write_dst_good v :
  canFallThrough op = true -> uses_dst op = true -> good k (write_dst x v f s).
Proof.
  intros Hc Hd. unfold write_dst, rset. rewrite (proj2 (N.ltb_lt _ _)) by (by apply rn_dst_lt).
  cbn. apply advance_good; try done. cbn. by rewrite vlen_vset.
Qed.

Lemma jump_good t : t < vlen (m_code (method p id)) -> good k (jump p t f s).
Proof.
  intros Ht. unfold jump. destruct (t <? f_pc f).
  - rewrite rn_index. cbn [mbind option_bind].
    destruct H as [[[Hr Hm] [Hl Hf]] [fs E] ?????]. unfold go_on, set_top. cbn [it_frames with_rt].
    rewrite E in *. cbn. destruct Hf as [_ Hfs]. split; cbn.
    + apply (runtime_ok_keeps _ _ (it_rt s)); [apply keeps_bumpBackedge|by split].
    + split; [exact Hl|]. split; [|done]. exists id. split_and!; [done|done|done|by right].
  - by apply go_on_good.
Qed.

Lemma with_init_fine c body :
  canFallThrough op = true -> good k (body s) -> good k (with_init p cfg c s body).
Proof.
  intros Hc Hb. destruct (rn_top _ _ _ _ _ _ H) as [fs E].
  eapply with_init_good; try done; [by apply rn_waiting|apply H].
Qed.

Lemma pushCall_fine t :
  canFallThrough op = true -> good_flag p cfg k (pushCall p cfg x t s).
Proof.
  intros Hc. destruct (rn_top _ _ _ _ _ _ H) as [fs E].
  eapply pushCall_good; try done; [by apply rn_waiting|apply H].
Qed.

Lemma call_good t mIdx site kind recv :
  canFallThrough op = true -> good k (call p cfg x t mIdx site kind recv s).
Proof.
  intros Hc. unfold call. pose proof (pushCall_fine t Hc) as Hp.
  destruct (pushCall p cfg x t s) as [[[] s']|]; cbn in *; try done.
Qed.
End Facts.

(** Reads of the operands that instruction [x] of state [H] declares. *)
Ltac operand H :=
  lazymatch goal with
  | |- context [top ?s] => rewrite (rn_it_top H)
  | |- context [frame_method p ?f] => rewrite (rn_frame_method H)
  | |- context [methodIndex p ?f] => rewrite (rn_index H)
  | |- context [rget ?f (i_a ?x)] =>
      let v := fresh "va" in let E := fresh in destruct (rn_a H) as [v E]; [done|rewrite E; clear E]
  | |- context [rget ?f (i_b ?x)] =>
      let v := fresh "vb" in let E := fresh in destruct (rn_b H) as [v E]; [done|rewrite E; clear E]
  | |- context [rget ?f (i_dst ?x)] =>
      let v := fresh "vd" in let E := fresh in destruct (rn_dst H) as [v E]; [done|rewrite E; clear E]
  | |- context [cp_at p ?f (i_imm ?x)] =>
      let c := fresh "c" in let E := fresh in let Hk := fresh "Hkind" in
      destruct (rn_cp H) as (c & E & Hk); [done|rewrite E; clear E]
  end; cbn [mbind option_bind].

Ltac operands H := repeat operand H.

Section Handlers.
Context {k s f id x op} (H : running k s f id x op).

(** ** Values *)

Lemma constant_good v : canFallThrough op = true -> uses_dst op = true -> good k (constant x v s).
Proof. intros. unfold constant. operands H. by eapply write_dst_good. Qed.

Lemma unary_good g :
  canFallThrough op = true -> uses_dst op = true -> uses_a op = true -> good k (unary x g s).
Proof. intros. unfold unary. operands H. by eapply write_dst_good. Qed.

Lemma binary_good g :
  canFallThrough op = true -> uses_dst op = true -> uses_a op = true -> uses_b op = true ->
  good k (binary x g s).
Proof. intros. unfold binary. operands H. by eapply write_dst_good. Qed.

Lemma divide_good get mk g :
  canFallThrough op = true -> uses_dst op = true -> uses_a op = true -> uses_b op = true ->
  good k (divide p cfg x get mk g s).
Proof.
  intros. unfold divide. operands H. destruct (_ =? _)%Z; [by eapply trap_fine|].
  by eapply write_dst_good.
Qed.

Lemma iinc_good : op = Op.Iinc -> good k (exec_int p cfg Op.Iinc x s).
Proof.
  intros Ho. assert (uses_dst op = true) by (by rewrite Ho). cbn. operands H.
  eapply write_dst_good; try done. by rewrite Ho.
Qed.

Lemma cp_constant_good (g : Const -> Value) :
  canFallThrough op = true -> uses_dst op = true -> usesCp op = true ->
  good k (f ← top s; c ← cp_at p f (i_imm x); constant x (g c) s).
Proof. intros. operands H. by apply constant_good. Qed.

Lemma load_good :
  canFallThrough op = true -> uses_dst op = true -> isSlotSig (oi_sig (info op)) = true ->
  good k (exec_load x s).
Proof.
  intros Hc Hd Hs. unfold exec_load. operands H.
  destruct (proj1 (vget_lt_is_Some (f_locals f) (i_imm x)) (rn_slot_lt H Hs)) as [v Hv].
  unfold lget. rewrite Hv. by eapply write_dst_good.
Qed.

Lemma store_good :
  canFallThrough op = true -> uses_a op = true -> isSlotSig (oi_sig (info op)) = true ->
  good k (exec_store x s).
Proof.
  intros Hc Ha Hs. unfold exec_store, lset. operands H.
  rewrite (proj2 (N.ltb_lt _ _)) by (by apply (rn_slot_lt H)). cbn.
  eapply advance_good; try done. cbn. by rewrite vlen_vset.
Qed.

(** ** Control *)

Lemma branch_good taken :
  canFallThrough op = true -> isBranchSig (oi_sig (info op)) = true -> good k (branch p taken x f s).
Proof.
  intros Hc Hb. unfold branch. destruct taken; [|by eapply advance_good].
  eapply jump_good; [done|]. apply (wi_branch _ _ _ (si_wf _ _ _ _ (rn_ins _ _ _ _ _ _ H)) Hb).
Qed.

Lemma goto_good : op = Op.Goto -> good k (exec_branch p Op.Goto x s).
Proof.
  intros Ho. cbn. operands H. eapply jump_good; [done|].
  apply (wi_branch _ _ _ (si_wf _ _ _ _ (rn_ins _ _ _ _ _ _ H))). by rewrite Ho.
Qed.

Lemma if_good test :
  canFallThrough op = true -> isBranchSig (oi_sig (info op)) = true -> uses_a op = true ->
  good k (exec_if p test x s).
Proof. intros. unfold exec_if. operands H. by apply branch_good. Qed.

Lemma if_cmp_good test :
  canFallThrough op = true -> isBranchSig (oi_sig (info op)) = true -> uses_a op = true ->
  uses_b op = true -> good k (exec_if_cmp p test x s).
Proof. intros. unfold exec_if_cmp. operands H. by apply branch_good. Qed.

Lemma target_at_in n v i :
  n < 4294967296 -> i < vlen v -> in_code n (int_at v i) ->
  exists t, target_at v i = Some t /\ t < n.
Proof.
  intros Hn [z Hz]%vget_lt_is_Some. unfold int_at, target_at. rewrite Hz. cbn. intros [H1 H2].
  eexists. split; [reflexivity|]. unfold uz32, uwrap. rewrite Z.mod_small; [done|].
  change (2 ^ 32)%Z with 4294967296%Z. lia.
Qed.

Lemma tableswitch_good : op = Op.Tableswitch -> good k (exec_tableswitch p x s).
Proof.
  intros Ho. pose proof (rn_ins _ _ _ _ _ _ H) as Hi. pose proof (si_op _ _ _ _ Hi) as Hop.
  destruct (si_switch _ _ _ _ Hi) as (c & Hc & Ht); [by rewrite Ho|].
  rewrite Ho in Hop. apply of_code_code in Hop. rewrite <- Hop, N.eqb_refl in Ht.
  destruct Ht as (H3 & Hlen & Hin). pose proof (sm_size _ (sound_at p Haccepted id)) as Hsz.
  assert (uses_a op = true) by (by rewrite Ho).
  unfold exec_tableswitch, cp_at. operands H. cbn [fmap option_fmap option_map mbind option_bind].
  rewrite Hc. cbn [mbind option_bind]. operands H. set (v := c_ints c) in *.
  assert (forall i, i < vlen v -> vget v i = Some (int_at v i)) as Hget.
  { intros i [z Hz]%vget_lt_is_Some. unfold int_at. by rewrite Hz. }
  rewrite (Hget 0), (Hget 1) by lia. cbn [mbind option_bind].
  destruct (target_at_in _ v 2 Hsz) as (d & -> & Hd); [lia|apply Hin; lia|]. cbn [mbind option_bind].
  destruct ((int_at v 0 <=? as_i va)%Z && (as_i va <=? int_at v 1)%Z) eqn:E; [|by eapply jump_good].
  apply andb_true_iff in E as [E1%Z.leb_le E2%Z.leb_le].
  destruct (target_at_in _ v (3 + Z.to_N (as_i va - int_at v 0)) Hsz) as (t & -> & Htl);
    [lia|apply Hin; lia|]. by eapply jump_good.
Qed.

Lemma lookup_pairs_in n v sel d pairs i :
  n < 4294967296 -> lookup_ok n v -> d < n -> i + N.of_nat pairs = Z.to_N (int_at v 0) ->
  exists t, lookup_pairs pairs i v sel d = Some t /\ t < n.
Proof.
  intros Hn (H2 & H0 & Hlen & _ & Hin) Hd. revert i. induction pairs as [|pairs IH]; intros i Hi;
    [by exists d|]. cbn [lookup_pairs].
  destruct (proj1 (vget_lt_is_Some v (2 + 2 * i))) as [z ->]; [lia|]. cbn [mbind option_bind].
  destruct (z =? sel)%Z; [|apply IH; lia].
  apply target_at_in; [done|lia|]. apply Hin. lia.
Qed.

Lemma lookupswitch_good : op = Op.Lookupswitch -> good k (exec_lookupswitch p x s).
Proof.
  intros Ho. pose proof (rn_ins _ _ _ _ _ _ H) as Hi. pose proof (si_op _ _ _ _ Hi) as Hop.
  destruct (si_switch _ _ _ _ Hi) as (c & Hc & Ht); [by rewrite Ho|].
  rewrite Ho in Hop. apply of_code_code in Hop. rewrite <- Hop in Ht. change (_ =? _) with false in Ht.
  pose proof Ht as (H2 & H0 & Hlen & H1 & _). pose proof (sm_size _ (sound_at p Haccepted id)) as Hsz.
  assert (uses_a op = true) by (by rewrite Ho).
  unfold exec_lookupswitch, cp_at. operands H. cbn [fmap option_fmap option_map mbind option_bind].
  rewrite Hc. cbn [mbind option_bind]. operands H. set (v := c_ints c) in *.
  destruct (target_at_in _ v 1 Hsz) as (d & -> & Hd); [lia|done|]. cbn [mbind option_bind].
  destruct (proj1 (vget_lt_is_Some v 0)) as [z Hz]; [lia|].
  assert (int_at v 0 = z) as Hv by (unfold int_at; by rewrite Hz). rewrite Hz. cbn [mbind option_bind].
  destruct (lookup_pairs_in _ v (as_i va) d (Z.to_nat z) 0 Hsz Ht Hd) as (t & -> & Htl); [lia|].
  by eapply jump_good.
Qed.

(** ** Constants of the pool and fields *)

Lemma keeps_destruct {A} (r : A * Runtime) rt :
  keeps rt (snd r) -> exists a rt', r = (a, rt') /\ keeps rt rt'.
Proof. destruct r as [a rt']. by exists a, rt'. Qed.

(** A service that returns a value and keeps the runtime. *)
Ltac service lem :=
  let a := fresh "r" in let rt := fresh "rt" in let E := fresh in let Hk := fresh "Hk" in
  destruct (keeps_destruct _ _ lem) as (a & rt & E & Hk); rewrite E; clear E.

Lemma ldc_good : op = Op.Ldc -> good k (exec_ldc p cfg x s).
Proof.
  intros Ho. assert (usesCp op = true) by (by rewrite Ho).
  assert (canFallThrough op = true) by (by rewrite Ho). assert (uses_dst op = true) by (by rewrite Ho).
  unfold exec_ldc. operands H. destruct (c_kind c); try by eapply trap_fine.
  - service (keeps_internString (it_rt s) (c_str c)).
    eapply write_dst_good; [by eapply running_with_rt|done..].
  - service (keeps_classId (it_rt s) (c_str c)). eapply with_init_fine; [by eapply running_with_rt|done|].
    service (keeps_classObject (it_rt (with_rt s rt)) r). cbn [it_rt with_rt] in *.
    eapply write_dst_good; [|done..]. eapply running_with_rt; [by eapply running_with_rt|done].
Qed.

Lemma field_slot_fine :
  usesCp op = true ->
  exists slot s', field_slot p cfg x f s = Some (slot, s') /\ running k s' f id x op.
Proof.
  intros Hu. unfold field_slot. operands H. destruct (ic_probe s id (f_pc f)) as [ic|].
  { eexists _, _. split; [reflexivity|]. by apply running_stat. }
  destruct (resolveField_ok (it_rt (stat cfg count_miss s)) c) as (rf & rt & -> & Hk).
  { rewrite it_rt_stat. apply (rn_inv _ _ _ _ _ _ H). }
  cbn [mbind option_bind].
  assert (running k (with_rt (stat cfg count_miss s) rt) f id x op) as Hr
    by (apply running_with_rt; [by apply running_stat|done]).
  destruct rf as [rf|]; (eexists _, _; split; [reflexivity|]); [|done]. by eapply running_same.
Qed.

Lemma load_field_fine r i : running k (snd (load_field r i s)) f id x op.
Proof.
  unfold load_field. pose proof (heap_keeps_loadField (heap_ (it_rt s)) r i) as Hk.
  destruct (loadField _ _ _) as [v h]. by apply (running_with_rt H), keeps_heap.
Qed.

Lemma store_field_fine r i v : running k (snd (store_field r i v s)) f id x op.
Proof.
  unfold store_field. pose proof (heap_keeps_storeField (heap_ (it_rt s)) r i v) as Hk.
  destruct (storeField _ _ _ _) as [ok h]. by apply (running_with_rt H), keeps_heap.
Qed.

Lemma resolve_fine c :
  exists rf rt, resolveField (it_rt s) c = Some (rf, rt) /\ running k (with_rt s rt) f id x op.
Proof.
  destruct (resolveField_ok (it_rt s) c) as (rf & rt & E & Hk); [apply (rn_inv _ _ _ _ _ _ H)|].
  exists rf, rt. split; [done|]. by apply running_with_rt.
Qed.

Lemma store_elem_good r i v : canFallThrough op = true -> good k (store_elem p cfg f r i v s).
Proof.
  intros Hc. unfold store_elem. pose proof (heap_keeps_storeElem (heap_ (it_rt s)) r (Z.to_N i) v) as Hk.
  destruct (storeElem _ _ _ _) as [ok h]. cbn in Hk.
  assert (running k (with_rt s (with_heap (it_rt s) h)) f id x op) as Hr
    by (apply running_with_rt; [done|by apply keeps_heap]).
  destruct ok; [by eapply advance_good|by eapply trap_fine].
Qed.

Lemma builtin_miss_record mIdx site kind recv target :
  running k (recordDispatch mIdx site kind recv target s) f id x op.
Proof. by eapply running_same. Qed.
End Handlers.

Section Handlers2.
Context {k s f id x op} (H : running k s f id x op).

Lemma default_field_good r :
  usesCp op = true -> canFallThrough op = true -> uses_dst op = true ->
  good k (default_field p cfg x r f s).
Proof.
  intros ? ? ?. unfold default_field. destruct (negb _); [by eapply trap_fine|]. operands H.
  destruct (resolve_fine H c) as (rf & rt & -> & Hr). cbn [mbind option_bind].
  destruct (bool_decide _); [by eapply trap_fine|by eapply write_dst_good].
Qed.

Lemma getfield_good :
  usesCp op = true -> canFallThrough op = true -> uses_dst op = true -> uses_a op = true ->
  good k (exec_getfield p cfg x s).
Proof.
  intros ? ? ? ?. unfold exec_getfield. operands H. destruct (isNull va); [by eapply trap_fine|].
  destruct (field_slot_fine H) as ([slot|] & s' & -> & Hr); [done| |]; cbn [mbind option_bind];
    [|by eapply trap_fine].
  pose proof (load_field_fine Hr (ref va) slot) as Hl. destruct (load_field _ _ _) as [v s2].
  cbn [snd] in Hl. destruct (has_type _ v); [|by eapply write_dst_good].
  unfold default_field. destruct (negb _); [by eapply trap_fine|]. operands Hl.
  destruct (resolve_fine Hl c) as (rf & rt & -> & Hr'). cbn [mbind option_bind].
  destruct (bool_decide _); [by eapply trap_fine|by eapply write_dst_good].
Qed.

Lemma putfield_good :
  usesCp op = true -> canFallThrough op = true -> uses_a op = true -> uses_b op = true ->
  good k (exec_putfield p cfg x s).
Proof.
  intros ? ? ? ?. unfold exec_putfield. operand H. operand H. destruct (isNull va); [by eapply trap_fine|].
  destruct (field_slot_fine H) as ([slot|] & s' & -> & Hr); [done| |]; cbn [mbind option_bind];
    [|by eapply trap_fine].
  operands H. pose proof (store_field_fine Hr (ref va) slot vb) as Hl.
  destruct (store_field _ _ _ _) as [ok s2]. cbn [snd] in Hl.
  destruct ok; [by eapply advance_good|by eapply trap_fine].
Qed.

Lemma getstatic_good :
  usesCp op = true -> canFallThrough op = true -> uses_dst op = true ->
  good k (exec_getstatic p cfg x s).
Proof.
  intros ? ? ?. unfold exec_getstatic. operands H.
  destruct (builtinStatic (it_rt s) c); [by eapply write_dst_good|].
  destruct (resolve_fine H c) as (rf & rt & -> & Hr). cbn [mbind option_bind].
  destruct rf as [rf|]; [|by eapply trap_fine]. eapply with_init_fine; [done|done|].
  destruct (has_type _ _); [|by eapply write_dst_good].
  destruct (bool_decide _); [by eapply trap_fine|by eapply write_dst_good].
Qed.

Lemma putstatic_good :
  usesCp op = true -> canFallThrough op = true -> uses_dst op = true ->
  good k (exec_putstatic p cfg x s).
Proof.
  intros ? ? ?. unfold exec_putstatic. operands H.
  destruct (builtinStatic (it_rt s) c); [by eapply trap_fine|].
  destruct (resolve_fine H c) as (rf & rt & -> & Hr). cbn [mbind option_bind].
  destruct rf as [rf|]; [|by eapply trap_fine]. eapply with_init_fine; [done|done|].
  eapply advance_good; try done. eapply running_with_rt; [done|apply keeps_storeStatic].
Qed.

Lemma getfield_quick_good :
  canFallThrough op = true -> uses_dst op = true -> uses_a op = true ->
  good k (exec_getfield_quick p cfg x s).
Proof.
  intros ? ? ?. unfold exec_getfield_quick. operands H. destruct (isNull va); [by eapply trap_fine|].
  pose proof (load_field_fine H (ref va) (slotOfFieldOffset (i_imm x))) as Hl.
  destruct (load_field _ _ _) as [v s2]. cbn [snd] in Hl.
  destruct (has_type _ v); [|by eapply write_dst_good]. by destruct (negb _); eapply trap_fine.
Qed.

Lemma putfield_quick_good :
  canFallThrough op = true -> uses_a op = true -> uses_b op = true ->
  good k (exec_putfield_quick p cfg x s).
Proof.
  intros ? ? ?. unfold exec_putfield_quick. operand H. operand H. destruct (isNull va); [by eapply trap_fine|].
  operands H. pose proof (store_field_fine H (ref va) (slotOfFieldOffset (i_imm x)) vb) as Hl.
  destruct (store_field _ _ _ _) as [ok s2]. cbn [snd] in Hl.
  destruct ok; [by eapply advance_good|by eapply trap_fine].
Qed.

(** ** Arrays *)

Lemma newarray_good :
  canFallThrough op = true -> uses_dst op = true -> uses_a op = true -> good k (exec_newarray p cfg x s).
Proof.
  intros ? ? ?. unfold exec_newarray. operands H. destruct (_ <? _)%Z; [by eapply trap_fine|].
  destruct (keeps_destruct _ _ (keeps_newArray (it_rt s) (i_imm x) (Z.to_N (as_i va)))) as (r & rt & -> & Hk).
  eapply write_dst_good; [by eapply running_with_rt|done..].
Qed.

Lemma anewarray_good :
  usesCp op = true -> canFallThrough op = true -> uses_dst op = true -> uses_a op = true ->
  good k (exec_anewarray p cfg x s).
Proof.
  intros ? ? ? ?. unfold exec_anewarray. operand H. operand H. destruct (_ <? _)%Z; [by eapply trap_fine|].
  operands H.
  destruct (keeps_destruct _ _ (keeps_classId (it_rt s) (c_str c))) as (cls & rt & -> & Hk).
  destruct (keeps_destruct _ _ (keeps_newRefArray rt cls (Z.to_N (as_i va)))) as (r & rt' & -> & Hk').
  eapply write_dst_good; [|done..]. eapply running_with_rt; [done|by etrans].
Qed.

Lemma arraylength_good :
  canFallThrough op = true -> uses_dst op = true -> uses_a op = true ->
  good k (exec_arraylength p cfg x s).
Proof.
  intros ? ? ?. unfold exec_arraylength. operands H. destruct (isNull va); [by eapply trap_fine|].
  destruct (negb _); [by eapply trap_fine|by eapply write_dst_good].
Qed.

Lemma arrayLoad_good :
  canFallThrough op = true -> uses_dst op = true -> uses_a op = true -> uses_b op = true ->
  good k (arrayLoad p cfg x s).
Proof.
  intros ? ? ? ?. unfold arrayLoad. operand H. operand H. destruct (isNull va); [by eapply trap_fine|].
  operands H. destruct (out_of_bounds _ _); [by eapply trap_fine|].
  destruct (has_type _ _); [by eapply trap_fine|by eapply write_dst_good].
Qed.

Lemma arrayStore_good n :
  canFallThrough op = true -> uses_dst op = true -> uses_a op = true -> uses_b op = true ->
  good k (arrayStore p cfg n x s).
Proof.
  intros ? ? ? ?. unfold arrayStore. operand H. operand H. destruct (isNull va); [by eapply trap_fine|].
  operand H. destruct (out_of_bounds _ _); [by eapply trap_fine|]. operands H. by eapply store_elem_good.
Qed.

Lemma keeps_element_accepts rt name v : keeps rt (snd (element_accepts rt name v)).
Proof.
  unfold element_accepts. destruct (chars_of name) as [|c0 [|c1 rest]]; [done..|].
  destruct (_ && _); [|by destruct (_ && _)].
  match goal with |- context [classId ?a ?b] =>
    destruct (keeps_destruct _ _ (keeps_classId a b)) as (cls & rt' & -> & Hk) end.
  done.
Qed.

Lemma aastore_good :
  canFallThrough op = true -> uses_dst op = true -> uses_a op = true -> uses_b op = true ->
  good k (exec_aastore p cfg x s).
Proof.
  intros ? ? ? ?. unfold exec_aastore. operand H. operand H. destruct (isNull va); [by eapply trap_fine|].
  operand H. destruct (out_of_bounds _ _); [by eapply trap_fine|]. operands H.
  destruct (isNull vd); [by eapply store_elem_good|]. cbn zeta.
  match goal with |- context [element_accepts ?a ?b ?c] =>
    destruct (keeps_destruct _ _ (keeps_element_accepts a b c)) as (ok & rt' & -> & Hk) end.
  assert (running k (with_rt s rt') f id x op) as Hr by (by eapply running_with_rt).
  destruct ok as [[]|]; [by eapply store_elem_good|by eapply trap_fine..].
Qed.

Lemma multianewarray_good :
  usesCp op = true -> canFallThrough op = true -> uses_dst op = true ->
  good k (exec_multianewarray p cfg x s).
Proof.
  intros ? ? ?. unfold exec_multianewarray. operand H. destruct (_ =? _); [by eapply trap_fine|].
  destruct (_ <? _); [by eapply trap_fine|]. operands H. destruct (negb _); [by eapply trap_fine|].
  destruct (dimensions f _) as [dims|d]; [|by eapply trap_fine].
  destruct (keeps_destruct _ _ (keeps_classId (it_rt s) (c_str c))) as (cls & rt & -> & Hk).
  destruct (keeps_destruct _ _ (keeps_newMultiArray rt cls dims)) as (r & rt' & -> & Hk').
  eapply write_dst_good; [|done..]. eapply running_with_rt; [done|by etrans].
Qed.

(** ** Objects and monitors *)

Lemma new_good :
  usesCp op = true -> canFallThrough op = true -> uses_dst op = true -> good k (exec_new p cfg x s).
Proof.
  intros ? ? ?. unfold exec_new. operands H.
  destruct (keeps_destruct _ _ (keeps_classId (it_rt s) (c_str c))) as (cls & rt & -> & Hk).
  assert (running k (with_rt s rt) f id x op) as Hr by (by eapply running_with_rt).
  eapply with_init_fine; [done|done|].
  destruct (keeps_destruct _ _ (keeps_newInstance (it_rt (with_rt s rt)) cls)) as (r & rt' & -> & Hk').
  eapply write_dst_good; [by eapply running_with_rt|done..].
Qed.

Lemma checkcast_good :
  usesCp op = true -> canFallThrough op = true -> uses_dst op = true -> uses_a op = true ->
  good k (exec_checkcast p cfg x s).
Proof.
  intros ? ? ? ?. unfold exec_checkcast. operand H. operand H. destruct (isNull va); [by eapply write_dst_good|].
  operands H.
  destruct (keeps_destruct _ _ (keeps_classId (it_rt s) (c_str c))) as (cls & rt & -> & Hk).
  assert (running k (with_rt s rt) f id x op) as Hr by (by eapply running_with_rt). cbn zeta.
  destruct (isAssignableFrom _ _ _); [by eapply write_dst_good|by eapply trap_fine].
Qed.

Lemma instanceof_good :
  usesCp op = true -> canFallThrough op = true -> uses_dst op = true -> uses_a op = true ->
  good k (exec_instanceof p x s).
Proof.
  intros ? ? ? ?. unfold exec_instanceof. operand H. operand H. destruct (isNull va); [by eapply write_dst_good|].
  operands H.
  destruct (keeps_destruct _ _ (keeps_classId (it_rt s) (c_str c))) as (cls & rt & -> & Hk).
  eapply write_dst_good; [by eapply running_with_rt|done..].
Qed.

(** The state with heap [h] and the innermost frame moved on with monitors [ms]. *)
Lemma monitors_moved k' h ms :
  canFallThrough op = true ->
  (forall rest, monitors_ok k (f_monitors f ++ rest) (heap_ (it_rt s)) ->
     monitors_ok k' (ms ++ rest) h) ->
  good k' (go_on (advance (f_with_monitors f ms)) (with_rt s (with_heap (it_rt s) h))).
Proof.
  intros Hc Hm. destruct (advance_pc H Hc) as [Hpc Hlt].
  destruct H as [[[Hr Hmon] [Hl Hf]] [fs E] ?????]. unfold go_on, set_top. cbn [it_frames with_rt].
  rewrite E in *. destruct Hf as [_ Hfs]. split.
  - split; [exact Hr|]. by apply Hm.
  - split; [exact Hl|]. split; [|done]. exists id. split_and!; [done|done|done|right].
    change (f_pc (advance f) < vlen (m_code (method p id))). by rewrite Hpc.
Qed.

Lemma monitorenter_good : op = Op.Monitorenter -> good (k + 1) (exec_monitorenter p cfg x s).
Proof.
  intros Ho. assert (canFallThrough op = true) by (by rewrite Ho).
  assert (uses_a op = true) by (by rewrite Ho). unfold exec_monitorenter. operands H.
  assert (forall o, good k o -> good (k + 1) o) as Hmore by (intros o; apply good_more; lia).
  destruct (isNull va); [by eapply Hmore, trap_fine|].
  pose proof (monitorenter_fails (heap_ (it_rt s)) (ref va)) as Hfail.
  pose proof (fun ms => monitors_enter k ms (heap_ (it_rt s)) (ref va)) as Henter.
  destruct (monitorenter _ _) as [mf h]. cbn [fst snd] in *.
  destruct (decide (mf = MonFail.None)) as [-> | Hne].
  - apply monitors_moved; [done|]. intros rest Hm. by apply (Henter _ Hm).
  - specialize (Hfail Hne) as ->.
    assert (running k (with_rt s (with_heap (it_rt s) (heap_ (it_rt s)))) f id x op) as Hr
      by (by eapply running_with_rt, keeps_heap).
    destruct mf; [done|by eapply Hmore, trap_fine..].
Qed.

Lemma monitorexit_fails h r : fst (monitorexit h r) <> MonFail.None -> snd (monitorexit h r) = h.
Proof.
  unfold monitorexit. destruct (obj h r) as [o|]; [|done]. by destruct (_ || _).
Qed.

Lemma erase_first_occ r r' ms rest :
  occ r' (ms ++ rest) <= (if r' =? r then 1 else 0) + occ r' (erase_first r ms ++ rest).
Proof.
  induction ms as [|m ms IH]; cbn [erase_first app]; [lia|]. rewrite occ_cons.
  destruct (N.eqb_spec m r) as [->|]; [lia|]. cbn [app]. rewrite occ_cons. lia.
Qed.

Lemma erase_first_length r ms : vlen (erase_first r ms) <= vlen ms.
Proof. unfold vlen. induction ms as [|m ms IH]; cbn; [done|]. destruct (m =? r); cbn; lia. Qed.

Lemma monitorexit_good : op = Op.Monitorexit -> good k (exec_monitorexit p cfg x s).
Proof.
  intros Ho. assert (canFallThrough op = true) by (by rewrite Ho).
  assert (uses_a op = true) by (by rewrite Ho). unfold exec_monitorexit. operands H.
  destruct (isNull va); [by eapply trap_fine|].
  pose proof (monitorexit_fails (heap_ (it_rt s)) (ref va)) as Hfail.
  pose proof (fun ms ms' => monitors_exit k ms ms' (heap_ (it_rt s)) (ref va)) as Hexit.
  destruct (monitorexit _ _) as [mf h]. cbn [fst snd] in *.
  destruct (decide (mf = MonFail.None)) as [-> | Hne].
  - apply monitors_moved; [done|]. intros rest Hm.
    apply (Hexit (f_monitors f ++ rest)); [intros r'; apply erase_first_occ| |done].
    pose proof (mo_total _ _ _ Hm) as Ht. pose proof (erase_first_length (ref va) (f_monitors f)).
    rewrite !vlen_app in *. lia.
  - specialize (Hfail Hne) as ->.
    assert (running k (with_rt s (with_heap (it_rt s) (heap_ (it_rt s)))) f id x op) as Hr
      by (by eapply running_with_rt, keeps_heap).
    destruct mf; [done|by eapply trap_fine..].
Qed.

End Handlers2.

(** ** Calls *)

Section Calls.
Context {k : N} {f : Frame} {id : MethodId} {x : Ins} {op : Op}.

Lemma dispatch_miss_good s c recv mIdx site kind :
  running k s f id x op -> canFallThrough op = true ->
  good k (dispatch_miss p cfg x c recv f mIdx site kind s).
Proof.
  intros H Hc. unfold dispatch_miss. destruct (negb _).
  - match goal with |- context [execBuiltin ?a ?b ?c] =>
      destruct (keeps_destruct _ _ (keeps_execBuiltin a b c)) as (ok & rt & -> & Hk) end.
    assert (running k (with_rt s rt) f id x op) as Hr by (by eapply running_with_rt).
    destruct ok; cbn [negb]; [|by eapply trap_fine].
    eapply advance_good; try done. by eapply running_same.
  - destruct (resolveMethod p c) as [t|]; [|by eapply trap_fine].
    eapply call_good; [|done]. by eapply running_same.
Qed.

Context {s : Interp} (H : running k s f id x op).

Lemma invokevirtual_good kind :
  usesCp op = true -> canFallThrough op = true -> uses_a op = true ->
  good k (exec_invokevirtual p cfg kind x s).
Proof.
  intros ? ? ?. unfold exec_invokevirtual. operands H. destruct (isNull va); [by eapply trap_fine|].
  pose proof (fun c => running_stat H c) as Hr. destruct (ic_probe _ _ _) as [ic|].
  - by eapply call_good.
  - by eapply dispatch_miss_good.
Qed.

Lemma invokespecial_good :
  usesCp op = true -> canFallThrough op = true -> uses_a op = true ->
  good k (exec_invokespecial p cfg x s).
Proof.
  intros ? ? ?. unfold exec_invokespecial. operands H. destruct (isNull va); [by eapply trap_fine|].
  destruct (resolveMethod p c); [by eapply call_good|by eapply trap_fine].
Qed.

Lemma invokestatic_good :
  usesCp op = true -> canFallThrough op = true -> good k (exec_invokestatic p cfg x s).
Proof.
  intros ? ?. unfold exec_invokestatic. operands H.
  destruct (resolveMethod p c); [|by eapply trap_fine].
  eapply with_init_fine; [done..|]. by eapply call_good.
Qed.

Lemma invokevirtual_quick_good kind :
  canFallThrough op = true -> uses_a op = true -> good k (exec_invokevirtual_quick p cfg kind x s).
Proof.
  intros ? ?. unfold exec_invokevirtual_quick. operands H.
  destruct (isNull va); [by eapply trap_fine|]. destruct (_ <=? _); [by eapply trap_fine|].
  pose proof (fun c => running_stat H c) as Hr.
  destruct (ic_probe _ _ _) as [ic|]; [by eapply call_good|].
  destruct (vget _ _) as [c|]; [|by eapply trap_fine]. destruct (negb _); [by eapply trap_fine|].
  by eapply dispatch_miss_good.
Qed.

Lemma invokespecial_quick_good :
  canFallThrough op = true -> uses_a op = true -> good k (exec_invokespecial_quick p cfg x s).
Proof.
  intros ? ?. unfold exec_invokespecial_quick. operands H. destruct (isNull va); [by eapply trap_fine|].
  destruct (_ <=? _); [by eapply trap_fine|by eapply call_good].
Qed.

Lemma invokestatic_quick_good :
  canFallThrough op = true -> good k (exec_invokestatic_quick p cfg x s).
Proof.
  intros ?. unfold exec_invokestatic_quick. operands H. destruct (_ <=? _); [by eapply trap_fine|].
  eapply with_init_fine; [done..|]. by eapply call_good.
Qed.

(** ** Returns *)

Lemma resume_caller_ok isVoid m v caller :
  waiting p caller ->
  exists c', resume_caller p isVoid m v caller = Some c' /\ frame_ok p c' /\
    f_monitors c' = f_monitors caller.
Proof.
  intros [(cid & Hm & Hr & Hl & Hpc) (cid' & y & op' & Hm' & Hy & Hop & Hc)].
  assert (cid' = cid) as -> by congruence. unfold resume_caller.
  destruct (sm_ins _ (sound_at p Haccepted cid) _ _ Hy) as (op2 & Hi).
  assert (op2 = op') as -> by (pose proof (si_op _ _ _ _ Hi); congruence).
  pose proof (si_next _ _ _ _ Hi Hc) as Hnext. pose proof (sm_size _ (sound_at p Haccepted cid)) as Hsz.
  assert (exists c1, (if negb isVoid && negb (bool_decide (parseReturn (m_descriptor m) = RType.Bottom))
    then cm ← frame_method p caller; site ← vget (m_code cm) (f_pc caller);
         Some (if i_dst site <? vlen (f_regs caller)
               then f_with_regs caller (vset (f_regs caller) (i_dst site) v) else caller)
    else Some caller) = Some c1 /\ f_method c1 = f_method caller /\ f_pc c1 = f_pc caller /\
    vlen (f_regs c1) = vlen (f_regs caller) /\ f_locals c1 = f_locals caller /\
    f_monitors c1 = f_monitors caller) as (c1 & -> & E1 & E2 & E3 & E4 & E5).
  { destruct (_ && _); [|by exists caller]. unfold frame_method. rewrite Hm. cbn. rewrite Hy. cbn.
    eexists. split; [reflexivity|]. destruct (_ <? _); [|done]. cbn. by rewrite vlen_vset. }
  cbn [mbind option_bind]. eexists. split; [reflexivity|].
  assert (frame_ok p c1 /\ frame_ok p (advance c1)) as [G1 G2].
  { split; exists cid; cbn; rewrite ?E1, ?E2, ?E3, ?E4; split_and!; try done. right.
    rewrite u32_small; [done|]. unfold fits32. lia. }
  by destruct (is_clinit m).
Qed.

Lemma return_good isVoid :
  uses_a op = negb isVoid -> good k (exec_return p isVoid x s).
Proof.
  intros Ha. unfold exec_return. rewrite (rn_it_top H). cbn [mbind option_bind]. operands H.
  assert (exists v, (if isVoid then Some bottom else rget f (i_a x)) = Some v) as [v ->].
  { destruct isVoid; [by eexists|]. by apply (rn_a H). }
  cbn [mbind option_bind it_frames with_rt].
  destruct H as [[[Hr Hmon] [Hl Hf]] [fs E] ?????]. rewrite E in *. cbn [tail].
  pose proof (monitors_release k f fs (it_rt s) Hmon) as Hrel. destruct Hf as [_ Hfs].
  destruct fs as [|caller rest].
  - by split.
  - inversion Hfs as [|? ? Hw Hrest]; subst.
    destruct (resume_caller_ok isVoid (method p id) v caller Hw) as (c' & -> & Hc' & Hmc).
    cbn. split; cbn.
    + split; [exact Hr|]. rewrite held_cons in *. by rewrite Hmc.
    + split; [|done]. unfold vlen in *. cbn [length] in *. lia.
Qed.

Lemma nop_good : canFallThrough op = true -> good k (exec_nop s).
Proof. intros. unfold exec_nop. operands H. by eapply advance_good. Qed.

Lemma athrow_good : uses_a op = true -> good k (exec_athrow p cfg x s).
Proof.
  intros. unfold exec_athrow. operands H. destruct (isNull va); [by eapply trap_fine|].
  apply thrown_good, throwException_good; [done|]. apply H.
Qed.
End Calls.

Lemma poll_good k s f id x op :
  running k s f id x op -> canFallThrough op = true -> good k (exec_poll p cfg s).
Proof.
  intros H Hc. unfold exec_poll. eapply nop_good; [|done]. pose proof (running_stat H count_poll).
  destruct (cf_traceSafepoints cfg); [by eapply running_same|done].
Qed.

(** ** The step *)

(** The lemma of the handler the goal runs. *)
Ltac handler :=
  lazymatch goal with
  | |- context [exec_nop] => by eapply nop_good
  | |- context [exec_poll] => by eapply poll_good
  | |- context [exec_ldc] => by eapply ldc_good
  | |- context [exec_load] => by eapply load_good
  | |- context [exec_store] => by eapply store_good
  | |- context [constant] => first [by eapply constant_good | by eapply cp_constant_good]
  | |- context [unary] => by eapply unary_good
  | |- context [exec_convert] => by eapply unary_good
  | |- context [exec_move] => by eapply unary_good
  | |- context [binary] => by eapply binary_good
  | |- context [divide] => by eapply divide_good
  | |- context [exec_if] => by eapply if_good
  | |- context [exec_if_cmp] => by eapply if_cmp_good
  | |- context [jump] => by eapply goto_good
  | |- context [exec_tableswitch] => by eapply tableswitch_good
  | |- context [exec_lookupswitch] => by eapply lookupswitch_good
  | |- context [exec_getfield] => by eapply getfield_good
  | |- context [exec_putfield] => by eapply putfield_good
  | |- context [exec_getstatic] => by eapply getstatic_good
  | |- context [exec_putstatic] => by eapply putstatic_good
  | |- context [exec_getfield_quick] => by eapply getfield_quick_good
  | |- context [exec_putfield_quick] => by eapply putfield_quick_good
  | |- context [exec_newarray] => by eapply newarray_good
  | |- context [exec_anewarray] => by eapply anewarray_good
  | |- context [exec_arraylength] => by eapply arraylength_good
  | |- context [arrayLoad] => by eapply arrayLoad_good
  | |- context [arrayStore] => by eapply arrayStore_good
  | |- context [exec_aastore] => by eapply aastore_good
  | |- context [exec_multianewarray] => by eapply multianewarray_good
  | |- context [exec_new] => by eapply new_good
  | |- context [exec_checkcast] => by eapply checkcast_good
  | |- context [exec_instanceof] => by eapply instanceof_good
  | |- context [exec_monitorexit] => by eapply monitorexit_good
  | |- context [exec_invokevirtual] => by eapply invokevirtual_good
  | |- context [exec_invokespecial] => by eapply invokespecial_good
  | |- context [exec_invokestatic] => by eapply invokestatic_good
  | |- context [exec_invokevirtual_quick] => by eapply invokevirtual_quick_good
  | |- context [exec_invokespecial_quick] => by eapply invokespecial_quick_good
  | |- context [exec_invokestatic_quick] => by eapply invokestatic_quick_good
  | |- context [exec_return] => by eapply return_good
  | |- context [exec_athrow] => by eapply athrow_good
  | |- _ => first [by eapply trap_fine | by eapply iinc_good]
  end.

Lemma dispatch_good k s f id x op :
  running k s f id x op -> good (k + 1) (dispatch p cfg op x s).
Proof.
  intros H. destruct (decide (op = Op.Monitorenter)) as [-> | Hne];
    [by eapply monitorenter_good|].
  apply (good_more _ _ k); [lia|].
  destruct op; try done; cbn [dispatch exec_const exec_move exec_int exec_long exec_float exec_double
    exec_compare exec_branch]; handler.
Qed.

Lemma step_good k s : inv k s -> good (k + 1) (step p cfg s).
Proof.
  intros Hs. pose proof Hs as [_ [_ Hfs]]. unfold step, top.
  destruct (it_frames s) as [|f fs] eqn:E; [done|]. cbn [mbind option_bind].
  destruct Hfs as [(id & Hm & Hr & Hl & Hpc) _]. unfold frame_method. rewrite Hm.
  cbn [fmap option_fmap option_map mbind option_bind].
  destruct (vget (m_code (method p id)) (f_pc f)) as [x|] eqn:Hx.
  2: { apply (good_more _ _ k); [lia|]. by apply trap_good. }
  destruct (sm_ins _ (sound_at p Haccepted id) _ _ Hx) as (op & Hi). rewrite (si_op _ _ _ _ Hi).
  apply (dispatch_good k _ f id). split; try done.
  - by apply inv_stat.
  - rewrite it_frames_stat. eauto.
Qed.

(** ** Runs *)

(** A run of [fuel] instructions has defined behaviour, and records at most [fuel]
    more monitors. *)
Definition sound_ending (k : N) (e : ending) : Prop :=
  match e with
  | Undefined => False
  | OutOfFuel s => inv k s
  | Halted _ s => ended k s
  end.

Lemma sound_more k k' e : k <= k' -> sound_ending k e -> sound_ending k' e.
Proof.
  intros Hk. destruct e as [|s|st s]; [done|by apply inv_more|].
  intros [? ?]. split; [done|by eapply runtime_ok_more].
Qed.

Lemma loop_sound fuel k s : inv k s -> sound_ending (k + N.of_nat fuel) (loop p cfg fuel s).
Proof.
  revert k s. induction fuel as [|fuel IH]; intros k s Hs; cbn [loop].
  { by replace (k + N.of_nat 0) with k by lia. }
  pose proof (step_good k s Hs) as Hg. destruct (step p cfg s) as [[s'|st s']|]; [| |done].
  - replace (k + N.of_nat (S fuel)) with (k + 1 + N.of_nat fuel) by lia. by apply IH.
  - apply (sound_more (k + 1)); [lia|done].
Qed.

(** The pending exception of the innermost frame is not part of the invariant. *)
Lemma inv_pending k s f fs r :
  inv k s -> it_frames s = f :: fs -> inv k (with_frames s (f_with_pending f r :: fs)).
Proof.
  intros [[Hr Hm] [Hl Hf]] E. rewrite E in *. split; [by split|]. split; [exact Hl|].
  destruct Hf as [(id & ? & ? & ? & ?) ?]. split; [|done]. by exists id.
Qed.

Lemma dispatchLoop_sound fuel k s :
  inv k s -> sound_ending (k + N.of_nat fuel) (dispatchLoop p cfg fuel s).
Proof.
  intros Hs. unfold dispatchLoop.
  assert (inv k (with_rt s (snd (classId (it_rt s) (p_className p))))) as Hs1
    by (apply inv_with_rt; [apply keeps_classId|done]).
  set (s1 := with_rt s _) in *. clearbody s1. clear Hs s.
  destruct (it_frames s1) as [|f fs] eqn:E; [by apply loop_sound|].
  destruct (valid _); [|by apply loop_sound].
  pose proof (throwException_good p cfg Haccepted k (f_pendingException f) _ (inv_pending k s1 f fs 0 Hs1 E))
    as Ht. destruct (throwException p cfg _ _) as [[[] s']|]; [by apply loop_sound| |done].
  apply (sound_more k); [lia|done].
Qed.
End Safe.

(** ** Entry points *)

(** A runtime between two runs: the registry refers to classes that exist and every
    monitor is free. *)
Definition quiescent (rt : Runtime) : Prop := registry_ok rt /\ all_free (heap_ rt).

Lemma quiescent_runtime_ok rt : quiescent rt -> runtime_ok 0 [] rt.
Proof. intros [H1 H2]. split; [done|]. by apply all_free_ok. Qed.

Lemma verify_all_accepted vfuel p : verify_all vfuel (p_methods p) = Some None -> accepted p.
Proof.
  unfold accepted. induction (p_methods p) as [|m ms IH]; [by intros _ m ?%elem_of_nil|].
  cbn [verify_all]. destruct (verify vfuel m) as [r|] eqn:E; [|done]. cbn [mbind option_bind].
  destruct (vr_ok r) eqn:Hok; cbn [negb]; [|done]. intros H.
  intros m' [->|Hin]%elem_of_cons; [by eapply accepted_sound|by apply IH].
Qed.

Section Entry.
Context (p : Program) (cfg : InterpConfig).

Lemma finish_sound k e : sound_ending p cfg k e -> sound_ending p cfg k (finish e).
Proof. by destruct e. Qed.

Lemma fail_early_sound k cls msg s :
  it_frames s = [] -> runtime_ok k [] (it_rt s) -> sound_ending p cfg k (fail_early cfg cls msg s).
Proof.
  intros Hf Hr. unfold fail_early, construct.
  destruct (makeException_ok (it_rt s) cls msg) as (exc & rt & -> & Hk); [apply Hr|].
  cbn [mbind option_bind]. split.
  - by rewrite it_frames_stat.
  - rewrite it_rt_stat. cbn. by eapply runtime_ok_keeps.
Qed.

Lemma keeps_frames_take rt l :
  quiescent rt -> fst (monitorenter (heap_ rt) l) = MonFail.None ->
  runtime_ok 1 [mkFrame None 0 [] [] [l] 0 0] (with_heap rt (snd (monitorenter (heap_ rt) l))).
Proof.
  intros [H1 H2] He. split; [done|]. cbn. apply (monitors_enter 0); [by apply all_free_ok|done].
Qed.

(** The entry lock: nothing is held when it traps, the lock when it does not. *)
Lemma entry_lock_ok m args s :
  quiescent (it_rt s) -> it_frames s = [] ->
  let '(lock, s') := entry_lock p m args s in
  it_frames s' = [] /\ registry_ok (it_rt s') /\
  monitors_ok 1 (match lock with inl r => [r] | inr _ => [] end) (heap_ (it_rt s')).
Proof.
  intros Hq Hf. unfold entry_lock.
  assert (forall rt l, quiescent rt ->
    let '(lock, s') := (let '(mf, h) := monitorenter (heap_ rt) l in
      if bool_decide (mf = MonFail.None) then (@inl ObjRef string l, with_rt s (with_heap rt h))
      else (inr kClsIllegalMonitor, with_rt s (with_heap rt h))) in
    it_frames s' = [] /\ registry_ok (it_rt s') /\
    monitors_ok 1 (match lock with inl r => [r] | inr _ => [] end) (heap_ (it_rt s'))) as Htake.
  { intros rt l [Hr Ha]. pose proof (monitors_enter 0 [] (heap_ rt) l (all_free_ok _ Ha)) as H1.
    pose proof (monitorenter_fails (heap_ rt) l) as H2. destruct (monitorenter _ _) as [mf h].
    cbn [fst snd] in *. case_bool_decide as Hm; cbn; split_and!; try done; [by apply H1|].
    rewrite (H2 Hm). apply (monitors_more 0); [lia|]. by apply all_free_ok. }
  assert (monitors_ok 1 [] (heap_ (it_rt s))) as Hfree
    by (apply (monitors_more 0); [lia|]; apply all_free_ok, Hq).
  destruct (isStatic m).
  - pose proof (keeps_classId (it_rt s) (p_className p)) as K1.
    destruct (classId (it_rt s) (p_className p)) as [cls rt1].
    pose proof (keeps_classObject rt1 cls) as K2. destruct (classObject rt1 cls) as [lock rt2].
    cbn [snd] in *. apply (Htake rt2 lock). destruct Hq as [Q1 Q2]. split; [by apply K2, K1|].
    intros r. by rewrite (ke_monitors _ _ K2), (ke_monitors _ _ K1).
  - destruct args as [|recv args]; [split_and!; [done|apply Hq|done]|].
    destruct (isNull recv); [split_and!; [done|apply Hq|done]|].
    apply (Htake (it_rt s) (ref recv)). exact Hq.
Qed.

(** Any state of a runtime between runs, as the entry points leave it. *)
Lemma enter_sound fuel id args s :
  accepted p -> clinit_ok p -> quiescent (it_rt s) ->
  sound_ending p cfg (1 + N.of_nat fuel) (enter p cfg fuel id (method p id) args s).
Proof.
  intros Ha Hc Hq. unfold enter.
  pose proof (entry_lock_ok (method p id) args (with_frames s []) Hq eq_refl) as Hlock.
  set (pick := if isSynchronized (method p id) then _ else _).
  assert (let '(l, s') := pick in it_frames s' = [] /\ registry_ok (it_rt s') /\
    monitors_ok 1 (match l with inl ms => ms | inr _ => [] end) (heap_ (it_rt s'))) as Hpick.
  { unfold pick. destruct (isSynchronized _).
    - destruct (entry_lock _ _ _ _) as [[l|l] s']; done.
    - split_and!; [done|apply Hq|]. apply (monitors_more 0); [lia|]. apply all_free_ok, Hq. }
  clearbody pick. clear Hlock. destruct pick as [[ms|cls] s'], Hpick as (Hf & Hr & Hm).
  - apply dispatchLoop_sound; [done|done|].
    apply inv_with_rt; [apply keeps_bumpInvocations|]. unfold push_frame. cbn. rewrite Hf. split.
    + split; [done|]. cbn. rewrite app_nil_r. exact Hm.
    + split; [unfold vlen; cbn; lia|]. split; [|done]. apply frame_ok_entry, pad_length.
  - apply fail_early_sound; [done|]. split; [done|]. apply (monitors_more 1); [lia|done].
Qed.

Lemma run_sound vfuel fuel name desc args s e :
  clinit_ok p -> quiescent (it_rt s) -> run p cfg vfuel fuel name desc args s = Some e ->
  match e with
  | Undefined => False
  | OutOfFuel s' => inv p cfg (1 + N.of_nat fuel) s'
  | Halted _ s' => runtime_ok (1 + N.of_nat fuel) [] (it_rt s')
  end.
Proof.
  intros Hc Hq. unfold run. destruct (verify_all vfuel (p_methods p)) as [[ds|]|] eqn:Hv;
    cbn [mbind option_bind]; [| |done].
  { intros [= <-]. cbn. apply (runtime_ok_more 0); [lia|]. by apply quiescent_runtime_ok. }
  pose proof (verify_all_accepted _ _ Hv) as Ha.
  assert (forall cls msg, exists st s', fail_early cfg cls msg (with_out s newResult) = Halted st s' /\
    runtime_ok 0 [] (it_rt s')) as Hfail.
  { intros cls msg. unfold fail_early, construct.
    destruct (makeException_ok (it_rt s) cls msg) as (exc & rt & E & Hk); [apply Hq|].
    cbn [it_rt with_out]. rewrite E. cbn [mbind option_bind]. eexists _, _. split; [reflexivity|].
    rewrite it_rt_stat. eapply runtime_ok_keeps; [exact Hk|]. by apply quiescent_runtime_ok. }
  destruct (method_index p name desc) as [id|].
  - destruct (_ <? _).
    + match goal with |- context [fail_early cfg ?c ?m _] => destruct (Hfail c m) as (st & s' & -> & Hr) end.
      intros [= <-]. cbn. apply (runtime_ok_more 0); [lia|done].
    + intros [= <-]. pose proof (enter_sound fuel id args (with_out s newResult) Ha Hc Hq) as He.
      destruct (enter _ _ _ _ _ _ _) as [|s'|st s']; cbn in *; try done. by destruct He.
  - match goal with |- context [fail_early cfg ?c ?m _] => destruct (Hfail c m) as (st & s' & -> & Hr) end.
    intros [= <-]. cbn. apply (runtime_ok_more 0); [lia|done].
Qed.
End Entry.
