(* ===== verification/InterpRun.v ===== *)
(** * Runs of accepted programs

    The consequences of InterpSafe for whole runs: no run of the interpreter leaves
    defined behaviour, its frames stay within the configured depth and within their
    methods, and whatever way it ends it leaves no monitor taken. *)

From Stdlib Require Import Ascii String SpecFloat.
From S2P Require Import Prelude RbcOpcode Rbc RbcVerifier RbcSound Machine ConstFold.
From S2P Require Import Heap JavaString Runtime Frame Interp Dispatch RuntimeInv InterpInv InterpSafe.

Local Open Scope N_scope.

Lemma quiescent_new p : quiescent (newRuntime p).
Proof. exact (newRuntime_ok p). Qed.

(** ** Concrete programs *)

Definition public_static : N := N.lor method_flags.Public method_flags.Static.

Definition class_const (name : string) : Const := mkConst Kind.Class 0 0 0 0 name "" "" [].
Definition method_const (cls name desc : string) : Const :=
  mkConst Kind.MethodRef 0 0 0 0 cls name desc [].
Definition field_const (cls name desc : string) : Const :=
  mkConst Kind.FieldRef 0 0 0 0 cls name desc [].

Definition default_config : InterpConfig := mkConfig 1024 false true.

(** [static int f(int n)]: enters the monitor of a fresh object twice, divides by
    the argument, and leaves it once; the division may throw. *)
Definition locking : Method :=
  mkMethod "f" "(I)I" public_static 3 1
    [ins Op.New 0 0 0 0; ins Op.Monitorenter 0 0 0 0; ins Op.Monitorenter 0 0 0 0;
     ins Op.Iload 1 0 0 0; ins Op.Iconst 2 0 0 12; ins Op.Idiv 2 2 1 0;
     ins Op.Monitorexit 0 0 0 0; ins Op.Ireturn 0 2 0 0]
    [class_const "T"] [].

Definition locking_program : Program := mkProgram "T" [locking].

(** How the runs below end. *)
Definition halts (e : option ending) : bool :=
  match e with Some (Halted _ _) => true | _ => false end.
Definition goes_on_running (e : option ending) : bool :=
  match e with Some (OutOfFuel _) => true | _ => false end.

Abbreviation locking_run := (run locking_program default_config 100 100 "f" "(I)I" [intVal 0]
  (newInterp locking_program)).

Lemma locking_run_halts : halts locking_run = true.
Proof. vm_compute. reflexivity. Qed.

(** C8: a run has defined behaviour, in a program without a class initialiser or whose
    method 0 declares no locals. Whatever its methods, the arguments and the number of
    instructions, from any runtime between two runs (a consistent class table and no
    monitor held) the interpreter never reads or writes outside a register file, a local
    array, a constant pool, the code, the frame stack, the class table or the method
    table: programs that the verifier refuses do not start, and for accepted ones its
    structural checks are enough. The hypothesis on the initialiser is needed:
    [clinit_locals_undefined] is an accepted program whose run is undefined. *)
Theorem run_memory_safe p cfg vfuel fuel name desc args s e :
  clinit_ok p -> quiescent (it_rt s) -> run p cfg vfuel fuel name desc args s = Some e ->
  e <> Undefined.
Proof. intros Hc Hq Hr ->. exact (run_sound p cfg _ _ _ _ _ _ _ Hc Hq Hr). Qed.

(** The division by zero runs to its exception. *)
Lemma run_memory_safe_witness :
  exists e, locking_run = Some e /\ e <> Undefined.
Proof.
  pose proof locking_run_halts as H. destruct locking_run as [e|] eqn:E; [|discriminate H].
  exists e. split; [reflexivity|].
  apply (run_memory_safe locking_program default_config 100 100 "f" "(I)I" [intVal 0]
    (newInterp locking_program) e); [exact I|apply quiescent_new|exact E].
Defined.

(** C9: no run leaks a monitor, in a program without a class initialiser or whose method
    0 declares no locals. When a run of fewer than 2^32 - 1 instructions (so that no
    entry count wraps) that started with all monitors free ends, by a return, by an
    exception that no frame catches or before its first instruction, every monitor of
    the heap is free again, also when methods entered monitors that they did not leave;
    and the runtime is one a next run may start from. *)
Theorem run_releases_monitors p cfg vfuel fuel name desc args s st s' :
  clinit_ok p -> quiescent (it_rt s) -> N.of_nat fuel < 4294967295 ->
  run p cfg vfuel fuel name desc args s = Some (Halted st s') -> quiescent (it_rt s').
Proof.
  intros Hc Hq Hf Hr. destruct (run_sound p cfg _ _ _ _ _ _ _ Hc Hq Hr) as [H1 H2].
  split; [exact H1|]. eapply monitors_all_free; [|exact H2]. lia.
Qed.

Lemma run_releases_monitors_witness :
  exists st s', locking_run = Some (Halted st s') /\ quiescent (it_rt s').
Proof.
  pose proof locking_run_halts as H.
  destruct locking_run as [[|s'|st s']|] eqn:E; [discriminate H..| |discriminate H].
  exists st, s'. split; [reflexivity|].
  apply (run_releases_monitors locking_program default_config 100 100 "f" "(I)I" [intVal 0]
    (newInterp locking_program) st s'); [exact I|apply quiescent_new|reflexivity|exact E].
Defined.

(** C11: the frame stack is bounded and well formed, in a program without a class
    initialiser or whose method 0 declares no locals. At every point of a run that goes
    on (the state in which it runs out of its number of instructions) there is one
    frame at least and [maxFrames] at most (one when [maxFrames] is 0: the entry frame
    is not counted against it); each frame runs a method of the table with the registers and locals it declares,
    at a pc in its code; and the frames below the innermost one are at instructions
    they can move past when their callee returns. *)
Theorem run_frames_bounded p cfg vfuel fuel name desc args s s' :
  clinit_ok p -> quiescent (it_rt s) ->
  run p cfg vfuel fuel name desc args s = Some (OutOfFuel s') ->
  1 <= vlen (it_frames s') <= N.max 1 (cf_maxFrames cfg) /\
  Forall (frame_ok p) (it_frames s') /\ Forall (waiting p) (tail (it_frames s')).
Proof.
  intros Hc Hq Hr. pose proof (run_sound p cfg _ _ _ _ _ _ _ Hc Hq Hr) as [_ Hf].
  split; [|by eapply frames_ok_all]. destruct Hf as [Hl Hne]. split; [|done].
  destruct (it_frames s'); [done|]. unfold vlen. cbn [length]. lia.
Qed.

(** [static int f(int n)] that calls itself without end. *)
Definition recursing_program : Program := mkProgram "T" [
  mkMethod "f" "(I)I" public_static 2 1
    [ins Op.Iload 0 0 0 0; ins Op.Invokestatic 1 0 1 0; ins Op.Ireturn 0 1 0 0]
    [method_const "T" "f" "(I)I"] []].

Abbreviation recursing_run := (run recursing_program (mkConfig 20 false true) 100 30 "f" "(I)I" [intVal 7]
  (newInterp recursing_program)).

Lemma recursing_run_goes_on : goes_on_running recursing_run = true.
Proof. vm_compute. reflexivity. Qed.

(** After 30 instructions with room for 20 frames. *)
Lemma run_frames_bounded_witness :
  exists s', recursing_run = Some (OutOfFuel s') /\ 1 <= vlen (it_frames s') <= N.max 1 20.
Proof.
  pose proof recursing_run_goes_on as H.
  destruct recursing_run as [[|s'|st s']|] eqn:E; [discriminate H| |discriminate H..].
  exists s'. split; [reflexivity|].
  exact (proj1 (run_frames_bounded recursing_program (mkConfig 20 false true) 100 30 "f" "(I)I" [intVal 7]
    (newInterp recursing_program) s' I (quiescent_new _) E)).
Defined.

(** ** Resumed frames *)

(** C25: deoptimisation may enter the interpreter with any frame. In an accepted program
    without a class initialiser or whose method 0 declares no locals, from a consistent
    class table, with k entries of monitors held, all of them by the frame, and k plus
    the number of instructions below 2^32, a frame whose method is not in the table or whose pc is not in the code is refused
    and nothing is released; any other frame, with too few registers or locals too,
    runs with defined behaviour, and when the run ends every monitor is free, those
    the frame held included. *)
Theorem resume_memory_safe p cfg vfuel fuel k f s e :
  clinit_ok p -> registry_ok (it_rt s) -> monitors_ok k (f_monitors f) (heap_ (it_rt s)) ->
  k + N.of_nat fuel < 4294967296 -> verify_all vfuel (p_methods p) = Some None ->
  resume p cfg vfuel fuel f s = Some e ->
  match e with
  | Undefined => False
  | OutOfFuel _ => True
  | Halted _ s' =>
      if method_in_range p f && (f_pc f <? vlen (m_code (method p (default 0 (f_method f)))))
      then quiescent (it_rt s')
      else monitors_ok k (f_monitors f) (heap_ (it_rt s'))
  end.
Proof.
  intros Hc Hreg Hmon Hk Hv. unfold resume. rewrite Hv. cbn [mbind option_bind].
  pose proof (verify_all_accepted _ _ Hv) as Ha. intros [= <-]. cbn zeta.
  rewrite N.leb_antisym, <- negb_andb.
  destruct (_ && _) eqn:E; cbn [negb].
  - apply andb_true_iff in E as [E1 E2%N.ltb_lt]. unfold method_in_range in E1.
    destruct (f_method f) as [id|] eqn:Hm; [|done]. cbn [default] in *.
    set (f' := f_with_regs _ _).
    assert (inv p cfg k (with_frames (with_out s newResult) [f'])) as Hinv.
    { split; cbn.
      - split; [done|]. unfold held. cbn. by rewrite app_nil_r.
      - split; [unfold vlen; cbn; lia|]. split; [|done]. exists id.
        split_and!; [done|apply pad_length|apply pad_length|by right]. }
    pose proof (dispatchLoop_sound p cfg Ha Hc fuel k _ Hinv) as Hs.
    destruct (dispatchLoop _ _ _ _) as [|s'|st s']; [done|done|]. cbn [finish].
    destruct Hs as [_ [H1 H2]]. split; [exact H1|]. by eapply monitors_all_free.
  - unfold fail_early, construct. cbn [it_rt with_out].
    destruct (makeException_ok (it_rt s) kClsInternalError "resume frame does not match the program")
      as (exc & rt & -> & Hkp); [done|]. cbn. rewrite it_rt_stat. cbn.
    exact (monitors_keeps _ _ _ _ (ke_monitors _ _ Hkp) Hmon).
Qed.

(** [locking] resumed at its return, with one monitor held and no registers. *)
Definition resumed_frame : Frame := mkFrame (Some 0) 7 [] [] [1] 0 0.

Definition with_monitor (r : ObjRef) (s : Interp) : Interp :=
  with_rt s (with_heap (it_rt s) (snd (monitorenter (heap_ (it_rt s)) r))).

Definition resumed_interp : Interp := with_monitor 1 (newInterp locking_program).

Lemma with_monitor_ok r s :
  quiescent (it_rt s) -> fst (monitorenter (heap_ (it_rt s)) r) = MonFail.None ->
  registry_ok (it_rt (with_monitor r s)) /\ monitors_ok 1 [r] (heap_ (it_rt (with_monitor r s))).
Proof.
  intros [H1 H2] He. split; [exact H1|]. apply (monitors_enter 0 []); [by apply all_free_ok|exact He].
Qed.

Abbreviation resumed_run := (resume locking_program default_config 100 10 resumed_frame resumed_interp).

Lemma resumed_run_halts : halts resumed_run = true.
Proof. vm_compute. reflexivity. Qed.

Lemma resumed_monitors :
  registry_ok (it_rt resumed_interp) /\
  monitors_ok 1 (f_monitors resumed_frame) (heap_ (it_rt resumed_interp)).
Proof.
  apply with_monitor_ok; [exact (quiescent_new locking_program)|]. vm_compute. reflexivity.
Qed.

Lemma locking_verifies : verify_all 100 (p_methods locking_program) = Some None.
Proof. vm_compute. reflexivity. Qed.

Lemma resume_memory_safe_witness :
  exists st s', resumed_run = Some (Halted st s') /\ quiescent (it_rt s').
Proof.
  pose proof resumed_run_halts as H.
  destruct resumed_run as [[|s'|st s']|] eqn:E; [discriminate H..| |discriminate H].
  exists st, s'. split; [reflexivity|].
  exact (resume_memory_safe locking_program default_config 100 10 1 resumed_frame resumed_interp
    (Halted st s') I (proj1 resumed_monitors) (proj2 resumed_monitors) eq_refl locking_verifies E).
Defined.
