(* ===== verification/InterpArith.v ===== *)
(** * The interpreter computes the Java operators

    Each arithmetic, comparison and conversion handler against the node kind that
    compiler/passes/src/GraphBuilder.cpp lowers its opcode to: the interpreter
    writes a value of the Java operator of that kind, in the range of its type. So
    the interpreter and the constant evaluators of the optimiser agree wherever the
    evaluators fold. *)

From Stdlib Require Import SpecFloat.
From S2P Require Import Prelude IRTypes Effect NodeInfo Machine JavaSem ConstFold.
From S2P Require Import RbcOpcode Rbc RbcVerifier Heap JavaString Runtime Frame Interp Dispatch.

Local Open Scope Z_scope.

(** ** What an opcode is lowered to *)

(** The two-operand cases of [Builder::lowerInstruction]. *)
Definition lowered_bin (op : Op) : option NodeKind :=
  match op with
  | Op.Iadd => Some NodeKind.AddI | Op.Isub => Some NodeKind.SubI | Op.Imul => Some NodeKind.MulI
  | Op.Idiv => Some NodeKind.DivI | Op.Irem => Some NodeKind.RemI
  | Op.Ishl => Some NodeKind.ShlI | Op.Ishr => Some NodeKind.ShrI | Op.Iushr => Some NodeKind.UShrI
  | Op.Iand => Some NodeKind.AndI | Op.Ior => Some NodeKind.OrI | Op.Ixor => Some NodeKind.XorI
  | Op.Ladd => Some NodeKind.AddL | Op.Lsub => Some NodeKind.SubL | Op.Lmul => Some NodeKind.MulL
  | Op.Ldiv => Some NodeKind.DivL | Op.Lrem => Some NodeKind.RemL
  | Op.Lshl => Some NodeKind.ShlL | Op.Lshr => Some NodeKind.ShrL | Op.Lushr => Some NodeKind.UShrL
  | Op.Land => Some NodeKind.AndL | Op.Lor => Some NodeKind.OrL | Op.Lxor => Some NodeKind.XorL
  | Op.Fadd => Some NodeKind.AddF | Op.Fsub => Some NodeKind.SubF | Op.Fmul => Some NodeKind.MulF
  | Op.Fdiv => Some NodeKind.DivF | Op.Frem => Some NodeKind.RemF
  | Op.Dadd => Some NodeKind.AddD | Op.Dsub => Some NodeKind.SubD | Op.Dmul => Some NodeKind.MulD
  | Op.Ddiv => Some NodeKind.DivD | Op.Drem => Some NodeKind.RemD
  | Op.Icmp => Some NodeKind.CmpI | Op.Lcmp => Some NodeKind.CmpL
  | Op.Fcmpl => Some NodeKind.CmpFl | Op.Fcmpg => Some NodeKind.CmpFg
  | Op.Dcmpl => Some NodeKind.CmpDl | Op.Dcmpg => Some NodeKind.CmpDg
  | _ => None
  end.

(** The one-operand cases. *)
Definition lowered_un (op : Op) : option NodeKind :=
  match op with
  | Op.Ineg => Some NodeKind.NegI | Op.Lneg => Some NodeKind.NegL
  | Op.Fneg => Some NodeKind.NegF | Op.Dneg => Some NodeKind.NegD
  | Op.I2l => Some NodeKind.I2L | Op.I2f => Some NodeKind.I2F | Op.I2d => Some NodeKind.I2D
  | Op.L2i => Some NodeKind.L2I | Op.L2f => Some NodeKind.L2F | Op.L2d => Some NodeKind.L2D
  | Op.F2i => Some NodeKind.F2I | Op.F2l => Some NodeKind.F2L | Op.F2d => Some NodeKind.F2D
  | Op.D2i => Some NodeKind.D2I | Op.D2l => Some NodeKind.D2L | Op.D2f => Some NodeKind.D2F
  | Op.I2b => Some NodeKind.I2B | Op.I2c => Some NodeKind.I2C | Op.I2s => Some NodeKind.I2S
  | _ => None
  end.

(** ** Values *)

(** The value a slot holds, by its tag. *)
Definition jval_of (v : Value) : option jval :=
  match v_type v with
  | RType.Int => Some (JI (as_i v))
  | RType.Long => Some (JL (as_l v))
  | RType.Float => Some (JF (as_f v))
  | RType.Double => Some (JD (as_d v))
  | RType.Ref => Some (JRef (Some (ref v)))
  | RType.Null => Some (JRef None)
  | RType.Bottom => None
  end.

Lemma jval_of_inv v j :
  jval_of v = Some j ->
  match j with
  | JI z => z = as_i v
  | JL z => z = as_l v
  | JF z => z = as_f v
  | JD z => z = as_d v
  | _ => True
  end /\ jval_ok j.
Proof.
  unfold jval_of. destruct (v_type v); try done; intros [= <-]; (split; [done|]); cbn [jval_ok]; try done.
  - by apply wrap_range.
  - by apply wrap_range.
  - by apply uwrap_range.
  - by apply uwrap_range.
Qed.

Lemma jval_int z : in_signed 32 z -> jval_of (intVal z) = Some (JI z).
Proof. intros H. unfold jval_of, intVal, as_i. cbn. by rewrite wrap_uwrap, wrap_small. Qed.

Lemma jval_long z : in_signed 64 z -> jval_of (longVal z) = Some (JL z).
Proof. intros H. unfold jval_of, longVal, as_l. cbn. by rewrite wrap_uwrap, wrap_small. Qed.

Lemma uwrap_small w z : 0 <= z < 2 ^ w -> uwrap w z = z.
Proof. apply Z.mod_small. Qed.

Lemma jval_float z : 0 <= z < 2 ^ 32 -> jval_of (floatVal z) = Some (JF z).
Proof. intros H. unfold jval_of, floatVal, as_f. cbn. by rewrite !(uwrap_small 32 z H). Qed.

Lemma jval_double z : 0 <= z < 2 ^ 64 -> jval_of (doubleVal z) = Some (JD z).
Proof. intros H. unfold jval_of, doubleVal, as_d. cbn. by rewrite !(uwrap_small 64 z H). Qed.

Lemma float_bits r : 0 <= fToBits r < 2 ^ 32.
Proof. apply (encode_range binary32). by left. Qed.
Lemma double_bits r : 0 <= dToBits r < 2 ^ 64.
Proof. apply (encode_range binary64). by right. Qed.

(** ** The numeric kernels *)

(** The int kernel of an opcode, and the long one: the interpreter's side of
    [foldIntBin] and [foldLongBin]. *)
Definition int_kernel (op : Op) : option (Z -> Z -> Z) :=
  match op with
  | Op.Iadd => Some wrapAdd32 | Op.Isub => Some wrapSub32 | Op.Imul => Some wrapMul32
  | Op.Idiv => Some (div_int INT32_MIN) | Op.Irem => Some (rem_int INT32_MIN)
  | Op.Ishl => Some shl32 | Op.Ishr => Some shr32 | Op.Iushr => Some ushr32
  | Op.Iand => Some Z.land | Op.Ior => Some Z.lor | Op.Ixor => Some Z.lxor
  | Op.Icmp => Some threeWay
  | _ => None
  end.

Definition long_kernel (op : Op) : option (Z -> Z -> Z) :=
  match op with
  | Op.Ladd => Some wrapAdd64 | Op.Lsub => Some wrapSub64 | Op.Lmul => Some wrapMul64
  | Op.Ldiv => Some (div_int INT64_MIN) | Op.Lrem => Some (rem_int INT64_MIN)
  | Op.Land => Some Z.land | Op.Lor => Some Z.lor | Op.Lxor => Some Z.lxor
  | Op.Lcmp => Some threeWay
  | _ => None
  end.

Lemma int_kernel_fold op k g a b :
  lowered_bin op = Some k -> int_kernel op = Some g -> (division k = true -> b <> 0) ->
  foldIntBin k a b = Some (g a b).
Proof.
  intros Hk Hg Hb. destruct op; try discriminate Hg; injection Hk as <-; injection Hg as <-;
    cbn [foldIntBin]; unfold wrapAdd32, wrapSub32, wrapMul32, shl32, shr32, ushr32;
    rewrite ?wrap_add, ?wrap_sub, ?wrap_mul; try reflexivity;
    by destruct (Z.eqb_spec b 0) as [->|]; [exfalso; by apply Hb|].
Qed.

Lemma long_kernel_fold op k g a b :
  lowered_bin op = Some k -> long_kernel op = Some g -> (division k = true -> b <> 0) ->
  foldLongBin k a b = Some (g a b) /\ ConstFold.long_shift k = false.
Proof.
  intros Hk Hg Hb. destruct op; try discriminate Hg; injection Hk as <-; injection Hg as <-;
    (split; [|reflexivity]); cbn [foldLongBin]; try reflexivity;
    by destruct (Z.eqb_spec b 0) as [->|]; [exfalso; by apply Hb|].
Qed.

Lemma toInt32Sat_narrow v : toInt32Sat v = narrow 32 v.
Proof.
  rewrite <- (fpToInt64_narrow v false). unfold toInt32Sat, fpToInt64.
  destruct (is_nan v) eqn:Hn; [done|]. destruct (is_inf v) eqn:Hi.
  { destruct v as [|s| |]; try done. by destruct s. }
  destruct (finite_fraction v Hn Hi) as (A & P & HP & Ht & Hc).
  unfold fge, fle, fgt, flt. rewrite !Hc, Ht. unfold INT32_MAX, INT32_MIN.
  pose proof (quot_bounds A P 2147483647 HP) as (Q5 & Q6 & _).
  pose proof (quot_bounds A P 2147483648 HP) as (_ & _ & Q7).
  cbn [negb andb].
  destruct (Z.compare_spec A (2147483648 * P)); destruct (Z.compare_spec A (-2147483648 * P));
    destruct (Z.compare_spec A (9223372036854775808 * P));
    destruct (Z.compare_spec A (-9223372036854775808 * P));
    destruct (Z.compare_spec A (2147483647 * P)); lia.
Qed.

Lemma toInt64Sat_narrow v : toInt64Sat v = narrow 64 v.
Proof.
  rewrite <- (fpToInt64_narrow v true). unfold toInt64Sat, fpToInt64.
  destruct (is_nan v) eqn:Hn; [done|]. destruct (is_inf v) eqn:Hi.
  { destruct v as [|s| |]; try done. by destruct s. }
  destruct (finite_fraction v Hn Hi) as (A & P & HP & Ht & Hc).
  unfold fge, fle, fgt, flt. rewrite !Hc, Ht. unfold INT64_MAX, INT64_MIN.
  pose proof (quot_bounds A P (-9223372036854775808) HP) as (Q3 & Q4 & _).
  cbn [negb andb].
  destruct (Z.compare_spec A (9223372036854775808 * P));
    destruct (Z.compare_spec A (-9223372036854775808 * P)); lia.
Qed.

(** ** The handlers *)

Section Handlers.
Context (p : Program) (cfg : InterpConfig) (s : Interp) (f : Frame) (x : Ins).
Hypothesis Htop : top s = Some f.

Lemma unary_run g a : rget f (i_a x) = Some a -> unary x g s = write_dst x (g a) f s.
Proof. intros Ha. unfold unary. by rewrite Htop; cbn; rewrite Ha. Qed.

Lemma binary_run g a b :
  rget f (i_a x) = Some a -> rget f (i_b x) = Some b -> binary x g s = write_dst x (g a b) f s.
Proof. intros Ha Hb. unfold binary. by rewrite Htop; cbn; rewrite Ha; cbn; rewrite Hb. Qed.

Lemma divide_run get mk g a b :
  rget f (i_a x) = Some a -> rget f (i_b x) = Some b -> get b <> 0 ->
  divide p cfg x get mk g s = write_dst x (mk (g (get a) (get b))) f s.
Proof.
  intros Ha Hb Hne. unfold divide. rewrite Htop; cbn; rewrite Ha; cbn; rewrite Hb; cbn.
  by rewrite (proj2 (Z.eqb_neq _ _)).
Qed.

(** The result a handler writes, and the Java value it stands for. *)
Definition writes_java (o : option outcome) (J : jval -> Prop) : Prop :=
  exists v j, o = write_dst x v f s /\ jval_of v = Some j /\ J j /\ jval_ok j.

Lemma int_handler op k g a b va vb :
  lowered_bin op = Some k -> int_kernel op = Some g -> in_signed 32 va -> in_signed 32 vb ->
  (division k = true -> vb <> 0) -> va = as_i a -> vb = as_i b ->
  writes_java (write_dst x (int_op g a b) f s) (java_bin k (JI va) (JI vb)).
Proof.
  intros Hk Hg Ra Rb Hd -> ->.
  destruct (foldIntBin_sound k _ _ _ Ra Rb (int_kernel_fold op k g _ _ Hk Hg Hd)) as [Hj Hr].
  exists (int_op g a b), (JI (g (as_i a) (as_i b))). split_and!; try done. by apply jval_int.
Qed.

Lemma long_handler op k g a b va vb :
  lowered_bin op = Some k -> long_kernel op = Some g -> in_signed 64 va -> in_signed 64 vb ->
  (division k = true -> vb <> 0) -> va = as_l a -> vb = as_l b ->
  writes_java (write_dst x (if kind_eqb k NodeKind.CmpL
                            then intVal (g (as_l a) (as_l b)) else long_op g a b) f s)
    (java_bin k (JL va) (JL vb)).
Proof.
  intros Hk Hg Ra Rb Hd -> ->.
  destruct (long_kernel_fold op k g (as_l a) _ Hk Hg Hd) as [Hfold Hno].
  destruct (foldLongBin_sound k _ _ _ Ra Rb Hfold Hno) as [Hj Hr].
  destruct (kind_eqb k NodeKind.CmpL).
  - eexists _, (JI (g (as_l a) (as_l b))). split_and!; try done. by apply jval_int.
  - eexists _, (JL (g (as_l a) (as_l b))). split_and!; try done. by apply jval_long.
Qed.

Lemma long_shift_handler op k g a b :
  lowered_bin op = Some k ->
  (op, k, g) = (Op.Lshl, NodeKind.ShlL, shl64) \/ (op, k, g) = (Op.Lshr, NodeKind.ShrL, shr64) \/
  (op, k, g) = (Op.Lushr, NodeKind.UShrL, ushr64) ->
  writes_java (write_dst x (long_shift g a b) f s) (java_bin k (JL (as_l a)) (JI (as_i b))).
Proof.
  intros Hk Hg. unfold long_shift.
  assert (in_signed 64 (as_l a)) as Ra by (by apply wrap_range).
  assert (Z.land (uz32 (as_i b)) kLongShiftMask = as_i b mod 64 /\ 0 <= as_i b mod 64 < 64) as [Hc Hr].
  { split; [|apply Z.mod_pos_bound; lia]. change kLongShiftMask with (Z.ones 6).
    rewrite land_mask by lia. unfold uwrap. apply Z.mod_mod_divide. by exists (2 ^ 26). }
  assert (in_signed 64 (g (as_l a) (as_i b)) /\
    java_bin k (JL (as_l a)) (JI (as_i b)) (JL (g (as_l a) (as_i b)))) as [Hok Hj].
  { destruct Hg as [[= -> -> ->]|[[= -> -> ->]|[= -> -> ->]]]; cbn [java_bin];
      unfold shl64, shr64, ushr64; rewrite Hc.
    - rewrite wrap_shl by lia. split; [by apply wrap_range|done].
    - split; [apply in_signed_shiftr; [done|lia|done]|]. by rewrite Z.shiftr_div_pow2 by lia.
    - split; [by apply wrap_range|]. by rewrite Z.shiftr_div_pow2 by lia. }
  eexists _, _. split_and!; [reflexivity|by apply jval_long|done|done].
Qed.

Lemma float_handler k g a b :
  java_bin k (JF (as_f a)) (JF (as_f b)) = (fun v => match v with
    JF z => ieee binary32 (g (d32 (as_f a)) (d32 (as_f b))) z | _ => False end) ->
  writes_java (write_dst x (float_op g a b) f s) (java_bin k (JF (as_f a)) (JF (as_f b))).
Proof.
  intros ->. unfold float_op. set (r := g _ _). eexists _, (JF (fToBits r)).
  split_and!; [reflexivity|apply jval_float, float_bits|apply ieee_encode; by left|apply float_bits..].
Qed.

Lemma double_handler k g a b :
  java_bin k (JD (as_d a)) (JD (as_d b)) = (fun v => match v with
    JD z => ieee binary64 (g (d64 (as_d a)) (d64 (as_d b))) z | _ => False end) ->
  writes_java (write_dst x (double_op g a b) f s) (java_bin k (JD (as_d a)) (JD (as_d b))).
Proof.
  intros ->. unfold double_op. set (r := g _ _). eexists _, (JD (dToBits r)).
  split_and!; [reflexivity|apply jval_double, double_bits|apply ieee_encode; by right|apply double_bits..].
Qed.

Lemma compare_handler J nan a b :
  -1 <= nan <= 1 -> (forall z, J (JI z) <-> z = fcmp nan a b) ->
  writes_java (write_dst x (intVal (cmpFP nan a b)) f s) J.
Proof.
  intros Hn HJ. rewrite cmpFP_fcmp. eexists _, (JI (fcmp nan a b)). split_and!; [reflexivity| |by apply HJ|].
  - by apply jval_int, fcmp_range.
  - by apply fcmp_range.
Qed.

(** The divisor is not zero. *)
Ltac nonzero Hz :=
  let E := fresh in intros E; apply Hz; [reflexivity|]; rewrite E; by (left + right).

Lemma bin_handler op k a b ja jb :
  lowered_bin op = Some k -> rget f (i_a x) = Some a -> rget f (i_b x) = Some b ->
  jval_of a = Some ja -> jval_of b = Some jb -> bin_typed k ja jb ->
  (division k = true -> ~ zero_val jb) ->
  writes_java (dispatch p cfg op x s) (java_bin k ja jb).
Proof.
  intros Hk Ha Hb Hja Hjb [r Hr] Hz.
  apply jval_of_inv in Hja as [Ea Oa]. apply jval_of_inv in Hjb as [Eb Ob].
  assert (exists o, o = op) as [o Ho] by eauto.
  destruct op; try discriminate Hk; injection Hk as <-;
    cbn [dispatch exec_int exec_long exec_float exec_double exec_compare];
    destruct ja as [za|za|za|za|ra|]; try done; destruct jb as [zb|zb|zb|zb|rb|]; try done;
    cbn [jval_ok] in *; rewrite ?(binary_run _ a b) by done;
    rewrite ?(divide_run _ _ _ a b) by (try done; rewrite <- Eb; nonzero Hz);
    lazymatch goal with
    | |- context [int_op] =>
        apply (int_handler o _ _ a b za zb); try (by rewrite Ho); try done; intros _; nonzero Hz
    | |- writes_java (write_dst x (intVal (?g (as_i a) (as_i b))) f s) _ =>
        change (intVal (g (as_i a) (as_i b))) with (int_op g a b);
        apply (int_handler o _ _ a b za zb); try (by rewrite Ho); try done; intros _; nonzero Hz
    | |- writes_java (write_dst x (long_op ?g a b) f s) (java_bin ?k _ _) =>
        apply (long_handler o k g a b za zb); try (by rewrite Ho); try done; intros _; nonzero Hz
    | |- writes_java (write_dst x (longVal (?g (as_l a) (as_l b))) f s) (java_bin ?k _ _) =>
        apply (long_handler o k g a b za zb); try (by rewrite Ho); try done; intros _; nonzero Hz
    | |- context [threeWay] =>
        apply (long_handler o NodeKind.CmpL threeWay a b za zb); try (by rewrite Ho); done
    | |- context [long_shift] => subst za zb; apply (long_shift_handler o); rewrite Ho; auto
    | |- context [float_op] => subst za zb; by apply float_handler
    | |- context [double_op] => subst za zb; by apply double_handler
    | |- _ => subst za zb; by apply compare_handler
    end.
Qed.

Lemma int_result J z :
  in_signed 32 z -> J (JI z) -> writes_java (write_dst x (intVal z) f s) J.
Proof. intros Hr HJ. exists (intVal z), (JI z). split_and!; try done. by apply jval_int. Qed.

Lemma long_result J z :
  in_signed 64 z -> J (JL z) -> writes_java (write_dst x (longVal z) f s) J.
Proof. intros Hr HJ. exists (longVal z), (JL z). split_and!; try done. by apply jval_long. Qed.

Lemma float_result J z :
  0 <= z < 2 ^ 32 -> J (JF z) -> writes_java (write_dst x (floatVal z) f s) J.
Proof. intros Hr HJ. exists (floatVal z), (JF z). split_and!; try done; [by apply jval_float|apply Hr..]. Qed.

Lemma double_result J z :
  0 <= z < 2 ^ 64 -> J (JD z) -> writes_java (write_dst x (doubleVal z) f s) J.
Proof. intros Hr HJ. exists (doubleVal z), (JD z). split_and!; try done; [by apply jval_double|apply Hr..]. Qed.

Lemma un_handler op k a ja :
  lowered_un op = Some k -> rget f (i_a x) = Some a -> jval_of a = Some ja -> un_typed k ja ->
  writes_java (dispatch p cfg op x s) (java_un k ja).
Proof.
  intros Hk Ha Hja [r Hr]. apply jval_of_inv in Hja as [Ea Oa].
  destruct op; try discriminate Hk; injection Hk as <-;
    cbn [dispatch exec_int exec_long exec_float exec_double]; unfold exec_convert;
    rewrite (unary_run _ a) by done; destruct ja as [za|za|za|za|ra|]; try done;
    cbn [jval_ok] in *; rewrite <- Ea; unfold neg32, neg64; rewrite ?wrap_neg, ?wrap_uwrap.
  all: first [apply int_result | apply long_result | apply float_result | apply double_result];
    rewrite ?toInt32Sat_narrow, ?toInt64Sat_narrow; cbn [java_un]; try reflexivity;
    try apply float_bits; try apply double_bits;
    try (by apply narrow_range); try (by apply wrap_range); try (by apply lxor_range);
    try (apply ieee_encode; by left); try (apply ieee_encode; by right).
  - by eapply (in_signed_mono 32).
  - apply wrap_eqm. unfold uwrap. apply Z.mod_mod_divide. by exists (2 ^ 32).
  - by apply wrap_in_signed.
  - by apply mod_in_signed.
  - by apply wrap_in_signed.
Qed.
End Handlers.

(** ** The theorems *)

(** C16: the two-operand instructions of the interpreter are the Java operators. With
    operands of the types of the node kind that the opcode is lowered to, an integer
    division or remainder by zero raises ArithmeticException and does nothing else; in
    every other case the handler writes to the destination a value that the Java
    operator of that kind has there, tagged with its type and in its range, and moves to
    the next instruction. Where the optimiser's evaluator folds constants of the same
    values, it folds them to that very value. *)
Theorem interp_bin_exact p cfg s f x op k a b ja jb :
  top s = Some f -> lowered_bin op = Some k ->
  rget f (i_a x) = Some a -> rget f (i_b x) = Some b ->
  jval_of a = Some ja -> jval_of b = Some jb -> bin_typed k ja jb ->
  (division k = true -> zero_val jb ->
   dispatch p cfg op x s = trap p cfg kClsArithmetic kMsgDivByZero s) /\
  (~ (division k = true /\ zero_val jb) ->
   exists v j, dispatch p cfg op x s = write_dst x v f s /\ jval_of v = Some j /\
     java_bin k ja jb j /\ jval_ok j /\
     forall ca cb c, cval ca = Some ja -> cval cb = Some jb -> evalBinOp k ca cb = Some c ->
       cval c = Some j).
Proof.
  intros Ht Hk Ha Hb Hja Hjb Htyped. split.
  - intros Hd Hz. apply jval_of_inv in Hjb as [Eb _]. destruct Htyped as [r Hr].
    destruct op; try discriminate Hk; injection Hk as <-; try discriminate Hd;
      cbn [dispatch exec_int exec_long]; unfold divide; rewrite Ht; cbn; rewrite Ha; cbn; rewrite Hb; cbn;
      destruct Hz as [-> | ->]; try (by destruct ja); by rewrite <- Eb.
  - intros Hno.
    destruct (bin_handler p cfg s f x Ht op k a b ja jb Hk Ha Hb Hja Hjb Htyped) as (v & j & Hv & Hj & HJ & Ho).
    { intros Hd Hz. by apply Hno. }
    exists v, j. split_and!; try done. intros ca cb c Hca Hcb Hc.
    apply jval_of_inv in Hja as [_ Oa]. apply jval_of_inv in Hjb as [_ Ob].
    destruct (evalBinOp_sound k ca cb c ja jb Hca Hcb Oa Ob Htyped Hc) as (vc & Hvc & _ & _).
    by rewrite (evalBinOp_unique k ca cb c ja jb vc j Hca Hcb Oa Ob Hc Hvc HJ).
Qed.

(** ** One state *)

Definition arith_program : Program :=
  mkProgram "T" [mkMethod "f" "()I" 9 3 0 [ins Op.Idiv 0 1 2 0; ins Op.Ireturn 0 0 0 0] [] []].

Definition arith_frame (a b : Value) : Frame := mkFrame (Some 0%N) 0 [] [bottom; a; b] [] 0 0.

Definition arith_state (a b : Value) : Interp :=
  mkInterp blankRuntime [arith_frame a b] [] [] newResult.

(** The most negative int divided by -1, as the evaluator folds it, and by 0. *)
Lemma interp_bin_exact_witness :
  (exists v, dispatch arith_program (mkConfig 10 false false) Op.Idiv (ins Op.Idiv 0 1 2 0)
      (arith_state (intVal (-2147483648)) (intVal (-1))) =
    write_dst (ins Op.Idiv 0 1 2 0) v (arith_frame (intVal (-2147483648)) (intVal (-1)))
      (arith_state (intVal (-2147483648)) (intVal (-1))) /\
    jval_of v = Some (JI (-2147483648))) /\
  dispatch arith_program (mkConfig 10 false false) Op.Idiv (ins Op.Idiv 0 1 2 0)
      (arith_state (intVal 5) (intVal 0)) =
    trap arith_program (mkConfig 10 false false) kClsArithmetic kMsgDivByZero
      (arith_state (intVal 5) (intVal 0)).
Proof.
  split.
  - destruct (interp_bin_exact arith_program (mkConfig 10 false false)
      (arith_state (intVal (-2147483648)) (intVal (-1)))
      (arith_frame (intVal (-2147483648)) (intVal (-1))) (ins Op.Idiv 0 1 2 0) Op.Idiv NodeKind.DivI
      (intVal (-2147483648)) (intVal (-1)) (JI (-2147483648)) (JI (-1))
      eq_refl eq_refl eq_refl eq_refl eq_refl eq_refl) as [_ H].
    + exists (JI (-2147483648)). intros _. reflexivity.
    + destruct H as (v & j & Hv & Hj & _ & _ & Hf); [intros [_ [Hz|Hz]]; discriminate|].
      exists v. split; [exact Hv|]. rewrite Hj. symmetry.
      exact (Hf (constOfI (-2147483648)) (constOfI (-1)) (constOfI (-2147483648)) eq_refl eq_refl eq_refl).
  - apply (interp_bin_exact arith_program (mkConfig 10 false false)
      (arith_state (intVal 5) (intVal 0)) (arith_frame (intVal 5) (intVal 0))
      (ins Op.Idiv 0 1 2 0) Op.Idiv NodeKind.DivI (intVal 5) (intVal 0) (JI 5) (JI 0)
      eq_refl eq_refl eq_refl eq_refl eq_refl eq_refl).
    + exists (JI 0). intros H. destruct H. reflexivity.
    + reflexivity.
    + left. reflexivity.
Defined.

(** C17: the negations and conversions of the interpreter are the Java operators of the
    node kinds they are lowered to: the result has the type and range of the kind,
    float to integer conversions saturate and send NaN to zero as the JLS does, and
    where the evaluator folds a constant of the same value it folds it to the value
    the interpreter writes. *)
Theorem interp_un_exact p cfg s f x op k a ja :
  top s = Some f -> lowered_un op = Some k -> rget f (i_a x) = Some a ->
  jval_of a = Some ja -> un_typed k ja ->
  exists v j, dispatch p cfg op x s = write_dst x v f s /\ jval_of v = Some j /\
    java_un k ja j /\ jval_ok j /\
    forall ca c, cval ca = Some ja -> evalUnaryOp k ca = Some c -> cval c = Some j.
Proof.
  intros Ht Hk Ha Hja Htyped.
  destruct (un_handler p cfg s f x Ht op k a ja Hk Ha Hja Htyped) as (v & j & Hv & Hj & HJ & Ho).
  exists v, j. split_and!; try done. intros ca c Hca Hc.
  apply jval_of_inv in Hja as [_ Oa].
  destruct (evalUnaryOp_sound k ca c ja Hca Oa Hc) as (vc & Hvc & _ & _).
  by rewrite (evalUnaryOp_unique k ca c ja vc j Hca Oa Hc Hvc HJ).
Qed.

(** 3e9 narrows to the largest int. *)
Lemma interp_un_exact_witness :
  exists v, dispatch arith_program (mkConfig 10 false false) Op.D2i (ins Op.D2i 0 1 0 0)
      (arith_state (doubleVal 0x41e65a0bc0000000) bottom) =
    write_dst (ins Op.D2i 0 1 0 0) v (arith_frame (doubleVal 0x41e65a0bc0000000) bottom)
      (arith_state (doubleVal 0x41e65a0bc0000000) bottom) /\
    jval_of v = Some (JI 2147483647).
Proof.
  destruct (interp_un_exact arith_program (mkConfig 10 false false)
    (arith_state (doubleVal 0x41e65a0bc0000000) bottom)
    (arith_frame (doubleVal 0x41e65a0bc0000000) bottom) (ins Op.D2i 0 1 0 0) Op.D2i NodeKind.D2I
    (doubleVal 0x41e65a0bc0000000) (JD 0x41e65a0bc0000000)
    eq_refl eq_refl eq_refl eq_refl) as (v & j & Hv & Hj & _ & _ & Hf).
  - exists (JI 2147483647). vm_compute. reflexivity.
  - exists v. split; [exact Hv|]. rewrite Hj. symmetry.
    apply (Hf (constOfD 0x41e65a0bc0000000) (constOfI 2147483647) eq_refl).
    vm_compute. reflexivity.
Defined.
