(* ===== verification/InterpExn.v ===== *)
(** * Assignability and exceptions

    The class hierarchy of the runtime is a tree that only grows, so assignability
    is the reflexive transitive closure of the superclass relation and does not
    change; and the exception algorithm finds the innermost frame with a handler
    that catches the class of the exception, the first such handler of its table. *)

From Stdlib Require Import Ascii String SpecFloat.
From S2P Require Import Prelude RbcOpcode Rbc RbcVerifier Machine ConstFold.
From S2P Require Import Heap JavaString Runtime Frame Interp Dispatch RuntimeInv InterpInv InterpSafe.
From S2P Require Import InterpRun.

Local Open Scope N_scope.

(** ** The class hierarchy *)

Abbreviation table := (list (string * ClassId)).

(** The superclass relation. *)
Definition parent (t : table) (c d : ClassId) : Prop := exists name, vget t c = Some (name, d).

(** A class is registered after its superclass; the root is its own. *)
Definition hierarchical (t : table) : Prop := forall c d, parent t c d -> d <= c.

Lemma class_table_get rt c :
  vget (class_table rt) c = (fun ci => (ci_name ci, ci_superclass ci)) <$> vget (classes_ rt) c.
Proof. apply vget_fmap. Qed.

Lemma class_table_length rt : vlen (class_table rt) = vlen (classes_ rt).
Proof. unfold vlen, class_table. by rewrite length_fmap. Qed.

Lemma parent_info rt c :
  c < vlen (classes_ rt) -> parent (class_table rt) c (ci_superclass (classInfo rt c)).
Proof.
  intros [ci Hc]%vget_lt_is_Some. exists (ci_name ci). rewrite class_table_get. unfold classInfo. by rewrite Hc.
Qed.

Lemma parent_fun t c d d' : parent t c d -> parent t c d' -> d = d'.
Proof. intros [? H] [? H']. congruence. Qed.

Lemma rtc_below t c d : hierarchical t -> rtc (parent t) c d -> d <= c.
Proof. intros H. induction 1 as [|a b c Hab _ IH]; [done|]. specialize (H a b Hab). lia. Qed.

Lemma hierarchical_grows t t' : table_grows t t' -> hierarchical t -> hierarchical t'.
Proof.
  intros (l & -> & Hl) H c d [name Hc]. rewrite vget_app in Hc. case_cmp.
  - apply (H c d). by exists name.
  - rewrite vget_lookup in Hc. apply list_elem_of_lookup_2 in Hc. rewrite Forall_forall in Hl.
    specialize (Hl _ Hc). cbn in Hl. lia.
Qed.

(** The walk of a chain: a guard larger than the class it starts from is enough. *)
Lemma chain_reaches_spec guard rt target cur :
  hierarchical (class_table rt) -> (N.to_nat cur < guard)%nat -> cur < vlen (classes_ rt) ->
  chain_reaches guard rt target cur = true <-> rtc (parent (class_table rt)) cur target.
Proof.
  intros Hh. revert cur. induction guard as [|guard IH]; intros cur Hg Hc; [lia|].
  cbn [chain_reaches]. destruct (N.eqb_spec cur target) as [->|Hne]; [by split|].
  pose proof (parent_info rt cur Hc) as Hp. pose proof (Hh _ _ Hp) as Hle.
  set (sup := ci_superclass (classInfo rt cur)) in *.
  assert (rtc (parent (class_table rt)) cur target <-> rtc (parent (class_table rt)) sup target) as Hstep.
  { split; [|intros; by eapply rtc_l]. intros Hr. inversion Hr as [|? y ? Hy Hr']; subst; [done|].
    by rewrite (parent_fun _ _ _ _ Hp Hy). }
  destruct (N.eqb_spec sup cur) as [He|Hs]; cbn [orb].
  { split; [done|]. rewrite He in Hp. intros Hr. exfalso. apply Hne.
    clear -Hr Hp. induction Hr as [|a b c Hab _ IH]; [done|].
    rewrite (parent_fun _ _ _ _ Hab Hp) in *. by apply IH. }
  rewrite (proj2 (N.leb_gt _ _)) by lia. rewrite Hstep. apply IH; lia.
Qed.

Definition array_class (rt : Runtime) (c : ClassId) : bool := isArrayName (ci_name (classInfo rt c)).

Lemma isAssignable_iff rt target value :
  hierarchical (class_table rt) -> target < vlen (classes_ rt) -> value < vlen (classes_ rt) ->
  isAssignableFrom rt target value = true <->
  if array_class rt target || array_class rt value then target = value
  else rtc (parent (class_table rt)) value target.
Proof.
  intros Hh Ht Hv. unfold isAssignableFrom, array_class.
  rewrite !(proj2 (N.leb_gt _ _)) by done. cbn [orb].
  destruct (_ || _); [apply N.eqb_eq|]. apply chain_reaches_spec; [done| |done]. unfold vlen in Hv. lia.
Qed.

(** C39: Assignability is subtyping. In a registry where every superclass comes before
    its subclasses, between two registered classes that are not arrays,
    [isAssignableFrom] decides whether the target is reached from the value's
    class along superclasses, itself included; the guard of its walk never cuts the
    chain. An array class is assignable to itself only. *)
Theorem isAssignableFrom_spec rt target value :
  hierarchical (class_table rt) -> target < vlen (classes_ rt) -> value < vlen (classes_ rt) ->
  isAssignableFrom rt target value = true <->
  if array_class rt target || array_class rt value then target = value
  else rtc (parent (class_table rt)) value target.
Proof. apply isAssignable_iff. Qed.

Lemma with_streams_classes rt c ps : classes_ (with_streams rt c ps) = classes_ rt.
Proof.
  unfold with_streams. destruct (allocInstance (heap_ rt) c 0) as [o h].
  by destruct (allocInstance h c 0) as [e h'].
Qed.

Lemma newRuntime_classes p : classes_ (newRuntime p) = classes_ (registerBuiltinClasses blankRuntime).
Proof. rewrite newRuntime_streams. exact (with_streams_classes _ _ _). Qed.

Definition rows_ok (t : table) : bool :=
  forallb (fun c => match vget t c with Some (_, d) => d <=? c | None => true end) (indices (vlen t)).

Lemma rows_hierarchical t : rows_ok t = true -> hierarchical t.
Proof.
  unfold rows_ok. rewrite forallb_forall. intros H c d [name Hc].
  specialize (H c). rewrite Hc in H. apply N.leb_le, H, list_elem_of_In, elem_of_indices.
  by eapply vget_Some_lt.
Qed.

Lemma newRuntime_hierarchical p : hierarchical (class_table (newRuntime p)).
Proof.
  unfold class_table. rewrite newRuntime_classes. apply rows_hierarchical. vm_compute. reflexivity.
Qed.

Lemma newRuntime_count p : vlen (classes_ (newRuntime p)) = 24.
Proof. rewrite newRuntime_classes. vm_compute. reflexivity. Qed.

(** StackOverflowError (20) is a Throwable (5), by way of VirtualMachineError and
    Error. *)
Lemma isAssignableFrom_spec_witness :
  exists rt, isAssignableFrom rt 5 20 = true /\ rtc (parent (class_table rt)) 20 5.
Proof.
  exists (registerBuiltinClasses blankRuntime).
  assert (isAssignableFrom (registerBuiltinClasses blankRuntime) 5 20 = true) as H by (vm_compute; reflexivity). split; [exact H|].
  assert (hierarchical (class_table (registerBuiltinClasses blankRuntime))) as Hh by (apply rows_hierarchical; vm_compute; reflexivity).
  pose proof (proj1 (isAssignableFrom_spec (registerBuiltinClasses blankRuntime) 5 20 Hh
    ltac:(vm_compute; reflexivity) ltac:(vm_compute; reflexivity)) H) as Hr.
  assert (array_class (registerBuiltinClasses blankRuntime) 5 ||
          array_class (registerBuiltinClasses blankRuntime) 20 = false) as Ha by (vm_compute; reflexivity).
  rewrite Ha in Hr. exact Hr.
Defined.

(** ** Growth of the registry *)

Lemma grows_get t t' c : table_grows t t' -> c < vlen t -> vget t' c = vget t c.
Proof. intros (l & -> & _) Hc. rewrite vget_app. by rewrite (proj2 (N.ltb_lt _ _)). Qed.

Lemma grows_length t t' : table_grows t t' -> vlen t <= vlen t'.
Proof. intros (l & -> & _). rewrite vlen_app. lia. Qed.

Lemma rtc_grows t t' c d :
  table_grows t t' -> hierarchical t -> c < vlen t -> rtc (parent t') c d <-> rtc (parent t) c d.
Proof.
  intros Hg Hh Hc. assert (forall c d, c < vlen t -> parent t' c d <-> parent t c d) as Hp.
  { intros c' d' Hc'. unfold parent. by rewrite (grows_get _ _ _ Hg Hc'). }
  split; intros Hr; revert Hc.
  - induction Hr as [|a b e Hab _ IH]; intros Ha; [done|]. apply (Hp _ _ Ha) in Hab.
    eapply rtc_l; [exact Hab|]. apply IH. specialize (Hh _ _ Hab). lia.
  - induction Hr as [|a b e Hab _ IH]; intros Ha; [done|].
    eapply rtc_l; [by apply Hp|]. apply IH. specialize (Hh _ _ Hab). lia.
Qed.

Lemma array_class_grows rt rt' c :
  table_grows (class_table rt) (class_table rt') -> c < vlen (classes_ rt) ->
  array_class rt' c = array_class rt c.
Proof.
  intros Hg Hc. rewrite <- class_table_length in Hc. pose proof (grows_get _ _ _ Hg Hc) as E.
  rewrite !class_table_get in E. unfold array_class, classInfo.
  destruct (vget (classes_ rt') c), (vget (classes_ rt) c); try done. injection E as E _. cbn. by rewrite E.
Qed.

Lemma bool_iff (a b : bool) : (a = true <-> b = true) -> a = b.
Proof. destruct a, b; intuition congruence. Qed.

(** Assignability between classes that exist does not change. *)
Lemma isAssignable_grows rt rt' target value :
  table_grows (class_table rt) (class_table rt') -> hierarchical (class_table rt) ->
  target < vlen (classes_ rt) -> value < vlen (classes_ rt) ->
  isAssignableFrom rt' target value = isAssignableFrom rt target value.
Proof.
  intros Hg Hh Ht Hv. apply bool_iff. pose proof (grows_length _ _ Hg) as Hl.
  rewrite !class_table_length in Hl.
  rewrite !isAssignable_iff; try done; try lia; [|by eapply hierarchical_grows].
  rewrite !(array_class_grows rt rt') by done. destruct (_ || _); [done|].
  apply rtc_grows; [done|done|]. by rewrite class_table_length.
Qed.

(** A class registered later is not a superclass of one that existed. *)
Lemma isAssignable_fresh rt rt' target value :
  table_grows (class_table rt) (class_table rt') -> hierarchical (class_table rt) ->
  vlen (classes_ rt) <= target -> value < vlen (classes_ rt) ->
  isAssignableFrom rt' target value = false.
Proof.
  intros Hg Hh Ht Hv. apply not_true_iff_false. intros Ha.
  destruct (decide (target < vlen (classes_ rt'))) as [Hlt|Hge].
  2: { unfold isAssignableFrom in Ha. by rewrite (proj2 (N.leb_le _ _)) in Ha by lia. }
  pose proof (grows_length _ _ Hg) as Hl. rewrite !class_table_length in Hl.
  apply isAssignable_iff in Ha; [|by eapply hierarchical_grows|done|lia].
  destruct (_ || _); [lia|]. apply rtc_below in Ha; [lia|]. by eapply hierarchical_grows.
Qed.

(** ** The search for a handler *)

Definition class_of_name (rt : Runtime) (name : string) : option ClassId :=
  match classByName_ rt !! name with
  | Some v => if isFieldRegistryEntry v then None else Some (N.shiftr v 1)
  | None => None
  end.

(** The specification of a match, on one runtime: handler [h] covers [pc] and catches
    everything, or names a registered class the class of [exc] is assignable to. *)
Definition catches (rt : Runtime) (m : Method) (pc : N) (exc : ObjRef) (h : ExceptionHandler) : bool :=
  covers h pc &&
  (if (0 <=? h_catchType h)%Z then
     match vget (m_cp m) (Z.to_N (h_catchType h)) with
     | Some ct =>
         match class_of_name rt (c_str ct) with
         | Some c => isAssignableFrom rt c (classOf (heap_ rt) exc)
         | None => false
         end
     | None => false
     end
   else true).

(** What a search may change: names that no class had get new classes, and monitors. *)
Record grown (rt rt' : Runtime) : Prop := {
  gr_table : table_grows (class_table rt) (class_table rt');
  gr_name name :
    class_of_name rt' name = class_of_name rt name \/
    class_of_name rt name = None /\
    exists c, class_of_name rt' name = Some c /\ vlen (classes_ rt) <= c;
  gr_class r : classOf (heap_ rt') r = classOf (heap_ rt) r
}.

Lemma registry_grown_refl rt : grown rt rt.
Proof. split; [apply table_same|by left|done]. Qed.

Lemma registry_grown_trans a b c : grown a b -> grown b c -> grown a c.
Proof.
  intros [(l & Ha & Hl) Hn Hc] [(l' & Hb & Hl') Hn' Hc']. split.
  - exists (l ++ l'). rewrite Hb, Ha, app_assoc. split; [done|]. by apply Forall_app.
  - assert (vlen (classes_ a) <= vlen (classes_ b)) as Hle.
    { rewrite <- !class_table_length, Ha, vlen_app. lia. }
    intros name. destruct (Hn' name) as [->|(E & x & -> & Hx)].
    + destruct (Hn name) as [->|Hx]; [by left|by right].
    + right. destruct (Hn name) as [Hs|(_ & y & Hy & _)]; [|congruence]. split; [congruence|].
      exists x. split; [done|lia].
  - intros r. by rewrite Hc', Hc.
Qed.

Lemma grown_length a b : grown a b -> vlen (classes_ a) <= vlen (classes_ b).
Proof. intros H. rewrite <- !class_table_length. apply grows_length, H. Qed.

(** The 32-bit ids of the registry are exact up to 2^31 classes. *)
Definition kMaxClasses : N := 2147483648.

Lemma double_exact x : x < kMaxClasses -> u32 x = x /\ N.shiftr (u32 (x * 2)) 1 = x /\
  isFieldRegistryEntry (u32 (x * 2)) = false.
Proof.
  unfold kMaxClasses. intros H. rewrite !u32_small by (unfold fits32; lia). split; [done|].
  rewrite N.shiftr_div_pow2. change (2 ^ 1) with 2. rewrite N.div_mul by done. split; [done|].
  unfold isFieldRegistryEntry. change (N.land ?a 1) with (N.land a (N.ones 1)).
  rewrite N.land_ones. change (2 ^ 1) with 2. by rewrite N.Div0.mod_mul.
Qed.

Lemma classId_cases rt name cid rt' :
  classId rt name = (cid, rt') -> vlen (classes_ rt') <= kMaxClasses ->
  heap_ rt' = heap_ rt /\ grown rt rt' /\
  (class_of_name rt name = Some cid /\ rt' = rt \/
   class_of_name rt name = None /\ cid = vlen (classes_ rt) /\ vlen (classes_ rt) < vlen (classes_ rt')).
Proof.
  unfold classId. intros H Hmax.
  assert ((u32 (vlen (classes_ rt)),
    with_classes rt (classes_ rt ++ [mkClass name 0 false [] false])
      (<[name := u32 (u32 (vlen (classes_ rt)) * 2)]> (classByName_ rt))) = (cid, rt') ->
    class_of_name rt name = None ->
    heap_ rt' = heap_ rt /\ grown rt rt' /\ cid = vlen (classes_ rt) /\
    vlen (classes_ rt) < vlen (classes_ rt')) as Hfresh.
  { intros [= <- <-] Hno. cbn [heap_ classes_ with_classes] in *. rewrite vlen_app in *.
    change (vlen [_]) with 1 in *.
    destruct (double_exact (vlen (classes_ rt))) as (E1 & E2 & E3); [lia|]. rewrite !E1.
    split_and!; [done| |done|lia]. split; [| |done].
    - exists [(name, 0)]. unfold class_table. cbn. rewrite fmap_app. by repeat constructor.
    - intros s. unfold class_of_name. cbn [classByName_ with_classes].
      destruct (decide (name = s)) as [<-|Hne]; [|rewrite lookup_insert_ne by done; by left].
      right. split; [exact Hno|]. exists (vlen (classes_ rt)).
      by rewrite lookup_insert_eq, E3, E2. }
  unfold class_of_name in *. destruct (classByName_ rt !! name) as [v|] eqn:E.
  - destruct (isFieldRegistryEntry v); cbn [negb] in H.
    + destruct (Hfresh H eq_refl) as (? & ? & ? & ?). split; [done|]. split; [done|by right].
    + injection H as <- <-. split; [done|]. split; [apply registry_grown_refl|by left].
  - destruct (Hfresh H eq_refl) as (? & ? & ? & ?). split; [done|]. split; [done|by right].
Qed.

Lemma class_of_name_lt rt name c : registry_ok rt -> class_of_name rt name = Some c -> c < vlen (classes_ rt).
Proof.
  unfold class_of_name. intros H. destruct (classByName_ rt !! name) as [v|] eqn:E; [|done].
  destruct (isFieldRegistryEntry v) eqn:Ev; [done|]. intros [= <-]. by eapply H.
Qed.

(** What catches does not depend on what a search registered. *)
Lemma catches_grown rt rt' m pc exc h :
  grown rt rt' -> registry_ok rt -> hierarchical (class_table rt) ->
  classOf (heap_ rt) exc < vlen (classes_ rt) ->
  catches rt' m pc exc h = catches rt m pc exc h.
Proof.
  intros Hg Hr Hh Hc. unfold catches. destruct (covers h pc); [|done]. cbn [andb].
  destruct (_ <=? _)%Z; [|done]. destruct (vget _ _) as [ct|]; [|done].
  rewrite (gr_class _ _ Hg). destruct (gr_name _ _ Hg (c_str ct)) as [->|(-> & c & -> & Hle)].
  - destruct (class_of_name rt (c_str ct)) as [c|] eqn:E; [|done].
    apply (isAssignable_grows rt); [apply Hg|done| |done]. by eapply class_of_name_lt.
  - apply (isAssignable_fresh rt); [apply Hg|done|done|done].
Qed.

Lemma find_ext {A} (P Q : A -> bool) l : (forall x, P x = Q x) -> List.find P l = List.find Q l.
Proof. intros H. induction l as [|x l IH]; [done|]. cbn. by rewrite H, IH. Qed.

Lemma keeps_length rt rt' : keeps rt rt' -> vlen (classes_ rt) <= vlen (classes_ rt').
Proof. intros H. rewrite <- !class_table_length. apply grows_length, H. Qed.

Lemma find_handler_keeps m hs pc exc rt r rt' :
  find_handler m hs pc exc rt = Some (r, rt') -> keeps rt rt'.
Proof.
  revert rt. induction hs as [|h hs IH]; intros rt; cbn [find_handler]; [by intros [= _ <-]|].
  destruct (negb _); [apply IH|]. destruct (_ <=? _)%Z; [|by intros [= _ <-]].
  destruct (vget _ _) as [ct|]; [|done]. cbn [mbind option_bind].
  pose proof (keeps_classId rt (c_str ct)) as Hk. destruct (classId rt (c_str ct)) as [c rt1].
  destruct (isAssignableFrom _ _ _); [by intros [= _ <-]|]. intros H%IH. by etrans.
Qed.

(** The search of one table. *)
Lemma find_handler_spec m hs pc exc rt r rt' :
  find_handler m hs pc exc rt = Some (r, rt') -> vlen (classes_ rt') <= kMaxClasses ->
  registry_ok rt -> hierarchical (class_table rt) -> classOf (heap_ rt) exc < vlen (classes_ rt) ->
  r = List.find (catches rt m pc exc) hs /\ grown rt rt' /\ heap_ rt' = heap_ rt /\ registry_ok rt'.
Proof.
  revert rt. induction hs as [|h hs IH]; intros rt; cbn [find_handler List.find].
  { intros [= <- <-] ????. split_and!; [done|apply registry_grown_refl|done|done]. }
  unfold catches at 1. destruct (covers h pc); cbn [negb andb]; [|apply IH].
  destruct (0 <=? h_catchType h)%Z eqn:Hct.
  2: { intros [= <- <-] ????. split_and!; [done|apply registry_grown_refl|done|done]. }
  destruct (vget (m_cp m) (Z.to_N (h_catchType h))) as [ct|]; [|done]. cbn [mbind option_bind].
  destruct (classId rt (c_str ct)) as [cid rt1] eqn:Ec. intros Hf Hmax Hr Hh Hc.
  pose proof (keeps_classId rt (c_str ct)) as Hk. rewrite Ec in Hk. cbn [snd] in Hk.
  assert (vlen (classes_ rt1) <= vlen (classes_ rt')) as Hle.
  { destruct (isAssignableFrom _ _ _); [injection Hf as <- <-; lia|].
    by apply find_handler_keeps, keeps_length in Hf. }
  destruct (classId_cases rt _ _ _ Ec) as (Hheap & Hg & Hcases); [lia|].
  assert (match class_of_name rt (c_str ct) with
    | Some c => isAssignableFrom rt c (classOf (heap_ rt) exc) | None => false end =
    isAssignableFrom rt1 cid (classOf (heap_ rt1) exc)) as ->.
  { rewrite Hheap. destruct Hcases as [[-> ->]|(-> & -> & _)]; [done|].
    symmetry. apply (isAssignable_fresh rt); [apply Hg|done|done|done]. }
  destruct (isAssignableFrom rt1 cid _).
  - injection Hf as <- <-. split_and!; [done|done|done|by apply Hk].
  - pose proof (grown_length _ _ Hg).
    destruct (IH rt1 Hf Hmax) as (-> & Hg' & Hheap' & Hr'); [by apply Hk| |rewrite Hheap; lia|].
    { eapply hierarchical_grows; [apply Hg|done]. }
    split_and!; [|by eapply registry_grown_trans|congruence|done].
    apply find_ext. intros h'. by apply catches_grown.
Qed.

(** ** Unwinding *)

(** [*f.method], for frames with a method. *)
Definition method_of (p : Program) (f : Frame) : Method := default kDummy (frame_method p f).

(** The frames that do not catch, and the first that does with its handler and the
    frames below it. *)
Fixpoint search (p : Program) (rt : Runtime) (exc : ObjRef) (fs : list Frame)
    : list Frame * option (Frame * ExceptionHandler * list Frame) :=
  match fs with
  | [] => ([], None)
  | f :: fs =>
      match List.find (catches rt (method_of p f) (f_pc f) exc) (m_handlers (method_of p f)) with
      | Some h => ([], Some (f, h, fs))
      | None => let '(popped, found) := search p rt exc fs in (f :: popped, found)
      end
  end.

Definition released (ms : list ObjRef) (h : Heap) : Heap :=
  foldl (fun h m => snd (monitorexit h m)) h ms.

Definition unwound (p : Program) (exc : ObjRef) (found : option (Frame * ExceptionHandler * list Frame))
    : option (list Frame) :=
  match found with
  | Some (f, h, fs) => Some (enter_handler (method_of p f) h exc f :: fs)
  | None => None
  end.

Lemma classOf_monitorexit h m r : classOf (snd (monitorexit h m)) r = classOf h r.
Proof.
  unfold monitorexit. destruct (obj h m) as [o|] eqn:E; [|done]. destruct (_ || _); [done|]. cbn [snd].
  unfold classOf. rewrite obj_set_obj by (by rewrite E). destruct (decide (m = r)) as [<-|]; [|done].
  by rewrite E.
Qed.

Lemma classOf_released ms h r : classOf (released ms h) r = classOf h r.
Proof.
  unfold released. revert h. induction ms as [|m ms IH]; intros h; [done|]. cbn.
  by rewrite IH, classOf_monitorexit.
Qed.

Lemma search_grown p rt rt' exc fs :
  grown rt rt' -> registry_ok rt -> hierarchical (class_table rt) ->
  classOf (heap_ rt) exc < vlen (classes_ rt) -> search p rt' exc fs = search p rt exc fs.
Proof.
  intros Hg Hr Hh Hc. induction fs as [|f fs IH]; [done|]. cbn [search].
  rewrite (find_ext _ (catches rt (method_of p f) (f_pc f) exc)).
  - by rewrite IH.
  - intros h. by apply catches_grown.
Qed.

Lemma unwind_grows p exc fs rt o rt' :
  unwind p exc fs rt = Some (o, rt') -> vlen (classes_ rt) <= vlen (classes_ rt').
Proof.
  revert rt. induction fs as [|f fs IH]; intros rt; cbn [unwind]; [intros [= <- <-]; lia|].
  destruct (frame_method p f) as [m|]; [|done]. cbn [mbind option_bind].
  destruct (find_handler m (m_handlers m) (f_pc f) exc rt) as [[h rt1]|] eqn:Ef; [|done].
  apply find_handler_keeps, keeps_length in Ef. cbn [mbind option_bind].
  destruct h as [h|]; [by intros [= <- <-]|]. intros H%IH. cbn in H. lia.
Qed.

Lemma unwind_spec p exc fs rt o rt' :
  unwind p exc fs rt = Some (o, rt') -> vlen (classes_ rt') <= kMaxClasses ->
  registry_ok rt -> hierarchical (class_table rt) -> classOf (heap_ rt) exc < vlen (classes_ rt) ->
  o = unwound p exc (snd (search p rt exc fs)) /\
  heap_ rt' = released (held (fst (search p rt exc fs))) (heap_ rt).
Proof.
  revert rt. induction fs as [|f fs IH]; intros rt; cbn [unwind search]; [by intros [= <- <-]|].
  destruct (frame_method p f) as [m|] eqn:Em; [|done]. cbn [mbind option_bind].
  assert (method_of p f = m) as Hmo by (unfold method_of; by rewrite Em). rewrite Hmo.
  destruct (find_handler m (m_handlers m) (f_pc f) exc rt) as [[h rt1]|] eqn:Ef; [|done].
  cbn [mbind option_bind]. intros H Hmax Hr Hh Hc.
  assert (registry_ok rt1) as Hr1 by (by apply (find_handler_keeps _ _ _ _ _ _ _ Ef)).
  assert (vlen (classes_ rt1) <= kMaxClasses) as Hmax1.
  { destruct h as [h|]; [by injection H as <- <-|]. apply unwind_grows in H. cbn in H. lia. }
  destruct (find_handler_spec _ _ _ _ _ _ _ Ef Hmax1 Hr Hh Hc) as (-> & Hg & Hheap & _).
  destruct (List.find _ _) as [h|].
  - injection H as <- <-. cbn. by rewrite Hmo, Hheap.
  - set (rt2 := releaseMonitorsLIFO rt1 f) in *.
    assert (grown rt rt2) as Hg2.
    { split; [apply Hg|apply Hg|]. intros r. cbn. rewrite Hheap.
      apply (classOf_released (f_monitors f)). }
    pose proof (grown_length _ _ Hg2) as Hle.
    destruct (IH rt2 H Hmax) as (-> & ->); [exact Hr1| | |].
    + eapply hierarchical_grows; [apply Hg2|done].
    + rewrite (gr_class _ _ Hg2). lia.
    + rewrite (search_grown p rt rt2) by done. destruct (search p rt exc fs) as [popped found]. cbn [fst snd].
      split; [done|]. rewrite held_cons. unfold released. rewrite foldl_app. cbn. by rewrite Hheap.
Qed.

(** C24: the exception algorithm. A throw looks through the frames from the innermost
    outwards; the first frame with a handler that covers its pc and catches the class
    of the exception takes it, at the first such handler of its table, with the
    exception in [r0], the other registers dead and the locals and monitors kept; the
    frames in between are gone and exactly their monitors are released; when no
    frame catches, the stack is empty and the exception is the result of the run.
    What catches is decided by the hierarchy as it was at the throw, although the
    search may register the classes that handlers name. *)
Theorem throw_spec p cfg exc s caught s' :
  throwException p cfg exc s = Some (caught, s') ->
  vlen (classes_ (it_rt s')) <= kMaxClasses ->
  registry_ok (it_rt s) -> hierarchical (class_table (it_rt s)) ->
  classOf (heap_ (it_rt s)) exc < vlen (classes_ (it_rt s)) ->
  let '(popped, found) := search p (it_rt s) exc (it_frames s) in
  it_frames s' = default [] (unwound p exc found) /\
  heap_ (it_rt s') = released (held popped) (heap_ (it_rt s)) /\
  match found with
  | Some (f, h, rest) =>
      caught = true /\ it_frames s = popped ++ f :: rest /\
      h ∈ m_handlers (method_of p f) /\ covers h (f_pc f) = true
  | None => caught = false /\ it_frames s = popped /\ rr_exception (it_out s') = exc
  end.
Proof.
  unfold throwException. rewrite it_rt_stat, it_frames_stat. intros H Hmax Hr Hh Hc.
  destruct (unwind p exc (it_frames s) (it_rt s)) as [[o rt']|] eqn:Eu; [|done]. cbn [mbind option_bind] in H.
  assert (it_rt s' = rt') as Hrt by (destruct o; by injection H as <- <-). rewrite Hrt in Hmax.
  destruct (unwind_spec _ _ _ _ _ _ Eu Hmax Hr Hh Hc) as [Ho Hheap].
  assert (forall fs, match snd (search p (it_rt s) exc fs) with
    | Some (f, h, rest) => fs = fst (search p (it_rt s) exc fs) ++ f :: rest /\
        h ∈ m_handlers (method_of p f) /\ covers h (f_pc f) = true
    | None => fs = fst (search p (it_rt s) exc fs) end) as Hsplit.
  { induction fs as [|f fs IH]; [done|]. cbn [search].
    destruct (List.find _ _) as [h|] eqn:Ef.
    - apply find_some in Ef as [Hin Hcat]. cbn. split_and!; [done|by apply list_elem_of_In|].
      by apply andb_true_iff in Hcat as [? _].
    - destruct (search p (it_rt s) exc fs) as [popped found]. cbn [fst snd] in *.
      destruct found as [[[g h] rest]|]; [|by f_equal]. destruct IH as (E & ? & ?).
      split_and!; [|done|done]. cbn. by rewrite E at 1. }
  specialize (Hsplit (it_frames s)).
  destruct (search p (it_rt s) exc (it_frames s)) as [popped found]. cbn [fst snd] in *.
  rewrite Hrt. destruct found as [[[f h] rest]|]; cbn [unwound] in Ho; subst o; injection H as <- <-; cbn.
  - split_and!; [done|done|done|apply Hsplit..].
  - done.
Qed.

(** [f] calls [g], which divides by zero; [f] catches every Exception. *)
Definition catching_program : Program := mkProgram "T" [
  mkMethod "f" "()I" public_static 2 0
    [ins Op.Invokestatic 0 0 0 0; ins Op.Ireturn 0 0 0 0; ins Op.Iconst 1 0 0 7; ins Op.Ireturn 0 1 0 0]
    [method_const "T" "g" "()I"; class_const "java/lang/Exception"] [mkHandler 0 2 2 1];
  mkMethod "g" "()I" public_static 2 0
    [ins Op.Iconst 0 0 0 0; ins Op.Idiv 1 0 0 0; ins Op.Ireturn 0 1 0 0] [] []].

Definition catching_state (rt : Runtime) : Interp :=
  mkInterp rt [mkFrame (Some 1) 1 [] [intVal 0; bottom] [] 0 0; mkFrame (Some 0) 0 [] [bottom; bottom] [] 0 0]
    [] [] newResult.

Definition catching_check (rt : Runtime) : bool :=
  match makeException rt kClsArithmetic kMsgDivByZero with
  | Some (exc, rt) =>
      (classOf (heap_ rt) exc <? vlen (classes_ rt)) &&
      match throwException catching_program default_config exc (catching_state rt) with
      | Some (caught, s') => caught && (vlen (classes_ (it_rt s')) <=? kMaxClasses)
      | None => false
      end
  | None => false
  end.

Lemma catching_check_facts rt0 :
  registry_ok rt0 -> hierarchical (class_table rt0) -> catching_check rt0 = true ->
  exists exc rt s',
    throwException catching_program default_config exc (catching_state rt) = Some (true, s') /\
    vlen (classes_ (it_rt s')) <= kMaxClasses /\ registry_ok rt /\ hierarchical (class_table rt) /\
    classOf (heap_ rt) exc < vlen (classes_ rt).
Proof.
  intros Hr Hh H. destruct (makeException_ok rt0 kClsArithmetic kMsgDivByZero Hr) as (exc & rt & E & Hk).
  unfold catching_check in H. rewrite E in H. apply andb_true_iff in H as [H1%N.ltb_lt H2].
  destruct (throwException _ _ _ _) as [[caught s']|] eqn:Et; [|done].
  apply andb_true_iff in H2 as [-> H2%N.leb_le].
  exists exc, rt, s'. split_and!; [done|done|by apply Hk| |done].
  eapply hierarchical_grows; [apply Hk|done].
Qed.

Lemma catching_checked : catching_check (newRuntime catching_program) = true.
Proof. vm_compute. reflexivity. Qed.

Lemma throw_spec_witness :
  exists exc rt s', throwException catching_program default_config exc (catching_state rt) = Some (true, s') /\
    let '(popped, found) := search catching_program rt exc (it_frames (catching_state rt)) in
    it_frames s' = default [] (unwound catching_program exc found) /\
    heap_ (it_rt s') = released (held popped) (heap_ rt).
Proof.
  destruct (catching_check_facts _ (proj1 (newRuntime_ok catching_program))
    (newRuntime_hierarchical catching_program) catching_checked)
    as (exc & rt & s' & Ht & Hmax & Hr & Hh & Hc).
  exists exc, rt, s'. split; [exact Ht|].
  pose proof (throw_spec catching_program default_config exc (catching_state rt) true s' Ht Hmax Hr Hh Hc) as H.
  change (it_rt (catching_state rt)) with rt in H.
  destruct (search catching_program rt exc (it_frames (catching_state rt))) as [popped found].
  destruct H as (H1 & H2 & _). split; [exact H1|exact H2].
Defined.
