(* ===== verification/InterpLimits.v ===== *)
(** * Where the interpreter departs from its contract

    Behaviour of accepted programs that the contract of the interpreter
    (docs/interp_contract.md) does not describe: class initialisation runs method 0
    of the table without locals, array loads trust the instruction and not the array,
    and a call that traps into a handler of its caller is profiled as a dispatch.
    Each program below passes the verifier. *)

From Stdlib Require Import Ascii String.
From S2P Require Import Prelude RbcOpcode Rbc RbcVerifier RbcSound Machine ConstFold.
From S2P Require Import Heap JavaString Runtime Frame Interp Dispatch RuntimeInv InterpInv InterpSafe.
From S2P Require Import InterpRun.

Local Open Scope N_scope.

(** ** Class initialisation *)

(** [static int x;], set to 5 by the class initialiser. *)
Definition static_x : Const := field_const "T" "x" "I".

Definition init_x : Method :=
  mkMethod "<clinit>" "()V" public_static 1 0
    [ins Op.Iconst 0 0 0 5; ins Op.Putstatic 0 0 0 0; ins Op.Return 0 0 0 0] [static_x] [].

Definition read_x : Method :=
  mkMethod "f" "()I" public_static 1 0
    [ins Op.Getstatic 0 0 0 0; ins Op.Ireturn 0 0 0 0] [static_x] [].

(** The initialiser before its reader, and after it. *)
Definition init_first : Program := mkProgram "T" [init_x; read_x].
Definition init_second : Program := mkProgram "T" [read_x; init_x].

(** How a run ended, for the statements below. *)
Definition returned (e : option ending) : option Value :=
  match e with
  | Some (Halted RunStatus.Returned s) => Some (rr_result (it_out s))
  | _ => None
  end.

Abbreviation run_f p := (run p default_config 100 100 "f" "()I" [] (newInterp p)).

(** Class initialisation runs method 0. When an instruction needs the program
    class initialised and there is room for a frame, the frame that is pushed runs
    the method at index 0 of the table, whatever index [<clinit>] has: the class is
    marked before the initialiser is looked up, and the lookup returns 0 for a class
    that is marked. The frame has no locals, whatever the method declares. *)
Theorem initialiser_is_method_zero p cfg c s caller fs :
  it_frames s = caller :: fs -> vlen (it_frames s) < cf_maxFrames cfg ->
  needsInit p (it_rt s) c = true ->
  exists s', initClassIfNeeded p cfg c s = Some (InitFlow.PushedClinit, s') /\
    it_frames s' = mkFrame (Some 0) 0 [] (replicate (N.to_nat (m_numRegs (method p 0))) bottom) [] 0
                     (f_pc caller) :: caller :: fs.
Proof.
  intros Hf Hmax Hn. unfold initClassIfNeeded. rewrite Hn. cbn [negb]. unfold pushClinit.
  cbn [it_rt it_frames with_rt]. rewrite findClinit_marked. rewrite (proj2 (N.leb_gt _ _)) by done.
  unfold top. cbn [it_frames with_rt]. rewrite Hf. cbn [mbind option_bind].
  eexists. split; [reflexivity|]. unfold bump_invocations, push_frame. cbn [it_frames with_rt].
  rewrite it_frames_stat. cbn. by rewrite Hf.
Qed.

Definition reading_frame : Frame := mkFrame (Some 0) 0 [] [bottom] [] 0 0.

Definition registered (p : Program) : Interp :=
  with_frames (with_rt (newInterp p) (snd (classId (newRuntime p) "T"))) [reading_frame].

Lemma registered_needs_init : needsInit init_second (it_rt (registered init_second)) 24 = true.
Proof. vm_compute. reflexivity. Qed.

Lemma run_init_second : returned (run_f init_second) = Some (intVal 0).
Proof. vm_compute. reflexivity. Qed.

Lemma run_init_first : returned (run_f init_first) = Some (intVal 5).
Proof. vm_compute. reflexivity. Qed.

(** With the initialiser second, [f] reads 0 and not 5. *)
Lemma initialiser_is_method_zero_witness :
  returned (run_f init_first) = Some (intVal 5) /\ returned (run_f init_second) = Some (intVal 0) /\
  exists s', initClassIfNeeded init_second default_config 24 (registered init_second) =
      Some (InitFlow.PushedClinit, s') /\
    it_frames s' = [reading_frame; reading_frame].
Proof.
  split; [exact run_init_first|]. split; [exact run_init_second|].
  exact (initialiser_is_method_zero init_second default_config 24 (registered init_second) reading_frame []
    eq_refl eq_refl registered_needs_init).
Defined.

(** An initialiser at index 0 with a local variable. *)
Definition init_with_local : Program := mkProgram "T" [
  mkMethod "<clinit>" "()V" public_static 1 1
    [ins Op.Iconst 0 0 0 5; ins Op.Istore 0 0 0 0; ins Op.Return 0 0 0 0] [static_x] [];
  read_x].

(** A class initialiser with a local variable leaves defined behaviour. The program
    passes the verifier, which checks its initialiser against the locals it declares;
    the frame it runs in has none, so its first store indexes an empty vector. The
    condition on the initialiser in the safety theorem is needed. *)
Theorem clinit_locals_undefined :
  verify_all 100 (p_methods init_with_local) = Some None /\
  run_f init_with_local = Some Undefined.
Proof. split; vm_compute; reflexivity. Qed.

(** ** Value types *)

(** [int f()]: allocates an array of one object reference and reads it with [iaload]. *)
Definition confused : Program := mkProgram "T" [
  mkMethod "f" "()I" public_static 3 0
    [ins Op.Iconst 0 0 0 1; ins Op.AnewArray 0 0 0 0; ins Op.Iconst 1 0 0 0; ins Op.Iaload 2 0 1 0;
     ins Op.Ireturn 0 2 0 0]
    [class_const "java/lang/Object"] []].

(** The verifier does not make the interpreter type safe. A program that passes it
    returns a null reference from a method that returns int: a register that the
    verifier types as an array reference does not say of what, and the array loads of
    the interpreter do not compare the array's elements with the instruction. *)
Theorem accepted_int_method_returns_null :
  verify_all 100 (p_methods confused) = Some None /\
  returned (run_f confused) = Some nullVal.
Proof. split; vm_compute; reflexivity. Qed.

(** ** Dispatch profiles *)

(** [f] calls an abstract method and catches whatever that throws. *)
Definition trapping : Program := mkProgram "T" [
  mkMethod "f" "()I" public_static 2 0
    [ins Op.Invokestatic 0 0 0 0; ins Op.Ireturn 0 0 0 0; ins Op.Iconst 1 0 0 7; ins Op.Ireturn 0 1 0 0]
    [method_const "T" "g" "()I"] [mkHandler 0 2 2 (-1)];
  mkMethod "g" "()I" (N.lor public_static method_flags.Abstract) 0 0 [] [] []].

(** The frames pushed by calls, and the count of the site at pc 0 of method 0. *)
Definition profile_of (e : option ending) : option (N * N) :=
  match e with
  | Some (Halted _ s) =>
      ps ← vget (it_profiles s) 0; d ← vget ps 0;
      Some (st_calls (rr_stats (it_out s)), dp_count d)
  | _ => None
  end.

(** A call that traps is profiled when its caller catches the trap. The run pushes
    no frame (its call raises NoSuchMethodError, which the caller catches and returns
    7), yet the dispatch profile of the call site counts one successful dispatch:
    [pushCall] also returns true when a handler caught its exception. *)
Theorem caught_trap_is_profiled :
  verify_all 100 (p_methods trapping) = Some None /\
  returned (run_f trapping) = Some (intVal 7) /\
  profile_of (run_f trapping) = Some (0, 1).
Proof. split_and!; vm_compute; reflexivity. Qed.
